(* ===== verification/_CoqProject ===== *)
-Q . S2P
Prelude.v
Constants.v
Hex.v
Limbs.v
Asert.v
Work.v
Rules.v
Checkpoint.v
Blake3.v
Codec.v
Crypto.v
Bech32m.v
Merkle.v
TxRules.v
ChainTypes.v
State.v
Body.v
ChainWork.v
Index.v
ForkChoice.v
Gates.v
CheckpointStore.v
BodyEquiv.v
Reorg.v
Budget.v
Ingest.v
IngestInv.v
Mempool.v
MempoolInv.v
MempoolProps.v
TxIngress.v
History.v
Manager.v
ManagerInv.v
MemStore.v
ManagerBoot.v
ManagerRun.v
ManagerProps.v
Aes.v
Isochron.v
IsochronProps.v
P2pConstants.v
P2pWire.v
P2pWireProps.v
P2pPeer.v
P2pPeerProps.v
P2pSession.v
P2pGates.v
P2pSync.v
P2pSyncProps.v
Crc32c.v
StoreCodec.v
StoreFiles.v
StoreFilesProps.v
StoreCrash.v
StoreTables.v
StoreProps.v
StoreRecover.v
Lru.v
Abuse.v
AbuseProps.v
Stratum.v
StratumProps.v
JobProps.v
