(* ===== verification/Prelude.v ===== *)
(** * Plaine: a verification of the node's core

    Plaine is a proof-of-work coin. This library models, in executable Rocq
    definitions, the logic of its node: the consensus crate (src/lib/consensus), the
    chain crate (src/lib/chain), the proof-of-work function (src/lib/pow), the wire
    protocol, peer records and synchronisation of the peer-to-peer crate
    (src/lib/p2p), the files and tables of the store (src/lib/storage) and the data
    of the mining server (src/lib/stratum), and proves the properties that make them
    correct. Names of definitions follow the names of the code.

    How the parts interact: peers send frames ([P2pWire]) whose headers pass the
    gates of the peer-to-peer layer ([P2pGates]) and its staging ([P2pSync]) before
    they reach the chain manager ([Manager]). The manager admits them ([Ingest]),
    chooses the best branch ([ForkChoice], [Rules]), validates it ([Reorg], [Body]),
    commits it through the [Sink] interface and keeps the mempool in step. The store
    keeps headers and bodies in segment files and accounts in tables. The mining
    server hands out templates as jobs and takes shares back.

    ** Conventions

    - Machine integers are [Z], with the width written where it matters:
      [checked_add w], [saturating_add w], [wrap w]. The release profile of the
      workspace sets [overflow-checks = true], so plain [+], [-] and [*] that
      overflow are panics.
    - [outcome E A] is [Result<A, E>] plus [Panic]: a failed [expect], an index
      out of range, an arithmetic overflow, a failed [assert!]. [debug_assert!]
      is compiled out of a release build; where one states a precondition it is a
      hypothesis of the theorems.
    - Byte strings are lists of [Z] in [0, 256). Hashes are byte strings of length
      32. Claims that need distinct inputs to hash differently are stated with
      the disjunct [blake3_collision], an explicit pair of inputs with one hash;
      nothing is assumed about BLAKE3.
    - ed25519 is not under src/: it is the class [Ed25519] (Crypto), a parameter of
      everything that verifies signatures. The traits between components are
      classes: [ChainView] with its laws (discharged by the header arena), [ChainIO]
      with [ChainIOLaws] for store, sink, verifier and clock (discharged by the
      in-memory store), [BitsRule] for the difficulty rule of the p2p gates. The
      database engine redb is not under src/: the class [Redb] with [RedbLaws], kept
      by tables that are finite maps. The token bucket of accepted mining connections
      counts in floating point and is a parameter.
    - Files are lists of bytes, without errors of the operating system. Where a
      storage operation fails half way, what is left of its in-memory copy of the
      meta rows is not modelled: the code poisons the committer and drops it.
    - Loops that are not structural carry fuel, and a theorem shows the fuel is
      enough: 64 levels of the BLAKE3 stack (a [u64] counter), 32 levels of a
      Merkle proof (a [u32] width), the size of the arena for walks along parents,
      the difference of heights for [ancestor_of], twice the nodes plus one for
      [advance_loop], the buffer's length for the frame reader, the file's length plus
      one for the scan of a segment, the watermark plus one for the reconciliation of
      heights (running out is [Panic], shown not to happen), the table's size plus one
      for evictions, the vector's length plus one for the scan of [Lru], [2^24] for
      the slices of [acquire] (the bound of the code's own loop).

    ** Files, in dependency order

    - [Prelude]: outcomes and their notation ([let?], [guard!]), machine integers,
      bytes, the [no_panic] automation, lists indexed by integers.
    - [Constants] (constants.rs, emission.rs), [Hex] (hex.rs).
    - [Limbs], [Asert] (asert.rs): 256-bit targets as limbs, compact bits, the ASERT
      difficulty update; it refines a closed formula over the integers, stays
      within [1, limit] and within its machine types.
    - [Work], [Rules], [Checkpoint] (rules.rs, checkpoint_record.rs): 512-bit work,
      the [ChainView] interface with its laws, [evaluate_reorg] and the proof that
      accepted reorganisations never cycle, signed checkpoints.
    - [Blake3] (blake3.rs): the incremental hasher refines the recursive tree.
    - [Codec], [Crypto], [Merkle], [TxRules] (codec.rs, crypto.rs, pow.rs, merkle.rs,
      tx.rs): the wire format is bijective, roots bind transactions, inclusion
      proofs are sound and complete, coinbase and announcement rules.
    - [ChainTypes] (types.rs, error.rs), [State] (state.rs), [Body] (body.rs): the
      account overlay with its undo log and the validation of a block: it
      conserves the supply, can be taken back exactly, spends nonces
      consecutively and never spends immature rewards.
    - [BodyEquiv]: validation as a function of the accounts ([block_post]), the
      abstract specification the overlay refines; replay of accepted blocks.
    - [Reorg] (reorg.rs, the Store trait): rewinding to a fork by undo records or by
      snapshot and replay, the maturity ledger, validation of a branch. A store
      holds a history of account states ([holds_history]); the rewind reaches the
      fork's state.
    - [ChainWork] (work.rs), [Index] (index.rs), [ForkChoice] (forkchoice.rs), [Gates]
      (gates.rs): the header arena with its reachability invariant, the walks
      along parents, invalidation, fork choice and its independence of arrival
      order; the arena discharges the [ChainView] laws, so adopting the best
      branch is a step of the abstract reorganisation rule.
    - [CheckpointStore] (checkpoints.rs): enforced checkpoints and the anchor.
    - [Budget], [Ingest], [IngestInv] (header.rs): rate limits of header ingest, and
      the whole batch. [IngestInv] ties index and staging to one record of known
      headers and shows that a batch never panics and indexes only legal,
      verified headers, hence an index fork choice is verified on.

    - [Bech32m] (bech32m.rs): the text of an address; every address has one text up
      to case, and no mistyped neighbour is another address.
    - [Mempool], [MempoolInv], [MempoolProps], [TxIngress] (mempool.rs): admission,
      replacement, eviction, templates; the five collections agree after every
      operation, a template can be mined as it stands.
    - [History], [Manager], [ManagerInv], [MemStore], [ManagerBoot], [ManagerRun],
      [ManagerProps] (manager.rs, traits.rs, mock.rs): the manager as a state machine.
      Whatever events it is fed it implements an abstract ledger, never panics,
      starts from any store that holds a history, and reports progress truthfully.
    - [Aes], [Isochron], [IsochronProps] (src/lib/pow): the proof-of-work function; it
      is total and the optimised fill is the reference fill. The start-up check's
      first vector was evaluated with these definitions outside the library, where
      it takes too long to be rechecked.
    - [P2pConstants], [P2pWire], [P2pWireProps] (constants.rs, wire/): messages decode
      from exactly their encoding, the frame reader reassembles any cutting of a
      stream.
    - [P2pPeer], [P2pPeerProps], [P2pSession], [P2pGates] (peer/, gate/): budgets,
      scores, bans, sessions and the gates, with the two panics a peer can cause.
    - [P2pSync], [P2pSyncProps] (sync/): stall clock, rotation, fork tree, staging.
    - [Crc32c], [StoreCodec], [StoreFiles], [StoreFilesProps], [StoreCrash] (crc32c.rs,
      codec.rs, segment.rs, posio.rs and the file operations of committer.rs): the
      checksum is the polynomial division, rows round-trip, a body segment is the
      list of its bodies, an interrupted header overwrite is undone by its journal.
    - [StoreTables], [StoreProps], [StoreRecover] (meta.rs, tables.rs, committer.rs,
      recover.rs, integrity.rs): a committed block is taken back exactly, headers are
      found by hash, a reopened store has headers that link.
    - [Lru], [Abuse], [AbuseProps] (stratum abuse.rs): the table of recently used rows
      refines the list of its rows; no traffic makes the server forget a ban.
    - [Stratum], [StratumProps], [JobProps] (stratum target.rs, nonce.rs, job.rs): share
      targets are exact quotients, a nonce slice has one holder, a share is judged by
      the whole history of jobs and a replayed one is refused.

    ** Not modelled

    The sockets, threads and channels of the peer-to-peer crate with its event loop
    and address book; of the store the digests of sealed segments, the background
    sweeper, the cache of open files and the order in which the disk is flushed; of
    the mining server its sessions, JSON text and the floating-point adjustment of
    difficulty; the RPC server, the node's process wiring, the miner and the wallets,
    which are input, output and user interface around the parts above; ed25519, which
    is a library. Texts of errors are left out everywhere. *)

From Stdlib Require Import ZArith Lia List.
From stdpp Require Import base list gmap numbers decidable.

Declare Scope plaine_scope.
Delimit Scope plaine_scope with plaine.
Open Scope Z_scope.
Open Scope plaine_scope.

(** ** Outcomes: [Result<A, E>] plus the panics of the language

    [Panic] stands for [expect] on [None], an [assert!] that fails, a division
    by zero, an index out of range and, since the workspace builds release
    binaries with [overflow-checks = true], an arithmetic overflow. *)
Inductive outcome (E A : Type) : Type :=
| Ok (a : A)
| Err (e : E)
| Panic.
Arguments Ok {E A} a.
Arguments Err {E A} e.
Arguments Panic {E A}.

Definition obind {E A B} (m : outcome E A) (k : A -> outcome E B) : outcome E B :=
  match m with
  | Ok a => k a
  | Err e => Err e
  | Panic => Panic
  end.

Notation "'let?' x ':=' m 'in' k" := (obind m (fun x => k))
  (at level 10, x pattern, m at level 200, k at level 200,
   format "'[v' 'let?'  x  ':='  m  'in' '/' k ']'") : plaine_scope.

Notation "'guard!' b 'else' e ';;' k" := (if b then Err e else k)
  (at level 10, b at level 200, e at level 99, k at level 200,
   format "'[v' 'guard!'  b  'else'  e  ';;' '/' k ']'") : plaine_scope.

(** [Result::map_err], [Option::ok_or] and [Option::expect]. *)
Definition map_err {E F A} (f : E -> F) (m : outcome E A) : outcome F A :=
  match m with
  | Ok a => Ok a
  | Err e => Err (f e)
  | Panic => Panic
  end.

Definition ok_or {E A} (o : option A) (e : E) : outcome E A :=
  match o with
  | Some a => Ok a
  | None => Err e
  end.

Definition expect {E A} (o : option A) : outcome E A :=
  match o with
  | Some a => Ok a
  | None => Panic
  end.

(** [iter().map(f).collect::<Result<Vec<_>, _>>()], [f] given the index too. *)
Fixpoint try_mapi {E A B} (f : nat -> A -> outcome E B) (i : nat) (l : list A)
    : outcome E (list B) :=
  match l with
  | [] => Ok []
  | x :: l =>
    let? y := f i x in
    let? ys := try_mapi f (S i) l in
    Ok (y :: ys)
  end.

(** ** Machine integers: unbounded [Z] plus the width of the type *)
Definition fits (w x : Z) : bool := (0 <=? x) && (x <? 2 ^ w).
Definition wrap (w x : Z) : Z := x mod 2 ^ w.
Definition umax (w : Z) : Z := 2 ^ w - 1.
Definition checked (w x : Z) : option Z := if fits w x then Some x else None.
Definition checked_add (w a b : Z) : option Z := checked w (a + b).
Definition checked_sub (w a b : Z) : option Z := checked w (a - b).
Definition saturating_add (w a b : Z) : Z := Z.min (a + b) (umax w).
Definition saturating_sub (a b : Z) : Z := Z.max 0 (a - b).
Definition saturating_mul (w a b : Z) : Z := Z.min (a * b) (umax w).
(** [a + b], [a - b] and [a * b] under overflow checks. *)
Definition add_checked {E} (w a b : Z) : outcome E Z := expect (checked_add w a b).
Definition rotate_left (w x k : Z) : Z :=
  wrap w (Z.lor (Z.shiftl x (k mod w)) (Z.shiftr x ((w - k mod w) mod w))).
Definition rotate_right (w x k : Z) : Z :=
  wrap w (Z.lor (Z.shiftr x (k mod w)) (Z.shiftl x ((w - k mod w) mod w))).

(** ** Byte strings: [list Z], every element in [0, 256) *)
Abbreviation bytes := (list Z).
Definition byte_ok (b : Z) : Prop := 0 <= b < 256.
Definition bytes_ok (l : bytes) : Prop := Forall byte_ok l.
Definition Zlen {A} (l : list A) : Z := Z.of_nat (length l).

Fixpoint le_bytes (n : nat) (x : Z) : bytes :=
  match n with
  | O => []
  | S n => x mod 256 :: le_bytes n (x / 256)
  end.
Fixpoint from_le (b : bytes) : Z :=
  match b with
  | [] => 0
  | h :: t => h + 256 * from_le t
  end.
Definition be_bytes (n : nat) (x : Z) : bytes := rev (le_bytes n x).
Definition from_be (b : bytes) : Z := from_le (rev b).

(** [&b[i..j]] and [b[i]], used where the code has already checked the range. *)
Definition slice {A} (b : list A) (i j : Z) : list A :=
  take (Z.to_nat (j - i)) (drop (Z.to_nat i) b).
Definition byte_at (b : bytes) (i : Z) : Z := default 0 (b !! Z.to_nat i).

(** [Ord] on byte arrays: lexicographic. *)
Fixpoint bytes_cmp (a b : bytes) : comparison :=
  match a, b with
  | [], [] => Eq
  | [], _ :: _ => Lt
  | _ :: _, [] => Gt
  | x :: a, y :: b =>
    match x ?= y with
    | Eq => bytes_cmp a b
    | c => c
    end
  end.
Definition bytes_ltb (a b : bytes) : bool := match bytes_cmp a b with Lt => true | _ => false end.
Definition bytes_leb (a b : bytes) : bool := match bytes_cmp a b with Gt => false | _ => true end.
Definition bytes_eqb (a b : bytes) : bool := bool_decide (a = b).

(** The fold of a loop whose body may return early with an error or panic. *)
Fixpoint ofold {E A S} (f : S -> A -> outcome E S) (s : S) (l : list A) : outcome E S :=
  match l with
  | [] => Ok s
  | x :: l => let? s' := f s x in ofold f s' l
  end.

Definition zrange (a b : Z) : list Z := (fun i => a + Z.of_nat i) <$> seq 0 (Z.to_nat (b - a)).

(** [v[i]] and [v[i] = x] on a [Vec], the index a machine integer: a lookup out of
    range is [None], which the code's indexing turns into a panic. *)
Definition zlookup {A} (l : list A) (i : Z) : option A := if 0 <=? i then l !! Z.to_nat i else None.
Definition zinsert {A} (l : list A) (i : Z) (x : A) : list A := if 0 <=? i then <[Z.to_nat i := x]> l else l.

(** ** Automation *)
Create HintDb plaine discriminated.

Ltac invert_ok :=
  repeat match goal with
  | H : Ok _ = Ok _ |- _ => injection H as H; subst
  | H : Err _ = Err _ |- _ => injection H as H; subst
  | H : Ok _ = Err _ |- _ => discriminate H
  | H : Err _ = Ok _ |- _ => discriminate H
  | H : Panic = Ok _ |- _ => discriminate H
  | H : Panic = Err _ |- _ => discriminate H
  | H : Err _ = Panic |- _ => discriminate H
  | H : Ok _ = Panic |- _ => discriminate H
  | H : Some _ = Some _ |- _ => injection H as H; subst
  | H : Some _ = None |- _ => discriminate H
  | H : None = Some _ |- _ => discriminate H
  end.

(** Peels one [let?] or [guard!] off a hypothesis that says the code succeeded. *)
Ltac step_in H :=
  match type of H with
  | obind ?m _ = _ =>
    let E := fresh "E" in destruct m eqn:E; cbn [obind] in H; try discriminate H
  | (if ?b then _ else _) = _ =>
    let E := fresh "G" in destruct b eqn:E; try discriminate H
  | (match ?x with _ => _ end) = _ =>
    let E := fresh "M" in destruct x eqn:E; try discriminate H
  end.
Ltac steps_in H := repeat step_in H.

Ltac to_prop :=
  repeat match goal with
  | H : (_ && _)%bool = true |- _ => apply andb_true_iff in H; destruct H
  | H : (_ && _)%bool = false |- _ => apply andb_false_iff in H
  | H : (_ || _)%bool = false |- _ => apply orb_false_iff in H; destruct H
  | H : (_ || _)%bool = true |- _ => apply orb_true_iff in H
  | H : negb _ = true |- _ => apply negb_true_iff in H
  | H : negb _ = false |- _ => apply negb_false_iff in H
  | H : (_ <? _) = true |- _ => apply Z.ltb_lt in H
  | H : (_ <? _) = false |- _ => apply Z.ltb_ge in H
  | H : (_ <=? _) = true |- _ => apply Z.leb_le in H
  | H : (_ <=? _) = false |- _ => apply Z.leb_gt in H
  | H : (_ =? _) = true |- _ => apply Z.eqb_eq in H
  | H : (_ =? _) = false |- _ => apply Z.eqb_neq in H
  | H : bool_decide _ = true |- _ => apply bool_decide_eq_true in H
  | H : bool_decide _ = false |- _ => apply bool_decide_eq_false in H
  end.

(** ** Lemmas on outcomes *)
Lemma Ok_inj {E A} (a b : A) : @Ok E A a = Ok b -> a = b.
Proof. by intros [= ->]. Qed.

Lemma obind_ok {E A B} (m : outcome E A) (k : A -> outcome E B) b :
  obind m k = Ok b <-> exists a, m = Ok a /\ k a = Ok b.
Proof.
  destruct m; cbn; split; intros H.
  1: by exists a. 1: by destruct H as (? & [= ->] & ?).
  all: try done. all: by destruct H as (? & ? & ?).
Qed.

Lemma map_err_ok {E F A} (f : E -> F) (m : outcome E A) a :
  map_err f m = Ok a <-> m = Ok a.
Proof. destruct m; cbn; split; congruence. Qed.

Lemma ok_or_ok {E A} (o : option A) (e : E) a : ok_or o e = Ok a <-> o = Some a.
Proof. destruct o; cbn; split; congruence. Qed.

Lemma expect_ok {E A} (o : option A) a : @expect E A o = Ok a <-> o = Some a.
Proof. destruct o; cbn; split; congruence. Qed.

Lemma try_mapi_ok {E A B} (f : nat -> A -> outcome E B) l i ys :
  try_mapi f i l = Ok ys ->
  length ys = length l /\
  forall k x, l !! k = Some x -> exists y, ys !! k = Some y /\ f (i + k)%nat x = Ok y.
Proof.
  revert i ys. induction l as [|x l IH]; intros i ys H; cbn in H.
  - invert_ok. split; [done|]. intros k x Hk. done.
  - steps_in H. invert_ok. destruct (IH _ _ E1) as [Hlen Hl].
    split; [cbn; lia|]. intros [|k] z Hz; cbn in Hz |- *.
    + invert_ok. exists a. split; [done|]. by rewrite Nat.add_0_r.
    + destruct (Hl k z Hz) as (y & Hy & Hf). exists y. split; [done|].
      rewrite <-Hf. f_equal. lia.
Qed.

Lemma try_mapi_all_ok {E A B} (f : nat -> A -> outcome E B) (g : A -> B) l i :
  (forall k x, l !! k = Some x -> f (i + k)%nat x = Ok (g x)) ->
  try_mapi f i l = Ok (g <$> l).
Proof.
  revert i. induction l as [|x l IH]; intros i H; [done|]. cbn.
  pose proof (H 0%nat x eq_refl) as H0. rewrite Nat.add_0_r in H0. rewrite H0. cbn.
  rewrite IH; [done|]. intros k y Hy. specialize (H (S k) y Hy).
  by rewrite <-H; f_equal; lia.
Qed.

(** A check with no result decides [P]: it returns [Ok] when [P] holds, an
    error when it does not, and never panics. *)
Definition decides {E} (m : outcome E unit) (P : Prop) : Prop :=
  (m = Ok tt /\ P) \/ (exists e, m = Err e /\ ~ P).

Lemma decides_ok {E} (m : outcome E unit) P : decides m P -> m = Ok tt <-> P.
Proof. intros [[-> H]|(e & -> & H)]; split; try done. Qed.

Lemma decides_iff {E} (m : outcome E unit) P Q : (P <-> Q) -> decides m P -> decides m Q.
Proof. unfold decides. intros HPQ [?|(e & ? & ?)]; [left|right; exists e]; tauto. Qed.

Lemma decides_guard {E} (b : bool) (e : E) (m : outcome E unit) P :
  decides m P -> decides (guard! b else e ;; m) (b = false /\ P).
Proof.
  intros H. destruct b.
  - right. exists e. split; [done|]. by intros [? _].
  - eapply decides_iff; [|done]. tauto.
Qed.

Lemma decides_bind {E} (m k : outcome E unit) P Q :
  decides m P -> (P -> decides k Q) -> decides (obind m (fun _ => k)) (P /\ Q).
Proof.
  intros [[-> H]|(e & -> & H)] Hk; cbn.
  - eapply decides_iff; [|by apply Hk]. tauto.
  - right. exists e. tauto.
Qed.

(** Code that cannot panic. *)
Lemma np_bind {E A B} (m : outcome E A) (k : A -> outcome E B) :
  m <> Panic -> (forall a, m = Ok a -> k a <> Panic) -> obind m k <> Panic.
Proof. destruct m; cbn; auto; done. Qed.
Lemma np_map_err {E F A} (f : E -> F) (m : outcome E A) : m <> Panic -> map_err f m <> Panic.
Proof. by destruct m. Qed.
Lemma np_ok_or {E A} (o : option A) (e : E) : ok_or o e <> Panic.
Proof. by destruct o. Qed.
Lemma np_try_mapi {E A B} (f : nat -> A -> outcome E B) l : forall i,
  (forall k x, f k x <> Panic) -> try_mapi f i l <> Panic.
Proof.
  induction l as [|x l IH]; intros i Hf; cbn; [done|]. apply np_bind; [done|]. intros y _.
  apply np_bind; [by apply IH|done].
Qed.
Lemma ofold_app {E A S} (f : S -> A -> outcome E S) l1 l2 s :
  ofold f s (l1 ++ l2) = (let? s' := ofold f s l1 in ofold f s' l2).
Proof. revert s. induction l1 as [|x l1 IH]; intros s; cbn; [done|]. destruct (f s x); cbn; [apply IH|done..]. Qed.
Lemma np_ofold {E A S} (f : S -> A -> outcome E S) l : forall s,
  (forall s x, f s x <> Panic) -> ofold f s l <> Panic.
Proof. induction l as [|x l IH]; intros s Hf; cbn; [done|]. apply np_bind; [done|]. intros. by apply IH. Qed.

Create HintDb nopanic discriminated.
Ltac no_panic :=
  repeat first
    [ discriminate
    | solve [auto with nopanic]
    | match goal with
      | |- obind _ _ <> Panic => apply np_bind; [|let a := fresh in let H := fresh in intros a H]
      | |- map_err _ _ <> Panic => apply np_map_err
      | |- ok_or _ _ <> Panic => apply np_ok_or
      | |- try_mapi _ _ _ <> Panic => apply np_try_mapi; intros
      | |- ofold _ _ _ <> Panic => apply np_ofold; intros
      | |- (if ?b then _ else _) <> Panic => destruct b eqn:?
      | |- (match ?x with _ => _ end) <> Panic => destruct x eqn:?
      | |- (let _ := _ in _) <> Panic => cbv zeta
      end ].

(** ** Lemmas on machine integers *)
Lemma fits_spec w x : fits w x = true <-> 0 <= x < 2 ^ w.
Proof. unfold fits. rewrite andb_true_iff, Z.leb_le, Z.ltb_lt. lia. Qed.

Lemma checked_some w x y : checked w x = Some y <-> y = x /\ 0 <= x < 2 ^ w.
Proof.
  unfold checked. destruct (fits w x) eqn:E.
  - apply fits_spec in E. split; [intros [= <-]; auto | intros [-> _]; auto].
  - split; [discriminate|]. intros [_ H]. apply fits_spec in H. congruence.
Qed.

Lemma checked_none w x : checked w x = None <-> ~ (0 <= x < 2 ^ w).
Proof.
  unfold checked. destruct (fits w x) eqn:E.
  - apply fits_spec in E. split; [discriminate | tauto].
  - split; [|done]. intros _ H. apply fits_spec in H. congruence.
Qed.

Lemma checked_add_some w a b c :
  checked_add w a b = Some c <-> c = a + b /\ 0 <= a + b < 2 ^ w.
Proof. apply checked_some. Qed.

Lemma checked_sub_some w a b c :
  checked_sub w a b = Some c <-> c = a - b /\ 0 <= a - b < 2 ^ w.
Proof. apply checked_some. Qed.

Lemma wrap_bounds w x : 0 <= w -> 0 <= wrap w x < 2 ^ w.
Proof. intros Hw. unfold wrap. apply Z.mod_pos_bound. apply Z.pow_pos_nonneg; lia. Qed.

Lemma wrap_small w x : 0 <= x < 2 ^ w -> wrap w x = x.
Proof. intros H. unfold wrap. by apply Z.mod_small. Qed.

(** Bit lists: a non-negative number below a power of two has no higher bit. *)
Lemma testbit_high w x i : 0 <= x < 2 ^ w -> 0 <= w <= i -> Z.testbit x i = false.
Proof.
  intros Hx Hi. rewrite <-(Z.mod_small x (2 ^ w)) by done.
  by rewrite Z.mod_pow2_bits_high.
Qed.

Lemma lor_add a b w :
  0 <= w -> 0 <= a < 2 ^ w -> b mod 2 ^ w = 0 -> Z.lor a b = a + b.
Proof.
  intros Hw Ha Hb. rewrite Z.add_nocarry_lxor.
  - apply Z.bits_inj'. intros i Hi. rewrite Z.lor_spec, Z.lxor_spec.
    destruct (decide (i < w)) as [Hlt|Hge].
    + assert (Z.testbit b i = false) as ->.
      { rewrite <-(Z.mod_pow2_bits_low b w i) by lia. rewrite Hb. apply Z.bits_0. }
      by destruct (Z.testbit a i).
    + rewrite (testbit_high w a i) by lia. by destruct (Z.testbit b i).
  - apply Z.bits_inj'. intros i Hi. rewrite Z.land_spec, Z.bits_0.
    destruct (decide (i < w)) as [Hlt|Hge].
    + assert (Z.testbit b i = false) as ->.
      { rewrite <-(Z.mod_pow2_bits_low b w i) by lia. rewrite Hb. apply Z.bits_0. }
      by destruct (Z.testbit a i).
    + by rewrite (testbit_high w a i) by lia.
Qed.

Lemma land_mask x w : 0 <= w -> Z.land x (2 ^ w - 1) = x mod 2 ^ w.
Proof. intros Hw. rewrite <-Z.land_ones by done. by rewrite Z.ones_equiv, Z.sub_1_r. Qed.

Lemma bits_below w x : 0 <= w -> 0 <= x -> (forall n, w <= n -> Z.testbit x n = false) -> x < 2 ^ w.
Proof.
  intros Hw Hx Hb. destruct (Z.eq_dec x 0) as [->|Hne]; [lia|]. apply Z.log2_lt_pow2; [lia|].
  destruct (Z.lt_ge_cases (Z.log2 x) w) as [?|Hge]; [done|]. specialize (Hb _ Hge). rewrite Z.bit_log2 in Hb by lia. done.
Qed.
Lemma lxor_bound w a b : 0 <= w -> 0 <= a < 2 ^ w -> 0 <= b < 2 ^ w -> 0 <= Z.lxor a b < 2 ^ w.
Proof.
  intros Hw Ha Hb. assert (0 <= Z.lxor a b) by (apply Z.lxor_nonneg; lia). split; [done|]. apply bits_below; [done..|].
  intros n Hn. by rewrite Z.lxor_spec, (testbit_high w a), (testbit_high w b) by lia.
Qed.
Lemma lor_bound w a b : 0 <= w -> 0 <= a < 2 ^ w -> 0 <= b < 2 ^ w -> 0 <= Z.lor a b < 2 ^ w.
Proof.
  intros Hw Ha Hb. assert (0 <= Z.lor a b) by (apply Z.lor_nonneg; lia). split; [done|]. apply bits_below; [done..|].
  intros n Hn. by rewrite Z.lor_spec, (testbit_high w a), (testbit_high w b) by lia.
Qed.
Lemma land_bound w a b : 0 <= w -> 0 <= b < 2 ^ w -> 0 <= Z.land a b < 2 ^ w.
Proof.
  intros Hw Hb. assert (0 <= Z.land a b) by (apply Z.land_nonneg; lia). split; [done|]. apply bits_below; [done..|].
  intros n Hn. by rewrite Z.land_spec, (testbit_high w b), andb_false_r by lia.
Qed.

(** ** Lemmas on lengths and slices *)
Lemma Zlen_cons {A} (x : A) l : Zlen (x :: l) = 1 + Zlen l.
Proof. unfold Zlen. cbn. lia. Qed.
Lemma Zlen_app {A} (a b : list A) : Zlen (a ++ b) = Zlen a + Zlen b.
Proof. unfold Zlen. rewrite length_app. lia. Qed.
Lemma Zlen_nonneg {A} (l : list A) : 0 <= Zlen l.
Proof. unfold Zlen. lia. Qed.
Lemma Zlen_map {A B} (f : A -> B) l : Zlen (map f l) = Zlen l.
Proof. unfold Zlen. by rewrite length_map. Qed.
Lemma Zlen_fmap {A B} (f : A -> B) l : Zlen (f <$> l) = Zlen l.
Proof. unfold Zlen. by rewrite length_fmap. Qed.
Lemma Zlen_rev {A} (l : list A) : Zlen (rev l) = Zlen l.
Proof. unfold Zlen. by rewrite length_rev. Qed.
Lemma Zlen_replicate {A} n (x : A) : Zlen (replicate n x) = Z.of_nat n.
Proof. unfold Zlen. by rewrite length_replicate. Qed.
Lemma Zlen_0 {A} (l : list A) : Zlen l = 0 -> l = [].
Proof. destruct l; [done|]. rewrite Zlen_cons. pose proof (Zlen_nonneg l). lia. Qed.

Lemma length_le_bytes n x : length (le_bytes n x) = n.
Proof. revert x. induction n; intros x; cbn; auto. Qed.
Lemma Zlen_le_bytes n x : Zlen (le_bytes n x) = Z.of_nat n.
Proof. unfold Zlen. by rewrite length_le_bytes. Qed.
Lemma Zlen_be_bytes n x : Zlen (be_bytes n x) = Z.of_nat n.
Proof. unfold be_bytes. by rewrite Zlen_rev, Zlen_le_bytes. Qed.

Create Rewrite HintDb zlen.
#[export] Hint Rewrite @Zlen_cons @Zlen_app @Zlen_map @Zlen_fmap @Zlen_rev
  @Zlen_replicate Zlen_le_bytes Zlen_be_bytes : zlen.
Ltac zlen :=
  autorewrite with zlen in *;
  repeat match goal with
  | H : context [Zlen []] |- _ => change (Zlen []) with 0 in H
  | |- context [Zlen []] => change (Zlen []) with 0
  end.

Lemma Zlen_slice {A} (b : list A) i j :
  0 <= i <= j -> j <= Zlen b -> Zlen (slice b i j) = j - i.
Proof. unfold slice, Zlen. intros. rewrite length_take, length_drop. lia. Qed.

Lemma slice_app_l {A} (a b : list A) : slice (a ++ b) 0 (Zlen a) = a.
Proof.
  unfold slice, Zlen. rewrite drop_0, Z.sub_0_r, Nat2Z.id. by rewrite take_app_length.
Qed.

Lemma slice_app_l' {A} (a b : list A) n : n = Zlen a -> slice (a ++ b) 0 n = a.
Proof. intros ->. apply slice_app_l. Qed.

Lemma slice_app_r {A} (a b : list A) i j :
  Zlen a <= i -> i <= j -> slice (a ++ b) i j = slice b (i - Zlen a) (j - Zlen a).
Proof.
  unfold slice, Zlen. intros Hi Hj. rewrite drop_app_ge by lia. f_equal; [lia|].
  f_equal. lia.
Qed.

Lemma slice_all {A} (b : list A) n : n = Zlen b -> slice b 0 n = b.
Proof.
  intros ->. unfold slice, Zlen. rewrite drop_0, Z.sub_0_r, Nat2Z.id.
  apply take_ge. lia.
Qed.

Lemma slice_app_l0 {A} (a b : list A) i n : i = 0 -> n = Zlen a -> slice (a ++ b) i n = a.
Proof. intros -> ->. apply slice_app_l. Qed.
Lemma slice_all0 {A} (b : list A) i n : i = 0 -> n = Zlen b -> slice b i n = b.
Proof. intros ->. apply slice_all. Qed.

(** A field of a concatenation, found from the lengths of the fields before it. *)
Ltac slice_field :=
  rewrite ?slice_app_r by (zlen; lia);
  first [apply slice_app_l0 | apply slice_all0]; zlen; lia.

Lemma slice_nil {A} (b : list A) i j : j <= i -> slice b i j = [].
Proof. intros H. unfold slice. by replace (Z.to_nat (j - i)) with O by lia. Qed.

Lemma slice_slice {A} (b : list A) i j k :
  0 <= i <= j -> j <= k -> slice b i j ++ slice b j k = slice b i k.
Proof.
  unfold slice. intros H1 H2.
  replace (Z.to_nat (k - i)) with (Z.to_nat (j - i) + Z.to_nat (k - j))%nat by lia.
  rewrite <-take_take_drop. rewrite drop_drop. do 4 f_equal; lia.
Qed.

Lemma slice_Forall {A} (P : A -> Prop) (b : list A) i j :
  Forall P b -> Forall P (slice b i j).
Proof. intros H. unfold slice. by apply Forall_take, Forall_drop. Qed.

Lemma byte_at_ok b i : bytes_ok b -> byte_ok (byte_at b i).
Proof.
  intros H. unfold byte_at. destruct (b !! Z.to_nat i) eqn:E; cbn.
  - by eapply (Forall_lookup_1 _ b).
  - unfold byte_ok. lia.
Qed.

Lemma byte_at_app_r a b i : Zlen a <= i -> byte_at (a ++ b) i = byte_at b (i - Zlen a).
Proof.
  unfold byte_at, Zlen. intros H. rewrite lookup_app_r by lia. do 2 f_equal. lia.
Qed.

Lemma byte_at_slice b i : 0 <= i < Zlen b -> slice b i (i + 1) = [byte_at b i].
Proof.
  unfold slice, byte_at, Zlen. intros H.
  destruct (lookup_lt_is_Some_2 b (Z.to_nat i)) as [x Hx]; [lia|].
  rewrite Hx. rewrite (drop_S b x _ Hx). replace (Z.to_nat (i + 1 - i)) with 1%nat by lia.
  by rewrite firstn_cons.
Qed.

(** ** Ranges *)
Lemma zrange_cons a b : a < b -> zrange a b = a :: zrange (a + 1) b.
Proof.
  intros H. unfold zrange. replace (Z.to_nat (b - a)) with (S (Z.to_nat (b - (a + 1)))) by lia.
  cbn [seq]. rewrite fmap_cons, Z.add_0_r. f_equal. rewrite <-fmap_S_seq, <-list_fmap_compose.
  apply list_fmap_ext. intros i x _. cbn. lia.
Qed.
Lemma zrange_nil a b : b <= a -> zrange a b = [].
Proof. intros H. unfold zrange. by replace (Z.to_nat (b - a)) with O by lia. Qed.
Lemma zrange_snoc a b : a <= b -> zrange a (b + 1) = zrange a b ++ [b].
Proof.
  intros Hab. unfold zrange. replace (Z.to_nat (b + 1 - a)) with (S (Z.to_nat (b - a))) by lia.
  rewrite seq_S, fmap_app. cbn. repeat f_equal. lia.
Qed.
Lemma in_zrange i a b : In i (zrange a b) <-> a <= i < b.
Proof.
  unfold zrange. rewrite <-list_elem_of_In, list_elem_of_fmap. split.
  - intros (k & -> & Hk). apply elem_of_seq in Hk. lia.
  - intros H. exists (Z.to_nat (i - a)). split; [lia|]. apply elem_of_seq. lia.
Qed.
Lemma Zlen_zrange a b : a <= b -> Zlen (zrange a b) = b - a.
Proof. intros H. unfold zrange. rewrite Zlen_fmap. unfold Zlen. rewrite length_seq. lia. Qed.

(** A loop over a range keeps an invariant, and ends without error or panic when
    every iteration does. *)
Lemma ofold_range_inv {E S} (f : S -> Z -> outcome E S) (P : Z -> S -> Prop) a b s :
  a <= b -> P a s ->
  (forall i s, a <= i < b -> P i s -> exists s', f s i = Ok s' /\ P (i + 1) s') ->
  exists s', ofold f s (zrange a b) = Ok s' /\ P b s'.
Proof.
  intros Hab. remember (Z.to_nat (b - a)) as n eqn:Hn. revert a s Hab Hn.
  induction n as [|n IH]; intros a s Hab Hn Ha Hf.
  - assert (a = b) as -> by lia. rewrite zrange_nil by lia. by exists s.
  - rewrite zrange_cons by lia. cbn [ofold]. destruct (Hf a s) as (s1 & -> & H1); [lia|done|].
    cbn [obind]. apply IH; [lia|lia|done|]. intros i s' Hi. apply Hf. lia.
Qed.

(** ** Vectors indexed by machine integers *)
Lemma zlookup_lt {A} (l : list A) i x : zlookup l i = Some x -> 0 <= i < Zlen l.
Proof.
  unfold zlookup, Zlen. destruct (Z.leb_spec 0 i); [|done]. intros Hx. apply lookup_lt_Some in Hx. lia.
Qed.
Lemma zlookup_is_Some {A} (l : list A) i : 0 <= i < Zlen l -> exists x, zlookup l i = Some x.
Proof.
  unfold zlookup, Zlen. intros H. destruct (Z.leb_spec 0 i); [|lia].
  destruct (lookup_lt_is_Some_2 l (Z.to_nat i)) as [x Hx]; [lia|]. by exists x.
Qed.
Lemma zlookup_ge {A} (l : list A) i : Zlen l <= i -> zlookup l i = None.
Proof.
  intros H. destruct (zlookup l i) as [x|] eqn:E; [|done]. apply zlookup_lt in E. lia.
Qed.
Lemma zlookup_app_l {A} (l l' : list A) i : i < Zlen l -> zlookup (l ++ l') i = zlookup l i.
Proof. unfold zlookup, Zlen. intros H. destruct (Z.leb_spec 0 i); [|done]. apply lookup_app_l. lia. Qed.
Lemma zlookup_app_r {A} (l l' : list A) i : Zlen l <= i -> zlookup (l ++ l') i = zlookup l' (i - Zlen l).
Proof.
  unfold zlookup, Zlen. intros H. destruct (Z.leb_spec 0 i), (Z.leb_spec 0 (i - Z.of_nat (length l))); try lia.
  rewrite lookup_app_r by lia. f_equal. lia.
Qed.
Lemma zlookup_cons_0 {A} (x : A) l : zlookup (x :: l) 0 = Some x.
Proof. done. Qed.
Lemma zlookup_snoc {A} (l : list A) x : zlookup (l ++ [x]) (Zlen l) = Some x.
Proof. rewrite zlookup_app_r by lia. by rewrite Z.sub_diag. Qed.
Lemma zlookup_last {A} (l : list A) : list.last l = zlookup l (Zlen l - 1).
Proof.
  rewrite last_lookup. unfold zlookup, Zlen. destruct l as [|x l]; [done|].
  destruct (Z.leb_spec 0 (Z.of_nat (length (x :: l)) - 1)); cbn [length] in *; [|lia]. f_equal. lia.
Qed.
Lemma zlookup_zinsert {A} (l : list A) i j x :
  zlookup (zinsert l i x) j = if (i =? j) && (0 <=? j) && (j <? Zlen l) then Some x else zlookup l j.
Proof.
  unfold zlookup, zinsert, Zlen.
  destruct (Z.eqb_spec i j) as [->|Hij], (Z.leb_spec 0 j), (Z.ltb_spec j (Z.of_nat (length l))); cbn; try done.
  - apply list_lookup_insert_eq. lia.
  - rewrite list_insert_ge; [done|lia].
  - destruct (Z.leb_spec 0 i); [|done]. apply list_lookup_insert_ne. lia.
  - destruct (Z.leb_spec 0 i); [|done]. apply list_lookup_insert_ne. lia.
Qed.
Lemma zlookup_zinsert_eq {A} (l : list A) i x y : zlookup l i = Some y -> zlookup (zinsert l i x) i = Some x.
Proof.
  intros H. apply zlookup_lt in H. rewrite zlookup_zinsert, Z.eqb_refl.
  destruct (Z.leb_spec 0 i), (Z.ltb_spec i (Zlen l)); (done || lia).
Qed.
Lemma zlookup_zinsert_ne {A} (l : list A) i j x : i <> j -> zlookup (zinsert l i x) j = zlookup l j.
Proof. intros H. rewrite zlookup_zinsert. by destruct (Z.eqb_spec i j). Qed.
Lemma Zlen_zinsert {A} (l : list A) i x : Zlen (zinsert l i x) = Zlen l.
Proof. unfold zinsert, Zlen. destruct (0 <=? i); [|done]. by rewrite length_insert. Qed.
#[export] Hint Rewrite @Zlen_zinsert : zlen.
Lemma zlookup_ext {A} (l l' : list A) :
  Zlen l = Zlen l' -> (forall i, 0 <= i < Zlen l -> zlookup l i = zlookup l' i) -> l = l'.
Proof.
  unfold Zlen. intros Hl H. apply list_eq. intros i. destruct (decide (i < length l)%nat) as [Hi|Hi].
  - specialize (H (Z.of_nat i) ltac:(lia)). unfold zlookup in H.
    destruct (Z.leb_spec 0 (Z.of_nat i)); [|lia]. by rewrite Nat2Z.id in H.
  - rewrite !lookup_ge_None_2 by lia. done.
Qed.
Lemma zlookup_elem {A} (l : list A) x : x ∈ l <-> exists i, zlookup l i = Some x.
Proof.
  rewrite list_elem_of_lookup. split.
  - intros [i Hi]. exists (Z.of_nat i). unfold zlookup. destruct (Z.leb_spec 0 (Z.of_nat i)); [|lia].
    by rewrite Nat2Z.id.
  - intros [i Hi]. unfold zlookup in Hi. destruct (0 <=? i); [|done]. by eexists.
Qed.

(** ** Flags *)
Lemma land_flag_test f k : 0 <= k -> negb (Z.land f (2 ^ k) =? 0) = Z.testbit f k.
Proof.
  intros Hk. destruct (Z.eqb_spec (Z.land f (2 ^ k)) 0) as [E|E]; cbn.
  - assert (Z.testbit (Z.land f (2 ^ k)) k = false) as H by (rewrite E; apply Z.bits_0).
    rewrite Z.land_spec, Z.pow2_bits_true in H by done. by rewrite andb_true_r in H.
  - destruct (Z.testbit f k) eqn:T; [done|]. exfalso. apply E, Z.bits_inj'. intros i Hi.
    rewrite Z.land_spec, Z.bits_0, Z.pow2_bits_eqb by done.
    destruct (Z.eqb_spec k i) as [<-|]; [by rewrite T|by rewrite andb_false_r].
Qed.

(** ** Lemmas on little- and big-endian integers *)
Lemma le_bytes_ok n x : bytes_ok (le_bytes n x).
Proof.
  revert x. induction n; intros x; cbn; constructor; [|apply IHn].
  unfold byte_ok. apply Z.mod_pos_bound. lia.
Qed.

Lemma from_le_le_bytes n x :
  0 <= x < 256 ^ Z.of_nat n -> from_le (le_bytes n x) = x.
Proof.
  revert x. induction n as [|n IH]; intros x H; cbn [le_bytes from_le].
  - cbn in H. lia.
  - rewrite Nat2Z.inj_succ, Z.pow_succ_r in H by lia.
    rewrite IH.
    + pose proof (Z_div_mod_eq_full x 256). lia.
    + split; [apply Z.div_pos; lia|]. apply Z.div_lt_upper_bound; lia.
Qed.

Lemma from_le_bounds b : bytes_ok b -> 0 <= from_le b < 256 ^ Zlen b.
Proof.
  induction 1 as [|x l Hx Hl IH]; [zlen; cbn; lia|].
  rewrite Zlen_cons, Z.pow_add_r by (pose proof (Zlen_nonneg l); lia).
  unfold byte_ok in Hx. cbn [from_le]. change (256 ^ 1) with 256. lia.
Qed.

Lemma le_bytes_from_le b : bytes_ok b -> le_bytes (length b) (from_le b) = b.
Proof.
  induction 1 as [|x l Hx Hl IH]; [done|]. cbn [length le_bytes from_le].
  unfold byte_ok in Hx.
  assert ((x + 256 * from_le l) mod 256 = x) as ->.
  { rewrite (Z.mul_comm 256), Z.mod_add by done. by apply Z.mod_small. }
  f_equal. rewrite (Z.mul_comm 256), Z.div_add by done.
  by rewrite Z.div_small.
Qed.

Lemma le_bytes_from_le' n b :
  bytes_ok b -> Zlen b = Z.of_nat n -> le_bytes n (from_le b) = b.
Proof. intros Hb Hn. unfold Zlen in Hn. apply Nat2Z.inj in Hn. subst n. by apply le_bytes_from_le. Qed.

Lemma from_le_cons x b : from_le (x :: b) = x + 256 * from_le b.
Proof. done. Qed.
Lemma from_le_app a b : from_le (a ++ b) = from_le a + 256 ^ Zlen a * from_le b.
Proof.
  induction a as [|x a IH]; [zlen; cbn; lia|].
  cbn [app from_le]. rewrite IH, Zlen_cons, Z.pow_add_r by (pose proof (Zlen_nonneg a); lia).
  change (256 ^ 1) with 256. lia.
Qed.

Lemma rev_bytes_ok b : bytes_ok b -> bytes_ok (rev b).
Proof. apply Forall_rev. Qed.

Lemma from_be_cons x b : from_be (x :: b) = x * 256 ^ Zlen b + from_be b.
Proof.
  unfold from_be. cbn [rev]. rewrite from_le_app, Zlen_rev. cbn [from_le]. lia.
Qed.

Lemma from_be_app a b : from_be (a ++ b) = from_be a * 256 ^ Zlen b + from_be b.
Proof. unfold from_be. rewrite rev_app_distr, from_le_app, Zlen_rev. lia. Qed.

Lemma from_be_bounds b : bytes_ok b -> 0 <= from_be b < 256 ^ Zlen b.
Proof. intros H. unfold from_be. rewrite <-(Zlen_rev b). by apply from_le_bounds, rev_bytes_ok. Qed.

Lemma be_bytes_ok n x : bytes_ok (be_bytes n x).
Proof. apply rev_bytes_ok, le_bytes_ok. Qed.

Lemma from_be_be_bytes n x : 0 <= x < 256 ^ Z.of_nat n -> from_be (be_bytes n x) = x.
Proof. intros H. unfold from_be, be_bytes. rewrite rev_involutive. by apply from_le_le_bytes. Qed.

Lemma be_bytes_from_be n b :
  bytes_ok b -> Zlen b = Z.of_nat n -> be_bytes n (from_be b) = b.
Proof.
  intros Hb Hn. unfold from_be, be_bytes. rewrite le_bytes_from_le'.
  - apply rev_involutive.
  - by apply rev_bytes_ok.
  - by rewrite Zlen_rev.
Qed.

(** ** Byte-wise comparison of equally long arrays is comparison of numbers *)
Lemma bytes_cmp_spec a b :
  bytes_ok a -> bytes_ok b -> Zlen a = Zlen b ->
  bytes_cmp a b = (from_be a ?= from_be b).
Proof.
  intros Ha. revert b. induction Ha as [|x a Hx Ha IH]; intros [|y b] Hb Hl; zlen.
  - done.
  - pose proof (Zlen_nonneg b). lia.
  - pose proof (Zlen_nonneg a). lia.
  - inversion_clear Hb as [|? ? Hy Hb']. assert (Zlen a = Zlen b) as Hab by lia.
    cbn [bytes_cmp]. rewrite !from_be_cons, <-Hab.
    pose proof (from_be_bounds a Ha). pose proof (from_be_bounds b Hb').
    rewrite <-Hab in *. set (p := 256 ^ Zlen a) in *.
    destruct (Z.compare_spec x y) as [->|Hlt|Hgt].
    + rewrite IH by done. symmetry. apply Zcompare_plus_compat.
    + symmetry. apply Z.compare_lt_iff. nia.
    + symmetry. apply Z.compare_gt_iff. nia.
Qed.

Lemma bytes_cmp_antisym a : forall b, bytes_cmp a b = CompOpp (bytes_cmp b a).
Proof.
  induction a as [|x a IH]; intros [|y b]; try done. cbn [bytes_cmp]. rewrite (Z.compare_antisym y x).
  destruct (y ?= x); cbn; [apply IH|done|done].
Qed.

Lemma bytes_leb_spec a b :
  bytes_ok a -> bytes_ok b -> Zlen a = Zlen b ->
  bytes_leb a b = (from_be a <=? from_be b).
Proof. intros. unfold bytes_leb. rewrite bytes_cmp_spec by done. unfold Z.leb. by destruct (_ ?= _). Qed.

Lemma bytes_ltb_spec a b :
  bytes_ok a -> bytes_ok b -> Zlen a = Zlen b ->
  bytes_ltb a b = (from_be a <? from_be b).
Proof. intros. unfold bytes_ltb. rewrite bytes_cmp_spec by done. unfold Z.ltb. by destruct (_ ?= _). Qed.

Lemma from_be_inj a b :
  bytes_ok a -> bytes_ok b -> Zlen a = Zlen b -> from_be a = from_be b -> a = b.
Proof.
  intros Ha Hb Hl He.
  rewrite <-(be_bytes_from_be (length a) a), <-(be_bytes_from_be (length a) b) by (done || by rewrite <-Hl).
  by rewrite He.
Qed.

(** Deciding [bytes_ok] of a literal. *)
Lemma bytes_okb l : forallb (fits 8) l = true -> bytes_ok l.
Proof.
  rewrite forallb_forall. intros H. apply Forall_forall. intros x Hx.
  by apply (fits_spec 8), H.
Qed.
Ltac solve_bytes_ok := apply bytes_okb; vm_compute; reflexivity.

#[export] Hint Resolve le_bytes_ok be_bytes_ok rev_bytes_ok Zlen_nonneg : plaine.

#[global] Arguments le_bytes : simpl never.
#[global] Arguments from_le : simpl never.
#[global] Arguments slice : simpl never.
#[global] Arguments byte_at : simpl never.
