(* ===== verification/Constants.v ===== *)
(** Consensus constants (src/lib/consensus/src/constants.rs), with the
    compile-time assertions that tie them together, and the emission schedule
    (src/lib/consensus/src/emission.rs): the flat subsidy, the closed forms of
    the issued supply and the theorem that they are the sum of the rewards. *)

From Stdlib Require Import ZArith Lia List.
From stdpp Require Import base list numbers.
From S2P Require Import Prelude.
Open Scope Z_scope.

(** ** Chain identity, sizes and limits *)
Definition CHAIN_ID : bytes := [80; 76; 78; 69].
Definition MAGIC_MAIN : bytes := [183; 78; 211; 33].
Definition ADDRESS_HRP : bytes := [112; 108; 110; 101].

Inductive Network := Main.
Definition Network_chain_id (n : Network) : bytes := CHAIN_ID.
Definition Network_magic (n : Network) : bytes := MAGIC_MAIN.

Definition ADDRESS_PAYLOAD_BYTES : Z := 20.
Definition MILE_PER_PLNE : Z := 1000000.
Definition BLOCK_TIME_SECS : Z := 60.
Definition BLOCKS_PER_YEAR : Z := 525960.
Definition BLOCK_SUBSIDY : Z := 200000.
Definition HEADER_BYTES : Z := 132.
Definition VERSION_BASE : Z := 0x20000000.
Definition TX_TYPE_COINBASE : Z := 0.
Definition TX_TYPE_TRANSFER : Z := 1.
Definition TX_TYPE_ANNOUNCEMENT : Z := 2.
Definition TX_TRANSFER_BYTES : Z := 157.
Definition TX_TRANSFER_BYTES_UNSIGNED : Z := 93.
Definition PUBKEY_BYTES : Z := 32.
Definition SIG_BYTES : Z := 64.
Definition HASH_BYTES : Z := 32.
Definition AUTHOR_NOTE_HEADER_BYTES : Z := 4.
Definition ANNOUNCEMENT_MIN_PAYLOAD_BYTES : Z := 1.
Definition ANNOUNCEMENT_MAX_PAYLOAD_BYTES : Z := 1024.
Definition TX_ANNOUNCEMENT_PREFIX_BYTES : Z := 60.
Definition TX_ANNOUNCEMENT_OVERHEAD_BYTES : Z := TX_ANNOUNCEMENT_PREFIX_BYTES + SIG_BYTES.
Definition TX_ANN_OFF_TYPE : Z := 0.
Definition TX_ANN_OFF_FROM_PUB : Z := 1.
Definition TX_ANN_OFF_FEE : Z := 33.
Definition TX_ANN_OFF_NONCE : Z := 49.
Definition TX_ANN_OFF_ENCODING : Z := 57.
Definition TX_ANN_OFF_LENGTH : Z := 58.
Definition TX_ANN_OFF_PAYLOAD : Z := 60.
Definition COINBASE_PREFIX_BYTES : Z := 61.
Definition TX_CB_OFF_HEIGHT : Z := 1.
Definition TX_CB_OFF_TO : Z := 9.
Definition TX_CB_OFF_REWARD : Z := 29.
Definition TX_CB_OFF_FEES : Z := 45.
Definition TX_CB_OFF_NOTE : Z := 61.
Definition BODY_COUNT_BYTES : Z := 4.
Definition BODY_TXLEN_BYTES : Z := 4.
Definition BODY_MIN_RECORD_BYTES : Z := BODY_TXLEN_BYTES + 1.
Definition MERKLE_FLAG_PAIR : Z := 0.
Definition MERKLE_FLAG_DUP : Z := 1.
Definition TX_ROOT_EMPTY : bytes := replicate 32 0.
Definition MERKLE_MAX_DEPTH : Z := 12.
Definition FEE_FLOOR_MILE : Z := 1.
Definition COINBASE_MATURITY : Z := 60.

(** Domain tags, as ASCII codes. *)
Definition DOMAIN_TX_SIGN : bytes := [80; 76; 78; 69; 45; 116; 120; 45; 118; 49].
Definition DOMAIN_NOTE_SIGN : bytes := [80; 76; 78; 69; 45; 110; 111; 116; 101; 45; 118; 49].
Definition DOMAIN_TXID : bytes := [80; 76; 78; 69; 45; 116; 120; 105; 100].
Definition DOMAIN_MERKLE_LEAF : bytes := [80; 76; 78; 69; 45; 108; 101; 97; 102].
Definition DOMAIN_MERKLE_NODE : bytes := [80; 76; 78; 69; 45; 110; 111; 100; 101].

Definition ASERT_HALF_LIFE_SECS : Z := 3600.
Definition ASERT_TARGET_SPACING_SECS : Z := 60.
Definition ASERT_ANCHOR_INTERVAL : Z := 100000.
Definition POW_LIMIT_LIMBS : list Z := [2 ^ 64 - 1; 2 ^ 64 - 1; 2 ^ 64 - 1; 2 ^ 48 - 1].
Definition MAX_FUTURE_DRIFT_SECS : Z := 600.
Definition MEDIAN_TIME_SPAN : Z := 11.
Definition MAX_REORG_DEPTH : Z := 30.
Definition SYNC_WINDOW_SECS : Z := 720.
(** ["plaine-checkpoint-v1|"] *)
Definition CHECKPOINT_MSG_PREFIX : bytes :=
  [112; 108; 97; 105; 110; 101; 45; 99; 104; 101; 99; 107; 112; 111; 105; 110; 116; 45; 118; 49; 124].
Definition CHECKPOINT_SUNSET_HEIGHT : Z := 525960.
Definition AUTHOR_NOTE_RECORD_VERSION : Z := 1.
Definition AUTHOR_NOTE_MAX_BYTES : Z := 256.
Definition MAX_BLOCK_BYTES : Z := 1048576.
Definition MAX_TX_BYTES : Z := 8192.
Definition MAX_TXS_PER_BLOCK : Z := 4096.
Definition MAX_MEMPOOL_TXS : Z := 20000.
Definition MAX_MEMPOOL_NONCE_GAP : Z := 256.
Definition MAX_MEMPOOL_TXS_PER_SENDER : Z := 4096.
Definition MAX_HEADERS_PER_MSG : Z := 2000.

(** The [const _: () = assert!(..)] items, one boolean. *)
Definition const_asserts : bool :=
  (MAX_REORG_DEPTH <? COINBASE_MATURITY) &&
  (TX_TRANSFER_BYTES =? TX_TRANSFER_BYTES_UNSIGNED + 64) &&
  (TX_ANN_OFF_PAYLOAD =? TX_ANNOUNCEMENT_PREFIX_BYTES) &&
  (TX_ANN_OFF_LENGTH + 2 =? TX_ANN_OFF_PAYLOAD) &&
  (TX_ANN_OFF_ENCODING + 1 =? TX_ANN_OFF_LENGTH) &&
  (TX_ANN_OFF_NONCE + 8 =? TX_ANN_OFF_ENCODING) &&
  (TX_ANN_OFF_FEE + 16 =? TX_ANN_OFF_NONCE) &&
  (TX_ANN_OFF_FROM_PUB + PUBKEY_BYTES =? TX_ANN_OFF_FEE) &&
  (TX_ANN_OFF_TYPE + 1 =? TX_ANN_OFF_FROM_PUB) &&
  (TX_ANNOUNCEMENT_OVERHEAD_BYTES + ANNOUNCEMENT_MAX_PAYLOAD_BYTES <=? MAX_TX_BYTES) &&
  (TX_CB_OFF_NOTE =? COINBASE_PREFIX_BYTES) &&
  (TX_CB_OFF_FEES + 16 =? TX_CB_OFF_NOTE) &&
  (TX_CB_OFF_REWARD + 16 =? TX_CB_OFF_FEES) &&
  (TX_CB_OFF_TO + ADDRESS_PAYLOAD_BYTES =? TX_CB_OFF_REWARD) &&
  (TX_CB_OFF_HEIGHT + 8 =? TX_CB_OFF_TO) &&
  (COINBASE_PREFIX_BYTES + AUTHOR_NOTE_HEADER_BYTES + AUTHOR_NOTE_MAX_BYTES <=? MAX_TX_BYTES) &&
  (HEADER_BYTES + BODY_COUNT_BYTES + MAX_TXS_PER_BLOCK * BODY_MIN_RECORD_BYTES
     <=? MAX_BLOCK_BYTES) &&
  (MAX_TXS_PER_BLOCK <=? Z.shiftl 1 MERKLE_MAX_DEPTH) &&
  negb (MERKLE_FLAG_PAIR =? MERKLE_FLAG_DUP).

(** ** Emission *)
Definition subsidy (height : Z) : Z := if height =? 0 then 0 else BLOCK_SUBSIDY.
Definition block_reward (height : Z) : Z := subsidy height.
Definition cumulative_issued (height : Z) : Z := saturating_sub height 1 * BLOCK_SUBSIDY.
Definition issued_through (height : Z) : Z := height * BLOCK_SUBSIDY.

(** The reference: the rewards of the blocks [0 .. height), added up. *)
Definition reward_sum (heights : list Z) : Z := foldr (fun h s => block_reward h + s) 0 heights.

Lemma const_asserts_hold : const_asserts = true.
Proof. reflexivity. Qed.

Lemma reward_sum_app a b : reward_sum (a ++ b) = reward_sum a + reward_sum b.
Proof. unfold reward_sum. induction a as [|x a IH]; cbn; [lia|]. rewrite IH. lia. Qed.

Lemma reward_sum_closed_form n : 0 <= n -> reward_sum (zrange 0 (n + 1)) = n * BLOCK_SUBSIDY.
Proof.
  intros Hn. pattern n. apply natlike_ind; [reflexivity| |done].
  intros m Hm IH. rewrite zrange_snoc, reward_sum_app by lia.
  replace (Z.succ m) with (m + 1) by lia. rewrite IH.
  unfold reward_sum, block_reward, subsidy. cbn [foldr].
  destruct (m + 1 =? 0) eqn:E; to_prop; unfold BLOCK_SUBSIDY in *; lia.
Qed.

(** The closed forms the node publishes as issued supply are the sum of the
    block rewards: [issued_through h] adds up blocks [0..=h],
    [cumulative_issued h] adds up blocks [0..h), neither overflows its [u128]
    at any [u64] height, and consecutive values differ by exactly the subsidy. *)
Theorem emission_is_the_sum_of_rewards (h : Z) (Hh : 0 <= h < 2 ^ 64) :
  issued_through h = reward_sum (zrange 0 (h + 1)) /\
  cumulative_issued h = reward_sum (zrange 0 h) /\
  issued_through h = cumulative_issued (h + 1) /\
  cumulative_issued (h + 1) - cumulative_issued h = subsidy h /\
  0 <= cumulative_issued h <= issued_through h /\ issued_through h < 2 ^ 128.
Proof.
  assert (cumulative_issued h = reward_sum (zrange 0 h)) as Hc.
  { unfold cumulative_issued, saturating_sub. destruct (decide (h = 0)) as [->|Hne]; [done|].
    pose proof (reward_sum_closed_form (h - 1)) as Hr. replace (h - 1 + 1) with h in Hr by lia.
    rewrite Hr by lia. f_equal. lia. }
  rewrite <-Hc. unfold issued_through. rewrite reward_sum_closed_form by lia.
  unfold cumulative_issued, saturating_sub, subsidy, BLOCK_SUBSIDY.
  destruct (h =? 0) eqn:E; to_prop; lia.
Qed.

Lemma emission_is_the_sum_of_rewards_witness :
  issued_through 5000000 = 1000000 * MILE_PER_PLNE /\
  cumulative_issued 5000001 - cumulative_issued 5000000 = subsidy 5000000.
Proof.
  split; [reflexivity|]. apply (emission_is_the_sum_of_rewards 5000000). lia.
Defined.
