(* ===== verification/Hex.v ===== *)
(** Hexadecimal text (src/lib/consensus/src/hex.rs). Strings are byte strings
    of ASCII codes. [hex_decode] inverts [hex_encode], accepts both cases and
    reports the first offending digit. *)

From Stdlib Require Import ZArith Lia List.
From stdpp Require Import base list numbers.
From S2P Require Import Prelude.
Open Scope Z_scope.

Inductive HexError :=
| OddLength (len : Z)
| InvalidChar (index : Z) (byte : Z).

(** [b"0123456789abcdef"] *)
Definition LUT : bytes := [48; 49; 50; 51; 52; 53; 54; 55; 56; 57; 97; 98; 99; 100; 101; 102].

Fixpoint hex_encode (b : bytes) : bytes :=
  match b with
  | [] => []
  | x :: b => byte_at LUT (Z.shiftr x 4) :: byte_at LUT (Z.land x 15) :: hex_encode b
  end.

Definition nibble (b : Z) : option Z :=
  if (48 <=? b) && (b <=? 57) then Some (b - 48)
  else if (97 <=? b) && (b <=? 102) then Some (b - 97 + 10)
  else if (65 <=? b) && (b <=? 70) then Some (b - 65 + 10)
  else None.

(** The [for i in (0..len).step_by(2)] loop; the length is even here. *)
Fixpoint hex_decode_loop (i : Z) (s : bytes) : outcome HexError bytes :=
  match s with
  | a :: b :: s =>
    let? hi := ok_or (nibble a) (InvalidChar i a) in
    let? lo := ok_or (nibble b) (InvalidChar (i + 1) b) in
    let? out := hex_decode_loop (i + 2) s in
    Ok (Z.lor (Z.shiftl hi 4) lo :: out)
  | _ => Ok []
  end.

Definition hex_decode (s : bytes) : outcome HexError bytes :=
  guard! negb (Zlen s mod 2 =? 0) else OddLength (Zlen s) ;;
  hex_decode_loop 0 s.

(** [u8::to_ascii_lowercase] *)
Definition ascii_lower (b : Z) : Z := if (65 <=? b) && (b <=? 90) then b + 32 else b.

(** Facts about the 256 byte values, checked by evaluation. *)
Definition all_bytes (P : Z -> bool) : bool := forallb P (zrange 0 256).

Lemma all_bytes_spec P b : all_bytes P = true -> byte_ok b -> P b = true.
Proof.
  unfold all_bytes, byte_ok. rewrite forallb_forall. intros H Hb. apply H.
  apply list_elem_of_In. unfold zrange. apply list_elem_of_fmap.
  exists (Z.to_nat b). split; [lia|]. apply elem_of_seq. lia.
Qed.

Lemma hex_pair_inv :
  all_bytes (fun b =>
    match nibble (byte_at LUT (Z.shiftr b 4)), nibble (byte_at LUT (Z.land b 15)) with
    | Some hi, Some lo => Z.lor (Z.shiftl hi 4) lo =? b
    | _, _ => false
    end) = true.
Proof. vm_compute. reflexivity. Qed.

Lemma nibble_lut :
  all_bytes (fun c =>
    match nibble c with
    | Some v => (byte_at LUT v =? ascii_lower c) && (0 <=? v) && (v <? 16)
    | None => true
    end) = true.
Proof. vm_compute. reflexivity. Qed.

Lemma nibble_spec c v :
  byte_ok c -> nibble c = Some v -> byte_at LUT v = ascii_lower c /\ 0 <= v < 16.
Proof.
  intros Hc Hv. pose proof (all_bytes_spec _ c nibble_lut Hc) as H. cbv beta in H.
  rewrite Hv in H. to_prop. lia.
Qed.

Lemma join_nibbles hi lo :
  0 <= hi < 16 -> 0 <= lo < 16 ->
  let v := Z.lor (Z.shiftl hi 4) lo in
  Z.shiftr v 4 = hi /\ Z.land v 15 = lo /\ byte_ok v.
Proof.
  intros Hh Hl v.
  assert (v = lo + hi * 16) as Hv.
  { unfold v. rewrite Z.lor_comm, Z.shiftl_mul_pow2 by lia.
    rewrite (lor_add lo (hi * 2 ^ 4) 4); [done|lia|done|]. apply Z.mod_mul. done. }
  rewrite Hv. split; [|split].
  - rewrite Z.shiftr_div_pow2 by lia. change (2 ^ 4) with 16. rewrite Z.div_add by done.
    by rewrite Z.div_small.
  - change 15 with (2 ^ 4 - 1). rewrite land_mask by lia. change (2 ^ 4) with 16.
    rewrite Z.mod_add by done. by apply Z.mod_small.
  - unfold byte_ok. lia.
Qed.

Lemma Zlen_hex_encode b : Zlen (hex_encode b) = 2 * Zlen b.
Proof. induction b as [|x b IH]; [done|]. cbn [hex_encode]. zlen. lia. Qed.

Lemma hex_decode_loop_encode i b : bytes_ok b -> hex_decode_loop i (hex_encode b) = Ok b.
Proof.
  intros Hb. revert i. induction Hb as [|x b Hx Hb IH]; intros i; [done|].
  cbn [hex_encode hex_decode_loop].
  pose proof (all_bytes_spec _ x hex_pair_inv Hx) as H. cbv beta in H.
  destruct (nibble (byte_at LUT (Z.shiftr x 4))), (nibble (byte_at LUT (Z.land x 15))); try done.
  cbn. rewrite IH. cbn. to_prop. by rewrite H.
Qed.

Lemma hex_decode_loop_sound n : forall i s b,
  Zlen s <= 2 * n -> bytes_ok s -> Zlen s mod 2 = 0 -> hex_decode_loop i s = Ok b ->
  hex_encode b = map ascii_lower s /\ bytes_ok b.
Proof.
  destruct (decide (n < 0)) as [Hneg|Hn].
  { intros i s b H. pose proof (Zlen_nonneg s). lia. }
  pattern n. apply natlike_ind; [| |lia]; clear n Hn.
  - intros i s b Hl Hs He Hd. assert (s = []) as -> by (apply Zlen_0; pose proof (Zlen_nonneg s); lia).
    cbn in Hd. invert_ok. done.
  - intros n Hn IH i [|a [|c s]] b Hl Hs He Hd; cbn [hex_decode_loop] in Hd.
    + invert_ok. done.
    + exfalso. revert He. zlen. vm_compute. discriminate.
    + steps_in Hd. invert_ok. apply ok_or_ok in E, E0.
      inversion_clear Hs as [|? ? Ha Hs']. inversion_clear Hs' as [|? ? Hc Hs].
      destruct (nibble_spec a _ Ha E) as [Ha1 Ha2]. destruct (nibble_spec c _ Hc E0) as [Hc1 Hc2].
      destruct (join_nibbles _ _ Ha2 Hc2) as (Hhi & Hlo & Hok).
      zlen. destruct (IH (i + 2) s a2) as [IHe IHb]; [lia|done| |done|].
      { rewrite <-He. replace (1 + (1 + Zlen s)) with (Zlen s + 1 * 2) by lia. by rewrite Z.mod_add. }
      split; [|by constructor]. cbn [hex_encode map]. by rewrite Hhi, Hlo, Ha1, Hc1, IHe.
Qed.

(** Hex round trip: decoding the encoding of any byte string gives it back,
    the text has twice the length, and any text that decodes is the encoding of
    its value up to letter case, so a value has one lower-case spelling. *)
Theorem hex_roundtrip (b s : bytes) (Hb : bytes_ok b) (Hs : bytes_ok s) :
  hex_decode (hex_encode b) = Ok b /\
  Zlen (hex_encode b) = 2 * Zlen b /\
  (hex_decode s = Ok b -> hex_encode b = map ascii_lower s).
Proof.
  split; [|split]; [|apply Zlen_hex_encode|].
  - unfold hex_decode. rewrite Zlen_hex_encode, (Z.mul_comm 2), Z.mod_mul by done.
    by apply hex_decode_loop_encode.
  - unfold hex_decode. intros H. step_in H. to_prop.
    eapply (hex_decode_loop_sound (Zlen s) 0 s b); [|done..]. pose proof (Zlen_nonneg s). lia.
Qed.

Lemma hex_roundtrip_witness :
  hex_decode [70; 102; 48; 97] = Ok [255; 10] /\ hex_encode [255; 10] = map ascii_lower [70; 102; 48; 97].
Proof.
  split; [reflexivity|]. apply (hex_roundtrip [255; 10] [70; 102; 48; 97]).
  - solve_bytes_ok.
  - solve_bytes_ok.
  - reflexivity.
Defined.
