(* ===== verification/Limbs.v ===== *)
(** Little-endian vectors of 64-bit limbs, the representation of [Target]
    ([u64; 4]), of the 320-bit ASERT intermediate ([u64; 5]) and of [Work]
    ([u64; 8]). The limb loops that the Rust code repeats for each width are
    written once here, over a width [n], with the value each of them computes. *)

From Stdlib Require Import ZArith Lia List.
From stdpp Require Import base list numbers.
From S2P Require Import Prelude.
Open Scope Z_scope.

Definition B64 : Z := 2 ^ 64.
Definition limb_ok (x : Z) : Prop := 0 <= x < 2 ^ 64.
Definition limbs_ok (n : nat) (l : list Z) : Prop := length l = n /\ Forall limb_ok l.

(** [v[i]] *)
Definition limb_at (v : list Z) (i : nat) : Z := default 0 (v !! i).

(** The number a limb vector denotes. *)
Fixpoint val (l : list Z) : Z :=
  match l with
  | [] => 0
  | x :: l => x + 2 ^ 64 * val l
  end.

(** [u64::leading_zeros] *)
Definition leading_zeros64 (x : Z) : Z := if x =? 0 then 64 else 63 - Z.log2 x.

(** [bit_len] and [bit_len_320]: scan from the top limb down. *)
Fixpoint bit_len_from (v : list Z) (i : nat) : Z :=
  match i with
  | O => 0
  | S i =>
    if limb_at v i =? 0 then bit_len_from v i
    else Z.of_nat i * 64 + (64 - leading_zeros64 (limb_at v i))
  end.

(** [shl] and [shl_320]: the body of the loop for limb [i]. *)
Definition shl_limb (v : list Z) (limb : nat) (bit : Z) (i : nat) : Z :=
  if (limb <=? i)%nat then
    let src := (i - limb)%nat in
    let x := wrap 64 (Z.shiftl (limb_at v src) bit) in
    if (0 <? bit) && (0 <? src)%nat
    then Z.lor x (Z.shiftr (limb_at v (src - 1)) (64 - bit))
    else x
  else 0.
Definition shl_limbs (n : nat) (v : list Z) (s : Z) : list Z :=
  shl_limb v (Z.to_nat (s / 64)) (s mod 64) <$> seq 0 n.

(** [shr] and [shr_320] *)
Definition shr_limb (n : nat) (v : list Z) (limb : nat) (bit : Z) (i : nat) : Z :=
  let src := (i + limb)%nat in
  if (src <? n)%nat then
    let x := Z.shiftr (limb_at v src) bit in
    if (0 <? bit) && (src + 1 <? n)%nat
    then Z.lor x (wrap 64 (Z.shiftl (limb_at v (src + 1)) (64 - bit)))
    else x
  else 0.
Definition shr_limbs (n : nat) (v : list Z) (s : Z) : list Z :=
  if 64 * Z.of_nat n <=? s then replicate n 0
  else shr_limb n v (Z.to_nat (s / 64)) (s mod 64) <$> seq 0 n.

(** [Ord::cmp] of limb vectors: compare from the top limb down. *)
Definition limbs_cmp (a b : list Z) : comparison := bytes_cmp (rev a) (rev b).
Definition limbs_ltb (a b : list Z) : bool := match limbs_cmp a b with Lt => true | _ => false end.
Definition limbs_leb (a b : list Z) : bool := match limbs_cmp a b with Gt => false | _ => true end.

(** ** Limbs of a number *)
Definition limb_of (x : Z) (i : nat) : Z := (x / 2 ^ (64 * Z.of_nat i)) mod 2 ^ 64.
Definition to_limbs (n : nat) (x : Z) : list Z := limb_of x <$> seq 0 n.

Lemma limb_of_ok x i : limb_ok (limb_of x i).
Proof. apply Z.mod_pos_bound. lia. Qed.

Lemma to_limbs_ok n x : limbs_ok n (to_limbs n x).
Proof.
  split; [unfold to_limbs; by rewrite length_fmap, length_seq|].
  apply Forall_fmap, Forall_true. intros i. apply limb_of_ok.
Qed.

Lemma limb_of_0 x : limb_of x 0 = x mod 2 ^ 64.
Proof. unfold limb_of. by rewrite Z.div_1_r. Qed.

Lemma limb_of_S x i : limb_of x (S i) = limb_of (x / 2 ^ 64) i.
Proof.
  unfold limb_of. rewrite Z.div_div by (try apply Z.pow_nonzero; lia).
  rewrite <-Z.pow_add_r by lia. do 3 f_equal. lia.
Qed.

Lemma to_limbs_S n x : to_limbs (S n) x = x mod 2 ^ 64 :: to_limbs n (x / 2 ^ 64).
Proof.
  unfold to_limbs. cbn [seq]. rewrite fmap_cons, limb_of_0. f_equal.
  rewrite <-fmap_S_seq, <-list_fmap_compose. apply list_fmap_ext. intros i y _. apply limb_of_S.
Qed.

Lemma pow64_S n : 2 ^ (64 * Z.of_nat (S n)) = 2 ^ 64 * 2 ^ (64 * Z.of_nat n).
Proof. rewrite <-Z.pow_add_r by lia. f_equal. lia. Qed.

Lemma val_bounds n l : limbs_ok n l -> 0 <= val l < 2 ^ (64 * Z.of_nat n).
Proof.
  intros [<- Hl]. induction Hl as [|x l Hx Hl IH]; [cbn; lia|].
  cbn [length val]. rewrite pow64_S. unfold limb_ok in Hx. lia.
Qed.

Lemma val_to_limbs n x : val (to_limbs n x) = x mod 2 ^ (64 * Z.of_nat n).
Proof.
  revert x. induction n as [|n IH]; intros x; [cbn; by rewrite Z.mod_1_r|].
  rewrite to_limbs_S. cbn [val]. rewrite IH, pow64_S, Z.rem_mul_r; [lia|lia|].
  apply Z.pow_pos_nonneg; lia.
Qed.

Lemma to_limbs_val n l : limbs_ok n l -> to_limbs n (val l) = l.
Proof.
  intros [<- Hl]. induction Hl as [|x l Hx Hl IH]; [done|].
  cbn [length val]. rewrite to_limbs_S. unfold limb_ok in Hx. f_equal.
  - rewrite Z.mul_comm, Z.mod_add by lia. by apply Z.mod_small.
  - rewrite Z.mul_comm, Z.div_add, Z.div_small by lia. apply IH.
Qed.

Lemma limb_at_to_limbs n x i : (i < n)%nat -> limb_at (to_limbs n x) i = limb_of x i.
Proof.
  intros H. unfold limb_at, to_limbs. rewrite list_lookup_fmap.
  by rewrite (lookup_seq_lt 0 n i H).
Qed.

Lemma limb_at_val n l i : limbs_ok n l -> (i < n)%nat -> limb_at l i = limb_of (val l) i.
Proof. intros Hl Hi. rewrite <-(to_limbs_val n l Hl) at 1. by apply limb_at_to_limbs. Qed.

Lemma limbs_val_inj n a b : limbs_ok n a -> limbs_ok n b -> val a = val b -> a = b.
Proof. intros Ha Hb H. rewrite <-(to_limbs_val n a Ha), <-(to_limbs_val n b Hb). by rewrite H. Qed.

Lemma limb_of_bit x i j :
  0 <= j -> Z.testbit (limb_of x i) j = (j <? 64) && Z.testbit x (64 * Z.of_nat i + j).
Proof.
  intros Hj. unfold limb_of. destruct (Z.ltb_spec j 64).
  - rewrite Z.mod_pow2_bits_low, Z.div_pow2_bits by lia. cbn. f_equal. lia.
  - by rewrite Z.mod_pow2_bits_high by lia.
Qed.

(** ** Shifts *)
Lemma wrap_bit w x j : 0 <= w -> 0 <= j -> Z.testbit (wrap w x) j = (j <? w) && Z.testbit x j.
Proof.
  intros Hw Hj. unfold wrap. destruct (Z.ltb_spec j w).
  - by rewrite Z.mod_pow2_bits_low.
  - by rewrite Z.mod_pow2_bits_high by lia.
Qed.

Lemma shl_limb_spec n v s i :
  limbs_ok n v -> 0 <= s -> (i < n)%nat ->
  shl_limb v (Z.to_nat (s / 64)) (s mod 64) i = limb_of (val v * 2 ^ s) i.
Proof.
  intros Hv Hs Hi. pose proof (Z_div_mod_eq_full s 64) as Hdm.
  pose proof (Z.mod_pos_bound s 64 ltac:(lia)) as Hm. pose proof (Z.div_pos s 64 Hs ltac:(lia)) as Hd.
  set (bit := s mod 64) in *. set (limb := Z.to_nat (s / 64)) in *.
  assert (s = 64 * Z.of_nat limb + bit) as Hs' by (unfold limb; lia).
  rewrite <-Z.shiftl_mul_pow2 by lia.
  apply Z.bits_inj'. intros j Hj. rewrite limb_of_bit by done.
  unfold shl_limb. destruct (Nat.leb_spec limb i) as [Hle|Hgt].
  2: { rewrite Z.bits_0. destruct (Z.ltb_spec j 64); [|done]. cbn.
       rewrite Z.shiftl_spec by lia. by rewrite Z.testbit_neg_r by lia. }
  rewrite Z.shiftl_spec by lia.
  replace (64 * Z.of_nat i + j - s) with (64 * Z.of_nat (i - limb) + (j - bit)) by lia.
  set (src := (i - limb)%nat) in *.
  assert (Z.testbit (wrap 64 (Z.shiftl (limb_at v src) bit)) j =
    (j <? 64) && (bit <=? j) && Z.testbit (val v) (64 * Z.of_nat src + (j - bit))) as Hx.
  { rewrite wrap_bit, Z.shiftl_spec by lia. destruct (Z.ltb_spec j 64); [|done]. cbn.
    destruct (Z.leb_spec bit j); cbn.
    - rewrite (limb_at_val n) by (done || lia). rewrite limb_of_bit by lia.
      destruct (Z.ltb_spec (j - bit) 64); [done|lia].
    - by rewrite Z.testbit_neg_r by lia. }
  destruct ((0 <? bit) && (0 <? src)%nat) eqn:E.
  - to_prop. apply Nat.ltb_lt in H0. rewrite Z.lor_spec, Hx, Z.shiftr_spec by lia.
    rewrite (limb_at_val n) by (done || lia). rewrite limb_of_bit by lia.
    replace (64 * Z.of_nat (src - 1) + (j + (64 - bit))) with (64 * Z.of_nat src + (j - bit)) by lia.
    destruct (Z.ltb_spec j 64), (Z.leb_spec bit j), (Z.ltb_spec (j + (64 - bit)) 64); cbn;
      rewrite ?orb_false_r; (done || lia).
  - rewrite Hx. destruct (Z.ltb_spec j 64); [|done]. destruct (Z.leb_spec bit j); [done|]. cbn.
    symmetry. apply Z.testbit_neg_r. to_prop. destruct E as [E|E].
    + apply Z.ltb_ge in E. lia.
    + apply Nat.ltb_ge in E. lia.
Qed.

Lemma shl_limbs_spec n v s :
  limbs_ok n v -> 0 <= s -> shl_limbs n v s = to_limbs n (val v * 2 ^ s).
Proof.
  intros Hv Hs. unfold shl_limbs, to_limbs. apply list_fmap_ext. intros k i Hi.
  apply lookup_seq in Hi. apply (shl_limb_spec n); [done..|lia].
Qed.

Lemma shr_limb_spec n v s i :
  limbs_ok n v -> 0 <= s -> (i < n)%nat ->
  shr_limb n v (Z.to_nat (s / 64)) (s mod 64) i = limb_of (val v / 2 ^ s) i.
Proof.
  intros Hv Hs Hi. pose proof (Z_div_mod_eq_full s 64) as Hdm.
  pose proof (Z.mod_pos_bound s 64 ltac:(lia)) as Hm. pose proof (Z.div_pos s 64 Hs ltac:(lia)) as Hd.
  set (bit := s mod 64) in *. set (limb := Z.to_nat (s / 64)) in *.
  assert (s = 64 * Z.of_nat limb + bit) as Hs' by (unfold limb; lia).
  pose proof (val_bounds n v Hv) as Hb.
  rewrite <-Z.shiftr_div_pow2 by lia.
  apply Z.bits_inj'. intros j Hj. rewrite limb_of_bit by done. rewrite Z.shiftr_spec by lia.
  unfold shr_limb. set (src := (i + limb)%nat) in *.
  replace (64 * Z.of_nat i + j + s) with (64 * Z.of_nat src + (j + bit)) by lia.
  destruct (Nat.ltb_spec src n) as [Hlt|Hge].
  2: { rewrite Z.bits_0. destruct (Z.ltb_spec j 64); [|done]. cbn.
       rewrite (testbit_high (64 * Z.of_nat n)) by (done || lia). done. }
  assert (Z.testbit (Z.shiftr (limb_at v src) bit) j =
    (j + bit <? 64) && Z.testbit (val v) (64 * Z.of_nat src + (j + bit))) as Hx.
  { rewrite Z.shiftr_spec by lia. rewrite (limb_at_val n) by (done || lia).
    by rewrite limb_of_bit by lia. }
  destruct ((0 <? bit) && (src + 1 <? n)%nat) eqn:E.
  - to_prop. apply Nat.ltb_lt in H0. rewrite Z.lor_spec, Hx, wrap_bit, Z.shiftl_spec by lia.
    destruct (Z.ltb_spec (j + bit) 64), (Z.ltb_spec j 64); cbn; try lia.
    + rewrite (Z.testbit_neg_r _ (j - (64 - bit))) by lia. by rewrite orb_false_r.
    + rewrite (limb_at_val n) by (done || lia). rewrite limb_of_bit by lia.
      destruct (Z.ltb_spec (j - (64 - bit)) 64); [|lia]. cbn. f_equal. lia.
  - rewrite Hx. destruct (Z.ltb_spec (j + bit) 64); destruct (Z.ltb_spec j 64); cbn; try done; try lia.
    symmetry. apply (testbit_high (64 * Z.of_nat n)); [done|]. to_prop. destruct E as [E|E].
    + apply Z.ltb_ge in E. lia.
    + apply Nat.ltb_ge in E. lia.
Qed.

Lemma shr_limbs_spec n v s :
  limbs_ok n v -> 0 <= s -> shr_limbs n v s = to_limbs n (val v / 2 ^ s).
Proof.
  intros Hv Hs. unfold shr_limbs. pose proof (val_bounds n v Hv) as Hb.
  destruct (Z.leb_spec (64 * Z.of_nat n) s) as [Hle|Hlt].
  - rewrite Z.div_small.
    2: { split; [lia|]. eapply Z.lt_le_trans; [apply Hb|]. apply Z.pow_le_mono_r; lia. }
    unfold to_limbs. apply list_eq. intros i. rewrite list_lookup_fmap.
    destruct (decide (i < n)%nat) as [Hi|Hi].
    + rewrite lookup_replicate_2 by done. rewrite (lookup_seq_lt 0 n i Hi). cbn.
      unfold limb_of. by rewrite Zdiv_0_l, Zmod_0_l.
    + rewrite lookup_ge_None_2 by (rewrite length_replicate; lia).
      by rewrite lookup_ge_None_2 by (rewrite length_seq; lia).
  - unfold to_limbs. apply list_fmap_ext. intros k i Hi.
    apply lookup_seq in Hi. apply (shr_limb_spec n); [done..|lia].
Qed.

Lemma val_shl n v s :
  limbs_ok n v -> 0 <= s -> val (shl_limbs n v s) = (val v * 2 ^ s) mod 2 ^ (64 * Z.of_nat n).
Proof. intros Hv Hs. by rewrite shl_limbs_spec, val_to_limbs. Qed.

Lemma val_shr n v s : limbs_ok n v -> 0 <= s -> val (shr_limbs n v s) = val v / 2 ^ s.
Proof.
  intros Hv Hs. rewrite shr_limbs_spec, val_to_limbs by done. apply Z.mod_small.
  pose proof (val_bounds n v Hv). split; [apply Z.div_pos; [lia|apply Z.pow_pos_nonneg; lia]|].
  eapply Z.le_lt_trans; [|apply H]. apply Z.div_le_upper_bound; [apply Z.pow_pos_nonneg; lia|].
  assert (0 < 2 ^ s) by (apply Z.pow_pos_nonneg; lia). nia.
Qed.

Lemma shl_limbs_ok n v s : limbs_ok n v -> 0 <= s -> limbs_ok n (shl_limbs n v s).
Proof. intros Hv Hs. rewrite shl_limbs_spec by done. apply to_limbs_ok. Qed.
Lemma shr_limbs_ok n v s : limbs_ok n v -> 0 <= s -> limbs_ok n (shr_limbs n v s).
Proof. intros Hv Hs. rewrite shr_limbs_spec by done. apply to_limbs_ok. Qed.

(** ** Comparison, zero and bit length *)
Lemma val_app a b : val (a ++ b) = val a + 2 ^ (64 * Zlen a) * val b.
Proof.
  induction a as [|x a IH]; [zlen; cbn; lia|]. cbn [app val]. rewrite IH, Zlen_cons.
  replace (64 * (1 + Zlen a)) with (64 + 64 * Zlen a) by lia.
  rewrite Z.pow_add_r by (pose proof (Zlen_nonneg a); lia). lia.
Qed.

Lemma limbs_cmp_spec n a b :
  limbs_ok n a -> limbs_ok n b -> limbs_cmp a b = (val a ?= val b).
Proof.
  unfold limbs_cmp. revert a b. induction n as [|n IH]; intros a b [Ha Ha'] [Hb Hb'].
  - by apply nil_length_inv in Ha as ->; apply nil_length_inv in Hb as ->.
  - destruct a as [|x a _] using rev_ind; [done|]. destruct b as [|y b _] using rev_ind; [done|].
    rewrite length_app in Ha, Hb. cbn in Ha, Hb.
    apply Forall_app in Ha' as [Ha1 Ha2], Hb' as [Hb1 Hb2]. inversion_clear Ha2. inversion_clear Hb2.
    assert (limbs_ok n a) as Ha0 by (split; [lia|done]). assert (limbs_ok n b) as Hb0 by (split; [lia|done]).
    rewrite !rev_app_distr. cbn [rev app bytes_cmp]. rewrite !val_app. cbn [val].
    assert (Zlen a = Z.of_nat n) as -> by (unfold Zlen; lia).
    assert (Zlen b = Z.of_nat n) as -> by (unfold Zlen; lia).
    pose proof (val_bounds n a Ha0). pose proof (val_bounds n b Hb0). rewrite IH by done.
    set (p := 2 ^ (64 * Z.of_nat n)) in *.
    destruct (Z.compare_spec x y) as [->|Hlt|Hgt].
    + symmetry. rewrite !(Z.add_comm (val _)). apply Zcompare_plus_compat.
    + symmetry. apply Z.compare_lt_iff. nia.
    + symmetry. apply Z.compare_gt_iff. nia.
Qed.

Lemma limbs_ltb_spec n a b : limbs_ok n a -> limbs_ok n b -> limbs_ltb a b = (val a <? val b).
Proof. intros. unfold limbs_ltb. rewrite (limbs_cmp_spec n) by done. unfold Z.ltb. by destruct (_ ?= _). Qed.
Lemma limbs_leb_spec n a b : limbs_ok n a -> limbs_ok n b -> limbs_leb a b = (val a <=? val b).
Proof. intros. unfold limbs_leb. rewrite (limbs_cmp_spec n) by done. unfold Z.leb. by destruct (_ ?= _). Qed.

Lemma val_zero n l : limbs_ok n l -> val l = 0 <-> l = replicate n 0.
Proof.
  intros Hl. assert (limbs_ok n (replicate n 0)) as Hz.
  { split; [apply length_replicate|]. apply Forall_replicate. unfold limb_ok. lia. }
  assert (val (replicate n 0) = 0) as Hv by (clear; induction n; cbn; lia).
  split; [|by intros ->]. intros H. apply (limbs_val_inj n); [done..|]. congruence.
Qed.

(** [bit_len] is the position above the highest set bit. *)
Definition bitlen (x : Z) : Z := if x =? 0 then 0 else Z.log2 x + 1.

Lemma bitlen_spec x : 0 < x -> 2 ^ (bitlen x - 1) <= x < 2 ^ bitlen x.
Proof.
  intros H. unfold bitlen. destruct (x =? 0) eqn:E; to_prop; [lia|].
  pose proof (Z.log2_spec x H). replace (Z.log2 x + 1 - 1) with (Z.log2 x) by lia.
  by rewrite Z.add_1_r.
Qed.

Lemma bit_len_from_spec l : forall n, limbs_ok n l -> bit_len_from l n = bitlen (val l).
Proof.
  induction l as [|x l IH] using rev_ind; intros n [<- Hl]; [done|].
  apply Forall_app in Hl as [Hl Hx]. inversion_clear Hx as [|? ? Hx' _]. rename Hx' into Hx.
  rewrite length_app, Nat.add_1_r. cbn [length bit_len_from].
  assert (limb_at (l ++ [x]) (length l) = x) as ->.
  { unfold limb_at. by rewrite lookup_app_r, Nat.sub_diag by lia. }
  rewrite val_app. cbn [val]. unfold limb_ok in Hx.
  assert (limbs_ok (length l) l) as Hok by done. pose proof (val_bounds _ l Hok) as Hb.
  destruct (x =? 0) eqn:E; to_prop.
  - subst x. replace (val l + _) with (val l) by lia. rewrite <-(IH (length l) Hok).
    assert (forall i, (i <= length l)%nat -> bit_len_from (l ++ [0]) i = bit_len_from l i) as Hi.
    { induction i as [|i IHi]; intros Hle; [done|]. cbn.
      assert (limb_at (l ++ [0]) i = limb_at l i) as ->.
      { unfold limb_at. by rewrite lookup_app_l by lia. }
      by rewrite IHi by lia. }
    by apply Hi.
  - unfold leading_zeros64, bitlen.
    destruct (x =? 0) eqn:E1; to_prop; [lia|].
    assert (0 < val l + 2 ^ (64 * Zlen l) * (x + 2 ^ 64 * 0)) as Hpos.
    { assert (0 < 2 ^ (64 * Zlen l)) by (apply Z.pow_pos_nonneg; pose proof (Zlen_nonneg l); lia). nia. }
    destruct (_ =? 0) eqn:E2; to_prop; [lia|]. clear E1 E2.
    assert (Z.log2 (val l + 2 ^ (64 * Zlen l) * (x + 2 ^ 64 * 0)) = 64 * Zlen l + Z.log2 x) as ->.
    { apply Z.log2_unique.
      - pose proof (Z.log2_nonneg x). pose proof (Zlen_nonneg l). lia.
      - pose proof (Z.log2_spec x ltac:(lia)) as [H1 H2]. pose proof (Zlen_nonneg l).
        pose proof (Z.log2_nonneg x).
        change (64 * Z.of_nat (length l)) with (64 * Zlen l) in Hb.
        set (p := 2 ^ (64 * Zlen l)) in *.
        replace (Z.succ (64 * Zlen l + Z.log2 x)) with (64 * Zlen l + Z.succ (Z.log2 x)) by lia.
        rewrite !Z.pow_add_r by lia. fold p. nia. }
    unfold Zlen. lia.
Qed.

#[export] Hint Resolve to_limbs_ok shl_limbs_ok shr_limbs_ok : plaine.
