(* ===== verification/Asert.v ===== *)
(** Difficulty (src/lib/consensus/src/asert.rs): 256-bit targets, their compact
    32-bit encoding and the ASERT retarget. The limb code is refined to integer
    formulas: [from_compact] to [compact_val], the retarget to [asert_spec]. *)

From Stdlib Require Import ZArith Lia List.
From stdpp Require Import base list numbers.
From S2P Require Import Prelude Constants Limbs Hex.
Open Scope Z_scope.

(** ** Targets *)
Abbreviation Target := (list Z).
Definition Target_ZERO : Target := [0; 0; 0; 0].
Definition Target_ONE : Target := [1; 0; 0; 0].
Definition Target_from_u64 (v : Z) : Target := [v; 0; 0; 0].
Definition POW_LIMIT : Target := POW_LIMIT_LIMBS.

Inductive AsertError :=
| NegativeCompact
| OverflowCompact
| ParentBelowAnchor
| BadHex.

Definition Target_is_zero (t : Target) : bool := bool_decide (t = Target_ZERO).
Definition Target_low_u64 (t : Target) : Z := limb_at t 0.
Definition Target_bit_len (t : Target) : Z := bit_len_from t 4.
Definition Target_shl (t : Target) (n : Z) : Target := shl_limbs 4 t n.
Definition Target_shr (t : Target) (n : Z) : Target := shr_limbs 4 t n.
Definition Target_cmp (a b : Target) : comparison := limbs_cmp a b.
Definition Target_gtb (a b : Target) : bool := match Target_cmp a b with Gt => true | _ => false end.

Definition Target_from_be_hex (s : bytes) : outcome AsertError Target :=
  let? b := map_err (fun _ => BadHex) (hex_decode s) in
  guard! negb (Zlen b =? 32) else BadHex ;;
  Ok [from_be (slice b 24 32); from_be (slice b 16 24); from_be (slice b 8 16); from_be (slice b 0 8)].

Definition Target_to_be_hex (t : Target) : bytes :=
  hex_encode (be_bytes 8 (limb_at t 3) ++ be_bytes 8 (limb_at t 2) ++
              be_bytes 8 (limb_at t 1) ++ be_bytes 8 (limb_at t 0)).

Definition from_compact (bits : Z) : outcome AsertError Target :=
  let size := Z.shiftr bits 24 in
  let word := Z.land bits 0x007fffff in
  guard! negb (word =? 0) && negb (Z.land bits 0x00800000 =? 0) else NegativeCompact ;;
  if word =? 0 then Ok Target_ZERO else
  guard! (34 <? size) || ((0xff <? word) && (33 <? size)) || ((0xffff <? word) && (32 <? size))
    else OverflowCompact ;;
  Ok (if size <=? 3 then Target_from_u64 (Z.shiftr word (8 * (3 - size)))
      else Target_shl (Target_from_u64 word) (8 * (size - 3))).

(** [u32::div_ceil] by 8 *)
Definition div_ceil8 (x : Z) : Z := (x + 7) / 8.

Definition to_compact (t : Target) : Z :=
  let size := div_ceil8 (Target_bit_len t) in
  let compact :=
    if size <=? 3 then wrap 64 (Z.shiftl (Target_low_u64 t) (8 * (3 - size)))
    else Target_low_u64 (Target_shr t (8 * (size - 3))) in
  let '(compact, size) :=
    if negb (Z.land compact 0x00800000 =? 0) then (Z.shiftr compact 8, size + 1)
    else (compact, size) in
  Z.lor (wrap 32 compact) (wrap 32 (Z.shiftl size 24)).

Definition GENESIS_BITS : Z := to_compact POW_LIMIT.

(** ** ASERT *)
Definition RADIX_BITS : Z := 16.
Definition RADIX : Z := Z.shiftl 1 RADIX_BITS.
Definition CUBE_C1 : Z := 195766423245049.
Definition CUBE_C2 : Z := 971821376.
Definition CUBE_C3 : Z := 5127.

Fixpoint mul_carry (a : list Z) (b carry : Z) : list Z :=
  match a with
  | [] => [wrap 64 carry]
  | limb :: a =>
    let p := limb * b + carry in
    wrap 64 p :: mul_carry a b (Z.shiftr p 64)
  end.
Definition mul_256_by_64 (a : Target) (b : Z) : list Z := mul_carry a b 0.
Definition bit_len_320 (v : list Z) : Z := bit_len_from v 5.
Definition shr_320 (v : list Z) (n : Z) : list Z := shr_limbs 5 v n.
Definition shl_320 (v : list Z) (n : Z) : list Z := shl_limbs 5 v n.

Definition asert_exponent (height_diff time_diff : Z) : Z :=
  let ideal := ASERT_TARGET_SPACING_SECS * (height_diff + 1) in
  Z.quot ((time_diff - ideal) * RADIX) ASERT_HALF_LIFE_SECS.

Definition asert_factor (f : Z) : Z :=
  RADIX + Z.shiftr (CUBE_C1 * f + CUBE_C2 * f * f + CUBE_C3 * f * f * f + Z.shiftl 1 47) 48.

(** The tail of the function: drop to 256 bits and clamp to [1, pow_limit]. *)
Definition asert_clamp (wide : list Z) (pow_limit : Target) : Target :=
  if negb (limb_at wide 4 =? 0) then pow_limit else
  let next := take 4 wide in
  if Target_is_zero next then Target_ONE else
  if Target_gtb next pow_limit then pow_limit else next.

Definition asert_next_target_from_ref
    (ref_target : Target) (height_diff time_diff : Z) (pow_limit : Target) : Target :=
  let exponent := asert_exponent height_diff time_diff in
  let shifts := Z.shiftr exponent RADIX_BITS in
  let frac := Z.land exponent 0xffff in
  let wide := mul_256_by_64 ref_target (asert_factor frac) in
  let shifts := shifts - RADIX_BITS in
  if shifts <=? 0 then
    asert_clamp (shr_320 wide (Z.min (- shifts) 320)) pow_limit
  else
    let bl := bit_len_320 wide in
    if bl =? 0 then asert_clamp wide pow_limit
    else if 256 <? bl + shifts then pow_limit
    else asert_clamp (shl_320 wide shifts) pow_limit.

Definition asert_next_target
    (anchor_bits anchor_height anchor_parent_time parent_height parent_time : Z)
    (pow_limit : Target) : outcome AsertError Target :=
  guard! parent_height <? anchor_height else ParentBelowAnchor ;;
  let? ref_target := from_compact anchor_bits in
  Ok (asert_next_target_from_ref ref_target (parent_height - anchor_height)
        (parent_time - anchor_parent_time) pow_limit).

Definition asert_next_bits
    (anchor_bits anchor_height anchor_parent_time parent_height parent_time : Z)
    (pow_limit : Target) : outcome AsertError Z :=
  let? t := asert_next_target anchor_bits anchor_height anchor_parent_time
              parent_height parent_time pow_limit in
  Ok (to_compact t).

(** ** Reference definitions over unbounded integers *)
Definition target_ok (t : Target) : Prop := limbs_ok 4 t.

(** [mantissa * 256^(size - 3)], rounded down. *)
Definition compact_val (bits : Z) : Z :=
  Z.land bits 0x007fffff * 2 ^ (8 * Z.shiftr bits 24) / 2 ^ 24.

(** The retargeted value before the clamp: [ref * factor * 2^shifts], rounded down. *)
Definition asert_raw (r exponent : Z) : Z :=
  Z.shiftl (r * asert_factor (exponent mod RADIX)) (exponent / RADIX - RADIX_BITS).

Definition asert_spec (r height_diff time_diff limit : Z) : Z :=
  let t := asert_raw r (asert_exponent height_diff time_diff) in
  if t =? 0 then 1 else Z.min t limit.

(** ** Targets as numbers *)
Lemma target_from_u64_ok v : limb_ok v -> target_ok (Target_from_u64 v).
Proof. intros H. split; [done|]. repeat constructor; try done; unfold limb_ok in *; lia. Qed.

Lemma val_from_u64 v : val (Target_from_u64 v) = v.
Proof. cbn. lia. Qed.

Lemma Target_is_zero_spec t : target_ok t -> Target_is_zero t = (val t =? 0).
Proof.
  intros Ht. unfold Target_is_zero. pose proof (val_zero 4 t Ht) as [H1 H2].
  destruct (val t =? 0) eqn:E; to_prop.
  - apply bool_decide_eq_true. by apply H1.
  - apply bool_decide_eq_false. intros ->. apply E. by apply H2.
Qed.

Lemma Target_gtb_spec a b : target_ok a -> target_ok b -> Target_gtb a b = (val b <? val a).
Proof.
  intros Ha Hb. unfold Target_gtb, Target_cmp. rewrite (limbs_cmp_spec 4) by done.
  unfold Z.ltb. rewrite (Z.compare_antisym (val b)). by destruct (val b ?= val a).
Qed.

Lemma low_limb_spec n v : limbs_ok (S n) v -> limb_at v 0 = val v mod 2 ^ 64.
Proof. intros Hv. rewrite (limb_at_val (S n)) by (done || lia). apply limb_of_0. Qed.

(** ** The compact encoding *)
Lemma compact_fields bits :
  0 <= bits < 2 ^ 32 ->
  0 <= Z.land bits 0x007fffff < 2 ^ 23 /\ 0 <= Z.shiftr bits 24 < 256.
Proof.
  intros H. change 0x007fffff with (2 ^ 23 - 1). rewrite land_mask by lia.
  rewrite Z.shiftr_div_pow2 by lia. split; [apply Z.mod_pos_bound; lia|].
  split; [apply Z.div_pos; lia|]. apply Z.div_lt_upper_bound; lia.
Qed.

Lemma scaled_small w size :
  0 <= size <= 3 -> w * 2 ^ (8 * size) / 2 ^ 24 = Z.shiftr w (8 * (3 - size)).
Proof.
  intros H. rewrite Z.shiftr_div_pow2 by lia.
  replace (2 ^ 24) with (2 ^ (8 * (3 - size)) * 2 ^ (8 * size)) by (rewrite <-Z.pow_add_r by lia; f_equal; lia).
  apply Z.div_mul_cancel_r; apply Z.pow_nonzero; lia.
Qed.

Lemma scaled_large w size :
  3 <= size -> w * 2 ^ (8 * size) / 2 ^ 24 = w * 2 ^ (8 * (size - 3)).
Proof.
  intros H. replace (2 ^ (8 * size)) with (2 ^ (8 * (size - 3)) * 2 ^ 24)
    by (rewrite <-Z.pow_add_r by lia; f_equal; lia).
  rewrite Z.mul_assoc. by apply Z.div_mul.
Qed.

(** The three-way overflow test of [from_compact] is exactly "the value does not fit". *)
Lemma compact_overflow_test word size :
  0 < word < 2 ^ 23 -> 3 < size ->
  (34 <? size) || ((0xff <? word) && (33 <? size)) || ((0xffff <? word) && (32 <? size)) =
  (2 ^ 256 <=? word * 2 ^ (8 * (size - 3))).
Proof.
  intros Hw Hs. destruct (Z.leb_spec (2 ^ 256) (word * 2 ^ (8 * (size - 3)))) as [Hle|Hlt].
  - apply not_false_iff_true. intros Hf. to_prop.
    assert (size <= 32 \/ (size = 33 /\ word <= 65535) \/ (size = 34 /\ word <= 255)) as Hc.
    { repeat match goal with H : _ \/ _ |- _ => destruct H end; to_prop; lia. }
    destruct Hc as [Hc|[[-> Hc]|[-> Hc]]]; [|lia..].
    assert (2 ^ (8 * (size - 3)) <= 2 ^ 232) by (apply Z.pow_le_mono_r; lia). nia.
  - apply not_true_iff_false. intros Ht. apply orb_true_iff in Ht.
    assert (34 < size \/ (size = 34 /\ 255 < word) \/ (size = 33 /\ 65535 < word)) as Hc.
    { repeat match goal with
      | H : _ \/ _ |- _ => destruct H
      | H : (_ || _)%bool = true |- _ => apply orb_true_iff in H
      end; to_prop; lia. }
    destruct Hc as [Hc|[[-> Hc]|[-> Hc]]]; [|lia..].
    assert (2 ^ 256 <= 2 ^ (8 * (size - 3))) by (apply Z.pow_le_mono_r; lia). nia.
Qed.

(** What [from_compact] does on every 32-bit input. *)
Lemma from_compact_total bits :
  0 <= bits < 2 ^ 32 ->
  let word := Z.land bits 0x007fffff in
  let neg := negb (word =? 0) && negb (Z.land bits 0x00800000 =? 0) in
  match from_compact bits with
  | Ok t => neg = false /\ target_ok t /\ val t = compact_val bits /\ compact_val bits < 2 ^ 256
  | Err e => (neg = true /\ e = NegativeCompact) \/
             (neg = false /\ e = OverflowCompact /\ 2 ^ 256 <= compact_val bits)
  | Panic => False
  end.
Proof.
  intros Hb word neg. destruct (compact_fields bits Hb) as [Hw Hs].
  unfold from_compact, compact_val. fold word. fold word in Hw. fold neg.
  set (size := Z.shiftr bits 24) in *. destruct neg; [by left|].
  destruct (word =? 0) eqn:E0; to_prop.
  { rewrite E0. split; [done|]. repeat split; try done. repeat constructor; unfold limb_ok; lia. }
  destruct (Z.leb_spec size 3) as [Hle|Hgt].
  - replace (_ || _)%bool with false by (symmetry; destruct (Z.ltb_spec 34 size), (Z.ltb_spec 33 size),
      (Z.ltb_spec 32 size); try lia; by rewrite !andb_false_r).
    rewrite scaled_small by lia.
    assert (0 <= Z.shiftr word (8 * (3 - size)) <= word) as Hsh.
    { rewrite Z.shiftr_div_pow2 by lia. assert (0 < 2 ^ (8 * (3 - size))) by (apply Z.pow_pos_nonneg; lia).
      split; [apply Z.div_pos; lia|]. apply Z.div_le_upper_bound; nia. }
    repeat split; try lia; try done.
    + apply target_from_u64_ok. unfold limb_ok. lia.
    + by rewrite val_from_u64.
  - rewrite compact_overflow_test by lia. rewrite scaled_large by lia.
    destruct (Z.leb_spec (2 ^ 256) (word * 2 ^ (8 * (size - 3)))) as [Ho|Ho]; [by right|].
    assert (target_ok (Target_from_u64 word)) as Hok by (apply target_from_u64_ok; unfold limb_ok; lia).
    split; [done|]. split; [by apply shl_limbs_ok; [|lia]|]. split; [|done].
    unfold Target_shl. rewrite val_shl by (done || lia). rewrite val_from_u64.
    apply Z.mod_small. split; [|done]. assert (0 < 2 ^ (8 * (size - 3))) by (apply Z.pow_pos_nonneg; lia). nia.
Qed.

(** [to_compact] over the integers: size and mantissa before the sign fix-up. *)
Definition csize (x : Z) : Z := div_ceil8 (bitlen x).
Definition cmant (x : Z) : Z := x * 2 ^ 24 / 2 ^ (8 * csize x).

Lemma csize_spec x : 0 < x -> 0 < csize x /\ 2 ^ (8 * (csize x - 1)) <= x < 2 ^ (8 * csize x).
Proof.
  intros Hx. pose proof (bitlen_spec x Hx) as [H1 H2]. unfold csize, div_ceil8.
  assert (0 < bitlen x) as Hp.
  { unfold bitlen. destruct (x =? 0) eqn:E; to_prop; [lia|]. pose proof (Z.log2_nonneg x). lia. }
  pose proof (Z_div_mod_eq_full (bitlen x + 7) 8). pose proof (Z.mod_pos_bound (bitlen x + 7) 8 ltac:(lia)).
  split; [lia|]. split.
  - eapply Z.le_trans; [|apply H1]. apply Z.pow_le_mono_r; lia.
  - eapply Z.lt_le_trans; [apply H2|]. apply Z.pow_le_mono_r; lia.
Qed.

Lemma csize_unique x s : 0 < s -> 2 ^ (8 * (s - 1)) <= x < 2 ^ (8 * s) -> csize x = s.
Proof.
  intros Hs [H1 H2]. assert (0 < x) as Hx by (pose proof (Z.pow_pos_nonneg 2 (8 * (s - 1))); lia).
  destruct (csize_spec x Hx) as (Hp & H3 & H4). destruct (Z.lt_trichotomy (csize x) s) as [H|[H|H]]; [|done|].
  - assert (2 ^ (8 * csize x) <= 2 ^ (8 * (s - 1))) by (apply Z.pow_le_mono_r; lia). lia.
  - assert (2 ^ (8 * s) <= 2 ^ (8 * (csize x - 1))) by (apply Z.pow_le_mono_r; lia). lia.
Qed.

Lemma csize_le x : 0 < x < 2 ^ 256 -> csize x <= 32.
Proof.
  intros Hx. destruct (csize_spec x ltac:(lia)) as (Hp & H1 & _).
  destruct (Z.le_gt_cases (csize x) 32) as [|H]; [done|].
  assert (2 ^ 256 <= 2 ^ (8 * (csize x - 1))) by (apply Z.pow_le_mono_r; lia). lia.
Qed.

Lemma cmant_bounds x : 0 < x -> 2 ^ 16 <= cmant x < 2 ^ 24.
Proof.
  intros Hx. destruct (csize_spec x Hx) as (Hp & H1 & H2). unfold cmant.
  assert (0 < 2 ^ (8 * csize x)) by (apply Z.pow_pos_nonneg; lia).
  assert (2 ^ (8 * csize x) = 2 ^ 8 * 2 ^ (8 * (csize x - 1))) as E
    by (rewrite <-Z.pow_add_r by lia; f_equal; lia).
  split; [apply Z.div_le_lower_bound; nia|]. apply Z.div_lt_upper_bound; nia.
Qed.

Lemma bit23_test c : 0 <= c < 2 ^ 24 -> negb (Z.land c 0x00800000 =? 0) = (2 ^ 23 <=? c).
Proof.
  intros Hc. assert (Z.land c 0x00800000 = if Z.testbit c 23 then 2 ^ 23 else 0) as ->.
  { apply Z.bits_inj'. intros i Hi. rewrite Z.land_spec. change 0x00800000 with (2 ^ 23).
    rewrite Z.pow2_bits_eqb by lia. destruct (Z.eqb_spec 23 i) as [<-|Hne].
    - rewrite andb_true_r. destruct (Z.testbit c 23); [by rewrite Z.pow2_bits_true|by rewrite Z.bits_0].
    - rewrite andb_false_r. destruct (Z.testbit c 23); [by rewrite Z.pow2_bits_false|by rewrite Z.bits_0]. }
  destruct (Z.leb_spec (2 ^ 23) c) as [H|H].
  - replace (Z.testbit c 23) with true; [done|]. symmetry. apply Z.testbit_true; [lia|].
    assert (c / 2 ^ 23 = 1) as ->; [|done]. symmetry. apply (Z.div_unique _ _ _ (c - 2 ^ 23)); lia.
  - by rewrite (testbit_high 23) by lia.
Qed.

(** [to_compact] as one integer formula. *)
Definition to_compact_val (x : Z) : Z :=
  if 2 ^ 23 <=? cmant x then cmant x / 2 ^ 8 + 2 ^ 24 * (csize x + 1)
  else cmant x + 2 ^ 24 * csize x.

Lemma to_compact_pack c s :
  0 <= c < 2 ^ 24 -> 0 <= s < 256 -> Z.lor (wrap 32 c) (wrap 32 (Z.shiftl s 24)) = c + 2 ^ 24 * s.
Proof.
  intros Hc Hs. rewrite Z.shiftl_mul_pow2 by lia. rewrite !wrap_small by lia.
  rewrite (lor_add c (s * 2 ^ 24) 24); [lia|lia|lia|]. by apply Z.mod_mul.
Qed.

Lemma to_compact_refines t : target_ok t -> 0 < val t -> to_compact t = to_compact_val (val t).
Proof.
  intros Ht Hx. pose proof (val_bounds 4 t Ht) as Hb. change (64 * Z.of_nat 4) with 256 in Hb.
  pose proof (csize_le (val t) ltac:(lia)) as Hle. destruct (csize_spec (val t) Hx) as (Hp & H1 & H2).
  pose proof (cmant_bounds (val t) Hx) as Hm.
  unfold to_compact, Target_bit_len. rewrite (bit_len_from_spec t 4 Ht).
  change (div_ceil8 (bitlen (val t))) with (csize (val t)). set (s := csize (val t)) in *.
  match goal with |- context [if s <=? 3 then ?a else ?b] =>
    assert ((if s <=? 3 then a else b) = cmant (val t)) as -> end.
  { unfold cmant, Target_low_u64. fold s. destruct (Z.leb_spec s 3) as [Hs|Hs].
    - rewrite (low_limb_spec 3) by done.
      assert (val t < 2 ^ 24) as Hlt by (eapply Z.lt_le_trans; [apply H2|]; apply Z.pow_le_mono_r; lia).
      rewrite (Z.mod_small (val t)) by lia.
      replace (2 ^ 24) with (2 ^ (8 * (3 - s)) * 2 ^ (8 * s)) by (rewrite <-Z.pow_add_r by lia; f_equal; lia).
      rewrite Z.mul_assoc, Z.div_mul by (apply Z.pow_nonzero; lia).
      rewrite Z.shiftl_mul_pow2 by lia. apply wrap_small.
      assert (2 ^ (8 * (3 - s)) <= 2 ^ 16) by (apply Z.pow_le_mono_r; lia).
      assert (0 < 2 ^ (8 * (3 - s))) by (apply Z.pow_pos_nonneg; lia). nia.
    - unfold Target_shr. rewrite (low_limb_spec 3) by (apply shr_limbs_ok; [done|lia]).
      rewrite val_shr by (done || lia).
      assert (val t * 2 ^ 24 / 2 ^ (8 * s) = val t / 2 ^ (8 * (s - 3))) as E.
      { replace (2 ^ (8 * s)) with (2 ^ (8 * (s - 3)) * 2 ^ 24) by (rewrite <-Z.pow_add_r by lia; f_equal; lia).
        apply Z.div_mul_cancel_r; [apply Z.pow_nonzero; lia|lia]. }
      rewrite E. apply Z.mod_small. unfold cmant in Hm. fold s in Hm. rewrite E in Hm. lia. }
  rewrite bit23_test by lia. unfold to_compact_val. fold s.
  destruct (2 ^ 23 <=? cmant (val t)).
  - rewrite Z.shiftr_div_pow2 by lia. apply to_compact_pack; [|lia].
    split; [apply Z.div_pos; lia|]. apply Z.div_lt_upper_bound; lia.
  - apply to_compact_pack; lia.
Qed.

(** Final size and mantissa; the mantissa is the value shifted by [size - 3] bytes. *)
Definition fsize (x : Z) : Z := if 2 ^ 23 <=? cmant x then csize x + 1 else csize x.
Definition fmant (x : Z) : Z := if 2 ^ 23 <=? cmant x then cmant x / 2 ^ 8 else cmant x.
(** The value rounded down to what the mantissa keeps. *)
Definition crounded (x : Z) : Z := Z.shiftl (fmant x) (8 * (fsize x - 3)).

Lemma to_compact_val_fields x : to_compact_val x = fmant x + 2 ^ 24 * fsize x.
Proof. unfold to_compact_val, fmant, fsize. by destruct (_ <=? _). Qed.

Lemma cmant_shift x : 0 < x -> cmant x = Z.shiftr x (8 * (csize x - 3)).
Proof.
  intros Hx. unfold cmant. destruct (csize_spec x Hx) as (Hp & _). set (s := csize x) in *.
  destruct (Z.le_gt_cases s 3) as [Hs|Hs].
  - replace (8 * (s - 3)) with (- (8 * (3 - s))) by lia. rewrite Z.shiftr_opp_r, Z.shiftl_mul_pow2 by lia.
    replace (2 ^ 24) with (2 ^ (8 * (3 - s)) * 2 ^ (8 * s)) by (rewrite <-Z.pow_add_r by lia; f_equal; lia).
    rewrite Z.mul_assoc, Z.div_mul by (apply Z.pow_nonzero; lia). done.
  - rewrite Z.shiftr_div_pow2 by lia.
    replace (2 ^ (8 * s)) with (2 ^ (8 * (s - 3)) * 2 ^ 24) by (rewrite <-Z.pow_add_r by lia; f_equal; lia).
    apply Z.div_mul_cancel_r; [apply Z.pow_nonzero; lia|lia].
Qed.

Lemma fmant_shift x : 0 < x -> fmant x = Z.shiftr x (8 * (fsize x - 3)).
Proof.
  intros Hx. unfold fmant, fsize. rewrite (cmant_shift x Hx). destruct (_ <=? _); [|done].
  rewrite <-Z.shiftr_div_pow2 by lia. set (d := 8 * (csize x - 3)).
  replace (8 * (csize x + 1 - 3)) with (d + 8) by lia. destruct (Z.le_gt_cases 0 d) as [Hd|Hd].
  - by rewrite Z.shiftr_shiftr.
  - replace (Z.shiftr x d) with (Z.shiftl x (- d)) by (by rewrite Z.shiftl_opp_r).
    rewrite Z.shiftr_shiftl_r by lia. f_equal. lia.
Qed.

Lemma fmant_bounds x : 0 < x -> 2 ^ 15 <= fmant x < 2 ^ 23 /\ 0 < fsize x /\
  (2 ^ 16 <= fmant x \/ (2 ^ 23 <= cmant x /\ fsize x = csize x + 1)).
Proof.
  intros Hx. pose proof (cmant_bounds x Hx). destruct (csize_spec x Hx) as (Hp & _).
  unfold fmant, fsize. destruct (Z.leb_spec (2 ^ 23) (cmant x)).
  - assert (2 ^ 15 <= cmant x / 2 ^ 8) by (apply Z.div_le_lower_bound; lia).
    assert (cmant x / 2 ^ 8 < 2 ^ 23) by (apply Z.div_lt_upper_bound; lia). lia.
  - lia.
Qed.

Lemma crounded_exact x : 0 < x -> fsize x <= 3 -> crounded x = x.
Proof.
  intros Hx Hs. unfold crounded. rewrite (fmant_shift x Hx). set (d := 8 * (fsize x - 3)).
  replace (Z.shiftr x d) with (Z.shiftl x (- d)) by (by rewrite Z.shiftl_opp_r).
  rewrite Z.shiftl_shiftl by lia. replace (- d + d) with 0 by lia. apply Z.shiftl_0_r.
Qed.

Lemma crounded_large x :
  0 < x -> 3 < fsize x ->
  fmant x = x / 2 ^ (8 * (fsize x - 3)) /\ crounded x = fmant x * 2 ^ (8 * (fsize x - 3)).
Proof.
  intros Hx Hs. unfold crounded. rewrite Z.shiftl_mul_pow2 by lia. split; [|done].
  rewrite (fmant_shift x Hx) at 1. by rewrite Z.shiftr_div_pow2 by lia.
Qed.

(** Rounding loses nothing when the value fits the mantissa, and otherwise less
    than one part in [2^15]. *)
Lemma crounded_spec x :
  0 < x -> 0 < crounded x <= x /\ (x - crounded x) * 2 ^ 15 <= x.
Proof.
  intros Hx. destruct (fmant_bounds x Hx) as (Hm & Hs & _).
  destruct (Z.le_gt_cases (fsize x) 3) as [Hd|Hd]; [rewrite crounded_exact by done; lia|].
  destruct (crounded_large x Hx Hd) as [Hf ->]. set (d := 8 * (fsize x - 3)) in *.
  assert (0 < 2 ^ d) by (apply Z.pow_pos_nonneg; lia).
  pose proof (Z_div_mod_eq_full x (2 ^ d)). pose proof (Z.mod_pos_bound x (2 ^ d) ltac:(lia)). nia.
Qed.

Lemma crounded_size x : 0 < x -> csize (crounded x) = csize x.
Proof.
  intros Hx. destruct (Z.le_gt_cases (fsize x) 3) as [Hd|Hd]; [by rewrite crounded_exact|].
  destruct (crounded_spec x Hx) as [[Hp Hle] _]. destruct (csize_spec x Hx) as (Hs & H1 & H2).
  apply csize_unique; [done|]. split; [|lia].
  destruct (crounded_large x Hx Hd) as [Hf Hc]. rewrite Hc, Hf. set (d := 8 * (fsize x - 3)) in *.
  assert (d <= 8 * (csize x - 2)) as Hd8 by (unfold d, fsize; destruct (_ <=? _); lia).
  assert (0 < 2 ^ d) by (apply Z.pow_pos_nonneg; lia).
  assert (2 ^ (8 * (csize x - 1)) = 2 ^ (8 * (csize x - 1) - d) * 2 ^ d) as E
    by (rewrite <-Z.pow_add_r by lia; f_equal; lia).
  rewrite E in H1 |- *. apply Z.mul_le_mono_nonneg_r; [lia|].
  apply Z.div_le_lower_bound; [done|]. lia.
Qed.

Lemma crounded_cmant x :
  0 < x -> cmant (crounded x) = if 2 ^ 23 <=? cmant x then fmant x * 2 ^ 8 else cmant x.
Proof.
  intros Hx. destruct (csize_spec x Hx) as (Hs & _). pose proof (cmant_shift x Hx) as Hc.
  destruct (Z.le_gt_cases (fsize x) 3) as [Hd|Hd].
  - rewrite crounded_exact by done. unfold fsize, fmant in *. destruct (2 ^ 23 <=? cmant x); [|done].
    rewrite Hc. replace (8 * (csize x - 3)) with (- (8 * (2 - csize x) + 8)) by lia.
    rewrite Z.shiftr_opp_r, Z.shiftl_mul_pow2, Z.pow_add_r, Z.mul_assoc by lia.
    by rewrite Z.div_mul by lia.
  - destruct (crounded_spec x Hx) as [[Hp _] _]. destruct (crounded_large x Hx Hd) as [Hf Hcr].
    rewrite (cmant_shift (crounded x) Hp), (crounded_size x Hx), Hcr.
    unfold fsize in *. destruct (2 ^ 23 <=? cmant x) eqn:E.
    + rewrite Z.shiftr_div_pow2 by lia.
      replace (8 * (csize x + 1 - 3)) with (8 + 8 * (csize x - 3)) by lia.
      rewrite Z.pow_add_r, Z.mul_assoc by lia. by rewrite Z.div_mul by (apply Z.pow_nonzero; lia).
    + rewrite Z.shiftr_div_pow2, Z.div_mul by (try apply Z.pow_nonzero; lia).
      unfold fmant. by rewrite E.
Qed.

Lemma to_compact_val_crounded x : 0 < x -> to_compact_val (crounded x) = to_compact_val x.
Proof.
  intros Hx. unfold to_compact_val. rewrite (crounded_size x Hx), (crounded_cmant x Hx).
  destruct (fmant_bounds x Hx) as (Hm & _). unfold fmant in *.
  destruct (2 ^ 23 <=? cmant x) eqn:E.
  - replace (2 ^ 23 <=? _) with true by (symmetry; apply Z.leb_le; lia).
    by rewrite Z.div_mul by lia.
  - by rewrite E.
Qed.

Lemma compact_val_to_compact x :
  0 < x < 2 ^ 256 ->
  let bits := to_compact_val x in
  0 <= bits < 2 ^ 32 /\ Z.land bits 0x00800000 = 0 /\ compact_val bits = crounded x.
Proof.
  intros Hx bits. destruct (fmant_bounds x ltac:(lia)) as (Hm & Hs & _).
  assert (fsize x <= 33) as Hs33 by (pose proof (csize_le x Hx); unfold fsize; destruct (_ <=? _); lia).
  assert (bits = fmant x + 2 ^ 24 * fsize x) as Hbits by apply to_compact_val_fields.
  assert (Z.shiftr bits 24 = fsize x) as Hsz.
  { rewrite Hbits, Z.shiftr_div_pow2 by lia. rewrite Z.mul_comm, Z.div_add, Z.div_small by lia. lia. }
  assert (Z.land bits 0x007fffff = fmant x) as Hmt.
  { change 0x007fffff with (2 ^ 23 - 1). rewrite land_mask by lia. rewrite Hbits.
    replace (2 ^ 24 * fsize x) with (2 * fsize x * 2 ^ 23) by lia. rewrite Z.mod_add by lia.
    apply Z.mod_small. lia. }
  split; [lia|]. split.
  - apply Z.bits_inj'. intros i Hi. rewrite Z.land_spec, Z.bits_0. change 0x00800000 with (2 ^ 23).
    rewrite Z.pow2_bits_eqb by lia. destruct (Z.eqb_spec 23 i) as [<-|]; [|by rewrite andb_false_r].
    rewrite andb_true_r. apply Z.testbit_false; [lia|]. rewrite Hbits.
    replace (2 ^ 24 * fsize x) with (2 * fsize x * 2 ^ 23) by lia. rewrite Z.div_add, Z.div_small by lia.
    rewrite Z.add_0_l, Z.mul_comm. by apply Z.mod_mul.
  - unfold compact_val, crounded. rewrite Hsz, Hmt. destruct (Z.le_gt_cases (fsize x) 3) as [H3|H3].
    + rewrite scaled_small by lia. replace (8 * (fsize x - 3)) with (- (8 * (3 - fsize x))) by lia.
      by rewrite Z.shiftl_opp_r.
    + rewrite scaled_large by lia. by rewrite Z.shiftl_mul_pow2 by lia.
Qed.

(** The compact encoding never rounds a target up. Every target below
    [2^256] re-encodes to bits that decode, without error, to a target that is
    at most the original, loses less than one part in [2^15], is nonzero when
    the original is, and encodes to the same bits. Zero encodes to zero bits. *)
Theorem compact_rounds_down (t : Target) (Ht : target_ok t) :
  exists t', from_compact (to_compact t) = Ok t' /\ target_ok t' /\
    val t' <= val t /\ (val t - val t') * 2 ^ 15 <= val t /\
    (val t' = 0 <-> val t = 0) /\ to_compact t' = to_compact t.
Proof.
  pose proof (val_bounds 4 t Ht) as Hb. change (64 * Z.of_nat 4) with 256 in Hb.
  destruct (decide (val t = 0)) as [Hz|Hnz].
  - apply (val_zero 4 t Ht) in Hz. subst t. exists Target_ZERO. repeat split; try done.
    repeat constructor; unfold limb_ok; lia.
  - assert (0 < val t) as Hp by lia. pose proof (compact_val_to_compact (val t) ltac:(lia)) as Hc.
    rewrite <-(to_compact_refines t Ht Hp) in Hc. cbv zeta in Hc. destruct Hc as (Hr & Hn & Hv).
    pose proof (from_compact_total (to_compact t) Hr) as Hf. cbv zeta in Hf.
    destruct (crounded_spec (val t) Hp) as [Hcr Hprec].
    rewrite Hn, andb_false_r in Hf. destruct (from_compact (to_compact t)) as [t'|e|] eqn:E; [|lia|done].
    destruct Hf as (_ & Hok & Hval & _). exists t'. rewrite Hval, Hv.
    repeat split; try done; try lia; try apply Hok.
    rewrite (to_compact_refines t' Hok) by lia. rewrite Hval, Hv, to_compact_val_crounded by lia.
    symmetry. by apply to_compact_refines.
Qed.

(** Deciding [target_ok] of a literal. *)
Lemma target_okb t : (length t =? 4)%nat && forallb (fits 64) t = true -> target_ok t.
Proof.
  intros H. to_prop. apply Nat.eqb_eq in H. split; [done|]. rewrite forallb_forall in H0.
  apply Forall_forall. intros x Hx. by apply (fits_spec 64), H0.
Qed.
Ltac solve_target_ok := apply target_okb; vm_compute; reflexivity.

Lemma pow_limit_ok : target_ok POW_LIMIT.
Proof. solve_target_ok. Qed.

Lemma compact_rounds_down_witness :
  exists t', from_compact (to_compact POW_LIMIT) = Ok t' /\ val t' <= val POW_LIMIT.
Proof.
  destruct (compact_rounds_down POW_LIMIT) as (t' & H1 & _ & H2 & _).
  - solve_target_ok.
  - by exists t'.
Defined.

(** ** The retarget *)
Lemma mul_carry_spec a : forall n b c,
  limbs_ok n a -> limb_ok b -> limb_ok c ->
  limbs_ok (S n) (mul_carry a b c) /\ val (mul_carry a b c) = val a * b + c.
Proof.
  induction a as [|x a IH]; intros n b c [<- Ha] Hb Hc; unfold limb_ok in *; cbn [mul_carry val length].
  - rewrite wrap_small by done. split; [|lia]. split; [done|]. by apply Forall_singleton.
  - inversion_clear Ha as [|? ? Hx Ha']. unfold limb_ok in Hx.
    assert (0 <= Z.shiftr (x * b + c) 64 < 2 ^ 64) as Hp.
    { rewrite Z.shiftr_div_pow2 by lia. split; [apply Z.div_pos; nia|]. apply Z.div_lt_upper_bound; nia. }
    destruct (IH (length a) b (Z.shiftr (x * b + c) 64)) as [[Hl Hok] Hv]; [done..|].
    split.
    + split; [cbn; lia|]. constructor; [|done]. by apply wrap_bounds.
    + rewrite Hv, Z.shiftr_div_pow2 by lia. unfold wrap.
      pose proof (Z_div_mod_eq_full (x * b + c) (2 ^ 64)). lia.
Qed.

Lemma asert_factor_mono f g : 0 <= f <= g -> asert_factor f <= asert_factor g.
Proof.
  intros H. unfold asert_factor. rewrite !Z.shiftr_div_pow2 by lia.
  apply Z.add_le_mono_l, Z.div_le_mono; [lia|].
  assert (f * f <= g * g) by nia. assert (f * f * f <= g * g * g) by nia.
  unfold CUBE_C1, CUBE_C2, CUBE_C3. lia.
Qed.

Lemma asert_factor_bounds f : 0 <= f < RADIX -> RADIX <= asert_factor f <= 2 * RADIX.
Proof.
  intros H. change RADIX with 65536 in *. split.
  - apply (asert_factor_mono 0 f). lia.
  - transitivity (asert_factor 65535); [apply asert_factor_mono; lia|]. vm_compute. discriminate.
Qed.

Lemma asert_clamp_spec w limit :
  limbs_ok 5 w -> target_ok limit ->
  target_ok (asert_clamp w limit) /\
  val (asert_clamp w limit) = if val w =? 0 then 1 else Z.min (val w) (val limit).
Proof.
  intros Hw Hl. pose proof (val_bounds 4 limit Hl) as Hlb. change (64 * Z.of_nat 4) with 256 in Hlb.
  destruct Hw as [Hlen Hok].
  destruct w as [|a [|b [|c [|d [|e [|]]]]]]; try discriminate Hlen.
  change [a; b; c; d; e] with ([a; b; c; d] ++ [e]) in *. apply Forall_app in Hok as [H4 H1].
  inversion_clear H1 as [|? ? He _]. unfold limb_ok in He.
  assert (target_ok [a; b; c; d]) as Ht by done.
  pose proof (val_bounds 4 _ Ht) as Hb. change (64 * Z.of_nat 4) with 256 in Hb.
  rewrite val_app. change (2 ^ (64 * Zlen [a; b; c; d])) with (2 ^ 256).
  unfold asert_clamp. change (limb_at ([a; b; c; d] ++ [e]) 4) with e.
  change (take 4 ([a; b; c; d] ++ [e])) with [a; b; c; d].
  rewrite Target_is_zero_spec, Target_gtb_spec by done.
  set (t := [a; b; c; d]) in *. cbn [val]. destruct (e =? 0) eqn:Ee; to_prop; cbn [negb].
  - subst e. replace (val t + 2 ^ 256 * (0 + 2 ^ 64 * 0)) with (val t) by lia.
    destruct (val t =? 0) eqn:E0; to_prop.
    + split; [|done]. repeat split; repeat constructor; unfold limb_ok; lia.
    + destruct (Z.ltb_spec (val limit) (val t)); split; try done; lia.
  - split; [done|]. destruct (_ =? 0) eqn:E0; to_prop; [nia|]. rewrite Z.min_r; [done|nia].
Qed.

Lemma shiftl_mono n1 n2 s : 0 <= n1 <= n2 -> Z.shiftl n1 s <= Z.shiftl n2 s.
Proof.
  intros H. destruct (Z.le_gt_cases 0 s).
  - rewrite !Z.shiftl_mul_pow2 by lia. assert (0 < 2 ^ s) by (apply Z.pow_pos_nonneg; lia). nia.
  - rewrite !Z.shiftl_div_pow2 by lia. apply Z.div_le_mono; [apply Z.pow_pos_nonneg; lia|lia].
Qed.

Lemma shiftl_succ n s : 0 <= n -> Z.shiftl n s <= Z.shiftl n (s + 1).
Proof.
  intros H. destruct (Z.le_gt_cases 0 s).
  - rewrite !Z.shiftl_mul_pow2, Z.pow_add_r by lia. assert (0 < 2 ^ s) by (apply Z.pow_pos_nonneg; lia). nia.
  - replace s with ((s + 1) + -1) at 1 by lia.
    replace (Z.shiftl n (s + 1 + -1)) with (Z.shiftr (Z.shiftr n (- (s + 1))) 1).
    2: { rewrite Z.shiftr_shiftr by lia. rewrite <-Z.shiftl_opp_r. f_equal. lia. }
    replace (Z.shiftl n (s + 1)) with (Z.shiftr n (- (s + 1))) by (rewrite <-Z.shiftl_opp_r; f_equal; lia).
    assert (0 <= Z.shiftr n (- (s + 1))) as Hn by (by apply Z.shiftr_nonneg).
    rewrite (Z.shiftr_div_pow2 _ 1) by lia. apply Z.div_le_upper_bound; lia.
Qed.

Lemma shiftl_mono_r n s1 s2 : 0 <= n -> s1 <= s2 -> Z.shiftl n s1 <= Z.shiftl n s2.
Proof.
  intros Hn Hs. replace s2 with (s1 + (s2 - s1)) by lia. generalize (s2 - s1) (Zle_minus_le_0 _ _ Hs).
  intros k Hk. clear Hs s2. revert k Hk. apply natlike_ind; [rewrite Z.add_0_r; lia|].
  intros k Hk IH. etransitivity; [exact IH|]. rewrite <-Z.add_1_r, Z.add_assoc. by apply shiftl_succ.
Qed.

(** The limb retarget against the closed formula, case by case on the shift. *)
Lemma asert_target_refines (r limit : Target) (hd td : Z)
    (Hr : target_ok r) (Hl : target_ok limit) :
  target_ok (asert_next_target_from_ref r hd td limit) /\
  val (asert_next_target_from_ref r hd td limit) = asert_spec (val r) hd td (val limit).
Proof.
  pose proof (val_bounds 4 limit Hl) as Hlb. change (64 * Z.of_nat 4) with 256 in Hlb.
  pose proof (val_bounds 4 r Hr) as Hrb. change (64 * Z.of_nat 4) with 256 in Hrb.
  unfold asert_next_target_from_ref, asert_spec, asert_raw. set (e := asert_exponent hd td).
  change 0xffff with (2 ^ 16 - 1). rewrite land_mask, Z.shiftr_div_pow2 by (unfold RADIX_BITS; lia).
  change (2 ^ RADIX_BITS) with RADIX. change (2 ^ 16) with RADIX.
  set (sh := e / RADIX - RADIX_BITS). set (F := asert_factor (e mod RADIX)).
  assert (RADIX <= F <= 2 * RADIX) as HF by (apply asert_factor_bounds, Z.mod_pos_bound; done).
  change RADIX with 65536 in HF.
  destruct (mul_carry_spec r 4 F 0) as [Hw Hv]; [done|unfold limb_ok; lia|unfold limb_ok; lia|].
  fold (mul_256_by_64 r F) in Hw, Hv. rewrite Z.add_0_r in Hv. set (w := mul_256_by_64 r F) in *.
  destruct (Z.leb_spec sh 0) as [Hs|Hs].
  - destruct (asert_clamp_spec (shr_320 w (Z.min (- sh) 320)) limit) as [H1 H2].
    { apply shr_limbs_ok; [done|lia]. } { done. }
    split; [done|]. rewrite H2. unfold shr_320. rewrite val_shr by (done || lia).
    assert (val w / 2 ^ Z.min (- sh) 320 = Z.shiftl (val r * F) sh) as ->; [|done].
    rewrite Z.shiftl_div_pow2, <-Hv by lia. pose proof (val_bounds 5 w Hw) as Hwb.
    change (64 * Z.of_nat 5) with 320 in Hwb. destruct (Z.le_gt_cases (- sh) 320).
    + by rewrite Z.min_l by lia.
    + rewrite Z.min_r by lia. rewrite !Z.div_small; [done| |lia]. split; [lia|].
      eapply Z.lt_le_trans; [apply Hwb|]. apply Z.pow_le_mono_r; lia.
  - unfold bit_len_320. rewrite (bit_len_from_spec w 5 Hw).
    rewrite Z.shiftl_mul_pow2, <-Hv by lia. assert (0 < 2 ^ sh) as Hp by (apply Z.pow_pos_nonneg; lia).
    pose proof (val_bounds 5 w Hw) as Hwb.
    destruct (decide (val w = 0)) as [Hz|Hnz].
    + rewrite Hz. cbn [bitlen Z.eqb]. destruct (asert_clamp_spec w limit Hw Hl) as [H1 H2].
      split; [done|]. by rewrite H2, Hz.
    + pose proof (bitlen_spec (val w) ltac:(lia)) as [Hb1 Hb2].
      assert (0 < bitlen (val w)) as Hbp.
      { unfold bitlen. destruct (_ =? 0) eqn:E; to_prop; [lia|]. pose proof (Z.log2_nonneg (val w)). lia. }
      destruct (bitlen (val w) =? 0) eqn:Eb; to_prop; [lia|].
      destruct (val w * 2 ^ sh =? 0) eqn:E0; to_prop; [nia|].
      destruct (Z.ltb_spec 256 (bitlen (val w) + sh)) as [Hbig|Hsmall].
      * split; [done|]. symmetry. apply Z.min_r.
        assert (2 ^ 256 <= 2 ^ (bitlen (val w) - 1) * 2 ^ sh).
        { rewrite <-Z.pow_add_r by lia. apply Z.pow_le_mono_r; lia. }
        nia.
      * assert (val w * 2 ^ sh < 2 ^ 256) as Hfit.
        { eapply Z.lt_le_trans; [apply Z.mul_lt_mono_pos_r; [done|apply Hb2]|].
          rewrite <-Z.pow_add_r by lia. apply Z.pow_le_mono_r; lia. }
        destruct (asert_clamp_spec (shl_320 w sh) limit) as [H1 H2].
        { apply shl_limbs_ok; [done|lia]. } { done. }
        split; [done|]. rewrite H2. unfold shl_320. rewrite val_shl by (done || lia).
        rewrite Z.mod_small by (change (64 * Z.of_nat 5) with 320; lia).
        by apply Z.eqb_neq in E0 as ->.
Qed.

(** C6. The 256/320-bit limb retarget computes the closed integer formula: the
    reference target times the cubic approximation of [2^x], shifted by the
    whole halvings or doublings, rounded down, with only the final value clamped
    to [1, pow_limit]; an overshoot past 256 bits clamps high and never wraps to
    a small target. The result is a well-formed target for any height and time
    difference. *)
Theorem asert_refines_formula (r limit : Target) (hd td : Z)
    (Hr : target_ok r) (Hl : target_ok limit) :
  target_ok (asert_next_target_from_ref r hd td limit) /\
  val (asert_next_target_from_ref r hd td limit) = asert_spec (val r) hd td (val limit).
Proof. by apply asert_target_refines. Qed.

Lemma asert_refines_formula_witness :
  val (asert_next_target_from_ref [0; 0; 0; 2 ^ 32] 100 9660 POW_LIMIT) =
  asert_spec (2 ^ 224) 100 9660 (val POW_LIMIT).
Proof.
  apply (asert_refines_formula [0; 0; 0; 2 ^ 32] POW_LIMIT 100 9660); solve_target_ok.
Defined.

Lemma asert_raw_mono r e1 e2 : 0 <= r -> e1 <= e2 -> asert_raw r e1 <= asert_raw r e2.
Proof.
  intros Hr He. unfold asert_raw.
  pose proof (Z_div_mod_eq_full e1 RADIX) as H1. pose proof (Z_div_mod_eq_full e2 RADIX) as H2.
  pose proof (Z.mod_pos_bound e1 RADIX ltac:(done)) as Hf1.
  pose proof (Z.mod_pos_bound e2 RADIX ltac:(done)) as Hf2.
  pose proof (asert_factor_bounds _ Hf1) as HF1. pose proof (asert_factor_bounds _ Hf2) as HF2.
  set (f1 := e1 mod RADIX) in *. set (f2 := e2 mod RADIX) in *.
  set (s1 := e1 / RADIX) in *. set (s2 := e2 / RADIX) in *. change RADIX with 65536 in *.
  assert (s1 = s2 \/ s1 + 1 <= s2) as [Hs|Hs] by lia.
  - rewrite <-Hs. apply shiftl_mono. pose proof (asert_factor_mono f1 f2 ltac:(lia)). nia.
  - transitivity (Z.shiftl (2 * (r * asert_factor f2)) (s1 - RADIX_BITS)); [apply shiftl_mono; nia|].
    rewrite (Z.mul_comm 2). change 2 with (2 ^ 1) at 1. rewrite <-Z.shiftl_mul_pow2 by lia.
    rewrite Z.shiftl_shiftl by lia. apply shiftl_mono_r; [nia|lia].
Qed.

Lemma asert_raw_nonneg r e : 0 <= r -> 0 <= asert_raw r e.
Proof.
  intros Hr. apply Z.shiftl_nonneg.
  pose proof (asert_factor_bounds (e mod RADIX) (Z.mod_pos_bound e RADIX ltac:(done))).
  change RADIX with 65536 in *. nia.
Qed.

Lemma asert_exponent_mono hd td1 td2 :
  td1 <= td2 -> asert_exponent hd td1 <= asert_exponent hd td2.
Proof.
  intros H. unfold asert_exponent. apply Z.quot_le_mono; [done|]. change RADIX with 65536. lia.
Qed.

Lemma asert_raw_on_schedule r : asert_raw r 0 = r.
Proof.
  unfold asert_raw. change (asert_factor (0 mod RADIX)) with (2 ^ 16).
  change (0 / RADIX - RADIX_BITS) with (- 16).
  rewrite Z.shiftl_div_pow2 by lia. by apply Z.div_mul.
Qed.

(** The retarget is monotone in the parent's timestamp (a later parent never
    makes the next block harder), always lands in [1, pow_limit], and returns
    the reference target itself (clamped) when the chain is exactly on the
    60-second schedule, so the schedule has no drift. *)
Theorem asert_monotone_and_clamped (r limit : Target) (hd td1 td2 : Z)
    (Hr : target_ok r) (Hl : target_ok limit) (Hpos : 1 <= val limit) (Htd : td1 <= td2) :
  val (asert_next_target_from_ref r hd td1 limit) <= val (asert_next_target_from_ref r hd td2 limit) /\
  1 <= val (asert_next_target_from_ref r hd td1 limit) /\
  val (asert_next_target_from_ref r hd td2 limit) <= val limit /\
  val (asert_next_target_from_ref r hd (ASERT_TARGET_SPACING_SECS * (hd + 1)) limit) =
    (if val r =? 0 then 1 else Z.min (val r) (val limit)).
Proof.
  rewrite !(proj2 (asert_target_refines r limit hd _ Hr Hl)).
  pose proof (val_bounds 4 r Hr) as [Hr0 _].
  pose proof (asert_raw_mono (val r) _ _ Hr0 (asert_exponent_mono hd td1 td2 Htd)) as Hm.
  pose proof (asert_raw_nonneg (val r) (asert_exponent hd td1) Hr0).
  pose proof (asert_raw_nonneg (val r) (asert_exponent hd td2) Hr0).
  assert (asert_exponent hd (ASERT_TARGET_SPACING_SECS * (hd + 1)) = 0) as Hz
    by (unfold asert_exponent; by rewrite Z.sub_diag).
  unfold asert_spec. rewrite Hz, asert_raw_on_schedule.
  repeat match goal with |- context [?x =? 0] => destruct (Z.eqb_spec x 0) end; lia.
Qed.

Lemma asert_monotone_and_clamped_witness :
  val (asert_next_target_from_ref [0; 0; 0; 2 ^ 32] 100 6000 POW_LIMIT) <=
  val (asert_next_target_from_ref [0; 0; 0; 2 ^ 32] 100 6120 POW_LIMIT).
Proof.
  apply (asert_monotone_and_clamped [0; 0; 0; 2 ^ 32] POW_LIMIT 100 6000 6120).
  - solve_target_ok.
  - solve_target_ok.
  - vm_compute. discriminate.
  - lia.
Defined.

(** No machine-width overflow in the retarget: for every pair of [u64]
    heights and timestamps the scaled time error fits [i128], the cubic fits
    [u128], its value fits the [u64] it is cast to, the 320-bit product fits its
    five limbs and the left shift that is taken is below 320. *)
Theorem asert_arithmetic_in_range (r : Target) (hd t t0 f : Z) (Hr : target_ok r)
    (Hhd : 0 <= hd < 2 ^ 64) (Ht : 0 <= t < 2 ^ 64) (Ht0 : 0 <= t0 < 2 ^ 64) (Hf : 0 <= f < RADIX) :
  - 2 ^ 127 <= (t - t0 - ASERT_TARGET_SPACING_SECS * (hd + 1)) * RADIX < 2 ^ 127 /\
  0 <= CUBE_C1 * f + CUBE_C2 * f * f + CUBE_C3 * f * f * f + Z.shiftl 1 47 < 2 ^ 128 /\
  0 <= asert_factor f < 2 ^ 64 /\
  val (mul_256_by_64 r (asert_factor f)) = val r * asert_factor f /\
  limbs_ok 5 (mul_256_by_64 r (asert_factor f)).
Proof.
  pose proof (asert_factor_bounds f Hf) as HF. change RADIX with 65536 in *.
  unfold ASERT_TARGET_SPACING_SECS, CUBE_C1, CUBE_C2, CUBE_C3. split; [lia|].
  assert (0 <= f * f <= 65535 * 65535) by nia. assert (0 <= f * f * f <= 65535 * 65535 * 65535) by nia.
  split; [change (Z.shiftl 1 47) with (2 ^ 47); lia|]. split; [lia|].
  destruct (mul_carry_spec r 4 (asert_factor f) 0) as [H1 H2]; [done|unfold limb_ok; lia|unfold limb_ok; lia|].
  split; [|done]. unfold mul_256_by_64. lia.
Qed.

Lemma asert_arithmetic_in_range_witness :
  val (mul_256_by_64 POW_LIMIT (asert_factor 65535)) = val POW_LIMIT * asert_factor 65535.
Proof.
  pose proof (asert_arithmetic_in_range POW_LIMIT 100 7000 60 65535 pow_limit_ok
    ltac:(lia) ltac:(lia) ltac:(lia) ltac:(change RADIX with 65536; lia)) as (_ & _ & _ & H & _).
  exact H.
Defined.

(** ** Concrete values *)
Lemma genesis_bits_value : GENESIS_BITS = 0x1F00FFFF.
Proof. vm_compute. reflexivity. Qed.

Lemma asert_vectors :
  asert_next_target 0x1d010000 0 0 100 6000 (replicate 4 (2 ^ 64 - 1)) = Ok (to_limbs 4 (0xfd1180 * 2 ^ 200)) /\
  asert_next_target 0x1d010000 0 0 100 7860 (replicate 4 (2 ^ 64 - 1)) = Ok (to_limbs 4 (0x16a02 * 2 ^ 208)) /\
  asert_next_target 0x1d010000 10 0 9 600 POW_LIMIT = Err ParentBelowAnchor /\
  asert_next_bits GENESIS_BITS 0 0 100 9660 POW_LIMIT = Ok GENESIS_BITS.
Proof. vm_compute. auto. Qed.
