(* ===== verification/Work.v ===== *)
(** Chain work (src/lib/consensus/src/rules.rs, [Work] and [work_from_target]):
    512-bit numbers as eight little-endian limbs, the schoolbook additions with
    carry and the bit-serial division, each refined to arithmetic on [Z]. *)

From Stdlib Require Import ZArith Lia List.
From stdpp Require Import base list numbers.
From S2P Require Import Prelude Constants Limbs.
Open Scope Z_scope.

Abbreviation Work := (list Z).
Abbreviation Hash32 := (list Z).

Definition Work_ZERO : Work := replicate 8 0.
Definition Work_ONE : Work := 1 :: replicate 7 0.
Definition Work_two_pow_256 : Work := <[4%nat := 1]> Work_ZERO.

(** The inner byte loop of [from_be256]. *)
Definition be_limb (b : bytes) : Z :=
  fold_left (fun v byte => Z.lor (wrap 64 (Z.shiftl v 8)) byte) b 0.
Definition Work_from_be256 (b : Hash32) : Work :=
  [be_limb (slice b 24 32); be_limb (slice b 16 24); be_limb (slice b 8 16); be_limb (slice b 0 8);
   0; 0; 0; 0].

(** The limb loops of [checked_add] and [checked_sub]: result limbs and carry out. *)
Fixpoint add_loop (a b : list Z) (carry : Z) : list Z * Z :=
  match a, b with
  | x :: a, y :: b =>
    let s1 := wrap 64 (x + y) in
    let c1 := if 2 ^ 64 <=? x + y then 1 else 0 in
    let s2 := wrap 64 (s1 + carry) in
    let c2 := if 2 ^ 64 <=? s1 + carry then 1 else 0 in
    let '(out, c) := add_loop a b (c1 + c2) in (s2 :: out, c)
  | _, _ => ([], carry)
  end.
Fixpoint sub_loop (a b : list Z) (borrow : Z) : list Z * Z :=
  match a, b with
  | x :: a, y :: b =>
    let d1 := wrap 64 (x - y) in
    let b1 := if x <? y then 1 else 0 in
    let d2 := wrap 64 (d1 - borrow) in
    let b2 := if d1 <? borrow then 1 else 0 in
    let '(out, c) := sub_loop a b (b1 + b2) in (d2 :: out, c)
  | _, _ => ([], borrow)
  end.

Definition Work_checked_add (a b : Work) : option Work :=
  let '(out, carry) := add_loop a b 0 in if carry =? 0 then Some out else None.
Definition Work_checked_sub (a b : Work) : option Work :=
  let '(out, borrow) := sub_loop a b 0 in if borrow =? 0 then Some out else None.

Definition Work_bit (w : Work) (i : nat) : bool :=
  Z.land (Z.shiftr (limb_at w (i / 64)) (Z.of_nat (i mod 64))) 1 =? 1.
Definition Work_set_bit (w : Work) (i : nat) : Work :=
  <[(i / 64)%nat := Z.lor (limb_at w (i / 64)) (Z.shiftl 1 (Z.of_nat (i mod 64)))]> w.

Fixpoint shl1_loop (w : list Z) (carry : Z) : list Z :=
  match w with
  | [] => []
  | limb :: w => Z.lor (wrap 64 (Z.shiftl limb 1)) carry :: shl1_loop w (Z.shiftr limb 63)
  end.
Definition Work_shl1_or (w : Work) (low : bool) : Work := shl1_loop w (Z.b2z low).

Definition Work_cmp (a b : Work) : comparison := limbs_cmp a b.
Definition Work_ltb (a b : Work) : bool := limbs_ltb a b.

(** One iteration of [div_floor]'s loop, then the loop for [i] from [n - 1] down. *)
Definition div_step {E} (self den : Work) (i : nat) (qr : Work * Work) : outcome E (Work * Work) :=
  let '(quot, rem) := qr in
  let rem := Work_shl1_or rem (Work_bit self i) in
  if negb (Work_ltb rem den) then
    let? rem := expect (Work_checked_sub rem den) in
    Ok (Work_set_bit quot i, rem)
  else Ok (quot, rem).
Fixpoint div_loop {E} (self den : Work) (n : nat) (qr : Work * Work) : outcome E (Work * Work) :=
  match n with
  | O => Ok qr
  | S i => let? qr := div_step self den i qr in div_loop self den i qr
  end.
Definition Work_div_floor {E} (self den : Work) : outcome E Work :=
  if bool_decide (den = Work_ZERO) then Panic else
  let? qr := div_loop self den 512 (Work_ZERO, Work_ZERO) in
  Ok (fst qr).

Definition work_from_target {E} (target_be : Hash32) : outcome E Work :=
  let? denom := expect (Work_checked_add (Work_from_be256 target_be) Work_ONE) in
  Work_div_floor Work_two_pow_256 denom.

Definition work_ok (w : Work) : Prop := limbs_ok 8 w.
Definition hash_ok (h : Hash32) : Prop := bytes_ok h /\ Zlen h = 32.

(** The reference: the expected number of hashes to meet a target. *)
Definition target_work (target : Z) : Z := 2 ^ 256 / (target + 1).

(** ** Addition and subtraction *)
Lemma add_loop_spec a : forall n b c out c',
  limbs_ok n a -> limbs_ok n b -> 0 <= c <= 1 -> add_loop a b c = (out, c') ->
  limbs_ok n out /\ 0 <= c' <= 1 /\ val out + 2 ^ (64 * Z.of_nat n) * c' = val a + val b + c.
Proof.
  induction a as [|x a IH]; intros n [|y b] c out c' [<- Ha] [Hl Hb] Hc H; try discriminate Hl.
  - cbn in *. simplify_eq. split; [done|]. cbn. lia.
  - cbn [add_loop] in H. destruct (add_loop a b _) as [out1 c1] eqn:E. simplify_eq.
    inversion_clear Ha as [|? ? Hx Ha']. inversion_clear Hb as [|? ? Hy Hb']. unfold limb_ok in *.
    cbn in Hl. unfold wrap in *.
    remember (if 2 ^ 64 <=? x + y then 1 else 0) as k1 eqn:K1.
    remember (if 2 ^ 64 <=? (x + y) mod 2 ^ 64 + c then 1 else 0) as k2 eqn:K2.
    pose proof (Z.mod_pos_bound (x + y) (2 ^ 64) ltac:(lia)) as Hm.
    assert ((x + y) mod 2 ^ 64 = x + y - 2 ^ 64 * k1) as E1.
    { subst k1. destruct (Z.leb_spec (2 ^ 64) (x + y)).
      - symmetry. apply Z.mod_unique with 1; lia.
      - rewrite Z.mod_small; lia. }
    assert (((x + y) mod 2 ^ 64 + c) mod 2 ^ 64 = (x + y) mod 2 ^ 64 + c - 2 ^ 64 * k2) as E2.
    { subst k2. destruct (Z.leb_spec (2 ^ 64) ((x + y) mod 2 ^ 64 + c)).
      - symmetry. apply Z.mod_unique with 1; lia.
      - rewrite Z.mod_small; lia. }
    apply (IH (length a)) in E as (Ho & Hc1 & Hv); [|done|by split; [lia|]|].
    + split; [destruct Ho as [Ho1 Ho2]; split; [cbn; lia|constructor; [|done]]; apply Z.mod_pos_bound; lia|].
      split; [done|]. cbn [length val]. rewrite pow64_S, E2, E1. clear -Hv. lia.
    + subst k1 k2. destruct (Z.leb_spec (2 ^ 64) (x + y)), (Z.leb_spec (2 ^ 64) ((x + y) mod 2 ^ 64 + c)); lia.
Qed.

Lemma sub_loop_spec a : forall n b c out c',
  limbs_ok n a -> limbs_ok n b -> 0 <= c <= 1 -> sub_loop a b c = (out, c') ->
  limbs_ok n out /\ 0 <= c' <= 1 /\ val out - 2 ^ (64 * Z.of_nat n) * c' = val a - val b - c.
Proof.
  induction a as [|x a IH]; intros n [|y b] c out c' [<- Ha] [Hl Hb] Hc H; try discriminate Hl.
  - cbn in *. simplify_eq. split; [done|]. cbn. lia.
  - cbn [sub_loop] in H. destruct (sub_loop a b _) as [out1 c1] eqn:E. simplify_eq.
    inversion_clear Ha as [|? ? Hx Ha']. inversion_clear Hb as [|? ? Hy Hb']. unfold limb_ok in *.
    cbn in Hl. unfold wrap in *.
    remember (if x <? y then 1 else 0) as k1 eqn:K1.
    remember (if (x - y) mod 2 ^ 64 <? c then 1 else 0) as k2 eqn:K2.
    pose proof (Z.mod_pos_bound (x - y) (2 ^ 64) ltac:(lia)) as Hm.
    assert ((x - y) mod 2 ^ 64 = x - y + 2 ^ 64 * k1) as E1.
    { subst k1. destruct (Z.ltb_spec x y).
      - symmetry. apply Z.mod_unique with (-1); lia.
      - rewrite Z.mod_small; lia. }
    assert (((x - y) mod 2 ^ 64 - c) mod 2 ^ 64 = (x - y) mod 2 ^ 64 - c + 2 ^ 64 * k2) as E2.
    { subst k2. destruct (Z.ltb_spec ((x - y) mod 2 ^ 64) c).
      - symmetry. apply Z.mod_unique with (-1); lia.
      - rewrite Z.mod_small; lia. }
    apply (IH (length a)) in E as (Ho & Hc1 & Hv); [|done|by split; [lia|]|].
    + split; [destruct Ho as [Ho1 Ho2]; split; [cbn; lia|constructor; [|done]]; apply Z.mod_pos_bound; lia|].
      split; [done|]. cbn [length val]. rewrite pow64_S, E2, E1. clear -Hv. lia.
    + subst k1 k2. destruct (Z.ltb_spec x y), (Z.ltb_spec ((x - y) mod 2 ^ 64) c); lia.
Qed.

Lemma work_bounds w : work_ok w -> 0 <= val w < 2 ^ 512.
Proof. apply (val_bounds 8). Qed.

Lemma Work_checked_add_spec a b :
  work_ok a -> work_ok b ->
  match Work_checked_add a b with
  | Some c => work_ok c /\ val c = val a + val b
  | None => 2 ^ 512 <= val a + val b
  end.
Proof.
  intros Ha Hb. unfold Work_checked_add. destruct (add_loop a b 0) as [out c] eqn:E.
  apply (add_loop_spec a 8) in E as (Ho & Hc & Hv); [|done..|lia].
  change (64 * Z.of_nat 8) with 512 in Hv. pose proof (work_bounds out Ho).
  destruct (c =? 0) eqn:Ec; to_prop; [split; [done|lia]|]. lia.
Qed.

Lemma Work_checked_sub_spec a b :
  work_ok a -> work_ok b ->
  match Work_checked_sub a b with
  | Some c => work_ok c /\ val c = val a - val b
  | None => val a < val b
  end.
Proof.
  intros Ha Hb. unfold Work_checked_sub. destruct (sub_loop a b 0) as [out c] eqn:E.
  apply (sub_loop_spec a 8) in E as (Ho & Hc & Hv); [|done..|lia].
  change (64 * Z.of_nat 8) with 512 in Hv. pose proof (work_bounds out Ho).
  destruct (c =? 0) eqn:Ec; to_prop; [split; [done|lia]|]. lia.
Qed.

Lemma Work_checked_add_fits a b :
  work_ok a -> work_ok b -> val a + val b < 2 ^ 512 ->
  exists c, Work_checked_add a b = Some c /\ work_ok c /\ val c = val a + val b.
Proof.
  intros Ha Hb Hlt. pose proof (Work_checked_add_spec a b Ha Hb).
  destruct (Work_checked_add a b); [eauto|lia].
Qed.

Lemma Work_checked_sub_fits a b :
  work_ok a -> work_ok b -> val b <= val a ->
  exists c, Work_checked_sub a b = Some c /\ work_ok c /\ val c = val a - val b.
Proof.
  intros Ha Hb Hle. pose proof (Work_checked_sub_spec a b Ha Hb).
  destruct (Work_checked_sub a b); [eauto|lia].
Qed.

Lemma Work_cmp_spec a b : work_ok a -> work_ok b -> Work_cmp a b = (val a ?= val b).
Proof. apply (limbs_cmp_spec 8). Qed.
Lemma Work_ltb_spec a b : work_ok a -> work_ok b -> Work_ltb a b = (val a <? val b).
Proof. apply (limbs_ltb_spec 8). Qed.
Lemma work_val_inj a b : work_ok a -> work_ok b -> val a = val b -> a = b.
Proof. apply (limbs_val_inj 8). Qed.

Lemma Work_ZERO_ok : work_ok Work_ZERO.
Proof. split; [done|]. apply Forall_replicate. unfold limb_ok. lia. Qed.
Lemma Work_ONE_ok : work_ok Work_ONE.
Proof. split; [done|]. constructor; [|apply Forall_replicate]; unfold limb_ok; lia. Qed.

(** ** The bit-serial division *)
Lemma Work_bit_spec w i : work_ok w -> (i < 512)%nat -> Work_bit w i = Z.testbit (val w) (Z.of_nat i).
Proof.
  intros Hw Hi. unfold Work_bit.
  assert (i = 64 * (i / 64) + i mod 64)%nat as Hd by (apply Nat.div_mod; lia).
  pose proof (Nat.mod_upper_bound i 64 ltac:(lia)).
  rewrite (limb_at_val 8) by (done || lia).
  rewrite (Z.land_ones _ 1), <-Z.bit0_mod by lia.
  rewrite Z.shiftr_spec, Z.add_0_l, limb_of_bit by lia.
  destruct (Z.ltb_spec (Z.of_nat (i mod 64)) 64); [|lia]. cbn [andb].
  replace (64 * Z.of_nat (i / 64) + Z.of_nat (i mod 64)) with (Z.of_nat i) by lia.
  by destruct (Z.testbit _ _).
Qed.

Lemma val_insert l k x :
  (k < length l)%nat -> val (<[k := x]> l) = val l + 2 ^ (64 * Z.of_nat k) * (x - limb_at l k).
Proof.
  revert k. induction l as [|y l IH]; intros k Hk; cbn in Hk; [lia|].
  destruct k as [|k]; cbn [insert list_insert val]; [cbn; lia|].
  rewrite IH by lia. rewrite pow64_S. change (limb_at (y :: l) (S k)) with (limb_at l k). lia.
Qed.

Lemma mod_pow2_limb q i :
  q mod 2 ^ Z.of_nat (S i) = 0 -> Z.testbit q (Z.of_nat i) = false.
Proof.
  intros H. rewrite <-(Z.mod_pow2_bits_low q (Z.of_nat (S i))) by lia. rewrite H. apply Z.bits_0.
Qed.

Lemma lor_bit x k : 0 <= k -> Z.testbit x k = false -> Z.lor x (2 ^ k) = x + 2 ^ k.
Proof.
  intros Hk H. rewrite Z.add_nocarry_lxor.
  - apply Z.bits_inj'. intros j Hj. rewrite Z.lor_spec, Z.lxor_spec, Z.pow2_bits_eqb by lia.
    destruct (Z.eqb_spec k j) as [<-|]; [by rewrite H|]. by destruct (Z.testbit x j).
  - apply Z.bits_inj'. intros j Hj. rewrite Z.land_spec, Z.bits_0, Z.pow2_bits_eqb by lia.
    destruct (Z.eqb_spec k j) as [<-|]; [by rewrite H|]. by rewrite andb_false_r.
Qed.

Lemma Work_set_bit_spec q i :
  work_ok q -> (i < 512)%nat -> Z.testbit (val q) (Z.of_nat i) = false ->
  work_ok (Work_set_bit q i) /\ val (Work_set_bit q i) = val q + 2 ^ Z.of_nat i.
Proof.
  intros Hq Hi Hb. unfold Work_set_bit.
  assert (i = 64 * (i / 64) + i mod 64)%nat as Hd by (apply Nat.div_mod; lia).
  pose proof (Nat.mod_upper_bound i 64 ltac:(lia)) as Hm.
  set (k := (i / 64)%nat) in *. set (r := (i mod 64)%nat) in *.
  assert (Z.testbit (limb_at q k) (Z.of_nat r) = false) as Hr.
  { rewrite (limb_at_val 8), limb_of_bit by (done || lia).
    replace (64 * Z.of_nat k + Z.of_nat r) with (Z.of_nat i) by lia. by rewrite Hb, andb_false_r. }
  rewrite Z.shiftl_1_l, lor_bit by (done || lia). destruct Hq as [Hl Hf].
  assert (limb_ok (limb_at q k)) as Hlk.
  { rewrite (limb_at_val 8) by (done || lia). apply limb_of_ok. }
  split.
  - split; [by rewrite length_insert|]. apply Forall_insert; [done|]. unfold limb_ok in *.
    rewrite <-lor_bit by (done || lia). split; [apply Z.lor_nonneg; split; [lia|apply Z.pow_nonneg; lia]|].
    apply Z.log2_lt_cancel. rewrite Z.log2_pow2 by lia. rewrite Z.log2_lor by (try apply Z.pow_nonneg; lia).
    rewrite Z.log2_pow2 by lia. apply Z.max_lub_lt; [|lia].
    destruct (decide (limb_at q k = 0)) as [->|]; [cbn; lia|]. apply Z.log2_lt_pow2; lia.
  - rewrite val_insert by lia. replace (Z.of_nat i) with (64 * Z.of_nat k + Z.of_nat r) by lia.
    rewrite Z.pow_add_r by lia. lia.
Qed.

Lemma shl1_loop_ok w : forall n c, limbs_ok n w -> 0 <= c <= 1 ->
  limbs_ok n (shl1_loop w c) /\ val (shl1_loop w c) = (2 * val w + c) mod 2 ^ (64 * Z.of_nat n).
Proof.
  induction w as [|x w IH]; intros n c [<- Hw] Hc; [cbn; by rewrite Z.mod_1_r|].
  inversion_clear Hw as [|? ? Hx Hw']. unfold limb_ok in Hx. cbn [shl1_loop length val].
  assert (Z.shiftr x 63 = 2 * x / 2 ^ 64) as Hq.
  { rewrite Z.shiftr_div_pow2 by lia. replace (2 ^ 64) with (2 * 2 ^ 63) by lia.
    by rewrite Z.div_mul_cancel_l by lia. }
  assert (Z.lor (wrap 64 (Z.shiftl x 1)) c = (2 * x) mod 2 ^ 64 + c) as Hlo.
  { rewrite Z.shiftl_mul_pow2 by lia. unfold wrap. rewrite (Z.mul_comm x). change (2 ^ 1) with 2.
    rewrite Z.lor_comm. rewrite (lor_add c _ 1); [lia|lia|lia|].
    replace (2 ^ 64) with (2 * 2 ^ 63) by lia. rewrite Z.mul_mod_distr_l by lia.
    rewrite Z.mul_comm. apply Z.mod_mul. lia. }
  pose proof (Z.mod_pos_bound (2 * x) (2 ^ 64) ltac:(lia)).
  pose proof (Z_div_mod_eq_full (2 * x) (2 ^ 64)) as Hdm.
  assert (0 <= 2 * x / 2 ^ 64 <= 1) as Hcb.
  { split; [apply Z.div_pos; lia|]. apply Z.lt_succ_r. apply Z.div_lt_upper_bound; lia. }
  assert ((2 * x) mod 2 ^ 64 + c < 2 ^ 64) as Hsm.
  { change (2 ^ 64) with (2 * 2 ^ 63). rewrite Z.mul_mod_distr_l by lia.
    pose proof (Z.mod_pos_bound x (2 ^ 63) ltac:(lia)). lia. }
  rewrite Hq, Hlo. destruct (IH (length w) (2 * x / 2 ^ 64)) as [[Hl Hf] Hv]; [by split|done|].
  split; [split; [cbn; lia|constructor; [unfold limb_ok; lia|done]]|].
  rewrite Hv, pow64_S. set (p := 2 ^ (64 * Z.of_nat (length w))).
  assert (0 < p) by (apply Z.pow_pos_nonneg; lia).
  rewrite Z.rem_mul_r by lia.
  replace (2 * (x + 2 ^ 64 * val w) + c)
    with ((2 * x) mod 2 ^ 64 + c + (2 * val w + 2 * x / 2 ^ 64) * 2 ^ 64) by lia.
  rewrite Z.mod_add, Z.div_add by lia.
  rewrite (Z.mod_small (_ + c)), (Z.div_small (_ + c)) by lia. by rewrite Z.add_0_l.
Qed.

Lemma Work_shl1_or_spec w b :
  work_ok w -> 2 * val w + Z.b2z b < 2 ^ 512 ->
  work_ok (Work_shl1_or w b) /\ val (Work_shl1_or w b) = 2 * val w + Z.b2z b.
Proof.
  intros Hw Hlt. destruct (shl1_loop_ok w 8 (Z.b2z b) Hw) as [H1 H2]; [by destruct b|].
  split; [done|]. unfold Work_shl1_or. rewrite H2. apply Z.mod_small.
  pose proof (work_bounds w Hw). change (64 * Z.of_nat 8) with 512. destruct b; cbn in *; lia.
Qed.

(** The loop invariant of [div_floor] with [n] bits of the numerator left: the
    bits consumed so far are quotient times denominator plus remainder, and the
    quotient has no bit below [n]. *)
Definition div_inv (A D : Z) (n : nat) (qr : Work * Work) : Prop :=
  let '(quot, rem) := qr in
  work_ok quot /\ work_ok rem /\ val rem < D /\ val quot mod 2 ^ Z.of_nat n = 0 /\
  A / 2 ^ Z.of_nat n = val quot / 2 ^ Z.of_nat n * D + val rem.

Lemma div_pow2_S A i :
  0 <= A -> A / 2 ^ Z.of_nat i = 2 * (A / 2 ^ Z.of_nat (S i)) + Z.b2z (Z.testbit A (Z.of_nat i)).
Proof.
  intros HA. rewrite <-Z.shiftr_div_pow2, Z.testbit_odd by lia.
  replace (A / 2 ^ Z.of_nat (S i)) with (Z.div2 (Z.shiftr A (Z.of_nat i))).
  { apply Z.div2_odd. }
  rewrite Z.div2_spec, Z.shiftr_shiftr, Z.shiftr_div_pow2 by lia. do 2 f_equal. lia.
Qed.

Lemma div_step_inv {E} a d i qr :
  work_ok a -> work_ok d -> 0 < val d <= 2 ^ 511 -> (i < 512)%nat ->
  div_inv (val a) (val d) (S i) qr ->
  exists qr', div_step (E := E) a d i qr = Ok qr' /\ div_inv (val a) (val d) i qr'.
Proof.
  intros Ha Hd Hdb Hi. destruct qr as [q r]. intros (Hq & Hr & Hlt & Hm & He).
  pose proof (work_bounds r Hr). pose proof (work_bounds a Ha) as Hab. unfold div_step.
  rewrite Work_bit_spec by done. set (b := Z.testbit (val a) (Z.of_nat i)) in *.
  assert (2 * val r + Z.b2z b < 2 ^ 512) as Hfit.
  { replace (2 ^ 512) with (2 * 2 ^ 511) by lia. destruct b; cbn [Z.b2z]; lia. }
  destruct (Work_shl1_or_spec r b Hr Hfit) as [Hr1 Hv1].
  set (r1 := Work_shl1_or r b) in *. rewrite Work_ltb_spec by done.
  set (p := 2 ^ Z.of_nat i) in *. assert (0 < p) as Hp by (apply Z.pow_pos_nonneg; lia).
  assert (2 ^ Z.of_nat (S i) = p * 2) as Hps by (rewrite Nat2Z.inj_succ, Z.pow_succ_r by lia; lia).
  assert (val q mod p = 0 /\ val q / p = 2 * (val q / (p * 2))) as [Hqm Hqd].
  { rewrite <-Hps in *. apply Z.div_exact in Hm; [|lia]. rewrite Hm, Hps.
    set (t := val q / (p * 2)). replace (p * 2 * t) with (2 * t * p) by lia.
    rewrite Z.mod_mul, Z.div_mul by lia. split; [done|].
    f_equal. rewrite Hps in Hm. fold t in Hm. replace (2 * t * p) with (t * (p * 2)) by lia.
    rewrite Z.div_mul by lia. done. }
  pose proof (div_pow2_S (val a) i (proj1 Hab)) as Hs. fold p b in Hs. rewrite Hps in He, Hs.
  destruct (Z.ltb_spec (val r1) (val d)) as [Hl|Hge]; cbn [negb].
  - exists (q, r1). split; [done|]. repeat split; try done; try apply Hq; try apply Hr1.
    fold p. rewrite Hs, He, Hqd, Hv1. lia.
  - destruct (Work_checked_sub_fits r1 d Hr1 Hd Hge) as (r2 & -> & Hr2 & Hv2). cbn [expect obind].
    destruct (Work_set_bit_spec q i Hq Hi) as [Hq2 Hvq]; [by apply mod_pow2_limb|].
    exists (Work_set_bit q i, r2). split; [done|]. repeat split; try apply Hq2; try apply Hr2; fold p.
    + rewrite Hv2, Hv1. destruct b; cbn [Z.b2z] in *; lia.
    + rewrite Hvq. fold p. replace (val q + p) with (val q + 1 * p) by lia. by rewrite Z.mod_add by lia.
    + rewrite Hvq. fold p. replace (val q + p) with (val q + 1 * p) by lia. rewrite Z.div_add by lia.
      rewrite Hs, He, Hqd, Hv2, Hv1. lia.
Qed.

Lemma div_loop_inv {E} a d n : forall qr,
  work_ok a -> work_ok d -> 0 < val d <= 2 ^ 511 -> (n <= 512)%nat ->
  div_inv (val a) (val d) n qr ->
  exists qr', div_loop (E := E) a d n qr = Ok qr' /\ div_inv (val a) (val d) 0 qr'.
Proof.
  induction n as [|n IH]; intros qr Ha Hd Hdb Hn Hinv; [by exists qr|]. cbn [div_loop].
  destruct (div_step_inv (E := E) a d n qr) as (qr1 & -> & H1); [done..|lia|done|]. cbn [obind].
  apply IH; (done || lia).
Qed.

Lemma Work_div_floor_spec {E} a d :
  work_ok a -> work_ok d -> 0 < val d <= 2 ^ 511 ->
  exists q, Work_div_floor (E := E) a d = Ok q /\ work_ok q /\ val q = val a / val d.
Proof.
  intros Ha Hd Hdb. unfold Work_div_floor. rewrite bool_decide_eq_false_2.
  2: { intros ->. change (val Work_ZERO) with 0 in Hdb. lia. }
  pose proof (work_bounds a Ha) as Hab.
  destruct (div_loop_inv (E := E) a d 512 (Work_ZERO, Work_ZERO)) as ([q r] & -> & Hi); [done..|lia| |].
  - repeat split; try apply Work_ZERO_ok; try done; change (val Work_ZERO) with 0; [lia|].
    rewrite (Z.div_small (val a)); [done|]. apply Hab.
  - exists q. destruct Hi as (Hq & Hr & Hlt & _ & He). split; [done|]. split; [done|].
    change (2 ^ Z.of_nat 0) with 1 in He. rewrite !Z.div_1_r in He.
    pose proof (work_bounds r Hr). apply Z.div_unique with (val r); lia.
Qed.

(** ** The work of a target *)
Lemma be_limb_from_be b :
  bytes_ok b -> Zlen b <= 8 -> be_limb b = from_be b.
Proof.
  unfold be_limb, from_be. induction b as [|x b IH] using rev_ind; intros Hb Hl; [done|].
  apply Forall_app in Hb as [Hb Hx]. inversion_clear Hx as [|? ? Hx' _]. unfold byte_ok in Hx'.
  rewrite fold_left_app, rev_app_distr. cbn [fold_left rev app]. rewrite from_le_cons. zlen.
  rewrite IH by (done || lia).
  assert (0 <= from_le (rev b) < 2 ^ 56) as Hbd.
  { pose proof (from_be_bounds b Hb) as H. unfold from_be in H. split; [lia|]. eapply Z.lt_le_trans; [apply H|]. change (2 ^ 56) with (256 ^ 7).
    apply Z.pow_le_mono_r; lia. }
  rewrite Z.shiftl_mul_pow2 by lia. rewrite wrap_small by lia.
  rewrite Z.lor_comm, (lor_add x _ 8); [lia|lia|lia|]. apply Z.mod_mul. lia.
Qed.

Lemma Work_from_be256_spec b :
  hash_ok b -> work_ok (Work_from_be256 b) /\ val (Work_from_be256 b) = from_be b.
Proof.
  intros [Hb Hl]. unfold Work_from_be256.
  assert (forall i j, 0 <= i -> j = i + 8 -> j <= 32 ->
    be_limb (slice b i j) = from_be (slice b i j) /\ 0 <= from_be (slice b i j) < 2 ^ 64) as Hs.
  { intros i j Hi -> Hj. pose proof (slice_Forall _ b i (i + 8) Hb).
    assert (Zlen (slice b i (i + 8)) = 8) as Hz by (rewrite Zlen_slice; lia).
    split; [apply be_limb_from_be; [done|lia]|]. pose proof (from_be_bounds _ H) as Hbd.
    rewrite Hz in Hbd. apply Hbd. }
  destruct (Hs 0 8) as [-> H0]; [lia..|]. destruct (Hs 8 16) as [-> H1]; [lia..|].
  destruct (Hs 16 24) as [-> H2]; [lia..|]. destruct (Hs 24 32) as [-> H3]; [lia..|].
  split; [split; [done|]; repeat constructor; (apply H0 || apply H1 || apply H2 || apply H3 || lia)|].
  rewrite <-(slice_all b 32) at 5 by done.
  rewrite <-(slice_slice b 0 8 32), <-(slice_slice b 8 16 32), <-(slice_slice b 16 24 32) by lia.
  rewrite !from_be_app, !Zlen_app. rewrite !Zlen_slice by lia. cbn [val]. lia.
Qed.

Lemma work_from_target_spec_lemma {E} t :
  hash_ok t ->
  exists w, work_from_target (E := E) t = Ok w /\ work_ok w /\
    val w = target_work (from_be t) /\ 1 <= val w <= 2 ^ 256.
Proof.
  intros Ht. unfold work_from_target. destruct (Work_from_be256_spec t Ht) as [Hw Hv].
  destruct Ht as [Hb Hl]. pose proof (from_be_bounds t Hb) as Hbd. rewrite Hl in Hbd.
  change (256 ^ 32) with (2 ^ 256) in Hbd. change (val Work_ONE) with 1.
  destruct (Work_checked_add_fits (Work_from_be256 t) Work_ONE Hw Work_ONE_ok) as (d & -> & Hd & Hdv).
  { rewrite Hv. change (val Work_ONE) with 1. lia. }
  change (val Work_ONE) with 1 in Hdv. cbn [expect obind].
  destruct (Work_div_floor_spec (E := E) Work_two_pow_256 d) as (q & -> & Hq & Hqv); [|done|lia|].
  { split; [done|]. apply Forall_insert; [apply Work_ZERO_ok|]. unfold limb_ok. lia. }
  exists q. split; [done|]. split; [done|]. unfold target_work.
  change (val Work_two_pow_256) with (2 ^ 256) in Hqv. rewrite Hqv, Hdv, Hv. split; [done|].
  split; [apply Z.div_le_lower_bound; lia|]. apply Z.div_le_upper_bound; lia.
Qed.

(** A lower target is never worth less work. *)
Lemma target_work_antitone s t : 0 <= s <= t -> target_work t <= target_work s.
Proof. intros H. unfold target_work. apply Z.div_le_compat_l; lia. Qed.

(** [work_from_target] computes the expected number of hashes of a target:
    for every 32-byte target it returns, without panicking, the 512-bit number
    [2^256 / (target + 1)], which is at least one, and a lower target is never
    worth less work. *)
Theorem work_from_target_spec {E} s t :
  hash_ok s -> hash_ok t ->
  exists v w, work_from_target (E := E) s = Ok v /\ work_from_target (E := E) t = Ok w /\
    work_ok w /\ val w = target_work (from_be t) /\ 1 <= val w <= 2 ^ 256 /\
    (from_be s <= from_be t -> Work_ltb v w = false).
Proof.
  intros Hs Ht. destruct (work_from_target_spec_lemma (E := E) s Hs) as (v & Ev & Hv & Evv & _).
  destruct (work_from_target_spec_lemma (E := E) t Ht) as (w & Ew & Hw & Eww & Hb).
  exists v, w. repeat (split; [done|]). intros Hle. rewrite Work_ltb_spec by done.
  apply Z.ltb_ge. rewrite Evv, Eww. apply target_work_antitone.
  pose proof (from_be_bounds s (proj1 Hs)). lia.
Qed.

Definition half_target : Hash32 := 127 :: replicate 31 255.
Lemma half_target_ok : hash_ok half_target.
Proof. split; [|done]. constructor; [unfold byte_ok; lia|]. apply Forall_replicate. unfold byte_ok. lia. Qed.

Lemma work_from_target_spec_witness :
  exists v w, work_from_target (E := unit) half_target = Ok v /\
    work_from_target (E := unit) (replicate 32 255) = Ok w /\
    work_ok w /\ val w = target_work (from_be (replicate 32 255)) /\ 1 <= val w <= 2 ^ 256 /\
    (from_be half_target <= from_be (replicate 32 255) -> Work_ltb v w = false).
Proof.
  apply (work_from_target_spec half_target (replicate 32 255)); [exact half_target_ok|].
  split; [|reflexivity]. apply bytes_okb. reflexivity.
Defined.

Example work_of_port_map_vectors :
  work_from_target (E := unit) (replicate 32 0) = Ok Work_two_pow_256 /\
  work_from_target (E := unit) half_target = Ok (2 :: replicate 7 0) /\
  work_from_target (E := unit) (128 :: replicate 31 0) = Ok Work_ONE /\
  work_from_target (E := unit) (replicate 32 255) = Ok Work_ONE /\
  work_from_target (E := unit) (replicate 31 0 ++ [1]) = Ok [0; 0; 0; 2 ^ 63; 0; 0; 0; 0].
Proof. by vm_compute. Qed.
