(* ===== verification/Rules.v ===== *)
(** The fork-choice rules (src/lib/consensus/src/rules.rs): the [ChainView]
    interface, anchors, [evaluate_reorg], median time past, the block-time window,
    coinbase maturity and the spendable balance.  [ChainViewLaws] is the contract
    the panics of [evaluate_reorg] name; the theorems on reorganisations are proved
    against it, and every implementation of the view discharges it. *)

From Stdlib Require Import ZArith Lia List.
From stdpp Require Import base list numbers relations sorting.
From S2P Require Import Prelude Constants Limbs Work.
Open Scope Z_scope.

Definition ZERO_HASH : Hash32 := replicate 32 0.

Record HeaderInfo := MkHeaderInfo {
  hi_height : Z;
  hi_hash : Hash32;
  hi_time : Z;
  hi_target : Hash32;
}.

Class ChainView (C : Type) := {
  view_len : C -> Z;
  view_header_at : C -> Z -> option HeaderInfo;
  view_header_by_hash : C -> Hash32 -> option HeaderInfo;
  view_cumulative_work : C -> Work;
}.

Definition view_tip {E} `{ChainView C} (v : C) : outcome E HeaderInfo :=
  let? last := expect (checked_sub 64 (view_len v) 1) in
  expect (view_header_at v last).

Inductive RuleError :=
| EmptyCandidate
| BadForkPoint
| NonContiguousCandidate
| ReorgTooDeep (depth cap : Z)
| CheckpointShorteningAttack (height : Z)
| CheckpointMismatch (height : Z)
| InsufficientWork (depth : Z)
| TimestampTooOld (mtp time : Z)
| TimestampTooFarInFuture (time limit : Z).

Inductive ReorgVerdict := StrictlyMoreWork | TieBreak.

Record Anchor := MkAnchor { anchor_height : Z; anchor_hash : Hash32 }.

Definition candidate_meets_anchor (a : Anchor) (start_height : Z) (candidate : list HeaderInfo) : bool :=
  if (anchor_height a =? 0) || bytes_eqb (anchor_hash a) ZERO_HASH then false else
  if anchor_height a <? start_height then false else
  let idx := anchor_height a - start_height in
  if Zlen candidate <=? idx then false else
  match candidate !! Z.to_nat idx with
  | Some h => bytes_eqb (hi_hash h) (anchor_hash a)
  | None => false
  end.

Definition anchor_supersedes (current : option Anchor) (candidate : Anchor) : bool :=
  if (anchor_height candidate =? 0) || bytes_eqb (anchor_hash candidate) ZERO_HASH then false else
  match current with
  | None => true
  | Some cur => anchor_height cur <? anchor_height candidate
  end.

Abbreviation checkpoint_map := (list (Z * Hash32)).

Fixpoint check_block_checkpoint (checkpoints : checkpoint_map) (height : Z) (hash : Hash32)
    : outcome RuleError unit :=
  match checkpoints with
  | [] => Ok tt
  | (h, cp_hash) :: rest =>
    guard! (h =? height) && negb (bytes_eqb cp_hash hash) else CheckpointMismatch height ;;
    check_block_checkpoint rest height hash
  end.

Inductive CheckpointAdmission := Admit | GenesisImmutable | NotHeldYet | HashConflict.

Definition checkpoint_admission {E} `{ChainView C} (view : C) (height : Z) (hash : Hash32)
    : outcome E CheckpointAdmission :=
  if height =? 0 then Ok GenesisImmutable else
  if view_len view <=? height then Ok NotHeldYet else
  let? held := expect (view_header_at view height) in
  Ok (if bytes_eqb (hi_hash held) hash then Admit else HashConflict).

Definition tie_break_prefers_candidate (depth : Z) (cand_work our_work : Work)
    (cand_tip our_tip : HeaderInfo) : bool :=
  (depth =? 1) && bool_decide (cand_work = our_work) &&
  (hi_height cand_tip =? hi_height our_tip) && bytes_ltb (hi_hash cand_tip) (hi_hash our_tip).

Record ReorgParams := MkReorgParams {
  rp_anchor : option Anchor;
  rp_checkpoints : checkpoint_map;
  rp_local_time : Z;
}.

(** The loops of [evaluate_reorg_with_cap], in order. *)
Fixpoint check_contiguous (start_height i : Z) (candidate : list HeaderInfo) : outcome RuleError unit :=
  match candidate with
  | [] => Ok tt
  | h :: rest =>
    let? want := add_checked 64 start_height i in
    guard! negb (hi_height h =? want) else NonContiguousCandidate ;;
    check_contiguous start_height (i + 1) rest
  end.

Fixpoint check_shortening (start_height our_tip_h new_tip_h : Z) (cps : checkpoint_map)
    : outcome RuleError unit :=
  match cps with
  | [] => Ok tt
  | (h, _) :: rest =>
    guard! (start_height <=? h) && (h <=? our_tip_h) && (new_tip_h <? h)
      else CheckpointShorteningAttack h ;;
    check_shortening start_height our_tip_h new_tip_h rest
  end.

Fixpoint check_candidate_checkpoints (start_height new_tip_h : Z) (candidate : list HeaderInfo)
    (cps : checkpoint_map) : outcome RuleError unit :=
  match cps with
  | [] => Ok tt
  | (h, cp_hash) :: rest =>
    if (start_height <=? h) && (h <=? new_tip_h) then
      let? c := expect (candidate !! Z.to_nat (h - start_height)) in
      guard! negb (bytes_eqb (hi_hash c) cp_hash) else CheckpointMismatch h ;;
      check_candidate_checkpoints start_height new_tip_h candidate rest
    else check_candidate_checkpoints start_height new_tip_h candidate rest
  end.

Definition add_work {E} (acc : Work) (h : HeaderInfo) : outcome E Work :=
  let? w := work_from_target (hi_target h) in
  expect (Work_checked_add acc w).

Definition discard_step {E} `{ChainView C} (view : C) (acc : Work) (h : Z) : outcome E Work :=
  let? hd := expect (view_header_at view h) in add_work acc hd.

Definition evaluate_reorg_with_cap `{ChainView C} (view : C) (start_height : Z)
    (candidate : list HeaderInfo) (params : ReorgParams) (cap : Z)
    : outcome RuleError ReorgVerdict :=
  guard! bool_decide (candidate = []) else EmptyCandidate ;;
  let chain_len := view_len view in
  guard! (start_height =? 0) || (chain_len <? start_height) else BadForkPoint ;;
  let? _ := check_contiguous start_height 0 candidate in
  let depth := chain_len - start_height in
  let? our_tip := view_tip view in
  guard! (0 <? cap) && (cap <? depth) &&
    negb (match rp_anchor params with
          | Some a => candidate_meets_anchor a start_height candidate
          | None => false
          end) else ReorgTooDeep depth cap ;;
  let our_tip_h := chain_len - 1 in
  let? past_tip := add_checked 64 start_height (Zlen candidate) in
  let new_tip_h := past_tip - 1 in
  let? _ := check_shortening start_height our_tip_h new_tip_h (rp_checkpoints params) in
  let? _ := check_candidate_checkpoints start_height new_tip_h candidate (rp_checkpoints params) in
  let cum_work := view_cumulative_work view in
  let? discarded := ofold (discard_step view) Work_ZERO (zrange start_height chain_len) in
  let? added := ofold add_work Work_ZERO candidate in
  let? kept := expect (Work_checked_sub cum_work discarded) in
  let? cand_work := expect (Work_checked_add kept added) in
  if Work_ltb cum_work cand_work then Ok StrictlyMoreWork else
  let? cand_tip := expect (last candidate) in
  if tie_break_prefers_candidate depth cand_work cum_work cand_tip our_tip then Ok TieBreak
  else Err (InsufficientWork depth).

Definition evaluate_reorg `{ChainView C} (view : C) (start_height : Z)
    (candidate : list HeaderInfo) (params : ReorgParams) : outcome RuleError ReorgVerdict :=
  evaluate_reorg_with_cap view start_height candidate params MAX_REORG_DEPTH.

(** [sort_unstable] on integers: the order is total and antisymmetric, so the
    result is the one sorted permutation. *)
Definition sort_u64 (l : list Z) : list Z := merge_sort Z.le l.

Definition median_time_past {E} (times : list Z) : outcome E Z :=
  if bool_decide (times = []) then Panic else
  let window := drop (length times - Z.to_nat MEDIAN_TIME_SPAN) times in
  let sorted := sort_u64 window in
  expect (sorted !! (length sorted / 2)%nat).

Definition check_block_time (mtp time local_time : Z) : outcome RuleError unit :=
  guard! time <=? mtp else TimestampTooOld mtp time ;;
  let limit := saturating_add 64 local_time MAX_FUTURE_DRIFT_SECS in
  guard! limit <? time else TimestampTooFarInFuture time limit ;;
  Ok tt.

Definition coinbase_is_mature (coinbase_height spend_height : Z) : bool :=
  (coinbase_height <=? spend_height) && (COINBASE_MATURITY <=? spend_height - coinbase_height).

Definition spendable_balance (balance immature : Z) : Z := saturating_sub balance immature.

(** ** The contract of [ChainView] *)
Definition header_work (h : HeaderInfo) : Z := target_work (from_be (hi_target h)).
Definition work_sum (l : list HeaderInfo) : Z := foldr (fun h s => header_work h + s) 0 l.

(** Stated through the list of the chain's headers, genesis first: a view is
    lawful when it answers as that list does and its cumulative work is the sum
    of the headers' work. *)
Record view_of `{ChainView C} (v : C) (chain : list HeaderInfo) : Prop := {
  vo_len : view_len v = Zlen chain;
  vo_bound : Zlen chain < 2 ^ 64;
  vo_at : forall i, 0 <= i < Zlen chain -> view_header_at v i = chain !! Z.to_nat i;
  vo_height : forall i h, chain !! i = Some h -> hi_height h = Z.of_nat i;
  vo_targets : Forall (fun h => hash_ok (hi_target h)) chain;
  vo_work_ok : work_ok (view_cumulative_work v);
  vo_work : val (view_cumulative_work v) = work_sum chain;
}.

Class ChainViewLaws (C : Type) `{ChainView C} (inv : C -> Prop) := {
  view_chain : C -> list HeaderInfo;
  view_chain_spec : forall v, inv v -> view_of v (view_chain v);
}.

(** ** Anchors *)
Lemma candidate_meets_anchor_spec a start cand :
  candidate_meets_anchor a start cand = true <->
  anchor_height a <> 0 /\ anchor_hash a <> ZERO_HASH /\ start <= anchor_height a /\
  exists h, cand !! Z.to_nat (anchor_height a - start) = Some h /\ hi_hash h = anchor_hash a.
Proof.
  unfold candidate_meets_anchor, bytes_eqb.
  destruct (_ || _) eqn:E.
  { apply orb_true_iff in E as [E|E]; to_prop; split; try done; intros (? & ? & _); done. }
  to_prop. destruct (Z.ltb_spec (anchor_height a) start).
  { split; [done|]. intros (_ & _ & ? & _). lia. }
  destruct (Z.leb_spec (Zlen cand) (anchor_height a - start)).
  { split; [done|]. intros (_ & _ & _ & h & Hl & _). apply lookup_lt_Some in Hl. unfold Zlen in *. lia. }
  destruct (cand !! _) as [h|] eqn:El.
  - rewrite bool_decide_eq_true. split; [intros; repeat split; eauto|]. by intros (_ & _ & _ & h' & [= <-] & ?).
  - split; [done|]. by intros (_ & _ & _ & h & ? & _).
Qed.

(** ** The checks of [evaluate_reorg_with_cap] *)
Lemma check_contiguous_decides start cand : forall i,
  0 <= start + i -> start + i + Zlen cand <= 2 ^ 64 ->
  decides (check_contiguous start i cand)
    (forall k h, cand !! k = Some h -> hi_height h = start + i + Z.of_nat k).
Proof.
  induction cand as [|h cand IH]; intros i H0 Hb; [left; split; [done|]; by intros k h|].
  rewrite Zlen_cons in Hb. pose proof (Zlen_nonneg cand). cbn [check_contiguous].
  unfold add_checked. rewrite (proj2 (checked_add_some 64 start i _)) by (split; [reflexivity|lia]).
  cbn [expect obind]. eapply decides_iff; [|apply decides_guard, IH; lia].
  rewrite negb_false_iff, Z.eqb_eq. split.
  - intros [Hh Hr] [|k] x Hx; cbn in Hx; [simplify_eq; lia|]. rewrite (Hr k x Hx). lia.
  - intros Hr. split; [rewrite (Hr O h eq_refl); lia|]. intros k x Hx. rewrite (Hr (S k) x Hx). lia.
Qed.

Lemma check_shortening_decides start our new cps :
  decides (check_shortening start our new cps)
    (forall h c, In (h, c) cps -> start <= h <= our -> h <= new).
Proof.
  induction cps as [|[h c] cps IH]; [by left|]. cbn [check_shortening].
  eapply decides_iff; [|apply decides_guard, IH]. split.
  - intros [Hb Hr] h' c' [[= <- <-]|Hin] Hh; [|by eauto]. to_prop. lia.
  - intros Hr. split; [|intros; eapply Hr; [by right|done]].
    specialize (Hr h c (or_introl eq_refl)).
    destruct (Z.leb_spec start h), (Z.leb_spec h our), (Z.ltb_spec new h); cbn; lia.
Qed.

Lemma check_candidate_checkpoints_decides start new cand cps :
  new = start + Zlen cand - 1 ->
  decides (check_candidate_checkpoints start new cand cps)
    (forall h c, In (h, c) cps -> start <= h <= new ->
       exists hd, cand !! Z.to_nat (h - start) = Some hd /\ hi_hash hd = c).
Proof.
  intros ->. induction cps as [|[h c] cps IH]; [by left|]. cbn [check_candidate_checkpoints].
  destruct (_ && _) eqn:E.
  - to_prop. destruct (lookup_lt_is_Some_2 cand (Z.to_nat (h - start))) as [hd Hd]; [unfold Zlen in *; lia|].
    rewrite Hd. cbn [expect obind]. eapply decides_iff; [|apply decides_guard, IH].
    unfold bytes_eqb. rewrite negb_false_iff, bool_decide_eq_true. split.
    + intros [Hb Hr] h' c' [[= <- <-]|Hin] Hh; eauto.
    + intros Hr. split; [|intros; eapply Hr; [by right|done]].
      destruct (Hr h c (or_introl eq_refl)) as (hd' & ? & ?); [lia|]. congruence.
  - eapply decides_iff; [|apply IH]. split.
    + intros Hr h' c' [[= <- <-]|Hin] Hh; [|by eauto].
      destruct (Z.leb_spec start h), (Z.leb_spec h (start + Zlen cand - 1)); cbn in E; (done || lia).
    + intros Hr h' c' Hin. apply Hr. by right.
Qed.

(** ** Sums of work *)
Lemma work_sum_app a b : work_sum (a ++ b) = work_sum a + work_sum b.
Proof. unfold work_sum. induction a; cbn; lia. Qed.

Lemma header_work_bounds h : hash_ok (hi_target h) -> 1 <= header_work h <= 2 ^ 256.
Proof.
  intros Hh. destruct (work_from_target_spec_lemma (E := unit) _ Hh) as (w & _ & _ & Hv & Hb).
  unfold header_work. rewrite <-Hv. done.
Qed.

Lemma work_sum_bounds l :
  Forall (fun h => hash_ok (hi_target h)) l -> Zlen l <= work_sum l <= Zlen l * 2 ^ 256.
Proof.
  induction 1 as [|h l Hh Hl IH]; [zlen; cbn; lia|]. rewrite Zlen_cons. cbn.
  pose proof (header_work_bounds h Hh). unfold work_sum in IH. lia.
Qed.

Lemma add_work_ok {E} acc h :
  work_ok acc -> hash_ok (hi_target h) -> val acc + header_work h < 2 ^ 512 ->
  exists w, add_work (E := E) acc h = Ok w /\ work_ok w /\ val w = val acc + header_work h.
Proof.
  intros Ha Hh Hlt. unfold add_work.
  destruct (work_from_target_spec_lemma (E := E) _ Hh) as (w & -> & Hw & Hv & _). cbn [obind].
  change (target_work _) with (header_work h) in Hv. rewrite <-Hv in Hlt.
  destruct (Work_checked_add_fits acc w Ha Hw Hlt) as (c & -> & Hc & Hcv).
  exists c. split; [done|]. split; [done|]. congruence.
Qed.

Lemma add_work_all {E} l : forall acc,
  work_ok acc -> Forall (fun h => hash_ok (hi_target h)) l -> val acc + work_sum l < 2 ^ 512 ->
  exists w, ofold (add_work (E := E)) acc l = Ok w /\ work_ok w /\ val w = val acc + work_sum l.
Proof.
  induction l as [|h l IH]; intros acc Ha Hl Hlt; [exists acc; cbn; repeat split; (apply Ha || lia)|].
  inversion_clear Hl as [|? ? Hh Hl']. cbn in Hlt. fold (work_sum l) in Hlt.
  pose proof (work_sum_bounds l Hl'). pose proof (Zlen_nonneg l).
  destruct (add_work_ok (E := E) acc h) as (w & Ew & Hw & Hv); [done..|lia|].
  cbn [ofold]. rewrite Ew. cbn [obind].
  destruct (IH w) as (w' & -> & Hw' & Hv'); [done..|lia|].
  exists w'. split; [done|]. split; [done|]. cbn. fold (work_sum l). lia.
Qed.

(** ** What a reorganisation must satisfy *)
Record reorg_admissible (chain : list HeaderInfo) (start : Z) (cand : list HeaderInfo)
    (params : ReorgParams) (cap : Z) : Prop := {
  ra_nonempty : cand <> [];
  ra_fork : 0 < start <= Zlen chain;
  ra_contiguous : forall k h, cand !! k = Some h -> hi_height h = start + Z.of_nat k;
  ra_depth : cap <= 0 \/ Zlen chain - start <= cap \/
    exists a h, rp_anchor params = Some a /\ anchor_height a <> 0 /\ anchor_hash a <> ZERO_HASH /\
      start <= anchor_height a /\ cand !! Z.to_nat (anchor_height a - start) = Some h /\
      hi_hash h = anchor_hash a;
  ra_checkpoints : forall h c, In (h, c) (rp_checkpoints params) -> start <= h ->
    h < Zlen chain \/ h < start + Zlen cand ->
    exists hd, cand !! Z.to_nat (h - start) = Some hd /\ hi_hash hd = c;
}.

Definition reorg_preferred (chain : list HeaderInfo) (start : Z) (cand : list HeaderInfo)
    (v : ReorgVerdict) : Prop :=
  let lost := drop (Z.to_nat start) chain in
  match v with
  | StrictlyMoreWork => work_sum lost < work_sum cand
  | TieBreak =>
    Zlen chain - start = 1 /\ work_sum lost = work_sum cand /\
    exists ours theirs, last chain = Some ours /\ last cand = Some theirs /\
      hi_height theirs = hi_height ours /\ bytes_ltb (hi_hash theirs) (hi_hash ours) = true
  end.

Section ReorgSpec.
Context `{ChainView C} (view : C) (chain : list HeaderInfo) (HV : view_of view chain).

Lemma discarded_spec {E} n : forall start acc,
  0 <= start -> n = Z.to_nat (Zlen chain - start) -> work_ok acc ->
  val acc + work_sum (drop (Z.to_nat start) chain) < 2 ^ 512 ->
  exists w, ofold (discard_step (E := E) view) acc (zrange start (Zlen chain)) = Ok w /\ work_ok w /\
    val w = val acc + work_sum (drop (Z.to_nat start) chain).
Proof.
  induction n as [|n IH]; intros start acc H0 Hn Ha Hlt.
  - rewrite zrange_nil by lia. rewrite drop_ge in * by (unfold Zlen in *; lia). exists acc.
    cbn. repeat split; (apply Ha || lia).
  - rewrite zrange_cons by lia. cbn [ofold]. unfold discard_step at 1.
    rewrite (vo_at _ _ HV) by lia.
    destruct (lookup_lt_is_Some_2 chain (Z.to_nat start)) as [h Hh]; [unfold Zlen in *; lia|].
    rewrite Hh. cbn [expect obind]. rewrite (drop_S chain h _ Hh) in Hlt |- *.
    replace (S (Z.to_nat start)) with (Z.to_nat (start + 1)) in * by lia.
    pose proof (vo_targets _ _ HV) as Hts. pose proof (Forall_lookup_1 _ _ _ _ Hts Hh) as Hht.
    cbn in Hlt, Hht. change (foldr _ 0 ?l) with (work_sum l) in Hlt.
    pose proof (work_sum_bounds _ (Forall_drop _ (Z.to_nat (start + 1)) _ Hts)) as Hws.
    pose proof (Zlen_nonneg (drop (Z.to_nat (start + 1)) chain)).
    destruct (add_work_ok (E := E) acc h) as (w & -> & Hw & Hv); [done..|lia|]. cbn [obind].
    destruct (IH (start + 1) w) as (w' & -> & Hw' & Hv'); [lia..|done|lia|].
    exists w'. split; [done|]. split; [done|]. cbn. change (foldr _ 0 ?l) with (work_sum l). lia.
Qed.

Lemma depth_guard_spec start cand params cap :
  (0 <? cap) && (cap <? Zlen chain - start) &&
    negb (match rp_anchor params with
          | Some a => candidate_meets_anchor a start cand
          | None => false
          end) = false <->
  cap <= 0 \/ Zlen chain - start <= cap \/
  exists a h, rp_anchor params = Some a /\ anchor_height a <> 0 /\ anchor_hash a <> ZERO_HASH /\
    start <= anchor_height a /\ cand !! Z.to_nat (anchor_height a - start) = Some h /\
    hi_hash h = anchor_hash a.
Proof.
  destruct (Z.ltb_spec 0 cap); [|split; [lia|done]].
  destruct (Z.ltb_spec cap (Zlen chain - start)); [|split; [lia|done]]. cbn.
  rewrite negb_false_iff. split.
  - intros Ha. right. right. destruct (rp_anchor params) as [a|]; [|done].
    apply candidate_meets_anchor_spec in Ha as (? & ? & ? & h & ? & ?). exists a, h. done.
  - intros [?|[?|(a & h & -> & ? & ? & ? & ? & ?)]]; [lia..|]. apply candidate_meets_anchor_spec.
    repeat (split; [done|]). by exists h.
Qed.

Lemma view_tip_spec {E} : 0 < Zlen chain -> exists t, view_tip (E := E) view = Ok t /\ last chain = Some t.
Proof.
  intros Hl. unfold view_tip. rewrite (vo_len _ _ HV). pose proof (vo_bound _ _ HV).
  rewrite (proj2 (checked_sub_some 64 (Zlen chain) 1 _)) by (split; [reflexivity|lia]). cbn [expect obind].
  rewrite (vo_at _ _ HV) by lia. rewrite last_lookup.
  replace (Z.to_nat (Zlen chain - 1)) with (pred (length chain)) by (unfold Zlen; lia).
  destruct (lookup_lt_is_Some_2 chain (pred (length chain))) as [t Ht]; [unfold Zlen in *; lia|].
  rewrite Ht. eauto.
Qed.

(** The work comparison: the candidate chain's total against ours. *)
Lemma candidate_work_spec {E} start cand :
  0 < start <= Zlen chain -> Forall (fun h => hash_ok (hi_target h)) cand -> Zlen cand < 2 ^ 64 ->
  exists lost added kept cw,
    ofold (discard_step (E := E) view) Work_ZERO (zrange start (Zlen chain)) = Ok lost /\
    ofold (add_work (E := E)) Work_ZERO cand = Ok added /\
    Work_checked_sub (view_cumulative_work view) lost = Some kept /\
    Work_checked_add kept added = Some cw /\ work_ok cw /\
    val cw = val (view_cumulative_work view) - work_sum (drop (Z.to_nat start) chain) + work_sum cand.
Proof.
  intros Hs Hc Hlen. pose proof (vo_targets _ _ HV) as Hts. pose proof (vo_bound _ _ HV) as Hbd.
  assert (work_sum chain = work_sum (take (Z.to_nat start) chain) + work_sum (drop (Z.to_nat start) chain)) as Hsp.
  { rewrite <-work_sum_app. by rewrite take_drop. }
  pose proof (work_sum_bounds _ Hts). pose proof (work_sum_bounds _ Hc).
  pose proof (work_sum_bounds _ (Forall_take _ (Z.to_nat start) _ Hts)).
  pose proof (work_sum_bounds _ (Forall_drop _ (Z.to_nat start) _ Hts)).
  pose proof (Zlen_nonneg (take (Z.to_nat start) chain)). pose proof (Zlen_nonneg (drop (Z.to_nat start) chain)).
  pose proof (Zlen_nonneg cand).
  assert (Zlen chain * 2 ^ 256 < 2 ^ 320) by (change (2 ^ 320) with (2 ^ 64 * 2 ^ 256); nia).
  assert (Zlen cand * 2 ^ 256 < 2 ^ 320) by (change (2 ^ 320) with (2 ^ 64 * 2 ^ 256); nia).
  destruct (discarded_spec (E := E) _ start Work_ZERO ltac:(lia) eq_refl Work_ZERO_ok) as (lost & El & Hlo & Hlv).
  { change (val Work_ZERO) with 0. lia. }
  destruct (add_work_all (E := E) cand Work_ZERO Work_ZERO_ok Hc) as (added & Ea & Hao & Hav).
  { change (val Work_ZERO) with 0. lia. }
  change (val Work_ZERO) with 0 in *. pose proof (vo_work _ _ HV) as Hw.
  destruct (Work_checked_sub_fits (view_cumulative_work view) lost (vo_work_ok _ _ HV) Hlo) as (kept & Ek & Hko & Hkv); [lia|].
  destruct (Work_checked_add_fits kept added Hko Hao) as (cw & Ecw & Hcw & Hcv); [lia|].
  exists lost, added, kept, cw. repeat (split; [done|]). lia.
Qed.

(** The whole rule: it never panics, and accepts exactly the admissible and
    preferred candidates. *)
Lemma evaluate_reorg_spec start cand params cap :
  0 <= start -> start + Zlen cand < 2 ^ 64 -> Forall (fun h => hash_ok (hi_target h)) cand ->
  let r := evaluate_reorg_with_cap view start cand params cap in
  r <> Panic /\
  forall v, r = Ok v <-> reorg_admissible chain start cand params cap /\ reorg_preferred chain start cand v.
Proof.
  intros H0 Hlt Hc r. subst r. unfold evaluate_reorg_with_cap. rewrite (vo_len _ _ HV).
  pose proof (Zlen_nonneg cand) as Hcl.
  case_bool_decide as Hne; [by split; [done|]; intros v; split; [done|]; intros [[] _]|].
  destruct (_ || _) eqn:Ef.
  { split; [done|]. intros v. split; [done|]. intros [[? [? ?] _ _ _] _]. to_prop. destruct Ef; to_prop; lia. }
  to_prop. pose proof (check_contiguous_decides start cand 0 ltac:(lia) ltac:(lia)) as Hd1.
  destruct Hd1 as [[-> Hcont]|(e & -> & Hn)]; cbn [obind].
  2: { split; [done|]. intros v. split; [done|]. intros [[_ _ Hk _ _] _]. destruct Hn. intros k h Hk'.
       rewrite (Hk k h Hk'). lia. }
  destruct (view_tip_spec (E := RuleError) ltac:(lia)) as (tip & -> & Htip). cbn [obind].
  destruct (_ && _) eqn:Eg.
  { split; [done|]. intros v. split; [done|]. intros [[_ _ _ Hdp _] _].
    apply depth_guard_spec in Hdp. congruence. }
  apply depth_guard_spec in Eg. unfold add_checked.
  rewrite (proj2 (checked_add_some 64 start (Zlen cand) _)) by (split; [reflexivity|lia]). cbn [expect obind].
  pose proof (check_shortening_decides start (Zlen chain - 1) (start + Zlen cand - 1) (rp_checkpoints params)) as Hd2.
  destruct Hd2 as [[-> Hsh]|(e & -> & Hn)]; cbn [obind].
  2: { split; [done|]. intros v. split; [done|]. intros [[_ _ _ _ Hk] _]. destruct Hn. intros h c Hin Hr.
       destruct (Hk h c Hin) as (hd & Hl & _); [lia..|]. apply lookup_lt_Some in Hl. unfold Zlen in *. lia. }
  pose proof (check_candidate_checkpoints_decides start _ cand (rp_checkpoints params) eq_refl) as Hd3.
  destruct Hd3 as [[-> Hcp]|(e & -> & Hn)]; cbn [obind].
  2: { split; [done|]. intros v. split; [done|]. intros [[_ _ _ _ Hk] _]. destruct Hn. intros h c Hin Hr.
       apply (Hk h c Hin); lia. }
  destruct (candidate_work_spec (E := RuleError) start cand) as (lost & added & kept & cw & -> & -> & Ek & Ecw & Hcw & Hv);
    [lia|done|lia|]. cbn [obind]. rewrite Ek. cbn [expect obind]. rewrite Ecw. cbn [expect obind].
  assert (reorg_admissible chain start cand params cap) as Hadm.
  { constructor; [done|lia| |done|].
    - intros k h Hk. rewrite (Hcont k h Hk). lia.
    - intros h c Hin Hge Hor. apply Hcp; [done|].
      destruct (Z.le_gt_cases (Zlen chain) h); [lia|]. specialize (Hsh h c Hin). lia. }
  pose proof (vo_work_ok _ _ HV) as Hwo. rewrite Work_ltb_spec by done.
  destruct (Z.ltb_spec (val (view_cumulative_work view)) (val cw)) as [Hgt|Hle].
  { split; [done|]. intros [|]; split; try done; [intros _; split; [done|]; cbn; lia|].
    intros [_ (_ & Heq & _)]. lia. }
  destruct (last cand) as [ct|] eqn:Elast; [|by apply last_None in Elast].
  cbn [expect obind]. unfold tie_break_prefers_candidate.
  destruct (_ && _) eqn:Et; split; try done; intros v; split; try done.
  - to_prop. intros [= <-]. split; [done|]. subst cw. split; [lia|]. split; [lia|].
    exists tip, ct. done.
  - intros [_ Hp]. to_prop. destruct v; cbn in Hp; [lia|done].
  - intros [_ Hp]. destruct v; cbn in Hp; [lia|]. destruct Hp as (Hdp & Heq & ours & theirs & Ho & Ht & Hh & Hb).
    rewrite Htip in Ho. rewrite Elast in Ht. simplify_eq.
    assert (cw = view_cumulative_work view) as Ecum by (apply work_val_inj; [done..|lia]).
    rewrite Hdp, Hh, Hb, Z.eqb_refl, Z.eqb_refl, bool_decide_eq_true_2 in Et by done. done.
Qed.
End ReorgSpec.

(** ** The reference view: a list of headers *)
Definition header_ok (h : HeaderInfo) : Prop := hash_ok (hi_target h) /\ hash_ok (hi_hash h).
Record chain_wf (chain : list HeaderInfo) : Prop := {
  cw_headers : Forall header_ok chain;
  cw_heights : forall i h, chain !! i = Some h -> hi_height h = Z.of_nat i;
  cw_bound : Zlen chain < 2 ^ 64;
}.

Record ListChain := MkListChain { lc_headers : list HeaderInfo }.

#[export] Instance list_chain_view : ChainView ListChain := {
  view_len c := Zlen (lc_headers c);
  view_header_at c h := lc_headers c !! Z.to_nat h;
  view_header_by_hash c hash := List.find (fun x => bytes_eqb (hi_hash x) hash) (lc_headers c);
  view_cumulative_work c := to_limbs 8 (work_sum (lc_headers c));
}.

Lemma chain_wf_targets chain : Forall header_ok chain -> Forall (fun h => hash_ok (hi_target h)) chain.
Proof. intros Hc. eapply Forall_impl; [exact Hc|]. by intros h [? _]. Qed.

Lemma list_chain_view_of chain : chain_wf chain -> view_of (MkListChain chain) chain.
Proof.
  intros [Hh Hi Hb]. pose proof (work_sum_bounds _ (chain_wf_targets _ Hh)) as Hw.
  pose proof (Zlen_nonneg chain). constructor; try done.
  - by apply chain_wf_targets.
  - apply to_limbs_ok.
  - cbn [view_cumulative_work list_chain_view lc_headers]. rewrite val_to_limbs. apply Z.mod_small.
    change (64 * Z.of_nat 8) with 512. split; [lia|].
    assert (Zlen chain * 2 ^ 256 < 2 ^ 320) by (change (2 ^ 320) with (2 ^ 64 * 2 ^ 256); nia). lia.
Qed.

#[export] Instance list_chain_laws : ChainViewLaws ListChain (fun c => chain_wf (lc_headers c)) := {
  view_chain := lc_headers;
  view_chain_spec c Hc := match c as c0 return chain_wf (lc_headers c0) -> view_of c0 (lc_headers c0) with
                          | MkListChain l => list_chain_view_of l
                          end Hc;
}.

(** C5. For every lawful chain view and every candidate branch of well-formed
    headers, [evaluate_reorg_with_cap] returns without panicking, and it accepts
    exactly when the branch is non-empty, forks inside the chain and not at
    genesis, has consecutive heights, is within the depth cap or carries the
    signed anchor, keeps every checkpointed height with the checkpointed hash,
    and has strictly more work than the blocks it replaces (or, for a
    one-block fork of equal work and height, the lower tip hash). *)
Theorem evaluate_reorg_accepts_iff `{ChainViewLaws C inv} (view : C) start cand params cap :
  inv view -> 0 <= start -> start + Zlen cand < 2 ^ 64 ->
  Forall (fun h => hash_ok (hi_target h)) cand ->
  evaluate_reorg_with_cap view start cand params cap <> Panic /\
  forall v, evaluate_reorg_with_cap view start cand params cap = Ok v <->
    reorg_admissible (view_chain view) start cand params cap /\
    reorg_preferred (view_chain view) start cand v.
Proof. intros. by apply evaluate_reorg_spec; [apply view_chain_spec|..]. Qed.

(** ** Reorganisations only ever improve the chain *)
Definition adopt (chain : list HeaderInfo) (start : Z) (cand : list HeaderInfo) : list HeaderInfo :=
  take (Z.to_nat start) chain ++ cand.

Definition tip_hash_val (chain : list HeaderInfo) : Z :=
  match last chain with Some h => from_be (hi_hash h) | None => 0 end.

(** More work, or the same work and a lower tip hash. *)
Definition chain_better (a b : list HeaderInfo) : Prop :=
  work_sum a < work_sum b \/ (work_sum a = work_sum b /\ tip_hash_val b < tip_hash_val a).

Inductive reorg_step (chain : list HeaderInfo) : list HeaderInfo -> Prop :=
| reorg_step_intro start cand params cap v :
    0 <= start -> start + Zlen cand < 2 ^ 64 -> Forall header_ok cand ->
    evaluate_reorg_with_cap (MkListChain chain) start cand params cap = Ok v ->
    reorg_step chain (adopt chain start cand).

Lemma last_adopt chain start cand t : last cand = Some t -> last (adopt chain start cand) = Some t.
Proof. intros H. unfold adopt. rewrite last_app, H. done. Qed.

Lemma Forall_last {A} (P : A -> Prop) l x : Forall P l -> last l = Some x -> P x.
Proof. intros Hl Hx. rewrite last_lookup in Hx. by eapply Forall_lookup_1. Qed.

Lemma reorg_step_improves a b :
  chain_wf a -> reorg_step a b -> chain_wf b /\ chain_better a b.
Proof.
  intros Ha Hs. inversion Hs as [start cand params cap v H0 Hl Hc He]. subst b.
  apply (evaluate_reorg_spec _ a (list_chain_view_of a Ha)) in He as [Hadm Hp];
    [|done..|by apply chain_wf_targets].
  assert (Zlen (take (Z.to_nat start) a) = start) as Htl.
  { destruct Hadm. unfold Zlen in *. rewrite length_take. lia. }
  split.
  - destruct Ha as [Hh Hi Hb]. constructor.
    + apply Forall_app. split; [by apply Forall_take|done].
    + intros i h Hlk. unfold adopt in Hlk. apply lookup_app_Some in Hlk as [Hlk|[Hge Hlk]].
      * apply lookup_take_Some in Hlk as [Hlk _]. by apply Hi.
      * rewrite (ra_contiguous _ _ _ _ _ Hadm _ _ Hlk). unfold Zlen in *. lia.
    + unfold adopt. rewrite Zlen_app. lia.
  - unfold chain_better, adopt. rewrite work_sum_app.
    assert (work_sum a = work_sum (take (Z.to_nat start) a) + work_sum (drop (Z.to_nat start) a)) as ->.
    { rewrite <-work_sum_app. by rewrite take_drop. }
    destruct v; cbn in Hp; [left; lia|]. destruct Hp as (_ & Hw & ours & theirs & Ho & Ht & _ & Hb).
    right. split; [lia|]. unfold tip_hash_val. fold (adopt a start cand).
    rewrite (last_adopt _ _ _ _ Ht), Ho. pose proof (Forall_last _ _ _ Hc Ht) as [_ [? Hl1]].
    pose proof (Forall_last _ _ _ (cw_headers _ Ha) Ho) as [_ [? Hl2]].
    rewrite bytes_ltb_spec in Hb; [by apply Z.ltb_lt|done..|]. unfold Zlen in *. lia.
Qed.

(** C7. No sequence of accepted reorganisations, whatever the anchors,
    checkpoints and depth caps used along the way, ever returns to a chain it
    left: every step strictly increases the chain's work, or keeps it and
    strictly lowers the tip hash, and the chain stays well formed. *)
Theorem reorgs_never_cycle (a b : list HeaderInfo) :
  chain_wf a -> tc reorg_step a b -> chain_wf b /\ chain_better a b /\ a <> b.
Proof.
  intros Ha Hs. assert (chain_wf b /\ chain_better a b) as [Hb Hbt].
  { induction Hs as [a b Hs|a b c Hs Hsc IH]; [by apply reorg_step_improves|].
    destruct (reorg_step_improves a b Ha Hs) as [Hwb Hab]. destruct (IH Hwb) as [Hwc Hbc].
    split; [done|]. unfold chain_better in *. lia. }
  split; [done|]. split; [done|]. intros ->. unfold chain_better in Hbt. lia.
Qed.

(** A three-block chain and a heavier two-block branch replacing its tip. *)
Definition sample_header (i seed : Z) : HeaderInfo :=
  MkHeaderInfo i (le_bytes 32 (seed + i)) (1000 + 60 * i) half_target.
Definition sample_chain : list HeaderInfo := [sample_header 0 7; sample_header 1 7; sample_header 2 7].
Definition sample_branch : list HeaderInfo := [sample_header 2 90; sample_header 3 90].
Definition sample_params : ReorgParams := MkReorgParams None [(1, le_bytes 32 8)] 2000.

Lemma sample_header_ok i seed : header_ok (sample_header i seed).
Proof. split; [apply half_target_ok|]. split; [apply le_bytes_ok|]. apply Zlen_le_bytes. Qed.
Lemma sample_chain_wf : chain_wf sample_chain.
Proof.
  constructor; [repeat (constructor; [apply sample_header_ok|]); constructor| |].
  - intros [|[|[|i]]] h Hh; cbn in Hh; by simplify_eq.
  - reflexivity.
Qed.

Lemma evaluate_reorg_accepts_iff_witness :
  evaluate_reorg_with_cap (MkListChain sample_chain) 2 sample_branch sample_params 30 = Ok StrictlyMoreWork /\
  reorg_admissible sample_chain 2 sample_branch sample_params 30.
Proof.
  assert (evaluate_reorg_with_cap (MkListChain sample_chain) 2 sample_branch sample_params 30 =
    Ok StrictlyMoreWork) as He by (vm_compute; reflexivity).
  split; [exact He|].
  destruct (evaluate_reorg_accepts_iff (MkListChain sample_chain) 2 sample_branch sample_params 30)
    as [_ Hiff]; [exact sample_chain_wf|lia|reflexivity| |].
  - repeat (constructor; [apply half_target_ok|]); constructor.
  - apply Hiff in He. destruct He as [Ha _]. exact Ha.
Defined.

Lemma reorgs_never_cycle_witness :
  chain_better sample_chain (adopt sample_chain 2 sample_branch) /\
  sample_chain <> adopt sample_chain 2 sample_branch.
Proof.
  destruct (reorgs_never_cycle sample_chain (adopt sample_chain 2 sample_branch)) as (_ & Hb & Hn).
  - exact sample_chain_wf.
  - apply tc_once. apply (reorg_step_intro _ 2 sample_branch sample_params 30 StrictlyMoreWork).
    + lia.
    + reflexivity.
    + repeat (constructor; [apply sample_header_ok|]); constructor.
    + vm_compute. reflexivity.
  - split; [exact Hb|exact Hn].
Defined.

(** ** Median time past *)
Definition count_ge (m : Z) (l : list Z) : nat := length (filter (fun x => m <= x) l).

Lemma count_ge_app m a b : count_ge m (a ++ b) = (count_ge m a + count_ge m b)%nat.
Proof. unfold count_ge. by rewrite filter_app, length_app. Qed.

Lemma count_ge_perm m a b : Permutation a b -> count_ge m a = count_ge m b.
Proof. unfold count_ge. intros ->. done. Qed.

Lemma count_ge_all m l : Forall (fun x => m <= x) l -> count_ge m l = length l.
Proof. unfold count_ge. induction 1; [done|]. rewrite filter_cons_True by done. cbn. lia. Qed.

Lemma count_ge_none m l : Forall (fun x => x < m) l -> count_ge m l = O.
Proof. unfold count_ge. induction 1; [done|]. rewrite filter_cons_False by lia. done. Qed.

Lemma count_ge_le m l : (count_ge m l <= length l)%nat.
Proof. apply length_filter. Qed.

Lemma count_ge_cons m x l : (count_ge m (x :: l) <= 1 + count_ge m l)%nat.
Proof. change (x :: l) with ([x] ++ l). rewrite count_ge_app. pose proof (count_ge_le m [x]). cbn in *. lia. Qed.

(** In a sorted list the element at [k] is at least [m] exactly when at least
    [length - k] elements are. *)
Lemma sorted_lookup_ge m l k x :
  StronglySorted Z.le l -> l !! k = Some x -> m <= x <-> (length l - k <= count_ge m l)%nat.
Proof.
  intros Hs Hk. rewrite <-(take_drop_middle l k x Hk) in Hs |- *. pose proof (lookup_lt_Some _ _ _ Hk).
  apply StronglySorted_app in Hs as (Hcross & Hsl & Hsr).
  apply StronglySorted_inv in Hsr as [_ Hx]. rewrite count_ge_app, length_app.
  assert (length (take k l) = k) as Hlt by (rewrite length_take; lia). split.
  - intros Hm. rewrite (count_ge_all m (x :: _)); [lia|]. constructor; [done|].
    eapply Forall_impl; [exact Hx|]. cbn. lia.
  - intros Hc. destruct (Z.le_gt_cases m x) as [|Hgt]; [done|]. exfalso.
    rewrite (count_ge_none m (take k l)) in Hc.
    2: { apply Forall_forall. intros y Hy.
         specialize (Hcross y x Hy (list_elem_of_here _ _)). lia. }
    unfold count_ge in Hc. rewrite filter_cons_False in Hc by lia.
    fold (count_ge m (drop (S k) l)) in Hc. pose proof (count_ge_le m (drop (S k) l)). cbn in Hc. lia.
Qed.

Lemma sort_u64_sorted l : StronglySorted Z.le (sort_u64 l).
Proof. apply (StronglySorted_merge_sort Z.le). Qed.
Lemma sort_u64_perm l : Permutation (sort_u64 l) l.
Proof. apply merge_sort_Permutation. Qed.

Definition mtp_window (times : list Z) : list Z := drop (length times - Z.to_nat MEDIAN_TIME_SPAN) times.

Lemma median_time_past_total {E} times : times <> [] -> exists m, median_time_past (E := E) times = Ok m.
Proof.
  intros Hne. unfold median_time_past. rewrite bool_decide_eq_false_2 by done. fold (mtp_window times).
  destruct (lookup_lt_is_Some_2 (sort_u64 (mtp_window times)) (length (sort_u64 (mtp_window times)) / 2)) as [m Hm].
  - rewrite (Permutation_length (sort_u64_perm _)). unfold mtp_window. rewrite length_drop.
    change (Z.to_nat MEDIAN_TIME_SPAN) with 11%nat. destruct times; [done|]. cbn [length].
    apply Nat.div_lt; lia.
  - exists m. by rewrite Hm.
Qed.

(** [m'] is at most the median exactly when at least half of the window is at
    least [m']. *)
Lemma median_ge_iff {E} times m m' :
  median_time_past (E := E) times = Ok m ->
  m' <= m <-> (length (mtp_window times) - length (mtp_window times) / 2 <= count_ge m' (mtp_window times))%nat.
Proof.
  unfold median_time_past. case_bool_decide; [done|]. fold (mtp_window times). intros Hm.
  apply expect_ok in Hm. rewrite (sorted_lookup_ge m' _ _ _ (sort_u64_sorted _) Hm).
  by rewrite (Permutation_length (sort_u64_perm _)), (count_ge_perm m' _ _ (sort_u64_perm _)).
Qed.

Lemma median_snoc {E} times t m m' :
  median_time_past (E := E) times = Ok m -> median_time_past (E := E) (times ++ [t]) = Ok m' ->
  m <= t -> m <= m'.
Proof.
  intros Hm Hm' Ht. apply (median_ge_iff times m m) in Hm as [Hc _]. specialize (Hc ltac:(lia)).
  apply (median_ge_iff (times ++ [t]) m' m Hm'). unfold mtp_window in *.
  change (Z.to_nat MEDIAN_TIME_SPAN) with 11%nat in *. rewrite !length_drop, length_app in *. cbn [length].
  rewrite drop_app_le by lia. rewrite count_ge_app.
  assert (count_ge m [t] = 1%nat) as -> by (rewrite count_ge_all; [done|by constructor]).
  destruct (decide (length times < 11)%nat) as [Hlt|Hge].
  - replace (length times - 11)%nat with O in * by lia. replace (length times + 1 - 11)%nat with O by lia.
    rewrite ?drop_0, ?Nat.sub_0_r in *.
    pose proof (Nat.div_mod (length times) 2 ltac:(lia)). pose proof (Nat.mod_upper_bound (length times) 2 ltac:(lia)).
    pose proof (Nat.div_mod (length times + 1) 2 ltac:(lia)).
    pose proof (Nat.mod_upper_bound (length times + 1) 2 ltac:(lia)). lia.
  - destruct (lookup_lt_is_Some_2 times (length times - 11)) as [x Hx]; [lia|].
    rewrite (drop_S times x _ Hx) in Hc. replace (length times + 1 - 11)%nat with (S (length times - 11)) by lia.
    replace (length times - (length times - 11))%nat with 11%nat in Hc by lia.
    replace (length times + 1 - S (length times - 11))%nat with 11%nat by lia.
    pose proof (count_ge_cons m x (drop (S (length times - 11)) times)). lia.
Qed.

(** A run of block times each accepted by [check_block_time] against the median
    of the times before it (each with its own local clock). *)
Inductive accepted_times (times : list Z) : list Z -> Prop :=
| accepted_nil : accepted_times times []
| accepted_cons m t now more :
    median_time_past (E := RuleError) times = Ok m -> check_block_time m t now = Ok tt ->
    accepted_times (times ++ [t]) more -> accepted_times times (t :: more).

Lemma check_block_time_spec mtp t now :
  0 <= now < 2 ^ 64 -> 0 <= t < 2 ^ 64 ->
  check_block_time mtp t now = Ok tt <-> mtp < t <= now + MAX_FUTURE_DRIFT_SECS.
Proof.
  intros Hn Ht. unfold check_block_time, saturating_add, umax.
  destruct (Z.leb_spec t mtp); [split; [done|lia]|].
  destruct (Z.ltb_spec (Z.min (now + MAX_FUTURE_DRIFT_SECS) (2 ^ 64 - 1)) t); split; intros; try done; lia.
Qed.

Lemma check_block_time_above mtp t now : check_block_time mtp t now = Ok tt -> mtp < t.
Proof. unfold check_block_time. destruct (Z.leb_spec t mtp); [done|lia]. Qed.

(** Time cannot be rolled back: along any run of accepted block times the
    median time past never decreases, it always exists, and every later block's
    time is strictly above the median at which the run began. *)
Theorem median_time_never_decreases (times more : list Z) (m : Z) :
  median_time_past (E := RuleError) times = Ok m -> accepted_times times more ->
  (exists m', median_time_past (E := RuleError) (times ++ more) = Ok m' /\ m <= m') /\
  Forall (fun t => m < t) more.
Proof.
  intros Hm Hacc. revert m Hm. induction Hacc as [times|times m0 t now more Hm0 Hck Hacc IH]; intros m Hm.
  - rewrite app_nil_r. split; [exists m; split; [done|lia]|constructor].
  - rewrite Hm in Hm0. injection Hm0 as <-. apply check_block_time_above in Hck.
    destruct (median_time_past_total (E := RuleError) (times ++ [t])) as [m1 Hm1]; [by destruct times|].
    pose proof (median_snoc times t m m1 Hm Hm1 ltac:(lia)) as Hle.
    destruct (IH m1 Hm1) as [(m' & Hm' & Hle') Hall]. rewrite <-app_assoc in Hm'. split.
    + exists m'. split; [done|lia].
    + constructor; [done|]. eapply Forall_impl; [exact Hall|]. cbn. lia.
Qed.

Lemma median_time_never_decreases_witness :
  (exists m', median_time_past (E := RuleError) ([100; 40; 70] ++ [90; 200]) = Ok m' /\ 70 <= m') /\
  Forall (fun t => 70 < t) [90; 200].
Proof.
  apply (median_time_never_decreases [100; 40; 70] [90; 200] 70).
  - vm_compute. reflexivity.
  - apply (accepted_cons _ 70 90 100); [vm_compute; reflexivity..|].
    apply (accepted_cons _ 90 200 100); [vm_compute; reflexivity..|]. constructor.
Defined.

(** ** Maturity *)
Lemma coinbase_is_mature_spec c s :
  coinbase_is_mature c s = true <-> c + COINBASE_MATURITY <= s.
Proof.
  unfold coinbase_is_mature. rewrite andb_true_iff, !Z.leb_le. unfold COINBASE_MATURITY. lia.
Qed.
