(* ===== verification/Checkpoint.v ===== *)
(** Signed checkpoints (src/lib/consensus/src/rules.rs, [checkpoint_message] and
    [verify_checkpoint]) and their stored form
    (src/lib/consensus/src/checkpoint_record.rs). The ed25519 library is a
    parameter: [vk_from_bytes] and [verify_strict]. *)

From Stdlib Require Import ZArith Lia List.
From stdpp Require Import base list numbers.
From S2P Require Import Prelude Constants Hex Work Rules.
Open Scope Z_scope.

Record CheckpointSig := MkCheckpointSig { cs_pubkey : bytes; cs_sig : bytes }.
Record SignedCheckpoint := MkSignedCheckpoint {
  cp_height : Z;
  cp_hash : Hash32;
  cp_sigs : list CheckpointSig;
}.

(** [u64::to_string]: a [u64] has at most twenty decimal digits. *)
Fixpoint dec_loop (fuel : nat) (x : Z) (acc : bytes) : bytes :=
  match fuel with
  | O => acc
  | S fuel =>
    let acc := (48 + x mod 10) :: acc in
    if x / 10 =? 0 then acc else dec_loop fuel (x / 10) acc
  end.
Definition u64_to_string (x : Z) : bytes := dec_loop 20 x [].

Definition checkpoint_message (height : Z) (hash : Hash32) : bytes :=
  CHECKPOINT_MSG_PREFIX ++ u64_to_string height ++ [124] ++ hex_encode hash.

(** [authority_keys.iter().position(|k| *k == s.pubkey)] *)
Fixpoint position (k : bytes) (keys : list bytes) : option nat :=
  match keys with
  | [] => None
  | x :: keys => if bytes_eqb x k then Some O else S <$> position k keys
  end.

Section Verify.
Context {VerifyingKey : Type} (vk_from_bytes : bytes -> option VerifyingKey)
  (verify_strict : VerifyingKey -> bytes -> bytes -> bool).

Definition sig_valid (msg : bytes) (s : CheckpointSig) : bool :=
  match vk_from_bytes (cs_pubkey s) with
  | Some vk => verify_strict vk msg (cs_sig s)
  | None => false
  end.

Fixpoint verify_loop (keys : list bytes) (threshold : Z) (msg : bytes)
    (key_tried : list bool) (valid : Z) (sigs : list CheckpointSig) : bool :=
  match sigs with
  | [] => false
  | s :: sigs =>
    match position (cs_pubkey s) keys with
    | None => verify_loop keys threshold msg key_tried valid sigs
    | Some key_idx =>
      if default false (key_tried !! key_idx)
      then verify_loop keys threshold msg key_tried valid sigs
      else
        let key_tried := <[key_idx := true]> key_tried in
        if sig_valid msg s then
          if threshold <=? valid + 1 then true
          else verify_loop keys threshold msg key_tried (valid + 1) sigs
        else verify_loop keys threshold msg key_tried valid sigs
    end
  end.

Definition verify_checkpoint (cp : SignedCheckpoint) (authority_keys : list bytes) (threshold : Z) : bool :=
  if bool_decide (authority_keys = []) || (threshold =? 0) || (Zlen authority_keys <? threshold)
  then false else
  if Zlen authority_keys <? Zlen (cp_sigs cp) then false else
  if bytes_eqb (cp_hash cp) ZERO_HASH then false else
  if CHECKPOINT_SUNSET_HEIGHT <=? cp_height cp then false else
  let msg := checkpoint_message (cp_height cp) (cp_hash cp) in
  verify_loop authority_keys threshold msg (replicate (length authority_keys) false) 0 (cp_sigs cp).

(** ** Distinct authorities *)
Lemma position_spec k keys i :
  position k keys = Some i <-> keys !! i = Some k /\ forall j, (j < i)%nat -> keys !! j <> Some k.
Proof.
  revert i. induction keys as [|x keys IH]; intros i; cbn; [by split; [|intros [? _]]|].
  unfold bytes_eqb. case_bool_decide as Hx.
  - subst. split.
    + intros [= <-]. split; [done|lia].
    + intros [Hi Hj]. destruct i as [|i]; [done|]. by destruct (Hj O ltac:(lia)).
  - destruct i as [|i]; cbn.
    + split; [|intros [[= ->] _]; done]. destruct (position k keys); cbn; done.
    + assert (S <$> position k keys = Some (S i) <-> position k keys = Some i) as ->.
      { destruct (position k keys); cbn; split; congruence. }
      rewrite IH. split.
      * intros [Hi Hj]. split; [done|]. intros [|j] Hlt; cbn; [congruence|]. apply Hj. lia.
      * intros [Hi Hj]. split; [done|]. intros j Hlt. apply (Hj (S j)). lia.
Qed.

Lemma position_inj k k' keys i : position k keys = Some i -> position k' keys = Some i -> k = k'.
Proof. rewrite !position_spec. intros [? _] [? _]. congruence. Qed.

Lemma position_elem k keys : In k keys <-> is_Some (position k keys).
Proof.
  induction keys as [|x keys IH]; cbn; [by split; [|intros []]|].
  unfold bytes_eqb. case_bool_decide; [split; eauto|].
  rewrite fmap_is_Some, <-IH. split; [by intros [|]|auto].
Qed.

(** The keys whose vote counts, in signature order. *)
Fixpoint voters (keys : list bytes) (msg : bytes) (tried : list bool) (sigs : list CheckpointSig) : list bytes :=
  match sigs with
  | [] => []
  | s :: sigs =>
    match position (cs_pubkey s) keys with
    | None => voters keys msg tried sigs
    | Some i =>
      if default false (tried !! i) then voters keys msg tried sigs
      else (if sig_valid msg s then [cs_pubkey s] else []) ++ voters keys msg (<[i := true]> tried) sigs
    end
  end.

Lemma verify_loop_voters keys t msg sigs : forall tried valid,
  valid < t -> verify_loop keys t msg tried valid sigs = (t <=? valid + Zlen (voters keys msg tried sigs)).
Proof.
  induction sigs as [|s sigs IH]; intros tried valid Hlt; cbn [verify_loop voters].
  - symmetry. apply Z.leb_gt. zlen. lia.
  - destruct (position _ _) as [i|]; [|by apply IH]. destruct (default false _); [by apply IH|].
    destruct (sig_valid msg s); [|by apply IH]. cbn [app]. rewrite Zlen_cons.
    set (v := voters _ _ _ _). destruct (Z.leb_spec t (valid + 1)).
    + symmetry. apply Z.leb_le. pose proof (Zlen_nonneg v). lia.
    + rewrite IH by lia. fold v. f_equal. lia.
Qed.

Definition first_sig (k : bytes) (sigs : list CheckpointSig) : option CheckpointSig :=
  List.find (fun s => bytes_eqb (cs_pubkey s) k) sigs.

Lemma voters_spec keys msg sigs : forall tried k,
  length tried = length keys ->
  In k (voters keys msg tried sigs) <->
  exists i s, position k keys = Some i /\ tried !! i = Some false /\
    first_sig k sigs = Some s /\ sig_valid msg s = true.
Proof.
  induction sigs as [|s sigs IH]; intros tried k Hlen; cbn [voters].
  { split; [done|]. by intros (i & s & _ & _ & ? & _). }
  unfold first_sig. cbn [List.find]. fold (first_sig k sigs). unfold bytes_eqb.
  destruct (position (cs_pubkey s) keys) as [i|] eqn:Ep.
  2: { rewrite IH by done. case_bool_decide as Hk; [|done]. subst k.
       split; intros (i & s' & Hi & _); congruence. }
  assert (is_Some (tried !! i)) as [b Hb].
  { apply lookup_lt_is_Some_2. apply position_spec in Ep as [Hi _]. apply lookup_lt_Some in Hi. lia. }
  rewrite Hb. cbn [default from_option id]. destruct b.
  - rewrite IH by done. case_bool_decide as Hk; [|done]. subst k.
    split; intros (j & s' & Hj & Hf & _); congruence.
  - rewrite in_app_iff, IH by (by rewrite length_insert). case_bool_decide as Hk.
    + subst k. split.
      * intros [Hin|(j & s' & Hj & Hf & _)].
        -- destruct (sig_valid msg s) eqn:Ev; [|done]. exists i, s. done.
        -- assert (j = i) as -> by congruence. rewrite list_lookup_insert_eq in Hf by (apply lookup_lt_Some in Hb; lia). done.
      * intros (j & s' & Hj & Hf & [= <-] & Hv). left. rewrite Hv. by left.
    + split.
      * intros [Hin|(j & s' & Hj & Hf & Hs & Hv)].
        -- destruct (sig_valid msg s); [|done]. destruct Hin as [|[]]. done.
        -- exists j, s'. destruct (decide (i = j)) as [->|Hne]; [by pose proof (position_inj _ _ _ _ Ep Hj)|].
           by rewrite list_lookup_insert_ne in Hf by done.
      * intros (j & s' & Hj & Hf & Hs & Hv). right. exists j, s'.
        destruct (decide (i = j)) as [->|Hne]; [by pose proof (position_inj _ _ _ _ Ep Hj)|].
        by rewrite list_lookup_insert_ne by done.
Qed.

Lemma voters_NoDup keys msg sigs : forall tried, length tried = length keys -> List.NoDup (voters keys msg tried sigs).
Proof.
  induction sigs as [|s sigs IH]; intros tried Hlen; cbn [voters]; [constructor|].
  destruct (position _ _) as [i|] eqn:Ep; [|by apply IH]. destruct (default false _); [by apply IH|].
  assert (List.NoDup (voters keys msg (<[i:=true]> tried) sigs)) as Hn by (apply IH; by rewrite length_insert).
  destruct (sig_valid msg s); [|done]. constructor; [|done].
  rewrite voters_spec by (by rewrite length_insert). intros (j & s' & Hj & Hf & _).
  assert (j = i) as -> by congruence. apply position_spec in Ep as [Hi _]. apply lookup_lt_Some in Hi.
  rewrite list_lookup_insert_eq in Hf by lia. done.
Qed.

Lemma verify_checkpoint_voters cp keys threshold :
  0 <= threshold ->
  verify_checkpoint cp keys threshold = true <->
  0 < threshold <= Zlen keys /\ Zlen (cp_sigs cp) <= Zlen keys /\
  cp_hash cp <> ZERO_HASH /\ cp_height cp < CHECKPOINT_SUNSET_HEIGHT /\
  threshold <= Zlen (voters keys (checkpoint_message (cp_height cp) (cp_hash cp))
                       (replicate (length keys) false) (cp_sigs cp)).
Proof.
  intros Ht. unfold verify_checkpoint, bytes_eqb.
  destruct (_ || _) eqn:E.
  { split; [done|]. intros (Hb & _). apply orb_true_iff in E as [E|E]; to_prop; [|lia].
    destruct E; to_prop; [subst; cbn in *; unfold Zlen in *; cbn in *; lia|lia]. }
  to_prop. destruct (Z.ltb_spec (Zlen keys) (Zlen (cp_sigs cp))); [split; [done|lia]|].
  case_bool_decide; [by split; [|intros (_ & _ & ? & _)]|].
  destruct (Z.leb_spec CHECKPOINT_SUNSET_HEIGHT (cp_height cp)); [split; [done|lia]|].
  rewrite verify_loop_voters by lia. rewrite Z.leb_le, Z.add_0_l. split; [|tauto].
  intros. repeat (split; [done || lia|]). done.
Qed.

(** A checkpoint verifies exactly when the threshold is between one and the
    number of authorities, the hash is not zero, the height is before the
    sunset, there are no more signatures than authorities, and at least
    [threshold] DISTINCT authority keys each have a valid signature over this
    checkpoint's own message (the first signature that carries a key is the one
    that counts): one key can never vote twice. *)
Theorem verify_checkpoint_needs_distinct_authorities cp keys threshold :
  0 <= threshold ->
  verify_checkpoint cp keys threshold = true <->
  0 < threshold <= Zlen keys /\ Zlen (cp_sigs cp) <= Zlen keys /\
  cp_hash cp <> ZERO_HASH /\ cp_height cp < CHECKPOINT_SUNSET_HEIGHT /\
  exists signers, List.NoDup signers /\ Zlen signers = threshold /\
    forall k, In k signers -> In k keys /\
      exists s, first_sig k (cp_sigs cp) = Some s /\
        sig_valid (checkpoint_message (cp_height cp) (cp_hash cp)) s = true.
Proof.
  intros Ht. rewrite verify_checkpoint_voters by done.
  set (msg := checkpoint_message _ _). set (vs := voters _ _ _ _).
  assert (length (replicate (length keys) false) = length keys) as Hl by apply length_replicate.
  repeat apply and_iff_compat_l. split.
  - intros Hle. exists (take (Z.to_nat threshold) vs).
    assert (List.NoDup vs) as Hn by by apply voters_NoDup.
    assert (vs = take (Z.to_nat threshold) vs ++ drop (Z.to_nat threshold) vs) as Hs by by rewrite take_drop.
    repeat split.
    + rewrite Hs in Hn. by apply List.NoDup_app_remove_r in Hn.
    + unfold Zlen in *. rewrite length_take. lia.
    + assert (In k vs) as Hk by (rewrite Hs; apply in_app_iff; by left).
      apply voters_spec in Hk as (i & s & Hi & _); [|done]. apply position_elem. eauto.
    + assert (In k vs) as Hk by (rewrite Hs; apply in_app_iff; by left).
      apply voters_spec in Hk as (i & s & _ & _ & ? & ?); eauto.
  - intros (signers & Hn & <- & Hall). unfold Zlen. apply Nat2Z.inj_le.
    apply List.NoDup_incl_length; [done|]. intros k Hk. apply Hall in Hk as [Hin (s & Hf & Hv)].
    apply voters_spec; [done|]. apply position_elem in Hin as [i Hi]. exists i, s.
    split; [done|]. split; [|done]. apply lookup_replicate_2. apply position_spec in Hi as [Hi _].
    by apply lookup_lt_Some in Hi.
Qed.
End Verify.

(** ** The message binds height and hash *)
Fixpoint dec_value (acc : Z) (b : bytes) : Z :=
  match b with
  | [] => acc
  | d :: b => dec_value (10 * acc + (d - 48)) b
  end.

Lemma dec_loop_value fuel : forall x acc v,
  0 <= x < 10 ^ Z.of_nat fuel ->
  dec_value v (dec_loop fuel x acc) = dec_value (v * 10 ^ (Zlen (dec_loop fuel x acc) - Zlen acc) + x) acc.
Proof.
  induction fuel as [|fuel IH]; intros x acc v Hx.
  - cbn in *. assert (x = 0) as -> by lia. rewrite Z.sub_diag. cbn. f_equal. lia.
  - cbn [dec_loop]. pose proof (Z.div_mod x 10 ltac:(lia)). pose proof (Z.mod_pos_bound x 10 ltac:(lia)).
    destruct (Z.eqb_spec (x / 10) 0) as [Hz|Hz].
    + rewrite Zlen_cons. replace (1 + Zlen acc - Zlen acc) with 1 by lia. cbn [dec_value]. f_equal. lia.
    + assert (0 <= x / 10 < 10 ^ Z.of_nat fuel) as Hb.
      { split; [apply Z.div_pos; lia|]. apply Z.div_lt_upper_bound; [lia|].
        rewrite Nat2Z.inj_succ, Z.pow_succ_r in Hx by lia. lia. }
      rewrite IH by done. rewrite Zlen_cons. cbn [dec_value]. f_equal.
      set (n := Zlen (dec_loop fuel (x / 10) _)).
      assert (1 + Zlen acc <= n) as Hn.
      { subst n. clear. generalize (x / 10). generalize (48 + x mod 10). revert acc.
        induction fuel as [|f IHf]; intros acc d y; cbn [dec_loop]; [rewrite Zlen_cons; lia|].
        destruct (_ =? 0); rewrite ?Zlen_cons; [lia|]. specialize (IHf (d :: acc) (48 + y mod 10) (y / 10)).
        rewrite Zlen_cons in IHf. lia. }
      replace (n - Zlen acc) with (Z.succ (n - (1 + Zlen acc))) by lia.
      rewrite Z.pow_succ_r by lia. lia.
Qed.

Lemma u64_to_string_inj x y :
  0 <= x < 2 ^ 64 -> 0 <= y < 2 ^ 64 -> u64_to_string x = u64_to_string y -> x = y.
Proof.
  intros Hx Hy He. pose proof (dec_loop_value 20 x [] 0) as H1. pose proof (dec_loop_value 20 y [] 0) as H2.
  unfold u64_to_string in He. rewrite He in H1. cbn [dec_value] in *.
  assert (2 ^ 64 <= 10 ^ Z.of_nat 20) by (vm_compute; discriminate). lia.
Qed.

Lemma dec_loop_digits fuel : forall x acc,
  Forall (fun d => d <> 124) acc -> Forall (fun d => d <> 124) (dec_loop fuel x acc).
Proof.
  induction fuel as [|fuel IH]; intros x acc Ha; cbn [dec_loop]; [done|].
  pose proof (Z.mod_pos_bound x 10 ltac:(lia)).
  assert (Forall (fun d => d <> 124) ((48 + x mod 10) :: acc)) by (constructor; [lia|done]).
  destruct (_ =? 0); [done|]. by apply IH.
Qed.

(** Two strings with no separator in them, each followed by the separator. *)
Lemma split_at_separator (c : Z) a b a' b' :
  Forall (fun d => d <> c) a -> Forall (fun d => d <> c) a' ->
  a ++ [c] ++ b = a' ++ [c] ++ b' -> a = a' /\ b = b'.
Proof.
  intros Ha. revert a'. induction Ha as [|x a Hx Ha IH]; intros [|y a'] Ha' He; cbn in *.
  - by simplify_eq.
  - inversion_clear Ha'. simplify_eq.
  - simplify_eq.
  - inversion_clear Ha'. injection He as -> He. destruct (IH a') as [-> ->]; done.
Qed.

Lemma hex_encode_inj a b : bytes_ok a -> bytes_ok b -> hex_encode a = hex_encode b -> a = b.
Proof.
  intros Ha Hb He. pose proof (hex_decode_loop_encode 0 a Ha) as H1.
  pose proof (hex_decode_loop_encode 0 b Hb) as H2. rewrite He in H1. congruence.
Qed.

(** The signed message determines the checkpoint: two checkpoints with
    different height or hash never have the same message, so a signature made
    for one cannot be replayed for another. *)
Theorem checkpoint_message_injective h1 h2 x1 x2 :
  0 <= h1 < 2 ^ 64 -> 0 <= h2 < 2 ^ 64 -> bytes_ok x1 -> bytes_ok x2 ->
  checkpoint_message h1 x1 = checkpoint_message h2 x2 -> h1 = h2 /\ x1 = x2.
Proof.
  intros Hh1 Hh2 Hx1 Hx2 He. unfold checkpoint_message in He. apply app_inv_head in He.
  apply split_at_separator in He as [Hs Hh]; [|by apply dec_loop_digits..].
  split; [by apply u64_to_string_inj|by apply hex_encode_inj].
Qed.

Lemma checkpoint_message_injective_witness :
  checkpoint_message 7 [1; 2] = checkpoint_message 7 [1; 2] /\ 7 = 7 /\ [1; 2] = [1; 2].
Proof.
  split; [reflexivity|].
  apply (checkpoint_message_injective 7 7 [1; 2] [1; 2]); [lia|lia|apply bytes_okb; reflexivity..|reflexivity].
Defined.

(** A toy scheme: the signature of a message is the key followed by the message. *)
Definition toy_verify (vk msg sig : bytes) : bool := bytes_eqb sig (vk ++ msg).
Definition toy_cp : SignedCheckpoint :=
  let msg := checkpoint_message 100 (replicate 32 5) in
  MkSignedCheckpoint 100 (replicate 32 5)
    [MkCheckpointSig [1] ([1] ++ msg); MkCheckpointSig [3] ([3] ++ msg); MkCheckpointSig [1] ([1] ++ msg)].

Lemma verify_checkpoint_needs_distinct_authorities_witness :
  verify_checkpoint Some toy_verify toy_cp [[1]; [2]; [3]] 2 = true /\
  (exists signers, List.NoDup signers /\ Zlen signers = 2 /\
    forall k, In k signers -> In k [[1]; [2]; [3]] /\
      exists s, first_sig k (cp_sigs toy_cp) = Some s /\
        sig_valid Some toy_verify (checkpoint_message 100 (replicate 32 5)) s = true) /\
  verify_checkpoint Some toy_verify toy_cp [[1]; [2]; [3]] 3 = false.
Proof.
  assert (verify_checkpoint Some toy_verify toy_cp [[1]; [2]; [3]] 2 = true) as He by (vm_compute; reflexivity).
  split; [exact He|]. split; [|vm_compute; reflexivity].
  apply (verify_checkpoint_needs_distinct_authorities Some toy_verify toy_cp [[1]; [2]; [3]] 2) in He; [|lia].
  destruct He as (_ & _ & _ & _ & Hs). exact Hs.
Defined.

(** ** The stored record *)
Definition VERSION : Z := 1.
Definition SIGS_MAX : Z := 15.
Definition MAX_BYTES : Z := 1 + 8 + 32 + 1 + SIGS_MAX * 96.
Definition HEAD : Z := 1 + 8 + 32 + 1.

Inductive RecordError :=
| RecordVersion (v : Z)
| RecordTruncated (got want : Z)
| TooManySignatures (n : Z)
| RecordTrailingBytes (n : Z).

Definition record_encode (cp : SignedCheckpoint) : bytes :=
  let n := Z.min (Zlen (cp_sigs cp)) SIGS_MAX in
  [VERSION] ++ le_bytes 8 (cp_height cp) ++ cp_hash cp ++ [wrap 8 n] ++
  concat ((fun s => cs_pubkey s ++ cs_sig s) <$> take (Z.to_nat n) (cp_sigs cp)).

Definition record_sig_at (raw : bytes) (i : Z) : CheckpointSig :=
  let at_ := HEAD + i * 96 in
  MkCheckpointSig (slice raw at_ (at_ + 32)) (slice raw (at_ + 32) (at_ + 96)).

Definition record_decode (raw : bytes) : outcome RecordError SignedCheckpoint :=
  guard! Zlen raw <? HEAD else RecordTruncated (Zlen raw) HEAD ;;
  guard! negb (byte_at raw 0 =? VERSION) else RecordVersion (byte_at raw 0) ;;
  let height := from_le (slice raw 1 9) in
  let hash := slice raw 9 41 in
  let n := byte_at raw 41 in
  guard! SIGS_MAX <? n else TooManySignatures n ;;
  let want := HEAD + n * 96 in
  guard! Zlen raw <? want else RecordTruncated (Zlen raw) want ;;
  guard! want <? Zlen raw else RecordTrailingBytes (Zlen raw - want) ;;
  Ok (MkSignedCheckpoint height hash (record_sig_at raw <$> zrange 0 n)).

Definition sig_ok (s : CheckpointSig) : Prop :=
  bytes_ok (cs_pubkey s) /\ Zlen (cs_pubkey s) = 32 /\ bytes_ok (cs_sig s) /\ Zlen (cs_sig s) = 64.
Definition cp_ok (cp : SignedCheckpoint) : Prop :=
  0 <= cp_height cp < 2 ^ 64 /\ hash_ok (cp_hash cp) /\ Zlen (cp_sigs cp) <= SIGS_MAX /\
  Forall sig_ok (cp_sigs cp).

Definition sig_bytes (s : CheckpointSig) : bytes := cs_pubkey s ++ cs_sig s.

Lemma Zlen_sig_bytes sigs : Forall sig_ok sigs -> Zlen (concat (sig_bytes <$> sigs)) = 96 * Zlen sigs.
Proof.
  induction 1 as [|s sigs (_ & H1 & _ & H2) Hs IH]; [done|].
  cbn. unfold sig_bytes at 1. zlen. lia.
Qed.

Lemma record_head_split (ver hash cnt tl : bytes) h :
  Zlen ver = 1 -> Zlen h = 8 -> Zlen hash = 32 -> Zlen cnt = 1 ->
  let raw := ver ++ h ++ hash ++ cnt ++ tl in
  slice raw 0 1 = ver /\ slice raw 1 9 = h /\ slice raw 9 41 = hash /\ slice raw 41 42 = cnt /\
  forall i j, 42 <= i <= j -> slice raw i j = slice tl (i - 42) (j - 42).
Proof.
  intros H1 H2 H3 H4 raw. subst raw. repeat split; [slice_field..|].
  intros i j Hij. rewrite !slice_app_r by lia. f_equal; lia.
Qed.

Lemma record_sigs_decode sigs : forall pre : bytes,
  Forall sig_ok sigs -> HEAD <= Zlen pre -> (Zlen pre - HEAD) mod 96 = 0 ->
  record_sig_at (pre ++ concat (sig_bytes <$> sigs)) <$>
    zrange ((Zlen pre - HEAD) / 96) ((Zlen pre - HEAD) / 96 + Zlen sigs) = sigs.
Proof.
  induction sigs as [|s sigs IH]; intros pre Hs Hp Hm; [rewrite zrange_nil by (zlen; lia); done|].
  inversion_clear Hs as [|? ? Hs1 Hs2]. destruct Hs1 as (Hb1 & Hl1 & Hb2 & Hl2).
  rewrite Zlen_cons. pose proof (Zlen_nonneg sigs). rewrite zrange_cons by lia. rewrite fmap_cons. f_equal.
  - unfold record_sig_at. apply Z.div_exact in Hm; [|lia].
    replace (HEAD + (Zlen pre - HEAD) / 96 * 96) with (Zlen pre) by lia.
    rewrite !slice_app_r by lia. cbn. unfold sig_bytes at 1 3. rewrite <-!app_assoc.
    destruct s as [pk sg]; cbn in *. f_equal.
    + slice_field.
    + slice_field.
  - specialize (IH (pre ++ sig_bytes s) Hs2). unfold sig_bytes at 1 2 3 4 5 6 in IH.
    rewrite !Zlen_app, Hl1, Hl2 in IH.
    replace (Zlen pre + (32 + 64) - HEAD) with (Zlen pre - HEAD + 1 * 96) in IH by lia.
    rewrite Z.mod_add, Z.div_add in IH by lia.
    replace ((Zlen pre - HEAD) / 96 + (1 + Zlen sigs)) with ((Zlen pre - HEAD) / 96 + 1 + Zlen sigs) by lia.
    rewrite <-app_assoc in IH. cbn. apply IH; [lia|done].
Qed.

Lemma record_sigs_encode (raw : bytes) k n :
  0 <= k -> n = Z.of_nat (Z.to_nat n) -> HEAD + (k + n) * 96 <= Zlen raw ->
  concat (sig_bytes <$> (record_sig_at raw <$> zrange k (k + n))) = slice raw (HEAD + k * 96) (HEAD + (k + n) * 96).
Proof.
  intros Hk Hn. revert k Hk. rewrite Hn. generalize (Z.to_nat n). clear n Hn.
  induction n as [|n IH]; intros k Hk Hl.
  - rewrite zrange_nil, slice_nil by lia. done.
  - rewrite zrange_cons by lia. cbn [fmap list_fmap concat].
    replace (k + Z.of_nat (S n)) with (k + 1 + Z.of_nat n) in * by lia.
    change (list_fmap ?f) with (fmap (M := list) f). rewrite IH by lia.
    unfold sig_bytes at 1, record_sig_at at 1 2. cbn [cs_pubkey cs_sig].
    assert (HEAD = 42) by done.
    rewrite slice_slice by lia. replace (HEAD + (k + 1) * 96) with (HEAD + k * 96 + 96) by lia.
    by rewrite slice_slice by lia.
Qed.

(** The checkpoint record: encoding then decoding any checkpoint with at
    most [SIGS_MAX] signatures gives it back, and every byte string that decodes
    is the encoding of what it decodes to (no two records mean the same
    checkpoint), with at most [SIGS_MAX] signatures and [MAX_BYTES] bytes. *)
Theorem checkpoint_record_roundtrip (cp : SignedCheckpoint) (raw : bytes) :
  cp_ok cp -> bytes_ok raw ->
  record_decode (record_encode cp) = Ok cp /\
  (forall cp', record_decode raw = Ok cp' -> record_encode cp' = raw /\ cp_ok cp' /\ Zlen raw <= MAX_BYTES).
Proof.
  intros (Hh & [Hxb Hxl] & Hn & Hs) Hraw. split.
  - unfold record_encode. rewrite Z.min_l by done. rewrite take_ge by (unfold Zlen; lia).
    change (fun s => _) with sig_bytes. pose proof (Zlen_sig_bytes _ Hs) as Hcl.
    pose proof (Zlen_nonneg (cp_sigs cp)) as Hnn. unfold SIGS_MAX in Hn.
    rewrite wrap_small by (change (2 ^ 8) with 256; lia).
    set (tl := concat _) in *. set (n := Zlen (cp_sigs cp)) in *. unfold record_decode.
    destruct (record_head_split [VERSION] (cp_hash cp) [n] tl (le_bytes 8 (cp_height cp)))
      as (H0 & H1 & H2 & H3 & H4); [done|apply Zlen_le_bytes|done..|].
    set (raw' := _ ++ _) in *.
    assert (Zlen raw' = HEAD + n * 96) as Hrl by (subst raw'; zlen; unfold HEAD; lia).
    assert (byte_at raw' 41 = n) as Hb41.
    { pose proof (byte_at_slice raw' 41 ltac:(unfold HEAD in *; lia)) as Hb.
      change (41 + 1) with 42 in Hb. rewrite H3 in Hb. congruence. }
    rewrite Hb41, Hrl, H1, H2. change (byte_at raw' 0) with VERSION. cbn [negb Z.eqb VERSION Pos.eqb].
    rewrite (proj2 (Z.ltb_ge _ HEAD)), (proj2 (Z.ltb_ge SIGS_MAX n)), !Z.ltb_irrefl by (unfold SIGS_MAX; lia).
    rewrite from_le_le_bytes by done.
    pose proof (record_sigs_decode (cp_sigs cp) ([VERSION] ++ le_bytes 8 (cp_height cp) ++ cp_hash cp ++ [n]) Hs) as Hd.
    rewrite !Zlen_app, Zlen_le_bytes, Hxl in Hd. rewrite <-!app_assoc in Hd. fold tl in Hd.
    change (_ ++ _ ++ _ ++ _ ++ tl) with raw' in Hd.
    change ((_ - HEAD) / 96) with 0 in Hd. rewrite Z.add_0_l in Hd. fold n in Hd.
    rewrite Hd; [by destruct cp|done..].
  - intros cp' Hd. unfold record_decode in Hd. steps_in Hd. invert_ok. to_prop.
    pose proof (byte_at_ok raw 41 Hraw) as Hb. unfold byte_ok in Hb.
    set (n := byte_at raw 41) in *. unfold SIGS_MAX in *.
    assert (Zlen raw = HEAD + n * 96) as Hrl by lia. unfold HEAD in Hrl.
    assert (Zlen (record_sig_at raw <$> zrange 0 n) = n) as Hsl.
    { rewrite Zlen_fmap, Zlen_zrange; lia. }
    split; [|split; [|unfold MAX_BYTES, SIGS_MAX; lia]].
    + unfold record_encode. cbn [cp_sigs cp_height cp_hash]. rewrite Hsl, Z.min_l by (unfold SIGS_MAX; lia).
      rewrite take_ge by (unfold Zlen in Hsl; lia). change (fun s => _) with sig_bytes.
      rewrite wrap_small by (change (2 ^ 8) with 256; lia).
      pose proof (record_sigs_encode raw 0 n) as He. rewrite Z.add_0_l in He. rewrite He by (unfold HEAD; lia).
      rewrite le_bytes_from_le' by (try apply slice_Forall; try rewrite Zlen_slice; done || lia).
      assert (slice raw 0 1 = [VERSION]) as <-.
      { pose proof (byte_at_slice raw 0 ltac:(lia)) as Hv. change (0 + 1) with 1 in Hv. congruence. }
      assert (slice raw 41 42 = [n]) as <- by (apply (byte_at_slice raw 41); lia).
      rewrite !slice_slice by (unfold HEAD; lia). apply slice_all. unfold HEAD. lia.
    + split; [|split; [split; [by apply slice_Forall|cbn; rewrite Zlen_slice; lia]|split]].
      * cbn. pose proof (from_le_bounds (slice raw 1 9) (slice_Forall _ _ _ _ Hraw)) as Hf.
        rewrite Zlen_slice in Hf by lia. exact Hf.
      * cbn [cp_sigs]. rewrite Hsl. unfold SIGS_MAX. lia.
      * cbn [cp_sigs]. apply Forall_fmap, Forall_forall. intros i Hi. apply in_zrange in Hi.
        unfold sig_ok, record_sig_at, HEAD. cbn. rewrite !Zlen_slice by lia.
        repeat split; try (by apply slice_Forall); lia.
Qed.

Definition sample_cp : SignedCheckpoint :=
  MkSignedCheckpoint 9 (replicate 32 7) [MkCheckpointSig (replicate 32 1) (replicate 64 2)].
Lemma checkpoint_record_roundtrip_witness :
  record_decode (record_encode sample_cp) = Ok sample_cp /\
  (forall cp', record_decode (record_encode sample_cp) = Ok cp' ->
     record_encode cp' = record_encode sample_cp /\ cp_ok cp' /\ Zlen (record_encode sample_cp) <= MAX_BYTES).
Proof.
  apply (checkpoint_record_roundtrip sample_cp (record_encode sample_cp)).
  - split; [cbn; lia|]. split; [split; [apply bytes_okb; reflexivity|reflexivity]|].
    split; [vm_compute; discriminate|]. constructor; [|constructor].
    repeat split; try reflexivity; apply bytes_okb; reflexivity.
  - apply bytes_okb. reflexivity.
Defined.
