(* ===== verification/Blake3.v ===== *)
(** BLAKE3 (src/lib/consensus/src/blake3.rs): the compression function, the
    incremental chunk state and the hasher with its stack of chaining values,
    against the recursive tree definition of the hash. Words are [Z] in
    [0, 2^32); the stack is the live prefix of the [cv_stack] array, top first,
    and [blake3_no_overflow] shows the array, the [u8] counters and the chunk
    counter never leave their ranges. *)

From Stdlib Require Import ZArith Lia List.
From stdpp Require Import base list numbers.
From S2P Require Import Prelude.
Open Scope Z_scope.

Definition OUT_LEN : Z := 32.
Definition BLOCK_LEN : Z := 64.
Definition CHUNK_LEN : Z := 1024.
Definition CHUNK_START : Z := Z.shiftl 1 0.
Definition CHUNK_END : Z := Z.shiftl 1 1.
Definition PARENT : Z := Z.shiftl 1 2.
Definition ROOT : Z := Z.shiftl 1 3.
Definition IV : list Z :=
  [0x6A09E667; 0xBB67AE85; 0x3C6EF372; 0xA54FF53A; 0x510E527F; 0x9B05688C; 0x1F83D9AB; 0x5BE0CD19].
Definition MSG_PERMUTATION : list nat := [2; 6; 3; 10; 7; 0; 4; 13; 1; 11; 12; 5; 9; 14; 15; 8]%nat.
Definition MAX_DEPTH : Z := 54.

Definition word (s : list Z) (i : nat) : Z := default 0 (s !! i).
Definition wadd (a b : Z) : Z := wrap 32 (a + b).

Definition g (s : list Z) (a b c d : nat) (mx my : Z) : list Z :=
  let s := <[a := wadd (wadd (word s a) (word s b)) mx]> s in
  let s := <[d := rotate_right 32 (Z.lxor (word s d) (word s a)) 16]> s in
  let s := <[c := wadd (word s c) (word s d)]> s in
  let s := <[b := rotate_right 32 (Z.lxor (word s b) (word s c)) 12]> s in
  let s := <[a := wadd (wadd (word s a) (word s b)) my]> s in
  let s := <[d := rotate_right 32 (Z.lxor (word s d) (word s a)) 8]> s in
  let s := <[c := wadd (word s c) (word s d)]> s in
  <[b := rotate_right 32 (Z.lxor (word s b) (word s c)) 7]> s.

Definition round (s m : list Z) : list Z :=
  let s := g s 0 4 8 12 (word m 0) (word m 1) in
  let s := g s 1 5 9 13 (word m 2) (word m 3) in
  let s := g s 2 6 10 14 (word m 4) (word m 5) in
  let s := g s 3 7 11 15 (word m 6) (word m 7) in
  let s := g s 0 5 10 15 (word m 8) (word m 9) in
  let s := g s 1 6 11 12 (word m 10) (word m 11) in
  let s := g s 2 7 8 13 (word m 12) (word m 13) in
  g s 3 4 9 14 (word m 14) (word m 15).

Definition permute (m : list Z) : list Z := word m <$> MSG_PERMUTATION.

Fixpoint more_rounds (n : nat) (s m : list Z) : list Z :=
  match n with
  | O => s
  | S n => let m := permute m in more_rounds n (round s m) m
  end.

Definition compress (chaining_value block_words : list Z) (counter block_len flags : Z) : list Z :=
  let state := chaining_value ++ take 4 IV ++
    [wrap 32 counter; wrap 32 (Z.shiftr counter 32); block_len; flags] in
  let state := more_rounds 6 (round state block_words) block_words in
  ((fun i => Z.lxor (word state i) (word state (i + 8))) <$> seq 0 8) ++
  ((fun i => Z.lxor (word state (i + 8)) (word chaining_value i)) <$> seq 0 8).

Definition first_8_words (out : list Z) : list Z := take 8 out.

Definition words_from_le_bytes (b : bytes) : list Z :=
  (fun i => from_le (slice b (4 * Z.of_nat i) (4 * Z.of_nat i + 4))) <$> seq 0 16.

Record Output := MkOutput {
  out_input_cv : list Z;
  out_block_words : list Z;
  out_counter : Z;
  out_block_len : Z;
  out_flags : Z;
}.

Definition Output_chaining_value (o : Output) : list Z :=
  first_8_words (compress (out_input_cv o) (out_block_words o) (out_counter o) (out_block_len o) (out_flags o)).
Definition Output_root_hash (o : Output) : bytes :=
  let words := compress (out_input_cv o) (out_block_words o) 0 (out_block_len o) (Z.lor (out_flags o) ROOT) in
  concat (le_bytes 4 <$> take 8 words).

Record ChunkState := MkChunkState {
  ch_chaining_value : list Z;
  ch_chunk_counter : Z;
  ch_block : bytes;
  ch_block_len : Z;
  ch_blocks_compressed : Z;
}.

Definition ChunkState_new (chunk_counter : Z) : ChunkState :=
  MkChunkState IV chunk_counter (replicate 64 0) 0 0.
Definition ChunkState_len (s : ChunkState) : Z := BLOCK_LEN * ch_blocks_compressed s + ch_block_len s.
Definition ChunkState_start_flag (s : ChunkState) : Z :=
  if ch_blocks_compressed s =? 0 then CHUNK_START else 0.

(** The [if] at the head of [ChunkState::update]'s loop: a full block is compressed. *)
Definition ChunkState_flush (s : ChunkState) : ChunkState :=
  if ch_block_len s =? BLOCK_LEN then
    MkChunkState
      (first_8_words (compress (ch_chaining_value s) (words_from_le_bytes (ch_block s))
         (ch_chunk_counter s) BLOCK_LEN (ChunkState_start_flag s)))
      (ch_chunk_counter s) (replicate 64 0) 0 (ch_blocks_compressed s + 1)
  else s.

(** The rest of the loop body: copy [n] bytes into the block. *)
Definition ChunkState_copy (s : ChunkState) (input : bytes) : ChunkState :=
  let at_ := Z.to_nat (ch_block_len s) in
  MkChunkState (ch_chaining_value s) (ch_chunk_counter s)
    (take at_ (ch_block s) ++ input ++ drop (at_ + length input) (ch_block s))
    (ch_block_len s + Zlen input) (ch_blocks_compressed s).

(** Every iteration consumes at least one byte: the input's length is enough fuel. *)
Fixpoint ChunkState_update_loop (fuel : nat) (s : ChunkState) (input : bytes) : ChunkState :=
  match fuel with
  | O => s
  | S fuel =>
    if bool_decide (input = []) then s else
    let s := ChunkState_flush s in
    let want := BLOCK_LEN - ch_block_len s in
    let take_ := Z.to_nat (Z.min want (Zlen input)) in
    ChunkState_update_loop fuel (ChunkState_copy s (take take_ input)) (drop take_ input)
  end.
Definition ChunkState_update (s : ChunkState) (input : bytes) : ChunkState :=
  ChunkState_update_loop (length input) s input.

Definition ChunkState_output (s : ChunkState) : Output :=
  MkOutput (ch_chaining_value s) (words_from_le_bytes (ch_block s)) (ch_chunk_counter s)
    (ch_block_len s) (Z.lor (ChunkState_start_flag s) CHUNK_END).

Definition parent_output (left right : list Z) : Output :=
  MkOutput IV (left ++ right) 0 BLOCK_LEN PARENT.

Record Hasher := MkHasher { hs_chunk_state : ChunkState; hs_cv_stack : list (list Z) }.
Definition Hasher_new : Hasher := MkHasher (ChunkState_new 0) [].

Definition push_stack (stack : list (list Z)) (cv : list Z) : list (list Z) := cv :: stack.
Definition pop_stack (stack : list (list Z)) : list Z * list (list Z) :=
  match stack with
  | [] => (replicate 8 0, [])
  | cv :: stack => (cv, stack)
  end.

(** At most 63 halvings of a positive [u64] keep it even. *)
Fixpoint add_chunk_loop (fuel : nat) (stack : list (list Z)) (new_cv : list Z) (total_chunks : Z)
    : list (list Z) :=
  match fuel with
  | O => push_stack stack new_cv
  | S fuel =>
    if Z.land total_chunks 1 =? 0 then
      let '(left_cv, stack) := pop_stack stack in
      add_chunk_loop fuel stack (Output_chaining_value (parent_output left_cv new_cv)) (Z.shiftr total_chunks 1)
    else push_stack stack new_cv
  end.
Definition add_chunk_chaining_value (stack : list (list Z)) (new_cv : list Z) (total_chunks : Z) :=
  add_chunk_loop 64 stack new_cv total_chunks.

(** The [if] at the head of [Hasher::update]'s loop: a full chunk goes to the stack. *)
Definition Hasher_flush (h : Hasher) : Hasher :=
  if ChunkState_len (hs_chunk_state h) =? CHUNK_LEN then
    let cv := Output_chaining_value (ChunkState_output (hs_chunk_state h)) in
    let total := ch_chunk_counter (hs_chunk_state h) + 1 in
    MkHasher (ChunkState_new total) (add_chunk_chaining_value (hs_cv_stack h) cv total)
  else h.

Fixpoint Hasher_update_loop (fuel : nat) (h : Hasher) (input : bytes) : Hasher :=
  match fuel with
  | O => h
  | S fuel =>
    if bool_decide (input = []) then h else
    let h := Hasher_flush h in
    let want := CHUNK_LEN - ChunkState_len (hs_chunk_state h) in
    let take_ := Z.to_nat (Z.min want (Zlen input)) in
    Hasher_update_loop fuel
      (MkHasher (ChunkState_update (hs_chunk_state h) (take take_ input)) (hs_cv_stack h))
      (drop take_ input)
  end.
Definition Hasher_update (h : Hasher) (input : bytes) : Hasher :=
  Hasher_update_loop (length input) h input.

(** [finalize] walks the stack from the top to the bottom. *)
Definition Hasher_finalize (h : Hasher) : bytes :=
  Output_root_hash
    (fold_left (fun output cv => parent_output cv (Output_chaining_value output))
       (hs_cv_stack h) (ChunkState_output (hs_chunk_state h))).

Definition hash (input : bytes) : bytes := Hasher_finalize (Hasher_update Hasher_new input).

(** ** The recursive definition of the hash *)
Fixpoint split_every (n fuel : nat) (l : bytes) : list bytes :=
  match fuel with
  | O => [l]
  | S fuel => if (length l <=? n)%nat then [l] else take n l :: split_every n fuel (drop n l)
  end.
Definition pad64 (b : bytes) : bytes := b ++ replicate (64 - length b) 0.
Definition start_flag (first : bool) : Z := if first then CHUNK_START else 0.

(** A chunk: every block but the last is chained, the last one is the output. *)
Fixpoint chunk_spec (counter : Z) (cv : list Z) (first : bool) (blocks : list bytes) : Output :=
  match blocks with
  | [] => MkOutput cv (words_from_le_bytes (pad64 [])) counter 0 (Z.lor (start_flag first) CHUNK_END)
  | [b] => MkOutput cv (words_from_le_bytes (pad64 b)) counter (Zlen b) (Z.lor (start_flag first) CHUNK_END)
  | b :: blocks =>
    chunk_spec counter
      (first_8_words (compress cv (words_from_le_bytes b) counter BLOCK_LEN (start_flag first)))
      false blocks
  end.
Definition chunk_output_spec (counter : Z) (l : bytes) : Output :=
  chunk_spec counter IV true (split_every 64 (length l) l).

(** A tree of [n] chunks: the left subtree is the largest power of two below [n]. *)
Fixpoint tree_spec (fuel : nat) (counter : Z) (chunks : list bytes) : Output :=
  match fuel with
  | O => chunk_output_spec counter (concat chunks)
  | S fuel =>
    if (length chunks <=? 1)%nat then chunk_output_spec counter (concat chunks) else
    let k := (2 ^ Nat.log2 (length chunks - 1))%nat in
    parent_output (Output_chaining_value (tree_spec fuel counter (take k chunks)))
      (Output_chaining_value (tree_spec fuel (counter + Z.of_nat k) (drop k chunks)))
  end.
Definition blake3_spec (input : bytes) : bytes :=
  let chunks := split_every 1024 (length input) input in
  Output_root_hash (tree_spec (length chunks) 0 chunks).

(** ** One byte at a time *)
Definition chunk_push (s : ChunkState) (b : Z) : ChunkState := ChunkState_copy (ChunkState_flush s) [b].
Definition hasher_push (h : Hasher) (b : Z) : Hasher :=
  let h := Hasher_flush h in MkHasher (chunk_push (hs_chunk_state h) b) (hs_cv_stack h).

Record chunk_ok (s : ChunkState) : Prop := {
  ck_block : Zlen (ch_block s) = BLOCK_LEN;
  ck_len : 0 <= ch_block_len s <= BLOCK_LEN;
  ck_count : 0 <= ch_blocks_compressed s;
}.
Definition hasher_ok (h : Hasher) : Prop :=
  chunk_ok (hs_chunk_state h) /\ ChunkState_len (hs_chunk_state h) <= CHUNK_LEN.

Lemma flush_ok s : chunk_ok s -> chunk_ok (ChunkState_flush s) /\ ch_block_len (ChunkState_flush s) < BLOCK_LEN /\
  ChunkState_len (ChunkState_flush s) = ChunkState_len s.
Proof.
  intros Hs. unfold ChunkState_flush, ChunkState_len. destruct (Z.eqb_spec (ch_block_len s) BLOCK_LEN) as [He|He].
  - split; [constructor; cbn; [done|unfold BLOCK_LEN; lia|destruct Hs; lia]|]. cbn. rewrite He. unfold BLOCK_LEN. lia.
  - destruct Hs. split; [by constructor|]. lia.
Qed.

Lemma copy_ok s l : chunk_ok s -> ch_block_len s + Zlen l <= BLOCK_LEN ->
  chunk_ok (ChunkState_copy s l) /\ ChunkState_len (ChunkState_copy s l) = ChunkState_len s + Zlen l.
Proof.
  intros [H1 H2 H3] Hl. unfold ChunkState_len. split; [constructor|cbn; lia]; cbn.
  - unfold Zlen in *. rewrite !length_app, length_take, length_drop. unfold BLOCK_LEN in *. lia.
  - pose proof (Zlen_nonneg l). lia.
  - lia.
Qed.

Lemma flush_idem s : ch_block_len s < BLOCK_LEN -> ChunkState_flush s = s.
Proof. intros H. unfold ChunkState_flush. destruct (Z.eqb_spec (ch_block_len s) BLOCK_LEN); [lia|done]. Qed.

Lemma copy_app s a b : chunk_ok s -> ch_block_len s + Zlen a + Zlen b <= BLOCK_LEN ->
  ChunkState_copy (ChunkState_copy s a) b = ChunkState_copy s (a ++ b).
Proof.
  intros [H1 H2 H3] Hl. unfold ChunkState_copy. cbn. f_equal; [|zlen; lia].
  unfold Zlen, BLOCK_LEN in *. set (n := Z.to_nat (ch_block_len s)).
  assert (Z.to_nat (ch_block_len s + Z.of_nat (length a)) = n + length a)%nat as -> by lia.
  assert (length (take n (ch_block s)) = n) as Hn by (rewrite length_take; lia).
  rewrite (app_assoc (take n _) a). rewrite take_app_length' by (rewrite length_app; lia).
  rewrite drop_app_ge by (rewrite length_app; lia). rewrite <-!app_assoc. do 3 f_equal.
  rewrite drop_drop, !length_app. f_equal. lia.
Qed.

Lemma copy_nil s : chunk_ok s -> ChunkState_copy s [] = s.
Proof.
  intros [H1 H2 H3]. unfold ChunkState_copy. destruct s as [cv c blk n k]; cbn in *. f_equal; [|zlen; lia].
  rewrite Nat.add_0_r. apply take_drop.
Qed.

Lemma fold_push_copy l : forall s,
  chunk_ok s -> ch_block_len s + Zlen l <= BLOCK_LEN -> ch_block_len s < BLOCK_LEN \/ l = [] ->
  fold_left chunk_push l s = ChunkState_copy s l.
Proof.
  induction l as [|x l IH]; intros s Hs Hl Hor; [by rewrite copy_nil|]. rewrite Zlen_cons in Hl.
  pose proof (Zlen_nonneg l). destruct Hor as [Hlt|]; [|done].
  cbn [fold_left]. unfold chunk_push at 2. rewrite flush_idem by done.
  destruct (copy_ok s [x] Hs) as [Hc _]; [zlen; lia|].
  rewrite IH; [|done|cbn; zlen; lia|].
  - rewrite copy_app; [done|done|zlen; lia].
  - cbn. zlen. destruct l; [by right|]. rewrite Zlen_cons in *. pose proof (Zlen_nonneg l). left. lia.
Qed.

Lemma fold_push_flush l s : chunk_ok s -> l <> [] ->
  fold_left chunk_push l s = fold_left chunk_push l (ChunkState_flush s).
Proof.
  intros Hs Hl. destruct l as [|x l]; [done|]. cbn. unfold chunk_push at 2 4.
  rewrite (flush_idem (ChunkState_flush s)); [done|]. apply flush_ok. done.
Qed.

Lemma push_ok s b : chunk_ok s -> chunk_ok (chunk_push s b) /\ ChunkState_len (chunk_push s b) = ChunkState_len s + 1.
Proof.
  intros Hs. destruct (flush_ok s Hs) as (H1 & H2 & H3). unfold chunk_push.
  destruct (copy_ok (ChunkState_flush s) [b] H1) as [H4 H5]; [zlen; lia|]. split; [done|]. rewrite H5, H3. done.
Qed.

Lemma fold_push_ok l : forall s, chunk_ok s ->
  chunk_ok (fold_left chunk_push l s) /\ ChunkState_len (fold_left chunk_push l s) = ChunkState_len s + Zlen l.
Proof.
  induction l as [|x l IH]; intros s Hs; [cbn; split; [done|zlen; lia]|]. cbn [fold_left].
  destruct (push_ok s x Hs) as [H1 H2]. destruct (IH _ H1) as [H3 H4]. split; [done|]. rewrite H4, H2. zlen. lia.
Qed.

(** The block-wise loop does what pushing the bytes one at a time does. *)
Lemma chunk_update_loop_fold fuel : forall s input,
  (length input <= fuel)%nat -> chunk_ok s ->
  ChunkState_update_loop fuel s input = fold_left chunk_push input s.
Proof.
  induction fuel as [|fuel IH]; intros s input Hf Hs; [by destruct input; [|cbn in Hf; lia]|].
  cbn [ChunkState_update_loop]. case_bool_decide as Hi; [by subst|].
  destruct (flush_ok s Hs) as (H1 & H2 & H3). set (s1 := ChunkState_flush s) in *.
  pose proof (ck_len _ H1). set (t := Z.to_nat _).
  assert (0 < Zlen input) by (destruct input; [done|rewrite Zlen_cons; pose proof (Zlen_nonneg input); lia]).
  assert (Zlen (take t input) = Z.min (BLOCK_LEN - ch_block_len s1) (Zlen input)) as Ht.
  { unfold Zlen in *. rewrite length_take. unfold t. lia. }
  destruct (copy_ok s1 (take t input) H1) as [Hc _]; [lia|].
  rewrite IH; [|unfold Zlen in *; rewrite length_drop; unfold t; lia|done].
  rewrite (fold_push_flush input s Hs Hi). fold s1.
  rewrite <-(take_drop t input) at 3. rewrite fold_left_app. f_equal.
  symmetry. apply fold_push_copy; [done|lia|by left].
Qed.

Lemma ChunkState_update_fold s input :
  chunk_ok s -> ChunkState_update s input = fold_left chunk_push input s.
Proof. intros. by apply chunk_update_loop_fold. Qed.

Lemma ChunkState_new_ok c : chunk_ok (ChunkState_new c) /\ ChunkState_len (ChunkState_new c) = 0.
Proof. split; [|done]. constructor; cbn; unfold BLOCK_LEN; try lia. done. Qed.

Lemma hasher_flush_ok h : hasher_ok h ->
  hasher_ok (Hasher_flush h) /\ ChunkState_len (hs_chunk_state (Hasher_flush h)) < CHUNK_LEN.
Proof.
  intros [Hc Hl]. unfold Hasher_flush. destruct (Z.eqb_spec (ChunkState_len (hs_chunk_state h)) CHUNK_LEN).
  - unfold hasher_ok. cbn. destruct (ChunkState_new_ok (ch_chunk_counter (hs_chunk_state h) + 1)) as [H1 H2].
    rewrite H2. unfold CHUNK_LEN. split; [split; [done|lia]|lia].
  - split; [done|]. lia.
Qed.

Lemma hasher_flush_idem h : ChunkState_len (hs_chunk_state h) < CHUNK_LEN -> Hasher_flush h = h.
Proof. intros H. unfold Hasher_flush. destruct (Z.eqb_spec (ChunkState_len (hs_chunk_state h)) CHUNK_LEN); [lia|done]. Qed.

Lemma fold_hasher_push_chunk l : forall c st,
  chunk_ok c -> ChunkState_len c + Zlen l <= CHUNK_LEN ->
  ChunkState_len c < CHUNK_LEN \/ l = [] ->
  fold_left hasher_push l (MkHasher c st) = MkHasher (fold_left chunk_push l c) st.
Proof.
  induction l as [|x l IH]; intros c st Hc Hl Hor; [done|]. rewrite Zlen_cons in Hl. pose proof (Zlen_nonneg l).
  destruct Hor as [Hlt|]; [|done]. cbn [fold_left]. unfold hasher_push at 2.
  rewrite hasher_flush_idem by done. cbn. destruct (push_ok c x Hc) as [H1 H2].
  apply IH; [done|lia|]. rewrite H2. destruct l; [by right|]. left. rewrite Zlen_cons in *.
  pose proof (Zlen_nonneg l). lia.
Qed.

Lemma hasher_push_ok h b : hasher_ok h -> hasher_ok (hasher_push h b).
Proof.
  intros Hh. destruct (hasher_flush_ok h Hh) as [[H1 _] H3]. destruct (push_ok (hs_chunk_state (Hasher_flush h)) b H1) as [H4 H5].
  split; [done|]. change (hs_chunk_state (hasher_push h b)) with (chunk_push (hs_chunk_state (Hasher_flush h)) b). lia.
Qed.
Lemma fold_hasher_push_ok l : forall h, hasher_ok h -> hasher_ok (fold_left hasher_push l h).
Proof. induction l as [|x l IH]; intros h Hh; [done|]. cbn. by apply IH, hasher_push_ok. Qed.
Lemma Hasher_new_ok : hasher_ok Hasher_new.
Proof. destruct (ChunkState_new_ok 0) as [H1 H2]. split; [done|]. cbn [Hasher_new hs_chunk_state]. rewrite H2. unfold CHUNK_LEN. lia. Qed.

Lemma hasher_update_loop_fold fuel : forall h input,
  (length input <= fuel)%nat -> hasher_ok h ->
  Hasher_update_loop fuel h input = fold_left hasher_push input h.
Proof.
  induction fuel as [|fuel IH]; intros h input Hf Hh; [by destruct input; [|cbn in Hf; lia]|].
  cbn [Hasher_update_loop]. case_bool_decide as Hi; [by subst|].
  destruct (hasher_flush_ok h Hh) as [[H1 H2] H3].
  assert (fold_left hasher_push input h = fold_left hasher_push input (Hasher_flush h)) as ->.
  { destruct input as [|x l]; [done|]. cbn. unfold hasher_push at 2 4. by rewrite (hasher_flush_idem (Hasher_flush h)). }
  destruct (Hasher_flush h) as [c st]. cbn [hs_chunk_state hs_cv_stack] in *. set (t := Z.to_nat _).
  assert (0 < Zlen input) by (destruct input; [done|rewrite Zlen_cons; pose proof (Zlen_nonneg input); lia]).
  assert (Zlen (take t input) = Z.min (CHUNK_LEN - ChunkState_len c) (Zlen input)) as Ht.
  { unfold Zlen in *. rewrite length_take. unfold t. lia. }
  rewrite ChunkState_update_fold by done. destruct (fold_push_ok (take t input) c H1) as [H4 H5].
  rewrite IH; [|unfold Zlen in *; rewrite length_drop; unfold t; lia|split; [done|cbn; lia]].
  rewrite <-(take_drop t input) at 3. rewrite fold_left_app. f_equal.
  symmetry. apply fold_hasher_push_chunk; [done|lia|by left].
Qed.

Lemma Hasher_update_fold h input : hasher_ok h -> Hasher_update h input = fold_left hasher_push input h.
Proof. intros. by apply hasher_update_loop_fold. Qed.

Lemma Hasher_update_ok h input : hasher_ok h -> hasher_ok (Hasher_update h input).
Proof. intros. rewrite Hasher_update_fold by done. by apply fold_hasher_push_ok. Qed.

Lemma Hasher_update_app h a b : hasher_ok h -> Hasher_update (Hasher_update h a) b = Hasher_update h (a ++ b).
Proof.
  intros Hh. rewrite (Hasher_update_fold (Hasher_update h a)) by by apply Hasher_update_ok.
  rewrite !Hasher_update_fold by done. by rewrite fold_left_app.
Qed.

(** Feeding a message in pieces is hashing their concatenation. *)
Lemma hash_pieces parts :
  Hasher_finalize (fold_left Hasher_update parts Hasher_new) = hash (concat parts).
Proof.
  assert (forall h, hasher_ok h -> fold_left Hasher_update parts h = Hasher_update h (concat parts)) as Hp.
  { induction parts as [|p parts IH]; intros h Hh; cbn; [done|].
    rewrite IH by by apply Hasher_update_ok. by rewrite Hasher_update_app. }
  rewrite Hp by apply Hasher_new_ok. done.
Qed.

(** ** A chunk refines its block-wise definition *)
Lemma split_every_ne n fuel l : split_every n fuel l <> [].
Proof. destruct fuel; cbn; [done|]. by destruct (_ <=? _)%nat. Qed.

Lemma chunk_spec_cons c cv first b bs : bs <> [] ->
  chunk_spec c cv first (b :: bs) =
  chunk_spec c (first_8_words (compress cv (words_from_le_bytes b) c BLOCK_LEN (start_flag first))) false bs.
Proof. by destruct bs. Qed.

Lemma chunk_fold_spec fuel : forall l cv c k,
  (length l <= fuel)%nat -> 0 <= k ->
  ChunkState_output (fold_left chunk_push l (MkChunkState cv c (replicate 64 0) 0 k)) =
  chunk_spec c cv (k =? 0) (split_every 64 fuel l).
Proof.
  assert (forall l cv c k, (length l <= 64)%nat -> 0 <= k ->
    fold_left chunk_push l (MkChunkState cv c (replicate 64 0) 0 k) =
    MkChunkState cv c (pad64 l) (Zlen l) k) as Hshort.
  { intros l cv c k Hl Hk. rewrite fold_push_copy.
    - unfold ChunkState_copy. cbn -[replicate drop]. rewrite drop_replicate. unfold pad64. done.
    - constructor; cbn; unfold BLOCK_LEN; try lia. done.
    - cbn. unfold Zlen, BLOCK_LEN. lia.
    - left. cbn. unfold BLOCK_LEN. lia. }
  induction fuel as [|fuel IH]; intros l cv c k Hf Hk; cbn [split_every].
  - rewrite Hshort by lia. reflexivity.
  - destruct (Nat.leb_spec (length l) 64) as [Hle|Hgt].
    + rewrite Hshort by lia. reflexivity.
    + rewrite <-(take_drop 64 l) at 1. rewrite fold_left_app, (Hshort (take 64 l)) by (rewrite ?length_take; lia).
      assert (length (take 64 l) = 64%nat) as Ht by (rewrite length_take; lia).
      assert (pad64 (take 64 l) = take 64 l) as Hp by (unfold pad64; rewrite Ht; apply app_nil_r).
      rewrite fold_push_flush.
      2: { constructor; cbn; unfold BLOCK_LEN, Zlen; rewrite ?Hp, ?Ht; lia. }
      2: { intros Hd. apply (f_equal length) in Hd. rewrite length_drop in Hd. cbn in Hd. lia. }
      unfold ChunkState_flush. cbn [ch_block_len]. assert ((Zlen (take 64 l) =? BLOCK_LEN) = true) as ->.
      { unfold Zlen. by rewrite Ht. }
      cbn [ch_chaining_value ch_block ch_chunk_counter ch_blocks_compressed]. rewrite Hp.
      rewrite chunk_spec_cons by apply split_every_ne. rewrite IH by (rewrite ?length_drop; lia).
      destruct (Z.eqb_spec (k + 1) 0); [lia|]. reflexivity.
Qed.

Lemma chunk_output_refines c l :
  ChunkState_output (fold_left chunk_push l (ChunkState_new c)) = chunk_output_spec c l.
Proof. unfold ChunkState_new, chunk_output_spec. by rewrite (chunk_fold_spec (length l)). Qed.

(** ** The tree *)
Definition tree (c : Z) (chunks : list bytes) : Output := tree_spec (length chunks) c chunks.
Definition tree_cv (c : Z) (chunks : list bytes) : list Z := Output_chaining_value (tree c chunks).

Lemma log2_half n : (2 <= n)%nat -> (1 <= 2 ^ Nat.log2 (n - 1) < n)%nat.
Proof.
  intros H. pose proof (Nat.log2_spec (n - 1) ltac:(lia)) as [H1 H2].
  split; [|lia]. pose proof (Nat.pow_nonzero 2 (Nat.log2 (n - 1))). lia.
Qed.

Lemma tree_fuel fuel : forall c cs, (length cs <= fuel)%nat -> tree_spec fuel c cs = tree c cs.
Proof.
  unfold tree. assert (forall n fuel c cs, (length cs <= n)%nat -> (length cs <= fuel)%nat ->
    tree_spec fuel c cs = tree_spec n c cs) as H.
  { induction n as [|n IH]; intros f c cs Hn Hf.
    - destruct cs; [|cbn in Hn; lia]. by destruct f.
    - destruct f as [|f]; [by destruct cs; [|cbn in Hf; lia]|]. cbn [tree_spec].
      destruct (Nat.leb_spec (length cs) 1); [done|]. pose proof (log2_half (length cs) ltac:(lia)).
      set (k := (2 ^ _)%nat) in *.
      rewrite (IH f c (take k cs)), (IH f (c + Z.of_nat k) (drop k cs)) by (rewrite ?length_take, ?length_drop; lia).
      done. }
  intros c cs Hl. by apply H.
Qed.

Lemma tree_one c l : tree c [l] = chunk_output_spec c l.
Proof. unfold tree. cbn. by rewrite app_nil_r. Qed.

(** A node: a perfect left subtree of [2^k] chunks and between one and [2^k] on the right. *)
Lemma tree_node c k l r :
  length l = (2 ^ k)%nat -> (1 <= length r <= 2 ^ k)%nat ->
  tree c (l ++ r) = parent_output (tree_cv c l) (tree_cv (c + Z.of_nat (2 ^ k)) r).
Proof.
  intros Hl Hr. unfold tree at 1. assert (0 < 2 ^ k)%nat by (pose proof (Nat.pow_nonzero 2 k); lia).
  rewrite length_app, Hl. destruct (2 ^ k + length r)%nat as [|n] eqn:En; [lia|]. cbn [tree_spec].
  destruct (Nat.leb_spec (length (l ++ r)) 1) as [Hle|Hgt]; [rewrite length_app in Hle; lia|].
  assert (Nat.log2 (length (l ++ r) - 1) = k) as ->.
  { rewrite length_app, Hl. apply Nat.log2_unique; [lia|]. cbn. lia. }
  rewrite take_app_length', drop_app_length' by done.
  unfold tree_cv. rewrite !tree_fuel by lia. done.
Qed.

(** The stack, top first: perfect subtrees of strictly growing size over the
    chunks consumed so far, none smaller than [2^m]. *)
Inductive forest : nat -> list bytes -> list (list Z) -> Prop :=
| forest_nil m : forest m [] []
| forest_snoc m k cs t st :
    forest (S k) cs st -> length t = (2 ^ k)%nat -> (m <= k)%nat ->
    forest m (cs ++ t) (tree_cv (Zlen cs) t :: st).

Lemma pow2_split m k : (m <= k)%nat -> (2 ^ k = 2 ^ m * 2 ^ (k - m))%nat.
Proof. intros H. rewrite <-Nat.pow_add_r. f_equal. lia. Qed.

Lemma forest_div m cs st : forest m cs st -> exists q, length cs = (q * 2 ^ m)%nat.
Proof.
  induction 1 as [m|m k cs t st Hf [q IH] Ht Hk]; [by exists 0%nat|].
  exists ((2 * q + 1) * 2 ^ (k - m))%nat. rewrite length_app, Ht, IH.
  change (2 ^ S k)%nat with (2 * 2 ^ k)%nat. rewrite (pow2_split m k Hk). lia.
Qed.

Lemma forest_weaken m n cs st : forest m cs st -> (n <= m)%nat -> forest n cs st.
Proof. intros H Hn. inversion H; subst; econstructor; eauto. lia. Qed.

Lemma forest_depth m cs st : forest m cs st -> (2 ^ m * (2 ^ length st - 1) <= length cs)%nat.
Proof.
  induction 1 as [m|m k cs t st Hf IH Ht Hk]; [cbn; lia|]. rewrite length_app, Ht. cbn [length].
  change (2 ^ S ?a)%nat with (2 * 2 ^ a)%nat in *.
  assert (2 ^ m <= 2 ^ k)%nat by (apply Nat.pow_le_mono_r; lia).
  assert (0 < 2 ^ length st)%nat by (pose proof (Nat.pow_nonzero 2 (length st)); lia). nia.
Qed.

(** Merging the next chunk: the loop of [add_chunk_chaining_value] pops exactly
    the subtrees that complete a bigger one. *)
Lemma add_chunk_forest fuel : forall j cs st t total,
  forest j cs st -> length t = (2 ^ j)%nat ->
  total = Z.of_nat (length cs / 2 ^ j) + 1 -> total < 2 ^ Z.of_nat fuel ->
  forest 0 (cs ++ t) (add_chunk_loop fuel st (tree_cv (Zlen cs) t) total).
Proof.
  induction fuel as [|fuel IH]; intros j cs st t total Hf Ht Htot Hfuel; [cbn in Hfuel; lia|].
  cbn [add_chunk_loop]. assert ((Z.land total 1 =? 0) = Z.even total) as ->.
  { change 1 with (Z.ones 1) at 1. rewrite Z.land_ones, Zeven_mod by lia. done. }
  assert (0 < 2 ^ j)%nat by (pose proof (Nat.pow_nonzero 2 j); lia).
  rewrite Htot, Z.even_add. change (Z.even 1) with false.
  inversion Hf as [m|m k cs' t' st' Hf' Ht' Hk]; subst.
  - cbn [length]. rewrite Nat.Div0.div_0_l.
    change (eqb (Z.even (Z.of_nat 0)) false) with false. cbv iota beta. unfold push_stack. apply (forest_snoc 0 j [] t []); [constructor|done|lia].
  - destruct (forest_div _ _ _ Hf') as [q Hq]. rewrite length_app, Ht', Hq.
    change (2 ^ S k)%nat with (2 * 2 ^ k)%nat in *. rewrite (pow2_split j k Hk).
    replace (q * (2 * (2 ^ j * 2 ^ (k - j))) + 2 ^ j * 2 ^ (k - j))%nat
      with ((2 * q * 2 ^ (k - j) + 2 ^ (k - j)) * 2 ^ j)%nat by lia.
    rewrite Nat.div_mul by lia. destruct (decide (k = j)) as [->|Hne].
    + rewrite Nat.sub_diag. change (2 ^ 0)%nat with 1%nat.
      replace (Z.of_nat (2 * q * 1 + 1)) with (1 + 2 * Z.of_nat q) by lia.
      rewrite Z.even_add_mul_2. change (Z.even 1) with false. cbn [eqb pop_stack].
      assert (Zlen (cs' ++ t') = Zlen cs' + Z.of_nat (2 ^ j)) as -> by (unfold Zlen; rewrite length_app; lia).
      rewrite <-app_assoc.
      change (Output_chaining_value (parent_output ?a ?b)) with (Output_chaining_value (parent_output a b)).
      assert (Output_chaining_value (parent_output (tree_cv (Zlen cs') t') (tree_cv (Zlen cs' + Z.of_nat (2 ^ j)) t)) =
        tree_cv (Zlen cs') (t' ++ t)) as ->.
      { unfold tree_cv at 3. by rewrite (tree_node _ j) by lia. }
      apply (IH (S j)); [done|rewrite length_app; cbn; lia| |].
      * rewrite Z.shiftr_div_pow2 by lia. change (2 ^ S j)%nat with (2 * 2 ^ j)%nat. rewrite Hq.
        rewrite Nat.div_mul by lia. change (2 ^ 1) with 2.
        replace (1 + 2 * Z.of_nat q + 1) with ((Z.of_nat q + 1) * 2) by lia. by rewrite Z.div_mul.
      * rewrite Z.shiftr_div_pow2 by lia. apply Z.div_lt_upper_bound; [lia|].
        rewrite Nat2Z.inj_succ, Z.pow_succ_r in Hfuel by lia.
        rewrite length_app, Ht', Hq in Hfuel.
        replace (q * (2 * 2 ^ j) + 2 ^ j)%nat with ((2 * q + 1) * 2 ^ j)%nat in Hfuel by lia.
        rewrite Nat.div_mul in Hfuel by lia. change (2 ^ 1) with 2. lia.
    + assert (Z.even (Z.of_nat (2 * q * 2 ^ (k - j) + 2 ^ (k - j))) = true) as ->.
      { destruct (k - j)%nat as [|d] eqn:Ed; [lia|]. change (2 ^ S d)%nat with (2 * 2 ^ d)%nat.
        replace (Z.of_nat _) with (0 + 2 * Z.of_nat (2 * q * 2 ^ d + 2 ^ d)) by lia.
        by rewrite Z.even_add_mul_2. }
      cbn [eqb]. unfold push_stack. apply (forest_snoc 0 j); [|done|lia].
      apply (forest_snoc (S j) k); [done|done|lia].
Qed.

(** Folding the stack from the top closes the tree over everything consumed. *)
Lemma forest_close m cs st : forest m cs st -> forall rest,
  (1 <= length rest <= 2 ^ m)%nat ->
  fold_left (fun o cv => parent_output cv (Output_chaining_value o)) st (tree (Zlen cs) rest) = tree 0 (cs ++ rest).
Proof.
  induction 1 as [m|m k cs t st Hf IH Ht Hk]; intros rest Hr; [done|]. cbn [fold_left].
  assert (2 ^ m <= 2 ^ k)%nat by (apply Nat.pow_le_mono_r; lia).
  assert (Zlen (cs ++ t) = Zlen cs + Z.of_nat (2 ^ k)) as -> by (unfold Zlen; rewrite length_app; lia).
  change (Output_chaining_value (tree ?c rest)) with (tree_cv c rest).
  rewrite <-(tree_node (Zlen cs) k t rest) by lia. rewrite IH by (rewrite length_app; cbn; lia).
  by rewrite app_assoc.
Qed.

(** ** The hasher refines the tree *)
Record hasher_inv (l : bytes) (h : Hasher) (cs : list bytes) (tail : bytes) : Prop := {
  hv_input : l = concat cs ++ tail;
  hv_chunks : Forall (fun c => length c = 1024%nat) cs;
  hv_tail : (length tail <= 1024)%nat;
  hv_nonempty : tail = [] -> cs = [];
  hv_state : hs_chunk_state h = fold_left chunk_push tail (ChunkState_new (Zlen cs));
  hv_stack : forest 0 cs (hs_cv_stack h);
}.

Lemma concat_full cs : Forall (fun c : bytes => length c = 1024%nat) cs -> length (concat cs) = (1024 * length cs)%nat.
Proof. induction 1 as [|c cs Hc Hcs IH]; [done|]. cbn [concat length]. rewrite length_app, Hc, IH. lia. Qed.

Lemma chunk_fold_counter l : forall s, ch_chunk_counter (fold_left chunk_push l s) = ch_chunk_counter s.
Proof.
  induction l as [|x l IH]; intros s; [done|]. cbn [fold_left]. rewrite IH.
  unfold chunk_push, ChunkState_flush. by destruct (_ =? _).
Qed.

Lemma hasher_inv_push l h cs tail b :
  hasher_inv l h cs tail -> Zlen l + 1 < 2 ^ 64 ->
  exists cs' tail', hasher_inv (l ++ [b]) (hasher_push h b) cs' tail'.
Proof.
  intros [Hi Hc Ht Hn Hs Hf] Hl. destruct (ChunkState_new_ok (Zlen cs)) as [Hok0 Hlen0].
  destruct (fold_push_ok tail _ Hok0) as [Hok Hlen]. rewrite <-Hs, Hlen0 in Hlen.
  unfold hasher_push, Hasher_flush. rewrite Hlen.
  destruct (Z.eqb_spec (0 + Zlen tail) CHUNK_LEN) as [He|He].
  - exists (cs ++ [tail]), [b].
    assert (length tail = 1024%nat) as Ht' by (unfold CHUNK_LEN, Zlen in He; lia).
    assert (ch_chunk_counter (hs_chunk_state h) + 1 = Zlen (cs ++ [tail])) as Hcnt.
    { rewrite Hs, chunk_fold_counter. rewrite Zlen_app. cbn. done. }
    constructor.
    + rewrite concat_app, Hi. cbn. by rewrite app_nil_r, <-app_assoc.
    + apply Forall_app. split; [done|]. by constructor.
    + cbn. lia.
    + done.
    + cbn [hs_chunk_state fold_left]. by rewrite Hcnt.
    + cbn [hs_cv_stack]. rewrite Hs at 1. rewrite chunk_output_refines, <-(tree_one (Zlen cs) tail), Hcnt.
      apply (add_chunk_forest 64 0); [done|done| |].
      * rewrite Nat.div_1_r, Zlen_app. done.
      * pose proof (concat_full cs Hc) as Hcl. rewrite Hi in Hl. rewrite !Zlen_app in *. unfold Zlen in *. cbn. lia.
  - exists cs, (tail ++ [b]). constructor; try done.
    + by rewrite Hi, app_assoc.
    + rewrite length_app. unfold CHUNK_LEN, Zlen in *. cbn. lia.
    + by destruct tail.
    + cbn [hs_chunk_state]. by rewrite Hs, fold_left_app.
Qed.

Lemma hasher_inv_all l : Zlen l < 2 ^ 64 -> exists cs tail, hasher_inv l (Hasher_update Hasher_new l) cs tail.
Proof.
  rewrite Hasher_update_fold by apply Hasher_new_ok.
  induction l as [|b l IH] using rev_ind; intros Hl.
  - exists [], []. constructor; try done; [cbn; lia|constructor].
  - rewrite Zlen_app in Hl. change (Zlen [b]) with 1 in Hl. destruct IH as (cs & tail & Hinv); [lia|].
    rewrite fold_left_app. apply (hasher_inv_push l _ cs tail b Hinv). lia.
Qed.

Lemma split_chunks cs tail fuel :
  Forall (fun c : bytes => length c = 1024%nat) cs -> (length tail <= 1024)%nat -> (tail = [] -> cs = []) ->
  (length (concat cs ++ tail) <= fuel)%nat -> split_every 1024 fuel (concat cs ++ tail) = cs ++ [tail].
Proof.
  intros Hc Ht Hn. revert fuel. induction Hc as [|c cs Hc Hcs IH]; intros fuel Hf.
  - cbn [concat app] in *. destruct fuel as [|fuel]; [done|]. cbn [split_every].
    destruct (Nat.leb_spec (length tail) 1024); [done|lia].
  - assert (tail <> []) as Hne by (intros ->; by specialize (Hn eq_refl)).
    assert (0 < length tail)%nat by (destruct tail; [done|cbn; lia]).
    cbn [concat app] in *. rewrite !length_app in Hf. destruct fuel as [|fuel]; [lia|]. cbn [split_every].
    rewrite <-app_assoc. destruct (Nat.leb_spec (length (c ++ concat cs ++ tail)) 1024) as [Hle|_].
    { rewrite !length_app in Hle. lia. }
    rewrite take_app_length', drop_app_length' by done. f_equal. apply IH; [by intros|].
    rewrite length_app. lia.
Qed.

(** C22. The incremental hasher computes BLAKE3: for every input of fewer than
    [2^64] bytes, feeding it in any pieces to [Hasher::update] and finalizing
    gives the hash of the recursive tree definition (chunks of 1024 bytes chained
    in blocks of 64, each node's left subtree the largest power of two of chunks
    below its size); the stack of chaining values never outgrows [MAX_DEPTH] and
    the [u8] and [u64] counters never overflow. *)
Theorem blake3_refines_tree (parts : list bytes) :
  Zlen (concat parts) < 2 ^ 64 ->
  Hasher_finalize (fold_left Hasher_update parts Hasher_new) = blake3_spec (concat parts) /\
  let h := fold_left Hasher_update parts Hasher_new in
  Zlen (hs_cv_stack h) <= MAX_DEPTH /\ ch_chunk_counter (hs_chunk_state h) < 2 ^ 54 /\
  0 <= ch_block_len (hs_chunk_state h) <= 64 /\ 0 <= ch_blocks_compressed (hs_chunk_state h) <= 16.
Proof.
  intros Hl. rewrite hash_pieces. unfold hash.
  assert (fold_left Hasher_update parts Hasher_new = Hasher_update Hasher_new (concat parts)) as ->.
  { assert (forall h, hasher_ok h -> fold_left Hasher_update parts h = Hasher_update h (concat parts)) as Hp;
      [|by apply Hp, Hasher_new_ok]. clear Hl. induction parts as [|p parts IH]; intros h Hh; [done|].
    cbn [fold_left concat]. rewrite IH by by apply Hasher_update_ok. by rewrite Hasher_update_app. }
  set (l := concat parts) in *. destruct (hasher_inv_all l Hl) as (cs & tail & [Hi Hc Ht Hn Hs Hf]).
  pose proof (Hasher_update_ok Hasher_new l Hasher_new_ok) as [[_ Hbl Hbc] Hcl].
  set (h := Hasher_update Hasher_new l) in *.
  assert (Zlen cs < 2 ^ 54) as Hcs.
  { pose proof (concat_full cs Hc) as Hcf. rewrite Hi, Zlen_app in Hl. unfold Zlen in *. lia. }
  split.
  - unfold Hasher_finalize, blake3_spec. f_equal. rewrite Hs, chunk_output_refines, <-tree_one.
    rewrite (forest_close 0) by (done || (cbn; lia)). rewrite Hi, split_chunks by done. done.
  - cbv zeta. split; [|split; [|split]].
    + apply forest_depth in Hf. change (2 ^ 0)%nat with 1%nat in Hf. unfold MAX_DEPTH, Zlen in *.
      destruct (Nat.le_gt_cases (length (hs_cv_stack h)) 54) as [|Hgt]; [lia|]. exfalso.
      assert (2 ^ 55 <= 2 ^ length (hs_cv_stack h))%nat as Hp by (apply Nat.pow_le_mono_r; lia).
      apply inj_le in Hp. rewrite !Nat2Z.inj_pow in Hp. change (Z.of_nat 2 ^ Z.of_nat 55) with (2 ^ 55) in Hp.
      apply inj_le in Hf. rewrite Nat.mul_1_l, Nat2Z.inj_sub, Nat2Z.inj_pow in Hf.
      2: { pose proof (Nat.pow_nonzero 2 (length (hs_cv_stack h))). lia. }
      lia.
    + rewrite Hs, chunk_fold_counter. done.
    + exact Hbl.
    + split; [done|]. unfold ChunkState_len, BLOCK_LEN, CHUNK_LEN in *. lia.
Qed.

Lemma blake3_refines_tree_witness :
  Hasher_finalize (fold_left Hasher_update [[1; 2]; [3]] Hasher_new) = blake3_spec [1; 2; 3].
Proof.
  apply (blake3_refines_tree [[1; 2]; [3]]). reflexivity.
Defined.

(** The official vectors for the empty input and for the byte [0]. *)
Example blake3_vectors :
  hash [] =
    [175; 19; 73; 185; 245; 249; 161; 166; 160; 64; 77; 234; 54; 220; 201; 73;
     155; 203; 37; 201; 173; 193; 18; 183; 204; 154; 147; 202; 228; 31; 50; 98] /\
  hash [0] =
    [45; 58; 222; 223; 241; 27; 97; 241; 76; 136; 110; 53; 175; 160; 54; 115;
     109; 205; 135; 167; 77; 39; 181; 193; 81; 2; 37; 208; 245; 146; 226; 19].
Proof. by vm_compute. Qed.
