(* ===== verification/Codec.v ===== *)
(** The wire formats (src/lib/consensus/src/codec.rs): block header, transfers,
    announcements, coinbases with their author note, the transaction
    dispatcher and the length-delimited block body. Every decoder is paired with
    its encoder: decoding inverts encoding, and whatever decodes is exactly the
    encoding of what it decodes to. *)

From Stdlib Require Import ZArith Lia List.
From stdpp Require Import base list numbers.
From S2P Require Import Prelude Constants Work.
Open Scope Z_scope.

Inductive CodecError :=
| Truncated (need got : Z)
| TrailingBytes (extra : Z)
| WrongTxType (got : Z)
| ReservedTxType (got : Z)
| AuthorNoteVersion (got : Z)
| AuthorNoteTooLong (len : Z)
| AnnouncementLength (len : Z)
| BodyTxCount (got : Z)
| BodyTxLen (got : Z)
| BodyTooLarge (got : Z).

Definition require_exact (got need : Z) : outcome CodecError unit :=
  if got <? need then Err (Truncated need got)
  else if need <? got then Err (TrailingBytes (got - need))
  else Ok tt.

Record Header := MkHeader {
  h_version : Z;
  h_height : Z;
  h_prev_hash : Hash32;
  h_tx_root : Hash32;
  h_ext_root : Hash32;
  h_time : Z;
  h_bits : Z;
  h_author_note_len : Z;
  h_nonce : Z;
}.

Definition Header_encode (h : Header) : bytes :=
  le_bytes 4 (h_version h) ++ le_bytes 8 (h_height h) ++ h_prev_hash h ++ h_tx_root h ++ h_ext_root h ++
  le_bytes 8 (h_time h) ++ le_bytes 4 (h_bits h) ++ le_bytes 4 (h_author_note_len h) ++ le_bytes 8 (h_nonce h).

Definition Header_decode (b : bytes) : outcome CodecError Header :=
  let? _ := require_exact (Zlen b) HEADER_BYTES in
  Ok (MkHeader (from_le (slice b 0 4)) (from_le (slice b 4 12)) (slice b 12 44) (slice b 44 76)
        (slice b 76 108) (from_le (slice b 108 116)) (from_le (slice b 116 120))
        (from_le (slice b 120 124)) (from_le (slice b 124 132))).

Record TransferTx := MkTransferTx {
  t_from_pub : bytes;
  t_to : bytes;
  t_amount : Z;
  t_fee : Z;
  t_nonce : Z;
  t_sig : bytes;
}.

Definition TransferTx_encode_unsigned (t : TransferTx) : bytes :=
  [TX_TYPE_TRANSFER] ++ t_from_pub t ++ t_to t ++ le_bytes 16 (t_amount t) ++ le_bytes 16 (t_fee t) ++
  le_bytes 8 (t_nonce t).
Definition TransferTx_encode (t : TransferTx) : bytes := TransferTx_encode_unsigned t ++ t_sig t.
Definition TransferTx_decode (b : bytes) : outcome CodecError TransferTx :=
  let? _ := require_exact (Zlen b) TX_TRANSFER_BYTES in
  guard! negb (byte_at b 0 =? TX_TYPE_TRANSFER) else WrongTxType (byte_at b 0) ;;
  Ok (MkTransferTx (slice b 1 33) (slice b 33 53) (from_le (slice b 53 69)) (from_le (slice b 69 85))
        (from_le (slice b 85 93)) (slice b 93 157)).

Record AnnouncementTx := MkAnnouncementTx {
  a_from_pub : bytes;
  a_fee : Z;
  a_nonce : Z;
  a_encoding : Z;
  a_payload : bytes;
  a_sig : bytes;
}.

(** [(MIN..=MAX).contains(&len)] for announcement payloads *)
Definition announcement_len_ok (len : Z) : bool :=
  (ANNOUNCEMENT_MIN_PAYLOAD_BYTES <=? len) && (len <=? ANNOUNCEMENT_MAX_PAYLOAD_BYTES).
Definition AnnouncementTx_check_payload_len (a : AnnouncementTx) : outcome CodecError Z :=
  let len := Zlen (a_payload a) in
  guard! negb (announcement_len_ok len) else AnnouncementLength len ;;
  Ok (wrap 16 len).
Definition AnnouncementTx_wire_len (a : AnnouncementTx) : Z :=
  TX_ANNOUNCEMENT_OVERHEAD_BYTES + Zlen (a_payload a).
Definition AnnouncementTx_encode_unsigned (a : AnnouncementTx) : outcome CodecError bytes :=
  let? length := AnnouncementTx_check_payload_len a in
  Ok ([TX_TYPE_ANNOUNCEMENT] ++ a_from_pub a ++ le_bytes 16 (a_fee a) ++ le_bytes 8 (a_nonce a) ++
      [a_encoding a] ++ le_bytes 2 length ++ a_payload a).
Definition AnnouncementTx_encode (a : AnnouncementTx) : outcome CodecError bytes :=
  let? v := AnnouncementTx_encode_unsigned a in Ok (v ++ a_sig a).
Definition AnnouncementTx_decode (b : bytes) : outcome CodecError AnnouncementTx :=
  let min := TX_ANNOUNCEMENT_OVERHEAD_BYTES + ANNOUNCEMENT_MIN_PAYLOAD_BYTES in
  guard! Zlen b <? min else Truncated min (Zlen b) ;;
  guard! negb (byte_at b 0 =? TX_TYPE_ANNOUNCEMENT) else WrongTxType (byte_at b 0) ;;
  let length := from_le [byte_at b TX_ANN_OFF_LENGTH; byte_at b (TX_ANN_OFF_LENGTH + 1)] in
  guard! negb (announcement_len_ok length) else AnnouncementLength length ;;
  let? _ := require_exact (Zlen b) (TX_ANNOUNCEMENT_OVERHEAD_BYTES + length) in
  let payload_end := TX_ANN_OFF_PAYLOAD + length in
  Ok (MkAnnouncementTx
        (slice b TX_ANN_OFF_FROM_PUB (TX_ANN_OFF_FROM_PUB + PUBKEY_BYTES))
        (from_le (slice b TX_ANN_OFF_FEE (TX_ANN_OFF_FEE + 16)))
        (from_le (slice b TX_ANN_OFF_NONCE (TX_ANN_OFF_NONCE + 8)))
        (byte_at b TX_ANN_OFF_ENCODING)
        (slice b TX_ANN_OFF_PAYLOAD payload_end)
        (slice b payload_end (payload_end + SIG_BYTES))).

Record AuthorNote := MkAuthorNote { n_encoding : Z; n_payload : bytes }.

Definition AuthorNote_encode (n : AuthorNote) : outcome CodecError bytes :=
  guard! AUTHOR_NOTE_MAX_BYTES <? Zlen (n_payload n) else AuthorNoteTooLong (Zlen (n_payload n)) ;;
  Ok ([AUTHOR_NOTE_RECORD_VERSION] ++ [n_encoding n] ++ le_bytes 2 (wrap 16 (Zlen (n_payload n))) ++ n_payload n).
Definition AuthorNote_decode (b : bytes) : outcome CodecError AuthorNote :=
  guard! Zlen b <? AUTHOR_NOTE_HEADER_BYTES else Truncated AUTHOR_NOTE_HEADER_BYTES (Zlen b) ;;
  guard! negb (byte_at b 0 =? AUTHOR_NOTE_RECORD_VERSION) else AuthorNoteVersion (byte_at b 0) ;;
  let len := from_le [byte_at b 2; byte_at b 3] in
  guard! AUTHOR_NOTE_MAX_BYTES <? len else AuthorNoteTooLong len ;;
  let? _ := require_exact (Zlen b) (AUTHOR_NOTE_HEADER_BYTES + len) in
  Ok (MkAuthorNote (byte_at b 1) (slice b AUTHOR_NOTE_HEADER_BYTES (Zlen b))).

Record CoinbaseTx := MkCoinbaseTx {
  c_height : Z;
  c_to : bytes;
  c_reward : Z;
  c_fees : Z;
  c_note : AuthorNote;
}.

Definition CoinbaseTx_wire_len (c : CoinbaseTx) : Z :=
  COINBASE_PREFIX_BYTES + AUTHOR_NOTE_HEADER_BYTES + Zlen (n_payload (c_note c)).
Definition CoinbaseTx_encode (c : CoinbaseTx) : outcome CodecError bytes :=
  let? note := AuthorNote_encode (c_note c) in
  Ok ([TX_TYPE_COINBASE] ++ le_bytes 8 (c_height c) ++ c_to c ++ le_bytes 16 (c_reward c) ++
      le_bytes 16 (c_fees c) ++ note).
Definition CoinbaseTx_decode (b : bytes) : outcome CodecError CoinbaseTx :=
  let min := COINBASE_PREFIX_BYTES + AUTHOR_NOTE_HEADER_BYTES in
  guard! Zlen b <? min else Truncated min (Zlen b) ;;
  guard! negb (byte_at b 0 =? TX_TYPE_COINBASE) else WrongTxType (byte_at b 0) ;;
  let? note := AuthorNote_decode (slice b TX_CB_OFF_NOTE (Zlen b)) in
  Ok (MkCoinbaseTx
        (from_le (slice b TX_CB_OFF_HEIGHT (TX_CB_OFF_HEIGHT + 8)))
        (slice b TX_CB_OFF_TO (TX_CB_OFF_TO + ADDRESS_PAYLOAD_BYTES))
        (from_le (slice b TX_CB_OFF_REWARD (TX_CB_OFF_REWARD + 16)))
        (from_le (slice b TX_CB_OFF_FEES (TX_CB_OFF_FEES + 16)))
        note).

Inductive Tx :=
| Coinbase (c : CoinbaseTx)
| Transfer (t : TransferTx)
| Announcement (a : AnnouncementTx).

Definition Tx_fee (tx : Tx) : Z :=
  match tx with Coinbase _ => 0 | Transfer t => t_fee t | Announcement a => a_fee a end.
Definition Tx_type_byte (tx : Tx) : Z :=
  match tx with
  | Coinbase _ => TX_TYPE_COINBASE | Transfer _ => TX_TYPE_TRANSFER | Announcement _ => TX_TYPE_ANNOUNCEMENT
  end.

Definition decode_tx (b : bytes) : outcome CodecError Tx :=
  match b with
  | [] => Err (Truncated 1 0)
  | first :: _ =>
    if first =? TX_TYPE_COINBASE then let? c := CoinbaseTx_decode b in Ok (Coinbase c)
    else if first =? TX_TYPE_TRANSFER then let? t := TransferTx_decode b in Ok (Transfer t)
    else if first =? TX_TYPE_ANNOUNCEMENT then let? a := AnnouncementTx_decode b in Ok (Announcement a)
    else Err (ReservedTxType first)
  end.

(** The encoder of each variant, the inverse of [decode_tx]. *)
Definition Tx_encode (tx : Tx) : outcome CodecError bytes :=
  match tx with
  | Coinbase c => CoinbaseTx_encode c
  | Transfer t => Ok (TransferTx_encode t)
  | Announcement a => AnnouncementTx_encode a
  end.

Record BlockBody := MkBlockBody { bb_raw : bytes; bb_spans : list (Z * Z) }.

(** One iteration of [parse]'s loop, then the loop: [spans] collected in order. *)
Definition parse_record (raw : bytes) (off : Z) : outcome CodecError (Z * Z) :=
  let? len_end := ok_or (checked_add 64 off BODY_TXLEN_BYTES) (BodyTooLarge (Zlen raw)) in
  guard! Zlen raw <? len_end else Truncated len_end (Zlen raw) ;;
  let tx_len := from_le (slice raw off len_end) in
  guard! (tx_len =? 0) || (MAX_TX_BYTES <? tx_len) else BodyTxLen tx_len ;;
  let? tx_end := ok_or (checked_add 64 len_end tx_len) (BodyTooLarge (Zlen raw)) in
  guard! Zlen raw <? tx_end else Truncated tx_end (Zlen raw) ;;
  Ok (len_end, tx_end).
Fixpoint parse_records (n : nat) (raw : bytes) (off : Z) : outcome CodecError (list (Z * Z) * Z) :=
  match n with
  | O => Ok ([], off)
  | S n =>
    let? span := parse_record raw off in
    let? rest := parse_records n raw (snd span) in
    Ok (span :: fst rest, snd rest)
  end.
Definition BlockBody_parse (raw : bytes) : outcome CodecError BlockBody :=
  guard! MAX_BLOCK_BYTES <? Zlen raw + HEADER_BYTES else BodyTooLarge (Zlen raw) ;;
  guard! Zlen raw <? BODY_COUNT_BYTES else Truncated BODY_COUNT_BYTES (Zlen raw) ;;
  let count := from_le (slice raw 0 BODY_COUNT_BYTES) in
  guard! (count =? 0) || (MAX_TXS_PER_BLOCK <? count) else BodyTxCount count ;;
  let min_total := BODY_COUNT_BYTES + count * BODY_MIN_RECORD_BYTES in
  guard! Zlen raw <? min_total else Truncated min_total (Zlen raw) ;;
  let? r := parse_records (Z.to_nat count) raw BODY_COUNT_BYTES in
  guard! negb (snd r =? Zlen raw) else TrailingBytes (Zlen raw - snd r) ;;
  Ok (MkBlockBody raw (fst r)).

Fixpoint encode_records (v : bytes) (txs : list bytes) : outcome CodecError bytes :=
  match txs with
  | [] => Ok v
  | tx :: txs =>
    guard! bool_decide (tx = []) || (MAX_TX_BYTES <? Zlen tx) else BodyTxLen (Zlen tx) ;;
    encode_records (v ++ le_bytes 4 (wrap 32 (Zlen tx)) ++ tx) txs
  end.
Definition BlockBody_encode (txs : list bytes) : outcome CodecError bytes :=
  guard! bool_decide (txs = []) || (MAX_TXS_PER_BLOCK <? Zlen txs) else BodyTxCount (Zlen txs) ;;
  let? v := encode_records (le_bytes 4 (wrap 32 (Zlen txs))) txs in
  guard! MAX_BLOCK_BYTES <? Zlen v + HEADER_BYTES else BodyTooLarge (Zlen v) ;;
  Ok v.

Definition BlockBody_len (b : BlockBody) : Z := Zlen (bb_spans b).
Definition BlockBody_tx_bytes (b : BlockBody) (i : nat) : option bytes :=
  (fun r => slice (bb_raw b) (fst r) (snd r)) <$> bb_spans b !! i.
Definition BlockBody_all_bytes (b : BlockBody) : list bytes :=
  (fun r => slice (bb_raw b) (fst r) (snd r)) <$> bb_spans b.
Definition BlockBody_decode_all (b : BlockBody) : outcome CodecError (list Tx) :=
  try_mapi (fun _ tx => decode_tx tx) 0 (BlockBody_all_bytes b).

(** ** Fields *)
Lemma from_le_field n w x : w = 8 * Z.of_nat n -> 0 <= x < 2 ^ w -> from_le (le_bytes n x) = x.
Proof.
  intros -> Hx. apply from_le_le_bytes. change 256 with (2 ^ 8). rewrite <-Z.pow_mul_r by lia. done.
Qed.

Lemma le_bytes_slice n b i j :
  bytes_ok b -> 0 <= i -> j = i + Z.of_nat n -> j <= Zlen b -> le_bytes n (from_le (slice b i j)) = slice b i j.
Proof.
  intros Hb Hi -> Hj. apply le_bytes_from_le'; [by apply slice_Forall|].
  rewrite Zlen_slice; lia.
Qed.

Lemma from_le_slice_fits w b i j :
  bytes_ok b -> 0 <= i -> w = 8 * (j - i) -> i <= j <= Zlen b -> 0 <= from_le (slice b i j) < 2 ^ w.
Proof.
  intros Hb Hi -> Hj. pose proof (from_le_bounds (slice b i j) (slice_Forall _ _ _ _ Hb)) as H.
  rewrite Zlen_slice in H by lia. change 256 with (2 ^ 8) in H. rewrite <-Z.pow_mul_r in H by lia. done.
Qed.

Lemma require_exact_ok got need : require_exact got need = Ok tt <-> got = need.
Proof.
  unfold require_exact. destruct (Z.ltb_spec got need); [split; [done|lia]|].
  destruct (Z.ltb_spec need got); split; (done || lia).
Qed.
Lemma require_exact_refl n : require_exact n n = Ok tt.
Proof. by apply require_exact_ok. Qed.

Ltac fits_field := apply from_le_slice_fits; (done || lia).

Definition field_ok (n : Z) (b : bytes) : Prop := bytes_ok b /\ Zlen b = n.

Lemma slice_field_ok b i j n : bytes_ok b -> 0 <= i <= j -> j <= Zlen b -> n = j - i -> field_ok n (slice b i j).
Proof. intros Hb Hi Hj ->. split; [by apply slice_Forall|by apply Zlen_slice]. Qed.

(** Splits a well-formedness goal about what a decoder read. *)
Ltac wf_fields :=
  repeat first [fits_field | apply slice_field_ok; (done || lia) | by apply slice_Forall | by apply byte_at_ok | split].

Definition header_wf (h : Header) : Prop :=
  0 <= h_version h < 2 ^ 32 /\ 0 <= h_height h < 2 ^ 64 /\ field_ok 32 (h_prev_hash h) /\
  field_ok 32 (h_tx_root h) /\ field_ok 32 (h_ext_root h) /\ 0 <= h_time h < 2 ^ 64 /\
  0 <= h_bits h < 2 ^ 32 /\ 0 <= h_author_note_len h < 2 ^ 32 /\ 0 <= h_nonce h < 2 ^ 64.

Definition transfer_wf (t : TransferTx) : Prop :=
  field_ok 32 (t_from_pub t) /\ field_ok 20 (t_to t) /\ 0 <= t_amount t < 2 ^ 128 /\
  0 <= t_fee t < 2 ^ 128 /\ 0 <= t_nonce t < 2 ^ 64 /\ field_ok 64 (t_sig t).

Definition announcement_wf (a : AnnouncementTx) : Prop :=
  field_ok 32 (a_from_pub a) /\ 0 <= a_fee a < 2 ^ 128 /\ 0 <= a_nonce a < 2 ^ 64 /\
  byte_ok (a_encoding a) /\ bytes_ok (a_payload a) /\ announcement_len_ok (Zlen (a_payload a)) = true /\
  field_ok 64 (a_sig a).

Definition note_wf (n : AuthorNote) : Prop :=
  byte_ok (n_encoding n) /\ bytes_ok (n_payload n) /\ Zlen (n_payload n) <= AUTHOR_NOTE_MAX_BYTES.
Definition coinbase_wf (c : CoinbaseTx) : Prop :=
  0 <= c_height c < 2 ^ 64 /\ field_ok 20 (c_to c) /\ 0 <= c_reward c < 2 ^ 128 /\
  0 <= c_fees c < 2 ^ 128 /\ note_wf (c_note c).
Definition tx_wf (tx : Tx) : Prop :=
  match tx with
  | Coinbase c => coinbase_wf c
  | Transfer t => transfer_wf t
  | Announcement a => announcement_wf a
  end.

(** ** Headers *)
Lemma Zlen_Header_encode h : header_wf h -> Zlen (Header_encode h) = HEADER_BYTES.
Proof.
  intros (_ & _ & [_ H1] & [_ H2] & [_ H3] & _). unfold Header_encode. zlen. unfold HEADER_BYTES. lia.
Qed.

Lemma Header_decode_encode h : header_wf h -> Header_decode (Header_encode h) = Ok h.
Proof.
  intros Hw. unfold Header_decode. rewrite (Zlen_Header_encode h Hw), require_exact_refl. cbn [obind].
  destruct Hw as (Hv & Hh & [_ H1] & [_ H2] & [_ H3] & Ht & Hb & Ha & Hn). unfold Header_encode.
  set (v := le_bytes 4 (h_version h)). set (hh := le_bytes 8 (h_height h)). set (t := le_bytes 8 (h_time h)).
  set (bi := le_bytes 4 (h_bits h)). set (an := le_bytes 4 (h_author_note_len h)). set (no := le_bytes 8 (h_nonce h)).
  assert (Zlen v = 4 /\ Zlen hh = 8 /\ Zlen t = 8 /\ Zlen bi = 4 /\ Zlen an = 4 /\ Zlen no = 8) as
    (L1 & L2 & L3 & L4 & L5 & L6) by (repeat split; apply Zlen_le_bytes).
  set (b := v ++ _).
  assert (slice b 0 4 = v) as -> by (subst b; slice_field). assert (slice b 4 12 = hh) as -> by (subst b; slice_field).
  assert (slice b 12 44 = h_prev_hash h) as -> by (subst b; slice_field).
  assert (slice b 44 76 = h_tx_root h) as -> by (subst b; slice_field).
  assert (slice b 76 108 = h_ext_root h) as -> by (subst b; slice_field).
  assert (slice b 108 116 = t) as -> by (subst b; slice_field). assert (slice b 116 120 = bi) as -> by (subst b; slice_field).
  assert (slice b 120 124 = an) as -> by (subst b; slice_field). assert (slice b 124 132 = no) as -> by (subst b; slice_field).
  subst v hh t bi an no. rewrite !(from_le_field 4 32), !(from_le_field 8 64) by done. by destruct h.
Qed.

Lemma Header_decode_sound b h : bytes_ok b -> Header_decode b = Ok h -> header_wf h /\ Header_encode h = b.
Proof.
  intros Hb Hd. unfold Header_decode in Hd. steps_in Hd. destruct a. apply require_exact_ok in E.
  unfold HEADER_BYTES in E. invert_ok. split.
  - unfold header_wf. cbn. wf_fields.
  - unfold Header_encode. cbn. rewrite !le_bytes_slice by (done || lia). rewrite !slice_slice by lia.
    by apply slice_all.
Qed.

(** ** Transfers *)
Lemma Zlen_TransferTx_encode t : transfer_wf t -> Zlen (TransferTx_encode t) = TX_TRANSFER_BYTES.
Proof.
  intros ([_ H1] & [_ H2] & _ & _ & _ & [_ H3]). unfold TransferTx_encode, TransferTx_encode_unsigned. zlen.
  unfold TX_TRANSFER_BYTES. lia.
Qed.

Lemma TransferTx_decode_encode t : transfer_wf t -> TransferTx_decode (TransferTx_encode t) = Ok t.
Proof.
  intros Hw. unfold TransferTx_decode. rewrite (Zlen_TransferTx_encode t Hw), require_exact_refl. cbn [obind].
  destruct Hw as ([_ H1] & [_ H2] & Ha & Hf & Hn & [_ H3]). unfold TransferTx_encode, TransferTx_encode_unsigned.
  set (am := le_bytes 16 (t_amount t)). set (fe := le_bytes 16 (t_fee t)). set (no := le_bytes 8 (t_nonce t)).
  assert (Zlen am = 16 /\ Zlen fe = 16 /\ Zlen no = 8) as (L1 & L2 & L3) by (repeat split; apply Zlen_le_bytes).
  rewrite <-!app_assoc. set (b := [TX_TYPE_TRANSFER] ++ _). change (byte_at b 0) with TX_TYPE_TRANSFER. cbn [Z.eqb TX_TYPE_TRANSFER Pos.eqb negb].
  assert (slice b 1 33 = t_from_pub t) as -> by (subst b; slice_field).
  assert (slice b 33 53 = t_to t) as -> by (subst b; slice_field).
  assert (slice b 53 69 = am) as -> by (subst b; slice_field). assert (slice b 69 85 = fe) as -> by (subst b; slice_field).
  assert (slice b 85 93 = no) as -> by (subst b; slice_field). assert (slice b 93 157 = t_sig t) as -> by (subst b; slice_field).
  subst am fe no. rewrite !(from_le_field 16 128), !(from_le_field 8 64) by done. by destruct t.
Qed.

Lemma first_byte b x : 0 < Zlen b -> negb (byte_at b 0 =? x) = false -> slice b 0 1 = [x].
Proof.
  intros Hl Hx. to_prop. pose proof (byte_at_slice b 0 ltac:(lia)) as Hs. change (0 + 1) with 1 in Hs. congruence.
Qed.

Lemma TransferTx_decode_sound b t :
  bytes_ok b -> TransferTx_decode b = Ok t -> transfer_wf t /\ TransferTx_encode t = b.
Proof.
  intros Hb Hd. unfold TransferTx_decode in Hd. steps_in Hd. destruct a. apply require_exact_ok in E.
  unfold TX_TRANSFER_BYTES in E. invert_ok. split.
  - unfold transfer_wf. cbn. wf_fields.
  - unfold TransferTx_encode, TransferTx_encode_unsigned. cbn [t_from_pub t_to t_amount t_fee t_nonce t_sig].
    rewrite <-(first_byte b TX_TYPE_TRANSFER) by (done || lia).
    rewrite !le_bytes_slice by (done || lia). rewrite <-!app_assoc, !slice_slice by lia. by apply slice_all.
Qed.

(** Names the byte string an encoder returned, keeping its concatenation. *)
Ltac name_ok H :=
  match type of H with
  | Ok ?x = Ok ?b =>
    let e := fresh in assert (b = x) as e by congruence; clear H; subst b; set (b := x)
  end.

(** ** Author notes and coinbases *)
Lemma u16_pair b i : bytes_ok b -> 0 <= i -> i + 2 <= Zlen b ->
  [byte_at b i; byte_at b (i + 1)] = slice b i (i + 2).
Proof.
  intros Hb Hi Hl. rewrite <-(slice_slice b i (i + 1) (i + 2)) by lia.
  replace (i + 2) with (i + 1 + 1) by lia. by rewrite !byte_at_slice by lia.
Qed.

Lemma AuthorNote_encode_wf n : note_wf n ->
  AuthorNote_encode n = Ok ([AUTHOR_NOTE_RECORD_VERSION] ++ [n_encoding n] ++ le_bytes 2 (Zlen (n_payload n)) ++ n_payload n).
Proof.
  intros (_ & _ & Hl). unfold AuthorNote_encode. rewrite (proj2 (Z.ltb_ge _ _)) by done.
  pose proof (Zlen_nonneg (n_payload n)). unfold AUTHOR_NOTE_MAX_BYTES in Hl. by rewrite wrap_small by lia.
Qed.

Lemma AuthorNote_decode_encode n b : note_wf n -> AuthorNote_encode n = Ok b -> AuthorNote_decode b = Ok n.
Proof.
  intros Hw He. rewrite (AuthorNote_encode_wf n Hw) in He. destruct Hw as (He1 & Hb & Hl).
  pose proof (Zlen_nonneg (n_payload n)). unfold AUTHOR_NOTE_MAX_BYTES in Hl.
  set (ln := le_bytes 2 (Zlen (n_payload n))) in *. assert (Zlen ln = 2) as L1 by apply Zlen_le_bytes.
  name_ok He. unfold AuthorNote_decode.
  assert (Zlen b = 4 + Zlen (n_payload n)) as Lb by (subst b; zlen; lia). rewrite Lb.
  unfold AUTHOR_NOTE_HEADER_BYTES, AUTHOR_NOTE_MAX_BYTES. rewrite (proj2 (Z.ltb_ge _ 4)) by lia.
  change (byte_at b 0) with AUTHOR_NOTE_RECORD_VERSION. cbn [Z.eqb AUTHOR_NOTE_RECORD_VERSION Pos.eqb negb].
  assert ([byte_at b 2; byte_at b 3] = ln) as ->.
  { change 3 with (2 + 1). assert (bytes_ok b) as Hbb.
    { subst b. repeat (constructor; [done || (unfold byte_ok; lia)|]). apply Forall_app. split; [apply le_bytes_ok|done]. }
    rewrite u16_pair by (done || lia). subst b. slice_field. }
  subst ln. rewrite (from_le_field 2 16) by (done || lia). rewrite (proj2 (Z.ltb_ge 256 _)) by lia.
  rewrite require_exact_refl. cbn [obind]. change (byte_at b 1) with (n_encoding n).
  assert (slice b 4 (4 + Zlen (n_payload n)) = n_payload n) as -> by (subst b; slice_field). by destruct n.
Qed.

Lemma AuthorNote_decode_sound b n :
  bytes_ok b -> AuthorNote_decode b = Ok n -> note_wf n /\ AuthorNote_encode n = Ok b.
Proof.
  intros Hb Hd. unfold AuthorNote_decode in Hd. steps_in Hd. destruct a. apply require_exact_ok in E.
  invert_ok. unfold AUTHOR_NOTE_HEADER_BYTES, AUTHOR_NOTE_MAX_BYTES in *. to_prop. pose proof (Zlen_nonneg b).
  assert ([byte_at b 2; byte_at b 3] = slice b 2 4) as Hu by (apply (u16_pair b 2); (done || lia)).
  rewrite Hu in *. pose proof (from_le_slice_fits 16 b 2 4 Hb) as Hf.
  assert (Zlen (slice b 4 (Zlen b)) = from_le (slice b 2 4)) as Hpl by (rewrite Zlen_slice; lia).
  assert (note_wf (MkAuthorNote (byte_at b 1) (slice b 4 (Zlen b)))) as Hw.
  { split; [by apply byte_at_ok|]. split; [by apply slice_Forall|]. cbn [n_payload]. unfold AUTHOR_NOTE_MAX_BYTES. lia. }
  split; [done|]. rewrite AuthorNote_encode_wf by done. cbn [n_encoding n_payload]. rewrite Hpl. f_equal.
  rewrite <-(first_byte b AUTHOR_NOTE_RECORD_VERSION) by (try (apply negb_false_iff, Z.eqb_eq; done); lia).
  pose proof (byte_at_slice b 1 ltac:(lia)) as H1. change (1 + 1) with 2 in H1. rewrite <-H1.
  rewrite !le_bytes_slice by (done || lia). rewrite !slice_slice by lia. by apply slice_all.
Qed.

Lemma CoinbaseTx_decode_encode c b : coinbase_wf c -> CoinbaseTx_encode c = Ok b -> CoinbaseTx_decode b = Ok c.
Proof.
  intros (Hh & [_ Ht] & Hr & Hf & Hn) He. unfold CoinbaseTx_encode in He. step_in He.
  set (ch := le_bytes 8 (c_height c)) in *. set (re := le_bytes 16 (c_reward c)) in *. set (fe := le_bytes 16 (c_fees c)) in *.
  assert (Zlen ch = 8 /\ Zlen re = 16 /\ Zlen fe = 16) as (L1 & L2 & L3) by (repeat split; apply Zlen_le_bytes).
  assert (4 <= Zlen a) as La.
  { rewrite (AuthorNote_encode_wf _ Hn) in E. invert_ok. pose proof (Zlen_nonneg (n_payload (c_note c))). zlen. lia. }
  name_ok He. assert (Zlen b = 61 + Zlen a) as Lb by (subst b; zlen; lia).
  unfold CoinbaseTx_decode, COINBASE_PREFIX_BYTES, AUTHOR_NOTE_HEADER_BYTES. rewrite Lb.
  rewrite (proj2 (Z.ltb_ge _ (61 + 4))) by lia. change (byte_at b 0) with TX_TYPE_COINBASE.
  cbn [Z.eqb TX_TYPE_COINBASE negb]. unfold TX_CB_OFF_NOTE, TX_CB_OFF_HEIGHT, TX_CB_OFF_TO, TX_CB_OFF_REWARD, TX_CB_OFF_FEES, ADDRESS_PAYLOAD_BYTES.
  assert (slice b 61 (61 + Zlen a) = a) as -> by (subst b; slice_field).
  rewrite (AuthorNote_decode_encode (c_note c) a Hn E). cbn [obind].
  assert (slice b 1 (1 + 8) = ch) as -> by (subst b; slice_field).
  assert (slice b 9 (9 + 20) = c_to c) as -> by (subst b; slice_field).
  assert (slice b 29 (29 + 16) = re) as -> by (subst b; slice_field).
  assert (slice b 45 (45 + 16) = fe) as -> by (subst b; slice_field).
  subst ch re fe. rewrite !(from_le_field 16 128), (from_le_field 8 64) by done. by destruct c.
Qed.

Lemma CoinbaseTx_decode_sound b c :
  bytes_ok b -> CoinbaseTx_decode b = Ok c -> coinbase_wf c /\ CoinbaseTx_encode c = Ok b.
Proof.
  intros Hb Hd. unfold CoinbaseTx_decode in Hd. steps_in Hd. invert_ok.
  unfold COINBASE_PREFIX_BYTES, AUTHOR_NOTE_HEADER_BYTES in *.
  assert (65 <= Zlen b) as Hl by (to_prop; lia).
  apply AuthorNote_decode_sound in E as [Hn He]; [|by apply slice_Forall].
  unfold TX_CB_OFF_NOTE, TX_CB_OFF_HEIGHT, TX_CB_OFF_TO, TX_CB_OFF_REWARD, TX_CB_OFF_FEES, ADDRESS_PAYLOAD_BYTES in *.
  split.
  - unfold coinbase_wf. cbn [c_height c_to c_reward c_fees c_note]. split; [fits_field|].
    split; [apply slice_field_ok; (done || lia)|]. split; [fits_field|]. split; [fits_field|done].
  - unfold CoinbaseTx_encode. cbn [c_height c_to c_reward c_fees c_note]. rewrite He. cbn [obind]. f_equal.
    rewrite <-(first_byte b TX_TYPE_COINBASE) by (done || lia).
    rewrite !le_bytes_slice by (done || lia). rewrite !slice_slice by lia. by apply slice_all.
Qed.

(** ** Announcements *)
Lemma announcement_len_spec n : announcement_len_ok n = true <-> 1 <= n <= 1024.
Proof. unfold announcement_len_ok. rewrite andb_true_iff, !Z.leb_le. done. Qed.

Lemma AnnouncementTx_encode_wf a : announcement_wf a ->
  AnnouncementTx_encode a = Ok ([TX_TYPE_ANNOUNCEMENT] ++ a_from_pub a ++ le_bytes 16 (a_fee a) ++
    le_bytes 8 (a_nonce a) ++ [a_encoding a] ++ le_bytes 2 (Zlen (a_payload a)) ++ a_payload a ++ a_sig a).
Proof.
  intros (_ & _ & _ & _ & _ & Hl & _).
  unfold AnnouncementTx_encode, AnnouncementTx_encode_unsigned, AnnouncementTx_check_payload_len. rewrite Hl.
  cbn [negb obind]. apply announcement_len_spec in Hl. rewrite wrap_small by lia. by rewrite <-!app_assoc.
Qed.

Lemma AnnouncementTx_decode_encode a b :
  announcement_wf a -> AnnouncementTx_encode a = Ok b -> AnnouncementTx_decode b = Ok a.
Proof.
  intros Hw He. rewrite (AnnouncementTx_encode_wf a Hw) in He.
  destruct Hw as ([Hpb Hp] & Hf & Hn & Hen & Hpay & Hl & [Hsb Hs]). pose proof Hl as Hl'. apply announcement_len_spec in Hl'.
  set (fe := le_bytes 16 (a_fee a)) in *. set (no := le_bytes 8 (a_nonce a)) in *. set (ln := le_bytes 2 (Zlen (a_payload a))) in *.
  assert (Zlen fe = 16 /\ Zlen no = 8 /\ Zlen ln = 2) as (L1 & L2 & L3) by (repeat split; apply Zlen_le_bytes).
  name_ok He. assert (Zlen b = 124 + Zlen (a_payload a)) as Lb by (subst b; zlen; lia).
  unfold AnnouncementTx_decode, TX_ANNOUNCEMENT_OVERHEAD_BYTES, TX_ANNOUNCEMENT_PREFIX_BYTES, SIG_BYTES, ANNOUNCEMENT_MIN_PAYLOAD_BYTES,
    TX_ANN_OFF_LENGTH, TX_ANN_OFF_PAYLOAD, TX_ANN_OFF_FROM_PUB, TX_ANN_OFF_FEE, TX_ANN_OFF_NONCE, TX_ANN_OFF_ENCODING, PUBKEY_BYTES.
  rewrite Lb, (proj2 (Z.ltb_ge _ (60 + 64 + 1))) by lia. change (byte_at b 0) with TX_TYPE_ANNOUNCEMENT.
  cbn [Z.eqb TX_TYPE_ANNOUNCEMENT Pos.eqb negb].
  assert (slice b 57 58 = [a_encoding a]) as Henc by (subst b; slice_field).
  assert (byte_at b 57 = a_encoding a) as ->.
  { pose proof (byte_at_slice b 57 ltac:(lia)) as H57. change (57 + 1) with 58 in H57. congruence. }
  assert ([byte_at b 58; byte_at b (58 + 1)] = ln) as ->.
  { assert (bytes_ok b) as Hbb.
    { subst b. unfold bytes_ok. rewrite !Forall_app. repeat split; try done; try apply le_bytes_ok;
        (constructor; [done || (unfold byte_ok, TX_TYPE_ANNOUNCEMENT; lia)|constructor]). }
    rewrite u16_pair by (done || lia). subst b. slice_field. }
  subst ln. rewrite (from_le_field 2 16) by (done || lia). rewrite Hl. cbn [negb].
  change (60 + 64) with 124. rewrite require_exact_refl. cbn [obind].
  assert (slice b 1 (1 + 32) = a_from_pub a) as -> by (subst b; slice_field).
  assert (slice b 33 (33 + 16) = fe) as -> by (subst b; slice_field).
  assert (slice b 49 (49 + 8) = no) as -> by (subst b; slice_field).
  assert (slice b 60 (60 + Zlen (a_payload a)) = a_payload a) as -> by (subst b; slice_field).
  assert (slice b (60 + Zlen (a_payload a)) (60 + Zlen (a_payload a) + 64) = a_sig a) as -> by (subst b; slice_field).
  subst fe no. rewrite (from_le_field 16 128), (from_le_field 8 64) by done. by destruct a.
Qed.

Lemma AnnouncementTx_decode_sound b a :
  bytes_ok b -> AnnouncementTx_decode b = Ok a -> announcement_wf a /\ AnnouncementTx_encode a = Ok b.
Proof.
  intros Hb Hd. unfold AnnouncementTx_decode in Hd. steps_in Hd. destruct a0. apply require_exact_ok in E. invert_ok.
  unfold TX_ANNOUNCEMENT_OVERHEAD_BYTES, TX_ANNOUNCEMENT_PREFIX_BYTES, SIG_BYTES, ANNOUNCEMENT_MIN_PAYLOAD_BYTES,
    TX_ANN_OFF_LENGTH, TX_ANN_OFF_PAYLOAD, TX_ANN_OFF_FROM_PUB, TX_ANN_OFF_FEE, TX_ANN_OFF_NONCE, TX_ANN_OFF_ENCODING, PUBKEY_BYTES in *.
  assert (125 <= Zlen b) as Hl by (to_prop; lia). apply negb_false_iff in G1.
  rewrite u16_pair in * by (done || lia). set (n := from_le (slice b 58 (58 + 2))) in *.
  pose proof G1 as Hn. apply announcement_len_spec in Hn.
  assert (Zlen (slice b 60 (60 + n)) = n) as Hpl by (rewrite Zlen_slice; lia).
  match goal with |- announcement_wf ?x /\ _ => assert (announcement_wf x) as Hw end.
  { unfold announcement_wf. cbn [a_from_pub a_fee a_nonce a_encoding a_payload a_sig]. rewrite Hpl.
    split; [apply slice_field_ok; (done || lia)|]. split; [fits_field|]. split; [fits_field|].
    split; [by apply byte_at_ok|]. split; [by apply slice_Forall|]. split; [done|]. apply slice_field_ok; (done || lia). }
  split; [done|]. rewrite AnnouncementTx_encode_wf by done.
  cbn [a_from_pub a_fee a_nonce a_encoding a_payload a_sig]. rewrite Hpl. f_equal. subst n.
  rewrite <-(first_byte b TX_TYPE_ANNOUNCEMENT) by (done || lia).
  pose proof (byte_at_slice b 57 ltac:(lia)) as H1. rewrite <-H1.
  rewrite !le_bytes_slice by (done || lia). rewrite !slice_slice by lia. apply slice_all. lia.
Qed.

(** ** All transactions *)
Lemma byte_at_0 x b : byte_at (x :: b) 0 = x.
Proof. done. Qed.

Lemma decode_tx_sound b tx : bytes_ok b -> decode_tx b = Ok tx -> tx_wf tx /\ Tx_encode tx = Ok b.
Proof.
  intros Hb Hd. unfold decode_tx in Hd. destruct b as [|x b]; [done|].
  destruct (x =? _); [step_in Hd; invert_ok; by apply CoinbaseTx_decode_sound|].
  destruct (x =? _); [step_in Hd; invert_ok; apply TransferTx_decode_sound in E as [? ?]; [|done]; cbn; by split; [|f_equal]|].
  destruct (x =? _); [step_in Hd; invert_ok; by apply AnnouncementTx_decode_sound|done].
Qed.

Lemma decode_tx_encode tx b : tx_wf tx -> Tx_encode tx = Ok b -> decode_tx b = Ok tx.
Proof.
  intros Hw He. destruct tx as [c|t|a]; cbn [Tx_encode tx_wf] in He, Hw.
  - pose proof (CoinbaseTx_decode_encode c b Hw He) as Hd. unfold CoinbaseTx_encode in He. step_in He. invert_ok.
    cbn [decode_tx app] in *. by rewrite Hd.
  - assert (b = TransferTx_encode t) as -> by congruence. pose proof (TransferTx_decode_encode t Hw) as Hd.
    unfold TransferTx_encode, TransferTx_encode_unsigned in *. cbn [decode_tx app] in *.
    change (TX_TYPE_TRANSFER =? TX_TYPE_COINBASE) with false. rewrite Z.eqb_refl. cbv iota. rewrite Hd. done.
  - pose proof (AnnouncementTx_decode_encode a b Hw He) as Hd. rewrite (AnnouncementTx_encode_wf a Hw) in He. invert_ok.
    cbn [decode_tx app] in *. by rewrite Hd.
Qed.

(** C9. The wire format is a bijection on well-formed values: every header and
    every transaction decodes back to itself from its encoding, and every byte
    string that decodes (header or transaction) decodes to a well-formed value
    whose encoding is that byte string, so no transaction has two wire forms. *)
Theorem wire_format_bijective (h : Header) (tx : Tx) (b wire : bytes) :
  header_wf h -> tx_wf tx -> bytes_ok b -> Tx_encode tx = Ok wire ->
  Header_decode (Header_encode h) = Ok h /\
  (forall h', Header_decode b = Ok h' -> header_wf h' /\ Header_encode h' = b) /\
  decode_tx wire = Ok tx /\
  (forall tx', decode_tx b = Ok tx' -> tx_wf tx' /\ Tx_encode tx' = Ok b).
Proof.
  intros Hh Ht Hb He. split; [by apply Header_decode_encode|].
  split; [intros; by apply Header_decode_sound|]. split; [by apply decode_tx_encode|].
  intros. by apply decode_tx_sound.
Qed.

Definition sample_wire_header : Header :=
  MkHeader VERSION_BASE 1 (replicate 32 1) (replicate 32 2) (replicate 32 0) 1000 0x1F00FFFF 0 42.
Definition sample_announcement : AnnouncementTx :=
  MkAnnouncementTx (replicate 32 3) 5 1 0 [72; 105] (replicate 64 9).
Definition sample_announcement_wire : bytes :=
  [2] ++ replicate 32 3 ++ le_bytes 16 5 ++ le_bytes 8 1 ++ [0] ++ le_bytes 2 2 ++ [72; 105] ++ replicate 64 9.

Lemma wire_format_bijective_witness :
  Header_decode (Header_encode sample_wire_header) = Ok sample_wire_header /\
  decode_tx sample_announcement_wire = Ok (Announcement sample_announcement).
Proof.
  destruct (wire_format_bijective sample_wire_header (Announcement sample_announcement)
    (Header_encode sample_wire_header) sample_announcement_wire) as (H1 & _ & H3 & _).
  - repeat split; first [reflexivity | apply bytes_okb; reflexivity | vm_compute; discriminate].
  - repeat split; first [reflexivity | apply bytes_okb; reflexivity | vm_compute; discriminate].
  - apply bytes_okb. reflexivity.
  - vm_compute. reflexivity.
  - split; [exact H1|exact H3].
Defined.

(** ** Block bodies *)
Definition record_bytes (tx : bytes) : bytes := le_bytes 4 (Zlen tx) ++ tx.
Definition record_ok (tx : bytes) : Prop := bytes_ok tx /\ 1 <= Zlen tx <= MAX_TX_BYTES.

Lemma Zlen_record tx : Zlen (record_bytes tx) = 4 + Zlen tx.
Proof. unfold record_bytes. zlen. lia. Qed.

Lemma encode_records_ok txs : forall v out,
  encode_records v txs = Ok out -> Forall bytes_ok txs ->
  Forall record_ok txs /\ out = v ++ concat (record_bytes <$> txs).
Proof.
  induction txs as [|tx txs IH]; intros v out He Hb; cbn [encode_records] in He.
  - invert_ok. split; [done|]. cbn. by rewrite app_nil_r.
  - step_in He. to_prop. inversion_clear Hb as [|? ? Hb1 Hb2]. unfold MAX_TX_BYTES in *.
    assert (1 <= Zlen tx) by (destruct tx; [done|rewrite Zlen_cons; pose proof (Zlen_nonneg tx); lia]).
    rewrite wrap_small in He by lia. apply IH in He as [Hr ->]; [|done].
    split; [constructor; [split; [done|unfold MAX_TX_BYTES; lia]|done]|].
    cbn. change (le_bytes 4 (Zlen tx) ++ tx) with (record_bytes tx). by rewrite app_assoc.
Qed.

Lemma encode_records_complete txs : forall v,
  Forall record_ok txs -> encode_records v txs = Ok (v ++ concat (record_bytes <$> txs)).
Proof.
  induction txs as [|tx txs IH]; intros v Hr; cbn; [by rewrite app_nil_r|].
  inversion_clear Hr as [|? ? [Hb Hl] Hr']. unfold MAX_TX_BYTES in *.
  rewrite bool_decide_eq_false_2 by (intros ->; zlen; lia). rewrite (proj2 (Z.ltb_ge _ _)) by lia. cbn [orb].
  rewrite wrap_small by lia. rewrite IH by done. change (le_bytes 4 (Zlen tx) ++ tx) with (record_bytes tx).
  by rewrite app_assoc.
Qed.

Lemma Zlen_records txs : Forall record_ok txs -> 5 * Zlen txs <= Zlen (concat (record_bytes <$> txs)).
Proof.
  induction 1 as [|tx txs [_ Hl] Hr IH]; [done|]. cbn. rewrite Zlen_app, Zlen_record, Zlen_cons. lia.
Qed.

Definition span_bytes (raw : bytes) (r : Z * Z) : bytes := slice raw (fst r) (snd r).

Lemma parse_record_encode pre tx post :
  record_ok tx -> Zlen (pre ++ record_bytes tx ++ post) < 2 ^ 64 ->
  let raw := pre ++ record_bytes tx ++ post in
  parse_record raw (Zlen pre) = Ok (Zlen pre + 4, Zlen pre + 4 + Zlen tx) /\
  span_bytes raw (Zlen pre + 4, Zlen pre + 4 + Zlen tx) = tx.
Proof.
  intros [Hb Hl] Hlen raw. subst raw. unfold MAX_TX_BYTES in Hl. unfold record_bytes in *.
  set (ln := le_bytes 4 (Zlen tx)) in *. assert (Zlen ln = 4) as L1 by apply Zlen_le_bytes.
  rewrite <-app_assoc in *. set (raw := pre ++ _) in *. pose proof (Zlen_nonneg pre). pose proof (Zlen_nonneg post).
  assert (Zlen raw = Zlen pre + 4 + Zlen tx + Zlen post) as Lr by (subst raw; zlen; lia).
  assert (slice raw (Zlen pre) (Zlen pre + 4) = ln) as S1 by (subst raw; slice_field).
  split; [|unfold span_bytes; cbn [fst snd]; subst raw; slice_field].
  unfold parse_record, BODY_TXLEN_BYTES.
  rewrite (proj2 (checked_add_some 64 (Zlen pre) 4 _)) by (split; [reflexivity|lia]). cbn [ok_or obind].
  rewrite (proj2 (Z.ltb_ge _ _)) by lia. rewrite S1. subst ln. rewrite (from_le_field 4 32) by (done || lia).
  unfold MAX_TX_BYTES. rewrite (proj2 (Z.eqb_neq _ _)), (proj2 (Z.ltb_ge 8192 _)) by lia. cbn [orb].
  rewrite (proj2 (checked_add_some 64 (Zlen pre + 4) (Zlen tx) _)) by (split; [reflexivity|lia]). cbn [ok_or obind].
  by rewrite (proj2 (Z.ltb_ge _ _)) by lia.
Qed.

Lemma parse_records_encode txs : forall pre : bytes,
  Forall record_ok txs -> Zlen (pre ++ concat (record_bytes <$> txs)) < 2 ^ 64 ->
  let raw := pre ++ concat (record_bytes <$> txs) in
  exists spans, parse_records (length txs) raw (Zlen pre) = Ok (spans, Zlen raw) /\ span_bytes raw <$> spans = txs.
Proof.
  induction txs as [|tx txs IH]; intros pre Hr Hlen raw; subst raw.
  - exists []. cbn. by rewrite app_nil_r.
  - inversion_clear Hr as [|? ? Hr1 Hr2]. cbn [fmap list_fmap concat] in *.
    change (list_fmap ?f) with (fmap (M := list) f) in *. set (post := concat (record_bytes <$> txs)) in *.
    destruct (parse_record_encode pre tx post Hr1 Hlen) as [He Hs]. cbv zeta in He, Hs.
    cbn [length parse_records]. rewrite He. cbn [obind snd].
    destruct (IH (pre ++ record_bytes tx) Hr2) as (spans & Hp & Hsp); [by rewrite <-app_assoc|].
    fold post in Hp, Hsp. cbv zeta in Hp, Hsp. rewrite <-app_assoc in Hp, Hsp.
    rewrite Zlen_app, Zlen_record, Z.add_assoc in Hp. rewrite Hp. cbn [obind fst snd].
    eexists. split; [done|]. cbn [fmap list_fmap]. change (list_fmap ?f) with (fmap (M := list) f). by rewrite Hs, Hsp.
Qed.

Lemma parse_record_sound raw off span :
  bytes_ok raw -> 0 <= off -> parse_record raw off = Ok span ->
  off <= snd span <= Zlen raw /\ record_ok (span_bytes raw span) /\
  slice raw off (snd span) = record_bytes (span_bytes raw span).
Proof.
  intros Hb Ho Hd. unfold parse_record in Hd. steps_in Hd. invert_ok. cbn [fst snd] in *.
  apply ok_or_ok, checked_add_some in E as [-> Hx], E0 as [-> Hy]. to_prop. unfold BODY_TXLEN_BYTES in *.
  pose proof (from_le_slice_fits 32 raw off (off + 4) Hb Ho ltac:(lia) ltac:(lia)) as Hf.
  set (n := from_le (slice raw off (off + 4))) in *. unfold span_bytes. cbn [fst snd].
  assert (Zlen (slice raw (off + 4) (off + 4 + n)) = n) as Hl by (rewrite Zlen_slice; lia).
  split; [lia|]. split; [split; [by apply slice_Forall|lia]|].
  unfold record_bytes. rewrite Hl. subst n. rewrite le_bytes_slice by (done || lia). by rewrite slice_slice by lia.
Qed.

Lemma parse_records_sound raw n : forall off spans e,
  bytes_ok raw -> 0 <= off -> parse_records n raw off = Ok (spans, e) -> off <= Zlen raw ->
  length spans = n /\ off <= e <= Zlen raw /\ Forall record_ok (span_bytes raw <$> spans) /\
  slice raw off e = concat (record_bytes <$> (span_bytes raw <$> spans)).
Proof.
  induction n as [|n IH]; intros off spans e Hb Ho Hd Hle; cbn [parse_records] in Hd.
  - invert_ok. split; [done|]. split; [lia|]. split; [done|]. cbn. by rewrite slice_nil by lia.
  - steps_in Hd. invert_ok. destruct a0 as [spans' e']. cbn [fst snd] in *.
    apply parse_record_sound in E as (H1 & H2 & H3); [|done..].
    apply IH in E0 as (H4 & H5 & H6 & H7); [|done|lia|lia].
    split; [cbn; lia|]. split; [lia|]. split; [by constructor|].
    cbn [fmap list_fmap concat]. rewrite <-H3. change (list_fmap ?f) with (fmap (M := list) f).
    rewrite <-H7. by rewrite slice_slice by lia.
Qed.

(** C10. Block bodies: parsing what [encode] produced gives back exactly the
    transactions' bytes, and every body that parses is the encoding of the
    transactions it was split into, at most [MAX_TXS_PER_BLOCK] of them, each of
    1 to [MAX_TX_BYTES] bytes, within the block size limit. *)
Theorem block_body_roundtrip (txs : list bytes) (raw : bytes) :
  Forall bytes_ok txs -> bytes_ok raw ->
  (forall v, BlockBody_encode txs = Ok v ->
     exists b, BlockBody_parse v = Ok b /\ BlockBody_all_bytes b = txs) /\
  (forall b, BlockBody_parse raw = Ok b ->
     BlockBody_encode (BlockBody_all_bytes b) = Ok raw /\
     1 <= BlockBody_len b <= MAX_TXS_PER_BLOCK /\ Forall record_ok (BlockBody_all_bytes b) /\
     Zlen raw + HEADER_BYTES <= MAX_BLOCK_BYTES).
Proof.
  intros Ht Hb. split.
  - intros v He. unfold BlockBody_encode in He. steps_in He. invert_ok. to_prop.
    assert (1 <= Zlen txs) by (destruct txs; [done|rewrite Zlen_cons; pose proof (Zlen_nonneg txs); lia]).
    unfold MAX_TXS_PER_BLOCK, MAX_BLOCK_BYTES, HEADER_BYTES in *. rewrite wrap_small in E by lia.
    apply encode_records_ok in E as [Hr ->]; [|done]. pose proof (Zlen_records txs Hr) as Hrl.
    set (ct := le_bytes 4 (Zlen txs)) in *. assert (Zlen ct = 4) as L1 by apply Zlen_le_bytes.
    rewrite Zlen_app in *. destruct (parse_records_encode txs ct Hr) as (spans & Hp & Hs); [rewrite Zlen_app; lia|].
    cbv zeta in Hp, Hs. set (raw' := ct ++ _) in *. exists (MkBlockBody raw' spans). split; [|done].
    assert (Zlen raw' = 4 + Zlen (concat (record_bytes <$> txs))) as Lr by (subst raw'; zlen; lia).
    assert (slice raw' 0 4 = ct) as S1 by (subst raw'; slice_field).
    unfold BlockBody_parse, BODY_COUNT_BYTES, HEADER_BYTES, MAX_BLOCK_BYTES. rewrite S1. subst ct.
    rewrite (from_le_field 4 32) by (done || lia). unfold MAX_TXS_PER_BLOCK, BODY_MIN_RECORD_BYTES, BODY_TXLEN_BYTES.
    rewrite (proj2 (Z.ltb_ge 1048576 _)), (proj2 (Z.ltb_ge _ 4)), (proj2 (Z.eqb_neq _ 0)), (proj2 (Z.ltb_ge 4096 _)), (proj2 (Z.ltb_ge _ (4 + Zlen txs * (4 + 1)))) by lia.
    cbn [orb]. replace (Z.to_nat (Zlen txs)) with (length txs) by (unfold Zlen; lia).
    rewrite L1 in Hp. rewrite Hp. cbn [obind fst snd]. rewrite Z.eqb_refl. done.
  - intros b Hp. unfold BlockBody_parse in Hp. steps_in Hp. invert_ok. to_prop.
    destruct a as [spans e]. cbn [fst snd] in *. unfold BODY_COUNT_BYTES, HEADER_BYTES, MAX_BLOCK_BYTES, MAX_TXS_PER_BLOCK in *.
    pose proof (from_le_slice_fits 32 raw 0 4 Hb ltac:(lia) ltac:(lia) ltac:(lia)) as Hf.
    set (n := from_le (slice raw 0 4)) in *.
    apply parse_records_sound in E as (H1' & H2' & H3' & H4'); [|done|lia|lia].
    unfold BlockBody_all_bytes, BlockBody_len. cbn [bb_raw bb_spans]. change (fun r => _) with (span_bytes raw).
    assert (Zlen (span_bytes raw <$> spans) = n) as Hn by (rewrite Zlen_fmap; unfold Zlen; lia).
    split; [|split; [unfold Zlen, MAX_TXS_PER_BLOCK; lia|split; [done|lia]]].
    unfold BlockBody_encode. rewrite Hn. rewrite bool_decide_eq_false_2 by (intros Hnil; rewrite Hnil in Hn; zlen; lia).
    unfold MAX_TXS_PER_BLOCK. rewrite (proj2 (Z.ltb_ge 4096 n)) by lia. cbn [orb].
    rewrite encode_records_complete by done. cbn [obind]. rewrite wrap_small by lia.
    subst n. rewrite le_bytes_slice by (done || lia). rewrite <-H4', slice_slice by lia.
    subst e. rewrite slice_all by done. unfold MAX_BLOCK_BYTES, HEADER_BYTES.
    by rewrite (proj2 (Z.ltb_ge 1048576 _)) by lia.
Qed.

Lemma block_body_roundtrip_witness :
  exists v b, BlockBody_encode [[1; 2; 3]; [4]] = Ok v /\ BlockBody_parse v = Ok b /\
    BlockBody_all_bytes b = [[1; 2; 3]; [4]] /\ BlockBody_encode (BlockBody_all_bytes b) = Ok v.
Proof.
  assert (bytes_ok ([2; 0; 0; 0; 3; 0; 0; 0; 1; 2; 3; 1; 0; 0; 0; 4])) as Hraw by (apply bytes_okb; reflexivity).
  assert (BlockBody_encode [[1; 2; 3]; [4]] = Ok [2; 0; 0; 0; 3; 0; 0; 0; 1; 2; 3; 1; 0; 0; 0; 4]) as He
    by (vm_compute; reflexivity).
  destruct (block_body_roundtrip [[1; 2; 3]; [4]] [2; 0; 0; 0; 3; 0; 0; 0; 1; 2; 3; 1; 0; 0; 0; 4]) as [H1 H2].
  - constructor; [apply bytes_okb; reflexivity|]. constructor; [apply bytes_okb; reflexivity|constructor].
  - exact Hraw.
  - destruct (H1 _ He) as (b & Hp & Hb). destruct (H2 b Hp) as [Hr _].
    exists [2; 0; 0; 0; 3; 0; 0; 0; 1; 2; 3; 1; 0; 0; 0; 4], b.
    split; [exact He|]. split; [exact Hp|]. split; [exact Hb|exact Hr].
Defined.

(** ** No decoder panics *)
Lemma np_require_exact a b : require_exact a b <> Panic.
Proof. unfold require_exact. no_panic. Qed.
#[export] Hint Resolve np_require_exact : nopanic.
Lemma np_decode_tx b : decode_tx b <> Panic.
Proof.
  unfold decode_tx, CoinbaseTx_decode, TransferTx_decode, AnnouncementTx_decode, AuthorNote_decode. no_panic.
Qed.
Lemma np_parse_records n raw : forall off, parse_records n raw off <> Panic.
Proof. induction n as [|n IH]; intros off; cbn [parse_records]; unfold parse_record; no_panic. Qed.
#[export] Hint Resolve np_decode_tx np_parse_records : nopanic.
Lemma np_BlockBody_parse raw : BlockBody_parse raw <> Panic.
Proof. unfold BlockBody_parse. no_panic. Qed.
Lemma np_CoinbaseTx_encode c : CoinbaseTx_encode c <> Panic.
Proof. unfold CoinbaseTx_encode, AuthorNote_encode. no_panic. Qed.
Lemma np_AnnouncementTx_encode_unsigned a : AnnouncementTx_encode_unsigned a <> Panic.
Proof. unfold AnnouncementTx_encode_unsigned, AnnouncementTx_check_payload_len. no_panic. Qed.
#[export] Hint Resolve np_BlockBody_parse np_CoinbaseTx_encode np_AnnouncementTx_encode_unsigned : nopanic.
