(* ===== verification/Crypto.v ===== *)
(** The protocol's hashes and signatures (src/lib/consensus/src/crypto.rs, the
    [txid] methods of codec.rs and the hash layer of pow.rs). Every hash is a
    sequence of [Hasher::update] calls; the lemmas give the byte string each one
    hashes, and the theorems show that string determines the object signed.
    ed25519 is a parameter of the signature checks. *)

From Stdlib Require Import ZArith Lia List.
From stdpp Require Import base list numbers.
From S2P Require Import Prelude Constants Work Blake3 Codec.
Open Scope Z_scope.

(** [Hasher::new()], a sequence of [update]s, then [finalize()]. *)
Definition hash_updates (parts : list bytes) : bytes :=
  Hasher_finalize (fold_left Hasher_update parts Hasher_new).

Definition header_hash (header_bytes : bytes) : bytes := hash header_bytes.
Definition Header_hash (h : Header) : bytes := header_hash (Header_encode h).
Definition txid (canonical_unsigned : bytes) : bytes := hash_updates [DOMAIN_TXID; canonical_unsigned].

Definition signing_message_with_chain_id (chain_id from_pub to : bytes) (amount fee nonce : Z) : bytes :=
  hash_updates [DOMAIN_TX_SIGN; chain_id; from_pub; to; le_bytes 16 amount; le_bytes 16 fee; le_bytes 8 nonce].
Definition signing_message (network : Network) (from_pub to : bytes) (amount fee nonce : Z) : bytes :=
  signing_message_with_chain_id (Network_chain_id network) from_pub to amount fee nonce.
Definition transfer_signing_message (network : Network) (tx : TransferTx) : bytes :=
  signing_message network (t_from_pub tx) (t_to tx) (t_amount tx) (t_fee tx) (t_nonce tx).

Definition merkle_leaf (tx_bytes : bytes) : bytes := hash_updates [DOMAIN_MERKLE_LEAF; tx_bytes].
Definition merkle_node (left right : bytes) (duplicated : bool) : bytes :=
  hash_updates [DOMAIN_MERKLE_NODE; [if duplicated then MERKLE_FLAG_DUP else MERKLE_FLAG_PAIR]; left; right].

Definition announcement_signing_message_explicit_length
    (chain_id from_pub : bytes) (fee nonce encoding length : Z) (payload : bytes) : bytes :=
  hash_updates [DOMAIN_NOTE_SIGN; chain_id; from_pub; le_bytes 16 fee; le_bytes 8 nonce; [encoding];
                le_bytes 2 length; payload].
Definition announcement_signing_message_with_chain_id
    (chain_id from_pub : bytes) (fee nonce encoding : Z) (payload : bytes) : outcome CodecError bytes :=
  let len := Zlen payload in
  guard! negb (announcement_len_ok len) else AnnouncementLength len ;;
  Ok (announcement_signing_message_explicit_length chain_id from_pub fee nonce encoding (wrap 16 len) payload).
Definition announcement_signing_message (network : Network) (from_pub : bytes) (fee nonce encoding : Z)
    (payload : bytes) : outcome CodecError bytes :=
  announcement_signing_message_with_chain_id (Network_chain_id network) from_pub fee nonce encoding payload.
Definition announcement_message_of (network : Network) (tx : AnnouncementTx) : outcome CodecError bytes :=
  announcement_signing_message network (a_from_pub tx) (a_fee tx) (a_nonce tx) (a_encoding tx) (a_payload tx).

Definition address_payload (pubkey : bytes) : bytes := slice (hash pubkey) 0 ADDRESS_PAYLOAD_BYTES.

Definition TransferTx_txid (t : TransferTx) : bytes := txid (TransferTx_encode_unsigned t).
Definition AnnouncementTx_txid (a : AnnouncementTx) : outcome CodecError bytes :=
  let? b := AnnouncementTx_encode_unsigned a in Ok (txid b).
Definition CoinbaseTx_txid (c : CoinbaseTx) : outcome CodecError bytes :=
  let? b := CoinbaseTx_encode c in Ok (txid b).

Inductive SigError := InvalidPubkey | InvalidSignature.

(** The ed25519 library: key parsing and strict verification. *)
Class Ed25519 := {
  VerifyingKey : Type;
  vk_from_bytes : bytes -> option VerifyingKey;
  verify_strict : VerifyingKey -> bytes -> bytes -> bool;
}.

Definition verify_signature `{Ed25519} (pubkey message sig : bytes) : outcome SigError unit :=
  let? vk := ok_or (vk_from_bytes pubkey) InvalidPubkey in
  guard! negb (verify_strict vk message sig) else InvalidSignature ;;
  Ok tt.
Definition verify_transfer_signature `{Ed25519} (network : Network) (tx : TransferTx) : outcome SigError unit :=
  verify_signature (t_from_pub tx) (transfer_signing_message network tx) (t_sig tx).
Definition verify_announcement_signature `{Ed25519} (network : Network) (tx : AnnouncementTx) : outcome SigError unit :=
  let? msg := map_err (fun _ => InvalidSignature) (announcement_message_of network tx) in
  verify_signature (a_from_pub tx) msg (a_sig tx).

(** ** The hash layer of proof of work (pow.rs) *)
Definition DOMAIN_POW_SEED : bytes := [80; 76; 78; 69; 45; 112; 111; 119; 45; 115; 101; 101; 100].
Definition DOMAIN_POW_FINAL : bytes := [80; 76; 78; 69; 45; 112; 111; 119; 45; 102; 105; 110; 97; 108].

Definition pow_seed (header : bytes) : Z :=
  from_le (slice (hash_updates [DOMAIN_POW_SEED; header]) 0 8).
Definition pow_hash (header : bytes) (isochron_digest : Z) : bytes :=
  hash_updates [DOMAIN_POW_FINAL; header; le_bytes 8 isochron_digest].
Definition pow_meets (pow_hash_be target_be : bytes) : bool := bytes_leb pow_hash_be target_be.

(** ** What is hashed *)
Lemma hash_updates_concat parts : hash_updates parts = hash (concat parts).
Proof. apply hash_pieces. Qed.

Lemma length_concat_words l : Zlen (concat (le_bytes 4 <$> l)) = 4 * Zlen l.
Proof. induction l as [|x l IH]; [done|]. cbn [fmap list_fmap concat]. change (list_fmap ?f) with (fmap (M := list) f). zlen. lia. Qed.

Lemma concat_words_ok l : bytes_ok (concat (le_bytes 4 <$> l)).
Proof.
  induction l as [|x l IH]; [constructor|]. cbn [fmap list_fmap concat].
  apply Forall_app. split; [apply le_bytes_ok|done].
Qed.

(** Every digest is 32 bytes. *)
Lemma hash_is_hash b : hash_ok (hash b).
Proof.
  unfold hash, Hasher_finalize. set (o := fold_left _ _ _). clearbody o. unfold Output_root_hash.
  set (w := compress _ _ _ _ _). assert (length w = 16%nat) as Hw.
  { subst w. unfold compress. rewrite length_app, !length_fmap. done. }
  clearbody w. split; [apply concat_words_ok|]. rewrite length_concat_words. unfold Zlen. rewrite length_take. lia.
Qed.

Lemma hash_updates_is_hash parts : hash_ok (hash_updates parts).
Proof. rewrite hash_updates_concat. apply hash_is_hash. Qed.

(** Two different inputs with the same digest. *)
Definition blake3_collision : Prop := exists x y, x <> y /\ hash x = hash y.

Lemma hash_inj x y : hash x = hash y -> x = y \/ blake3_collision.
Proof. intros H. destruct (decide (x = y)) as [|Hn]; [by left|]. right. by exists x, y. Qed.

Lemma hash_updates_inj p q : hash_updates p = hash_updates q -> concat p = concat q \/ blake3_collision.
Proof. rewrite !hash_updates_concat. apply hash_inj. Qed.

(** From here on a digest is only known by its input. *)
#[global] Opaque hash_updates hash.

(** Splitting equal concatenations at a field of known length. *)
Lemma app_inj_len (a a' b b' : bytes) : Zlen a = Zlen a' -> a ++ b = a' ++ b' -> a = a' /\ b = b'.
Proof. intros Hl. unfold Zlen in Hl. apply Nat2Z.inj in Hl. by apply app_inj_1. Qed.

Lemma le_bytes_inj n w x y :
  w = 8 * Z.of_nat n -> 0 <= x < 2 ^ w -> 0 <= y < 2 ^ w -> le_bytes n x = le_bytes n y -> x = y.
Proof. intros Hw Hx Hy He. rewrite <-(from_le_field n w x Hw Hx), <-(from_le_field n w y Hw Hy). by rewrite He. Qed.

Ltac split_fields H :=
  repeat match type of H with
  | ?a ++ _ = ?b ++ _ =>
    let H1 := fresh "F" in apply app_inj_len in H as [H1 H]; [|zlen; lia]
  end.

Lemma signing_preimage_inj t u :
  transfer_wf t -> transfer_wf u ->
  t_from_pub t ++ t_to t ++ le_bytes 16 (t_amount t) ++ le_bytes 16 (t_fee t) ++ le_bytes 8 (t_nonce t) =
  t_from_pub u ++ t_to u ++ le_bytes 16 (t_amount u) ++ le_bytes 16 (t_fee u) ++ le_bytes 8 (t_nonce u) ->
  t_from_pub t = t_from_pub u /\ t_to t = t_to u /\ t_amount t = t_amount u /\ t_fee t = t_fee u /\ t_nonce t = t_nonce u.
Proof.
  intros ([_ P1] & [_ Q1] & A1 & F1 & N1 & _) ([_ P2] & [_ Q2] & A2 & F2 & N2 & _) H. split_fields H.
  apply (le_bytes_inj 8 64) in H; [|done..]. apply (le_bytes_inj 16 128) in F3, F4; try done.
Qed.

(** A transfer's signature covers the whole transfer: two transfers with the
    same signing message agree on sender, recipient, amount, fee and nonce (or
    the two preimages are an explicit BLAKE3 collision), and the same holds for
    their transaction ids, so a signature cannot be moved to another transfer. *)
Theorem transfer_message_binds (net : Network) (t u : TransferTx) :
  transfer_wf t -> transfer_wf u ->
  transfer_signing_message net t = transfer_signing_message net u \/ TransferTx_txid t = TransferTx_txid u ->
  (t_from_pub t = t_from_pub u /\ t_to t = t_to u /\ t_amount t = t_amount u /\ t_fee t = t_fee u /\
   t_nonce t = t_nonce u) \/ blake3_collision.
Proof.
  intros Ht Hu [H|H].
  - unfold transfer_signing_message, signing_message, signing_message_with_chain_id in H.
    apply hash_updates_inj in H as [H|H]; [left|by right]. cbn [concat] in H. rewrite !app_nil_r in H.
    apply app_inv_head, app_inv_head in H. by apply signing_preimage_inj.
  - unfold TransferTx_txid, txid in H.
    apply hash_updates_inj in H as [H|H]; [left|by right]. cbn [concat] in H. rewrite !app_nil_r in H.
    apply app_inv_head in H. unfold TransferTx_encode_unsigned in H. apply app_inv_head in H.
    by apply signing_preimage_inj.
Qed.

Definition sample_transfer : TransferTx :=
  MkTransferTx (replicate 32 3) (replicate 20 4) 1000 5 1 (replicate 64 9).
Lemma sample_transfer_wf : transfer_wf sample_transfer.
Proof. repeat split; first [reflexivity | apply bytes_okb; reflexivity | vm_compute; discriminate]. Qed.

Lemma transfer_message_binds_witness :
  (t_from_pub sample_transfer = t_from_pub sample_transfer /\ t_to sample_transfer = t_to sample_transfer /\
   t_amount sample_transfer = t_amount sample_transfer /\ t_fee sample_transfer = t_fee sample_transfer /\
   t_nonce sample_transfer = t_nonce sample_transfer) \/ blake3_collision.
Proof.
  apply (transfer_message_binds Main sample_transfer sample_transfer).
  - exact sample_transfer_wf.
  - exact sample_transfer_wf.
  - left. reflexivity.
Defined.

(** The announcement message commits to the payload and its length. *)
Lemma announcement_message_binds net a b m :
  announcement_wf a -> announcement_wf b ->
  announcement_message_of net a = Ok m -> announcement_message_of net b = Ok m ->
  (a_from_pub a = a_from_pub b /\ a_fee a = a_fee b /\ a_nonce a = a_nonce b /\ a_encoding a = a_encoding b /\
   a_payload a = a_payload b) \/ blake3_collision.
Proof.
  intros ([_ P1] & F1 & N1 & E1 & Y1 & L1 & _) ([_ P2] & F2 & N2 & E2 & Y2 & L2 & _) Ha Hb.
  unfold announcement_message_of, announcement_signing_message, announcement_signing_message_with_chain_id in *.
  rewrite L1 in Ha. rewrite L2 in Hb. cbn [negb] in Ha, Hb. rewrite <-Ha in Hb. apply Ok_inj in Hb as H.
  unfold announcement_signing_message_explicit_length in H.
  apply hash_updates_inj in H as [H|H]; [left|by right]. cbn [concat] in H. rewrite !app_nil_r in H.
  apply app_inv_head, app_inv_head in H. symmetry in H. split_fields H.
  apply (le_bytes_inj 8 64) in F3; [|done..]. apply (le_bytes_inj 16 128) in F0; [|done..].
  clear Ha Hb. simplify_eq. done.
Qed.
