(* ===== verification/Bech32m.v ===== *)
(** Addresses (src/lib/consensus/src/bech32m.rs and the address functions of crypto.rs): the checksum over five-bit symbols, the
    regrouping of bits, the text form and its parser. Text is the list of its bytes; the parser refuses every byte outside
    printable ASCII before it cuts the text, so the positions of characters and of bytes agree. *)

From Stdlib Require Import ZArith Lia List Btauto.
From stdpp Require Import base list numbers.
From S2P Require Import Prelude Constants Hex Codec Crypto.
Import ListNotations.
Open Scope Z_scope.

(** ** bech32m.rs *)
Definition CHARSET : bytes :=
  [113; 112; 122; 114; 121; 57; 120; 56; 103; 102; 50; 116; 118; 100; 119; 48;
   115; 51; 106; 110; 53; 52; 107; 104; 99; 101; 54; 109; 117; 97; 55; 108].
Definition GEN : list Z := [0x3b6a57b2; 0x26508e6d; 0x1ea119fa; 0x3d4233dd; 0x2a1462b3].
Definition BECH32M_CONST : Z := 0x2bc830a3.
Definition MAX_STRING_LEN : Z := 90.
Definition MAX_HRP_LEN : Z := 83.
Definition CHECKSUM_CHARS : Z := 6.

Inductive Bech32Error :=
| TooLong (len : Z) | BTooShort | MixedCase | NoSeparator | EmptyHrp | HrpTooLong (len : Z)
| HrpChar (index byte : Z) | DataChar (index byte : Z) | BadChecksum | BadPadding.

Definition gen_step (top : Z) (chk : Z) (ig : nat * Z) : Z :=
  if Z.land (Z.shiftr top (Z.of_nat (fst ig))) 1 =? 1 then Z.lxor chk (snd ig) else chk.
Definition polymod_step (chk v : Z) : Z :=
  let top := Z.shiftr chk 25 in
  let chk := Z.lxor (wrap 32 (Z.shiftl (Z.land chk 0x1ffffff) 5)) v in
  fold_left (gen_step top) (zip (seq 0 5) GEN) chk.
Definition polymod (values : list Z) : Z := fold_left polymod_step values 1.
Definition hrp_expand (hrp : bytes) : list Z :=
  ((fun c => Z.shiftr c 5) <$> hrp) ++ [0] ++ ((fun c => Z.land c 31) <$> hrp).

(** The inner loop of the regrouping: symbols of [w] bits are taken from the front while there are enough; each round takes some bits
    away, so [bits] rounds are enough. *)
Fixpoint emit (w : Z) (fuel : nat) (out : list Z) (acc bits : Z) : list Z * Z :=
  match fuel with
  | O => (out, bits)
  | S fuel =>
    if w <=? bits then emit w fuel (out ++ [Z.land (Z.shiftr acc (bits - w)) (2 ^ w - 1)]) acc (bits - w)
    else (out, bits)
  end.
Definition regroup_step (from to : Z) (s : list Z * Z * Z) (v : Z) : list Z * Z * Z :=
  let '(out, acc, bits) := s in
  let acc := Z.lor (wrap 32 (Z.shiftl acc from)) v in
  let bits := bits + from in
  let '(out, bits) := emit to (Z.to_nat bits) out acc bits in
  (out, acc, bits).
Definition convert_8_to_5 (data : bytes) : list Z :=
  let '(out, acc, bits) := fold_left (regroup_step 8 5) data ([], 0, 0) in
  if 0 <? bits then out ++ [Z.land (wrap 32 (Z.shiftl acc (5 - bits))) 31] else out.
(** The index of the first symbol that has more than five bits. *)
Fixpoint check_symbols (index : Z) (data : list Z) : outcome Bech32Error unit :=
  match data with
  | [] => Ok tt
  | v :: data =>
    guard! negb (Z.shiftr v 5 =? 0) else DataChar index v ;;
    check_symbols (index + 1) data
  end.
Definition convert_5_to_8 (data : list Z) : outcome Bech32Error bytes :=
  let? _ := check_symbols 0 data in
  let '(out, acc, bits) := fold_left (regroup_step 5 8) data ([], 0, 0) in
  guard! (5 <=? bits) || negb (Z.land (wrap 32 (Z.shiftl acc (8 - bits))) 0xff =? 0) else BadPadding ;;
  Ok out.

Definition is_ascii_uppercase (b : Z) : bool := (65 <=? b) && (b <=? 90).
Definition is_ascii_lowercase (b : Z) : bool := (97 <=? b) && (b <=? 122).
Definition printable (b : Z) : bool := (33 <=? b) && (b <=? 126).
Fixpoint check_hrp (index : Z) (hrp : bytes) : outcome Bech32Error unit :=
  match hrp with
  | [] => Ok tt
  | byte :: hrp =>
    guard! negb (printable byte) || is_ascii_uppercase byte else HrpChar index byte ;;
    check_hrp (index + 1) hrp
  end.
Definition checksum_symbol (pm i : Z) : Z := Z.land (Z.shiftr pm (5 * (5 - i))) 31.
Definition encode_fes_with_const (hrp : bytes) (data5 : list Z) (konst : Z) : outcome Bech32Error bytes :=
  guard! Zlen hrp =? 0 else EmptyHrp ;;
  guard! MAX_HRP_LEN <? Zlen hrp else HrpTooLong (Zlen hrp) ;;
  let? _ := check_hrp 0 hrp in
  let? _ := check_symbols 0 data5 in
  let total := Zlen hrp + 1 + Zlen data5 + CHECKSUM_CHARS in
  guard! MAX_STRING_LEN <? total else TooLong total ;;
  let pm := Z.lxor (polymod (hrp_expand hrp ++ data5 ++ replicate (Z.to_nat CHECKSUM_CHARS) 0)) konst in
  Ok (hrp ++ [49] ++ (byte_at CHARSET <$> data5) ++ ((fun i => byte_at CHARSET (checksum_symbol pm i)) <$> zrange 0 CHECKSUM_CHARS)).
Definition encode_fes (hrp : bytes) (data5 : list Z) : outcome Bech32Error bytes := encode_fes_with_const hrp data5 BECH32M_CONST.

Fixpoint check_text (index : Z) (s : bytes) (has_lower has_upper : bool) : outcome Bech32Error (bool * bool) :=
  match s with
  | [] => Ok (has_lower, has_upper)
  | byte :: s =>
    guard! negb (printable byte) else HrpChar index byte ;;
    check_text (index + 1) s (has_lower || is_ascii_lowercase byte) (has_upper || is_ascii_uppercase byte)
  end.
(** [str::rfind] of a one-byte character. *)
Fixpoint rfind (c : Z) (s : bytes) : option Z :=
  match s with
  | [] => None
  | b :: s =>
    match rfind c s with
    | Some i => Some (i + 1)
    | None => if b =? c then Some 0 else None
    end
  end.
(** [iter().position] in the character set. *)
Fixpoint char_index (i : Z) (set : bytes) (byte : Z) : option Z :=
  match set with
  | [] => None
  | x :: set => if x =? byte then Some i else char_index (i + 1) set byte
  end.
Fixpoint decode_chars (index : Z) (s : bytes) : outcome Bech32Error (list Z) :=
  match s with
  | [] => Ok []
  | byte :: s =>
    let? idx := ok_or (char_index 0 CHARSET byte) (DataChar index byte) in
    let? rest := decode_chars (index + 1) s in
    Ok (idx :: rest)
  end.
Definition decode_fes (s : bytes) : outcome Bech32Error (bytes * list Z) :=
  guard! MAX_STRING_LEN <? Zlen s else TooLong (Zlen s) ;;
  let? (has_lower, has_upper) := check_text 0 s false false in
  guard! has_lower && has_upper else MixedCase ;;
  let lowered := ascii_lower <$> s in
  let? pos := ok_or (rfind 49 lowered) NoSeparator in
  guard! pos =? 0 else EmptyHrp ;;
  guard! MAX_HRP_LEN <? pos else HrpTooLong pos ;;
  guard! Zlen lowered - pos - 1 <? CHECKSUM_CHARS else BTooShort ;;
  let hrp := slice lowered 0 pos in
  let? data5 := decode_chars (pos + 1) (slice lowered (pos + 1) (Zlen lowered)) in
  guard! negb (polymod (hrp_expand hrp ++ data5) =? BECH32M_CONST) else BadChecksum ;;
  Ok (hrp, slice data5 0 (Zlen data5 - CHECKSUM_CHARS)).
Definition encode_bytes (hrp data : bytes) : outcome Bech32Error bytes := encode_fes hrp (convert_8_to_5 data).
Definition decode_bytes (s : bytes) : outcome Bech32Error (bytes * bytes) :=
  let? (hrp, data5) := decode_fes s in
  let? bytes := convert_5_to_8 data5 in
  Ok (hrp, bytes).

(** ** crypto.rs *)
Inductive AddressError := NotBech32m | WrongHrp | WrongPayloadLength (got : Z).
(** [expect] of the encoder. *)
Definition encode_address (payload : bytes) : outcome AddressError bytes :=
  match encode_bytes ADDRESS_HRP payload with
  | Ok s => Ok s
  | Err _ | Panic => Panic
  end.
Definition address_from_pubkey (pubkey : bytes) : outcome AddressError bytes := encode_address (address_payload pubkey).
Definition decode_address (s : bytes) : outcome AddressError bytes :=
  let? (hrp, bytes) := map_err (fun _ => NotBech32m) (decode_bytes s) in
  guard! negb (bytes_eqb hrp ADDRESS_HRP) else WrongHrp ;;
  let got := Zlen bytes in
  guard! negb (got =? ADDRESS_PAYLOAD_BYTES) else WrongPayloadLength got ;;
  Ok bytes.

(** ** The checksum is linear *)
(** What a step adds for the bits that leave at the top. *)
Definition top_terms (chk : Z) : Z := fold_left (gen_step (Z.shiftr chk 25)) (zip (seq 0 5) GEN) 0.
Definition pm_shift (chk : Z) : Z := Z.lxor (Z.shiftl (Z.land chk 0x1ffffff) 5) (top_terms chk).
Abbreviation sel b g := (if b : bool then g else 0).
Lemma sel_xorb a b g : sel (xorb a b) g = Z.lxor (sel a g) (sel b g).
Proof. destruct a, b; cbn; by rewrite ?Z.lxor_0_r, ?Z.lxor_nilpotent. Qed.
Lemma gen_step_sel top chk ig : gen_step top chk ig = Z.lxor chk (sel (Z.testbit top (Z.of_nat (fst ig))) (snd ig)).
Proof.
  unfold gen_step. change 1 with (Z.ones 1) at 1. rewrite Z.land_ones by lia. change (2 ^ 1) with 2. rewrite <- Z.bit0_mod, Z.shiftr_spec by lia. rewrite Z.add_0_l.
  destruct (Z.testbit top _); cbn; [done|by rewrite Z.lxor_0_r].
Qed.
Lemma fold_gen top gs : forall chk, fold_left (gen_step top) gs chk = Z.lxor chk (fold_left (gen_step top) gs 0).
Proof.
  induction gs as [|g gs IH]; intros chk; cbn [fold_left]; [by rewrite Z.lxor_0_r|]. rewrite IH, (IH (gen_step top 0 g)), !gen_step_sel. by rewrite Z.lxor_0_l, Z.lxor_assoc.
Qed.
Lemma land_25 chk : 0 <= Z.land chk 0x1ffffff < 2 ^ 25.
Proof. apply land_bound; lia. Qed.
Lemma shift_30 x : 0 <= x < 2 ^ 25 -> 0 <= Z.shiftl x 5 < 2 ^ 30.
Proof. rewrite Z.shiftl_mul_pow2 by lia. lia. Qed.
Lemma polymod_step_eq chk v : polymod_step chk v = Z.lxor v (pm_shift chk).
Proof.
  unfold polymod_step, pm_shift, top_terms. cbv zeta. rewrite fold_gen. rewrite wrap_small by (pose proof (shift_30 _ (land_25 chk)); lia). by rewrite (Z.lxor_comm _ v), Z.lxor_assoc.
Qed.
Lemma top_terms_sel chk : top_terms chk = Z.lxor (Z.lxor (Z.lxor (Z.lxor (sel (Z.testbit chk 25) 0x3b6a57b2) (sel (Z.testbit chk 26) 0x26508e6d))
  (sel (Z.testbit chk 27) 0x1ea119fa)) (sel (Z.testbit chk 28) 0x3d4233dd)) (sel (Z.testbit chk 29) 0x2a1462b3).
Proof. unfold top_terms. cbn [GEN seq zip zip_with fold_left]. rewrite !gen_step_sel. cbn [fst snd]. rewrite !Z.shiftr_spec by lia. by rewrite Z.lxor_0_l. Qed.
Lemma top_terms_lxor a b : top_terms (Z.lxor a b) = Z.lxor (top_terms a) (top_terms b).
Proof. rewrite !top_terms_sel, !Z.lxor_spec, !sel_xorb. apply Z.bits_inj'. intros n _. rewrite !Z.lxor_spec. btauto. Qed.
Lemma pm_shift_lxor a b : pm_shift (Z.lxor a b) = Z.lxor (pm_shift a) (pm_shift b).
Proof.
  unfold pm_shift. rewrite top_terms_lxor. apply Z.bits_inj'. intros n Hn. rewrite !Z.lxor_spec, !Z.shiftl_spec, !Z.land_spec, Z.lxor_spec by done. btauto.
Qed.
Abbreviation u30 x := (0 <= x < 2 ^ 30).
Abbreviation symbol v := (0 <= v < 32).
Abbreviation symbols vs := (Forall (fun v => symbol v) vs).
Lemma sel_u30 b g : u30 g -> u30 (sel b g).
Proof. destruct b; lia. Qed.
Lemma pm_shift_u30 chk : u30 (pm_shift chk).
Proof.
  unfold pm_shift. apply lxor_bound; [lia|apply shift_30, land_25|]. rewrite top_terms_sel. repeat (apply lxor_bound; [lia| |]); apply sel_u30; lia.
Qed.
Lemma step_u30 chk v : symbol v -> u30 (polymod_step chk v).
Proof. intros Hv. rewrite polymod_step_eq. apply lxor_bound; [lia|lia|apply pm_shift_u30]. Qed.
Lemma polymod_u30 vs : symbols vs -> u30 (polymod vs).
Proof.
  unfold polymod. assert (H : u30 1) by lia. revert H. generalize 1. induction vs as [|v vs IH]; intros s Hs Hv; [done|]. apply list.Forall_cons in Hv as [Hv Hvs]. cbn [fold_left]. apply IH; [by apply step_u30|done].
Qed.
(** Below [2^25] nothing leaves at the top. *)
Lemma step_small chk v : 0 <= chk < 2 ^ 25 -> symbol v -> polymod_step chk v = chk * 32 + v.
Proof.
  intros Hc Hv. rewrite polymod_step_eq. unfold pm_shift. rewrite top_terms_sel. rewrite !(testbit_high 25) by lia. cbn [Z.lxor]. rewrite Z.lxor_0_r.
  change 0x1ffffff with (2 ^ 25 - 1). rewrite land_mask, Z.mod_small by lia. rewrite Z.shiftl_mul_pow2 by lia. change (2 ^ 5) with 32. rewrite <- Z.add_nocarry_lxor; [lia|].
  apply Z.bits_inj'. intros n Hn. rewrite Z.land_spec, Z.bits_0. destruct (Z.lt_ge_cases n 5).
  - change 32 with (2 ^ 5). rewrite Z.mul_pow2_bits_low by lia. apply andb_false_r.
  - by rewrite (testbit_high 5 v) by lia.
Qed.
(** The terms of the top bits differ in their low five bits, so a step loses nothing. *)
Lemma top_terms_low x : u30 x -> top_terms x mod 32 = 0 -> x < 2 ^ 25.
Proof.
  intros Hx Ht. assert (Hhi : top_terms x = top_terms (Z.shiftl (Z.shiftr x 25) 25)).
  { rewrite !top_terms_sel. rewrite !Z.shiftl_spec, !Z.shiftr_spec by lia. repeat f_equal. }
  assert (Hb : 0 <= Z.shiftr x 25 < 32) by (rewrite Z.shiftr_div_pow2 by lia; split; [apply Z.div_pos; lia|apply Z.div_lt_upper_bound; lia]).
  assert (Hall : forallb (fun hi => (hi =? 0) || negb (top_terms (Z.shiftl hi 25) mod 32 =? 0)) (zrange 0 32) = true) by (vm_compute; reflexivity).
  rewrite forallb_forall in Hall. specialize (Hall (Z.shiftr x 25) ltac:(apply in_zrange; lia)). rewrite <- Hhi, Ht in Hall. cbn in Hall. rewrite orb_false_r in Hall. apply Z.eqb_eq in Hall.
  rewrite Z.shiftr_div_pow2 in Hall by lia. apply Z.div_small_iff in Hall; lia.
Qed.
Lemma pm_shift_kernel x : u30 x -> pm_shift x = 0 -> x = 0.
Proof.
  intros Hx H0. apply Z.lxor_eq in H0 as He. assert (Hlow : top_terms x mod 32 = 0) by (rewrite <- He, Z.shiftl_mul_pow2 by lia; apply Z.mod_mul; lia).
  apply top_terms_low in Hlow; [|done]. rewrite top_terms_sel, !(testbit_high 25) in He by lia. change 0x1ffffff with (2 ^ 25 - 1) in He. rewrite land_mask, Z.mod_small in He by lia.
  rewrite Z.shiftl_mul_pow2 in He by lia. rewrite !Z.lxor_0_r in He. lia.
Qed.
Lemma step_inj a b v : u30 a -> u30 b -> polymod_step a v = polymod_step b v -> a = b.
Proof.
  intros Ha Hb. rewrite !polymod_step_eq. intros He. apply Z.lxor_eq, pm_shift_kernel; [by apply lxor_bound|]. rewrite pm_shift_lxor. apply Z.lxor_eq_0_iff.
  apply (f_equal (Z.lxor v)) in He. by rewrite <- !Z.lxor_assoc, !Z.lxor_nilpotent, !Z.lxor_0_l in He.
Qed.

(** ** Folding over many symbols *)
Abbreviation pm_fold s vs := (fold_left polymod_step vs s).
Lemma pm_fold_inj vs : forall a b, symbols vs -> u30 a -> u30 b -> pm_fold a vs = pm_fold b vs -> a = b.
Proof.
  induction vs as [|v vs IH]; intros a b Hv Ha Hb He; [done|]. apply list.Forall_cons in Hv as [Hv Hvs]. cbn [fold_left] in He. apply (step_inj _ _ v); [done..|]. apply IH; [done|by apply step_u30..|done].
Qed.
Lemma pm_fold_lxor vs : forall ws s t, length ws = length vs -> pm_fold (Z.lxor s t) (zip_with Z.lxor vs ws) = Z.lxor (pm_fold s vs) (pm_fold t ws).
Proof.
  induction vs as [|v vs IH]; intros [|w ws] s t Hl; try done. cbn [zip_with fold_left]. injection Hl as Hl. rewrite <- IH by done. f_equal. rewrite !polymod_step_eq, pm_shift_lxor.
  apply Z.bits_inj'. intros n _. rewrite !Z.lxor_spec. btauto.
Qed.
Abbreviation zeros n := (replicate n 0).
Lemma zip_zeros vs : zip_with Z.lxor (zeros (length vs)) vs = vs.
Proof. induction vs as [|v vs IH]; [done|]. cbn. by rewrite IH, Z.lxor_0_l. Qed.
Lemma pm_fold_split vs s : pm_fold s vs = Z.lxor (pm_fold s (zeros (length vs))) (pm_fold 0 vs).
Proof. rewrite <- pm_fold_lxor by (by rewrite length_replicate). by rewrite zip_zeros, Z.lxor_0_r. Qed.
(** The number whose digits are symbols. *)
Definition num5 (vs : list Z) : Z := fold_left (fun a v => a * 32 + v) vs 0.
Lemma num5_acc vs : forall a, fold_left (fun a v => a * 32 + v) vs a = a * 32 ^ Zlen vs + num5 vs.
Proof.
  unfold num5. induction vs as [|v vs IH]; intros a; cbn [fold_left]; [change (Zlen (@nil Z)) with 0; lia|]. rewrite IH, (IH (0 * 32 + v)), Zlen_cons. rewrite Z.pow_add_r by (pose proof (Zlen_nonneg vs); lia). lia.
Qed.
Lemma num5_app vs ws : num5 (vs ++ ws) = num5 vs * 32 ^ Zlen ws + num5 ws.
Proof. unfold num5 at 1. rewrite fold_left_app. apply num5_acc. Qed.
Lemma num5_snoc vs v : num5 (vs ++ [v]) = num5 vs * 32 + v.
Proof. rewrite num5_app. unfold num5 at 2. cbn [fold_left]. change (Zlen [v]) with 1. lia. Qed.
Lemma num5_bounds vs : symbols vs -> 0 <= num5 vs < 32 ^ Zlen vs.
Proof.
  induction vs as [|v vs IH] using rev_ind; intros Hv; [unfold num5; change (Zlen (@nil Z)) with 0; cbn [fold_left]; lia|]. apply Forall_app in Hv as [Hvs Hv]. apply list.Forall_cons in Hv as [Hv _]. specialize (IH Hvs). rewrite num5_snoc, Zlen_app. change (Zlen [v]) with 1.
  rewrite Z.pow_add_r by (pose proof (Zlen_nonneg vs); lia). lia.
Qed.
Lemma num5_inj vs : forall ws, length ws = length vs -> symbols vs -> symbols ws -> num5 vs = num5 ws -> vs = ws.
Proof.
  induction vs as [|v vs IH] using rev_ind; intros ws Hl Hv Hw He; [by destruct ws|]. destruct ws as [|w ws _] using rev_ind; [rewrite length_app in Hl; cbn in Hl; lia|]. rewrite !num5_snoc in He.
  apply Forall_app in Hv as [Hvs Hv], Hw as [Hws Hw]. apply list.Forall_cons in Hv as [Hv _], Hw as [Hw _]. rewrite !length_app in Hl. cbn in Hl. assert (num5 vs = num5 ws /\ v = w) as [Hn ->] by lia. f_equal. apply IH; [lia|done..].
Qed.
Lemma pm_fold_num vs : symbols vs -> (length vs <= 6)%nat -> pm_fold 0 vs = num5 vs.
Proof.
  induction vs as [|v vs IH] using rev_ind; intros Hv Hl; [done|]. apply Forall_app in Hv as [Hvs Hv]. apply list.Forall_cons in Hv as [Hv _]. rewrite length_app in Hl. cbn [length] in Hl. rewrite fold_left_app. cbn [fold_left].
  rewrite IH by (done || lia). rewrite num5_snoc. apply step_small; [|done]. pose proof (num5_bounds vs Hvs) as Hb. assert (32 ^ Zlen vs <= 32 ^ 5) by (apply Z.pow_le_mono_r; unfold Zlen; lia). lia.
Qed.
(** A change within six neighbouring symbols changes the checksum. *)
Lemma burst_changes pre run run' post : symbols pre -> symbols run -> symbols run' -> symbols post -> length run' = length run -> (length run <= 6)%nat ->
  polymod (pre ++ run ++ post) = polymod (pre ++ run' ++ post) -> run = run'.
Proof.
  unfold polymod. intros Hpre Hr Hr' Hpost Hl H6 He. rewrite !fold_left_app in He. set (s := pm_fold 1 pre) in *. assert (Hu : forall r, symbols r -> u30 s -> u30 (pm_fold s r)).
  { intros r Hsr Hs. generalize s, Hs. induction r as [|v r IH]; intros t Ht; [done|]. apply list.Forall_cons in Hsr as [Hv Hsr]. cbn [fold_left]. apply IH; [done|by apply step_u30]. }
  assert (Hs : u30 s) by (apply (polymod_u30 pre Hpre)). apply pm_fold_inj in He; [|done|by apply Hu..]. rewrite (pm_fold_split run), (pm_fold_split run'), Hl in He.
  apply (f_equal (Z.lxor (pm_fold s (zeros (length run))))) in He. rewrite <- !Z.lxor_assoc, !Z.lxor_nilpotent, !Z.lxor_0_l in He. rewrite !pm_fold_num in He by (done || lia). by apply num5_inj.
Qed.

(** ** Two wrong symbols *)
Fixpoint substitutions (a b : list Z) : nat :=
  match a, b with
  | x :: a, y :: b => (if x =? y then 0 else 1) + substitutions a b
  | _, _ => 0
  end.
Fixpoint orbit_high (n : nat) (s : Z) : bool :=
  match n with
  | O => true
  | S n => (32 <=? polymod_step s 0) && orbit_high n (polymod_step s 0)
  end.
Lemma pm_zeros_S e n : pm_fold e (zeros (S n)) = polymod_step (pm_fold e (zeros n)) 0.
Proof. rewrite replicate_S_end, fold_left_app. done. Qed.
Lemma orbit_high_spec n : forall s k, orbit_high n s = true -> (k < n)%nat -> 32 <= pm_fold s (zeros (S k)).
Proof.
  induction n as [|n IH]; intros s k Ho Hk; [lia|]. cbn [orbit_high] in Ho. apply andb_true_iff in Ho as [H1 H2]. destruct k as [|k]; [cbn [replicate fold_left]; lia|]. cbn [replicate fold_left]. apply (IH (polymod_step s 0)); [done|lia].
Qed.
(** A single error never becomes a single symbol again within the length of a text. *)
Lemma error_spreads e k : 0 < e < 32 -> (k < 90)%nat -> 32 <= pm_fold e (zeros (S k)).
Proof.
  intros He Hk. assert (H : forallb (orbit_high 90) (zrange 1 32) = true) by (vm_compute; reflexivity). rewrite forallb_forall in H. apply (orbit_high_spec 90); [|done]. apply H, in_zrange. lia.
Qed.
Abbreviation lone d := (substitutions (zeros (length d)) d).
Lemma lone_0 d : lone d = O -> d = zeros (length d).
Proof. induction d as [|v d IH]; [done|]. cbn [length replicate substitutions]. destruct (Z.eqb_spec 0 v) as [<-|]; [|done]. intros H. by rewrite <- IH. Qed.
Lemma pm_fold_u30 vs : forall s, symbols vs -> u30 s -> u30 (pm_fold s vs).
Proof. induction vs as [|v vs IH]; intros s Hv Hs; [done|]. apply list.Forall_cons in Hv as [Hv Hvs]. cbn [fold_left]. apply IH; [done|by apply step_u30]. Qed.
Lemma symbols_zeros n : symbols (zeros n).
Proof. apply Forall_replicate. lia. Qed.
Lemma pm_zeros n : pm_fold 0 (zeros n) = 0.
Proof. induction n as [|n IH]; [done|]. cbn [replicate fold_left]. by rewrite step_small by lia. Qed.
Lemma pm_zeros_0 s n : u30 s -> pm_fold s (zeros n) = 0 -> s = 0.
Proof. intros Hs H. apply (pm_fold_inj (zeros n)); [apply symbols_zeros|done|lia|]. by rewrite pm_zeros. Qed.
Lemma one_more_error e d : forall k, 0 < e < 32 -> symbols d -> (lone d <= 1)%nat -> (k + length d <= 90)%nat -> pm_fold (pm_fold e (zeros k)) d <> 0.
Proof.
  induction d as [|v d IH]; intros k He Hd Hl Hk H0; cbn [fold_left] in H0.
  { apply pm_zeros_0 in H0; lia. }
  apply list.Forall_cons in Hd as [Hv Hd]. cbn [length replicate substitutions] in Hl, Hk. destruct (Z.eqb_spec 0 v) as [<-|Hne].
  { rewrite <- pm_zeros_S in H0. by apply IH in H0; [|done..|lia]. }
  rewrite (lone_0 d) in H0 by lia. apply pm_zeros_0 in H0; [|by apply step_u30]. rewrite polymod_step_eq in H0. apply Z.lxor_eq in H0. pose proof (error_spreads e k He ltac:(lia)) as Hs.
  rewrite pm_zeros_S, polymod_step_eq, Z.lxor_0_l, <- H0 in Hs. lia.
Qed.
Lemma two_errors d : symbols d -> (lone d <= 2)%nat -> (length d <= 90)%nat -> pm_fold 0 d = 0 -> lone d = O.
Proof.
  induction d as [|v d IH]; intros Hd Hl Hk H0; [done|]. apply list.Forall_cons in Hd as [Hv Hd]. cbn [length replicate substitutions fold_left] in *. rewrite step_small in H0 by lia. destruct (Z.eqb_spec 0 v) as [<-|Hne]; [apply IH; (done || lia)|].
  exfalso. apply (one_more_error v d 0) in H0; (done || lia).
Qed.
Lemma lone_zip vs : forall ws, length ws = length vs -> lone (zip_with Z.lxor vs ws) = substitutions vs ws.
Proof.
  induction vs as [|v vs IH]; intros [|w ws] Hl; try done. cbn [zip_with length replicate substitutions]. injection Hl as Hl. rewrite IH by done. f_equal. destruct (Z.eqb_spec v w) as [->|Hne]; [by rewrite Z.lxor_nilpotent|].
  destruct (Z.eqb_spec 0 (Z.lxor v w)) as [H|]; [symmetry in H; by apply Z.lxor_eq in H|done].
Qed.
Lemma substitutions_0 vs : forall ws, length ws = length vs -> substitutions vs ws = O -> vs = ws.
Proof. induction vs as [|v vs IH]; intros [|w ws] Hl H; try done. cbn [substitutions] in H. destruct (Z.eqb_spec v w) as [->|]; [|done]. f_equal. apply IH; [by injection Hl|done]. Qed.
Lemma symbols_zip vs : forall ws, symbols vs -> symbols ws -> symbols (zip_with Z.lxor vs ws).
Proof.
  induction vs as [|v vs IH]; intros [|w ws] Hv Hw; cbn [zip_with]; try constructor; apply list.Forall_cons in Hv as [Hv Hvs], Hw as [Hw Hws]; [apply (lxor_bound 5); lia|by apply IH].
Qed.
(** Two texts that differ in one or two symbols cannot both have the right checksum. *)
Lemma two_changes pre vs ws : symbols vs -> symbols ws -> length ws = length vs -> (length vs <= 90)%nat -> (substitutions vs ws <= 2)%nat ->
  polymod (pre ++ vs) = polymod (pre ++ ws) -> vs = ws.
Proof.
  unfold polymod. intros Hv Hw Hl Hn Hs He. rewrite !fold_left_app in He. set (s := pm_fold 1 pre) in *. apply substitutions_0; [done|]. rewrite <- lone_zip by done. apply two_errors.
  - by apply symbols_zip.
  - by rewrite lone_zip.
  - rewrite length_zip_with. lia.
  - pose proof (pm_fold_lxor vs ws s s Hl) as E. rewrite Z.lxor_nilpotent in E. by rewrite E, He, Z.lxor_nilpotent.
Qed.

(** ** Regrouping *)
(** [emit] takes symbols of [w] bits from the front of the [bits] low bits of [acc]: the number they spell with the rest is unchanged. *)
Definition numw (w : Z) (vs : list Z) : Z := fold_left (fun a v => a * 2 ^ w + v) vs 0.
Lemma numw_snoc w vs v : numw w (vs ++ [v]) = numw w vs * 2 ^ w + v.
Proof. unfold numw. by rewrite fold_left_app. Qed.
Abbreviation digits w vs := (Forall (fun v => 0 <= v < 2 ^ w) vs).
Lemma numw_bounds w vs : 0 <= w -> digits w vs -> 0 <= numw w vs < 2 ^ (w * Zlen vs).
Proof.
  intros Hw. induction vs as [|v vs IH] using rev_ind; intros Hv; [unfold numw; change (Zlen (@nil Z)) with 0; rewrite Z.mul_0_r; cbn [fold_left]; lia|].
  apply Forall_app in Hv as [Hvs Hv]. apply list.Forall_cons in Hv as [Hv _]. specialize (IH Hvs). rewrite numw_snoc, Zlen_app. change (Zlen [v]) with 1. rewrite Z.mul_add_distr_l, Z.mul_1_r, Z.pow_add_r by (pose proof (Zlen_nonneg vs); nia). nia.
Qed.
Lemma numw_inj w vs : forall ws, 0 <= w -> length ws = length vs -> digits w vs -> digits w ws -> numw w vs = numw w ws -> vs = ws.
Proof.
  induction vs as [|v vs IH] using rev_ind; intros ws Hw0 Hl Hv Hw He; [by destruct ws|]. destruct ws as [|x ws _] using rev_ind; [rewrite length_app in Hl; cbn in Hl; lia|]. rewrite !numw_snoc in He.
  apply Forall_app in Hv as [Hvs Hv], Hw as [Hws Hw]. apply list.Forall_cons in Hv as [Hv _], Hw as [Hw _]. rewrite !length_app in Hl. cbn in Hl. assert (numw w vs = numw w ws /\ v = x) as [Hn ->] by (apply (Z.div_mod_unique (2 ^ w)); lia). f_equal. apply IH; [done|lia|done..].
Qed.
Lemma mod_split acc b w : 0 <= b -> 0 <= w -> acc mod 2 ^ (b + w) = (acc / 2 ^ b) mod 2 ^ w * 2 ^ b + acc mod 2 ^ b.
Proof. intros Hb Hw. rewrite Z.pow_add_r by done. rewrite Z.rem_mul_r by lia. lia. Qed.
Lemma emit_spec w fuel : forall out acc bits out' bits', 0 < w -> 0 <= bits -> bits <= Z.of_nat fuel -> digits w out ->
  emit w fuel out acc bits = (out', bits') ->
  digits w out' /\ 0 <= bits' < w /\ w * Zlen out' + bits' = w * Zlen out + bits /\
  numw w out' * 2 ^ bits' + acc mod 2 ^ bits' = numw w out * 2 ^ bits + acc mod 2 ^ bits.
Proof.
  induction fuel as [|fuel IH]; intros out acc bits out' bits' Hw Hb Hf Ho He; cbn [emit] in He; [injection He as <- <-; repeat split; (done || lia)|].
  destruct (Z.leb_spec w bits) as [Hle|Hlt]; [|injection He as <- <-; repeat split; (done || lia)].
  assert (Hd : Z.land (Z.shiftr acc (bits - w)) (2 ^ w - 1) = (acc / 2 ^ (bits - w)) mod 2 ^ w) by (rewrite land_mask, Z.shiftr_div_pow2 by lia; done). rewrite Hd in He. pose proof (Z.mod_pos_bound (acc / 2 ^ (bits - w)) (2 ^ w) ltac:(lia)).
  apply IH in He as (Ho' & Hb' & Hlen & Hn); [|lia..|apply Forall_app; split; [done|repeat constructor; lia]]. split; [done|]. split; [done|]. rewrite Zlen_app in Hlen. change (Zlen [_]) with 1 in Hlen. split; [lia|].
  rewrite Hn, numw_snoc. pose proof (mod_split acc (bits - w) w ltac:(lia) ltac:(lia)) as M. replace (bits - w + w) with bits in M by lia. rewrite M.
  assert (2 ^ bits = 2 ^ w * 2 ^ (bits - w)) as -> by (rewrite <- Z.pow_add_r by lia; f_equal; lia). lia.
Qed.
Definition regrouped (from to : Z) (vs : list Z) (s : list Z * Z * Z) : Prop :=
  let '(out, acc, bits) := s in
  digits to out /\ 0 <= bits < to /\ to * Zlen out + bits = from * Zlen vs /\ numw to out * 2 ^ bits + acc mod 2 ^ bits = numw from vs.
Lemma regroup_step_ok from to vs s v : 0 < from -> 0 < to -> from + to <= 32 -> 0 <= v < 2 ^ from -> regrouped from to vs s -> regrouped from to (vs ++ [v]) (regroup_step from to s v).
Proof.
  destruct s as [[out acc] bits]. intros Hf Ht H32 Hv (Ho & Hb & Hlen & Hn). unfold regroup_step. destruct (emit to _ out _ _) as [out' bits'] eqn:E. apply emit_spec in E as (Ho' & Hb' & Hlen' & Hn'); [|lia..|done].
  split; [done|]. split; [done|]. rewrite Zlen_app. change (Zlen [v]) with 1. split; [lia|]. rewrite Hn', numw_snoc, <- Hn.
  assert (Hacc : Z.lor (wrap 32 (Z.shiftl acc from)) v mod 2 ^ (bits + from) = acc mod 2 ^ bits * 2 ^ from + v).
  { rewrite Z.lor_comm, (lor_add _ _ from); [|lia|done|].
    - unfold wrap. rewrite Z.shiftl_mul_pow2 by lia. rewrite Z.add_mod by lia. rewrite Z.mod_mod_divide by (exists (2 ^ (32 - (bits + from))); rewrite <- Z.pow_add_r by lia; f_equal; lia).
      rewrite (Z.pow_add_r 2 bits from) by lia. rewrite Zmult_mod_distr_r. rewrite (Z.mod_small v) by nia. pose proof (Z.mod_pos_bound acc (2 ^ bits) ltac:(lia)). rewrite Z.mod_small by nia. lia.
    - unfold wrap. rewrite Z.shiftl_mul_pow2 by lia. rewrite Z.mod_mod_divide by (exists (2 ^ (32 - from)); rewrite <- Z.pow_add_r by lia; f_equal; lia). apply Z.mod_mul. lia. }
  rewrite Hacc, Z.pow_add_r by lia. lia.
Qed.
Lemma regroup_ok from to vs : 0 < from -> 0 < to -> from + to <= 32 -> digits from vs -> regrouped from to vs (fold_left (regroup_step from to) vs ([], 0, 0)).
Proof.
  intros Hf Ht H32. induction vs as [|v vs IH] using rev_ind; intros Hv; [split; [constructor|]; split; [lia|]; change (Zlen (@nil Z)) with 0; split; [lia|done]|]. apply Forall_app in Hv as [Hvs Hv]. apply list.Forall_cons in Hv as [Hv _].
  rewrite fold_left_app. cbn [fold_left]. apply regroup_step_ok; [done..|by apply IH].
Qed.

Lemma check_symbols_ok vs : forall i, symbols vs -> check_symbols i vs = Ok tt.
Proof.
  induction vs as [|v vs IH]; intros i Hv; [done|]. apply list.Forall_cons in Hv as [Hv Hvs]. cbn [check_symbols]. rewrite Z.shiftr_div_pow2, Z.div_small by lia. by apply IH.
Qed.
Lemma check_symbols_inv vs : forall i, Forall (fun v => 0 <= v) vs -> check_symbols i vs = Ok tt -> symbols vs.
Proof.
  induction vs as [|v vs IH]; intros i Hp Hc; [constructor|]. apply list.Forall_cons in Hp as [Hv Hp]. cbn [check_symbols] in Hc. destruct (Z.eqb_spec (Z.shiftr v 5) 0) as [H0|]; [|done]. cbn [negb] in Hc.
  constructor; [|by eapply IH]. rewrite Z.shiftr_div_pow2 in H0 by lia. apply Z.div_small_iff in H0; lia.
Qed.
Lemma convert_8_to_5_spec data : bytes_ok data ->
  exists p, 0 <= p < 5 /\ symbols (convert_8_to_5 data) /\ 5 * Zlen (convert_8_to_5 data) = 8 * Zlen data + p /\ numw 5 (convert_8_to_5 data) = numw 8 data * 2 ^ p.
Proof.
  intros Hd. pose proof (regroup_ok 8 5 data ltac:(lia) ltac:(lia) ltac:(lia) Hd) as H. unfold convert_8_to_5. destruct (fold_left _ data _) as [[out acc] bits]. destruct H as (Ho & Hb & Hlen & Hn).
  destruct (Z.ltb_spec 0 bits).
  - exists (5 - bits). split; [lia|]. assert (Hl : Z.land (wrap 32 (Z.shiftl acc (5 - bits))) 31 = acc mod 2 ^ bits * 2 ^ (5 - bits)).
    { change 31 with (2 ^ 5 - 1). rewrite land_mask by lia. unfold wrap. rewrite Z.mod_mod_divide by (exists (2 ^ 27); done). rewrite Z.shiftl_mul_pow2 by lia. replace (2 ^ 5) with (2 ^ bits * 2 ^ (5 - bits)) by (rewrite <- Z.pow_add_r by lia; f_equal; lia). apply Zmult_mod_distr_r. }
    rewrite Hl. pose proof (Z.mod_pos_bound acc (2 ^ bits) ltac:(lia)). assert (E5 : 2 ^ bits * 2 ^ (5 - bits) = 32) by (rewrite <- Z.pow_add_r by lia; replace (bits + (5 - bits)) with 5 by lia; done).
    split; [apply Forall_app; split; [done|repeat constructor; nia]|]. rewrite Zlen_app. change (Zlen [_]) with 1. split; [lia|]. rewrite numw_snoc, <- Hn. change (2 ^ 5) with 32. rewrite <- E5. lia.
  - exists 0. split; [lia|]. split; [done|]. split; [lia|]. replace bits with 0 in Hn by lia. rewrite Z.mod_1_r in Hn. lia.
Qed.
Lemma convert_5_to_8_spec vs out : symbols vs -> convert_5_to_8 vs = Ok out -> exists p, 0 <= p < 5 /\ bytes_ok out /\ 5 * Zlen vs = 8 * Zlen out + p /\ numw 5 vs = numw 8 out * 2 ^ p.
Proof.
  intros Hv. unfold convert_5_to_8. rewrite check_symbols_ok by done. cbn [obind]. pose proof (regroup_ok 5 8 vs ltac:(lia) ltac:(lia) ltac:(lia) Hv) as H. destruct (fold_left _ vs _) as [[o acc] bits]. destruct H as (Ho & Hb & Hlen & Hn).
  destruct (Z.leb_spec 5 bits); [done|]. cbn [orb]. match goal with |- context [?a =? 0] => destruct (Z.eqb_spec a 0) as [Hz|]; [|done] end. intros [= ->]. exists bits. split; [lia|]. split; [done|]. split; [lia|].
  change 0xff with (2 ^ 8 - 1) in Hz. rewrite land_mask in Hz by lia. unfold wrap in Hz. rewrite Z.mod_mod_divide in Hz by (exists (2 ^ 24); done). rewrite Z.shiftl_mul_pow2 in Hz by lia. replace (2 ^ 8) with (2 ^ bits * 2 ^ (8 - bits)) in Hz by (rewrite <- Z.pow_add_r by lia; f_equal; lia).
  rewrite Zmult_mod_distr_r in Hz. assert (acc mod 2 ^ bits = 0) by (apply Z.mul_eq_0_l in Hz; lia). lia.
Qed.
Lemma convert_5_to_8_ok vs data p : symbols vs -> bytes_ok data -> 0 <= p < 5 -> 5 * Zlen vs = 8 * Zlen data + p -> numw 5 vs = numw 8 data * 2 ^ p -> convert_5_to_8 vs = Ok data.
Proof.
  intros Hv Hd Hp Hlen Hn. unfold convert_5_to_8. rewrite check_symbols_ok by done. cbn [obind]. pose proof (regroup_ok 5 8 vs ltac:(lia) ltac:(lia) ltac:(lia) Hv) as H. destruct (fold_left _ vs _) as [[o acc] bits]. destruct H as (Ho & Hb & Hlen' & Hn').
  assert (bits = p /\ Zlen o = Zlen data) as [-> Hl] by lia. rewrite Hn in Hn'. pose proof (Z.mod_pos_bound acc (2 ^ p) ltac:(lia)) as Hm.
  assert (numw 8 o = numw 8 data /\ acc mod 2 ^ p = 0) as [Hnum Hz] by (apply (Z.div_mod_unique (2 ^ p)); lia). destruct (Z.leb_spec 5 p); [lia|]. cbn [orb].
  assert (Hland : Z.land (wrap 32 (Z.shiftl acc (8 - p))) 0xff = 0).
  { change 0xff with (2 ^ 8 - 1). rewrite land_mask by lia. unfold wrap. rewrite Z.mod_mod_divide by (exists (2 ^ 24); done). rewrite Z.shiftl_mul_pow2 by lia. replace (2 ^ 8) with (2 ^ p * 2 ^ (8 - p)) by (rewrite <- Z.pow_add_r by lia; f_equal; lia).
    rewrite Zmult_mod_distr_r, Hz. lia. }
  rewrite Hland. cbn. f_equal. apply (numw_inj 8); [lia|unfold Zlen in Hl; lia|done..].
Qed.
(** Regrouping is a bijection between byte strings and the symbol lists that the decoder accepts. *)
Lemma regroup_roundtrip data : bytes_ok data -> convert_5_to_8 (convert_8_to_5 data) = Ok data.
Proof. intros Hd. destruct (convert_8_to_5_spec data Hd) as (p & Hp & Hs & Hlen & Hn). by apply (convert_5_to_8_ok _ _ p). Qed.
Lemma regroup_unique vs data : symbols vs -> convert_5_to_8 vs = Ok data -> bytes_ok data /\ convert_8_to_5 data = vs.
Proof.
  intros Hv Hc. apply convert_5_to_8_spec in Hc as (p & Hp & Hd & Hlen & Hn); [|done]. split; [done|]. destruct (convert_8_to_5_spec data Hd) as (p' & Hp' & Hs & Hlen' & Hn').
  assert (p' = p /\ Zlen (convert_8_to_5 data) = Zlen vs) as [-> Hl] by lia. apply (numw_inj 5); [lia|unfold Zlen in Hl; lia|done|done|congruence].
Qed.

(** ** Text *)
Abbreviation chars ds := (byte_at CHARSET <$> ds).
Lemma charset_ok v : symbol v ->
  char_index 0 CHARSET (byte_at CHARSET v) = Some v /\ printable (byte_at CHARSET v) = true /\ ascii_lower (byte_at CHARSET v) = byte_at CHARSET v /\ is_ascii_uppercase (byte_at CHARSET v) = false /\ byte_at CHARSET v <> 49.
Proof.
  intros Hv. assert (H : forallb (fun v => bool_decide (char_index 0 CHARSET (byte_at CHARSET v) = Some v) && printable (byte_at CHARSET v) && (ascii_lower (byte_at CHARSET v) =? byte_at CHARSET v)
    && negb (is_ascii_uppercase (byte_at CHARSET v)) && negb (byte_at CHARSET v =? 49)) (zrange 0 32) = true) by (vm_compute; reflexivity).
  rewrite forallb_forall in H. specialize (H v ltac:(apply in_zrange; lia)). rewrite !andb_true_iff, !negb_true_iff, bool_decide_eq_true, Z.eqb_eq, Z.eqb_neq in H. tauto.
Qed.
Lemma char_index_spec set b v : forall i, char_index i set b = Some v -> i <= v < i + Zlen set /\ byte_at set (v - i) = b.
Proof.
  induction set as [|x set IH]; intros i H; [done|]. cbn [char_index] in H. rewrite Zlen_cons. pose proof (Zlen_nonneg set). destruct (Z.eqb_spec x b) as [->|Hne].
  { injection H as <-. rewrite Z.sub_diag. split; [lia|done]. }
  apply IH in H as [Hv Hb]. split; [lia|]. rewrite <- Hb. unfold byte_at. by replace (Z.to_nat (v - i)) with (S (Z.to_nat (v - (i + 1)))) by lia.
Qed.
Lemma decode_chars_ok ds : forall i, symbols ds -> decode_chars i (chars ds) = Ok ds.
Proof.
  induction ds as [|d ds IH]; intros i Hd; [done|]. apply list.Forall_cons in Hd as [Hd Hds]. cbn [fmap list_fmap decode_chars]. destruct (charset_ok d Hd) as (-> & _). cbn [ok_or obind]. by rewrite IH.
Qed.
Lemma decode_chars_inv s : forall i ds, decode_chars i s = Ok ds -> symbols ds /\ s = chars ds.
Proof.
  induction s as [|b s IH]; intros i ds H; cbn [decode_chars] in H; [injection H as <-; split; [constructor|done]|]. destruct (char_index 0 CHARSET b) as [v|] eqn:E; [|done]. cbn [ok_or obind] in H.
  step_in H. injection H as <-. match goal with H : decode_chars _ _ = Ok _ |- _ => apply IH in H as [Hs ->] end. apply char_index_spec in E as [Hv Hb]. change (Zlen CHARSET) with 32 in Hv. rewrite Z.sub_0_r in Hb. split; [by constructor|]. cbn. by rewrite Hb.
Qed.
Lemma chars_no_separator ds : symbols ds -> ~ In 49 (chars ds).
Proof. induction ds as [|d ds IH]; intros Hd; [intros []|]. apply list.Forall_cons in Hd as [Hd Hds]. intros [H|H]; [by destruct (charset_ok d Hd) as (_ & _ & _ & _ & Hn)|by apply IH]. Qed.
Lemma rfind_none c s : ~ In c s -> rfind c s = None.
Proof. induction s as [|b s IH]; intros Hn; [done|]. cbn [rfind]. rewrite IH by (intros H; apply Hn; by right). destruct (Z.eqb_spec b c); [exfalso; apply Hn; by left|done]. Qed.
Lemma rfind_last c a b : ~ In c b -> rfind c (a ++ [c] ++ b) = Some (Zlen a).
Proof.
  intros Hn. induction a as [|x a IH]; cbn [app rfind].
  - rewrite rfind_none by done. by rewrite Z.eqb_refl.
  - cbn [app] in IH. rewrite IH, Zlen_cons. f_equal. lia.
Qed.
Lemma rfind_inv c s : forall i, rfind c s = Some i -> s = slice s 0 i ++ [c] ++ slice s (i + 1) (Zlen s) /\ Zlen (slice s 0 i) = i.
Proof.
  intros i Hi. assert (exists a b, s = a ++ [c] ++ b /\ Zlen a = i) as (a & b & -> & <-).
  { revert i Hi. induction s as [|x s IH]; intros i Hi; [done|]. cbn [rfind] in Hi. destruct (rfind c s) as [j|] eqn:E.
    - injection Hi as <-. destruct (IH j eq_refl) as (a & b & -> & <-). exists (x :: a), b. split; [done|]. rewrite Zlen_cons. lia.
    - destruct (Z.eqb_spec x c) as [->|]; [|done]. injection Hi as <-. by exists [], s. }
  pose proof (Zlen_nonneg a). pose proof (Zlen_nonneg b). assert (Hl : Zlen (a ++ [c] ++ b) = Zlen (a ++ [c]) + Zlen b) by (rewrite !Zlen_app; lia). rewrite slice_app_l. split; [|done]. f_equal. f_equal.
  rewrite Hl, app_assoc. assert (H1 : Zlen (a ++ [c]) = Zlen a + 1) by (rewrite Zlen_app; done). rewrite slice_app_r by lia. by rewrite slice_all0 by lia.
Qed.
Lemma check_text_spec s : forall i lo up,
  check_text i s lo up = Ok (lo || existsb is_ascii_lowercase s, up || existsb is_ascii_uppercase s) /\ forallb printable s = true \/
  (forallb printable s = false /\ exists e, check_text i s lo up = Err e).
Proof.
  induction s as [|b s IH]; intros i lo up; cbn [check_text forallb existsb]; [left; by rewrite !orb_false_r|]. destruct (printable b) eqn:Hp; cbn [negb andb]; [|right; split; [done|by eexists]].
  destruct (IH (i + 1) (lo || is_ascii_lowercase b) (up || is_ascii_uppercase b)) as [[-> ->]|[-> [e ->]]]; [left; by rewrite !orb_assoc|right; split; [done|by eexists]].
Qed.

(** What a text that decodes looks like: [ds] are the symbols after the separator, the last six of which are the checksum. *)
Record valid_text (s hrp : bytes) (ds : list Z) : Prop := {
  vt_short : Zlen s <= MAX_STRING_LEN;
  vt_printable : forallb printable s = true;
  vt_case : existsb is_ascii_lowercase s && existsb is_ascii_uppercase s = false;
  vt_lower : ascii_lower <$> s = hrp ++ [49] ++ chars ds;
  vt_hrp : 0 < Zlen hrp <= MAX_HRP_LEN;
  vt_symbols : symbols ds;
  vt_room : CHECKSUM_CHARS <= Zlen ds;
  vt_checksum : polymod (hrp_expand hrp ++ ds) = BECH32M_CONST;
}.
Lemma Zlen_chars ds : Zlen (chars ds) = Zlen ds.
Proof. apply Zlen_fmap. Qed.
Lemma decode_fes_valid s hrp data : decode_fes s = Ok (hrp, data) -> exists cs, Zlen cs = 6 /\ valid_text s hrp (data ++ cs).
Proof.
  unfold decode_fes. intros H. step_in H. destruct (check_text_spec s 0 false false) as [[Ht Hp]|[_ [e Ht]]]; rewrite Ht in H; [|done]. cbn [obind orb] in H. do 2 step_in H. step_in H. step_in H. step_in H. step_in H. step_in H. injection H as <- <-.
  match goal with H : ok_or (rfind 49 _) _ = Ok ?p |- _ => rename p into pos; apply ok_or_ok in H as Hr end. apply rfind_inv in Hr as [Hsplit Hpos].
  match goal with H : decode_chars _ _ = Ok ?l |- _ => rename l into ds; apply decode_chars_inv in H as [Hds Hchars] end. rewrite Hchars in Hsplit.
  assert (Hl : Zlen (ascii_lower <$> s) = pos + 1 + Zlen ds) by (rewrite Hsplit, !Zlen_app, Zlen_chars, Hpos; change (Zlen [49]) with 1; lia). change CHECKSUM_CHARS with 6 in *. to_prop.
  assert (Hcut : ds = slice ds 0 (Zlen ds - 6) ++ slice ds (Zlen ds - 6) (Zlen ds)).
  { unfold slice. rewrite Z.sub_0_r, drop_0. rewrite (take_ge (drop _ ds)) by (rewrite length_drop; unfold Zlen; lia). by rewrite take_drop. }
  exists (slice ds (Zlen ds - 6) (Zlen ds)). split; [rewrite Zlen_slice; lia|]. rewrite <- Hcut. pose proof (Zlen_nonneg (slice (ascii_lower <$> s) 0 pos)). split; (done || lia || (unfold CHECKSUM_CHARS; lia) || by apply andb_false_iff).
Qed.

Lemma valid_decode_fes s hrp data cs : valid_text s hrp (data ++ cs) -> Zlen cs = 6 -> decode_fes s = Ok (hrp, data).
Proof.
  intros [Hs Hp Hc Hl Hh Hd Hr Hk] Hcs. unfold decode_fes. rewrite (proj2 (Z.ltb_ge _ _) Hs). destruct (check_text_spec s 0 false false) as [[-> _]|[Hn _]]; [|congruence]. cbn [obind orb]. rewrite Hc, Hl. rewrite rfind_last by (by apply chars_no_separator).
  cbn [ok_or obind]. destruct (Z.eqb_spec (Zlen hrp) 0); [lia|]. rewrite (proj2 (Z.ltb_ge MAX_HRP_LEN _)) by lia.
  assert (Hlen : Zlen (hrp ++ [49] ++ chars (data ++ cs)) = Zlen (hrp ++ [49]) + Zlen (data ++ cs)) by (rewrite app_assoc, Zlen_app, Zlen_chars; done). assert (H1 : Zlen (hrp ++ [49]) = Zlen hrp + 1) by (rewrite Zlen_app; done).
  rewrite (proj2 (Z.ltb_ge _ _)) by lia. rewrite slice_app_l, Hlen, app_assoc. pose proof (Zlen_nonneg (data ++ cs)). rewrite slice_app_r by lia. rewrite slice_all0 by (rewrite ?Zlen_chars; lia). rewrite decode_chars_ok by done. cbn [obind].
  rewrite Hk, Z.eqb_refl. cbn [negb]. do 2 f_equal. apply slice_app_l'. rewrite Zlen_app, Hcs. change CHECKSUM_CHARS with 6. lia.
Qed.
Lemma hrp_symbols hrp : forallb printable hrp = true -> symbols (hrp_expand hrp).
Proof.
  intros Hp. rewrite forallb_forall in Hp. unfold hrp_expand. assert (Hb : forall c, In c hrp -> 33 <= c <= 126) by (intros c Hc; specialize (Hp c Hc); unfold printable in Hp; lia).
  apply Forall_app. split; [|apply Forall_app; split; [repeat constructor; lia|]].
  - apply Forall_fmap, List.Forall_forall. intros c Hc. specialize (Hb c Hc). cbn. rewrite Z.shiftr_div_pow2 by lia. change (2 ^ 5) with 32. split; [apply Z.div_pos; lia|apply Z.div_lt_upper_bound; lia].
  - apply Forall_fmap, List.Forall_forall. intros c _. cbn. apply (land_bound 5); lia.
Qed.
Lemma check_hrp_ok hrp : forall i, forallb printable hrp = true -> existsb is_ascii_uppercase hrp = false -> check_hrp i hrp = Ok tt.
Proof.
  induction hrp as [|b hrp IH]; intros i Hp Hu; [done|]. cbn [forallb existsb check_hrp] in *. apply andb_true_iff in Hp as [-> Hp]. apply orb_false_iff in Hu as [-> Hu]. cbn. by apply IH.
Qed.
Definition checksum_of (pm : Z) : list Z := checksum_symbol pm <$> zrange 0 CHECKSUM_CHARS.
Lemma checksum_of_spec pm : u30 pm -> symbols (checksum_of pm) /\ Zlen (checksum_of pm) = 6 /\ num5 (checksum_of pm) = pm.
Proof.
  intros Hp. split; [apply Forall_fmap, List.Forall_forall; intros i _; apply (land_bound 5); lia|]. split; [done|].
  assert (Hs : forall i, 0 <= i <= 5 -> checksum_symbol pm i = (pm / 32 ^ (5 - i)) mod 32).
  { intros i Hi. unfold checksum_symbol. change 31 with (2 ^ 5 - 1). rewrite land_mask, Z.shiftr_div_pow2 by lia. change (2 ^ 5) with 32. f_equal. f_equal. change 32 with (2 ^ 5). rewrite <- Z.pow_mul_r by lia. done. }
  unfold checksum_of. change (zrange 0 CHECKSUM_CHARS) with [0; 1; 2; 3; 4; 5]. cbn [fmap list_fmap]. rewrite !Hs by lia. unfold num5. cbn [fold_left]. cbn [Z.sub Z.add Z.opp Z.pos_sub]. change (32 ^ 5) with 33554432. change (32 ^ 4) with 1048576. change (32 ^ 3) with 32768. change (32 ^ 2) with 1024. change (32 ^ 1) with 32. change (32 ^ 0) with 1.
  clear Hs. change (2 ^ 30) with 1073741824 in Hp. Z.to_euclidean_division_equations. lia.
Qed.
(** The checksum that makes a text valid exists, is unique, and is the one the encoder appends. *)
Lemma checksum_unique hrp data cs : symbols (hrp_expand hrp ++ data) -> symbols cs -> Zlen cs = 6 ->
  polymod (hrp_expand hrp ++ data ++ cs) = BECH32M_CONST <-> cs = checksum_of (Z.lxor (polymod (hrp_expand hrp ++ data ++ zeros (Z.to_nat CHECKSUM_CHARS))) BECH32M_CONST).
Proof.
  intros Hh Hc Hl. set (z := polymod (_ ++ data ++ zeros _)). change (Z.to_nat CHECKSUM_CHARS) with 6%nat in z.
  assert (Hz : u30 z) by (apply polymod_u30; rewrite app_assoc; apply Forall_app; split; [done|apply symbols_zeros]). destruct (checksum_of_spec (Z.lxor z BECH32M_CONST)) as (Hcs & Hcl & Hcn); [apply lxor_bound; unfold BECH32M_CONST; lia|].
  assert (Hp : polymod (hrp_expand hrp ++ data ++ cs) = Z.lxor z (num5 cs)).
  { unfold z, polymod. rewrite !app_assoc, !(fold_left_app _ (hrp_expand hrp ++ data)). rewrite pm_fold_split. assert (length cs = 6%nat) as Hl' by (unfold Zlen in Hl; lia). rewrite Hl', pm_fold_num by (done || lia). done. }
  rewrite Hp. split.
  - intros He. apply num5_inj; [unfold Zlen in *; lia|done..|]. rewrite Hcn, <- He, <- Z.lxor_assoc. by rewrite Z.lxor_nilpotent, Z.lxor_0_l.
  - intros ->. by rewrite Hcn, <- Z.lxor_assoc, Z.lxor_nilpotent, Z.lxor_0_l.
Qed.
Lemma encode_fes_ok hrp data : 0 < Zlen hrp <= MAX_HRP_LEN -> forallb printable hrp = true -> existsb is_ascii_uppercase hrp = false -> symbols data -> Zlen hrp + Zlen data <= 83 ->
  exists cs, symbols cs /\ Zlen cs = 6 /\ polymod (hrp_expand hrp ++ data ++ cs) = BECH32M_CONST /\ encode_fes hrp data = Ok (hrp ++ [49] ++ chars (data ++ cs)).
Proof.
  intros Hh Hp Hu Hd Ht. set (pm := Z.lxor (polymod (hrp_expand hrp ++ data ++ zeros (Z.to_nat CHECKSUM_CHARS))) BECH32M_CONST).
  assert (Hs : symbols (hrp_expand hrp ++ data)) by (apply Forall_app; split; [by apply hrp_symbols|done]).
  assert (Hpm : u30 pm) by (apply lxor_bound; [lia|apply polymod_u30; rewrite app_assoc; apply Forall_app; split; [done|apply symbols_zeros]|unfold BECH32M_CONST; lia]).
  destruct (checksum_of_spec pm Hpm) as (Hcs & Hcl & _). exists (checksum_of pm). split; [done|]. split; [done|]. split; [by apply checksum_unique|].
  unfold encode_fes, encode_fes_with_const. destruct (Z.eqb_spec (Zlen hrp) 0); [lia|]. rewrite (proj2 (Z.ltb_ge MAX_HRP_LEN _)) by lia. rewrite check_hrp_ok by done. cbn [obind]. rewrite check_symbols_ok by done. cbn [obind].
  change CHECKSUM_CHARS with 6 at 1 2. rewrite (proj2 (Z.ltb_ge MAX_STRING_LEN _)) by (unfold MAX_STRING_LEN; lia). fold pm. rewrite fmap_app. unfold checksum_of. by rewrite <- list_fmap_compose.
Qed.
Lemma lower_clean b : printable b = true -> printable (ascii_lower b) = true /\ is_ascii_uppercase (ascii_lower b) = false.
Proof. unfold printable, ascii_lower, is_ascii_uppercase. intros H. destruct ((65 <=? b) && (b <=? 90)) eqn:E; lia. Qed.
Lemma lower_all s : forallb printable s = true -> forallb printable (ascii_lower <$> s) = true /\ existsb is_ascii_uppercase (ascii_lower <$> s) = false.
Proof.
  induction s as [|b s IH]; intros H; [done|]. cbn [forallb fmap list_fmap existsb] in *. apply andb_true_iff in H as [Hb H]. destruct (lower_clean b Hb) as [-> ->]. by apply IH.
Qed.
Lemma forallb_app_l {A} (f : A -> bool) a b : forallb f (a ++ b) = true -> forallb f a = true.
Proof. rewrite forallb_app. by intros [H _]%andb_true_iff. Qed.
(** Decoding accepts exactly the encoder's texts, in either case. *)
Lemma decode_fes_encodes s hrp data : decode_fes s = Ok (hrp, data) -> symbols data /\ encode_fes hrp data = Ok (ascii_lower <$> s).
Proof.
  intros H. apply decode_fes_valid in H as (cs & Hcl & Hv). pose proof (vt_symbols _ _ _ Hv) as Hs. apply Forall_app in Hs as [Hd Hc]. split; [done|]. destruct (lower_all s (vt_printable _ _ _ Hv)) as [Hp Hu]. rewrite (vt_lower _ _ _ Hv) in Hp, Hu |- *.
  apply forallb_app_l in Hp as Hph. rewrite existsb_app in Hu. apply orb_false_iff in Hu as [Huh _]. pose proof (Zlen_fmap ascii_lower s) as Hlen. rewrite (vt_lower _ _ _ Hv), !Zlen_app, Zlen_chars, Zlen_app, Hcl in Hlen. change (Zlen [49]) with 1 in Hlen.
  pose proof (vt_short _ _ _ Hv) as Hshort. unfold MAX_STRING_LEN in Hshort. destruct (encode_fes_ok hrp data) as (cs' & Hc' & Hcl' & Hk' & ->); [apply (vt_hrp _ _ _ Hv)|done..|lia|]. do 4 f_equal.
  assert (Hsy : symbols (hrp_expand hrp ++ data)) by (apply Forall_app; split; [by apply hrp_symbols|done]). pose proof (vt_checksum _ _ _ Hv) as Hk. apply checksum_unique in Hk, Hk'; [|done..]. congruence.
Qed.
Lemma lower_id s : existsb is_ascii_uppercase s = false -> ascii_lower <$> s = s.
Proof.
  induction s as [|b s IH]; intros H; [done|]. cbn [existsb fmap list_fmap] in *. apply orb_false_iff in H as [Hb H]. f_equal; [|by apply IH]. unfold ascii_lower. unfold is_ascii_uppercase in Hb. by rewrite Hb.
Qed.
Lemma chars_clean ds : symbols ds -> forallb printable (chars ds) = true /\ existsb is_ascii_uppercase (chars ds) = false.
Proof.
  induction ds as [|d ds IH]; intros Hd; [done|]. apply list.Forall_cons in Hd as [Hd Hds]. cbn [fmap list_fmap forallb existsb]. destruct (charset_ok d Hd) as (_ & -> & _ & -> & _). by apply IH.
Qed.
Lemma encode_fes_decodes hrp data s : encode_fes hrp data = Ok s -> Forall (fun v => 0 <= v) data -> decode_fes s = Ok (hrp, data) /\ ascii_lower <$> s = s.
Proof.
  intros He Hnn. assert (Hg : 0 < Zlen hrp <= MAX_HRP_LEN /\ check_hrp 0 hrp = Ok tt /\ check_symbols 0 data = Ok tt /\ Zlen hrp + Zlen data <= 83).
  { unfold encode_fes, encode_fes_with_const in He. do 2 step_in He. step_in He. step_in He. step_in He. destruct a, a0. to_prop. change CHECKSUM_CHARS with 6 in *. unfold MAX_STRING_LEN in *. pose proof (Zlen_nonneg hrp). repeat split; (done || lia). }
  destruct Hg as (Hh & Hch & Hcs & Hlen). apply check_symbols_inv in Hcs; [|done].
  assert (Hc : forall i, check_hrp i hrp = Ok tt -> forallb printable hrp = true /\ existsb is_ascii_uppercase hrp = false).
  { clear. induction hrp as [|b hrp IH]; intros i H; [done|]. cbn [check_hrp forallb existsb] in *. destruct (printable b), (is_ascii_uppercase b); try done. cbn in *. by eapply IH. }
  destruct (Hc 0 Hch) as [Hp Hu]. destruct (encode_fes_ok hrp data Hh Hp Hu Hcs Hlen) as (cs & Hs & Hcl & Hk & He'). rewrite He' in He. injection He as <-. assert (Hall : symbols (data ++ cs)) by (by apply Forall_app). destruct (chars_clean _ Hall) as [Hcp Hcu].
  assert (Hup : existsb is_ascii_uppercase (hrp ++ [49] ++ chars (data ++ cs)) = false) by (rewrite !existsb_app, Hu, Hcu; done). split; [|by apply lower_id]. apply (valid_decode_fes _ _ _ cs); [|done]. split; try done.
  - change (Zlen (hrp ++ [49] ++ chars (data ++ cs)) <= 90). rewrite !Zlen_app, Zlen_chars, Zlen_app, Hcl. change (Zlen [49]) with 1. lia.
  - change (forallb printable (hrp ++ [49] ++ chars (data ++ cs)) = true). by rewrite !forallb_app, Hp, Hcp.
  - apply andb_false_iff. by right.
  - by apply lower_id.
  - rewrite Zlen_app, Hcl. change CHECKSUM_CHARS with 6. pose proof (Zlen_nonneg data). lia.
Qed.

(** ** Addresses *)
Lemma address_symbols p : field_ok 20 p -> symbols (convert_8_to_5 p) /\ Zlen (convert_8_to_5 p) = 32.
Proof. intros [Hb Hl]. destruct (convert_8_to_5_spec p) as (q & Hq & Hs & Hlen & _); [done|]. split; [done|]. lia. Qed.
Lemma decode_bytes_np s : decode_bytes s <> Panic.
Proof.
  assert (Hc : forall t i, decode_chars i t <> Panic).
  { induction t as [|b t IH]; intros i; cbn [decode_chars]; [done|]. apply np_bind; [by destruct (char_index 0 CHARSET b)|]. intros. apply np_bind; [apply IH|done]. }
  assert (Hs : forall l i, check_symbols i l <> Panic) by (induction l as [|v l IH]; intros i; cbn [check_symbols]; [done|]; by destruct (negb _)).
  unfold decode_bytes. apply np_bind.
  - unfold decode_fes. destruct (_ <? _); [done|]. apply np_bind; [destruct (check_text_spec s 0 false false) as [[-> _]|[_ [e ->]]]; done|]. intros [lo up] _. destruct (_ && _); [done|]. apply np_bind; [by destruct (rfind _ _)|]. intros pos _. destruct (_ =? 0); [done|].
    destruct (_ <? _); [done|]. destruct (_ <? _); [done|]. apply np_bind; [apply Hc|]. intros. by destruct (negb _).
  - intros [hrp data] _. apply np_bind; [|done]. unfold convert_5_to_8. apply np_bind; [apply Hs|]. intros [] _. destruct (fold_left _ data _) as [[o a] b]. by destruct (_ || _).
Qed.
Lemma decode_address_valid s p : decode_address s = Ok p -> field_ok 20 p /\ exists ds, valid_text s ADDRESS_HRP ds /\ Zlen ds = 38 /\ convert_8_to_5 p = take 32 ds /\ encode_fes ADDRESS_HRP (convert_8_to_5 p) = Ok (ascii_lower <$> s).
Proof.
  unfold decode_address, decode_bytes. intros H. destruct (decode_fes s) as [[hrp data]| |] eqn:E; try done. cbn [obind] in H. destruct (convert_5_to_8 data) as [b| |] eqn:Ec; try done. cbn [obind map_err] in H. do 2 step_in H. injection H as ->. to_prop.
  match goal with H : bytes_eqb _ _ = true |- _ => apply bool_decide_eq_true in H as -> end. destruct (decode_fes_encodes _ _ _ E) as [Hd He]. apply decode_fes_valid in E as (cs & Hcl & Hv). destruct (regroup_unique data p Hd Ec) as [Hb Hr]. unfold ADDRESS_PAYLOAD_BYTES in *.
  assert (Hp : field_ok 20 p) by (by split). split; [done|]. destruct (address_symbols p Hp) as [_ Hl]. rewrite Hr in Hl |- *. exists (data ++ cs). split; [done|]. split; [rewrite Zlen_app; lia|]. split; [|done]. rewrite take_app_length'; [done|]. unfold Zlen in Hl. lia.
Qed.
Lemma char_inj a b : symbol a -> symbol b -> byte_at CHARSET a = byte_at CHARSET b -> a = b.
Proof. intros Ha Hb He. destruct (charset_ok a Ha) as (H1 & _), (charset_ok b Hb) as (H2 & _). rewrite He in H1. congruence. Qed.
Lemma substitutions_chars ds : forall es, symbols ds -> symbols es -> substitutions (chars ds) (chars es) = substitutions ds es.
Proof.
  induction ds as [|d ds IH]; intros [|e es] Hd He; try done. apply list.Forall_cons in Hd as [Hd Hds], He as [He Hes]. cbn [fmap list_fmap substitutions]. rewrite IH by done. f_equal.
  destruct (Z.eqb_spec d e) as [->|Hne]; [by rewrite Z.eqb_refl|]. destruct (Z.eqb_spec (byte_at CHARSET d) (byte_at CHARSET e)) as [H|]; [|done]. by apply char_inj in H.
Qed.
Lemma substitutions_prefix a b c : substitutions (a ++ b) (a ++ c) = substitutions b c.
Proof. induction a as [|x a IH]; [done|]. cbn [app substitutions]. by rewrite Z.eqb_refl, IH. Qed.
Lemma chars_lookup (ds : list Z) (k : nat) : chars ds !! k = byte_at CHARSET <$> ds !! k.
Proof. apply list_lookup_fmap. Qed.
(** Texts that agree outside a window of six characters have symbols that agree outside a window of six symbols. *)
Lemma window_symbols (ds es : list Z) (i : nat) : symbols ds -> symbols es ->
  (forall k, (k < i \/ i + 6 <= k)%nat -> (ADDRESS_HRP ++ [49] ++ chars ds) !! k = (ADDRESS_HRP ++ [49] ++ chars es) !! k) ->
  forall k, (k < i - 5 \/ i - 5 + 6 <= k)%nat -> ds !! k = es !! k.
Proof.
  intros Hd He Hk k Hw. specialize (Hk (5 + k)%nat ltac:(lia)). change ((ADDRESS_HRP ++ [49] ++ chars ds) !! (5 + k)%nat) with (chars ds !! k) in Hk. change ((ADDRESS_HRP ++ [49] ++ chars es) !! (5 + k)%nat) with (chars es !! k) in Hk.
  rewrite !chars_lookup in Hk. destruct (ds !! k) as [d|] eqn:Ed, (es !! k) as [e|] eqn:Ee; try done. cbn in Hk. injection Hk as Hk. f_equal. apply char_inj; [by apply (Forall_lookup_1 _ _ _ _ Hd Ed)|by apply (Forall_lookup_1 _ _ _ _ He Ee)|done].
Qed.
Lemma window_equal (pre ds es : list Z) (j : nat) : symbols pre -> symbols ds -> symbols es -> length es = length ds -> (forall k, (k < j \/ j + 6 <= k)%nat -> ds !! k = es !! k) ->
  polymod (pre ++ ds) = polymod (pre ++ es) -> ds = es.
Proof.
  intros Hp Hd He Hl Hk Heq. assert (Ht : take j es = take j ds) by (apply list_eq; intros k; destruct (decide (k < j)%nat); [rewrite !lookup_take_lt by done; symmetry; apply Hk; by left|by rewrite !lookup_take_ge by lia]).
  assert (Hr : drop (j + 6) es = drop (j + 6) ds) by (apply list_eq; intros k; rewrite !lookup_drop; symmetry; apply Hk; lia).
  assert (Hsplit : forall l : list Z, l = take j l ++ take 6 (drop j l) ++ drop (j + 6) l) by (intros l; rewrite <- drop_drop, !take_drop; done).
  rewrite (Hsplit ds), (Hsplit es), Ht, Hr in Heq |- *. do 2 f_equal. rewrite !(app_assoc pre) in Heq. apply burst_changes in Heq; [done|..].
  - apply Forall_app. split; [done|by apply Forall_take].
  - by apply Forall_take, Forall_drop.
  - by apply Forall_take, Forall_drop.
  - by apply Forall_drop.
  - rewrite !length_take, !length_drop. lia.
  - rewrite length_take. lia.
Qed.

(** C33. The text of an address is exact. Every payload of 20 bytes has a text, of 43 characters, that decodes to it; decoding any
    text returns; and a text that decodes to a payload is, once in lower case, the text of that payload: there is one text
    for a payload, up to case, and no alias with other padding. *)
Theorem address_text_exact (p s : bytes) :
  field_ok ADDRESS_PAYLOAD_BYTES p ->
  (exists t, encode_address p = Ok t /\ Zlen t = 43 /\ decode_address t = Ok p) /\
  decode_address s <> Panic /\
  (forall q, decode_address s = Ok q -> field_ok ADDRESS_PAYLOAD_BYTES q /\ encode_address q = Ok (ascii_lower <$> s)).
Proof.
  intros Hp. split; [|split].
  - destruct (address_symbols p Hp) as [Hs Hl]. destruct (encode_fes_ok ADDRESS_HRP (convert_8_to_5 p)) as (cs & Hc & Hcl & _ & He); [done..|rewrite Hl; done|].
    unfold encode_address, encode_bytes. rewrite He. eexists. split; [done|]. split; [rewrite !Zlen_app, Zlen_chars, Zlen_app, Hl, Hcl; done|]. unfold decode_address, decode_bytes.
    apply encode_fes_decodes in He as [He _]; [|refine (List.Forall_impl _ _ Hs); intros ? ?; lia]. rewrite He. cbn [obind]. rewrite regroup_roundtrip by apply Hp. cbn [obind map_err]. destruct Hp as [_ Hp]. unfold bytes_eqb. rewrite bool_decide_eq_true_2 by done. by rewrite Hp.
  - unfold decode_address. apply np_bind; [apply np_map_err, decode_bytes_np|]. intros [hrp b] _. destruct (negb _); [done|]. by destruct (negb _).
  - intros q Hq. apply decode_address_valid in Hq as (Hf & ds & _ & _ & _ & He). split; [done|]. unfold encode_address, encode_bytes. by rewrite He.
Qed.

(** A mistyped address is not taken for another. The texts of two different addresses differ in at least three characters, and their
    differences never fit into six neighbouring characters. *)
Theorem mistyped_address_refused (s s' p p' : bytes) :
  decode_address s = Ok p -> decode_address s' = Ok p' -> p <> p' ->
  (3 <= substitutions (ascii_lower <$> s) (ascii_lower <$> s'))%nat /\
  (forall i : nat, ~ (forall k : nat, (k < i \/ i + 6 <= k)%nat -> (ascii_lower <$> s) !! k = (ascii_lower <$> s') !! k)).
Proof.
  intros (Hp & ds & Hv & Hl & Hc & _)%decode_address_valid (Hp' & es & Hv' & Hl' & Hc' & _)%decode_address_valid Hne. assert (Hlen : length es = length ds) by (unfold Zlen in *; lia).
  assert (Hds : ds <> es) by (intros ->; apply Hne; rewrite <- Hc in Hc'; apply (f_equal convert_5_to_8) in Hc'; rewrite !regroup_roundtrip in Hc' by (apply Hp || apply Hp'); congruence).
  assert (Hk : polymod (hrp_expand ADDRESS_HRP ++ ds) = polymod (hrp_expand ADDRESS_HRP ++ es)) by (rewrite (vt_checksum _ _ _ Hv); symmetry; apply Hv'). pose proof (vt_symbols _ _ _ Hv) as Hs. pose proof (vt_symbols _ _ _ Hv') as Hs'.
  rewrite (vt_lower _ _ _ Hv), (vt_lower _ _ _ Hv'). split.
  - rewrite !app_assoc, substitutions_prefix, substitutions_chars by done. destruct (decide (substitutions ds es <= 2)%nat) as [H2|]; [|lia]. exfalso. apply Hds, (two_changes (hrp_expand ADDRESS_HRP)); try done. unfold Zlen in Hl. lia.
  - intros i Hi. apply Hds. eapply (window_equal (hrp_expand ADDRESS_HRP) ds es); [by apply hrp_symbols|done..|by apply window_symbols|done].
Qed.
Lemma address_text_exact_witness : exists t, encode_address (replicate 20 7) = Ok t /\ decode_address t = Ok (replicate 20 7).
Proof. destruct (address_text_exact (replicate 20 7) []) as [(t & He & _ & Hd) _]; [split; [apply Forall_replicate; unfold byte_ok; lia|done]|]. exists t. exact (conj He Hd). Defined.
Lemma mistyped_address_refused_witness :
  match encode_address (replicate 20 7), encode_address (7 :: replicate 19 8) with
  | Ok s, Ok s' => (3 <= substitutions (ascii_lower <$> s) (ascii_lower <$> s'))%nat
  | _, _ => False
  end.
Proof.
  pose proof (mistyped_address_refused (match encode_address (replicate 20 7) with Ok s => s | _ => [] end) (match encode_address (7 :: replicate 19 8) with Ok s => s | _ => [] end) (replicate 20 7) (7 :: replicate 19 8)
    ltac:(vm_compute; reflexivity) ltac:(vm_compute; reflexivity) ltac:(discriminate)) as [H _]. exact H.
Defined.
