(* ===== verification/Merkle.v ===== *)
(** The transaction Merkle tree (src/lib/consensus/src/merkle.rs): roots,
    inclusion proofs and their verifier. A root determines the exact list of
    transactions and a proof that verifies shows membership, in both cases up to
    an explicit collision of the hash function. *)

From Stdlib Require Import ZArith Lia List.
From stdpp Require Import base list numbers.
From S2P Require Import Prelude Constants Work Codec Crypto.
Open Scope Z_scope.

Definition leaf_hash (tx_bytes : bytes) : Hash32 := merkle_leaf tx_bytes.
Definition node_hash (left right : Hash32) (duplicated : bool) : Hash32 := merkle_node left right duplicated.

(** The inner [while i + 1 < level.len()] loop and the odd leaf after it. *)
Fixpoint next_level (level : list Hash32) : list Hash32 :=
  match level with
  | [] => []
  | [a] => [node_hash a a true]
  | a :: b :: rest => node_hash a b false :: next_level rest
  end.

(** Each pass halves the level: its length is enough fuel. *)
Fixpoint merkle_loop (fuel : nat) (level : list Hash32) : list Hash32 :=
  match fuel with
  | O => level
  | S fuel => if (1 <? length level)%nat then merkle_loop fuel (next_level level) else level
  end.
Definition merkle_root (leaves : list Hash32) : Hash32 :=
  match leaves with
  | [] => TX_ROOT_EMPTY
  | _ => default [] (merkle_loop (length leaves) leaves !! 0%nat)
  end.
Definition tx_root (txs : list bytes) : Hash32 := merkle_root (leaf_hash <$> txs).
Definition BlockBody_leaves (b : BlockBody) : list Hash32 := merkle_leaf <$> BlockBody_all_bytes b.
Definition BlockBody_tx_root (b : BlockBody) : Hash32 := merkle_root (BlockBody_leaves b).

Record MerkleProof := MkMerkleProof { mp_index : Z; mp_tx_count : Z; mp_siblings : list Hash32 }.

Fixpoint merkle_proof_loop (fuel : nat) (level : list Hash32) (idx : nat) : list Hash32 :=
  match fuel with
  | O => []
  | S fuel =>
    if (1 <? length level)%nat then
      let is_odd_last := (idx =? length level - 1)%nat && Nat.odd (length level) in
      let sib := if Nat.even idx then (idx + 1)%nat else (idx - 1)%nat in
      (if is_odd_last then [] else [default [] (level !! sib)]) ++
      merkle_proof_loop fuel (next_level level) (idx / 2)
    else []
  end.
Definition merkle_proof (leaves : list Hash32) (index : nat) : option MerkleProof :=
  if bool_decide (leaves = []) || (length leaves <=? index)%nat || (umax 32 <? Zlen leaves) then None else
  Some (MkMerkleProof (Z.of_nat index) (Zlen leaves) (merkle_proof_loop (length leaves) leaves index)).

(** The [while width > 1] loop: the hash reached and the siblings left unused.
    The width is below [2^32] and halves each time: 32 passes are enough. *)
Fixpoint verify_proof_loop (fuel : nat) (h : Hash32) (idx width : Z) (siblings : list Hash32)
    : option (Hash32 * list Hash32) :=
  match fuel with
  | O => if 1 <? width then None else Some (h, siblings)
  | S fuel =>
    if 1 <? width then
      if (idx =? width - 1) && (width mod 2 =? 1) then
        verify_proof_loop fuel (node_hash h h true) (idx / 2) ((width + 1) / 2) siblings
      else
        match siblings with
        | [] => None
        | sib :: siblings =>
          let h := if idx mod 2 =? 0 then node_hash h sib false else node_hash sib h false in
          verify_proof_loop fuel h (idx / 2) ((width + 1) / 2) siblings
        end
    else Some (h, siblings)
  end.
Definition verify_merkle_proof (leaf : Hash32) (proof : MerkleProof) (root : Hash32) : bool :=
  if (mp_tx_count proof =? 0) || (mp_tx_count proof <=? mp_index proof) then false else
  if MERKLE_MAX_DEPTH <? Zlen (mp_siblings proof) then false else
  match verify_proof_loop 32 leaf (mp_index proof) (mp_tx_count proof) (mp_siblings proof) with
  | None => false
  | Some (h, rest) => bool_decide (rest = []) && bytes_eqb h root
  end.

(** ** Trees of transactions *)
Inductive mtree := MLeaf (tx : bytes) | MPair (l r : mtree) | MDup (t : mtree).

Fixpoint mhash (t : mtree) : Hash32 :=
  match t with
  | MLeaf tx => leaf_hash tx
  | MPair l r => node_hash (mhash l) (mhash r) false
  | MDup t => node_hash (mhash t) (mhash t) true
  end.

(** The transactions under a tree, the duplicated child counted once. *)
Fixpoint fringe (t : mtree) : list bytes :=
  match t with
  | MLeaf tx => [tx]
  | MPair l r => fringe l ++ fringe r
  | MDup t => fringe t
  end.

Inductive subtree : mtree -> mtree -> Prop :=
| sub_refl t : subtree t t
| sub_left t l r : subtree t l -> subtree t (MPair l r)
| sub_right t l r : subtree t r -> subtree t (MPair l r)
| sub_dup t u : subtree t u -> subtree t (MDup u).

Lemma mhash_ok t : hash_ok (mhash t).
Proof. destruct t; apply hash_updates_is_hash. Qed.

(** Leaves and nodes, pairs and duplicates are hashed under different prefixes. *)
Lemma leaf_node_distinct tx l r d : leaf_hash tx = node_hash l r d -> blake3_collision.
Proof.
  unfold leaf_hash, node_hash, merkle_leaf, merkle_node. intros H.
  apply hash_updates_inj in H as [H|H]; [|done]. cbn in H. discriminate H.
Qed.
Lemma leaf_inj tx tx' : leaf_hash tx = leaf_hash tx' -> tx = tx' \/ blake3_collision.
Proof.
  unfold leaf_hash, merkle_leaf. intros H. apply hash_updates_inj in H as [H|H]; [left|by right].
  cbn [concat] in H. rewrite !app_nil_r in H. by apply app_inv_head in H.
Qed.
Lemma node_inj l r d l' r' d' :
  hash_ok l -> hash_ok l' ->
  node_hash l r d = node_hash l' r' d' -> (l = l' /\ r = r' /\ d = d') \/ blake3_collision.
Proof.
  unfold node_hash, merkle_node. intros [_ Hl] [_ Hl'] H. apply hash_updates_inj in H as [H|H]; [left|by right].
  cbn [concat] in H. rewrite !app_nil_r in H. apply app_inv_head in H.
  apply app_inj_len in H as [Hf H]; [|by destruct d, d']. apply app_inj_len in H as [-> ->]; [|congruence].
  by destruct d, d'.
Qed.

Lemma mhash_inj t : forall u, mhash t = mhash u -> t = u \/ blake3_collision.
Proof.
  induction t as [tx|l IHl r IHr|t IH]; intros [tx'|l' r'|u] H; cbn [mhash] in H;
    try (right; by apply leaf_node_distinct in H); try (right; symmetry in H; by apply leaf_node_distinct in H).
  - apply leaf_inj in H as [->|?]; [by left|by right].
  - apply node_inj in H as [(Hl & Hr & _)|?]; [|by right|apply mhash_ok..].
    destruct (IHl _ Hl) as [->|?]; [|by right]. destruct (IHr _ Hr) as [->|?]; [by left|by right].
  - apply node_inj in H as [(_ & _ & [=])|?]; [by right|apply mhash_ok..].
  - apply node_inj in H as [(_ & _ & [=])|?]; [by right|apply mhash_ok..].
  - apply node_inj in H as [(Hl & _)|?]; [|by right|apply mhash_ok..].
    destruct (IH _ Hl) as [->|?]; [by left|by right].
Qed.

(** Building the tree level by level. *)
Fixpoint tree_level (ts : list mtree) : list mtree :=
  match ts with
  | [] => []
  | [a] => [MDup a]
  | a :: b :: rest => MPair a b :: tree_level rest
  end.

Lemma pair_ind {A} (P : list A -> Prop) :
  P [] -> (forall a, P [a]) -> (forall a b l, P l -> P (a :: b :: l)) -> forall l, P l.
Proof.
  intros H0 H1 H2 l. assert (P l /\ forall a, P (a :: l)) as [? _]; [|done].
  induction l as [|x l [IH1 IH2]]; [by split|]. split; [apply IH2|]. intros a. by apply H2.
Qed.

Lemma next_level_trees ts : next_level (mhash <$> ts) = mhash <$> tree_level ts.
Proof.
  induction ts as [|a|a b ts IH] using pair_ind; [done..|].
  change (node_hash (mhash a) (mhash b) false :: next_level (mhash <$> ts) = mhash (MPair a b) :: (mhash <$> tree_level ts)).
  by rewrite IH.
Qed.
Lemma tree_level_fringe ts : concat (fringe <$> tree_level ts) = concat (fringe <$> ts).
Proof.
  induction ts as [|a|a b ts IH] using pair_ind; [done..|]. cbn. rewrite <-app_assoc. do 2 f_equal. apply IH.
Qed.
Lemma length_tree_level ts : length (tree_level ts) = ((length ts + 1) / 2)%nat.
Proof.
  induction ts as [|a|a b ts IH] using pair_ind; [done..|]. cbn [tree_level length]. rewrite IH.
  replace (S (S (length ts)) + 1)%nat with (1 * 2 + (length ts + 1))%nat by lia. by rewrite Nat.div_add_l by lia.
Qed.
Lemma length_next_level l : length (next_level l) = ((length l + 1) / 2)%nat.
Proof.
  induction l as [|a|a b l IH] using pair_ind; [done..|]. cbn [next_level length]. rewrite IH.
  replace (S (S (length l)) + 1)%nat with (1 * 2 + (length l + 1))%nat by lia. by rewrite Nat.div_add_l by lia.
Qed.

Lemma half_lt n : (2 <= n -> 1 <= (n + 1) / 2 < n)%nat.
Proof.
  intros H. split; [apply Nat.div_le_lower_bound; lia|]. apply Nat.Div0.div_lt_upper_bound; lia.
Qed.

Lemma merkle_loop_tree fuel : forall ts, ts <> [] -> (length ts <= fuel)%nat ->
  exists t, merkle_loop fuel (mhash <$> ts) = [mhash t] /\ fringe t = concat (fringe <$> ts).
Proof.
  induction fuel as [|fuel IH]; intros ts Hne Hl; [by destruct ts; [|cbn in Hl; lia]|].
  cbn [merkle_loop]. rewrite length_fmap. destruct (Nat.ltb_spec 1 (length ts)) as [Hgt|Hle].
  - rewrite next_level_trees. pose proof (half_lt (length ts) ltac:(lia)).
    destruct (IH (tree_level ts)) as (t & Ht & Hf).
    + intros Hnil. apply (f_equal length) in Hnil. rewrite length_tree_level in Hnil. cbn [length] in Hnil. lia.
    + rewrite length_tree_level. lia.
    + exists t. by rewrite Hf, tree_level_fringe.
  - destruct ts as [|t [|]]; [done| |cbn in Hle; lia]. exists t. cbn. by rewrite app_nil_r.
Qed.

(** The root of a non-empty transaction list is the hash of a tree over it. *)
Lemma tx_root_tree txs : txs <> [] -> exists t, tx_root txs = mhash t /\ fringe t = txs.
Proof.
  intros Hne. unfold tx_root, merkle_root.
  destruct (merkle_loop_tree (length txs) (MLeaf <$> txs)) as (t & Ht & Hf).
  - by destruct txs.
  - by rewrite length_fmap.
  - rewrite <-list_fmap_compose in Ht. change (mhash ∘ MLeaf) with leaf_hash in Ht. exists t. split.
    + destruct txs as [|x txs]; [done|]. cbn [fmap list_fmap]. change (list_fmap ?f) with (fmap (M := list) f).
      cbn [length] in Ht |- *. rewrite length_fmap. cbn [fmap list_fmap] in Ht.
      change (list_fmap ?f) with (fmap (M := list) f) in Ht. by rewrite Ht.
    + rewrite Hf. clear. induction txs as [|x txs IH]; [done|]. cbn. f_equal. apply IH.
Qed.



(** ** Soundness of inclusion proofs *)
Lemma subtree_fringe t u tx : subtree t u -> In tx (fringe t) -> In tx (fringe u).
Proof. induction 1; cbn; rewrite ?in_app_iff; auto. Qed.

Lemma subtree_trans t u v : subtree t u -> subtree u v -> subtree t v.
Proof. intros Htu Huv. induction Huv; try (constructor; by auto). done. Qed.

(** Stepping down from a node of the tree to the hash it was computed from. *)
Lemma node_of_subtree h sib d (on_right : bool) t :
  hash_ok h -> hash_ok sib ->
  (if on_right then node_hash sib h d else node_hash h sib d) = mhash t ->
  (exists u, subtree u t /\ h = mhash u) \/ blake3_collision.
Proof.
  intros Hh Hs He. destruct t as [tx|l r|u]; cbn [mhash] in He.
  - right. symmetry in He. destruct on_right; by apply leaf_node_distinct in He.
  - destruct on_right; (apply node_inj in He as [(H1 & H2 & _)|?]; [|by right|by (done || apply mhash_ok)..]); left.
    + exists r. split; [apply sub_right, sub_refl|done].
    + exists l. split; [apply sub_left, sub_refl|done].
  - destruct on_right; (apply node_inj in He as [(H1 & H2 & _)|?]; [|by right|by (done || apply mhash_ok)..]); left;
      exists u; (split; [apply sub_dup, sub_refl|done]).
Qed.

Lemma node_hash_ok l r d : hash_ok (node_hash l r d).
Proof. apply hash_updates_is_hash. Qed.

Lemma verify_loop_sound fuel : forall h idx width sibs t rest,
  hash_ok h -> Forall hash_ok sibs ->
  verify_proof_loop fuel h idx width sibs = Some (mhash t, rest) ->
  (exists u, subtree u t /\ h = mhash u) \/ blake3_collision.
Proof.
  induction fuel as [|fuel IH]; intros h idx width sibs t rest Hh Hs He; cbn [verify_proof_loop] in He.
  - destruct (1 <? width); [done|]. left. exists t. split; [constructor|congruence].
  - destruct (1 <? width); [|left; exists t; split; [constructor|congruence]].
    assert (forall h1 sibs1 d on_right sib, hash_ok sib ->
      h1 = (if on_right : bool then node_hash sib h d else node_hash h sib d) -> Forall hash_ok sibs1 ->
      verify_proof_loop fuel h1 (idx / 2) ((width + 1) / 2) sibs1 = Some (mhash t, rest) ->
      (exists u, subtree u t /\ h = mhash u) \/ blake3_collision) as Hstep.
    { intros h1 sibs1 d on_right sib Hsib -> Hs1 Hv. apply IH in Hv as [(u & Hu & Hhu)|?]; [|by right|by destruct on_right; apply node_hash_ok|done].
      apply (node_of_subtree h sib d on_right u) in Hhu as [(v & Hv & Hhv)|?]; [|by right|done..].
      left. exists v. split; [by eapply subtree_trans|done]. }
    destruct (_ && _); [by apply (Hstep _ _ true false h Hh eq_refl) in He|].
    destruct sibs as [|sib sibs]; [done|]. inversion_clear Hs as [|? ? Hs1 Hs2].
    destruct (idx mod 2 =? 0); [by apply (Hstep _ _ false false sib Hs1 eq_refl) in He|].
    by apply (Hstep _ _ false true sib Hs1 eq_refl) in He.
Qed.

(** An inclusion proof cannot be forged: if a proof verifies for a
    transaction against a block's transaction root, whatever index, count and
    siblings the proof carries, then the transaction is one of the block's, or
    the proof exhibits a BLAKE3 collision. *)
Theorem merkle_proof_sound (tx : bytes) (txs : list bytes) (proof : MerkleProof) :
  txs <> [] -> Forall hash_ok (mp_siblings proof) ->
  verify_merkle_proof (leaf_hash tx) proof (tx_root txs) = true -> In tx txs \/ blake3_collision.
Proof.
  intros Hne Hs Hv. unfold verify_merkle_proof in Hv.
  destruct (_ || _); [done|]. destruct (_ <? _); [done|].
  destruct (verify_proof_loop _ _ _ _ _) as [[h rest]|] eqn:E; [|done].
  apply andb_true_iff in Hv as [_ Hv]. unfold bytes_eqb in Hv. apply bool_decide_eq_true in Hv as ->.
  destruct (tx_root_tree txs Hne) as (t & Ht & Hf). rewrite Ht in E.
  apply verify_loop_sound in E as [(u & Hu & Hl)|?]; [|by right|apply hash_updates_is_hash|done].
  destruct u as [tx'|l r|u]; cbn [mhash] in Hl.
  - apply leaf_inj in Hl as [->|?]; [left|by right]. rewrite <-Hf. eapply subtree_fringe; [done|]. by left.
  - right. by apply leaf_node_distinct in Hl.
  - right. by apply leaf_node_distinct in Hl.
Qed.

(** ** Completeness of inclusion proofs *)
Lemma next_level_pair l : forall k a b,
  l !! (2 * k)%nat = Some a -> l !! (2 * k + 1)%nat = Some b -> next_level l !! k = Some (node_hash a b false).
Proof.
  induction l as [|x|x y l IH] using pair_ind; intros k a b Ha Hb; [done|by destruct k|].
  destruct k as [|k]; [cbn in Ha, Hb; by simplify_eq|].
  replace (2 * S k)%nat with (S (S (2 * k))) in Ha, Hb by lia. by apply IH.
Qed.
Lemma next_level_last l : forall k a,
  l !! (2 * k)%nat = Some a -> length l = (2 * k + 1)%nat -> next_level l !! k = Some (node_hash a a true).
Proof.
  induction l as [|x|x y l IH] using pair_ind; intros k a Ha Hl; [done| |].
  - destruct k as [|k]; [cbn in Ha; by simplify_eq|]. cbn [length] in Hl. lia.
  - destruct k as [|k]; [cbn [length] in Hl; lia|].
    replace (2 * S k)%nat with (S (S (2 * k))) in Ha by lia. apply IH; [done|]. cbn [length] in Hl. lia.
Qed.

Lemma Zlen_next_level l : Zlen (next_level l) = (Zlen l + 1) / 2.
Proof. unfold Zlen. rewrite length_next_level, Nat2Z.inj_div, Nat2Z.inj_add. done. Qed.

Lemma even_of_nat n : Z.even (Z.of_nat n) = Nat.even n.
Proof.
  destruct (Nat.Even_or_Odd n) as [[k ->]|[k ->]].
  - rewrite Nat.even_mul, Nat2Z.inj_mul, Z.even_mul. done.
  - rewrite Nat.even_add, Nat.even_mul, Nat2Z.inj_add, Nat2Z.inj_mul, Z.even_add, Z.even_mul. done.
Qed.
Lemma odd_of_nat n : Z.odd (Z.of_nat n) = Nat.odd n.
Proof. by rewrite <-Z.negb_even, <-Nat.negb_even, even_of_nat. Qed.

(** One pass of the prover and of the verifier agree. *)
Lemma proof_step level idx h fv extra :
  level !! idx = Some h -> (1 < length level)%nat ->
  let sibs := (if (idx =? length level - 1)%nat && Nat.odd (length level) then []
               else [default [] (level !! (if Nat.even idx then idx + 1 else idx - 1)%nat)]) in
  exists h', next_level level !! (idx / 2)%nat = Some h' /\
    verify_proof_loop (S fv) h (Z.of_nat idx) (Zlen level) (sibs ++ extra) =
    verify_proof_loop fv h' (Z.of_nat (idx / 2)) (Zlen (next_level level)) extra.
Proof.
  intros Hh Hl sibs. subst sibs. pose proof (lookup_lt_Some _ _ _ Hh) as Hlt.
  cbn [verify_proof_loop]. rewrite (proj2 (Z.ltb_lt 1 _)) by (unfold Zlen; lia).
  rewrite Zlen_next_level. assert (Z.of_nat idx / 2 = Z.of_nat (idx / 2)) as -> by by rewrite Nat2Z.inj_div.
  assert ((Z.of_nat idx =? Zlen level - 1) && (Zlen level mod 2 =? 1) =
    (idx =? length level - 1)%nat && Nat.odd (length level)) as ->.
  { f_equal.
    - apply eq_true_iff_eq. rewrite Z.eqb_eq, Nat.eqb_eq. unfold Zlen. lia.
    - unfold Zlen. rewrite Zmod_odd, odd_of_nat. by destruct (Nat.odd (length level)). }
  assert ((Z.of_nat idx mod 2 =? 0) = Nat.even idx) as ->.
  { rewrite Zmod_even, even_of_nat. by destruct (Nat.even idx). }
  destruct ((idx =? length level - 1)%nat && Nat.odd (length level)) eqn:Elast.
  - apply andb_true_iff in Elast as [Ei Eo]. apply Nat.eqb_eq in Ei. apply Nat.odd_spec in Eo as [k Hk].
    assert (idx = 2 * k)%nat as -> by lia. rewrite (Nat.mul_comm 2 k), Nat.div_mul by lia.
    exists (node_hash h h true). split; [|done]. apply next_level_last; [done|lia].
  - destruct (Nat.even idx) eqn:Ee.
    + apply Nat.even_spec in Ee as [k ->]. rewrite (Nat.mul_comm 2 k), Nat.div_mul by lia.
      destruct (lookup_lt_is_Some_2 level (k * 2 + 1)) as [s Hs].
      { apply andb_false_iff in Elast as [E|E]; [apply Nat.eqb_neq in E; lia|].
        rewrite <-Nat.negb_even in E. apply negb_false_iff, Nat.even_spec in E as [q Hq]. lia. }
      rewrite Hs. exists (node_hash h s false). split; [|done]. apply next_level_pair; [done|by rewrite (Nat.mul_comm 2 k)].
    + rewrite <-Nat.negb_odd in Ee. apply negb_false_iff, Nat.odd_spec in Ee as [k ->].
      assert ((2 * k + 1) / 2 = k)%nat as ->.
      { rewrite (Nat.mul_comm 2 k), Nat.div_add_l by lia. change (1 / 2)%nat with 0%nat. lia. }
      destruct (lookup_lt_is_Some_2 level (2 * k)) as [s Hs]; [lia|].
      replace (2 * k + 1 - 1)%nat with (2 * k)%nat by lia. rewrite Hs.
      exists (node_hash s h false). split; [|done]. by apply next_level_pair.
Qed.

Lemma proof_verifies n : forall level idx h fm fp,
  level !! idx = Some h -> (length level <= 2 ^ n)%nat -> (length level <= fm)%nat -> (length level <= fp)%nat ->
  exists root, merkle_loop fm level !! 0%nat = Some root /\
    (forall fv extra, (n <= fv)%nat -> verify_proof_loop fv h (Z.of_nat idx) (Zlen level)
       (merkle_proof_loop fp level idx ++ extra) = Some (root, extra)) /\
    (length (merkle_proof_loop fp level idx) <= n)%nat.
Proof.
  assert (forall level idx (h : Hash32), level !! idx = Some h -> (length level <= 1)%nat ->
    forall fm fp, (length level <= fm)%nat -> (length level <= fp)%nat ->
    exists root, merkle_loop fm level !! 0%nat = Some root /\
    (forall fv extra, verify_proof_loop fv h (Z.of_nat idx) (Zlen level)
       (merkle_proof_loop fp level idx ++ extra) = Some (root, extra)) /\
    length (merkle_proof_loop fp level idx) = 0%nat) as Hbase.
  { intros level idx h Hh Hle fm fp Hm Hp. destruct level as [|x [|]]; [done| |cbn in Hle; lia].
    apply lookup_lt_Some in Hh as Hi. assert (idx = 0%nat) as -> by (cbn in Hi; lia). cbn in Hh. simplify_eq.
    destruct fm as [|fm]; [cbn in Hm; lia|]. destruct fp as [|fp]; [cbn in Hp; lia|]. exists h.
    split; [done|]. split; [|done]. intros [|fv] extra; done. }
  induction n as [|n IH]; intros level idx h fm fp Hh Hn Hm Hp.
  - destruct (Hbase level idx h Hh Hn fm fp Hm Hp) as (root & H1 & H2 & H3). exists root. rewrite H3. auto.
  - destruct (Nat.le_gt_cases (length level) 1) as [Hle|Hgt].
    { destruct (Hbase level idx h Hh Hle fm fp Hm Hp) as (root & H1 & H2 & H3). exists root. rewrite H3.
      split; [done|]. split; [auto|lia]. }
    pose proof (half_lt (length level) ltac:(lia)) as Hhalf.
    destruct fm as [|fm]; [lia|]. destruct fp as [|fp]; [lia|]. cbn [merkle_loop merkle_proof_loop].
    rewrite (proj2 (Nat.ltb_lt 1 _)) by lia.
    destruct (proof_step level idx h 0 [] Hh Hgt) as (h' & Hh' & _).
    assert (length (next_level level) <= 2 ^ n)%nat as Hn'.
    { rewrite length_next_level. change (2 ^ S n)%nat with (2 * 2 ^ n)%nat in Hn.
      apply Nat.lt_succ_r, Nat.Div0.div_lt_upper_bound. lia. }
    destruct (IH (next_level level) (idx / 2)%nat h' fm fp Hh' Hn') as (root & H1 & H2 & H3);
      [rewrite length_next_level; lia..|].
    exists root. split; [done|]. split.
    + intros fv extra Hfv. destruct fv as [|fv]; [lia|].
      destruct (proof_step level idx h fv (merkle_proof_loop fp (next_level level) (idx / 2) ++ extra) Hh Hgt) as (h'' & Hh'' & Heq).
      assert (h'' = h') as -> by congruence. cbv zeta in Heq. rewrite <-app_assoc. rewrite Heq. apply H2. lia.
    + rewrite length_app. destruct (_ && _); cbn [length]; lia.
Qed.

(** Every transaction of a block has an inclusion proof that verifies: for
    any list of up to [2^MERKLE_MAX_DEPTH] leaves (the block limit of 4096
    transactions) and any index into it, [merkle_proof] returns a proof of at
    most [MERKLE_MAX_DEPTH] siblings and [verify_merkle_proof] accepts it. *)
Theorem merkle_proof_complete (leaves : list Hash32) (index : nat) (leaf : Hash32) :
  leaves !! index = Some leaf -> Zlen leaves <= 2 ^ MERKLE_MAX_DEPTH ->
  exists p, merkle_proof leaves index = Some p /\ Zlen (mp_siblings p) <= MERKLE_MAX_DEPTH /\
    verify_merkle_proof leaf p (merkle_root leaves) = true.
Proof.
  intros Hl Hlen. pose proof (lookup_lt_Some _ _ _ Hl) as Hi. unfold MERKLE_MAX_DEPTH in *.
  assert (length leaves <= 2 ^ 12)%nat as Hn by (unfold Zlen in Hlen; change (2 ^ 12)%nat with 4096%nat; lia).
  destruct (proof_verifies 12 leaves index leaf (length leaves) (length leaves) Hl Hn) as (root & H1 & H2 & H3); [lia..|].
  unfold merkle_proof. rewrite bool_decide_eq_false_2 by (intros ->; done).
  rewrite (proj2 (Nat.leb_gt _ _)) by done. cbn [orb]. rewrite (proj2 (Z.ltb_ge _ _)) by (unfold umax; lia).
  eexists. split; [done|]. cbn [mp_siblings]. split; [unfold Zlen; lia|].
  unfold verify_merkle_proof. cbn [mp_tx_count mp_index mp_siblings]. unfold MERKLE_MAX_DEPTH.
  rewrite (proj2 (Z.eqb_neq _ _)), (proj2 (Z.leb_gt _ _)), (proj2 (Z.ltb_ge _ _)) by (unfold Zlen; lia). cbn [orb].
  specialize (H2 32%nat [] ltac:(lia)). rewrite app_nil_r in H2. rewrite H2.
  rewrite bool_decide_eq_true_2 by done. cbn [andb]. unfold bytes_eqb. apply bool_decide_eq_true.
  unfold merkle_root. destruct leaves; [done|]. by rewrite H1.
Qed.

Lemma merkle_proof_complete_witness :
  exists p, merkle_proof [replicate 32 1; replicate 32 2; replicate 32 3] 2 = Some p /\
    Zlen (mp_siblings p) <= MERKLE_MAX_DEPTH /\
    verify_merkle_proof (replicate 32 3) p (merkle_root [replicate 32 1; replicate 32 2; replicate 32 3]) = true.
Proof.
  apply (merkle_proof_complete [replicate 32 1; replicate 32 2; replicate 32 3] 2 (replicate 32 3));
    [reflexivity|vm_compute; discriminate].
Defined.

(** The root of one transaction is its leaf, with the empty proof. *)
Lemma merkle_proof_sound_witness :
  verify_merkle_proof (leaf_hash [7]) (MkMerkleProof 0 1 []) (tx_root [[7]]) = true /\
  (In [7] [[7]] \/ blake3_collision).
Proof.
  assert (verify_merkle_proof (leaf_hash [7]) (MkMerkleProof 0 1 []) (tx_root [[7]]) = true) as Hv.
  { unfold verify_merkle_proof. cbn. unfold bytes_eqb. apply bool_decide_eq_true. reflexivity. }
  split; [exact Hv|].
  apply (merkle_proof_sound [7] [[7]] (MkMerkleProof 0 1 [])); [discriminate|constructor|exact Hv].
Defined.
