(* ===== verification/TxRules.v ===== *)
(** Transaction and coinbase rules (src/lib/consensus/src/tx.rs). *)

From Stdlib Require Import ZArith Lia List.
From stdpp Require Import base list numbers.
From S2P Require Import Prelude Constants Work Codec Crypto.
Open Scope Z_scope.

Record AccountState := MkAccountState { as_balance : Z; as_nonce : Z }.

Inductive TxError :=
| NotAuthorKey
| BadSignature
| TxAnnouncementLength (len : Z)
| TxFeeBelowFloor (fee : Z)
| TxBadNonce (expected got : Z)
| TxInsufficientBalance (need have : Z)
| AmountOverflow
| FeeSumOverflow
| RecordDoesNotDecode (index : Z) (err : CodecError)
| MissingCoinbase
| MisplacedCoinbase (index : Z)
| CoinbaseHeightMismatch (header coinbase : Z)
| CoinbaseRewardMismatch (expected got : Z)
| CoinbaseFeesMismatch (expected got : Z)
| AuthorNoteLenMismatch (header coinbase : Z)
| TxAuthorNoteTooLong (len : Z).

Definition check_announcement_stateless `{Ed25519} (network : Network) (tx : AnnouncementTx)
    (author_pubkey : bytes) : outcome TxError unit :=
  guard! negb (bytes_eqb (a_from_pub tx) author_pubkey) else NotAuthorKey ;;
  let? _ := map_err (fun _ => TxAnnouncementLength (Zlen (a_payload tx))) (AnnouncementTx_check_payload_len tx) in
  map_err (fun _ => BadSignature) (verify_announcement_signature network tx).

Definition check_announcement_stateful (tx : AnnouncementTx) (acct : AccountState) (spendable : Z)
    : outcome TxError unit :=
  guard! a_fee tx <? FEE_FLOOR_MILE else TxFeeBelowFloor (a_fee tx) ;;
  guard! negb (a_nonce tx =? as_nonce acct) else TxBadNonce (as_nonce acct) (a_nonce tx) ;;
  guard! spendable <? a_fee tx else TxInsufficientBalance (a_fee tx) spendable ;;
  Ok tt.

Definition apply_announcement (acct : AccountState) (tx : AnnouncementTx) : outcome TxError AccountState :=
  let? balance := ok_or (checked_sub 128 (as_balance acct) (a_fee tx))
                    (TxInsufficientBalance (a_fee tx) (as_balance acct)) in
  let? nonce := ok_or (checked_add 64 (as_nonce acct) 1) AmountOverflow in
  Ok (MkAccountState balance nonce).

Definition block_fee_total (txs : list Tx) : outcome TxError Z :=
  ofold (fun total tx => ok_or (checked_add 128 total (Tx_fee tx)) FeeSumOverflow) 0 txs.

(** The scan for a second coinbase, from index [i]. *)
Fixpoint no_other_coinbase (i : Z) (txs : list Tx) : outcome TxError unit :=
  match txs with
  | [] => Ok tt
  | tx :: txs =>
    guard! Tx_type_byte tx =? TX_TYPE_COINBASE else MisplacedCoinbase i ;;
    no_other_coinbase (i + 1) txs
  end.
Definition check_body_structure (txs : list Tx) : outcome TxError CoinbaseTx :=
  match txs with
  | Coinbase cb :: rest => let? _ := no_other_coinbase 1 rest in Ok cb
  | _ => Err MissingCoinbase
  end.

Definition decode_body (body : BlockBody) : outcome TxError (list Tx) :=
  try_mapi (fun i tx => map_err (RecordDoesNotDecode (Z.of_nat i)) (decode_tx tx)) 0 (BlockBody_all_bytes body).

Definition check_coinbase (cb : CoinbaseTx) (header_height header_author_note_len fee_total : Z)
    : outcome TxError unit :=
  guard! negb (c_height cb =? header_height) else CoinbaseHeightMismatch header_height (c_height cb) ;;
  let expected := block_reward header_height in
  guard! negb (c_reward cb =? expected) else CoinbaseRewardMismatch expected (c_reward cb) ;;
  guard! negb (c_fees cb =? fee_total) else CoinbaseFeesMismatch fee_total (c_fees cb) ;;
  let note_len := Zlen (n_payload (c_note cb)) in
  guard! AUTHOR_NOTE_MAX_BYTES <? note_len else TxAuthorNoteTooLong note_len ;;
  guard! negb (header_author_note_len =? note_len) else AuthorNoteLenMismatch header_author_note_len note_len ;;
  Ok tt.

Definition coinbase_credit (cb : CoinbaseTx) : outcome TxError Z :=
  ok_or (checked_add 128 (c_reward cb) (c_fees cb)) AmountOverflow.

(** ** What the checks establish *)
Definition fee_sum (txs : list Tx) : Z := foldr (fun tx s => Tx_fee tx + s) 0 txs.
Definition is_coinbase (tx : Tx) : bool := match tx with Coinbase _ => true | _ => false end.

Lemma tx_fee_bounds tx : tx_wf tx -> 0 <= Tx_fee tx < 2 ^ 128.
Proof. destruct tx; cbn; [lia|intros (_ & _ & _ & ? & _); done|intros (_ & ? & _); done]. Qed.

Lemma block_fee_total_acc txs : forall acc total,
  ofold (fun total tx => ok_or (checked_add 128 total (Tx_fee tx)) FeeSumOverflow) acc txs = Ok total ->
  total = acc + fee_sum txs.
Proof.
  induction txs as [|tx txs IH]; intros acc total H; cbn [ofold] in H; [invert_ok; cbn; lia|].
  step_in H. apply ok_or_ok, checked_add_some in E as [-> _]. apply IH in H. cbn. change (foldr _ 0 txs) with (fee_sum txs). lia.
Qed.
Lemma block_fee_total_spec txs total : block_fee_total txs = Ok total -> total = fee_sum txs.
Proof. intros H. apply block_fee_total_acc in H. lia. Qed.

Lemma no_other_coinbase_spec txs : forall i,
  no_other_coinbase i txs = Ok tt <-> Forall (fun tx => is_coinbase tx = false) txs.
Proof.
  induction txs as [|tx txs IH]; intros i; cbn [no_other_coinbase]; [by split|].
  assert ((Tx_type_byte tx =? TX_TYPE_COINBASE) = is_coinbase tx) as -> by by destruct tx.
  destruct (is_coinbase tx) eqn:E; [split; [done|]; intros Hf; inversion Hf; congruence|].
  rewrite IH. split; [by constructor|]. by inversion 1.
Qed.

Lemma check_body_structure_spec txs cb :
  check_body_structure txs = Ok cb <->
  exists rest, txs = Coinbase cb :: rest /\ Forall (fun tx => is_coinbase tx = false) rest.
Proof.
  unfold check_body_structure. split.
  - intros H. destruct txs as [|[c|t|a] rest]; try discriminate H. step_in H. invert_ok. destruct a.
    exists rest. split; [done|]. by apply (no_other_coinbase_spec _ 1).
  - intros (rest & -> & Hr). by rewrite (proj2 (no_other_coinbase_spec rest 1) Hr).
Qed.

Lemma check_coinbase_spec cb height note_len fees :
  check_coinbase cb height note_len fees = Ok tt <->
  c_height cb = height /\ c_reward cb = block_reward height /\ c_fees cb = fees /\
  Zlen (n_payload (c_note cb)) <= AUTHOR_NOTE_MAX_BYTES /\ note_len = Zlen (n_payload (c_note cb)).
Proof.
  unfold check_coinbase. destruct (Z.eqb_spec (c_height cb) height); cbn [negb]; [|split; [done|lia]].
  destruct (Z.eqb_spec (c_reward cb) (block_reward height)); cbn [negb]; [|split; [done|lia]].
  destruct (Z.eqb_spec (c_fees cb) fees); cbn [negb]; [|split; [done|lia]].
  destruct (Z.ltb_spec AUTHOR_NOTE_MAX_BYTES (Zlen (n_payload (c_note cb)))); [split; [done|lia]|].
  destruct (Z.eqb_spec note_len (Zlen (n_payload (c_note cb)))); cbn [negb]; split; (done || lia).
Qed.

Lemma np_no_other_coinbase txs : forall i, no_other_coinbase i txs <> Panic.
Proof. induction txs as [|tx txs IH]; intros i; cbn [no_other_coinbase]; no_panic. Qed.
#[export] Hint Resolve np_no_other_coinbase : nopanic.
Lemma np_check_body_structure txs : check_body_structure txs <> Panic.
Proof. unfold check_body_structure. no_panic. Qed.
Lemma np_decode_body body : decode_body body <> Panic.
Proof. unfold decode_body. no_panic. Qed.
Lemma np_block_fee_total txs : block_fee_total txs <> Panic.
Proof. unfold block_fee_total. no_panic. Qed.
Lemma np_check_coinbase cb h n f : check_coinbase cb h n f <> Panic.
Proof. unfold check_coinbase. no_panic. Qed.
Lemma np_coinbase_credit cb : coinbase_credit cb <> Panic.
Proof. unfold coinbase_credit. no_panic. Qed.
Lemma np_check_announcement_stateless `{Ed25519} net tx k : check_announcement_stateless net tx k <> Panic.
Proof.
  unfold check_announcement_stateless, verify_announcement_signature, AnnouncementTx_check_payload_len,
    announcement_message_of, announcement_signing_message, announcement_signing_message_with_chain_id, verify_signature.
  no_panic.
Qed.
Lemma np_verify_transfer_signature `{Ed25519} net tx : verify_transfer_signature net tx <> Panic.
Proof. unfold verify_transfer_signature, verify_signature. no_panic. Qed.
#[export] Hint Resolve np_check_body_structure np_decode_body np_block_fee_total np_check_coinbase np_coinbase_credit
  np_check_announcement_stateless np_verify_transfer_signature : nopanic.

(** The reward schedule is enforced exactly: a block's transactions pass the
    structure, fee-total and coinbase checks only when the first one is the only
    coinbase, it carries the block's height, it claims exactly the scheduled
    subsidy (neither more nor less) plus exactly the sum of the other
    transactions' fees, and its credit is that total. *)
Theorem coinbase_rules_exact (txs : list Tx) (cb : CoinbaseTx) (height note_len fees credit : Z) :
  check_body_structure txs = Ok cb -> block_fee_total txs = Ok fees ->
  check_coinbase cb height note_len fees = Ok tt -> coinbase_credit cb = Ok credit ->
  txs !! 0%nat = Some (Coinbase cb) /\
  (forall i c, txs !! i = Some (Coinbase c) -> i = 0%nat) /\
  c_height cb = height /\ c_reward cb = block_reward height /\
  c_fees cb = fee_sum (drop 1 txs) /\ credit = block_reward height + fee_sum (drop 1 txs) /\ credit < 2 ^ 128.
Proof.
  intros Hs Hf Hc Hr. apply check_body_structure_spec in Hs as (rest & -> & Hrest).
  apply block_fee_total_spec in Hf. apply check_coinbase_spec in Hc as (Hh & Hw & Hfe & _).
  unfold coinbase_credit in Hr. apply ok_or_ok, checked_add_some in Hr as [-> Hb]. split; [done|].
  split.
  - intros [|i] c Hi; [done|]. cbn in Hi. pose proof (Forall_lookup_1 _ _ _ _ Hrest Hi) as Hk. done.
  - cbn [drop]. rewrite drop_0. change (fee_sum (Coinbase cb :: rest)) with (0 + fee_sum rest) in Hf.
    rewrite Z.add_0_l in Hf. subst. rewrite Hw, Hfe in *. repeat split; lia.
Qed.

Definition sample_coinbase : CoinbaseTx := MkCoinbaseTx 7 (replicate 20 1) BLOCK_SUBSIDY 5 (MkAuthorNote 0 []).
Lemma coinbase_rules_exact_witness :
  let txs := [Coinbase sample_coinbase; Transfer sample_transfer] in
  txs !! 0%nat = Some (Coinbase sample_coinbase) /\
  (forall i c, txs !! i = Some (Coinbase c) -> i = 0%nat) /\
  c_height sample_coinbase = 7 /\ c_reward sample_coinbase = block_reward 7 /\
  c_fees sample_coinbase = fee_sum (drop 1 txs) /\ 200005 = block_reward 7 + fee_sum (drop 1 txs) /\ 200005 < 2 ^ 128.
Proof.
  apply (coinbase_rules_exact [Coinbase sample_coinbase; Transfer sample_transfer] sample_coinbase 7 0 5 200005);
    vm_compute; reflexivity.
Defined.
