(* ===== verification/ChainTypes.v ===== *)
(** The data of the chain crate (src/lib/chain/src/types.rs and error.rs):
    accounts, header records, undo records, parameters, and the reasons a header,
    body or transaction is refused, with their permanence and their tag at the
    submission interface. *)

From Stdlib Require Import ZArith Lia List String.
From stdpp Require Import base list numbers.
From S2P Require Import Prelude Constants Limbs Asert Work Rules Checkpoint Codec Crypto TxRules.
Open Scope Z_scope.

Abbreviation Address := (list Z).
Abbreviation SourceId := Z.

Record Account := MkAccount { acc_balance : Z; acc_nonce : Z }.
Definition Account_is_absent (a : Account) : bool := (acc_balance a =? 0) && (acc_nonce a =? 0).
#[export] Instance Account_eq_dec : EqDecision Account.
Proof. solve_decision. Defined.

Record TipRef := MkTipRef { tip_height : Z; tip_hash : Hash32; tip_time : Z; tip_chainwork : Work }.

Record HeaderRec := MkHeaderRec {
  hr_height : Z;
  hr_hash : Hash32;
  hr_prev_hash : Hash32;
  hr_time : Z;
  hr_bits : Z;
  hr_raw : bytes;
}.

Definition expect_ok_or_panic {E F A} (m : outcome E A) : outcome F A :=
  match m with Ok a => Ok a | _ => Panic end.
Definition HeaderRec_from_raw {E} (raw : bytes) : outcome E HeaderRec :=
  let? h := expect_ok_or_panic (Header_decode raw) in
  Ok (MkHeaderRec (h_height h) (header_hash raw) (h_prev_hash h) (h_time h) (h_bits h) raw).
Definition HeaderRec_header {E} (r : HeaderRec) : outcome E Header :=
  expect_ok_or_panic (Header_decode (hr_raw r)).

Record SideHeaderRec := MkSideHeaderRec { sh_rec : HeaderRec; sh_chainwork : Work }.
Record UndoRec := MkUndoRec { u_addr : Address; u_prev_balance : Z; u_prev_nonce : Z; u_existed : bool }.
Record StateDelta := MkStateDelta { d_addr : Address; d_balance : Z; d_nonce : Z }.

Record CommitBlock := MkCommitBlock {
  cb_header_raw : bytes;
  cb_hash : Hash32;
  cb_height : Z;
  cb_body : bytes;
  cb_deltas : list StateDelta;
  cb_undo : list UndoRec;
  cb_issued_delta : Z;
  cb_chainwork : Work;
  cb_txids : list Hash32;
}.
Record ReorgCommit := MkReorgCommit { rc_rollback : list Z; rc_apply : list CommitBlock }.
Record DeepReorgCommit := MkDeepReorgCommit { drc_rewind_to : Z; drc_apply : list CommitBlock }.

Inductive Trust := OurStore | Untrusted.

Record MempoolParams := MkMempoolParams {
  max_txs : Z;
  max_bytes : Z;
  max_nonce_gap : Z;
  max_txs_per_sender : Z;
  ttl_secs : Z;
  relay_fee_floor : Z;
  ingress_per_source : Z;
  ingress_global : Z;
  reorg_reinject_cap : Z;
}.

Definition TX_COST_MILLI : Z := 1000.
Definition effective_per_sender (p : MempoolParams) : Z := Z.min (max_nonce_gap p + 1) (max_txs_per_sender p).
Definition ingress_source_rate_milli (p : MempoolParams) : Z := saturating_mul 64 (ingress_per_source p) TX_COST_MILLI.
Definition ingress_source_burst_milli (p : MempoolParams) : Z := ingress_source_rate_milli p.
Definition ingress_shared_rate_milli (p : MempoolParams) : Z := saturating_mul 64 (ingress_global p) TX_COST_MILLI / 2.
Definition ingress_shared_burst_milli (p : MempoolParams) : Z := ingress_shared_rate_milli p.
Definition ingress_reserve_rate_milli (p : MempoolParams) (max_peers : Z) : Z :=
  ingress_shared_rate_milli p / Z.max max_peers 1.
Definition ingress_reserve_burst_milli (p : MempoolParams) : Z := 2 * TX_COST_MILLI.

Inductive TxOrigin := Local | Peer (s : SourceId).
Inductive Solicitation := Unsolicited | SolicitedIbd | SolicitedSteady.
Definition charges_budget (s : Solicitation) : bool := match s with SolicitedIbd => false | _ => true end.
Definition charges_child_quota (s : Solicitation) : bool := match s with Unsolicited => true | _ => false end.

Definition MempoolParams_default : MempoolParams :=
  MkMempoolParams MAX_MEMPOOL_TXS (12 * 1024 * 1024) MAX_MEMPOOL_NONCE_GAP MAX_MEMPOOL_TXS_PER_SENDER
    (24 * 3600) 1 100 2000 4096.

Inductive Profile := Real | Regtest.

Record ChainParams := MkChainParams {
  profile : Profile;
  network : Network;
  pow_limit : Target;
  genesis_bits : Z;
  asert_anchor_interval : Z;
  author_pubkey : bytes;
  authority_keys : list bytes;
  checkpoint_threshold : Z;
  max_reorg_depth : Z;
  sync_window_secs : Z;
  pow_budget_micros : Z;
  pow_budget_window_ms : Z;
  pow_budget_burst_micros : Z;
  max_duplicates_per_batch : Z;
  max_duplicates_per_window : Z;
  duplicate_window_secs : Z;
  max_peers : Z;
  cpu_pool_threads : Z;
  child_pow_failures_per_source : Z;
  child_quota_window_secs : Z;
  max_sources : Z;
  max_side_headers : Z;
  max_staged_headers : Z;
  negative_cache_entries : Z;
  reorg_overlay_max_accounts : Z;
  mempool : MempoolParams;
}.

Definition default_pow_limit : Target := [2 ^ 64 - 1; 2 ^ 64 - 1; 2 ^ 64 - 1; 0x0000FFFFFFFFFFFF].
Definition REGTEST_BITS : Z := 0x207FFFFF.
Definition regtest_pow_limit {E} : outcome E Target := expect_ok_or_panic (from_compact REGTEST_BITS).

Definition ChainParams_default : ChainParams :=
  MkChainParams Real Main default_pow_limit (to_compact default_pow_limit) ASERT_ANCHOR_INTERVAL
    (replicate 32 0) [] 1 MAX_REORG_DEPTH SYNC_WINDOW_SECS 100000 10000 300000 256 1024 60 128 2 1
    (2 * BLOCK_TIME_SECS) 128 16384 256 65536 714000 MempoolParams_default.

Definition regtest {E} (author : bytes) : outcome E ChainParams :=
  let? limit := regtest_pow_limit in
  let d := ChainParams_default in
  Ok (MkChainParams Regtest (network d) limit REGTEST_BITS (asert_anchor_interval d) author (authority_keys d)
        (checkpoint_threshold d) (max_reorg_depth d) (sync_window_secs d) (pow_budget_micros d)
        (pow_budget_window_ms d) (pow_budget_burst_micros d) (max_duplicates_per_batch d)
        (max_duplicates_per_window d) (duplicate_window_secs d) (max_peers d) (cpu_pool_threads d)
        (child_pow_failures_per_source d) (child_quota_window_secs d) (max_sources d) (max_side_headers d)
        (max_staged_headers d) (negative_cache_entries d) (reorg_overlay_max_accounts d) (mempool d)).
Definition profile_is_consistent {E} (p : ChainParams) : outcome E bool :=
  match profile p with
  | Real => Ok (bool_decide (pow_limit p = default_pow_limit))
  | Regtest => let? l := regtest_pow_limit in Ok (bool_decide (pow_limit p = l))
  end.

Definition class_rate_micros_per_sec (p : ChainParams) : Z := saturating_mul 64 250000 (cpu_pool_threads p).
Definition class_shared_rate_micros_per_sec (p : ChainParams) : Z := class_rate_micros_per_sec p / 2.
Definition class_shared_burst_micros (p : ChainParams) : Z := class_shared_rate_micros_per_sec p.
Definition class_reserve_rate_micros_per_sec (p : ChainParams) : Z :=
  class_shared_rate_micros_per_sec p / Z.max (max_peers p) 1.
Definition class_reserve_burst_micros (p : ChainParams) (cost_micros : Z) : Z := saturating_mul 64 cost_micros 2.
Definition class_reserve_is_survivable (p : ChainParams) (cost_micros : Z) : bool :=
  cost_micros <=? saturating_mul 64 (class_reserve_rate_micros_per_sec p) 30.
Definition class_aggregate_rate_micros_per_sec (p : ChainParams) : Z :=
  saturating_add 64 (class_shared_rate_micros_per_sec p)
    (saturating_mul 64 (class_reserve_rate_micros_per_sec p) (max_sources p)).

(** ** Rejections *)
Inductive Permanence := Permanent | Transient.

Inductive Reject :=
| BadHeaderLength (got : Z)
| ExtRootNotZero
| AuthorNoteLen (got : Z)
| BadVersion (got : Z)
| BadBits (got : Z)
| RejCheckpointMismatch (height : Z)
| UnknownParent (prev : Hash32)
| HeightNotParentPlusOne (got expected : Z)
| BitsNotAsert (got expected : Z)
| AsertAnchorUnavailable (height : Z)
| RejTimestampTooOld (mtp time : Z)
| RejTimestampTooFarInFuture (time limit : Z)
| ForkTooDeep (depth cap : Z)
| InsufficientClaimedWork
| PowInvalid (hash : Hash32)
| BudgetExhausted (source : SourceId)
| DuplicateFlood (source : SourceId) (count : Z)
| StagingFull (source : SourceId)
| BatchTooLong (got cap : Z)
| TooManySources (source : SourceId) (cap : Z)
| BodyNotAdmissible (hash : Hash32)
| BodyAlreadyHeld (hash : Hash32)
| BodyStructure (detail : string)
| TxRootMismatch
| RejTx (index : Z) (err : TxError)
| BadTransferSignature (index : Z)
| RejFeeBelowFloor (index : Z)
| RejBadNonce (index expected got : Z)
| RejInsufficientBalance (index need have : Z)
| ArithmeticOverflow
| Rule (e : RuleError)
| BranchInvalid (height : Z) (hash : Hash32) (cause : Reject)
| ResyncRequired (fork_height replay_floor : Z)
| Busy
| SinkRefused (detail : string)
| Halted (detail : string)
| BootInvariant (detail : string)
| TxKnown
| TxStale (next got : Z)
| NonceGapTooLarge (next got : Z)
| TxTypeNotRelayable (type_byte : Z)
| BelowRelayFloor (fee floor : Z)
| ReplacementUnderpriced (need got : Z)
| PoolFull
| SenderCap (cap : Z)
| TxDecode
| TxTooLarge (got : Z).

Inductive SubmitTag :=
| TagMalformed | TagTooLarge | TagFeeBelowFloor | TagBadSignature | TagNotAuthorKey | TagNonceOutOfRange
| TagInsufficientFunds | TagDuplicate | TagReplacementUnderpriced | TagPoolFull | TagNotReady.

Definition submit_tag (r : Reject) : SubmitTag :=
  match r with
  | TxDecode | TxTypeNotRelayable _ | BadHeaderLength _ | ExtRootNotZero | AuthorNoteLen _ | BadVersion _
  | BadBits _ | BodyStructure _ | TxRootMismatch | BodyNotAdmissible _ | BodyAlreadyHeld _
  | ArithmeticOverflow => TagMalformed
  | TxTooLarge _ => TagTooLarge
  | BelowRelayFloor _ _ | RejFeeBelowFloor _ => TagFeeBelowFloor
  | BadTransferSignature _ => TagBadSignature
  | TxStale _ _ | NonceGapTooLarge _ _ | RejBadNonce _ _ _ => TagNonceOutOfRange
  | RejInsufficientBalance _ _ _ => TagInsufficientFunds
  | TxKnown => TagDuplicate
  | ReplacementUnderpriced _ _ => TagReplacementUnderpriced
  | PoolFull | SenderCap _ | StagingFull _ => TagPoolFull
  | RejTx _ err =>
    match err with
    | NotAuthorKey => TagNotAuthorKey
    | BadSignature => TagBadSignature
    | TxFeeBelowFloor _ => TagFeeBelowFloor
    | TxBadNonce _ _ => TagNonceOutOfRange
    | TxInsufficientBalance _ _ => TagInsufficientFunds
    | TxAnnouncementLength _ | AmountOverflow | FeeSumOverflow | RecordDoesNotDecode _ _ | MissingCoinbase
    | MisplacedCoinbase _ | CoinbaseHeightMismatch _ _ | CoinbaseRewardMismatch _ _ | CoinbaseFeesMismatch _ _
    | AuthorNoteLenMismatch _ _ | TxAuthorNoteTooLong _ => TagMalformed
    end
  | Busy | Halted _ | SinkRefused _ | BootInvariant _ | BudgetExhausted _ | DuplicateFlood _ _ | BatchTooLong _ _
  | TooManySources _ _ | RejCheckpointMismatch _ | UnknownParent _ | HeightNotParentPlusOne _ _ | BitsNotAsert _ _
  | AsertAnchorUnavailable _ | RejTimestampTooOld _ _ | RejTimestampTooFarInFuture _ _ | ForkTooDeep _ _
  | InsufficientClaimedWork | PowInvalid _ | Rule _ | BranchInvalid _ _ _ | ResyncRequired _ _ => TagNotReady
  end.

Definition why (r : Reject) : string :=
  (match r with
  | BadHeaderLength _ => "header is not 132 bytes"
  | ExtRootNotZero => "ext_root is not zero"
  | AuthorNoteLen _ => "author_note_len out of range"
  | BadVersion _ => "version bits are not 001"
  | BadBits _ => "bits do not expand to a legal target"
  | RejCheckpointMismatch _ => "checkpoint mismatch at this height"
  | UnknownParent _ => "the chain does not hold the parent"
  | HeightNotParentPlusOne _ _ => "height is not parent + 1"
  | BitsNotAsert _ _ => "bits are not ASERT(parent)"
  | AsertAnchorUnavailable _ => "the ASERT anchor is unreachable"
  | RejTimestampTooOld _ _ => "timestamp at or below the median time past"
  | RejTimestampTooFarInFuture _ _ => "timestamp too far in the future"
  | ForkTooDeep _ _ => "the branch forks deeper than the reorg cap"
  | InsufficientClaimedWork => "the branch claims no more work than our tip"
  | PowInvalid _ => "proof of work is invalid"
  | BudgetExhausted _ => "this source has spent its ingest budget"
  | DuplicateFlood _ _ => "this source is replaying known headers"
  | StagingFull _ => "this source's staging buffer is full"
  | BatchTooLong _ _ => "the batch is longer than MAX_HEADERS_PER_MSG"
  | TooManySources _ _ => "the per-source table is full"
  | BodyNotAdmissible _ => "no PoW-verified header for this body"
  | BodyAlreadyHeld _ => "this body is already held"
  | BodyStructure _ => "the body does not parse"
  | TxRootMismatch => "the body's merkle root is not the header's tx_root"
  | RejTx _ _ => "a transaction rule failed"
  | BadTransferSignature _ => "a transfer signature failed"
  | RejFeeBelowFloor _ => "a fee is below the consensus floor"
  | RejBadNonce _ _ _ => "a transaction nonce is wrong"
  | RejInsufficientBalance _ _ _ => "a sender cannot cover the outlay"
  | ArithmeticOverflow => "arithmetic overflow"
  | Rule _ => "the authoritative predicate refused the branch"
  | BranchInvalid _ _ _ => "a candidate block failed body validation"
  | ResyncRequired _ _ => "the fork point is below the replay floor"
  | Busy => "storage is busy"
  | SinkRefused _ => "storage refused the write"
  | Halted _ => "the manager is halted"
  | BootInvariant _ => "a boot invariant failed"
  | TxKnown => "already in the pool"
  | TxStale _ _ => "nonce below the sender's next"
  | NonceGapTooLarge _ _ => "nonce gap too large"
  | TxTypeNotRelayable _ => "this transaction type is never relayed"
  | BelowRelayFloor _ _ => "below the operator relay floor"
  | ReplacementUnderpriced _ _ => "replacement underpriced"
  | PoolFull => "the mempool is full"
  | SenderCap _ => "this sender holds the per-sender cap"
  | TxDecode => "the transaction does not decode"
  | TxTooLarge _ => "the transaction is too large"
  end)%string.

Definition permanence (r : Reject) : Permanence :=
  match r with
  | BadHeaderLength _ | ExtRootNotZero | AuthorNoteLen _ | BadVersion _ | BadBits _ | RejCheckpointMismatch _
  | HeightNotParentPlusOne _ _ | BitsNotAsert _ _ | RejTimestampTooOld _ _ | PowInvalid _ => Permanent
  | _ => Transient
  end.

(** ** Reports of a submission *)
Record Rejection := MkRejection { rj_hash : Hash32; rj_height : Z; rj_repair_from : Z; rj_why : string }.
Record Held := MkHeld { he_hash : Hash32; he_height : Z }.
Record Accepted := MkAccepted {
  ac_connected : Z;
  ac_duplicates : Z;
  ac_rejected : Z;
  ac_staged : Z;
  ac_verified_height : Z;
  ac_first_rejection : option Rejection;
  ac_first_held : option Held;
}.
Inductive Progress :=
| NoChange
| NeedBodies (hashes : list Hash32)
| Advanced (tip : TipRef) (rolled_back applied : Z).
Record ChainStats := MkChainStats {
  cst_headers_connected : Z;
  cst_bodies_validated : Z;
  cst_reorgs : Z;
  cst_invalidated : Z;
  cst_poisoned : Z;
  cst_deep_reorgs : Z;
  cst_side_headers_restored : Z;
  cst_headers_readmitted : Z;
}.

(** ** Conditions reported to the observer *)
Inductive SinkError := SinkFull | SinkInvalid (detail : string) | SinkFatal (detail : string).
Inductive EvictReason := Expired | QueuedLowFee | ExecutableTail | Confirmed | ReorgInvalid | ReorgOverflow.
Inductive BudgetClass := Interpreter | Duplicates | Staging | TxIngress | ChildQuota | HeaderClass.
Inductive Condition :=
| CReorgTooDeepRefused (our_tip their_tip depth fork_height : Z)
| CReorgOverlayExhausted (accounts : Z)
| CResyncRequired (fork_height replay_floor : Z)
| CAnchorContradiction (height : Z) (hash : Hash32)
| CAnchorNotPersisted (height : Z) (err : SinkError)
| CBranchInvalidAt (height : Z) (hash : Hash32)
| CDeepReplay (from to blocks : Z)
| CMempoolEvicted (count : Z) (reason : EvictReason)
| CBudgetExhausted (source : SourceId) (class : BudgetClass)
| CDuplicateFlood (source : SourceId) (count : Z)
| CStorageFatal (detail : string)
| CImmatureSpendDropped (addr : Address).

(** Every 132-byte string is a header record, whose header is its decoding. *)
Lemma header_decode_total raw : Zlen raw = HEADER_BYTES -> exists h, Header_decode raw = Ok h.
Proof. intros Hl. unfold Header_decode. rewrite Hl, require_exact_refl. cbn [obind]. eauto. Qed.

Lemma HeaderRec_from_raw_total {E} raw :
  Zlen raw = HEADER_BYTES -> exists r, HeaderRec_from_raw (E := E) raw = Ok r /\ hr_raw r = raw.
Proof.
  intros Hl. destruct (header_decode_total raw Hl) as [h Hd]. unfold HeaderRec_from_raw. rewrite Hd. cbn. eauto.
Qed.

Lemma default_pow_limit_is_consensus : default_pow_limit = POW_LIMIT /\ genesis_bits ChainParams_default = GENESIS_BITS.
Proof. split; reflexivity. Qed.

(** The default parameters give every peer's reserve one interpreter call per
    thirty seconds for any call of up to 58 milliseconds. *)
Lemma default_reserve_survivable cost :
  0 <= cost <= 58590 -> class_reserve_is_survivable ChainParams_default cost = true.
Proof.
  intros Hc. unfold class_reserve_is_survivable. apply Z.leb_le.
  change (saturating_mul 64 (class_reserve_rate_micros_per_sec ChainParams_default) 30) with 58590. lia.
Qed.
