(* ===== verification/State.v ===== *)
(** Account state during validation (src/lib/chain/src/state.rs): the overlay
    of touched accounts over the store with its undo log, and the ledger of
    immature coinbases. The store is a parameter: the function [account] from
    addresses to accounts. *)

From Stdlib Require Import ZArith Lia List.
From stdpp Require Import base list gmap numbers.
From S2P Require Import Prelude Constants Rules TxRules ChainTypes.
Open Scope Z_scope.

Record Overlay := MkOverlay {
  ov_accounts : gmap Address Account;
  ov_undo : gmap Address UndoRec;
  ov_order : list Address;
  ov_max_accounts : Z;
}.

Definition Overlay_new (max_accounts : Z) : Overlay := MkOverlay ∅ ∅ [] max_accounts.

(** [accounts.clear(); accounts.extend(rows)]: a later row wins. *)
Definition Overlay_seed (o : Overlay) (rows : list (Address * Account)) : Overlay :=
  MkOverlay (fold_left (fun m r => <[fst r := snd r]> m) rows ∅) (ov_undo o) (ov_order o) (ov_max_accounts o).
Definition Overlay_len (o : Overlay) : Z := Z.of_nat (size (ov_accounts o)).
Definition Overlay_exhausted (o : Overlay) : bool := ov_max_accounts o <? Overlay_len o.

Section Store.
Context (account : Address -> Account).

(** [get] caches what it reads from the store. *)
Definition Overlay_get (o : Overlay) (addr : Address) : Account * Overlay :=
  match ov_accounts o !! addr with
  | Some a => (a, o)
  | None =>
    let a := account addr in
    (a, MkOverlay (<[addr := a]> (ov_accounts o)) (ov_undo o) (ov_order o) (ov_max_accounts o))
  end.

Definition Overlay_begin_block (o : Overlay) : Overlay :=
  MkOverlay (ov_accounts o) ∅ [] (ov_max_accounts o).

Definition Overlay_capture (o : Overlay) (addr : Address) : Overlay :=
  match ov_undo o !! addr with
  | Some _ => o
  | None =>
    let '(prev, o) := Overlay_get o addr in
    MkOverlay (ov_accounts o)
      (<[addr := MkUndoRec addr (acc_balance prev) (acc_nonce prev) (negb (Account_is_absent prev))]> (ov_undo o))
      (ov_order o ++ [addr]) (ov_max_accounts o)
  end.

Definition Overlay_set (o : Overlay) (addr : Address) (acct : Account) : Overlay :=
  let o := Overlay_capture o addr in
  MkOverlay (<[addr := acct]> (ov_accounts o)) (ov_undo o) (ov_order o) (ov_max_accounts o).

Definition Overlay_credit (o : Overlay) (addr : Address) (amount : Z) : outcome Reject Overlay :=
  let '(a, o) := Overlay_get o addr in
  let? balance := ok_or (checked_add 128 (acc_balance a) amount) ArithmeticOverflow in
  Ok (Overlay_set o addr (MkAccount balance (acc_nonce a))).

(** [self.undo[a]] panics on a missing key; [undo_records] cannot reach one. *)
Definition Overlay_undo_records {E} (o : Overlay) : outcome E (list UndoRec) :=
  try_mapi (fun _ a => expect (ov_undo o !! a)) 0 (ov_order o).

Definition delta_of (addr : Address) (a : Account) : StateDelta :=
  MkStateDelta addr (acc_balance a) (acc_nonce a).
Fixpoint deltas_loop (o : Overlay) (order : list Address) : list StateDelta * Overlay :=
  match order with
  | [] => ([], o)
  | addr :: order =>
    let '(acct, o) := Overlay_get o addr in
    let '(ds, o) := deltas_loop o order in
    (delta_of addr acct :: ds, o)
  end.
Definition Overlay_deltas (o : Overlay) : list StateDelta * Overlay := deltas_loop o (ov_order o).

Definition undo_account (r : UndoRec) : Account := MkAccount (u_prev_balance r) (u_prev_nonce r).
Definition Overlay_apply_undo (o : Overlay) (recs : list UndoRec) : Overlay :=
  MkOverlay (fold_left (fun m r => <[u_addr r := undo_account r]> m) recs (ov_accounts o))
    (ov_undo o) (ov_order o) (ov_max_accounts o).

(** ** The accounts an overlay shows: its own, the store's where it has none *)
Definition view (o : Overlay) (addr : Address) : Account := default (account addr) (ov_accounts o !! addr).

Definition upd (f : Address -> Account) (addr : Address) (a : Account) (x : Address) : Account :=
  if decide (x = addr) then a else f x.

Lemma get_fst o addr : fst (Overlay_get o addr) = view o addr.
Proof. unfold Overlay_get, view. by destruct (ov_accounts o !! addr). Qed.

Lemma get_view o addr x : view (snd (Overlay_get o addr)) x = view o x.
Proof.
  unfold Overlay_get, view. destruct (ov_accounts o !! addr) eqn:E; [done|]. cbn.
  destruct (decide (x = addr)) as [->|Hn]; [by rewrite lookup_insert_eq, E|]. by rewrite lookup_insert_ne.
Qed.

Lemma get_log o addr : ov_undo (snd (Overlay_get o addr)) = ov_undo o /\ ov_order (snd (Overlay_get o addr)) = ov_order o.
Proof. unfold Overlay_get. by destruct (ov_accounts o !! addr). Qed.

Lemma capture_view o addr x : view (Overlay_capture o addr) x = view o x.
Proof.
  unfold Overlay_capture. destruct (ov_undo o !! addr); [done|].
  pose proof (get_view o addr x) as H. destruct (Overlay_get o addr) as [a o1]. exact H.
Qed.

Lemma set_view o addr a x : view (Overlay_set o addr a) x = upd (view o) addr a x.
Proof.
  unfold Overlay_set, upd. rewrite <-(capture_view o addr x). unfold view. cbn.
  destruct (decide (x = addr)) as [->|Hn]; [by rewrite lookup_insert_eq|]. by rewrite lookup_insert_ne.
Qed.

(** ** The undo log

    Relative to the accounts [base] shown when the block began: the log has one
    record per address in [order], without repetition, each holding the account
    of [base], and every address not in the log still shows its [base] account. *)
Record log_inv (base : Address -> Account) (o : Overlay) : Prop := {
  li_nodup : List.NoDup (ov_order o);
  li_dom : forall a, In a (ov_order o) <-> is_Some (ov_undo o !! a);
  li_rec : forall a r, ov_undo o !! a = Some r ->
    u_addr r = a /\ undo_account r = base a /\ u_existed r = negb (Account_is_absent (base a));
  li_rest : forall a, ~ In a (ov_order o) -> view o a = base a;
}.

Lemma begin_block_inv o : log_inv (view o) (Overlay_begin_block o).
Proof.
  constructor; cbn; [constructor| | |done].
  - intros a. rewrite lookup_empty. split; [done|]. by intros [].
  - intros a r Hr. by rewrite lookup_empty in Hr.
Qed.

Lemma get_inv base o addr : log_inv base o -> log_inv base (snd (Overlay_get o addr)).
Proof.
  intros [H1 H2 H3 H4]. destruct (get_log o addr) as [Hu Ho].
  constructor; rewrite ?Ho, ?Hu; try done. intros a Ha. rewrite get_view. by apply H4.
Qed.

Lemma capture_inv base o addr :
  log_inv base o -> log_inv base (Overlay_capture o addr) /\ In addr (ov_order (Overlay_capture o addr)).
Proof.
  intros Hi. unfold Overlay_capture. destruct (ov_undo o !! addr) as [r|] eqn:E.
  - split; [done|]. apply (li_dom _ _ Hi). by rewrite E.
  - assert (~ In addr (ov_order o)) as Hn by (rewrite (li_dom _ _ Hi), E; by intros []).
    pose proof (get_inv base o addr Hi) as Hg. pose proof (get_fst o addr) as Hf.
    destruct (get_log o addr) as [Hu Ho]. destruct (Overlay_get o addr) as [a o1]. cbn [fst snd] in *.
    rewrite (li_rest _ _ Hi addr Hn) in Hf. subst a. destruct Hg as [H1 H2 H3 H4]. rewrite Hu, Ho in *.
    split; [|cbn; apply in_app_iff; right; by left]. constructor; cbn.
    + apply List.NoDup_app; [done|constructor; [by intros []|constructor]|]. intros x Hx [->|[]]. done.
    + intros x. rewrite in_app_iff, (H2 x). destruct (decide (x = addr)) as [->|Hne].
      * rewrite lookup_insert_eq. split; [eauto|]. intros _. right. by left.
      * rewrite lookup_insert_ne by done. split; [|by left]. intros [?|[->|[]]]; done.
    + intros x r Hr. destruct (decide (x = addr)) as [->|Hne].
      * rewrite lookup_insert_eq in Hr. injection Hr as <-. cbn. split; [done|]. split; [|done]. by destruct (base addr).
      * rewrite lookup_insert_ne in Hr by done. by apply H3.
    + intros x Hx. rewrite in_app_iff in Hx. apply H4. tauto.
Qed.

Lemma set_inv base o addr a : log_inv base o -> log_inv base (Overlay_set o addr a).
Proof.
  intros Hi. destruct (capture_inv base o addr Hi) as [[H1 H2 H3 H4] Hin]. unfold Overlay_set.
  constructor; cbn; try done. intros x Hx. rewrite <-(H4 x Hx). unfold view. cbn.
  rewrite lookup_insert_ne; [done|]. by intros <-.
Qed.

Lemma set_order o addr a :
  ov_order (Overlay_set o addr a) =
  ov_order o ++ (if decide (is_Some (ov_undo o !! addr)) then [] else [addr]).
Proof.
  unfold Overlay_set, Overlay_capture. cbn [ov_order]. destruct (ov_undo o !! addr) as [r|] eqn:E.
  - rewrite decide_True by eauto. cbn. by rewrite app_nil_r.
  - rewrite decide_False by (by intros []). destruct (get_log o addr) as [_ Ho].
    destruct (Overlay_get o addr) as [x o1]. cbn in *. by rewrite Ho.
Qed.

Lemma credit_spec o addr amount o' :
  Overlay_credit o addr amount = Ok o' ->
  0 <= acc_balance (view o addr) + amount < 2 ^ 128 /\
  (forall x, view o' x = upd (view o) addr (MkAccount (acc_balance (view o addr) + amount) (acc_nonce (view o addr))) x) /\
  (forall base, log_inv base o -> log_inv base o').
Proof.
  unfold Overlay_credit. pose proof (get_fst o addr) as Hf. pose proof (get_view o addr) as Hv.
  pose proof (fun base => get_inv base o addr) as Hi. destruct (Overlay_get o addr) as [a o1]. cbn [fst snd] in *. subst a.
  intros H. step_in H. apply ok_or_ok, checked_add_some in E as [-> Hb]. invert_ok. split; [done|]. split.
  - intros x. rewrite set_view. unfold upd. destruct (decide (x = addr)); [done|]. apply Hv.
  - intros base Hbase. apply set_inv. by apply Hi.
Qed.

(** The two reports of a block: what to store, and how to take it back. *)
Lemma undo_records_spec {E} base o :
  log_inv base o ->
  exists recs, Overlay_undo_records (E := E) o = Ok recs /\ u_addr <$> recs = ov_order o /\
    Forall (fun r => undo_account r = base (u_addr r)) recs.
Proof.
  intros [H1 H2 H3 H4]. unfold Overlay_undo_records.
  assert (forall l, (forall a, In a l -> is_Some (ov_undo o !! a)) ->
    forall i, exists recs, try_mapi (fun _ a => expect (E := E) (ov_undo o !! a)) i l = Ok recs /\
      u_addr <$> recs = l /\ Forall (fun r => undo_account r = base (u_addr r)) recs) as Hl.
  { induction l as [|a l IH]; intros Hd i; [by exists []|]. cbn [try_mapi].
    destruct (Hd a (or_introl eq_refl)) as [r Hr]. rewrite Hr. cbn [expect obind].
    destruct (IH (fun x Hx => Hd x (or_intror Hx)) (S i)) as (recs & -> & Ha & Hf). cbn [obind].
    destruct (H3 a r Hr) as (Haddr & Hacc & _). exists (r :: recs). split; [done|]. split; [cbn; congruence|].
    constructor; [congruence|done]. }
  apply Hl. intros a Ha. by apply H2.
Qed.

Lemma deltas_loop_spec order : forall o,
  let '(ds, o') := deltas_loop o order in
  ds = (fun a => delta_of a (view o a)) <$> order /\ (forall x, view o' x = view o x) /\
  ov_undo o' = ov_undo o /\ ov_order o' = ov_order o.
Proof.
  induction order as [|a order IH]; intros o; [done|]. cbn [deltas_loop].
  pose proof (get_fst o a) as Hf. pose proof (get_view o a) as Hv. pose proof (get_log o a) as [Hu Ho].
  destruct (Overlay_get o a) as [acct o1]. cbn [fst snd] in *. subst acct.
  specialize (IH o1). destruct (deltas_loop o1 order) as [ds o2]. destruct IH as (-> & Hv2 & Hu2 & Ho2).
  split; [|split; [intros x; by rewrite Hv2|split; congruence]].
  cbn. f_equal. apply list_fmap_ext. intros i x _. by rewrite Hv.
Qed.

Lemma apply_undo_view recs : forall o x, List.NoDup (u_addr <$> recs) ->
  view (Overlay_apply_undo o recs) x =
  match List.find (fun r => bool_decide (u_addr r = x)) recs with
  | Some r => undo_account r
  | None => view o x
  end.
Proof.
  unfold Overlay_apply_undo, view. cbn. intros o. generalize (ov_accounts o). clear o.
  induction recs as [|r recs IH]; intros m x Hn; [done|]. cbn in Hn. inversion_clear Hn as [|? ? Hr Hrs].
  cbn [fold_left List.find]. rewrite IH by done. case_bool_decide as Hx.
  - subst x. assert (List.find (fun r0 => bool_decide (u_addr r0 = u_addr r)) recs = None) as ->.
    { destruct (List.find _ recs) as [r'|] eqn:E; [|done]. exfalso.
      apply find_some in E as [Hin Heq]. apply bool_decide_eq_true in Heq. apply Hr. rewrite <-Heq.
      apply list_elem_of_In, list_elem_of_fmap_2, list_elem_of_In, Hin. }
    by rewrite lookup_insert_eq.
  - destruct (List.find _ recs); [done|]. by rewrite lookup_insert_ne.
Qed.

(** Taking the block back restores every account it touched, and only those. *)
Lemma undo_restores base o recs :
  log_inv base o -> Overlay_undo_records (E := Reject) o = Ok recs ->
  forall x, view (Overlay_apply_undo o recs) x = base x.
Proof.
  intros Hi Hr x. destruct (undo_records_spec (E := Reject) base o Hi) as (recs' & Hr' & Ha & Hf).
  rewrite Hr in Hr'. apply Ok_inj in Hr' as <-.
  rewrite apply_undo_view by (rewrite Ha; apply Hi).
  destruct (List.find _ recs) as [r|] eqn:E.
  - apply find_some in E as [Hin Heq]. apply bool_decide_eq_true in Heq as <-.
    by apply (proj1 (List.Forall_forall _ _) Hf).
  - apply (li_rest _ _ Hi). rewrite <-Ha. intros Hin. apply list_elem_of_In, list_elem_of_fmap in Hin as (r & -> & Hin).
    apply list_elem_of_In in Hin. apply (find_none _ _ E) in Hin. by rewrite bool_decide_eq_false in Hin.
Qed.
End Store.

(** ** The coinbase ledger *)
Abbreviation CoinbaseLedger := (list (Z * Address * Z)).
Definition CoinbaseLedger_new : CoinbaseLedger := [].
Definition CoinbaseLedger_push (l : CoinbaseLedger) (height : Z) (addr : Address) (credit : Z) : CoinbaseLedger :=
  l ++ [(height, addr, credit)].
Definition CoinbaseLedger_truncate_from (l : CoinbaseLedger) (height : Z) : CoinbaseLedger :=
  filter (fun e => fst (fst e) < height) l.
Definition mature (coinbase_height spend_height : Z) : bool := coinbase_is_mature coinbase_height spend_height.
Definition immature_at (l : CoinbaseLedger) (addr : Address) (spend_height : Z) : Z :=
  fold_left (fun acc e =>
    if bool_decide (snd (fst e) = addr) && negb (mature (fst (fst e)) spend_height)
    then saturating_add 128 acc (snd e) else acc) l 0.
Definition ledger_spendable (l : CoinbaseLedger) (addr : Address) (balance spend_height : Z) : Z :=
  spendable_balance balance (immature_at l addr spend_height).
Definition immature_window_start (spend_height : Z) : Z := saturating_sub spend_height (COINBASE_MATURITY - 1).

(** The sum of the credits of an address that are not yet mature. *)
Definition immature_credit (addr : Address) (spend_height : Z) (e : Z * Address * Z) : Z :=
  if bool_decide (snd (fst e) = addr) && (spend_height <? fst (fst e) + COINBASE_MATURITY) then snd e else 0.
Definition immature_sum (l : CoinbaseLedger) (addr : Address) (spend_height : Z) : Z :=
  foldr (fun e s => immature_credit addr spend_height e + s) 0 l.

Lemma negb_mature c s : negb (mature c s) = (s <? c + COINBASE_MATURITY).
Proof.
  unfold mature. destruct (coinbase_is_mature c s) eqn:E.
  - apply coinbase_is_mature_spec in E. symmetry. apply Z.ltb_ge. lia.
  - symmetry. apply Z.ltb_lt. destruct (Z.le_gt_cases (c + COINBASE_MATURITY) s) as [H|]; [|lia].
    apply coinbase_is_mature_spec in H. congruence.
Qed.

Lemma immature_at_spec l addr h :
  Forall (fun e => 0 <= snd e) l -> immature_at l addr h = Z.min (immature_sum l addr h) (umax 128).
Proof.
  intros Hl. unfold immature_at. assert (forall acc, 0 <= acc <= umax 128 ->
    fold_left (fun acc e => if bool_decide (snd (fst e) = addr) && negb (mature (fst (fst e)) h)
      then saturating_add 128 acc (snd e) else acc) l acc = Z.min (acc + immature_sum l addr h) (umax 128)) as Hg.
  { induction Hl as [|e l He Hl IH]; intros acc Ha; cbn [fold_left immature_sum foldr]; [lia|].
    change (foldr _ 0 l) with (immature_sum l addr h). unfold immature_credit. rewrite negb_mature.
    assert (0 <= immature_sum l addr h) as Hpos.
    { clear -Hl. unfold immature_sum. induction Hl as [|x l Hx Hl IH]; cbn; [lia|]. unfold immature_credit at 1.
      destruct (_ && _); lia. }
    destruct (_ && _); rewrite IH; unfold saturating_add in *; lia. }
  rewrite Hg by (unfold umax; lia). f_equal.
Qed.

(** Entries older than [immature_window_start] never count. *)
Lemma immature_window l addr h :
  Forall (fun e => 0 <= fst (fst e)) l ->
  immature_sum (filter (fun e => immature_window_start h <= fst (fst e)) l) addr h = immature_sum l addr h.
Proof.
  induction 1 as [|e l He Hl IH]; [done|]. rewrite filter_cons. unfold immature_window_start, saturating_sub in *.
  destruct (decide _) as [Hd|Hd]; cbn; change (foldr _ 0 ?x) with (immature_sum x addr h); rewrite IH; [done|].
  unfold immature_credit. destruct (Z.ltb_spec h (fst (fst e) + COINBASE_MATURITY)); [|rewrite andb_false_r; lia].
  unfold COINBASE_MATURITY in *. lia.
Qed.
