(* ===== verification/Body.v ===== *)
(** Block body validation (src/lib/chain/src/body.rs): the envelope, the
    signatures, the coinbase rules and the application of every transaction to
    the overlay. The theorems: validation never panics; it conserves the money
    supply up to the scheduled reward; its undo records restore the state it
    started from and its deltas describe the state it reached; nonces are spent
    consecutively; immature rewards are never spent. *)

From Stdlib Require Import ZArith Lia List String.
From stdpp Require Import base list gmap numbers.
From S2P Require Import Prelude Constants Work Rules Codec Crypto Merkle TxRules ChainTypes State.
Open Scope Z_scope.

Record ValidatedBlock := MkValidatedBlock {
  vb_deltas : list StateDelta;
  vb_undo : list UndoRec;
  vb_issued_delta : Z;
  vb_coinbase_to : Address;
  vb_coinbase_credit : Z;
  vb_txids : list Hash32;
  vb_spent_nonces : list (Address * Z);
  vb_non_coinbase_bytes : list bytes;
}.

(** [map_err] of [decode_body]: the index of the record that did not decode. *)
Definition decode_body_reject (e : TxError) : Reject :=
  match e with
  | RecordDoesNotDecode index _ => RejTx index e
  | _ => RejTx 0 e
  end.

Section Validate.
Context `{Ed25519} (account : Address -> Account).

Fixpoint check_signatures (params : ChainParams) (trust : Trust) (i : Z) (txs : list Tx) : outcome Reject unit :=
  match txs with
  | [] => Ok tt
  | tx :: txs =>
    let? _ :=
      match trust with
      | Untrusted =>
        match tx with
        | Coinbase _ => Ok tt
        | Transfer t =>
          map_err (fun _ => BadTransferSignature i) (verify_transfer_signature (network params) t)
        | Announcement a =>
          map_err (RejTx i) (check_announcement_stateless (network params) a (author_pubkey params))
        end
      | OurStore =>
        match tx with
        | Announcement a =>
          guard! negb (bytes_eqb (a_from_pub a) (author_pubkey params)) else RejTx i NotAuthorKey ;; Ok tt
        | _ => Ok tt
        end
      end in
    check_signatures params trust (i + 1) txs
  end.

(** The [Tx::Transfer] and [Tx::Announcement] arms of the application loop. *)
Definition apply_transfer (ledger : CoinbaseLedger) (height i : Z) (o : Overlay) (t : TransferTx)
    : outcome Reject (Overlay * Hash32 * (Address * Z)) :=
  guard! t_fee t <? FEE_FLOOR_MILE else RejFeeBelowFloor i ;;
  let from := address_payload (t_from_pub t) in
  let '(acct, o) := Overlay_get account o from in
  guard! negb (acc_nonce acct =? t_nonce t) else RejBadNonce i (acc_nonce acct) (t_nonce t) ;;
  let? outlay := ok_or (checked_add 128 (t_amount t) (t_fee t)) ArithmeticOverflow in
  let spendable := ledger_spendable ledger from (acc_balance acct) height in
  guard! spendable <? outlay else RejInsufficientBalance i outlay spendable ;;
  let? balance := ok_or (checked_sub 128 (acc_balance acct) outlay) ArithmeticOverflow in
  let? nonce := ok_or (checked_add 64 (acc_nonce acct) 1) ArithmeticOverflow in
  let o := Overlay_set account o from (MkAccount balance nonce) in
  let? o := Overlay_credit account o (t_to t) (t_amount t) in
  Ok (o, TransferTx_txid t, (from, t_nonce t)).

Definition apply_announcement_tx (ledger : CoinbaseLedger) (height i : Z) (o : Overlay) (a : AnnouncementTx)
    : outcome Reject (Overlay * Hash32 * (Address * Z)) :=
  let from := address_payload (a_from_pub a) in
  let '(acct, o) := Overlay_get account o from in
  let spendable := ledger_spendable ledger from (acc_balance acct) height in
  let cs := MkAccountState (acc_balance acct) (acc_nonce acct) in
  let? _ := map_err (RejTx i) (check_announcement_stateful a cs spendable) in
  let? next := map_err (RejTx i) (apply_announcement cs a) in
  let o := Overlay_set account o from (MkAccount (as_balance next) (as_nonce next)) in
  let? id := map_err (fun _ => BodyStructure "ann txid") (AnnouncementTx_txid a) in
  Ok (o, id, (from, a_nonce a)).

Definition apply_tx (ledger : CoinbaseLedger) (height i : Z) (o : Overlay) (tx : Tx)
    : outcome Reject (Overlay * Hash32 * (Address * Z)) :=
  match tx with
  | Coinbase _ => Panic
  | Transfer t => apply_transfer ledger height i o t
  | Announcement a => apply_announcement_tx ledger height i o a
  end.

Fixpoint apply_txs (ledger : CoinbaseLedger) (height i : Z) (o : Overlay) (txs : list Tx)
    : outcome Reject (Overlay * list Hash32 * list (Address * Z)) :=
  match txs with
  | [] => Ok (o, [], [])
  | tx :: txs =>
    let? r := apply_tx ledger height i o tx in
    let '(o, id, spent) := r in
    let? rest := apply_txs ledger height (i + 1) o txs in
    let '(o, ids, spents) := rest in
    Ok (o, id :: ids, spent :: spents)
  end.

Definition validate_block_body (o : Overlay) (ledger : CoinbaseLedger) (header : Header) (raw_body : bytes)
    (params : ChainParams) (trust : Trust)
    : outcome Reject (ValidatedBlock * Overlay * CoinbaseLedger) :=
  let? body := map_err (fun _ => BodyStructure "body envelope") (BlockBody_parse raw_body) in
  let? txs := map_err decode_body_reject (decode_body body) in
  let? cb := map_err (RejTx 0) (check_body_structure txs) in
  guard! negb (bytes_eqb (BlockBody_tx_root body) (h_tx_root header)) else TxRootMismatch ;;
  let? _ := check_signatures params trust 0 txs in
  let? fee_total := map_err (RejTx 0) (block_fee_total txs) in
  let? _ := map_err (RejTx 0) (check_coinbase cb (h_height header) (h_author_note_len header) fee_total) in
  let? credit := map_err (RejTx 0) (coinbase_credit cb) in
  let o := Overlay_begin_block o in
  let? o := Overlay_credit account o (c_to cb) credit in
  let ledger := CoinbaseLedger_push ledger (h_height header) (c_to cb) credit in
  let? cb_id := map_err (fun _ => BodyStructure "coinbase txid") (CoinbaseTx_txid cb) in
  let? r := apply_txs ledger (h_height header) 1 o (drop 1 txs) in
  let '(o, ids, spents) := r in
  let? undo := Overlay_undo_records o in
  let '(deltas, o) := Overlay_deltas account o in
  Ok (MkValidatedBlock deltas undo (c_reward cb) (c_to cb) credit (cb_id :: ids) spents
        (drop 1 (BlockBody_all_bytes body)), o, ledger).

(** ** Sums over a set of addresses *)
Definition total (f : Address -> Account) (u : list Address) : Z :=
  foldr (fun a s => acc_balance (f a) + s) 0 u.

Lemma total_cons f a u : total f (a :: u) = acc_balance (f a) + total f u.
Proof. done. Qed.

Lemma total_ext f g u : (forall a, In a u -> f a = g a) -> total f u = total g u.
Proof.
  induction u as [|a u IH]; intros Hfg; [done|]. rewrite !total_cons. rewrite (Hfg a (or_introl eq_refl)).
  f_equal. apply IH. intros x Hx. apply Hfg. by right.
Qed.

Lemma total_upd f addr x u :
  List.NoDup u -> In addr u -> total (upd f addr x) u = total f u + acc_balance x - acc_balance (f addr).
Proof.
  induction 1 as [|a u Ha Hu IH]; intros Hin; [done|]. rewrite !total_cons. destruct Hin as [<-|Hin].
  - unfold upd at 1. rewrite decide_True by done.
    rewrite (total_ext (upd f a x) f u); [lia|]. intros y Hy. unfold upd. rewrite decide_False; [done|]. by intros ->.
  - unfold upd at 1. rewrite decide_False by (intros ->; done). rewrite IH by done. lia.
Qed.

(** ** What a step of validation does to the overlay *)
Record moves (o o' : Overlay) (delta : Z) : Prop := {
  mv_log : forall base, log_inv account base o -> log_inv account base o';
  mv_order : forall a, In a (ov_order o) -> In a (ov_order o');
  mv_total : forall base u, log_inv account base o -> List.NoDup u -> (forall a, In a (ov_order o') -> In a u) ->
    total (view account o') u = total (view account o) u + delta;
}.

Lemma moves_trans o1 o2 o3 d1 d2 : moves o1 o2 d1 -> moves o2 o3 d2 -> moves o1 o3 (d1 + d2).
Proof.
  intros [A1 B1 C1] [A2 B2 C2]. constructor; [auto..|]. intros base u Hb Hu Hi.
  rewrite (C2 base u), (C1 base u) by auto. lia.
Qed.

Lemma moves_get o a : moves o (snd (Overlay_get account o a)) 0.
Proof.
  constructor.
  - intros base. apply get_inv.
  - destruct (get_log account o a) as [_ ->]. auto.
  - intros base u _ _ _. rewrite Z.add_0_r. apply total_ext. intros x _. apply get_view.
Qed.

Lemma moves_set o a x : moves o (Overlay_set account o a x) (acc_balance x - acc_balance (view account o a)).
Proof.
  constructor.
  - intros base. apply set_inv.
  - intros y Hy. rewrite set_order. apply in_app_iff. by left.
  - intros base u Hb Hu Hi. rewrite (total_ext _ (upd (view account o) a x)) by (intros; apply set_view).
    rewrite total_upd; [lia|done|]. apply Hi. rewrite set_order. apply in_app_iff.
    destruct (decide _) as [Hs|]; [left|right; by left]. by apply (li_dom _ _ _ Hb).
Qed.

Lemma moves_eq o o' d d' : moves o o' d -> d = d' -> moves o o' d'.
Proof. by intros ? <-. Qed.

Lemma moves_credit o a amount o' : Overlay_credit account o a amount = Ok o' -> moves o o' amount.
Proof.
  unfold Overlay_credit. pose proof (get_fst account o a) as Hf. pose proof (get_view account o a a) as Hv.
  pose proof (moves_get o a) as Hm. destruct (Overlay_get account o a) as [x o1]. cbn [fst snd] in *. subst x.
  intros Hc. step_in Hc. apply ok_or_ok, checked_add_some in E as [-> _]. invert_ok.
  eapply moves_eq; [eapply moves_trans; [exact Hm|apply moves_set]|]. cbn. rewrite Hv. lia.
Qed.

(** ** One transaction *)
Record tx_effect (ledger : CoinbaseLedger) (height : Z) (o : Overlay) (fee : Z) (o' : Overlay) (spent : Address * Z)
    : Prop := {
  te_moves : moves o o' (- fee);
  te_fee : FEE_FLOOR_MILE <= fee;
  te_nonce : acc_nonce (view account o (fst spent)) = snd spent;
  te_nonces : forall a, acc_nonce (view account o' a) =
    acc_nonce (view account o a) + (if decide (a = fst spent) then 1 else 0);
  te_mature : immature_at ledger (fst spent) height <= acc_balance (view account o' (fst spent));
  te_others : forall a, a <> fst spent -> acc_balance (view account o a) <= acc_balance (view account o' a);
}.

Lemma spendable_covers ledger a bal height outlay :
  0 < outlay -> (ledger_spendable ledger a bal height <? outlay) = false ->
  immature_at ledger a height <= bal - outlay.
Proof. unfold ledger_spendable, spendable_balance, saturating_sub. intros. to_prop. lia. Qed.

Lemma apply_transfer_effect ledger height i o t o' id spent :
  transfer_wf t -> apply_transfer ledger height i o t = Ok (o', id, spent) ->
  tx_effect ledger height o (t_fee t) o' spent.
Proof.
  intros (_ & _ & Ham & _) Ha. unfold apply_transfer in Ha. step_in Ha.
  set (from := address_payload (t_from_pub t)) in *.
  pose proof (get_fst account o from) as Hf. pose proof (get_view account o from) as Hv. pose proof (moves_get o from) as Hm.
  destruct (Overlay_get account o from) as [acct o1]. cbn [fst snd] in *. subst acct. steps_in Ha.
  apply ok_or_ok in E, E0, E1. apply checked_add_some in E as [-> Hb1], E1 as [-> Hb3].
  apply checked_sub_some in E0 as [-> Hb2]. to_prop. apply Ok_inj in Ha. injection Ha as -> _ <-.
  pose proof (moves_credit _ _ _ _ E2) as Hmc. apply credit_spec in E2 as (_ & Hcv & _).
  set (o2 := Overlay_set account o1 from _) in *.
  assert (forall x, view account o2 x = upd (view account o) from (MkAccount (acc_balance (view account o from) - (t_amount t + t_fee t)) (acc_nonce (view account o from) + 1)) x) as H2.
  { intros x. subst o2. rewrite set_view. unfold upd. destruct (decide _); [done|]. apply Hv. }
  assert (immature_at ledger from height <= acc_balance (view account o from) - (t_amount t + t_fee t)) as Him.
  { apply spendable_covers; [unfold FEE_FLOOR_MILE in *; lia|by apply Z.ltb_ge]. }
  constructor; cbn [fst snd].
  - eapply moves_eq; [eapply moves_trans; [exact Hm|eapply moves_trans; [apply moves_set|exact Hmc]]|].
    cbn. rewrite Hv. lia.
  - lia.
  - done.
  - intros a. rewrite Hcv. unfold upd at 1. destruct (decide (a = t_to t)) as [->|Hn].
    + cbn. rewrite H2. unfold upd. destruct (decide (t_to t = from)) as [->|]; cbn; lia.
    + rewrite H2. unfold upd. destruct (decide (a = from)) as [->|]; cbn; lia.
  - rewrite Hcv. unfold upd at 1. destruct (decide (from = t_to t)) as [<-|Hn]; cbn;
      rewrite H2; unfold upd; rewrite decide_True by done; cbn; lia.
  - intros a Hne. rewrite Hcv. unfold upd at 1. destruct (decide (a = t_to t)) as [->|Hn]; cbn;
      rewrite H2; unfold upd; rewrite decide_False by done; lia.
Qed.

(** The conditions under which a transfer is applied. *)
Lemma apply_transfer_complete ledger height i o t :
  let from := address_payload (t_from_pub t) in
  FEE_FLOOR_MILE <= t_fee t -> 0 <= t_amount t -> t_amount t + t_fee t < 2 ^ 128 ->
  acc_nonce (view account o from) = t_nonce t -> 0 <= t_nonce t < 2 ^ 64 - 1 ->
  t_amount t + t_fee t <= ledger_spendable ledger from (acc_balance (view account o from)) height ->
  0 <= immature_at ledger from height ->
  0 <= acc_balance (view account o from) < 2 ^ 127 ->
  0 <= acc_balance (view account o (t_to t)) < 2 ^ 127 -> t_amount t < 2 ^ 127 ->
  exists r, apply_transfer ledger height i o t = Ok r.
Proof.
  intros from Hfee Ham Hsum Hn Hnb Hsp Him Hb1 Hb2 Ha2. unfold apply_transfer, FEE_FLOOR_MILE in *.
  rewrite (proj2 (Z.ltb_ge _ _)) by done. fold from. pose proof (get_fst account o from) as Hf.
  pose proof (get_view account o from) as Hv. destruct (Overlay_get account o from) as [acct o1]. cbn [fst snd] in *. subst acct.
  rewrite Hn, Z.eqb_refl. cbn [negb].
  rewrite (proj2 (checked_add_some 128 (t_amount t) (t_fee t) _)) by (split; [reflexivity|lia]). cbn [ok_or obind].
  rewrite (proj2 (Z.ltb_ge _ _)) by done.
  assert (t_amount t + t_fee t <= acc_balance (view account o from)) as Hle.
  { unfold ledger_spendable, spendable_balance, saturating_sub in Hsp. lia. }
  rewrite (proj2 (checked_sub_some 128 (acc_balance (view account o from)) (t_amount t + t_fee t) _)) by (split; [reflexivity|lia]). cbn [ok_or obind].
  rewrite (proj2 (checked_add_some 64 (t_nonce t) 1 _)) by (split; [reflexivity|lia]). cbn [ok_or obind].
  set (o2 := Overlay_set account o1 from _). unfold Overlay_credit.
  pose proof (get_fst account o2 (t_to t)) as Hf2. destruct (Overlay_get account o2 (t_to t)) as [acct2 o3]. cbn [fst] in Hf2.
  assert (0 <= acc_balance acct2 < 2 ^ 127) as Hb3.
  { subst acct2 o2. rewrite set_view. unfold upd. destruct (decide _); [cbn; lia|]. by rewrite Hv. }
  rewrite (proj2 (checked_add_some 128 (acc_balance acct2) (t_amount t) _)) by (split; [reflexivity|lia]). cbn [ok_or obind].
  eauto.
Qed.

Lemma apply_announcement_effect ledger height i o a o' id spent :
  apply_announcement_tx ledger height i o a = Ok (o', id, spent) ->
  tx_effect ledger height o (a_fee a) o' spent.
Proof.
  intros Ha. unfold apply_announcement_tx in Ha. set (from := address_payload (a_from_pub a)) in *.
  pose proof (get_fst account o from) as Hf. pose proof (get_view account o from) as Hv. pose proof (moves_get o from) as Hm.
  destruct (Overlay_get account o from) as [acct o1]. cbn [fst snd] in *. subst acct. steps_in Ha.
  apply map_err_ok in E, E0, E1. unfold check_announcement_stateful in E. steps_in E. clear E.
  unfold apply_announcement in E0. steps_in E0. apply ok_or_ok in E, E2. cbn [as_balance as_nonce] in *.
  apply checked_sub_some in E as [-> Hb1]. apply checked_add_some in E2 as [-> Hb2]. apply Ok_inj in E0 as <-.
  apply Ok_inj in Ha. injection Ha as <- _ <-. cbn [as_balance as_nonce] in *.
  assert (immature_at ledger from height <= acc_balance (view account o from) - a_fee a) as Him.
  { apply spendable_covers; [unfold FEE_FLOOR_MILE in *; to_prop; lia|done]. }
  assert (forall x, view account (Overlay_set account o1 from (MkAccount (acc_balance (view account o from) - a_fee a) (acc_nonce (view account o from) + 1))) x =
    upd (view account o) from (MkAccount (acc_balance (view account o from) - a_fee a) (acc_nonce (view account o from) + 1)) x) as H2.
  { intros x. rewrite set_view. unfold upd. destruct (decide _); [done|]. apply Hv. }
  constructor; cbn [fst snd].
  - eapply moves_eq; [eapply moves_trans; [exact Hm|apply moves_set]|]. cbn. rewrite Hv. lia.
  - to_prop. lia.
  - to_prop. lia.
  - intros x. rewrite H2. unfold upd. destruct (decide (x = from)) as [->|]; cbn; lia.
  - rewrite H2. unfold upd. rewrite decide_True by done. cbn. lia.
  - intros x Hne. rewrite H2. unfold upd. rewrite decide_False by done. lia.
Qed.

Lemma apply_tx_effect ledger height i o tx o' id spent :
  tx_wf tx -> apply_tx ledger height i o tx = Ok (o', id, spent) -> tx_effect ledger height o (Tx_fee tx) o' spent.
Proof.
  destruct tx as [c|t|a]; intros Hw Ha; cbn [apply_tx] in Ha; [done| |].
  - by eapply apply_transfer_effect.
  - by eapply apply_announcement_effect.
Qed.

(** ** All transactions *)
Record txs_effect (ledger : CoinbaseLedger) (height : Z) (o : Overlay) (fees : Z) (o' : Overlay)
    (spents : list (Address * Z)) : Prop := {
  tse_moves : moves o o' (- fees);
  tse_mono : forall a, acc_nonce (view account o a) <= acc_nonce (view account o' a);
  tse_nonces : forall a, snd <$> filter (fun p => fst p = a) spents =
    zrange (acc_nonce (view account o a)) (acc_nonce (view account o' a));
  tse_keeps : forall a, immature_at ledger a height <= acc_balance (view account o a) ->
    immature_at ledger a height <= acc_balance (view account o' a);
  tse_mature : forall a, In a (fst <$> spents) -> immature_at ledger a height <= acc_balance (view account o' a);
}.

Lemma tx_keeps_mature ledger height o fee o' spent a :
  tx_effect ledger height o fee o' spent ->
  immature_at ledger a height <= acc_balance (view account o a) ->
  immature_at ledger a height <= acc_balance (view account o' a).
Proof.
  intros He Ha. destruct (decide (a = fst spent)) as [->|Hn]; [apply (te_mature _ _ _ _ _ _ He)|].
  pose proof (te_others _ _ _ _ _ _ He a Hn). lia.
Qed.

Lemma apply_txs_effect ledger height txs : forall i o o' ids spents,
  Forall tx_wf txs -> apply_txs ledger height i o txs = Ok (o', ids, spents) ->
  txs_effect ledger height o (fee_sum txs) o' spents.
Proof.
  induction txs as [|tx txs IH]; intros i o o' ids spents Hw Ha; cbn [apply_txs] in Ha.
  - apply Ok_inj in Ha. injection Ha as <- _ <-. constructor; try done.
    + constructor; auto. intros. cbn. lia.
    + intros a. by rewrite zrange_nil by lia.
  - step_in Ha. destruct a as [[o1 id] spent]. step_in Ha. destruct a as [[o2 ids2] spents2].
    apply Ok_inj in Ha. injection Ha as <- _ <-. inversion_clear Hw as [|? ? Hw1 Hw2].
    apply apply_tx_effect in E; [|done]. apply IH in E0 as [M1 M2 M3 M4 M5]; [|done].
    pose proof (te_nonces _ _ _ _ _ _ E) as Hn. constructor.
    + eapply moves_eq; [eapply moves_trans; [apply E|exact M1]|]. cbn. change (foldr _ 0 txs) with (fee_sum txs). lia.
    + intros a. specialize (M2 a). specialize (Hn a). destruct (decide _); lia.
    + intros a. specialize (M2 a). specialize (Hn a). rewrite filter_cons.
      destruct (decide (fst spent = a)) as [Ha|Ha].
      * rewrite decide_True in Hn by done. rewrite fmap_cons, M3. rewrite <-(te_nonce _ _ _ _ _ _ E), Ha.
        rewrite (zrange_cons (acc_nonce (view account o a))) by lia. by rewrite Hn.
      * rewrite decide_False in Hn by (by intros ->). rewrite M3. by rewrite Hn, Z.add_0_r.
    + intros a Hk. apply M4. by eapply tx_keeps_mature.
    + intros a [<-|Hin]; [|by apply M5]. apply M4, (te_mature _ _ _ _ _ _ E).
Qed.

Lemma decode_body_wf body txs :
  bytes_ok (bb_raw body) -> decode_body body = Ok txs -> Forall tx_wf txs.
Proof.
  intros Hb Hd. unfold decode_body in Hd. apply try_mapi_ok in Hd as [Hlen Hl].
  apply Forall_lookup. intros i tx Hi.
  destruct (lookup_lt_is_Some_2 (BlockBody_all_bytes body) i) as [b Hbi]; [rewrite <-Hlen; by eapply lookup_lt_Some|].
  destruct (Hl i b Hbi) as (tx' & Hi' & Hd). assert (tx' = tx) as -> by congruence.
  apply map_err_ok in Hd. apply decode_tx_sound in Hd as [? _]; [done|].
  unfold BlockBody_all_bytes in Hbi. rewrite list_lookup_fmap in Hbi.
  destruct (bb_spans body !! i); [|done]. cbn in Hbi. injection Hbi as <-. by apply slice_Forall.
Qed.

Lemma parse_raw raw body : BlockBody_parse raw = Ok body -> bb_raw body = raw.
Proof. intros Hp. unfold BlockBody_parse in Hp. steps_in Hp. by invert_ok. Qed.

(** Everything a successful validation says about the overlay it returns. *)
Record block_effect (o : Overlay) (header : Header) (vb : ValidatedBlock) (o' : Overlay) (ledger' : CoinbaseLedger)
    : Prop := {
  be_issued : vb_issued_delta vb = block_reward (h_height header);
  be_log : log_inv account (view account o) o';
  be_undo : Overlay_undo_records (E := Reject) o' = Ok (vb_undo vb);
  be_deltas : vb_deltas vb = (fun a => delta_of a (view account o' a)) <$> ov_order o';
  be_total : forall u, List.NoDup u -> (forall a, In a (ov_order o') -> In a u) ->
    total (view account o') u = total (view account o) u + block_reward (h_height header);
  be_nonces : forall a, snd <$> filter (fun p => fst p = a) (vb_spent_nonces vb) =
    zrange (acc_nonce (view account o a)) (acc_nonce (view account o' a));
  be_mature : forall a, In a (fst <$> vb_spent_nonces vb) ->
    immature_at ledger' a (h_height header) <= acc_balance (view account o' a);
}.

Lemma validate_effect o ledger header raw params trust vb o' ledger' :
  bytes_ok raw -> validate_block_body o ledger header raw params trust = Ok (vb, o', ledger') ->
  block_effect o header vb o' ledger'.
Proof.
  intros Hb Hv. unfold validate_block_body in Hv. do 3 step_in Hv. rename a into body, a0 into txs, a1 into cb.
  step_in Hv. do 4 step_in Hv. rename a0 into fees. step_in Hv. step_in Hv. step_in Hv.
  rename a3 into cb_id. destruct a4 as [[o3 ids] spents]. step_in Hv.
  apply map_err_ok in E, E0, E1, E3, E4, E5, E7. rename a2 into credit.
  destruct a. destruct a1.
  pose proof (decode_body_wf body txs) as Hw. rewrite (parse_raw raw body E) in Hw. specialize (Hw Hb E0).
  apply check_body_structure_spec in E1 as (rest & -> & Hrest).
  apply block_fee_total_spec in E3. apply check_coinbase_spec in E4 as (_ & Hrew & Hfee & _).
  unfold coinbase_credit in E5. apply ok_or_ok, checked_add_some in E5 as [-> _].
  inversion_clear Hw as [|? ? _ Hwr]. cbn [drop] in E8. rewrite drop_0 in E8.
  apply apply_txs_effect in E8 as [M1 M2 M3 M4 M5]; [|done].
  pose proof (begin_block_inv account o) as Hlog0. set (o0 := Overlay_begin_block o) in *.
  assert (forall x, view account o0 x = view account o x) as Hv0 by done.
  pose proof (moves_credit _ _ _ _ E6) as Mc. apply credit_spec in E6 as (_ & Hcv & Hcl).
  assert (forall x, acc_nonce (view account a0 x) = acc_nonce (view account o x)) as Hn0.
  { intros x. rewrite Hcv. unfold upd. destruct (decide (x = c_to cb)) as [->|]; done. }
  pose proof (moves_trans _ _ _ _ _ Mc M1) as Mall.
  pose proof (mv_log _ _ _ Mall _ Hlog0) as Hlog3.
  unfold Overlay_deltas in Hv. pose proof (deltas_loop_spec account (ov_order o3) o3) as Hds.
  destruct (deltas_loop account o3 (ov_order o3)) as [ds o4]. destruct Hds as (-> & Hv4 & Hu4 & Ho4).
  apply Ok_inj in Hv. injection Hv as <- <- <-. constructor; cbn [vb_issued_delta vb_undo vb_deltas vb_spent_nonces].
  - done.
  - destruct Hlog3 as [L1 L2 L3 L4]. constructor; rewrite ?Hu4, ?Ho4; try done.
    intros a Ha. rewrite Hv4. by apply L4.
  - unfold Overlay_undo_records in *. by rewrite Hu4, Ho4.
  - rewrite Ho4. apply list_fmap_ext. intros i x _. by rewrite Hv4.
  - intros u Hu Hi. rewrite Ho4 in Hi. rewrite (total_ext _ (view account o3)) by (intros; apply Hv4).
    rewrite (mv_total _ _ _ Mall _ u Hlog0 Hu Hi). rewrite Hrew, Hfee, E3.
    change (fee_sum (Coinbase cb :: rest)) with (0 + fee_sum rest).
    change (total (view account o0) u) with (total (view account o) u). lia.
  - intros a. rewrite M3, Hn0, Hv4. done.
  - intros a Ha. rewrite Hv4. by apply M5.
Qed.

(** ** Validation never panics *)
Lemma apply_tx_no_panic ledger height i o tx : is_coinbase tx = false -> apply_tx ledger height i o tx <> Panic.
Proof.
  destruct tx as [c|t|a]; [done| |]; intros _; cbn [apply_tx].
  - unfold apply_transfer. destruct (_ <? _); [done|]. destruct (Overlay_get _ _ _) as [acct o1].
    destruct (negb _); [done|]. destruct (checked_add 128 _ _); [|done]. cbn [ok_or obind].
    destruct (_ <? _); [done|]. destruct (checked_sub 128 _ _); [|done]. cbn [ok_or obind].
    destruct (checked_add 64 _ _); [|done]. cbn [ok_or obind]. unfold Overlay_credit.
    destruct (Overlay_get _ _ _) as [acct2 o2]. destruct (checked_add 128 _ _); done.
  - unfold apply_announcement_tx. destruct (Overlay_get _ _ _) as [acct o1].
    unfold check_announcement_stateful. destruct (_ <? _); [done|]. destruct (negb _); [done|].
    destruct (_ <? _); [done|]. cbn [map_err obind]. unfold apply_announcement. cbn [as_balance as_nonce].
    destruct (checked_sub 128 _ _); [|done]. cbn [ok_or obind]. destruct (checked_add 64 _ _); [|done].
    cbn [ok_or obind map_err]. unfold AnnouncementTx_txid, AnnouncementTx_encode_unsigned, AnnouncementTx_check_payload_len.
    by destruct (negb _).
Qed.

Lemma apply_txs_no_panic ledger height txs : forall i o,
  Forall (fun tx => is_coinbase tx = false) txs -> apply_txs ledger height i o txs <> Panic.
Proof.
  induction txs as [|tx txs IH]; intros i o Hc; [done|]. inversion_clear Hc as [|? ? Hc1 Hc2]. cbn [apply_txs].
  pose proof (apply_tx_no_panic ledger height i o tx Hc1) as Hp.
  destruct (apply_tx ledger height i o tx) as [[[o1 id] sp]| |]; cbn [obind]; [|done|done].
  specialize (IH (i + 1) o1 Hc2). destruct (apply_txs _ _ _ _ txs) as [[[o2 ids] sps]| |]; done.
Qed.

Lemma apply_txs_log ledger height txs : forall i o o' ids spents base,
  apply_txs ledger height i o txs = Ok (o', ids, spents) -> log_inv account base o -> log_inv account base o'.
Proof.
  induction txs as [|tx txs IH]; intros i o o' ids spents base Ha Hl; cbn [apply_txs] in Ha.
  - apply Ok_inj in Ha. by injection Ha as <- _ _.
  - step_in Ha. destruct a as [[o1 id] sp]. step_in Ha. destruct a as [[o2 ids2] sps].
    apply Ok_inj in Ha. injection Ha as <- _ _. eapply IH; [exact E0|]. destruct tx as [c|t|a]; cbn [apply_tx] in E.
    + done.
    + unfold apply_transfer in E. step_in E. pose proof (get_inv account base o (address_payload (t_from_pub t)) Hl) as Hg.
      destruct (Overlay_get account o _) as [acct og]. cbn [snd] in Hg. steps_in E. apply Ok_inj in E. injection E as <- _ _.
      apply credit_spec in E4 as (_ & _ & Hc). by apply Hc, set_inv.
    + unfold apply_announcement_tx in E. pose proof (get_inv account base o (address_payload (a_from_pub a)) Hl) as Hg.
      destruct (Overlay_get account o _) as [acct og]. cbn [snd] in Hg. steps_in E. apply Ok_inj in E. injection E as <- _ _.
      by apply set_inv.
Qed.

Lemma np_check_signatures params trust txs : forall i, check_signatures params trust i txs <> Panic.
Proof. induction txs as [|tx txs IH]; intros i; cbn [check_signatures]; no_panic. Qed.
Lemma np_Overlay_credit o a amount : Overlay_credit account o a amount <> Panic.
Proof. unfold Overlay_credit. no_panic. Qed.
#[local] Hint Resolve np_check_signatures np_Overlay_credit : nopanic.

Lemma validate_no_panic o ledger header raw params trust :
  validate_block_body o ledger header raw params trust <> Panic.
Proof.
  unfold validate_block_body. apply np_bind; [no_panic|]. intros body _. apply np_bind; [no_panic|]. intros txs _.
  apply np_bind; [no_panic|]. intros cb Hcb. apply map_err_ok, check_body_structure_spec in Hcb as (rest & -> & Hrest).
  destruct (negb _); [done|]. do 4 (apply np_bind; [no_panic|intros ? _]). cbv zeta.
  apply np_bind; [no_panic|]. intros o1 Hc. apply credit_spec in Hc as (_ & _ & Hlog).
  apply np_bind; [unfold CoinbaseTx_txid; no_panic|]. intros id _. cbn [drop]. rewrite drop_0.
  apply np_bind; [by apply apply_txs_no_panic|]. intros [[o2 ids] sps] Ha.
  pose proof (apply_txs_log _ _ _ _ _ _ _ _ _ Ha (Hlog _ (begin_block_inv account o))) as Hl2.
  apply np_bind; [|intros undo _; by destruct (Overlay_deltas account o2)].
  destruct (undo_records_spec (E := Reject) account _ _ Hl2) as (recs & -> & _). done.
Qed.
End Validate.

(** ** The block's guarantees *)
Definition sum_balances (l : list Z) : Z := foldr Z.add 0 l.

Lemma sum_deltas account o u :
  sum_balances (d_balance <$> ((fun a => delta_of a (view account o a)) <$> u)) = total (view account o) u.
Proof. unfold sum_balances. induction u as [|a u IH]; [done|]. rewrite total_cons. cbn. f_equal. apply IH. Qed.

Lemma sum_undo base recs :
  Forall (fun r => undo_account r = base (u_addr r)) recs ->
  sum_balances (u_prev_balance <$> recs) = total base (u_addr <$> recs).
Proof.
  unfold sum_balances. induction 1 as [|r recs Hr Hf IH]; [done|]. cbn [fmap list_fmap]. rewrite total_cons, <-Hr.
  cbn. f_equal. apply IH.
Qed.

(** C3. A valid block creates exactly the scheduled reward: the balances it
    writes (its deltas) sum to the balances it replaces (its undo records, for
    the same accounts, each listed once) plus [block_reward height], which is
    also the issuance it reports; fees only move between accounts. *)
Theorem block_conserves_supply `{Ed25519} account o ledger header raw params trust vb o' ledger' :
  bytes_ok raw ->
  validate_block_body account o ledger header raw params trust = Ok (vb, o', ledger') ->
  d_addr <$> vb_deltas vb = u_addr <$> vb_undo vb /\ List.NoDup (u_addr <$> vb_undo vb) /\
  vb_issued_delta vb = block_reward (h_height header) /\
  sum_balances (d_balance <$> vb_deltas vb) =
    sum_balances (u_prev_balance <$> vb_undo vb) + block_reward (h_height header).
Proof.
  intros Hb Hv. apply validate_effect in Hv as [H1 H2 H3 H4 H5 _ _]; [|done].
  destruct (undo_records_spec (E := Reject) account _ _ H2) as (recs & Hr & Ha & Hf).
  rewrite H3 in Hr. apply Ok_inj in Hr as <-. rewrite Ha, H4. split.
  { rewrite <-list_fmap_compose. apply list_fmap_id. }
  split; [apply H2|]. split; [done|].
  rewrite sum_deltas, (sum_undo (view account o)), Ha by done. apply H5; [apply H2|done].
Qed.

(** C4. A block can be taken back exactly: after a successful validation,
    applying its undo records restores every account of the state it started
    from, and its deltas are the whole difference: an account shows the delta's
    balance and nonce if it has one and its old value otherwise. *)
Theorem block_undo_restores_state `{Ed25519} account o ledger header raw params trust vb o' ledger' :
  bytes_ok raw ->
  validate_block_body account o ledger header raw params trust = Ok (vb, o', ledger') ->
  (forall x, view account (Overlay_apply_undo o' (vb_undo vb)) x = view account o x) /\
  (forall d, In d (vb_deltas vb) -> view account o' (d_addr d) = MkAccount (d_balance d) (d_nonce d)) /\
  (forall x, ~ In x (d_addr <$> vb_deltas vb) -> view account o' x = view account o x).
Proof.
  intros Hb Hv. apply validate_effect in Hv as [H1 H2 H3 H4 _ _ _]; [|done]. split; [|split].
  - by apply undo_restores.
  - intros d Hd. rewrite H4 in Hd. apply list_elem_of_In, list_elem_of_fmap in Hd as (a & -> & _). cbn.
    by destruct (view account o' a).
  - intros x Hx. apply (li_rest _ _ _ H2). rewrite H4, <-list_fmap_compose in Hx.
    change (d_addr ∘ _) with (fun a : Address => a) in Hx. by rewrite list_fmap_id in Hx.
Qed.

Lemma NoDup_per_key (l : list (Address * Z)) :
  (forall a, List.NoDup (snd <$> filter (fun p => fst p = a) l)) -> List.NoDup l.
Proof.
  induction l as [|[a n] l IH]; intros Hk; [constructor|]. constructor.
  - intros Hin. specialize (Hk a). rewrite filter_cons_True in Hk by done. cbn in Hk. inversion_clear Hk as [|? ? Hn _].
    apply Hn. apply list_elem_of_In. apply list_elem_of_fmap. exists (a, n). split; [done|].
    apply list_elem_of_filter. split; [done|]. by apply list_elem_of_In.
  - apply IH. intros b. specialize (Hk b). rewrite filter_cons in Hk. destruct (decide _); [|done].
    cbn in Hk. by inversion_clear Hk.
Qed.

Lemma NoDup_zrange a b : List.NoDup (zrange a b).
Proof.
  apply NoDup_ListNoDup. unfold zrange. apply NoDup_fmap_2; [intros x y Hxy; lia|]. apply NoDup_seq.
Qed.

(** No transaction can be replayed inside a block and none can skip ahead:
    for every sender the nonces spent by the block are exactly the consecutive
    run from the account's nonce before the block to its nonce after it, in
    order, so no (sender, nonce) pair is spent twice. *)
Theorem block_nonces_consecutive `{Ed25519} account o ledger header raw params trust vb o' ledger' :
  bytes_ok raw ->
  validate_block_body account o ledger header raw params trust = Ok (vb, o', ledger') ->
  (forall a, snd <$> filter (fun p => fst p = a) (vb_spent_nonces vb) =
     zrange (acc_nonce (view account o a)) (acc_nonce (view account o' a))) /\
  List.NoDup (vb_spent_nonces vb).
Proof.
  intros Hb Hv. apply validate_effect in Hv as [_ _ _ _ _ H6 _]; [|done]. split; [done|].
  apply NoDup_per_key. intros a. rewrite H6. apply NoDup_zrange.
Qed.

(** Immature rewards are never spent: after a valid block, every account
    that sent something in it still holds at least its coinbase credits that
    are younger than [COINBASE_MATURITY], the block's own reward included; and
    validation returns a verdict on every input (it never panics). *)
Theorem block_never_spends_immature `{Ed25519} account o ledger header raw params trust :
  bytes_ok raw ->
  validate_block_body account o ledger header raw params trust <> Panic /\
  (forall vb o' ledger', validate_block_body account o ledger header raw params trust = Ok (vb, o', ledger') ->
   forall a, In a (fst <$> vb_spent_nonces vb) ->
     immature_at ledger' a (h_height header) <= acc_balance (view account o' a)).
Proof.
  intros Hb. split; [apply validate_no_panic|]. intros vb o' ledger' Hv.
  apply validate_effect in Hv as [_ _ _ _ _ _ H7]; done.
Qed.

(** ** A concrete block: a coinbase and a transfer, under a toy signature scheme *)
#[local] Instance toy_ed25519 : Ed25519 := {
  VerifyingKey := bytes;
  vk_from_bytes := Some;
  verify_strict _ _ sig := bytes_eqb sig (replicate 64 9);
}.
Definition toy_account (a : Address) : Account := MkAccount 5000 1.
Definition toy_body : bytes :=
  match CoinbaseTx_encode sample_coinbase with
  | Ok cb => match BlockBody_encode [cb; TransferTx_encode sample_transfer] with Ok b => b | _ => [] end
  | _ => []
  end.
Definition toy_parsed : BlockBody := MkBlockBody toy_body [(8, 73); (77, 234)].
Definition toy_header : Header :=
  MkHeader VERSION_BASE 7 (replicate 32 0) (BlockBody_tx_root toy_parsed) (replicate 32 0) 1000 0x1F00FFFF 0 0.
Definition toy_result : outcome Reject (ValidatedBlock * Overlay * CoinbaseLedger) :=
  validate_block_body toy_account (Overlay_new 100) [] toy_header toy_body ChainParams_default Untrusted.

Lemma toy_view_any o1 (from : Address) :
  (forall x, view toy_account o1 x = upd toy_account (replicate 20 1) (MkAccount 205005 1) x) ->
  acc_nonce (view toy_account o1 from) = 1 /\
  0 <= acc_balance (view toy_account o1 from) < 2 ^ 127 /\
  1005 <= ledger_spendable [(7, replicate 20 1, 200005)] from (acc_balance (view toy_account o1 from)) 7 /\
  0 <= immature_at [(7, replicate 20 1, 200005)] from 7.
Proof.
  intros Hv. assert (immature_at [(7, replicate 20 1, 200005)] from 7 = if decide (from = replicate 20 1) then 200005 else 0) as Him.
  { unfold immature_at. cbn [fold_left fst snd]. destruct (decide _) as [->|Hn]; [reflexivity|].
    by rewrite bool_decide_eq_false_2 by (intros He; by apply Hn). }
  unfold ledger_spendable, spendable_balance, saturating_sub. rewrite Him, Hv. unfold upd.
  destruct (decide _); cbn [acc_nonce acc_balance toy_account]; lia.
Qed.

Lemma toy_transfer_ok o1 i :
  (forall x, view toy_account o1 x = upd toy_account (replicate 20 1) (MkAccount 205005 1) x) ->
  exists r, apply_transfer toy_account [(7, replicate 20 1, 200005)] 7 i o1 sample_transfer = Ok r.
Proof.
  intros Hv. destruct (toy_view_any o1 (address_payload (t_from_pub sample_transfer)) Hv) as (H1 & H2 & H3 & H4).
  destruct (toy_view_any o1 (t_to sample_transfer) Hv) as (_ & H5 & _).
  apply apply_transfer_complete; [| | |exact H1| |exact H3|exact H4|exact H2|exact H5|];
    cbn [sample_transfer t_fee t_amount t_nonce]; unfold FEE_FLOOR_MILE; lia.
Qed.

Lemma toy_result_ok : exists vb o' ledger', toy_result = Ok (vb, o', ledger').
Proof.
  unfold toy_result, validate_block_body.
  assert (BlockBody_parse toy_body = Ok toy_parsed) as -> by (vm_compute; reflexivity). cbn [map_err obind].
  assert (decode_body toy_parsed = Ok [Coinbase sample_coinbase; Transfer sample_transfer]) as ->
    by (vm_compute; reflexivity). cbn [map_err obind].
  change (check_body_structure _) with (Ok (E := TxError) sample_coinbase). cbn [map_err obind].
  cbn [h_tx_root toy_header]. unfold bytes_eqb at 1. rewrite bool_decide_eq_true_2 by done. cbn [negb].
  change (check_signatures _ _ _ _) with (Ok (E := Reject) tt). cbn [obind].
  change (block_fee_total _) with (Ok (E := TxError) 5). cbn [map_err obind].
  change (check_coinbase _ _ _ _) with (Ok (E := TxError) tt). cbn [map_err obind].
  change (coinbase_credit sample_coinbase) with (Ok (E := TxError) 200005). cbn [map_err obind].
  destruct (Overlay_credit toy_account (Overlay_begin_block (Overlay_new 100)) (c_to sample_coinbase) 200005) as [o1| |] eqn:Ec;
    [|exfalso; vm_compute in Ec; discriminate Ec..].
  apply credit_spec in Ec as (_ & Hv & Hlog). specialize (Hlog _ (begin_block_inv toy_account (Overlay_new 100))).
  cbn [obind]. unfold CoinbaseTx_txid. assert (CoinbaseTx_encode sample_coinbase <> Panic) as Hnp by apply np_CoinbaseTx_encode.
  destruct (CoinbaseTx_encode sample_coinbase) as [cbb| |] eqn:Ecb; [|exfalso; vm_compute in Ecb; discriminate Ecb|done].
  cbn [map_err obind drop apply_txs apply_tx].
  destruct (toy_transfer_ok o1 1) as [[[o2 id] sp] Hr]; [intros x; rewrite Hv; reflexivity|].
  change (CoinbaseLedger_push [] _ _ _) with [(7, replicate 20 1, 200005)]. cbn [h_height toy_header]. rewrite Hr. cbn [obind].
  assert (log_inv toy_account (view toy_account (Overlay_new 100)) o2) as Hl2.
  { apply (apply_txs_log toy_account [(7, replicate 20 1, 200005)] 7 [Transfer sample_transfer] 1 o1 o2 [id] [sp]); [|done].
    cbn [apply_txs apply_tx]. by rewrite Hr. }
  destruct (undo_records_spec (E := Reject) toy_account _ _ Hl2) as (recs & -> & _). cbn [obind].
  destruct (Overlay_deltas toy_account o2) as [ds o3]. eauto.
Qed.

Lemma toy_body_ok : bytes_ok toy_body.
Proof. apply bytes_okb. vm_compute. reflexivity. Qed.

Lemma block_conserves_supply_witness :
  exists vb, d_addr <$> vb_deltas vb = u_addr <$> vb_undo vb /\ List.NoDup (u_addr <$> vb_undo vb) /\
    vb_issued_delta vb = block_reward 7 /\
    sum_balances (d_balance <$> vb_deltas vb) = sum_balances (u_prev_balance <$> vb_undo vb) + block_reward 7.
Proof.
  destruct toy_result_ok as (vb & o' & ledger' & Hr). exists vb.
  apply (block_conserves_supply toy_account (Overlay_new 100) [] toy_header toy_body ChainParams_default Untrusted vb o' ledger').
  - exact toy_body_ok.
  - exact Hr.
Defined.

Lemma block_undo_restores_state_witness :
  exists vb o', (forall x, view toy_account (Overlay_apply_undo o' (vb_undo vb)) x = view toy_account (Overlay_new 100) x) /\
  (forall d, In d (vb_deltas vb) -> view toy_account o' (d_addr d) = MkAccount (d_balance d) (d_nonce d)) /\
  (forall x, ~ In x (d_addr <$> vb_deltas vb) -> view toy_account o' x = view toy_account (Overlay_new 100) x).
Proof.
  destruct toy_result_ok as (vb & o' & ledger' & Hr). exists vb, o'.
  apply (block_undo_restores_state toy_account (Overlay_new 100) [] toy_header toy_body ChainParams_default Untrusted vb o' ledger').
  - exact toy_body_ok.
  - exact Hr.
Defined.

Lemma block_nonces_consecutive_witness :
  exists vb o', (forall a, snd <$> filter (fun p => fst p = a) (vb_spent_nonces vb) =
     zrange (acc_nonce (view toy_account (Overlay_new 100) a)) (acc_nonce (view toy_account o' a))) /\
  List.NoDup (vb_spent_nonces vb).
Proof.
  destruct toy_result_ok as (vb & o' & ledger' & Hr). exists vb, o'.
  apply (block_nonces_consecutive toy_account (Overlay_new 100) [] toy_header toy_body ChainParams_default Untrusted vb o' ledger').
  - exact toy_body_ok.
  - exact Hr.
Defined.

Lemma block_never_spends_immature_witness :
  exists vb o' ledger', toy_result = Ok (vb, o', ledger') /\
   (forall a, In a (fst <$> vb_spent_nonces vb) ->
     immature_at ledger' a (h_height toy_header) <= acc_balance (view toy_account o' a)).
Proof.
  destruct toy_result_ok as (vb & o' & ledger' & Hr). exists vb, o', ledger'. split; [exact Hr|].
  destruct (block_never_spends_immature toy_account (Overlay_new 100) [] toy_header toy_body ChainParams_default Untrusted
    toy_body_ok) as [_ Hw].
  exact (Hw vb o' ledger' Hr).
Defined.
