(* ===== verification/ChainWork.v ===== *)
(** Work and difficulty as the chain crate uses them (src/lib/chain/src/work.rs):
    targets as big-endian bytes, the legality of compact bits, the direct-mapped
    memo of header work, and the bits a child must carry. *)

From Stdlib Require Import ZArith Lia List.
From stdpp Require Import base list numbers.
From S2P Require Import Prelude Constants Limbs Asert Work Rules ChainTypes.
Open Scope Z_scope.

(** [bytes[8 * i..8 * i + 8].copy_from_slice(..)] for each of the four limbs. *)
Definition target_to_be (t : Target) : Hash32 :=
  fold_left (fun b i => take (8 * i) b ++ be_bytes 8 (limb_at t (3 - i)) ++ drop (8 * i + 8) b)
    (seq 0 4) (replicate 32 0).

Definition expand_bits (bits : Z) (pow_limit : Target) : option Target :=
  match from_compact bits with
  | Ok t => if Target_is_zero t || Target_gtb t pow_limit then None else Some t
  | _ => None
  end.

Record WorkCache := MkWorkCache { wc_slots : list (option (Z * Work)); wc_hits : Z; wc_misses : Z }.
Definition WorkCache_new : WorkCache := MkWorkCache (replicate 64 None) 0 0.

Definition WorkCache_work {E} (c : WorkCache) (bits : Z) (pow_limit : Target)
    : outcome E (option Work * WorkCache) :=
  let idx := Z.to_nat (Z.land bits 63) in
  let? slot := expect (wc_slots c !! idx) in
  let miss :=
    let? misses := add_checked 64 (wc_misses c) 1 in
    let c := MkWorkCache (wc_slots c) (wc_hits c) misses in
    match expand_bits bits pow_limit with
    | None => Ok (None, c)
    | Some t =>
      let? w := work_from_target (target_to_be t) in
      Ok (Some w, MkWorkCache (<[idx := Some (bits, w)]> (wc_slots c)) (wc_hits c) (wc_misses c))
    end in
  match slot with
  | Some (k, w) =>
    if k =? bits then
      let? hits := add_checked 64 (wc_hits c) 1 in
      Ok (Some w, MkWorkCache (wc_slots c) hits (wc_misses c))
    else miss
  | None => miss
  end.

Definition WorkCache_counters (c : WorkCache) : Z * Z := (wc_hits c, wc_misses c).

Definition anchor_height_for (parent_height interval : Z) : Z :=
  let interval := if interval =? 0 then ASERT_ANCHOR_INTERVAL else interval in
  parent_height / interval * interval.

Definition expected_child_bits
    (anchor_bits anchor_height anchor_parent_time parent_height parent_time : Z)
    (pow_limit : Target) : outcome AsertError Z :=
  asert_next_bits anchor_bits anchor_height anchor_parent_time parent_height parent_time pow_limit.

(** ** Targets as bytes *)
Lemma target_to_be_spec t :
  target_ok t -> hash_ok (target_to_be t) /\ from_be (target_to_be t) = val t.
Proof.
  intros [Hl Ht]. destruct t as [|a [|b [|c [|d [|]]]]]; try discriminate Hl. clear Hl.
  assert (target_to_be [a; b; c; d] = be_bytes 8 d ++ be_bytes 8 c ++ be_bytes 8 b ++ be_bytes 8 a) as -> by reflexivity.
  repeat match goal with H : Forall _ (_ :: _) |- _ => inversion_clear H end.
  unfold limb_ok in *.
  assert (forall x, bytes_ok (be_bytes 8 x)) as Hok by (intros; apply be_bytes_ok).
  assert (forall x, Zlen (be_bytes 8 x) = 8) as Hlen by (intros; by rewrite Zlen_be_bytes).
  assert (forall x, 0 <= x < 2 ^ 64 -> from_be (be_bytes 8 x) = x) as Hv by (intros; by apply from_be_be_bytes).
  split; [split; [repeat (apply Forall_app; split; [apply Hok|]); apply Hok|rewrite !Zlen_app, !Hlen; lia]|].
  rewrite !from_be_app, !Zlen_app, !Hlen, !Hv by done. cbn [val]. lia.
Qed.

(** ** Legal bits *)
Lemma expand_bits_spec bits limit t :
  0 <= bits < 2 ^ 32 -> target_ok limit ->
  expand_bits bits limit = Some t <->
  from_compact bits = Ok t /\ target_ok t /\ val t = compact_val bits /\ 1 <= val t <= val limit.
Proof.
  intros Hb Hl. unfold expand_bits. pose proof (from_compact_total bits Hb) as Hf. cbv zeta in Hf.
  destruct (from_compact bits) as [u|e|] eqn:E; [|split; [done|by intros [? _]]..].
  destruct Hf as (_ & Hu & Hv & _). pose proof (val_bounds 4 u Hu).
  rewrite Target_is_zero_spec, Target_gtb_spec by done.
  destruct (Z.eqb_spec (val u) 0), (Z.ltb_spec (val limit) (val u)); cbn; split;
    try done; try (intros ([= <-] & _ & _ & ?); lia).
  - intros [= <-]. split; [done|]. split; [done|]. split; [done|]. lia.
  - by intros ([= <-] & _).
Qed.

(** The work of legal bits, with no memo in between. *)
Definition direct_work {E} (bits : Z) (limit : Target) : outcome E (option Work) :=
  match expand_bits bits limit with
  | None => Ok None
  | Some t => let? w := work_from_target (target_to_be t) in Ok (Some w)
  end.

Lemma direct_work_total {E} bits limit :
  0 <= bits < 2 ^ 32 -> target_ok limit ->
  exists o, direct_work (E := E) bits limit = Ok o /\
    match o with
    | None => expand_bits bits limit = None
    | Some w => work_ok w /\ val w = target_work (compact_val bits) /\ 1 <= val w <= 2 ^ 256 /\
                1 <= compact_val bits <= val limit
    end.
Proof.
  intros Hb Hl. unfold direct_work. destruct (expand_bits bits limit) as [t|] eqn:E0; [|by exists None].
  apply expand_bits_spec in E0 as (_ & Ht & Hv & Hr); [|done..].
  destruct (target_to_be_spec t Ht) as [Hh Hfb].
  destruct (work_from_target_spec_lemma (E := E) _ Hh) as (w & -> & Hw & Hwv & Hb1).
  exists (Some w). cbn. rewrite Hwv, Hfb, Hv. rewrite Hwv, Hfb, Hv in Hb1. by rewrite Hv in Hr.
Qed.

(** ** The memo *)
Definition slot_ok (limit : Target) (o : option (Z * Work)) : Prop :=
  match o with
  | None => True
  | Some (k, w) => 0 <= k < 2 ^ 32 /\ forall E, direct_work (E := E) k limit = Ok (Some w)
  end.
Definition cache_ok (limit : Target) (c : WorkCache) : Prop :=
  length (wc_slots c) = 64%nat /\ Forall (slot_ok limit) (wc_slots c) /\ 0 <= wc_hits c /\ 0 <= wc_misses c.

Lemma cache_new_ok limit : cache_ok limit WorkCache_new.
Proof. split; [done|]. split; [apply Forall_replicate; exact I|cbn; lia]. Qed.

Lemma slot_index bits : (Z.to_nat (Z.land bits 63) < 64)%nat.
Proof.
  change 63 with (2 ^ 6 - 1). rewrite land_mask by lia.
  pose proof (Z.mod_pos_bound bits (2 ^ 6) ltac:(done)). lia.
Qed.

(** One query: the direct answer, one counter up by one, and a cache that is
    still good for the next query. *)
Lemma WorkCache_work_step {E} c bits limit :
  cache_ok limit c -> target_ok limit -> 0 <= bits < 2 ^ 32 -> wc_hits c + wc_misses c < 2 ^ 64 - 1 ->
  exists o c', WorkCache_work (E := E) c bits limit = Ok (o, c') /\ cache_ok limit c' /\
    (forall F, direct_work (E := F) bits limit = Ok o) /\
    wc_hits c' + wc_misses c' = wc_hits c + wc_misses c + 1.
Proof.
  intros (Hlen & Hs & Hh & Hm) Hl Hb Hcount. unfold WorkCache_work.
  pose proof (slot_index bits) as Hi. set (idx := Z.to_nat (Z.land bits 63)) in *.
  destruct (lookup_lt_is_Some_2 (wc_slots c) idx) as [slot Hslot]; [lia|].
  pose proof (Forall_lookup_1 _ _ _ _ Hs Hslot) as Hok. rewrite Hslot. cbn [expect obind].
  assert (forall x, 0 <= x < 2 ^ 64 - 1 -> add_checked (E := E) 64 x 1 = Ok (x + 1)) as Hadd.
  { intros x Hx. unfold add_checked. apply expect_ok, checked_add_some. lia. }
  match goal with |- exists o c', match slot with _ => _ end = _ /\ _ => set (miss := obind _ _) end.
  assert (exists o c', miss = Ok (o, c') /\ cache_ok limit c' /\
    (forall F, direct_work (E := F) bits limit = Ok o) /\
    wc_hits c' + wc_misses c' = wc_hits c + wc_misses c + 1) as Hmiss.
  { unfold miss. rewrite Hadd by lia. cbn [obind wc_slots wc_hits wc_misses].
    destruct (expand_bits bits limit) as [t|] eqn:E0.
    - assert (E1 := E0). apply expand_bits_spec in E1 as (_ & Ht & _); [|done..].
      destruct (target_to_be_spec t Ht) as [Hth _].
      assert (forall F, exists w, work_from_target (E := F) (target_to_be t) = Ok w) as Hw
        by (intros F; destruct (work_from_target_spec_lemma (E := F) _ Hth) as (w & ? & _); eauto).
      destruct (Hw E) as [w Ew].
      assert (forall F, direct_work (E := F) bits limit = Ok (Some w)) as Hd.
      { intros F. unfold direct_work. rewrite E0.
        destruct (work_from_target_spec_lemma (E := F) _ Hth) as (w' & Ew' & Hw' & Hv' & _).
        destruct (work_from_target_spec_lemma (E := E) _ Hth) as (w2 & Ew2 & Hw2 & Hv2 & _).
        rewrite Ew in Ew2. apply Ok_inj in Ew2 as <-. rewrite Ew'. cbn. do 2 f_equal.
        apply work_val_inj; [done..|congruence]. }
      rewrite Ew. cbn. eexists _, _. split; [done|]. split; [|split; [done|cbn; lia]].
      split; [cbn; by rewrite length_insert|]. split; [|cbn; lia].
      apply Forall_insert; [done|]. by split.
    - eexists _, _. split; [done|]. split; [by repeat split; cbn; try lia|].
      split; [|cbn; lia]. intros F. unfold direct_work. by rewrite E0. }
  destruct slot as [[k w]|]; [|done]. destruct (Z.eqb_spec k bits) as [->|]; [|done].
  rewrite Hadd by lia. cbn. eexists _, _. split; [done|]. split; [by repeat split; cbn; try lia|].
  split; [apply Hok|cbn; lia].
Qed.

(** A run of queries against one cache. *)
Fixpoint WorkCache_run {E} (c : WorkCache) (limit : Target) (queries : list Z)
    : outcome E (list (option Work) * WorkCache) :=
  match queries with
  | [] => Ok ([], c)
  | b :: queries =>
    let? (o, c) := WorkCache_work c b limit in
    let? (os, c) := WorkCache_run c limit queries in
    Ok (o :: os, c)
  end.

Lemma WorkCache_run_ok {E} limit queries : forall c,
  target_ok limit -> Forall (fun b => 0 <= b < 2 ^ 32) queries -> cache_ok limit c ->
  wc_hits c + wc_misses c + Zlen queries < 2 ^ 64 ->
  exists os c', WorkCache_run (E := E) c limit queries = Ok (os, c') /\
    Forall2 (fun b o => direct_work (E := E) b limit = Ok o) queries os /\
    wc_hits c' + wc_misses c' = wc_hits c + wc_misses c + Zlen queries.
Proof.
  induction queries as [|b queries IH]; intros c Hl Hq Hc Hn; cbn [WorkCache_run].
  - exists [], c. split; [done|]. split; [constructor|]. change (Zlen (@nil Z)) with 0. lia.
  - inversion_clear Hq as [|? ? Hb Hq']. rewrite Zlen_cons in *. pose proof (Zlen_nonneg queries).
    destruct (WorkCache_work_step (E := E) c b limit) as (o & c1 & -> & Hc1 & Hd & Hn1); [done..|lia|].
    cbn [obind]. destruct (IH c1) as (os & c2 & -> & Hos & Hn2); [done..|lia|].
    cbn [obind]. exists (o :: os), c2. split; [done|]. split; [by constructor|]. lia.
Qed.

(** The header-work memo never lies: for one proof-of-work limit and any
    sequence of 32-bit queries shorter than [2^64], the direct-mapped 64-slot
    cache answers every query exactly as the uncached computation does, slot
    collisions included, without panicking, and its two counters together count
    the queries. *)
Theorem work_cache_never_lies (limit : Target) (queries : list Z)
    (Hl : target_ok limit) (Hq : Forall (fun b => 0 <= b < 2 ^ 32) queries) (Hn : Zlen queries < 2 ^ 64) :
  exists os c, WorkCache_run (E := Reject) WorkCache_new limit queries = Ok (os, c) /\
    Forall2 (fun b o => direct_work (E := Reject) b limit = Ok o) queries os /\
    (let '(hits, misses) := WorkCache_counters c in hits + misses = Zlen queries).
Proof.
  destruct (WorkCache_run_ok (E := Reject) limit queries WorkCache_new) as (os & c & H1 & H2 & H3);
    [done..|apply cache_new_ok|cbn; lia|].
  exists os, c. split; [done|]. split; [done|]. cbn. cbn in H3. lia.
Qed.

(** Two colliding bits (equal low six bits), the first asked again. *)
Lemma work_cache_never_lies_witness :
  exists os c, WorkCache_run (E := Reject) WorkCache_new POW_LIMIT [0x1d00ffff; 0x1c00ffff; 0x1d00ffff] = Ok (os, c) /\
    Forall2 (fun b o => direct_work (E := Reject) b POW_LIMIT = Ok o) [0x1d00ffff; 0x1c00ffff; 0x1d00ffff] os.
Proof.
  destruct (work_cache_never_lies POW_LIMIT [0x1d00ffff; 0x1c00ffff; 0x1d00ffff] pow_limit_ok) as (os & c & H1 & H2 & _).
  - repeat constructor; lia.
  - reflexivity.
  - exists os, c. exact (conj H1 H2).
Defined.

(** ** The bits of a child *)
Lemma anchor_height_for_spec parent_height interval :
  0 <= parent_height -> 0 <= interval ->
  let a := anchor_height_for parent_height interval in
  let n := if interval =? 0 then ASERT_ANCHOR_INTERVAL else interval in
  a mod n = 0 /\ a <= parent_height < a + n /\ 0 <= a.
Proof.
  intros Hp Hi a n. assert (0 < n) as Hn by (unfold n, ASERT_ANCHOR_INTERVAL; destruct (Z.eqb_spec interval 0); lia).
  unfold a, anchor_height_for. fold n. split; [apply Z.mod_mul; lia|].
  pose proof (Z_div_mod_eq_full parent_height n). pose proof (Z.mod_pos_bound parent_height n Hn).
  assert (0 <= parent_height / n) by (apply Z.div_pos; lia). nia.
Qed.

(** A chain can always be extended: from an anchor whose bits are legal under
    the proof-of-work limit, the bits ASERT demands of the next child exist and
    are themselves legal 32-bit bits (they expand to a target between one and
    the limit), and that target is the ASERT formula's value rounded down to
    the compact format. So the fixed-field gate never refuses the header the
    difficulty gate requires. *)
Theorem expected_bits_are_legal (limit r : Target) (abits ah apt ph pt : Z)
    (Hl : target_ok limit) (Hl1 : 1 <= val limit) (Hab : 0 <= abits < 2 ^ 32)
    (Hr : expand_bits abits limit = Some r) (Hh : ah <= ph) :
  exists bits t, expected_child_bits abits ah apt ph pt limit = Ok bits /\ 0 <= bits < 2 ^ 32 /\
    expand_bits bits limit = Some t /\
    val t = crounded (asert_spec (val r) (ph - ah) (pt - apt) (val limit)).
Proof.
  apply expand_bits_spec in Hr as (Hfc & Hr & _); [|done..]. pose proof (val_bounds 4 r Hr) as [Hr0 _].
  unfold expected_child_bits, asert_next_bits, asert_next_target.
  destruct (Z.ltb_spec ph ah); [lia|]. rewrite Hfc. cbn [obind].
  destruct (asert_target_refines r limit (ph - ah) (pt - apt) Hr Hl) as [Ht Hv].
  set (t := asert_next_target_from_ref _ _ _ _) in *. set (x := asert_spec _ _ _ _) in *.
  pose proof (val_bounds 4 limit Hl) as Hlb. change (64 * Z.of_nat 4) with 256 in Hlb.
  assert (1 <= x <= val limit) as Hx.
  { unfold x, asert_spec. pose proof (asert_raw_nonneg (val r) (asert_exponent (ph - ah) (pt - apt)) Hr0).
    destruct (Z.eqb_spec (asert_raw (val r) (asert_exponent (ph - ah) (pt - apt))) 0); lia. }
  pose proof (compact_val_to_compact x ltac:(lia)) as Hc. cbv zeta in Hc. destruct Hc as (Hb & Hn & Hcv).
  assert (to_compact t = to_compact_val x) as Hto by (rewrite <-Hv; apply to_compact_refines; [done|lia]).
  pose proof (from_compact_total (to_compact_val x) Hb) as Hf. cbv zeta in Hf. rewrite Hn, andb_false_r in Hf.
  destruct (crounded_spec x ltac:(lia)) as [Hcr _].
  destruct (from_compact (to_compact_val x)) as [t'|e|] eqn:E; [|lia|done]. destruct Hf as (_ & Ht' & Hv' & _).
  exists (to_compact t), t'. rewrite Hto. split; [done|]. split; [done|]. split; [|congruence].
  apply expand_bits_spec; [done..|]. split; [done|]. split; [done|]. split; [done|]. lia.
Qed.

Lemma expected_bits_are_legal_witness :
  exists bits t, expected_child_bits GENESIS_BITS 0 0 100 6000 POW_LIMIT = Ok bits /\ 0 <= bits < 2 ^ 32 /\
    expand_bits bits POW_LIMIT = Some t /\
    val t = crounded (asert_spec (0xffff * 2 ^ 224) (100 - 0) (6000 - 0) (val POW_LIMIT)).
Proof.
  apply (expected_bits_are_legal POW_LIMIT (to_limbs 4 (0xffff * 2 ^ 224)) GENESIS_BITS 0 0 100 6000 pow_limit_ok).
  - vm_compute. discriminate.
  - rewrite genesis_bits_value. lia.
  - vm_compute. reflexivity.
  - lia.
Defined.
