(* ===== verification/Index.v ===== *)
(** The header index (src/lib/chain/src/index.rs): every known header as a node of
    an arena in which a parent precedes its children, a map from hashes to nodes,
    and the canonical chain as the node at each height.  [index_wf] is the
    invariant of the arena, kept by every operation; the walks along parents
    ([ancestry], [ancestor_at], [time_window]) are shown to return what the
    ancestor relation says. *)

From Stdlib Require Import ZArith Lia List.
From stdpp Require Import base list gmap numbers.
From S2P Require Import Prelude Constants Work Rules ChainTypes.
Open Scope Z_scope.

Definition NO_PARENT : Z := umax 32.
Definition FLAG_POW_OK : Z := 1.
Definition FLAG_INVALID : Z := 2.
Definition FLAG_HAVE_BODY : Z := 4.

Record Node := MkNode {
  n_hash : Hash32;
  n_prev : Z;
  n_height : Z;
  n_time : Z;
  n_bits : Z;
  n_cum_work : Work;
  n_branch_base_height : Z;
  n_flags : Z;
}.
Definition n_pow_ok (n : Node) : bool := negb (Z.land (n_flags n) FLAG_POW_OK =? 0).
Definition n_invalid (n : Node) : bool := negb (Z.land (n_flags n) FLAG_INVALID =? 0).
Definition n_have_body (n : Node) : bool := negb (Z.land (n_flags n) FLAG_HAVE_BODY =? 0).

(** [n.flags |= flag] and [n.branch_base_height = base]. *)
Definition or_flags (n : Node) (flag : Z) : Node :=
  MkNode (n_hash n) (n_prev n) (n_height n) (n_time n) (n_bits n) (n_cum_work n)
    (n_branch_base_height n) (Z.lor (n_flags n) flag).
Definition with_base (n : Node) (base : Z) : Node :=
  MkNode (n_hash n) (n_prev n) (n_height n) (n_time n) (n_bits n) (n_cum_work n) base (n_flags n).

Record HeaderIndex := MkHeaderIndex {
  ix_nodes : list Node;
  ix_by_hash : gmap Hash32 Z;
  ix_canonical : list Z;
}.
Definition HeaderIndex_new : HeaderIndex := MkHeaderIndex [] ∅ [].

Section Queries.
Context {E : Type}.

Definition ix_len (ix : HeaderIndex) : Z := Zlen (ix_nodes ix).
Definition ix_is_empty (ix : HeaderIndex) : bool := ix_len ix =? 0.
Definition node (ix : HeaderIndex) (idx : Z) : outcome E Node := expect (zlookup (ix_nodes ix) idx).
Definition index_of (ix : HeaderIndex) (h : Hash32) : option Z := ix_by_hash ix !! h.
Definition ix_get (ix : HeaderIndex) (h : Hash32) : outcome E (option Node) :=
  match index_of ix h with
  | None => Ok None
  | Some i => let? n := node ix i in Ok (Some n)
  end.
Definition ix_contains (ix : HeaderIndex) (h : Hash32) : bool := bool_decide (is_Some (ix_by_hash ix !! h)).
Definition tip_index (ix : HeaderIndex) : outcome E Z := expect (list.last (ix_canonical ix)).
Definition ix_tip (ix : HeaderIndex) : outcome E Node := let? i := tip_index ix in node ix i.
Definition ix_tip_height (ix : HeaderIndex) : outcome E Z := let? n := ix_tip ix in Ok (n_height n).
Definition canonical_at (ix : HeaderIndex) (height : Z) : outcome E (option Node) :=
  match zlookup (ix_canonical ix) height with
  | None => Ok None
  | Some i => let? n := node ix i in Ok (Some n)
  end.
Definition is_canonical (ix : HeaderIndex) (idx : Z) : outcome E bool :=
  let? n := node ix idx in
  Ok (bool_decide (zlookup (ix_canonical ix) (n_height n) = Some idx)).

Definition insert_genesis (ix : HeaderIndex) (rec : HeaderRec) (work : Work) : outcome E (Z * HeaderIndex) :=
  if negb (ix_is_empty ix) then Panic else
  let n := MkNode (hr_hash rec) NO_PARENT (hr_height rec) (hr_time rec) (hr_bits rec) work (hr_height rec)
             (Z.lor FLAG_POW_OK FLAG_HAVE_BODY) in
  Ok (0, MkHeaderIndex (ix_nodes ix ++ [n]) (<[hr_hash rec := 0]> (ix_by_hash ix)) (ix_canonical ix ++ [0])).

Definition ix_insert (ix : HeaderIndex) (rec : HeaderRec) (parent : Z) (cum_work : Work) (pow_ok : bool)
    : outcome E (Z * HeaderIndex) :=
  match index_of ix (hr_hash rec) with
  | Some existing => Ok (existing, ix)
  | None =>
    let? p := node ix parent in
    let? canon := is_canonical ix parent in
    let branch_base_height := if canon then n_height p else n_branch_base_height p in
    let idx := wrap 32 (Zlen (ix_nodes ix)) in
    let flags := 0 in
    let flags := if pow_ok then Z.lor flags FLAG_POW_OK else flags in
    let flags := if n_invalid p then Z.lor flags FLAG_INVALID else flags in
    let n := MkNode (hr_hash rec) parent (hr_height rec) (hr_time rec) (hr_bits rec) cum_work
               branch_base_height flags in
    Ok (idx, MkHeaderIndex (ix_nodes ix ++ [n]) (<[hr_hash rec := idx]> (ix_by_hash ix)) (ix_canonical ix))
  end.

Definition or_flags_at (nodes : list Node) (i flag : Z) : outcome E (list Node) :=
  let? n := expect (zlookup nodes i) in Ok (zinsert nodes i (or_flags n flag)).

Definition set_have_body (ix : HeaderIndex) (idx : Z) : outcome E HeaderIndex :=
  let? nodes := or_flags_at (ix_nodes ix) idx FLAG_HAVE_BODY in
  Ok (MkHeaderIndex nodes (ix_by_hash ix) (ix_canonical ix)).

Definition set_invalid_flag (ix : HeaderIndex) (idx : Z) : outcome E HeaderIndex :=
  let? nodes := or_flags_at (ix_nodes ix) idx FLAG_INVALID in
  Ok (MkHeaderIndex nodes (ix_by_hash ix) (ix_canonical ix)).

(** One iteration of the forward pass of [mark_invalid]. *)
Definition poison_step (s : list Node * Z) (i : Z) : outcome E (list Node * Z) :=
  let '(nodes, poisoned) := s in
  let? n := expect (zlookup nodes i) in
  let prev := n_prev n in
  if prev =? NO_PARENT then Ok (nodes, poisoned) else
  let? p := expect (zlookup nodes prev) in
  if n_invalid p && negb (n_invalid n) then
    let? nodes := or_flags_at nodes i FLAG_INVALID in
    let? poisoned := add_checked 64 poisoned 1 in
    Ok (nodes, poisoned)
  else Ok (nodes, poisoned).

Definition mark_invalid (ix : HeaderIndex) (idx : Z) : outcome E (Z * HeaderIndex) :=
  let? nodes := or_flags_at (ix_nodes ix) idx FLAG_INVALID in
  let? (nodes, poisoned) := ofold poison_step (nodes, 0) (zrange (idx + 1) (Zlen nodes)) in
  Ok (poisoned, MkHeaderIndex nodes (ix_by_hash ix) (ix_canonical ix)).

(** One iteration of the recomputation of the fork bases. *)
Definition rebase_step (canonical : list Z) (nodes : list Node) (i : Z) : outcome E (list Node) :=
  let? n := expect (zlookup nodes i) in
  let prev := n_prev n in
  let? base :=
    (if prev =? NO_PARENT then Ok (n_height n)
     else let? p := expect (zlookup nodes prev) in
          Ok (if bool_decide (zlookup canonical (n_height p) = Some prev) then n_height p
              else n_branch_base_height p)) in
  Ok (zinsert nodes i (with_base n base)).

Definition set_canonical (ix : HeaderIndex) (chain : list Z) : outcome E HeaderIndex :=
  let? nodes := ofold (rebase_step chain) (ix_nodes ix) (zrange 0 (Zlen (ix_nodes ix))) in
  Ok (MkHeaderIndex nodes (ix_by_hash ix) chain).

Definition canonical_chain (ix : HeaderIndex) : list Z := ix_canonical ix.

(** The walks along parents. The index of the current node decreases at every
    step, so one unit of fuel per node of the arena is enough. *)
Fixpoint ancestry_loop (fuel : nat) (ix : HeaderIndex) (cur : Z) (out : list Z) : outcome E (list Z) :=
  match fuel with
  | O => Panic
  | S fuel =>
    let out := out ++ [cur] in
    let? n := node ix cur in
    if n_prev n =? NO_PARENT then Ok out else ancestry_loop fuel ix (n_prev n) out
  end.
Definition ancestry (ix : HeaderIndex) (idx : Z) : outcome E (list Z) :=
  let? out := ancestry_loop (length (ix_nodes ix)) ix idx [] in Ok (rev out).

Fixpoint ancestor_loop (fuel : nat) (ix : HeaderIndex) (cur height : Z) : outcome E (option Z) :=
  match fuel with
  | O => Panic
  | S fuel =>
    let? n := node ix cur in
    if n_height n =? height then Ok (Some cur) else
    if (n_height n <? height) || (n_prev n =? NO_PARENT) then Ok None else
    ancestor_loop fuel ix (n_prev n) height
  end.
Definition ancestor_at (ix : HeaderIndex) (idx height : Z) : outcome E (option Z) :=
  ancestor_loop (length (ix_nodes ix)) ix idx height.

Fixpoint time_loop (span : nat) (ix : HeaderIndex) (cur : Z) (out : list Z) : outcome E (list Z) :=
  match span with
  | O => Ok out
  | S span =>
    let? n := node ix cur in
    let out := out ++ [n_time n] in
    if n_prev n =? NO_PARENT then Ok out else time_loop span ix (n_prev n) out
  end.
Definition time_window (ix : HeaderIndex) (idx span : Z) : outcome E (list Z) :=
  let? out := time_loop (Z.to_nat span) ix idx [] in Ok (rev out).

Definition side_count (ix : HeaderIndex) : outcome E Z :=
  expect (checked_sub 64 (Zlen (ix_nodes ix)) (Zlen (ix_canonical ix))).
Definition ix_indices (ix : HeaderIndex) : list Z := zrange 0 (wrap 32 (Zlen (ix_nodes ix))).
End Queries.

(** ** The invariant *)

(** [anc nodes a i]: [a] is [i] or an ancestor of [i]. *)
Inductive anc (nodes : list Node) (a : Z) : Z -> Prop :=
| anc_refl : anc nodes a a
| anc_step i n : zlookup nodes i = Some n -> n_prev n <> NO_PARENT -> anc nodes a (n_prev n) -> anc nodes a i.

(** A list of nodes from genesis on, each the parent of the next. *)
Definition chain_path (nodes : list Node) (chain : list Z) : Prop :=
  zlookup chain 0 = Some 0 /\
  forall h i, 0 < h -> zlookup chain h = Some i ->
    exists n, zlookup nodes i = Some n /\ zlookup chain (h - 1) = Some (n_prev n).

Definition canon (ix : HeaderIndex) (i : Z) : Prop := i ∈ (ix_canonical ix).

(** The fork base a node must carry: its own height at genesis, otherwise the
    parent's height when the parent is canonical and the parent's base when not. *)
Definition base_rule (nodes : list Node) (canonical : list Z) (n : Node) : Z :=
  match zlookup nodes (n_prev n) with
  | None => n_height n
  | Some p => if bool_decide (n_prev n ∈ canonical) then n_height p else n_branch_base_height p
  end.

(** The part of the invariant that does not involve the canonical chain. *)
Record arena_wf (nodes : list Node) : Prop := {
  aw_size : 0 < Zlen nodes <= NO_PARENT;
  aw_root : forall n, zlookup nodes 0 = Some n -> n_prev n = NO_PARENT /\ n_height n = 0;
  aw_parent : forall i n, 0 < i -> zlookup nodes i = Some n ->
    exists p, 0 <= n_prev n < i /\ zlookup nodes (n_prev n) = Some p /\ n_height n = n_height p + 1;
}.

Record index_wf (ix : HeaderIndex) : Prop := {
  wf_arena : arena_wf (ix_nodes ix);
  wf_hash : forall h i, ix_by_hash ix !! h = Some i <-> exists n, zlookup (ix_nodes ix) i = Some n /\ n_hash n = h;
  wf_canon : chain_path (ix_nodes ix) (ix_canonical ix);
  wf_base : forall i n, zlookup (ix_nodes ix) i = Some n ->
    n_branch_base_height n = base_rule (ix_nodes ix) (ix_canonical ix) n;
  wf_poison : forall i n p, zlookup (ix_nodes ix) i = Some n -> zlookup (ix_nodes ix) (n_prev n) = Some p ->
    n_invalid p = true -> n_invalid n = true;
}.

(** ** The arena: heights, ancestors, paths *)
Lemma land_flag_or f g k : 0 <= k -> negb (Z.land (Z.lor f g) (2 ^ k) =? 0) = Z.testbit f k || Z.testbit g k.
Proof. intros Hk. by rewrite land_flag_test, Z.lor_spec. Qed.

Lemma or_invalid n : n_invalid (or_flags n FLAG_INVALID) = true.
Proof. unfold n_invalid, or_flags, FLAG_INVALID. cbn. change 2 with (2 ^ 1) at 2. rewrite land_flag_or by lia. apply orb_true_r. Qed.
Lemma or_body_invalid n : n_invalid (or_flags n FLAG_HAVE_BODY) = n_invalid n.
Proof.
  unfold n_invalid, or_flags, FLAG_INVALID, FLAG_HAVE_BODY. cbn. change 2 with (2 ^ 1).
  rewrite land_flag_or, land_flag_test by lia. apply orb_false_r.
Qed.

Section Arena.
Context (nodes : list Node) (WF : arena_wf nodes).

Lemma prev_in_range i n : zlookup nodes i = Some n -> n_prev n <> NO_PARENT ->
  0 < i /\ exists p, 0 <= n_prev n < i /\ zlookup nodes (n_prev n) = Some p /\ n_height n = n_height p + 1.
Proof.
  intros Hi Hp. pose proof (zlookup_lt _ _ _ Hi). destruct (decide (i = 0)) as [->|].
  - destruct (aw_root _ WF n Hi) as [? _]. done.
  - split; [lia|]. apply (aw_parent _ WF i n); [lia|done].
Qed.

Lemma prev_root i n : zlookup nodes i = Some n -> n_prev n = NO_PARENT <-> i = 0.
Proof.
  intros Hi. pose proof (zlookup_lt _ _ _ Hi). split.
  - intros Hp. destruct (decide (i = 0)); [done|]. destruct (aw_parent _ WF i n) as (p & Hr & _); [lia|done|].
    pose proof (aw_size _ WF). lia.
  - intros ->. by apply (aw_root _ WF).
Qed.

Lemma arena_height i n : zlookup nodes i = Some n -> 0 <= n_height n <= i.
Proof.
  intros Hi. assert (0 <= i) as H0 by apply (zlookup_lt _ _ _ Hi). revert i H0 n Hi.
  apply (Zlt_0_ind (fun i => forall n, zlookup nodes i = Some n -> 0 <= n_height n <= i)).
  intros i IH H0 n Hi. destruct (decide (i = 0)) as [->|].
  - destruct (aw_root _ WF n Hi). lia.
  - destruct (aw_parent _ WF i n) as (p & Hr & Hp & Hh); [lia|done|]. specialize (IH (n_prev n) ltac:(lia) p Hp). lia.
Qed.

Lemma anc_le a i : anc nodes a i -> a <= i.
Proof. induction 1 as [|i n Hi Hn _ IH]; [lia|]. destruct (prev_in_range i n Hi Hn) as (? & p & ? & _). lia. Qed.

Lemma anc_trans a b i : anc nodes a b -> anc nodes b i -> anc nodes a i.
Proof. intros Hab. induction 1; [done|]. by eapply anc_step. Qed.

Lemma anc_bound a i : anc nodes a i -> zlookup nodes i <> None -> exists n, zlookup nodes a = Some n.
Proof.
  induction 1 as [|i n Hi Hn _ IH]; [by destruct (zlookup nodes a); eauto|]. intros _. apply IH.
  destruct (prev_in_range i n Hi Hn) as (_ & p & _ & Hp & _). by rewrite Hp.
Qed.

(** An ancestor is lower by the number of steps, so it is determined by its height. *)
Lemma anc_height a i na ni : anc nodes a i -> zlookup nodes a = Some na -> zlookup nodes i = Some ni ->
  n_height na <= n_height ni /\ (n_height na = n_height ni -> a = i).
Proof.
  intros Ha Hna. revert ni. induction Ha as [|i n Hi Hn _ IH]; intros ni Hni.
  - rewrite Hna in Hni. injection Hni as ->. split; [lia|done].
  - rewrite Hi in Hni. injection Hni as <-. destruct (prev_in_range i n Hi Hn) as (_ & p & _ & Hp & Hh).
    destruct (IH p Hp). split; [lia|intros; lia].
Qed.

Lemma anc_linear a b i : anc nodes a i -> anc nodes b i -> anc nodes a b \/ anc nodes b a.
Proof.
  intros Ha. revert b. induction Ha as [|i n Hi Hn Ha IH]; intros b Hb; [by right|].
  inversion Hb as [|? n' Hi' Hn' Hb']; subst; [left; by eapply anc_step|].
  rewrite Hi in Hi'. injection Hi' as <-. by apply IH.
Qed.

Lemma anc_same_height a b i na nb : anc nodes a i -> anc nodes b i -> zlookup nodes a = Some na ->
  zlookup nodes b = Some nb -> n_height na = n_height nb -> a = b.
Proof.
  intros Ha Hb Hna Hnb Hh. destruct (anc_linear a b i Ha Hb) as [H|H].
  - exact (proj2 (anc_height a b na nb H Hna Hnb) Hh).
  - symmetry. exact (proj2 (anc_height b a nb na H Hnb Hna) (eq_sym Hh)).
Qed.

(** Walking down from a node meets every lower height. *)
Lemma anc_exists i n h : zlookup nodes i = Some n -> 0 <= h <= n_height n ->
  exists a na, anc nodes a i /\ zlookup nodes a = Some na /\ n_height na = h.
Proof.
  intros Hi. assert (0 <= i) as H0 by apply (zlookup_lt _ _ _ Hi). revert i H0 n Hi.
  apply (Zlt_0_ind (fun i => forall n, zlookup nodes i = Some n -> 0 <= h <= n_height n ->
    exists a na, anc nodes a i /\ zlookup nodes a = Some na /\ n_height na = h)).
  intros i IH H0 n Hi Hh. destruct (decide (n_height n = h)); [by exists i, n; split; [apply anc_refl|]|].
  assert (n_prev n <> NO_PARENT) as Hp.
  { intros Hp. apply (prev_root i n Hi) in Hp. subst i. destruct (aw_root _ WF n Hi). lia. }
  destruct (prev_in_range i n Hi Hp) as (_ & p & Hr & Hpn & Hhp).
  destruct (IH (n_prev n) ltac:(lia) p Hpn) as (a & na & Ha & Hna & Hah); [lia|].
  exists a, na. split; [by eapply anc_step|done].
Qed.

(** ** Paths *)
Lemma path_node chain h i : chain_path nodes chain -> zlookup chain h = Some i ->
  exists n, zlookup nodes i = Some n /\ n_height n = h.
Proof.
  intros [Hc0 Hc] Hh. assert (0 <= h) as H0 by apply (zlookup_lt _ _ _ Hh). revert h H0 i Hh.
  apply (Zlt_0_ind (fun h => forall i, zlookup chain h = Some i -> exists n, zlookup nodes i = Some n /\ n_height n = h)).
  intros h IH H0 i Hi. destruct (decide (h = 0)) as [->|Hne].
  - rewrite Hc0 in Hi. injection Hi as <-. pose proof (aw_size _ WF).
    destruct (zlookup_is_Some nodes 0) as [n Hn]; [lia|]. exists n. split; [done|]. by apply (aw_root _ WF).
  - destruct (Hc h i) as (n & Hn & Hp); [lia|done|]. exists n. split; [done|].
    destruct (IH (h - 1) ltac:(lia) _ Hp) as (p & Hpn & Hph).
    pose proof (zlookup_lt _ _ _ Hpn). assert (n_prev n <> NO_PARENT) as Hnp by (pose proof (aw_size _ WF); lia).
    destruct (prev_in_range i n Hn Hnp) as (_ & p' & _ & Hp' & Hhh). rewrite Hpn in Hp'. injection Hp' as <-. lia.
Qed.

Lemma path_mem chain i n : chain_path nodes chain -> zlookup nodes i = Some n ->
  i ∈ chain <-> zlookup chain (n_height n) = Some i.
Proof.
  intros Hc Hn. rewrite zlookup_elem. split; [|by eauto].
  intros [h Hh]. destruct (path_node chain h i Hc Hh) as (n' & Hn' & <-). rewrite Hn in Hn'. by injection Hn' as ->.
Qed.

Lemma path_anc_closed chain a i : chain_path nodes chain -> anc nodes a i -> i ∈ chain -> a ∈ chain.
Proof.
  intros Hc. induction 1 as [|i n Hi Hn _ IH]; [done|]. intros Hin. apply IH.
  apply (path_mem chain i n Hc Hi) in Hin. apply zlookup_elem. exists (n_height n - 1).
  destruct Hc as [_ Hc]. destruct (Hc (n_height n) i) as (n' & Hn' & Hp); [|done|].
  - destruct (prev_in_range i n Hi Hn) as (_ & p & _ & Hp & Hh). pose proof (arena_height _ _ Hp). lia.
  - rewrite Hi in Hn'. by injection Hn' as <-.
Qed.

(** The tip of a path determines it: entry [h] is the tip's ancestor at height [h]. *)
Lemma path_is_ancestry chain t a na : chain_path nodes chain -> list.last chain = Some t ->
  zlookup nodes a = Some na -> a ∈ chain <-> anc nodes a t.
Proof.
  intros Hc Ht Hna. rewrite zlookup_last in Ht. destruct (path_node chain _ t Hc Ht) as (nt & Hnt & Hh). split.
  - intros Ha. apply (path_mem chain a na Hc Hna) in Ha. pose proof (zlookup_lt _ _ _ Ha) as Hlt.
    destruct (anc_exists t nt (n_height na) Hnt) as (b & nb & Hb & Hnb & Hbh); [lia|].
    assert (b ∈ chain) as Hbc by (eapply path_anc_closed; [done..|apply zlookup_elem; eauto]).
    apply (path_mem chain b nb Hc Hnb) in Hbc. rewrite Hbh, Ha in Hbc. by injection Hbc as ->.
  - intros Ha. eapply path_anc_closed; [done..|]. apply zlookup_elem. eauto.
Qed.
End Arena.

(** ** Updates that keep the tree *)

(** What no update of an existing node touches. *)
Definition skel (n : Node) := (n_hash n, n_prev n, n_height n, n_time n, n_bits n, n_cum_work n).
Definition same_tree (a b : list Node) : Prop := skel <$> a = skel <$> b.

#[global] Instance same_tree_equiv : Equivalence same_tree.
Proof. unfold same_tree. split; congruence. Qed.

Lemma zlookup_fmap {A B} (f : A -> B) l i : zlookup (f <$> l) i = f <$> zlookup l i.
Proof. unfold zlookup. destruct (0 <=? i); [apply list_lookup_fmap|done]. Qed.

Lemma same_tree_Zlen a b : same_tree a b -> Zlen a = Zlen b.
Proof. intros H. rewrite <-(Zlen_fmap skel a), <-(Zlen_fmap skel b). by rewrite H. Qed.

Lemma same_tree_lookup a b i n : same_tree a b -> zlookup a i = Some n ->
  exists n', zlookup b i = Some n' /\ skel n' = skel n.
Proof.
  intros H Hi. pose proof (zlookup_fmap skel a i) as Ha. rewrite H, zlookup_fmap, Hi in Ha.
  destruct (zlookup b i) as [n'|]; [|done]. exists n'. split; [done|]. cbn in Ha. congruence.
Qed.

Lemma same_tree_zinsert l i n n' : zlookup l i = Some n -> skel n' = skel n -> same_tree l (zinsert l i n').
Proof.
  intros Hi Hs. apply zlookup_ext; [by rewrite !Zlen_fmap, Zlen_zinsert|]. intros j _.
  rewrite !zlookup_fmap, zlookup_zinsert. destruct (Z.eqb_spec i j) as [<-|]; [|done]. rewrite Hi. cbn.
  destruct (_ && _); [cbn; by rewrite Hs|done].
Qed.

#[global] Instance arena_wf_proper : Proper (same_tree ==> impl) arena_wf.
Proof.
  intros a b H W. pose proof (same_tree_Zlen _ _ H) as Hl. symmetry in H. split.
  - rewrite <-Hl. apply W.
  - intros n Hn. destruct (same_tree_lookup _ _ _ _ H Hn) as (n' & Hn' & [=]).
    destruct (aw_root _ W n' Hn'). split; congruence.
  - intros i n Hi Hn. destruct (same_tree_lookup _ _ _ _ H Hn) as (n' & Hn' & [= ? Ep ? ? ? ?]).
    destruct (aw_parent _ W i n' Hi Hn') as (p & Hr & Hp & Hh). symmetry in H.
    destruct (same_tree_lookup _ _ _ _ H Hp) as (p' & Hp' & [=]). exists p'. rewrite <-Ep. split; [done|]. split; [done|congruence].
Qed.

Lemma anc_same_tree a b x i : same_tree a b -> anc a x i -> anc b x i.
Proof.
  intros H. induction 1 as [|i n Hi Hn _ IH]; [apply anc_refl|].
  destruct (same_tree_lookup _ _ _ _ H Hi) as (n' & Hn' & [= ? Ep ? ? ? ?]).
  apply (anc_step _ _ i n'); [done|congruence|by rewrite Ep].
Qed.

Lemma chain_path_same_tree a b chain : same_tree a b -> chain_path a chain -> chain_path b chain.
Proof.
  intros H [H0 Hc]. split; [done|]. intros h i Hh Hi. destruct (Hc h i Hh Hi) as (n & Hn & Hp).
  destruct (same_tree_lookup _ _ _ _ H Hn) as (n' & Hn' & [= ? Ep ? ? ? ?]). exists n'. by rewrite Ep.
Qed.

Lemma by_hash_same_tree (a b : list Node) (m : gmap Hash32 Z) : same_tree a b ->
  (forall h i, m !! h = Some i <-> exists n, zlookup a i = Some n /\ n_hash n = h) ->
  (forall h i, m !! h = Some i <-> exists n, zlookup b i = Some n /\ n_hash n = h).
Proof.
  intros H Hm h i. rewrite Hm. split; intros (n & Hn & Hh).
  - destruct (same_tree_lookup _ _ _ _ H Hn) as (n' & Hn' & [=]). exists n'. split; [done|congruence].
  - symmetry in H. destruct (same_tree_lookup _ _ _ _ H Hn) as (n' & Hn' & [=]). exists n'. split; [done|congruence].
Qed.

(** [or_flags] and [with_base] through [zlookup]. *)
Lemma or_flags_at_ok {E} nodes i flag n : zlookup nodes i = Some n ->
  or_flags_at (E := E) nodes i flag = Ok (zinsert nodes i (or_flags n flag)) /\
  same_tree nodes (zinsert nodes i (or_flags n flag)).
Proof. intros Hn. unfold or_flags_at. rewrite Hn. split; [done|]. by eapply same_tree_zinsert. Qed.


Lemma base_rule_flags nodes i n flag c m :
  zlookup nodes i = Some n -> base_rule (zinsert nodes i (or_flags n flag)) c m = base_rule nodes c m.
Proof.
  intros Hn. unfold base_rule. rewrite zlookup_zinsert. destruct (Z.eqb_spec i (n_prev m)) as [<-|]; [|done].
  rewrite Hn. destruct (_ && _); done.
Qed.

(** Setting a flag keeps the invariant when it keeps the poison rule. *)
Lemma or_flags_wf ix i n flag : index_wf ix -> zlookup (ix_nodes ix) i = Some n ->
  let nodes := zinsert (ix_nodes ix) i (or_flags n flag) in
  (forall j m p, zlookup nodes j = Some m -> zlookup nodes (n_prev m) = Some p -> n_invalid p = true -> n_invalid m = true) ->
  index_wf (MkHeaderIndex nodes (ix_by_hash ix) (ix_canonical ix)).
Proof.
  intros W Hn nodes Hpoison. destruct (or_flags_at_ok (E := unit) _ _ flag _ Hn) as [_ Hs]. fold nodes in Hs.
  split; cbn.
  - by eapply arena_wf_proper, W.
  - eapply by_hash_same_tree; [done|apply W].
  - eapply chain_path_same_tree; [done|apply W].
  - intros j m Hm. unfold nodes. rewrite base_rule_flags by done. unfold nodes in Hm.
    rewrite zlookup_zinsert in Hm. destruct (_ && _) eqn:Eb in Hm.
    + injection Hm as <-. apply (wf_base _ W i n Hn).
    + by apply (wf_base _ W j m).
  - exact Hpoison.
Qed.

(** ** The operations keep the invariant *)
Lemma node_ok {E} ix i n : node (E := E) ix i = Ok n <-> zlookup (ix_nodes ix) i = Some n.
Proof. apply expect_ok. Qed.

Lemma is_canonical_spec {E} ix i n : index_wf ix -> zlookup (ix_nodes ix) i = Some n ->
  is_canonical (E := E) ix i = Ok (bool_decide (i ∈ ix_canonical ix)).
Proof.
  intros W Hn. unfold is_canonical. rewrite (proj2 (node_ok ix i n) Hn). cbn. f_equal.
  apply bool_decide_ext. symmetry. by apply (path_mem (ix_nodes ix)); [apply W..|].
Qed.

Lemma tip_exists {E} ix : index_wf ix -> exists t n,
  tip_index (E := E) ix = Ok t /\ ix_tip (E := E) ix = Ok n /\ ix_tip_height (E := E) ix = Ok (n_height n) /\
  list.last (ix_canonical ix) = Some t /\ zlookup (ix_nodes ix) t = Some n /\
  Zlen (ix_canonical ix) = n_height n + 1 /\ t ∈ ix_canonical ix.
Proof.
  intros W. destruct (wf_canon _ W) as [H0 _]. apply zlookup_lt in H0 as Hl.
  destruct (zlookup_is_Some (ix_canonical ix) (Zlen (ix_canonical ix) - 1)) as [t Ht]; [lia|].
  destruct (path_node (ix_nodes ix) (wf_arena _ W) _ _ _ (wf_canon _ W) Ht) as (n & Hn & Hh).
  pose proof (zlookup_last (ix_canonical ix)) as Hlast. rewrite Ht in Hlast.
  assert (tip_index (E := E) ix = Ok t) as E1 by (unfold tip_index; by rewrite Hlast).
  assert (ix_tip (E := E) ix = Ok n) as E2 by (unfold ix_tip; rewrite E1; cbn; by apply node_ok).
  exists t, n. split; [done|]. split; [done|]. split; [unfold ix_tip_height; by rewrite E2|].
  split; [done|]. split; [done|]. split; [lia|]. apply zlookup_elem. eauto.
Qed.

Lemma insert_genesis_wf {E} rec w : hr_height rec = 0 ->
  exists ix, insert_genesis (E := E) HeaderIndex_new rec w = Ok (0, ix) /\ index_wf ix.
Proof.
  intros Hh. eexists. split; [reflexivity|]. cbn.
  set (n := MkNode _ _ _ _ _ _ _ _).
  assert (forall i m, zlookup [n] i = Some m -> i = 0 /\ m = n) as H1.
  { intros i m Hi. pose proof (zlookup_lt _ _ _ Hi) as Hr. change (Zlen [n]) with 1 in Hr.
    assert (i = 0) as -> by lia. by injection Hi as <-. }
  assert (zlookup [n] NO_PARENT = None) as Hno by done.
  split; cbn.
  - split; [done| |].
    + intros m Hm. by apply H1 in Hm as [_ ->].
    + intros i m Hi Hm. apply H1 in Hm as [-> _]. lia.
  - intros h i. rewrite lookup_insert_Some, lookup_empty. split.
    + intros [[<- <-]|[_ ?]]; [|done]. by exists n.
    + intros (m & Hm & Hmh). apply H1 in Hm as [-> ->]. left. by subst h.
  - split; [done|]. intros h i Hh0 Hi. apply zlookup_lt in Hi. change (Zlen [0]) with 1 in Hi. lia.
  - intros i m Hm. apply H1 in Hm as [_ ->]. unfold base_rule. cbn [n_prev n]. by rewrite Hno.
  - intros i m p Hm Hp. apply H1 in Hm as [_ ->]. cbn [n_prev n] in Hp. by rewrite Hno in Hp.
Qed.

Lemma zlookup_snoc_inv {A} (l : list A) x i y : zlookup (l ++ [x]) i = Some y ->
  zlookup l i = Some y \/ (i = Zlen l /\ y = x).
Proof.
  intros Hi. pose proof (zlookup_lt _ _ _ Hi) as Hlt. rewrite Zlen_app in Hlt. change (Zlen [x]) with 1 in Hlt.
  destruct (decide (i = Zlen l)) as [->|]; [right; rewrite zlookup_snoc in Hi; by injection Hi as <-|].
  left. by rewrite zlookup_app_l in Hi by lia.
Qed.
Lemma zlookup_snoc_keep {A} (l : list A) x i y : zlookup l i = Some y -> zlookup (l ++ [x]) i = Some y.
Proof. intros Hi. pose proof (zlookup_lt _ _ _ Hi). by rewrite zlookup_app_l by lia. Qed.

(** Appending a node whose parent is in the arena. *)
Lemma arena_snoc nodes n p : arena_wf nodes -> Zlen nodes < NO_PARENT ->
  zlookup nodes (n_prev n) = Some p -> n_height n = n_height p + 1 -> arena_wf (nodes ++ [n]).
Proof.
  intros W Hl Hp Hh. pose proof (aw_size _ W) as Hs. pose proof (zlookup_lt _ _ _ Hp) as Hr.
  split.
  - rewrite Zlen_app. change (Zlen [n]) with 1. lia.
  - intros m Hm. apply zlookup_snoc_inv in Hm as [Hm|[? _]]; [by apply (aw_root _ W)|lia].
  - intros i m Hi Hm. apply zlookup_snoc_inv in Hm as [Hm|[-> ->]].
    + destruct (aw_parent _ W i m Hi Hm) as (q & ? & Hq & ?). exists q. auto using zlookup_snoc_keep.
    + exists p. split; [lia|]. auto using zlookup_snoc_keep.
Qed.

Lemma new_node_invalid (b c : bool) :
  negb (Z.land (let f := if b then Z.lor 0 FLAG_POW_OK else 0 in if c then Z.lor f FLAG_INVALID else f) FLAG_INVALID =? 0) = c.
Proof. by destruct b, c. Qed.

(** Inserting under a known parent: the record is found afterwards, every earlier
    node is untouched, and the invariant is kept. *)
Lemma ix_insert_wf {E} ix rec parent p w pow : index_wf ix -> zlookup (ix_nodes ix) parent = Some p ->
  hr_height rec = n_height p + 1 -> Zlen (ix_nodes ix) < NO_PARENT ->
  exists i ix' n, ix_insert (E := E) ix rec parent w pow = Ok (i, ix') /\ index_wf ix' /\
    zlookup (ix_nodes ix') i = Some n /\ n_hash n = hr_hash rec /\
    (forall j m, zlookup (ix_nodes ix) j = Some m -> zlookup (ix_nodes ix') j = Some m) /\
    ix_canonical ix' = ix_canonical ix.
Proof.
  intros W Hp Hh Hl. unfold ix_insert, index_of. destruct (ix_by_hash ix !! hr_hash rec) as [e|] eqn:Ee.
  { apply (wf_hash _ W) in Ee as He. destruct He as (n & Hn & Hnh). exists e, ix, n. auto 10. }
  rewrite (proj2 (node_ok ix parent p) Hp), (is_canonical_spec ix parent p W Hp). cbn [obind].
  pose proof (aw_size _ (wf_arena _ W)) as Hs. unfold NO_PARENT, umax in Hs.
  rewrite wrap_small by lia. set (n := MkNode _ _ _ _ _ _ _ _). exists (Zlen (ix_nodes ix)). eexists _, n.
  assert (n_prev n = parent) as Hnp by done. rewrite <-Hnp in Hp.
  split; [reflexivity|]. split; [|cbn; split; [apply zlookup_snoc|]; split; [done|]; split; [|done]; intros; by apply zlookup_snoc_keep].
  split; cbn.
  - by eapply arena_snoc; [apply W|..].
  - intros h i. rewrite lookup_insert_Some. split.
    + intros [[<- <-]|[_ Hi]]; [exists n; split; [apply zlookup_snoc|done]|].
      apply (wf_hash _ W) in Hi as (m & Hm & ?). exists m. split; [by apply zlookup_snoc_keep|done].
    + intros (m & Hm & Hmh). apply zlookup_snoc_inv in Hm as [Hm|[-> ->]]; [right|by left].
      assert (ix_by_hash ix !! h = Some i) as Hb by (apply (wf_hash _ W); eauto). split; [congruence|done].
  - destruct (wf_canon _ W) as [H0 Hc]. split; [done|]. intros h i Hh0 Hi. destruct (Hc h i Hh0 Hi) as (m & Hm & Hmp).
    exists m. split; [by apply zlookup_snoc_keep|done].
  - assert (forall m q, zlookup (ix_nodes ix) (n_prev m) = Some q ->
      base_rule (ix_nodes ix ++ [n]) (ix_canonical ix) m = base_rule (ix_nodes ix) (ix_canonical ix) m) as Hsame.
    { intros m q Hq. unfold base_rule. by rewrite (zlookup_snoc_keep _ _ _ _ Hq), Hq. }
    intros i m Hm. apply zlookup_snoc_inv in Hm as [Hm|[-> ->]].
    + rewrite (wf_base _ W i m Hm). destruct (decide (n_prev m = NO_PARENT)) as [Hnp0|Hnp0].
      * unfold base_rule. by rewrite Hnp0, !zlookup_ge by (rewrite ?Zlen_app; change (Zlen [n]) with 1; lia).
      * destruct (prev_in_range _ (wf_arena _ W) i m Hm Hnp0) as (_ & q & _ & Hq & _). by rewrite (Hsame m q Hq).
    + rewrite (Hsame n p Hp). unfold base_rule. rewrite Hp. cbn. by destruct (bool_decide _).
  - intros i m q Hm Hq Hqi. apply zlookup_snoc_inv in Hm as [Hm|[-> ->]].
    + apply (wf_poison _ W i m q Hm); [|done]. destruct (decide (n_prev m = NO_PARENT)) as [Hnp0|Hnp0].
      * apply zlookup_lt in Hq. rewrite Hnp0, Zlen_app in Hq. change (Zlen [n]) with 1 in Hq. lia.
      * destruct (prev_in_range _ (wf_arena _ W) i m Hm Hnp0) as (_ & q' & _ & Hq' & _).
        rewrite (zlookup_snoc_keep _ _ _ _ Hq') in Hq. by injection Hq as <-.
    + rewrite (zlookup_snoc_keep _ _ _ _ Hp) in Hq. injection Hq as <-.
      unfold n_invalid at 1. cbn [n_flags n]. rewrite Hqi. apply (new_node_invalid pow true).
Qed.

Lemma set_have_body_wf {E} ix i n : index_wf ix -> zlookup (ix_nodes ix) i = Some n ->
  exists ix', set_have_body (E := E) ix i = Ok ix' /\ index_wf ix'.
Proof.
  intros W Hn. unfold set_have_body. destruct (or_flags_at_ok (E := E) _ _ FLAG_HAVE_BODY _ Hn) as [-> _]. cbn.
  eexists. split; [done|]. apply or_flags_wf; [done..|].
  assert (forall j m, zlookup (zinsert (ix_nodes ix) i (or_flags n FLAG_HAVE_BODY)) j = Some m ->
    exists m0, zlookup (ix_nodes ix) j = Some m0 /\ n_invalid m = n_invalid m0 /\ n_prev m = n_prev m0) as Hb.
  { intros j m Hm. destruct (decide (i = j)) as [<-|Hij].
    - rewrite (zlookup_zinsert_eq _ _ _ n Hn) in Hm. injection Hm as <-. exists n. by rewrite or_body_invalid.
    - rewrite zlookup_zinsert_ne in Hm by done. by exists m. }
  intros j m p Hm Hp. destruct (Hb _ _ Hm) as (m0 & Hm0 & -> & Hpr). rewrite Hpr in Hp.
  destruct (Hb _ _ Hp) as (p0 & Hp0 & -> & _). by apply (wf_poison _ W j m0 p0).
Qed.

(** Sound before the node has children, as the assertion in the code says. *)
Lemma set_invalid_flag_wf {E} ix i n : index_wf ix -> zlookup (ix_nodes ix) i = Some n ->
  (forall j m, zlookup (ix_nodes ix) j = Some m -> n_prev m <> i) ->
  exists ix', set_invalid_flag (E := E) ix i = Ok ix' /\ index_wf ix'.
Proof.
  intros W Hn Hleaf. unfold set_invalid_flag. destruct (or_flags_at_ok (E := E) _ _ FLAG_INVALID _ Hn) as [-> _]. cbn.
  eexists. split; [done|]. apply or_flags_wf; [done..|]. intros j m p Hm Hp Hpi.
  destruct (decide (i = j)) as [<-|Hij].
  - rewrite (zlookup_zinsert_eq _ _ _ n Hn) in Hm. injection Hm as <-. apply or_invalid.
  - rewrite zlookup_zinsert_ne in Hm by done. rewrite zlookup_zinsert_ne in Hp by (intros ->; by eapply Hleaf).
    by apply (wf_poison _ W j m p).
Qed.

(** *** Invalidation *)
Definition invalid_count (nodes : list Node) : Z := Zlen (filter (fun n => n_invalid n = true) nodes).

Lemma invalid_count_bound nodes : 0 <= invalid_count nodes <= Zlen nodes.
Proof. unfold invalid_count, Zlen. pose proof (length_filter (fun n => n_invalid n = true) nodes). lia. Qed.

Lemma invalid_count_mark nodes i n : zlookup nodes i = Some n -> n_invalid n = false ->
  invalid_count (zinsert nodes i (or_flags n FLAG_INVALID)) = invalid_count nodes + 1.
Proof.
  intros Hn Hv. pose proof (zlookup_lt _ _ _ Hn) as Hr. unfold zlookup, zinsert in *.
  destruct (Z.leb_spec 0 i); [|lia]. unfold Zlen in Hr. rewrite insert_take_drop by lia.
  rewrite <-(take_drop_middle nodes (Z.to_nat i) n) at 3 by done.
  unfold invalid_count. rewrite !list.filter_app, !list.filter_cons, or_invalid, Hv, !Zlen_app.
  destruct (decide (true = true)), (decide (false = true)); try done. rewrite Zlen_cons. lia.
Qed.

Section Poison.
Context (nodes0 : list Node) (WF : arena_wf nodes0).
Hypothesis Hclosed : forall i n p, zlookup nodes0 i = Some n -> zlookup nodes0 (n_prev n) = Some p ->
  n_invalid p = true -> n_invalid n = true.
Context (idx : Z) (n0 : Node) (Hidx : zlookup nodes0 idx = Some n0).
Let start := zinsert nodes0 idx (or_flags n0 FLAG_INVALID).

(** After the pass reached [k]: the descendants of [idx] below [k] are invalid,
    and nothing else has changed. *)
Definition poison_inv (k : Z) (s : list Node * Z) : Prop :=
  let '(nodes, c) := s in
  same_tree nodes0 nodes /\
  (forall j m m', zlookup nodes0 j = Some m -> zlookup nodes j = Some m' ->
    (m' = m \/ m' = or_flags m FLAG_INVALID) /\
    (n_invalid m' = true <-> n_invalid m = true \/ (j < k /\ anc nodes0 idx j))) /\
  0 <= c /\ c + invalid_count start = invalid_count nodes.

Lemma poison_start : poison_inv (idx + 1) (start, 0).
Proof.
  split; [by eapply same_tree_zinsert|]. split; [|lia]. intros j m m' Hm Hm'. unfold start in Hm'.
  destruct (decide (idx = j)) as [<-|Hne].
  - rewrite (zlookup_zinsert_eq _ _ _ n0 Hidx) in Hm'. injection Hm' as <-. rewrite Hidx in Hm. injection Hm as <-.
    split; [by right|]. rewrite or_invalid. split; [|done]. intros _. right. split; [lia|apply anc_refl].
  - rewrite zlookup_zinsert_ne in Hm' by done. rewrite Hm in Hm'. injection Hm' as <-. split; [by left|].
    split; [by left|]. intros [|[Hlt Ha]]; [done|]. apply (anc_le _ WF) in Ha. lia.
Qed.

Lemma anc_of_child j m : zlookup nodes0 j = Some m -> idx < j -> n_prev m <> NO_PARENT ->
  anc nodes0 idx j <-> anc nodes0 idx (n_prev m).
Proof.
  intros Hm Hj Hp. split; [|by apply anc_step]. inversion 1 as [|? m' Hm' _ Ha]; subst; [lia|].
  rewrite Hm in Hm'. by injection Hm' as <-.
Qed.

Lemma poison_step_inv {E} i s : idx + 1 <= i < Zlen nodes0 -> poison_inv i s ->
  exists s', poison_step (E := E) s i = Ok s' /\ poison_inv (i + 1) s'.
Proof.
  destruct s as [nodes c]. intros Hi (Hs & Hv & Hc0 & Hc). pose proof (zlookup_lt _ _ _ Hidx) as Hidx0.
  destruct (zlookup_is_Some nodes0 i) as [m Hm]; [lia|].
  destruct (same_tree_lookup _ _ _ _ Hs Hm) as (m' & Hm' & [= _ Epr _ _ _ _]).
  assert (n_prev m' <> NO_PARENT) as Hnp by (rewrite Epr, (prev_root _ WF i m Hm); lia).
  rewrite Epr in Hnp. destruct (prev_in_range _ WF i m Hm Hnp) as (_ & p & Hpr & Hp & _).
  destruct (same_tree_lookup _ _ _ _ Hs Hp) as (p' & Hp' & _).
  destruct (Hv _ _ _ Hm Hm') as [Hmm Hmi]. destruct (Hv _ _ _ Hp Hp') as [_ Hpi].
  pose proof (anc_of_child i m Hm ltac:(lia) Hnp) as Hanc.
  unfold poison_step. rewrite Hm'. cbn [expect obind]. rewrite Epr.
  destruct (Z.eqb_spec (n_prev m) NO_PARENT); [done|]. rewrite Hp'. cbn [expect obind].
  destruct (n_invalid p' && negb (n_invalid m')) eqn:Eb; to_prop.
  - destruct (or_flags_at_ok (E := E) _ _ FLAG_INVALID _ Hm') as [-> Hs']. cbn [obind].
    pose proof (invalid_count_mark _ _ _ Hm' H0) as Hcount. pose proof (invalid_count_bound nodes) as Hb.
    pose proof (invalid_count_bound start) as Hb0. rewrite <-(same_tree_Zlen _ _ Hs) in Hb.
    pose proof (aw_size _ WF) as Hsz. change NO_PARENT with (2 ^ 32 - 1) in Hsz.
    assert (add_checked (E := E) 64 c 1 = Ok (c + 1)) as -> by (apply expect_ok, checked_add_some; lia).
    cbn [obind]. eexists. split; [done|]. split; [by etransitivity|]. split; [|lia].
    intros j k k' Hk Hk'. destruct (decide (i = j)) as [<-|Hne].
    + rewrite (zlookup_zinsert_eq _ _ _ m' Hm') in Hk'. injection Hk' as <-. rewrite Hm in Hk. injection Hk as <-.
      assert (m' = m) as Heq.
      { destruct Hmm as [|Hmm]; [done|]. rewrite Hmm, or_invalid in H0. done. }
      split; [right; by rewrite Heq|]. rewrite or_invalid. split; [|done]. intros _.
      apply Hpi in H as [Hpv|[_ Ha]].
      * left. by apply (Hclosed i m p).
      * right. split; [lia|]. by apply Hanc.
    + rewrite zlookup_zinsert_ne in Hk' by done. destruct (Hv _ _ _ Hk Hk') as [H1 H2]. split; [done|].
      rewrite H2. split; [intros [?|[? ?]]; [by left|right; split; [lia|done]]|].
      intros [?|[? Ha]]; [by left|]. right. split; [lia|done].
  - eexists. split; [done|]. split; [done|]. split; [|done]. intros j k k' Hk Hk'.
    destruct (Hv _ _ _ Hk Hk') as [H1 H2]. split; [done|]. rewrite H2.
    destruct (decide (i = j)) as [<-|Hne].
    + rewrite Hk in Hm. injection Hm as ->. rewrite Hk' in Hm'. injection Hm' as ->.
      split; [intros [?|[? _]]; [by left|lia]|]. intros [?|[_ Ha]]; [by left|]. left.
      destruct Eb as [Eb|Eb]; to_prop.
      * assert (n_invalid p' = true) as Hc' by (apply Hpi; right; split; [lia|by apply Hanc]). congruence.
      * apply Hmi in Eb as [|[? _]]; [done|lia].
    + split; (intros [?|[? ?]]; [by left|right; split; [lia|done]]).
Qed.
End Poison.

Lemma mark_invalid_spec {E} ix idx n0 : index_wf ix -> zlookup (ix_nodes ix) idx = Some n0 ->
  exists poisoned ix', mark_invalid (E := E) ix idx = Ok (poisoned, ix') /\
    ix_by_hash ix' = ix_by_hash ix /\ ix_canonical ix' = ix_canonical ix /\
    same_tree (ix_nodes ix) (ix_nodes ix') /\
    (forall j m m', zlookup (ix_nodes ix) j = Some m -> zlookup (ix_nodes ix') j = Some m' ->
      (m' = m \/ m' = or_flags m FLAG_INVALID) /\
      (n_invalid m' = true <-> n_invalid m = true \/ anc (ix_nodes ix) idx j)) /\
    poisoned + (if n_invalid n0 then 0 else 1) = invalid_count (ix_nodes ix') - invalid_count (ix_nodes ix).
Proof.
  intros W Hn0. unfold mark_invalid. destruct (or_flags_at_ok (E := E) _ _ FLAG_INVALID _ Hn0) as [-> _]. cbn [obind].
  pose proof (zlookup_lt _ _ _ Hn0) as Hr. rewrite Zlen_zinsert.
  destruct (ofold_range_inv (poison_step (E := E)) (poison_inv (ix_nodes ix) idx n0) (idx + 1) (Zlen (ix_nodes ix))
    (zinsert (ix_nodes ix) idx (or_flags n0 FLAG_INVALID), 0)) as ([nodes c] & -> & Hs & Hv & Hc0 & Hc).
  { lia. } { apply poison_start; [apply W|done]. }
  { intros i s Hi. apply poison_step_inv; [apply W|apply (wf_poison _ W)|done|done]. }
  cbn [obind]. eexists c, _. split; [done|]. split; [done|]. split; [done|]. cbn. split; [done|]. split.
  - intros j m m' Hm Hm'. destruct (Hv _ _ _ Hm Hm') as [H1 H2]. split; [done|]. rewrite H2.
    pose proof (zlookup_lt _ _ _ Hm). split; (intros [?|H3]; [by left|right]); [apply H3|split; [lia|done]].
  - destruct (n_invalid n0) eqn:Ei; [|rewrite (invalid_count_mark _ _ _ Hn0 Ei) in Hc; lia].
    assert (zinsert (ix_nodes ix) idx (or_flags n0 FLAG_INVALID) = ix_nodes ix) as Hid; [|rewrite Hid in Hc; lia].
    apply zlookup_ext; [apply Zlen_zinsert|]. intros j _. destruct (decide (idx = j)) as [<-|].
    + rewrite (zlookup_zinsert_eq _ _ _ n0 Hn0), Hn0. f_equal. unfold or_flags. destruct n0. cbn. f_equal.
      unfold n_invalid, FLAG_INVALID in *. cbn in Ei. change 2 with (2 ^ 1) in Ei. rewrite land_flag_test in Ei by lia.
      apply Z.bits_inj'. intros k Hk. rewrite Z.lor_spec. change 2 with (2 ^ 1). rewrite Z.pow2_bits_eqb by lia.
      destruct (Z.eqb_spec 1 k) as [<-|]; [by rewrite Ei|apply orb_false_r].
    + by apply zlookup_zinsert_ne.
Qed.

(** The new flags are the only change, so the fork bases stay right. *)
Lemma mark_invalid_wf {E} ix idx n0 : index_wf ix -> zlookup (ix_nodes ix) idx = Some n0 ->
  exists poisoned ix', mark_invalid (E := E) ix idx = Ok (poisoned, ix') /\ index_wf ix'.
Proof.
  intros W Hn0. destruct (mark_invalid_spec (E := E) ix idx n0 W Hn0) as (c & ix' & Hm & Hbh & Hcan & Hs & Hv & _).
  exists c, ix'. split; [done|]. assert (same_tree (ix_nodes ix') (ix_nodes ix)) as Hs' by by symmetry.
  assert (forall j m', zlookup (ix_nodes ix') j = Some m' -> exists m, zlookup (ix_nodes ix) j = Some m /\
    n_prev m' = n_prev m /\ n_height m' = n_height m /\ n_branch_base_height m' = n_branch_base_height m /\
    (n_invalid m' = true <-> n_invalid m = true \/ anc (ix_nodes ix) idx j)) as Hback.
  { intros j m' Hm'. destruct (same_tree_lookup _ _ _ _ Hs' Hm') as (m & Hjm & _). exists m.
    destruct (Hv _ _ _ Hjm Hm') as [[->| ->] Hi]; auto 10. }
  split.
  - by eapply arena_wf_proper, W.
  - rewrite Hbh. eapply by_hash_same_tree; [done|apply W].
  - rewrite Hcan. eapply chain_path_same_tree; [done|apply W].
  - intros j m' Hm'. destruct (Hback _ _ Hm') as (m & Hjm & Hp & Hh & -> & _). rewrite (wf_base _ W j m Hjm).
    unfold base_rule. rewrite Hp, Hh, Hcan. destruct (zlookup (ix_nodes ix) (n_prev m)) as [p|] eqn:Ep.
    + destruct (same_tree_lookup _ _ _ _ Hs Ep) as (p' & Hp' & _). rewrite Hp'.
      destruct (Hback _ _ Hp') as (p2 & Hp2 & _ & -> & -> & _). rewrite Ep in Hp2. by injection Hp2 as <-.
    + destruct (zlookup (ix_nodes ix') (n_prev m)) as [p'|] eqn:Ep'; [|done].
      destruct (Hback _ _ Ep') as (p2 & Hp2 & _). congruence.
  - intros j m' p' Hm' Hp'. destruct (Hback _ _ Hm') as (m & Hjm & Hp & _ & _ & Hi). rewrite Hp in Hp'.
    destruct (Hback _ _ Hp') as (p & Hpn & _ & _ & _ & Hpi). rewrite Hi, Hpi. intros [Hpv|Ha].
    + left. by apply (wf_poison _ W j m p).
    + right. apply (anc_step _ _ j m); [done| |done]. intros Hn. rewrite Hn in Hpn. apply zlookup_lt in Hpn.
      pose proof (aw_size _ (wf_arena _ W)). lia.
Qed.

(** *** The canonical chain *)
Section Rebase.
Context (nodes0 : list Node) (WF : arena_wf nodes0) (chain : list Z) (Hpath : chain_path nodes0 chain).

Definition rebase_inv (k : Z) (nodes : list Node) : Prop :=
  same_tree nodes0 nodes /\
  forall j m', zlookup nodes j = Some m' ->
    (exists m, zlookup nodes0 j = Some m /\ n_flags m' = n_flags m) /\
    (j < k -> n_branch_base_height m' = base_rule nodes chain m').

Lemma rebase_step_inv {E} i nodes : 0 <= i < Zlen nodes0 -> rebase_inv i nodes ->
  exists nodes', rebase_step (E := E) chain nodes i = Ok nodes' /\ rebase_inv (i + 1) nodes'.
Proof.
  intros Hi [Hs Hv]. destruct (zlookup_is_Some nodes i) as [n Hn]; [by rewrite <-(same_tree_Zlen _ _ Hs)|].
  assert (arena_wf nodes) as W by by eapply arena_wf_proper.
  assert (chain_path nodes chain) as Hp by by eapply chain_path_same_tree.
  unfold rebase_step. rewrite Hn. cbn [expect obind].
  assert (exists base, (if n_prev n =? NO_PARENT then Ok (n_height n)
     else let? p := expect (zlookup nodes (n_prev n)) in
          Ok (if bool_decide (zlookup chain (n_height p) = Some (n_prev n)) then n_height p
              else n_branch_base_height p)) = @Ok E _ base /\ base = base_rule nodes chain n /\ n_prev n <> i)
    as (base & -> & Hb & Hpi).
  { unfold base_rule. destruct (Z.eqb_spec (n_prev n) NO_PARENT) as [E0|E0].
    - rewrite E0, zlookup_ge by (pose proof (aw_size _ W); lia). eexists. split; [done|]. split; [done|].
      pose proof (aw_size _ W). rewrite <-(same_tree_Zlen _ _ Hs) in *. lia.
    - destruct (prev_in_range _ W i n Hn E0) as (_ & p & Hr & Hpn & _). rewrite Hpn. cbn. eexists. split; [done|].
      split; [|lia]. by rewrite (bool_decide_ext _ _ (path_mem _ W chain (n_prev n) p Hp Hpn)). }
  cbn [obind]. eexists. split; [done|].
  assert (same_tree nodes (zinsert nodes i (with_base n base))) as Hs2 by by eapply same_tree_zinsert.
  split; [by etransitivity|].
  assert (forall m, n_prev m <> i -> base_rule (zinsert nodes i (with_base n base)) chain m = base_rule nodes chain m) as Hsame.
  { intros m Hm. unfold base_rule. by rewrite zlookup_zinsert_ne by done. }
  intros j m' Hm'. destruct (decide (i = j)) as [<-|Hne].
  - rewrite (zlookup_zinsert_eq _ _ _ n Hn) in Hm'. injection Hm' as <-. destruct (Hv i n Hn) as [(m & Hm & Hf) _].
    split; [by exists m|]. intros _. rewrite Hsame by done. done.
  - rewrite zlookup_zinsert_ne in Hm' by done. destruct (Hv j m' Hm') as [H1 H2]. split; [done|]. intros Hj.
    rewrite H2 by lia. rewrite Hsame; [done|]. intros Hp2. destruct (decide (n_prev m' = NO_PARENT)) as [E0|E0].
    + pose proof (aw_size _ W). rewrite <-(same_tree_Zlen _ _ Hs) in *. lia.
    + destruct (prev_in_range _ W j m' Hm' E0) as (_ & p & Hr & _). lia.
Qed.
End Rebase.

Lemma set_canonical_wf {E} ix chain : index_wf ix -> chain_path (ix_nodes ix) chain ->
  exists ix', set_canonical (E := E) ix chain = Ok ix' /\ index_wf ix' /\
    ix_canonical ix' = chain /\ same_tree (ix_nodes ix) (ix_nodes ix').
Proof.
  intros W Hp. unfold set_canonical.
  destruct (ofold_range_inv (rebase_step (E := E) chain) (rebase_inv (ix_nodes ix) chain) 0 (Zlen (ix_nodes ix))
    (ix_nodes ix)) as (nodes & -> & Hs & Hv).
  { apply Zlen_nonneg. }
  { split; [reflexivity|]. intros j m' Hm'. pose proof (zlookup_lt _ _ _ Hm'). split; [by exists m'|lia]. }
  { intros i nodes Hi. apply rebase_step_inv; [apply W|done|lia]. }
  cbn [obind]. eexists. split; [done|]. cbn. split; [|done]. split; cbn.
  - by eapply arena_wf_proper, W.
  - eapply by_hash_same_tree; [done|apply W].
  - by eapply chain_path_same_tree.
  - intros j m' Hm'. apply (Hv j m' Hm'). rewrite (same_tree_Zlen _ _ Hs). apply (zlookup_lt _ _ _ Hm').
  - intros j m' p' Hm' Hp'. destruct (Hv _ _ Hm') as [(m & Hm & Hf) _]. destruct (Hv _ _ Hp') as [(p & Hpn & Hfp) _].
    destruct (same_tree_lookup _ _ _ _ Hs Hm) as (m2 & Hm2 & [= _ Epr _ _ _ _]). rewrite Hm' in Hm2. injection Hm2 as <-.
    unfold n_invalid. rewrite Hf, Hfp. apply (wf_poison _ W j m p); [done|by rewrite <-Epr].
Qed.

(** ** The walks along parents *)
Lemma chain_path_snoc nodes chain i n : chain_path nodes chain -> list.last chain = Some (n_prev n) ->
  zlookup nodes i = Some n -> chain_path nodes (chain ++ [i]).
Proof.
  intros [H0 Hc] Hl Hn. split; [by apply zlookup_snoc_keep|]. intros h j Hh Hj.
  apply zlookup_snoc_inv in Hj as [Hj|[-> ->]].
  - destruct (Hc h j Hh Hj) as (m & Hm & Hp). exists m. split; [done|]. by apply zlookup_snoc_keep.
  - exists n. split; [done|]. rewrite zlookup_last in Hl. by apply zlookup_snoc_keep.
Qed.

Section Walks.
Context {E : Type} (ix : HeaderIndex) (WF : arena_wf (ix_nodes ix)).

Lemma ancestry_loop_spec fuel : forall i n out, zlookup (ix_nodes ix) i = Some n -> i < Z.of_nat fuel ->
  exists up, ancestry_loop (E := E) fuel ix i out = Ok (out ++ up) /\
    chain_path (ix_nodes ix) (rev up) /\ list.last (rev up) = Some i.
Proof.
  induction fuel as [|fuel IH]; intros i n out Hn Hf; [apply zlookup_lt in Hn; lia|]. cbn [ancestry_loop].
  rewrite (proj2 (node_ok ix i n) Hn). cbn [obind]. destruct (Z.eqb_spec (n_prev n) NO_PARENT) as [E0|E0].
  - apply (prev_root _ WF i n Hn) in E0 as ->. exists [0]. split; [done|]. split; [|done]. split; [done|].
    intros h i Hh Hi. apply zlookup_lt in Hi. change (Zlen (rev [0])) with 1 in Hi. lia.
  - destruct (prev_in_range _ WF i n Hn E0) as (_ & p & Hr & Hp & _).
    destruct (IH (n_prev n) p (out ++ [i]) Hp ltac:(lia)) as (up & -> & Hc & Hl).
    exists (i :: up). split; [by rewrite <-app_assoc|]. cbn [rev]. split; [by eapply chain_path_snoc|].
    by rewrite last_snoc.
Qed.

Lemma ancestry_spec i n : zlookup (ix_nodes ix) i = Some n ->
  exists chain, ancestry (E := E) ix i = Ok chain /\ chain_path (ix_nodes ix) chain /\ list.last chain = Some i.
Proof.
  intros Hn. unfold ancestry. pose proof (zlookup_lt _ _ _ Hn) as Hr. unfold Zlen in Hr.
  destruct (ancestry_loop_spec (length (ix_nodes ix)) i n [] Hn) as (up & -> & ? & ?); [lia|].
  cbn [obind app]. eauto.
Qed.

Lemma ancestor_loop_spec fuel h : forall i n, zlookup (ix_nodes ix) i = Some n -> i < Z.of_nat fuel ->
  (0 <= h <= n_height n /\ exists a na, ancestor_loop (E := E) fuel ix i h = Ok (Some a) /\
     anc (ix_nodes ix) a i /\ zlookup (ix_nodes ix) a = Some na /\ n_height na = h) \/
  (~ (0 <= h <= n_height n) /\ ancestor_loop (E := E) fuel ix i h = Ok None).
Proof.
  induction fuel as [|fuel IH]; intros i n Hn Hf; [apply zlookup_lt in Hn; lia|]. cbn [ancestor_loop].
  rewrite (proj2 (node_ok ix i n) Hn). cbn [obind]. pose proof (arena_height _ WF i n Hn).
  destruct (Z.eqb_spec (n_height n) h) as [Eh|Eh].
  { left. split; [lia|]. exists i, n. repeat split; try done. apply anc_refl. }
  destruct (Z.ltb_spec (n_height n) h); [right; split; [lia|done]|]. cbn [orb].
  destruct (Z.eqb_spec (n_prev n) NO_PARENT) as [E0|E0].
  - right. apply (prev_root _ WF i n Hn) in E0 as ->. destruct (aw_root _ WF n Hn). split; [lia|done].
  - destruct (prev_in_range _ WF i n Hn E0) as (_ & p & Hr & Hp & Hh).
    destruct (IH (n_prev n) p Hp ltac:(lia)) as [(? & a & na & -> & Ha & Hna & Hah)|[? ->]].
    + left. split; [lia|]. exists a, na. repeat split; try done. by eapply anc_step.
    + right. split; [lia|done].
Qed.

Lemma ancestor_at_spec i n h : zlookup (ix_nodes ix) i = Some n ->
  exists o, ancestor_at (E := E) ix i h = Ok o /\
    forall a, o = Some a <-> anc (ix_nodes ix) a i /\ exists na, zlookup (ix_nodes ix) a = Some na /\ n_height na = h.
Proof.
  intros Hn. unfold ancestor_at. pose proof (zlookup_lt _ _ _ Hn) as Hr. unfold Zlen in Hr.
  destruct (ancestor_loop_spec (length (ix_nodes ix)) h i n Hn ltac:(lia)) as [(_ & a & na & -> & Ha & Hna & Hh)|[Hh ->]];
    eexists; (split; [done|]); intros b; split.
  - intros [= <-]. eauto.
  - intros (Hb & nb & Hnb & Hbh). f_equal. eapply (anc_same_height _ WF a b i); [done..|congruence].
  - done.
  - intros (Hb & nb & Hnb & Hbh). exfalso. apply Hh. pose proof (arena_height _ WF b nb Hnb).
    destruct (anc_height _ WF b i nb n Hb Hnb Hn). lia.
Qed.

Definition times_of (chain : list Z) : list Z :=
  (fun i => match zlookup (ix_nodes ix) i with Some n => n_time n | None => 0 end) <$> chain.

Lemma path_unsnoc chain i n : chain_path (ix_nodes ix) (chain ++ [i]) -> zlookup (ix_nodes ix) i = Some n ->
  n_prev n <> NO_PARENT -> chain_path (ix_nodes ix) chain /\ list.last chain = Some (n_prev n).
Proof.
  intros [H0 Hc] Hn Hp. destruct (prev_in_range _ WF i n Hn Hp) as (Hi & _).
  assert (chain <> []) as Hne by (intros ->; cbn in H0; injection H0 as ->; lia).
  assert (0 < Zlen chain) by (destruct chain; [done|rewrite Zlen_cons; pose proof (Zlen_nonneg chain); lia]).
  destruct (Hc (Zlen chain) i) as (n' & Hn' & Hl); [lia|apply zlookup_snoc|]. rewrite Hn in Hn'. injection Hn' as <-.
  rewrite zlookup_app_l in Hl by lia. split; [split|by rewrite zlookup_last].
  - by rewrite zlookup_app_l in H0 by lia.
  - intros h j Hh Hj. destruct (Hc h j Hh (zlookup_snoc_keep _ _ _ _ Hj)) as (m & Hm & Hmp). exists m.
    split; [done|]. apply zlookup_lt in Hj. by rewrite zlookup_app_l in Hmp by lia.
Qed.

Lemma time_loop_spec span : forall chain i n out, chain_path (ix_nodes ix) (chain ++ [i]) -> zlookup (ix_nodes ix) i = Some n ->
  time_loop (E := E) span ix i out = Ok (out ++ take span (rev (times_of (chain ++ [i])))).
Proof.
  induction span as [|span IH]; intros chain i n out Hc Hn; cbn [time_loop]; [by rewrite take_0, app_nil_r|].
  rewrite (proj2 (node_ok ix i n) Hn). cbn [obind]. unfold times_of. rewrite fmap_app, rev_app_distr.
  cbn [fmap list_fmap rev app]. rewrite Hn. cbn [take]. destruct (Z.eqb_spec (n_prev n) NO_PARENT) as [E0|E0].
  - apply (prev_root _ WF i n Hn) in E0 as ->. assert (chain = []) as ->; [|by destruct span].
    destruct chain as [|x chain]; [done|]. exfalso. destruct (path_node _ WF _ (Zlen (x :: chain)) 0 Hc) as (n' & Hn' & Hh).
    { apply zlookup_snoc. } destruct (aw_root _ WF n' Hn'). rewrite Zlen_cons in Hh. pose proof (Zlen_nonneg chain). lia.
  - destruct (path_unsnoc chain i n Hc Hn E0) as [Hc' Hl]. apply last_Some in Hl as [c' ->].
    destruct (prev_in_range _ WF i n Hn E0) as (_ & p & _ & Hp & _).
    rewrite (IH c' (n_prev n) p _ Hc' Hp). by rewrite <-app_assoc.
Qed.

Lemma time_window_spec i n span : zlookup (ix_nodes ix) i = Some n -> 0 <= span ->
  exists chain, ancestry (E := E) ix i = Ok chain /\
    time_window (E := E) ix i span = Ok (drop (length chain - Z.to_nat span) (times_of chain)).
Proof.
  intros Hn Hs. destruct (ancestry_spec i n Hn) as (chain & Ha & Hc & Hl). exists chain. split; [done|].
  apply last_Some in Hl as [c ->]. unfold time_window. rewrite (time_loop_spec _ c i n [] Hc Hn). cbn [obind app].
  f_equal. rewrite firstn_rev, rev_involutive. unfold times_of. by rewrite length_fmap.
Qed.
End Walks.

(** ** Reachable indexes *)

(** The ways the chain manager changes the index: genesis at boot, insertion
    under a known parent at the next height, bodies, invalidation, and adopting
    the ancestry of a node as the canonical chain.  [adm parent rec work] is what
    the callers check of a header before they insert it. *)
Inductive ix_reach (adm : option Node -> HeaderRec -> Work -> Prop) : HeaderIndex -> Prop :=
| reach_genesis rec w i ix :
    hr_height rec = 0 -> adm None rec w ->
    insert_genesis (E := Reject) HeaderIndex_new rec w = Ok (i, ix) -> ix_reach adm ix
| reach_insert ix rec parent p w pow i ix' :
    ix_reach adm ix -> node (E := Reject) ix parent = Ok p -> hr_height rec = n_height p + 1 ->
    ix_len ix < NO_PARENT -> adm (Some p) rec w ->
    ix_insert (E := Reject) ix rec parent w pow = Ok (i, ix') -> ix_reach adm ix'
| reach_body ix i ix' : ix_reach adm ix -> set_have_body (E := Reject) ix i = Ok ix' -> ix_reach adm ix'
| reach_flag ix i ix' :
    ix_reach adm ix -> (forall j m, zlookup (ix_nodes ix) j = Some m -> n_prev m <> i) ->
    set_invalid_flag (E := Reject) ix i = Ok ix' -> ix_reach adm ix'
| reach_invalid ix i k ix' : ix_reach adm ix -> mark_invalid (E := Reject) ix i = Ok (k, ix') -> ix_reach adm ix'
| reach_adopt ix best chain ix' :
    ix_reach adm ix -> ancestry (E := Reject) ix best = Ok chain ->
    set_canonical (E := Reject) ix chain = Ok ix' -> ix_reach adm ix'.

Lemma ancestry_node {E} ix best chain : ancestry (E := E) ix best = Ok chain ->
  exists n, zlookup (ix_nodes ix) best = Some n.
Proof.
  unfold ancestry. intros H. destruct (length (ix_nodes ix)) as [|fuel]; cbn in H; [done|].
  unfold node in H. destruct (zlookup (ix_nodes ix) best) as [n|]; [eauto|done].
Qed.

Lemma ix_reach_wf_lemma adm ix : ix_reach adm ix -> index_wf ix.
Proof.
  induction 1 as [rec w i ix Hh _ H|ix rec parent p w pow i ix' _ W Hp Hh Hl _ H|ix i ix' _ W H|ix i ix' _ W Hleaf H
    |ix i k ix' _ W H|ix best chain ix' _ W Ha H].
  - destruct (insert_genesis_wf (E := Reject) rec w Hh) as (ix2 & H2 & ?). rewrite H in H2. by injection H2 as _ ->.
  - apply node_ok in Hp. destruct (ix_insert_wf (E := Reject) ix rec parent p w pow W Hp Hh Hl) as (i2 & ix2 & n & H2 & W2 & _).
    rewrite H in H2. by injection H2 as _ ->.
  - assert (exists n, zlookup (ix_nodes ix) i = Some n) as [n Hn].
    { unfold set_have_body, or_flags_at in H. destruct (zlookup (ix_nodes ix) i); [eauto|done]. }
    destruct (set_have_body_wf (E := Reject) ix i n W Hn) as (ix2 & H2 & ?). rewrite H in H2. by injection H2 as ->.
  - assert (exists n, zlookup (ix_nodes ix) i = Some n) as [n Hn].
    { unfold set_invalid_flag, or_flags_at in H. destruct (zlookup (ix_nodes ix) i); [eauto|done]. }
    destruct (set_invalid_flag_wf (E := Reject) ix i n W Hn Hleaf) as (ix2 & H2 & ?). rewrite H in H2. by injection H2 as ->.
  - assert (exists n, zlookup (ix_nodes ix) i = Some n) as [n Hn].
    { unfold mark_invalid, or_flags_at in H. destruct (zlookup (ix_nodes ix) i); [eauto|done]. }
    destruct (mark_invalid_wf (E := Reject) ix i n W Hn) as (k2 & ix2 & H2 & ?). rewrite H in H2. by injection H2 as _ ->.
  - destruct (ancestry_node ix best chain Ha) as [n Hn].
    destruct (ancestry_spec (E := Reject) ix (wf_arena _ W) best n Hn) as (c & Hc & Hp & _). rewrite Ha in Hc. injection Hc as <-.
    destruct (set_canonical_wf (E := Reject) ix chain W Hp) as (ix2 & H2 & ? & _). rewrite H in H2. by injection H2 as ->.
Qed.

(** The nearest canonical ancestor of a node's parent carries the node's fork base. *)
Lemma base_is_fork_point_lemma ix i n p : index_wf ix -> zlookup (ix_nodes ix) i = Some n ->
  zlookup (ix_nodes ix) (n_prev n) = Some p ->
  exists a na, anc (ix_nodes ix) a (n_prev n) /\ zlookup (ix_nodes ix) a = Some na /\ a ∈ ix_canonical ix /\
    n_height na = n_branch_base_height n /\
    forall c nc, anc (ix_nodes ix) c (n_prev n) -> zlookup (ix_nodes ix) c = Some nc -> c ∈ ix_canonical ix ->
      n_height nc <= n_height na.
Proof.
  intros W Hn Hp. assert (0 <= i) as H0 by apply (zlookup_lt _ _ _ Hn). revert i H0 n p Hn Hp.
  apply (Zlt_0_ind (fun i => forall n p, zlookup (ix_nodes ix) i = Some n -> zlookup (ix_nodes ix) (n_prev n) = Some p ->
    exists a na, anc (ix_nodes ix) a (n_prev n) /\ zlookup (ix_nodes ix) a = Some na /\ a ∈ ix_canonical ix /\
      n_height na = n_branch_base_height n /\
      forall c nc, anc (ix_nodes ix) c (n_prev n) -> zlookup (ix_nodes ix) c = Some nc -> c ∈ ix_canonical ix ->
        n_height nc <= n_height na)).
  intros i IH H0 n p Hn Hp. pose proof (wf_arena _ W) as A. pose proof (zlookup_lt _ _ _ Hp) as Hr.
  assert (n_prev n <> NO_PARENT) as Hnp by (pose proof (aw_size _ A); lia).
  destruct (prev_in_range _ A i n Hn Hnp) as (_ & p' & Hlt & _). clear p'.
  pose proof (wf_base _ W i n Hn) as Hb. unfold base_rule in Hb. rewrite Hp in Hb. rewrite Hb.
  destruct (bool_decide_reflect (n_prev n ∈ ix_canonical ix)) as [Hc|Hc].
  - exists (n_prev n), p. split; [apply anc_refl|]. split; [done|]. split; [done|]. split; [done|].
    intros c nc Hca Hnc _. by apply (anc_height _ A c (n_prev n) nc p).
  - destruct (decide (n_prev p = NO_PARENT)) as [E0|E0].
    + apply (prev_root _ A (n_prev n) p Hp) in E0. exfalso. apply Hc. rewrite E0. apply zlookup_elem. exists 0. apply W.
    + destruct (prev_in_range _ A (n_prev n) p Hp E0) as (_ & q & _ & Hq & _).
      destruct (IH (n_prev n) ltac:(lia) p q Hp Hq) as (a & na & Ha & Hna & Hac & Hh & Hmax). exists a, na.
      split; [by eapply anc_step|]. split; [done|]. split; [done|]. split; [done|]. intros c nc Hca Hnc Hcc.
      apply (Hmax c nc); [|done..]. inversion Hca as [|? p' Hp' _ Hca']; subst; [done|].
      rewrite Hp in Hp'. by injection Hp' as <-.
Qed.

(** C31. The arena invariant holds of every reachable index: parents precede their
    children one height below, the hash map finds exactly the stored headers,
    the canonical vector is a parent-linked path from genesis indexed by height,
    every node carries its fork base, and the children of an invalid node are
    invalid. *)
Theorem index_reachable_wf adm ix (H : ix_reach adm ix) : index_wf ix.
Proof. by apply (ix_reach_wf_lemma adm). Qed.

(** The fork base of a header is its fork point: in a reachable index, for a
    header with a parent, [branch_base_height] is the height of a canonical proper
    ancestor, and no canonical proper ancestor is higher; so the depth the
    gates compute from it is the number of canonical blocks the branch would
    replace. *)
Theorem branch_base_is_fork_point adm ix i n p (H : ix_reach adm ix) (Hn : node (E := Reject) ix i = Ok n)
    (Hp : node (E := Reject) ix (n_prev n) = Ok p) :
  (exists a na, anc (ix_nodes ix) a (n_prev n) /\ node (E := Reject) ix a = Ok na /\
     is_canonical (E := Reject) ix a = Ok true /\ n_height na = n_branch_base_height n) /\
  (forall c nc, anc (ix_nodes ix) c (n_prev n) -> node (E := Reject) ix c = Ok nc ->
     is_canonical (E := Reject) ix c = Ok true <-> n_height nc <= n_branch_base_height n).
Proof.
  apply ix_reach_wf_lemma in H as W. rewrite node_ok in Hn, Hp. pose proof (wf_arena _ W) as A.
  destruct (base_is_fork_point_lemma ix i n p W Hn Hp) as (a & na & Ha & Hna & Hac & Hh & Hmax). split.
  - exists a, na. rewrite node_ok, (is_canonical_spec ix a na W Hna). repeat split; try done.
    by rewrite bool_decide_eq_true_2.
  - intros c nc Hc Hnc. rewrite node_ok in Hnc. rewrite (is_canonical_spec ix c nc W Hnc). rewrite <-Hh. split.
    + intros Hcc. apply Ok_inj in Hcc. to_prop. by apply (Hmax c nc).
    + intros Hle. f_equal. apply bool_decide_eq_true. destruct (anc_linear _ c a (n_prev n) Hc Ha) as [Hca|Hac2].
      * by eapply (path_anc_closed _ A); [apply W|..].
      * destruct (anc_height _ A a c na nc Hac2 Hna Hnc) as [H1 H2]. assert (a = c) as <- by (apply H2; lia). done.
Qed.

(** Invalidating a header poisons exactly its descendants: on a reachable
    index [mark_invalid] returns, marks a node invalid exactly when it was
    invalid already or descends from (or is) the named header, touches nothing
    else, and returns the number of nodes it newly marked besides the named one. *)
Theorem mark_invalid_poisons_descendants adm ix idx n (H : ix_reach adm ix) (Hn : node (E := Reject) ix idx = Ok n) :
  exists poisoned ix', mark_invalid (E := Reject) ix idx = Ok (poisoned, ix') /\
    ix_by_hash ix' = ix_by_hash ix /\ ix_canonical ix' = ix_canonical ix /\ ix_len ix' = ix_len ix /\
    (forall j m, node (E := Reject) ix j = Ok m -> exists m', node (E := Reject) ix' j = Ok m' /\
      (m' = m \/ m' = or_flags m FLAG_INVALID) /\
      (n_invalid m' = true <-> n_invalid m = true \/ anc (ix_nodes ix) idx j)) /\
    poisoned + (if n_invalid n then 0 else 1) = invalid_count (ix_nodes ix') - invalid_count (ix_nodes ix).
Proof.
  apply ix_reach_wf_lemma in H as W. rewrite node_ok in Hn.
  destruct (mark_invalid_spec (E := Reject) ix idx n W Hn) as (c & ix' & Hm & H1 & H2 & Hs & Hv & Hc).
  exists c, ix'. split; [done|]. split; [done|]. split; [done|].
  split; [unfold ix_len; symmetry; by apply same_tree_Zlen|]. split; [|done]. intros j m Hj. rewrite node_ok in Hj.
  destruct (same_tree_lookup _ _ _ _ Hs Hj) as (m' & Hm' & _). exists m'. rewrite node_ok. split; [done|]. by apply (Hv j).
Qed.

(** The walks along parents terminate and agree: from any node of a reachable
    index, [ancestry] returns the path from genesis to it (one node per height),
    [ancestor_at] returns the node of that path at the asked height and nothing
    when the path has no such height, and [time_window] returns the timestamps of
    the last [span] nodes of the path, oldest first. *)
Theorem parent_walks_terminate adm ix i n (H : ix_reach adm ix) (Hn : node (E := Reject) ix i = Ok n) :
  exists chain, ancestry (E := Reject) ix i = Ok chain /\
    chain_path (ix_nodes ix) chain /\ list.last chain = Some i /\ Zlen chain = n_height n + 1 /\
    (forall h, ancestor_at (E := Reject) ix i h = Ok (zlookup chain h)) /\
    (forall span, 0 <= span ->
       time_window (E := Reject) ix i span = Ok (drop (length chain - Z.to_nat span) (times_of ix chain))).
Proof.
  apply ix_reach_wf_lemma in H as W. rewrite node_ok in Hn. pose proof (wf_arena _ W) as A.
  destruct (ancestry_spec (E := Reject) ix A i n Hn) as (chain & Ha & Hc & Hl). exists chain.
  split; [done|]. split; [done|]. split; [done|]. assert (Hl2 := Hl). rewrite zlookup_last in Hl2.
  destruct (path_node _ A chain _ _ Hc Hl2) as (n' & Hn' & Hh). rewrite Hn in Hn'. injection Hn' as <-.
  split; [lia|]. split.
  - intros h. destruct (ancestor_at_spec (E := Reject) ix A i n h Hn) as (o & -> & Ho). f_equal.
    destruct o as [a|].
    + destruct (proj1 (Ho a) eq_refl) as (Haa & na & Hna & Hah). rewrite <-Hah. symmetry.
      apply (path_mem _ A chain a na Hc Hna). by apply (path_is_ancestry _ A chain i a na).
    + destruct (zlookup chain h) as [a|] eqn:Eh; [|done]. destruct (path_node _ A chain h a Hc Eh) as (na & Hna & Hah).
      apply Ho. split; [|eauto]. apply (path_is_ancestry _ A chain i a na Hc Hl Hna). apply zlookup_elem. eauto.
  - intros span Hs. destruct (time_window_spec (E := Reject) ix A i n span Hn Hs) as (c & Hc2 & Ht).
    rewrite Ha in Hc2. by injection Hc2 as <-.
Qed.

(** ** A concrete index: genesis, a canonical child, and a two-header side branch *)
Definition any_header : option Node -> HeaderRec -> Work -> Prop := fun _ _ _ => True.
Definition sample_rec (k height time : Z) : HeaderRec :=
  MkHeaderRec height (replicate 32 k) (replicate 32 0) time 0x1f00ffff [].
Definition ok_index (m : outcome Reject (Z * HeaderIndex)) : HeaderIndex :=
  match m with Ok (_, ix) => ix | _ => HeaderIndex_new end.
Definition sample_ix1 : HeaderIndex := ok_index (insert_genesis HeaderIndex_new (sample_rec 1 0 1000) Work_ONE).
Definition sample_ix2 : HeaderIndex := ok_index (ix_insert sample_ix1 (sample_rec 2 1 1060) 0 Work_ONE true).
Definition sample_ix3 : HeaderIndex := ok_index (ix_insert sample_ix2 (sample_rec 3 1 1061) 0 Work_ONE true).
Definition sample_ix4 : HeaderIndex := ok_index (ix_insert sample_ix3 (sample_rec 4 2 1120) 2 Work_ONE true).
Definition sample_ix : HeaderIndex :=
  match set_canonical (E := Reject) sample_ix4 [0; 1] with Ok ix => ix | _ => HeaderIndex_new end.

Lemma sample_ix4_reach : ix_reach any_header sample_ix4.
Proof.
  assert (forall ix k h t parent p i ix', ix_reach any_header ix -> node (E := Reject) ix parent = Ok p -> h = n_height p + 1 ->
    ix_len ix < NO_PARENT -> ix_insert (E := Reject) ix (sample_rec k h t) parent Work_ONE true = Ok (i, ix') ->
    ix_reach any_header ix') as step
    by (intros ix k h t parent p i ix' H1 H2 H3 H4 H5; exact (reach_insert _ ix (sample_rec k h t) parent p _ _ i ix' H1 H2 H3 H4 I H5)).
  refine (step sample_ix3 4 2 1120 2 _ 3 sample_ix4 _ _ _ _ _); [|vm_compute; reflexivity..].
  refine (step sample_ix2 3 1 1061 0 _ 2 sample_ix3 _ _ _ _ _); [|vm_compute; reflexivity..].
  refine (step sample_ix1 2 1 1060 0 _ 1 sample_ix2 _ _ _ _ _); [|vm_compute; reflexivity..].
  apply (reach_genesis _ (sample_rec 1 0 1000) Work_ONE 0); [|exact I|]; vm_compute; reflexivity.
Qed.
Lemma sample_ix_reach : ix_reach any_header sample_ix.
Proof. apply (reach_adopt _ sample_ix4 1 [0; 1]); [exact sample_ix4_reach|vm_compute; reflexivity..]. Qed.

Definition sample_node (i : Z) : Node :=
  match node (E := Reject) sample_ix i with Ok n => n | _ => MkNode [] 0 0 0 0 [] 0 0 end.

Lemma index_reachable_wf_witness : index_wf sample_ix /\ ix_len sample_ix = 4.
Proof. split; [apply (index_reachable_wf any_header sample_ix), sample_ix_reach|vm_compute; reflexivity]. Defined.

Lemma branch_base_is_fork_point_witness :
  n_branch_base_height (sample_node 3) = 0 /\
  exists a na, anc (ix_nodes sample_ix) a (n_prev (sample_node 3)) /\ node (E := Reject) sample_ix a = Ok na /\
     is_canonical (E := Reject) sample_ix a = Ok true /\ n_height na = n_branch_base_height (sample_node 3).
Proof.
  split; [vm_compute; reflexivity|].
  apply (branch_base_is_fork_point any_header sample_ix 3 (sample_node 3) (sample_node 2) sample_ix_reach);
    vm_compute; reflexivity.
Defined.

Lemma mark_invalid_poisons_descendants_witness :
  exists ix', mark_invalid (E := Reject) sample_ix 2 = Ok (1, ix') /\ ix_len ix' = 4.
Proof.
  destruct (mark_invalid_poisons_descendants any_header sample_ix 2 (sample_node 2) sample_ix_reach) as (k & ix' & H & _ & _ & Hl & _).
  - vm_compute. reflexivity.
  - exists ix'. rewrite H, Hl. split; [|vm_compute; reflexivity]. vm_compute in H. injection H as <- <-. reflexivity.
Defined.

Lemma parent_walks_terminate_witness :
  exists chain, ancestry (E := Reject) sample_ix 3 = Ok chain /\ Zlen chain = 3 /\
    time_window (E := Reject) sample_ix 3 2 = Ok (drop (length chain - 2) (times_of sample_ix chain)).
Proof.
  destruct (parent_walks_terminate any_header sample_ix 3 (sample_node 3) sample_ix_reach) as (chain & H & _ & _ & Hl & _ & Ht).
  - vm_compute. reflexivity.
  - exists chain. split; [exact H|]. split; [rewrite Hl; vm_compute; reflexivity|]. apply (Ht 2). lia.
Defined.
