(* ===== verification/ForkChoice.v ===== *)
(** Fork choice over the header index (src/lib/chain/src/forkchoice.rs) and the
    part of the chain manager that turns a choice into a candidate branch
    (src/lib/chain/src/manager.rs, [try_adopt]).  [ArenaView] is shown to be a
    lawful [ChainView], so the theorems on [evaluate_reorg] apply to the node's
    own index. *)

From Stdlib Require Import ZArith Lia List.
From stdpp Require Import base list gmap numbers.
From S2P Require Import Prelude Constants Limbs Asert Work Rules ChainTypes ChainWork Index.
Open Scope Z_scope.

Record Plan := MkPlan { fork_height : Z; rollback : list Z; apply : list Z; depth : Z }.

(** [n.cum_work > b.cum_work || (n.cum_work == b.cum_work && n.hash < b.hash)] *)
Definition preferred (n b : Node) : bool :=
  Work_ltb (n_cum_work b) (n_cum_work n) ||
  (bool_decide (n_cum_work n = n_cum_work b) && bytes_ltb (n_hash n) (n_hash b)).

Section Choice.
Context {E : Type}.

(** [skip] is sorted and unique, so [binary_search] succeeds exactly on its members. *)
Definition select_step (ix : HeaderIndex) (skip : list Z) (best i : Z) : outcome E Z :=
  if bool_decide (i ∈ skip) then Ok best else
  let? n := node ix i in
  if n_invalid n || negb (n_pow_ok n) then Ok best else
  let? b := node ix best in
  Ok (if preferred n b then i else best).

Definition select_best_excluding (ix : HeaderIndex) (skip : list Z) : outcome E Z :=
  let? best := tip_index ix in
  ofold (select_step ix skip) best (ix_indices ix).
Definition select_best (ix : HeaderIndex) : outcome E Z := select_best_excluding ix [].

(** The walk of [plan_reorg] from the best node down to the canonical chain; the
    index of the current node decreases at every step. *)
Fixpoint branch_loop (fuel : nat) (ix : HeaderIndex) (cur : Z) (branch : list Z) : outcome E (list Z * Z) :=
  match fuel with
  | O => Panic
  | S fuel =>
    let? c := is_canonical ix cur in
    if c then Ok (branch, cur) else
    let branch := branch ++ [cur] in
    let? n := node ix cur in
    if n_prev n =? NO_PARENT then Ok (branch, cur) else branch_loop fuel ix (n_prev n) branch
  end.

Definition plan_reorg (ix : HeaderIndex) (best : Z) : outcome E (option Plan) :=
  let? tip := tip_index ix in
  if best =? tip then Ok None else
  let? (branch, cur) := branch_loop (length (ix_nodes ix)) ix best [] in
  let branch := rev branch in
  let? n := node ix cur in
  let fork_height := n_height n in
  let? tip_height := ix_tip_height ix in
  let? from := add_checked 64 fork_height 1 in
  let rollback := rev (zrange from (tip_height + 1)) in
  let depth := saturating_sub tip_height fork_height in
  Ok (Some (MkPlan fork_height rollback branch depth)).
End Choice.

(** ** The view of the canonical chain *)
Record ArenaView := MkArenaView { av_index : HeaderIndex; av_pow_limit : Target }.

Section View.
Context {E : Type}.
Definition target_of (v : ArenaView) (bits : Z) : outcome E Hash32 :=
  let? t := expect (expand_bits bits (av_pow_limit v)) in Ok (target_to_be t).
Definition arena_info (v : ArenaView) (n : Node) : outcome E HeaderInfo :=
  let? t := target_of v (n_bits n) in Ok (MkHeaderInfo (n_height n) (n_hash n) (n_time n) t).
Definition arena_len (v : ArenaView) : outcome E Z :=
  let? h := ix_tip_height (av_index v) in add_checked 64 h 1.
Definition arena_header_at (v : ArenaView) (height : Z) : outcome E (option HeaderInfo) :=
  let? o := canonical_at (av_index v) height in
  match o with
  | None => Ok None
  | Some n => let? i := arena_info v n in Ok (Some i)
  end.
Definition arena_header_by_hash (v : ArenaView) (h : Hash32) : outcome E (option HeaderInfo) :=
  match index_of (av_index v) h with
  | None => Ok None
  | Some idx =>
    let? n := node (av_index v) idx in
    let? c := is_canonical (av_index v) idx in
    if negb c then Ok None else let? i := arena_info v n in Ok (Some i)
  end.
Definition arena_cumulative_work (v : ArenaView) : outcome E Work :=
  let? n := ix_tip (av_index v) in Ok (n_cum_work n).
End View.

(** The value of a call that does not panic; [arena_view_total] shows that the
    default is never used on a reachable index. *)
Definition value_or {A} (d : A) (m : outcome unit A) : A := match m with Ok a => a | _ => d end.

#[export] Instance arena_chain_view : ChainView ArenaView := {
  view_len v := value_or 0 (arena_len v);
  view_header_at v h := value_or None (arena_header_at v h);
  view_header_by_hash v h := value_or None (arena_header_by_hash v h);
  view_cumulative_work v := value_or Work_ZERO (arena_cumulative_work v);
}.

(** The candidate [try_adopt] hands to [evaluate_reorg_with_cap]. *)
Definition candidate_header (ix : HeaderIndex) (pow_limit : Target) (i : Z) : outcome Reject HeaderInfo :=
  let? n := node ix i in
  let? t := ok_or (expand_bits (n_bits n) pow_limit) (BadBits (n_bits n)) in
  Ok (MkHeaderInfo (n_height n) (n_hash n) (n_time n) (target_to_be t)).
Definition plan_candidate (ix : HeaderIndex) (pow_limit : Target) (p : Plan) : outcome Reject (list HeaderInfo) :=
  try_mapi (fun _ i => candidate_header ix pow_limit i) 0 (apply p).

(** ** The invariant of work and difficulty in the arena *)

(** What the callers of [insert] check of a header: its bits are legal under the
    limit, and its cumulative work is its parent's plus its own. *)
Definition legal_header (limit : Target) (parent : option Node) (rec : HeaderRec) (cum : Work) : Prop :=
  hash_ok (hr_hash rec) /\ 0 <= hr_bits rec < 2 ^ 32 /\
  exists t w, expand_bits (hr_bits rec) limit = Some t /\ work_from_target (E := Reject) (target_to_be t) = Ok w /\
    match parent with
    | None => cum = w
    | Some p => Work_checked_add (n_cum_work p) w = Some cum
    end.
Abbreviation arena_reach limit := (ix_reach (legal_header limit)).

Definition cum_of (nodes : list Node) (i : Z) : Z :=
  match zlookup nodes i with Some p => val (n_cum_work p) | None => 0 end.

Definition work_wf (limit : Target) (nodes : list Node) : Prop :=
  forall i n, zlookup nodes i = Some n ->
    hash_ok (n_hash n) /\ 0 <= n_bits n < 2 ^ 32 /\ work_ok (n_cum_work n) /\
    exists t, expand_bits (n_bits n) limit = Some t /\
      val (n_cum_work n) = cum_of nodes (n_prev n) + target_work (val t).

#[global] Instance work_wf_proper limit : Proper (same_tree ==> impl) (work_wf limit).
Proof.
  intros a b H W i n Hn. assert (same_tree b a) as H' by by symmetry.
  destruct (same_tree_lookup _ _ _ _ H' Hn) as (n' & Hn' & [= Eh Ep _ _ Eb Ec]).
  destruct (W i n' Hn') as (H1 & H2 & H3 & t & H4 & H5). rewrite <-Eh, <-Eb, <-Ec.
  split; [done|]. split; [done|]. split; [done|]. exists t. split; [done|]. rewrite H5. f_equal.
  rewrite <-Ep. unfold cum_of. destruct (zlookup a (n_prev n')) as [p|] eqn:E1.
  - destruct (same_tree_lookup _ _ _ _ H E1) as (p' & -> & [=]). congruence.
  - destruct (zlookup b (n_prev n')) as [p|] eqn:E2; [|done].
    destruct (same_tree_lookup _ _ _ _ H' E2) as (p' & ? & _). congruence.
Qed.

Section Work.
Context (limit : Target) (Hlimit : target_ok limit).

Lemma target_work_of bits t : 0 <= bits < 2 ^ 32 -> expand_bits bits limit = Some t ->
  exists w, work_from_target (E := Reject) (target_to_be t) = Ok w /\ work_ok w /\ val w = target_work (val t) /\
    target_ok t /\ hash_ok (target_to_be t) /\ from_be (target_to_be t) = val t.
Proof.
  intros Hb Ht. apply expand_bits_spec in Ht as (_ & Hok & _); [|done..].
  destruct (target_to_be_spec t Hok) as [Hh Hv]. destruct (work_from_target_spec_lemma (E := Reject) _ Hh) as (w & H1 & H2 & H3 & _).
  exists w. rewrite Hv in H3. auto 10.
Qed.

Lemma work_wf_snoc nodes rec parent p cum base flags : arena_wf nodes -> work_wf limit nodes -> Zlen nodes < NO_PARENT ->
  zlookup nodes parent = Some p -> legal_header limit (Some p) rec cum ->
  work_wf limit (nodes ++ [MkNode (hr_hash rec) parent (hr_height rec) (hr_time rec) (hr_bits rec) cum base flags]).
Proof.
  intros A W Hl Hp (Hh & Hb & t & w & Ht & Hw & Hadd) i n Hn. set (x := MkNode _ _ _ _ _ _ _ _) in *.
  assert (forall j, j < Zlen nodes \/ j = NO_PARENT -> cum_of (nodes ++ [x]) j = cum_of nodes j) as Hcum.
  { intros j [Hj| ->]; unfold cum_of; [by rewrite zlookup_app_l by lia|].
    by rewrite !zlookup_ge by (rewrite ?Zlen_app; change (Zlen [x]) with 1; lia). }
  apply zlookup_snoc_inv in Hn as [Hn|[-> ->]].
  - destruct (W i n Hn) as (H1 & H2 & H3 & t' & H4 & H5). split; [done|]. split; [done|]. split; [done|]. exists t'.
    split; [done|]. rewrite H5, Hcum; [done|]. destruct (decide (n_prev n = NO_PARENT)) as [E0|E0]; [by right|left].
    destruct (prev_in_range _ A i n Hn E0) as (_ & q & _ & Hq & _). apply (zlookup_lt _ _ _ Hq).
  - destruct (target_work_of _ t Hb Ht) as (w' & Hw' & Hwo & Hwv & _). rewrite Hw in Hw'. apply Ok_inj in Hw' as <-.
    destruct (W parent p Hp) as (_ & _ & Hpo & _). pose proof (Work_checked_add_spec (n_cum_work p) w Hpo Hwo) as Hs.
    rewrite Hadd in Hs. destruct Hs as [Ho Hv]. split; [done|]. split; [done|]. split; [done|]. exists t. split; [done|].
    cbn [n_cum_work x n_prev]. rewrite Hcum by (left; apply (zlookup_lt _ _ _ Hp)). unfold cum_of. rewrite Hp. lia.
Qed.

(** Every index the node can reach carries consistent work. *)
Lemma arena_reach_work ix : arena_reach limit ix -> work_wf limit (ix_nodes ix).
Proof.
  induction 1 as [rec w i ix Hh Hadm H|ix rec parent p w pow i ix' R IH Hp Hh Hl Hadm H|ix i ix' R IH H|ix i ix' R IH Hleaf H
    |ix i k ix' R IH H|ix best chain ix' R IH Ha H].
  - unfold insert_genesis in H. cbn in H. injection H as <- <-. cbn [ix_nodes]. intros j n Hn.
    assert (j = 0) as -> by (apply zlookup_lt in Hn; change (Zlen [_]) with 1 in Hn; lia). injection Hn as <-.
    destruct Hadm as (H1 & H2 & t & w' & H3 & H4 & ->). destruct (target_work_of _ t H2 H3) as (w2 & H5 & H6 & H7 & _).
    rewrite H4 in H5. apply Ok_inj in H5 as <-. split; [done|]. split; [done|]. split; [done|]. exists t. split; [done|].
    cbn [n_cum_work n_prev]. unfold cum_of. rewrite zlookup_ge by (change (Zlen [_]) with 1; done). lia.
  - pose proof (ix_reach_wf_lemma _ _ R) as W. apply node_ok in Hp. unfold ix_insert in H.
    destruct (index_of ix (hr_hash rec)); [by injection H as <- <-|].
    rewrite (proj2 (node_ok ix parent p) Hp), (is_canonical_spec ix parent p W Hp) in H. cbn [obind] in H.
    apply Ok_inj in H. injection H as <- <-. cbn [ix_nodes]. by apply (work_wf_snoc _ _ _ p); [apply W|..].
  - pose proof (ix_reach_wf_lemma _ _ R) as W. unfold set_have_body, or_flags_at in H.
    destruct (zlookup (ix_nodes ix) i) as [n|] eqn:Hn; [|done]. cbn in H. injection H as <-.
    eapply work_wf_proper; [|exact IH]. by eapply same_tree_zinsert.
  - unfold set_invalid_flag, or_flags_at in H.
    destruct (zlookup (ix_nodes ix) i) as [n|] eqn:Hn; [|done]. cbn in H. injection H as <-.
    eapply work_wf_proper; [|exact IH]. by eapply same_tree_zinsert.
  - pose proof (ix_reach_wf_lemma _ _ R) as W. assert (exists n, zlookup (ix_nodes ix) i = Some n) as [n Hn].
    { unfold mark_invalid, or_flags_at in H. destruct (zlookup (ix_nodes ix) i); [eauto|done]. }
    destruct (mark_invalid_spec (E := Reject) ix i n W Hn) as (k2 & ix2 & H2 & _ & _ & Hs & _). rewrite H in H2.
    injection H2 as _ ->. by eapply work_wf_proper.
  - pose proof (ix_reach_wf_lemma _ _ R) as W. destruct (ancestry_node ix best chain Ha) as [n Hn].
    destruct (ancestry_spec (E := Reject) ix (wf_arena _ W) best n Hn) as (c & Hc & Hp & _). rewrite Ha in Hc. injection Hc as <-.
    destruct (set_canonical_wf (E := Reject) ix chain W Hp) as (ix2 & H2 & _ & _ & Hs). rewrite H in H2. injection H2 as ->.
    by eapply work_wf_proper.
Qed.
End Work.

(** ** The arena view is lawful *)
Record arena_ok (v : ArenaView) : Prop := {
  ao_limit : target_ok (av_pow_limit v);
  ao_wf : index_wf (av_index v);
  ao_work : work_wf (av_pow_limit v) (ix_nodes (av_index v));
}.

Definition info_of (limit : Target) (n : Node) : HeaderInfo :=
  MkHeaderInfo (n_height n) (n_hash n) (n_time n)
    (match expand_bits (n_bits n) limit with Some t => target_to_be t | None => ZERO_HASH end).
Definition infos (limit : Target) (nodes : list Node) (chain : list Z) : list HeaderInfo :=
  omap (fun i => info_of limit <$> zlookup nodes i) chain.
Definition arena_chain (v : ArenaView) : list HeaderInfo :=
  infos (av_pow_limit v) (ix_nodes (av_index v)) (ix_canonical (av_index v)).

Section Lawful.
Context (limit : Target) (Hlimit : target_ok limit) (nodes : list Node) (A : arena_wf nodes) (W : work_wf limit nodes).

Lemma infos_app a b : infos limit nodes (a ++ b) = infos limit nodes a ++ infos limit nodes b.
Proof. unfold infos. by rewrite omap_app. Qed.

Lemma infos_map chain : Forall (fun i => exists n, zlookup nodes i = Some n) chain ->
  length (infos limit nodes chain) = length chain /\
  forall k i n, chain !! k = Some i -> zlookup nodes i = Some n -> infos limit nodes chain !! k = Some (info_of limit n).
Proof.
  induction 1 as [|i chain [n Hn] _ [IHl IH]]; [done|]. unfold infos. cbn [omap list_omap]. rewrite Hn. cbn [fmap option_fmap option_map].
  split; [cbn; by f_equal|]. intros [|k] j m Hk Hm; cbn in Hk |- *; [|by eapply IH].
  injection Hk as <-. rewrite Hn in Hm. by injection Hm as <-.
Qed.

Lemma infos_take chain : Forall (fun i => exists n, zlookup nodes i = Some n) chain ->
  forall k, infos limit nodes (take k chain) = take k (infos limit nodes chain).
Proof.
  induction 1 as [|i chain [n Hn] _ IH]; intros [|k]; try done. cbn [take]. unfold infos in *.
  cbn [omap list_omap]. rewrite Hn. cbn. by rewrite IH.
Qed.

Lemma path_nodes chain : chain_path nodes chain -> Forall (fun i => exists n, zlookup nodes i = Some n) chain.
Proof.
  intros Hc. apply Forall_forall. intros i Hi. apply list_elem_of_In, zlookup_elem in Hi as [h Hh].
  destruct (path_node _ A chain h i Hc Hh) as (n & Hn & _). eauto.
Qed.

Lemma info_target_ok i n : zlookup nodes i = Some n -> header_ok (info_of limit n) /\
  header_work (info_of limit n) = val (n_cum_work n) - cum_of nodes (n_prev n).
Proof.
  intros Hn. destruct (W i n Hn) as (Hh & Hb & _ & t & Ht & Hv). unfold info_of. rewrite Ht.
  destruct (target_work_of limit Hlimit _ t Hb Ht) as (_ & _ & _ & _ & _ & Hok & Hf).
  split; [by split|]. unfold header_work. cbn [hi_target]. rewrite Hf, Hv. lia.
Qed.

Lemma infos_ok chain : Forall header_ok (infos limit nodes chain).
Proof.
  apply Forall_forall. intros h Hh. unfold infos in Hh. apply list_elem_of_In, list_elem_of_omap in Hh as (i & _ & Hi).
  destruct (zlookup nodes i) as [n|] eqn:Hn; [|done]. injection Hi as <-. by apply (info_target_ok i).
Qed.

Lemma path_root chain i n : chain_path nodes (chain ++ [i]) -> zlookup nodes i = Some n -> n_prev n = NO_PARENT -> chain = [].
Proof.
  intros Hc Hn E0. apply (prev_root _ A i n Hn) in E0 as ->.
  destruct (path_node _ A _ (Zlen chain) 0 Hc) as (n' & Hn' & Hh); [apply zlookup_snoc|].
  destruct (aw_root _ A n' Hn'). apply Zlen_0. lia.
Qed.

(** The cumulative work of a node is the work of its whole ancestry. *)
Lemma path_work chain : forall i n, chain_path nodes (chain ++ [i]) -> zlookup nodes i = Some n ->
  val (n_cum_work n) = work_sum (infos limit nodes (chain ++ [i])).
Proof.
  induction chain as [|j chain IH] using rev_ind; intros i n Hc Hn.
  - destruct (info_target_ok i n Hn) as [_ Hw]. cbn. rewrite Hn. cbn. rewrite Hw. unfold cum_of.
    destruct Hc as [H0 _]. cbn in H0. injection H0 as ->. rewrite (proj1 (aw_root _ A n Hn)), zlookup_ge by (apply A). lia.
  - assert (n_prev n <> NO_PARENT) as Hp by (intros Hp; apply (path_root _ i n Hc Hn) in Hp; by destruct chain).
    destruct (path_unsnoc (MkHeaderIndex nodes ∅ []) A (chain ++ [j]) i n Hc Hn Hp) as [Hc' Hl].
    rewrite last_snoc in Hl. injection Hl as ->. destruct (prev_in_range _ A i n Hn Hp) as (_ & p & _ & Hpn & _).
    rewrite infos_app, work_sum_app, <-(IH _ _ Hc' Hpn). destruct (info_target_ok i n Hn) as [_ Hw].
    cbn. rewrite Hn. cbn. rewrite Hw. unfold cum_of. rewrite Hpn. lia.
Qed.
End Lawful.

Lemma infos_same_tree limit a b chain : same_tree a b -> infos limit a chain = infos limit b chain.
Proof.
  intros Hs. unfold infos. induction chain as [|i chain IH]; [done|]. cbn [omap list_omap]. rewrite IH.
  assert (info_of limit <$> zlookup a i = info_of limit <$> zlookup b i) as ->; [|done].
  pose proof (zlookup_fmap skel a i) as Ha. pose proof (zlookup_fmap skel b i) as Hb. rewrite Hs, Hb in Ha.
  destruct (zlookup a i) as [n|], (zlookup b i) as [m|]; try done. cbn in Ha |- *. f_equal.
  assert (skel n = skel m) as Hnm by congruence. unfold skel in Hnm. injection Hnm as Eh _ Eht Et Eb _.
  unfold info_of. by rewrite Eh, Eht, Et, Eb.
Qed.

Section ArenaLaws.
Context (v : ArenaView) (HV : arena_ok v).
Let ix := av_index v.
Let nodes := ix_nodes ix.
Let W : index_wf ix := ao_wf v HV.

Lemma arena_info_ok {E} i n : zlookup nodes i = Some n -> arena_info (E := E) v n = Ok (info_of (av_pow_limit v) n).
Proof.
  intros Hn. destruct (ao_work v HV i n Hn) as (_ & _ & _ & t & Ht & _). unfold arena_info, target_of, info_of.
  by rewrite Ht.
Qed.

Lemma arena_chain_length : Zlen (arena_chain v) = Zlen (ix_canonical ix) /\ Zlen (ix_canonical ix) <= NO_PARENT.
Proof.
  destruct (tip_exists (E := unit) ix W) as (t & n & _ & _ & _ & _ & Hn & Hl & _). split.
  - unfold Zlen. f_equal. apply (infos_map (av_pow_limit v) nodes). apply (path_nodes nodes); apply W.
  - pose proof (arena_height _ (wf_arena _ W) t n Hn). pose proof (zlookup_lt _ _ _ Hn).
    pose proof (aw_size _ (wf_arena _ W)). lia.
Qed.

Lemma arena_len_ok {E} : arena_len (E := E) v = Ok (Zlen (arena_chain v)).
Proof.
  destruct arena_chain_length as [Hc Hb]. destruct (tip_exists (E := E) ix W) as (t & n & _ & _ & Hh & _ & Hn & Hl & _).
  unfold arena_len. fold ix. rewrite Hh. cbn [obind]. pose proof (arena_height _ (wf_arena _ W) t n Hn).
  apply expect_ok, checked_add_some. change NO_PARENT with (2 ^ 32 - 1) in Hb. lia.
Qed.

Lemma arena_header_at_ok {E} h : 0 <= h ->
  arena_header_at (E := E) v h = Ok (arena_chain v !! Z.to_nat h).
Proof.
  intros Hh. unfold arena_header_at, canonical_at. fold ix.
  destruct (infos_map (av_pow_limit v) nodes (ix_canonical ix)) as [Hlen Hmap]; [apply (path_nodes nodes); apply W|].
  destruct (zlookup (ix_canonical ix) h) as [i|] eqn:Ei.
  - destruct (path_node _ (wf_arena _ W) _ _ _ (wf_canon _ W) Ei) as (n & Hn & _).
    rewrite (proj2 (node_ok ix i n) Hn). cbn [obind]. rewrite (arena_info_ok i n Hn). cbn [obind]. f_equal. symmetry.
    apply (Hmap _ i); [|done]. unfold zlookup in Ei. destruct (Z.leb_spec 0 h); [done|lia].
  - cbn [obind]. f_equal. symmetry. apply lookup_ge_None_2. change (length (arena_chain v) = length (ix_canonical ix)) in Hlen. rewrite Hlen.
    unfold zlookup in Ei. destruct (Z.leb_spec 0 h); [|lia]. by apply lookup_ge_None_1.
Qed.

Lemma arena_cumulative_ok {E} : exists w, arena_cumulative_work (E := E) v = Ok w /\ work_ok w /\ val w = work_sum (arena_chain v).
Proof.
  destruct (tip_exists (E := E) ix W) as (t & n & _ & Ht & _ & Hl & Hn & _). unfold arena_cumulative_work. fold ix.
  rewrite Ht. cbn [obind]. exists (n_cum_work n). split; [done|]. split; [apply (ao_work v HV t n Hn)|].
  apply last_Some in Hl as [c Hc]. unfold arena_chain. fold ix. rewrite Hc.
  apply (path_work _ (ao_limit v HV) _ (wf_arena _ W) (ao_work v HV) c t n); [|done]. rewrite <-Hc. apply W.
Qed.

Lemma arena_header_by_hash_ok {E} h : exists o, arena_header_by_hash (E := E) v h = Ok o.
Proof.
  unfold arena_header_by_hash. fold ix. destruct (index_of ix h) as [i|] eqn:Ei; [|eauto].
  apply (wf_hash _ W) in Ei as (n & Hn & _). rewrite (proj2 (node_ok ix i n) Hn). cbn [obind].
  rewrite (is_canonical_spec ix i n W Hn). cbn [obind]. destruct (negb _); [eauto|]. rewrite (arena_info_ok i n Hn). cbn. eauto.
Qed.

Lemma arena_view_of : view_of v (arena_chain v).
Proof.
  destruct arena_chain_length as [Hlen Hb]. destruct (arena_cumulative_ok (E := unit)) as (w & Hw & Hwo & Hwv).
  pose proof (wf_arena _ W) as A.
  pose proof (infos_ok _ (ao_limit v HV) _ (ao_work v HV) (ix_canonical ix)) as Hok. fold (arena_chain v) in Hok.
  constructor.
  - cbn [view_len arena_chain_view]. by rewrite arena_len_ok.
  - change NO_PARENT with (2 ^ 32 - 1) in Hb. lia.
  - intros i Hi. cbn [view_header_at arena_chain_view]. by rewrite arena_header_at_ok by lia.
  - intros k h Hk. assert (0 <= Z.of_nat k < Zlen (ix_canonical ix)) as Hr.
    { apply lookup_lt_Some in Hk. unfold Zlen in *. lia. }
    destruct (zlookup_is_Some (ix_canonical ix) (Z.of_nat k) Hr) as [i Hi].
    destruct (path_node _ A _ _ _ (wf_canon _ W) Hi) as (n & Hn & Hh).
    destruct (infos_map (av_pow_limit v) nodes (ix_canonical ix)) as [_ Hmap]; [apply (path_nodes nodes); apply W|].
    unfold zlookup in Hi. destruct (Z.leb_spec 0 (Z.of_nat k)); [|lia]. rewrite Nat2Z.id in Hi.
    unfold arena_chain in Hk. fold ix nodes in Hk. rewrite (Hmap k i n Hi Hn) in Hk. by injection Hk as <-.
  - by apply chain_wf_targets.
  - cbn [view_cumulative_work arena_chain_view]. by rewrite Hw.
  - cbn [view_cumulative_work arena_chain_view]. by rewrite Hw.
Qed.
End ArenaLaws.

#[export] Instance arena_view_laws : ChainViewLaws ArenaView arena_ok := {
  view_chain := arena_chain;
  view_chain_spec := arena_view_of;
}.

Lemma arena_reach_ok limit ix : target_ok limit -> arena_reach limit ix -> arena_ok (MkArenaView ix limit).
Proof. intros Hl Hr. constructor; [done|by eapply ix_reach_wf_lemma|by apply arena_reach_work]. Qed.

(** The node's own index is a lawful chain view: on every index reached by
    inserting headers of legal bits and consistent work, no method of [ArenaView]
    panics, its length, header and work queries answer as the list of canonical
    headers does, and the tip's cumulative work is the sum of the work of the
    canonical headers.  This discharges the interface that [evaluate_reorg] is
    verified against. *)
Theorem arena_view_lawful limit ix (Hl : target_ok limit) (Hr : arena_reach limit ix) :
  let v := MkArenaView ix limit in
  arena_len (E := Reject) v = Ok (Zlen (arena_chain v)) /\
  (forall h, 0 <= h -> arena_header_at (E := Reject) v h = Ok (arena_chain v !! Z.to_nat h)) /\
  (forall h, arena_header_by_hash (E := Reject) v h <> Panic) /\
  (exists w, arena_cumulative_work (E := Reject) v = Ok w /\ val w = work_sum (arena_chain v)) /\
  view_of v (arena_chain v).
Proof.
  intros v. pose proof (arena_reach_ok limit ix Hl Hr) as HV. fold v in HV.
  split; [by apply arena_len_ok|]. split; [intros; by apply arena_header_at_ok|].
  split; [intros h; by destruct (arena_header_by_hash_ok (E := Reject) v HV h) as [o ->]|].
  split; [|by apply arena_view_of]. destruct (arena_cumulative_ok (E := Reject) v HV) as (w & ? & _ & ?). eauto.
Qed.

(** ** Choosing the best header *)

(** [preferred] as an order on numbers: more work first, then the lower hash. *)
Definition beats (n b : Node) : Prop :=
  val (n_cum_work b) < val (n_cum_work n) \/
  (val (n_cum_work n) = val (n_cum_work b) /\ from_be (n_hash n) < from_be (n_hash b)).

Definition eligible (ix : HeaderIndex) (skip : list Z) (i : Z) (n : Node) : Prop :=
  zlookup (ix_nodes ix) i = Some n /\ (i ∉ skip) /\ n_invalid n = false /\ n_pow_ok n = true.

Section Best.
Context (limit : Target) (ix : HeaderIndex) (W : index_wf ix) (WW : work_wf limit (ix_nodes ix)).

Lemma preferred_spec i n j b : zlookup (ix_nodes ix) i = Some n -> zlookup (ix_nodes ix) j = Some b ->
  preferred n b = true <-> beats n b.
Proof.
  intros Hn Hb. destruct (WW i n Hn) as (Hh & _ & Hw & _). destruct (WW j b Hb) as (Hh' & _ & Hw' & _).
  unfold preferred, beats. rewrite orb_true_iff, andb_true_iff, bool_decide_eq_true, Work_ltb_spec, Z.ltb_lt by done.
  rewrite bytes_ltb_spec, Z.ltb_lt; [|apply Hh|apply Hh'|by rewrite (proj2 Hh), (proj2 Hh')].
  split; (intros [?|[H ?]]; [by left|right; split; [|done]]); [by rewrite H|by apply work_val_inj].
Qed.

(** What the scan has established after looking at the nodes below [k]. *)
Definition best_inv (skip : list Z) (tip k best : Z) : Prop :=
  exists b, zlookup (ix_nodes ix) best = Some b /\
    (best = tip \/ eligible ix skip best b) /\
    forall i n, zlookup (ix_nodes ix) i = Some n -> (i = tip \/ (i < k /\ eligible ix skip i n)) -> ~ beats n b.

Lemma select_step_inv {E} skip tip i best : 0 <= i < Zlen (ix_nodes ix) -> best_inv skip tip i best ->
  exists best', select_step (E := E) ix skip best i = Ok best' /\ best_inv skip tip (i + 1) best'.
Proof.
  intros Hi (b & Hb & Hel & Hmax). destruct (zlookup_is_Some (ix_nodes ix) i Hi) as [n Hn].
  assert (forall (Hskip : ~ eligible ix skip i n), best_inv skip tip (i + 1) best) as Hkeep.
  { intros Hno. exists b. split; [done|]. split; [done|]. intros j m Hm [Hj|[Hj Hjel]]; [by apply (Hmax j); [|left]|].
    destruct (decide (j = i)) as [->|]; [|apply (Hmax j); [done|right; split; [lia|done]]].
    rewrite Hn in Hm. by injection Hm as <-. }
  unfold select_step. case_bool_decide as Hs; [eexists; split; [done|]; apply Hkeep; by intros (_ & ? & _)|].
  rewrite (proj2 (node_ok ix i n) Hn). cbn [obind].
  destruct (n_invalid n || negb (n_pow_ok n)) eqn:Ef.
  { eexists. split; [done|]. apply Hkeep. intros (_ & _ & Hv & Hp). rewrite Hv, Hp in Ef. done. }
  to_prop. assert (eligible ix skip i n) as He by done.
  rewrite (proj2 (node_ok ix best b) Hb). cbn [obind]. eexists. split; [done|].
  destruct (preferred n b) eqn:Ep.
  - apply (preferred_spec i n best b Hn Hb) in Ep. exists n. split; [done|]. split; [by right|].
    intros j m Hm Hj Hbt. assert (~ beats m b) as Hmb.
    { destruct Hj as [Hj|[Hj Hje]]; [by apply (Hmax j); [|left]|].
      destruct (decide (j = i)) as [->|]; [|apply (Hmax j); [done|right; split; [lia|done]]].
      rewrite Hn in Hm. injection Hm as <-. unfold beats in Hbt. lia. }
    unfold beats in *. lia.
  - assert (~ beats n b) as Hnb by (rewrite <-(preferred_spec i n best b Hn Hb); congruence).
    exists b. split; [done|]. split; [done|]. intros j m Hm [Hj|[Hj Hjel]]; [by apply (Hmax j); [|left]|].
    destruct (decide (j = i)) as [->|]; [|apply (Hmax j); [done|right; split; [lia|done]]].
    rewrite Hn in Hm. by injection Hm as <-.
Qed.

Lemma select_best_spec {E} skip : exists best b tip, select_best_excluding (E := E) ix skip = Ok best /\
  tip_index (E := E) ix = Ok tip /\ zlookup (ix_nodes ix) best = Some b /\ (best = tip \/ eligible ix skip best b) /\
  forall i n, zlookup (ix_nodes ix) i = Some n -> (i = tip \/ eligible ix skip i n) -> ~ beats n b.
Proof.
  destruct (tip_exists (E := E) ix W) as (t & tn & Ht & _ & _ & _ & Htn & _). unfold select_best_excluding, ix_indices.
  rewrite Ht. cbn [obind]. pose proof (aw_size _ (wf_arena _ W)) as Hs. change NO_PARENT with (2 ^ 32 - 1) in Hs.
  rewrite wrap_small by lia.
  destruct (ofold_range_inv (select_step (E := E) ix skip) (best_inv skip t) 0 (Zlen (ix_nodes ix)) t)
    as (best & -> & b & Hb & Hel & Hmax).
  { lia. }
  { exists tn. split; [done|]. split; [by left|]. intros i n Hn [->|[Hi _]]; [|apply zlookup_lt in Hn; lia].
    rewrite Htn in Hn. injection Hn as <-. unfold beats. lia. }
  { intros i s Hi. by apply select_step_inv. }
  exists best, b, t. split; [done|]. split; [done|]. split; [done|]. split; [done|]. intros i n Hn Hi.
  apply (Hmax i n Hn). destruct Hi as [|Hi]; [by left|right]. split; [apply (zlookup_lt _ _ _ Hn)|done].
Qed.
End Best.

(** C30. Fork choice is optimal: on a reachable index [select_best_excluding]
    returns a header that is the current tip or a proof-checked, valid header
    outside the skip list, and no such header (nor the tip) has more cumulative
    work, or equal work and a lower hash. *)
Theorem select_best_optimal limit ix skip (Hl : target_ok limit) (Hr : arena_reach limit ix) :
  exists best b tip, select_best_excluding (E := Reject) ix skip = Ok best /\
    tip_index (E := Reject) ix = Ok tip /\ node (E := Reject) ix best = Ok b /\
    (best = tip \/ eligible ix skip best b) /\
    forall i n, node (E := Reject) ix i = Ok n -> (i = tip \/ eligible ix skip i n) -> ~ beats n b.
Proof.
  destruct (select_best_spec limit ix (ix_reach_wf_lemma _ _ Hr) (arena_reach_work limit Hl ix Hr) (E := Reject) skip)
    as (best & b & tip & H1 & H2 & H3 & H4 & H5).
  exists best, b, tip. rewrite node_ok. split; [done|]. split; [done|]. split; [done|]. split; [done|].
  intros i n Hn. rewrite node_ok in Hn. by apply H5.
Qed.

(** Fork choice does not depend on the order headers arrived in: two reachable
    indexes with the same tip header and the same eligible headers (as pairs of
    hash and cumulative work) choose the same header. *)
Theorem select_best_order_independent limit ix1 ix2 t1 t2
    (Hl : target_ok limit) (R1 : arena_reach limit ix1) (R2 : arena_reach limit ix2)
    (T1 : ix_tip (E := Reject) ix1 = Ok t1) (T2 : ix_tip (E := Reject) ix2 = Ok t2)
    (Htip : n_hash t1 = n_hash t2 /\ n_cum_work t1 = n_cum_work t2)
    (Hsame : forall h w, (exists i n, eligible ix1 [] i n /\ n_hash n = h /\ n_cum_work n = w) <->
                         (exists i n, eligible ix2 [] i n /\ n_hash n = h /\ n_cum_work n = w)) :
  exists b1 b2 n1 n2, select_best (E := Reject) ix1 = Ok b1 /\ select_best (E := Reject) ix2 = Ok b2 /\
    node (E := Reject) ix1 b1 = Ok n1 /\ node (E := Reject) ix2 b2 = Ok n2 /\ n_hash n1 = n_hash n2.
Proof.
  pose proof (ix_reach_wf_lemma _ _ R1) as W1. pose proof (ix_reach_wf_lemma _ _ R2) as W2.
  pose proof (arena_reach_work limit Hl ix1 R1) as WW1. pose proof (arena_reach_work limit Hl ix2 R2) as WW2.
  destruct (select_best_spec limit ix1 W1 WW1 (E := Reject) []) as (b1 & n1 & tip1 & E1 & Et1 & Hn1 & Hel1 & Hmax1).
  destruct (select_best_spec limit ix2 W2 WW2 (E := Reject) []) as (b2 & n2 & tip2 & E2 & Et2 & Hn2 & Hel2 & Hmax2).
  unfold ix_tip in T1, T2. rewrite Et1 in T1. rewrite Et2 in T2. cbn in T1, T2. rewrite node_ok in T1, T2.
  assert (~ beats n2 n1) as H12.
  { destruct Hel2 as [->|Hel2].
    - rewrite T2 in Hn2. injection Hn2 as <-. specialize (Hmax1 tip1 t1 T1 (or_introl eq_refl)).
      unfold beats in *. by rewrite <-(proj1 Htip), <-(proj2 Htip).
    - destruct (proj2 (Hsame (n_hash n2) (n_cum_work n2))) as (i & n & Hel & Hh & Hw); [eauto|].
      specialize (Hmax1 i n (proj1 Hel) (or_intror Hel)). unfold beats in *. by rewrite <-Hh, <-Hw. }
  assert (~ beats n1 n2) as H21.
  { destruct Hel1 as [->|Hel1].
    - rewrite T1 in Hn1. injection Hn1 as <-. specialize (Hmax2 tip2 t2 T2 (or_introl eq_refl)).
      unfold beats in *. by rewrite (proj1 Htip), (proj2 Htip).
    - destruct (proj1 (Hsame (n_hash n1) (n_cum_work n1))) as (i & n & Hel & Hh & Hw); [eauto|].
      specialize (Hmax2 i n (proj1 Hel) (or_intror Hel)). unfold beats in *. by rewrite <-Hh, <-Hw. }
  exists b1, b2, n1, n2. rewrite !node_ok. repeat (split; [done|]).
  destruct (WW1 b1 n1 Hn1) as ([Hb1 Hlen1] & _). destruct (WW2 b2 n2 Hn2) as ([Hb2 Hlen2] & _).
  apply from_be_inj; [done..|congruence|]. unfold beats in *. lia.
Qed.

(** ** Planning the reorganisation *)
Section Paths.
Context (nodes : list Node) (A : arena_wf nodes).

Lemma path_take chain k : chain_path nodes chain -> 0 < k -> chain_path nodes (take (Z.to_nat k) chain).
Proof.
  intros [H0 Hc] Hk.
  assert (forall h i, zlookup (take (Z.to_nat k) chain) h = Some i <-> zlookup chain h = Some i /\ h < k) as Ht.
  { intros h i. unfold zlookup. destruct (Z.leb_spec 0 h); [|by split; [|intros [? _]]].
    rewrite lookup_take_Some. split; intros [? ?]; (split; [done|lia]). }
  split; [by apply Ht|]. intros h i Hh Hi. apply Ht in Hi as [Hi Hlt]. destruct (Hc h i Hh Hi) as (n & Hn & Hp).
  exists n. split; [done|]. apply Ht. split; [done|lia].
Qed.

Lemma path_unique c1 c2 t : chain_path nodes c1 -> chain_path nodes c2 ->
  list.last c1 = Some t -> list.last c2 = Some t -> c1 = c2.
Proof.
  intros H1 H2 L1 L2. assert (L1' := L1). assert (L2' := L2). rewrite zlookup_last in L1', L2'.
  destruct (path_node _ A _ _ _ H1 L1') as (n & Hn & Hh). destruct (path_node _ A _ _ _ H2 L2') as (n' & Hn' & Hh').
  rewrite Hn in Hn'. injection Hn' as <-. apply zlookup_ext; [lia|]. intros i Hi.
  destruct (zlookup_is_Some c1 i Hi) as [a Ha]. destruct (path_node _ A _ _ _ H1 Ha) as (na & Hna & Hah).
  assert (a ∈ c2) as Ha2.
  { apply (path_is_ancestry _ A c2 t a na H2 L2 Hna). apply (path_is_ancestry _ A c1 t a na H1 L1 Hna), zlookup_elem. eauto. }
  apply (path_mem _ A c2 a na H2 Hna) in Ha2. rewrite Hah in Ha2. congruence.
Qed.
End Paths.

Section PlanSpec.
Context {E : Type} (ix : HeaderIndex) (W : index_wf ix).
Let nodes := ix_nodes ix.
Let A : arena_wf nodes := wf_arena _ W.

Lemma branch_loop_spec fuel : forall cur n br, zlookup nodes cur = Some n -> cur < Z.of_nat fuel ->
  exists up stop ns, branch_loop (E := E) fuel ix cur br = Ok (br ++ up, stop) /\
    zlookup nodes stop = Some ns /\ stop ∈ ix_canonical ix /\ Forall (fun i => i ∉ ix_canonical ix) up /\
    let chain := take (Z.to_nat (n_height ns + 1)) (ix_canonical ix) ++ rev up in
    chain_path nodes chain /\ list.last chain = Some cur.
Proof.
  induction fuel as [|fuel IH]; intros cur n br Hn Hf; [apply zlookup_lt in Hn; lia|]. cbn [branch_loop].
  rewrite (is_canonical_spec ix cur n W Hn). cbn [obind]. pose proof (arena_height _ A cur n Hn) as Hh.
  case_bool_decide as Hc.
  - exists [], cur, n. rewrite app_nil_r. split; [done|]. split; [done|]. split; [done|]. split; [done|].
    cbn [rev]. rewrite app_nil_r. split; [apply (path_take nodes); [apply W|lia]|].
    apply (path_mem _ A _ cur n (wf_canon _ W) Hn) in Hc. pose proof (zlookup_lt _ _ _ Hc). rewrite zlookup_last.
    unfold zlookup in *. unfold Zlen in *. rewrite length_take.
    destruct (Z.leb_spec 0 (n_height n)); [|lia]. replace (Nat.min _ _) with (Z.to_nat (n_height n + 1)) by lia.
    destruct (Z.leb_spec 0 (Z.of_nat (Z.to_nat (n_height n + 1)) - 1)); [|lia].
    rewrite lookup_take_lt by lia. rewrite <-Hc. f_equal. lia.
  - rewrite (proj2 (node_ok ix cur n) Hn). cbn [obind]. destruct (Z.eqb_spec (n_prev n) NO_PARENT) as [E0|E0].
    { apply (prev_root _ A cur n Hn) in E0 as ->. exfalso. apply Hc, zlookup_elem. exists 0. apply W. }
    destruct (prev_in_range _ A cur n Hn E0) as (_ & p & Hr & Hp & _).
    destruct (IH (n_prev n) p (br ++ [cur]) Hp ltac:(lia)) as (up & stop & ns & -> & Hns & Hst & Hup & Hpath & Hlast).
    exists (cur :: up), stop, ns. split; [by rewrite <-app_assoc|]. split; [done|]. split; [done|].
    split; [by constructor|]. cbn [rev]. rewrite app_assoc. split; [by eapply chain_path_snoc|by rewrite last_snoc].
Qed.

(** The plan is the difference of the two paths. *)
Lemma plan_reorg_spec best n : zlookup nodes best = Some n ->
  exists tip o, tip_index (E := E) ix = Ok tip /\ plan_reorg (E := E) ix best = Ok o /\
  match o with
  | None => best = tip
  | Some p => best <> tip /\
    exists chain, ancestry (E := E) ix best = Ok chain /\ chain_path nodes chain /\ list.last chain = Some best /\
      chain = take (Z.to_nat (fork_height p + 1)) (ix_canonical ix) ++ apply p /\
      Forall (fun i => i ∉ ix_canonical ix) (apply p) /\ 0 <= fork_height p < Zlen (ix_canonical ix) /\
      depth p = Zlen (ix_canonical ix) - 1 - fork_height p /\
      rollback p = rev (zrange (fork_height p + 1) (Zlen (ix_canonical ix)))
  end.
Proof.
  intros Hn. destruct (tip_exists (E := E) ix W) as (t & tn & Ht & _ & Hth & _ & Htn & Hlen & _).
  exists t. unfold plan_reorg. rewrite Ht. cbn [obind]. destruct (Z.eqb_spec best t) as [->|Hne]; [by exists None|].
  pose proof (zlookup_lt _ _ _ Hn) as Hr. unfold nodes, Zlen in Hr.
  destruct (branch_loop_spec (length (ix_nodes ix)) best n [] Hn ltac:(lia)) as (up & stop & ns & -> & Hns & Hst & Hup & Hpath & Hlast).
  cbn [obind app]. rewrite (proj2 (node_ok ix stop ns) Hns), Hth. cbn [obind].
  apply (path_mem _ A _ stop ns (wf_canon _ W) Hns) in Hst. apply zlookup_lt in Hst.
  pose proof (arena_height _ A t tn Htn) as Hb. pose proof (zlookup_lt (ix_nodes ix) _ _ Htn). pose proof (aw_size (ix_nodes ix) A) as Hs.
  change NO_PARENT with (2 ^ 32 - 1) in Hs.
  assert (add_checked (E := E) 64 (n_height ns) 1 = Ok (n_height ns + 1)) as -> by (apply expect_ok, checked_add_some; lia).
  cbn [obind]. eexists. split; [done|]. split; [done|]. split; [done|]. cbn [fork_height apply depth rollback].
  destruct (ancestry_spec (E := E) ix A best n Hn) as (c & Hc & Hcp & Hcl).
  rewrite <-(path_unique nodes A _ _ best Hcp Hpath Hcl Hlast). exists c. split; [done|]. split; [done|]. split; [done|].
  split; [by apply (path_unique nodes A _ _ best)|]. split; [by apply Forall_rev|]. split; [lia|].
  unfold saturating_sub. split; [lia|]. by replace (Zlen (ix_canonical ix)) with (n_height tn + 1) by lia.
Qed.
End PlanSpec.

Lemma plan_candidate_ok limit ix p : work_wf limit (ix_nodes ix) ->
  Forall (fun i => exists n, zlookup (ix_nodes ix) i = Some n) (apply p) ->
  plan_candidate ix limit p = Ok (infos limit (ix_nodes ix) (apply p)).
Proof.
  intros W Hn. unfold plan_candidate. generalize 0%nat. induction Hn as [|i l [n Hn] _ IH]; intros k; [done|]. cbn [try_mapi].
  unfold candidate_header. rewrite (proj2 (node_ok ix i n) Hn). cbn [obind].
  destruct (W i n Hn) as (_ & _ & _ & t & Ht & _). rewrite Ht. cbn [ok_or obind]. rewrite IH. cbn [obind].
  unfold infos. cbn [omap list_omap]. rewrite Hn. cbn. unfold info_of. by rewrite Ht.
Qed.

Lemma infos_length limit nodes l : (length (infos limit nodes l) <= length l)%nat.
Proof. unfold infos. induction l as [|i l IH]; cbn; [lia|]. destruct (_ <$> _); cbn; lia. Qed.

(** The reorganisation plan is the difference of two paths: for a header of a
    reachable index other than the tip, the ancestry of the header is the
    canonical chain up to the fork height followed by the planned headers, none
    of which is canonical; the planned rollback is exactly the canonical heights
    above the fork, tip first, and the depth is their number.  There is no plan
    exactly when the header is the tip. *)
Theorem plan_reorg_is_path_difference adm ix best n (Hr : ix_reach adm ix) (Hn : node (E := Reject) ix best = Ok n) :
  exists tip o, tip_index (E := Reject) ix = Ok tip /\ plan_reorg (E := Reject) ix best = Ok o /\
  match o with
  | None => best = tip
  | Some p => best <> tip /\
    ancestry (E := Reject) ix best = Ok (take (Z.to_nat (fork_height p + 1)) (canonical_chain ix) ++ apply p) /\
    Forall (fun i => i ∉ canonical_chain ix) (apply p) /\ 0 <= fork_height p < Zlen (canonical_chain ix) /\
    rollback p = rev (zrange (fork_height p + 1) (Zlen (canonical_chain ix))) /\ depth p = Zlen (rollback p)
  end.
Proof.
  rewrite node_ok in Hn. destruct (plan_reorg_spec (E := Reject) ix (ix_reach_wf_lemma _ _ Hr) best n Hn) as (tip & o & H1 & H2 & H3).
  exists tip, o. split; [done|]. split; [done|]. destruct o as [p|]; [|done].
  destruct H3 as (Hne & chain & Ha & _ & _ & -> & Hf & Hfh & Hd & Hrb). split; [done|]. split; [done|]. split; [done|].
  split; [done|]. split; [done|]. rewrite Hrb, Hd, Zlen_rev, Zlen_zrange by lia. unfold canonical_chain. lia.
Qed.

Lemma plan_node ix best p : plan_reorg (E := Reject) ix best = Ok (Some p) -> exists n, zlookup (ix_nodes ix) best = Some n.
Proof.
  intros Hp. unfold plan_reorg in Hp. destruct (tip_index ix); cbn [obind] in Hp; [|done..]. destruct (best =? a); [done|].
  destruct (length (ix_nodes ix)); [done|]. cbn [branch_loop] in Hp. unfold is_canonical, node in Hp.
  destruct (zlookup (ix_nodes ix) best); [eauto|done].
Qed.

(** What a plan gives: a chain whose headers are the old ones up to the fork and
    then the candidate, short enough for 64-bit heights. *)
Lemma plan_facts limit ix best p : arena_ok (MkArenaView ix limit) -> plan_reorg (E := Reject) ix best = Ok (Some p) ->
  let cand := infos limit (ix_nodes ix) (apply p) in
  exists chain, ancestry (E := Reject) ix best = Ok chain /\ chain_path (ix_nodes ix) chain /\
    infos limit (ix_nodes ix) chain = adopt (arena_chain (MkArenaView ix limit)) (fork_height p + 1) cand /\
    plan_candidate ix limit p = Ok cand /\ Forall header_ok cand /\
    0 <= fork_height p + 1 /\ fork_height p + 1 + Zlen cand < 2 ^ 64.
Proof.
  intros HV Hp cand. pose proof (ao_wf _ HV) as W. pose proof (ao_work _ HV) as WW. pose proof (ao_limit _ HV) as Hl.
  cbn [av_index av_pow_limit] in *. pose proof (wf_arena _ W) as A. destruct (plan_node ix best p Hp) as [n Hn].
  destruct (plan_reorg_spec (E := Reject) ix W best n Hn) as (tip & o & _ & Hp' & H3). rewrite Hp in Hp'.
  apply Ok_inj in Hp' as <-. destruct H3 as (_ & chain & Ha & Hcp & Hlast & Hchain & _ & Hfh & _).
  exists chain. split; [done|]. split; [done|]. pose proof (path_nodes _ A _ Hcp) as Hall. split; [|split; [|split; [|split]]].
  - unfold arena_chain, adopt. cbn [av_index av_pow_limit]. rewrite Hchain, infos_app.
    rewrite infos_take by (apply (path_nodes _ A); apply W). done.
  - apply plan_candidate_ok; [done|]. rewrite Hchain in Hall. by apply Forall_app in Hall as [_ ?].
  - by apply (infos_ok limit Hl).
  - lia.
  - rewrite zlookup_last in Hlast. destruct (path_node _ A _ _ _ Hcp Hlast) as (nb & Hnb & Hh).
    pose proof (arena_height _ A _ _ Hnb). pose proof (zlookup_lt _ _ _ Hnb). pose proof (aw_size _ A) as Hs.
    change NO_PARENT with (2 ^ 32 - 1) in Hs. pose proof (infos_length limit (ix_nodes ix) (apply p)). fold cand in H1.
    assert (Zlen chain = fork_height p + 1 + Zlen (apply p)) as Hlc.
    { rewrite Hchain, Zlen_app. unfold Zlen at 1. rewrite length_take. unfold Zlen in *. lia. }
    unfold Zlen in *. lia.
Qed.

Lemma arena_chain_wf v : arena_ok v -> chain_wf (arena_chain v).
Proof.
  intros HV. destruct (arena_view_of v HV). constructor; [|done..]. apply (infos_ok _ (ao_limit v HV) _ (ao_work v HV)).
Qed.

(** An accepted plan, made canonical, is one step of the abstract rule. *)
Lemma adoption_step limit ix best p chain ix' params cap verdict : arena_ok (MkArenaView ix limit) -> plan_reorg (E := Reject) ix best = Ok (Some p) ->
  ancestry (E := Reject) ix best = Ok chain -> set_canonical (E := Reject) ix chain = Ok ix' ->
  evaluate_reorg_with_cap (MkArenaView ix limit) (fork_height p + 1) (infos limit (ix_nodes ix) (apply p)) params cap = Ok verdict ->
  arena_chain (MkArenaView ix' limit) = adopt (arena_chain (MkArenaView ix limit)) (fork_height p + 1) (infos limit (ix_nodes ix) (apply p)) /\
  reorg_step (arena_chain (MkArenaView ix limit)) (arena_chain (MkArenaView ix' limit)) /\
  chain_better (arena_chain (MkArenaView ix limit)) (arena_chain (MkArenaView ix' limit)).
Proof.
  intros HV Hp Hanc Hset Hv. set (v := MkArenaView ix limit) in *.
  destruct (plan_facts limit ix best p HV Hp) as (chain' & Ha & Hcp & Hinfo & _ & Hco & H0 & Hlen). rewrite Hanc in Ha. apply Ok_inj in Ha as <-.
  set (cand := infos limit (ix_nodes ix) (apply p)) in *.
  destruct (evaluate_reorg_spec v (arena_chain v) (arena_view_of v HV) (fork_height p + 1) cand params cap) as [_ Hiff]; [done|done|by apply chain_wf_targets|].
  apply Hiff in Hv as Hspec. destruct (set_canonical_wf (E := Reject) ix chain (ao_wf _ HV) Hcp) as (ix2 & Hset2 & _ & Hcan & Hst).
  rewrite Hset in Hset2. apply Ok_inj in Hset2 as <-. pose proof (arena_chain_wf v HV) as Hcw.
  assert (arena_chain (MkArenaView ix' limit) = adopt (arena_chain v) (fork_height p + 1) cand) as Heq.
  { unfold arena_chain at 1. cbn [av_index av_pow_limit]. by rewrite Hcan, <-(infos_same_tree limit _ _ chain Hst), Hinfo. }
  assert (reorg_step (arena_chain v) (arena_chain (MkArenaView ix' limit))) as Hstep.
  { rewrite Heq. apply (reorg_step_intro _ _ _ params cap verdict); [done..|].
    by apply (evaluate_reorg_spec (MkListChain (arena_chain v)) _ (list_chain_view_of _ Hcw)); [done|done|apply chain_wf_targets|]. }
  split; [done|]. split; [done|]. by apply reorg_step_improves.
Qed.

(** Adoption in the arena refines reorganisation of the abstract chain: for a
    plan of a reachable index, the candidate the manager builds is legal, the
    reorganisation rule does not panic on it, and when the rule accepts, making
    the ancestry of the chosen header canonical succeeds, yields a reachable
    index, and changes the list of canonical headers by exactly one step of the
    abstract rule, to a better chain. *)
Theorem adoption_refines_reorg limit ix best p params cap verdict
    (Hl : target_ok limit) (Hr : arena_reach limit ix) (Hp : plan_reorg (E := Reject) ix best = Ok (Some p)) :
  exists cand, plan_candidate ix limit p = Ok cand /\
    evaluate_reorg_with_cap (MkArenaView ix limit) (fork_height p + 1) cand params cap <> Panic /\
    (evaluate_reorg_with_cap (MkArenaView ix limit) (fork_height p + 1) cand params cap = Ok verdict ->
     exists chain ix', ancestry (E := Reject) ix best = Ok chain /\ set_canonical (E := Reject) ix chain = Ok ix' /\
       arena_reach limit ix' /\
       reorg_step (arena_chain (MkArenaView ix limit)) (arena_chain (MkArenaView ix' limit)) /\
       chain_better (arena_chain (MkArenaView ix limit)) (arena_chain (MkArenaView ix' limit))).
Proof.
  pose proof (arena_reach_ok limit ix Hl Hr) as HV. set (v := MkArenaView ix limit) in *.
  destruct (plan_facts limit ix best p HV Hp) as (chain & Ha & Hcp & Hinfo & Hcand & Hco & H0 & Hlen).
  set (cand := infos limit (ix_nodes ix) (apply p)) in *. exists cand. split; [done|].
  destruct (evaluate_reorg_spec v (arena_chain v) (arena_view_of v HV) (fork_height p + 1) cand params cap) as [Hnp Hiff];
    [done|done|by apply chain_wf_targets|].
  split; [done|]. intros Hv.
  destruct (set_canonical_wf (E := Reject) ix chain (ao_wf _ HV) Hcp) as (ix' & Hset & W' & Hcan & Hst).
  exists chain, ix'. split; [done|]. split; [done|]. split; [by eapply reach_adopt|].
  by apply (adoption_step limit ix best p chain ix' params cap verdict HV Hp Ha Hset Hv).
Qed.

(** ** A concrete fork: two children of genesis, the second with more work *)
Definition fork_rec (k height bits : Z) : HeaderRec :=
  MkHeaderRec height (replicate 32 k) (replicate 32 0) (1000 + 60 * height) bits [].
Definition fork_work (parent : option Work) (bits : Z) : Work :=
  match direct_work (E := Reject) bits POW_LIMIT with
  | Ok (Some w) => match parent with None => w | Some p => default Work_ZERO (Work_checked_add p w) end
  | _ => Work_ZERO
  end.
Definition fork_w0 : Work := Eval vm_compute in fork_work None 0x1d00ffff.
Definition fork_w1 : Work := Eval vm_compute in fork_work (Some fork_w0) 0x1d00ffff.
Definition fork_w2 : Work := Eval vm_compute in fork_work (Some fork_w0) 0x1c00ffff.
Definition fork_ix0 : HeaderIndex := ok_index (insert_genesis HeaderIndex_new (fork_rec 1 0 0x1d00ffff) fork_w0).
Definition fork_ix1 : HeaderIndex := ok_index (ix_insert fork_ix0 (fork_rec 2 1 0x1d00ffff) 0 fork_w1 true).
Definition fork_ix2 : HeaderIndex := ok_index (ix_insert fork_ix1 (fork_rec 3 1 0x1c00ffff) 0 fork_w2 true).
Definition fork_ix : HeaderIndex :=
  match set_canonical (E := Reject) fork_ix2 [0; 1] with Ok ix => ix | _ => HeaderIndex_new end.

Lemma fork_legal parent k height bits cum t w :
  0 <= bits < 2 ^ 32 -> 0 <= k < 256 -> expand_bits bits POW_LIMIT = Some t ->
  work_from_target (E := Reject) (target_to_be t) = Ok w ->
  match parent with None => cum = w | Some p => Work_checked_add (n_cum_work p) w = Some cum end ->
  legal_header POW_LIMIT parent (fork_rec k height bits) cum.
Proof.
  intros Hb Hk Ht Hw Hc. split; [|split; [done|by exists t, w]].
  split; [apply Forall_replicate; exact Hk|done].
Qed.

Lemma fork_ix_reach : arena_reach POW_LIMIT fork_ix.
Proof.
  apply (reach_adopt _ fork_ix2 1 [0; 1]); [|vm_compute; reflexivity..].
  refine (reach_insert _ fork_ix1 (fork_rec 3 1 0x1c00ffff) 0 _ fork_w2 true 2 fork_ix2 _ _ _ _ _ _);
    [|vm_compute; reflexivity..|eapply fork_legal; [lia|lia|vm_compute; reflexivity..]|vm_compute; reflexivity].
  refine (reach_insert _ fork_ix0 (fork_rec 2 1 0x1d00ffff) 0 _ fork_w1 true 1 fork_ix1 _ _ _ _ _ _);
    [|vm_compute; reflexivity..|eapply fork_legal; [lia|lia|vm_compute; reflexivity..]|vm_compute; reflexivity].
  refine (reach_genesis _ (fork_rec 1 0 0x1d00ffff) fork_w0 0 fork_ix0 _ _ _);
    [vm_compute; reflexivity|eapply fork_legal; [lia|lia|vm_compute; reflexivity..]|vm_compute; reflexivity].
Qed.

(** The same headers, received in the other order. *)
Definition fork_ixb1 : HeaderIndex := ok_index (ix_insert fork_ix0 (fork_rec 3 1 0x1c00ffff) 0 fork_w2 true).
Definition fork_ixb2 : HeaderIndex := ok_index (ix_insert fork_ixb1 (fork_rec 2 1 0x1d00ffff) 0 fork_w1 true).
Definition fork_ixb : HeaderIndex :=
  match set_canonical (E := Reject) fork_ixb2 [0; 2] with Ok ix => ix | _ => HeaderIndex_new end.

Lemma fork_ixb_reach : arena_reach POW_LIMIT fork_ixb.
Proof.
  apply (reach_adopt _ fork_ixb2 2 [0; 2]); [|vm_compute; reflexivity..].
  refine (reach_insert _ fork_ixb1 (fork_rec 2 1 0x1d00ffff) 0 _ fork_w1 true 2 fork_ixb2 _ _ _ _ _ _);
    [|vm_compute; reflexivity..|eapply fork_legal; [lia|lia|vm_compute; reflexivity..]|vm_compute; reflexivity].
  refine (reach_insert _ fork_ix0 (fork_rec 3 1 0x1c00ffff) 0 _ fork_w2 true 1 fork_ixb1 _ _ _ _ _ _);
    [|vm_compute; reflexivity..|eapply fork_legal; [lia|lia|vm_compute; reflexivity..]|vm_compute; reflexivity].
  refine (reach_genesis _ (fork_rec 1 0 0x1d00ffff) fork_w0 0 fork_ix0 _ _ _);
    [vm_compute; reflexivity|eapply fork_legal; [lia|lia|vm_compute; reflexivity..]|vm_compute; reflexivity].
Qed.

Definition eligible_list (ix : HeaderIndex) : list (Hash32 * Work) :=
  omap (fun n => if n_invalid n || negb (n_pow_ok n) then None else Some (n_hash n, n_cum_work n)) (ix_nodes ix).
Lemma eligible_list_spec ix h w :
  (exists i n, eligible ix [] i n /\ n_hash n = h /\ n_cum_work n = w) <-> (h, w) ∈ eligible_list ix.
Proof.
  unfold eligible_list. rewrite list_elem_of_omap. split.
  - intros (i & n & (Hn & _ & Hv & Hp) & <- & <-). exists n. rewrite Hv, Hp. split; [|done]. apply zlookup_elem. eauto.
  - intros (n & Hn & Hs). apply zlookup_elem in Hn as [i Hi]. destruct (_ || _) eqn:Ef; [done|]. to_prop.
    injection Hs as <- <-. exists i, n. repeat split; try done. set_solver.
Qed.

Lemma arena_view_lawful_witness :
  arena_len (E := Reject) (MkArenaView fork_ix POW_LIMIT) = Ok 2.
Proof.
  pose proof (arena_view_lawful POW_LIMIT fork_ix pow_limit_ok fork_ix_reach) as (H & _). rewrite H. f_equal.
Defined.

Lemma select_best_optimal_witness :
  exists best b, select_best_excluding (E := Reject) fork_ix [] = Ok best /\ best = 2 /\ node (E := Reject) fork_ix best = Ok b.
Proof.
  destruct (select_best_optimal POW_LIMIT fork_ix [] pow_limit_ok fork_ix_reach) as (best & b & tip & H1 & _ & H2 & _).
  exists best, b. split; [exact H1|]. split; [|exact H2]. vm_compute in H1. injection H1 as <-. reflexivity.
Defined.

Lemma select_best_order_independent_witness :
  exists b1 b2 n1 n2, select_best (E := Reject) fork_ix = Ok b1 /\ select_best (E := Reject) fork_ixb = Ok b2 /\
    node (E := Reject) fork_ix b1 = Ok n1 /\ node (E := Reject) fork_ixb b2 = Ok n2 /\ n_hash n1 = n_hash n2.
Proof.
  eapply (select_best_order_independent POW_LIMIT fork_ix fork_ixb _ _ pow_limit_ok fork_ix_reach fork_ixb_reach).
  - vm_compute. reflexivity.
  - vm_compute. reflexivity.
  - split; reflexivity.
  - intros h w. rewrite !eligible_list_spec. vm_compute (eligible_list fork_ix). vm_compute (eligible_list fork_ixb).
    rewrite !elem_of_cons. tauto.
Defined.

Lemma plan_reorg_is_path_difference_witness :
  exists tip p, tip_index (E := Reject) fork_ix = Ok tip /\ plan_reorg (E := Reject) fork_ix 2 = Ok (Some p) /\
    apply p = [2] /\ depth p = Zlen (rollback p).
Proof.
  destruct (node (E := Reject) fork_ix 2) as [n| |] eqn:Hn; [|vm_compute in Hn; discriminate..].
  destruct (plan_reorg_is_path_difference _ fork_ix 2 n fork_ix_reach Hn) as (tip & o & H1 & H2 & H3).
  destruct o as [p|]; [|vm_compute in H2; discriminate]. exists tip, p. split; [exact H1|]. split; [exact H2|].
  split; [vm_compute in H2; injection H2 as <-; reflexivity|apply H3].
Defined.

Definition fork_params : ReorgParams := MkReorgParams None [] 0.
Lemma adoption_refines_reorg_witness :
  exists cand, plan_candidate fork_ix POW_LIMIT (MkPlan 0 [1] [2] 1) = Ok cand /\
    evaluate_reorg_with_cap (MkArenaView fork_ix POW_LIMIT) 1 cand fork_params 60 = Ok StrictlyMoreWork /\
    exists chain ix', ancestry (E := Reject) fork_ix 2 = Ok chain /\ set_canonical (E := Reject) fork_ix chain = Ok ix' /\
      chain_better (arena_chain (MkArenaView fork_ix POW_LIMIT)) (arena_chain (MkArenaView ix' POW_LIMIT)).
Proof.
  destruct (adoption_refines_reorg POW_LIMIT fork_ix 2 (MkPlan 0 [1] [2] 1) fork_params 60 StrictlyMoreWork
    pow_limit_ok fork_ix_reach) as (cand & H1 & _ & H3).
  - vm_compute. reflexivity.
  - exists cand. split; [exact H1|].
    assert (evaluate_reorg_with_cap (MkArenaView fork_ix POW_LIMIT) 1 cand fork_params 60 = Ok StrictlyMoreWork) as Hv
      by (vm_compute in H1; injection H1 as <-; vm_compute; reflexivity).
    split; [exact Hv|]. destruct (H3 Hv) as (chain & ix' & H4 & H5 & _ & _ & H6). exists chain, ix'. auto.
Defined.
