(* ===== verification/Gates.v ===== *)
(** The header gates (src/lib/chain/src/gates.rs), in the order a header passes
    them: fixed fields, checkpoints, height, difficulty bits, timestamps, fork
    depth and claimed work. *)

From Stdlib Require Import ZArith Lia List.
From stdpp Require Import base list numbers.
From S2P Require Import Prelude Constants Limbs Asert Work Rules Codec Crypto ChainTypes ChainWork.
Open Scope Z_scope.

Definition s1_fixed_fields (raw : bytes) (pow_limit : Target) : outcome Reject Header :=
  guard! negb (Zlen raw =? HEADER_BYTES) else BadHeaderLength (Zlen raw) ;;
  let? h := map_err (fun _ => BadHeaderLength (Zlen raw)) (Header_decode raw) in
  guard! negb (bytes_eqb (h_ext_root h) (replicate 32 0)) else ExtRootNotZero ;;
  guard! AUTHOR_NOTE_MAX_BYTES <? h_author_note_len h else AuthorNoteLen (h_author_note_len h) ;;
  guard! negb (Z.land (h_version h) 0xE0000000 =? VERSION_BASE) else BadVersion (h_version h) ;;
  guard! bool_decide (expand_bits (h_bits h) pow_limit = None) else BadBits (h_bits h) ;;
  Ok h.

Definition s1b_checkpoint (checkpoints : checkpoint_map) (height : Z) (hash : Hash32) : outcome Reject unit :=
  map_err (fun _ => RejCheckpointMismatch height) (check_block_checkpoint checkpoints height hash).

Definition s2_height (child_height parent_height : Z) : outcome Reject unit :=
  let expected := saturating_add 64 parent_height 1 in
  guard! negb (child_height =? expected) else HeightNotParentPlusOne child_height expected ;;
  Ok tt.

Definition s3_bits (got expected : Z) : outcome Reject unit :=
  guard! negb (got =? expected) else BitsNotAsert got expected ;;
  Ok tt.

Definition s4_time (ancestor_times : list Z) (time now : Z) : outcome Reject unit :=
  let? mtp := median_time_past ancestor_times in
  map_err (fun e => match e with
                    | TimestampTooOld mtp time => RejTimestampTooOld mtp time
                    | _ => RejTimestampTooFarInFuture time (saturating_add 64 now MAX_FUTURE_DRIFT_SECS)
                    end)
    (check_block_time mtp time now).

Inductive AnchorReach := NotReached | Matches | Contradicts.
#[export] Instance AnchorReach_eq_dec : EqDecision AnchorReach.
Proof. solve_decision. Defined.

Definition s5_fork_depth (tip : TipRef) (branch_base_height : Z) (anchor : option Anchor) (reach : AnchorReach)
    (params : ChainParams) : outcome Reject unit :=
  let cap := max_reorg_depth params in
  if cap =? 0 then Ok tt else
  let depth := saturating_sub (tip_height tip) branch_base_height in
  if depth <=? cap then Ok tt else
  let exempt := (match anchor with Some _ => true | None => false end) && bool_decide (reach <> Contradicts) in
  if exempt then Ok tt else Err (ForkTooDeep depth cap).

Definition s6_claimed_work (cand_work : Work) (cand_tip_hash : Hash32) (cand_tip_height depth : Z) (tip : TipRef)
    : outcome Reject unit :=
  if Work_ltb (tip_chainwork tip) cand_work then Ok tt else
  if bool_decide (cand_work = tip_chainwork tip) && (depth =? 1) && (cand_tip_height =? tip_height tip) &&
     bytes_ltb cand_tip_hash (tip_hash tip) then Ok tt else
  Err InsufficientClaimedWork.

(** ** What each gate admits *)
Lemma s1_fixed_fields_spec raw limit h :
  s1_fixed_fields raw limit = Ok h <->
  Zlen raw = HEADER_BYTES /\ Header_decode raw = Ok h /\ h_ext_root h = replicate 32 0 /\
  h_author_note_len h <= AUTHOR_NOTE_MAX_BYTES /\ Z.land (h_version h) 0xE0000000 = VERSION_BASE /\
  expand_bits (h_bits h) limit <> None.
Proof.
  unfold s1_fixed_fields. split.
  - intros H. step_in H. step_in H. step_in H. step_in H. step_in H. step_in H. apply Ok_inj in H as <-.
    apply map_err_ok in E. unfold bytes_eqb in *. to_prop. done.
  - intros (Hl & Hd & He & Hn & Hv & Hb). rewrite Hl, Z.eqb_refl. cbn [negb]. rewrite Hd. cbn [map_err obind].
    unfold bytes_eqb. rewrite bool_decide_eq_true_2 by done. cbn [negb].
    destruct (Z.ltb_spec AUTHOR_NOTE_MAX_BYTES (h_author_note_len h)); [lia|]. rewrite Hv, Z.eqb_refl. cbn [negb].
    by rewrite bool_decide_eq_false_2.
Qed.

Lemma s2_height_spec c p : 0 <= c < 2 ^ 64 -> 0 <= p < 2 ^ 64 - 1 -> s2_height c p = Ok tt <-> c = p + 1.
Proof.
  intros Hc Hp. unfold s2_height, saturating_add, umax. rewrite Z.min_l by lia. by destruct (Z.eqb_spec c (p + 1)).
Qed.

Lemma s4_time_spec times t now : times <> [] ->
  exists m, median_time_past (E := Reject) times = Ok m /\
    (s4_time times t now = Ok tt <-> m < t <= saturating_add 64 now MAX_FUTURE_DRIFT_SECS).
Proof.
  intros Ht. destruct (median_time_past_total (E := Reject) times Ht) as [m Hm]. exists m. split; [done|].
  unfold s4_time. rewrite Hm. cbn [obind]. rewrite map_err_ok. unfold check_block_time.
  destruct (Z.leb_spec t m); [split; [done|lia]|].
  destruct (Z.ltb_spec (saturating_add 64 now MAX_FUTURE_DRIFT_SECS) t); split; try done; lia.
Qed.

(** ** The work and depth gates against the reorganisation rule *)
Section Consistency.
Context `{ChainView C} (view : C) (chain : list HeaderInfo) (HV : view_of view chain).
Context (start : Z) (cand : list HeaderInfo) (tip : TipRef) (ours theirs : HeaderInfo) (cum : Work).
Hypothesis Hstart : 0 < start <= Zlen chain.
Hypothesis Hours : list.last chain = Some ours.
Hypothesis Htheirs : list.last cand = Some theirs.
Hypothesis Htip : tip = MkTipRef (hi_height ours) (hi_hash ours) (hi_time ours) (view_cumulative_work view).
Hypothesis Hcum : work_ok cum /\ val cum = work_sum (take (Z.to_nat start) chain) + work_sum cand.

Lemma claimed_work_spec :
  s6_claimed_work cum (hi_hash theirs) (hi_height theirs) (Zlen chain - start) tip = Ok tt <->
  exists v, reorg_preferred chain start cand v.
Proof.
  destruct Hcum as [Hok Hv]. pose proof (vo_work_ok _ _ HV) as Hwo. pose proof (vo_work _ _ HV) as Hwv.
  assert (work_sum chain = work_sum (take (Z.to_nat start) chain) + work_sum (drop (Z.to_nat start) chain)) as Hsplit
    by (rewrite <-work_sum_app; by rewrite take_drop).
  unfold s6_claimed_work. rewrite Htip. cbn [tip_chainwork tip_hash tip_height]. rewrite Work_ltb_spec by done.
  destruct (Z.ltb_spec (val (view_cumulative_work view)) (val cum)) as [Hlt|Hge].
  { split; [|done]. intros _. exists StrictlyMoreWork. cbn. lia. }
  destruct (_ && _) eqn:Eb; split; try done.
  - intros _. to_prop. subst cum. exists TieBreak. cbn. split; [lia|]. split; [lia|]. exists ours, theirs. done.
  - intros [[|] Hp]; cbn in Hp; [lia|]. destruct Hp as (Hd & Hw & o & t & Ho & Ht & Hh & Hl).
    rewrite Hours in Ho. rewrite Htheirs in Ht. injection Ho as <-. injection Ht as <-.
    assert (cum = view_cumulative_work view) as Hc by (apply work_val_inj; [done..|lia]).
    by rewrite Hc, bool_decide_eq_true_2, Hd, Hh, Z.eqb_refl, Z.eqb_refl, Hl in Eb.
Qed.

Lemma fork_depth_admits params rp reach : max_reorg_depth params >= 0 ->
  reorg_admissible chain start cand rp (max_reorg_depth params) ->
  reach <> Contradicts -> s5_fork_depth tip (start - 1) (rp_anchor rp) reach params = Ok tt.
Proof.
  intros Hcap Hadm Hre. unfold s5_fork_depth. destruct (Z.eqb_spec (max_reorg_depth params) 0); [done|].
  assert (tip_height tip = Zlen chain - 1) as Hth.
  { rewrite Htip. cbn. rewrite last_lookup in Hours. rewrite (vo_height _ _ HV _ _ Hours). unfold Zlen in *. lia. }
  rewrite Hth. unfold saturating_sub. destruct (Z.leb_spec (Z.max 0 (Zlen chain - 1 - (start - 1))) (max_reorg_depth params)); [done|].
  destruct (ra_depth _ _ _ _ _ Hadm) as [?|[?|(a & h & -> & _)]]; [lia|lia|]. by rewrite bool_decide_eq_true_2.
Qed.
End Consistency.

(** The header gates never refuse a branch the node would adopt: over any
    lawful view, when the reorganisation rule accepts a candidate branch, the
    claimed-work gate passes its last header (whose cumulative work is the kept
    chain's plus the branch's) and the fork-depth gate passes it too, unless the
    branch contradicts the signed anchor.  The claimed-work gate in fact passes
    exactly the branches the rule prefers. *)
Theorem gates_admit_adoptable_branch `{ChainViewLaws C inv} (view : C) start cand rp params reach verdict ours theirs cum
    (Hinv : inv view) (Hstart : 0 <= start) (Hlen : start + Zlen cand < 2 ^ 64)
    (Hc : Forall (fun h => hash_ok (hi_target h)) cand)
    (Hcap : max_reorg_depth params >= 0) (Hreach : reach <> Contradicts)
    (Hours : list.last (view_chain view) = Some ours) (Htheirs : list.last cand = Some theirs)
    (Hcum : work_ok cum /\ val cum = work_sum (take (Z.to_nat start) (view_chain view)) + work_sum cand)
    (Hacc : evaluate_reorg_with_cap view start cand rp (max_reorg_depth params) = Ok verdict) :
  let tip := MkTipRef (hi_height ours) (hi_hash ours) (hi_time ours) (view_cumulative_work view) in
  s5_fork_depth tip (start - 1) (rp_anchor rp) reach params = Ok tt /\
  s6_claimed_work cum (hi_hash theirs) (hi_height theirs) (Zlen (view_chain view) - start) tip = Ok tt.
Proof.
  intros tip. pose proof (view_chain_spec view Hinv) as HV.
  apply (evaluate_reorg_spec view _ HV) in Hacc as [Hadm Hp]; [|done..]. split.
  - apply (fork_depth_admits view _ HV start cand tip ours); [apply Hadm|done..].
  - apply (claimed_work_spec view _ HV start cand tip ours theirs cum); [done..|by exists verdict].
Qed.

Definition gate_cum : Work := Eval vm_compute in to_limbs 8 (work_sum (take 2 sample_chain) + work_sum sample_branch).
Lemma gates_admit_adoptable_branch_witness :
  s6_claimed_work gate_cum (hi_hash (sample_header 3 90)) 3 1
    (MkTipRef 2 (hi_hash (sample_header 2 7)) 1120 (view_cumulative_work (MkListChain sample_chain))) = Ok tt.
Proof.
  destruct (gates_admit_adoptable_branch (MkListChain sample_chain) 2 sample_branch sample_params ChainParams_default
    NotReached StrictlyMoreWork (sample_header 2 7) (sample_header 3 90) gate_cum) as [_ H].
  - exact sample_chain_wf.
  - lia.
  - reflexivity.
  - repeat (constructor; [apply half_target_ok|]); constructor.
  - vm_compute. discriminate.
  - discriminate.
  - reflexivity.
  - reflexivity.
  - split; [split; [reflexivity|repeat constructor; unfold limb_ok; lia]|vm_compute; reflexivity].
  - vm_compute. reflexivity.
  - exact H.
Defined.
