(* ===== verification/CheckpointStore.v ===== *)
(** The node's checkpoint state (src/lib/chain/src/checkpoints.rs): the enforced
    checkpoints and the recovery anchor, updated by signed checkpoint records.
    Signature verification is a parameter, as in the signed-checkpoint file. *)

From Stdlib Require Import ZArith Lia List Sorted.
From stdpp Require Import base list numbers sorting relations.
From S2P Require Import Prelude Constants Work Rules Checkpoint Codec Crypto ChainTypes.
Open Scope Z_scope.

Inductive CheckpointOutcome :=
| Unverified | CpGenesisImmutable | CpNotHeldYet | CpAdmitted | StoredAsAnchor | AnchorNotSuperseded.
Record CheckpointReport := MkCheckpointReport { cr_outcome : CheckpointOutcome; anchor_advanced : bool }.

Record Checkpoints := MkCheckpoints {
  cps_enforced : checkpoint_map;
  cps_anchor : option Anchor;
  cps_anchor_record : option SignedCheckpoint;
}.
Definition Checkpoints_new : Checkpoints := MkCheckpoints [] None None.

(** [sort_unstable] on [(u64, [u8; 32])]: the lexicographic order of pairs. *)
Definition cp_le (p q : Z * Hash32) : Prop :=
  fst p < fst q \/ (fst p = fst q /\ bytes_leb (snd p) (snd q) = true).
#[export] Instance cp_le_dec : RelDecision cp_le.
Proof. intros p q. unfold cp_le. apply _. Defined.
Definition sort_checkpoints (l : checkpoint_map) : checkpoint_map := merge_sort cp_le l.

Definition install_anchor (c : Checkpoints) (cp : SignedCheckpoint) : bool * Checkpoints :=
  let cand := MkAnchor (cp_height cp) (cp_hash cp) in
  if anchor_supersedes (cps_anchor c) cand
  then (true, MkCheckpoints (cps_enforced c) (Some cand) (Some cp))
  else (false, c).

Section Store.
Context `{ED : Ed25519}.

Definition cp_verified (cp : SignedCheckpoint) (params : ChainParams) : bool :=
  verify_checkpoint vk_from_bytes verify_strict cp (authority_keys params) (checkpoint_threshold params).

Definition load_anchor (c : Checkpoints) (cp : SignedCheckpoint) (params : ChainParams) : bool * Checkpoints :=
  if negb (cp_verified cp params) then (false, c) else install_anchor c cp.

(** The observer's calls are the last component of the result. *)
Definition submit {E} `{ChainView C} (c : Checkpoints) (cp : SignedCheckpoint) (view : C) (params : ChainParams)
    : outcome E (CheckpointReport * Checkpoints * list Condition) :=
  if negb (cp_verified cp params) then Ok (MkCheckpointReport Unverified false, c, []) else
  let? adm := checkpoint_admission view (cp_height cp) (cp_hash cp) in
  match adm with
  | GenesisImmutable => Ok (MkCheckpointReport CpGenesisImmutable false, c, [])
  | NotHeldYet =>
    let '(installed, c) := install_anchor c cp in
    Ok (if installed then MkCheckpointReport CpNotHeldYet true else MkCheckpointReport AnchorNotSuperseded false, c, [])
  | Admit =>
    let enforced :=
      if existsb (fun e => fst e =? cp_height cp) (cps_enforced c) then cps_enforced c
      else sort_checkpoints (cps_enforced c ++ [(cp_height cp, cp_hash cp)]) in
    let c := MkCheckpoints enforced (cps_anchor c) (cps_anchor_record c) in
    let '(advanced, c) := install_anchor c cp in
    Ok (MkCheckpointReport CpAdmitted advanced, c, [])
  | HashConflict =>
    let obs := [CAnchorContradiction (cp_height cp) (cp_hash cp)] in
    let '(installed, c) := install_anchor c cp in
    Ok (if installed then MkCheckpointReport StoredAsAnchor true else MkCheckpointReport AnchorNotSuperseded false, c, obs)
  end.

(** ** The invariant *)

(** Enforced heights strictly increase and were all signed; the anchor is the
    signed record it was installed from. *)
Record cps_wf (params : ChainParams) (c : Checkpoints) : Prop := {
  cw_sorted : StronglySorted (fun p q => fst p < fst q) (cps_enforced c);
  cw_signed : forall h x, In (h, x) (cps_enforced c) ->
    exists cp, cp_verified cp params = true /\ cp_height cp = h /\ cp_hash cp = x /\ h <> 0;
  cw_anchor : match cps_anchor c, cps_anchor_record c with
              | None, None => True
              | Some a, Some cp => a = MkAnchor (cp_height cp) (cp_hash cp) /\ cp_verified cp params = true /\
                                   cp_height cp <> 0 /\ cp_hash cp <> ZERO_HASH
              | _, _ => False
              end;
}.

Definition anchor_height_of (c : Checkpoints) : Z :=
  match cps_anchor c with Some a => anchor_height a | None => 0 end.

Lemma install_anchor_wf params c cp : cps_wf params c -> cp_verified cp params = true ->
  cps_wf params (snd (install_anchor c cp)) /\ cps_enforced (snd (install_anchor c cp)) = cps_enforced c /\
  (fst (install_anchor c cp) = true <-> cps_anchor (snd (install_anchor c cp)) = Some (MkAnchor (cp_height cp) (cp_hash cp)) /\
     cps_anchor c <> Some (MkAnchor (cp_height cp) (cp_hash cp))) /\
  (fst (install_anchor c cp) = false -> snd (install_anchor c cp) = c) /\
  (0 <= cp_height cp -> anchor_height_of c <= anchor_height_of (snd (install_anchor c cp))).
Proof.
  intros [Hs Hg Ha] Hv. unfold install_anchor. destruct (anchor_supersedes _ _) eqn:Es; cbn [fst snd].
  - unfold anchor_supersedes in Es. cbn [anchor_height anchor_hash] in Es. destruct (_ || _) eqn:Ez; [done|].
    to_prop. unfold bytes_eqb in *. to_prop. split; [constructor; cbn; try done|]. split; [done|].
    split; [|split; [done|]].
    + split; [|done]. intros _. split; [done|]. intros Hc. rewrite Hc in Es. cbn in Es. to_prop. lia.
    + intros Hpos. unfold anchor_height_of. cbn. destruct (cps_anchor c); to_prop; lia.
  - split; [done|]. split; [done|]. split; [|split; [done|intros; lia]]. split; [done|]. by intros [? ?].
Qed.

Lemma sort_checkpoints_perm l : Permutation (sort_checkpoints l) l.
Proof. apply merge_sort_Permutation. Qed.

Lemma sort_checkpoints_strict l : NoDup (fst <$> l) -> StronglySorted (fun p q => fst p < fst q) (sort_checkpoints l).
Proof.
  intros Hn. apply Sorted_StronglySorted; [intros ? ? ? ? ?; cbn in *; lia|].
  assert (NoDup (fst <$> sort_checkpoints l)) as Hn' 
    by (by rewrite sort_checkpoints_perm).
  assert (Sorted cp_le (sort_checkpoints l)) as Hs.
  { apply Sorted_merge_sort. intros p q. unfold cp_le. destruct (Ztrichotomy (fst p) (fst q)) as [?|[He|?]]; [lia| |right; left; lia].
    assert (bytes_leb (snd p) (snd q) = true \/ bytes_leb (snd q) (snd p) = true) as [?|?]; [|by left; right|by right; right].
    unfold bytes_leb. rewrite (bytes_cmp_antisym (snd q)). destruct (bytes_cmp (snd p) (snd q)); cbn; auto. }
  revert Hn'. induction Hs as [|p l' Hs IH Hh]; intros Hn'; [constructor|]. apply NoDup_cons in Hn' as [Hni Hn'].
  constructor; [by apply IH|]. destruct Hh as [|q l'' Hle]; constructor. unfold cp_le in Hle. destruct Hle as [?|[He _]]; [done|].
  exfalso. apply Hni. rewrite He. apply list_elem_of_here.
Qed.

Lemma enforce_wf params c cp : cps_wf params c -> cp_verified cp params = true -> cp_height cp <> 0 ->
  existsb (fun e => fst e =? cp_height cp) (cps_enforced c) = false ->
  cps_wf params (MkCheckpoints (sort_checkpoints (cps_enforced c ++ [(cp_height cp, cp_hash cp)])) (cps_anchor c) (cps_anchor_record c)).
Proof.
  intros [Hs Hg Ha] Hv Hnz Hex. constructor; cbn; [|intros h x Hin|done].
  - apply sort_checkpoints_strict. rewrite fmap_app. apply NoDup_app. split; [|split; [|apply NoDup_singleton]].
    + clear -Hs. induction Hs as [|p l Hl IH Hall]; [constructor|]. cbn. apply NoDup_cons. split; [|done].
      rewrite list_elem_of_fmap. intros (q & Hq & Hin).
      rewrite Forall_forall in Hall. specialize (Hall q Hin). cbn in Hall. lia.
    + intros h Hh Hh'. apply list_elem_of_singleton in Hh' as ->. cbn in Hh. apply list_elem_of_fmap in Hh as (q & Hq & Hin).
      apply list_elem_of_In in Hin. assert (existsb (fun e => fst e =? cp_height cp) (cps_enforced c) = true) as Ht.
      { apply existsb_exists. exists q. split; [done|]. by apply Z.eqb_eq. } congruence.
  - assert (In (h, x) (cps_enforced c ++ [(cp_height cp, cp_hash cp)])) as Hin'.
    { eapply Permutation_in; [apply sort_checkpoints_perm|done]. }
    apply in_app_iff in Hin' as [Hin'|[[= <- <-]|[]]]; [by apply Hg|]. by exists cp.
Qed.

Lemma admission_spec {E} `{ChainView C} (view : C) chain cp : view_of view chain -> 0 <= cp_height cp ->
  exists adm, checkpoint_admission (E := E) view (cp_height cp) (cp_hash cp) = Ok adm /\
    (adm = Admit -> cp_height cp <> 0 /\ exists hd, chain !! Z.to_nat (cp_height cp) = Some hd /\ hi_hash hd = cp_hash cp).
Proof.
  intros HV Hpos. unfold checkpoint_admission. destruct (Z.eqb_spec (cp_height cp) 0); [by eexists|].
  rewrite (vo_len _ _ HV). destruct (Z.leb_spec (Zlen chain) (cp_height cp)); [by eexists|].
  rewrite (vo_at _ _ HV) by lia.
  destruct (lookup_lt_is_Some_2 chain (Z.to_nat (cp_height cp))) as [hd Hhd]; [unfold Zlen in *; lia|].
  rewrite Hhd. cbn [expect obind]. eexists. split; [done|]. unfold bytes_eqb. case_bool_decide; [|done].
  intros _. split; [done|]. by exists hd.
Qed.

(** What a submission may change: the anchor only moves forward and is this
    record when it moved; enforcement only grows, by this record's entry, and only
    when the chain holds that hash at that height. *)
Record submit_effect (params : ChainParams) (chain : list HeaderInfo) (cp : SignedCheckpoint)
    (c : Checkpoints) (r : CheckpointReport) (c' : Checkpoints) : Prop := {
  se_wf : cps_wf params c';
  se_forward : anchor_height_of c <= anchor_height_of c';
  se_kept : forall e, In e (cps_enforced c) -> In e (cps_enforced c');
  se_new : forall h x, In (h, x) (cps_enforced c') -> In (h, x) (cps_enforced c) \/
    (h = cp_height cp /\ x = cp_hash cp /\ cp_verified cp params = true /\ cr_outcome r = CpAdmitted /\
     exists hd, chain !! Z.to_nat h = Some hd /\ hi_hash hd = x);
  se_advanced : anchor_advanced r = true <->
    cps_anchor c' = Some (MkAnchor (cp_height cp) (cp_hash cp)) /\ cps_anchor c <> cps_anchor c';
  se_unmoved : anchor_advanced r = false -> cps_anchor c' = cps_anchor c;
}.

Lemma no_effect params chain cp c o : cps_wf params c -> submit_effect params chain cp c (MkCheckpointReport o false) c.
Proof. intros W. constructor; cbn; try done; [by left|]. split; [done|]. by intros [_ ?]. Qed.

(** Installing the anchor after an update [c0] of the enforced list. *)
Lemma install_effect params chain cp c c0 r : cp_verified cp params = true -> 0 <= cp_height cp ->
  cps_wf params c0 -> cps_anchor c0 = cps_anchor c -> (forall e, In e (cps_enforced c) -> In e (cps_enforced c0)) ->
  (forall h x, In (h, x) (cps_enforced c0) -> In (h, x) (cps_enforced c) \/
    (h = cp_height cp /\ x = cp_hash cp /\ cp_verified cp params = true /\ cr_outcome r = CpAdmitted /\
     exists hd, chain !! Z.to_nat h = Some hd /\ hi_hash hd = x)) ->
  anchor_advanced r = fst (install_anchor c0 cp) ->
  submit_effect params chain cp c r (snd (install_anchor c0 cp)).
Proof.
  intros Ev Hpos W0 Ha0 Hin Hnew Hadv. destruct (install_anchor_wf params c0 cp W0 Ev) as (W' & Hen & Hiff & Hno & Hmono).
  constructor.
  - done.
  - unfold anchor_height_of in *. rewrite <-Ha0. by apply Hmono.
  - by rewrite Hen.
  - intros h x Hh. rewrite Hen in Hh. by apply Hnew.
  - rewrite Hadv, <-Ha0, Hiff. split; intros [H1 H2]; (split; [done|]); congruence.
  - intros Hf. rewrite Hadv in Hf. by rewrite (Hno Hf).
Qed.

Lemma enforce_effect params cp c : cps_wf params c -> cp_verified cp params = true -> cp_height cp <> 0 ->
  let c0 := MkCheckpoints (if existsb (fun e => fst e =? cp_height cp) (cps_enforced c) then cps_enforced c
      else sort_checkpoints (cps_enforced c ++ [(cp_height cp, cp_hash cp)])) (cps_anchor c) (cps_anchor_record c) in
  cps_wf params c0 /\ (forall e, In e (cps_enforced c) -> In e (cps_enforced c0)) /\
  (forall h x, In (h, x) (cps_enforced c0) -> In (h, x) (cps_enforced c) \/ (h, x) = (cp_height cp, cp_hash cp)).
Proof.
  intros W Ev Hnz c0. unfold c0. destruct (existsb _ _) eqn:Ex.
  - split; [by destruct W; constructor|]. split; [done|]. by left.
  - split; [by apply enforce_wf|]. cbn. split.
    + intros e He. eapply Permutation_in; [symmetry; apply sort_checkpoints_perm|]. apply in_app_iff. by left.
    + intros h x Hh. assert (In (h, x) (cps_enforced c ++ [(cp_height cp, cp_hash cp)])) as Hh'
        by (eapply Permutation_in; [apply sort_checkpoints_perm|done]).
      apply in_app_iff in Hh' as [?|[<-|[]]]; [by left|by right].
Qed.

Lemma submit_spec {E} `{ChainView C} c cp (view : C) chain params : view_of view chain -> cps_wf params c -> 0 <= cp_height cp ->
  exists r c' obs, submit (E := E) c cp view params = Ok (r, c', obs) /\ submit_effect params chain cp c r c'.
Proof.
  intros HV W Hpos. unfold submit. destruct (cp_verified cp params) eqn:Ev; cbn [negb].
  2: { eexists _, _, _. split; [done|]. by apply no_effect. }
  destruct (admission_spec (E := E) view chain cp HV Hpos) as (adm & -> & Hadm). cbn [obind]. destruct adm.
  - destruct (Hadm eq_refl) as (Hnz & Hheld). destruct (enforce_effect params cp c W Ev Hnz) as (W0 & Hin & Hnew).
    set (c0 := MkCheckpoints _ _ _) in *. destruct (install_anchor c0 cp) as [adv c'] eqn:Ei. eexists _, _, _. split; [done|].
    pose proof (install_effect params chain cp c c0 (MkCheckpointReport CpAdmitted adv) Ev Hpos W0 eq_refl Hin) as He.
    rewrite Ei in He. apply He; [|done]. intros h x Hh. apply Hnew in Hh as [?|[= -> ->]]; [by left|]. by right.
  - eexists _, _, _. split; [done|]. by apply no_effect.
  - pose proof (fun r => install_effect params chain cp c c r Ev Hpos W eq_refl (fun e H => H) (fun h x H => or_introl H)) as He.
    destruct (install_anchor c cp) as [adv c']. eexists _, _, _. split; [done|]. apply He. by destruct adv.
  - pose proof (fun r => install_effect params chain cp c c r Ev Hpos W eq_refl (fun e H => H) (fun h x H => or_introl H)) as He.
    destruct (install_anchor c cp) as [adv c']. eexists _, _, _. split; [done|]. apply He. by destruct adv.
Qed.

(** ** Runs of the checkpoint state *)
Inductive cps_step (params : ChainParams) (c : Checkpoints) : Checkpoints -> Prop :=
| step_submit C (V : ChainView C) (view : C) chain cp r c' obs :
    view_of view chain -> 0 <= cp_height cp ->
    submit (E := Reject) c cp view params = Ok (r, c', obs) -> cps_step params c c'
| step_load cp b c' : 0 <= cp_height cp -> load_anchor c cp params = (b, c') -> cps_step params c c'.

Lemma cps_step_ok params c c' : cps_wf params c -> cps_step params c c' ->
  cps_wf params c' /\ anchor_height_of c <= anchor_height_of c' /\
  forall e, In e (cps_enforced c) -> In e (cps_enforced c').
Proof.
  intros W [C V view chain cp r c2 obs HV Hpos H|cp b c2 Hpos H].
  - destruct (submit_spec (E := Reject) c cp view chain params HV W Hpos) as (r2 & c3 & o2 & H2 & He). rewrite H in H2.
    apply Ok_inj in H2. injection H2 as <- <- <-. by destruct He.
  - unfold load_anchor in H. destruct (cp_verified cp params) eqn:Ev; cbn in H; [|injection H as _ <-; split; [done|split; [lia|done]]].
    destruct (install_anchor_wf params c cp W Ev) as (W' & Hen & _ & _ & Hm). rewrite H in W', Hen, Hm. cbn in *.
    split; [done|]. split; [by apply Hm|by rewrite Hen].
Qed.

(** The checkpoint state is safe under any run of submissions and loads, over
    any lawful chain views: the enforced heights stay strictly increasing and
    every enforced entry and the anchor stay backed by a record enough distinct
    authorities signed; enforcement never drops an entry, and the anchor never
    moves to a lower height, so a stale or replayed record cannot roll it back. *)
Theorem checkpoint_state_safe params c c' (W : cps_wf params c) (H : rtc (cps_step params) c c') :
  cps_wf params c' /\ anchor_height_of c <= anchor_height_of c' /\
  forall e, In e (cps_enforced c) -> In e (cps_enforced c').
Proof.
  induction H as [c|c c1 c2 H1 H2 IH]; [split; [done|split; [lia|done]]|].
  destruct (cps_step_ok params c c1 W H1) as (W1 & Hm & Hin). destruct (IH W1) as (W2 & Hm2 & Hin2).
  split; [done|]. split; [lia|auto].
Qed.

(** A checkpoint is enforced only for a block the node already holds: over a
    lawful view a submission never panics, the only entry it can add is this
    record's, and then the canonical header at that height has that hash; a
    record for another hash at a held height becomes at most the recovery anchor. *)
Theorem submit_enforces_only_held {C} `{V : ChainView C} (view : C) chain c cp params
    (HV : view_of view chain) (W : cps_wf params c) (Hpos : 0 <= cp_height cp) :
  exists r c' obs, submit (E := Reject) c cp view params = Ok (r, c', obs) /\
    (forall h x, In (h, x) (cps_enforced c') -> In (h, x) (cps_enforced c) \/
       (h = cp_height cp /\ x = cp_hash cp /\ cr_outcome r = CpAdmitted /\
        exists hd, chain !! Z.to_nat h = Some hd /\ hi_hash hd = x)) /\
    (anchor_advanced r = true <->
       cps_anchor c' = Some (MkAnchor (cp_height cp) (cp_hash cp)) /\ cps_anchor c <> cps_anchor c').
Proof.
  destruct (submit_spec (E := Reject) c cp view chain params HV W Hpos) as (r & c' & obs & H & He).
  exists r, c', obs. split; [done|]. split; [|apply He]. intros h x Hh.
  destruct (se_new _ _ _ _ _ _ He h x Hh) as [?|(? & ? & _ & ? & ?)]; [by left|by right].
Qed.
End Store.

(** A verifier that accepts one signature, and one authority. *)
Definition toy_ed25519 : Ed25519 :=
  {| VerifyingKey := bytes; vk_from_bytes k := Some k; verify_strict k m s := bytes_eqb s [1] |}.
Definition toy_params : ChainParams :=
  let d := ChainParams_default in
  MkChainParams (profile d) (network d) (pow_limit d) (genesis_bits d) (asert_anchor_interval d) (author_pubkey d)
    [[7]] 1 (max_reorg_depth d) (sync_window_secs d) (pow_budget_micros d) (pow_budget_window_ms d)
    (pow_budget_burst_micros d) (max_duplicates_per_batch d) (max_duplicates_per_window d) (duplicate_window_secs d)
    (max_peers d) (cpu_pool_threads d) (child_pow_failures_per_source d) (child_quota_window_secs d) (max_sources d)
    (max_side_headers d) (max_staged_headers d) (negative_cache_entries d) (reorg_overlay_max_accounts d) (mempool d).
Definition toy_cp : SignedCheckpoint := MkSignedCheckpoint 1 (hi_hash (sample_header 1 7)) [MkCheckpointSig [7] [1]].

Lemma cps_new_wf {ED : Ed25519} params : cps_wf params Checkpoints_new.
Proof. constructor; cbn; [constructor|by intros h x []|done]. Qed.

Lemma submit_enforces_only_held_witness :
  exists c', submit (ED := toy_ed25519) (E := Reject) Checkpoints_new toy_cp (MkListChain sample_chain) toy_params =
      Ok (MkCheckpointReport CpAdmitted true, c', []) /\ cps_enforced c' = [(1, hi_hash (sample_header 1 7))].
Proof.
  destruct (submit_enforces_only_held (ED := toy_ed25519) (MkListChain sample_chain) sample_chain Checkpoints_new toy_cp toy_params)
    as (r & c' & obs & H & _).
  - apply list_chain_view_of, sample_chain_wf.
  - apply cps_new_wf.
  - discriminate.
  - exists c'. rewrite H. vm_compute in H. injection H as <- <- <-. split; reflexivity.
Defined.

Lemma checkpoint_state_safe_witness :
  exists c', rtc (cps_step (ED := toy_ed25519) toy_params) Checkpoints_new c' /\ anchor_height_of c' = 1 /\
    cps_wf (ED := toy_ed25519) toy_params c'.
Proof.
  assert (rtc (cps_step (ED := toy_ed25519) toy_params) Checkpoints_new
    (snd (load_anchor (ED := toy_ed25519) Checkpoints_new toy_cp toy_params))) as Hr.
  { apply rtc_once. apply (step_load (ED := toy_ed25519) _ _ toy_cp true); [discriminate|vm_compute; reflexivity]. }
  eexists. split; [exact Hr|]. split; [vm_compute; reflexivity|].
  exact (proj1 (checkpoint_state_safe (ED := toy_ed25519) toy_params Checkpoints_new _ (cps_new_wf toy_params) Hr)).
Defined.
