(* ===== verification/BodyEquiv.v ===== *)
(** Validation as a function of the accounts. The overlay of state.rs caches what
    it reads and sits on a store that can be at any height, so two runs of
    [validate_block_body] on the same block never start from equal overlays.
    Here the overlays are compared by the accounts they show: every operation
    respects that equivalence, hence validation computes a function of the
    accounts ([block_post]) that each run refines. *)

From Stdlib Require Import ZArith Lia List String.
From stdpp Require Import base list gmap numbers.
From S2P Require Import Prelude Constants Work Rules Codec Crypto Merkle TxRules ChainTypes State Body.
Open Scope Z_scope.

(** ** Outcomes related pointwise *)
Inductive orel {E A B} (R : A -> B -> Prop) : outcome E A -> outcome E B -> Prop :=
| orel_ok a b : R a b -> orel R (Ok a) (Ok b)
| orel_err e : orel R (Err e) (Err e)
| orel_panic : orel R Panic Panic.
#[local] Hint Constructors orel : core.

Lemma orel_bind {E A B A' B'} (R : A -> B -> Prop) (S : A' -> B' -> Prop) (m : outcome E A) (n : outcome E B) k l :
  orel R m n -> (forall a b, R a b -> orel S (k a) (l b)) -> orel S (obind m k) (obind n l).
Proof. intros [a b H|e|] Hk; cbn; auto. Qed.

Lemma orel_same {E A A' B'} (S : A' -> B' -> Prop) (m : outcome E A) k l :
  (forall a, m = Ok a -> orel S (k a) (l a)) -> orel S (obind m k) (obind m l).
Proof. destruct m; cbn; auto. Qed.

Lemma orel_eq {E A} (m n : outcome E A) : orel eq m n <-> m = n.
Proof. split; [by intros [? ? ->| |]|intros ->; destruct n; auto]. Qed.

(** Compares two runs of the same code step by step. *)
Ltac orel_step :=
  lazymatch goal with
  | |- orel _ (obind ?m _) (obind ?m _) => apply orel_same; intros ? ?
  | |- orel _ (if ?b then _ else _) (if ?b then _ else _) => destruct b; [constructor|]
  end.

(** ** Overlays that show the same accounts and carry the same log *)
Record same_state (a1 a2 : Address -> Account) (o1 o2 : Overlay) : Prop := {
  ss_view : forall x, view a1 o1 x = view a2 o2 x;
  ss_undo : ov_undo o1 = ov_undo o2;
  ss_order : ov_order o1 = ov_order o2;
}.

Section Same.
Context (a1 a2 : Address -> Account).
Abbreviation same := (same_state a1 a2).

Lemma begin_block_same o1 o2 :
  (forall x, view a1 o1 x = view a2 o2 x) -> same (Overlay_begin_block o1) (Overlay_begin_block o2).
Proof. by constructor. Qed.

Lemma get_same o1 o2 x : same o1 o2 ->
  exists acct o1' o2', Overlay_get a1 o1 x = (acct, o1') /\ Overlay_get a2 o2 x = (acct, o2') /\ same o1' o2'.
Proof.
  intros [Hv Hu Ho]. pose proof (get_fst a1 o1 x) as F1. pose proof (get_fst a2 o2 x) as F2.
  destruct (get_log a1 o1 x) as [U1 O1]. destruct (get_log a2 o2 x) as [U2 O2].
  pose proof (get_view a1 o1 x) as V1. pose proof (get_view a2 o2 x) as V2.
  destruct (Overlay_get a1 o1 x) as [acct o1'], (Overlay_get a2 o2 x) as [acct2 o2']. cbn [fst snd] in *.
  exists acct, o1', o2'. split; [done|]. split; [f_equal; congruence|]. constructor; [|congruence..].
  intros y. by rewrite V1, V2.
Qed.

Lemma capture_same o1 o2 x : same o1 o2 -> same (Overlay_capture a1 o1 x) (Overlay_capture a2 o2 x).
Proof.
  intros Hs. unfold Overlay_capture. rewrite (ss_undo _ _ _ _ Hs). destruct (ov_undo o2 !! x); [done|].
  destruct (get_same o1 o2 x Hs) as (acct & o1' & o2' & -> & -> & [V U O]). constructor; cbn; [exact V|by rewrite U|by rewrite O].
Qed.

Lemma set_same o1 o2 x a : same o1 o2 -> same (Overlay_set a1 o1 x a) (Overlay_set a2 o2 x a).
Proof.
  intros Hs. pose proof (capture_same o1 o2 x Hs) as [V U O]. constructor; [|exact U|exact O].
  intros y. rewrite !set_view. unfold upd. destruct (decide _); [done|]. apply Hs.
Qed.

Lemma credit_same o1 o2 x amount : same o1 o2 ->
  orel same (Overlay_credit a1 o1 x amount) (Overlay_credit a2 o2 x amount).
Proof.
  intros Hs. unfold Overlay_credit. destruct (get_same o1 o2 x Hs) as (acct & o1' & o2' & -> & -> & Hs').
  orel_step. constructor. by apply set_same.
Qed.

Lemma undo_records_same {E} o1 o2 : same o1 o2 -> Overlay_undo_records (E := E) o1 = Overlay_undo_records o2.
Proof. intros [_ U O]. unfold Overlay_undo_records. by rewrite U, O. Qed.

Lemma deltas_same o1 o2 : same o1 o2 ->
  exists ds o1' o2', Overlay_deltas a1 o1 = (ds, o1') /\ Overlay_deltas a2 o2 = (ds, o2') /\ same o1' o2'.
Proof.
  intros [V U O]. unfold Overlay_deltas. rewrite O.
  pose proof (deltas_loop_spec a1 (ov_order o2) o1) as D1. pose proof (deltas_loop_spec a2 (ov_order o2) o2) as D2.
  destruct (deltas_loop a1 o1 _) as [ds1 o1'], (deltas_loop a2 o2 _) as [ds2 o2'].
  destruct D1 as (-> & V1 & U1 & O1), D2 as (-> & V2 & U2 & O2). eexists _, o1', o2'. split; [done|]. split.
  - f_equal. apply list_fmap_ext. intros i x _. by rewrite V.
  - constructor; [|congruence..]. intros x. by rewrite V1, V2.
Qed.

(** ** The validation of a block *)
Context `{Ed25519}.
Definition same_tx : Overlay * Hash32 * (Address * Z) -> Overlay * Hash32 * (Address * Z) -> Prop :=
  fun r1 r2 => same (fst (fst r1)) (fst (fst r2)) /\ snd (fst r1) = snd (fst r2) /\ snd r1 = snd r2.

Lemma apply_transfer_same ledger height i o1 o2 t : same o1 o2 ->
  orel same_tx (apply_transfer a1 ledger height i o1 t) (apply_transfer a2 ledger height i o2 t).
Proof.
  intros Hs. unfold apply_transfer. orel_step. cbv zeta.
  destruct (get_same o1 o2 (address_payload (t_from_pub t)) Hs) as (acct & o1' & o2' & -> & -> & Hs').
  do 5 orel_step. eapply orel_bind; [apply credit_same; by apply set_same|]. intros p q Hpq. by constructor.
Qed.

Lemma apply_announcement_same ledger height i o1 o2 a : same o1 o2 ->
  orel same_tx (apply_announcement_tx a1 ledger height i o1 a) (apply_announcement_tx a2 ledger height i o2 a).
Proof.
  intros Hs. unfold apply_announcement_tx. cbv zeta.
  destruct (get_same o1 o2 (address_payload (a_from_pub a)) Hs) as (acct & o1' & o2' & -> & -> & Hs').
  do 3 orel_step. constructor. split; [|done]. by apply set_same.
Qed.

Lemma apply_tx_same ledger height i o1 o2 tx : same o1 o2 ->
  orel same_tx (apply_tx a1 ledger height i o1 tx) (apply_tx a2 ledger height i o2 tx).
Proof.
  destruct tx; intros Hs; cbn [apply_tx]; [constructor|by apply apply_transfer_same|by apply apply_announcement_same].
Qed.

Definition same_txs : Overlay * list Hash32 * list (Address * Z) -> Overlay * list Hash32 * list (Address * Z) -> Prop :=
  fun r1 r2 => same (fst (fst r1)) (fst (fst r2)) /\ snd (fst r1) = snd (fst r2) /\ snd r1 = snd r2.

Lemma apply_txs_same ledger height txs : forall i o1 o2, same o1 o2 ->
  orel same_txs (apply_txs a1 ledger height i o1 txs) (apply_txs a2 ledger height i o2 txs).
Proof.
  induction txs as [|tx txs IH]; intros i o1 o2 Hs; cbn [apply_txs]; [by constructor|].
  eapply orel_bind; [by apply apply_tx_same|]. intros [[p1 id1] sp1] [[p2 id2] sp2] (Hp & Hid & Hsp). cbn in Hp, Hid, Hsp. subst.
  eapply orel_bind; [by apply IH|]. intros [[q1 ids1] sps1] [[q2 ids2] sps2] (Hq & Hids & Hsps). cbn in Hq, Hids, Hsps. subst.
  by constructor.
Qed.

Definition same_block (r1 r2 : ValidatedBlock * Overlay * CoinbaseLedger) : Prop :=
  fst (fst r1) = fst (fst r2) /\ same (snd (fst r1)) (snd (fst r2)) /\ snd r1 = snd r2.

Lemma validate_same o1 o2 ledger header raw params trust :
  (forall x, view a1 o1 x = view a2 o2 x) ->
  orel same_block (validate_block_body a1 o1 ledger header raw params trust)
    (validate_block_body a2 o2 ledger header raw params trust).
Proof.
  intros Hv. unfold validate_block_body. do 3 orel_step. orel_step. do 4 orel_step. cbv zeta.
  eapply orel_bind; [by apply credit_same, begin_block_same|]. intros p q Hpq. orel_step.
  eapply orel_bind; [by apply apply_txs_same|]. intros [[p1 ids1] sps1] [[q1 ids2] sps2] (Hq & Hids & Hsps).
  cbn in Hq, Hids, Hsps. subst. rewrite (undo_records_same _ _ Hq). orel_step.
  destruct (deltas_same _ _ Hq) as (ds & p2 & q2 & -> & -> & Hs2). by constructor.
Qed.
End Same.

(** ** Validation as a state transformer *)
Section Post.
Context `{Ed25519}.

(** The block's effect on the accounts [f], computed on an empty overlay. *)
Definition block_post (f : Address -> Account) (ledger : CoinbaseLedger) (header : Header) (raw : bytes)
    (params : ChainParams) (trust : Trust) : outcome Reject (ValidatedBlock * (Address -> Account) * CoinbaseLedger) :=
  let? r := validate_block_body f (Overlay_new 0) ledger header raw params trust in
  let '(vb, o, l) := r in Ok (vb, view f o, l).

(** [f] is the accounts before the block and [g] the accounts after it. *)
Definition refines_post (account : Address -> Account) (r : outcome Reject (ValidatedBlock * Overlay * CoinbaseLedger))
    (s : outcome Reject (ValidatedBlock * (Address -> Account) * CoinbaseLedger)) : Prop :=
  orel (fun r s => fst (fst r) = fst (fst s) /\ (forall x, view account (snd (fst r)) x = snd (fst s) x) /\ snd r = snd s) r s.

Lemma validate_refines_post account o f ledger header raw params trust :
  (forall x, view account o x = f x) ->
  refines_post account (validate_block_body account o ledger header raw params trust)
    (block_post f ledger header raw params trust).
Proof.
  intros Hv. unfold refines_post, block_post.
  destruct (validate_same account f o (Overlay_new 0) ledger header raw params trust Hv)
    as [[[vb1 o1] l1] [[vb2 o2] l2] (H1 & [H2 _ _] & H3)|e|]; cbn in *; subst; by constructor.
Qed.

Lemma refines_post_ok account vb o l s : refines_post account (Ok (vb, o, l)) s ->
  exists f, s = Ok (vb, f, l) /\ forall x, view account o x = f x.
Proof.
  unfold refines_post. intros Hr. inversion Hr as [? [[vb2 f] l2] (H1 & H2 & H3)| |]. cbn in *. subst. eauto.
Qed.
Lemma post_refined_ok account vb f l r : refines_post account r (Ok (vb, f, l)) ->
  exists o, r = Ok (vb, o, l) /\ forall x, view account o x = f x.
Proof.
  unfold refines_post. intros Hr. inversion Hr as [[[vb2 o] l2] ? (H1 & H2 & H3)| |]. cbn in *. subst. eauto.
Qed.

(** Validating a block computes a function of the accounts: [block_post],
    which takes the accounts before the block to its verdict, its report (deltas,
    undo records, issuance, transaction ids, spent nonces) and the accounts after
    it. Every run, whatever the overlay has cached and whatever height the store
    under it is at, refuses with the same reason or accepts with the same report
    and leaves exactly those accounts; so a branch is judged the same when it
    extends the tip, when it is replayed from undo records and when it is replayed
    from a snapshot. *)
Theorem validate_is_function_of_accounts account o f ledger header raw params trust
    (Hv : forall x, view account o x = f x) :
  (forall e, validate_block_body account o ledger header raw params trust = Err e <->
     block_post f ledger header raw params trust = Err e) /\
  (forall vb o' l, validate_block_body account o ledger header raw params trust = Ok (vb, o', l) ->
     exists f', block_post f ledger header raw params trust = Ok (vb, f', l) /\ forall x, view account o' x = f' x) /\
  (forall vb f' l, block_post f ledger header raw params trust = Ok (vb, f', l) ->
     exists o', validate_block_body account o ledger header raw params trust = Ok (vb, o', l) /\ forall x, view account o' x = f' x).
Proof.
  pose proof (validate_refines_post account o f ledger header raw params trust Hv) as Hr. split; [|split].
  - unfold refines_post in Hr. intros e. inversion Hr; split; congruence.
  - intros vb o' l Ho. rewrite Ho in Hr. by apply refines_post_ok.
  - intros vb f' l Hp. rewrite Hp in Hr. by apply post_refined_ok.
Qed.
End Post.

(** ** Replaying an accepted block

    A replay validates with [OurStore] and a throwaway ledger: it skips the
    signatures and sees no coinbase but the block's own. *)
Definition credits_ok (l : CoinbaseLedger) : Prop := Forall (fun e => 0 <= snd e) l.
Definition ledger_le (l1 l2 : CoinbaseLedger) : Prop := forall a h, immature_at l1 a h <= immature_at l2 a h.

Lemma immature_sum_app l1 l2 a h : immature_sum (l1 ++ l2) a h = immature_sum l1 a h + immature_sum l2 a h.
Proof. unfold immature_sum. induction l1 as [|e l1 IH]; cbn; [done|]. rewrite IH. lia. Qed.

Lemma immature_sum_nonneg l a h : credits_ok l -> 0 <= immature_sum l a h.
Proof.
  unfold immature_sum, immature_credit. induction 1 as [|e l He Hl IH]; cbn; [done|]. destruct (_ && _); lia.
Qed.

Lemma ledger_le_app l1 l2 : credits_ok l1 -> credits_ok l2 -> ledger_le l2 (l1 ++ l2).
Proof.
  intros H1 H2 a h. rewrite !immature_at_spec; [|by apply Forall_app|done]. rewrite immature_sum_app.
  pose proof (immature_sum_nonneg l1 a h H1). lia.
Qed.

Lemma spendable_le l1 l2 a b h : ledger_le l1 l2 -> ledger_spendable l2 a b h <= ledger_spendable l1 a b h.
Proof. intros Hl. specialize (Hl a h). unfold ledger_spendable, spendable_balance, saturating_sub. lia. Qed.

Section Replay.
Context `{Ed25519} (account : Address -> Account).

Lemma check_signatures_our_store params txs : forall i,
  check_signatures params Untrusted i txs = Ok tt -> check_signatures params OurStore i txs = Ok tt.
Proof.
  induction txs as [|tx txs IH]; intros i Hs; cbn [check_signatures] in *; [done|]. step_in Hs. apply IH in Hs.
  destruct tx as [c|t|ann]; cbn [obind]; [done..|]. apply map_err_ok in E. unfold check_announcement_stateless in E.
  step_in E. done.
Qed.

Lemma apply_tx_less_ledger l1 l2 height i o tx r :
  ledger_le l1 l2 -> apply_tx account l2 height i o tx = Ok r -> apply_tx account l1 height i o tx = Ok r.
Proof.
  intros Hl Ha. destruct tx as [c|t|a]; cbn [apply_tx] in *; [done| |].
  - unfold apply_transfer in *. step_in Ha. cbv zeta in *. destruct (Overlay_get account o _) as [acct o1].
    step_in Ha. step_in Ha. cbn [obind]. step_in Ha.
    pose proof (spendable_le l1 l2 (address_payload (t_from_pub t)) (acc_balance acct) height Hl) as Hsp.
    rewrite (proj2 (Z.ltb_ge _ _)) by (to_prop; lia). exact Ha.
  - unfold apply_announcement_tx in *. cbv zeta in *. destruct (Overlay_get account o _) as [acct o1].
    step_in Ha. apply map_err_ok in E. unfold check_announcement_stateful in *. steps_in E.
    pose proof (spendable_le l1 l2 (address_payload (a_from_pub a)) (acc_balance acct) height Hl) as Hsp.
    rewrite (proj2 (Z.ltb_ge _ (a_fee a))) by (to_prop; lia). exact Ha.
Qed.

Lemma apply_txs_less_ledger l1 l2 height txs : ledger_le l1 l2 -> forall i o r,
  apply_txs account l2 height i o txs = Ok r -> apply_txs account l1 height i o txs = Ok r.
Proof.
  intros Hl. induction txs as [|tx txs IH]; intros i o r Ha; cbn [apply_txs] in *; [done|].
  step_in Ha. rewrite (apply_tx_less_ledger l1 l2 height i o tx _ Hl E). cbn [obind]. destruct a as [[o1 id] sp].
  step_in Ha. rewrite (IH _ _ _ E0). exact Ha.
Qed.

Lemma replay_lemma o ledger header raw params vb o' ledger' : credits_ok ledger -> bytes_ok raw ->
  validate_block_body account o ledger header raw params Untrusted = Ok (vb, o', ledger') ->
  exists e, ledger' = ledger ++ [e] /\ 0 <= snd e /\
    validate_block_body account o CoinbaseLedger_new header raw params OurStore = Ok (vb, o', [e]).
Proof.
  intros Hc Hb Hv. unfold validate_block_body in Hv |- *. do 5 (step_in Hv; cbn [obind]).
  destruct a2. rewrite (check_signatures_our_store _ _ _ E2). cbn [obind]. do 3 (step_in Hv; cbn [obind]). cbv zeta in *.
  do 2 (step_in Hv; cbn [obind]). unfold CoinbaseLedger_push, CoinbaseLedger_new in *. cbn [app].
  assert (0 <= a4) as Hpos.
  { apply map_err_ok in E5. unfold coinbase_credit in E5. apply ok_or_ok, checked_add_some in E5. lia. }
  assert (credits_ok [(h_height header, c_to a1, a4)]) as Hce by (repeat constructor; exact Hpos).
  step_in Hv. rewrite (apply_txs_less_ledger [(h_height header, c_to a1, a4)] (ledger ++ [(h_height header, c_to a1, a4)])
    _ _ (ledger_le_app ledger _ Hc Hce) _ _ _ E8).
  cbn [obind]. destruct a7 as [[o2 ids] sps]. step_in Hv. cbn [obind].
  destruct (Overlay_deltas account o2) as [ds o3]. apply Ok_inj in Hv. injection Hv as <- <- <-.
  exists (h_height header, c_to a1, a4). split; [done|]. split; [done|]. done.
Qed.

(** Replaying an accepted block always succeeds and reproduces it: if a body
    was accepted from the network against any ledger of coinbases, validating it
    again as our own (no signature checks, an empty throwaway ledger) on the same
    accounts is accepted with the same report and the same resulting accounts. *)
Theorem replay_reproduces_accepted_block o ledger header raw params vb o' ledger'
    (Hc : credits_ok ledger) (Hb : bytes_ok raw)
    (Hv : validate_block_body account o ledger header raw params Untrusted = Ok (vb, o', ledger')) :
  exists l, validate_block_body account o CoinbaseLedger_new header raw params OurStore = Ok (vb, o', l).
Proof. destruct (replay_lemma _ _ _ _ _ _ _ _ Hc Hb Hv) as (e & _ & _ & Hr). eauto. Qed.
End Replay.

#[local] Existing Instance toy_ed25519.

(** An overlay that has already read an account. *)
Lemma validate_is_function_of_accounts_witness :
  exists vb f' l, block_post toy_account [] toy_header toy_body ChainParams_default Untrusted = Ok (vb, f', l) /\
   exists o2', validate_block_body toy_account (snd (Overlay_get toy_account (Overlay_new 3) [1])) [] toy_header toy_body
     ChainParams_default Untrusted = Ok (vb, o2', l) /\ forall x, view toy_account o2' x = f' x.
Proof.
  destruct toy_result_ok as (vb & o' & l & Hr).
  destruct (refines_post_ok toy_account vb o' l (block_post toy_account [] toy_header toy_body ChainParams_default Untrusted)) as (f' & Hp & _).
  { rewrite <-Hr. apply validate_refines_post. intros x. reflexivity. }
  exists vb, f', l. split; [exact Hp|].
  destruct (validate_is_function_of_accounts toy_account (snd (Overlay_get toy_account (Overlay_new 3) [1])) toy_account []
    toy_header toy_body ChainParams_default Untrusted) as (_ & _ & Hw).
  - intros x. rewrite get_view. reflexivity.
  - exact (Hw vb f' l Hp).
Defined.

Lemma replay_reproduces_accepted_block_witness :
  exists vb o' l, validate_block_body toy_account (Overlay_new 100) [] toy_header toy_body ChainParams_default OurStore = Ok (vb, o', l).
Proof.
  destruct toy_result_ok as (vb & o' & l & Hr). exists vb, o'.
  apply (replay_reproduces_accepted_block toy_account (Overlay_new 100) [] toy_header toy_body ChainParams_default vb o' l).
  - apply List.Forall_nil.
  - exact toy_body_ok.
  - exact Hr.
Defined.
