(* ===== verification/Reorg.v ===== *)
(** Rewinding to a fork and validating a branch (src/lib/chain/src/reorg.rs):
    undo records when the store holds them all, snapshot and replay otherwise,
    the ledger of immature coinbases at the fork, then the branch's bodies one
    after the other. The store is the trait of traits.rs, a record of its
    queries. The theorems relate the result to the history of account states the
    store was written from. *)

From Stdlib Require Import ZArith Lia List String.
From stdpp Require Import base list gmap numbers.
From S2P Require Import Prelude Constants Work Rules Codec Crypto Merkle TxRules ChainTypes State Body BodyEquiv.
Open Scope Z_scope.

(** ** The store *)
Record Store := MkStore {
  st_tip : TipRef;
  st_header_at : Z -> option HeaderRec;
  st_header_by_hash : Hash32 -> option HeaderRec;
  st_hash_at : Z -> option Hash32;
  st_body_at : Z -> option bytes;
  st_body_by_hash : Hash32 -> option bytes;
  st_account : Address -> Account;
  st_undo_at : Z -> option (list UndoRec);
  st_undo_floor : Z;
  st_replay_floor : Z;
  st_checkpoint_at_or_below : Z -> option Z;
  st_state_snapshot : Z -> option (list (Address * Account));
  st_issued : Z;
  st_is_invalid : Hash32 -> bool;
}.

Inductive Base := UndoWindow | DeepReplay (rewind_to : Z).

(** Code that reports conditions to an observer before it returns. *)
Abbreviation observed A := (list Condition * outcome Reject A)%type.

(** ** The ledger of the last maturity window *)
Definition ledger_step (st : Store) (ledger : CoinbaseLedger) (h : Z) : outcome Reject CoinbaseLedger :=
  match st_body_at st h with
  | None => Ok ledger
  | Some raw =>
    match BlockBody_parse raw with
    | Ok body =>
      match decode_tx <$> (BlockBody_all_bytes body) !! 0%nat with
      | Some (Ok (Coinbase cb)) =>
        let? credit := map_err (fun _ => ArithmeticOverflow) (coinbase_credit cb) in
        Ok (CoinbaseLedger_push ledger h (c_to cb) credit)
      | _ => Ok ledger
      end
    | _ => Ok ledger
    end
  end.
Definition build_ledger (st : Store) (at_ : Z) : outcome Reject CoinbaseLedger :=
  ofold (ledger_step st) CoinbaseLedger_new (zrange (saturating_sub at_ (COINBASE_MATURITY - 1)) (at_ + 1)).

Section Reorg.
Context `{Ed25519} (st : Store) (params : ChainParams).
Abbreviation account := (st_account st).

Definition resync {A} (fork_height : Z) : outcome Reject A := Err (ResyncRequired fork_height (st_replay_floor st)).

(** The heights above the fork, as [fork_height + 1 ..= tip_height]. *)
Definition above_fork (fork_height tip_height : Z) : list Z := zrange (fork_height + 1) (tip_height + 1).
Definition have_all_undo (fork_height tip_height : Z) : bool :=
  forallb (fun h => bool_decide (is_Some (st_undo_at st h))) (rev (above_fork fork_height tip_height)).

Definition undo_step (o : Overlay) (h : Z) : outcome Reject Overlay :=
  let? recs := expect (st_undo_at st h) in Ok (Overlay_apply_undo o recs).

(** One block of the replay, validated against our own store with a throwaway
    ledger. *)
Definition replay_step (chainwork_at : Z -> Work) (fork_height : Z) (s : Overlay * list CommitBlock) (h : Z)
    : outcome Reject (Overlay * list CommitBlock) :=
  let '(o, out) := s in
  let? raw := ok_or (st_body_at st h) (ResyncRequired fork_height (st_replay_floor st)) in
  let? rec := ok_or (st_header_at st h) (ResyncRequired fork_height (st_replay_floor st)) in
  let? hdr := HeaderRec_header rec in
  let? r := map_err (BranchInvalid h (hr_hash rec))
              (validate_block_body account o CoinbaseLedger_new hdr raw params OurStore) in
  let '(v, o, _) := r in
  Ok (o, out ++ [MkCommitBlock (hr_raw rec) (hr_hash rec) h raw (vb_deltas v) (vb_undo v) (vb_issued_delta v)
                   (chainwork_at h) (vb_txids v)]).

Definition deep_replay (o : Overlay) (fork_height : Z) (chainwork_at : Z -> Work)
    : observed (Base * Overlay * list CommitBlock) :=
  match st_checkpoint_at_or_below st fork_height with
  | None => ([], resync fork_height)
  | Some rewind_to =>
    if rewind_to <? st_replay_floor st
    then ([CResyncRequired fork_height (st_replay_floor st)], resync fork_height)
    else
      match st_state_snapshot st rewind_to with
      | None => ([], resync fork_height)
      | Some snapshot =>
        match (let? _ := add_checked 64 rewind_to 1 in
               ofold (replay_step chainwork_at fork_height) (Overlay_seed o snapshot, [])
                 (above_fork rewind_to fork_height)) with
        | Ok (o, replayed) =>
          ([CDeepReplay rewind_to fork_height (Zlen replayed)], Ok (DeepReplay rewind_to, o, replayed))
        | Err e => ([], Err e)
        | Panic => ([], Panic)
        end
      end
  end.

(** The overlay, the ledger and the replayed blocks are the function's out
    parameters; the base is its result. *)
Definition rewind_to_fork (o : Overlay) (tip_height fork_height : Z) (chainwork_at : Z -> Work)
    : observed (Base * Overlay * CoinbaseLedger * list CommitBlock) :=
  let '(obs, r) :=
    if negb (fits 64 (fork_height + 1)) then ([], Panic)
    else if have_all_undo fork_height tip_height
    then ([], let? o := ofold undo_step o (rev (above_fork fork_height tip_height)) in Ok (UndoWindow, o, []))
    else deep_replay o fork_height chainwork_at in
  (obs,
   let? r := r in
   let '(base, o, replayed) := r in
   let? ledger := build_ledger st fork_height in
   Ok (base, o, ledger, replayed)).

(** ** The branch *)
Fixpoint validate_branch_loop (o : Overlay) (ledger : CoinbaseLedger) (branch : list (HeaderRec * bytes)) (i : Z)
    (base_chainwork_of : Z -> Work) (reported : bool)
    : observed (list CommitBlock * list (Address * Z) * Overlay * CoinbaseLedger) :=
  match branch with
  | [] => ([], Ok ([], [], o, ledger))
  | (rec, raw) :: branch =>
    match (let? hdr := HeaderRec_header rec in validate_block_body account o ledger hdr raw params Untrusted) with
    | Err cause => ([CBranchInvalidAt (hr_height rec) (hr_hash rec)], Err (BranchInvalid (hr_height rec) (hr_hash rec) cause))
    | Panic => ([], Panic)
    | Ok (v, o, ledger) =>
      let report := Overlay_exhausted o && negb reported in
      let '(obs, r) := validate_branch_loop o ledger branch (i + 1) base_chainwork_of (reported || report) in
      ((if report then [CReorgOverlayExhausted (Overlay_len o)] else []) ++ obs,
       let? r := r in
       let '(out, spent, o, ledger) := r in
       Ok (MkCommitBlock (hr_raw rec) (hr_hash rec) (hr_height rec) raw (vb_deltas v) (vb_undo v) (vb_issued_delta v)
             (base_chainwork_of i) (vb_txids v) :: out,
           vb_spent_nonces v ++ spent, o, ledger))
    end
  end.
Definition validate_branch (o : Overlay) (ledger : CoinbaseLedger) (branch : list (HeaderRec * bytes))
    (base_chainwork_of : Z -> Work) : observed (list CommitBlock * list (Address * Z) * Overlay * CoinbaseLedger) :=
  validate_branch_loop o ledger branch 0 base_chainwork_of false.

(** ** Taking blocks back *)

(** [recs] lists, once each, the accounts in which [f] and [g] may differ, with
    their value in [f]. *)
Record undo_of (recs : list UndoRec) (f g : Address -> Account) : Prop := {
  uo_nodup : List.NoDup (u_addr <$> recs);
  uo_rec : Forall (fun r => undo_account r = f (u_addr r)) recs;
  uo_rest : forall x, ~ In x (u_addr <$> recs) -> f x = g x;
}.

Lemma validated_undo_of o ledger header raw trust vb o' ledger' : bytes_ok raw ->
  validate_block_body account o ledger header raw params trust = Ok (vb, o', ledger') ->
  undo_of (vb_undo vb) (view account o) (view account o').
Proof.
  intros Hb Hv. apply validate_effect in Hv as [_ H2 H3 _ _ _ _]; [|done].
  destruct (undo_records_spec (E := Reject) account _ _ H2) as (recs & Hr & Ha & Hf).
  rewrite H3 in Hr. apply Ok_inj in Hr as <-. constructor; [rewrite Ha; apply H2|done|].
  intros x Hx. rewrite Ha in Hx. symmetry. by apply (li_rest _ _ _ H2).
Qed.

Lemma apply_undo_of recs f g o : undo_of recs f g -> (forall x, view account o x = g x) ->
  forall x, view account (Overlay_apply_undo o recs) x = f x.
Proof.
  intros [Hn Hr Hx] Hv x. rewrite apply_undo_view by done. destruct (List.find _ recs) as [r|] eqn:E.
  - apply find_some in E as [Hin Heq]. apply bool_decide_eq_true in Heq as <-.
    by apply (proj1 (List.Forall_forall _ _) Hr).
  - rewrite Hv. symmetry. apply Hx. intros Hin. apply list_elem_of_In, list_elem_of_fmap in Hin as (r & -> & Hin).
    apply list_elem_of_In in Hin. apply (find_none _ _ E) in Hin. by rewrite bool_decide_eq_false in Hin.
Qed.

(** ** Accounts under the deltas of a block *)
Definition apply_deltas (f : Address -> Account) (ds : list StateDelta) : Address -> Account :=
  fold_left (fun f d => upd f (d_addr d) (MkAccount (d_balance d) (d_nonce d))) ds f.

Lemma apply_deltas_cons f d ds :
  apply_deltas f (d :: ds) = apply_deltas (upd f (d_addr d) (MkAccount (d_balance d) (d_nonce d))) ds.
Proof. done. Qed.

Lemma apply_deltas_rest ds : forall f x, x ∉ d_addr <$> ds -> apply_deltas f ds x = f x.
Proof.
  induction ds as [|d ds IH]; intros f x Hx; [done|]. cbn in Hx. apply not_elem_of_cons in Hx as [H1 H2].
  rewrite apply_deltas_cons, IH by done. unfold upd. by rewrite decide_False.
Qed.

Lemma apply_deltas_is ds g : forall f, NoDup (d_addr <$> ds) ->
  Forall (fun d => g (d_addr d) = MkAccount (d_balance d) (d_nonce d)) ds ->
  (forall x, x ∉ d_addr <$> ds -> f x = g x) -> forall x, apply_deltas f ds x = g x.
Proof.
  induction ds as [|d ds IH]; intros f Hn Hd Hr x; [by apply Hr, not_elem_of_nil|].
  cbn in Hn. apply list.NoDup_cons in Hn as [Hn1 Hn2]. inversion_clear Hd as [|? ? Hd1 Hd2].
  rewrite apply_deltas_cons. apply IH; [done|done|]. intros y Hy. unfold upd. case_decide as E; [by subst|]. apply Hr. cbn. by apply not_elem_of_cons.
Qed.

(** The block takes the accounts [f] to [g], and says how to take it back. *)
Record block_step (f g : Address -> Account) (cb : CommitBlock) : Prop := {
  bs_undo : undo_of (cb_undo cb) f g;
  bs_deltas : forall x, apply_deltas f (cb_deltas cb) x = g x;
}.

Lemma undo_of_ext recs f g f' g' : (forall x, f' x = f x) -> (forall x, g' x = g x) -> undo_of recs f g -> undo_of recs f' g'.
Proof.
  intros Hf Hg [U1 U2 U3]. constructor; [done| |].
  - eapply List.Forall_impl; [|exact U2]. cbn. intros r ->. by rewrite Hf.
  - intros x Hx. rewrite Hf, Hg. by apply U3.
Qed.

Lemma validated_deltas o ledger header raw trust vb o' ledger' f : bytes_ok raw ->
  validate_block_body account o ledger header raw params trust = Ok (vb, o', ledger') ->
  (forall x, f x = view account o x) -> forall x, apply_deltas f (vb_deltas vb) x = view account o' x.
Proof.
  intros Hb Hv Hf. apply validate_effect in Hv as [_ H2 _ H4 _ _ _]; [|done]. destruct H2 as [N _ _ R].
  assert (d_addr <$> vb_deltas vb = ov_order o') as Ha by (rewrite H4, <-list_fmap_compose; apply list_fmap_id).
  apply apply_deltas_is; rewrite ?Ha.
  - by apply NoDup_ListNoDup.
  - rewrite H4. apply Forall_fmap, Forall_forall. intros a _. cbn. by destruct (view account o' a).
  - intros x Hx. rewrite Hf. symmetry. apply R. by rewrite <-list_elem_of_In.
Qed.

(** ** The branch's effect *)
Definition apply_all_undo (o : Overlay) (undos : list (list UndoRec)) : Overlay := fold_left Overlay_apply_undo undos o.

Record commit_of (rec : HeaderRec) (raw : bytes) (cb : CommitBlock) : Prop := {
  co_raw : cb_header_raw cb = hr_raw rec;
  co_hash : cb_hash cb = hr_hash rec;
  co_height : cb_height cb = hr_height rec;
  co_body : cb_body cb = raw;
  co_aligned : d_addr <$> cb_deltas cb = u_addr <$> cb_undo cb;
  co_nodup : List.NoDup (u_addr <$> cb_undo cb);
}.

Definition header_height_of (rec : HeaderRec) : Z :=
  match HeaderRec_header (E := Reject) rec with Ok h => h_height h | _ => 0 end.
Definition branch_reward (branch : list (HeaderRec * bytes)) : Z :=
  foldr (fun p s => block_reward (header_height_of (fst p)) + s) 0 branch.
Definition issued_sum (out : list CommitBlock) : Z := foldr (fun cb s => cb_issued_delta cb + s) 0 out.

Record branch_effect (o : Overlay) (branch : list (HeaderRec * bytes)) (i : Z) (cw : Z -> Work)
    (out : list CommitBlock) (o' : Overlay) : Prop := {
  bre_commits : Forall2 (fun p cb => commit_of (fst p) (snd p) cb) branch out;
  bre_chainwork : cb_chainwork <$> out = cw <$> zrange i (i + Zlen branch);
  bre_issued : issued_sum out = branch_reward branch;
  bre_undo : forall x, view account (apply_all_undo o' (rev (cb_undo <$> out))) x = view account o x;
  bre_total : exists touched, forall u, List.NoDup u -> (forall a, In a touched -> In a u) ->
    total (view account o') u = total (view account o) u + branch_reward branch;
}.

Lemma apply_all_undo_ext undos : forall o1 o2, (forall x, view account o1 x = view account o2 x) ->
  forall x, view account (apply_all_undo o1 undos) x = view account (apply_all_undo o2 undos) x.
Proof.
  induction undos as [|u undos IH]; intros o1 o2 Hv x; [apply Hv|]. cbn. apply IH. clear -Hv. intros x.
  unfold Overlay_apply_undo, view in *. cbn. revert Hv. generalize (ov_accounts o1) (ov_accounts o2).
  induction u as [|r u IH]; intros m1 m2 Hv; [apply Hv|]. cbn. apply IH. intros y.
  destruct (decide (y = u_addr r)) as [->|Hn]; [by rewrite !lookup_insert_eq|]. rewrite !lookup_insert_ne by done. apply Hv.
Qed.

Lemma validate_branch_effect cw branch : forall o ledger i reported obs out spent o' ledger',
  Forall (fun p => bytes_ok (snd p)) branch ->
  validate_branch_loop o ledger branch i cw reported = (obs, Ok (out, spent, o', ledger')) ->
  branch_effect o branch i cw out o'.
Proof.
  induction branch as [|[rec raw] branch IH]; intros o ledger i reported obs out spent o' ledger' Hb Hv; cbn [validate_branch_loop] in Hv.
  - injection Hv as <- <- <- <- <-. constructor; try done.
    + rewrite zrange_nil by (change (Zlen []) with 0; lia). done.
    + exists []. intros u _ _. cbn. lia.
  - inversion_clear Hb as [|? ? Hb1 Hb2]. cbn in Hb1.
    destruct (HeaderRec_header (E := Reject) rec) as [hdr| |] eqn:Eh; cbn [obind] in Hv; [|discriminate..].
    destruct (validate_block_body account o ledger hdr raw params Untrusted) as [[[v o1] l1]| |] eqn:Ev; [|discriminate..].
    destruct (validate_branch_loop o1 l1 branch _ _ _) as [obs2 r2] eqn:El. injection Hv as <- Hr.
    destruct r2 as [[[[out2 spent2] o2] l2]| |]; [|discriminate..]. cbn [obind] in Hr. apply Ok_inj in Hr. injection Hr as <- <- <- <-.
    apply IH in El as [B1 B2 B3 B4 [touched B5]]; [|done].
    pose proof (validated_undo_of _ _ _ _ _ _ _ _ Hb1 Ev) as Hu.
    apply validate_effect in Ev as [E1 E2 E3 E4 E5 _ _]; [|done].
    assert (branch_reward ((rec, raw) :: branch) = block_reward (h_height hdr) + branch_reward branch) as Hrw.
    { cbn. unfold header_height_of at 1. by rewrite Eh. }
    constructor.
    + constructor; [|done]. constructor; cbn; try done; [|apply Hu].
      destruct (undo_records_spec (E := Reject) account _ _ E2) as (recs & Hr & Ha & _). rewrite E3 in Hr. apply Ok_inj in Hr as <-.
      rewrite Ha, E4, <-list_fmap_compose. apply list_fmap_id.
    + cbn. rewrite Zlen_cons, (zrange_cons i) by (pose proof (Zlen_nonneg branch); lia). cbn. f_equal. rewrite B2. by rewrite Z.add_assoc.
    + rewrite Hrw. cbn. rewrite E1. change (foldr _ 0 out2) with (issued_sum out2). lia.
    + intros x. cbn [fmap list_fmap rev cb_undo]. unfold apply_all_undo. rewrite fold_left_app. cbn [fold_left].
      by apply (apply_undo_of _ _ (view account o1)).
    + exists (ov_order o1 ++ touched). intros u Hu1 Hu2. rewrite Hrw, (B5 u), (E5 u); [lia|done..| |done|].
      * intros a Ha. apply Hu2, in_app_iff. by left.
      * intros a Ha. apply Hu2, in_app_iff. by right.
Qed.

(** ** The history a store was written from

    [states h] is the accounts after block [h]. A store whose tip is at [tip]
    holds a history when its accounts are those of the tip, its undo records take
    each block back, its bodies are blocks that were accepted from the network,
    and its snapshots hold, for the height they are taken at, every account that
    the tip shows differently. *)
Record holds_history (states : Z -> Address -> Account) (tip : Z) : Prop := {
  hh_tip : forall x, account x = states tip x;
  hh_undo : forall h recs, 0 < h <= tip -> st_undo_at st h = Some recs -> undo_of recs (states (h - 1)) (states h);
  hh_block : forall h raw rec, 0 < h <= tip -> st_body_at st h = Some raw -> st_header_at st h = Some rec ->
    bytes_ok raw /\ exists hdr ledger vb f l, HeaderRec_header (E := Reject) rec = Ok hdr /\ credits_ok ledger /\
      block_post (states (h - 1)) ledger hdr raw params Untrusted = Ok (vb, f, l) /\ forall x, f x = states h x;
  hh_snapshot : forall h rows, st_state_snapshot st h = Some rows ->
    List.NoDup (fst <$> rows) /\ (forall a acct, In (a, acct) rows -> states h a = acct) /\
    (forall a, ~ In a (fst <$> rows) -> states tip a = states h a);
  hh_checkpoint : forall h c, st_checkpoint_at_or_below st h = Some c -> 0 <= c <= h;
}.

Lemma undo_loop_view states tip fork : holds_history states tip -> 0 <= fork ->
  forall n t o, n = Z.to_nat (t - fork) -> fork <= t <= tip -> have_all_undo fork t = true ->
  (forall x, view account o x = states t x) ->
  exists o', ofold undo_step o (rev (above_fork fork t)) = Ok o' /\ forall x, view account o' x = states fork x.
Proof.
  intros Hh Hf. induction n as [|n IH]; intros t o Hn Ht Hall Hv.
  - assert (t = fork) as -> by lia. unfold above_fork. rewrite zrange_nil by lia. by exists o.
  - unfold have_all_undo, above_fork in *. rewrite (zrange_snoc (fork + 1) t), rev_app_distr in Hall |- * by lia. cbn [rev app ofold forallb] in *.
    to_prop. match goal with H : is_Some _ |- _ => destruct H as [recs Hr] end. unfold undo_step at 1. rewrite Hr. cbn [expect obind].
    specialize (IH (t - 1) (Overlay_apply_undo o recs)). replace (t - 1 + 1) with t in IH by lia. apply IH; [lia|lia|done|].
    apply (apply_undo_of _ _ (states t)); [|done]. apply (hh_undo _ _ Hh); [lia|done].
Qed.

Lemma seed_view o rows x : List.NoDup (fst <$> rows) ->
  view account (Overlay_seed o rows) x =
  match List.find (fun r => bool_decide (fst r = x)) rows with Some r => snd r | None => account x end.
Proof.
  intros Hn. unfold Overlay_seed, view. cbn.
  assert (forall m : gmap Address Account, default (account x) (fold_left (fun m r => <[fst r := snd r]> m) rows m !! x) =
    match List.find (fun r => bool_decide (fst r = x)) rows with Some r => snd r | None => default (account x) (m !! x) end) as Hg.
  { induction rows as [|r rows IH]; intros m; [done|]. cbn in Hn. inversion_clear Hn as [|? ? Hr Hrs].
    cbn [fold_left List.find]. rewrite IH by done. case_bool_decide as Hx.
    - subst x. assert (List.find (fun r0 => bool_decide (fst r0 = fst r)) rows = None) as ->.
      { destruct (List.find _ rows) as [r'|] eqn:E; [|done]. exfalso.
        apply find_some in E as [Hin Heq]. apply bool_decide_eq_true in Heq. apply Hr. rewrite <-Heq.
        apply list_elem_of_In, list_elem_of_fmap_2, list_elem_of_In, Hin. }
      by rewrite lookup_insert_eq.
    - destruct (List.find _ rows); [done|]. by rewrite lookup_insert_ne. }
  rewrite Hg. by rewrite lookup_empty.
Qed.

Lemma seed_history states tip h rows o : holds_history states tip -> st_state_snapshot st h = Some rows ->
  forall x, view account (Overlay_seed o rows) x = states h x.
Proof.
  intros Hh Hs x. destruct (hh_snapshot _ _ Hh h rows Hs) as (Hn & Hrow & Hrest). rewrite seed_view by done.
  destruct (List.find _ rows) as [[a acct]|] eqn:E.
  - apply find_some in E as [Hin Heq]. apply bool_decide_eq_true in Heq. cbn in Heq. subst a. symmetry. by apply Hrow.
  - rewrite (hh_tip _ _ Hh). apply Hrest. intros Hin. apply list_elem_of_In, list_elem_of_fmap in Hin as (r & -> & Hin).
    apply list_elem_of_In in Hin. apply (find_none _ _ E) in Hin. by rewrite bool_decide_eq_false in Hin.
Qed.

(** A block of the replay: one the store holds, and the step of the history at its height. *)
Definition replayed_block (states : Z -> Address -> Account) (cb : CommitBlock) : Prop :=
  block_step (states (cb_height cb - 1)) (states (cb_height cb)) cb /\
  exists rec, st_header_at st (cb_height cb) = Some rec /\ st_body_at st (cb_height cb) = Some (cb_body cb) /\
    cb_header_raw cb = hr_raw rec /\ cb_hash cb = hr_hash rec.

(** A step of the replay either reproduces the block or asks for a resync. *)
Lemma replay_step_history states tip cw fork o out h : holds_history states tip -> 0 < h <= tip ->
  (forall x, view account o x = states (h - 1) x) ->
  replay_step cw fork (o, out) h = Err (ResyncRequired fork (st_replay_floor st)) \/
  exists o' cb, replay_step cw fork (o, out) h = Ok (o', out ++ [cb]) /\
    (forall x, view account o' x = states h x) /\ cb_height cb = h /\ replayed_block states cb.
Proof.
  intros Hh Hr Hv. unfold replay_step. destruct (st_body_at st h) as [raw|] eqn:Eb; [|by left]. cbn [ok_or obind].
  destruct (st_header_at st h) as [rec|] eqn:Er; [|by left]. cbn [ok_or obind]. right.
  destruct (hh_block _ _ Hh h raw rec Hr Eb Er) as (Hb & hdr & ledger & vb & f & l & Hd & Hc & Hp & Hf).
  rewrite Hd. cbn [obind].
  pose proof (validate_refines_post account o (states (h - 1)) ledger hdr raw params Untrusted Hv) as Href.
  rewrite Hp in Href. apply post_refined_ok in Href as (o1 & He & H2). destruct (replay_lemma _ _ _ _ _ _ _ _ _ Hc Hb He) as (e & _ & _ & Hrep). rewrite Hrep. cbn [map_err obind].
  eexists o1, _. split; [done|]. split; [intros x; by rewrite H2|]. split; [done|]. split; [|by exists rec].
  constructor; cbn [cb_undo cb_deltas cb_height].
  - eapply undo_of_ext; [| |exact (validated_undo_of _ _ _ _ _ _ _ _ Hb He)]; intros x; [by rewrite Hv|by rewrite H2, Hf].
  - intros x. rewrite <-Hf, <-H2. revert x. apply (validated_deltas _ _ _ _ _ _ _ _ _ Hb He). intros x. by rewrite Hv.
Qed.

Lemma replay_loop_history states tip cw fork : holds_history states tip -> fork <= tip ->
  forall n r o out, n = Z.to_nat (fork - r) -> 0 <= r <= fork -> (forall x, view account o x = states r x) ->
  ofold (replay_step cw fork) (o, out) (above_fork r fork) = Err (ResyncRequired fork (st_replay_floor st)) \/
  exists o' out', ofold (replay_step cw fork) (o, out) (above_fork r fork) = Ok (o', out ++ out') /\
    (forall x, view account o' x = states fork x) /\ cb_height <$> out' = above_fork r fork /\ Forall (replayed_block states) out'.
Proof.
  intros Hh Hft. induction n as [|n IH]; intros r o out Hn Hr Hv.
  - right. exists o, []. assert (r = fork) as -> by lia. unfold above_fork. rewrite zrange_nil by lia. by rewrite app_nil_r.
  - unfold above_fork in *. rewrite (zrange_cons (r + 1)) by lia. cbn [ofold].
    replace (forall x, view account o x = states r x) with (forall x, view account o x = states (r + 1 - 1) x) in Hv
      by (by replace (r + 1 - 1) with r by lia).
    destruct (replay_step_history states tip cw fork o out (r + 1) Hh ltac:(lia) Hv) as [->|(o1 & cb & -> & Hv1 & Hcb & Hrb)]; [by left|].
    cbn [obind]. destruct (IH (r + 1) o1 (out ++ [cb]) ltac:(lia) ltac:(lia) Hv1) as [->|(o2 & out2 & -> & Hv2 & Hcb2 & Hrb2)]; [by left|].
    right. exists o2, (cb :: out2). rewrite <-app_assoc. split; [done|]. split; [done|]. split; [cbn; by rewrite Hcb, Hcb2|by constructor].
Qed.

Lemma rewind_history states tip o fork cw : holds_history states tip -> 0 <= fork <= tip -> tip < 2 ^ 64 - 1 ->
  (forall x, view account o x = states tip x) ->
  (snd (rewind_to_fork o tip fork cw) = resync fork /\ have_all_undo fork tip = false) \/
  exists base o' replayed,
    snd (rewind_to_fork o tip fork cw) = (let? ledger := build_ledger st fork in Ok (base, o', ledger, replayed)) /\
    (forall x, view account o' x = states fork x) /\
    match base with
    | UndoWindow => replayed = [] /\ have_all_undo fork tip = true
    | DeepReplay r => 0 <= r <= fork /\ cb_height <$> replayed = above_fork r fork /\ Forall (replayed_block states) replayed
    end.
Proof.
  intros Hh Hf Ht Hv. unfold rewind_to_fork. rewrite (proj2 (fits_spec 64 (fork + 1))) by lia. cbn [negb].
  destruct (have_all_undo fork tip) eqn:Ea.
  - right. destruct (undo_loop_view states tip fork Hh ltac:(lia) _ tip o eq_refl ltac:(lia) Ea Hv) as (o' & -> & Hv').
    exists UndoWindow, o', []. cbn [snd obind]. done.
  - unfold deep_replay. destruct (st_checkpoint_at_or_below st fork) as [r|] eqn:Ec; [|by left].
    apply (hh_checkpoint _ _ Hh) in Ec. destruct (r <? _); [by left|].
    destruct (st_state_snapshot st r) as [rows|] eqn:Es; [|by left].
    unfold add_checked, checked_add, checked. rewrite (proj2 (fits_spec 64 (r + 1))) by lia. cbn [expect obind].
    destruct (replay_loop_history states tip cw fork Hh ltac:(lia) _ r (Overlay_seed o rows) [] eq_refl ltac:(lia)
      (seed_history states tip r rows o Hh Es)) as [->|(o' & out & -> & Hv' & Hcb & Hrb)]; [by left|].
    right. exists (DeepReplay r), o', out. cbn [snd obind app]. done.
Qed.

(** ** Validation of a branch never panics, and blames a block of the branch *)
Lemma validate_branch_total cw branch : forall o ledger i reported,
  Forall (fun p => Zlen (hr_raw (fst p)) = HEADER_BYTES) branch ->
  (exists r, snd (validate_branch_loop o ledger branch i cw reported) = Ok r) \/
  exists pre rec raw cause post, branch = pre ++ (rec, raw) :: post /\
    list.last (fst (validate_branch_loop o ledger branch i cw reported)) = Some (CBranchInvalidAt (hr_height rec) (hr_hash rec)) /\
    snd (validate_branch_loop o ledger branch i cw reported) = Err (BranchInvalid (hr_height rec) (hr_hash rec) cause).
Proof.
  induction branch as [|[rec raw] branch IH]; intros o ledger i reported Hl; cbn [validate_branch_loop]; [by left; eexists|].
  inversion_clear Hl as [|? ? Hl1 Hl2]. cbn in Hl1. destruct (header_decode_total (hr_raw rec) Hl1) as [hdr Hd].
  unfold HeaderRec_header. rewrite Hd. cbn [expect_ok_or_panic obind].
  pose proof (validate_no_panic account o ledger hdr raw params Untrusted) as Hnp.
  destruct (validate_block_body account o ledger hdr raw params Untrusted) as [[[v o1] l1]|cause|]; [| |done].
  - set (report := Overlay_exhausted o1 && negb reported). specialize (IH o1 l1 (i + 1) (reported || report) Hl2).
    destruct (validate_branch_loop o1 l1 branch _ _ _) as [obs r]. cbn [fst snd] in *.
    destruct IH as [[[[[out sp] o2] l2] ->]|(pre & rec' & raw' & cause & post & -> & Hlast & ->)]; [by left; eexists|].
    right. exists ((rec, raw) :: pre), rec', raw', cause, post. split; [done|]. split; [|done].
    rewrite last_app. by rewrite Hlast.
  - right. by exists [], rec, raw, cause, branch.
Qed.
End Reorg.

(** ** The ledger of the maturity window *)
Lemma ledger_step_spec st l h l' : ledger_step st l h = Ok l' ->
  l' = l \/ exists a c, l' = l ++ [(h, a, c)] /\ 0 <= c.
Proof.
  unfold ledger_step. intros Hs. destruct (st_body_at st h); [|invert_ok; by left].
  destruct (BlockBody_parse _) as [body| |]; [|invert_ok; by left..].
  destruct (decode_tx <$> _) as [[[cb|t|ann]| |]|]; try (invert_ok; by left).
  step_in Hs. apply map_err_ok in E. unfold coinbase_credit in E. apply ok_or_ok, checked_add_some in E.
  apply Ok_inj in Hs as <-. right. eexists _, _. split; [done|lia].
Qed.

(** A step adds its entry whatever the ledger already holds. *)
Lemma ledger_step_prefix st pre l h :
  ledger_step st (pre ++ l) h = (let? l' := ledger_step st l h in Ok (pre ++ l')).
Proof.
  unfold ledger_step. destruct (st_body_at st h); [|done]. destruct (BlockBody_parse _); [|done..].
  destruct (decode_tx <$> _) as [[[cb|t|ann]| |]|]; try done. destruct (map_err _ _); [|done..]. cbn [obind].
  unfold CoinbaseLedger_push. by rewrite app_assoc.
Qed.

Lemma ledger_fold_prefix st pre hs : forall l,
  ofold (ledger_step st) (pre ++ l) hs = (let? l' := ofold (ledger_step st) l hs in Ok (pre ++ l')).
Proof.
  induction hs as [|h hs IH]; intros l; cbn [ofold]; [done|]. rewrite ledger_step_prefix.
  destruct (ledger_step st l h); cbn [obind]; [apply IH|done..].
Qed.

Lemma ledger_fold_heights st hs : forall l l', credits_ok l -> ofold (ledger_step st) l hs = Ok l' ->
  credits_ok l' /\ forall e, In e l' -> In e l \/ In (fst (fst e)) hs.
Proof.
  induction hs as [|h hs IH]; intros l l' Hc Hf; cbn [ofold] in Hf; [invert_ok; split; [done|by left]|].
  step_in Hf. destruct (ledger_step_spec st l h a E) as [->|(x & c & -> & Hc2)].
  - destruct (IH _ _ Hc Hf) as [H1 H2]. split; [done|]. intros e He. apply H2 in He as [?|?]; [by left|right; by right].
  - destruct (IH (l ++ [(h, x, c)]) l') as [H1 H2]; [apply Forall_app; split; [done|by repeat constructor]|done|].
    split; [done|]. intros e He. apply H2 in He as [He|?]; [|right; by right].
    apply in_app_iff in He as [?|[<-|[]]]; [by left|right; by left].
Qed.

Lemma immature_sum_mature l a h : Forall (fun e => fst (fst e) + COINBASE_MATURITY <= h) l -> immature_sum l a h = 0.
Proof.
  unfold immature_sum, immature_credit. induction 1 as [|e l He Hl IH]; cbn; [done|]. rewrite IH.
  rewrite (proj2 (Z.ltb_ge _ _)) by done. by rewrite andb_false_r.
Qed.

Lemma zrange_split a b c : a <= b <= c -> zrange a c = zrange a b ++ zrange b c.
Proof.
  intros Hab. unfold zrange. replace (Z.to_nat (c - a)) with (Z.to_nat (b - a) + Z.to_nat (c - b))%nat by lia.
  rewrite seq_app, fmap_app. f_equal. rewrite Nat.add_0_l.
  replace (seq (Z.to_nat (b - a)) (Z.to_nat (c - b))) with (Nat.add (Z.to_nat (b - a)) <$> seq 0 (Z.to_nat (c - b)))
    by (rewrite fmap_add_seq; f_equal; lia). rewrite <-list_fmap_compose. apply list_fmap_ext.
  intros i x _. cbn. lia.
Qed.

Lemma build_ledger_window st at_ full : 0 <= at_ ->
  ofold (ledger_step st) CoinbaseLedger_new (zrange 0 (at_ + 1)) = Ok full ->
  exists l, build_ledger st at_ = Ok l /\ forall a spend, at_ <= spend -> immature_at l a spend = immature_at full a spend.
Proof.
  intros Hat Hfull. unfold build_ledger. set (from := saturating_sub at_ (COINBASE_MATURITY - 1)).
  assert (0 <= from <= at_ + 1) as Hfrom by (unfold from, saturating_sub, COINBASE_MATURITY; lia).
  rewrite (zrange_split 0 from (at_ + 1)), ofold_app in Hfull by lia. step_in Hfull. rename a into pre.
  destruct (ledger_fold_heights st _ _ _ (List.Forall_nil _) E) as [Hc1 Hh1].
  rewrite <-(app_nil_r pre) in Hfull. rewrite ledger_fold_prefix in Hfull. step_in Hfull. apply Ok_inj in Hfull as <-.
  destruct (ledger_fold_heights st _ _ _ (List.Forall_nil _) E0) as [Hc2 _].
  exists a. split; [exact E0|]. intros x spend Hs. rewrite !immature_at_spec; [|by apply Forall_app|done].
  rewrite immature_sum_app, (immature_sum_mature pre); [by rewrite Z.add_0_l|].
  apply List.Forall_forall. intros e He. apply Hh1 in He as [[]|He]. apply in_zrange in He.
  unfold from, saturating_sub in *. lia.
Qed.


(** C25. A validated branch accounts for itself as a whole: one commit per block,
    in order, carrying that block's header, body and chain work, with deltas and
    undo records on the same distinct accounts; the issuance reported is the sum of
    the scheduled rewards and the balances of any set of accounts covering the
    touched ones grow by exactly that sum; and applying the undo records backwards
    from the last block restores every account of the state the branch started
    from. *)
Theorem branch_conserves_and_reverts `{Ed25519} st params o ledger branch cw obs out spent o' ledger'
    (Hb : Forall (fun p => bytes_ok (snd p)) branch)
    (Hv : validate_branch st params o ledger branch cw = (obs, Ok (out, spent, o', ledger'))) :
  Forall2 (fun p cb => commit_of (fst p) (snd p) cb) branch out /\
  cb_chainwork <$> out = cw <$> zrange 0 (Zlen branch) /\
  issued_sum out = branch_reward branch /\
  (exists touched, forall u, List.NoDup u -> (forall a, In a touched -> In a u) ->
     total (view (st_account st) o') u = total (view (st_account st) o) u + branch_reward branch) /\
  forall x, view (st_account st) (apply_all_undo o' (rev (cb_undo <$> out))) x = view (st_account st) o x.
Proof. apply validate_branch_effect in Hv as [H1 H2 H3 H4 H5]; [|done]. done. Qed.

(** Branch validation always returns a verdict, and a refusal names its block:
    on records whose headers are 132 bytes it never panics; it fails only with
    [BranchInvalid] for the height and hash of a block of the branch, and then the
    last condition reported to the observer is that block's. *)
Theorem branch_refusal_names_block `{Ed25519} st params o ledger branch cw
    (Hl : Forall (fun p => Zlen (hr_raw (fst p)) = HEADER_BYTES) branch) :
  (exists r, snd (validate_branch st params o ledger branch cw) = Ok r) \/
  exists pre rec raw cause post, branch = pre ++ (rec, raw) :: post /\
    list.last (fst (validate_branch st params o ledger branch cw)) = Some (CBranchInvalidAt (hr_height rec) (hr_hash rec)) /\
    snd (validate_branch st params o ledger branch cw) = Err (BranchInvalid (hr_height rec) (hr_hash rec) cause).
Proof. by apply validate_branch_total. Qed.

(** Looking only at the last [COINBASE_MATURITY] bodies loses nothing: for
    every account and every spend height from the fork on, the immature amount of
    the window's ledger is the immature amount over all coinbases since genesis. *)
Theorem ledger_window_is_complete st at_ full
    (Hat : 0 <= at_) (Hfull : ofold (ledger_step st) CoinbaseLedger_new (zrange 0 (at_ + 1)) = Ok full) :
  exists l, build_ledger st at_ = Ok l /\ forall a spend, at_ <= spend -> immature_at l a spend = immature_at full a spend.
Proof. by apply build_ledger_window. Qed.

(** Without the last clause of [hh_snapshot] a replay does not start from the
    snapshot's state: an account the snapshot does not list (one created after
    it, say) is read from the store, which is at the tip. *)
Theorem seeded_overlay_reads_tip st rows o x :
  List.NoDup (fst <$> rows) -> ~ In x (fst <$> rows) -> view (st_account st) (Overlay_seed o rows) x = st_account st x.
Proof.
  intros Hn Hx. rewrite seed_view by done. destruct (List.find _ rows) as [r|] eqn:E; [|done]. exfalso. apply Hx.
  apply find_some in E as [Hin Heq]. apply bool_decide_eq_true in Heq as <-.
  by apply list_elem_of_In, list_elem_of_fmap_2, list_elem_of_In.
Qed.

(** ** A store one block high above the sample block's parent *)
#[local] Existing Instance toy_ed25519.
Definition toy_rec : HeaderRec :=
  MkHeaderRec 7 (header_hash (Header_encode toy_header)) (replicate 32 0) 1000 0x1F00FFFF (Header_encode toy_header).
Definition toy_chainwork (_ : Z) : Work := [1; 0; 0; 0].

Lemma toy_rec_header : HeaderRec_header (E := Reject) toy_rec = Ok toy_header.
Proof. vm_compute. reflexivity. Qed.
Lemma toy_rec_len : Zlen (hr_raw toy_rec) = HEADER_BYTES.
Proof. vm_compute. reflexivity. Qed.

Definition toy_store (after : Address -> Account) (undo : list UndoRec) : Store :=
  MkStore (MkTipRef 7 (hr_hash toy_rec) 1000 [1; 0; 0; 0])
    (fun h => if h =? 7 then Some toy_rec else None) (fun _ => None) (fun _ => None)
    (fun h => if h =? 7 then Some toy_body else None) (fun _ => None)
    after (fun h => if h =? 7 then Some undo else None) 7 0 (fun _ => None) (fun _ => None) 0 (fun _ => false).
Definition toy_states (after : Address -> Account) (h : Z) : Address -> Account := if h <=? 6 then toy_account else after.

Lemma toy_history vb o' l : toy_result = Ok (vb, o', l) ->
  holds_history (toy_store (view toy_account o') (vb_undo vb)) ChainParams_default (toy_states (view toy_account o')) 7.
Proof.
  intros Hr. unfold toy_result in Hr.
  pose proof (validated_undo_of (toy_store toy_account []) ChainParams_default (Overlay_new 100) [] toy_header toy_body Untrusted
    vb o' l toy_body_ok Hr) as Hu.
  constructor; [intros x; reflexivity| | |intros h rows Hs; discriminate Hs|intros h c Hs; discriminate Hs].
  - intros h recs Hh Hs. cbn [st_undo_at toy_store] in Hs. destruct (Z.eqb_spec h 7) as [->|]; [|discriminate]. injection Hs as <-. exact Hu.
  - intros h raw rec Hh Hs Hd. cbn [st_body_at st_header_at toy_store] in Hs, Hd. destruct (Z.eqb_spec h 7) as [->|]; [|discriminate]. injection Hs as <-. injection Hd as <-.
    split; [exact toy_body_ok|]. exists toy_header, [], vb.
    pose proof (validate_refines_post toy_account (Overlay_new 100) toy_account [] toy_header toy_body ChainParams_default Untrusted
      (fun x => eq_refl)) as Hp.
    rewrite Hr in Hp. apply refines_post_ok in Hp as (f & He & H2). exists f, l.
    split; [exact toy_rec_header|]. split; [apply List.Forall_nil|]. split; [exact He|]. intros x. symmetry. apply H2.
Qed.

Lemma toy_ledger after undo : build_ledger (toy_store after undo) 6 = Ok [].
Proof. reflexivity. Qed.


Lemma toy_branch_ok : exists obs out spent o' l',
  validate_branch (toy_store toy_account []) ChainParams_default (Overlay_new 100) [] [(toy_rec, toy_body)] toy_chainwork =
  (obs, Ok (out, spent, o', l')).
Proof.
  destruct toy_result_ok as (vb & o1 & l & Hr). unfold validate_branch. cbn [validate_branch_loop].
  rewrite toy_rec_header. cbn [obind]. unfold toy_result in Hr. cbn [st_account toy_store]. rewrite Hr.
  by eexists _, _, _, _, _.
Qed.

Lemma branch_conserves_and_reverts_witness :
  exists out o', issued_sum out = branch_reward [(toy_rec, toy_body)] /\
    forall x, view toy_account (apply_all_undo o' (rev (cb_undo <$> out))) x = toy_account x.
Proof.
  destruct toy_branch_ok as (obs & out & spent & o' & l' & Hr). exists out, o'.
  destruct (branch_conserves_and_reverts _ _ _ _ _ _ _ _ _ _ _ (List.Forall_cons (fun p => bytes_ok (snd p)) (toy_rec, toy_body) [] toy_body_ok (List.Forall_nil _)) Hr)
    as (_ & _ & H3 & _ & H5). split; [exact H3|exact H5].
Defined.

Lemma branch_refusal_names_block_witness :
  exists cause, snd (validate_branch (toy_store toy_account []) ChainParams_default (Overlay_new 100) []
    [(toy_rec, [])] toy_chainwork) = Err (BranchInvalid 7 (hr_hash toy_rec) cause).
Proof.
  destruct (branch_refusal_names_block (toy_store toy_account []) ChainParams_default (Overlay_new 100) [] [(toy_rec, [])] toy_chainwork
    (List.Forall_cons _ (toy_rec, []) [] toy_rec_len (List.Forall_nil _))) as [[r Hr]|(pre & rec & raw & cause & post & Hb & _ & He)].
  - exfalso. unfold validate_branch in Hr. cbn [validate_branch_loop] in Hr. rewrite toy_rec_header in Hr. discriminate Hr.
  - exists cause. rewrite He. destruct pre as [|p pre]; [injection Hb as <- _ _; reflexivity|]. by destruct pre.
Defined.

Lemma ledger_window_is_complete_witness :
  exists l, build_ledger (toy_store toy_account []) 7 = Ok l /\ immature_at l (replicate 20 1) 8 = 200005.
Proof.
  destruct (ledger_window_is_complete (toy_store toy_account []) 7 [(7, replicate 20 1, 200005)]) as (l & H1 & H2).
  - discriminate.
  - vm_compute. reflexivity.
  - exists l. split; [exact H1|]. rewrite H2 by discriminate. vm_compute. reflexivity.
Defined.
