(* ===== verification/Budget.v ===== *)
(** Header-ingest budgets (the first part of src/lib/chain/src/header.rs): the
    negative cache of permanently refused hashes, the per-source token buckets,
    reserve and child quota, the shared pool, and the table of sources with its
    eviction. Times are milliseconds, tokens are microseconds of the proof-of-work
    interpreter. The theorems bound every bucket, the tables and the amount of
    interpreter time any run of refills and spends can grant. *)

From Stdlib Require Import ZArith Lia List.
From stdpp Require Import base list gmap sets numbers.
From S2P Require Import Prelude Constants Work Rules ChainTypes.
Open Scope Z_scope.

Record Staged := MkStaged { sg_rec : HeaderRec; sg_cum_work : Work; sg_branch_base_height : Z }.

(** ** The negative cache *)
Record NegativeCache := MkNegativeCache { nc_set : gset Hash32; nc_ring : list Hash32; nc_cap : Z }.
Definition NegativeCache_new (cap : Z) : NegativeCache := MkNegativeCache ∅ [] (Z.max cap 1).
Definition nc_contains (c : NegativeCache) (h : Hash32) : bool := bool_decide (h ∈ nc_set c).
Definition nc_evict (c : NegativeCache) : NegativeCache :=
  if nc_cap c <=? Zlen (nc_ring c) then
    match nc_ring c with
    | [] => c
    | old :: ring => MkNegativeCache (nc_set c ∖ {[old]}) ring (nc_cap c)
    end
  else c.
Definition nc_insert (c : NegativeCache) (h : Hash32) (p : Permanence) : NegativeCache :=
  match p with
  | Transient => c
  | Permanent =>
    if nc_contains c h then c else
    let c := nc_evict c in
    MkNegativeCache ({[h]} ∪ nc_set c) (nc_ring c ++ [h]) (nc_cap c)
  end.
Definition nc_len (c : NegativeCache) : Z := Z.of_nat (size (nc_set c)).
Definition nc_is_empty (c : NegativeCache) : bool := bool_decide (nc_set c = ∅).

(** ** One source *)
Record SourceState := MkSourceState {
  ss_staged : list Staged;
  ss_staged_hashes : gset Hash32;
  ss_tokens : Z;
  ss_last_ms : Z;
  ss_reserve_tokens : Z;
  ss_reserve_last_ms : Z;
  ss_primed : bool;
  ss_pow_failures : Z;
  ss_quota_epoch : Z;
  ss_quota_ms : Z;
  ss_dups : Z;
  ss_dup_window_ms : Z;
}.
Definition SourceState_default : SourceState := MkSourceState [] ∅ 0 0 0 0 false 0 0 0 0 0.

Definition with_staged (s : SourceState) (staged : list Staged) (hashes : gset Hash32) : SourceState :=
  MkSourceState staged hashes (ss_tokens s) (ss_last_ms s) (ss_reserve_tokens s) (ss_reserve_last_ms s) (ss_primed s)
    (ss_pow_failures s) (ss_quota_epoch s) (ss_quota_ms s) (ss_dups s) (ss_dup_window_ms s).
Definition with_tokens (s : SourceState) (tokens last : Z) : SourceState :=
  MkSourceState (ss_staged s) (ss_staged_hashes s) tokens last (ss_reserve_tokens s) (ss_reserve_last_ms s) (ss_primed s)
    (ss_pow_failures s) (ss_quota_epoch s) (ss_quota_ms s) (ss_dups s) (ss_dup_window_ms s).
Definition with_reserve (s : SourceState) (tokens last : Z) : SourceState :=
  MkSourceState (ss_staged s) (ss_staged_hashes s) (ss_tokens s) (ss_last_ms s) tokens last (ss_primed s)
    (ss_pow_failures s) (ss_quota_epoch s) (ss_quota_ms s) (ss_dups s) (ss_dup_window_ms s).
Definition with_quota (s : SourceState) (failures epoch ms : Z) : SourceState :=
  MkSourceState (ss_staged s) (ss_staged_hashes s) (ss_tokens s) (ss_last_ms s) (ss_reserve_tokens s) (ss_reserve_last_ms s)
    (ss_primed s) failures epoch ms (ss_dups s) (ss_dup_window_ms s).
Definition with_dups (s : SourceState) (dups ms : Z) : SourceState :=
  MkSourceState (ss_staged s) (ss_staged_hashes s) (ss_tokens s) (ss_last_ms s) (ss_reserve_tokens s) (ss_reserve_last_ms s)
    (ss_primed s) (ss_pow_failures s) (ss_quota_epoch s) (ss_quota_ms s) dups ms.

(** Tokens are added, and the clock of the bucket moved, only when the elapsed time
    is worth at least one token. *)
Definition refill_bucket (tokens last now rate per burst : Z) : Z * Z :=
  let elapsed := saturating_sub now last in
  if 0 <? elapsed then
    let refill := saturating_mul 64 elapsed rate / per in
    if 0 <? refill then (Z.min (saturating_add 64 tokens refill) burst, now) else (tokens, last)
  else (tokens, last).

Definition prime (s : SourceState) (tokens reserve now : Z) : SourceState :=
  MkSourceState (ss_staged s) (ss_staged_hashes s) tokens now reserve now true
    (ss_pow_failures s) (ss_quota_epoch s) now (ss_dups s) (ss_dup_window_ms s).

Definition refill (s : SourceState) (params : ChainParams) (cost_micros mono_ms : Z) : SourceState :=
  if negb (ss_primed s) then
    prime s (pow_budget_burst_micros params) (class_reserve_burst_micros params cost_micros) mono_ms
  else
    let '(t, l) := refill_bucket (ss_tokens s) (ss_last_ms s) mono_ms (pow_budget_micros params)
                     (Z.max (pow_budget_window_ms params) 1) (pow_budget_burst_micros params) in
    let s := with_tokens s t l in
    let '(t, l) := refill_bucket (ss_reserve_tokens s) (ss_reserve_last_ms s) mono_ms
                     (class_reserve_rate_micros_per_sec params) 1000 (class_reserve_burst_micros params cost_micros) in
    with_reserve s t l.

Definition roll_quota_epoch (s : SourceState) (epoch : Z) (params : ChainParams) (mono_ms : Z) : SourceState :=
  let stalled := saturating_mul 64 (child_quota_window_secs params) 1000 <=? saturating_sub mono_ms (ss_quota_ms s) in
  if negb (ss_quota_epoch s =? epoch) || stalled then with_quota s 0 epoch mono_ms else s.

Definition budgets_full (s : SourceState) (params : ChainParams) (cost_micros : Z) : bool :=
  (ss_pow_failures s =? 0) && (pow_budget_burst_micros params <=? ss_tokens s) &&
  (class_reserve_burst_micros params cost_micros <=? ss_reserve_tokens s).
Definition owes_nothing (s : SourceState) (params : ChainParams) (cost_micros : Z) : bool :=
  bool_decide (ss_staged s = []) && budgets_full s params cost_micros.

(** ** The table of sources *)
Record Ingest := MkIngest {
  ig_neg : NegativeCache;
  ig_sources : gmap SourceId SourceState;
  ig_shared_tokens : Z;
  ig_shared_last_ms : Z;
  ig_shared_primed : bool;
}.
Definition Ingest_new (params : ChainParams) : Ingest :=
  MkIngest (NegativeCache_new (negative_cache_entries params)) ∅ 0 0 false.

Definition with_sources (ig : Ingest) (m : gmap SourceId SourceState) : Ingest :=
  MkIngest (ig_neg ig) m (ig_shared_tokens ig) (ig_shared_last_ms ig) (ig_shared_primed ig).
Definition with_neg (ig : Ingest) (c : NegativeCache) : Ingest :=
  MkIngest c (ig_sources ig) (ig_shared_tokens ig) (ig_shared_last_ms ig) (ig_shared_primed ig).
Definition put_source (ig : Ingest) (source : SourceId) (s : SourceState) : Ingest :=
  with_sources ig (<[source := s]> (ig_sources ig)).

Definition ig_staged (ig : Ingest) (source : SourceId) : Z :=
  match ig_sources ig !! source with Some s => Zlen (ss_staged s) | None => 0 end.
Definition ig_tokens (ig : Ingest) (source : SourceId) : Z :=
  match ig_sources ig !! source with Some s => ss_tokens s | None => 0 end.
Definition ig_reserve_tokens (ig : Ingest) (source : SourceId) : Z :=
  match ig_sources ig !! source with Some s => ss_reserve_tokens s | None => 0 end.
Definition source_count (ig : Ingest) : Z := Z.of_nat (size (ig_sources ig)).
Definition forget (ig : Ingest) (source : SourceId) : Ingest := with_sources ig (delete source (ig_sources ig)).

Definition refill_shared (ig : Ingest) (params : ChainParams) (mono_ms : Z) : Ingest :=
  if negb (ig_shared_primed ig) then
    MkIngest (ig_neg ig) (ig_sources ig) (class_shared_burst_micros params) mono_ms true
  else
    let '(t, l) := refill_bucket (ig_shared_tokens ig) (ig_shared_last_ms ig) mono_ms
                     (class_shared_rate_micros_per_sec params) 1000 (class_shared_burst_micros params) in
    MkIngest (ig_neg ig) (ig_sources ig) t l true.

(** The victim at the cap: the idle source with the least id, else, of those with
    full budgets, the one with the least staged headers (then the least id).  The
    minimum does not depend on the order the hash map is walked in. *)
Definition opt_min (cur : option SourceId) (id : SourceId) : option SourceId :=
  match cur with Some c => if id <? c then Some id else cur | None => Some id end.
Definition key_ltb (p q : Z * SourceId) : bool := (fst p <? fst q) || ((fst p =? fst q) && (snd p <? snd q)).
Definition opt_min_key (cur : option (Z * SourceId)) (key : Z * SourceId) : option (Z * SourceId) :=
  match cur with Some c => if key_ltb key c then Some key else cur | None => Some key end.
Definition victim_step (params : ChainParams) (cost : Z) (acc : option SourceId * option (Z * SourceId))
    (e : SourceId * SourceState) : option SourceId * option (Z * SourceId) :=
  let '(idle, parked) := acc in
  let '(id, s) := e in
  if owes_nothing s params cost then (opt_min idle id, parked)
  else if budgets_full s params cost then (idle, opt_min_key parked (Zlen (ss_staged s), id))
  else (idle, parked).
Definition victim (params : ChainParams) (cost : Z) (sources : gmap SourceId SourceState) : option SourceId :=
  let '(idle, parked) := fold_left (victim_step params cost) (map_to_list sources) (None, None) in
  match idle with Some id => Some id | None => snd <$> parked end.

(** The refill of every source at the cap stays even when the source is refused. *)
Definition touch (ig : Ingest) (source : SourceId) (params : ChainParams) (cost_micros mono_ms : Z)
    : Ingest * outcome Reject unit :=
  let enter ig :=
    let s := default SourceState_default (ig_sources ig !! source) in
    (put_source ig source (refill s params cost_micros mono_ms), Ok tt) in
  if bool_decide (ig_sources ig !! source = None) && (max_sources params <=? source_count ig) then
    let ig := with_sources ig ((fun s => refill s params cost_micros mono_ms) <$> ig_sources ig) in
    match victim params cost_micros (ig_sources ig) with
    | Some id => enter (with_sources ig (delete id (ig_sources ig)))
    | None => (ig, Err (TooManySources source (max_sources params)))
    end
  else enter ig.

(** Shared pool first, then the source's own reserve; the source's own bucket
    always. *)
Definition spend_class_budget (ig : Ingest) (source : SourceId) (cost : Z) : bool * Ingest :=
  match ig_sources ig !! source with
  | None => (false, ig)
  | Some s =>
    if ss_tokens s <? cost then (false, ig) else
    let from_shared := cost <=? ig_shared_tokens ig in
    if negb from_shared && (ss_reserve_tokens s <? cost) then (false, ig) else
    let shared := if from_shared then ig_shared_tokens ig - cost else ig_shared_tokens ig in
    let s := if from_shared then s else with_reserve s (ss_reserve_tokens s - cost) (ss_reserve_last_ms s) in
    let s := with_tokens s (ss_tokens s - cost) (ss_last_ms s) in
    (true, MkIngest (ig_neg ig) (<[source := s]> (ig_sources ig)) shared (ig_shared_last_ms ig) (ig_shared_primed ig))
  end.

(** ** The negative cache is a bounded set of its ring *)
Record nc_wf (c : NegativeCache) : Prop := {
  nw_cap : 1 <= nc_cap c;
  nw_nodup : NoDup (nc_ring c);
  nw_set : nc_set c = list_to_set (nc_ring c);
  nw_len : Zlen (nc_ring c) <= nc_cap c;
}.

Lemma nc_new_wf cap : nc_wf (NegativeCache_new cap).
Proof. constructor; cbn; [lia|constructor|done|]. change (Zlen []) with 0. lia. Qed.

Lemma nc_evict_wf c : nc_wf c -> nc_wf (nc_evict c) /\ Zlen (nc_ring (nc_evict c)) < nc_cap c /\ nc_cap (nc_evict c) = nc_cap c /\
  nc_set (nc_evict c) ⊆ nc_set c.
Proof.
  intros [H1 H2 H3 H4]. unfold nc_evict. destruct (Z.leb_spec (nc_cap c) (Zlen (nc_ring c))) as [Hl|Hl]; [|done].
  destruct (nc_ring c) as [|old ring] eqn:E; [change (Zlen []) with 0 in Hl; lia|]. cbn [nc_ring nc_cap nc_set]. rewrite Zlen_cons in *.
  apply list.NoDup_cons in H2 as [Hn Hr]. split; [|split; [lia|split; [done|apply subseteq_difference_l; reflexivity]]].
  constructor; cbn; [done|done| |lia]. rewrite H3. apply set_eq. intros x. cbn.
  rewrite elem_of_difference, elem_of_union, !elem_of_singleton, !elem_of_list_to_set. split; [tauto|]. intros Hx.
  split; [by right|]. by intros ->.
Qed.

Lemma nc_insert_wf c h p : nc_wf c -> nc_wf (nc_insert c h p).
Proof.
  intros W. unfold nc_insert. destruct p; [|done]. unfold nc_contains. case_bool_decide as Hin; [done|].
  destruct (nc_evict_wf c W) as ([H1 H2 H3 H4] & Hl & Hc & Hs). constructor; cbn.
  - done.
  - apply list.NoDup_app. split; [done|]. split; [|apply NoDup_singleton]. intros x Hx Hx'. apply list_elem_of_singleton in Hx' as ->.
    apply Hin, Hs. rewrite H3. by apply elem_of_list_to_set.
  - rewrite H3, list_to_set_app_L. cbn [list_to_set]. rewrite union_empty_r_L. apply (comm_L (∪)).
  - rewrite Zlen_app. change (Zlen [h]) with 1. lia.
Qed.

Lemma nc_len_ring c : nc_wf c -> nc_len c = Zlen (nc_ring c).
Proof. intros [_ H2 H3 _]. unfold nc_len, Zlen. rewrite H3. f_equal. by apply size_list_to_set. Qed.

(** ** Buckets

    [spent] is what was taken from the bucket since [t0]: what it holds and what it
    gave never exceed the burst plus the rate over the time credited. *)
Record bucket_ok (rate per burst t0 now tokens last spent : Z) : Prop := {
  bk_tokens : 0 <= tokens <= burst;
  bk_last : t0 <= last <= now;
  bk_spent : per * (tokens + spent) <= per * burst + rate * (last - t0);
}.

Lemma bucket_tick rate per burst t0 now now' tokens last spent : now <= now' ->
  bucket_ok rate per burst t0 now tokens last spent -> bucket_ok rate per burst t0 now' tokens last spent.
Proof. intros Hn [H1 H2 H3]. constructor; [done|lia|done]. Qed.

Lemma refill_bucket_ok rate per burst t0 now tokens last spent : 0 <= rate -> 0 < per ->
  bucket_ok rate per burst t0 now tokens last spent ->
  bucket_ok rate per burst t0 now (fst (refill_bucket tokens last now rate per burst))
    (snd (refill_bucket tokens last now rate per burst)) spent.
Proof.
  intros Hr Hp [H1 H2 H3]. unfold refill_bucket, saturating_sub. rewrite Z.max_r by lia.
  destruct (Z.ltb_spec 0 (now - last)) as [He|]; [|done].
  set (r := saturating_mul 64 (now - last) rate / per). destruct (Z.ltb_spec 0 r) as [Hr0|]; [|done]. cbn [fst snd].
  assert (per * r <= (now - last) * rate) as Hb.
  { unfold r, saturating_mul. pose proof (Z.mul_div_le (Z.min ((now - last) * rate) (umax 64)) per Hp). lia. }
  unfold saturating_add. assert (0 <= umax 64) by done. constructor; [lia|lia|]. nia.
Qed.

Lemma bucket_spend rate per burst t0 now tokens last spent cost : 0 <= cost <= tokens ->
  bucket_ok rate per burst t0 now tokens last spent -> bucket_ok rate per burst t0 now (tokens - cost) last (spent + cost).
Proof. intros Hc [H1 H2 H3]. constructor; [lia|done|]. replace (tokens - cost + (spent + cost)) with (tokens + spent) by lia. done. Qed.

Lemma bucket_bound rate per burst t0 now tokens last spent : 0 <= rate -> 0 < per ->
  bucket_ok rate per burst t0 now tokens last spent -> per * spent <= per * burst + rate * (now - t0).
Proof. intros Hr Hp [H1 H2 H3]. nia. Qed.

(** A full bucket has given no more than the rate over the time. *)
Lemma bucket_full rate per burst t0 now tokens last spent : 0 <= rate -> 0 < per -> burst <= tokens ->
  bucket_ok rate per burst t0 now tokens last spent -> per * spent <= rate * (now - t0).
Proof. intros Hr Hp Hf [H1 H2 H3]. nia. Qed.

Lemma bucket_primed rate per burst t0 now spent : 0 <= burst -> t0 <= now -> per * spent <= rate * (now - t0) ->
  bucket_ok rate per burst t0 now burst now spent.
Proof. intros Hb Ht Hs. constructor; [lia|lia|]. lia. Qed.

(** ** Runs of the budget *)
Section Run.
Context (params : ChainParams) (cost t0 : Z) (keep : SourceId).
Hypothesis Hcost : 0 <= cost.
Hypothesis Hbudget : 0 <= pow_budget_micros params.
Hypothesis Hburst : 0 <= pow_budget_burst_micros params.
Hypothesis Hthreads : 0 <= cpu_pool_threads params.

(** The table, the time, and the totals taken so far: by each source from its own
    bucket, by each source from its reserve, by all from the shared pool. *)
Record brun := MkRun {
  br_ig : Ingest;
  br_now : Z;
  br_spent : SourceId -> Z;
  br_reserve_spent : SourceId -> Z;
  br_shared_spent : Z;
}.
Definition bump (f : SourceId -> Z) (s : SourceId) (n : Z) (x : SourceId) : Z := if decide (x = s) then f x + n else f x.

(** What a source owes is unchanged: everything but its buckets may differ. *)
Definition same_budget (s s' : SourceState) : Prop :=
  ss_tokens s' = ss_tokens s /\ ss_last_ms s' = ss_last_ms s /\ ss_reserve_tokens s' = ss_reserve_tokens s /\
  ss_reserve_last_ms s' = ss_reserve_last_ms s /\ ss_primed s' = ss_primed s.

Inductive bstep (r : brun) : brun -> Prop :=
| bs_tick now : br_now r <= now ->
    bstep r (MkRun (br_ig r) now (br_spent r) (br_reserve_spent r) (br_shared_spent r))
| bs_shared :
    bstep r (MkRun (refill_shared (br_ig r) params (br_now r)) (br_now r) (br_spent r) (br_reserve_spent r) (br_shared_spent r))
| bs_touch source ig res : touch (br_ig r) source params cost (br_now r) = (ig, res) ->
    bstep r (MkRun ig (br_now r) (br_spent r) (br_reserve_spent r) (br_shared_spent r))
| bs_spend source ig : spend_class_budget (br_ig r) source cost = (true, ig) ->
    bstep r (MkRun ig (br_now r) (bump (br_spent r) source cost)
      (if cost <=? ig_shared_tokens (br_ig r) then br_reserve_spent r else bump (br_reserve_spent r) source cost)
      (if cost <=? ig_shared_tokens (br_ig r) then br_shared_spent r + cost else br_shared_spent r))
| bs_edit source s s' : ig_sources (br_ig r) !! source = Some s -> same_budget s s' ->
    bstep r (MkRun (put_source (br_ig r) source s') (br_now r) (br_spent r) (br_reserve_spent r) (br_shared_spent r))
| bs_neg c : bstep r (MkRun (with_neg (br_ig r) c) (br_now r) (br_spent r) (br_reserve_spent r) (br_shared_spent r))
| bs_forget source : source <> keep ->
    bstep r (MkRun (forget (br_ig r) source) (br_now r) (br_spent r) (br_reserve_spent r) (br_shared_spent r)).

Definition brun_start : brun := MkRun (Ingest_new params) t0 (fun _ => 0) (fun _ => 0) 0.

Abbreviation window := (Z.max (pow_budget_window_ms params) 1).
Abbreviation own_ok := (bucket_ok (pow_budget_micros params) window (pow_budget_burst_micros params) t0).
Abbreviation reserve_ok :=
  (bucket_ok (class_reserve_rate_micros_per_sec params) 1000 (class_reserve_burst_micros params cost) t0).
Abbreviation shared_ok :=
  (bucket_ok (class_shared_rate_micros_per_sec params) 1000 (class_shared_burst_micros params) t0).

Lemma shared_rate_nonneg : 0 <= class_shared_rate_micros_per_sec params.
Proof.
  unfold class_shared_rate_micros_per_sec, class_rate_micros_per_sec, saturating_mul. apply Z.div_pos; [|lia].
  assert (0 <= umax 64) by done. lia.
Qed.
Lemma reserve_rate_nonneg : 0 <= class_reserve_rate_micros_per_sec params.
Proof. unfold class_reserve_rate_micros_per_sec. apply Z.div_pos; [apply shared_rate_nonneg|lia]. Qed.
Lemma reserve_burst_nonneg : 0 <= class_reserve_burst_micros params cost.
Proof. unfold class_reserve_burst_micros, saturating_mul. assert (0 <= umax 64) by done. lia. Qed.

(** The buckets of a source, and what an absent source may have taken. *)
Record source_ok (now : Z) (s : SourceState) (spent rspent : Z) : Prop := {
  so_primed : ss_primed s = true;
  so_own : own_ok now (ss_tokens s) (ss_last_ms s) spent;
  so_reserve : reserve_ok now (ss_reserve_tokens s) (ss_reserve_last_ms s) rspent;
}.
Definition absent_ok (now spent rspent : Z) : Prop :=
  window * spent <= pow_budget_micros params * (now - t0) /\
  1000 * rspent <= class_reserve_rate_micros_per_sec params * (now - t0).

(** Sources that can be forgotten have no bound of their own. *)
Record brun_ok (r : brun) : Prop := {
  bo_time : t0 <= br_now r;
  bo_shared : if ig_shared_primed (br_ig r)
    then shared_ok (br_now r) (ig_shared_tokens (br_ig r)) (ig_shared_last_ms (br_ig r)) (br_shared_spent r)
    else br_shared_spent r = 0 /\ ig_shared_tokens (br_ig r) = 0;
  bo_primed : forall x s, ig_sources (br_ig r) !! x = Some s -> exists sp rsp, source_ok (br_now r) s sp rsp;
  bo_keep : match ig_sources (br_ig r) !! keep with
    | Some s => source_ok (br_now r) s (br_spent r keep) (br_reserve_spent r keep)
    | None => absent_ok (br_now r) (br_spent r keep) (br_reserve_spent r keep)
    end;
}.

Lemma source_ok_tick now now' s sp rsp : now <= now' -> source_ok now s sp rsp -> source_ok now' s sp rsp.
Proof. intros Hn [H1 H2 H3]. constructor; [done|by eapply bucket_tick..]. Qed.

Lemma absent_ok_tick now now' sp rsp : now <= now' -> absent_ok now sp rsp -> absent_ok now' sp rsp.
Proof. intros Hn [H1 H2]. pose proof reserve_rate_nonneg as Hr.
  split; (eapply Z.le_trans; [eassumption|apply Z.mul_le_mono_nonneg_l; lia]).
Qed.

Lemma refill_ok now s sp rsp : source_ok now s sp rsp -> source_ok now (refill s params cost now) sp rsp.
Proof.
  intros [H1 H2 H3]. unfold refill. rewrite H1. cbn [negb].
  assert (0 < window) as Hw by lia. assert (0 < 1000) as Hk by done.
  pose proof (refill_bucket_ok _ _ _ _ _ _ _ _ Hbudget Hw H2) as Ho.
  pose proof (refill_bucket_ok _ _ _ _ _ _ _ _ reserve_rate_nonneg Hk H3) as Hr.
  destruct (refill_bucket (ss_tokens s) _ _ _ _ _) as [t l].
  change (ss_reserve_tokens (with_tokens s t l)) with (ss_reserve_tokens s).
  change (ss_reserve_last_ms (with_tokens s t l)) with (ss_reserve_last_ms s).
  destruct (refill_bucket (ss_reserve_tokens s) _ _ _ _ _) as [t' l']. by constructor.
Qed.

Lemma prime_ok now sp rsp : t0 <= now -> absent_ok now sp rsp -> source_ok now (refill SourceState_default params cost now) sp rsp.
Proof.
  intros Ht [H1 H2]. constructor; cbn; [done| |]; apply bucket_primed; try done. apply reserve_burst_nonneg.
Qed.

Lemma full_absent now s sp rsp : source_ok now s sp rsp -> budgets_full s params cost = true -> absent_ok now sp rsp.
Proof.
  intros [H1 H2 H3] Hf. unfold budgets_full in Hf. to_prop. assert (0 < window) as Hw by lia. split.
  - apply (bucket_full _ _ _ _ _ _ _ _ Hbudget Hw H4 H2).
  - exact (bucket_full _ 1000 _ _ _ _ _ _ reserve_rate_nonneg eq_refl H0 H3).
Qed.

Lemma victim_full m id : victim params cost m = Some id ->
  exists s, m !! id = Some s /\ budgets_full s params cost = true.
Proof.
  unfold victim. set (good := fun x => exists s, m !! x = Some s /\ budgets_full s params cost = true).
  assert (forall l acc, (forall e, e ∈ l -> m !! fst e = Some (snd e)) ->
    (forall x, fst acc = Some x -> good x) -> (forall k, snd acc = Some k -> good (snd k)) ->
    let r := fold_left (victim_step params cost) l acc in
    (forall x, fst r = Some x -> good x) /\ (forall k, snd r = Some k -> good (snd k))) as Hf.
  { induction l as [|[x s] l IH]; intros [idle parked] Hl H1 H2; [done|]. cbn [fold_left]. apply IH.
    - intros e He. apply Hl. by right.
    - intros y. cbn. destruct (owes_nothing s params cost) eqn:Eo; [|destruct (budgets_full s params cost); apply H1].
      assert (good x) as Hg. { exists s. split; [apply (Hl (x, s)); by left|]. unfold owes_nothing in Eo. by to_prop. }
      unfold opt_min. destruct idle as [c|]; cbn; [destruct (x <? c)|]; intros [= <-]; auto.
    - intros k. cbn. destruct (owes_nothing s params cost); [apply H2|]. destruct (budgets_full s params cost) eqn:Eb; [|apply H2].
      assert (good x) as Hg. { exists s. split; [apply (Hl (x, s)); by left|done]. }
      unfold opt_min_key. destruct parked as [c|]; cbn; [destruct (key_ltb _ c)|]; intros [= <-]; auto. }
  destruct (Hf (map_to_list m) (None, None)) as [Hi Hk]; [intros [x s] He; by apply elem_of_map_to_list|done|done|].
  destruct (fold_left _ _ _) as [idle parked]. cbn in Hi, Hk. destruct idle; [intros [= <-]; by apply Hi|].
  intros Hp. destruct parked as [k|]; [|discriminate Hp]. injection Hp as <-. by apply Hk.
Qed.

(** What a step of the table does to one source. *)
Definition source_slot_ok (now : Z) (m : gmap SourceId SourceState) (x : SourceId) (sp rsp : Z) : Prop :=
  match m !! x with Some s => source_ok now s sp rsp | None => absent_ok now sp rsp end.

Lemma touch_slot now ig source ig' res x sp rsp : t0 <= now ->
  touch ig source params cost now = (ig', res) ->
  source_slot_ok now (ig_sources ig) x sp rsp -> source_slot_ok now (ig_sources ig') x sp rsp.
Proof.
  intros Ht H Hx. unfold touch in H.
  assert (forall ig1, source_slot_ok now (ig_sources ig1) x sp rsp ->
    source_slot_ok now (<[source := refill (default SourceState_default (ig_sources ig1 !! source)) params cost now]> (ig_sources ig1)) x sp rsp) as Henter.
  { intros ig1 H1. unfold source_slot_ok in *. destruct (decide (x = source)) as [->|Hn]; [|by rewrite lookup_insert_ne].
    rewrite lookup_insert_eq. destruct (ig_sources ig1 !! source) as [s|]; cbn; [by apply refill_ok|by apply prime_ok]. }
  destruct (bool_decide _ && _); [|injection H as <- _; by apply Henter].
  set (m := _ <$> ig_sources ig) in *. assert (source_slot_ok now m x sp rsp) as Hm.
  { unfold source_slot_ok in *. subst m. rewrite lookup_fmap. destruct (ig_sources ig !! x) as [s|]; cbn; [by apply refill_ok|done]. }
  cbn [ig_sources with_sources] in H. destruct (victim params cost m) as [id|] eqn:Ev; [|injection H as <- _; exact Hm].
  injection H as <- _. pose proof (Henter (with_sources (with_sources ig m) (delete id m))) as He. cbn [ig_sources with_sources put_source] in He |- *.
  apply He. clear He Henter. unfold source_slot_ok in *.
  destruct (victim_full _ _ Ev) as (s & Hs & Hf).
  destruct (decide (x = id)) as [->|Hn]; [|by rewrite lookup_delete_ne]. rewrite lookup_delete_eq. rewrite Hs in Hm.
  by eapply full_absent.
Qed.

Lemma touch_primed now ig source ig' res : t0 <= now -> touch ig source params cost now = (ig', res) ->
  (forall x s, ig_sources ig !! x = Some s -> exists sp rsp, source_ok now s sp rsp) ->
  forall x s, ig_sources ig' !! x = Some s -> exists sp rsp, source_ok now s sp rsp.
Proof.
  intros Ht H Ha x s Hs. assert (exists sp rsp, source_slot_ok now (ig_sources ig) x sp rsp) as (sp & rsp & Hx).
  { unfold source_slot_ok. destruct (ig_sources ig !! x) as [s0|] eqn:E; [by apply (Ha x)|]. exists 0, 0. split; [nia|].
    pose proof reserve_rate_nonneg. nia. }
  exists sp, rsp. pose proof (touch_slot now ig source ig' res x sp rsp Ht H Hx) as Hx'. unfold source_slot_ok in Hx'. by rewrite Hs in Hx'.
Qed.

Lemma touch_shared ig source now ig' res : touch ig source params cost now = (ig', res) ->
  ig_shared_tokens ig' = ig_shared_tokens ig /\ ig_shared_last_ms ig' = ig_shared_last_ms ig /\
  ig_shared_primed ig' = ig_shared_primed ig.
Proof.
  unfold touch. intros H. destruct (bool_decide _ && _); [|by injection H as <- _]. cbn in H.
  destruct (victim _ _ _); by injection H as <- _.
Qed.

Lemma spend_spec ig source ig' : spend_class_budget ig source cost = (true, ig') ->
  exists s s', ig_sources ig !! source = Some s /\ ig_sources ig' = <[source := s']> (ig_sources ig) /\
    cost <= ss_tokens s /\ ss_tokens s' = ss_tokens s - cost /\ ss_last_ms s' = ss_last_ms s /\
    ss_primed s' = ss_primed s /\ ss_reserve_last_ms s' = ss_reserve_last_ms s /\
    ig_shared_last_ms ig' = ig_shared_last_ms ig /\ ig_shared_primed ig' = ig_shared_primed ig /\
    if cost <=? ig_shared_tokens ig
    then ss_reserve_tokens s' = ss_reserve_tokens s /\ ig_shared_tokens ig' = ig_shared_tokens ig - cost
    else cost <= ss_reserve_tokens s /\ ss_reserve_tokens s' = ss_reserve_tokens s - cost /\
      ig_shared_tokens ig' = ig_shared_tokens ig.
Proof.
  unfold spend_class_budget. intros H. destruct (ig_sources ig !! source) as [s|]; [|done].
  destruct (Z.ltb_spec (ss_tokens s) cost) as [|Ht]; [done|].
  destruct (cost <=? ig_shared_tokens ig) eqn:Es; cbn [negb andb] in H.
  - injection H as <-. eexists s, _. cbn. by repeat split.
  - destruct (Z.ltb_spec (ss_reserve_tokens s) cost) as [|Hr]; [done|]. injection H as <-. eexists s, _. cbn. by repeat split.
Qed.

Lemma spend_slot now ig source ig' x sp rsp : spend_class_budget ig source cost = (true, ig') ->
  source_slot_ok now (ig_sources ig) x sp rsp ->
  source_slot_ok now (ig_sources ig') x (if decide (x = source) then sp + cost else sp)
    (if decide (x = source) then (if cost <=? ig_shared_tokens ig then rsp else rsp + cost) else rsp).
Proof.
  intros H Hx. destruct (spend_spec _ _ _ H) as (s & s' & H1 & H2 & H3 & H4 & H5 & H6 & H7 & _ & _ & H8).
  unfold source_slot_ok in *. rewrite H2. destruct (decide (x = source)) as [->|Hn]; [|by rewrite lookup_insert_ne].
  rewrite lookup_insert_eq. rewrite H1 in Hx. destruct Hx as [P1 P2 P3]. constructor; [congruence| |].
  - rewrite H4, H5. by apply bucket_spend.
  - rewrite H7. destruct (cost <=? _); [destruct H8 as [-> _]; exact P3|]. destruct H8 as (H8 & -> & _). by apply bucket_spend.
Qed.

Lemma bump_same f s n : bump f s n s = f s + n.
Proof. unfold bump. by rewrite decide_True. Qed.

Lemma bstep_ok r r' : brun_ok r -> bstep r r' -> brun_ok r'.
Proof.
  intros [H1 H2 H3 H4] [now Hn| |source ig res Ht|source ig Hs|source s s' Hs (E1 & E2 & E3 & E4 & E5)|c|source Hne].
  - constructor; cbn; [lia| | |].
    + destruct (ig_shared_primed _); [by eapply bucket_tick|done].
    + intros x s Hx. destruct (H3 x s Hx) as (sp & rsp & Hok). exists sp, rsp. by eapply source_ok_tick.
    + destruct (ig_sources _ !! keep); [by eapply source_ok_tick|by eapply absent_ok_tick].
  - unfold refill_shared. destruct (ig_shared_primed (br_ig r)) eqn:Ep; cbn [negb].
    + pose proof (refill_bucket_ok _ 1000 _ _ _ _ _ _ shared_rate_nonneg eq_refl H2) as Hb.
      destruct (refill_bucket _ _ _ _ _ _) as [t l]. by constructor.
    + destruct H2 as [H2 _]. constructor; cbn; [done| |done|done]. apply bucket_primed; [apply shared_rate_nonneg|done|].
      rewrite H2. pose proof shared_rate_nonneg. nia.
  - destruct (touch_shared _ _ _ _ _ Ht) as (S1 & S2 & S3). constructor; cbn; [done| | |].
    + by rewrite S1, S2, S3.
    + by eapply touch_primed.
    + apply (touch_slot _ _ _ _ _ keep _ _ H1 Ht H4).
  - pose proof (spend_slot (br_now r) _ _ _ keep _ _ Hs H4) as Hk.
    destruct (spend_spec _ _ _ Hs) as (s & s' & P1 & P2 & P3 & P4 & P5 & P6 & P7 & P8 & P9 & P10). constructor; cbn; [done| | |].
    + rewrite P8, P9. destruct (ig_shared_primed (br_ig r)); destruct (Z.leb_spec cost (ig_shared_tokens (br_ig r))) as [Hle|Hgt];
        [destruct P10 as [_ ->]; by apply bucket_spend|by destruct P10 as (_ & _ & ->)| |by destruct P10 as (_ & _ & ->)].
      destruct H2 as [-> H2]. rewrite H2 in *. destruct P10 as [_ ->]. split; lia.
    + intros x s2 Hx. rewrite P2 in Hx. destruct (decide (x = source)) as [->|Hn2]; [|rewrite lookup_insert_ne in Hx by done; by apply (H3 x)].
      destruct (H3 source s P1) as (sp & rsp & Hok).
      pose proof (spend_slot (br_now r) (br_ig r) source ig source sp rsp Hs) as Hsl. unfold source_slot_ok in Hsl. rewrite P1 in Hsl. specialize (Hsl Hok).
      rewrite P2, Hx in Hsl. eauto.
    + unfold source_slot_ok in Hk. unfold bump. destruct (decide (keep = source)); destruct (cost <=? _); try rewrite decide_True by done;
        try rewrite decide_False by done; exact Hk.
  - assert (forall sp rsp, source_ok (br_now r) s sp rsp -> source_ok (br_now r) s' sp rsp) as Hkeep.
    { intros sp rsp [P1 P2 P3]. constructor; [congruence|by rewrite E1, E2|by rewrite E3, E4]. }
    constructor; cbn; [done|done| |].
    + intros x s2 Hx. destruct (decide (x = source)) as [->|Hn2]; [|rewrite lookup_insert_ne in Hx by done; by apply (H3 x)].
      rewrite lookup_insert_eq in Hx. injection Hx as <-. destruct (H3 source s Hs) as (sp & rsp & Hok). eauto.
    + destruct (decide (keep = source)) as [<-|Hn2]; [|by rewrite lookup_insert_ne]. rewrite lookup_insert_eq. rewrite Hs in H4. by apply Hkeep.
  - by constructor.
  - constructor; cbn; [done|done| |by rewrite lookup_delete_ne].
    intros x s Hx. apply lookup_delete_Some in Hx as [_ Hx]. by apply (H3 x).
Qed.

Lemma brun_start_ok : brun_ok brun_start.
Proof.
  constructor; cbn; [done|done|intros x s Hx; by rewrite lookup_empty in Hx|]. rewrite lookup_empty. split; lia.
Qed.
End Run.

(** C27. Interpreter time is rate limited whatever the peers do: over any run of
    clock ticks, refills, touches (with eviction and re-entry at the cap of the
    table), spends by any sources, edits of their other state and disconnections
    of other sources, the time a source has taken from its own bucket is at most
    its burst plus its rate over the elapsed time, the same holds of its reserve,
    and of the shared pool for all sources together.  In particular a source
    cannot gain by getting itself evicted and coming back. *)
Theorem interpreter_time_bounded params cost t0 keep r
    (Hcost : 0 <= cost) (Hbudget : 0 <= pow_budget_micros params) (Hburst : 0 <= pow_budget_burst_micros params)
    (Hthreads : 0 <= cpu_pool_threads params)
    (Hr : rtc (bstep params cost keep) (brun_start params t0) r) :
  let window := Z.max (pow_budget_window_ms params) 1 in
  let elapsed := br_now r - t0 in
  window * br_spent r keep <= window * pow_budget_burst_micros params + pow_budget_micros params * elapsed /\
  1000 * br_reserve_spent r keep <=
    1000 * class_reserve_burst_micros params cost + class_reserve_rate_micros_per_sec params * elapsed /\
  1000 * br_shared_spent r <= 1000 * class_shared_burst_micros params + class_shared_rate_micros_per_sec params * elapsed.
Proof.
  intros window elapsed. assert (brun_ok params cost t0 keep r) as [H1 H2 _ H4].
  { pose proof (brun_start_ok params cost t0 keep) as H0. revert H0. generalize (brun_start params t0) Hr. clear Hr.
    induction 1 as [|a b c Hab Hbc IH]; [done|]. intros Ha. apply IH. by eapply bstep_ok. }
  assert (0 < window) as Hw by (unfold window; lia). assert (0 <= class_shared_rate_micros_per_sec params) as Hs by by apply shared_rate_nonneg.
  assert (0 <= class_reserve_rate_micros_per_sec params) as Hv by by apply reserve_rate_nonneg.
  assert (0 <= class_reserve_burst_micros params cost) as Hrb by by apply reserve_burst_nonneg.
  split; [|split].
  - destruct (ig_sources (br_ig r) !! keep) as [s|]; [destruct H4 as [_ Ho _]; exact (bucket_bound _ _ _ _ _ _ _ _ Hbudget Hw Ho)|].
    destruct H4 as [H4 _]. unfold elapsed. nia.
  - destruct (ig_sources (br_ig r) !! keep) as [s|]; [destruct H4 as [_ _ Ho]; exact (bucket_bound _ 1000 _ _ _ _ _ _ Hv eq_refl Ho)|].
    destruct H4 as [_ H4]. unfold elapsed. lia.
  - destruct (ig_shared_primed (br_ig r)); [exact (bucket_bound _ 1000 _ _ _ _ _ _ Hs eq_refl H2)|].
    destruct H2 as [-> _]. unfold elapsed, class_shared_burst_micros. nia.
Qed.

(** A run that spends once: the default parameters, a call of 20 ms. *)
Lemma interpreter_time_bounded_witness :
  exists r, rtc (bstep ChainParams_default 20000 7) (brun_start ChainParams_default 1000) r /\ br_spent r 7 = 20000 /\
    10000 * br_spent r 7 <= 10000 * 300000 + 100000 * (br_now r - 1000).
Proof.
  set (r0 := brun_start ChainParams_default 1000).
  set (r1 := MkRun (fst (touch (br_ig r0) 7 ChainParams_default 20000 1000)) 1000 (br_spent r0) (br_reserve_spent r0) (br_shared_spent r0)).
  set (r2 := MkRun (snd (spend_class_budget (br_ig r1) 7 20000)) 1000 (bump (br_spent r0) 7 20000)
    (bump (br_reserve_spent r0) 7 20000) 0).
  assert (rtc (bstep ChainParams_default 20000 7) r0 r2) as Hr.
  { eapply rtc_l; [apply (bs_touch _ _ _ r0 7 (br_ig r1) (Ok tt)); vm_compute; reflexivity|].
    eapply rtc_l; [apply (bs_spend _ _ _ r1 7 (br_ig r2)); vm_compute; reflexivity|]. apply rtc_refl. }
  exists r2. split; [exact Hr|]. split; [vm_compute; reflexivity|].
  destruct (interpreter_time_bounded ChainParams_default 20000 1000 7 r2) as [Hb _].
  - discriminate.
  - discriminate.
  - discriminate.
  - discriminate.
  - exact Hr.
  - exact Hb.
Defined.

(** ** The table and the cache stay within their bounds *)
Lemma put_source_count ig source s : 
  source_count (put_source ig source s) =
    source_count ig + (if decide (is_Some (ig_sources ig !! source)) then 0 else 1).
Proof.
  unfold source_count, put_source. cbn. destruct (decide _) as [[x Hx]|Hn].
  - rewrite map_size_insert_Some by eauto. lia.
  - rewrite map_size_insert_None; [lia|]. by apply eq_None_not_Some.
Qed.

Lemma touch_count params cost now ig source ig' res : 1 <= max_sources params ->
  touch ig source params cost now = (ig', res) -> source_count ig <= max_sources params ->
  source_count ig' <= max_sources params /\ (res = Ok tt -> is_Some (ig_sources ig' !! source)) /\ ig_neg ig' = ig_neg ig.
Proof.
  intros Hm H Hc. unfold touch in H. destruct (bool_decide _ && _) eqn:Eb; to_prop.
  - set (m := _ <$> ig_sources ig) in *. cbn [ig_sources with_sources] in H.
    assert (Z.of_nat (size m) = source_count ig) as Hsz by (unfold m, source_count; by rewrite map_size_fmap).
    destruct (victim params cost m) as [id|] eqn:Ev.
    2: { injection H as <- <-. split; [unfold source_count in *; cbn; lia|]. split; [done|done]. }
    destruct (victim_full params cost m id Ev) as (s & Hs & _). injection H as <- <-.
    split; [|split; [intros _; cbn; rewrite lookup_insert_eq; eauto|done]].
    rewrite put_source_count. unfold source_count in *. cbn. rewrite map_size_delete_Some by eauto.
    assert (size m <> 0%nat) by (intros E0; apply map_size_empty_inv in E0; by rewrite E0 in Hs). destruct (decide _); lia.
  - injection H as <- <-. split; [|split; [intros _; cbn; rewrite lookup_insert_eq; eauto|done]].
    rewrite put_source_count. destruct (decide _) as [Hi|Hn]; [lia|].
    destruct Eb as [Eb|Eb]; to_prop; [|lia]. exfalso. apply Hn. by apply not_eq_None_Some.
Qed.
