(* ===== verification/Ingest.v ===== *)
(** Header ingest (the second part of src/lib/chain/src/header.rs): the walks over
    staged and indexed headers, the staging of a header behind the gates, the
    promotion of a staged run into the index after its proof of work, and the
    whole batch. The store and the proof-of-work verifier are fields of the
    context. *)

From Stdlib Require Import ZArith Lia List String.
From stdpp Require Import base list gmap sets numbers.
From S2P Require Import Prelude Constants Limbs Asert Work Rules Checkpoint Blake3 Codec Crypto ChainTypes ChainWork Index ForkChoice Gates Budget.
Open Scope Z_scope.

Record IngestCtx := MkIngestCtx {
  cx_is_invalid : Hash32 -> bool;
  cx_pow_verify : bytes -> bool;
  cx_cost_micros : Z;
  cx_checkpoints : checkpoint_map;
  cx_anchor : option Anchor;
  cx_params : ChainParams;
  cx_now : Z;
  cx_mono_ms : Z;
  cx_tip : TipRef;
  cx_genesis_time : Z;
  cx_solicitation : Solicitation;
  cx_tip_epoch : Z;
  cx_side_capacity : Z;
}.

(** ** Headers seen alike, indexed or staged *)
Record Lite := MkLite {
  lt_height : Z;
  lt_hash : Hash32;
  lt_prev_hash : Hash32;
  lt_time : Z;
  lt_bits : Z;
  lt_cum_work : Work;
  lt_branch_base_height : Z;
  lt_arena : option Z;
}.
Definition lite_of_node (n : Node) (arena : option Z) : Lite :=
  MkLite (n_height n) (n_hash n) (replicate 32 0) (n_time n) (n_bits n) (n_cum_work n) (n_branch_base_height n) arena.
Definition lite_of_staged (s : Staged) : Lite :=
  MkLite (hr_height (sg_rec s)) (hr_hash (sg_rec s)) (hr_prev_hash (sg_rec s)) (hr_time (sg_rec s)) (hr_bits (sg_rec s))
    (sg_cum_work s) (sg_branch_base_height s) None.

Section Walks.
Context {E : Type} (index : HeaderIndex) (staged : list Staged).

Definition staged_find (hash : Hash32) : option Staged :=
  List.find (fun s => bytes_eqb (hr_hash (sg_rec s)) hash) (rev staged).
Definition find_parent (hash : Hash32) : outcome E (option Lite) :=
  match index_of index hash with
  | Some i => let? n := node index i in Ok (Some (lite_of_node n (Some i)))
  | None => Ok (lite_of_staged <$> staged_find hash)
  end.

Definition child_branch_base (n : Lite) : outcome E Z :=
  match lt_arena n with
  | Some i =>
    let? c := is_canonical index i in
    Ok (if c then lt_height n else lt_branch_base_height n)
  | None => Ok (lt_branch_base_height n)
  end.

Definition lite_parent (n : Lite) : outcome E (option Lite) :=
  match lt_arena n with
  | Some i =>
    let? m := node index i in
    let p := n_prev m in
    if p =? NO_PARENT then Ok None else
    let? q := node index p in
    Ok (Some (lite_of_node q (Some p)))
  | None => find_parent (lt_prev_hash n)
  end.

(** [span] is the bound of the loop; the list is built backwards. *)
Fixpoint ancestor_times_loop (span : nat) (cur : Lite) (out : list Z) : outcome E (list Z) :=
  match span with
  | O => Ok out
  | S span =>
    let out := lt_time cur :: out in
    let? p := lite_parent cur in
    match p with
    | Some p => ancestor_times_loop span p out
    | None => Ok out
    end
  end.
Definition ancestor_times (from : Lite) (span : Z) : outcome E (list Z) :=
  ancestor_times_loop (Z.to_nat span) from [].

(** [while cur.height > height]: each parent is one lower, so the difference of
    the heights is enough fuel. *)
Fixpoint ancestor_of_loop (fuel : nat) (cur : Lite) (height : Z) : outcome E (option Lite) :=
  if height <? lt_height cur then
    match fuel with
    | O => Panic
    | S fuel =>
      let? p := lite_parent cur in
      match p with
      | Some p => ancestor_of_loop fuel p height
      | None => Ok None
      end
    end
  else Ok (if lt_height cur =? height then Some cur else None).
Definition ancestor_of (from : Lite) (height : Z) : outcome E (option Lite) :=
  if lt_height from <? height then Ok None else
  if height <=? lt_branch_base_height from then
    let? n := canonical_at index height in
    match n with
    | None => Ok None
    | Some n => Ok (Some (lite_of_node n (index_of index (n_hash n))))
    end
  else ancestor_of_loop (S (Z.to_nat (lt_height from - height))) from height.

Definition anchor_reach (from : Lite) (anchor : Anchor) : outcome E AnchorReach :=
  if lt_height from <? anchor_height anchor then Ok NotReached else
  let? a := ancestor_of from (anchor_height anchor) in
  match a with
  | None => Ok NotReached
  | Some a => Ok (if bytes_eqb (lt_hash a) (anchor_hash anchor) then Matches else Contradicts)
  end.
End Walks.

Definition resolve_anchor (index : HeaderIndex) (staged : list Staged) (parent : Lite) (ctx : IngestCtx)
    : outcome Reject (Z * Z * Z) :=
  let ah := anchor_height_for (lt_height parent) (asert_anchor_interval (cx_params ctx)) in
  let? anchor := ancestor_of index staged parent ah in
  let? anchor := ok_or anchor (AsertAnchorUnavailable ah) in
  let? anchor_parent_time :=
    (if ah =? 0 then Ok (saturating_sub (cx_genesis_time ctx) BLOCK_TIME_SECS)
     else
       let? p := ancestor_of index staged parent (ah - 1) in
       let? p := ok_or p (AsertAnchorUnavailable ah) in
       Ok (lt_time p)) in
  Ok (lt_bits anchor, lt_height anchor, anchor_parent_time).

(** ** Staging one header *)

(** The gates of [stage_one], which change nothing: the decoded header, its parent
    and the base of its branch. *)
Definition stage_gates (index : HeaderIndex) (staged : list Staged) (ctx : IngestCtx) (raw : bytes) (hash : Hash32)
    : outcome Reject (Header * Lite * Z) :=
  let params := cx_params ctx in
  let? hdr := s1_fixed_fields raw (pow_limit params) in
  let? _ := s1b_checkpoint (cx_checkpoints ctx) (h_height hdr) hash in
  let? parent := find_parent index staged (h_prev_hash hdr) in
  let? parent := ok_or parent (UnknownParent (h_prev_hash hdr)) in
  let? _ := s2_height (h_height hdr) (lt_height parent) in
  let? a := resolve_anchor index staged parent ctx in
  let '(a_bits, a_height, a_parent_time) := a in
  let? expected := map_err (fun _ => AsertAnchorUnavailable a_height)
                     (expected_child_bits a_bits a_height a_parent_time (lt_height parent) (lt_time parent) (pow_limit params)) in
  let? _ := s3_bits (h_bits hdr) expected in
  let? times := ancestor_times index staged parent MEDIAN_TIME_SPAN in
  let? _ := s4_time times (h_time hdr) (cx_now ctx) in
  let? reach := match cx_anchor ctx with
                | None => Ok NotReached
                | Some a => anchor_reach index staged parent a
                end in
  let? child_base := child_branch_base index parent in
  let? _ := s5_fork_depth (cx_tip ctx) child_base (cx_anchor ctx) reach params in
  Ok (hdr, parent, child_base).

Definition staged_of (ig : Ingest) (source : SourceId) : list Staged :=
  match ig_sources ig !! source with Some s => ss_staged s | None => [] end.

(** The memo keeps what it learned even when the header is then refused. *)
Definition stage_one (ig : Ingest) (index : HeaderIndex) (memo : WorkCache) (ctx : IngestCtx) (source : SourceId)
    (raw : bytes) (hash : Hash32) : outcome Reject unit * Ingest * WorkCache :=
  match stage_gates index (staged_of ig source) ctx raw hash with
  | Err e => (Err e, ig, memo)
  | Panic => (Panic, ig, memo)
  | Ok (hdr, parent, child_base) =>
    match WorkCache_work memo (h_bits hdr) (pow_limit (cx_params ctx)) with
    | Err e => (Err e, ig, memo)
    | Panic => (Panic, ig, memo)
    | Ok (None, memo) => (Err (BadBits (h_bits hdr)), ig, memo)
    | Ok (Some w, memo) =>
      match Work_checked_add (lt_cum_work parent) w with
      | None => (Err ArithmeticOverflow, ig, memo)
      | Some cum_work =>
        let st := default SourceState_default (ig_sources ig !! source) in
        if max_staged_headers (cx_params ctx) <=? Zlen (ss_staged st)
        then (Err (StagingFull source), put_source ig source st, memo)
        else
          let rec := MkHeaderRec (h_height hdr) hash (h_prev_hash hdr) (h_time hdr) (h_bits hdr) raw in
          let st := with_staged st (ss_staged st ++ [MkStaged rec cum_work child_base]) ({[hash]} ∪ ss_staged_hashes st) in
          (Ok tt, put_source ig source st, memo)
      end
    end
  end.

(** ** Promoting a staged run *)

(** [max_by] keeps the later of two equals. *)
Definition staged_cmp (a b : Staged) : comparison :=
  match Work_cmp (sg_cum_work a) (sg_cum_work b) with
  | Eq => bytes_cmp (hr_hash (sg_rec b)) (hr_hash (sg_rec a))
  | c => c
  end.
Definition staged_max (l : list Staged) : option Staged :=
  match l with
  | [] => None
  | s :: l => Some (fold_left (fun best x => match staged_cmp best x with Gt => best | _ => x end) l s)
  end.
(** [min_by_key] keeps the earlier of two equals. *)
Definition staged_lowest (l : list Staged) : option Staged :=
  match l with
  | [] => None
  | s :: l => Some (fold_left (fun best x => if hr_height (sg_rec x) <? hr_height (sg_rec best) then x else best) l s)
  end.

Definition drop_hashes (hashes : gset Hash32) (l : list Staged) : gset Hash32 :=
  fold_left (fun m x => m ∖ {[hr_hash (sg_rec x)]}) l hashes.

(** What the promotion loop carries: the table, the index, the headers connected,
    the conditions, the first loss, the counters and whether a proof of work
    failed. *)
Record Promo := MkPromo {
  pr_ig : Ingest;
  pr_index : HeaderIndex;
  pr_out : list HeaderRec;
  pr_obs : list Condition;
  pr_lost : option Rejection;
  pr_connected : Z;
  pr_consumed : Z;
  pr_failed : bool;
}.
Definition or_else {A} (o : option A) (x : A) : option A := match o with Some _ => o | None => Some x end.

Section Promote.
Context {E : Type} (ctx : IngestCtx) (source : SourceId).

Definition bump_failures (ig : Ingest) : outcome E Ingest :=
  let? s := expect (ig_sources ig !! source) in
  Ok (put_source ig source (with_quota s (saturating_add 32 (ss_pow_failures s) 1) (ss_quota_epoch s) (ss_quota_ms s))).

Fixpoint promote_loop (staged : list Staged) (p : Promo) : outcome E Promo :=
  match staged with
  | [] => Ok p
  | s :: staged =>
    let rec := sg_rec s in
    if cx_side_capacity ctx <=? pr_connected p then
      Ok (MkPromo (pr_ig p) (pr_index p) (pr_out p) (pr_obs p ++ [CBudgetExhausted source Staging]) (pr_lost p)
            (pr_connected p) (pr_consumed p) (pr_failed p))
    else
      let '(paid, ig) := if charges_budget (cx_solicitation ctx) then spend_class_budget (pr_ig p) source (cx_cost_micros ctx)
                         else (true, pr_ig p) in
      if negb paid then
        Ok (MkPromo ig (pr_index p) (pr_out p) (pr_obs p ++ [CBudgetExhausted source Interpreter]) (pr_lost p)
              (pr_connected p) (pr_consumed p) (pr_failed p))
      else if negb (cx_pow_verify ctx (hr_raw rec)) then
        let lost := or_else (pr_lost p) (MkRejection (hr_hash rec) (hr_height rec) (hr_height rec) (why (PowInvalid (hr_hash rec)))) in
        let ig := with_neg ig (nc_insert (ig_neg ig) (hr_hash rec) Permanent) in
        let? ig := bump_failures ig in
        Ok (MkPromo ig (pr_index p) (pr_out p) (pr_obs p) lost (pr_connected p) (pr_consumed p + 1) true)
      else
        match index_of (pr_index p) (hr_prev_hash rec) with
        | None =>
          let lost := or_else (pr_lost p) (MkRejection (hr_hash rec) (hr_height rec) (saturating_sub (hr_height rec) 1)
                                             "parent was not stored") in
          promote_loop staged (MkPromo ig (pr_index p) (pr_out p) (pr_obs p) lost (pr_connected p) (pr_consumed p + 1) (pr_failed p))
        | Some parent =>
          let? r := ix_insert (pr_index p) rec parent (sg_cum_work s) true in
          promote_loop staged (MkPromo ig (snd r) (pr_out p ++ [rec]) (pr_obs p) (pr_lost p) (pr_connected p + 1)
                                 (pr_consumed p + 1) (pr_failed p))
        end
  end.

(** After the loop: a failed proof of work drops the whole run, otherwise what was
    consumed leaves the staging area. *)
Definition promote_drain (p : Promo) : outcome E Ingest :=
  let? s := expect (ig_sources (pr_ig p) !! source) in
  let n := if pr_failed p then length (ss_staged s) else Nat.min (Z.to_nat (pr_consumed p)) (length (ss_staged s)) in
  Ok (put_source (pr_ig p) source
        (with_staged s (drop n (ss_staged s)) (drop_hashes (ss_staged_hashes s) (take n (ss_staged s))))).

Record PromoteOut := MkPromoteOut {
  po_ig : Ingest;
  po_index : HeaderIndex;
  po_out : list HeaderRec;
  po_obs : list Condition;
  po_lost : option Rejection;
  po_held : option Held;
  po_connected : Z;
}.

Definition promote (ig : Ingest) (index : HeaderIndex) (out : list HeaderRec) (lost : option Rejection) (held : option Held)
    : outcome E PromoteOut :=
  match staged_max (staged_of ig source) with
  | None => Ok (MkPromoteOut ig index out [] lost held 0)
  | Some terminal =>
    let staged := staged_of ig source in
    let depth := saturating_sub (tip_height (cx_tip ctx)) (sg_branch_base_height terminal) in
    match s6_claimed_work (sg_cum_work terminal) (hr_hash (sg_rec terminal)) (hr_height (sg_rec terminal)) depth (cx_tip ctx) with
    | Panic => Panic
    | Err _ =>
      let held := match held, staged_lowest staged with
                  | None, Some low => Some (MkHeld (hr_hash (sg_rec low)) (hr_height (sg_rec low)))
                  | _, _ => held
                  end in
      Ok (MkPromoteOut ig index out [] lost held 0)
    | Ok _ =>
      let? st := expect (ig_sources ig !! source) in
      if charges_child_quota (cx_solicitation ctx) && (child_pow_failures_per_source (cx_params ctx) <=? ss_pow_failures st)
      then Ok (MkPromoteOut ig index out [CBudgetExhausted source ChildQuota] lost held 0)
      else
        let? p := promote_loop staged (MkPromo ig index out [] lost 0 0 false) in
        let? ig := promote_drain p in
        Ok (MkPromoteOut ig (pr_index p) (pr_out p) (pr_obs p) (pr_lost p) held (pr_connected p))
    end
  end.
End Promote.

(** ** A batch *)
Record Batch := MkBatch {
  bt_ig : Ingest;
  bt_index : HeaderIndex;
  bt_memo : WorkCache;
  bt_out : list HeaderRec;
  bt_obs : list Condition;
  bt_acc : Accepted;
  bt_dups : Z;
  bt_first : option (Hash32 * Z);
}.

Definition acc_duplicate (a : Accepted) (held : option Held) : outcome Reject Accepted :=
  let? d := add_checked 32 (ac_duplicates a) 1 in
  Ok (MkAccepted (ac_connected a) d (ac_rejected a) (ac_staged a) (ac_verified_height a) (ac_first_rejection a) held).

Section Submit.
Context (ctx : IngestCtx) (source : SourceId).
Abbreviation params := (cx_params ctx).

Definition is_staged (ig : Ingest) (hash : Hash32) : bool :=
  match ig_sources ig !! source with Some s => bool_decide (hash ∈ ss_staged_hashes s) | None => false end.
Definition held_staged (ig : Ingest) (hash : Hash32) : option Held :=
  s ← List.find (fun x => bytes_eqb (hr_hash (sg_rec x)) hash) (staged_of ig source);
  Some (MkHeld hash (hr_height (sg_rec s))).

(** A header already staged, indexed, or known to be bad: the flag says whether
    the batch stops. *)
Definition count_duplicate (b : Batch) (hash : Hash32) (staged_here : bool) : outcome Reject (bool * Batch) :=
  let a := bt_acc b in
  let held := match ac_first_held a with
              | Some h => Some h
              | None => if staged_here then held_staged (bt_ig b) hash else None
              end in
  let? a := acc_duplicate a held in
  let? batch_dups := add_checked 32 (bt_dups b) 1 in
  let? st := expect (ig_sources (bt_ig b) !! source) in
  let? dups := add_checked 32 (ss_dups st) 1 in
  let ig := put_source (bt_ig b) source (with_dups st dups (ss_dup_window_ms st)) in
  let obs := bt_obs b ++ (if max_duplicates_per_window params <? dups then [CDuplicateFlood source dups] else []) in
  if max_duplicates_per_batch params <? batch_dups
  then Ok (true, MkBatch ig (bt_index b) (bt_memo b) (bt_out b) (obs ++ [CBudgetExhausted source Duplicates]) a batch_dups (bt_first b))
  else Ok (false, MkBatch ig (bt_index b) (bt_memo b) (bt_out b) obs a batch_dups (bt_first b)).

Definition batch_promote (b : Batch) : outcome Reject Batch :=
  let a := bt_acc b in
  let? p := promote ctx source (bt_ig b) (bt_index b) (bt_out b) (ac_first_rejection a) (ac_first_held a) in
  let? connected := add_checked 64 (ac_connected a) (po_connected p) in
  Ok (MkBatch (po_ig p) (po_index p) (bt_memo b) (po_out p) (bt_obs b ++ po_obs p)
        (MkAccepted connected (ac_duplicates a) (ac_rejected a) (ac_staged a) (ac_verified_height a) (po_lost p) (po_held p))
        (bt_dups b) (bt_first b)).

Definition rejection_of (raw : bytes) (hash : Hash32) (rej : Reject) : Rejection :=
  let height := match Header_decode raw with Ok h => h_height h | _ => 0 end in
  let repair_from := match rej with UnknownParent _ => saturating_sub height 1 | _ => height end in
  MkRejection hash height repair_from (why rej).

Definition batch_stage (b : Batch) (raw : bytes) (hash : Hash32) : outcome Reject Batch :=
  let a := bt_acc b in
  match stage_one (bt_ig b) (bt_index b) (bt_memo b) ctx source raw hash with
  | (Ok _, ig, memo) =>
    let? staged := add_checked 32 (ac_staged a) 1 in
    let first := match bt_first b with
                 | Some f => Some f
                 | None => (fun x => (hr_hash (sg_rec x), hr_height (sg_rec x))) <$> list.last (staged_of ig source)
                 end in
    Ok (MkBatch ig (bt_index b) memo (bt_out b) (bt_obs b)
          (MkAccepted (ac_connected a) (ac_duplicates a) (ac_rejected a) staged (ac_verified_height a)
             (ac_first_rejection a) (ac_first_held a)) (bt_dups b) first)
  | (Err rej, ig, memo) =>
    let? rejected := add_checked 32 (ac_rejected a) 1 in
    let ig := with_neg ig (nc_insert (ig_neg ig) hash (permanence rej)) in
    Ok (MkBatch ig (bt_index b) memo (bt_out b) (bt_obs b)
          (MkAccepted (ac_connected a) (ac_duplicates a) rejected (ac_staged a) (ac_verified_height a)
             (or_else (ac_first_rejection a) (rejection_of raw hash rej)) (ac_first_held a)) (bt_dups b) (bt_first b))
  | (Panic, _, _) => Panic
  end.

Fixpoint batch_loop (raws : list bytes) (b : Batch) : outcome Reject Batch :=
  match raws with
  | [] => Ok b
  | raw :: raws =>
    let hash := header_hash raw in
    let staged_here := is_staged (bt_ig b) hash in
    if staged_here || ix_contains (bt_index b) hash || nc_contains (ig_neg (bt_ig b)) hash || cx_is_invalid ctx hash then
      let? r := count_duplicate b hash staged_here in
      let '(stop, b) := r in
      if stop then Ok b else batch_loop raws b
    else
      let? b := (if max_staged_headers params <=? ig_staged (bt_ig b) source then batch_promote b else Ok b) in
      let? b := batch_stage b raw hash in
      batch_loop raws b
  end.

(** The table before the batch: pools refilled, the source entered, its quota and
    duplicate windows rolled. *)
Definition roll_dups (s : SourceState) : outcome Reject SourceState :=
  let? w := expect (checked 64 (duplicate_window_secs params * 1000)) in
  Ok (if w <=? saturating_sub (cx_mono_ms ctx) (ss_dup_window_ms s) then with_dups s 0 (cx_mono_ms ctx) else s).

Definition batch_finish (b : Batch) : outcome Reject (Ingest * HeaderIndex * WorkCache * list HeaderRec * list Condition * Accepted) :=
  let? b := batch_promote b in
  let a := bt_acc b in
  let held := match ac_first_held a, bt_first b with
              | None, Some (hash, height) => if is_staged (bt_ig b) hash then Some (MkHeld hash height) else None
              | h, _ => h
              end in
  let? tip := ix_tip_height (bt_index b) in
  let last := match list.last (staged_of (bt_ig b) source) with Some x => hr_height (sg_rec x) | None => 0 end in
  Ok (bt_ig b, bt_index b, bt_memo b, bt_out b, bt_obs b,
      MkAccepted (ac_connected a) (ac_duplicates a) (ac_rejected a) (wrap 32 (ig_staged (bt_ig b) source)) (Z.max tip last)
        (ac_first_rejection a) held).

Definition submit_headers (ig : Ingest) (index : HeaderIndex) (memo : WorkCache) (raws : list bytes)
    : Ingest * outcome Reject (HeaderIndex * WorkCache * list HeaderRec * list Condition * Accepted) :=
  let ig := refill_shared ig params (cx_mono_ms ctx) in
  match touch ig source params (cx_cost_micros ctx) (cx_mono_ms ctx) with
  | (ig, Err e) => (ig, Err e)
  | (ig, Panic) => (ig, Panic)
  | (ig, Ok _) =>
    let r :=
      let? st := expect (ig_sources ig !! source) in
      let? st := roll_dups (roll_quota_epoch st (cx_tip_epoch ctx) params (cx_mono_ms ctx)) in
      let ig := put_source ig source st in
      let? tip := ix_tip_height index in
      let? b := batch_loop raws (MkBatch ig index memo [] [] (MkAccepted 0 0 0 0 tip None None) 0 None) in
      batch_finish b in
    match r with
    | Ok (ig, index, memo, out, obs, a) => (ig, Ok (index, memo, out, obs, a))
    | Err e => (ig, Err e)
    | Panic => (ig, Panic)
    end
  end.
End Submit.
