(* ===== verification/IngestInv.v ===== *)
(** Safety of header ingest. The invariant ties the index and the staging areas of
    all sources to one record [K] of the headers seen: every indexed or staged
    header is in [K] with the cumulative work computed for it, every header of [K]
    but genesis extends another one, and the parents of a staged run are indexed
    or staged before it. The theorems: a batch never panics, keeps the invariant
    and inserts only headers that extend their parent with legal bits, the right
    cumulative work and a verified proof of work, unless two headers collide under
    BLAKE3; no staged header is ever orphaned; the tables stay bounded. *)

From Stdlib Require Import ZArith Lia List String.
From stdpp Require Import base list gmap sets numbers.
From S2P Require Import Prelude Constants Limbs Asert Work Rules Checkpoint Blake3 Codec Crypto ChainTypes ChainWork Index ForkChoice Gates Budget Ingest.
Open Scope Z_scope.

Abbreviation Known := (gmap Hash32 (HeaderRec * Work)).

Definition extends (limit : Target) (prec : HeaderRec) (pcum : Work) (rec : HeaderRec) (cum : Work) : Prop :=
  hr_height rec = saturating_add 64 (hr_height prec) 1 /\ 0 <= hr_bits rec < 2 ^ 32 /\
  exists t w, expand_bits (hr_bits rec) limit = Some t /\ work_from_target (E := Reject) (target_to_be t) = Ok w /\
    Work_checked_add pcum w = Some cum.

Record known (limit : Target) (g : Hash32) (K : Known) : Prop := {
  kn_hash : forall h rec cum, K !! h = Some (rec, cum) -> hr_hash rec = h /\ hash_ok h;
  kn_raw : forall h rec cum, K !! h = Some (rec, cum) -> h <> g ->
    h = header_hash (hr_raw rec) /\ HeaderRec_from_raw (E := Reject) (hr_raw rec) = Ok rec /\ bytes_ok (hr_raw rec);
  kn_child : forall h rec cum, K !! h = Some (rec, cum) -> h <> g ->
    exists prec pcum, K !! hr_prev_hash rec = Some (prec, pcum) /\ extends limit prec pcum rec cum;
  kn_height : forall h rec cum, K !! h = Some (rec, cum) -> 0 <= hr_height rec;
}.

Definition tracks_node (K : Known) (nodes : list Node) (n : Node) : Prop :=
  exists rec, K !! n_hash n = Some (rec, n_cum_work n) /\ n_height n = hr_height rec /\ n_time n = hr_time rec /\
    n_bits n = hr_bits rec /\
    (n_prev n <> NO_PARENT -> exists p, zlookup nodes (n_prev n) = Some p /\ n_hash p = hr_prev_hash rec).
Definition tracked (K : Known) (nodes : list Node) : Prop := forall i n, zlookup nodes i = Some n -> tracks_node K nodes n.

(** The hashes of a staged run are those of [K], and each parent is indexed or
    staged before. *)
Definition staged_known (K : Known) (staged : list Staged) : Prop :=
  forall s, s ∈ staged -> K !! hr_hash (sg_rec s) = Some (sg_rec s, sg_cum_work s).
Definition staged_closed (ix : HeaderIndex) (staged : list Staged) : Prop :=
  forall k s, staged !! k = Some s ->
    is_Some (index_of ix (hr_prev_hash (sg_rec s))) \/
    exists j p, (j < k)%nat /\ staged !! j = Some p /\ hr_hash (sg_rec p) = hr_prev_hash (sg_rec s).

Record view_ok (limit : Target) (g : Hash32) (K : Known) (ix : HeaderIndex) (staged : list Staged) : Prop := {
  vk_known : known limit g K;
  vk_index : index_wf ix;
  vk_root : exists n, zlookup (ix_nodes ix) 0 = Some n /\ n_hash n = g;
  vk_tracked : tracked K (ix_nodes ix);
  vk_staged : staged_known K staged;
  vk_closed : staged_closed ix staged;
  vk_fresh : forall s, s ∈ staged -> hr_hash (sg_rec s) <> g;
  vk_bound : Zlen staged <= NO_PARENT;
}.

Section View.
Context (limit : Target) (g : Hash32) (K : Known) (ix : HeaderIndex) (staged : list Staged).
Context (V : view_ok limit g K ix staged).
Abbreviation nodes := (ix_nodes ix).

Lemma index_of_node h i : index_of ix h = Some i -> exists n, zlookup nodes i = Some n /\ n_hash n = h.
Proof. apply (wf_hash _ (vk_index _ _ _ _ _ V)). Qed.

Lemma node_height_bound i n : zlookup nodes i = Some n -> 0 <= n_height n < ix_len ix.
Proof.
  intros Hn. pose proof (arena_height _ (wf_arena _ (vk_index _ _ _ _ _ V)) i n Hn). apply zlookup_lt in Hn. unfold ix_len. lia.
Qed.

Lemma staged_height_bound : forall k s, staged !! k = Some s ->
  0 <= hr_height (sg_rec s) <= ix_len ix + Z.of_nat k /\
  exists prec pcum, K !! hr_prev_hash (sg_rec s) = Some (prec, pcum) /\ hr_height (sg_rec s) = hr_height prec + 1 /\
    extends limit prec pcum (sg_rec s) (sg_cum_work s).
Proof.
  intros k. induction (lt_wf k) as [k _ IH]. intros s Hs.
  assert (s ∈ staged) as Hin by by eapply list_elem_of_lookup_2.
  pose proof (vk_staged _ _ _ _ _ V s Hin) as Hk. pose proof (vk_fresh _ _ _ _ _ V s Hin) as Hg.
  destruct (kn_child _ _ _ (vk_known _ _ _ _ _ V) _ _ _ Hk Hg) as (prec & pcum & Hp & He).
  pose proof (kn_height _ _ _ (vk_known _ _ _ _ _ V) _ _ _ Hk) as H0.
  assert (0 <= hr_height prec <= ix_len ix + Z.of_nat k - 1) as Hb.
  { destruct (vk_closed _ _ _ _ _ V k s Hs) as [[i Hi]|(j & p & Hj & Hsj & Hh)].
    - destruct (index_of_node _ _ Hi) as (n & Hn & Hnh). destruct (vk_tracked _ _ _ _ _ V i n Hn) as (rec & Hr & Hhe & _).
      rewrite Hnh, Hp in Hr. injection Hr as -> _. rewrite <-Hhe. pose proof (node_height_bound i n Hn). lia.
    - destruct (IH j Hj p Hsj) as [Hb _]. assert (p ∈ staged) as Hpin by by eapply list_elem_of_lookup_2.
      pose proof (vk_staged _ _ _ _ _ V p Hpin) as Hkp. rewrite Hh, Hp in Hkp. injection Hkp as -> _. lia. }
  pose proof (vk_bound _ _ _ _ _ V) as HB. pose proof (aw_size _ (wf_arena _ (vk_index _ _ _ _ _ V))) as HA.
  apply lookup_lt_Some in Hs. unfold ix_len, Zlen, NO_PARENT, umax in *.
  assert (hr_height (sg_rec s) = hr_height prec + 1) as Hh.
  { destruct He as [-> _]. unfold saturating_add, umax. rewrite Z.min_l; lia. }
  split; [lia|]. exists prec, pcum. done.
Qed.

(** ** Lite headers *)
Record lite_ok (l : Lite) : Prop := {
  lo_known : exists rec, K !! lt_hash l = Some (rec, lt_cum_work l) /\ lt_height l = hr_height rec /\
    lt_time l = hr_time rec /\ lt_bits l = hr_bits rec;
  lo_where : match lt_arena l with
    | Some i => exists n, zlookup nodes i = Some n /\ n_hash n = lt_hash l /\ lt_height l = n_height n
    | None => exists k s, staged !! k = Some s /\ l = lite_of_staged s
    end;
}.

Lemma lite_node_ok i n : zlookup nodes i = Some n -> lite_ok (lite_of_node n (Some i)).
Proof.
  intros Hn. destruct (vk_tracked _ _ _ _ _ V i n Hn) as (rec & H1 & H2 & H3 & H4 & _).
  constructor; cbn; [by exists rec|by exists n].
Qed.

Lemma lite_staged_ok k s : staged !! k = Some s -> lite_ok (lite_of_staged s).
Proof.
  intros Hs. constructor; cbn; [|by exists k, s]. exists (sg_rec s). split; [|done].
  apply (vk_staged _ _ _ _ _ V). by eapply list_elem_of_lookup_2.
Qed.

Lemma lite_height_bound l : lite_ok l -> 0 <= lt_height l <= ix_len ix + Zlen staged.
Proof.
  intros [_ Hw]. destruct (lt_arena l) as [i|].
  - destruct Hw as (n & Hn & _ & ->). pose proof (node_height_bound i n Hn). pose proof (Zlen_nonneg staged). lia.
  - destruct Hw as (k & s & Hs & ->). cbn. destruct (staged_height_bound k s Hs) as [Hb _].
    apply lookup_lt_Some in Hs. unfold Zlen. lia.
Qed.

Lemma find_parent_ok {E} h : exists o, find_parent (E := E) ix staged h = Ok o /\
  match o with
  | Some l => lite_ok l /\ lt_hash l = h
  | None => index_of ix h = None /\ forall k s, staged !! k = Some s -> hr_hash (sg_rec s) <> h
  end.
Proof.
  unfold find_parent. destruct (index_of ix h) as [i|] eqn:Ei.
  - destruct (index_of_node _ _ Ei) as (n & Hn & Hh). rewrite (proj2 (node_ok ix i n) Hn). cbn [obind]. eexists. split; [done|].
    split; [by apply lite_node_ok|done].
  - eexists. split; [done|]. unfold staged_find. destruct (List.find _ (rev staged)) as [s|] eqn:Ef; cbn.
    + apply find_some in Ef as [Hin Hh]. unfold bytes_eqb in Hh. apply bool_decide_eq_true in Hh. apply in_rev, list_elem_of_In in Hin.
      apply list_elem_of_lookup in Hin as [k Hk]. split; [by eapply lite_staged_ok|done].
    + split; [done|]. intros k s Hs Hh. apply list_elem_of_lookup_2, list_elem_of_In, in_rev in Hs.
      apply (find_none _ _ Ef) in Hs. unfold bytes_eqb in Hs. rewrite bool_decide_eq_true_2 in Hs; done.
Qed.

Lemma lite_parent_ok {E} l : lite_ok l -> exists o, lite_parent (E := E) ix staged l = Ok o /\
  match o with
  | Some p => lite_ok p /\ lt_height l = lt_height p + 1
  | None => lt_height l = 0
  end.
Proof.
  intros [Hk Hw]. unfold lite_parent. pose proof (wf_arena _ (vk_index _ _ _ _ _ V)) as A. destruct (lt_arena l) as [i|].
  - destruct Hw as (n & Hn & Hh & ->). rewrite (proj2 (node_ok ix i n) Hn). cbn [obind].
    destruct (Z.eqb_spec (n_prev n) NO_PARENT) as [Hp|Hp].
    + eexists. split; [done|]. apply (prev_root nodes A i n Hn) in Hp as ->. by apply (aw_root _ A).
    + destruct (prev_in_range nodes A i n Hn Hp) as (_ & q & _ & Hq & Hht). rewrite (proj2 (node_ok ix _ q) Hq). cbn [obind].
      eexists. split; [done|]. split; [by apply lite_node_ok|done].
  - destruct Hw as (k & s & Hs & ->). cbn [lt_prev_hash lt_height lite_of_staged].
    destruct (find_parent_ok (E := E) (hr_prev_hash (sg_rec s))) as (o & -> & Ho). exists o. split; [done|].
    destruct (staged_height_bound k s Hs) as (_ & prec & pcum & Hp & Hht & _). destruct o as [p|].
    + destruct Ho as [Hok Hph]. split; [done|]. destruct (lo_known _ Hok) as (rec & Hr & Hrh & _).
      rewrite Hph, Hp in Hr. injection Hr as -> _. lia.
    + destruct Ho as [Hi Hno]. destruct (vk_closed _ _ _ _ _ V k s Hs) as [[i Hi']|(j & p & _ & Hj & Hh)]; [congruence|].
      by destruct (Hno j p Hj).
Qed.

Lemma ancestor_of_loop_ok {E} height fuel : forall l, lite_ok l -> 0 <= height <= lt_height l ->
  (lt_height l - height < Z.of_nat fuel) ->
  exists a, ancestor_of_loop (E := E) ix staged fuel l height = Ok (Some a) /\ lite_ok a /\ lt_height a = height.
Proof.
  induction fuel as [|fuel IH]; intros l Hl Hh Hf; [lia|]. cbn [ancestor_of_loop].
  destruct (Z.ltb_spec height (lt_height l)) as [Hlt|Hge].
  - destruct (lite_parent_ok (E := E) l Hl) as (o & -> & Ho). cbn [obind]. destruct o as [p|]; [|lia].
    destruct Ho as [Hp Hd]. apply IH; [done|lia|lia].
  - assert (lt_height l = height) as He by lia. rewrite (proj2 (Z.eqb_eq _ _) He). eauto.
Qed.

Lemma ancestor_of_ok {E} l height : lite_ok l -> 0 <= height -> exists o, ancestor_of (E := E) ix staged l height = Ok o.
Proof.
  intros Hl Hh. unfold ancestor_of. destruct (Z.ltb_spec (lt_height l) height); [by eexists|].
  destruct (height <=? _).
  - unfold canonical_at. destruct (zlookup (ix_canonical ix) height) as [i|] eqn:Ei; [|by eexists].
    destruct (path_node nodes (wf_arena _ (vk_index _ _ _ _ _ V)) _ _ _ (wf_canon _ (vk_index _ _ _ _ _ V)) Ei) as (n & Hn & _).
    rewrite (proj2 (node_ok ix i n) Hn). cbn [obind]. by eexists.
  - destruct (ancestor_of_loop_ok (E := E) height (S (Z.to_nat (lt_height l - height))) l) as (a & -> & _); [done|lia|lia|by eexists].
Qed.

Lemma ancestor_times_ok {E} span : forall l out, lite_ok l -> (0 < span)%nat ->
  exists ts, ancestor_times_loop (E := E) ix staged span l out = Ok ts /\ ts <> [].
Proof.
  induction span as [|span IH]; intros l out Hl Hs; [lia|]. cbn [ancestor_times_loop].
  destruct (lite_parent_ok (E := E) l Hl) as (o & -> & Ho). cbn [obind]. destruct o as [p|]; [|by eexists].
  destruct Ho as [Hp _]. destruct span as [|span]; [by eexists|]. apply IH; [done|lia].
Qed.

Lemma child_branch_base_ok {E} l : lite_ok l -> exists b, child_branch_base (E := E) ix l = Ok b.
Proof.
  intros [_ Hw]. unfold child_branch_base. destruct (lt_arena l) as [i|]; [|by eexists].
  destruct Hw as (n & Hn & _). rewrite (is_canonical_spec ix i n (vk_index _ _ _ _ _ V) Hn). cbn. by eexists.
Qed.
End View.

(** ** The gates never panic, and what they leave behind *)
Lemma np_from_compact b : from_compact b <> Panic.
Proof. unfold from_compact. no_panic. Qed.
Lemma np_expected_child_bits a b c d e f : expected_child_bits a b c d e f <> Panic.
Proof. unfold expected_child_bits, asert_next_bits, asert_next_target. no_panic. apply np_from_compact. Qed.
Lemma np_s1_fixed_fields raw limit : s1_fixed_fields raw limit <> Panic.
Proof. unfold s1_fixed_fields, Header_decode. no_panic. Qed.
Lemma np_s1b_checkpoint cps h x : s1b_checkpoint cps h x <> Panic.
Proof. apply np_map_err. induction cps as [|[hh y] cps IH]; cbn [check_block_checkpoint]; no_panic. Qed.
Lemma np_s2_height a b : s2_height a b <> Panic.
Proof. unfold s2_height. no_panic. Qed.
Lemma np_s3_bits a b : s3_bits a b <> Panic.
Proof. unfold s3_bits. no_panic. Qed.
Lemma np_s5_fork_depth t b a r p : s5_fork_depth t b a r p <> Panic.
Proof. unfold s5_fork_depth. no_panic. Qed.
Lemma np_s6_claimed_work a b c d t : s6_claimed_work a b c d t <> Panic.
Proof. unfold s6_claimed_work. no_panic. Qed.
#[local] Hint Resolve np_expected_child_bits np_s1_fixed_fields np_s1b_checkpoint np_s2_height np_s3_bits np_s5_fork_depth : nopanic.

Lemma np_s4_time times t now : times <> [] -> s4_time times t now <> Panic.
Proof.
  intros Ht. unfold s4_time. destruct (median_time_past_total (E := Reject) times Ht) as [m ->]. cbn [obind].
  unfold check_block_time. no_panic.
Qed.

Section Stage.
Context (limit : Target) (g : Hash32) (K : Known) (ix : HeaderIndex) (staged : list Staged) (ctx : IngestCtx).
Context (V : view_ok limit g K ix staged).
Hypothesis Hinterval : 0 <= asert_anchor_interval (cx_params ctx).
Hypothesis Hlimit : pow_limit (cx_params ctx) = limit.
Hypothesis Hanchor : forall a, cx_anchor ctx = Some a -> 0 <= anchor_height a.

Lemma np_resolve_anchor l : lite_ok K ix staged l -> resolve_anchor ix staged l ctx <> Panic.
Proof.
  intros Hl. unfold resolve_anchor. pose proof (lite_height_bound _ _ _ _ _ V l Hl) as Hh.
  destruct (anchor_height_for_spec (lt_height l) (asert_anchor_interval (cx_params ctx))) as (_ & _ & Hp); [lia|done|].
  set (ah := anchor_height_for _ _) in *. destruct (ancestor_of_ok (E := Reject) _ _ _ _ _ V l ah Hl Hp) as [o ->]. cbn [obind].
  apply np_bind; [apply np_ok_or|]. intros a _. apply np_bind; [|done]. destruct (Z.eqb_spec ah 0); [done|].
  destruct (ancestor_of_ok (E := Reject) _ _ _ _ _ V l (ah - 1) Hl ltac:(lia)) as [o2 ->]. cbn [obind].
  apply np_bind; [apply np_ok_or|done].
Qed.

Lemma np_anchor_reach l a : lite_ok K ix staged l -> 0 <= anchor_height a -> anchor_reach (E := Reject) ix staged l a <> Panic.
Proof.
  intros Hl Ha. unfold anchor_reach. destruct (_ <? _); [done|].
  destruct (ancestor_of_ok (E := Reject) _ _ _ _ _ V l (anchor_height a) Hl Ha) as [o ->]. cbn [obind]. by destruct o.
Qed.

Lemma np_stage_gates raw hash : stage_gates ix staged ctx raw hash <> Panic.
Proof.
  unfold stage_gates. apply np_bind; [no_panic|]. intros hdr _. apply np_bind; [no_panic|]. intros _ _.
  destruct (find_parent_ok (E := Reject) _ _ _ _ _ V (h_prev_hash hdr)) as (o & -> & Ho). cbn [obind].
  destruct o as [l|]; [|done]. destruct Ho as [Hl _]. cbn [ok_or obind]. apply np_bind; [no_panic|]. intros _ _.
  apply np_bind; [by apply np_resolve_anchor|]. intros [[ab ah] apt] _. apply np_bind; [no_panic|]. intros e _.
  apply np_bind; [no_panic|]. intros _ _.
  assert (0 < Z.to_nat MEDIAN_TIME_SPAN)%nat as Hspan by (unfold MEDIAN_TIME_SPAN; lia).
  destruct (ancestor_times_ok (E := Reject) _ _ _ _ _ V (Z.to_nat MEDIAN_TIME_SPAN) l [] Hl Hspan) as (ts & Hts & Hne).
  unfold ancestor_times. rewrite Hts. cbn [obind]. apply np_bind; [by apply np_s4_time|]. intros _ _.
  apply np_bind. { destruct (cx_anchor ctx) as [a|]; [apply np_anchor_reach; [done|by apply Hanchor]|done]. }
  intros reach _. destruct (child_branch_base_ok (E := Reject) _ _ _ _ _ V l Hl) as [b ->]. cbn [obind].
  apply np_bind; [no_panic|done].
Qed.

Lemma stage_gates_spec raw hash hdr parent base : stage_gates ix staged ctx raw hash = Ok (hdr, parent, base) ->
  Zlen raw = HEADER_BYTES /\ Header_decode raw = Ok hdr /\ expand_bits (h_bits hdr) limit <> None /\
  lite_ok K ix staged parent /\ lt_hash parent = h_prev_hash hdr /\ h_height hdr = saturating_add 64 (lt_height parent) 1.
Proof.
  intros H. unfold stage_gates in H. step_in H. apply s1_fixed_fields_spec in E as (Hl & Hd & _ & _ & _ & He). step_in H.
  destruct (find_parent_ok (E := Reject) _ _ _ _ _ V (h_prev_hash a)) as (o & Ho & Hok). rewrite Ho in H. cbn [obind] in H.
  destruct o as [l|]; [|discriminate H]. cbn [ok_or obind] in H. destruct Hok as [Hlo Hlh]. step_in H. step_in H.
  destruct a2 as [[ab ah] apt]. do 7 step_in H. apply Ok_inj in H. injection H as <- <- <-. rewrite Hlimit in He.
  split; [done|]. split; [done|]. split; [done|]. split; [done|]. split; [done|].
  unfold s2_height in *. match goal with H : (if negb (h_height a =? _) then _ else _) = _ |- _ => step_in H; to_prop; done end.
Qed.
End Stage.

(** ** The invariant of the whole table *)
Lemma ix_reach_mono (adm adm' : option Node -> HeaderRec -> Work -> Prop) ix :
  (forall p rec w, adm p rec w -> adm' p rec w) -> ix_reach adm ix -> ix_reach adm' ix.
Proof.
  intros Hm. induction 1; [eapply reach_genesis|eapply reach_insert|eapply reach_body|eapply reach_flag|eapply reach_invalid|eapply reach_adopt]; eauto.
Qed.

(** What every header of the index but genesis has passed. *)
Definition verified_header (verify : bytes -> bool) (limit : Target) (parent : option Node) (rec : HeaderRec) (cum : Work) : Prop :=
  legal_header limit parent rec cum /\
  (parent <> None -> verify (hr_raw rec) = true /\ hr_hash rec = header_hash (hr_raw rec) /\
     HeaderRec_from_raw (E := Reject) (hr_raw rec) = Ok rec).

Definition staging (s : SourceState) : list Staged * gset Hash32 := (ss_staged s, ss_staged_hashes s).

Section Inv.
Context (params : ChainParams) (verify : bytes -> bool) (g : Hash32).
Abbreviation limit := (pow_limit params).

Record core_ok (K : Known) (ix : HeaderIndex) : Prop := {
  ck_known : known limit g K;
  ck_reach : ix_reach (verified_header verify limit) ix;
  ck_root : exists n, zlookup (ix_nodes ix) 0 = Some n /\ n_hash n = g;
  ck_tracked : tracked K (ix_nodes ix);
}.

Record stage_ok (K : Known) (ix : HeaderIndex) (st : list Staged * gset Hash32) : Prop := {
  sk_known : staged_known K (fst st);
  sk_closed : staged_closed ix (fst st);
  sk_fresh : forall s, s ∈ fst st -> hr_hash (sg_rec s) <> g;
  sk_len : Zlen (fst st) <= max_staged_headers params;
  sk_nodup : NoDup ((fun s => hr_hash (sg_rec s)) <$> fst st);
  sk_hashes : snd st = list_to_set ((fun s => hr_hash (sg_rec s)) <$> fst st);
}.

Record ing_inv (K : Known) (ig : Ingest) (ix : HeaderIndex) : Prop := {
  iv_core : core_ok K ix;
  iv_stage : forall x st, (staging <$> ig_sources ig) !! x = Some st -> stage_ok K ix st;
  iv_neg : nc_wf (ig_neg ig);
  iv_count : source_count ig <= max_sources params;
}.

Hypothesis Hmax : max_staged_headers params <= NO_PARENT.
Hypothesis Hlimit : target_ok limit.

Lemma core_wf K ix : core_ok K ix -> index_wf ix.
Proof. intros C. eapply ix_reach_wf_lemma, C. Qed.

Lemma view_of K ix st : core_ok K ix -> stage_ok K ix st -> view_ok limit g K ix (fst st).
Proof. intros C S. pose proof (core_wf K ix C). destruct C, S. constructor; auto. lia. Qed.

Lemma empty_stage_ok K ix : 0 <= max_staged_headers params -> stage_ok K ix ([], ∅).
Proof.
  intros Hm. constructor; cbn; [|by intros k s Hk| |done|constructor|done]; intros s Hs; by apply not_elem_of_nil in Hs.
Qed.

(** Growing the record of headers and the index keeps what is staged. *)
Definition ix_grows (ix ix' : HeaderIndex) : Prop := forall h, is_Some (index_of ix h) -> is_Some (index_of ix' h).

(** A header that was connected: its proof of work verified, its record that of its bytes, not genesis. *)
Definition fresh_rec (rec : HeaderRec) : Prop :=
  verify (hr_raw rec) = true /\ HeaderRec_from_raw (E := Reject) (hr_raw rec) = Ok rec /\ bytes_ok (hr_raw rec) /\ hr_hash rec <> g.
(** The index [ix'] is [ix] with headers of [new] behind; the canonical chain is the same. *)
Record added (ix ix' : HeaderIndex) (new : list HeaderRec) : Prop := {
  ad_canonical : ix_canonical ix' = ix_canonical ix;
  ad_nodes : exists ns, ix_nodes ix' = ix_nodes ix ++ ns /\
    forall n, n ∈ ns -> exists rec, rec ∈ new /\ n_hash n = hr_hash rec /\ n_height n = hr_height rec;
  ad_indexed : forall rec, rec ∈ new -> is_Some (index_of ix' (hr_hash rec));
  ad_grows : ix_grows ix ix';
}.
Lemma added_none ix : added ix ix [].
Proof.
  constructor; [done| |by intros rec ?%not_elem_of_nil|by intros h]. exists []. rewrite app_nil_r. split; [done|]. by intros n ?%not_elem_of_nil.
Qed.
Lemma added_app a b c new new' : added a b new -> added b c new' -> added a c (new ++ new').
Proof.
  intros [A1 (ns & A2 & A2') A3 A4] [B1 (ms & B2 & B2') B3 B4]. constructor; [congruence| | |intros h Hh; by apply B4, A4].
  - exists (ns ++ ms). rewrite B2, A2, app_assoc. split; [done|]. intros n Hn.
    apply elem_of_app in Hn as [Hn|Hn]; [destruct (A2' n Hn) as (r & Hr & ?)|destruct (B2' n Hn) as (r & Hr & ?)]; exists r; (split; [|done]); apply elem_of_app; auto.
  - intros r Hr. apply elem_of_app in Hr as [Hr|Hr]; [by apply B4, A3|by apply B3].
Qed.

Lemma stage_ok_grow K K' ix ix' st : K ⊆ K' -> ix_grows ix ix' -> stage_ok K ix st -> stage_ok K' ix' st.
Proof.
  intros HK HI [H1 H2 H3 H4 H5 H6]. constructor; try done.
  - intros s Hs. eapply lookup_weaken; [by apply H1|done].
  - intros k s Hs. destruct (H2 k s Hs) as [Hi|Hj]; [left; by apply HI|by right].
Qed.

Lemma tracked_grow K K' nodes : K ⊆ K' -> tracked K nodes -> tracked K' nodes.
Proof.
  intros HK HT i n Hn. destruct (HT i n Hn) as (rec & H1 & H2). exists rec. split; [by eapply lookup_weaken|done].
Qed.

(** The changes of the budgets, quotas and windows leave staging alone. *)
Record keeps (ig ig' : Ingest) : Prop := {
  kp_staging : staging <$> ig_sources ig' = staging <$> ig_sources ig;
  kp_dups : ss_dups <$> ig_sources ig' = ss_dups <$> ig_sources ig;
  kp_neg : nc_wf (ig_neg ig) -> nc_wf (ig_neg ig');
}.

Lemma keeps_refl ig : keeps ig ig.
Proof. by constructor. Qed.
Lemma keeps_trans a b c : keeps a b -> keeps b c -> keeps a c.
Proof. intros [A1 A2 A3] [B1 B2 B3]. constructor; [congruence..|auto]. Qed.

Lemma keeps_count ig ig' : keeps ig ig' -> source_count ig' = source_count ig.
Proof.
  intros [H _ _]. unfold source_count. f_equal. rewrite <-(map_size_fmap staging (ig_sources ig')), H. apply map_size_fmap.
Qed.

Lemma keeps_inv K ig ig' ix : keeps ig ig' -> ing_inv K ig ix -> ing_inv K ig' ix.
Proof.
  intros Hk [H1 H2 H3 H4]. constructor; [done| |by apply Hk|by rewrite (keeps_count _ _ Hk)].
  intros x st Hx. rewrite (kp_staging _ _ Hk) in Hx. by eapply H2.
Qed.

Lemma keeps_put ig x s s' : ig_sources ig !! x = Some s -> staging s' = staging s -> ss_dups s' = ss_dups s ->
  keeps ig (put_source ig x s').
Proof.
  intros Hx Hs Hd. constructor; cbn; [| |done]; rewrite fmap_insert, ?Hs, ?Hd; apply insert_id; by rewrite lookup_fmap, Hx.
Qed.

Lemma keeps_neg ig c : nc_wf c -> keeps ig (with_neg ig c).
Proof. intros Hc. by constructor. Qed.

Lemma keeps_sources ig x : keeps ig x -> forall y, is_Some (ig_sources x !! y) <-> is_Some (ig_sources ig !! y).
Proof.
  intros [H _ _] y. rewrite <-!(fmap_is_Some staging), <-!lookup_fmap. by rewrite H.
Qed.

Lemma keeps_staged_of ig ig' x : keeps ig ig' -> staged_of ig' x = staged_of ig x.
Proof.
  intros [H _ _]. unfold staged_of. assert ((staging <$> ig_sources ig') !! x = (staging <$> ig_sources ig) !! x) as He by by rewrite H.
  rewrite !lookup_fmap in He. destruct (ig_sources ig' !! x), (ig_sources ig !! x); cbn in He; try done. unfold staging in He. congruence.
Qed.

Lemma refill_staging s p c now : staging (refill s p c now) = staging s.
Proof.
  unfold refill. destruct (negb _); [done|]. destruct (refill_bucket _ _ _ _ _ _). destruct (refill_bucket _ _ _ _ _ _). done.
Qed.

Lemma refill_shared_keeps ig now : keeps ig (refill_shared ig params now).
Proof. unfold refill_shared. destruct (negb _); [done|]. by destruct (refill_bucket _ _ _ _ _ _). Qed.

Lemma spend_keeps ig source cost b ig' : spend_class_budget ig source cost = (b, ig') -> keeps ig ig'.
Proof.
  unfold spend_class_budget. intros H. destruct (ig_sources ig !! source) as [s|] eqn:Es; [|injection H as _ <-; apply keeps_refl].
  destruct (_ <? _); [injection H as _ <-; apply keeps_refl|].
  destruct (negb _ && _); [injection H as _ <-; apply keeps_refl|]. injection H as _ <-.
  constructor; cbn; [| |done]; rewrite fmap_insert; apply insert_id; rewrite lookup_fmap, Es; cbn; f_equal; by destruct (_ <=? _).
Qed.

(** ** Promotion *)
Lemma ix_insert_shape ix rec parent cum pow i ix' : ix_insert (E := Reject) ix rec parent cum pow = Ok (i, ix') ->
  (is_Some (index_of ix (hr_hash rec)) /\ ix' = ix) \/
  (exists base flags, ix_nodes ix' =
     ix_nodes ix ++ [MkNode (hr_hash rec) parent (hr_height rec) (hr_time rec) (hr_bits rec) cum base flags] /\
   ix_by_hash ix' = <[hr_hash rec := i]> (ix_by_hash ix)).
Proof.
  unfold ix_insert. destruct (index_of ix (hr_hash rec)) as [e|] eqn:Ee; intros H.
  - apply Ok_inj in H. injection H as _ <-. left. eauto.
  - do 2 step_in H. apply Ok_inj in H. injection H as <- <-. right. eexists _, _. split; reflexivity.
Qed.

Lemma core_insert K ix rec cum parent : core_ok K ix -> K !! hr_hash rec = Some (rec, cum) -> hr_hash rec <> g ->
  index_of ix (hr_prev_hash rec) = Some parent -> verify (hr_raw rec) = true -> ix_len ix < NO_PARENT ->
  exists i ix', ix_insert (E := Reject) ix rec parent cum true = Ok (i, ix') /\ core_ok K ix' /\ added ix ix' [rec] /\
    ix_len ix <= ix_len ix' <= ix_len ix + 1.
Proof.
  intros C Hk Hg Hp Hver Hl. pose proof (core_wf _ _ C) as W. destruct C as [C1 C2 C3 C4].
  apply (wf_hash _ W) in Hp as (p & Hp & Hph). destruct (C4 parent p Hp) as (prec & P1 & P2 & P3 & P4 & _). rewrite Hph in P1.
  destruct (kn_child _ _ _ C1 _ _ _ Hk Hg) as (prec' & pcum & Q1 & Q2 & Q3 & t & w & Q4 & Q5 & Q6).
  rewrite P1 in Q1. injection Q1 as <- <-. destruct (kn_raw _ _ _ C1 _ _ _ Hk Hg) as (R1 & R2 & _).
  assert (hr_height rec = n_height p + 1) as Hh.
  { rewrite Q2, P2. pose proof (arena_height _ (wf_arena _ W) parent p Hp) as HH. apply zlookup_lt in Hp.
    unfold saturating_add, ix_len, NO_PARENT, umax in *. rewrite Z.min_l; lia. }
  destruct (ix_insert_wf (E := Reject) ix rec parent p cum true W Hp Hh Hl) as (i & ix' & n & Hi & W' & Hn & Hnh & Hkeep & Hcanon).
  exists i, ix'. split; [done|]. assert (is_Some (index_of ix' (hr_hash rec))) as Hin.
  { exists i. apply (wf_hash _ W'). eauto. }
  assert (ix_reach (verified_header verify limit) ix') as HR.
  { eapply (reach_insert _ ix rec parent p cum true i ix'); try done; [by apply node_ok|].
    split; [|intros _; done]. split; [apply (kn_hash _ _ _ C1 _ _ _ Hk)|]. split; [done|]. exists t, w. done. }
  destruct (ix_insert_shape _ _ _ _ _ _ _ Hi) as [[_ ->]|(base & flags & Hnodes & Hmap)].
  - split; [by constructor|]. split; [|lia]. constructor; [done| | |by intros h].
    + exists []. rewrite app_nil_r. split; [done|]. by intros x ?%not_elem_of_nil.
    + by intros r ->%list_elem_of_singleton.
  - split; [|split; [|unfold ix_len; rewrite Hnodes, Zlen_app; change (Zlen [_]) with 1; lia]].
    + constructor; [done|done| |].
      * destruct C3 as (n0 & Hn0 & Hg0). exists n0. split; [by apply Hkeep|done].
      * rewrite Hnodes. intros j m Hj. apply zlookup_snoc_inv in Hj as [Hj|[-> ->]].
        -- destruct (C4 j m Hj) as (r & T1 & T2 & T3 & T4 & T5). exists r. do 4 (split; [done|]). intros Hne.
           destruct (T5 Hne) as (q & Hq & Hqh). exists q. split; [by apply zlookup_snoc_keep|done].
        -- exists rec. cbn. do 4 (split; [done|]). intros _. exists p. split; [by apply zlookup_snoc_keep|done].
    + constructor; [done| |by intros r ->%list_elem_of_singleton|].
      { eexists. split; [exact Hnodes|]. intros x ->%list_elem_of_singleton. exists rec. split; [apply list_elem_of_here|done]. }
      intros h [j Hj]. unfold index_of. rewrite Hmap. destruct (decide (h = hr_hash rec)) as [->|Hne]; [rewrite lookup_insert_eq; eauto|].
      rewrite lookup_insert_ne by done. eauto.
Qed.

Lemma closed_tail ix ix' s todo : staged_closed ix (s :: todo) -> ix_grows ix ix' ->
  is_Some (index_of ix' (hr_hash (sg_rec s))) -> staged_closed ix' todo.
Proof.
  intros Hc Hg Hs k x Hx. destruct (Hc (S k) x Hx) as [Hi|(j & p & Hj & Hp & Hh)]; [left; by apply Hg|].
  destruct j as [|j]; [left; injection Hp as <-; by rewrite <-Hh|]. right. exists j, p. split; [lia|done].
Qed.

Context (ctx : IngestCtx) (source : SourceId).
Hypothesis Hparams : cx_params ctx = params.
Hypothesis Hverify : cx_pow_verify ctx = verify.

(** What the promotion loop does to the run [todo] it is given. *)
Record promo_ok (K : Known) (todo : list Staged) (p p' : Promo) : Prop := {
  pk_core : core_ok K (pr_index p');
  pk_keeps : keeps (pr_ig p) (pr_ig p');
  pk_consumed : exists n, pr_consumed p' = pr_consumed p + Z.of_nat n /\ (n <= length todo)%nat /\
    (pr_failed p' = false -> staged_closed (pr_index p') (drop n todo)) /\
    ix_len (pr_index p') <= ix_len (pr_index p) + Z.of_nat n /\ pr_connected p' <= pr_connected p + Z.of_nat n;
  pk_lost : pr_failed p' = false -> pr_lost p' = pr_lost p;
  pk_failed : pr_failed p = false -> pr_failed p' = true -> forall s, pr_lost p = None -> pr_lost p' = Some s -> rj_why s = why (PowInvalid []);
  pk_connected : pr_connected p <= pr_connected p' <= Z.max (pr_connected p) (cx_side_capacity ctx);
  pk_out : exists new, pr_out p' = pr_out p ++ new /\ Forall fresh_rec new /\ added (pr_index p) (pr_index p') new;
}.

Lemma promo_stop K todo p obs : core_ok K (pr_index p) -> staged_closed (pr_index p) todo ->
  forall ig, keeps (pr_ig p) ig ->
  promo_ok K todo p (MkPromo ig (pr_index p) (pr_out p) obs (pr_lost p) (pr_connected p) (pr_consumed p) (pr_failed p)).
Proof.
  intros C H ig Hk. constructor; cbn; try done.
  - exists 0%nat. rewrite Z.add_0_r. split; [done|]. split; [lia|]. split; [by rewrite drop_0|lia].
  - congruence.
  - lia.
  - exists []. rewrite app_nil_r. split; [done|]. split; [done|apply added_none].
Qed.

Lemma bump_failures_ok ig : is_Some (ig_sources ig !! source) -> exists ig', bump_failures (E := Reject) source ig = Ok ig' /\ keeps ig ig'.
Proof. intros [s Hs]. unfold bump_failures. rewrite Hs. cbn. eexists. split; [done|]. by eapply keeps_put. Qed.

Lemma promote_loop_ok K : forall todo p, core_ok K (pr_index p) -> staged_closed (pr_index p) todo -> staged_known K todo ->
  (forall s, s ∈ todo -> hr_hash (sg_rec s) <> g) -> ix_len (pr_index p) + Zlen todo <= NO_PARENT ->
  is_Some (ig_sources (pr_ig p) !! source) -> nc_wf (ig_neg (pr_ig p)) -> pr_failed p = false ->
  exists p', promote_loop (E := Reject) ctx source todo p = Ok p' /\ promo_ok K todo p p'.
Proof.
  induction todo as [|s todo IH]; intros p C Hc Hk Hg Hl Hs Hnc Hf; cbn [promote_loop].
  { eexists. split; [done|]. destruct p. by apply promo_stop; [..|apply keeps_refl]. }
  destruct (Z.leb_spec (cx_side_capacity ctx) (pr_connected p)) as [Hcap|Hcap].
  { eexists. split; [done|]. by apply promo_stop; [..|apply keeps_refl]. }
  destruct (if charges_budget _ then _ else _) as [paid ig] eqn:Epay.
  assert (keeps (pr_ig p) ig) as Hkeep.
  { destruct (charges_budget _); [by eapply spend_keeps|]. injection Epay as _ <-. apply keeps_refl. }
  destruct paid; cbn [negb]; [|eexists; split; [done|]; by apply promo_stop].
  assert (is_Some (ig_sources ig !! source)) as Hs' by (by apply (keeps_sources _ _ Hkeep)).
  assert (nc_wf (ig_neg ig)) as Hnc' by by apply Hkeep. rewrite Hverify.
  destruct (verify (hr_raw (sg_rec s))) eqn:Ever; cbn [negb].
  2: { destruct (bump_failures_ok (with_neg ig (nc_insert (ig_neg ig) (hr_hash (sg_rec s)) Permanent)) Hs') as (ig2 & -> & Hk2).
    cbn [obind]. eexists. split; [done|]. constructor; cbn; try done.
    - eapply keeps_trans; [exact Hkeep|]. eapply keeps_trans; [apply keeps_neg; by apply nc_insert_wf|exact Hk2].
    - exists 1%nat. split; [lia|]. split; [cbn; lia|]. split; [done|lia].
    - intros _ _ x -> [= <-]. done.
    - lia.
    - exists []. rewrite app_nil_r. split; [done|]. split; [done|apply added_none]. }
  destruct (Hc 0%nat s eq_refl) as [[parent Hpar]|(j & q & Hj & _)]; [|lia]. rewrite Hpar.
  rewrite Zlen_cons in Hl. pose proof (Zlen_nonneg todo).
  destruct (core_insert K (pr_index p) (sg_rec s) (sg_cum_work s) parent C) as (i & ix' & -> & C' & Had & Hlen);
    [apply Hk; by left|apply Hg; by left|done|done|lia|]. cbn [obind snd].
  set (p1 := MkPromo _ _ _ _ _ _ _ _). destruct (IH p1) as (p' & -> & Hp').
  { done. } { eapply closed_tail; [done|apply Had|apply (ad_indexed _ _ _ Had), list_elem_of_here]. } { intros x Hx. apply Hk. by right. } { intros x Hx. apply Hg. by right. }
  { cbn. lia. } { done. } { done. } { done. }
  exists p'. split; [done|]. destruct Hp' as [P1 P3 (n & P4 & P5 & P6 & P7 & P7c) P8 P9 P10 (new & P11 & P12 & P13)]. constructor; try done.
  - eapply keeps_trans; [exact Hkeep|exact P3].
  - exists (S n). cbn in P4, P7, P7c. split; [lia|]. split; [cbn; lia|]. split; [exact P6|lia].
  - cbn in P10. lia.
  - exists (sg_rec s :: new). cbn in P11. rewrite P11, <-app_assoc. split; [done|]. split; [|by eapply (added_app _ _ _ [sg_rec s])]. constructor; [|done].
    destruct (kn_raw _ _ _ (ck_known _ _ C) _ _ _ (Hk s (list_elem_of_here _ _)) (Hg s (list_elem_of_here _ _))) as (_ & H1 & H2). split; [done|]. split; [done|]. split; [done|]. apply Hg, list_elem_of_here.
Qed.

Abbreviation hash_of := (fun s : Staged => hr_hash (sg_rec s)).

Lemma drop_hashes_spec l : forall m x, x ∈ drop_hashes m l <-> x ∈ m /\ x ∉ hash_of <$> l.
Proof.
  unfold drop_hashes. induction l as [|s l IH]; intros m x; cbn; [split; [|by intros [? _]]; intros Hx; split; [done|apply not_elem_of_nil]|].
  rewrite IH, elem_of_difference, elem_of_singleton, not_elem_of_cons. tauto.
Qed.

Lemma stage_ok_drain K ix st n : stage_ok K ix st -> staged_closed ix (drop n (fst st)) ->
  stage_ok K ix (drop n (fst st), drop_hashes (snd st) (take n (fst st))).
Proof.
  intros [H1 H2 H3 H4 H5 H6] Hc.
  assert (forall s, s ∈ drop n (fst st) -> s ∈ fst st) as Hsub.
  { intros s Hs. rewrite <-(take_drop n (fst st)). apply elem_of_app. by right. }
  assert (NoDup ((hash_of <$> take n (fst st)) ++ (hash_of <$> drop n (fst st)))) as Hnd by (by rewrite <-fmap_app, take_drop).
  apply list.NoDup_app in Hnd as (N1 & N2 & N3). constructor; cbn [fst snd]; try done.
  - intros s Hs. by apply H1, Hsub.
  - intros s Hs. by apply H3, Hsub.
  - unfold Zlen in *. rewrite length_drop. lia.
  - apply set_eq. intros x. rewrite drop_hashes_spec, H6, !elem_of_list_to_set.
    rewrite <-(take_drop n (fst st)) at 1. rewrite fmap_app, elem_of_app. specialize (N2 x). tauto.
Qed.

Lemma inv_source K ig ix s : ing_inv K ig ix -> ig_sources ig !! source = Some s ->
  stage_ok K ix (staging s) /\ view_ok limit g K ix (ss_staged s).
Proof.
  intros I Hs. assert (stage_ok K ix (staging s)) as S.
  { apply (iv_stage _ _ _ I source). by rewrite lookup_fmap, Hs. }
  split; [done|]. apply (view_of K ix (staging s)); [apply I|done].
Qed.

Lemma inv_put K ig ix s : ing_inv K ig ix -> is_Some (ig_sources ig !! source) -> stage_ok K ix (staging s) ->
  ing_inv K (put_source ig source s) ix.
Proof.
  intros [H1 H2 H3 H4] Hs S. constructor; cbn; [done| |done|].
  - intros x st Hx. rewrite fmap_insert in Hx. destruct (decide (x = source)) as [->|Hne].
    + rewrite lookup_insert_eq in Hx. by injection Hx as <-.
    + rewrite lookup_insert_ne in Hx by done. by eapply H2.
  - rewrite put_source_count, decide_True by done. lia.
Qed.

Lemma staged_of_some ig s : ig_sources ig !! source = Some s -> staged_of ig source = ss_staged s.
Proof. intros Hs. unfold staged_of. by rewrite Hs. Qed.

(** The index and the run of the source, together: what a header can still add. *)
Definition load (ig : Ingest) (ix : HeaderIndex) : Z := ix_len ix + Zlen (staged_of ig source).

Record promote_ok (K : Known) (ig : Ingest) (ix : HeaderIndex) (lost : option Rejection) (out : list HeaderRec) (po : PromoteOut) : Prop := {
  pp_inv : ing_inv K (po_ig po) (po_index po);
  pp_source : is_Some (ig_sources (po_ig po) !! source);
  pp_load : load (po_ig po) (po_index po) <= load ig ix;
  pp_connected : 0 <= po_connected po <= Z.max 0 (cx_side_capacity ctx);
  pp_count : po_connected po + Zlen (staged_of (po_ig po) source) <= Zlen (staged_of ig source);
  pp_staged : forall x, x ∈ staged_of (po_ig po) source -> x ∈ staged_of ig source;
  pp_dups : ss_dups <$> ig_sources (po_ig po) = ss_dups <$> ig_sources ig;
  pp_lost : forall r, lost = None -> po_lost po = Some r -> rj_why r = why (PowInvalid []);
  pp_out : exists new, po_out po = out ++ new /\ Forall fresh_rec new /\ added ix (po_index po) new;
}.

Lemma promote_nothing K ig ix out lost held obs : ing_inv K ig ix -> is_Some (ig_sources ig !! source) ->
  promote_ok K ig ix lost out (MkPromoteOut ig ix out obs lost held 0).
Proof.
  intros I Hs. constructor; cbn; try done; [lia|congruence|]. exists []. rewrite app_nil_r. split; [done|]. split; [done|apply added_none].
Qed.

Lemma promote_spec K ig ix out lost held : ing_inv K ig ix -> is_Some (ig_sources ig !! source) -> load ig ix <= NO_PARENT ->
  exists po, promote (E := Reject) ctx source ig ix out lost held = Ok po /\ promote_ok K ig ix lost out po.
Proof.
  intros I Hs Hl. destruct (Hs) as [s Hsrc]. destruct (inv_source K ig ix s I Hsrc) as [S V].
  unfold promote. destruct (staged_max (staged_of ig source)) as [terminal|]; [|eexists; split; [done|by apply promote_nothing]].
  pose proof (np_s6_claimed_work (sg_cum_work terminal) (hr_hash (sg_rec terminal)) (hr_height (sg_rec terminal))
    (saturating_sub (tip_height (cx_tip ctx)) (sg_branch_base_height terminal)) (cx_tip ctx)) as Hnp.
  destruct (s6_claimed_work _ _ _ _ _) as [u|e|]; [|eexists; split; [done|by apply promote_nothing]|done].
  rewrite Hsrc. cbn [expect obind]. destruct (_ && _); [eexists; split; [done|by apply promote_nothing]|].
  unfold load in Hl. rewrite (staged_of_some ig s Hsrc) in *. set (p0 := MkPromo ig ix out [] lost 0 0 false).
  destruct (promote_loop_ok K (ss_staged s) p0) as (p & -> & [P1 P3 (n & P4 & P5 & P6 & P7 & P7c) P8 P9 P10 (new & P11 & P12 & P13)]);
    [apply I|apply S|apply S|apply S|done|done|apply I|done|]. cbn [obind].
  assert (is_Some (ig_sources (pr_ig p) !! source)) as [s2 Hs2] by by apply (keeps_sources _ _ P3).
  assert (staging s2 = staging s) as Hst.
  { pose proof (kp_staging _ _ P3) as He. apply (f_equal (fun m => m !! source)) in He. rewrite !lookup_fmap, Hs2 in He. cbn in He.
    rewrite Hsrc in He. unfold staging in *. cbn in He. congruence. }
  assert (ss_staged s2 = ss_staged s) as Hst1 by (unfold staging in Hst; congruence).
  assert (ing_inv K (pr_ig p) (pr_index p)) as I2.
  { constructor; [done| |apply P3, I|rewrite (keeps_count _ _ P3); apply I]. intros x st Hx. rewrite (kp_staging _ _ P3) in Hx.
    eapply stage_ok_grow; [reflexivity|apply P13|by eapply I]. }
  destruct (inv_source K _ _ s2 I2 Hs2) as [S2 _].
  unfold promote_drain. rewrite Hs2. cbn [expect obind]. rewrite Hst1. set (m := if pr_failed p then _ else _).
  assert (staged_closed (pr_index p) (drop m (ss_staged s)) /\ (n <= m <= length (ss_staged s))%nat) as [Hcl Hm].
  { cbn [pr_consumed p0] in P4. subst m. destruct (pr_failed p).
    - rewrite drop_all. split; [by intros k x Hk|lia].
    - replace (Nat.min (Z.to_nat (pr_consumed p)) (length (ss_staged s))) with n by lia. split; [by apply P6|lia]. }
  eexists. split; [done|]. constructor; cbn [po_ig po_index po_lost po_connected po_out].
  - apply inv_put; [done|eauto|]. pose proof (stage_ok_drain K _ _ m S2) as Hd. unfold staging in *. cbn [fst snd] in *. rewrite Hst1 in Hd. by apply Hd.
  - cbn. rewrite lookup_insert_eq. eauto.
  - unfold load. rewrite (staged_of_some ig s Hsrc). unfold staged_of. cbn [put_source ig_sources with_sources].
    rewrite lookup_insert_eq. cbn [ss_staged with_staged]. unfold Zlen. rewrite length_drop. cbn [pr_index p0] in P7. lia.
  - cbn [pr_connected p0] in P10. exact P10.
  - rewrite (staged_of_some ig s Hsrc). unfold staged_of. cbn [put_source ig_sources with_sources].
    rewrite lookup_insert_eq. cbn [ss_staged with_staged]. unfold Zlen. rewrite length_drop. cbn [pr_connected p0] in P7c. lia.
  - intros x. rewrite (staged_of_some ig s Hsrc). unfold staged_of. cbn [put_source ig_sources with_sources].
    rewrite lookup_insert_eq. cbn [ss_staged with_staged]. intros Hx. rewrite <-(take_drop m (ss_staged s)). apply elem_of_app. by right.
  - cbn [put_source ig_sources with_sources]. rewrite fmap_insert. cbn [ss_dups with_staged].
    pose proof (kp_dups _ _ P3) as Hd. cbn [pr_ig p0] in Hd. rewrite <-Hd. apply insert_id. by rewrite lookup_fmap, Hs2.
  - intros r -> Hr. destruct (pr_failed p) eqn:Ef; [by apply (P9 eq_refl eq_refl r eq_refl)|]. rewrite (P8 eq_refl) in Hr. discriminate Hr.
  - by exists new.
Qed.

(** ** Staging *)
Hypothesis Hinterval : 0 <= asert_anchor_interval params.
Hypothesis Hanchor : forall a, cx_anchor ctx = Some a -> 0 <= anchor_height a.

Lemma known_insert K rec cum prec pcum : known limit g K -> K !! hr_hash rec = None -> hash_ok (hr_hash rec) ->
  hr_hash rec = header_hash (hr_raw rec) -> HeaderRec_from_raw (E := Reject) (hr_raw rec) = Ok rec -> bytes_ok (hr_raw rec) -> 0 <= hr_height rec ->
  K !! hr_prev_hash rec = Some (prec, pcum) -> extends limit prec pcum rec cum ->
  known limit g (<[hr_hash rec := (rec, cum)]> K) /\ K ⊆ <[hr_hash rec := (rec, cum)]> K.
Proof.
  intros [K1 K2 K3 K4] Hn Hok Hh Hr Hby Hpos Hp He. assert (K ⊆ <[hr_hash rec := (rec, cum)]> K) as Hsub by by apply insert_subseteq.
  split; [|done]. constructor; intros h r c Hl; (destruct (decide (h = hr_hash rec)) as [->|Hne];
    [rewrite lookup_insert_eq in Hl; injection Hl as <- <-|rewrite lookup_insert_ne in Hl by done]); eauto.
  - intros _. exists prec, pcum. split; [by eapply lookup_weaken|done].
  - intros Hg. destruct (K3 h r c Hl Hg) as (pr & pc & H1 & H2). exists pr, pc. split; [by eapply lookup_weaken|done].
Qed.

Lemma inv_grow_known K K' ig ix : K ⊆ K' -> known limit g K' -> ing_inv K ig ix -> ing_inv K' ig ix.
Proof.
  intros HK HK' [[C1 C2 C3 C4] H2 H3 H4]. constructor; [constructor; [done|done|done|by eapply tracked_grow]| |done|done].
  intros x st Hx. eapply stage_ok_grow; [exact HK|by intros h|by eapply H2].
Qed.

(** A header the record already holds under this hash is this header. *)
Lemma known_same K rec cum prec pcum w t : known limit g K -> hr_hash rec <> g ->
  hr_hash rec = header_hash (hr_raw rec) -> HeaderRec_from_raw (E := Reject) (hr_raw rec) = Ok rec ->
  K !! hr_prev_hash rec = Some (prec, pcum) -> expand_bits (hr_bits rec) limit = Some t ->
  work_from_target (E := Reject) (target_to_be t) = Ok w -> Work_checked_add pcum w = Some cum ->
  forall r c, K !! hr_hash rec = Some (r, c) -> (r = rec /\ c = cum) \/ blake3_collision.
Proof.
  intros HK Hg Hh Hr Hp Ht Hw Hc r c Hl. destruct (kn_raw _ _ _ HK _ _ _ Hl Hg) as (R1 & R2 & _).
  rewrite Hh in R1. unfold header_hash in R1. destruct (hash_inj _ _ R1) as [Heq|Hcol]; [left|by right].
  rewrite <-Heq, Hr in R2. apply Ok_inj in R2 as <-. split; [done|].
  destruct (kn_child _ _ _ HK _ _ _ Hl Hg) as (pr & pc & H1 & _ & _ & t' & w' & H2 & H3 & H4). congruence.
Qed.

Definition counters (c : WorkCache) : Z := wc_hits c + wc_misses c.

Record stage_result (K : Known) (ig : Ingest) (ix : HeaderIndex) (memo : WorkCache) (K' : Known) (r : outcome Reject unit)
    (ig' : Ingest) (memo' : WorkCache) : Prop := {
  sr_panic : r <> Panic;
  sr_sub : K ⊆ K';
  sr_inv : ing_inv K' ig' ix;
  sr_memo : cache_ok limit memo' /\ counters memo' <= counters memo + 1;
  sr_source : is_Some (ig_sources ig' !! source);
  sr_load : Zlen (staged_of ig' source) <= Zlen (staged_of ig source) + 1;
  sr_dups : ss_dups <$> ig_sources ig' = ss_dups <$> ig_sources ig;
}.

Lemma stage_refused K ig ix memo memo' e : ing_inv K ig ix -> is_Some (ig_sources ig !! source) ->
  cache_ok limit memo' -> counters memo' <= counters memo + 1 ->
  stage_result K ig ix memo K (Err e) ig memo'.
Proof. intros I Hs Hc Hn. constructor; try done. lia. Qed.

(** Pushing a header that the record holds onto the run of the source. *)
Lemma stage_push K K' ig ix memo memo' s x : ing_inv K ig ix -> ig_sources ig !! source = Some s -> K ⊆ K' -> known limit g K' ->
  cache_ok limit memo' -> counters memo' <= counters memo + 1 ->
  K' !! hr_hash (sg_rec x) = Some (sg_rec x, sg_cum_work x) -> hr_hash (sg_rec x) <> g ->
  (is_Some (index_of ix (hr_prev_hash (sg_rec x))) \/
   exists j p, ss_staged s !! j = Some p /\ hr_hash (sg_rec p) = hr_prev_hash (sg_rec x)) ->
  Zlen (ss_staged s) < max_staged_headers params -> hr_hash (sg_rec x) ∉ hash_of <$> ss_staged s ->
  stage_result K ig ix memo K' (Ok tt) (put_source ig source
    (with_staged s (ss_staged s ++ [x]) ({[hr_hash (sg_rec x)]} ∪ ss_staged_hashes s))) memo'.
Proof.
  intros I Hs Hsub Hkn Hc Hle Hl Hng Hpar Hroom Hfresh.
  assert (ing_inv K' ig ix) as I' by by eapply inv_grow_known. destruct (inv_source K' ig ix s I' Hs) as [[S1 S2 S3 S4 S5 S6] _].
  cbn [staging fst snd] in *. constructor; try done.
  - apply inv_put; [done|eauto|]. constructor; cbn [staging fst snd ss_staged ss_staged_hashes with_staged].
    + intros y Hy. apply elem_of_app in Hy as [Hy|Hy]; [by apply S1|]. by apply list_elem_of_singleton in Hy as ->.
    + intros k y Hy. apply lookup_app_Some in Hy as [Hy|[Hk Hy]].
      * destruct (S2 k y Hy) as [?|(j & p & Hj & Hp & Hh)]; [by left|right; exists j, p]. split; [done|]. split; [by apply lookup_app_l_Some|done].
      * apply list_lookup_singleton_Some in Hy as [Hk0 <-]. destruct Hpar as [?|(j & p & Hj & Hh)]; [by left|right].
        exists j, p. apply lookup_lt_Some in Hj as Hjl. split; [lia|]. split; [by apply lookup_app_l_Some|done].
    + intros y Hy. apply elem_of_app in Hy as [Hy|Hy]; [by apply S3|]. by apply list_elem_of_singleton in Hy as ->.
    + rewrite Zlen_app. change (Zlen [x]) with 1. lia.
    + rewrite fmap_app. apply list.NoDup_app. split; [done|]. split; [|apply NoDup_singleton].
      intros y Hy Hy'. apply list_elem_of_singleton in Hy' as ->. done.
    + rewrite S6, fmap_app, list_to_set_app_L. cbn [fmap list_fmap list_to_set]. rewrite union_empty_r_L. apply (comm_L (∪)).
  - cbn. rewrite lookup_insert_eq. eauto.
  - rewrite (staged_of_some ig s Hs). unfold staged_of. cbn [put_source ig_sources with_sources]. rewrite lookup_insert_eq.
    cbn [ss_staged with_staged]. rewrite Zlen_app. change (Zlen [x]) with 1. lia.
  - cbn. rewrite fmap_insert. apply insert_id. by rewrite lookup_fmap, Hs.
Qed.

Lemma stage_one_ok K ig ix memo raw : ing_inv K ig ix -> is_Some (ig_sources ig !! source) ->
  cache_ok limit memo -> counters memo < 2 ^ 64 - 1 -> bytes_ok raw ->
  header_hash raw ∉ hash_of <$> staged_of ig source -> header_hash raw <> g ->
  blake3_collision \/ exists K' r ig' memo', stage_one ig ix memo ctx source raw (header_hash raw) = (r, ig', memo') /\
    stage_result K ig ix memo K' r ig' memo'.
Proof.
  intros I [s Hs] Hc Hcount Hraw Hfresh Hng. rewrite (staged_of_some ig s Hs) in Hfresh. assert (is_Some (ig_sources ig !! source)) as Hsome by eauto.
  destruct (inv_source K ig ix s I Hs) as [S V]. unfold stage_one. rewrite (staged_of_some ig s Hs), Hparams.
  assert (counters memo <= counters memo + 1) as Hle by lia.
  pose proof (np_stage_gates limit g K ix (ss_staged s) ctx V) as Hnp. rewrite Hparams in Hnp. specialize (Hnp Hinterval Hanchor raw (header_hash raw)).
  destruct (stage_gates ix (ss_staged s) ctx raw (header_hash raw)) as [[[hdr parent] base]|e|] eqn:Eg;
    [|right; eexists K, _, _, _; split; [done|by apply stage_refused]|done].
  pose proof (stage_gates_spec limit g K ix (ss_staged s) ctx V) as Hsp. rewrite Hparams in Hsp.
  destruct (Hsp eq_refl raw _ hdr parent base Eg) as (Hlen & Hd & Hexp & Hlo & Hlh & Hht). clear Hsp Hnp Eg.
  destruct (Header_decode_sound raw hdr Hraw Hd) as [Hwf _].
  assert (0 <= h_bits hdr < 2 ^ 32 /\ 0 <= h_height hdr) as [Hbits Hpos] by (unfold header_wf in Hwf; lia).
  destruct (WorkCache_work_step (E := Reject) memo (h_bits hdr) limit Hc Hlimit Hbits Hcount) as (o & memo' & -> & Hc' & Hdw & Hn').
  assert (counters memo' <= counters memo + 1) as Hle' by (unfold counters; lia).
  specialize (Hdw Reject). unfold direct_work in Hdw. destruct (expand_bits (h_bits hdr) limit) as [t|] eqn:Et; [|done].
  destruct (work_from_target (E := Reject) (target_to_be t)) as [w| |] eqn:Ew; [|discriminate Hdw..]. apply Ok_inj in Hdw as <-.
  destruct (Work_checked_add (lt_cum_work parent) w) as [cum|] eqn:Ecum;
    [|right; eexists K, _, _, _; split; [done|by apply stage_refused]].
  rewrite Hs. change (default SourceState_default (Some s)) with s. destruct (Z.leb_spec (max_staged_headers params) (Zlen (ss_staged s))) as [Hfull|Hroom].
  { right. eexists K, _, _, _. split; [done|]. assert (keeps ig (put_source ig source s)) as Hkp by by eapply keeps_put.
    constructor; try done; [by eapply keeps_inv|cbn; rewrite lookup_insert_eq; eauto|..].
    - rewrite (keeps_staged_of _ _ source Hkp). lia.
    - apply Hkp. }
  set (rec := MkHeaderRec _ _ _ _ _ _). destruct (lo_known _ _ _ _ Hlo) as (prec & Hpk & Hph & _). rewrite Hlh in Hpk.
  assert (HeaderRec_from_raw (E := Reject) raw = Ok rec) as Hfr by (unfold HeaderRec_from_raw; rewrite Hd; reflexivity).
  assert (extends limit prec (lt_cum_work parent) rec cum) as Hext.
  { split; [cbn; by rewrite Hht, Hph|]. split; [exact Hbits|]. exists t, w. done. }
  assert (is_Some (index_of ix (h_prev_hash hdr)) \/ exists j p, ss_staged s !! j = Some p /\ hr_hash (sg_rec p) = h_prev_hash hdr) as Hpar.
  { pose proof (lo_where _ _ _ _ Hlo) as Hw. rewrite <-Hlh. destruct (lt_arena parent) as [i|].
    - destruct Hw as (n & Hn & Hnh & _). left. exists i. apply (wf_hash _ (core_wf _ _ (iv_core _ _ _ I))). eauto.
    - destruct Hw as (j & p & Hj & ->). right. by exists j, p. }
  pose proof (fun K' H1 H2 H3 => stage_push K K' ig ix memo memo' s (MkStaged rec cum base) I Hs H1 H2 Hc' Hle' H3 Hng Hpar Hroom Hfresh) as Hdone.
  destruct (K !! hr_hash rec) as [[r c]|] eqn:EK.
  - destruct (known_same K rec cum prec (lt_cum_work parent) w t (ck_known _ _ (iv_core _ _ _ I)) Hng eq_refl Hfr Hpk Et Ew Ecum r c EK)
      as [[-> ->]|Hcol]; [right|by left]. eexists K, _, _, _. split; [done|]. apply (Hdone K); [done|apply I|done].
  - right. destruct (known_insert K rec cum prec (lt_cum_work parent) (ck_known _ _ (iv_core _ _ _ I)) EK (hash_is_hash raw) eq_refl Hfr Hraw Hpos Hpk Hext) as [Hk' Hsub].
    eexists _, _, _, _. split; [done|]. apply (Hdone (<[hr_hash rec := (rec, cum)]> K)); [done|done|apply lookup_insert_eq].
Qed.

(** ** Batches: [rem] headers are still to come *)
Record batch_ok (K : Known) (rem : Z) (b : Batch) : Prop := {
  ba_inv : ing_inv K (bt_ig b) (bt_index b);
  ba_source : is_Some (ig_sources (bt_ig b) !! source);
  ba_memo : cache_ok limit (bt_memo b) /\ counters (bt_memo b) + rem < 2 ^ 64;
  ba_load : load (bt_ig b) (bt_index b) + rem <= NO_PARENT;
  ba_dups : forall d, (ss_dups <$> ig_sources (bt_ig b)) !! source = Some d -> 0 <= d /\ d + rem < 2 ^ 32;
  ba_acc : (0 <= ac_duplicates (bt_acc b) /\ ac_duplicates (bt_acc b) + rem < 2 ^ 32) /\
    (0 <= ac_rejected (bt_acc b) /\ ac_rejected (bt_acc b) + rem < 2 ^ 32) /\
    (0 <= ac_staged (bt_acc b) /\ ac_staged (bt_acc b) + rem < 2 ^ 32) /\
    (0 <= bt_dups b /\ bt_dups b + rem < 2 ^ 32);
  ba_conn : 0 <= ac_connected (bt_acc b) /\
    ac_connected (bt_acc b) + Zlen (staged_of (bt_ig b) source) + rem < 2 ^ 33;
  ba_out : Forall fresh_rec (bt_out b);
}.

Lemma add_checked_ok {E} w a b : 0 <= a + b < 2 ^ w -> add_checked (E := E) w a b = Ok (a + b).
Proof. intros H. unfold add_checked. apply expect_ok. by apply checked_add_some. Qed.

Lemma count_duplicate_ok K rem b hash here : 0 <= rem -> batch_ok K (rem + 1) b ->
  exists stop b', count_duplicate ctx source b hash here = Ok (stop, b') /\ batch_ok K rem b' /\
    bt_index b' = bt_index b /\ bt_out b' = bt_out b.
Proof.
  intros Hrem [B1 [st B2] [B3 B3'] B4 B5 B6 B7 B8]. unfold count_duplicate, acc_duplicate.
  destruct (B5 (ss_dups st)) as [D1 D2]; [by rewrite lookup_fmap, B2|].
  rewrite !add_checked_ok by lia. cbn [obind].
  rewrite B2. cbn [expect obind]. rewrite add_checked_ok by lia. cbn [obind].
  assert (forall obs held, batch_ok K rem (MkBatch (put_source (bt_ig b) source (with_dups st (ss_dups st + 1) (ss_dup_window_ms st)))
    (bt_index b) (bt_memo b) (bt_out b) obs
    (MkAccepted (ac_connected (bt_acc b)) (ac_duplicates (bt_acc b) + 1) (ac_rejected (bt_acc b)) (ac_staged (bt_acc b))
       (ac_verified_height (bt_acc b)) (ac_first_rejection (bt_acc b)) held) (bt_dups b + 1) (bt_first b))) as Hgood.
  { intros obs held. destruct (inv_source K _ _ st B1 B2) as [S _].
    assert (staged_of (put_source (bt_ig b) source (with_dups st (ss_dups st + 1) (ss_dup_window_ms st))) source =
      staged_of (bt_ig b) source) as Hst.
    { rewrite (staged_of_some (bt_ig b) st B2). unfold staged_of. cbn [put_source ig_sources with_sources]. by rewrite lookup_insert_eq. }
    constructor; cbn [bt_ig bt_index bt_memo bt_acc bt_dups bt_out ac_duplicates ac_rejected ac_staged ac_connected]; try done; unfold load in *; rewrite ?Hst; try lia.
    - apply inv_put; [done|eauto|done].
    - cbn. rewrite lookup_insert_eq. eauto.
    - split; [done|lia].
    - intros d. cbn. rewrite fmap_insert, lookup_insert_eq. intros [= <-]. cbn. lia. }
  destruct (max_duplicates_per_batch _ <? _); eexists _, _; (split; [done|split; [apply Hgood|done]]).
Qed.

Lemma batch_promote_ok K rem b : 0 <= rem -> batch_ok K rem b -> exists b', batch_promote ctx source b = Ok b' /\ batch_ok K rem b' /\
  (forall x, x ∈ staged_of (bt_ig b') source -> x ∈ staged_of (bt_ig b) source) /\
  exists new, bt_out b' = bt_out b ++ new /\ added (bt_index b) (bt_index b') new.
Proof.
  intros Hrem [B1 B2 B3 B4 B5 B6 B7 B8]. unfold batch_promote.
  destruct (promote_spec K (bt_ig b) (bt_index b) (bt_out b) (ac_first_rejection (bt_acc b)) (ac_first_held (bt_acc b)) B1 B2) as (po & -> & P);
    [lia|]. cbn [obind]. destruct P as [P1 P3 P4 P5 P6 P7 P8 P9 (new & P10 & P11 & P12)].
  pose proof (Zlen_nonneg (staged_of (po_ig po) source)). rewrite add_checked_ok by lia. cbn [obind].
  eexists. split; [done|]. split; [|split; [done|by exists new]]. constructor; cbn; try done; try lia.
  - by rewrite P8.
  - rewrite P10. by apply Forall_app.
Qed.

Lemma batch_stage_ok K rem b raw : 0 <= rem -> batch_ok K (rem + 1) b -> bytes_ok raw ->
  header_hash raw ∉ hash_of <$> staged_of (bt_ig b) source -> header_hash raw <> g ->
  blake3_collision \/ exists K' b', batch_stage ctx source b raw (header_hash raw) = Ok b' /\ K ⊆ K' /\ batch_ok K' rem b' /\
    bt_index b' = bt_index b /\ bt_out b' = bt_out b.
Proof.
  intros Hrem [B1 B2 [B3 B3'] B4 B5 B6 B7 B8] Hraw Hfresh Hng. unfold batch_stage.
  destruct (stage_one_ok K (bt_ig b) (bt_index b) (bt_memo b) raw B1 B2 B3 ltac:(lia) Hraw Hfresh Hng)
    as [?|(K' & r & ig' & memo' & -> & [R1 R2 R3 [R4 R4'] R5 R6 R7])]; [by left|right].
  unfold load in B4. destruct r as [u|rej|]; [| |done].
  - rewrite add_checked_ok by lia. cbn [obind]. eexists K', _. split; [done|]. split; [done|]. split; [|done].
    constructor; cbn; try done; unfold load; try lia; [split; [done|lia]|]. rewrite R7. intros d Hd. apply B5 in Hd. lia.
  - rewrite add_checked_ok by lia. cbn [obind]. eexists K', _. split; [done|]. split; [done|]. split; [|done].
    assert (keeps ig' (with_neg ig' (nc_insert (ig_neg ig') (header_hash raw) (permanence rej)))) as Hk.
    { apply keeps_neg. apply nc_insert_wf. apply R3. }
    constructor; cbn [bt_ig bt_index bt_memo bt_acc bt_dups bt_out ac_duplicates ac_rejected ac_staged ac_connected]; try done;
      unfold load; rewrite ?(keeps_staged_of _ _ source Hk); try lia.
    + by eapply keeps_inv.
    + split; [done|lia].
    + cbn. rewrite R7. intros d Hd. apply B5 in Hd. lia.
Qed.

Lemma batch_weaken K rem rem' b : rem' <= rem -> batch_ok K rem b -> batch_ok K rem' b.
Proof.
  intros Hr [B1 B2 [B3 B3'] B4 B5 B6 B7 B8]. constructor; try done; try lia; [split; [done|lia]|].
  intros d Hd. apply B5 in Hd. lia.
Qed.

Lemma batch_loop_ok raws : forall K b, Forall bytes_ok raws -> batch_ok K (Zlen raws) b ->
  blake3_collision \/ exists K' b' new, batch_loop ctx source raws b = Ok b' /\ K ⊆ K' /\ batch_ok K' 0 b' /\
    bt_out b' = bt_out b ++ new /\ added (bt_index b) (bt_index b') new.
Proof.
  induction raws as [|raw raws IH]; intros K b Hraws B; cbn [batch_loop].
  { right. exists K, b, []. rewrite app_nil_r. split; [done|]. split; [done|]. split; [by apply (batch_weaken K (Zlen (A := bytes) []))|].
    split; [done|apply added_none]. }
  inversion_clear Hraws as [|? ? Hraw Hrest]. rewrite Zlen_cons in B. pose proof (Zlen_nonneg raws) as Hnn. rewrite Z.add_comm in B.
  destruct (is_staged _ _ _ || _ || _ || _) eqn:Edup.
  - destruct (count_duplicate_ok K (Zlen raws) b (header_hash raw) (is_staged source (bt_ig b) (header_hash raw)) Hnn B) as (stop & b' & -> & B' & <- & <-).
    cbn [obind]. destruct stop; [|by apply IH]. right. exists K, b', []. rewrite app_nil_r. split; [done|]. split; [done|].
    split; [by apply (batch_weaken K (Zlen raws))|]. split; [done|apply added_none].
  - do 3 (apply orb_false_iff in Edup as [Edup ?]). rename Edup into Hns.
    match goal with H : ix_contains _ _ = false |- _ => rename H into Hni end.
    assert (header_hash raw <> g) as Hng.
    { intros Hg. destruct (ck_root _ _ (iv_core _ _ _ (ba_inv _ _ _ B))) as (n0 & Hn0 & Hng). unfold ix_contains in Hni.
      apply bool_decide_eq_false in Hni. apply Hni. exists 0. apply (wf_hash _ (core_wf _ _ (iv_core _ _ _ (ba_inv _ _ _ B)))). exists n0. by rewrite Hg. }
    assert (header_hash raw ∉ hash_of <$> staged_of (bt_ig b) source) as Hfresh.
    { destruct (ba_source _ _ _ B) as [st Hst]. destruct (inv_source K _ _ st (ba_inv _ _ _ B) Hst) as [S _]. unfold is_staged in Hns.
      rewrite Hst in Hns. apply bool_decide_eq_false in Hns. pose proof (sk_hashes _ _ _ S) as Hh. cbn in Hh. rewrite Hh in Hns.
      rewrite (staged_of_some _ st Hst). by rewrite elem_of_list_to_set in Hns. }
    assert (exists b1, (if max_staged_headers (cx_params ctx) <=? ig_staged (bt_ig b) source then batch_promote ctx source b else Ok b) = Ok b1 /\
      batch_ok K (Zlen raws + 1) b1 /\ (forall x, x ∈ staged_of (bt_ig b1) source -> x ∈ staged_of (bt_ig b) source) /\
      exists new, bt_out b1 = bt_out b ++ new /\ added (bt_index b) (bt_index b1) new) as (b1 & -> & B1 & Hsub & new & Hout & Hadd).
    { destruct (_ <=? _); [|exists b; do 3 (split; [done|]); exists []; rewrite app_nil_r; split; [done|apply added_none]].
      destruct (batch_promote_ok K (Zlen raws + 1) b ltac:(lia) B) as (b1 & H1 & H2 & H3 & H4). by exists b1. }
    cbn [obind]. destruct (batch_stage_ok K (Zlen raws) b1 raw Hnn B1 Hraw) as [?|(K' & b2 & -> & HK & B2 & Ei & Eo)].
    + intros Hin. apply Hfresh. apply list_elem_of_fmap in Hin as (x & -> & Hx). apply list_elem_of_fmap. eauto.
    + done.
    + by left.
    + cbn [obind]. destruct (IH K' b2 Hrest B2) as [?|(K2 & b3 & new' & -> & HK2 & B3 & Ho3 & Ha3)]; [by left|right]. rewrite Ei in Ha3.
      exists K2, b3, (new ++ new'). split; [done|]. split; [by etransitivity|]. split; [done|]. split; [by rewrite Ho3, Eo, Hout, app_assoc|by eapply added_app].
Qed.

(** ** The whole submission *)
Hypothesis Hsources : 1 <= max_sources params.
Hypothesis Hstaged : 0 <= max_staged_headers params.
Hypothesis Hwindow : 0 <= duplicate_window_secs params * 1000 < 2 ^ 64.

(** Entering the table: the staging of every source that stays is unchanged, and
    that of a new one is empty. *)
Lemma touch_staging cost now ig ig' res : touch ig source params cost now = (ig', res) ->
  forall x s', ig_sources ig' !! x = Some s' ->
    (exists s, ig_sources ig !! x = Some s /\ staging s' = staging s /\ ss_dups s' = ss_dups s) \/
    (staging s' = ([], ∅) /\ ss_dups s' = 0).
Proof.
  intros H x s' Hx.
  assert (forall s, staging (refill s params cost now) = staging s /\ ss_dups (refill s params cost now) = ss_dups s) as Hr.
  { intros s. split; [apply refill_staging|]. unfold refill. destruct (negb _); [done|].
    destruct (refill_bucket _ _ _ _ _ _). by destruct (refill_bucket _ _ _ _ _ _). }
  assert (forall m : gmap SourceId SourceState, (forall y s, m !! y = Some s -> exists s0, ig_sources ig !! y = Some s0 /\ staging s = staging s0 /\ ss_dups s = ss_dups s0) ->
    (<[source := refill (default SourceState_default (m !! source)) params cost now]> m) !! x = Some s' ->
    (exists s, ig_sources ig !! x = Some s /\ staging s' = staging s /\ ss_dups s' = ss_dups s) \/ (staging s' = ([], ∅) /\ ss_dups s' = 0)) as Henter.
  { intros m Hm Hl. destruct (decide (x = source)) as [->|Hne]; [|rewrite lookup_insert_ne in Hl by done; left; by apply Hm].
    rewrite lookup_insert_eq in Hl. injection Hl as <-. destruct (Hr (default SourceState_default (m !! source))) as [-> ->].
    destruct (m !! source) as [s0|] eqn:Em; cbn; [left; by apply Hm|by right]. }
  unfold touch in H. destruct (bool_decide _ && _).
  - set (m := _ <$> ig_sources ig) in *. assert (forall y s, m !! y = Some s -> exists s0, ig_sources ig !! y = Some s0 /\ staging s = staging s0 /\ ss_dups s = ss_dups s0) as Hm.
    { intros y s Hy. subst m. rewrite lookup_fmap in Hy. destruct (ig_sources ig !! y) as [s0|]; [|done]. cbn in Hy. injection Hy as <-.
      exists s0. split; [done|apply Hr]. }
    cbn [ig_sources with_sources] in H. destruct (victim params cost m) as [id|]; injection H as <- _.
    + apply (Henter (delete id m)); [|done]. intros y s Hy. apply lookup_delete_Some in Hy as [_ Hy]. by apply Hm.
    + left. by apply Hm.
  - injection H as <- _. apply (Henter (ig_sources ig)); [|done]. eauto.
Qed.

Lemma touch_inv K cost now ig ix ig' res : ing_inv K ig ix -> touch ig source params cost now = (ig', res) ->
  ing_inv K ig' ix /\ res <> Panic /\ (res = Ok tt -> is_Some (ig_sources ig' !! source)) /\
  Zlen (staged_of ig' source) <= Zlen (staged_of ig source).
Proof.
  intros I H. pose proof (touch_staging _ _ _ _ _ H) as Ht. destruct (touch_count params cost now ig source ig' res Hsources H (iv_count _ _ _ I)) as (H1 & H2 & H3).
  split; [|split; [|split; [done|]]].
  - constructor; [apply I| |rewrite H3; apply I|done]. intros x st Hx. rewrite lookup_fmap in Hx.
    destruct (ig_sources ig' !! x) as [s'|] eqn:Es; [|done]. cbn in Hx. injection Hx as <-.
    destruct (Ht x s' Es) as [(s & Hs & Hst & _)|[Hst _]]; unfold staging in Hst |- *; rewrite Hst; [|by apply empty_stage_ok].
    apply (iv_stage _ _ _ I x). by rewrite lookup_fmap, Hs.
  - unfold touch in H. destruct (bool_decide _ && _); [|by injection H as _ <-]. cbn in H. destruct (victim _ _ _); by injection H as _ <-.
  - unfold staged_of. destruct (ig_sources ig' !! source) as [s'|] eqn:Es; [|apply Zlen_nonneg].
    destruct (Ht source s' Es) as [(s & -> & Hst & _)|[Hst _]]; unfold staging in Hst; injection Hst as -> _; [done|apply Zlen_nonneg].
Qed.

Lemma batch_finish_ok K b : batch_ok K 0 b -> exists ig ix memo out obs a, batch_finish ctx source b = Ok (ig, ix, memo, out, obs, a) /\
  ing_inv K ig ix /\ cache_ok limit memo /\ Forall fresh_rec out /\ (exists new, out = bt_out b ++ new /\ added (bt_index b) ix new) /\ 0 <= ac_connected a < 2 ^ 33.
Proof.
  intros B. unfold batch_finish. destruct (batch_promote_ok K 0 b ltac:(lia) B) as (b' & -> & B' & _ & Hadd). cbn [obind].
  destruct (tip_exists (E := Reject) (bt_index b') (core_wf _ _ (iv_core _ _ _ (ba_inv _ _ _ B')))) as (t & n & _ & _ & -> & _). cbn [obind].
  eexists _, _, _, _, _, _. split; [done|]. destruct B' as [B1 _ [B3 _] _ _ _ B7 B8]. do 4 (split; [done|]). cbn. pose proof (Zlen_nonneg (staged_of (bt_ig b') source)). lia.
Qed.

(** What the caller owes: counters far from their limits. *)
Record room (ig : Ingest) (ix : HeaderIndex) (memo : WorkCache) (raws : list bytes) : Prop := {
  rm_raws : Forall bytes_ok raws;
  rm_memo : cache_ok limit memo /\ counters memo + Zlen raws < 2 ^ 64;
  rm_load : load ig ix + Zlen raws <= NO_PARENT;
  rm_dups : forall s, ig_sources ig !! source = Some s -> 0 <= ss_dups s /\ ss_dups s + Zlen raws < 2 ^ 32;
}.

Lemma submit_ok K ig ix memo raws : ing_inv K ig ix -> room ig ix memo raws ->
  blake3_collision \/ exists ig' r, submit_headers ctx source ig ix memo raws = (ig', r) /\
    match r with
    | Ok (ix', memo', out, obs, a) => exists K', K ⊆ K' /\ ing_inv K' ig' ix' /\ cache_ok limit memo' /\
        Forall fresh_rec out /\ added ix ix' out /\ 0 <= ac_connected a < 2 ^ 33
    | Err e => e = TooManySources source (max_sources params) /\ ing_inv K ig' ix
    | Panic => False
    end.
Proof.
  intros I [R1 [R2 R2'] R3 R4]. unfold submit_headers. rewrite Hparams.
  pose proof (refill_shared_keeps ig (cx_mono_ms ctx)) as Hk. set (ig0 := refill_shared ig params (cx_mono_ms ctx)) in *.
  destruct (touch ig0 source params (cx_cost_micros ctx) (cx_mono_ms ctx)) as [ig1 res] eqn:Et.
  destruct (touch_inv K _ _ _ ix _ _ (keeps_inv _ _ _ _ Hk I) Et) as (I1 & Hnp & Hsrc & Hlen).
  assert (ig_sources ig0 = ig_sources ig) as Hsame.
  { unfold ig0, refill_shared. destruct (negb _); [done|]. by destruct (refill_bucket _ _ _ _ _ _). }
  destruct res as [[]|e|]; [| |done].
  2: { right. eexists _, _. split; [done|]. split; [|done]. clear -Et. unfold touch in Et. destruct (bool_decide _ && _); [|done].
    cbn in Et. destruct (victim _ _ _); [done|]. by injection Et as _ <-. }
  destruct (Hsrc eq_refl) as [st Hst]. rewrite Hst. cbn [expect obind]. unfold roll_dups. rewrite Hparams.
  rewrite (proj2 (checked_some 64 (duplicate_window_secs params * 1000) _)) by done. cbn [expect obind].
  set (st1 := roll_quota_epoch st _ _ _). set (st2 := if _ <=? _ then _ else st1).
  assert (staging st1 = staging st /\ ss_dups st1 = ss_dups st) as [E1 E1'].
  { unfold st1, roll_quota_epoch. by destruct (negb _ || _). }
  assert (staging st2 = staging st /\ (ss_dups st2 = 0 \/ ss_dups st2 = ss_dups st)) as [E2 E2'].
  { unfold st2. destruct (_ <=? _); [split; [done|by left]|]. split; [done|by right]. }
  destruct (tip_exists (E := Reject) ix (core_wf _ _ (iv_core _ _ _ I))) as (t & n & _ & _ & -> & _). cbn [obind].
  destruct (inv_source K ig1 ix st I1 Hst) as [S _]. set (b0 := MkBatch _ _ _ _ _ _ _ _).
  assert (staged_of (put_source ig1 source st2) source = staged_of ig1 source) as Hso.
  { rewrite (staged_of_some ig1 st Hst). unfold staged_of. cbn [put_source ig_sources with_sources]. rewrite lookup_insert_eq. unfold staging in E2. congruence. }
  pose proof (Zlen_nonneg raws) as Hnn. pose proof (Zlen_nonneg (staged_of ig1 source)) as Hnn2.
  pose proof (aw_size _ (wf_arena _ (core_wf _ _ (iv_core _ _ _ I)))) as Hsz.
  assert (batch_ok K (Zlen raws) b0) as B.
  { unfold load, staged_of in R3. rewrite <-Hsame in R3. fold (staged_of ig0 source) in R3. unfold NO_PARENT, umax, ix_len in *.
    constructor; cbn [b0 bt_ig bt_index bt_memo bt_acc bt_dups bt_out ac_duplicates ac_rejected ac_staged ac_connected];
      unfold load, NO_PARENT, umax, ix_len in *; rewrite ?Hso; try lia; try done.
    - apply inv_put; [done|eauto|]. by rewrite E2.
    - cbn. rewrite lookup_insert_eq. eauto.
    - intros d. cbn. rewrite fmap_insert, lookup_insert_eq. intros [= <-].
      assert (0 <= ss_dups st /\ ss_dups st + Zlen raws < 2 ^ 32) as Hd; [|destruct E2' as [->| ->]; lia].
      destruct (touch_staging _ _ _ _ _ Et source st Hst) as [(s & Hs & _ & ->)|[_ ->]]; [|lia]. rewrite Hsame in Hs. by apply R4. }
  destruct (batch_loop_ok raws K b0 R1 B) as [?|(K' & b' & new & -> & HK & B' & Ho & Ha)]; [by left|right]. cbn [obind].
  destruct (batch_finish_ok K' b' B') as (ig' & ix' & memo' & out & obs & a & -> & F1 & F2 & F3 & (new' & F4 & F5) & F6). eexists _, _. split; [done|].
  exists K'. do 4 (split; [done|]). split; [|done]. rewrite F4, Ho. by eapply added_app.
Qed.
End Inv.

(** ** The guarantees *)

(** The parameters and the context of a submission are in range, and the context's
    verifier is [verify]. *)
Record ctx_ok (params : ChainParams) (verify : bytes -> bool) (ctx : IngestCtx) : Prop := {
  cx_ok_params : cx_params ctx = params;
  cx_ok_verify : cx_pow_verify ctx = verify;
  cx_ok_limit : target_ok (pow_limit params);
  cx_ok_staged : 0 <= max_staged_headers params <= NO_PARENT;
  cx_ok_sources : 1 <= max_sources params;
  cx_ok_interval : 0 <= asert_anchor_interval params;
  cx_ok_window : 0 <= duplicate_window_secs params * 1000 < 2 ^ 64;
  cx_ok_anchor : forall a, cx_anchor ctx = Some a -> 0 <= anchor_height a;
}.


(** A staged header is never orphaned: whatever stops a promotion (the side
    capacity, the budget, a bad proof of work), what stays staged still has its
    parents indexed or staged before it, the run shrinks by at least what was
    connected, at most [side_capacity] headers are connected, and the only loss a
    promotion can report is a failed proof of work: the report "parent was not
    stored" cannot happen. *)
Theorem promotion_never_orphans params verify g K ctx source ig ix out held
    (HC : ctx_ok params verify ctx) (HI : ing_inv params verify g K ig ix)
    (Hs : is_Some (ig_sources ig !! source)) (Hl : load source ig ix <= NO_PARENT) :
  exists po, promote (E := Reject) ctx source ig ix out None held = Ok po /\
    staged_closed (po_index po) (staged_of (po_ig po) source) /\
    po_connected po + Zlen (staged_of (po_ig po) source) <= Zlen (staged_of ig source) /\
    po_connected po <= Z.max 0 (cx_side_capacity ctx) /\
    (forall r, po_lost po = Some r -> rj_why r = why (PowInvalid []) /\ rj_why r <> "parent was not stored"%string).
Proof.
  destruct HC as [C1 C2 C3 [C4 C4'] C5 C6 C7 C8].
  destruct (promote_spec params verify g C4' ctx source C2 K ig ix out None held HI Hs Hl) as (po & H & P). exists po. split; [done|].
  destruct P as [P1 [s P3] P4 P5 P6 P7 P8 P9 P10]. split.
  - destruct (inv_source params verify g C4' source K _ _ s P1 P3) as [S _]. rewrite (staged_of_some source (po_ig po) s P3). apply S.
  - split; [done|]. split; [lia|]. intros r Hr. rewrite (P9 r eq_refl Hr). done.
Qed.

(** ** Two blocks on a sample genesis *)
Definition sample_genesis : Header :=
  MkHeader VERSION_BASE 0 (replicate 32 0) (replicate 32 0) (replicate 32 0) 1000 (genesis_bits ChainParams_default) 0 0.
Definition sample_genesis_rec : HeaderRec :=
  MkHeaderRec 0 (header_hash (Header_encode sample_genesis)) (replicate 32 0) 1000 (genesis_bits ChainParams_default)
    (Header_encode sample_genesis).
Definition sample_work : Work :=
  match direct_work (E := Reject) (genesis_bits ChainParams_default) default_pow_limit with Ok (Some w) => w | _ => Work_ZERO end.
Definition sample_index : HeaderIndex := ok_index (insert_genesis HeaderIndex_new sample_genesis_rec sample_work).
Definition sample_ctx : IngestCtx :=
  MkIngestCtx (fun _ => false) (fun _ => true) 20000 [] None ChainParams_default 2000 5000
    (MkTipRef 0 (hr_hash sample_genesis_rec) 1000 sample_work) 1000 Unsolicited 1 100.
Definition sample_child_bits : Z :=
  match expected_child_bits (genesis_bits ChainParams_default) 0 940 0 1000 default_pow_limit with Ok b => b | _ => 0 end.
Definition sample_child : bytes :=
  Header_encode (MkHeader VERSION_BASE 1 (hr_hash sample_genesis_rec) (replicate 32 0) (replicate 32 0) 1060 sample_child_bits 0 0).
Definition sample_known : Known := {[ hr_hash sample_genesis_rec := (sample_genesis_rec, sample_work) ]}.

Example sample_batch_connects :
  match snd (submit_headers sample_ctx 7 (Ingest_new ChainParams_default) sample_index WorkCache_new [sample_child]) with
  | Ok (ix, _, out, _, a) => ix_len ix = 2 /\ ac_connected a = 1 /\ hr_raw <$> out = [sample_child]
  | _ => False
  end.
Proof. vm_compute. split; [reflexivity|]. split; reflexivity. Qed.

Lemma sample_work_ok : exists t, expand_bits (genesis_bits ChainParams_default) default_pow_limit = Some t /\
  work_from_target (E := Reject) (target_to_be t) = Ok sample_work.
Proof.
  exists (match expand_bits (genesis_bits ChainParams_default) default_pow_limit with Some t => t | None => Target_ZERO end).
  split; vm_compute; reflexivity.
Qed.

(** The invariant holds at boot, of an index that holds genesis alone. *)
Lemma genesis_core params verify rec w i ix : hr_height rec = 0 -> legal_header (pow_limit params) None rec w ->
  insert_genesis (E := Reject) HeaderIndex_new rec w = Ok (i, ix) ->
  core_ok params verify (hr_hash rec) {[ hr_hash rec := (rec, w) ]} ix.
Proof.
  intros Hh Hl Hi. assert (forall h r c, ({[ hr_hash rec := (rec, w) ]} : Known) !! h = Some (r, c) -> h = hr_hash rec /\ r = rec) as Hk.
  { intros h r c Hs. apply lookup_singleton_Some in Hs as [<- Hs]. by injection Hs as <- _. }
  assert (ix_nodes ix = [MkNode (hr_hash rec) NO_PARENT (hr_height rec) (hr_time rec) (hr_bits rec) w (hr_height rec) (Z.lor FLAG_POW_OK FLAG_HAVE_BODY)])
    as Hn by (unfold insert_genesis in Hi; cbn in Hi; by injection Hi as _ <-).
  constructor.
  - constructor; intros h r c Hs; destruct (Hk h r c Hs) as [-> ->]; [by split; [|apply Hl]|done|done|lia].
  - apply (reach_genesis _ rec w i ix); [done| |done]. split; [done|]. by intros [].
  - rewrite Hn. eexists. split; [apply zlookup_cons_0|done].
  - intros j n Hj. rewrite Hn in Hj. apply zlookup_lt in Hj as Hlt. change (Zlen [_]) with 1 in Hlt.
    assert (j = 0) as -> by lia. injection Hj as <-. exists rec. split; [apply lookup_singleton_eq|]. do 3 (split; [done|]). by intros [].
Qed.

Lemma ingest_start params verify g K ix : core_ok params verify g K ix -> 0 <= max_sources params ->
  ing_inv params verify g K (Ingest_new params) ix.
Proof.
  intros C Hm. constructor; [done| |apply nc_new_wf|done]. intros x st Hx. cbn in Hx. by rewrite fmap_empty, lookup_empty in Hx.
Qed.

Lemma sample_inv :
  ing_inv ChainParams_default (fun _ => true) (hr_hash sample_genesis_rec) sample_known (Ingest_new ChainParams_default) sample_index.
Proof.
  apply ingest_start; [|done]. apply (genesis_core _ _ sample_genesis_rec sample_work 0 sample_index); [reflexivity| |reflexivity].
  split; [apply hash_is_hash|]. split; [split; [vm_compute; discriminate|vm_compute; reflexivity]|].
  destruct sample_work_ok as (t & H1 & H2). by exists t, sample_work.
Qed.

Lemma sample_ctx_ok : ctx_ok ChainParams_default (fun _ => true) sample_ctx.
Proof.
  constructor; [reflexivity|reflexivity| |split; vm_compute; discriminate|vm_compute; discriminate|vm_compute; discriminate| |discriminate].
  - split; [reflexivity|]. repeat constructor; vm_compute; (discriminate || reflexivity).
  - split; [vm_compute; discriminate|vm_compute; reflexivity].
Qed.

Lemma sample_child_bytes : bytes_ok sample_child.
Proof. solve_bytes_ok. Qed.

Lemma sample_room : room ChainParams_default 7 (Ingest_new ChainParams_default) sample_index WorkCache_new [sample_child].
Proof.
  constructor.
  - constructor; [exact sample_child_bytes|constructor].
  - split; [apply cache_new_ok|vm_compute; reflexivity].
  - vm_compute. discriminate.
  - intros s Hs. discriminate Hs.
Qed.


Definition sample_entered : Ingest := fst (touch (Ingest_new ChainParams_default) 7 ChainParams_default 20000 5000).

Lemma sample_entered_inv :
  ing_inv ChainParams_default (fun _ => true) (hr_hash sample_genesis_rec) sample_known sample_entered sample_index /\
  is_Some (ig_sources sample_entered !! 7).
Proof.
  destruct (touch (Ingest_new ChainParams_default) 7 ChainParams_default 20000 5000) as [ig res] eqn:Et.
  assert (res = Ok tt) as Hres by (vm_compute in Et; by injection Et as _ <-).
  pose proof (touch_inv ChainParams_default (fun _ => true) (hr_hash sample_genesis_rec)) as Ht.
  destruct (Ht 7 ltac:(vm_compute; discriminate) ltac:(vm_compute; discriminate) sample_known 20000 5000 _ sample_index ig res sample_inv Et)
    as (H1 & _ & H3 & _). unfold sample_entered. rewrite Et. split; [exact H1|exact (H3 Hres)].
Qed.

Lemma promotion_never_orphans_witness :
  exists po, promote (E := Reject) sample_ctx 7 sample_entered sample_index [] None None = Ok po /\ po_connected po <= 100.
Proof.
  destruct sample_entered_inv as [HI Hs].
  destruct (promotion_never_orphans ChainParams_default (fun _ => true) (hr_hash sample_genesis_rec) sample_known sample_ctx 7
    sample_entered sample_index [] None sample_ctx_ok HI Hs) as (po & H1 & _ & _ & H4 & _).
  - vm_compute. discriminate.
  - exists po. split; [exact H1|exact H4].
Defined.

(** ** What the side capacity does not bound

    The capacity is computed once per batch, and each promotion inside the batch
    counts from zero: with a staging area of one header and a side capacity of
    one, a batch of three connects three. *)
Definition with_limits (p : ChainParams) (max_staged : Z) : ChainParams :=
  MkChainParams (profile p) (network p) (pow_limit p) (genesis_bits p) (asert_anchor_interval p) (author_pubkey p)
    (authority_keys p) (checkpoint_threshold p) (max_reorg_depth p) (sync_window_secs p) (pow_budget_micros p)
    (pow_budget_window_ms p) (pow_budget_burst_micros p) (max_duplicates_per_batch p) (max_duplicates_per_window p)
    (duplicate_window_secs p) (max_peers p) (cpu_pool_threads p) (child_pow_failures_per_source p)
    (child_quota_window_secs p) (max_sources p) (max_side_headers p) max_staged (negative_cache_entries p)
    (reorg_overlay_max_accounts p) (mempool p).
Definition tight_ctx : IngestCtx :=
  MkIngestCtx (fun _ => false) (fun _ => true) 20000 [] None (with_limits ChainParams_default 1) 2000 5000
    (MkTipRef 0 (hr_hash sample_genesis_rec) 1000 sample_work) 1000 Unsolicited 1 1.
Definition next_header (height : Z) (prev : bytes) (time parent_time : Z) : bytes :=
  let bits := match expected_child_bits (genesis_bits ChainParams_default) 0 940 (height - 1) parent_time default_pow_limit with
              | Ok b => b | _ => 0 end in
  Header_encode (MkHeader VERSION_BASE height prev (replicate 32 0) (replicate 32 0) time bits 0 0).
Definition three_headers : list bytes :=
  let h1 := next_header 1 (hr_hash sample_genesis_rec) 1060 1000 in
  let h2 := next_header 2 (header_hash h1) 1120 1060 in
  let h3 := next_header 3 (header_hash h2) 1180 1120 in
  [h1; h2; h3].

Theorem side_capacity_is_per_promotion :
  match snd (submit_headers tight_ctx 7 (Ingest_new (with_limits ChainParams_default 1)) sample_index WorkCache_new three_headers) with
  | Ok (_, _, _, _, a) => cx_side_capacity tight_ctx = 1 /\ ac_connected a = 3
  | _ => False
  end.
Proof. vm_compute. split; reflexivity. Qed.

(** ** A staged header remembers the fork point of an abandoned chain

    The index rebases its nodes when the canonical chain changes; the staged
    headers keep the base computed when they were staged.  Here [stale] was staged
    on the tip of A1-A2 (its base is 2); once B1-B2-B3 is adopted, its ancestor at
    height 1 is looked up on the canonical chain and comes out as B1, while its
    parents lead to A1. *)
Definition fork_rec (k height : Z) : HeaderRec := sample_rec k height (1000 + 60 * height).
Definition fork_insert (ix : HeaderIndex) (k height parent : Z) : HeaderIndex :=
  ok_index (ix_insert ix (fork_rec k height) parent Work_ONE true).
Definition fork_tree : HeaderIndex :=
  let ix := ok_index (insert_genesis HeaderIndex_new (fork_rec 1 0) Work_ONE) in
  let ix := fork_insert ix 11 1 0 in
  let ix := fork_insert ix 12 2 1 in
  let ix := fork_insert ix 21 1 0 in
  let ix := fork_insert ix 22 2 3 in
  fork_insert ix 23 3 4.
Definition adopt (ix : HeaderIndex) (tip : Z) : HeaderIndex :=
  match ancestry (E := Reject) ix tip with
  | Ok chain => match set_canonical (E := Reject) ix chain with Ok ix => ix | _ => ix end
  | _ => ix
  end.
Definition on_a : HeaderIndex := adopt fork_tree 2.
Definition on_b : HeaderIndex := adopt on_a 5.
Definition stale_rec : HeaderRec :=
  MkHeaderRec 3 [13] (hr_hash (fork_rec 12 2)) 1180 0 [].
Definition stale_base : Z :=
  match (let? p := find_parent (E := Reject) on_a [] (hr_hash (fork_rec 12 2)) in
         let? p := ok_or p TxDecode in child_branch_base on_a p) with
  | Ok b => b | _ => 0 end.
Definition stale : Staged := MkStaged stale_rec Work_ONE stale_base.

Theorem stale_base_misplaces_ancestor :
  (let? a := ancestor_of (E := Reject) on_b [stale] (lite_of_staged stale) 1 in Ok (lt_hash <$> a)) =
    Ok (Some (hr_hash (fork_rec 21 1))) /\
  (let? a := ancestor_of_loop (E := Reject) on_b [stale] 3 (lite_of_staged stale) 1 in Ok (lt_hash <$> a)) =
    Ok (Some (hr_hash (fork_rec 11 1))).
Proof. vm_compute. split; reflexivity. Qed.
