(* ===== verification/Mempool.v ===== *)
(** The mempool (src/lib/chain/src/mempool.rs): admission, replacement by fee,
    eviction, expiry, confirmation, reinjection after a reorganisation and block
    templates. The pool is its five collections, as in the code; a hash map is a
    [gmap], whose order never matters here, and the per-sender [BTreeMap] is a
    [gmap] walked in the order of its keys. *)

From Stdlib Require Import ZArith Lia List String.
From stdpp Require Import base list gmap sets numbers sorting.
From S2P Require Import Prelude Constants Work Rules Codec Crypto TxRules ChainTypes.
Open Scope Z_scope.

(** ** Signature proofs *)
Inductive Provenance := Verified | ValidatedBlockProof.
Record SigProof := MkSigProof { sp_provenance : Provenance }.
Definition SigProof_verify `{Ed25519} (network : Network) (tx : Tx) (author_pubkey : bytes) : outcome Reject SigProof :=
  let? _ := match tx with
            | Transfer t => map_err (fun _ => BadTransferSignature 0) (verify_transfer_signature network t)
            | Announcement a => map_err (RejTx 0) (check_announcement_stateless network a author_pubkey)
            | Coinbase _ => Err (TxTypeNotRelayable 0)
            end in
  Ok (MkSigProof Verified).
Definition from_validated_block : SigProof := MkSigProof ValidatedBlockProof.
Definition is_freshly_verified (p : SigProof) : bool := match sp_provenance p with Verified => true | _ => false end.

Inductive AuthorRule := Enforce (key : bytes) | AlreadyHeld.

Record Prepared := MkPrepared {
  pp_raw : bytes;
  pp_tx : Tx;
  pp_txid : Hash32;
  pp_sender : Address;
  pp_nonce : Z;
  pp_fee : Z;
  pp_amount : Z;
  pp_next : Z;
  pp_replaces : option Hash32;
}.

Record PoolTx := MkPoolTx {
  pt_txid : Hash32;
  pt_sender : Address;
  pt_nonce : Z;
  pt_fee : Z;
  pt_amount : Z;
  pt_bytes : bytes;
  pt_arrived : Z;
  pt_sig_verified : bool;
  pt_executable : bool;
}.
Definition fee_per_byte_of (fee len : Z) : Z := fee / Z.max len 1.
Definition fee_per_byte (t : PoolTx) : Z := fee_per_byte_of (pt_fee t) (Zlen (pt_bytes t)).
Definition set_executable (t : PoolTx) (b : bool) : PoolTx :=
  MkPoolTx (pt_txid t) (pt_sender t) (pt_nonce t) (pt_fee t) (pt_amount t) (pt_bytes t) (pt_arrived t) (pt_sig_verified t) b.

Record Mempool := MkMempool {
  mp_params : MempoolParams;
  mp_txs : gmap Hash32 PoolTx;
  mp_by_sender : gmap Address (gmap Z Hash32);
  mp_next_nonce : gmap Address Z;
  mp_arrival : list Hash32;
  mp_total_bytes : Z;
}.
Record PoolAdmission := MkPoolAdmission {
  pa_txid : Hash32;
  pa_executable : bool;
  pa_promoted : list Hash32;
  pa_removed : list Hash32;
}.

Definition Mempool_new (params : MempoolParams) : Mempool := MkMempool params ∅ ∅ ∅ [] 0.
Definition mp_len (p : Mempool) : Z := Z.of_nat (size (mp_txs p)).
Definition mp_is_empty (p : Mempool) : bool := mp_len p =? 0.
Definition mp_get (p : Mempool) (txid : Hash32) : option PoolTx := mp_txs p !! txid.
Definition with_txs (p : Mempool) (txs : gmap Hash32 PoolTx) : Mempool :=
  MkMempool (mp_params p) txs (mp_by_sender p) (mp_next_nonce p) (mp_arrival p) (mp_total_bytes p).
Definition with_next (p : Mempool) (next : gmap Address Z) : Mempool :=
  MkMempool (mp_params p) (mp_txs p) (mp_by_sender p) next (mp_arrival p) (mp_total_bytes p).

(** The entries of a [BTreeMap], in order. *)
Definition entry_le (p q : Z * Hash32) : Prop := fst p <= fst q.
#[export] Instance entry_le_dec : RelDecision entry_le.
Proof. intros p q. unfold entry_le. apply _. Defined.
Definition entries (m : gmap Z Hash32) : list (Z * Hash32) := merge_sort entry_le (map_to_list m).
Definition sender_map (p : Mempool) (s : Address) : gmap Z Hash32 := default ∅ (mp_by_sender p !! s).
Definition sender_len (p : Mempool) (s : Address) : Z := Z.of_nat (size (sender_map p s)).
Definition sender_txs (p : Mempool) (s : Address) : list PoolTx :=
  omap (fun e => mp_txs p !! snd e) (entries (sender_map p s)).
Definition pool_values (p : Mempool) : list PoolTx := snd <$> map_to_list (mp_txs p).
Definition executable_len (p : Mempool) : Z := Zlen (filter (fun t => pt_executable t = true) (pool_values p)).
Definition tracked_senders (p : Mempool) : Z := Z.of_nat (size (mp_next_nonce p)).

(** [a.cmp(b).then(..)] with the fee per byte reversed. *)
Definition exec_before (a b : PoolTx) : Prop :=
  fee_per_byte b < fee_per_byte a \/
  (fee_per_byte a = fee_per_byte b /\
   match bytes_cmp (pt_sender a) (pt_sender b) with Lt => True | Gt => False | Eq => pt_nonce a <= pt_nonce b end).
#[export] Instance exec_before_dec : RelDecision exec_before.
Proof. intros a b. unfold exec_before. destruct (bytes_cmp _ _); apply _. Defined.
Definition executable_ids (p : Mempool) : list Hash32 :=
  pt_txid <$> merge_sort exec_before (filter (fun t => pt_executable t = true) (pool_values p)).

(** ** Insertion and removal *)
Definition mp_insert {E : Type} (p : Mempool) (t : PoolTx) : outcome E Mempool :=
  let? total := add_checked 64 (mp_total_bytes p) (Zlen (pt_bytes t)) in
  Ok (MkMempool (mp_params p) (<[pt_txid t := t]> (mp_txs p))
        (<[pt_sender t := <[pt_nonce t := pt_txid t]> (sender_map p (pt_sender t))]> (mp_by_sender p))
        (mp_next_nonce p) (mp_arrival p ++ [pt_txid t]) total).

Definition mp_remove {E : Type} (p : Mempool) (id : Hash32) : outcome E (option PoolTx * Mempool) :=
  match mp_txs p !! id with
  | None => Ok (None, p)
  | Some t =>
    let txs := delete id (mp_txs p) in
    let? total := expect (checked_sub 64 (mp_total_bytes p) (Zlen (pt_bytes t))) in
    let '(by_sender, next) :=
      match mp_by_sender p !! pt_sender t with
      | None => (mp_by_sender p, mp_next_nonce p)
      | Some m =>
        let m := delete (pt_nonce t) m in
        if bool_decide (m = ∅) then (delete (pt_sender t) (mp_by_sender p), delete (pt_sender t) (mp_next_nonce p))
        else (<[pt_sender t := m]> (mp_by_sender p), mp_next_nonce p)
      end in
    Ok (Some t, MkMempool (mp_params p) txs by_sender next (filter (fun x => x <> id) (mp_arrival p)) total)
  end.
Definition remove_all {E : Type} (p : Mempool) (ids : list Hash32) : outcome E Mempool :=
  ofold (fun p id => let? r := mp_remove p id in Ok (snd r)) p ids.

Definition drop_below_nonce {E : Type} (p : Mempool) (sender : Address) (next : Z) : outcome E Mempool :=
  remove_all p (snd <$> filter (fun e => fst e < next) (entries (sender_map p sender))).

Fixpoint resplit_loop {E : Type} (ids : list (Z * Hash32)) (txs : gmap Hash32 PoolTx) (want : Z) (promoted : list Hash32)
    : outcome E (gmap Hash32 PoolTx * list Hash32) :=
  match ids with
  | [] => Ok (txs, promoted)
  | (n, id) :: ids =>
    let exec := n =? want in
    let? want := (if exec then add_checked 64 want 1 else Ok want) in
    let? t := expect (txs !! id) in
    let promoted := if exec && negb (pt_executable t) then promoted ++ [id] else promoted in
    resplit_loop ids (<[id := set_executable t exec]> txs) want promoted
  end.
Definition resplit {E : Type} (p : Mempool) (sender : Address) (next : Z) : outcome E (list Hash32 * Mempool) :=
  match mp_by_sender p !! sender with
  | None => Ok ([], p)
  | Some m =>
    let? r := resplit_loop (entries m) (mp_txs p) next [] in
    Ok (snd r, with_txs p (fst r))
  end.

Definition outlay (t : PoolTx) : Z := saturating_add 128 (pt_amount t) (pt_fee t).
Definition pending_outlay (p : Mempool) (sender : Address) : Z :=
  fold_left (fun a t => saturating_add 128 a (outlay t)) (sender_txs p sender) 0.

(** ** Eviction *)
Definition queued_cmp (a b : PoolTx) : comparison :=
  match fee_per_byte a ?= fee_per_byte b with
  | Eq => match pt_arrived b ?= pt_arrived a with
          | Eq => bytes_cmp (pt_txid b) (pt_txid a)
          | c => c
          end
  | c => c
  end.
Definition head_cmp (a b : PoolTx) : comparison :=
  match fee_per_byte a ?= fee_per_byte b with
  | Eq => bytes_cmp (pt_sender a) (pt_sender b)
  | c => c
  end.
(** [min_by]: the first of the least. *)
Definition min_by (cmp : PoolTx -> PoolTx -> comparison) (l : list PoolTx) : option PoolTx :=
  match l with
  | [] => None
  | t :: l => Some (fold_left (fun best x => match cmp best x with Gt => x | _ => best end) l t)
  end.
Definition eviction_candidate (p : Mempool) : option (Hash32 * EvictReason) :=
  match min_by queued_cmp (filter (fun t => pt_executable t = false) (pool_values p)) with
  | Some t => Some (pt_txid t, QueuedLowFee)
  | None =>
    head ← min_by head_cmp (filter (fun t => pt_executable t = true) (pool_values p));
    m ← mp_by_sender p !! pt_sender head;
    tail ← list.last (entries m);
    Some (snd tail, ExecutableTail)
  end.

(** ** Expiry *)
Definition expired_ids (p : Mempool) (now : Z) : list Hash32 :=
  pt_txid <$> filter (fun t => ttl_secs (mp_params p) < saturating_sub now (pt_arrived t)) (pool_values p).
(** [sort_unstable] and [dedup] of the senders: each once, in order. *)
Definition addr_le (a b : Address) : Prop := bytes_leb a b = true.
#[export] Instance addr_le_dec : RelDecision addr_le.
Proof. intros a b. unfold addr_le. apply _. Defined.
Definition sorted_senders (l : list Address) : list Address := merge_sort addr_le (remove_dups l).
Definition sweep_expired {E : Type} (p : Mempool) (now : Z) : outcome E (list Hash32 * Mempool) :=
  let dead := expired_ids p now in
  let senders := omap (fun id => pt_sender <$> mp_txs p !! id) dead in
  let? p := remove_all p dead in
  let? p := ofold (fun p s => let? r := resplit p s (default 0 (mp_next_nonce p !! s)) in Ok (snd r)) p (sorted_senders senders) in
  Ok (dead, p).

(** ** Admission *)
Section Pool.
Context `{Ed25519}.

Definition tx_parts (tx : Tx) (type_byte : Z) : outcome Reject (bytes * Z * Z * Z * Hash32) :=
  match tx with
  | Transfer t => Ok (t_from_pub t, t_nonce t, t_fee t, t_amount t, TransferTx_txid t)
  | Announcement a =>
    let? id := map_err (fun _ => TxDecode) (AnnouncementTx_txid a) in
    Ok (a_from_pub a, a_nonce a, a_fee a, 0, id)
  | Coinbase _ => Err (TxTypeNotRelayable type_byte)
  end.

Definition author_refuses (tx : Tx) (author : AuthorRule) : bool :=
  match tx, author with
  | Announcement a, Enforce key => negb (bytes_eqb (a_from_pub a) key)
  | _, _ => false
  end.

(** The transaction a submission with this sender and nonce would replace, and the
    outlay it frees. *)
Definition check_replacement (p : Mempool) (sender : Address) (nonce fee : Z) : outcome Reject (option Hash32 * Z) :=
  match sender_map p sender !! nonce with
  | None => Ok (None, 0)
  | Some old_id =>
    let? old := expect (mp_txs p !! old_id) in
    let bump := Z.max (pt_fee old / 4) 1 in
    let? need := ok_or (checked_add 128 (pt_fee old) bump) ArithmeticOverflow in
    guard! fee <? need else ReplacementUnderpriced need fee ;;
    Ok (Some old_id, outlay old)
  end.

Definition mp_check (p : Mempool) (raw : bytes) (author : AuthorRule) (lookup : Address -> Account * Z) : outcome Reject Prepared :=
  guard! MAX_TX_BYTES <? Zlen raw else TxTooLarge (Zlen raw) ;;
  let? type_byte := ok_or (head raw) TxDecode in
  guard! type_byte =? TX_TYPE_COINBASE else TxTypeNotRelayable type_byte ;;
  let? tx := map_err (fun _ => TxDecode) (decode_tx raw) in
  let? parts := tx_parts tx type_byte in
  let '(sender_pub, nonce, fee, amount, txid) := parts in
  let sender := address_payload sender_pub in
  guard! author_refuses tx author else RejTx 0 NotAuthorKey ;;
  guard! fee <? FEE_FLOOR_MILE else BelowRelayFloor fee FEE_FLOOR_MILE ;;
  guard! fee <? relay_fee_floor (mp_params p) else BelowRelayFloor fee (relay_fee_floor (mp_params p)) ;;
  guard! bool_decide (is_Some (mp_txs p !! txid)) else TxKnown ;;
  let '(acct, spendable) := lookup sender in
  let next := acc_nonce acct in
  guard! nonce <? next else TxStale next nonce ;;
  guard! saturating_add 64 next (max_nonce_gap (mp_params p)) <? nonce else NonceGapTooLarge next nonce ;;
  let? r := check_replacement p sender nonce fee in
  let '(replaces, displaced_outlay) := r in
  let? out := ok_or (checked_add 128 amount fee) ArithmeticOverflow in
  let pending := saturating_sub (pending_outlay p sender) displaced_outlay in
  let? total := ok_or (checked_add 128 pending out) ArithmeticOverflow in
  guard! spendable <? total else RejInsufficientBalance 0 total spendable ;;
  let? held := expect (checked_sub 64 (sender_len p sender) (match replaces with Some _ => 1 | None => 0 end)) in
  guard! effective_per_sender (mp_params p) <=? held else SenderCap (effective_per_sender (mp_params p)) ;;
  Ok (MkPrepared raw tx txid sender nonce fee amount next replaces).

Definition over_limits (p : Mempool) (len : Z) : bool :=
  (max_txs (mp_params p) <=? mp_len p) || (max_bytes (mp_params p) <? mp_total_bytes p + len).

(** The eviction loop: every round removes one transaction, so the size of the pool
    is enough fuel.  The flag says whether there is room in the end. *)
Fixpoint make_room (fuel : nat) (p : Mempool) (len incoming_fpb : Z) (removed : list Hash32) (obs : list Condition)
    : outcome Reject (bool * Mempool * list Hash32 * list Condition) :=
  if negb (over_limits p len) then Ok (true, p, removed, obs) else
  match fuel with
  | O => Panic
  | S fuel =>
    match eviction_candidate p with
    | None => Ok (false, p, removed, obs)
    | Some (victim, reason) =>
      let? v := expect (mp_txs p !! victim) in
      if incoming_fpb <? fee_per_byte v then Ok (false, p, removed, obs) else
      let? r := mp_remove p victim in
      make_room fuel (snd r) len incoming_fpb (removed ++ [victim]) (obs ++ [CMempoolEvicted 1 reason])
    end
  end.

(** The transaction displaced by a replacement that found no room comes back. *)
Definition restore (p : Mempool) (displaced : option PoolTx) (sender : Address) (next : Z) : outcome Reject Mempool :=
  match displaced with
  | None => Ok p
  | Some old =>
    let? p := mp_insert p old in
    let? r := resplit p sender next in
    Ok (snd r)
  end.

(** The pool changes even when the submission is refused. *)
Definition mp_commit (p : Mempool) (pr : Prepared) (proof : SigProof) (now : Z)
    : outcome Reject (Mempool * list Condition * (Reject + PoolAdmission)) :=
  let? r := sweep_expired p now in
  let '(expired, p) := r in
  let obs := if bool_decide (expired = []) then [] else [CMempoolEvicted (Zlen expired) Expired] in
  let? r := match pp_replaces pr with
            | Some old_id => mp_remove p old_id
            | None => Ok (None, p)
            end in
  let '(displaced, p) := r in
  let incoming_fpb := fee_per_byte_of (pp_fee pr) (Zlen (pp_raw pr)) in
  let? r := make_room (S (size (mp_txs p))) p (Zlen (pp_raw pr)) incoming_fpb [] obs in
  let '(room, p, removed, obs) := r in
  if negb room then
    let? p := restore p displaced (pp_sender pr) (pp_next pr) in
    Ok (p, obs, inl PoolFull)
  else
    let removed := match pp_replaces pr with Some old_id => old_id :: removed | None => removed end in
    let p := with_next p (<[pp_sender pr := pp_next pr]> (mp_next_nonce p)) in
    let? p := mp_insert p (MkPoolTx (pp_txid pr) (pp_sender pr) (pp_nonce pr) (pp_fee pr) (pp_amount pr) (pp_raw pr) now true false) in
    let? r := resplit p (pp_sender pr) (pp_next pr) in
    let '(promoted, p) := r in
    let? t := expect (mp_txs p !! pp_txid pr) in
    Ok (p, obs, inr (MkPoolAdmission (pp_txid pr) (pt_executable t) (filter (fun id => id <> pp_txid pr) promoted) removed)).

(** Both entry points: the pool after, the conditions, the verdict. *)
Definition verdict {A} (p : Mempool) (m : outcome Reject A) (k : A -> outcome Reject (Mempool * list Condition * (Reject + PoolAdmission)))
    : outcome Reject (Mempool * list Condition * (Reject + PoolAdmission)) :=
  match m with
  | Ok a => k a
  | Err e => Ok (p, [], inl e)
  | Panic => Panic
  end.
Definition mp_submit (p : Mempool) (raw : bytes) (acct : Account) (spendable now : Z) (proof : SigProof)
    : outcome Reject (Mempool * list Condition * (Reject + PoolAdmission)) :=
  verdict p (mp_check p raw AlreadyHeld (fun _ => (acct, spendable))) (fun pr => mp_commit p pr proof now).
Definition submit_verified (p : Mempool) (network : Network) (raw : bytes) (lookup : Address -> Account * Z) (now : Z) (author_pubkey : bytes)
    : outcome Reject (Mempool * list Condition * (Reject + PoolAdmission)) :=
  verdict p (mp_check p raw (Enforce author_pubkey) lookup) (fun pr =>
  verdict p (SigProof_verify network (pp_tx pr) author_pubkey) (fun proof =>
  mp_commit p pr proof now)).

(** ** Blocks *)
Definition confirm_step (s : Mempool * Z) (e : Address * Z) : outcome Reject (Mempool * Z) :=
  let '(p, n) := s in
  match sender_map p (fst e) !! snd e with
  | None => Ok (p, n)
  | Some id => let? r := mp_remove p id in Ok (snd r, n + 1)
  end.
Definition resettle (account_nonce : Address -> Account) (p : Mempool) (s : Address) : outcome Reject Mempool :=
  let next := acc_nonce (account_nonce s) in
  let p := with_next p (<[s := next]> (mp_next_nonce p)) in
  let? p := drop_below_nonce p s next in
  let? r := resplit p s next in
  Ok (snd r).
Definition on_block_connected (p : Mempool) (spent : list (Address * Z)) (account_nonce : Address -> Account)
    : outcome Reject (Mempool * Z) :=
  let? r := ofold confirm_step (p, 0) spent in
  let '(p, n) := r in
  let? p := ofold (resettle account_nonce) p (sorted_senders (fst <$> spent)) in
  Ok (p, n).
Definition resplit_all (p : Mempool) (account : Address -> Account) : outcome Reject Mempool :=
  ofold (resettle account) p (fst <$> map_to_list (mp_by_sender p)).

(** ** Reinjection *)
Definition tx_from_pub (tx : Tx) : option bytes :=
  match tx with
  | Transfer t => Some (t_from_pub t)
  | Announcement a => Some (a_from_pub a)
  | Coinbase _ => None
  end.
Definition reinject_step (now : Z) (lookup : Address -> Account * Z) (s : Mempool * Z * Z * list Condition) (raw : bytes)
    : outcome Reject (Mempool * Z * Z * list Condition) :=
  let '(p, taken, dropped, obs) := s in
  if reorg_reinject_cap (mp_params p) <=? taken then Ok (p, taken, dropped + 1, obs) else
  match decode_tx raw with
  | Panic => Panic
  | Err _ => Ok (p, taken, dropped + 1, obs)
  | Ok tx =>
    match tx_from_pub tx with
    | None => Ok (p, taken, dropped, obs)
    | Some from_pub =>
      let '(acct, spendable) := lookup (address_payload from_pub) in
      let? r := mp_submit p raw acct spendable now from_validated_block in
      let '(p, o, v) := r in
      match v with
      | inr _ => Ok (p, taken + 1, dropped, obs ++ o)
      | inl _ => Ok (p, taken, dropped + 1, obs ++ o)
      end
    end
  end.
(** [sort_by_key] is stable, and so is [merge_sort]. *)
Definition newest_first (a b : Z * list bytes) : Prop := fst b <= fst a.
#[export] Instance newest_first_dec : RelDecision newest_first.
Proof. intros a b. unfold newest_first. apply _. Defined.
Definition on_reorg_reinject (p : Mempool) (disconnected : list (Z * list bytes)) (now : Z) (lookup : Address -> Account * Z)
    : outcome Reject (Mempool * Z * Z * list Condition) :=
  let raws := concat (snd <$> merge_sort newest_first disconnected) in
  let? r := ofold (reinject_step now lookup) (p, 0, 0, []) raws in
  let '(p, taken, dropped, obs) := r in
  Ok (p, taken, dropped, obs ++ (if 0 <? dropped then [CMempoolEvicted dropped ReorgOverflow] else [])).

(** [ChainManager::update_mempool], after a branch was adopted: the lookup of a sender
    is its account and what of its balance is spendable. *)
Definition update_mempool (p : Mempool) (spent : list (Address * Z)) (disconnected : list (Z * list bytes))
    (account : Address -> Account) (spendable : Address -> Z -> Z) (now : Z) : outcome Reject (Mempool * list Condition) :=
  let? r := on_block_connected p spent account in
  let '(p, _) := r in
  let? r := match disconnected with
            | [] => Ok (p, [])
            | _ =>
              let? r := on_reorg_reinject p disconnected now (fun a => (account a, spendable a (acc_balance (account a)))) in
              let '(p, _, _, conds) := r in
              Ok (p, conds)
            end in
  let '(p, conds) := r in
  let? p := resplit_all p account in
  Ok (p, conds).
End Pool.

(** ** Templates *)
Definition nonce_le (a b : PoolTx) : Prop := pt_nonce a <= pt_nonce b.
#[export] Instance nonce_le_dec : RelDecision nonce_le.
Proof. intros a b. unfold nonce_le. apply _. Defined.
(** The executable run of a sender, by nonce. *)
Definition exec_chain (p : Mempool) (s : Address) : list PoolTx :=
  merge_sort nonce_le (filter (fun t => pt_executable t = true /\ pt_sender t = s) (pool_values p)).
Definition chain_before (a b : list PoolTx) : Prop :=
  match a, b with
  | x :: _, y :: _ =>
    fee_per_byte y < fee_per_byte x \/ (fee_per_byte x = fee_per_byte y /\ bytes_leb (pt_sender x) (pt_sender y) = true)
  | _, _ => True
  end.
#[export] Instance chain_before_dec : RelDecision chain_before.
Proof. intros [|x a] [|y b]; unfold chain_before; apply _. Defined.
Definition exec_senders (p : Mempool) : list Address :=
  remove_dups (pt_sender <$> filter (fun t => pt_executable t = true) (pool_values p)).
Definition template_chains (p : Mempool) : list (list PoolTx) :=
  merge_sort chain_before (exec_chain p <$> exec_senders p).
(** Takes transactions until one does not fit, then stops for good. *)
Fixpoint template_take (max_txs max_bytes : Z) (ts : list PoolTx) (out : list PoolTx) (used : Z) : list PoolTx :=
  match ts with
  | [] => out
  | t :: ts =>
    if (max_txs <=? Zlen out) || (max_bytes <? used + Zlen (pt_bytes t)) then out
    else template_take max_txs max_bytes ts (out ++ [t]) (used + Zlen (pt_bytes t))
  end.
Definition template_txs (p : Mempool) (max_txs max_bytes : Z) : list PoolTx :=
  template_take max_txs max_bytes (concat (template_chains p)) [] 0.
Definition template (p : Mempool) (max_txs max_bytes : Z) : list bytes := pt_bytes <$> template_txs p max_txs max_bytes.
