(* ===== verification/MempoolInv.v ===== *)
(** The invariant of the mempool and what it gives: the five collections agree,
    the executable flags of a sender are the run of nonces from the sender's next
    one, the limits hold, and every operation keeps all of it and never panics.
    Quantities of the pool (bytes, transactions of a sender, outlay of a sender)
    are weights: sums over the transactions that do not read the executable flag. *)

From Stdlib Require Import ZArith Lia List.
From stdpp Require Import base list gmap sets numbers sorting.
From S2P Require Import Prelude Constants Work Rules Codec Crypto TxRules ChainTypes Mempool.
Open Scope Z_scope.

(** ** Executable flags *)
Lemma set_executable_twice t b c : set_executable (set_executable t b) c = set_executable t c.
Proof. by destruct t. Qed.
Lemma set_executable_same t : set_executable t (pt_executable t) = t.
Proof. by destruct t. Qed.

(** [q] holds transactions of [p] only, up to the flag. *)
Definition sub_txs (q p : gmap Hash32 PoolTx) : Prop :=
  forall id t, q !! id = Some t -> exists b, p !! id = Some (set_executable t b).
#[export] Instance sub_txs_preorder : PreOrder sub_txs.
Proof.
  split.
  - intros p id t E. exists (pt_executable t). by rewrite set_executable_same.
  - intros a b c A B id t E. destruct (A _ _ E) as [x E']. destruct (B _ _ E') as [y E''].
    exists y. by rewrite E'', set_executable_twice.
Qed.
Lemma sub_txs_delete p id : sub_txs (delete id p) p.
Proof. intros i t [_ E]%lookup_delete_Some. exists (pt_executable t). by rewrite set_executable_same. Qed.
Lemma sub_txs_none q p id : sub_txs q p -> p !! id = None -> q !! id = None.
Proof. intros S N. destruct (q !! id) eqn:E; [|done]. destruct (S _ _ E) as [b F]. congruence. Qed.

(** ** Weights *)
Class Weight (w : PoolTx -> Z) : Prop := {
  weight_nonneg : forall t, 0 <= w t;
  weight_flag : forall t b, w (set_executable t b) = w t;
}.
Definition wsum (w : PoolTx -> Z) (txs : gmap Hash32 PoolTx) : Z := map_fold (fun _ t a => w t + a) 0 txs.

Lemma wsum_empty w : wsum w ∅ = 0.
Proof. apply map_fold_empty. Qed.
Lemma wsum_insert w txs id t : txs !! id = None -> wsum w (<[id := t]> txs) = w t + wsum w txs.
Proof. intros N. unfold wsum. rewrite map_fold_insert_L; [done| |done]. intros. lia. Qed.
Lemma wsum_delete w txs id t : txs !! id = Some t -> wsum w txs = w t + wsum w (delete id txs).
Proof. intros E. unfold wsum. rewrite (map_fold_delete_L _ _ id t); [done| |done]. intros. lia. Qed.
Lemma wsum_values w txs : wsum w txs = foldr (fun t a => w t + a) 0 (snd <$> map_to_list txs).
Proof.
  unfold wsum. rewrite map_fold_foldr. generalize (map_to_list txs). intros l.
  induction l as [|[i t] l IH]; cbn; [done|]. by rewrite IH.
Qed.

Section Weights.
Context (w : PoolTx -> Z) `{!Weight w}.

Lemma wsum_nonneg txs : 0 <= wsum w txs.
Proof.
  induction txs as [|id t txs N IH] using map_ind; [by rewrite wsum_empty|].
  rewrite wsum_insert by done. pose proof (weight_nonneg t). lia.
Qed.
Lemma wsum_sub q : forall p, sub_txs q p -> wsum w q <= wsum w p.
Proof.
  induction q as [|id t q N IH] using map_ind; intros p S; [rewrite wsum_empty; apply wsum_nonneg|].
  destruct (S id t) as [b E]; [by rewrite lookup_insert_eq|].
  rewrite wsum_insert, (wsum_delete w p id _ E), weight_flag by done.
  assert (wsum w q <= wsum w (delete id p)); [|lia]. apply IH. intros i u F.
  assert (i <> id) by congruence.
  destruct (S i u) as [c G]; [by rewrite lookup_insert_ne|]. exists c. by rewrite lookup_delete_ne.
Qed.
Lemma wsum_mono id t txs : txs !! id = Some t -> w t <= wsum w txs.
Proof. intros E. rewrite (wsum_delete w txs id t E). pose proof (wsum_nonneg (delete id txs)). lia. Qed.
(** A transaction of [p] missing from [q] leaves room for its weight. *)
Lemma wsum_room q p id t : sub_txs q p -> p !! id = Some t -> q !! id = None -> w t + wsum w q <= wsum w p.
Proof.
  intros S E N. rewrite (wsum_delete w p id t E). assert (wsum w q <= wsum w (delete id p)); [|lia].
  apply wsum_sub. intros i u F. assert (i <> id) by congruence. destruct (S _ _ F) as [b G]. exists b. by rewrite lookup_delete_ne.
Qed.
End Weights.

Definition w_bytes (t : PoolTx) : Z := Zlen (pt_bytes t).
Definition w_one (t : PoolTx) : Z := 1.
Definition of_sender (s : Address) (w : PoolTx -> Z) (t : PoolTx) : Z := if decide (pt_sender t = s) then w t else 0.
(** What the transaction spends; meaningful for the amounts the code can hold. *)
Definition w_outlay (t : PoolTx) : Z := Z.max 0 (pt_amount t + pt_fee t).
#[export] Instance w_bytes_weight : Weight w_bytes.
Proof. split; intros; [apply Zlen_nonneg|done]. Qed.
#[export] Instance w_one_weight : Weight w_one.
Proof. split; intros; unfold w_one; [lia|done]. Qed.
#[export] Instance w_outlay_weight : Weight w_outlay.
Proof. split; intros; unfold w_outlay; [lia|done]. Qed.
#[export] Instance of_sender_weight s w `{!Weight w} : Weight (of_sender s w).
Proof.
  split; unfold of_sender; intros t *; cbn; case_decide; rewrite ?weight_flag; try done; [apply weight_nonneg].
Qed.

Lemma of_sender_self s w t : pt_sender t = s -> of_sender s w t = w t.
Proof. intros <-. unfold of_sender. by rewrite decide_True. Qed.

Lemma wsum_one txs : wsum w_one txs = Z.of_nat (size txs).
Proof.
  induction txs as [|id t txs N IH] using map_ind; [by rewrite wsum_empty, map_size_empty|].
  rewrite wsum_insert, map_size_insert_None, IH by done. unfold w_one. lia.
Qed.
Lemma wsum_sub_zero q p (w : PoolTx -> Z) `{!Weight w} : sub_txs q p -> sub_txs p q -> wsum w q = wsum w p.
Proof. intros A B. pose proof (wsum_sub w _ _ A). pose proof (wsum_sub w _ _ B). lia. Qed.

(** ** Agreement of the collections *)
Definition idx (p : Mempool) (s : Address) (n : Z) : option Hash32 := sender_map p s !! n.
Definition nonce_ok (n : Z) : Prop := 0 <= n < umax 64.

Record pool_core (p : Mempool) : Prop := {
  pc_txs : forall id t, mp_txs p !! id = Some t ->
    pt_txid t = id /\ idx p (pt_sender t) (pt_nonce t) = Some id /\ nonce_ok (pt_nonce t);
  pc_idx : forall s n id, idx p s n = Some id ->
    exists t, mp_txs p !! id = Some t /\ pt_sender t = s /\ pt_nonce t = n;
  pc_nonempty : forall s m, mp_by_sender p !! s = Some m -> m <> ∅;
  pc_bytes : mp_total_bytes p = wsum w_bytes (mp_txs p);
  pc_total : mp_total_bytes p < 2 ^ 64;
  pc_arrival : NoDup (mp_arrival p);
  pc_arrived : forall id, id ∈ mp_arrival p <-> is_Some (mp_txs p !! id);
}.

Lemma core_new params : pool_core (Mempool_new params).
Proof.
  split; cbn.
  - intros id t E. by rewrite lookup_empty in E.
  - intros s n id E. unfold idx, sender_map in E. cbn in E. by rewrite lookup_empty in E.
  - intros s m E. by rewrite lookup_empty in E.
  - by rewrite wsum_empty.
  - lia.
  - constructor.
  - intros id. rewrite lookup_empty. split; [intros E; inversion E|intros [? E]; done].
Qed.

(** The position of a transaction determines it. *)
Lemma core_position p id t id' t' : pool_core p -> mp_txs p !! id = Some t -> mp_txs p !! id' = Some t' ->
  pt_sender t = pt_sender t' -> pt_nonce t = pt_nonce t' -> id = id'.
Proof.
  intros C E E' S N. destruct (pc_txs _ C _ _ E) as (_ & I & _). destruct (pc_txs _ C _ _ E') as (_ & I' & _).
  rewrite S, N in I. congruence.
Qed.
Lemma core_sub_idx p q s n id : pool_core q -> pool_core p -> sub_txs (mp_txs q) (mp_txs p) ->
  idx q s n = Some id -> idx p s n = Some id.
Proof.
  intros Cq Cp S I. destruct (pc_idx _ Cq _ _ _ I) as (t & E & <- & <-). destruct (S _ _ E) as [b F].
  by destruct (pc_txs _ Cp _ _ F) as (_ & J & _).
Qed.
(** Whoever has the same transactions up to the flags agrees as well. *)
Lemma core_flags p txs : pool_core p -> sub_txs txs (mp_txs p) -> sub_txs (mp_txs p) txs -> pool_core (with_txs p txs).
Proof.
  intros C A B. split; cbn.
  - intros id t E. destruct (A _ _ E) as [b F]. by destruct (pc_txs _ C _ _ F) as (T & I & N).
  - intros s n id I. destruct (pc_idx _ C s n id I) as (t & E & S & N). destruct (B _ _ E) as [b F].
    by exists (set_executable t b).
  - apply (pc_nonempty _ C).
  - rewrite (pc_bytes _ C). by apply wsum_sub_zero; [apply _|..].
  - apply (pc_total _ C).
  - apply (pc_arrival _ C).
  - intros id. rewrite (pc_arrived _ C). split; intros [t E]; [destruct (B _ _ E) as [b F]|destruct (A _ _ E) as [b F]]; eauto.
Qed.
Lemma core_next p next : pool_core p -> pool_core (with_next p next).
Proof. intros [???????]. by split. Qed.

(** ** Removal *)
Record Removed (p : Mempool) (id : Hash32) (t : PoolTx) (q : Mempool) : Prop := {
  rm_core : pool_core q;
  rm_params : mp_params q = mp_params p;
  rm_txs : mp_txs q = delete id (mp_txs p);
  rm_idx : forall s n, idx q s n = if decide (s = pt_sender t /\ n = pt_nonce t) then None else idx p s n;
  rm_next : forall s, s <> pt_sender t -> mp_next_nonce q !! s = mp_next_nonce p !! s;
  rm_next_self : mp_next_nonce q !! pt_sender t = mp_next_nonce p !! pt_sender t \/
    (mp_next_nonce q !! pt_sender t = None /\ mp_by_sender q !! pt_sender t = None);
}.

(** What [mp_remove] does to the index, as a map. *)
Lemma sender_map_delete p q id t m :
  mp_by_sender p !! pt_sender t = Some m ->
  mp_by_sender q = (if bool_decide (delete (pt_nonce t) m = ∅) then delete (pt_sender t) (mp_by_sender p)
                    else <[pt_sender t := delete (pt_nonce t) m]> (mp_by_sender p)) ->
  pt_txid t = id ->
  forall s n, idx q s n = if decide (s = pt_sender t /\ n = pt_nonce t) then None else idx p s n.
Proof.
  intros M B _ s n. unfold idx, sender_map. rewrite B. destruct (decide (s = pt_sender t)) as [->|Ns].
  - rewrite M. cbn. transitivity (delete (pt_nonce t) m !! n).
    { case_bool_decide as Z; [by rewrite lookup_delete_eq, Z|by rewrite lookup_insert_eq]. }
    destruct (decide (n = pt_nonce t)) as [->|Nn]; [rewrite lookup_delete_eq, decide_True by done; done|].
    rewrite lookup_delete_ne, decide_False by (done || tauto). done.
  - rewrite decide_False by tauto. case_bool_decide; [by rewrite lookup_delete_ne|by rewrite lookup_insert_ne].
Qed.

Lemma remove_spec {E : Type} p id t : pool_core p -> mp_txs p !! id = Some t ->
  exists q, @mp_remove E p id = Ok (Some t, q) /\ Removed p id t q.
Proof.
  intros C T. destruct (pc_txs _ C _ _ T) as (Hid & I & N).
  pose proof (wsum_delete w_bytes _ _ _ T) as W. pose proof (wsum_nonneg w_bytes (delete id (mp_txs p))).
  pose proof (pc_bytes _ C). pose proof (pc_total _ C). pose proof (Zlen_nonneg (pt_bytes t)).
  unfold mp_remove. rewrite T.
  rewrite (proj2 (checked_sub_some 64 (mp_total_bytes p) (Zlen (pt_bytes t)) _)) by (split; [reflexivity|unfold w_bytes in *; lia]).
  destruct (mp_by_sender p !! pt_sender t) as [m|] eqn:M; cycle 1.
  { unfold idx, sender_map in I. rewrite M in I. cbn in I. by rewrite lookup_empty in I. }
  cbn -[Z.pow]. remember (if bool_decide (delete (pt_nonce t) m = ∅) then _ else _) as bn eqn:EB. destruct bn as [bs nx].
  eexists. split; [reflexivity|].
  assert (Hbs : bs = if bool_decide (delete (pt_nonce t) m = ∅) then delete (pt_sender t) (mp_by_sender p)
                else <[pt_sender t := delete (pt_nonce t) m]> (mp_by_sender p)) by (case_bool_decide; congruence).
  assert (X : forall q, mp_by_sender q = bs -> forall s n,
    idx q s n = if decide (s = pt_sender t /\ n = pt_nonce t) then None else idx p s n).
  { intros q Q. eapply sender_map_delete; eauto. by rewrite Q. }
  split; cbn; try done.
  - split; cbn.
    + intros i u [Ne U]%lookup_delete_Some. destruct (pc_txs _ C _ _ U) as (? & J & ?). split_and!; try done.
      rewrite X by done. rewrite decide_False; [done|]. intros [Es En]. apply Ne. eapply core_position; eauto.
    + intros s n i. rewrite X by done. destruct (decide _) as [D|D]; [discriminate|]. intros J.
      destruct (pc_idx _ C _ _ _ J) as (u & U & <- & <-). exists u. split; [|done].
      rewrite lookup_delete_ne; [done|]. intros ->. apply D. by simplify_eq.
    + intros s k. rewrite Hbs. case_bool_decide as Z; intros F.
      * apply lookup_delete_Some in F as [_ F]. by eapply pc_nonempty.
      * apply lookup_insert_Some in F as [[<- <-]|[_ F]]; [done|by eapply pc_nonempty].
    + unfold w_bytes in *. lia.
    + lia.
    + apply list.NoDup_filter, (pc_arrival _ C).
    + intros i. rewrite list_elem_of_filter, (pc_arrived _ C). destruct (decide (i = id)) as [->|Ne].
      * rewrite lookup_delete_eq. split; [tauto|by intros [? F]].
      * rewrite lookup_delete_ne by done. tauto.
  - by apply X.
  - intros s Ns. revert EB. case_bool_decide; intros [= _ ->]; by rewrite ?lookup_delete_ne.
  - revert EB. case_bool_decide; intros [= -> ->]; [right|by left]. by rewrite !lookup_delete_eq.
Qed.

(** ** Insertion *)
Record Inserted (p : Mempool) (t : PoolTx) (q : Mempool) : Prop := {
  in_core : pool_core q;
  in_params : mp_params q = mp_params p;
  in_txs : mp_txs q = <[pt_txid t := t]> (mp_txs p);
  in_idx : forall s n, idx q s n = if decide (s = pt_sender t /\ n = pt_nonce t) then Some (pt_txid t) else idx p s n;
  in_next : mp_next_nonce q = mp_next_nonce p;
}.
Lemma insert_spec {E : Type} p t : pool_core p -> mp_txs p !! pt_txid t = None ->
  idx p (pt_sender t) (pt_nonce t) = None -> nonce_ok (pt_nonce t) -> mp_total_bytes p + w_bytes t < 2 ^ 64 ->
  exists q, @mp_insert E p t = Ok q /\ Inserted p t q.
Proof.
  intros C T I N B. pose proof (wsum_nonneg w_bytes (mp_txs p)). pose proof (pc_bytes _ C).
  pose proof (Zlen_nonneg (pt_bytes t)). unfold mp_insert, add_checked.
  rewrite (proj2 (checked_add_some 64 (mp_total_bytes p) (Zlen (pt_bytes t)) _)) by (split; [reflexivity|unfold w_bytes in *; lia]).
  cbn -[Z.pow]. eexists. split; [reflexivity|].
  assert (X : forall q, mp_by_sender q = <[pt_sender t := <[pt_nonce t := pt_txid t]> (sender_map p (pt_sender t))]> (mp_by_sender p) ->
    forall s n, idx q s n = if decide (s = pt_sender t /\ n = pt_nonce t) then Some (pt_txid t) else idx p s n).
  { intros q Q s n. unfold idx, sender_map at 1. rewrite Q. destruct (decide (s = pt_sender t)) as [->|Ns].
    - rewrite lookup_insert_eq. cbn. destruct (decide (n = pt_nonce t)) as [->|Nn].
      + by rewrite lookup_insert_eq, decide_True.
      + by rewrite lookup_insert_ne, decide_False by (done || tauto).
    - by rewrite lookup_insert_ne, decide_False by (done || tauto). }
  split; cbn; try done; [|by apply X]. split; cbn.
  - intros i u [[<- <-]|[Ne U]]%lookup_insert_Some; rewrite X by done.
    + by rewrite decide_True.
    + destruct (pc_txs _ C _ _ U) as (? & J & ?). split_and!; try done. rewrite decide_False; [done|].
      intros [Es En]. rewrite <- Es, <- En in I. congruence.
  - intros s n i. rewrite X by done. destruct (decide _) as [[-> ->]|D].
    + intros [= <-]. exists t. by rewrite lookup_insert_eq.
    + intros J. destruct (pc_idx _ C _ _ _ J) as (u & U & <- & <-). exists u. split; [|done].
      rewrite lookup_insert_ne; [done|congruence].
  - intros s k [[<- <-]|[_ F]]%lookup_insert_Some; [apply insert_non_empty|by eapply pc_nonempty].
  - rewrite wsum_insert by done. unfold w_bytes in *. lia.
  - unfold w_bytes in *. lia.
  - apply list.NoDup_app. split_and!; [apply (pc_arrival _ C)| |apply NoDup_singleton].
    intros i F ->%list_elem_of_singleton. apply (pc_arrived _ C) in F as [u F]. congruence.
  - intros i. rewrite elem_of_app, list_elem_of_singleton, (pc_arrived _ C). destruct (decide (i = pt_txid t)) as [->|Ne].
    + rewrite lookup_insert_eq. split; [by eexists|by right].
    + rewrite lookup_insert_ne by done. split; [intros [F|F]; [done|congruence]|by left].
Qed.

(** ** The run of executable nonces *)
Definition in_run (has : Z -> Prop) (next n : Z) : Prop := next <= n /\ forall k, next <= k <= n -> has k.
Definition pooled (p : Mempool) (s : Address) (n : Z) : Prop := is_Some (idx p s n).
Definition run_at (p : Mempool) (s : Address) (next : Z) : Prop :=
  forall n id t, idx p s n = Some id -> mp_txs p !! id = Some t -> pt_executable t = true <-> in_run (pooled p s) next n.
(** A sender without a recorded nonce has at most one transaction. *)
Definition next_known (p : Mempool) (s : Address) : Prop :=
  mp_next_nonce p !! s = None -> forall n m, pooled p s n -> pooled p s m -> n = m.

Lemma in_run_iff (h g : Z -> Prop) next n : (forall k, next <= k <= n -> h k <-> g k) -> in_run h next n <-> in_run g next n.
Proof. intros E. unfold in_run. split; intros [A B]; (split; [done|]); intros k K; apply E; auto. Qed.

Lemma removed_pooled p id t q s n : Removed p id t q -> pooled q s n <-> pooled p s n /\ ~ (s = pt_sender t /\ n = pt_nonce t).
Proof.
  intros R. unfold pooled. rewrite (rm_idx _ _ _ _ R). destruct (decide _) as [D|D]; [|tauto].
  split; [intros [? F]; done|tauto].
Qed.
Lemma removed_lookup p id t q i u : Removed p id t q -> mp_txs q !! i = Some u -> mp_txs p !! i = Some u.
Proof. intros R. rewrite (rm_txs _ _ _ _ R). by intros [_ F]%lookup_delete_Some. Qed.
Lemma removed_idx p id t q s n i : Removed p id t q -> idx q s n = Some i -> idx p s n = Some i.
Proof. intros R. rewrite (rm_idx _ _ _ _ R). by destruct (decide _). Qed.

(** Recorded nonces stay, except those of senders with nothing left. *)
Definition forgets (p q : Mempool) : Prop :=
  forall s, mp_next_nonce q !! s = mp_next_nonce p !! s \/ (mp_next_nonce q !! s = None /\ forall n, ~ pooled q s n).
Lemma not_pooled p s : mp_by_sender p !! s = None -> forall n, ~ pooled p s n.
Proof. intros N n [i I]. unfold idx, sender_map in I. rewrite N in I. cbn in I. by rewrite lookup_empty in I. Qed.
Lemma removed_forgets p id t q : Removed p id t q -> forgets p q.
Proof.
  intros R s. destruct (decide (s = pt_sender t)) as [->|Ns]; [|left; by apply (rm_next _ _ _ _ R)].
  destruct (rm_next_self _ _ _ _ R) as [F|[F N]]; [by left|right]. split; [done|by apply not_pooled].
Qed.

(** Removing a queued transaction, or the last of its sender, keeps the run. *)
Definition safe_to_remove (p : Mempool) (t : PoolTx) : Prop :=
  pt_executable t = false \/ forall n, pooled p (pt_sender t) n -> n <= pt_nonce t.
Lemma removed_run p id t q s next : pool_core p -> mp_txs p !! id = Some t -> Removed p id t q ->
  (s <> pt_sender t \/ safe_to_remove p t) -> run_at p s next -> run_at q s next.
Proof.
  intros C T R Safe Run n i u I U. pose proof (removed_idx _ _ _ _ _ _ _ R I) as I'.
  rewrite (Run n i u I' (removed_lookup _ _ _ _ _ _ R U)).
  assert (Nn : ~ (s = pt_sender t /\ n = pt_nonce t)).
  { intros [-> ->]. rewrite (rm_idx _ _ _ _ R), decide_True in I by done. done. }
  destruct (pc_txs _ C _ _ T) as (_ & J & _).
  assert (Keep : forall k, in_run (pooled p s) next n -> next <= k <= n -> ~ (s = pt_sender t /\ k = pt_nonce t)).
  { intros k [A B] K [-> ->]. destruct Safe as [Ne|[Q|L]]; [done| |].
    - assert (pt_executable t = true); [|congruence]. apply (Run (pt_nonce t) id t J T).
      split; [lia|]. intros j Hj. apply B. lia.
    - pose proof (L n (ex_intro _ i I')). apply Nn. split; [done|lia]. }
  split.
  - intros Run'. split; [apply Run'|]. intros k K. apply (removed_pooled _ _ _ _ _ _ R). split; [by apply Run'|by apply Keep].
  - intros [A B]. split; [done|]. intros k K. by apply (removed_pooled _ _ _ _ _ _ R), B.
Qed.

(** ** Splitting a sender's transactions again *)
#[export] Instance entry_le_total : Total entry_le.
Proof. intros a b. unfold entry_le. lia. Qed.
#[export] Instance entry_le_trans : Transitive entry_le.
Proof. intros a b c. unfold entry_le. lia. Qed.
Definition entry_lt (a b : Z * Hash32) : Prop := fst a < fst b.

Lemma entries_elem m n id : (n, id) ∈ entries m <-> m !! n = Some id.
Proof. unfold entries. rewrite (merge_sort_Permutation entry_le). apply elem_of_map_to_list. Qed.
Lemma entries_sorted m : StronglySorted entry_lt (entries m).
Proof.
  assert (N : NoDup (fst <$> entries m)).
  { unfold entries. rewrite (merge_sort_Permutation entry_le). apply NoDup_fst_map_to_list. }
  pose proof (StronglySorted_merge_sort entry_le (map_to_list m)) as S. fold (entries m) in S.
  induction S as [|e l S IH F]; [constructor|]. cbn in N. apply list.NoDup_cons in N as [Ne N]. constructor; [by apply IH|].
  apply Forall_forall. intros e' E. rewrite Forall_forall in F. pose proof (F _ E) as L. unfold entry_le, entry_lt in *.
  assert (fst e <> fst e'); [|lia]. intros Q. apply Ne. rewrite Q. by apply list_elem_of_fmap_2.
Qed.

Lemma in_run_head n want (l : list Z) : (forall k, k ∈ l -> n < k) ->
  in_run (fun k => k ∈ n :: l) want n <-> n = want.
Proof.
  intros L. split.
  - intros [A B]. destruct (proj1 (elem_of_cons _ _ _) (B want ltac:(lia))) as [Q|Q]; [done|]. pose proof (L _ Q). lia.
  - intros ->. split; [lia|]. intros k K. assert (k = want) as -> by lia. apply list_elem_of_here.
Qed.
Lemma in_run_tail n want (l : list Z) m : (forall k, k ∈ l -> n < k) -> m ∈ l ->
  in_run (fun k => k ∈ n :: l) want m <-> in_run (fun k => k ∈ l) (if n =? want then want + 1 else want) m.
Proof.
  intros L M. pose proof (L _ M). destruct (Z.eqb_spec n want) as [->|Ne].
  - split; intros [A B].
    + split; [lia|]. intros k K. destruct (proj1 (elem_of_cons _ _ _) (B k ltac:(lia))) as [->|Q]; [lia|done].
    + split; [lia|]. intros k K. destruct (decide (k = want)) as [->|]; [apply list_elem_of_here|].
      apply list_elem_of_further, B. lia.
  - split; intros [A B]; (split; [done|]); intros k K.
    + destruct (proj1 (elem_of_cons _ _ _) (B k K)) as [->|Q]; [|done].
      destruct (proj1 (elem_of_cons _ _ _) (B want ltac:(lia))) as [Q|Q]; [lia|]. pose proof (L _ Q). lia.
    + by apply list_elem_of_further, B.
Qed.

Definition ids_ok (ids : list (Z * Hash32)) (txs : gmap Hash32 PoolTx) : Prop :=
  StronglySorted entry_lt ids /\ NoDup (snd <$> ids) /\
  forall n id, (n, id) ∈ ids -> nonce_ok n /\ is_Some (txs !! id).
Lemma resplit_loop_spec {E : Type} ids : forall txs want promoted, ids_ok ids txs ->
  exists txs' pr, @resplit_loop E ids txs want promoted = Ok (txs', pr) /\
    (forall id, id ∉ snd <$> ids -> txs' !! id = txs !! id) /\
    (forall n id t, (n, id) ∈ ids -> txs !! id = Some t ->
       exists b, txs' !! id = Some (set_executable t b) /\ (b = true <-> in_run (fun k => k ∈ fst <$> ids) want n)).
Proof.
  induction ids as [|[n id] ids IH]; intros txs want promoted (S & N & G); cbn.
  { exists txs, promoted. split_and!; [done|done|]. intros n id t Q. by apply elem_of_nil in Q. }
  apply StronglySorted_inv in S as [S F]. cbn in N. apply list.NoDup_cons in N as [Nid N].
  destruct (G n id ltac:(apply list_elem_of_here)) as [[N0 N1] [t T]].
  assert (L : forall k, k ∈ fst <$> ids -> n < k).
  { intros k [[k' i] [-> Q]]%list_elem_of_fmap. rewrite Forall_forall in F. apply (F _ Q). }
  assert (W : (if n =? want then add_checked 64 want 1 else Ok want) = @Ok E Z (if n =? want then want + 1 else want)).
  { destruct (Z.eqb_spec n want) as [->|]; [|done]. unfold add_checked.
    by rewrite (proj2 (checked_add_some 64 want 1 (want + 1))) by (unfold umax in *; lia). }
  rewrite W. cbn. rewrite T. cbn.
  set (w' := if n =? want then _ else _). set (pr := if (n =? want) && _ then _ else _).
  set (txs1 := <[id := set_executable t (n =? want)]> txs).
  destruct (IH txs1 w' pr) as (txs' & pr' & -> & Out & In).
  { split_and!; [done|done|]. intros m i Q. destruct (G m i ltac:(by apply list_elem_of_further)) as [Gm Gi].
    split; [done|]. unfold txs1. destruct (decide (i = id)) as [->|]; [rewrite lookup_insert_eq; eauto|by rewrite lookup_insert_ne]. }
  exists txs', pr'. split_and!; [done| |].
  - intros i [Ne Q]%not_elem_of_cons. rewrite Out by done. unfold txs1. by rewrite lookup_insert_ne.
  - intros m i u [Q|Q]%elem_of_cons U.
    + injection Q as -> ->. rewrite Out by done. unfold txs1. rewrite lookup_insert_eq. exists (n =? want).
      assert (u = t) as -> by congruence. split; [done|]. rewrite Z.eqb_eq. symmetry. by apply in_run_head.
    + assert (i <> id) by (intros ->; apply Nid; by apply (list_elem_of_fmap_2 snd _ (m, id))).
      destruct (In m i u Q) as (b & B & Hb); [unfold txs1; by rewrite lookup_insert_ne|]. exists b. split; [done|].
      rewrite Hb. unfold w'. symmetry. apply in_run_tail; [done|]. by apply (list_elem_of_fmap_2 fst _ (m, i)).
Qed.

Record Flagged (p : Mempool) (s : Address) (next : Z) (q : Mempool) : Prop := {
  fl_with : q = with_txs p (mp_txs q);
  fl_sub : sub_txs (mp_txs q) (mp_txs p);
  fl_sup : sub_txs (mp_txs p) (mp_txs q);
  fl_other : forall id t, mp_txs p !! id = Some t -> pt_sender t <> s -> mp_txs q !! id = Some t;
  fl_run : run_at q s next;
}.
Lemma entries_ids_ok p s : pool_core p -> ids_ok (entries (sender_map p s)) (mp_txs p).
Proof.
  intros C. split_and!; [apply entries_sorted| |].
  - apply NoDup_fmap_2_strong.
    + intros [n i] [m j] A B. cbn. intros ->. apply entries_elem in A, B.
      destruct (pc_idx _ C _ _ _ A) as (t & T & _ & <-). destruct (pc_idx _ C _ _ _ B) as (u & U & _ & <-). by simplify_eq.
    + apply (NoDup_fmap_1 fst). unfold entries. rewrite (merge_sort_Permutation entry_le). apply NoDup_fst_map_to_list.
  - intros n id I%entries_elem. destruct (pc_idx _ C _ _ _ I) as (t & T & _ & <-). split; [|by eexists].
    apply (pc_txs _ C _ _ T).
Qed.
Lemma entries_fst m k : k ∈ fst <$> entries m <-> is_Some (m !! k).
Proof.
  rewrite list_elem_of_fmap. split.
  - intros [[n i] [-> Q]]. exists i. by apply entries_elem.
  - intros [i Q]. exists (k, i). split; [done|by apply entries_elem].
Qed.
Lemma resplit_spec {E : Type} p s next : pool_core p ->
  exists pr q, @resplit E p s next = Ok (pr, q) /\ Flagged p s next q.
Proof.
  intros C. unfold resplit. destruct (mp_by_sender p !! s) as [m|] eqn:M; cycle 1.
  { exists [], p. split; [done|]. split; try done; [by destruct p|].
    intros n id t I. unfold idx, sender_map in I. rewrite M in I. cbn in I. by rewrite lookup_empty in I. }
  assert (Hm : sender_map p s = m) by (unfold sender_map; by rewrite M).
  pose proof (entries_ids_ok p s C) as G. rewrite Hm in G.
  destruct (resplit_loop_spec (E := E) (entries m) (mp_txs p) next [] G) as (txs' & pr & -> & Out & In). cbn.
  exists pr, (with_txs p txs'). split; [done|].
  assert (Idx : forall n id, idx p s n = Some id <-> (n, id) ∈ entries m) by (intros; unfold idx; rewrite Hm, entries_elem; done).
  assert (Sup : sub_txs (mp_txs p) txs').
  { intros id t T. destruct (decide (id ∈ snd <$> entries m)) as [Q|Q].
    - apply list_elem_of_fmap in Q as [[n i] [-> Q]]. destruct (In n i t Q T) as (b & B & _). by exists b.
    - rewrite Out by done. exists (pt_executable t). by rewrite set_executable_same. }
  assert (Other : forall id t, mp_txs p !! id = Some t -> pt_sender t <> s -> txs' !! id = Some t).
  { intros id t T Ns. rewrite Out; [done|]. intros [[n i] [-> Q]]%list_elem_of_fmap. apply Idx in Q.
    destruct (pc_idx _ C _ _ _ Q) as (u & U & <- & _). cbn in T. congruence. }
  split; cbn; try done.
  - intros id t T. destruct (mp_txs p !! id) as [u|] eqn:U.
    + destruct (Sup _ _ U) as [b B]. rewrite T in B. simplify_eq. exists (pt_executable u).
      by rewrite set_executable_twice, set_executable_same.
    + rewrite Out in T; [congruence|]. intros [[n i] [-> Q]]%list_elem_of_fmap. apply Idx in Q.
      destruct (pc_idx _ C _ _ _ Q) as (u & ? & _). cbn in U. congruence.
  - intros n id t I T. cbn in T. destruct (pc_idx _ C s n id I) as (u & U & _). apply Idx in I.
    destruct (In n id u I U) as (b & B & Hb). rewrite T in B. injection B as ->. cbn. rewrite Hb.
    apply in_run_iff. intros k _. rewrite entries_fst, <- Hm. done.
Qed.

(** ** Shrinking steps *)
Record shrinks (p q : Mempool) : Prop := {
  sh_from : pool_core p;
  sh_core : pool_core q;
  sh_params : mp_params q = mp_params p;
  sh_sub : sub_txs (mp_txs q) (mp_txs p);
  sh_forgets : forgets p q;
}.
Lemma shrinks_pooled p q s n : shrinks p q -> pooled q s n -> pooled p s n.
Proof. intros [Cp Cq _ S _] [i I]. exists i. by eapply core_sub_idx. Qed.
Lemma shrinks_refl p : pool_core p -> shrinks p p.
Proof. intros C. split; try done. intros s. by left. Qed.
Lemma shrinks_trans p q r : shrinks p q -> shrinks q r -> shrinks p r.
Proof.
  intros A B. pose proof (fun s n => shrinks_pooled q r s n B) as P. destruct A as [A0 A1 A2 A3 A4], B as [B0 B1 B2 B3 B4].
  split; [done|done|congruence|by transitivity (mp_txs q)|]. intros s.
  destruct (B4 s) as [->|[N E]]; [|by right]. destruct (A4 s) as [->|[N E]]; [by left|right].
  split; [done|]. intros n X. by apply (E n), P.
Qed.
Lemma shrinks_next_known p q s : shrinks p q -> next_known p s -> next_known q s.
Proof.
  intros S K N n m A B. destruct (sh_forgets _ _ S s) as [F|[_ F]]; [|by destruct (F n)].
  apply K; [congruence|by apply (shrinks_pooled p q)..].
Qed.
Lemma removed_shrinks p id t q : pool_core p -> Removed p id t q -> shrinks p q.
Proof.
  intros C R. split; [done|apply (rm_core _ _ _ _ R)|apply (rm_params _ _ _ _ R)| |by eapply removed_forgets].
  rewrite (rm_txs _ _ _ _ R). apply sub_txs_delete.
Qed.
Lemma flagged_shrinks p s next q : pool_core p -> Flagged p s next q -> shrinks p q.
Proof.
  intros C F. pose proof (fl_with _ _ _ _ F) as W. split; [done| |by rewrite W|apply (fl_sub _ _ _ _ F)|].
  - rewrite W. apply core_flags; [done|apply F|apply F].
  - intros s'. left. by rewrite W.
Qed.
Lemma flagged_run p s next q s' next' : pool_core p -> Flagged p s next q -> s' <> s -> run_at p s' next' -> run_at q s' next'.
Proof.
  intros C F Ns Run n id t I T. pose proof (fl_with _ _ _ _ F) as W. rewrite W in I. change (idx p s' n = Some id) in I.
  destruct (pc_idx _ C _ _ _ I) as (u & U & Hs & _). rewrite (fl_other _ _ _ _ F id u U) in T by congruence.
  injection T as <-. rewrite (Run n id u I U). by rewrite W.
Qed.
Lemma run_at_none p s next : (forall n, ~ pooled p s n) -> run_at p s next.
Proof. intros N n id t I. by destruct (N n); exists id. Qed.

(** ** Removing several transactions *)
Record Dropped (p : Mempool) (ids : list Hash32) (q : Mempool) : Prop := {
  dr_shrinks : shrinks p q;
  dr_gone : forall id, id ∈ ids -> mp_txs q !! id = None;
  dr_kept : forall id, id ∉ ids -> mp_txs q !! id = mp_txs p !! id;
  dr_run : forall s next, (forall id t, id ∈ ids -> mp_txs p !! id = Some t -> pt_sender t <> s) -> run_at p s next -> run_at q s next;
}.
Lemma remove_total {E : Type} p id : pool_core p ->
  exists q, @mp_remove E p id = Ok (mp_txs p !! id, q) /\ Dropped p [id] q.
Proof.
  intros C. destruct (mp_txs p !! id) as [t|] eqn:T.
  - destruct (remove_spec (E := E) p id t C T) as (q & -> & R). exists q. split; [done|].
    split; [by eapply removed_shrinks|..].
    + intros i ->%list_elem_of_singleton. by rewrite (rm_txs _ _ _ _ R), lookup_delete_eq.
    + intros i Ne. rewrite (rm_txs _ _ _ _ R), lookup_delete_ne; [done|]. intros ->. apply Ne. apply list_elem_of_here.
    + intros s next S. apply (removed_run p id t); [done..|]. left. intros ->. by apply (S id t); [apply list_elem_of_here|..].
  - unfold mp_remove. rewrite T. exists p. split; [done|]. split; try done; [by apply shrinks_refl|].
    by intros i ->%list_elem_of_singleton.
Qed.
Lemma remove_all_spec {E : Type} ids : forall p, pool_core p -> exists q, @remove_all E p ids = Ok q /\ Dropped p ids q.
Proof.
  induction ids as [|id ids IH]; intros p C.
  { exists p. split; [done|]. split; try done; [by apply shrinks_refl|]. intros id Q. by apply elem_of_nil in Q. }
  destruct (remove_total (E := E) p id C) as (q & R & D). pose proof (sh_core _ _ (dr_shrinks _ _ _ D)) as Cq.
  destruct (IH q Cq) as (r & Rr & D'). exists r. unfold remove_all. cbn. rewrite R. cbn. split; [exact Rr|].
  split.
  - eapply shrinks_trans; [apply D|apply D'].
  - intros i [->|Q]%elem_of_cons; [|by apply D']. eapply sub_txs_none; [apply (sh_sub _ _ (dr_shrinks _ _ _ D'))|].
    apply (dr_gone _ _ _ D). apply list_elem_of_here.
  - intros i [Ne Q]%not_elem_of_cons. rewrite (dr_kept _ _ _ D') by done. apply (dr_kept _ _ _ D). by intros ->%list_elem_of_singleton.
  - intros s next S Run. apply (dr_run _ _ _ D').
    + intros i t Q T. destruct (sh_sub _ _ (dr_shrinks _ _ _ D) _ _ T) as [b F].
      exact (S i _ ltac:(by apply list_elem_of_further) F).
    + apply (dr_run _ _ _ D); [|done]. intros i t ->%list_elem_of_singleton T. apply (S id t); [apply list_elem_of_here|done].
Qed.

(** ** The invariant; [start] says at which nonces a sender's run may start *)
Section Accounts.
Context (start : Address -> Z -> Prop).

Definition synced (p : Mempool) (s : Address) : Prop :=
  forall v n, mp_next_nonce p !! s = Some v -> pooled p s n -> start s v.
Record sender_ok (p : Mempool) (s : Address) : Prop := {
  so_known : next_known p s;
  so_synced : synced p s;
  so_run : forall n, pooled p s n -> exists a, start s a /\ run_at p s a;
}.
Record pool_inv (p : Mempool) : Prop := {
  pi_core : pool_core p;
  pi_sender : forall s, sender_ok p s;
}.
Lemma shrinks_synced p q s : shrinks p q -> synced p s -> synced q s.
Proof.
  intros S Y v n N P. destruct (sh_forgets _ _ S s) as [F|[F _]]; [|congruence].
  apply (Y v n); [congruence|by apply (shrinks_pooled p q)].
Qed.
Lemma shrinks_sender p q s : shrinks p q -> sender_ok p s -> (forall a, run_at p s a -> run_at q s a) -> sender_ok q s.
Proof.
  intros S [K Y R] X. split; [by eapply shrinks_next_known|by eapply shrinks_synced|].
  intros n P. destruct (R n) as (a & A & Ra); [by apply (shrinks_pooled p q)|]. eauto.
Qed.
Lemma sender_ok_none p s : (forall n, ~ pooled p s n) -> sender_ok p s.
Proof. intros N. split; [intros _ n m A; by destruct (N n)|intros v n _ A; by destruct (N n)|intros n A; by destruct (N n)]. Qed.

(** ** Expiry *)
Lemma resplit_senders {E : Type} l : forall p, pool_core p ->
  (forall s, s ∈ l -> synced p s /\ next_known p s /\ (mp_next_nonce p !! s = None -> forall n, ~ pooled p s n)) ->
  exists q, ofold (fun p s => let? r := @resplit E p s (default 0 (mp_next_nonce p !! s)) in Ok (snd r)) p l = Ok q /\
    shrinks p q /\ sub_txs (mp_txs p) (mp_txs q) /\ forall s, s ∈ l \/ sender_ok p s -> sender_ok q s.
Proof.
  induction l as [|s l IH]; intros p C G.
  { exists p. split_and!; [done|by apply shrinks_refl|done|]. intros s [Q|Q]; [by apply elem_of_nil in Q|done]. }
  destruct (resplit_spec (E := E) p s (default 0 (mp_next_nonce p !! s)) C) as (pr & q & R & F).
  pose proof (flagged_shrinks _ _ _ _ C F) as S. assert (Hn : mp_next_nonce q = mp_next_nonce p) by (by rewrite (fl_with _ _ _ _ F)).
  destruct (IH q (sh_core _ _ S)) as (r & Hr & S' & Sup & Run).
  { intros s' Q. destruct (G s' ltac:(by apply list_elem_of_further)) as (A & B & N).
    split_and!; [by eapply shrinks_synced|by eapply shrinks_next_known|]. rewrite Hn. intros Z n P. by apply (N Z n), (shrinks_pooled p q). }
  exists r. cbn. rewrite R. cbn. rewrite Hr. split_and!; [done|by eapply shrinks_trans| |].
  { transitivity (mp_txs q); [apply F|done]. }
  destruct (G s ltac:(apply list_elem_of_here)) as (Y & K & N).
  intros s' Q. apply Run. destruct (decide (s' ∈ l)) as [?|Nl]; [by left|right]. destruct (decide (s' = s)) as [->|Ns].
  - split; [by eapply shrinks_next_known|by eapply shrinks_synced|]. intros n P. apply (shrinks_pooled p q) in P; [|done].
    destruct (mp_next_nonce p !! s) as [v|] eqn:V; [|by destruct (N eq_refl n)].
    exists v. split; [by apply (Y v n)|apply F].
  - destruct Q as [[Q|Q]%elem_of_cons|Q]; [done..|]. eapply shrinks_sender; [done|done|]. intros a. by eapply flagged_run.
Qed.

Definition is_expired (p : Mempool) (now : Z) (t : PoolTx) : Prop := ttl_secs (mp_params p) < saturating_sub now (pt_arrived t).
Lemma pool_values_elem p t : pool_core p -> t ∈ pool_values p <-> mp_txs p !! pt_txid t = Some t.
Proof.
  intros C. unfold pool_values. rewrite list_elem_of_fmap. split.
  - intros [[id u] [-> Q]]. cbn. apply elem_of_map_to_list in Q. by destruct (pc_txs _ C _ _ Q) as [-> _].
  - intros T. exists (pt_txid t, t). split; [done|by apply elem_of_map_to_list].
Qed.
Lemma expired_ids_elem p now id : pool_core p ->
  id ∈ expired_ids p now <-> exists t, mp_txs p !! id = Some t /\ is_expired p now t.
Proof.
  intros C. unfold expired_ids. rewrite list_elem_of_fmap. split.
  - intros [t [-> [X Q]%list_elem_of_filter]]. exists t. split; [|done]. by apply pool_values_elem.
  - intros (t & T & X). destruct (pc_txs _ C _ _ T) as [Hid _]. exists t. split; [done|]. apply list_elem_of_filter.
    split; [done|]. apply pool_values_elem; [done|]. by rewrite Hid.
Qed.
Lemma sorted_senders_elem l s : s ∈ sorted_senders l <-> s ∈ l.
Proof. unfold sorted_senders. rewrite (merge_sort_Permutation addr_le). apply elem_of_remove_dups. Qed.

(** A sender that lost a transaction and has no recorded nonce has none left. *)
Lemma dropped_next p ids q id t : Dropped p ids q -> next_known p (pt_sender t) -> id ∈ ids -> mp_txs p !! id = Some t ->
  mp_next_nonce q !! pt_sender t = None -> forall n, ~ pooled q (pt_sender t) n.
Proof.
  intros D K Q T N n P. pose proof (dr_shrinks _ _ _ D) as S. destruct (sh_forgets _ _ S (pt_sender t)) as [F|[_ F]]; [|by apply (F n)].
  destruct (pc_txs _ (sh_from _ _ S) _ _ T) as (_ & I & _).
  assert (n = pt_nonce t) as ->.
  { apply K; [congruence|by apply (shrinks_pooled p q)|by exists id]. }
  destruct P as [j J]. pose proof (core_sub_idx _ _ _ _ _ (sh_core _ _ S) (sh_from _ _ S) (sh_sub _ _ S) J) as J'.
  assert (j = id) as -> by congruence. destruct (pc_idx _ (sh_core _ _ S) _ _ _ J) as (u & U & _).
  rewrite (dr_gone _ _ _ D) in U by done. done.
Qed.
Lemma sweep_spec {E : Type} p now : pool_inv p ->
  exists q, @sweep_expired E p now = Ok (expired_ids p now, q) /\ pool_inv q /\ shrinks p q /\
    (forall id, is_Some (mp_txs q !! id) <-> exists t, mp_txs p !! id = Some t /\ ~ is_expired p now t).
Proof.
  intros I. pose proof (pi_core _ I) as C. unfold sweep_expired.
  destruct (remove_all_spec (E := E) (expired_ids p now) p C) as (q & -> & D). cbn.
  pose proof (dr_shrinks _ _ _ D) as S. set (senders := sorted_senders _).
  assert (Mem : forall s, s ∈ senders <-> exists id t, id ∈ expired_ids p now /\ mp_txs p !! id = Some t /\ pt_sender t = s).
  { intros s. unfold senders. rewrite sorted_senders_elem, list_elem_of_omap. split.
    - intros (id & Q & T). destruct (mp_txs p !! id) as [t|] eqn:F; [|done]. cbn in T. injection T as <-. eauto.
    - intros (id & t & Q & F & <-). exists id. split; [done|]. by rewrite F. }
  destruct (resplit_senders (E := E) senders q (sh_core _ _ S)) as (r & -> & S' & Sup & Run).
  { intros s (id & t & Q & F & <-)%Mem. destruct (pi_sender _ I (pt_sender t)) as [K Y _].
    split_and!; [by eapply shrinks_synced|by eapply shrinks_next_known|by eapply dropped_next]. }
  exists r. split_and!; [done| |by eapply shrinks_trans|].
  - split; [apply S'|]. intros s. apply Run. destruct (decide (s ∈ senders)) as [?|N]; [by left|right].
    eapply shrinks_sender; [done|apply (pi_sender _ I)|]. intros a. apply (dr_run _ _ _ D).
    intros id t Q F <-. apply N, Mem. eauto.
  - intros id. transitivity (is_Some (mp_txs q !! id)).
    { split; intros [t F]; [destruct (sh_sub _ _ S' _ _ F)|destruct (Sup _ _ F)]; eauto. }
    destruct (decide (id ∈ expired_ids p now)) as [Q|Q].
    + rewrite (dr_gone _ _ _ D) by done. split; [by intros [? F]|]. apply expired_ids_elem in Q as (t & F & X); [|done].
      intros (u & F' & X'). congruence.
    + rewrite (dr_kept _ _ _ D) by done. split; [|intros (t & -> & _); by eexists].
      intros [t F]. exists t. split; [done|]. intros X. apply Q, expired_ids_elem; eauto.
Qed.
End Accounts.

(** ** Eviction *)
Lemma min_by_elem cmp l t : min_by cmp l = Some t -> t ∈ l.
Proof.
  destruct l as [|x l]; [done|]. cbn. intros [= <-].
  assert (G : forall l b, fold_left (fun best x => match cmp best x with Gt => x | _ => best end) l b ∈ b :: l).
  { clear. induction l as [|y l IH]; intros b; cbn; [apply list_elem_of_here|].
    destruct (cmp b y); [pose proof (IH b) as Q|pose proof (IH b) as Q|pose proof (IH y) as Q];
      apply elem_of_cons in Q as [Q|Q]; rewrite ?Q; auto using list_elem_of_here, list_elem_of_further. }
  apply G.
Qed.
Lemma min_by_none cmp l : min_by cmp l = None -> l = [].
Proof. by destruct l. Qed.
Lemma sorted_last {A} (R : A -> A -> Prop) l x y : StronglySorted R l -> list.last l = Some x -> y ∈ l -> y = x \/ R y x.
Proof.
  induction 1 as [|z l S IH F]; [done|]. intros L Q. destruct l as [|z' l].
  - injection L as <-. by apply list_elem_of_singleton in Q as ->; left.
  - apply elem_of_cons in Q as [->|Q]; [|by apply IH]. right. rewrite Forall_forall in F. apply F.
    apply last_Some_elem_of. exact L.
Qed.

Lemma candidate_safe p victim reason : pool_core p -> eviction_candidate p = Some (victim, reason) ->
  exists t, mp_txs p !! victim = Some t /\ safe_to_remove p t.
Proof.
  intros C. unfold eviction_candidate. destruct (min_by queued_cmp _) as [t|] eqn:Q.
  - intros [= <- _]. apply min_by_elem, list_elem_of_filter in Q as [X Q]. apply pool_values_elem in Q; [|done].
    exists t. split; [done|]. by left.
  - intros E. apply min_by_none in Q. destruct (min_by head_cmp _) as [h|]; [|done]. cbn in E.
    destruct (mp_by_sender p !! pt_sender h) as [m|] eqn:M; [|done]. cbn in E.
    destruct (list.last (entries m)) as [[n id]|] eqn:L; [|done]. cbn in E. injection E as <- _.
    assert (Hm : sender_map p (pt_sender h) = m) by (unfold sender_map; by rewrite M).
    assert (I : idx p (pt_sender h) n = Some id) by (unfold idx; rewrite Hm; by apply entries_elem, last_Some_elem_of).
    destruct (pc_idx _ C _ _ _ I) as (t & T & S & N). exists t. split; [done|]. right. rewrite S, N. intros k [i K].
    unfold idx in K. rewrite Hm in K. apply entries_elem in K.
    destruct (sorted_last entry_lt _ _ _ (entries_sorted m) L K) as [[= -> _]|G]; [lia|]. unfold entry_lt in G. cbn in G. lia.
Qed.
Lemma candidate_none p : pool_core p -> eviction_candidate p = None -> mp_txs p = ∅.
Proof.
  intros C. unfold eviction_candidate. destruct (min_by queued_cmp _) as [t|] eqn:Q; [done|]. apply min_by_none in Q.
  destruct (min_by head_cmp _) as [h|] eqn:H.
  - cbn. apply min_by_elem, list_elem_of_filter in H as [_ H]. apply pool_values_elem in H; [|done].
    destruct (pc_txs _ C _ _ H) as (_ & I & _). unfold idx, sender_map in I.
    destruct (mp_by_sender p !! pt_sender h) as [m|] eqn:M; [|cbn in I; by rewrite lookup_empty in I]. cbn in *.
    destruct (list.last (entries m)) as [e|] eqn:L; [done|]. apply last_None in L. apply entries_elem in I. rewrite L in I.
    by apply elem_of_nil in I.
  - intros _. apply min_by_none in H. apply map_empty. intros id. destruct (mp_txs p !! id) as [t|] eqn:T; [|done].
    destruct (pc_txs _ C _ _ T) as [Hid _]. assert (V : t ∈ pool_values p) by (apply pool_values_elem; [done|by rewrite Hid]).
    destruct (pt_executable t) eqn:X.
    + assert (t ∈ @nil PoolTx); [rewrite <- H; by apply list_elem_of_filter|by destruct (not_elem_of_nil t)].
    + assert (t ∈ @nil PoolTx); [rewrite <- Q; by apply list_elem_of_filter|by destruct (not_elem_of_nil t)].
Qed.

(** What the eviction loop did: [ev] are the transactions it removed. *)
Record Evicted (p : Mempool) (fpb : Z) (ev : list Hash32) (q : Mempool) : Prop := {
  ev_shrinks : shrinks p q;
  ev_paid : forall id, id ∈ ev -> exists t, mp_txs p !! id = Some t /\ fee_per_byte t <= fpb;
  ev_gone : forall id, id ∈ ev -> mp_txs q !! id = None;
  ev_kept : forall id, id ∉ ev -> mp_txs q !! id = mp_txs p !! id;
  ev_run : forall s next, run_at p s next -> run_at q s next;
}.
Lemma evicted_cons p victim t q fpb ev r : pool_core p -> mp_txs p !! victim = Some t -> safe_to_remove p t ->
  fee_per_byte t <= fpb -> Removed p victim t q -> Evicted q fpb ev r -> Evicted p fpb (victim :: ev) r.
Proof.
  intros C T Safe Fee R V. split.
  - eapply shrinks_trans; [by eapply removed_shrinks|apply V].
  - intros i [->|Q]%elem_of_cons; [by exists t|]. destruct (ev_paid _ _ _ _ V _ Q) as (u & U & ?). exists u.
    split; [|done]. by eapply removed_lookup.
  - intros i [->|Q]%elem_of_cons; [|by apply V]. eapply sub_txs_none; [apply (sh_sub _ _ (ev_shrinks _ _ _ _ V))|].
    by rewrite (rm_txs _ _ _ _ R), lookup_delete_eq.
  - intros i [Ne Q]%not_elem_of_cons. by rewrite (ev_kept _ _ _ _ V), (rm_txs _ _ _ _ R), lookup_delete_ne by done.
  - intros s next Run. apply (ev_run _ _ _ _ V). eapply removed_run; eauto.
Qed.
(** The loop ends because there is room, or because whoever would go next pays more. *)
Definition room_verdict (q : Mempool) (len fpb : Z) (room : bool) : Prop :=
  if room then over_limits q len = false
  else over_limits q len = true /\
       forall victim reason, eviction_candidate q = Some (victim, reason) ->
       exists t, mp_txs q !! victim = Some t /\ fpb < fee_per_byte t.
Lemma make_room_spec fuel : forall p len fpb removed obs, pool_core p -> (size (mp_txs p) < fuel)%nat ->
  exists room q ev obs', make_room fuel p len fpb removed obs = Ok (room, q, removed ++ ev, obs') /\
    Evicted p fpb ev q /\ room_verdict q len fpb room.
Proof.
  induction fuel as [|fuel IH]; intros p len fpb removed obs C F; [lia|].
  assert (Done : forall (b : bool) (o : list Condition), room_verdict p len fpb b ->
    exists room q ev obs', @Ok Reject _ (b, p, removed, o) = Ok (room, q, removed ++ ev, obs') /\
      Evicted p fpb ev q /\ room_verdict q len fpb room).
  { intros b o Hb. exists b, p, [], o. rewrite app_nil_r. split_and!; try done. split; try done; [by apply shrinks_refl|intros id Q; by apply elem_of_nil in Q..]. }
  cbn [make_room]. destruct (over_limits p len) eqn:L; cbn; [|by apply Done].
  destruct (eviction_candidate p) as [[victim reason]|] eqn:V.
  2: { apply Done. split; [done|]. intros v r X. congruence. }
  destruct (candidate_safe _ _ _ C V) as (t & T & Safe). rewrite T. cbn.
  destruct (Z.ltb_spec fpb (fee_per_byte t)) as [Lt|Ge].
  { apply Done. split; [done|]. intros v r X. rewrite V in X. injection X as <- <-. by exists t. }
  destruct (remove_spec (E := Reject) p victim t C T) as (q & -> & R). cbn.
  destruct (IH q len fpb (removed ++ [victim]) (obs ++ [CMempoolEvicted 1 reason]) (rm_core _ _ _ _ R)) as (room & r & ev & obs' & -> & X & Y).
  { rewrite (rm_txs _ _ _ _ R), map_size_delete_Some by (by eexists). assert (size (mp_txs p) <> 0)%nat; [|lia].
    intros Z%map_size_empty_iff. by rewrite Z, lookup_empty in T. }
  exists room, r, (victim :: ev), obs'. rewrite <- app_assoc. split_and!; [done|by eapply evicted_cons|done].
Qed.

(** ** The limits *)
Definition vsum (w : PoolTx -> Z) (l : list PoolTx) : Z := foldr (fun t a => w t + a) 0 l.
Lemma vsum_perm w l l' : l ≡ₚ l' -> vsum w l = vsum w l'.
Proof. unfold vsum. induction 1; cbn in *; lia. Qed.
Lemma vsum_app w a b : vsum w (a ++ b) = vsum w a + vsum w b.
Proof. unfold vsum. induction a as [|t a IH]; cbn in *; lia. Qed.
Lemma vsum_of_sender s w l : vsum (of_sender s w) l = vsum w (filter (fun t => pt_sender t = s) l).
Proof.
  induction l as [|t l IH]; [done|]. rewrite filter_cons. change (vsum ?w (t :: l)) with (w t + vsum w l).
  rewrite IH. unfold of_sender. case_decide; [done|lia].
Qed.
Lemma vsum_one l : vsum w_one l = Zlen l.
Proof. unfold vsum. induction l as [|t l IH]; [done|]. cbn. rewrite IH, Zlen_cons. reflexivity. Qed.
Lemma vsum_nonneg w `{!Weight w} l : 0 <= vsum w l.
Proof. unfold vsum. induction l as [|t l IH]; cbn; [done|]. pose proof (weight_nonneg t). lia. Qed.

Lemma omap_all_some {A B} (f : A -> option B) l : (forall x, x ∈ l -> is_Some (f x)) -> length (omap f l) = length l.
Proof.
  induction l as [|x l IH]; intros S; [done|]. cbn. destruct (S x ltac:(apply list_elem_of_here)) as [y ->]. cbn.
  rewrite IH; [done|]. intros z Q. by apply S, list_elem_of_further.
Qed.
Lemma sender_txs_elem p s t : pool_core p -> t ∈ sender_txs p s <-> t ∈ pool_values p /\ pt_sender t = s.
Proof.
  intros C. unfold sender_txs. rewrite list_elem_of_omap, pool_values_elem by done. split.
  - intros [[n id] [I T]]. apply entries_elem in I. destruct (pc_idx _ C _ _ _ I) as (u & U & S & _). cbn in T.
    assert (u = t) as -> by congruence. by destruct (pc_txs _ C _ _ U) as [-> _].
  - intros [T <-]. destruct (pc_txs _ C _ _ T) as (_ & I & _). exists (pt_nonce t, pt_txid t). split; [by apply entries_elem|done].
Qed.
Lemma pool_values_nodup p : pool_core p -> NoDup (pool_values p).
Proof.
  intros C. unfold pool_values. apply NoDup_fmap_2_strong; [|apply NoDup_map_to_list].
  intros [i t] [j u] A B. cbn. intros ->. apply elem_of_map_to_list in A, B.
  destruct (pc_txs _ C _ _ A) as [<- _]. by destruct (pc_txs _ C _ _ B) as [<- _].
Qed.
Lemma sender_txs_perm p s : pool_core p -> sender_txs p s ≡ₚ filter (fun t => pt_sender t = s) (pool_values p).
Proof.
  intros C. apply NoDup_Permutation.
  - pose proof (entries_ids_ok p s C) as (_ & N & _). unfold sender_txs. apply (NoDup_fmap_1 pt_txid).
    assert (G : forall l : list (Z * Hash32), (forall n i, (n, i) ∈ l -> exists t, mp_txs p !! i = Some t /\ pt_txid t = i) ->
      pt_txid <$> omap (fun e => mp_txs p !! snd e) l = (snd <$> l : list Hash32)).
    { induction l as [|[n i] l IH]; intros L; [done|]. cbn. destruct (L n i ltac:(apply list_elem_of_here)) as (t & -> & Hi). cbn.
      f_equal; [done|]. apply IH. intros m j Q. by apply (L m), list_elem_of_further. }
    rewrite G; [done|]. intros n i I. apply entries_elem in I. destruct (pc_idx _ C _ _ _ I) as (t & T & _). exists t.
    split; [done|]. apply (pc_txs _ C _ _ T).
  - apply list.NoDup_filter. by apply pool_values_nodup.
  - intros t. rewrite sender_txs_elem, list_elem_of_filter by done. tauto.
Qed.
Lemma wsum_sender p s w : pool_core p -> wsum (of_sender s w) (mp_txs p) = vsum w (sender_txs p s).
Proof.
  intros C. rewrite wsum_values. change (foldr _ 0 ?l) with (vsum (of_sender s w) l).
  rewrite vsum_of_sender. symmetry. apply vsum_perm. by apply sender_txs_perm.
Qed.
Lemma sender_len_sum p s : pool_core p -> sender_len p s = wsum (of_sender s w_one) (mp_txs p).
Proof.
  intros C. rewrite wsum_sender, vsum_one by done. unfold sender_len, sender_txs, Zlen. rewrite omap_all_some.
  - unfold entries. by rewrite (Permutation_length (merge_sort_Permutation entry_le _)), length_map_to_list.
  - intros [n id] I%entries_elem. by destruct (pc_idx _ C _ _ _ I) as (t & T & _); exists t.
Qed.

(** The limits the code enforces, with the outlay of every sender in range. *)
Record limits_ok (p : Mempool) : Prop := {
  lo_txs : wsum w_one (mp_txs p) <= max_txs (mp_params p);
  lo_bytes : wsum w_bytes (mp_txs p) <= max_bytes (mp_params p);
  lo_sender : forall s, wsum (of_sender s w_one) (mp_txs p) <= effective_per_sender (mp_params p);
  lo_outlay : forall s, wsum (of_sender s w_outlay) (mp_txs p) <= umax 128;
  lo_values : forall id t, mp_txs p !! id = Some t -> 0 <= pt_amount t /\ 0 <= pt_fee t;
}.
Record params_ok (m : MempoolParams) : Prop := {
  po_txs : 0 <= max_txs m;
  po_bytes : 0 <= max_bytes m;
  po_room : max_bytes m + MAX_TX_BYTES < 2 ^ 64;
  po_sender : 0 <= effective_per_sender m < 2 ^ 64;
}.
Lemma limits_shrink p q : limits_ok p -> shrinks p q -> limits_ok q.
Proof.
  intros [L1 L2 L3 L4 L5] [_ _ Hp Sub _]. pose proof (fun w (W : Weight w) => wsum_sub w _ _ Sub) as M.
  split; rewrite ?Hp.
  - etransitivity; [apply M, _|done].
  - etransitivity; [apply M, _|done].
  - intros s. etransitivity; [apply M, _|done].
  - intros s. etransitivity; [apply M, _|done].
  - intros id t T. destruct (Sub _ _ T) as [b F]. by apply L5 in F.
Qed.
Lemma pending_outlay_sum p s : pool_core p -> limits_ok p -> pending_outlay p s = wsum (of_sender s w_outlay) (mp_txs p).
Proof.
  intros C L. pose proof (lo_outlay _ L s) as B. rewrite wsum_sender in * by done. unfold pending_outlay.
  assert (V : Forall (fun t => 0 <= pt_amount t /\ 0 <= pt_fee t) (sender_txs p s)).
  { apply Forall_forall. intros t [T _]%sender_txs_elem; [|done]. apply pool_values_elem in T; [|done]. by apply (lo_values _ L) in T. }
  revert B V. generalize (sender_txs p s). intros l B V.
  assert (G : forall a, 0 <= a -> a + vsum w_outlay l <= umax 128 ->
    fold_left (fun a t => saturating_add 128 a (outlay t)) l a = a + vsum w_outlay l); [|by apply G].
  clear B. induction V as [|t l [Va Vf] V IH]; intros a A Hb; [cbn; unfold vsum; cbn; lia|].
  change (vsum w_outlay (t :: l)) with (w_outlay t + vsum w_outlay l) in *. cbn [fold_left].
  pose proof (vsum_nonneg w_outlay l). pose proof (weight_nonneg (w := w_outlay) t).
  assert (O : saturating_add 128 a (outlay t) = a + w_outlay t).
  { unfold outlay, saturating_add, w_outlay in *. lia. }
  rewrite O, IH; lia.
Qed.

(** ** Growing by one transaction *)
Section Grow.
Context (start : Address -> Z -> Prop).

Definition same_txs (q : Mempool) (txs : gmap Hash32 PoolTx) : Prop := sub_txs (mp_txs q) txs /\ sub_txs txs (mp_txs q).
Lemma same_txs_sum q txs w `{!Weight w} : same_txs q txs -> wsum w (mp_txs q) = wsum w txs.
Proof. intros [A B]. by apply wsum_sub_zero. Qed.
Lemma same_txs_is_some q txs id : same_txs q txs -> is_Some (mp_txs q !! id) <-> is_Some (txs !! id).
Proof. intros [A B]. split; intros [t T]; [destruct (A _ _ T)|destruct (B _ _ T)]; eauto. Qed.

Lemma inserted_pooled p t q s n : Inserted p t q -> pooled q s n <-> (s = pt_sender t /\ n = pt_nonce t) \/ pooled p s n.
Proof. intros I. unfold pooled. rewrite (in_idx _ _ _ I). destruct (decide _); [|tauto]. split; [tauto|by eexists]. Qed.
Lemma inserted_sender p t q s : pool_core p -> mp_txs p !! pt_txid t = None -> Inserted p t q -> s <> pt_sender t ->
  sender_ok start p s -> sender_ok start q s.
Proof.
  intros C N I Ns [K Y R]. assert (P : forall n, pooled q s n <-> pooled p s n) by (intros n; rewrite (inserted_pooled _ _ _ _ _ I); tauto).
  split.
  - intros Z n m A B. rewrite (in_next _ _ _ I) in Z. by apply K; [|apply P..].
  - intros v n Z A. rewrite (in_next _ _ _ I) in Z. by apply (Y v n); [|apply P].
  - intros n0 A0. destruct (R n0) as (a & A & Ra); [by apply P|]. exists a. split; [done|].
    intros n id u J U. rewrite (in_idx _ _ _ I), decide_False in J by tauto.
    rewrite (in_txs _ _ _ I), lookup_insert_ne in U.
    + rewrite (Ra n id u J U). apply in_run_iff. intros k _. by rewrite P.
    + intros <-. destruct (pc_idx _ C _ _ _ J) as (u' & U' & _). congruence.
Qed.

(** Inserting a transaction and splitting its sender again gives a pool in order. *)
Lemma grow_spec {E : Type} p t next : pool_core p -> (forall s, s <> pt_sender t -> sender_ok start p s) -> start (pt_sender t) next ->
  (mp_next_nonce p !! pt_sender t = None -> forall n, ~ pooled p (pt_sender t) n) ->
  (forall v, mp_next_nonce p !! pt_sender t = Some v -> start (pt_sender t) v) ->
  mp_txs p !! pt_txid t = None -> idx p (pt_sender t) (pt_nonce t) = None -> nonce_ok (pt_nonce t) ->
  mp_total_bytes p + w_bytes t < 2 ^ 64 ->
  exists q pr r, @mp_insert E p t = Ok q /\ @resplit E q (pt_sender t) next = Ok (pr, r) /\
    pool_inv start r /\ mp_params r = mp_params p /\ same_txs r (<[pt_txid t := t]> (mp_txs p)).
Proof.
  intros C O St N V F X K B. destruct (insert_spec (E := E) p t C F X K B) as (q & Q & I). pose proof (in_core _ _ _ I) as Cq.
  destruct (resplit_spec (E := E) q (pt_sender t) next Cq) as (pr & r & R & Fl).
  pose proof (flagged_shrinks _ _ _ _ Cq Fl) as S. exists q, pr, r. split_and!; [done|done| | |].
  - split; [apply S|]. intros s. destruct (decide (s = pt_sender t)) as [->|Ns].
    + split; [| |intros n _; exists next; split; [done|apply Fl]].
      * eapply shrinks_next_known; [done|]. intros Z n m A A'. rewrite (in_next _ _ _ I) in Z.
        destruct (proj1 (inserted_pooled _ _ _ _ _ I) A) as [[_ ->]|A0]; [|by destruct (N Z n)].
        destruct (proj1 (inserted_pooled _ _ _ _ _ I) A') as [[_ ->]|A0]; [done|by destruct (N Z m)].
      * eapply shrinks_synced; [done|]. intros v n Z _. rewrite (in_next _ _ _ I) in Z. by apply V.
    + eapply shrinks_sender; [done|apply (inserted_sender p t q); auto|]. intros a. by eapply flagged_run.
  - by rewrite (sh_params _ _ S), (in_params _ _ _ I).
  - rewrite <- (in_txs _ _ _ I). split; [apply Fl|apply Fl].
Qed.

Lemma limits_grow p t q : mp_params q = mp_params p -> same_txs q (<[pt_txid t := t]> (mp_txs p)) -> mp_txs p !! pt_txid t = None ->
  limits_ok p -> 0 <= pt_amount t -> 0 <= pt_fee t ->
  1 + wsum w_one (mp_txs p) <= max_txs (mp_params p) -> w_bytes t + wsum w_bytes (mp_txs p) <= max_bytes (mp_params p) ->
  1 + wsum (of_sender (pt_sender t) w_one) (mp_txs p) <= effective_per_sender (mp_params p) ->
  w_outlay t + wsum (of_sender (pt_sender t) w_outlay) (mp_txs p) <= umax 128 -> limits_ok q.
Proof.
  intros Hp S F L A1 A2 B1 B2 B3 B4.
  assert (W : forall w, Weight w -> wsum w (mp_txs q) = w t + wsum w (mp_txs p)).
  { intros w ?. rewrite (same_txs_sum _ _ w S). by apply wsum_insert. }
  split; rewrite ?Hp; [rewrite W by apply _; exact B1|rewrite W by apply _; exact B2|intros s; rewrite W by apply _..|].
  - unfold of_sender at 1. case_decide; [subst s; exact B3|]. pose proof (lo_sender _ L s). lia.
  - unfold of_sender at 1. case_decide; [subst s; exact B4|]. pose proof (lo_outlay _ L s). lia.
  - intros id u U. destruct (proj1 S _ _ U) as [b [[_ T]|[_ T]]%lookup_insert_Some].
    + by rewrite <- (set_executable_same u), <- (set_executable_twice u b), <- T.
    + by apply (lo_values _ L) in T.
Qed.
End Grow.

(** ** What the checks establish *)
Section Admission.
Context `{Ed25519}.

(** The accounts a submission is checked against: nonces far from the end of their range. *)
Definition account_ok (m : MempoolParams) (a : Account) (spendable : Z) : Prop :=
  0 <= acc_nonce a /\ 0 <= max_nonce_gap m /\ acc_nonce a + max_nonce_gap m < umax 64 /\ 0 <= spendable <= umax 128.

Definition freed (p : Mempool) (replaces : option Hash32) : Z :=
  match replaces ≫= (fun id => mp_txs p !! id) with Some t => w_outlay t | None => 0 end.
Definition slots_freed (replaces : option Hash32) : Z := match replaces with Some _ => 1 | None => 0 end.
(** 25 percent more than the fee it replaces, and at least one unit more. *)
Definition outbids (p : Mempool) (replaces : option Hash32) (fee : Z) : Prop :=
  forall old, replaces = Some old -> exists t, mp_txs p !! old = Some t /\ pt_fee t + Z.max (pt_fee t / 4) 1 <= fee.

Record prepared_ok (p : Mempool) (raw : bytes) (next spendable : Z) (pr : Prepared) : Prop := {
  pk_raw : pp_raw pr = raw;
  pk_len : 0 < Zlen raw <= MAX_TX_BYTES;
  pk_decode : decode_tx raw = Ok (pp_tx pr);
  pk_sender : exists pub, tx_from_pub (pp_tx pr) = Some pub /\ pp_sender pr = address_payload pub;
  pk_fresh : mp_txs p !! pp_txid pr = None;
  pk_next : pp_next pr = next;
  pk_nonce : next <= pp_nonce pr <= next + max_nonce_gap (mp_params p);
  pk_repl : pp_replaces pr = idx p (pp_sender pr) (pp_nonce pr);
  pk_rbf : outbids p (pp_replaces pr) (pp_fee pr);
  pk_fee : FEE_FLOOR_MILE <= pp_fee pr /\ relay_fee_floor (mp_params p) <= pp_fee pr;
  pk_amount : 0 <= pp_amount pr;
  pk_funds : wsum (of_sender (pp_sender pr) w_outlay) (mp_txs p) - freed p (pp_replaces pr)
             + (pp_amount pr + pp_fee pr) <= spendable;
  pk_cap : sender_len p (pp_sender pr) - slots_freed (pp_replaces pr) < effective_per_sender (mp_params p);
}.

Lemma tx_parts_ok tx ty pub nonce fee amount id : tx_wf tx -> tx_parts tx ty = Ok (pub, nonce, fee, amount, id) ->
  tx_from_pub tx = Some pub /\ 0 <= nonce < 2 ^ 64 /\ 0 <= fee < 2 ^ 128 /\ 0 <= amount < 2 ^ 128.
Proof.
  destruct tx as [c|t|a]; cbn [tx_parts tx_from_pub tx_wf]; intros W E; [done| |].
  - injection E as <- <- <- <- _. unfold transfer_wf in W. intuition.
  - destruct (AnnouncementTx_txid a); cbn [map_err obind] in E; try done. injection E as <- <- <- <- _.
    unfold announcement_wf in W. intuition; lia.
Qed.

Lemma check_replacement_spec p sender nonce fee : pool_core p -> limits_ok p ->
  (exists e, check_replacement p sender nonce fee = Err e) \/
  (check_replacement p sender nonce fee = Ok (idx p sender nonce, freed p (idx p sender nonce)) /\
   outbids p (idx p sender nonce) fee).
Proof.
  intros C L. unfold check_replacement. change (sender_map p sender !! nonce) with (idx p sender nonce).
  destruct (idx p sender nonce) as [old|] eqn:I; [|by right].
  destruct (pc_idx _ C _ _ _ I) as (t & T & S & _). rewrite T. cbn [expect obind].
  destruct (checked_add 128 (pt_fee t) _) as [need|] eqn:N; cbn [ok_or obind]; [|by left; eexists].
  apply checked_add_some in N as [-> _]. destruct (Z.ltb_spec fee (pt_fee t + Z.max (pt_fee t / 4) 1)); [by left; eexists|right].
  split.
  - do 2 f_equal. unfold freed. cbn. rewrite T. unfold outlay, w_outlay, saturating_add.
    pose proof (lo_values _ L _ _ T). pose proof (lo_outlay _ L (pt_sender t)) as O.
    pose proof (wsum_mono (of_sender (pt_sender t) w_outlay) _ _ _ T) as W. rewrite of_sender_self in W by done.
    unfold w_outlay in W at 1. lia.
  - intros ? [= <-]. by exists t.
Qed.

Lemma freed_le p s n : pool_core p -> freed p (idx p s n) <= wsum (of_sender s w_outlay) (mp_txs p).
Proof.
  intros C. unfold freed. destruct (idx p s n) as [id|] eqn:I; cbn; [|apply wsum_nonneg, _].
  destruct (pc_idx _ C _ _ _ I) as (t & T & S & _). rewrite T.
  pose proof (wsum_mono (of_sender s w_outlay) _ _ _ T) as W. by rewrite of_sender_self in W.
Qed.
Lemma idx_len p s n : pool_core p -> is_Some (idx p s n) -> 1 <= sender_len p s.
Proof.
  intros C [id I]. unfold sender_len. assert (size (sender_map p s) <> 0%nat); [|lia].
  intros Z%map_size_empty_iff. unfold idx in I. by rewrite Z, lookup_empty in I.
Qed.

Lemma held_ok p s n : pool_core p -> limits_ok p -> params_ok (mp_params p) ->
  checked_sub 64 (sender_len p s) (match idx p s n with Some _ => 1 | None => 0 end) = Some (sender_len p s - slots_freed (idx p s n)).
Proof.
  intros C L Po. pose proof (po_sender _ Po). pose proof (lo_sender _ L s) as B. rewrite <- sender_len_sum in B by done.
  assert (0 <= sender_len p s) by (unfold sender_len; lia). pose proof (idx_len p s n C) as I.
  apply checked_sub_some. unfold slots_freed. split; [done|]. destruct (idx p s n); [specialize (I (mk_is_Some _ _ eq_refl))|]; lia.
Qed.

(** The checks never panic, and what they let through satisfies [prepared_ok]. *)
Lemma check_spec p raw author lookup : pool_core p -> limits_ok p -> params_ok (mp_params p) -> bytes_ok raw ->
  (exists e, mp_check p raw author lookup = Err e) \/
  (exists pr a sp, mp_check p raw author lookup = Ok pr /\ lookup (pp_sender pr) = (a, sp) /\ prepared_ok p raw (acc_nonce a) sp pr).
Proof.
  intros C L Po Hb. unfold mp_check.
  destruct (Z.ltb_spec MAX_TX_BYTES (Zlen raw)); [by left; eexists|].
  destruct (head raw) as [ty|] eqn:Hd; cbn [ok_or obind]; [|by left; eexists].
  destruct (ty =? TX_TYPE_COINBASE); [by left; eexists|].
  destruct (decode_tx raw) as [tx|e|] eqn:D; cbn [map_err obind]; [|by left; eexists|by destruct (np_decode_tx raw)].
  destruct (decode_tx_sound raw tx Hb D) as [W _].
  destruct (tx_parts tx ty) as [[[[[pub nonce] fee] amount] id]|e|] eqn:P; cbn [obind]; [|by left; eexists|].
  2: { destruct tx; cbn [tx_parts] in P; try done. destruct (AnnouncementTx_txid a) eqn:X; cbn in P; try done.
       unfold AnnouncementTx_txid in X. destruct (AnnouncementTx_encode_unsigned a) eqn:Y; cbn in X; try done.
       by destruct (np_AnnouncementTx_encode_unsigned a). }
  destruct (tx_parts_ok _ _ _ _ _ _ _ W P) as (Hpub & Hn & Hf & Ha).
  destruct (author_refuses tx author); [by left; eexists|].
  destruct (Z.ltb_spec fee FEE_FLOOR_MILE); [by left; eexists|].
  destruct (Z.ltb_spec fee (relay_fee_floor (mp_params p))); [by left; eexists|].
  case_bool_decide as K; [by left; eexists|]. apply eq_None_not_Some in K.
  set (sender := address_payload pub). destruct (lookup sender) as [a sp] eqn:Lk.
  destruct (Z.ltb_spec nonce (acc_nonce a)); [by left; eexists|].
  destruct (Z.ltb_spec (saturating_add 64 (acc_nonce a) (max_nonce_gap (mp_params p))) nonce); [by left; eexists|].
  destruct (check_replacement_spec p sender nonce fee C L) as [[e ->]|[-> Rbf]]; cbn [obind]; [by left; eexists|].
  destruct (checked_add 128 amount fee) as [out|] eqn:O; cbn [ok_or obind]; [|by left; eexists]. apply checked_add_some in O as [-> _].
  rewrite pending_outlay_sum by done. pose proof (freed_le p sender nonce C).
  destruct (checked_add 128 _ (amount + fee)) as [tot|] eqn:T; cbn [ok_or obind]; [|by left; eexists]. apply checked_add_some in T as [-> _].
  destruct (Z.ltb_spec sp (saturating_sub (wsum (of_sender sender w_outlay) (mp_txs p)) (freed p (idx p sender nonce)) + (amount + fee))); [by left; eexists|].
  rewrite (held_ok p sender nonce C L Po). cbn [expect obind].
  destruct (Z.leb_spec (effective_per_sender (mp_params p)) (sender_len p sender - slots_freed (idx p sender nonce))); [by left; eexists|right].
  eexists _, a, sp. split; [reflexivity|]. split; [exact Lk|]. unfold saturating_add, saturating_sub in *.
  split; cbn [pp_raw pp_tx pp_txid pp_sender pp_nonce pp_fee pp_amount pp_next pp_replaces]; try done; try lia; [|by exists pub].
  pose proof (Zlen_nonneg raw). split; [|done]. destruct raw; [done|]. rewrite Zlen_cons in *. pose proof (Zlen_nonneg raw). lia.
Qed.
End Admission.

(** ** Steps that narrow the pool *)
Lemma dropped_pooled p ids q s n : Dropped p ids q -> pooled q s n <-> exists id, idx p s n = Some id /\ id ∉ ids.
Proof.
  intros D. pose proof (dr_shrinks _ _ _ D) as S. split.
  - intros [id I]. exists id. split; [exact (core_sub_idx _ _ _ _ _ (sh_core _ _ S) (sh_from _ _ S) (sh_sub _ _ S) I)|].
    intros Q. destruct (pc_idx _ (sh_core _ _ S) _ _ _ I) as (t & T & _). by rewrite (dr_gone _ _ _ D) in T.
  - intros (id & I & Q). destruct (pc_idx _ (sh_from _ _ S) _ _ _ I) as (t & T & <- & <-).
    rewrite <- (dr_kept _ _ _ D) in T by done. destruct (pc_txs _ (sh_core _ _ S) _ _ T) as (_ & J & _). by exists id.
Qed.

(** A step that keeps the recorded nonces known; [sel] says which positions survive. *)
Record narrows (p q : Mempool) (sel : Address -> Z -> Prop) : Prop := {
  na_core : pool_core q;
  na_params : mp_params q = mp_params p;
  na_sub : sub_txs (mp_txs q) (mp_txs p);
  na_known : forall s, next_known q s;
  na_pooled : forall s n, pooled q s n <-> pooled p s n /\ sel s n;
}.
Lemma narrows_trans p q r f g h : narrows p q f -> narrows q r g -> (forall s n, h s n <-> f s n /\ g s n) -> narrows p r h.
Proof.
  intros [A1 A2 A3 A4 A5] [B1 B2 B3 B4 B5] E. split; [done|congruence|by transitivity (mp_txs q)|done|].
  intros s n. rewrite B5, A5, E. tauto.
Qed.
Lemma narrows_refl p : pool_core p -> (forall s, next_known p s) -> narrows p p (fun _ _ => True).
Proof. intros C K. split; try done. intros s n. tauto. Qed.

(** ** Committing a prepared transaction *)
Section Commit.
Context (start : Address -> Z -> Prop).

Record pool_ok (p : Mempool) : Prop := {
  po_inv : pool_inv start p;
  po_limits : limits_ok p;
  po_params : params_ok (mp_params p);
}.
Lemma pool_ok_new params : params_ok params -> pool_ok (Mempool_new params).
Proof.
  intros P. split; [split; [apply core_new|]| |done].
  - intros s. apply sender_ok_none, not_pooled. cbn. apply lookup_empty.
  - split; cbn; intros; rewrite ?wsum_empty, ?lookup_empty in *; try apply P; [|done]. unfold umax. lia.
Qed.

(** The pool while its transaction [old] is out: [p] before, [q] after some evictions. *)
Lemma displaced_next p old t q fpb ev r : pool_inv start p -> mp_txs p !! old = Some t -> Dropped p [old] q -> Evicted q fpb ev r ->
  mp_next_nonce r !! pt_sender t = None -> forall n, ~ pooled r (pt_sender t) n.
Proof.
  intros I T D V N n P. pose proof (ev_shrinks _ _ _ _ V) as S.
  destruct (sh_forgets _ _ S (pt_sender t)) as [F|[_ F]]; [|by apply (F n)].
  apply (dropped_next p [old] q old t D (so_known _ _ _ (pi_sender _ _ I _)) (list_elem_of_here _ _) T ltac:(congruence) n).
  by apply (shrinks_pooled q r).
Qed.
Lemma forgets_some p q s v : forgets p q -> mp_next_nonce q !! s = Some v -> mp_next_nonce p !! s = Some v.
Proof. intros F E. destruct (F s) as [<-|[N _]]; congruence. Qed.

Lemma restore_spec p old t q fpb ev r next : pool_ok p -> start (pt_sender t) next -> mp_txs p !! old = Some t -> Dropped p [old] q -> Evicted q fpb ev r ->
  exists z, restore r (Some t) (pt_sender t) next = Ok z /\ pool_ok z /\ mp_params z = mp_params p /\ sub_txs (mp_txs z) (mp_txs p).
Proof.
  intros [I L Pa] St T D V. pose proof (pi_core _ _ I) as C. destruct (pc_txs _ C _ _ T) as (Hid & J & K).
  pose proof (shrinks_trans _ _ _ (dr_shrinks _ _ _ D) (ev_shrinks _ _ _ _ V)) as S. pose proof (sh_core _ _ S) as Cr.
  assert (Gone : mp_txs r !! old = None).
  { eapply sub_txs_none; [apply (sh_sub _ _ (ev_shrinks _ _ _ _ V))|]. apply D, list_elem_of_here. }
  pose proof (fun w (W : Weight w) => wsum_room w _ _ _ _ (sh_sub _ _ S) T Gone) as Room.
  pose proof (lo_bytes _ L). pose proof (Room w_bytes _). pose proof (po_room _ Pa). unfold MAX_TX_BYTES in *.
  destruct (grow_spec start (E := Reject) r t next) as (y & pr & z & Hy & Hz & Iz & Pz & Sz).
  - done.
  - intros s Ns. eapply shrinks_sender; [exact S|apply (pi_sender _ _ I)|]. intros a Run. apply (ev_run _ _ _ _ V), (dr_run _ _ _ D); [|done].
    intros i u ->%list_elem_of_singleton U. congruence.
  - done.
  - by eapply displaced_next.
  - intros v E. apply (so_synced _ _ _ (pi_sender _ _ I (pt_sender t)) v (pt_nonce t)); [|by exists old].
    by apply (forgets_some p r); [apply S|].
  - by rewrite Hid.
  - destruct (idx r _ _) as [i|] eqn:X; [|done]. pose proof (core_sub_idx _ _ _ _ _ Cr C (sh_sub _ _ S) X) as X'.
    assert (i = old) as -> by congruence. destruct (pc_idx _ Cr _ _ _ X) as (u & U & _). congruence.
  - done.
  - rewrite (pc_bytes _ Cr). lia.
  - unfold restore. rewrite Hy. cbn. rewrite Hz. cbn. exists z. split; [done|]. rewrite (sh_params _ _ S) in Pz. split_and!; [split| |].
    + done.
    + pose proof (Room w_one _). pose proof (Room (of_sender (pt_sender t) w_one) _) as R3. pose proof (Room (of_sender (pt_sender t) w_outlay) _) as R4.
      rewrite of_sender_self in R3, R4 by done. pose proof (lo_txs _ L). pose proof (lo_sender _ L (pt_sender t)).
      pose proof (lo_outlay _ L (pt_sender t)). destruct (lo_values _ L _ _ T).
      assert (Lr : limits_ok r) by (by eapply limits_shrink). change (w_one t) with 1 in *.
      apply (limits_grow r t); rewrite ?(sh_params _ _ S); try done; [by rewrite Hid|lia..].
    + by rewrite Pz.
    + done.
    + destruct Sz as [Sz _]. intros i u U. destruct (Sz _ _ U) as [b B]. rewrite Hid in B. apply lookup_insert_Some in B as [[-> ->]|[_ B]].
      * by exists b.
      * destruct (sh_sub _ _ S _ _ B) as [c Hc]. exists c. by rewrite set_executable_twice in Hc.
Qed.

Lemma displace_spec p replaces : pool_core p ->
  exists q, match replaces with Some old => @mp_remove Reject p old | None => Ok (None, p) end
              = Ok (replaces ≫= (fun id => mp_txs p !! id), q) /\ Dropped p (option_list replaces) q.
Proof.
  intros C. destruct replaces as [old|]; cbn; [by apply remove_total|]. exists p. split; [done|].
  split; try done; [by apply shrinks_refl|]. intros id Q. by apply elem_of_nil in Q.
Qed.

(** What is left of the sender's slots and funds once the replaced transaction is gone. *)
Lemma replaced_room p q s n w `{!Weight w} : pool_core p -> sub_txs (mp_txs q) (mp_txs p) ->
  (forall id, id ∈ option_list (idx p s n) -> mp_txs q !! id = None) ->
  match idx p s n ≫= (fun id => mp_txs p !! id) with Some t => w t | None => 0 end + wsum (of_sender s w) (mp_txs q)
    <= wsum (of_sender s w) (mp_txs p).
Proof.
  intros C S G. destruct (idx p s n) as [id|] eqn:I; cbn in *; [|rewrite Z.add_0_l; by apply wsum_sub; [apply _|]].
  destruct (pc_idx _ C _ _ _ I) as (t & T & Hs & _). rewrite T.
  rewrite <- (of_sender_self s w t Hs). apply (wsum_room _ _ _ id); [done|done|]. apply G, list_elem_of_here.
Qed.

Definition new_tx (pr : Prepared) (now : Z) : PoolTx :=
  MkPoolTx (pp_txid pr) (pp_sender pr) (pp_nonce pr) (pp_fee pr) (pp_amount pr) (pp_raw pr) now true false.

(** The pool just before the new transaction goes in. *)
Record ready (p : Mempool) (pr : Prepared) (r : Mempool) : Prop := {
  rd_shrinks : shrinks p r;
  rd_gone : forall id, id ∈ option_list (pp_replaces pr) -> mp_txs r !! id = None;
  rd_others : forall s, s <> pp_sender pr -> sender_ok start r s;
}.
Lemma ready_idx p pr r raw next sp : ready p pr r -> prepared_ok p raw next sp pr -> idx r (pp_sender pr) (pp_nonce pr) = None.
Proof.
  intros [S G _] K. destruct (idx r _ _) as [i|] eqn:X; [|done].
  pose proof (core_sub_idx _ _ _ _ _ (sh_core _ _ S) (sh_from _ _ S) (sh_sub _ _ S) X) as X'. rewrite <- (pk_repl _ _ _ _ _ K) in X'.
  destruct (pc_idx _ (sh_core _ _ S) _ _ _ X) as (u & U & _). rewrite G in U; [done|]. rewrite X'. apply list_elem_of_here.
Qed.
Lemma ready_limits p pr r raw next sp now q : limits_ok p -> ready p pr r -> prepared_ok p raw next sp pr -> sp <= umax 128 ->
  over_limits r (Zlen raw) = false -> mp_params q = mp_params r -> same_txs q (<[pp_txid pr := new_tx pr now]> (mp_txs r)) ->
  limits_ok q /\ wsum (of_sender (pp_sender pr) w_outlay) (mp_txs q) <= sp.
Proof.
  intros L [S G _] K Hsp Ov Hq Sq. pose proof (sh_from _ _ S) as C. pose proof (sh_core _ _ S) as Cr.
  pose proof (sub_txs_none _ _ _ (sh_sub _ _ S) (pk_fresh _ _ _ _ _ K)) as Fresh.
  unfold over_limits, mp_len in Ov. rewrite (pc_bytes _ Cr), <- wsum_one in Ov. to_prop.
  rewrite (pk_repl _ _ _ _ _ K) in G. pose proof (fun w (W : Weight w) => replaced_room p r _ _ w C (sh_sub _ _ S) G) as Room.
  pose proof (Room w_one _) as R1. pose proof (Room w_outlay _) as R2.
  pose proof (pk_cap _ _ _ _ _ K) as Cap. rewrite sender_len_sum in Cap by done. pose proof (pk_funds _ _ _ _ _ K) as Fu.
  pose proof (pk_fee _ _ _ _ _ K) as [Fee _]. pose proof (pk_amount _ _ _ _ _ K). unfold FEE_FLOOR_MILE in Fee.
  assert (Wo : w_outlay (new_tx pr now) = pp_amount pr + pp_fee pr) by (unfold w_outlay; cbn; lia).
  unfold freed in Fu. rewrite (pk_repl _ _ _ _ _ K) in Fu, Cap.
  assert (Cap' : 1 + wsum (of_sender (pp_sender pr) w_one) (mp_txs r) <= effective_per_sender (mp_params p)).
  { unfold slots_freed in Cap. destruct (idx p _ _) as [i|] eqn:X; cbn in R1; [|lia]. destruct (pc_idx _ C _ _ _ X) as (u & U & _).
    rewrite U in R1. change (w_one u) with 1 in R1. lia. }
  split.
  - apply (limits_grow r (new_tx pr now)); rewrite ?(sh_params _ _ S) in *; try done; cbn [pt_sender new_tx]; try (cbn; lia).
    + by eapply limits_shrink.
    + unfold w_bytes at 1. cbn [pt_bytes new_tx]. rewrite (pk_raw _ _ _ _ _ K). lia.
  - rewrite (same_txs_sum _ _ _ Sq), wsum_insert, of_sender_self by done. lia.
Qed.

(** What an accepted submission does to the pool. *)
Record admitted_ok (p : Mempool) (pr : Prepared) (now sp : Z) (q : Mempool) (adm : PoolAdmission) : Prop := {
  ad_txid : pa_txid adm = pp_txid pr;
  ad_in : mp_txs q !! pp_txid pr = Some (set_executable (new_tx pr now) (pa_executable adm));
  ad_rest : forall id, is_Some (mp_txs q !! id) <->
    id = pp_txid pr \/ (exists t, mp_txs p !! id = Some t /\ ~ is_expired p now t /\ id ∉ pa_removed adm);
  ad_removed : forall id, id ∈ pa_removed adm ->
    pp_replaces pr = Some id \/
    (exists t, mp_txs p !! id = Some t /\ fee_per_byte t <= fee_per_byte_of (pp_fee pr) (Zlen (pp_raw pr)));
  ad_funds : wsum (of_sender (pp_sender pr) w_outlay) (mp_txs q) <= sp;
}.
Definition commit_ok (p : Mempool) (pr : Prepared) (now sp : Z) (q : Mempool) (v : Reject + PoolAdmission) : Prop :=
  match v with
  | inl e => e = PoolFull /\ sub_txs (mp_txs q) (mp_txs p)
  | inr adm => admitted_ok p pr now sp q adm
  end.

(** The transactions that came through expiry, replacement and eviction. *)
Definition removed_ids (pr : Prepared) (ev : list Hash32) : list Hash32 :=
  match pp_replaces pr with Some old_id => old_id :: ev | None => ev end.
Lemma removed_ids_elem pr ev id : id ∈ removed_ids pr ev <-> id ∈ option_list (pp_replaces pr) \/ id ∈ ev.
Proof.
  unfold removed_ids. destruct (pp_replaces pr) as [o|]; cbn.
  { rewrite (elem_of_cons ev), list_elem_of_singleton. done. }
  split; [by right|].  intros [Q|Q]; [by apply elem_of_nil in Q|done].
Qed.
Lemma survivors p p1 p2 r pr now fpb ev id :
  (forall id, is_Some (mp_txs p1 !! id) <-> exists t, mp_txs p !! id = Some t /\ ~ is_expired p now t) ->
  Dropped p1 (option_list (pp_replaces pr)) p2 -> Evicted p2 fpb ev r ->
  is_Some (mp_txs r !! id) <-> exists t, mp_txs p !! id = Some t /\ ~ is_expired p now t /\ id ∉ removed_ids pr ev.
Proof.
  intros Hp1 D V. setoid_rewrite removed_ids_elem. destruct (decide (id ∈ ev)) as [E|E].
  { rewrite (ev_gone _ _ _ _ V) by done. split; [by intros [? ?]|]. intros (t & _ & _ & X). destruct X. by right. }
  rewrite (ev_kept _ _ _ _ V) by done. destruct (decide (id ∈ option_list (pp_replaces pr))) as [E'|E'].
  { rewrite (dr_gone _ _ _ D) by done. split; [by intros [? ?]|]. intros (t & _ & _ & X). destruct X. by left. }
  rewrite (dr_kept _ _ _ D), Hp1 by done. split; [intros (t & ? & ?)|intros (t & ? & ? & ?)]; exists t; [|done].
  split_and!; [done..|]. by intros [?|?].
Qed.

Lemma pool_admit_spec p p1 p2 r pr raw next sp now ev obs : start (pp_sender pr) next -> params_ok (mp_params p) -> limits_ok p ->
  prepared_ok p raw next sp pr -> nonce_ok (pp_nonce pr) -> sp <= umax 128 ->
  (forall id, is_Some (mp_txs p1 !! id) <-> exists t, mp_txs p !! id = Some t /\ ~ is_expired p now t) ->
  shrinks p p1 -> Dropped p1 (option_list (pp_replaces pr)) p2 ->
  Evicted p2 (fee_per_byte_of (pp_fee pr) (Zlen (pp_raw pr))) ev r -> ready p pr r -> over_limits r (Zlen raw) = false ->
  exists q adm,
    (let removed := removed_ids pr ev in
     let p := with_next r (<[pp_sender pr := pp_next pr]> (mp_next_nonce r)) in
     let? p := mp_insert p (new_tx pr now) in
     let? r := resplit p (pp_sender pr) (pp_next pr) in
     let '(promoted, p) := r in
     let? t := expect (mp_txs p !! pp_txid pr) in
     @Ok Reject _ (p, obs, inr (MkPoolAdmission (pp_txid pr) (pt_executable t) (filter (fun id => id <> pp_txid pr) promoted) removed)))
    = Ok (q, obs : list Condition, @inr Reject PoolAdmission adm) /\ pool_ok q /\ mp_params q = mp_params p /\ admitted_ok p pr now sp q adm.
Proof.
  intros St Pa L K Hn Hsp Hp1 S1 D V Rd Ov. pose proof Rd as [S G O]. pose proof (sh_core _ _ S) as Cr.
  pose proof (sub_txs_none _ _ _ (sh_sub _ _ S) (pk_fresh _ _ _ _ _ K)) as Fresh.
  rewrite (pk_next _ _ _ _ _ K). cbv zeta. set (r' := with_next r _).
  assert (Bytes : wsum w_bytes (mp_txs r) + Zlen raw <= max_bytes (mp_params p)).
  { unfold over_limits in Ov. rewrite (pc_bytes _ Cr), (sh_params _ _ S) in Ov. to_prop. lia. }
  destruct (grow_spec start (E := Reject) r' (new_tx pr now) next) as (y & prm & q & -> & Hq & Iq & Pq & Sq).
  - by apply core_next.
  - intros s Ns. destruct (O s Ns) as [A B R]. cbn in Ns.
    split; [intros Z; apply A|intros v n Z; apply (B v n)|done]; unfold r' in Z; cbn in Z; by rewrite lookup_insert_ne in Z.
  - done.
  - unfold r'. cbn. by rewrite lookup_insert_eq.
  - unfold r'. cbn. rewrite lookup_insert_eq. by intros v [= <-].
  - done.
  - exact (ready_idx p pr r raw next sp Rd K).
  - done.
  - unfold w_bytes. cbn. rewrite (pc_bytes _ Cr), (pk_raw _ _ _ _ _ K). pose proof (po_room _ Pa). unfold MAX_TX_BYTES in *. lia.
  - cbn [obind]. cbn [pt_sender new_tx] in Hq. rewrite Hq. cbn [obind].
    destruct (proj2 Sq (pp_txid pr) (new_tx pr now)) as [b Hb]; [apply lookup_insert_eq|]. rewrite Hb. cbn [expect obind].
    eexists q, _. split; [reflexivity|]. change (mp_params r') with (mp_params r) in Pq.
    destruct (ready_limits p pr r raw next sp now q L Rd K Hsp Ov Pq Sq) as [Lq Fq]. rewrite (sh_params _ _ S) in Pq.
    split_and!; [split; [done|done|by rewrite Pq]|done|]. split; cbn [pa_txid pa_executable pa_removed]; [done|by rewrite Hb|..|done].
    + intros id. rewrite (same_txs_is_some _ _ _ Sq). destruct (decide (id = pp_txid pr)) as [->|Ne].
      { cbn. rewrite lookup_insert_eq. split; [by left|by eexists]. }
      cbn [pt_txid new_tx]. rewrite lookup_insert_ne by done. change (mp_txs r') with (mp_txs r).
      rewrite (survivors p p1 p2 r pr now _ ev id Hp1 D V). split; [by right|by intros [?|?]].
    + intros id Q. assert (id ∈ ev \/ pp_replaces pr = Some id) as [E|]; [|right|by left].
      { unfold removed_ids in Q. destruct (pp_replaces pr); [apply elem_of_cons in Q as [->|?]|]; tauto. }
      destruct (ev_paid _ _ _ _ V _ E) as (t & T & Hf). destruct (sh_sub _ _ (dr_shrinks _ _ _ D) _ _ T) as [c Hc].
      destruct (sh_sub _ _ S1 _ _ Hc) as [e He]. eexists. split; [exact He|done].
Qed.

Lemma commit_spec p pr raw next sp proof now : pool_ok p -> start (pp_sender pr) next -> prepared_ok p raw next sp pr ->
  nonce_ok (pp_nonce pr) -> sp <= umax 128 ->
  exists q obs v, mp_commit p pr proof now = Ok (q, obs, v) /\ pool_ok q /\ mp_params q = mp_params p /\ commit_ok p pr now sp q v.
Proof.
  intros [I L Pa] St K Hn Hsp. unfold mp_commit.
  destruct (sweep_spec start (E := Reject) p now I) as (p1 & -> & I1 & S1 & Live). cbn [obind].
  set (obs := if bool_decide _ then _ else _). pose proof (pi_core _ _ I1) as C1.
  destruct (displace_spec p1 (pp_replaces pr) C1) as (p2 & -> & D). cbn [obind].
  pose proof (shrinks_trans _ _ _ S1 (dr_shrinks _ _ _ D)) as S2.
  destruct (make_room_spec (S (size (mp_txs p2))) p2 (Zlen (pp_raw pr)) (fee_per_byte_of (pp_fee pr) (Zlen (pp_raw pr))) [] obs
              (sh_core _ _ S2)) as (room & r & ev & obs' & -> & V & Rv); [lia|]. cbn [obind].
  pose proof (shrinks_trans _ _ _ S2 (ev_shrinks _ _ _ _ V)) as S3.
  assert (Old : forall id t, id ∈ option_list (pp_replaces pr) -> mp_txs p1 !! id = Some t -> pt_sender t = pp_sender pr).
  { intros id t Q T. destruct (sh_sub _ _ S1 _ _ T) as [b B]. rewrite (pk_repl _ _ _ _ _ K) in Q.
    destruct (idx p _ _) as [o|] eqn:X; cbn in Q; [|by apply elem_of_nil in Q]. apply list_elem_of_singleton in Q as ->.
    destruct (pc_idx _ (sh_from _ _ S1) _ _ _ X) as (u & U & Hs & _). rewrite U in B. injection B as ->. exact Hs. }
  assert (Others : forall s, (s <> pp_sender pr \/ (pp_replaces pr ≫= (fun id => mp_txs p1 !! id)) = None) -> sender_ok start r s).
  { intros s Hs. eapply shrinks_sender; [exact (shrinks_trans _ _ _ (dr_shrinks _ _ _ D) (ev_shrinks _ _ _ _ V))|apply (pi_sender _ _ I1)|].
    intros a Run. apply (ev_run _ _ _ _ V), (dr_run _ _ _ D); [|done]. intros id t Q T E. destruct Hs as [Hs|Hs].
    - apply Hs. rewrite <- E. by apply (Old id t).
    - destruct (pp_replaces pr) as [o|]; cbn in Q, Hs; [|by apply elem_of_nil in Q]. apply list_elem_of_singleton in Q as ->. congruence. }
  destruct room; cbn [negb].
  - destruct (pool_admit_spec p p1 p2 r pr raw next sp now ev obs' St Pa L K Hn Hsp Live S1 D V) as (q & adm & Hq & Ok & Pq & Ad).
    + split; [done| |intros s Ns; apply Others; by left]. intros id Q.
      eapply sub_txs_none; [apply (sh_sub _ _ (ev_shrinks _ _ _ _ V))|]. by apply D.
    + by rewrite <- (pk_raw _ _ _ _ _ K).
    + exists q, obs', (inr adm). split_and!; [|done|done|done]. exact Hq.
  - assert (Ok1 : pool_ok p1) by (split; [done|by eapply limits_shrink|by rewrite (sh_params _ _ S1)]).
    destruct (pp_replaces pr ≫= (fun id => mp_txs p1 !! id)) as [t|] eqn:X; cycle 1.
    + exists r, obs', (inl PoolFull). split_and!; [done| |apply S3|].
      * split; [split; [apply S3|intros s; apply Others; by right]|by eapply limits_shrink|by rewrite (sh_params _ _ S3)].
      * split; [done|apply S3].
    + destruct (pp_replaces pr) as [o|] eqn:Ro; [|done]. cbn in X. cbn [option_list] in *.
      pose proof (Old o t (list_elem_of_here _ _) X) as Hs. destruct (restore_spec p1 o t p2 _ ev r next Ok1 ltac:(by rewrite Hs) X D V) as (z & Hz & Okz & Pz & Sz).
      rewrite (pk_next _ _ _ _ _ K), <- Hs, Hz. cbn [obind]. exists z, obs', (inl PoolFull). split_and!; [done|done| |].
      * by rewrite Pz, (sh_params _ _ S1).
      * split; [done|]. transitivity (mp_txs p1); [done|apply S1].
Qed.

(** ** Blocks *)
Lemma resettle_spec account p s : start s (acc_nonce (account s)) -> pool_core p -> (forall s, next_known p s) ->
  exists q, resettle account p s = Ok q /\ narrows p q (fun s' n => s' = s -> acc_nonce (account s) <= n) /\
    (forall s', s' = s \/ sender_ok start p s' -> sender_ok start q s').
Proof.
  intros St C K. unfold resettle. set (next := acc_nonce (account s)) in *. set (p0 := with_next p _). assert (C0 : pool_core p0) by (by apply core_next).
  unfold drop_below_nonce. set (ids := _ <$> filter _ _).
  destruct (remove_all_spec (E := Reject) ids p0 C0) as (p1 & -> & D). cbn [obind]. pose proof (dr_shrinks _ _ _ D) as S1.
  destruct (resplit_spec (E := Reject) p1 s next (sh_core _ _ S1)) as (pr & q & -> & F). cbn [obind snd].
  pose proof (flagged_shrinks _ _ _ _ (sh_core _ _ S1) F) as S2. pose proof (shrinks_trans _ _ _ S1 S2) as S.
  assert (Ids : forall s' n id, idx p s' n = Some id -> id ∈ ids <-> s' = s /\ n < next).
  { intros s' n id I. unfold ids. rewrite list_elem_of_fmap. destruct (pc_idx _ C _ _ _ I) as (t & T & <- & <-). split.
    - intros [[m j] [-> [L Q%entries_elem]%list_elem_of_filter]]. destruct (pc_idx _ C0 _ _ _ Q) as (u & U & <- & <-).
      cbn in *. by assert (u = t) as -> by congruence.
    - intros [Hs L]. exists (pt_nonce t, id). split; [done|]. apply list_elem_of_filter. split; [done|]. apply entries_elem. by rewrite <- Hs. }
  assert (K0 : forall s', next_known p0 s').
  { intros s' N. apply K. unfold p0 in N. cbn in N. apply lookup_insert_None in N. apply N. }
  exists q. split; [done|]. split; [split|].
  - apply S2.
  - apply (sh_params _ _ S).
  - apply (sh_sub _ _ S).
  - intros s'. by eapply shrinks_next_known.
  - intros s' n. transitivity (pooled p1 s' n); [by rewrite (fl_with _ _ _ _ F)|]. rewrite (dropped_pooled _ _ _ _ _ D). split.
    + intros (id & I & Q). split; [by exists id|]. intros ->. apply Z.nlt_ge. intros Lt. apply Q. by apply (Ids s n id I).
    + intros [[id I] L]. exists id. split; [done|]. intros [-> Lt]%(Ids s' n id I). specialize (L eq_refl). lia.
  - intros s' Q. destruct (decide (s' = s)) as [->|Ns].
    + split; [by eapply shrinks_next_known| |intros n _; exists next; split; [done|apply F]]. eapply shrinks_synced; [exact S|].
      intros v n N _. unfold p0 in N. cbn in N. rewrite lookup_insert_eq in N. by injection N as <-.
    + destruct Q as [|[A B R]]; [done|]. eapply shrinks_sender; [exact S| |].
      * split; [done| |done]. intros v n N. unfold p0 in N. cbn in N. rewrite lookup_insert_ne in N by done. by apply (B v n).
      * intros a Ra. eapply flagged_run; [exact (sh_core _ _ S1)|done|done|]. apply (dr_run _ _ _ D); [|done].
        intros id t I T <-. destruct (pc_txs _ C _ _ T) as (_ & J & _). apply (Ids _ _ _ J) in I. tauto.
Qed.

Lemma resettle_all_spec account l : (forall s, s ∈ l -> start s (acc_nonce (account s))) ->
  forall p, pool_core p -> (forall s, next_known p s) ->
  exists q, ofold (resettle account) p l = Ok q /\ narrows p q (fun s n => s ∈ l -> acc_nonce (account s) <= n) /\
    (forall s, s ∈ l \/ sender_ok start p s -> sender_ok start q s).
Proof.
  induction l as [|s l IH]; intros Ha p C K.
  { exists p. split_and!; [done| |intros s [Q|Q]; [by apply elem_of_nil in Q|done]].
    eapply narrows_trans; [by apply narrows_refl..|]. intros s n. split; [done|]. intros _ Q. by apply elem_of_nil in Q. }
  destruct (resettle_spec account p s (Ha s (list_elem_of_here _ _)) C K) as (q & Hq & N & Ok). cbn [ofold]. rewrite Hq. cbn [obind].
  destruct (IH (fun s' Q => Ha s' (list_elem_of_further _ _ _ Q)) q (na_core _ _ _ N) (na_known _ _ _ N)) as (r & -> & N' & Ok'). exists r. split_and!; [done| |].
  - eapply narrows_trans; [exact N|exact N'|]. intros s' n. cbn. setoid_rewrite elem_of_cons. split.
    + intros X. split; [intros ->; apply X; by left|intros Q; apply X; by right].
    + intros [A B] [->|Q]; [by apply A|by apply B].
  - intros s' Q. apply Ok'. destruct (decide (s' ∈ l)) as [?|Nl]; [by left|right]. apply Ok.
    destruct Q as [[Q|Q]%elem_of_cons|Q]; [by left|done|by right].
Qed.

Lemma confirm_spec l : forall p k, pool_core p -> (forall s, next_known p s) ->
  exists q k', ofold confirm_step (p, k) l = Ok (q, k') /\ narrows p q (fun s n => (s, n) ∉ l) /\
    (forall s, s ∉ (fst <$> l) -> sender_ok start p s -> sender_ok start q s).
Proof.
  induction l as [|[s m] l IH]; intros p k C K.
  { exists p, k. split_and!; [done| |done]. eapply narrows_trans; [by apply narrows_refl..|].
    intros s n. split; [done|]. intros _ Q. by apply elem_of_nil in Q. }
  cbn [ofold confirm_step fst snd]. change (sender_map p s !! m) with (idx p s m).
  assert (Step : exists q k', (match idx p s m with None => Ok (p, k) | Some id => let? r := @mp_remove Reject p id in Ok (snd r, k + 1) end) = Ok (q, k') /\
    narrows p q (fun s' n => (s', n) <> (s, m)) /\ forall s', s' <> s -> sender_ok start p s' -> sender_ok start q s').
  { destruct (idx p s m) as [id|] eqn:I; cycle 1.
    - exists p, k. split_and!; [done| |done]. split; try done. intros s' n. split; [|tauto]. intros P. split; [done|].
      intros [= -> ->]. destruct P. congruence.
    - destruct (remove_total (E := Reject) p id C) as (q & -> & D). cbn [obind snd]. exists q, (k + 1). pose proof (dr_shrinks _ _ _ D) as S.
      destruct (pc_idx _ C _ _ _ I) as (t & T & Hs & Hm). split_and!; [done| |].
      + split; [apply S|apply S|apply S|intros s'; by eapply shrinks_next_known|]. intros s' n. rewrite (dropped_pooled _ _ _ _ _ D). split.
        * intros (j & J & Q). split; [by exists j|]. intros [= -> ->]. apply Q. assert (j = id) as -> by congruence. apply list_elem_of_here.
        * intros [[j J] Q]. exists j. split; [done|]. intros ->%list_elem_of_singleton. apply Q.
          destruct (pc_idx _ C _ _ _ J) as (u & U & <- & <-). assert (u = t) as -> by congruence. congruence.
      + intros s' Ns Ok. eapply shrinks_sender; [done|done|]. intros a. apply (dr_run _ _ _ D).
        intros j u ->%list_elem_of_singleton U. congruence. }
  destruct Step as (q & k1 & -> & N & Ok). cbn [obind].
  destruct (IH q k1 (na_core _ _ _ N) (na_known _ _ _ N)) as (r & k2 & -> & N' & Ok'). exists r, k2. split_and!; [done| |].
  - eapply narrows_trans; [exact N|exact N'|]. intros s' n. cbn. by rewrite not_elem_of_cons.
  - intros s' [Ns Nl]%not_elem_of_cons X. by apply Ok', Ok.
Qed.
End Commit.

(** ** The operations *)
Lemma sender_ok_mono (f g : Address -> Z -> Prop) p s : (forall a, f s a -> g s a) -> sender_ok f p s -> sender_ok g p s.
Proof.
  intros E [A B C]. split; [done|intros v n N P; by apply E, (B v n)|].
  intros n P. destruct (C n P) as (a & Ha & Ra). eauto.
Qed.
Lemma narrows_ok f p q sel : limits_ok p -> params_ok (mp_params p) -> narrows p q sel -> (forall s, sender_ok f q s) -> pool_ok f q.
Proof.
  intros [L1 L2 L3 L4 L5] Pa [A1 A2 A3 A4 _] Ok. split; [by split| |by rewrite A2].
  pose proof (fun w (W : Weight w) => wsum_sub w _ _ A3) as M. split; rewrite ?A2.
  - etransitivity; [apply M, _|done].
  - etransitivity; [apply M, _|done].
  - intros s. etransitivity; [apply M, _|done].
  - intros s. etransitivity; [apply M, _|done].
  - intros id t T. destruct (A3 _ _ T) as [b F]. by apply L5 in F.
Qed.

(** Runs that start at the nonces of the accounts, and runs that start anywhere. *)
Definition exactly (acct : Address -> Z) (s : Address) (v : Z) : Prop := v = acct s.
Definition anywhere (s : Address) (v : Z) : Prop := True.
Definition nonce_of (account : Address -> Account) (s : Address) : Z := acc_nonce (account s).
Lemma pool_ok_anywhere f p : pool_ok f p -> pool_ok anywhere p.
Proof. intros [[C K] L P]. split; [|done|done]. split; [done|]. intros s. by apply (sender_ok_mono f). Qed.

Lemma resplit_all_spec f p account : pool_ok f p ->
  exists q, resplit_all p account = Ok q /\ pool_ok (exactly (nonce_of account)) q /\ mp_params q = mp_params p /\
    (forall s n, pooled q s n <-> pooled p s n /\ nonce_of account s <= n).
Proof.
  intros [[C K] L Pa]. unfold resplit_all. set (l := fst <$> _).
  assert (M : forall s n, pooled p s n -> s ∈ l).
  { intros s n [i I]. unfold idx, sender_map in I. destruct (mp_by_sender p !! s) as [m|] eqn:E; [|cbn in I; by rewrite lookup_empty in I].
    unfold l. apply list_elem_of_fmap. exists (s, m). split; [done|by apply elem_of_map_to_list]. }
  destruct (resettle_all_spec (exactly (nonce_of account)) account l (fun _ _ => eq_refl) p C (fun s => so_known _ _ _ (K s))) as (q & -> & N & Ok).
  exists q. split_and!; [done| |apply N|].
  - eapply narrows_ok; [done|done|exact N|]. intros s. apply Ok. destruct (decide (s ∈ l)) as [?|Nl]; [by left|right].
    apply sender_ok_none. intros n P. by apply Nl, (M s n).
  - intros s n. rewrite (na_pooled _ _ _ N). split; intros [P X]; (split; [done|]); [apply X; by apply (M s n)|done].
Qed.
Lemma on_block_connected_spec f g p spent account : pool_ok f p ->
  (forall s a, s ∉ (fst <$> spent) -> f s a -> g s a) -> (forall s, g s (nonce_of account s)) ->
  exists q k, on_block_connected p spent account = Ok (q, k) /\ pool_ok g q /\ mp_params q = mp_params p /\
    (forall s n, pooled q s n <-> pooled p s n /\ ((s, n) ∉ spent) /\ (s ∈ (fst <$> spent) -> nonce_of account s <= n)).
Proof.
  intros [[C K] L Pa] Same New. unfold on_block_connected.
  destruct (confirm_spec f spent p 0 C (fun s => so_known _ _ _ (K s))) as (p1 & k & -> & N & Ok). cbn [obind].
  destruct (resettle_all_spec g account (sorted_senders (fst <$> spent)) (fun s _ => New s) p1
              (na_core _ _ _ N) (na_known _ _ _ N)) as (q & -> & N' & Ok'). cbn [obind].
  assert (NN : narrows p q (fun s n => ((s, n) ∉ spent) /\ (s ∈ sorted_senders (fst <$> spent) -> nonce_of account s <= n))).
  { eapply narrows_trans; [exact N|exact N'|done]. }
  exists q, k. split_and!; [done| |apply NN|].
  - eapply narrows_ok; [done|done|exact NN|].
    intros s. apply Ok'. rewrite sorted_senders_elem. destruct (decide (s ∈ (fst <$> spent))) as [?|Ns]; [by left|right].
    apply (sender_ok_mono f); [intros a; by apply Same|]. by apply Ok.
  - intros s n. by rewrite (na_pooled _ _ _ NN), sorted_senders_elem.
Qed.

Section Submit.
Context `{Ed25519} (start : Address -> Z -> Prop).

(** A submission either leaves the pool as it was, or was refused for lack of room and only
    shrank it, or put its transaction in. *)
Definition submission_ok (p : Mempool) (raw : bytes) (now : Z) (tx_ok : Tx -> Prop) (q : Mempool) (v : Reject + PoolAdmission) : Prop :=
  match v with
  | inl e => q = p \/ (e = PoolFull /\ sub_txs (mp_txs q) (mp_txs p))
  | inr adm => exists pr next sp, start (pp_sender pr) next /\ prepared_ok p raw next sp pr /\ tx_ok (pp_tx pr) /\ admitted_ok p pr now sp q adm
  end.
(** The accounts the caller looks up, in range and those the pool is synced with. *)
Definition lookup_ok (m : MempoolParams) (lookup : Address -> Account * Z) : Prop :=
  forall s, start s (acc_nonce (fst (lookup s))) /\ account_ok m (fst (lookup s)) (snd (lookup s)).

Lemma prepared_nonce p raw a sp pr : account_ok (mp_params p) a sp -> prepared_ok p raw (acc_nonce a) sp pr -> nonce_ok (pp_nonce pr).
Proof. intros (A & B & D & _) K. pose proof (pk_nonce _ _ _ _ _ K). unfold nonce_ok. lia. Qed.

Lemma pool_submit_spec p raw a sp now proof : pool_ok start p -> bytes_ok raw -> account_ok (mp_params p) a sp ->
  (forall tx pub, decode_tx raw = Ok tx -> tx_from_pub tx = Some pub -> start (address_payload pub) (acc_nonce a)) ->
  exists q obs v, mp_submit p raw a sp now proof = Ok (q, obs, v) /\ pool_ok start q /\ mp_params q = mp_params p /\
    submission_ok p raw now (fun _ => True) q v.
Proof.
  intros Ok Hb Ha Hs. unfold mp_submit.
  destruct (check_spec p raw AlreadyHeld (fun _ => (a, sp)) (pi_core _ _ (po_inv _ _ Ok)) (po_limits _ _ Ok) (po_params _ _ Ok) Hb)
    as [[e ->]|(pr & a' & sp' & -> & [= <- <-] & K)]; cbn [verdict].
  { exists p, [], (inl e). split_and!; [done..|]. by left. }
  destruct (pk_sender _ _ _ _ _ K) as (pub & Hp & Hsd). pose proof (Hs _ _ (pk_decode _ _ _ _ _ K) Hp) as E. rewrite <- Hsd in E.
  pose proof (prepared_nonce _ _ _ _ _ Ha K) as Hn.
  destruct (commit_spec start p pr raw (acc_nonce a) sp proof now Ok E K Hn) as (q & obs & v & -> & Okq & Pq & V); [apply Ha|].
  exists q, obs, v. split_and!; [done..|]. destruct v as [e|adm]; [by right|by exists pr, (acc_nonce a), sp].
Qed.
Lemma submit_verified_spec p network raw lookup now author : pool_ok start p -> bytes_ok raw -> lookup_ok (mp_params p) lookup ->
  exists q obs v, submit_verified p network raw lookup now author = Ok (q, obs, v) /\ pool_ok start q /\ mp_params q = mp_params p /\
    submission_ok p raw now (fun tx => exists proof, SigProof_verify network tx author = Ok proof) q v.
Proof.
  intros Ok Hb Ha. unfold submit_verified.
  destruct (check_spec p raw (Enforce author) lookup (pi_core _ _ (po_inv _ _ Ok)) (po_limits _ _ Ok) (po_params _ _ Ok) Hb)
    as [[e ->]|(pr & a & sp & -> & Lk & K)]; cbn [verdict].
  { exists p, [], (inl e). split_and!; [done..|]. by left. }
  destruct (SigProof_verify network (pp_tx pr) author) as [proof|e|] eqn:Sg; cbn [verdict].
  - destruct (Ha (pp_sender pr)) as [E Ha']. rewrite Lk in E, Ha'. cbn [fst snd] in E, Ha'.
    pose proof (prepared_nonce _ _ _ _ _ Ha' K) as Hn.
    destruct (commit_spec start p pr raw (acc_nonce a) sp proof now Ok E K Hn) as (q & obs & v & -> & Okq & Pq & V); [apply Ha'|].
    exists q, obs, v. split_and!; [done..|]. destruct v as [e|adm]; [by right|]. exists pr, (acc_nonce a), sp. split_and!; eauto.
  - exists p, [], (inl e). split_and!; [done..|]. by left.
  - assert (SigProof_verify network (pp_tx pr) author <> Panic); [|done]. unfold SigProof_verify. no_panic.
Qed.

Lemma reinject_spec lookup now raws : forall p taken dropped obs, pool_ok start p -> Forall bytes_ok raws -> lookup_ok (mp_params p) lookup ->
  0 <= taken -> taken <= Z.max 0 (reorg_reinject_cap (mp_params p)) ->
  exists q taken' dropped' obs', ofold (reinject_step now lookup) (p, taken, dropped, obs) raws = Ok (q, taken', dropped', obs') /\
    pool_ok start q /\ mp_params q = mp_params p /\ taken <= taken' <= Z.max 0 (reorg_reinject_cap (mp_params p)) /\
    dropped <= dropped' /\ taken' + dropped' <= taken + dropped + Zlen raws.
Proof.
  induction raws as [|raw raws IH]; intros p taken dropped obs Hok Hb Ha T0 T1.
  { exists p, taken, dropped, obs. cbn. split_and!; try done; unfold Zlen; cbn; lia. }
  apply Forall_cons in Hb as [Hr Hb]. rewrite Zlen_cons. cbn [ofold reinject_step].
  assert (Next : forall p' t' d' o', pool_ok start p' -> mp_params p' = mp_params p -> taken <= t' <= Z.max 0 (reorg_reinject_cap (mp_params p)) ->
    dropped <= d' -> t' + d' <= taken + dropped + 1 ->
    exists q t2 d2 o2, ofold (reinject_step now lookup) (p', t', d', o') raws = Ok (q, t2, d2, o2) /\
    pool_ok start q /\ mp_params q = mp_params p /\ taken <= t2 <= Z.max 0 (reorg_reinject_cap (mp_params p)) /\
    dropped <= d2 /\ t2 + d2 <= taken + dropped + (1 + Zlen raws)).
  { intros p' t' d' o' Ok' Pp Ht Hd Hs. destruct (IH p' t' d' o') as (q & t2 & d2 & o2 & E & A & B & D & F & G); rewrite ?Pp; try done; try lia.
    exists q, t2, d2, o2. rewrite Pp in *. split_and!; try done; lia. }
  destruct (Z.leb_spec (reorg_reinject_cap (mp_params p)) taken); [apply Next; try done; lia|].
  destruct (decode_tx raw) as [tx|e|] eqn:D; cbn [obind]; [|apply Next; try done; lia|by destruct (np_decode_tx raw)].
  destruct (tx_from_pub tx) as [pub|] eqn:Fp; cbn [obind]; [|apply Next; try done; lia].
  destruct (lookup (address_payload pub)) as [a sp] eqn:Lk. destruct (Ha (address_payload pub)) as [E Ha']. rewrite Lk in E, Ha'. cbn [fst snd] in E, Ha'.
  destruct (pool_submit_spec p raw a sp now from_validated_block Hok Hr Ha') as (q & o & v & -> & Okq & Pq & _).
  { intros tx' pub' D' Fp'. rewrite D in D'. apply Ok_inj in D' as <-. rewrite Fp in Fp'. by injection Fp' as <-. }
  cbn [obind]. destruct v; apply Next; try done; lia.
Qed.
End Submit.

(** The whole update after an adoption returns, whatever the nonces were before. *)
Lemma update_mempool_spec `{Ed25519} f p (spent : list (Address * Z)) (disconnected : list (Z * list bytes)) account spendable now :
  pool_ok f p -> Forall (fun b => Forall bytes_ok (snd b)) disconnected ->
  (forall s, account_ok (mp_params p) (account s) (spendable s (acc_balance (account s)))) ->
  exists q conds, update_mempool p spent disconnected account spendable now = Ok (q, conds) /\
    pool_ok (exactly (nonce_of account)) q /\ mp_params q = mp_params p /\ (forall s n, pooled q s n -> nonce_of account s <= n).
Proof.
  intros Hok Hb Ha. unfold update_mempool.
  destruct (on_block_connected_spec f anywhere p spent account Hok) as (p1 & k & -> & Ok1 & Pp & _); [done..|]. cbn [obind].
  set (lookup := fun a => (account a, spendable a (acc_balance (account a)))).
  assert (Re : exists q conds, match disconnected with
    | [] => Ok (p1, [])
    | _ => let? r := on_reorg_reinject p1 disconnected now lookup in let '(p, _, _, conds) := r in Ok (p, conds)
    end = Ok (q, conds : list Condition) /\ pool_ok anywhere q /\ mp_params q = mp_params p).
  { destruct disconnected as [|d ds]; [by exists p1, []|]. unfold on_reorg_reinject. cbv zeta. set (raws := concat _).
    destruct (reinject_spec anywhere lookup now raws p1 0 0 [] Ok1) as (q & t & dr & obs & -> & Okq & Pq & _).
    - unfold raws. rewrite (merge_sort_Permutation newest_first). revert Hb. generalize (d :: ds). clear. induction 1 as [|b l Hb _ IH]; cbn; [constructor|by apply Forall_app].
    - intros s. split; [done|]. rewrite Pp. apply Ha.
    - lia.
    - lia.
    - cbn [obind]. eexists _, _. split_and!; [done..|congruence]. }
  destruct Re as (q & conds & -> & Okq & Pq). cbn [obind].
  destruct (resplit_all_spec anywhere q account Okq) as (z & -> & Okz & Pmz & Pz). exists z, conds. cbn [obind].
  split_and!; [done|done|congruence|]. intros s n P. by apply Pz.
Qed.
