(* ===== verification/MempoolProps.v ===== *)
(** What the mempool promises its callers: submissions are safe whatever arrives,
    blocks take out exactly what they confirm or make stale, templates can be mined as
    they stand; and two behaviours the code has beside its intent. *)

From Stdlib Require Import ZArith Lia List.
From stdpp Require Import base list gmap sets numbers sorting.
From S2P Require Import Prelude Constants Work Rules Codec Crypto TxRules ChainTypes Mempool MempoolInv.
Open Scope Z_scope.

(** ** Templates *)
(** Taken in this order, every transaction carries the nonce its sender has reached. *)
Fixpoint nonces_follow (next : Address -> Z) (l : list PoolTx) : Prop :=
  match l with
  | [] => True
  | t :: l => pt_nonce t = next (pt_sender t) /\
              nonces_follow (fun s => if decide (s = pt_sender t) then next s + 1 else next s) l
  end.
Lemma follow_ext l : forall f g, (forall t, t ∈ l -> f (pt_sender t) = g (pt_sender t)) -> nonces_follow f l -> nonces_follow g l.
Proof.
  induction l as [|t l IH]; intros f g E; cbn; [done|]. intros [N F]. split; [rewrite N; apply E, list_elem_of_here|].
  eapply IH; [|exact F]. intros u U. cbn. rewrite (E u) by (by apply list_elem_of_further). done.
Qed.
Lemma follow_take k : forall l f, nonces_follow f l -> nonces_follow f (take k l).
Proof. induction k as [|k IH]; intros [|t l] f; cbn; try done. intros [N F]. split; [done|by apply IH]. Qed.

(** A run of one sender's nonces, then transactions of other senders. *)
Lemma follow_chain s c rest : forall f, (forall t, t ∈ c -> pt_sender t = s) -> (forall t, t ∈ rest -> pt_sender t <> s) ->
  pt_nonce <$> c = zrange (f s) (f s + Zlen c) -> nonces_follow f rest -> nonces_follow f (c ++ rest).
Proof.
  induction c as [|t c IH]; intros f Hc Hr N F; [done|]. rewrite Zlen_cons in N. pose proof (Zlen_nonneg c).
  rewrite zrange_cons in N by lia. cbn in N. injection N as N0 N. cbn [app nonces_follow].
  assert (E : pt_sender t = s) by (apply Hc, list_elem_of_here). rewrite E. split; [done|]. apply IH.
  - intros u U. by apply Hc, list_elem_of_further.
  - done.
  - rewrite decide_True by done. rewrite N. f_equal. lia.
  - eapply follow_ext; [|exact F]. intros u U. cbn. by rewrite decide_False by (by apply Hr).
Qed.

(** A strictly increasing list that is closed downwards from [a] is the range from [a]. *)
Lemma closed_is_range l : forall a, StronglySorted Z.lt l -> (forall x, x ∈ l -> a <= x /\ forall k, a <= k <= x -> k ∈ l) ->
  l = zrange a (a + Zlen l).
Proof.
  induction l as [|x l IH]; intros a S C; [by rewrite zrange_nil by (unfold Zlen; cbn; lia)|].
  apply StronglySorted_inv in S as [S F]. rewrite Forall_forall in F.
  destruct (C x (list_elem_of_here _ _)) as [Ax Cx].
  assert (x = a) as ->.
  { destruct (proj1 (elem_of_cons _ _ _) (Cx a ltac:(lia))) as [|Q]; [done|]. pose proof (F _ Q). lia. }
  rewrite Zlen_cons. pose proof (Zlen_nonneg l). rewrite zrange_cons by lia. f_equal.
  rewrite (IH (a + 1)) at 1; [f_equal; lia|done|]. intros y Y. pose proof (F _ Y).
  split; [lia|]. intros k K. destruct (C y ltac:(by apply list_elem_of_further)) as [_ Cy].
  destruct (proj1 (elem_of_cons _ _ _) (Cy k ltac:(lia))) as [->|Q]; [lia|done].
Qed.

#[export] Instance nonce_le_total : Total nonce_le.
Proof. intros a b. unfold nonce_le. lia. Qed.
#[export] Instance nonce_le_trans : Transitive nonce_le.
Proof. intros a b c. unfold nonce_le. lia. Qed.

Section Template.
Context (acct : Address -> Z) (p : Mempool) (Inv : pool_inv (exactly acct) p).

Lemma exec_chain_elem s t : t ∈ exec_chain p s <-> mp_txs p !! pt_txid t = Some t /\ pt_executable t = true /\ pt_sender t = s.
Proof.
  unfold exec_chain. rewrite (merge_sort_Permutation nonce_le), list_elem_of_filter, pool_values_elem by apply Inv. tauto.
Qed.
Lemma exec_chain_nodup s : NoDup (exec_chain p s).
Proof.
  unfold exec_chain. rewrite (merge_sort_Permutation nonce_le). apply list.NoDup_filter, pool_values_nodup, Inv.
Qed.
Lemma exec_chain_sorted s : StronglySorted Z.lt (pt_nonce <$> exec_chain p s).
Proof.
  pose proof (StronglySorted_merge_sort nonce_le (filter (fun t => pt_executable t = true /\ pt_sender t = s) (pool_values p))) as S.
  fold (exec_chain p s) in S. pose proof (exec_chain_nodup s) as N. pose proof (fun t => proj1 (exec_chain_elem s t)) as M.
  induction S as [|t l S IH F]; cbn; [constructor|]. apply list.NoDup_cons in N as [Nt N].
  constructor; [apply IH; [done|]; intros u U; by apply M, list_elem_of_further|].
  apply Forall_forall. intros n [u [-> U]]%list_elem_of_fmap. rewrite Forall_forall in F. pose proof (F _ U) as L. unfold nonce_le in L.
  destruct (M t (list_elem_of_here _ _)) as (T & _ & Ts). destruct (M u ltac:(by apply list_elem_of_further)) as (T' & _ & Ts').
  assert (pt_nonce t <> pt_nonce u); [|lia]. intros E. apply Nt.
  assert (I : pt_txid t = pt_txid u) by (eapply core_position; [apply Inv|done|done|congruence|done]).
  assert (t = u) as -> by congruence. done.
Qed.
Lemma exec_chain_range s : pt_nonce <$> exec_chain p s = zrange (acct s) (acct s + Zlen (exec_chain p s)).
Proof.
  rewrite <- (Zlen_fmap pt_nonce). apply closed_is_range; [apply exec_chain_sorted|].
  intros x [t [-> (T & X & Hs)%exec_chain_elem]]%list_elem_of_fmap. pose proof (pi_core _ _ Inv) as C.
  destruct (pc_txs _ C _ _ T) as (_ & I & _). rewrite Hs in I. destruct (so_run _ _ _ (pi_sender _ _ Inv s) _ (mk_is_Some _ _ I)) as (a & -> & Run).
  destruct (proj1 (Run _ _ _ I T) X) as [A B]. split; [done|]. intros k K.
  destruct (B k K) as [id J]. destruct (pc_idx _ C _ _ _ J) as (u & U & Us & Un). apply list_elem_of_fmap. exists u. split; [done|].
  apply exec_chain_elem. destruct (pc_txs _ C _ _ U) as (Hid & _ & _). rewrite Hid. split_and!; [done| |done].
  apply (Run k id u J U). split; [lia|]. intros j Hj. apply B. lia.
Qed.

Lemma chains_sender l t : t ∈ concat (exec_chain p <$> l) -> pt_sender t ∈ l.
Proof.
  intros T. apply list_elem_of_In, in_concat in T as (c & Hc & T). apply list_elem_of_In in Hc, T.
  apply list_elem_of_fmap in Hc as (s' & -> & Q). apply exec_chain_elem in T as (_ & _ & E'). congruence.
Qed.
Lemma chains_nodup l : NoDup l -> NoDup (concat (exec_chain p <$> l)).
Proof.
  induction 1 as [|s l Ns N IH]; cbn [fmap list_fmap concat]; [constructor|]. apply list.NoDup_app.
  split_and!; [apply exec_chain_nodup| |done]. intros t (_ & _ & E)%exec_chain_elem T%chains_sender. congruence.
Qed.
Lemma chains_follow l : NoDup l -> nonces_follow acct (concat (exec_chain p <$> l)).
Proof.
  induction l as [|s l IH]; intros N; [done|]. apply list.NoDup_cons in N as [Ns N]. cbn [fmap list_fmap concat].
  apply (follow_chain s); [|..|by apply IH].
  - intros t (_ & _ & E)%exec_chain_elem. done.
  - intros t T E. apply Ns. apply chains_sender in T. congruence.
  - apply exec_chain_range.
Qed.

Lemma template_take_spec mt mb ts : forall out used, used = vsum w_bytes out ->
  exists k, template_take mt mb ts out used = out ++ take k ts /\
    (Zlen out <= mt -> Zlen (template_take mt mb ts out used) <= mt) /\
    (used <= mb -> vsum w_bytes (template_take mt mb ts out used) <= mb).
Proof.
  induction ts as [|t ts IH]; intros out used E; cbn [template_take].
  { exists 0%nat. rewrite app_nil_r. split_and!; [done|done|]. by rewrite <- E. }
  destruct ((mt <=? Zlen out) || (mb <? used + Zlen (pt_bytes t))) eqn:G.
  { exists 0%nat. cbn. rewrite app_nil_r. split_and!; [done|done|]. by rewrite <- E. }
  to_prop. destruct (IH (out ++ [t]) (used + Zlen (pt_bytes t))) as (k & -> & A & B).
  { rewrite vsum_app, E. unfold vsum at 3, w_bytes. cbn. lia. }
  exists (S k). cbn. rewrite <- app_assoc. split_and!; [done| |].
  - intros _. rewrite <- app_assoc in A. apply A. rewrite Zlen_app. unfold Zlen at 2. cbn. lia.
  - intros _. rewrite <- app_assoc in B. apply B. done.
Qed.
Lemma template_chains_perm : exists l, template_chains p = exec_chain p <$> l /\ l ≡ₚ exec_senders p.
Proof.
  destruct (Permutation_map_inv (exec_chain p) (exec_senders p) (merge_sort_Permutation chain_before (exec_chain p <$> exec_senders p)))
    as (l & E & P). by exists l.
Qed.
Lemma template_elem t : t ∈ concat (template_chains p) <-> mp_txs p !! pt_txid t = Some t /\ pt_executable t = true.
Proof.
  destruct template_chains_perm as (l & -> & Pm). rewrite list_elem_of_In, in_concat. split.
  - intros (c & Hc & T). apply list_elem_of_In in Hc, T. apply list_elem_of_fmap in Hc as (s & -> & _).
    apply exec_chain_elem in T as (? & ? & _). done.
  - intros [T X]. exists (exec_chain p (pt_sender t)). split; apply list_elem_of_In; [|by apply exec_chain_elem].
    apply list_elem_of_fmap_2. rewrite Pm. unfold exec_senders. apply elem_of_remove_dups, list_elem_of_fmap_2, list_elem_of_filter.
    split; [done|]. apply pool_values_elem; [apply Inv|done].
Qed.
Lemma template_fits : Zlen (concat (template_chains p)) <= mp_len p /\ vsum w_bytes (concat (template_chains p)) <= mp_total_bytes p.
Proof.
  pose proof (pi_core _ _ Inv) as C.
  assert (Q : concat (template_chains p) ≡ₚ filter (fun t => pt_executable t = true) (pool_values p)).
  { apply NoDup_Permutation.
    - destruct template_chains_perm as (l & -> & Pm). apply chains_nodup. rewrite Pm. apply NoDup_remove_dups.
    - by apply list.NoDup_filter, pool_values_nodup.
    - intros t. rewrite template_elem, list_elem_of_filter, pool_values_elem by done. tauto. }
  rewrite (vsum_perm _ _ _ Q), (pc_bytes _ C), wsum_values. change (foldr _ 0 ?l) with (vsum w_bytes l). fold (pool_values p).
  unfold Zlen at 1, mp_len. rewrite (Permutation_length Q), <- length_map_to_list, <- (length_fmap snd). fold (pool_values p).
  split; [pose proof (length_filter (fun t => pt_executable t = true) (pool_values p)); lia|].
  clear Q. induction (pool_values p) as [|t l IH]; [done|]. rewrite filter_cons. change (vsum ?w (t :: l)) with (w t + vsum w l).
  pose proof (weight_nonneg (w := w_bytes) t). case_decide; [|lia]. change (vsum ?w (t :: ?l)) with (w t + vsum w l). lia.
Qed.
Lemma template_take_all mt mb ts : forall out used, Zlen out + Zlen ts <= mt -> used + vsum w_bytes ts <= mb ->
  template_take mt mb ts out used = out ++ ts.
Proof.
  induction ts as [|t ts IH]; intros out used A B; cbn [template_take]; [by rewrite app_nil_r|].
  rewrite Zlen_cons in A. change (vsum w_bytes (t :: ts)) with (Zlen (pt_bytes t) + vsum w_bytes ts) in B.
  pose proof (vsum_nonneg w_bytes ts). pose proof (Zlen_nonneg ts).
  rewrite (proj2 (Z.leb_gt _ _)), (proj2 (Z.ltb_ge _ _)) by lia. cbn [orb].
  rewrite IH; [by rewrite <- app_assoc| |lia]. rewrite Zlen_app. unfold Zlen at 2. cbn. lia.
Qed.
End Template.

(** C29. Templates. For a pool in order with respect to the account nonces, and any limits,
    the block template keeps within the transaction and byte limits, holds pooled executable
    transactions only, and in the order given every transaction carries exactly the nonce its
    sender has reached, so none is refused for its nonce; and with limits that hold the whole
    pool every executable transaction is in it. *)
Theorem template_is_minable (acct : Address -> Z) (p : Mempool) (mt mb : Z) :
  pool_ok (exactly acct) p -> 0 <= mt -> 0 <= mb ->
  let l := template_txs p mt mb in
  template p mt mb = pt_bytes <$> l /\ Zlen l <= mt /\ vsum w_bytes l <= mb /\
  (forall t, t ∈ l -> mp_txs p !! pt_txid t = Some t /\ pt_executable t = true) /\ nonces_follow acct l /\
  (mp_len p <= mt -> mp_total_bytes p <= mb -> forall t, mp_txs p !! pt_txid t = Some t -> pt_executable t = true -> t ∈ l).
Proof.
  intros [Inv _ _] Hm Hb l. unfold l, template_txs.
  destruct (template_take_spec mt mb (concat (template_chains p)) [] 0 eq_refl) as (k & E & A & B).
  split_and!; [done|by apply A|by apply B|..].
  - rewrite E. intros t T. apply (template_elem acct p Inv). by eapply elem_of_take in T as (i & ? & _); eapply list_elem_of_lookup_2.
  - rewrite E. apply follow_take. destruct (template_chains_perm p) as (ss & -> & Pm). apply chains_follow; [done|].
    rewrite Pm. apply NoDup_remove_dups.
  - intros Hl Hs t T X. destruct (template_fits acct p Inv). rewrite template_take_all; [|unfold Zlen at 1; cbn; lia|lia].
    by apply (template_elem acct p Inv).
Qed.


(** Blocks. Connecting a block to a pool in order for the nonces before it gives a pool in
    order for the nonces after it, when only spenders' nonces changed. What is left is every
    position the block did not spend and did not make stale, and nothing else. *)
Theorem block_removes_what_it_spends (acct : Address -> Z) (p : Mempool) (spent : list (Address * Z)) (account : Address -> Account) :
  pool_ok (exactly acct) p -> (forall s, s ∉ (fst <$> spent) -> acct s = nonce_of account s) ->
  exists q k, on_block_connected p spent account = Ok (q, k) /\ pool_ok (exactly (nonce_of account)) q /\
    (forall s n, pooled q s n <->
       pooled p s n /\ ((s, n) ∉ spent) /\ (s ∈ (fst <$> spent) -> nonce_of account s <= n)).
Proof.
  intros Hok Same. destruct (on_block_connected_spec (exactly acct) (exactly (nonce_of account)) p spent account Hok)
    as (q & k & E & Okq & _ & P); [|done|by exists q, k].
  intros s a Ns ->. by apply Same.
Qed.

(** Reorganisations. Updating the pool after a branch was adopted (confirm what it spends, offer
    the transactions of the disconnected blocks back newest block first, split every sender
    again) returns whatever the nonces were before, and leaves a pool in order for the
    account nonces of the new tip, with nothing stale in it. *)
Theorem adoption_updates_pool `{Ed25519} (acct : Address -> Z) (p : Mempool) (spent : list (Address * Z))
    (disconnected : list (Z * list bytes)) (account : Address -> Account) (spendable : Address -> Z -> Z) (now : Z) :
  pool_ok (exactly acct) p -> Forall (fun b => Forall bytes_ok (snd b)) disconnected ->
  (forall s, account_ok (mp_params p) (account s) (spendable s (acc_balance (account s)))) ->
  exists q conds, update_mempool p spent disconnected account spendable now = Ok (q, conds) /\
    pool_ok (exactly (nonce_of account)) q /\ (forall s n, pooled q s n -> nonce_of account s <= n).
Proof.
  intros Hok Hb Ha. destruct (update_mempool_spec (exactly acct) p spent disconnected account spendable now Hok Hb Ha)
    as (q & conds & E & Okq & _ & Stale). by exists q, conds.
Qed.

(** ** A sample pool *)
Definition pool_transfer (k nonce fee : Z) : bytes :=
  TransferTx_encode (MkTransferTx (replicate 32 k) (replicate 20 170) 5 fee nonce (replicate 64 0)).
Definition rich : Account := MkAccount (10 ^ 12) 0.
Definition rich_lookup (s : Address) : Account * Z := (rich, 10 ^ 12).
Definition fed (p : Mempool) (raw : bytes) : Mempool :=
  match mp_submit p raw rich (10 ^ 12) 100 from_validated_block with Ok (q, _, _) => q | _ => p end.
Definition sample_pool : Mempool :=
  fed (fed (fed (Mempool_new MempoolParams_default) (pool_transfer 7 1 2000000)) (pool_transfer 7 0 3000000)) (pool_transfer 7 5 4000000).

Lemma default_params_ok : params_ok MempoolParams_default.
Proof. split; vm_compute; split || idtac; congruence. Qed.
Lemma fed_ok p raw : pool_ok (exactly (fun _ => 0)) p -> account_ok (mp_params p) rich (10 ^ 12) -> bytes_ok raw ->
  pool_ok (exactly (fun _ => 0)) (fed p raw) /\ mp_params (fed p raw) = mp_params p.
Proof.
  intros Hok Ha Hb. unfold fed.
  destruct (pool_submit_spec (exactly (fun _ => 0)) p raw rich (10 ^ 12) 100 from_validated_block Hok Hb Ha) as (q & obs & v & -> & Okq & Pq & _); done.
Qed.
Lemma rich_ok : account_ok MempoolParams_default rich (10 ^ 12).
Proof. unfold account_ok. vm_compute. repeat split; congruence. Qed.
Lemma sample_pool_ok : pool_ok (exactly (fun _ => 0)) sample_pool /\ mp_params sample_pool = MempoolParams_default.
Proof.
  assert (G : forall p raw, pool_ok (exactly (fun _ => 0)) p /\ mp_params p = MempoolParams_default -> bytes_ok raw ->
    pool_ok (exactly (fun _ => 0)) (fed p raw) /\ mp_params (fed p raw) = MempoolParams_default).
  { intros p raw [Hok Hp] Hb. destruct (fed_ok p raw Hok) as [A B]; [rewrite Hp; apply rich_ok|done|]. split; [done|congruence]. }
  unfold sample_pool. do 3 (apply G; [|solve_bytes_ok]). split; [apply pool_ok_new, default_params_ok|done].
Qed.

Lemma template_is_minable_witness :
  pool_ok (exactly (fun _ => 0)) sample_pool /\ nonces_follow (fun _ => 0) (template_txs sample_pool 10 1000) /\
  (pt_nonce <$> template_txs sample_pool 10 1000) = [0; 1].
Proof.
  pose proof (proj1 sample_pool_ok) as Hok. split; [exact Hok|]. split; [|vm_compute; reflexivity].
  exact (proj1 (proj2 (proj2 (proj2 (proj2 (template_is_minable (fun _ => 0) sample_pool 10 1000 Hok ltac:(lia) ltac:(lia))))))).
Defined.

Definition zero_signature : Ed25519 :=
  {| VerifyingKey := bytes; vk_from_bytes := Some; verify_strict := fun _ _ sig => bytes_eqb sig (replicate 64 0) |}.
Lemma rich_lookup_ok : lookup_ok (exactly (fun _ => 0)) MempoolParams_default rich_lookup.
Proof. intros s. split; [done|apply rich_ok]. Qed.


Definition sample_sender : Address := address_payload (replicate 32 7).
Definition after_block (s : Address) : Account := if decide (s = sample_sender) then MkAccount 5 1 else MkAccount 5 0.
Lemma block_removes_what_it_spends_witness : exists q k,
  on_block_connected sample_pool [(sample_sender, 0)] after_block = Ok (q, k) /\ pool_ok (exactly (nonce_of after_block)) q /\ mp_len q = 2.
Proof.
  destruct sample_pool_ok as [Hok _].
  destruct (block_removes_what_it_spends (fun _ => 0) sample_pool [(sample_sender, 0)] after_block Hok) as (q & k & E & Okq & _).
  { intros s Ns. unfold nonce_of, after_block. rewrite decide_False; [reflexivity|]. intros ->. apply Ns. apply list_elem_of_here. }
  exists q, k. split; [exact E|]. split; [exact Okq|].
  assert (A : match on_block_connected sample_pool [(sample_sender, 0)] after_block with Ok (q, _) => mp_len q | _ => 0 end = 2) by (vm_compute; reflexivity).
  rewrite E in A. exact A.
Defined.

Lemma adoption_updates_pool_witness : exists q conds,
  update_mempool sample_pool [(sample_sender, 0)] [(3, [pool_transfer 9 0 2000000]); (4, [pool_transfer 9 1 2000000; [1]])]
    after_block (fun _ _ => 10 ^ 12) 200 = Ok (q, conds) /\ pool_ok (exactly (nonce_of after_block)) q /\ mp_len q = 4.
Proof.
  destruct sample_pool_ok as [Hok Hp].
  destruct (adoption_updates_pool (H := zero_signature) (fun _ => 0) sample_pool [(sample_sender, 0)]
    [(3, [pool_transfer 9 0 2000000]); (4, [pool_transfer 9 1 2000000; [1]])] after_block (fun _ _ => 10 ^ 12) 200 Hok) as (q & conds & E & Okq & _).
  - constructor; [cbn [snd]; constructor; [solve_bytes_ok|constructor]|].
    constructor; [cbn [snd]; constructor; [solve_bytes_ok|constructor; [solve_bytes_ok|constructor]]|constructor].
  - intros s. rewrite Hp. unfold account_ok, after_block. case_decide; vm_compute; repeat split; congruence.
  - exists q, conds. split; [exact E|]. split; [exact Okq|].
    assert (A : match update_mempool sample_pool [(sample_sender, 0)] [(3, [pool_transfer 9 0 2000000]); (4, [pool_transfer 9 1 2000000; [1]])]
                  after_block (fun _ _ => 10 ^ 12) 200 with Ok (q, _) => mp_len q | _ => 0 end = 4) by (vm_compute; reflexivity).
    rewrite E in A. exact A.
Defined.

(** ** Beside the intent *)
(** A confirmed spender is recorded whether or not it has anything pooled, and the record
    outlives the block: on an empty pool every distinct spender leaves one entry behind. *)
Lemma resettle_empty account p s : mp_by_sender p = ∅ ->
  resettle account p s = Ok (with_next p (<[s := acc_nonce (account s)]> (mp_next_nonce p))).
Proof.
  intros E. unfold resettle. set (p0 := with_next p _). assert (E0 : mp_by_sender p0 !! s = None) by (unfold p0; cbn; by rewrite E, lookup_empty).
  unfold drop_below_nonce, sender_map. rewrite E0. change (remove_all p0 _) with (@Ok Reject _ p0). cbn [obind].
  unfold resplit. by rewrite E0.
Qed.
Theorem empty_pool_remembers_spenders (params : MempoolParams) (spent : list (Address * Z)) (account : Address -> Account) :
  exists q, on_block_connected (Mempool_new params) spent account = Ok (q, 0) /\ mp_len q = 0 /\
    (forall s, is_Some (mp_next_nonce q !! s) <-> s ∈ (fst <$> spent)).
Proof.
  unfold on_block_connected.
  assert (A : ofold confirm_step (Mempool_new params, 0) spent = Ok (Mempool_new params, 0)).
  { induction spent as [|e l IH]; [done|]. cbn [ofold confirm_step]. unfold sender_map. cbn [mp_by_sender Mempool_new]. by rewrite lookup_empty. }
  rewrite A. cbn [obind]. setoid_rewrite <- (sorted_senders_elem (fst <$> spent)). generalize (sorted_senders (fst <$> spent)). intros l.
  assert (G : forall p, mp_by_sender p = ∅ -> mp_txs p = ∅ -> exists q, ofold (resettle account) p l = Ok q /\ mp_txs q = ∅ /\
    forall s, is_Some (mp_next_nonce q !! s) <-> s ∈ l \/ is_Some (mp_next_nonce p !! s)).
  { induction l as [|s l IH]; intros p B T.
    - exists p. split_and!; [done..|]. intros s. rewrite elem_of_nil. tauto.
    - cbn [ofold]. rewrite resettle_empty by done. cbn [obind].
      destruct (IH (with_next p (<[s := acc_nonce (account s)]> (mp_next_nonce p))) B T) as (q & -> & Tq & Nq). exists q.
      split_and!; [done..|]. intros s'. rewrite Nq, elem_of_cons. cbn. destruct (decide (s' = s)) as [->|Ne].
      + rewrite lookup_insert_eq. split; [tauto|intros _; right; by eexists].
      + rewrite lookup_insert_ne by done. tauto. }
  destruct (G (Mempool_new params) eq_refl eq_refl) as (q & -> & T & N). exists q. cbn [obind]. split_and!; [done| |].
  - unfold mp_len. by rewrite T.
  - intros s. rewrite N. cbn. rewrite lookup_empty. split; [intros [?|[? ?]]; done|by left].
Qed.

(** A submission that is refused for lack of room has already evicted: the pool holds a cheap
    transfer and a dear one; a larger announcement outbids the first, evicts it, does not outbid the second, and is refused. *)
Definition tight_params : MempoolParams := MkMempoolParams 10 320 64 64 1000 1 100 2000 4096.
Definition tight_pool : Mempool :=
  fed (fed (Mempool_new tight_params) (pool_transfer 7 0 2000000)) (pool_transfer 8 0 900000000).
Definition big_announcement : bytes :=
  match AnnouncementTx_encode (MkAnnouncementTx (replicate 32 9) 20000000 0 0 (replicate 100 65) (replicate 64 0)) with Ok b => b | _ => [] end.
Theorem refused_submission_evicts : exists q obs,
  mp_submit tight_pool big_announcement rich (10 ^ 12) 100 from_validated_block = Ok (q, obs, inl PoolFull) /\
  mp_len tight_pool = 2 /\ mp_len q = 1.
Proof.
  assert (A : match mp_submit tight_pool big_announcement rich (10 ^ 12) 100 from_validated_block with
              | Ok (q, _, inl PoolFull) => mp_len q | _ => 0 end = 1) by (vm_compute; reflexivity).
  destruct (mp_submit tight_pool big_announcement rich (10 ^ 12) 100 from_validated_block) as [[[q obs] [[]|]]|e|]; try discriminate A.
  exists q, obs. split; [reflexivity|]. split; [vm_compute; reflexivity|exact A].
Qed.
