(* ===== verification/TxIngress.v ===== *)
(** Transaction ingress (the second part of src/lib/chain/src/mempool.rs): the
    buckets a relayed transaction is charged to before anything is decoded. Tokens
    are thousandths of a transaction, times are milliseconds. At the cap of the table
    the code evicts the first full source in the order of its hash map, so the
    model takes that order as an argument and the theorems hold for every order. *)

From Stdlib Require Import ZArith Lia List.
From stdpp Require Import base list gmap sets numbers.
From S2P Require Import Prelude Constants Work Rules ChainTypes Budget.
Open Scope Z_scope.

Record IngressSource := MkIngressSource {
  is_own : Z;
  is_own_last_ms : Z;
  is_reserve : Z;
  is_reserve_last_ms : Z;
  is_primed : bool;
}.
Definition IngressSource_default : IngressSource := MkIngressSource 0 0 0 0 false.
Record Ingress := MkIngress {
  in_sources : gmap SourceId IngressSource;
  in_shared : Z;
  in_shared_last_ms : Z;
  in_primed : bool;
}.
Definition Ingress_new : Ingress := MkIngress ∅ 0 0 false.
Definition ingress_source_count (ig : Ingress) : Z := Z.of_nat (size (in_sources ig)).
Definition ingress_forget (ig : Ingress) (source : SourceId) : Ingress :=
  MkIngress (delete source (in_sources ig)) (in_shared ig) (in_shared_last_ms ig) (in_primed ig).

Definition ingress_bucket (tokens last now rate burst : Z) : Z * Z :=
  let elapsed := saturating_sub now last in
  let refill := saturating_mul 64 elapsed rate / 1000 in
  if 0 <? refill then (Z.min (saturating_add 64 tokens refill) burst, now) else (tokens, last).

Definition IngressSource_refill (s : IngressSource) (params : ChainParams) (mono_ms : Z) : IngressSource :=
  let mp := mempool params in
  if negb (is_primed s) then
    MkIngressSource (ingress_source_burst_milli mp) mono_ms (ingress_reserve_burst_milli mp) mono_ms true
  else
    let '(own, own_last) := ingress_bucket (is_own s) (is_own_last_ms s) mono_ms
                              (ingress_source_rate_milli mp) (ingress_source_burst_milli mp) in
    let '(reserve, reserve_last) := ingress_bucket (is_reserve s) (is_reserve_last_ms s) mono_ms
                              (ingress_reserve_rate_milli mp (max_peers params)) (ingress_reserve_burst_milli mp) in
    MkIngressSource own own_last reserve reserve_last true.

Definition ingress_refill_shared (ig : Ingress) (params : ChainParams) (mono_ms : Z) : Ingress :=
  let mp := mempool params in
  if negb (in_primed ig) then MkIngress (in_sources ig) (ingress_shared_burst_milli mp) mono_ms true
  else
    let '(t, l) := ingress_bucket (in_shared ig) (in_shared_last_ms ig) mono_ms
                     (ingress_shared_rate_milli mp) (ingress_shared_burst_milli mp) in
    MkIngress (in_sources ig) t l true.

Definition source_full (params : ChainParams) (s : IngressSource) : bool :=
  (ingress_source_burst_milli (mempool params) <=? is_own s) && (ingress_reserve_burst_milli (mempool params) <=? is_reserve s).
(** [order] lists the keys as the hash map is walked. *)
Definition ingress_victim (order : list SourceId) (params : ChainParams) (sources : gmap SourceId IngressSource) : option SourceId :=
  head (filter (fun id => from_option (source_full params) false (sources !! id) = true) order).

(** The last part: charge the source's own bucket and the shared pool, or else its reserve. *)
Definition ingress_charge (ig : Ingress) (source : SourceId) (params : ChainParams) (mono_ms : Z) : Ingress * outcome Reject unit :=
  let st := IngressSource_refill (default IngressSource_default (in_sources ig !! source)) params mono_ms in
  let put st shared := MkIngress (<[source := st]> (in_sources ig)) shared (in_shared_last_ms ig) (in_primed ig) in
  if is_own st <? TX_COST_MILLI then (put st (in_shared ig), Err (BudgetExhausted source))
  else if TX_COST_MILLI <=? in_shared ig then
    (put (MkIngressSource (is_own st - TX_COST_MILLI) (is_own_last_ms st) (is_reserve st) (is_reserve_last_ms st) (is_primed st))
       (in_shared ig - TX_COST_MILLI), Ok tt)
  else if TX_COST_MILLI <=? is_reserve st then
    (put (MkIngressSource (is_own st - TX_COST_MILLI) (is_own_last_ms st) (is_reserve st - TX_COST_MILLI) (is_reserve_last_ms st) (is_primed st))
       (in_shared ig), Ok tt)
  else (put st (in_shared ig), Err (BudgetExhausted source)).

Definition ingress_admit (order : list SourceId) (ig : Ingress) (source : SourceId) (params : ChainParams) (mono_ms : Z)
    : Ingress * outcome Reject unit :=
  let ig := ingress_refill_shared ig params mono_ms in
  if bool_decide (in_sources ig !! source = None) && (max_sources params <=? ingress_source_count ig) then
    let sources := (fun s => IngressSource_refill s params mono_ms) <$> in_sources ig in
    match ingress_victim order params sources with
    | Some id =>
      ingress_charge (MkIngress (delete id sources) (in_shared ig) (in_shared_last_ms ig) (in_primed ig)) source params mono_ms
    | None => (MkIngress sources (in_shared ig) (in_shared_last_ms ig) (in_primed ig), Err (TooManySources source (max_sources params)))
    end
  else ingress_charge ig source params mono_ms.

Definition tx_ingress_exhausted (source : SourceId) : Condition := CBudgetExhausted source TxIngress.

(** ** The buckets bound what comes in *)
Lemma ingress_bucket_refill tokens last now rate burst :
  ingress_bucket tokens last now rate burst = refill_bucket tokens last now rate 1000 burst.
Proof.
  unfold ingress_bucket, refill_bucket. destruct (Z.ltb_spec 0 (saturating_sub now last)) as [|L]; [done|].
  assert (saturating_sub now last = 0) as -> by (unfold saturating_sub in *; lia). unfold saturating_mul. by rewrite Z.mul_0_l.
Qed.

Section Run.
Context (params : ChainParams) (t0 : Z) (keep : SourceId).
Hypothesis Hsource : 0 <= ingress_per_source (mempool params).
Hypothesis Hglobal : 0 <= ingress_global (mempool params).

Abbreviation mp := (mempool params).
Abbreviation reserve_rate := (ingress_reserve_rate_milli mp (max_peers params)).
Abbreviation own_ok := (bucket_ok (ingress_source_rate_milli mp) 1000 (ingress_source_burst_milli mp) t0).
Abbreviation reserve_ok := (bucket_ok reserve_rate 1000 (ingress_reserve_burst_milli mp) t0).
Abbreviation shared_ok := (bucket_ok (ingress_shared_rate_milli mp) 1000 (ingress_shared_burst_milli mp) t0).

(** The table, the time, and what was taken: by [keep] from its own bucket and from
    its reserve, by all from the shared pool. *)
Record irun := MkIRun {
  ir_ig : Ingress;
  ir_now : Z;
  ir_own : Z;
  ir_reserve : Z;
  ir_shared : Z;
}.
Definition irun_start : irun := MkIRun Ingress_new t0 0 0 0.
Definition took (source : SourceId) (n : Z) : Z := if decide (source = keep) then n else 0.
(** A later clock, an admission attempt by any source, a disconnection of another source. *)
Inductive istep (r : irun) : irun -> Prop :=
| is_step_tick now : ir_now r <= now -> istep r (MkIRun (ir_ig r) now (ir_own r) (ir_reserve r) (ir_shared r))
| is_step_forget source : source <> keep ->
    istep r (MkIRun (ingress_forget (ir_ig r) source) (ir_now r) (ir_own r) (ir_reserve r) (ir_shared r))
| is_step_refuse order source ig e : ingress_admit order (ir_ig r) source params (ir_now r) = (ig, Err e) ->
    istep r (MkIRun ig (ir_now r) (ir_own r) (ir_reserve r) (ir_shared r))
| is_step_admit order source ig : ingress_admit order (ir_ig r) source params (ir_now r) = (ig, Ok tt) ->
    istep r (MkIRun ig (ir_now r) (ir_own r + took source TX_COST_MILLI)
      (ir_reserve r + if TX_COST_MILLI <=? in_shared (ingress_refill_shared (ir_ig r) params (ir_now r)) then 0 else took source TX_COST_MILLI)
      (ir_shared r + if TX_COST_MILLI <=? in_shared (ingress_refill_shared (ir_ig r) params (ir_now r)) then TX_COST_MILLI else 0)).

Lemma own_rate_nonneg : 0 <= ingress_source_rate_milli mp.
Proof. unfold ingress_source_rate_milli, saturating_mul, TX_COST_MILLI. assert (0 <= umax 64) by done. lia. Qed.
Lemma ishared_rate_nonneg : 0 <= ingress_shared_rate_milli mp.
Proof.
  unfold ingress_shared_rate_milli, saturating_mul, TX_COST_MILLI. apply Z.div_pos; [|done]. assert (0 <= umax 64) by done. lia.
Qed.
Lemma ireserve_rate_nonneg : 0 <= reserve_rate.
Proof. unfold ingress_reserve_rate_milli. apply Z.div_pos; [apply ishared_rate_nonneg|lia]. Qed.

Definition slot_ok (now own reserve : Z) (o : option IngressSource) : Prop :=
  match o with
  | Some s => is_primed s = true /\ own_ok now (is_own s) (is_own_last_ms s) own /\ reserve_ok now (is_reserve s) (is_reserve_last_ms s) reserve
  | None => 1000 * own <= ingress_source_rate_milli mp * (now - t0) /\ 1000 * reserve <= reserve_rate * (now - t0)
  end.
Record irun_ok (r : irun) : Prop := {
  io_time : t0 <= ir_now r;
  io_keep : slot_ok (ir_now r) (ir_own r) (ir_reserve r) (in_sources (ir_ig r) !! keep);
  io_shared : if in_primed (ir_ig r) then shared_ok (ir_now r) (in_shared (ir_ig r)) (in_shared_last_ms (ir_ig r)) (ir_shared r)
              else ir_shared r = 0;
}.

Lemma slot_tick now now' own reserve o : now <= now' -> slot_ok now own reserve o -> slot_ok now' own reserve o.
Proof.
  intros L. pose proof own_rate_nonneg. pose proof ireserve_rate_nonneg. destruct o as [s|]; cbn.
  - intros (P & A & B). split_and!; [done|by eapply bucket_tick..].
  - intros [A B]. split; nia.
Qed.
Lemma slot_refill now own reserve s : slot_ok now own reserve (Some s) -> slot_ok now own reserve (Some (IngressSource_refill s params now)).
Proof.
  intros (P & A & B). unfold IngressSource_refill. rewrite P. cbn [negb]. rewrite !ingress_bucket_refill.
  pose proof (refill_bucket_ok _ 1000 _ _ _ _ _ _ own_rate_nonneg eq_refl A) as A'.
  pose proof (refill_bucket_ok _ 1000 _ _ _ _ _ _ ireserve_rate_nonneg eq_refl B) as B'.
  destruct (refill_bucket (is_own s) _ _ _ _ _), (refill_bucket (is_reserve s) _ _ _ _ _). done.
Qed.
Lemma slot_enter now own reserve o : t0 <= now -> slot_ok now own reserve o ->
  slot_ok now own reserve (Some (IngressSource_refill (default IngressSource_default o) params now)).
Proof.
  intros T. destruct o as [s|]; [apply slot_refill|]. intros [A B]. cbn. split_and!; [done|..]; apply bucket_primed; try done.
  apply own_rate_nonneg.
Qed.
Lemma slot_full now own reserve s : slot_ok now own reserve (Some s) -> source_full params s = true -> slot_ok now own reserve None.
Proof.
  intros (P & A & B) F. unfold source_full in F. to_prop. split.
  - eapply bucket_full; [apply own_rate_nonneg|done| |exact A]. done.
  - eapply bucket_full; [apply ireserve_rate_nonneg|done| |exact B]. done.
Qed.
Lemma ingress_victim_full order sources id : ingress_victim order params sources = Some id ->
  exists s, sources !! id = Some s /\ source_full params s = true.
Proof.
  unfold ingress_victim. intros V. assert (Q : id ∈ filter (fun id => from_option (source_full params) false (sources !! id) = true) order).
  { destruct (filter _ order) as [|x l] eqn:E; [done|]. cbn in V. injection V as ->. apply list_elem_of_here. }
  apply list_elem_of_filter in Q as [Q _]. destruct (sources !! id) as [s|]; [by exists s|done].
Qed.

Definition charged (now own reserve : Z) (source : SourceId) (ig ig' : Ingress) (res : outcome Reject unit) : Prop :=
  in_primed ig' = in_primed ig /\ in_shared_last_ms ig' = in_shared_last_ms ig /\
  match res with
  | Ok _ => in_shared ig' = in_shared ig - (if TX_COST_MILLI <=? in_shared ig then TX_COST_MILLI else 0) /\
      slot_ok now (own + took source TX_COST_MILLI)
        (reserve + if TX_COST_MILLI <=? in_shared ig then 0 else took source TX_COST_MILLI) (in_sources ig' !! keep)
  | Err _ => in_shared ig' = in_shared ig /\ slot_ok now own reserve (in_sources ig' !! keep)
  | Panic => False
  end.
Lemma ingress_charge_spec now own reserve ig source ig' res : t0 <= now -> slot_ok now own reserve (in_sources ig !! keep) ->
  ingress_charge ig source params now = (ig', res) -> charged now own reserve source ig ig' res.
Proof.
  intros T S. unfold ingress_charge. set (st := IngressSource_refill _ _ _).
  assert (St : source = keep -> slot_ok now own reserve (Some st)).
  { intros ->. unfold st. by apply slot_enter. }
  assert (Put : forall st', (source = keep -> slot_ok now own reserve (Some st')) ->
    slot_ok now own reserve (<[source := st']> (in_sources ig) !! keep)).
  { intros st' H'. destruct (decide (source = keep)) as [->|N]; [rewrite lookup_insert_eq; by apply H'|by rewrite lookup_insert_ne]. }
  assert (Spend : forall st' o' r', (source = keep -> slot_ok now (own + o') (reserve + r') (Some st')) ->
    slot_ok now (own + took source o') (reserve + took source r') (<[source := st']> (in_sources ig) !! keep)).
  { intros st' o' r' H'. unfold took. destruct (decide (source = keep)) as [->|N]; [rewrite lookup_insert_eq; by apply H'|].
    by rewrite lookup_insert_ne, !Z.add_0_r. }
  destruct (Z.ltb_spec (is_own st) TX_COST_MILLI) as [|Ho]; [intros [= <- <-]; unfold charged; cbn; auto|].
  assert (0 <= TX_COST_MILLI) by done.
  destruct (Z.leb_spec TX_COST_MILLI (in_shared ig)) as [Hs|Hs].
  - intros [= <- <-]. unfold charged. cbn. rewrite (proj2 (Z.leb_le _ _) Hs). split_and!; [done..|].
    replace 0 with (took source 0) at 1 by (unfold took; by case_decide). apply Spend. intros E. destruct (St E) as (P & A & B).
    rewrite Z.add_0_r. split_and!; [done| |done]. by apply bucket_spend.
  - destruct (Z.leb_spec TX_COST_MILLI (is_reserve st)) as [Hr|Hr]; [|intros [= <- <-]; unfold charged; cbn; auto].
    intros [= <- <-]. unfold charged. cbn. rewrite (proj2 (Z.leb_gt _ _) Hs). split_and!; [done|done|lia|].
    apply Spend. intros E. destruct (St E) as (P & A & B). split_and!; [done|by apply bucket_spend..].
Qed.

Lemma ingress_admit_spec now own reserve order ig source ig' res : t0 <= now -> slot_ok now own reserve (in_sources ig !! keep) ->
  ingress_admit order ig source params now = (ig', res) ->
  charged now own reserve source (ingress_refill_shared ig params now) ig' res.
Proof.
  intros T S. unfold ingress_admit. set (ig0 := ingress_refill_shared ig params now).
  assert (S0 : slot_ok now own reserve (in_sources ig0 !! keep)).
  { unfold ig0, ingress_refill_shared. destruct (negb _); [done|]. by destruct (ingress_bucket _ _ _ _ _). }
  destruct (_ && _); [|by apply ingress_charge_spec]. set (m := _ <$> in_sources ig0).
  assert (Sm : slot_ok now own reserve (m !! keep)).
  { unfold m. rewrite lookup_fmap. destruct (in_sources ig0 !! keep) as [s|]; cbn [fmap option_fmap option_map]; [by apply slot_refill|done]. }
  destruct (ingress_victim order params m) as [id|] eqn:V; [|intros [= <- <-]; done].
  intros E. apply (ingress_charge_spec now own reserve) in E; [exact E|done|]. cbn. destruct (decide (id = keep)) as [->|N]; [|by rewrite lookup_delete_ne].
  rewrite lookup_delete_eq. destruct (ingress_victim_full _ _ _ V) as (s & Es & F). rewrite Es in Sm. by eapply slot_full.
Qed.

Lemma shared_refilled now ig spent : t0 <= now ->
  (if in_primed ig then shared_ok now (in_shared ig) (in_shared_last_ms ig) spent else spent = 0) ->
  let ig0 := ingress_refill_shared ig params now in
  in_primed ig0 = true /\ shared_ok now (in_shared ig0) (in_shared_last_ms ig0) spent.
Proof.
  intros T. unfold ingress_refill_shared. pose proof ishared_rate_nonneg as N. destruct (in_primed ig); cbn [negb].
  - intros B. rewrite ingress_bucket_refill. pose proof (refill_bucket_ok _ 1000 _ _ _ _ _ _ N eq_refl B) as B'.
    by destruct (refill_bucket _ _ _ _ _ _).
  - intros ->. split; [done|]. cbn. apply bucket_primed; [done|done|nia].
Qed.

Lemma istep_ok r r' : irun_ok r -> istep r r' -> irun_ok r'.
Proof.
  intros [T K S] [now L|source N|order source ig e E|order source ig E].
  - split; cbn; [lia|by eapply slot_tick|]. destruct (in_primed _); [by eapply bucket_tick|done].
  - split; cbn; [done|by rewrite lookup_delete_ne|done].
  - destruct (ingress_admit_spec _ _ _ _ _ _ _ _ T K E) as (P & La & Sh & Sl). destruct (shared_refilled _ _ _ T S) as [P' S'].
    split; cbn; [done|done|]. by rewrite P, P', Sh, La.
  - destruct (ingress_admit_spec _ _ _ _ _ _ _ _ T K E) as (P & La & Sh & Sl). destruct (shared_refilled _ _ _ T S) as [P' S'].
    split; cbn; [done|done|]. rewrite P, P', Sh, La. destruct (Z.leb_spec TX_COST_MILLI (in_shared (ingress_refill_shared (ir_ig r) params (ir_now r)))) as [Hs|Hs].
    + apply bucket_spend; [|done]. split; [done|exact Hs].
    + by rewrite Z.sub_0_r, Z.add_0_r.
Qed.
End Run.

(** The table never outgrows its cap. *)
Lemma ingress_charge_count ig source params now : 
  ingress_source_count (fst (ingress_charge ig source params now)) <=
    ingress_source_count ig + (if decide (in_sources ig !! source = None) then 1 else 0).
Proof.
  assert (G : forall st, Z.of_nat (size (<[source := st]> (in_sources ig))) <= ingress_source_count ig + (if decide (in_sources ig !! source = None) then 1 else 0)).
  { intros st. unfold ingress_source_count. case_decide as D.
    - rewrite map_size_insert_None by done. lia.
    - rewrite map_size_insert_Some by (by apply not_eq_None_Some). lia. }
  unfold ingress_charge. set (st := IngressSource_refill _ _ _).
  destruct (_ <? _); [apply G|]. destruct (_ <=? in_shared ig); [apply G|]. destruct (_ <=? is_reserve st); apply G.
Qed.
Lemma ingress_admit_count order ig source params now : 1 <= max_sources params -> ingress_source_count ig <= max_sources params ->
  ingress_source_count (fst (ingress_admit order ig source params now)) <= max_sources params.
Proof.
  intros M C. unfold ingress_admit. set (ig0 := ingress_refill_shared ig params now).
  assert (C0 : ingress_source_count ig0 = ingress_source_count ig).
  { unfold ig0, ingress_refill_shared. destruct (negb _); [done|]. by destruct (ingress_bucket _ _ _ _ _). }
  rewrite <- C0 in C. destruct (bool_decide (in_sources ig0 !! source = None) && _) eqn:G.
  - set (m := _ <$> _). assert (Hm : size m = size (in_sources ig0)) by apply map_size_fmap.
    destruct (ingress_victim order params m) as [id|] eqn:V; [|unfold ingress_source_count in *; cbn; lia].
    etransitivity; [apply ingress_charge_count|]. unfold ingress_source_count in *. cbn.
    destruct (ingress_victim_full _ _ _ _ V) as (s & Es & _). rewrite map_size_delete_Some by (by eexists).
    assert (size m <> 0%nat); [|case_decide; lia]. intros Z%map_size_empty_iff. by rewrite Z, lookup_empty in Es.
  - etransitivity; [apply ingress_charge_count|]. case_decide as D; [|lia].
    rewrite bool_decide_eq_true_2 in G by done. cbn in G. to_prop. lia.
Qed.

Lemma istep_count params keep r r' : 1 <= max_sources params -> istep params keep r r' ->
  ingress_source_count (ir_ig r) <= max_sources params -> ingress_source_count (ir_ig r') <= max_sources params.
Proof.
  intros M [now L|source N|order source ig e E|order source ig E] C; cbn; [done| | |].
  - unfold ingress_source_count, ingress_forget in *. cbn. etransitivity; [|exact C].
    destruct (in_sources (ir_ig r) !! source) as [s|] eqn:S.
    + rewrite map_size_delete_Some by (by eexists). lia.
    + by rewrite delete_id.
  - pose proof (ingress_admit_count order (ir_ig r) source params (ir_now r) M C) as Q. by rewrite E in Q.
  - pose proof (ingress_admit_count order (ir_ig r) source params (ir_now r) M C) as Q. by rewrite E in Q.
Qed.

(** Relayed transactions are rate limited whatever the peers do. Over any run of clock
    ticks, admission attempts by any sources (with eviction in whatever order the table is
    walked, and re-entry) and disconnections of other sources, the tokens a source has taken
    from its own bucket are at most its burst plus its rate over the elapsed time, the same
    holds of its reserve and, for all sources together, of the shared pool; so a source gains
    nothing by being evicted and coming back. The table never holds more sources than its cap. *)
Theorem tx_ingress_bounded params t0 keep r
    (Hsource : 0 <= ingress_per_source (mempool params)) (Hglobal : 0 <= ingress_global (mempool params))
    (Hcap : 1 <= max_sources params) (Hr : rtc (istep params keep) (irun_start t0) r) :
  let mp := mempool params in let elapsed := ir_now r - t0 in
  1000 * ir_own r <= 1000 * ingress_source_burst_milli mp + ingress_source_rate_milli mp * elapsed /\
  1000 * ir_reserve r <= 1000 * ingress_reserve_burst_milli mp + ingress_reserve_rate_milli mp (max_peers params) * elapsed /\
  1000 * ir_shared r <= 1000 * ingress_shared_burst_milli mp + ingress_shared_rate_milli mp * elapsed /\
  ingress_source_count (ir_ig r) <= max_sources params.
Proof.
  intros mp elapsed.
  pose proof (own_rate_nonneg params Hsource) as N1. pose proof (ishared_rate_nonneg params Hglobal) as N2.
  pose proof (ireserve_rate_nonneg params Hglobal) as N3.
  assert (irun_ok params t0 keep r /\ ingress_source_count (ir_ig r) <= max_sources params) as [[T K S] C].
  { assert (I0 : irun_ok params t0 keep (irun_start t0) /\ ingress_source_count (ir_ig (irun_start t0)) <= max_sources params).
    { split; [split; cbn; [done| |done]; rewrite lookup_empty; cbn; split; lia|]. unfold ingress_source_count. cbn. rewrite map_size_empty. lia. }
    revert I0. generalize (irun_start t0) Hr. clear Hr. induction 1 as [|a b c Hab Hbc IH]; [done|]. intros [I1 I2]. apply IH.
    split; [by eapply istep_ok|by eapply istep_count]. }
  split_and!; [| | |done].
  - destruct (in_sources (ir_ig r) !! keep) as [s|]; cbn in K.
    + destruct K as (_ & A & _). exact (bucket_bound _ 1000 _ _ _ _ _ _ N1 eq_refl A).
    + destruct K as [A _]. unfold elapsed, mp, ingress_source_burst_milli. lia.
  - destruct (in_sources (ir_ig r) !! keep) as [s|]; cbn in K.
    + destruct K as (_ & _ & A). exact (bucket_bound _ 1000 _ _ _ _ _ _ N3 eq_refl A).
    + destruct K as [_ A]. unfold elapsed, mp, ingress_reserve_burst_milli, TX_COST_MILLI. lia.
  - destruct (in_primed (ir_ig r)); [exact (bucket_bound _ 1000 _ _ _ _ _ _ N2 eq_refl S)|].
    rewrite S. unfold elapsed, mp, ingress_shared_burst_milli. nia.
Qed.

Lemma tx_ingress_bounded_witness :
  exists r, rtc (istep ChainParams_default 7) (irun_start 1000) r /\ ir_own r = 2000 /\
    1000 * ir_own r <= 1000 * ingress_source_burst_milli (mempool ChainParams_default) + ingress_source_rate_milli (mempool ChainParams_default) * (ir_now r - 1000).
Proof.
  set (i1 := fst (ingress_admit [] Ingress_new 7 ChainParams_default 1000)).
  set (i2 := fst (ingress_admit [7] i1 7 ChainParams_default 1000)).
  assert (rtc (istep ChainParams_default 7) (irun_start 1000) (MkIRun i2 1000 2000 0 2000)) as Hr.
  { eapply rtc_l; [exact (is_step_admit ChainParams_default 7 (irun_start 1000) [] 7 i1 ltac:(vm_compute; reflexivity))|].
    eapply rtc_l; [refine (is_step_admit ChainParams_default 7 _ [7] 7 i2 _); vm_compute; reflexivity|].
    match goal with |- rtc _ ?a ?b => replace a with b by (vm_compute; reflexivity) end. apply rtc_refl. }
  exists (MkIRun i2 1000 2000 0 2000). split; [exact Hr|]. split; [reflexivity|].
  destruct (tx_ingress_bounded ChainParams_default 1000 7 (MkIRun i2 1000 2000 0 2000)) as [Hb _].
  - vm_compute. discriminate.
  - vm_compute. discriminate.
  - vm_compute. discriminate.
  - exact Hr.
  - exact Hb.
Defined.
