(* ===== verification/History.v ===== *)
(** What a commit does to the history the store holds. [committed] is the contract of
    the [Sink] trait (src/lib/chain/src/traits.rs), in the terms of the [Store] queries:
    blocks above a base height are replaced by the ones committed, older ones stay, and
    old rows may be pruned. The theorems show that committing the blocks of a validated
    branch, with the blocks a deep rewind replayed in front of them, extends the history
    of account states by the branch. *)

From Stdlib Require Import ZArith Lia List String.
From stdpp Require Import base list gmap numbers.
From S2P Require Import Prelude Constants Work Rules Codec Crypto Merkle TxRules ChainTypes State Body BodyEquiv Reorg.
Open Scope Z_scope.

Definition after_blocks (f : Address -> Account) (bs : list CommitBlock) : Address -> Account :=
  fold_left (fun f b => apply_deltas f (cb_deltas b)) bs f.

Lemma apply_deltas_ext ds : forall f g, (forall x, f x = g x) -> forall x, apply_deltas f ds x = apply_deltas g ds x.
Proof.
  induction ds as [|d ds IH]; intros f g Hfg x; [apply Hfg|]. rewrite !apply_deltas_cons. apply IH.
  intros y. unfold upd. by case_decide.
Qed.
Lemma after_blocks_cons f b bs : after_blocks f (b :: bs) = after_blocks (apply_deltas f (cb_deltas b)) bs.
Proof. done. Qed.
Lemma after_blocks_ext bs : forall f g, (forall x, f x = g x) -> forall x, after_blocks f bs x = after_blocks g bs x.
Proof.
  induction bs as [|b bs IH]; intros f g Hfg x; [apply Hfg|]. rewrite !after_blocks_cons. apply IH. by apply apply_deltas_ext.
Qed.
Lemma after_blocks_app f a b : after_blocks f (a ++ b) = after_blocks (after_blocks f a) b.
Proof. apply fold_left_app. Qed.
Lemma after_blocks_snoc f bs k b : bs !! k = Some b ->
  after_blocks f (take (S k) bs) = apply_deltas (after_blocks f (take k bs)) (cb_deltas b).
Proof. intros Hk. by rewrite (take_S_r bs k b Hk), after_blocks_app. Qed.

Lemma block_step_ext f g f' g' cb : (forall x, f' x = f x) -> (forall x, g' x = g x) -> block_step f g cb -> block_step f' g' cb.
Proof.
  intros Hf Hg [U D]. constructor; [by eapply undo_of_ext|]. intros x. rewrite Hg, <-D. by apply apply_deltas_ext.
Qed.

(** ** Accounts stay within their machine types

    Every transaction raises one nonce by one and a block holds at most
    [MAX_TXS_PER_BLOCK] of them, so nonces are bounded by the height. *)
Definition in_range (k : Z) (f : Address -> Account) : Prop := forall x, 0 <= acc_nonce (f x) <= k /\ 0 <= acc_balance (f x) <= umax 128.
Lemma in_range_ext k f g : (forall x, f x = g x) -> in_range k f -> in_range k g.
Proof. intros E R x. rewrite <-E. apply R. Qed.
Lemma in_range_mono k k' f : k <= k' -> in_range k f -> in_range k' f.
Proof. intros Hk R x. specialize (R x). lia. Qed.

Section Range.
Context `{Ed25519} (account : Address -> Account).

Lemma get_range k o a : in_range k (view account o) -> in_range k (view account (snd (Overlay_get account o a))).
Proof. apply in_range_ext. intros x. by rewrite get_view. Qed.
Lemma set_range k o a acct : in_range k (view account o) -> 0 <= acc_nonce acct <= k -> 0 <= acc_balance acct <= umax 128 ->
  in_range k (view account (Overlay_set account o a acct)).
Proof. intros R Hn Hb x. rewrite set_view. unfold upd. case_decide; [done|apply R]. Qed.
Lemma credit_range k o a amount o' : in_range k (view account o) -> Overlay_credit account o a amount = Ok o' -> in_range k (view account o').
Proof.
  intros R. unfold Overlay_credit. pose proof (get_fst account o a) as Hf. pose proof (get_range k o a R) as R1.
  destruct (Overlay_get account o a) as [x o1]. cbn [fst snd] in *. subst x. intros Hc. step_in Hc. apply ok_or_ok, checked_add_some in E as [-> Hr].
  invert_ok. apply set_range; [done|apply R|]. cbn. unfold umax. lia.
Qed.
Lemma apply_tx_range k ledger height i o tx o' id spent : in_range k (view account o) ->
  apply_tx account ledger height i o tx = Ok (o', id, spent) -> in_range (k + 1) (view account o').
Proof.
  intros R Ha. destruct tx as [c|t|a]; cbn [apply_tx] in Ha; [done| |].
  - unfold apply_transfer in Ha. step_in Ha. cbv zeta in Ha. pose proof (get_fst account o (address_payload (t_from_pub t))) as Hf.
    pose proof (get_range k o (address_payload (t_from_pub t)) R) as R1. destruct (Overlay_get account o _) as [acct o1]. cbn [fst snd] in *. subst acct.
    do 6 step_in Ha. invert_ok. apply ok_or_ok, checked_sub_some in E0 as [-> Hb]. apply ok_or_ok, checked_add_some in E1 as [-> Hn].
    eapply credit_range; [|exact E2]. specialize (R (address_payload (t_from_pub t))) as R2.
    apply set_range; [apply (in_range_mono k); [lia|done]|cbn; lia|cbn; unfold umax; lia].
  - unfold apply_announcement_tx in Ha. cbv zeta in Ha. pose proof (get_fst account o (address_payload (a_from_pub a))) as Hf.
    pose proof (get_range k o (address_payload (a_from_pub a)) R) as R1. destruct (Overlay_get account o _) as [acct o1]. cbn [fst snd] in *. subst acct.
    do 3 step_in Ha. invert_ok. apply map_err_ok in E0. unfold apply_announcement in E0. do 2 step_in E0. invert_ok. cbn [as_balance as_nonce] in *.
    apply ok_or_ok, checked_sub_some in E2 as [-> Hb]. apply ok_or_ok, checked_add_some in E3 as [-> Hn].
    specialize (R (address_payload (a_from_pub a))) as R2.
    apply set_range; [apply (in_range_mono k); [lia|done]|cbn; lia|cbn; unfold umax; lia].
Qed.
Lemma apply_txs_range ledger height txs : forall k i o o' ids spents, in_range k (view account o) ->
  apply_txs account ledger height i o txs = Ok (o', ids, spents) -> in_range (k + Zlen txs) (view account o').
Proof.
  induction txs as [|tx txs IH]; intros k i o o' ids spents R Ha; cbn [apply_txs] in Ha.
  - apply Ok_inj in Ha. injection Ha as <- _ _. by rewrite Z.add_0_r.
  - step_in Ha. destruct a as [[o1 id] sp]. step_in Ha. destruct a as [[o2 ids2] sps]. apply Ok_inj in Ha. injection Ha as <- _ _.
    apply (apply_tx_range k) in E; [|done]. apply (IH (k + 1)) in E0; [|done]. rewrite Zlen_cons. by replace (k + (1 + Zlen txs)) with (k + 1 + Zlen txs) by lia.
Qed.
Lemma parse_records_length n raw : forall off r, parse_records n raw off = Ok r -> length (fst r) = n.
Proof.
  induction n as [|n IH]; intros off r Hp; cbn [parse_records] in Hp; [by invert_ok|]. do 2 step_in Hp. invert_ok. cbn. f_equal. by eapply IH.
Qed.
Lemma parse_count raw body : BlockBody_parse raw = Ok body -> BlockBody_len body <= MAX_TXS_PER_BLOCK.
Proof.
  intros Hp. unfold BlockBody_parse in Hp. steps_in Hp. invert_ok. to_prop. apply parse_records_length in E. unfold BlockBody_len, Zlen. cbn [bb_spans].
  rewrite E. unfold MAX_TXS_PER_BLOCK in *. lia.
Qed.
Lemma validated_range k o ledger hdr raw params trust vb o' l' : in_range k (view account o) ->
  validate_block_body account o ledger hdr raw params trust = Ok (vb, o', l') -> in_range (k + MAX_TXS_PER_BLOCK) (view account o').
Proof.
  intros R Hv. unfold validate_block_body in Hv. do 3 step_in Hv. rename a into body, a0 into txs, a1 into cb.
  do 6 step_in Hv. do 2 step_in Hv. destruct a5 as [[o3 ids] spents]. step_in Hv.
  apply map_err_ok in E, E0, E5. apply parse_count in E.
  assert (Zlen txs = BlockBody_len body) as Hl.
  { unfold decode_body in E0. apply try_mapi_ok in E0 as [Hl _]. unfold BlockBody_all_bytes in Hl. rewrite length_fmap in Hl. unfold BlockBody_len, Zlen. lia. }
  apply (credit_range k) in E6; [|exact R].
  apply (apply_txs_range _ _ _ k) in E8; [|done]. unfold Overlay_deltas in Hv. pose proof (deltas_loop_spec account (ov_order o3) o3) as Hds.
  destruct (deltas_loop account o3 (ov_order o3)) as [ds o4]. destruct Hds as (_ & Hv4 & _). apply Ok_inj in Hv. injection Hv as _ <- _.
  apply (in_range_ext _ (view account o3)); [intros x; by rewrite Hv4|]. eapply in_range_mono; [|exact E8].
  unfold Zlen in *. rewrite length_drop. lia.
Qed.
End Range.
Lemma post_range `{Ed25519} k f ledger hdr raw params trust vb g l' : in_range k f -> block_post f ledger hdr raw params trust = Ok (vb, g, l') ->
  in_range (k + MAX_TXS_PER_BLOCK) g.
Proof.
  intros R Hp. unfold block_post in Hp. step_in Hp. destruct a as [[vb1 o1] l1]. apply Ok_inj in Hp. injection Hp as _ <- _.
  eapply validated_range; [|exact E]. exact R.
Qed.

(** ** The contract of a commit *)
Record committed (st st' : Store) (base : Z) (f : Address -> Account) (blocks : list CommitBlock) : Prop := {
  ct_tip : tip_height (st_tip st') = base + Zlen blocks;
  ct_accounts : forall x, st_account st' x = after_blocks f blocks x;
  ct_header_old : forall h, 0 <= h <= base -> st_header_at st' h = st_header_at st h;
  ct_header_new : forall b, b ∈ blocks -> exists rec, st_header_at st' (cb_height b) = Some rec /\
    hr_hash rec = cb_hash b /\ hr_raw rec = cb_header_raw b;
  ct_body : forall h raw, st_body_at st' h = Some raw -> (h <= base /\ st_body_at st h = Some raw) \/
    exists b, b ∈ blocks /\ cb_height b = h /\ cb_body b = raw;
  ct_undo : forall h recs, st_undo_at st' h = Some recs -> (h <= base /\ st_undo_at st h = Some recs) \/
    exists b, b ∈ blocks /\ cb_height b = h /\ cb_undo b = recs;
}.

Section History.
Context `{Ed25519} (params : ChainParams).

(** The part of [holds_history] that is about blocks, and the part about snapshots. *)
Record holds_chain (st : Store) (states : Z -> Address -> Account) (tip : Z) : Prop := {
  hc_tip : forall x, st_account st x = states tip x;
  hc_undo : forall h recs, 0 < h <= tip -> st_undo_at st h = Some recs -> undo_of recs (states (h - 1)) (states h);
  hc_block : forall h raw rec, 0 < h <= tip -> st_body_at st h = Some raw -> st_header_at st h = Some rec ->
    bytes_ok raw /\ exists hdr ledger vb f l, HeaderRec_header (E := Reject) rec = Ok hdr /\ credits_ok ledger /\
      block_post (states (h - 1)) ledger hdr raw params Untrusted = Ok (vb, f, l) /\ forall x, f x = states h x;
}.
Record snapshots_ok (st : Store) (states : Z -> Address -> Account) (tip : Z) : Prop := {
  sn_rows : forall h rows, st_state_snapshot st h = Some rows ->
    List.NoDup (fst <$> rows) /\ (forall a acct, In (a, acct) rows -> states h a = acct) /\
    (forall a, ~ In a (fst <$> rows) -> states tip a = states h a);
  sn_below : forall h c, st_checkpoint_at_or_below st h = Some c -> 0 <= c <= h;
}.
Lemma history_split st states tip :
  holds_history st params states tip <-> holds_chain st states tip /\ snapshots_ok st states tip.
Proof. split; [intros [H1 H2 H3 H4 H5]; split; by constructor|intros [[H1 H2 H3] [H4 H5]]; by constructor]. Qed.

(** ** A validated branch step by step *)
Record block_ok (f g : Address -> Account) (cb : CommitBlock) : Prop := {
  bk_step : block_step f g cb;
  bk_bytes : bytes_ok (cb_body cb);
  bk_post : exists hdr ledger vb f' l, expect_ok_or_panic (F := Reject) (Header_decode (cb_header_raw cb)) = Ok hdr /\
    credits_ok ledger /\ block_post f ledger hdr (cb_body cb) params Untrusted = Ok (vb, f', l) /\ forall x, f' x = g x;
}.
Definition steps (f : Address -> Account) (bs : list CommitBlock) : Prop :=
  forall k b, bs !! k = Some b -> block_ok (after_blocks f (take k bs)) (after_blocks f (take (S k) bs)) b.

Lemma block_post_ext f g ledger hdr raw trust vb f' l : (forall x, f x = g x) ->
  block_post f ledger hdr raw params trust = Ok (vb, f', l) ->
  exists g', block_post g ledger hdr raw params trust = Ok (vb, g', l) /\ forall x, g' x = f' x.
Proof.
  intros Hfg Hp. pose proof (validate_refines_post f (Overlay_new 0) f ledger hdr raw params trust (fun _ => eq_refl)) as R1.
  rewrite Hp in R1. apply post_refined_ok in R1 as (o & E & V1).
  pose proof (validate_refines_post f (Overlay_new 0) g ledger hdr raw params trust) as R2. rewrite E in R2.
  apply refines_post_ok in R2 as (g' & -> & V2); [|intros x; apply Hfg]. exists g'. split; [done|]. intros x. by rewrite <-V2, V1.
Qed.

Lemma block_ok_ext f g f' g' cb : (forall x, f x = f' x) -> (forall x, g x = g' x) -> block_ok f g cb -> block_ok f' g' cb.
Proof.
  intros Hf Hg [S B (hdr & ledger & vb & p & l & Hd & Hc & Hp & Hx)]. split; [|done|].
  - apply (block_step_ext f g); [done|done|done].
  - destruct (block_post_ext _ _ _ _ _ _ _ _ _ Hf Hp) as (p' & Hp' & Hpp). exists hdr, ledger, vb, p', l. split_and!; [done..|].
    intros x. by rewrite Hpp, Hx.
Qed.

Lemma steps_cons f b bs : block_ok f (apply_deltas f (cb_deltas b)) b -> steps (apply_deltas f (cb_deltas b)) bs -> steps f (b :: bs).
Proof. intros Hb Hs [|k] c Hk; cbn in Hk; [by injection Hk as <-|]. cbn. by apply (Hs k c). Qed.

Lemma steps_ext f g bs : (forall x, f x = g x) -> steps f bs -> steps g bs.
Proof.
  intros Hfg Hs k b Hk. eapply block_ok_ext; [| |by apply (Hs k b)]; intros x; by apply after_blocks_ext.
Qed.

Lemma branch_steps st cw branch : forall o ledger i reported obs out spent o' ledger' f,
  Forall (fun p => bytes_ok (snd p)) branch -> credits_ok ledger -> (forall x, f x = view (st_account st) o x) ->
  validate_branch_loop st params o ledger branch i cw reported = (obs, Ok (out, spent, o', ledger')) -> steps f out.
Proof.
  induction branch as [|[rec raw] branch IH]; intros o ledger i reported obs out spent o' ledger' f Hb Hc Hf Hv; cbn [validate_branch_loop] in Hv.
  - injection Hv as <- <- <- <- <-. intros k b Hk. done.
  - inversion_clear Hb as [|? ? Hb1 Hb2]. cbn in Hb1.
    destruct (HeaderRec_header (E := Reject) rec) as [hdr| |] eqn:Eh; cbn [obind] in Hv; [|discriminate..].
    destruct (validate_block_body (st_account st) o ledger hdr raw params Untrusted) as [[[v o1] l1]| |] eqn:Ev; [|discriminate..].
    destruct (validate_branch_loop st params o1 l1 branch _ _ _) as [obs2 r2] eqn:El. injection Hv as <- Hr.
    destruct r2 as [[[[out2 spent2] o2] l2]| |]; [|discriminate..]. cbn [obind] in Hr. apply Ok_inj in Hr. injection Hr as <- <- <- <-.
    pose proof (validated_deltas st params _ _ _ _ _ _ _ _ f Hb1 Ev Hf) as Hd.
    destruct (replay_lemma _ _ _ _ _ _ _ _ _ Hc Hb1 Ev) as (e & -> & He & _).
    apply steps_cons; cbn [cb_deltas].
    + constructor; cbn [cb_body cb_header_raw cb_undo cb_deltas]; [|done|].
      * constructor; [|done]. eapply undo_of_ext; [exact Hf|exact Hd|]. by apply (validated_undo_of st params) in Ev.
      * pose proof (validate_refines_post (st_account st) o f ledger hdr raw params Untrusted (fun x => eq_sym (Hf x))) as R.
        rewrite Ev in R. apply refines_post_ok in R as (g & Hp & Hg). exists hdr, ledger, v, g, (ledger ++ [e]).
        split_and!; [done..|]. intros x. by rewrite <-Hg, Hd.
    + eapply IH; [done| |exact Hd|exact El]. apply Forall_app. by repeat constructor.
Qed.

(** ** The maturity ledger of validated bodies *)
Lemma decode_body_head body cb rest : decode_body body = Ok (Coinbase cb :: rest) ->
  decode_tx <$> (BlockBody_all_bytes body) !! 0%nat = Some (Ok (Coinbase cb)).
Proof.
  unfold decode_body. intros Hd. apply try_mapi_ok in Hd as [Hl Hk].
  destruct (BlockBody_all_bytes body) as [|r rs]; [done|]. destruct (Hk 0%nat r eq_refl) as (y & Hy & Hf). cbn in Hy. injection Hy as <-.
  cbn. f_equal. by apply map_err_ok in Hf.
Qed.

Lemma validated_ledger_step st f ledger hdr raw vb g l' h l : block_post f ledger hdr raw params Untrusted = Ok (vb, g, l') ->
  st_body_at st h = Some raw -> exists l2, ledger_step st l h = Ok l2.
Proof.
  intros Hp Hb. unfold ledger_step. rewrite Hb. unfold block_post, validate_block_body in Hp. step_in Hp. clear Hp. rename E into Hv.
  destruct (BlockBody_parse raw) as [body| |]; [|eauto..]. cbn [map_err obind] in Hv. step_in Hv. apply map_err_ok in E as Htx.
  step_in Hv. apply map_err_ok in E0. do 5 step_in Hv. apply map_err_ok in E4.
  apply check_body_structure_spec in E0 as (rest & -> & _). rewrite (decode_body_head _ _ _ Htx), E4. cbn. eauto.
Qed.

Lemma history_ledger st states tip at_ : holds_chain st states tip -> 0 <= at_ <= tip ->
  (forall h, 0 < h <= at_ -> is_Some (st_header_at st h)) -> (forall l, exists l', ledger_step st l 0 = Ok l') ->
  exists l, build_ledger st at_ = Ok l /\ credits_ok l.
Proof.
  intros Hc Hat Hhd H0.
  assert (forall n lo l, n = Z.to_nat (at_ + 1 - lo) -> 0 <= lo -> exists l', ofold (ledger_step st) l (zrange lo (at_ + 1)) = Ok l') as Hg.
  { induction n as [|n IH]; intros lo l Hn Hlo; [rewrite zrange_nil by lia; by exists l|].
    rewrite zrange_cons by lia. cbn [ofold]. assert (exists l', ledger_step st l lo = Ok l') as [l' ->].
    { destruct (Z.eq_dec lo 0) as [->|Hne]; [done|]. destruct (st_body_at st lo) as [raw|] eqn:Eb; [|unfold ledger_step; rewrite Eb; eauto].
      destruct (Hhd lo ltac:(lia)) as [rec Hrec]. destruct (hc_block _ _ _ Hc lo raw rec ltac:(lia) Eb Hrec) as (_ & hdr & lg & vb & f & l2 & _ & _ & Hp & _).
      by apply (validated_ledger_step st _ _ _ _ _ _ _ _ l Hp). }
    cbn [obind]. apply IH; lia. }
  destruct (Hg _ (saturating_sub at_ (COINBASE_MATURITY - 1)) CoinbaseLedger_new eq_refl) as [l Hl]; [unfold saturating_sub; lia|].
  exists l. split; [done|]. by destruct (ledger_fold_heights _ _ _ _ (List.Forall_nil _) Hl).
Qed.

(** ** The history after a commit *)

(** Up to the fork the old states, above it those of the branch. *)
Definition forked (states : Z -> Address -> Account) (fork : Z) (bs : list CommitBlock) (h : Z) : Address -> Account :=
  if h <=? fork then states h else after_blocks (states fork) (take (Z.to_nat (h - fork)) bs).

Definition heights_from (fork : Z) (bs : list CommitBlock) : Prop :=
  forall k b, bs !! k = Some b -> cb_height b = fork + 1 + Z.of_nat k.

Lemma forked_at states fork bs k : forall x, 0 <= fork ->
  forked states fork bs (fork + Z.of_nat k) x = after_blocks (states fork) (take k bs) x.
Proof.
  intros x Hf. unfold forked. destruct (Z.leb_spec (fork + Z.of_nat k) fork) as [Hl|Hl].
  - assert (k = 0%nat) as -> by lia. cbn. by rewrite Z.add_0_r.
  - by replace (Z.to_nat (fork + Z.of_nat k - fork)) with k by lia.
Qed.

Lemma forked_block states fork bs b : 0 <= fork -> steps (states fork) bs -> heights_from fork bs -> b ∈ bs ->
  fork < cb_height b /\ block_ok (forked states fork bs (cb_height b - 1)) (forked states fork bs (cb_height b)) b.
Proof.
  intros Hf Hs Hh Hb. apply list_elem_of_lookup in Hb as [k Hk]. rewrite (Hh k b Hk). split; [lia|].
  eapply block_ok_ext; [| |exact (Hs k b Hk)]; intros x; symmetry.
  - replace (fork + 1 + Z.of_nat k - 1) with (fork + Z.of_nat k) by lia. by apply forked_at.
  - replace (fork + 1 + Z.of_nat k) with (fork + Z.of_nat (S k)) by lia. by apply forked_at.
Qed.

(** The blocks a deep rewind replays lead from the snapshot's state to the fork's. *)
Lemma replay_reaches st states fork : forall n r replayed, n = Z.to_nat (fork - r) -> r <= fork ->
  cb_height <$> replayed = above_fork r fork -> Forall (replayed_block st states) replayed ->
  forall x, after_blocks (states r) replayed x = states fork x.
Proof.
  induction n as [|n IH]; intros r replayed Hn Hr Hh Hb x.
  - assert (r = fork) as -> by lia. unfold above_fork in Hh. rewrite zrange_nil in Hh by lia. by destruct replayed.
  - unfold above_fork in *. rewrite (zrange_cons (r + 1)) in Hh by lia. destruct replayed as [|b bs]; [done|].
    cbn in Hh. injection Hh as Hhb Hhs. inversion_clear Hb as [|? ? Hb1 Hb2].
    rewrite after_blocks_cons, (after_blocks_ext bs _ (states (r + 1))); [apply (IH (r + 1)); [lia|lia|done|done]|].
    intros y. destruct Hb1 as [[_ Hd] _]. rewrite Hhb in Hd. replace (r + 1 - 1) with r in Hd by lia. apply Hd.
Qed.

Lemma replayed_heights r fork replayed b : cb_height <$> replayed = above_fork r fork -> b ∈ replayed -> r < cb_height b <= fork.
Proof.
  intros Hh Hb. assert (cb_height b ∈ above_fork r fork) as Hin by (rewrite <-Hh; by apply list_elem_of_fmap_2).
  unfold above_fork in Hin. apply list_elem_of_In, in_zrange in Hin. lia.
Qed.

Context (st st' : Store) (states : Z -> Address -> Account) (tip fork base : Z) (replayed bs : list CommitBlock).
Context (Hh : holds_history st params states tip) (Hfork : 0 <= fork <= tip) (Hbase : 0 <= base <= fork).
Context (Hrh : cb_height <$> replayed = above_fork base fork) (Hrb : Forall (replayed_block st states) replayed).
Context (Hs : steps (states fork) bs) (Hht : heights_from fork bs).
Context (Hct : committed st st' base (states base) (replayed ++ bs)).

Lemma commit_tip x : st_account st' x = forked states fork bs (fork + Zlen bs) x.
Proof.
  rewrite (ct_accounts _ _ _ _ _ Hct), after_blocks_app. unfold Zlen. rewrite forked_at, firstn_all by lia.
  apply after_blocks_ext. apply (replay_reaches st states fork _ base replayed eq_refl); [lia|done|done].
Qed.

Lemma forked_old h : h <= fork -> forked states fork bs h = states h.
Proof. intros Hle. unfold forked. by destruct (Z.leb_spec h fork); [|lia]. Qed.

Lemma commit_undo h recs : 0 < h -> st_undo_at st' h = Some recs ->
  undo_of recs (forked states fork bs (h - 1)) (forked states fork bs h).
Proof.
  intros H0 Hu. apply (ct_undo _ _ _ _ _ Hct) in Hu as [[Hle Hu]|(b & Hb & <- & <-)].
  - rewrite !forked_old by lia. apply (hh_undo _ _ _ _ Hh); [lia|done].
  - apply elem_of_app in Hb as [Hb|Hb].
    + pose proof (replayed_heights _ _ _ b Hrh Hb). rewrite !forked_old by lia.
      apply list_elem_of_In, (proj1 (Forall_forall _ _) Hrb) in Hb as [[U _] _]. exact U.
    + apply (forked_block states fork bs b) in Hb as [_ [[U _] _ _]]; [exact U|lia|done|done].
Qed.

Lemma commit_block h raw rec : 0 < h -> st_body_at st' h = Some raw -> st_header_at st' h = Some rec ->
  bytes_ok raw /\ exists hdr ledger vb f l, HeaderRec_header (E := Reject) rec = Ok hdr /\ credits_ok ledger /\
    block_post (forked states fork bs (h - 1)) ledger hdr raw params Untrusted = Ok (vb, f, l) /\
    forall x, f x = forked states fork bs h x.
Proof.
  intros H0 Hbd Hhd. apply (ct_body _ _ _ _ _ Hct) in Hbd as [[Hle Hbd]|(b & Hb & <- & <-)].
  - rewrite (ct_header_old _ _ _ _ _ Hct) in Hhd by lia. rewrite !forked_old by lia. apply (hh_block _ _ _ _ Hh h); [lia|done|done].
  - destruct (ct_header_new _ _ _ _ _ Hct b Hb) as (rec' & Hhd' & _ & Hraw). rewrite Hhd' in Hhd. injection Hhd as ->.
    apply elem_of_app in Hb as [Hb|Hb].
    + pose proof (replayed_heights _ _ _ b Hrh Hb). rewrite !forked_old by lia.
      apply list_elem_of_In, (proj1 (Forall_forall _ _) Hrb) in Hb as [_ (r0 & Hr0 & Hb0 & Hw & _)].
      destruct (hh_block _ _ _ _ Hh (cb_height b) _ _ ltac:(lia) Hb0 Hr0) as (Hok & hdr & Hrest). split; [done|]. exists hdr.
      unfold HeaderRec_header in *. by rewrite Hraw, Hw.
    + apply (forked_block states fork bs b) in Hb as [_ [_ Hok (hdr & ledger & vb & f & l & Hd & Hrest)]]; [|lia|done|done].
      split; [done|]. exists hdr, ledger, vb, f, l. unfold HeaderRec_header. by rewrite Hraw.
Qed.

Lemma commit_history : holds_chain st' (forked states fork bs) (fork + Zlen bs).
Proof.
  constructor; [apply commit_tip| |].
  - intros h recs [? _]. by apply commit_undo.
  - intros h raw rec [? _]. by apply commit_block.
Qed.

Lemma forked_ranges : (forall h, 0 <= h <= tip -> in_range (MAX_TXS_PER_BLOCK * (h + 1)) (states h)) ->
  forall h, 0 <= h <= fork + Zlen bs -> in_range (MAX_TXS_PER_BLOCK * (h + 1)) (forked states fork bs h).
Proof.
  intros R h Hr. destruct (Z.le_gt_cases h fork) as [Hle|Hgt]; [rewrite forked_old by done; apply R; lia|].
  assert (forall k, (k <= length bs)%nat -> in_range (MAX_TXS_PER_BLOCK * (fork + Z.of_nat k + 1)) (after_blocks (states fork) (take k bs))) as Hk.
  { induction k as [|k IH]; intros Hl; [cbn; rewrite Z.add_0_r; apply R; lia|]. destruct (lookup_lt_is_Some_2 bs k) as [b Hb]; [lia|].
    destruct (bk_post _ _ _ (Hs k b Hb)) as (hdr & ledger & vb & g & l & _ & _ & Hp & Hg). apply post_range with (k := MAX_TXS_PER_BLOCK * (fork + Z.of_nat k + 1)) in Hp; [|apply IH; lia].
    apply (in_range_ext _ g); [done|]. eapply in_range_mono; [|exact Hp]. unfold MAX_TXS_PER_BLOCK. lia. }
  replace h with (fork + Z.of_nat (Z.to_nat (h - fork))) by lia. intros x. rewrite forked_at by lia. apply Hk. unfold Zlen in Hr. lia.
Qed.

(** Headers up to the fork keep their hash; those of the branch are the committed ones. *)
Lemma commit_header_old h rec : 0 <= h <= fork -> st_header_at st h = Some rec ->
  exists rec', st_header_at st' h = Some rec' /\ hr_hash rec' = hr_hash rec /\ hr_raw rec' = hr_raw rec.
Proof.
  intros Hr Hrec. destruct (Z.le_gt_cases h base) as [Hle|Hgt].
  - exists rec. by rewrite (ct_header_old _ _ _ _ _ Hct) by lia.
  - assert (h ∈ cb_height <$> replayed) as Hin.
    { rewrite Hrh. apply list_elem_of_In. unfold above_fork. apply in_zrange. lia. }
    apply list_elem_of_fmap in Hin as (b & -> & Hb).
    destruct (ct_header_new _ _ _ _ _ Hct b) as (rec' & -> & Hh' & Hraw'); [apply elem_of_app; by left|]. exists rec'. split; [done|].
    apply list_elem_of_In, (proj1 (Forall_forall _ _) Hrb) in Hb as [_ (r0 & Hr0 & _ & Hw & Hb0)]. rewrite Hrec in Hr0. injection Hr0 as ->. split; congruence.
Qed.
End History.
