(* ===== verification/Manager.v ===== *)
(** The chain manager (src/lib/chain/src/manager.rs): the object the node talks to.
    It owns the header index, the ingest tables, the mempool and the checkpoints,
    reads the chain through a [Store] and changes it through a [Sink]. Store, sink,
    clock and proof-of-work verifier are traits of traits.rs; together they are the
    class [ChainIO] over a world, and the operations of the manager are written in a
    state and error monad whose state survives an error, as a [&mut self] does. *)

From Stdlib Require Import ZArith Lia List String.
From stdpp Require Import base list gmap numbers.
From S2P Require Import Prelude Constants Limbs Asert Work Rules Checkpoint Codec Crypto TxRules ChainTypes State Body ChainWork Index ForkChoice CheckpointStore Reorg Budget Ingest Mempool TxIngress.
Open Scope Z_scope.

(** ** The traits: [Store], [Sink], [Clock] and [PowVerifier] over a world *)
Class ChainIO (W : Type) := {
  io_store : W -> Store;
  io_headers_range : W -> Z -> Z -> list bytes;
  io_side_headers_from : W -> Z -> Z -> list HeaderRec;
  io_capacity : W -> Z;
  io_commit_block : W -> CommitBlock -> W * option SinkError;
  io_commit_reorg : W -> ReorgCommit -> W * option SinkError;
  io_commit_deep_reorg : W -> DeepReorgCommit -> W * option SinkError;
  io_store_side_header : W -> SideHeaderRec -> W;
  io_mark_invalid : W -> Hash32 -> W;
  io_put_anchor : W -> SignedCheckpoint -> W * option SinkError;
  io_now_unix : W -> W * Z;
  io_mono_ms : W -> W * Z;
  io_pow_verify : bytes -> bool;
  io_cost_micros : Z;
}.

Record ChainManager (W : Type) := MkChainManager {
  cm_world : W;
  cm_params : ChainParams;
  cm_index : HeaderIndex;
  cm_ingest : Ingest;
  cm_memo : WorkCache;
  cm_cps : Checkpoints;
  cm_pool : Mempool;
  cm_tx_ingress : Ingress;
  cm_tip_epoch : Z;
  cm_bodies : gmap Hash32 bytes;
  cm_side_raws : gmap Hash32 bytes;
  cm_tip_ledger : CoinbaseLedger;
  cm_observer : bool;
  cm_emitted : list Condition;
  cm_stats : ChainStats;
  cm_halted : option string;
  cm_genesis_time : Z;
  cm_last_branch_failure : option Reject;
  cm_wanted_bodies : list Hash32;
}.
Arguments MkChainManager {W}.
Arguments cm_world {W}. Arguments cm_params {W}. Arguments cm_index {W}. Arguments cm_ingest {W}. Arguments cm_memo {W}.
Arguments cm_cps {W}. Arguments cm_pool {W}. Arguments cm_tx_ingress {W}. Arguments cm_tip_epoch {W}. Arguments cm_bodies {W}.
Arguments cm_side_raws {W}. Arguments cm_tip_ledger {W}. Arguments cm_observer {W}. Arguments cm_emitted {W}.
Arguments cm_stats {W}. Arguments cm_halted {W}. Arguments cm_genesis_time {W}. Arguments cm_last_branch_failure {W}.
Arguments cm_wanted_bodies {W}.

(** [self.field = x]. *)
Section Fields.
Context {W : Type} (m : ChainManager W).
Definition set_world (x : W) : ChainManager W :=
  MkChainManager x (cm_params m) (cm_index m) (cm_ingest m) (cm_memo m) (cm_cps m) (cm_pool m) (cm_tx_ingress m)
    (cm_tip_epoch m) (cm_bodies m) (cm_side_raws m) (cm_tip_ledger m) (cm_observer m) (cm_emitted m) (cm_stats m)
    (cm_halted m) (cm_genesis_time m) (cm_last_branch_failure m) (cm_wanted_bodies m).
Definition set_index (x : HeaderIndex) : ChainManager W :=
  MkChainManager (cm_world m) (cm_params m) x (cm_ingest m) (cm_memo m) (cm_cps m) (cm_pool m) (cm_tx_ingress m)
    (cm_tip_epoch m) (cm_bodies m) (cm_side_raws m) (cm_tip_ledger m) (cm_observer m) (cm_emitted m) (cm_stats m)
    (cm_halted m) (cm_genesis_time m) (cm_last_branch_failure m) (cm_wanted_bodies m).
Definition set_ingest (x : Ingest) : ChainManager W :=
  MkChainManager (cm_world m) (cm_params m) (cm_index m) x (cm_memo m) (cm_cps m) (cm_pool m) (cm_tx_ingress m)
    (cm_tip_epoch m) (cm_bodies m) (cm_side_raws m) (cm_tip_ledger m) (cm_observer m) (cm_emitted m) (cm_stats m)
    (cm_halted m) (cm_genesis_time m) (cm_last_branch_failure m) (cm_wanted_bodies m).
Definition set_memo (x : WorkCache) : ChainManager W :=
  MkChainManager (cm_world m) (cm_params m) (cm_index m) (cm_ingest m) x (cm_cps m) (cm_pool m) (cm_tx_ingress m)
    (cm_tip_epoch m) (cm_bodies m) (cm_side_raws m) (cm_tip_ledger m) (cm_observer m) (cm_emitted m) (cm_stats m)
    (cm_halted m) (cm_genesis_time m) (cm_last_branch_failure m) (cm_wanted_bodies m).
Definition set_cps (x : Checkpoints) : ChainManager W :=
  MkChainManager (cm_world m) (cm_params m) (cm_index m) (cm_ingest m) (cm_memo m) x (cm_pool m) (cm_tx_ingress m)
    (cm_tip_epoch m) (cm_bodies m) (cm_side_raws m) (cm_tip_ledger m) (cm_observer m) (cm_emitted m) (cm_stats m)
    (cm_halted m) (cm_genesis_time m) (cm_last_branch_failure m) (cm_wanted_bodies m).
Definition set_pool (x : Mempool) : ChainManager W :=
  MkChainManager (cm_world m) (cm_params m) (cm_index m) (cm_ingest m) (cm_memo m) (cm_cps m) x (cm_tx_ingress m)
    (cm_tip_epoch m) (cm_bodies m) (cm_side_raws m) (cm_tip_ledger m) (cm_observer m) (cm_emitted m) (cm_stats m)
    (cm_halted m) (cm_genesis_time m) (cm_last_branch_failure m) (cm_wanted_bodies m).
Definition set_tx_ingress (x : Ingress) : ChainManager W :=
  MkChainManager (cm_world m) (cm_params m) (cm_index m) (cm_ingest m) (cm_memo m) (cm_cps m) (cm_pool m) x
    (cm_tip_epoch m) (cm_bodies m) (cm_side_raws m) (cm_tip_ledger m) (cm_observer m) (cm_emitted m) (cm_stats m)
    (cm_halted m) (cm_genesis_time m) (cm_last_branch_failure m) (cm_wanted_bodies m).
Definition set_tip_epoch (x : Z) : ChainManager W :=
  MkChainManager (cm_world m) (cm_params m) (cm_index m) (cm_ingest m) (cm_memo m) (cm_cps m) (cm_pool m)
    (cm_tx_ingress m) x (cm_bodies m) (cm_side_raws m) (cm_tip_ledger m) (cm_observer m) (cm_emitted m) (cm_stats m)
    (cm_halted m) (cm_genesis_time m) (cm_last_branch_failure m) (cm_wanted_bodies m).
Definition set_bodies (x : gmap Hash32 bytes) : ChainManager W :=
  MkChainManager (cm_world m) (cm_params m) (cm_index m) (cm_ingest m) (cm_memo m) (cm_cps m) (cm_pool m)
    (cm_tx_ingress m) (cm_tip_epoch m) x (cm_side_raws m) (cm_tip_ledger m) (cm_observer m) (cm_emitted m)
    (cm_stats m) (cm_halted m) (cm_genesis_time m) (cm_last_branch_failure m) (cm_wanted_bodies m).
Definition set_side_raws (x : gmap Hash32 bytes) : ChainManager W :=
  MkChainManager (cm_world m) (cm_params m) (cm_index m) (cm_ingest m) (cm_memo m) (cm_cps m) (cm_pool m)
    (cm_tx_ingress m) (cm_tip_epoch m) (cm_bodies m) x (cm_tip_ledger m) (cm_observer m) (cm_emitted m) (cm_stats m)
    (cm_halted m) (cm_genesis_time m) (cm_last_branch_failure m) (cm_wanted_bodies m).
Definition set_tip_ledger (x : CoinbaseLedger) : ChainManager W :=
  MkChainManager (cm_world m) (cm_params m) (cm_index m) (cm_ingest m) (cm_memo m) (cm_cps m) (cm_pool m)
    (cm_tx_ingress m) (cm_tip_epoch m) (cm_bodies m) (cm_side_raws m) x (cm_observer m) (cm_emitted m) (cm_stats m)
    (cm_halted m) (cm_genesis_time m) (cm_last_branch_failure m) (cm_wanted_bodies m).
Definition set_emitted (x : list Condition) : ChainManager W :=
  MkChainManager (cm_world m) (cm_params m) (cm_index m) (cm_ingest m) (cm_memo m) (cm_cps m) (cm_pool m)
    (cm_tx_ingress m) (cm_tip_epoch m) (cm_bodies m) (cm_side_raws m) (cm_tip_ledger m) (cm_observer m) x (cm_stats m)
    (cm_halted m) (cm_genesis_time m) (cm_last_branch_failure m) (cm_wanted_bodies m).
Definition set_stats (x : ChainStats) : ChainManager W :=
  MkChainManager (cm_world m) (cm_params m) (cm_index m) (cm_ingest m) (cm_memo m) (cm_cps m) (cm_pool m)
    (cm_tx_ingress m) (cm_tip_epoch m) (cm_bodies m) (cm_side_raws m) (cm_tip_ledger m) (cm_observer m) (cm_emitted m)
    x (cm_halted m) (cm_genesis_time m) (cm_last_branch_failure m) (cm_wanted_bodies m).
Definition set_halted (x : option string) : ChainManager W :=
  MkChainManager (cm_world m) (cm_params m) (cm_index m) (cm_ingest m) (cm_memo m) (cm_cps m) (cm_pool m)
    (cm_tx_ingress m) (cm_tip_epoch m) (cm_bodies m) (cm_side_raws m) (cm_tip_ledger m) (cm_observer m) (cm_emitted m)
    (cm_stats m) x (cm_genesis_time m) (cm_last_branch_failure m) (cm_wanted_bodies m).
Definition set_genesis_time (x : Z) : ChainManager W :=
  MkChainManager (cm_world m) (cm_params m) (cm_index m) (cm_ingest m) (cm_memo m) (cm_cps m) (cm_pool m)
    (cm_tx_ingress m) (cm_tip_epoch m) (cm_bodies m) (cm_side_raws m) (cm_tip_ledger m) (cm_observer m) (cm_emitted m)
    (cm_stats m) (cm_halted m) x (cm_last_branch_failure m) (cm_wanted_bodies m).
Definition set_last_branch_failure (x : option Reject) : ChainManager W :=
  MkChainManager (cm_world m) (cm_params m) (cm_index m) (cm_ingest m) (cm_memo m) (cm_cps m) (cm_pool m)
    (cm_tx_ingress m) (cm_tip_epoch m) (cm_bodies m) (cm_side_raws m) (cm_tip_ledger m) (cm_observer m) (cm_emitted m)
    (cm_stats m) (cm_halted m) (cm_genesis_time m) x (cm_wanted_bodies m).
Definition set_wanted_bodies (x : list Hash32) : ChainManager W :=
  MkChainManager (cm_world m) (cm_params m) (cm_index m) (cm_ingest m) (cm_memo m) (cm_cps m) (cm_pool m)
    (cm_tx_ingress m) (cm_tip_epoch m) (cm_bodies m) (cm_side_raws m) (cm_tip_ledger m) (cm_observer m) (cm_emitted m)
    (cm_stats m) (cm_halted m) (cm_genesis_time m) (cm_last_branch_failure m) x.
End Fields.

(** ** Methods: the state survives an error *)
Definition method (W A : Type) : Type := ChainManager W -> ChainManager W * outcome Reject A.

Section Method.
Context {W : Type}.
Definition mret {A} (a : A) : method W A := fun m => (m, Ok a).
Definition mfail {A} (e : Reject) : method W A := fun m => (m, Err e).
Definition mlift {A} (r : outcome Reject A) : method W A := fun m => (m, r).
Definition mget : method W (ChainManager W) := fun m => (m, Ok m).
Definition mput (f : ChainManager W -> ChainManager W) : method W unit := fun m => (f m, Ok tt).
Definition mbind {A B} (x : method W A) (k : A -> method W B) : method W B := fun m =>
  match x m with
  | (m, Ok a) => k a m
  | (m, Err e) => (m, Err e)
  | (m, Panic) => (m, Panic)
  end.
End Method.

Notation "'let!' x ':=' m 'in' k" := (mbind m (fun x => k))
  (at level 10, x pattern, m at level 200, k at level 200,
   format "'[v' 'let!'  x  ':='  m  'in' '/' k ']'") : plaine_scope.
Notation "m ';!' k" := (mbind m (fun _ => k))
  (at level 100, k at level 200, right associativity, format "'[v' m  ';!' '/' k ']'") : plaine_scope.

Definition ChainStats_default : ChainStats := MkChainStats 0 0 0 0 0 0 0 0.
Definition WANTED_BODIES_CAP : Z := 512.

Inductive BranchVerdict := OnBest | NeedsBodies (missing : Z) | Stranded (cap : Z) | Adoptable.
Record BranchReport := MkBranchReport {
  br_tip : Z; br_best : Z; br_best_hash : Hash32; br_fork_height : Z; br_depth : Z; br_verdict : BranchVerdict;
}.

(** [skip] is sorted: where [binary_search] finds nothing it returns the place that keeps it so. *)
Fixpoint skip_insert (skip : list Z) (i : Z) : list Z :=
  match skip with
  | [] => [i]
  | x :: rest => if i =? x then skip else if i <? x then i :: skip else x :: skip_insert rest i
  end.

(** The records of a stored block after its coinbase. *)
Definition non_coinbase_bytes (st : Store) (height : Z) : list bytes :=
  match st_body_at st height with
  | None => []
  | Some raw =>
    match BlockBody_parse raw with
    | Ok body => omap (BlockBody_tx_bytes body) (seq 1 (Z.to_nat (BlockBody_len body) - 1))
    | _ => []
    end
  end.

Section Manager.
Context `{ED : Ed25519} {W : Type} `{IO : ChainIO W}.
Abbreviation Manager := (ChainManager W).
Abbreviation method := (method W).
Abbreviation store m := (io_store (cm_world m)).

Definition now_unix : method Z := fun m => let '(w, t) := io_now_unix (cm_world m) in (set_world m w, Ok t).
Definition mono_ms : method Z := fun m => let '(w, t) := io_mono_ms (cm_world m) in (set_world m w, Ok t).
(** Calls of the observer, when one is installed. *)
Definition emit (c : Condition) : method unit := mput (fun m => if cm_observer m then set_emitted m (cm_emitted m ++ [c]) else m).
Fixpoint emit_all (cs : list Condition) : method unit :=
  match cs with
  | [] => mret tt
  | c :: cs => emit c ;! emit_all cs
  end.
Definition bump_stats (f : ChainStats -> outcome Reject ChainStats) : method unit :=
  let! m := mget in
  let! s := mlift (f (cm_stats m)) in
  mput (fun m => set_stats m s).
Definition not_halted : method unit :=
  let! m := mget in
  match cm_halted m with
  | Some d => mfail (Halted d)
  | None => mret tt
  end.

(** ** Starting from the store *)

(** [self.memo.work(bits, &self.params.pow_limit)]. *)
Definition memo_work (bits : Z) : method (option Work) :=
  let! m := mget in
  let! (w, memo) := mlift (WorkCache_work (cm_memo m) bits (pow_limit (cm_params m))) in
  mput (fun m => set_memo m memo) ;!
  mret w.
Definition index_insert (rec : HeaderRec) (parent : Z) (cum : Work) : method Z :=
  let! m := mget in
  let! (idx, ix) := mlift (ix_insert (cm_index m) rec parent cum true) in
  mput (fun m => set_index m ix) ;!
  mret idx.
Definition update_index (f : HeaderIndex -> outcome Reject HeaderIndex) : method unit :=
  let! m := mget in
  let! ix := mlift (f (cm_index m)) in
  mput (fun m => set_index m ix).

(** The canonical headers above genesis, until one is missing. *)
Fixpoint load_chain (heights : list Z) (cum : Work) (chain : list Z) : method (list Z) :=
  match heights with
  | [] => mret chain
  | h :: heights =>
    let! m := mget in
    match st_header_at (store m) h with
    | None => mret chain
    | Some rec =>
      let! o := memo_work (hr_bits rec) in
      let! w := mlift (ok_or o (BootInvariant "stored bits are not a legal target")) in
      let! cum := mlift (ok_or (Work_checked_add cum w) (BootInvariant "chainwork overflow on load")) in
      let! parent := mlift (expect (list.last chain)) in
      let! idx := index_insert rec parent cum in
      update_index (fun ix => set_have_body ix idx) ;!
      load_chain heights cum (chain ++ [idx])
    end
  end.

(** Inserting a stored header under its parent: shared by the two functions below, which
    differ in what they do when a check fails. *)
Definition attach (rec : HeaderRec) : method (option Z) :=
  let! m := mget in
  match index_of (cm_index m) (hr_prev_hash rec) with
  | None => mret None
  | Some parent =>
    let! p := mlift (node (cm_index m) parent) in
    let! next := mlift (add_checked 64 (n_height p) 1) in
    if negb (next =? hr_height rec) then mret None else
    let! o := memo_work (hr_bits rec) in
    match o with
    | None => mret None
    | Some w =>
      match Work_checked_add (n_cum_work p) w with
      | None => mret None
      | Some cum =>
        let! idx := index_insert rec parent cum in
        let! m := mget in
        (if st_is_invalid (store m) (hr_hash rec) then update_index (fun ix => set_invalid_flag ix idx) else mret tt) ;!
        mret (Some idx)
      end
    end
  end.

Fixpoint rebuild_rows (cap : Z) (rows : list HeaderRec) (restored : Z) : method Z :=
  match rows with
  | [] => mret restored
  | rec :: rows =>
    if cap <=? restored then mret restored else
    let! m := mget in
    if ix_contains (cm_index m) (hr_hash rec) then rebuild_rows cap rows restored else
    let! o := attach rec in
    rebuild_rows cap rows (match o with Some _ => restored + 1 | None => restored end)
  end.
Definition rebuild_side_arena : method Z :=
  let! m := mget in
  let cap := max_side_headers (cm_params m) in
  let! restored := rebuild_rows cap (io_side_headers_from (cm_world m) 0 cap) 0 in
  bump_stats (fun s => Ok (MkChainStats (cst_headers_connected s) (cst_bodies_validated s) (cst_reorgs s) (cst_invalidated s)
                             (cst_poisoned s) (cst_deep_reorgs s) restored (cst_headers_readmitted s))) ;!
  mret restored.

Definition load_from_store : method unit :=
  let! m := mget in
  let tip := st_tip (store m) in
  let! genesis := mlift (ok_or (st_header_at (store m) 0) (BootInvariant "store holds no genesis")) in
  mput (fun m => set_genesis_time m (hr_time genesis)) ;!
  let! o := memo_work (hr_bits genesis) in
  let! gw := mlift (ok_or o (BootInvariant "genesis bits are not a legal target")) in
  update_index (fun ix => let? r := insert_genesis ix genesis gw in Ok (snd r)) ;!
  let! chain := load_chain (zrange 1 (tip_height tip + 1)) gw [0] in
  update_index (fun ix => set_canonical ix chain) ;!
  rebuild_side_arena ;!
  let! m := mget in
  let! height := mlift (ix_tip_height (cm_index m)) in
  let! ledger := mlift (build_ledger (store m) height) in
  mput (fun m => set_tip_ledger m ledger).

Definition boot_checks (params : ChainParams) : outcome Reject unit :=
  guard! negb (HEADER_BYTES =? 132) else BootInvariant "header is not 132 bytes" ;;
  guard! negb (MAX_BLOCK_BYTES =? 1048576) || negb (MAX_TXS_PER_BLOCK =? 4096) else BootInvariant "block limits moved" ;;
  let? consistent := profile_is_consistent params in
  guard! negb consistent else BootInvariant "ChainParams.profile does not match pow_limit" ;;
  guard! negb (class_reserve_is_survivable params io_cost_micros) else
    BootInvariant "class reserve below one interpreter call per 30 s" ;;
  guard! (max_peers params <? max_sources params) else
    BootInvariant "max_sources exceeds max_peers: the class reserve over-commits" ;;
  guard! (class_rate_micros_per_sec params <? class_aggregate_rate_micros_per_sec params) else
    BootInvariant "shared + max_sources x reserve exceeds the class cap" ;;
  Ok tt.
Definition ChainManager_empty (world : W) (params : ChainParams) (observer : bool) : Manager :=
  MkChainManager world params HeaderIndex_new (Ingest_new params) WorkCache_new Checkpoints_new
    (Mempool_new (mempool params)) Ingress_new 0 ∅ ∅ CoinbaseLedger_new observer [] ChainStats_default None 0 None [].
Definition ChainManager_new (world : W) (params : ChainParams) (observer : bool) : outcome Reject Manager :=
  let? _ := boot_checks params in
  match load_from_store (ChainManager_empty world params observer) with
  | (m, Ok _) => Ok m
  | (_, Err e) => Err e
  | (_, Panic) => Panic
  end.

(** ** Queries *)
Definition tip_ref (ix : HeaderIndex) : outcome Reject TipRef :=
  let? n := ix_tip ix in Ok (MkTipRef (n_height n) (n_hash n) (n_time n) (n_cum_work n)).
Definition tip (m : Manager) : outcome Reject TipRef := tip_ref (cm_index m).
Definition rec_of (m : Manager) (hash : Hash32) : option HeaderRec := st_header_by_hash (store m) hash.
Definition header_at (m : Manager) (height : Z) : outcome Reject (option HeaderRec) :=
  let? o := canonical_at (cm_index m) height in
  Ok (match o with Some n => rec_of m (n_hash n) | None => None end).
Definition header_raw (m : Manager) (hash : Hash32) : option bytes :=
  match cm_side_raws m !! hash with
  | Some r => Some r
  | None => hr_raw <$> st_header_by_hash (store m) hash
  end.
Definition ancestor_hash (m : Manager) (hash : Hash32) (height : Z) : outcome Reject (option Hash32) :=
  match index_of (cm_index m) hash with
  | None => Ok None
  | Some idx =>
    let? o := ancestor_at (cm_index m) idx height in
    match o with
    | None => Ok None
    | Some i => let? n := node (cm_index m) i in Ok (Some (n_hash n))
    end
  end.

(** [step *= 2] on an [i64]. *)
Definition double_i64 {E} (x : Z) : outcome E Z := if 2 * x <? 2 ^ 63 then Ok (2 * x) else Panic.
Fixpoint locator_loop (fuel : nat) (ix : HeaderIndex) (h step : Z) (out : list Hash32) : outcome Reject (list Hash32) :=
  if h <? 0 then Ok out else
  match fuel with
  | O => Panic
  | S fuel =>
    let? o := canonical_at ix h in
    let out := match o with Some n => out ++ [n_hash n] | None => out end in
    let? step := (if 10 <? Zlen out then double_i64 step else Ok step) in
    locator_loop fuel ix (h - step) step out
  end.
Definition locator (m : Manager) : outcome Reject (list Hash32) :=
  let ix := cm_index m in
  let? h := ix_tip_height ix in
  let? out := locator_loop (S (Z.to_nat h)) ix h 1 [] in
  let? o := canonical_at ix 0 in
  match o with
  | Some n => Ok (if bool_decide (list.last out = Some (n_hash n)) then out else out ++ [n_hash n])
  | None => Ok out
  end.

Definition headers_from (m : Manager) (from max : Z) : list bytes :=
  io_headers_range (cm_world m) from (Z.min max MAX_HEADERS_PER_MSG).
Definition have_body (m : Manager) (hash : Hash32) : bool :=
  bool_decide (is_Some (cm_bodies m !! hash)) || bool_decide (is_Some (st_body_by_hash (store m) hash)).
Definition body_bytes (m : Manager) (hash : Hash32) : option bytes :=
  match cm_bodies m !! hash with
  | Some b => Some b
  | None => st_body_by_hash (store m) hash
  end.

Definition branch_anchored (m : Manager) (plan : Plan) : outcome Reject bool :=
  match cps_anchor (cm_cps m) with
  | None => Ok false
  | Some a =>
    let? ns := try_mapi (fun _ i => node (cm_index m) i) 0 (apply plan) in
    Ok (existsb (fun n => (n_height n =? anchor_height a) && bytes_eqb (n_hash n) (anchor_hash a)) ns)
  end.
Definition branch_report (m : Manager) : outcome Reject BranchReport :=
  let? tip := ix_tip_height (cm_index m) in
  let? best_idx := select_best (cm_index m) in
  let? best_node := node (cm_index m) best_idx in
  let? o := plan_reorg (cm_index m) best_idx in
  let '(fork, dep) := match o with None => (tip, 0) | Some p => (fork_height p, depth p) end in
  let? verdict :=
    (match o with
     | None => Ok OnBest
     | Some plan =>
       let cap := max_reorg_depth (cm_params m) in
       let? anchored := branch_anchored m plan in
       if (0 <? cap) && (cap <? depth plan) && negb anchored then Ok (Stranded cap) else
       let? ns := try_mapi (fun _ i => node (cm_index m) i) 0 (apply plan) in
       let missing := Zlen (filter (fun n => have_body m (n_hash n) = false) ns) in
       Ok (if 0 <? missing then NeedsBodies missing else Adoptable)
     end) in
  Ok (MkBranchReport tip (n_height best_node) (n_hash best_node) fork dep verdict).

(** ** Headers *)
Definition ingest_ctx (m : Manager) (now mono : Z) (tip : TipRef) (solicitation : Solicitation) : IngestCtx :=
  MkIngestCtx (st_is_invalid (store m)) io_pow_verify io_cost_micros (cps_enforced (cm_cps m)) (cps_anchor (cm_cps m))
    (cm_params m) now mono tip (cm_genesis_time m) solicitation (cm_tip_epoch m)
    (saturating_sub (max_side_headers (cm_params m)) (Z.of_nat (size (cm_side_raws m)))).

Fixpoint keep_connected (connected : list HeaderRec) : method unit :=
  match connected with
  | [] => mret tt
  | rec :: connected =>
    let! m := mget in
    let! o := mlift (ix_get (cm_index m) (hr_hash rec)) in
    let cw := match o with Some n => n_cum_work n | None => Work_ZERO end in
    mput (fun m => set_side_raws m (<[hr_hash rec := hr_raw rec]> (cm_side_raws m))) ;!
    mput (fun m => set_world m (io_store_side_header (cm_world m) (MkSideHeaderRec rec cw))) ;!
    keep_connected connected
  end.

Definition ingest_headers (source : SourceId) (raws : list bytes) (solicitation : Solicitation) : method Accepted :=
  not_halted ;!
  (if MAX_HEADERS_PER_MSG <? Zlen raws then mfail (BatchTooLong (Zlen raws) MAX_HEADERS_PER_MSG) else mret tt) ;!
  let! now := now_unix in
  let! mono := mono_ms in
  let! m := mget in
  let! tip := mlift (tip_ref (cm_index m)) in
  match submit_headers (ingest_ctx m now mono tip solicitation) source (cm_ingest m) (cm_index m) (cm_memo m) raws with
  | (ig, Err e) => mput (fun m => set_ingest m ig) ;! mfail e
  | (ig, Panic) => mlift Panic
  | (ig, Ok (ix, memo, connected, conds, accepted)) =>
    mput (fun m => set_memo (set_index (set_ingest m ig) ix) memo) ;!
    emit_all conds ;!
    bump_stats (fun s => let? c := add_checked 64 (cst_headers_connected s) (ac_connected accepted) in
                         Ok (MkChainStats c (cst_bodies_validated s) (cst_reorgs s) (cst_invalidated s) (cst_poisoned s)
                               (cst_deep_reorgs s) (cst_side_headers_restored s) (cst_headers_readmitted s))) ;!
    keep_connected connected ;!
    mret accepted
  end.
Definition manager_submit_headers (source : SourceId) (raws : list bytes) : method Accepted :=
  ingest_headers source raws Unsolicited.
Definition submit_headers_solicited (source : SourceId) (raws : list bytes) : method Accepted :=
  ingest_headers source raws SolicitedIbd.
Definition submit_headers_solicited_steady (source : SourceId) (raws : list bytes) : method Accepted :=
  ingest_headers source raws SolicitedSteady.
Definition forget_source (source : SourceId) : method unit :=
  mput (fun m => set_tx_ingress (set_ingest m (forget (cm_ingest m) source)) (ingress_forget (cm_tx_ingress m) source)).

(** ** Bodies *)
Definition readmit_persisted_header (hash : Hash32) : method (option Z) :=
  let! m := mget in
  match st_header_by_hash (store m) hash with
  | None => mret None
  | Some rec =>
    if negb (bytes_eqb (hr_hash rec) hash) then mret None else
    let! o := attach rec in
    match o with
    | None => mret None
    | Some idx =>
      bump_stats (fun s => let? c := add_checked 64 (cst_headers_readmitted s) 1 in
                           Ok (MkChainStats (cst_headers_connected s) (cst_bodies_validated s) (cst_reorgs s) (cst_invalidated s)
                                 (cst_poisoned s) (cst_deep_reorgs s) (cst_side_headers_restored s) c)) ;!
      mret (Some idx)
    end
  end.

Definition submit_block (hash : Hash32) (body : bytes) : method unit :=
  not_halted ;!
  let! m := mget in
  let! idx := match index_of (cm_index m) hash with
              | Some i => mret i
              | None => let! o := readmit_persisted_header hash in mlift (ok_or o (BodyNotAdmissible hash))
              end in
  let! m := mget in
  let! n := mlift (node (cm_index m) idx) in
  if negb (n_pow_ok n) || n_invalid n then mfail (BodyNotAdmissible hash) else
  if have_body m hash then mfail (BodyAlreadyHeld hash) else
  if MAX_BLOCK_BYTES <? Zlen body + HEADER_BYTES then mfail (BodyStructure "body over MAX_BLOCK_BYTES") else
  mput (fun m => set_bodies m (<[hash := body]> (cm_bodies m))) ;!
  update_index (fun ix => set_have_body ix idx).

(** ** Adoption *)
Definition invalidate (hash : Hash32) : method unit :=
  let! m := mget in
  match index_of (cm_index m) hash with
  | None => mret tt
  | Some idx =>
    let! (poisoned, ix) := mlift (mark_invalid (cm_index m) idx) in
    mput (fun m => set_index m ix) ;!
    bump_stats (fun s => let? i := add_checked 64 (cst_invalidated s) 1 in
                         let? p := add_checked 64 (cst_poisoned s) poisoned in
                         Ok (MkChainStats (cst_headers_connected s) (cst_bodies_validated s) (cst_reorgs s) i p
                               (cst_deep_reorgs s) (cst_side_headers_restored s) (cst_headers_readmitted s))) ;!
    mput (fun m => set_world m (io_mark_invalid (cm_world m) hash))
  end.

(** The headers and bodies of the planned branch, from memory or from the store. *)
Definition branch_block (m : Manager) (i : Z) : outcome Reject (HeaderRec * bytes) :=
  let? n := node (cm_index m) i in
  let? raw := ok_or (header_raw m (n_hash n)) (BranchInvalid (n_height n) (n_hash n) (BodyNotAdmissible (n_hash n))) in
  let? body := ok_or (body_bytes m (n_hash n)) (BodyNotAdmissible (n_hash n)) in
  let? rec := HeaderRec_from_raw raw in
  Ok (rec, body).
Definition plan_branch (m : Manager) (plan : Plan) : outcome Reject (list (HeaderRec * bytes)) :=
  try_mapi (fun _ i => branch_block m i) 0 (apply plan).
Definition branch_work (m : Manager) (plan : Plan) : outcome Reject (list Work) :=
  try_mapi (fun _ i => let? n := node (cm_index m) i in Ok (n_cum_work n)) 0 (apply plan).
Definition chainwork_at (ix : HeaderIndex) (h : Z) : Work :=
  match canonical_at (E := Reject) ix h with Ok (Some n) => n_cum_work n | _ => Work_ZERO end.

(** Rewind to the fork, then validate the branch: the blocks to commit, the nonces they
    spend and what the rewind was based on. *)
Definition plan_outcome (m : Manager) (plan : Plan) (tip_height : Z) (branch : list (HeaderRec * bytes)) (works : list Work)
    : observed (list CommitBlock * list (Address * Z) * Base) :=
  let o := Overlay_new (reorg_overlay_max_accounts (cm_params m)) in
  match rewind_to_fork (store m) (cm_params m) o tip_height (fork_height plan) (chainwork_at (cm_index m)) with
  | (obs, Err e) => (obs, Err e)
  | (obs, Panic) => (obs, Panic)
  | (obs, Ok (base, o, ledger, replayed)) =>
    let '(obs2, r) := validate_branch (store m) (cm_params m) o ledger branch (fun i => default Work_ZERO (zlookup works i)) in
    (obs ++ obs2,
     let? r := r in
     let '(commits, spent, _, _) := r in
     Ok (replayed ++ commits, spent, base))
  end.

Definition sink_commit (base : Base) (plan : Plan) (commits : list CommitBlock) : method (option SinkError) :=
  let! m := mget in
  match base, rollback plan, commits with
  | DeepReplay rewind_to, _, _ =>
    let '(w, r) := io_commit_deep_reorg (cm_world m) (MkDeepReorgCommit rewind_to commits) in
    mput (fun m => set_world m w) ;! mret r
  | UndoWindow, [], [b] =>
    let '(w, r) := io_commit_block (cm_world m) b in
    mput (fun m => set_world m w) ;! mret r
  | UndoWindow, rb, _ =>
    let '(w, r) := io_commit_reorg (cm_world m) (MkReorgCommit rb commits) in
    mput (fun m => set_world m w) ;! mret r
  end.

Definition is_deep (base : Base) : bool := match base with DeepReplay _ => true | UndoWindow => false end.
Definition spendable_at (m : Manager) (height : Z) (a : Address) (balance : Z) : Z :=
  ledger_spendable (cm_tip_ledger m) a balance height.

Definition manager_update_mempool (spent : list (Address * Z)) (disconnected : list (Z * list bytes)) : method unit :=
  let! (now, height) :=
    match disconnected with
    | [] => mret (0, 0)
    | _ :: _ =>
      let! now := now_unix in
      let! m := mget in
      let! h := mlift (ix_tip_height (cm_index m)) in
      let! height := mlift (add_checked 64 h 1) in
      mret (now, height)
    end in
  let! m := mget in
  let! (p, conds) := mlift (update_mempool (cm_pool m) spent disconnected (st_account (store m)) (spendable_at m height) now) in
  mput (fun m => set_pool m p) ;!
  emit_all conds.

(** The bookkeeping after the sink has taken the branch. *)
Definition adopt_branch (best : Z) (plan : Plan) (base : Base) (spent : list (Address * Z)) (disconnected : list (Z * list bytes))
    : method Progress :=
  let! m := mget in
  let! chain := mlift (ancestry (cm_index m) best) in
  update_index (fun ix => set_canonical ix chain) ;!
  mput (fun m => set_tip_epoch m (wrap 64 (cm_tip_epoch m + 1))) ;!
  let! m := mget in
  let! ns := mlift (try_mapi (fun _ i => node (cm_index m) i) 0 (apply plan)) in
  mput (fun m => set_side_raws (set_bodies m (foldl (fun b n => delete (n_hash n) b) (cm_bodies m) ns))
                   (foldl (fun r n => delete (n_hash n) r) (cm_side_raws m) ns)) ;!
  bump_stats (fun s =>
    let? r := (if 0 <? Zlen (rollback plan) then add_checked 64 (cst_reorgs s) 1 else Ok (cst_reorgs s)) in
    let? d := (if is_deep base then add_checked 64 (cst_deep_reorgs s) 1 else Ok (cst_deep_reorgs s)) in
    Ok (MkChainStats (cst_headers_connected s) (cst_bodies_validated s) r (cst_invalidated s) (cst_poisoned s) d
          (cst_side_headers_restored s) (cst_headers_readmitted s))) ;!
  let! m := mget in
  let! height := mlift (ix_tip_height (cm_index m)) in
  let! ledger := mlift (build_ledger (store m) height) in
  mput (fun m => set_tip_ledger m ledger) ;!
  manager_update_mempool spent disconnected ;!
  let! m := mget in
  let! t := mlift (tip m) in
  mret (Advanced t (Zlen (rollback plan)) (Zlen (apply plan))).

Definition sink_verdict (r : option SinkError) : method unit :=
  match r with
  | None => mret tt
  | Some SinkFull => mfail Busy
  | Some (SinkInvalid d) => mfail (SinkRefused d)
  | Some (SinkFatal d) =>
    mput (fun m => set_halted m (Some d)) ;!
    emit (CStorageFatal d) ;!
    mfail (Halted d)
  end.

(** The rule's verdict on the candidate, reported when the reorganisation is too deep. *)
Definition judge (plan : Plan) (tip_height start_height now : Z) : method unit :=
  let! m := mget in
  let! candidate := mlift (plan_candidate (cm_index m) (pow_limit (cm_params m)) plan) in
  match evaluate_reorg_with_cap (MkArenaView (cm_index m) (pow_limit (cm_params m))) start_height candidate
          (MkReorgParams (cps_anchor (cm_cps m)) (cps_enforced (cm_cps m)) now) (max_reorg_depth (cm_params m)) with
  | Ok _ => mret tt
  | Panic => mlift Panic
  | Err e =>
    match e with
    | ReorgTooDeep d _ =>
      emit (CReorgTooDeepRefused tip_height (match list.last candidate with Some c => hi_height c | None => 0 end) d (fork_height plan))
    | _ => mret tt
    end ;!
    mfail (Rule e)
  end.

Definition try_adopt (best : Z) (plan : Plan) : method Progress :=
  let! now := now_unix in
  let! m := mget in
  let! tip_height := mlift (ix_tip_height (cm_index m)) in
  let! start_height := mlift (add_checked 64 (fork_height plan) 1) in
  judge plan tip_height start_height now ;!
  let! m := mget in
  let disconnected := (fun h => (h, non_coinbase_bytes (store m) h)) <$> rollback plan in
  let! branch := mlift (plan_branch m plan) in
  let! works := mlift (branch_work m plan) in
  let '(conds, outcome) := plan_outcome m plan tip_height branch works in
  emit_all conds ;!
  let! (commits, spent, base) := mlift outcome in
  bump_stats (fun s => let? b := add_checked 64 (cst_bodies_validated s) (Zlen branch) in
                       Ok (MkChainStats (cst_headers_connected s) b (cst_reorgs s) (cst_invalidated s) (cst_poisoned s)
                             (cst_deep_reorgs s) (cst_side_headers_restored s) (cst_headers_readmitted s))) ;!
  let! result := sink_commit base plan commits in
  sink_verdict result ;!
  adopt_branch best plan base spent disconnected.

(** The scan for bodies the branch misses: the position of the first and the hashes to ask for. *)
Fixpoint scan_bodies (m : Manager) (branch : list Z) (pos : nat) (first : option nat) (pending : list Hash32)
    : outcome Reject (option nat * list Hash32) :=
  match branch with
  | [] => Ok (first, pending)
  | i :: branch =>
    let? n := node (cm_index m) i in
    if have_body m (n_hash n) then scan_bodies m branch (S pos) first pending else
    let first := match first with None => Some pos | Some _ => first end in
    let pending := if (Zlen pending <? WANTED_BODIES_CAP) && bool_decide (n_hash n ∉ pending)
                   then pending ++ [n_hash n] else pending in
    scan_bodies m branch (S pos) first pending
  end.

Definition settle (pending : list Hash32) (first_refusal : option Reject) : method Progress :=
  mput (fun m => set_wanted_bodies m pending) ;!
  match pending, first_refusal with
  | _ :: _, _ => mret (NeedBodies pending)
  | [], Some e => mfail e
  | [], None => mret NoChange
  end.

Definition side_header (m : Manager) (hash : Hash32) : outcome Reject bool :=
  match index_of (cm_index m) hash with
  | None => Ok false
  | Some i => let? c := is_canonical (cm_index m) i in Ok (negb c)
  end.

(** One turn of the loop for each header skipped or invalidated; [advance] shows how much
    fuel that is. *)
Fixpoint advance_loop (fuel : nat) (refused : list Z) (first_refusal : option Reject) (pending : list Hash32) : method Progress :=
  match fuel with
  | O => mlift Panic
  | S fuel =>
    let! m := mget in
    let! best := mlift (select_best_excluding (cm_index m) refused) in
    if bool_decide (best ∈ refused) then settle pending first_refusal else
    let! o := mlift (plan_reorg (cm_index m) best) in
    match o with
    | None => settle pending first_refusal
    | Some plan =>
      let! (first_missing, pending) := mlift (scan_bodies m (apply plan) 0 None pending) in
      match first_missing with
      | Some pos => advance_loop fuel (foldl skip_insert refused (drop pos (apply plan))) first_refusal pending
      | None => fun m =>
        match try_adopt best plan m with
        | (m, Ok p) => (set_wanted_bodies m pending, Ok p)
        | (m, Err (BranchInvalid height hash cause)) =>
          (let! is_side := mlift (side_header m hash) in
           if negb is_side then mfail (BranchInvalid height hash cause) else
           mput (fun m => set_last_branch_failure m (Some (BranchInvalid height hash cause))) ;!
           invalidate hash ;!
           advance_loop fuel refused first_refusal pending) m
        | (m, Err (Rule e)) =>
          (mput (fun m => set_last_branch_failure m (Some (Rule e))) ;!
           advance_loop fuel (skip_insert refused best) (or_else first_refusal (Rule e)) pending) m
        | (m, Err e) => (set_wanted_bodies m pending, Err e)
        | (m, Panic) => (m, Panic)
        end
      end
    end
  end.
Definition advance : method Progress :=
  not_halted ;!
  let! m := mget in
  advance_loop (2 * length (ix_nodes (cm_index m)) + 1) [] None [].

(** ** Transactions and checkpoints *)

(** [order] is the order in which the table of sources is walked. *)
Definition submit_tx (order : list SourceId) (origin : TxOrigin) (raw : bytes) : method PoolAdmission :=
  not_halted ;!
  match origin with
  | Local => mret tt
  | Peer source =>
    let! mono := mono_ms in
    let! m := mget in
    match ingress_admit order (cm_tx_ingress m) source (cm_params m) mono with
    | (ti, Ok _) => mput (fun m => set_tx_ingress m ti)
    | (ti, Err e) =>
      mput (fun m => set_tx_ingress m ti) ;!
      emit (tx_ingress_exhausted source) ;!
      mfail e
    | (_, Panic) => mlift Panic
    end
  end ;!
  let! now := now_unix in
  let! m := mget in
  let! h := mlift (ix_tip_height (cm_index m)) in
  let! height := mlift (add_checked 64 h 1) in
  let lookup a := let ac := st_account (store m) a in (ac, spendable_at m height a (acc_balance ac)) in
  let! (p, conds, out) :=
    mlift (submit_verified (cm_pool m) (network (cm_params m)) raw lookup now (author_pubkey (cm_params m))) in
  mput (fun m => set_pool m p) ;!
  emit_all conds ;!
  match out with
  | inl e => mfail e
  | inr a => mret a
  end.

Definition block_template (m : Manager) : list bytes :=
  template (cm_pool m) (MAX_TXS_PER_BLOCK - 1) (MAX_BLOCK_BYTES - HEADER_BYTES - 4096).

Definition submit_checkpoint (cp : SignedCheckpoint) : method CheckpointReport :=
  let! m := mget in
  let! (report, cps, conds) :=
    mlift (submit (cm_cps m) cp (MkArenaView (cm_index m) (pow_limit (cm_params m))) (cm_params m)) in
  mput (fun m => set_cps m cps) ;!
  emit_all conds ;!
  (if anchor_advanced report then
     let! m := mget in
     let '(w, r) := io_put_anchor (cm_world m) cp in
     mput (fun m => set_world m w) ;!
     match r with
     | Some e => emit (CAnchorNotPersisted (cp_height cp) e)
     | None => mret tt
     end
   else mret tt) ;!
  mret report.
Definition manager_load_anchor (cp : SignedCheckpoint) : method bool :=
  let! m := mget in
  let '(b, cps) := load_anchor (cm_cps m) cp (cm_params m) in
  mput (fun m => set_cps m cps) ;!
  mret b.
End Manager.
