(* ===== verification/ManagerInv.v ===== *)
(** The invariant of the chain manager and the proof that [advance] keeps it. The
    traits behind the manager are used through [ChainIOLaws]: what the store, the sink
    and the clock promise. A small weakest-precondition calculus over the manager's
    monad carries the proofs. *)

From Stdlib Require Import ZArith Lia List String Sorted.
From stdpp Require Import base list gmap numbers.
From S2P Require Import Prelude Constants Limbs Asert Work Rules Checkpoint Codec Crypto TxRules ChainTypes State Body BodyEquiv ChainWork Index ForkChoice CheckpointStore Reorg History Budget Ingest Mempool MempoolInv TxIngress Manager.
Open Scope Z_scope.

(** ** Weakest preconditions of methods *)
Definition wp {W A} (x : method W A) (Q : ChainManager W -> outcome Reject A -> Prop) (m : ChainManager W) : Prop :=
  Q (fst (x m)) (snd (x m)).

Section Wp.
Context {W : Type}.
Lemma wp_ret {A} (a : A) Q (m : ChainManager W) : Q m (Ok a) -> wp (mret a) Q m.
Proof. done. Qed.
Lemma wp_fail {A} e Q (m : ChainManager W) : Q m (Err e) -> wp (A := A) (mfail e) Q m.
Proof. done. Qed.
Lemma wp_lift {A} (r : outcome Reject A) Q (m : ChainManager W) : Q m r -> wp (mlift r) Q m.
Proof. done. Qed.
Lemma wp_get Q (m : ChainManager W) : Q m (Ok m) -> wp mget Q m.
Proof. done. Qed.
Lemma wp_put f Q (m : ChainManager W) : Q (f m) (Ok tt) -> wp (mput f) Q m.
Proof. done. Qed.
Lemma wp_bind {A B} (x : method W A) (k : A -> method W B) Q m :
  wp x (fun m' r => match r with Ok a => wp (k a) Q m' | Err e => Q m' (Err e) | Panic => Q m' Panic end) m ->
  wp (mbind x k) Q m.
Proof. unfold wp, mbind. by destruct (x m) as [m' [a|e|]]. Qed.
Lemma wp_mono {A} (x : method W A) (P Q : ChainManager W -> outcome Reject A -> Prop) m :
  wp x P m -> (forall m' r, P m' r -> Q m' r) -> wp x Q m.
Proof. unfold wp. auto. Qed.
End Wp.

(** One instruction of a method. *)
Ltac wp_step :=
  match goal with
  | |- wp (mbind _ _) _ _ => apply wp_bind
  | |- wp (mret _) _ _ => apply wp_ret
  | |- wp (mfail _) _ _ => apply wp_fail
  | |- wp (mlift _) _ _ => apply wp_lift
  | |- wp mget _ _ => apply wp_get
  | |- wp (mput _) _ _ => apply wp_put
  end.
Ltac wp_steps := repeat (wp_step; cbv beta iota).

(** ** What the traits promise *)

(** The proof-of-work verifier the headers went through. *)
Class Verifier := verified : bytes -> bool.

Section Sound.
Context `{V : Verifier}.
(** A header record is its raw bytes, read; above genesis its proof of work was verified. *)
Definition rec_sound (r : HeaderRec) : Prop :=
  Zlen (hr_raw r) = HEADER_BYTES /\ bytes_ok (hr_raw r) /\ HeaderRec_from_raw (E := Reject) (hr_raw r) = Ok r /\
  (0 < hr_height r -> verified (hr_raw r) = true).
Record store_ok (st : Store) : Prop := {
  so_by_hash : forall h r, st_header_by_hash st h = Some r -> rec_sound r /\ hr_hash r = h;
  so_body_at : forall h raw, st_body_at st h = Some raw -> bytes_ok raw;
  so_body_by_hash : forall h raw, st_body_by_hash st h = Some raw -> bytes_ok raw;
}.

(** The store with another record of invalid headers. *)
Definition with_invalid (st : Store) (f : Hash32 -> bool) : Store :=
  MkStore (st_tip st) (st_header_at st) (st_header_by_hash st) (st_hash_at st) (st_body_at st) (st_body_by_hash st)
    (st_account st) (st_undo_at st) (st_undo_floor st) (st_replay_floor st) (st_checkpoint_at_or_below st)
    (st_state_snapshot st) (st_issued st) f.

(** The store with another table of headers by hash. *)
Definition with_by_hash (st : Store) (f : Hash32 -> option HeaderRec) : Store :=
  MkStore (st_tip st) (st_header_at st) f (st_hash_at st) (st_body_at st) (st_body_by_hash st)
    (st_account st) (st_undo_at st) (st_undo_floor st) (st_replay_floor st) (st_checkpoint_at_or_below st)
    (st_state_snapshot st) (st_issued st) (st_is_invalid st).

(** After a successful commit: the blocks are there, and headers found by hash are old ones or theirs. *)
Record commit_law (st st' : Store) (base : Z) (f : Address -> Account) (blocks : list CommitBlock) : Prop := {
  cl_committed : committed st st' base f blocks;
  cl_by_hash : forall h r, st_header_by_hash st' h = Some r -> st_header_by_hash st h = Some r \/
    exists b, b ∈ blocks /\ cb_hash b = h /\ hr_raw r = cb_header_raw b;
}.

(** A block whose bytes are what its types say. *)
Record block_fine (b : CommitBlock) : Prop := {
  bf_raw : Zlen (cb_header_raw b) = HEADER_BYTES;
  bf_hash : header_hash (cb_header_raw b) = cb_hash b;
  bf_header : exists hdr, Header_decode (cb_header_raw b) = Ok hdr;
  bf_bytes : bytes_ok (cb_header_raw b);
  bf_body : bytes_ok (cb_body b);
  bf_verified : verified (cb_header_raw b) = true;
}.
End Sound.
#[export] Instance io_verifier `{ChainIO W} : Verifier := io_pow_verify.

Section Laws.
Context `{ED : Ed25519} {W : Type} `{IO : ChainIO W}.

Definition commits_to (inv : W -> Prop) (states : Z -> Address -> Account) (w : W) (r : W * option SinkError) (base : Z) (blocks : list CommitBlock) : Prop :=
  inv (fst r) /\
  match snd r with
  | None => commit_law (io_store w) (io_store (fst r)) base (states base) blocks
  | Some (SinkFatal _) => True
  | Some _ => io_store (fst r) = io_store w
  end.
(** A commit the manager may ask for: above a block of the history the store holds, with sound blocks at consecutive
    heights, their hashes different from each other and from those below them. *)
Record request (params : ChainParams) (states : Z -> Address -> Account) (w : W) (base tip : Z) (blocks : list CommitBlock) : Prop := {
  rq_history : holds_history (io_store w) params states tip;
  rq_tip : tip_height (st_tip (io_store w)) = tip;
  rq_base : 0 <= base <= tip;
  rq_heights : heights_from base blocks;
  rq_fine : Forall block_fine blocks;
  rq_fresh : forall b h rec, b ∈ blocks -> 0 <= h <= base -> st_header_at (io_store w) h = Some rec -> hr_hash rec <> cb_hash b;
  rq_distinct : List.NoDup (cb_hash <$> blocks);
}.

Class ChainIOLaws (params : ChainParams) (inv : W -> Prop) : Prop := {
  io_store_ok : forall w, inv w -> store_ok (io_store w);
  io_now_law : forall w, inv w -> inv (fst (io_now_unix w)) /\ io_store (fst (io_now_unix w)) = io_store w;
  io_mono_law : forall w, inv w -> inv (fst (io_mono_ms w)) /\ io_store (fst (io_mono_ms w)) = io_store w;
  io_invalid_law : forall w h, inv w -> inv (io_mark_invalid w h) /\
    exists f, io_store (io_mark_invalid w h) = with_invalid (io_store w) f;
  io_side_law : forall w sh, inv w -> rec_sound (sh_rec sh) -> inv (io_store_side_header w sh) /\
    exists f, io_store (io_store_side_header w sh) = with_by_hash (io_store w) f /\
      forall h r, f h = Some r -> st_header_by_hash (io_store w) h = Some r \/ (h = hr_hash (sh_rec sh) /\ r = sh_rec sh);
  io_anchor_law : forall w cp, inv w -> inv (fst (io_put_anchor w cp)) /\ io_store (fst (io_put_anchor w cp)) = io_store w;
  io_block_law : forall states w b tip, inv w -> request params states w tip tip [b] ->
    commits_to inv states w (io_commit_block w b) tip [b];
  io_reorg_law : forall states w fork tip bs, inv w -> request params states w fork tip bs -> have_all_undo (io_store w) fork tip = true ->
    commits_to inv states w (io_commit_reorg w (MkReorgCommit (rev (above_fork fork tip)) bs)) fork bs;
  io_deep_law : forall states w r tip bs, inv w -> request params states w r tip bs ->
    commits_to inv states w (io_commit_deep_reorg w (MkDeepReorgCommit r bs)) r bs;
}.
End Laws.

(** *** The sorted list of skipped headers *)
Lemma skip_insert_elem l i x : x ∈ skip_insert l i <-> x = i \/ x ∈ l.
Proof.
  induction l as [|y l IH]; cbn [skip_insert]; [by rewrite list_elem_of_singleton, elem_of_nil; tauto|].
  destruct (Z.eqb_spec i y) as [->|]; [rewrite !elem_of_cons; tauto|]. destruct (i <? y); rewrite !elem_of_cons, ?IH; tauto.
Qed.
Lemma skip_insert_sorted l i : StronglySorted Z.lt l -> StronglySorted Z.lt (skip_insert l i).
Proof.
  induction 1 as [|y l Hs IH Hy]; cbn [skip_insert]; [repeat constructor|]. destruct (Z.eqb_spec i y) as [->|Hne]; [by constructor|].
  rewrite Forall_forall in Hy. destruct (Z.ltb_spec i y) as [Hlt|Hge].
  - constructor; [constructor; [done|by apply Forall_forall]|]. constructor; [done|]. apply Forall_forall. intros x Hx. specialize (Hy x Hx). lia.
  - constructor; [done|]. apply Forall_forall. intros x Hx. apply list_elem_of_In, skip_insert_elem in Hx as [->|Hx]; [lia|]. by apply Hy, list_elem_of_In.
Qed.
Lemma skip_insert_length l i : (length l <= length (skip_insert l i))%nat /\ (i ∉ l -> length (skip_insert l i) = S (length l)).
Proof.
  induction l as [|y l [IH1 IH2]]; cbn [skip_insert]; [cbn; lia|]. rewrite not_elem_of_cons.
  destruct (Z.eqb_spec i y) as [->|]; [split; [lia|tauto]|]. destruct (i <? y); cbn [length]; [lia|]. split; [lia|]. intros [_ Hn]. by rewrite IH2.
Qed.
Lemma skip_all_spec l : forall skip, StronglySorted Z.lt skip -> StronglySorted Z.lt (foldl skip_insert skip l) /\
  (forall x, x ∈ foldl skip_insert skip l <-> x ∈ l \/ x ∈ skip) /\
  (length skip <= length (foldl skip_insert skip l))%nat /\
  forall x, x ∈ l -> x ∉ skip -> (length skip < length (foldl skip_insert skip l))%nat.
Proof.
  induction l as [|i l IH]; intros skip Hs; cbn [foldl].
  - split_and!; [done| |lia|by intros x ?%not_elem_of_nil]. intros x. rewrite elem_of_nil. tauto.
  - destruct (IH (skip_insert skip i) (skip_insert_sorted _ _ Hs)) as (H1 & H2 & H3 & H4). destruct (skip_insert_length skip i) as [L1 L2].
    split_and!; [done| |lia|].
    + intros x. rewrite H2, skip_insert_elem, elem_of_cons. tauto.
    + intros x Hx Hn. destruct (decide (i ∈ skip)) as [Hi|Hi]; [|rewrite L2 in H3 by done; lia].
      apply elem_of_cons in Hx as [->|Hx]; [done|]. assert (x ∉ skip_insert skip i) as Hx' by (rewrite skip_insert_elem; intros [->|?]; done).
      specialize (H4 x Hx Hx'). lia.
Qed.
Lemma sorted_bounded l n : StronglySorted Z.lt l -> (forall x, x ∈ l -> 0 <= x < n) -> Zlen l <= Z.max 0 n.
Proof.
  intros Hs Hb. assert (List.NoDup l) as Hn.
  { clear Hb. induction Hs as [|x l Hs IH Hx]; constructor; [|done]. intros Hin. rewrite Forall_forall in Hx. specialize (Hx x Hin). lia. }
  destruct (Z.le_gt_cases n 0) as [Hle|Hgt].
  - destruct l as [|x l]; [change (Zlen []) with 0; lia|]. specialize (Hb x (list_elem_of_here _ _)). lia.
  - pose proof (NoDup_incl_length Hn (l' := zrange 0 n)) as Hl. pose proof (Zlen_zrange 0 n ltac:(lia)) as Hz. unfold Zlen in *.
    assert (incl l (zrange 0 n)) as Hi by (intros x Hx; apply in_zrange; apply Hb; by apply list_elem_of_In). specialize (Hl Hi). lia.
Qed.

Lemma poisoned_nonneg {E} l : forall ns k ns' c, ofold (poison_step (E := E)) (ns, k) l = Ok (ns', c) -> k <= c.
Proof.
  induction l as [|i l IH]; intros ns k ns' c H; cbn [ofold] in H; [invert_ok; lia|]. step_in H. destruct a as [ns1 k1]. apply IH in H.
  enough (k <= k1) by lia. clear H. unfold poison_step in E0. step_in E0. step_in E0; [invert_ok; lia|]. step_in E0.
  step_in E0; [|invert_ok; lia]. step_in E0. step_in E0. invert_ok. unfold add_checked in E4. apply expect_ok, checked_add_some in E4. lia.
Qed.

(** A hash names one node. *)
Lemma index_hash_inj ix i j ni nj : index_wf ix -> zlookup (ix_nodes ix) i = Some ni -> zlookup (ix_nodes ix) j = Some nj ->
  n_hash ni = n_hash nj -> i = j.
Proof.
  intros Hw Hi Hj E. assert (ix_by_hash ix !! n_hash ni = Some i) as H1 by (apply (wf_hash _ Hw); eauto).
  assert (ix_by_hash ix !! n_hash ni = Some j) as H2 by (apply (wf_hash _ Hw); eauto). congruence.
Qed.

Lemma same_tree_indexed ix ix' h : index_wf ix -> index_wf ix' -> same_tree (ix_nodes ix) (ix_nodes ix') ->
  is_Some (index_of ix h) -> is_Some (index_of ix' h).
Proof.
  intros W W' T [i Hi]. apply (wf_hash _ W) in Hi as (n & Hn & <-). destruct (same_tree_lookup _ _ _ _ T Hn) as (n' & Hn' & Hsk).
  exists i. apply (wf_hash _ W'). exists n'. split; [done|]. by injection Hsk as ->.
Qed.

Section Inv.
Context `{ED : Ed25519} {W : Type} `{IO : ChainIO W} (params : ChainParams) (inv : W -> Prop) {L : ChainIOLaws params inv}.
Abbreviation Manager := (ChainManager W).
Abbreviation store m := (io_store (cm_world m)).
Abbreviation nodes m := (ix_nodes (cm_index m)).
Abbreviation limit := (pow_limit params).
Abbreviation height m := (Zlen (ix_canonical (cm_index m)) - 1).

(** The raw header kept for a node is the node's. *)
Definition raw_ok (n : Node) (raw : bytes) : Prop :=
  Zlen raw = HEADER_BYTES /\ header_hash raw = n_hash n /\ exists hdr, Header_decode raw = Ok hdr /\ h_height hdr = n_height n /\ bytes_ok raw /\
    (0 < n_height n -> verified raw = true).
Definition raws_match (m : Manager) : Prop := forall i n, zlookup (nodes m) i = Some n ->
  (forall raw, cm_side_raws m !! n_hash n = Some raw -> raw_ok n raw) /\
  (forall r, st_header_by_hash (store m) (n_hash n) = Some r -> raw_ok n (hr_raw r)).
(** The store's chain is the canonical chain of the index. *)
Definition chain_agrees (m : Manager) : Prop := forall h i n,
  zlookup (ix_canonical (cm_index m)) h = Some i -> zlookup (nodes m) i = Some n ->
  exists rec, st_header_at (store m) h = Some rec /\ hr_hash rec = n_hash n /\ raw_ok n (hr_raw rec).

Record manager_ok (states : Z -> Address -> Account) (m : Manager) : Prop := {
  mo_params : cm_params m = params;
  mo_limit : target_ok limit;
  mo_index : index_wf (cm_index m);
  mo_work : work_wf limit (nodes m);
  mo_world : inv (cm_world m);
  mo_history : holds_history (store m) params states (height m);
  mo_tip : tip_height (st_tip (store m)) = height m;
  mo_range : forall h, 0 <= h <= height m -> in_range (MAX_TXS_PER_BLOCK * (h + 1)) (states h);
  mo_gap : 0 <= max_nonce_gap (mempool params) < 2 ^ 63;
  mo_agrees : chain_agrees m;
  mo_raws : raws_match m;
  mo_bodies : forall h b, cm_bodies m !! h = Some b -> bytes_ok b;
  mo_pool : pool_ok (exactly (nonce_of (st_account (store m)))) (cm_pool m);
  mo_pool_params : mp_params (cm_pool m) = mempool params;
  mo_ledger : credits_ok (cm_tip_ledger m);
  mo_genesis : forall l, exists l', ledger_step (store m) l 0 = Ok l';
  mo_memo : cache_ok limit (cm_memo m);
  mo_indexed : forall h raw, cm_side_raws m !! h = Some raw -> is_Some (index_of (cm_index m) h);
}.

Lemma mo_arena states m : manager_ok states m -> arena_ok (MkArenaView (cm_index m) limit).
Proof. intros O. split; [apply (mo_limit _ _ O)|apply (mo_index _ _ O)|apply (mo_work _ _ O)]. Qed.

(** *** Changes that do not matter: clock, observer, counters *)
Record quiet (m m' : Manager) : Prop := {
  qt_fields : exists w l s, m' = set_stats (set_emitted (set_world m w) l) s;
  qt_store : store m' = store m;
  qt_inv : inv (cm_world m) -> inv (cm_world m');
}.
Lemma quiet_refl m : quiet m m.
Proof. split; [|done|done]. exists (cm_world m), (cm_emitted m), (cm_stats m). by destruct m. Qed.
Lemma quiet_trans a b c : quiet a b -> quiet b c -> quiet a c.
Proof.
  intros [(w & l & s & ->) S1 I1] [(w' & l' & s' & ->) S2 I2]. split; [by exists w', l', s'|congruence|auto].
Qed.
Lemma quiet_ok states m m' : quiet m m' -> manager_ok states m -> manager_ok states m'.
Proof.
  intros [(w & l & s & ->) S I] O. cbn in S. destruct O. constructor; cbn in *; unfold chain_agrees, raws_match in *; cbn in *; rewrite ?S; auto.
Qed.

Lemma emit_quiet c m : quiet m (fst (emit c m)) /\ snd (emit c m) = Ok tt.
Proof.
  split; [|done]. unfold emit, mput. cbn. destruct (cm_observer m); [|apply quiet_refl].
  split; [|done|done]. by exists (cm_world m), (cm_emitted m ++ [c]), (cm_stats m).
Qed.
Lemma emit_all_quiet cs : forall m, quiet m (fst (emit_all cs m)) /\ snd (emit_all cs m) = Ok tt /\ cm_stats (fst (emit_all cs m)) = cm_stats m.
Proof.
  induction cs as [|c cs IH]; intros m; [split; [apply quiet_refl|done]|]. cbn [emit_all]. unfold mbind.
  destruct (emit_quiet c m) as [Q E]. assert (cm_stats (fst (emit c m)) = cm_stats m) as Hs by (unfold emit, mput; cbn; by destruct (cm_observer m)).
  destruct (emit c m) as [m1 r1]. cbn in Q, E, Hs. subst r1.
  destruct (IH m1) as (Q1 & E1 & S1). split; [by eapply quiet_trans|]. split; [done|congruence].
Qed.
Lemma wp_emit c Q m : (forall m', quiet m m' -> cm_stats m' = cm_stats m -> Q m' (Ok tt)) -> wp (emit c) Q m.
Proof.
  intros H. unfold wp. destruct (emit_quiet c m) as [Hq ->]. apply H; [done|]. unfold emit, mput. cbn. by destruct (cm_observer m).
Qed.
Lemma wp_emit_all cs Q m : (forall m', quiet m m' -> cm_stats m' = cm_stats m -> Q m' (Ok tt)) -> wp (emit_all cs) Q m.
Proof. intros H. unfold wp. destruct (emit_all_quiet cs m) as (Hq & -> & Hs). by apply H. Qed.
Lemma wp_now Q m : inv (cm_world m) -> (forall m' t, quiet m m' -> cm_stats m' = cm_stats m -> Q m' (Ok t)) -> wp now_unix Q m.
Proof.
  intros I H. unfold wp, now_unix. pose proof (io_now_law _ I) as [I' S]. destruct (io_now_unix (cm_world m)) as [w t]. cbn in *.
  apply H; [|done]. split; [by exists w, (cm_emitted m), (cm_stats m)|done|done].
Qed.

Lemma wp_bump f s Q m : f (cm_stats m) = Ok s -> (forall m', quiet m m' -> cm_stats m' = s -> Q m' (Ok tt)) -> wp (bump_stats f) Q m.
Proof.
  intros E H. unfold bump_stats. wp_steps. rewrite E. wp_steps. apply H; [|done].
  split; [by exists (cm_world m), (cm_emitted m), s|done|done].
Qed.

(** *** The planned branch *)
Record planned (m : Manager) (best : Z) (plan : Plan) (chain : list Z) : Prop := {
  pl_plan : plan_reorg (E := Reject) (cm_index m) best = Ok (Some plan);
  pl_ancestry : ancestry (E := Reject) (cm_index m) best = Ok chain;
  pl_path : chain_path (nodes m) chain;
  pl_last : list.last chain = Some best;
  pl_chain : chain = take (Z.to_nat (fork_height plan + 1)) (ix_canonical (cm_index m)) ++ apply plan;
  pl_side : Forall (fun i => i ∉ ix_canonical (cm_index m)) (apply plan);
  pl_fork : 0 <= fork_height plan < Zlen (ix_canonical (cm_index m));
  pl_rollback : rollback plan = rev (above_fork (fork_height plan) (height m));
}.

Lemma plan_exists states m best n : manager_ok states m -> zlookup (nodes m) best = Some n ->
  exists tip o, tip_index (E := Reject) (cm_index m) = Ok tip /\ plan_reorg (E := Reject) (cm_index m) best = Ok o /\
    match o with None => best = tip | Some p => best <> tip /\ exists chain, planned m best p chain end.
Proof.
  intros O Hn. destruct (plan_reorg_spec (E := Reject) _ (mo_index _ _ O) best n Hn) as (tip & o & H1 & H2 & H3).
  exists tip, o. split; [done|]. split; [done|]. destruct o as [p|]; [|done].
  destruct H3 as (Hne & chain & Ha & Hp & Hl & Hc & Hs & Hf & _ & Hr). split; [done|]. exists chain. constructor; try done.
  rewrite Hr. unfold above_fork. do 2 f_equal. lia.
Qed.

Section Planned.
Context (states : Z -> Address -> Account) (m : Manager) (best : Z) (plan : Plan) (chain : list Z).
Context (O : manager_ok states m) (P : planned m best plan chain).

Lemma prefix_len : Zlen (take (Z.to_nat (fork_height plan + 1)) (ix_canonical (cm_index m))) = fork_height plan + 1.
Proof. pose proof (pl_fork _ _ _ _ P). unfold Zlen in *. rewrite length_take. lia. Qed.

Lemma apply_node k i : apply plan !! k = Some i ->
  exists n, zlookup (nodes m) i = Some n /\ n_height n = fork_height plan + 1 + Z.of_nat k.
Proof.
  intros Hk. pose proof (wf_arena _ (mo_index _ _ O)) as A. pose proof (pl_fork _ _ _ _ P). apply (path_node _ A chain _ _ (pl_path _ _ _ _ P)).
  rewrite (pl_chain _ _ _ _ P), zlookup_app_r by (rewrite prefix_len; lia). rewrite prefix_len. unfold zlookup.
  destruct (Z.leb_spec 0 (fork_height plan + 1 + Z.of_nat k - (fork_height plan + 1))); [|lia]. rewrite <-Hk. f_equal. lia.
Qed.
Lemma apply_nodes : Forall (fun i => exists n, zlookup (nodes m) i = Some n) (apply plan).
Proof.
  apply Forall_lookup. intros k i Hk. destruct (apply_node k i Hk) as (n & Hn & _). eauto.
Qed.
Lemma chain_len : Zlen chain = fork_height plan + 1 + Zlen (apply plan).
Proof. by rewrite (pl_chain _ _ _ _ P), Zlen_app, prefix_len. Qed.
Lemma height_bound : 0 <= height m < 2 ^ 32.
Proof.
  destruct (tip_exists (E := Reject) _ (mo_index _ _ O)) as (t & n & _ & _ & _ & _ & Hn & Hl & _).
  pose proof (wf_arena _ (mo_index _ _ O)) as A. pose proof (arena_height _ A _ _ Hn). apply zlookup_lt in Hn.
  pose proof (aw_size _ A) as Hs. change NO_PARENT with (2 ^ 32 - 1) in Hs. lia.
Qed.

(** A header below a valid one is valid. *)
Lemma anc_valid a i na ni : anc (nodes m) a i -> zlookup (nodes m) a = Some na -> zlookup (nodes m) i = Some ni ->
  n_invalid ni = false -> n_invalid na = false.
Proof.
  intros Ha Hna. revert ni. induction Ha as [|i n Hi Hp Ha IH]; intros ni Hni Hv; [congruence|].
  rewrite Hi in Hni. injection Hni as <-. pose proof (wf_arena _ (mo_index _ _ O)) as A.
  destruct (prev_in_range _ A i n Hi Hp) as (_ & p & _ & Hpn & _). apply (IH p Hpn).
  destruct (n_invalid p) eqn:Ep; [|done]. by rewrite (wf_poison _ (mo_index _ _ O) i n p Hi Hpn Ep) in Hv.
Qed.
Lemma apply_valid i n b : i ∈ apply plan -> zlookup (nodes m) i = Some n -> zlookup (nodes m) best = Some b ->
  n_invalid b = false -> n_invalid n = false.
Proof.
  intros Hi Hn Hb Hv. eapply anc_valid; [|exact Hn|exact Hb|exact Hv].
  apply (path_is_ancestry _ (wf_arena _ (mo_index _ _ O)) chain best i n (pl_path _ _ _ _ P) (pl_last _ _ _ _ P) Hn).
  rewrite (pl_chain _ _ _ _ P). apply elem_of_app. by right.
Qed.
End Planned.

(** *** Collecting the branch *)
Lemma try_mapi_cases {A B} (f : A -> outcome Reject B) l : forall i,
  match try_mapi (fun _ x => f x) i l with
  | Ok ys => Forall2 (fun x y => f x = Ok y) l ys
  | Err e => exists x, x ∈ l /\ f x = Err e
  | Panic => exists x, x ∈ l /\ f x = Panic
  end.
Proof.
  induction l as [|x l IH]; intros i; cbn [try_mapi]; [constructor|].
  destruct (f x) as [y|e|] eqn:E; cbn [obind]; [|exists x; split; [apply list_elem_of_here|done]..].
  specialize (IH (S i)). destruct (try_mapi _ (S i) l) as [ys|e|]; cbn [obind]; [by constructor| |];
    destruct IH as (z & Hz & Hf); exists z; split; [by apply list_elem_of_further|done|by apply list_elem_of_further|done].
Qed.

Definition block_of (m : Manager) (i : Z) (p : HeaderRec * bytes) : Prop :=
  exists n, zlookup (nodes m) i = Some n /\ hr_height (fst p) = n_height n /\ hr_hash (fst p) = n_hash n /\
    Zlen (hr_raw (fst p)) = HEADER_BYTES /\ raw_ok n (hr_raw (fst p)) /\ bytes_ok (snd p).

Lemma header_raw_ok states m i n raw : manager_ok states m -> zlookup (nodes m) i = Some n ->
  header_raw m (n_hash n) = Some raw -> raw_ok n raw.
Proof.
  intros O Hn Hr. destruct (mo_raws _ _ O i n Hn) as [R1 R2]. unfold header_raw in Hr.
  destruct (cm_side_raws m !! n_hash n) as [r|] eqn:E; [injection Hr as <-; by apply R1|].
  destruct (st_header_by_hash (store m) (n_hash n)) as [rec|] eqn:E2; [|done]. injection Hr as <-. by apply R2.
Qed.
Lemma body_bytes_ok states m h b : manager_ok states m -> body_bytes m h = Some b -> bytes_ok b.
Proof.
  intros O Hb. unfold body_bytes in Hb. destruct (cm_bodies m !! h) eqn:E; [injection Hb as <-; by eapply (mo_bodies _ _ O)|].
  by apply (so_body_by_hash _ (io_store_ok _ (mo_world _ _ O))) in Hb.
Qed.

Lemma branch_block_spec states m i n : manager_ok states m -> zlookup (nodes m) i = Some n ->
  match branch_block m i with
  | Ok p => block_of m i p
  | Err (BranchInvalid _ hash _) => hash = n_hash n
  | Err e => e = BodyNotAdmissible (n_hash n)
  | Panic => False
  end.
Proof.
  intros O Hn. unfold branch_block. rewrite (proj2 (node_ok (cm_index m) i n) Hn). cbn [obind].
  destruct (header_raw m (n_hash n)) as [raw|] eqn:Er; [|done]. cbn [ok_or obind].
  destruct (body_bytes m (n_hash n)) as [body|] eqn:Eb; [|done]. cbn [ok_or obind].
  pose proof (header_raw_ok _ _ _ _ _ O Hn Er) as Hok. destruct Hok as (Hl & Hh & hdr & Hd & Hht & Hby & Hvf).
  unfold HeaderRec_from_raw. rewrite Hd. cbn [expect_ok_or_panic obind]. exists n. cbn. unfold raw_ok. split_and!; eauto using body_bytes_ok.
Qed.

Lemma plan_branch_spec states m best plan chain : manager_ok states m -> planned m best plan chain ->
  match plan_branch m plan with
  | Ok branch => Forall2 (block_of m) (apply plan) branch
  | Err (BranchInvalid _ hash _) => exists i n, i ∈ apply plan /\ zlookup (nodes m) i = Some n /\ n_hash n = hash
  | Err (BodyNotAdmissible _) => True
  | _ => False
  end.
Proof.
  intros O P. unfold plan_branch. pose proof (try_mapi_cases (branch_block m) (apply plan) 0) as Hc.
  pose proof (apply_nodes states m best plan chain O P) as Hn.
  assert (forall i, i ∈ apply plan -> exists n, zlookup (nodes m) i = Some n) as Hnode.
  { intros i Hi. rewrite Forall_forall in Hn. apply Hn. by apply list_elem_of_In. }
  destruct (try_mapi _ 0 (apply plan)) as [branch|e|].
  - clear Hnode. induction Hc as [|i p l ps Hi Hc IH]; [constructor|]. inversion_clear Hn as [|? ? [n Hni] Hn2].
    constructor; [|by apply IH]. pose proof (branch_block_spec states m i n O Hni) as Hb. by rewrite Hi in Hb.
  - destruct Hc as (i & Hi & He). destruct (Hnode i Hi) as [n Hni].
    pose proof (branch_block_spec states m i n O Hni) as Hb. rewrite He in Hb. destruct e; try done. by exists i, n.
  - destruct Hc as (i & Hi & He). destruct (Hnode i Hi) as [n Hni].
    pose proof (branch_block_spec states m i n O Hni) as Hb. by rewrite He in Hb.
Qed.

Lemma branch_work_ok states m best plan chain : manager_ok states m -> planned m best plan chain ->
  exists works, branch_work m plan = Ok works.
Proof.
  intros O P. unfold branch_work. pose proof (apply_nodes states m best plan chain O P) as Hn. generalize 0%nat.
  induction Hn as [|i l [n Hn] _ IH]; intros k; cbn [try_mapi]; [eauto|]. rewrite (proj2 (node_ok (cm_index m) i n) Hn). cbn [obind].
  destruct (IH (S k)) as [w ->]. cbn. eauto.
Qed.

(** *** Rewinding and validating *)
Definition commits_node (m : Manager) (i : Z) (b : CommitBlock) : Prop :=
  exists n, zlookup (nodes m) i = Some n /\ cb_height b = n_height n /\ cb_hash b = n_hash n /\ raw_ok n (cb_header_raw b).

Record executed (states : Z -> Address -> Account) (m : Manager) (plan : Plan) (commits : list CommitBlock) (base : Base)
    (low : Z) (replayed bs : list CommitBlock) : Prop := {
  ex_commits : commits = replayed ++ bs;
  ex_low : 0 <= low <= fork_height plan;
  ex_heights : cb_height <$> replayed = above_fork low (fork_height plan);
  ex_replayed : Forall (replayed_block (store m) states) replayed;
  ex_steps : steps params (states (fork_height plan)) bs;
  ex_blocks : Forall2 (commits_node m) (apply plan) bs;
  ex_fine : Forall block_fine commits;
  ex_kind : match base with UndoWindow => low = fork_height plan /\ have_all_undo (store m) (fork_height plan) (height m) = true | DeepReplay r => r = low end;
}.

Lemma chain_has_header states m h : manager_ok states m -> 0 <= h <= height m -> is_Some (st_header_at (store m) h).
Proof.
  intros O Hh. destruct (zlookup_is_Some (ix_canonical (cm_index m)) h) as [i Hi]; [lia|].
  destruct (path_node _ (wf_arena _ (mo_index _ _ O)) _ _ _ (wf_canon _ (mo_index _ _ O)) Hi) as (n & Hn & _).
  destruct (mo_agrees _ _ O h i n Hi Hn) as (rec & -> & _). eauto.
Qed.

Lemma manager_ledger states m h : manager_ok states m -> 0 <= h <= height m -> exists l, build_ledger (store m) h = Ok l /\ credits_ok l.
Proof.
  intros O Hh. pose proof (proj1 (history_split params _ _ _) (mo_history _ _ O)) as [Hc _].
  apply (history_ledger params _ _ _ _ Hc Hh); [|apply (mo_genesis _ _ O)].
  intros k Hk. apply (chain_has_header states m k O). lia.
Qed.

Lemma commits_of_branch m l branch bs : Forall2 (block_of m) l branch ->
  Forall2 (fun p cb => commit_of (fst p) (snd p) cb) branch bs -> Forall2 (commits_node m) l bs.
Proof.
  intros H. revert bs. induction H as [|i p l ps (n & Hn & H1 & H2 & H3 & H4 & H5) _ IH]; intros bs Hb; inversion_clear Hb as [|? b ? bs' Hc Hb']; constructor.
  - exists n. destruct Hc as [C1 C2 C3 C4 _ _]. rewrite C1, C2, C3. done.
  - by apply IH.
Qed.

Lemma replayed_fine states m low fork replayed b : manager_ok states m -> 0 <= low -> fork <= height m ->
  cb_height <$> replayed = above_fork low fork -> Forall (replayed_block (store m) states) replayed -> b ∈ replayed -> block_fine b.
Proof.
  intros O Hl Hf Hh Hr Hb. pose proof (replayed_heights _ _ _ b Hh Hb) as Hhb.
  apply list_elem_of_In, (proj1 (Forall_forall _ _) Hr) in Hb as [_ (rec & Hrec & Hbody & Hraw & Hhash)].
  destruct (zlookup_is_Some (ix_canonical (cm_index m)) (cb_height b)) as [j Hj]; [lia|].
  destruct (path_node _ (wf_arena _ (mo_index _ _ O)) _ _ _ (wf_canon _ (mo_index _ _ O)) Hj) as (nj & Hnj & Hnh).
  destruct (mo_agrees _ _ O _ _ _ Hj Hnj) as (rec' & Hrec' & Hhj & (R1 & R2 & hdr & R3 & _ & R4 & R5)). rewrite Hrec in Hrec'. injection Hrec' as <-.
  split; [by rewrite Hraw|congruence|exists hdr; by rewrite Hraw|by rewrite Hraw| |rewrite Hraw; apply R5; lia]. by apply (so_body_at _ (io_store_ok _ (mo_world _ _ O))) in Hbody.
Qed.

Lemma plan_outcome_spec states m best plan chain branch works :
  manager_ok states m -> planned m best plan chain -> Forall2 (block_of m) (apply plan) branch ->
  match snd (plan_outcome m plan (height m) branch works) with
  | Ok (commits, spent, base) => exists low replayed bs, executed states m plan commits base low replayed bs
  | Err (BranchInvalid _ hash _) => exists i n, i ∈ apply plan /\ zlookup (nodes m) i = Some n /\ n_hash n = hash
  | Err (ResyncRequired _ _) => True
  | _ => False
  end.
Proof.
  intros O P Hbr. unfold plan_outcome. rewrite (mo_params _ _ O). set (cw := chainwork_at _).
  pose proof (pl_fork _ _ _ _ P) as Hf. pose proof (height_bound states m O) as Hhb.
  pose proof (rewind_history (store m) params states (height m) (Overlay_new (reorg_overlay_max_accounts params)) (fork_height plan) cw
    (mo_history _ _ O) ltac:(lia) ltac:(lia)) as Hrw.
  destruct (rewind_to_fork (store m) params _ (height m) (fork_height plan) cw) as [obs r]. cbn [snd] in Hrw.
  destruct Hrw as [[-> _]|(base & o & replayed & -> & Hv & Hbase)]; [|cbn; done|].
  { intros x. unfold view. cbn. rewrite lookup_empty. apply (hh_tip _ _ _ _ (mo_history _ _ O)). }
  destruct (manager_ledger states m (fork_height plan) O ltac:(lia)) as (ledger & -> & Hcr). cbn [obind].
  assert (Forall (fun p => Zlen (hr_raw (fst p)) = HEADER_BYTES) branch /\ Forall (fun p => bytes_ok (snd p)) branch) as [Hraw Hbytes].
  { clear -Hbr. split; induction Hbr as [|i p l ps (n & H) _ IH]; constructor; try done; apply H. }
  unfold validate_branch. set (bw := fun i => default Work_ZERO (zlookup works i)).
  pose proof (validate_branch_total (store m) params bw branch o ledger 0 false Hraw) as Ht.
  pose proof (branch_steps params (store m) bw branch o ledger 0 false) as Hst.
  pose proof (validate_branch_effect (store m) params bw branch o ledger 0 false) as Hef.
  destruct (validate_branch_loop (store m) params o ledger branch 0 bw false) as [obs2 r2]. cbn [snd] in Ht |- *.
  destruct Ht as [[[[[out spent] o2] l2] ->]|(pre & rec & raw & cause & post & -> & _ & ->)]; cbn [obind].
  - exists (match base with UndoWindow => fork_height plan | DeepReplay r => r end), replayed, out.
    specialize (Hst obs2 out spent o2 l2 (states (fork_height plan)) Hbytes Hcr (fun x => eq_sym (Hv x)) eq_refl).
    specialize (Hef obs2 out spent o2 l2 Hbytes eq_refl).
    constructor; try done.
    + destruct base as [|r]; [lia|]. apply Hbase.
    + destruct base as [|r]; [|apply Hbase]. rewrite (proj1 Hbase). unfold above_fork. by rewrite zrange_nil by lia.
    + destruct base as [|r]; [by rewrite (proj1 Hbase)|]. apply Hbase.
    + eapply commits_of_branch; [done|]. apply Hef.
    + apply Forall_app. split.
      * destruct base as [|r]; [by rewrite (proj1 Hbase)|]. destruct Hbase as (Hr & Hh & Hrp). apply Forall_forall. intros b Hb. apply list_elem_of_In in Hb.
        apply (replayed_fine states m r (fork_height plan) replayed b O ltac:(lia) ltac:(lia) Hh Hrp Hb).
      * pose proof (commits_of_branch m _ _ _ Hbr (bre_commits _ _ _ _ _ _ _ Hef)) as Hcm. clear -Hcm Hst O P Hf. apply Forall_forall. intros b Hb.
        apply list_elem_of_In, list_elem_of_lookup in Hb as [k Hk]. destruct (Forall2_lookup_r _ _ _ _ _ Hcm Hk) as (i & Hi & n & Hni & _ & Hh & (R1 & R2 & hdr & R3 & _ & R4 & R5)).
        split; [done|congruence|by exists hdr|done|apply (Hst k b Hk)|].
        destruct (apply_node states m best plan chain O P k i Hi) as (n' & Hn' & Hh'). rewrite Hni in Hn'. injection Hn' as <-. apply R5. lia.
    + destruct base as [|r]; [|done]. by destruct Hbase.
  - clear -Hbr. apply Forall2_app_inv_r in Hbr as (l1 & l2 & _ & H2 & ->). inversion H2 as [|i ? l2' ? (n & Hn & _ & Hh & _)]; subst.
    exists i, n. split; [apply elem_of_app; right; apply list_elem_of_here|]. by cbn in Hh.
Qed.

(** *** Committing *)
Lemma heights_node states m best plan chain bs : manager_ok states m -> planned m best plan chain -> Forall2 (commits_node m) (apply plan) bs ->
  heights_from (fork_height plan) bs.
Proof.
  intros O P H k b Hb. destruct (Forall2_lookup_r _ _ _ _ _ H Hb) as (i & Hi & n & Hn & -> & _).
  destruct (apply_node states m best plan chain O P k i Hi) as (n' & Hn' & <-). congruence.
Qed.

Lemma replay_heights low fork replayed bs : 0 <= low <= fork -> cb_height <$> replayed = above_fork low fork -> heights_from fork bs ->
  heights_from low (replayed ++ bs).
Proof.
  intros Hr Hh Hb k b Hk. assert (Zlen replayed = fork - low) as Hl.
  { rewrite <-(Zlen_fmap cb_height replayed), Hh. unfold above_fork. rewrite Zlen_zrange by lia. lia. }
  unfold Zlen in Hl. destruct (decide (k < length replayed)%nat) as [Hlt|Hge].
  - rewrite lookup_app_l in Hk by done. assert ((cb_height <$> replayed) !! k = Some (cb_height b)) as Hx by (rewrite list_lookup_fmap, Hk; done).
    rewrite Hh in Hx. unfold above_fork, zrange in Hx. rewrite list_lookup_fmap, lookup_seq_lt in Hx by lia. cbn in Hx. injection Hx as <-. lia.
  - rewrite lookup_app_r in Hk by lia. apply Hb in Hk. lia.
Qed.

(** Every block to commit is a header of the index, so no two of them share a hash, nor do they share one with a block below. *)
Lemma commit_node states m best plan chain commits base low replayed bs b :
  manager_ok states m -> planned m best plan chain -> executed states m plan commits base low replayed bs -> b ∈ commits ->
  exists i n, zlookup (nodes m) i = Some n /\ n_hash n = cb_hash b /\ n_height n = cb_height b.
Proof.
  intros O P X Hb. pose proof (pl_fork _ _ _ _ P) as Hf. pose proof (ex_low _ _ _ _ _ _ _ _ X) as Hlow. rewrite (ex_commits _ _ _ _ _ _ _ _ X) in Hb.
  apply elem_of_app in Hb as [Hb|Hb].
  - pose proof (replayed_heights _ _ _ b (ex_heights _ _ _ _ _ _ _ _ X) Hb) as Hhb.
    apply list_elem_of_In, (proj1 (Forall_forall _ _) (ex_replayed _ _ _ _ _ _ _ _ X)) in Hb as [_ (rec & Hrec & _ & _ & Hhash)].
    destruct (zlookup_is_Some (ix_canonical (cm_index m)) (cb_height b)) as [j Hj]; [lia|].
    destruct (path_node _ (wf_arena _ (mo_index _ _ O)) _ _ _ (wf_canon _ (mo_index _ _ O)) Hj) as (nj & Hnj & Hh).
    destruct (mo_agrees _ _ O _ _ _ Hj Hnj) as (rec' & Hrec' & Hhj & _). rewrite Hrec in Hrec'. injection Hrec' as <-. exists j, nj. split; [done|]. split; congruence.
  - apply list_elem_of_lookup in Hb as [k Hk]. destruct (Forall2_lookup_r _ _ _ _ _ (ex_blocks _ _ _ _ _ _ _ _ X) Hk) as (j & _ & nj & Hnj & H1 & H2 & _).
    exists j, nj. split; [done|]. by split.
Qed.
Lemma same_hash_height states m i j ni nj : manager_ok states m -> zlookup (nodes m) i = Some ni -> zlookup (nodes m) j = Some nj ->
  n_hash ni = n_hash nj -> n_height ni = n_height nj.
Proof. intros O Hi Hj E. pose proof (index_hash_inj _ _ _ _ _ (mo_index _ _ O) Hi Hj E) as ->. congruence. Qed.

Lemma commits_requestable states m best plan chain commits base low replayed bs :
  manager_ok states m -> planned m best plan chain -> executed states m plan commits base low replayed bs ->
  request params states (cm_world m) low (height m) commits.
Proof.
  intros O P X. pose proof (pl_fork _ _ _ _ P) as Hf. pose proof (ex_low _ _ _ _ _ _ _ _ X) as Hlow.
  pose proof (heights_node states m best plan chain bs O P (ex_blocks _ _ _ _ _ _ _ _ X)) as Hhs.
  pose proof (replay_heights _ _ _ _ Hlow (ex_heights _ _ _ _ _ _ _ _ X) Hhs) as Hall. rewrite <-(ex_commits _ _ _ _ _ _ _ _ X) in Hall.
  split; [apply (mo_history _ _ O)|apply (mo_tip _ _ O)|lia|done|apply X| |].
  - intros b h rec Hb Hh Hrec E. destruct (commit_node _ _ _ _ _ _ _ _ _ _ b O P X Hb) as (i & n & Hn & H1 & H2).
    destruct (zlookup_is_Some (ix_canonical (cm_index m)) h) as [j Hj]; [lia|].
    destruct (path_node _ (wf_arena _ (mo_index _ _ O)) _ _ _ (wf_canon _ (mo_index _ _ O)) Hj) as (nj & Hnj & Hhj).
    destruct (mo_agrees _ _ O _ _ _ Hj Hnj) as (rec' & Hrec' & Hx & _). rewrite Hrec in Hrec'. injection Hrec' as <-.
    pose proof (same_hash_height states m j i nj n O Hnj Hn ltac:(congruence)). apply list_elem_of_lookup in Hb as [k Hk]. apply Hall in Hk. lia.
  - apply NoDup_ListNoDup, NoDup_alt. intros a c x Ha Hc. rewrite list_lookup_fmap in Ha, Hc.
    destruct (commits !! a) as [ba|] eqn:Eba; [|done]. destruct (commits !! c) as [bc|] eqn:Ebc; [|done]. cbn in Ha, Hc. injection Ha as <-. injection Hc as Hc.
    destruct (commit_node _ _ _ _ _ _ _ _ _ _ ba O P X ltac:(by eapply list_elem_of_lookup_2)) as (i & n & Hn & H1 & H2).
    destruct (commit_node _ _ _ _ _ _ _ _ _ _ bc O P X ltac:(by eapply list_elem_of_lookup_2)) as (j & nj & Hnj & H3 & H4).
    pose proof (same_hash_height states m i j n nj O Hn Hnj ltac:(congruence)). apply Hall in Eba, Ebc. lia.
Qed.

Record sunk (states : Z -> Address -> Account) (m : Manager) (low : Z) (commits : list CommitBlock) (w : W) (r : option SinkError) : Prop := {
  sk_inv : inv w;
  sk_effect : match r with
    | None => commit_law (store m) (io_store w) low (states low) commits
    | Some (SinkFatal _) => True
    | Some _ => io_store w = store m
    end;
}.

Lemma sink_commit_spec states m best plan chain commits base low replayed bs Q :
  manager_ok states m -> planned m best plan chain -> executed states m plan commits base low replayed bs ->
  (forall w r, sunk states m low commits w r -> Q (set_world m w) (Ok r)) -> wp (sink_commit base plan commits) Q m.
Proof.
  intros O P X HQ. pose proof (pl_fork _ _ _ _ P) as Hf. pose proof (ex_low _ _ _ _ _ _ _ _ X) as Hlow.
  assert (forall w r, commits_to inv states (cm_world m) (w, r) low commits -> sunk states m low commits w r) as Hsunk by (intros w r [I E]; by split).
  pose proof (commits_requestable _ _ _ _ _ _ _ _ _ _ O P X) as Hrq.
  unfold sink_commit. wp_step. apply wp_get. pose proof (ex_kind _ _ _ _ _ _ _ _ X) as Hk. destruct base as [|r].
  - destruct Hk as [-> Hau]. pose proof (io_reorg_law states (cm_world m) (fork_height plan) (height m) commits (mo_world _ _ O) Hrq Hau) as Hr.
    rewrite <-(pl_rollback _ _ _ _ P) in Hr. destruct (rollback plan) as [|h0 hs] eqn:Erb.
    + assert (fork_height plan = height m) as Efh.
      { pose proof (pl_rollback _ _ _ _ P) as Hx. rewrite Erb in Hx. apply (f_equal Zlen) in Hx. rewrite Zlen_rev in Hx. unfold above_fork in Hx.
        rewrite Zlen_zrange in Hx by lia. change (Zlen []) with 0 in Hx. lia. }
      destruct commits as [|b [|b2 bs2]].
      * destruct (io_commit_reorg _ _) as [w r]. wp_steps. by apply HQ, Hsunk.
      * rewrite Efh in Hrq. pose proof (io_block_law states (cm_world m) b (height m) (mo_world _ _ O) Hrq) as Hb. rewrite <-Efh in Hb at 1.
        destruct (io_commit_block _ _) as [w r]. wp_steps. by apply HQ, Hsunk.
      * destruct (io_commit_reorg _ _) as [w r]. wp_steps. by apply HQ, Hsunk.
    + destruct (io_commit_reorg _ _) as [w r]. wp_steps. by apply HQ, Hsunk.
  - subst r. pose proof (io_deep_law states (cm_world m) low (height m) commits (mo_world _ _ O) Hrq) as Hd.
    destruct (io_commit_deep_reorg _ _) as [w r]. wp_steps. by apply HQ, Hsunk.
Qed.

(** *** Adopting what was committed *)
Lemma quiet_planned m m' best plan chain : quiet m m' -> planned m best plan chain -> planned m' best plan chain.
Proof. intros [(w & l & s & ->) _ _] []. by constructor. Qed.
Lemma quiet_executed states m m' plan cs base low rp bs : quiet m m' -> executed states m plan cs base low rp bs -> executed states m' plan cs base low rp bs.
Proof. intros [(w & l & s & ->) S _] []. cbn in S. constructor; cbn; rewrite ?S; done. Qed.

Lemma foldl_delete_lookup {A} (ns : list Node) : forall (b : gmap Hash32 A) h x, foldl (fun b n => delete (n_hash n) b) b ns !! h = Some x ->
  b !! h = Some x /\ Forall (fun n => n_hash n <> h) ns.
Proof.
  induction ns as [|n ns IH]; intros b h x Hx; [done|]. cbn in Hx. apply IH in Hx as [Hx Hf].
  apply lookup_delete_Some in Hx as [Hne Hx]. split; [done|]. by constructor.
Qed.

Lemma same_tree_raw_ok n n' raw : skel n' = skel n -> raw_ok n raw -> raw_ok n' raw.
Proof. intros [= E1 _ E2 _ _ _] (H1 & H2 & hdr & H3 & H4). split; [done|]. rewrite E1, E2. eauto. Qed.

Lemma spendable_range l a b h : credits_ok l -> 0 <= b <= umax 128 -> 0 <= ledger_spendable l a b h <= umax 128.
Proof.
  intros Hc Hb. unfold ledger_spendable, spendable_balance, saturating_sub. rewrite immature_at_spec by done.
  pose proof (immature_sum_nonneg l a h Hc). unfold umax in *. lia.
Qed.

Lemma range_account_ok f l h a : in_range (2 ^ 50) f -> 0 <= max_nonce_gap (mempool params) < 2 ^ 63 -> credits_ok l ->
  account_ok (mempool params) (f a) (ledger_spendable l a (acc_balance (f a)) h).
Proof.
  intros R Hg Hc. destruct (R a) as [Hn Hb]. pose proof (spendable_range l a (acc_balance (f a)) h Hc Hb). unfold account_ok. unfold umax in *. lia.
Qed.

Section Adopt.
Context (states : Z -> Address -> Account) (m : Manager) (best : Z) (plan : Plan) (chain : list Z).
Context (O : manager_ok states m) (P : planned m best plan chain).
Context (cs : list CommitBlock) (base : Base) (low : Z) (replayed bs : list CommitBlock).
Context (X : executed states m plan cs base low replayed bs).
Context (w : W) (I : inv w) (C : commit_law (store m) (io_store w) low (states low) cs).
Let fork := fork_height plan.
Let states' := forked states fork bs.

Lemma adopt_committed : committed (store m) (io_store w) low (states low) (replayed ++ bs).
Proof. rewrite <-(ex_commits _ _ _ _ _ _ _ _ X). apply C. Qed.
Lemma adopt_len : Zlen chain = fork + Zlen bs + 1.
Proof.
  rewrite (chain_len m best plan chain P). pose proof (Forall2_length (ex_blocks _ _ _ _ _ _ _ _ X)) as Hl. unfold Zlen, fork. lia.
Qed.
Lemma adopt_history : holds_chain params (io_store w) states' (Zlen chain - 1).
Proof.
  pose proof (pl_fork _ _ _ _ P). replace (Zlen chain - 1) with (fork + Zlen bs) by (rewrite adopt_len; lia).
  apply (commit_history params (store m) (io_store w) states (height m) fork low replayed bs (mo_history _ _ O));
    [unfold fork; lia|apply X|apply X|apply X|apply X| |apply adopt_committed].
  by apply (heights_node states m best plan chain bs O P), X.
Qed.

Lemma adopt_tip : tip_height (st_tip (io_store w)) = Zlen chain - 1.
Proof.
  pose proof (ex_low _ _ _ _ _ _ _ _ X) as Hlow. rewrite (ct_tip _ _ _ _ _ adopt_committed), Zlen_app, adopt_len. fold fork in Hlow.
  assert (Zlen replayed = fork - low) as ->; [|lia]. pose proof (f_equal Zlen (ex_heights _ _ _ _ _ _ _ _ X)) as Hl. rewrite Zlen_fmap in Hl.
  unfold above_fork in Hl. rewrite Zlen_zrange in Hl by (unfold fork in Hlow; lia). unfold fork. lia.
Qed.
Lemma adopt_range h : 0 <= h <= Zlen chain - 1 -> in_range (MAX_TXS_PER_BLOCK * (h + 1)) (states' h).
Proof.
  pose proof (pl_fork _ _ _ _ P) as Hf. intros Hh. rewrite adopt_len in Hh.
  apply (forked_ranges params states (height m) fork bs ltac:(unfold fork; lia) (ex_steps _ _ _ _ _ _ _ _ X) (mo_range _ _ O)). lia.
Qed.
Lemma adopt_height : 0 <= Zlen chain - 1 < 2 ^ 32.
Proof.
  pose proof (pl_last _ _ _ _ P) as Hlast. rewrite zlookup_last in Hlast. pose proof (zlookup_lt _ _ _ Hlast).
  destruct (path_node _ (wf_arena _ (mo_index _ _ O)) _ _ _ (pl_path _ _ _ _ P) Hlast) as (nb & Hnb & Hh).
  pose proof (arena_height _ (wf_arena _ (mo_index _ _ O)) _ _ Hnb). apply zlookup_lt in Hnb. pose proof (aw_size _ (wf_arena _ (mo_index _ _ O))) as Hs.
  change NO_PARENT with (2 ^ 32 - 1) in Hs. lia.
Qed.
Lemma adopt_accounts : in_range (2 ^ 50) (st_account (io_store w)).
Proof.
  pose proof adopt_height. apply (in_range_ext _ (states' (Zlen chain - 1))); [intros x; symmetry; apply (hc_tip _ _ _ _ adopt_history)|].
  eapply in_range_mono; [|apply adopt_range; lia]. unfold MAX_TXS_PER_BLOCK. lia.
Qed.

(** The store's new chain is the adopted one. *)
Lemma adopt_agrees h i n : zlookup chain h = Some i -> zlookup (nodes m) i = Some n ->
  exists rec, st_header_at (io_store w) h = Some rec /\ hr_hash rec = n_hash n /\ raw_ok n (hr_raw rec).
Proof.
  intros Hi Hn. pose proof (pl_fork _ _ _ _ P) as Hf. pose proof (zlookup_lt _ _ _ Hi) as Hlt. rewrite (pl_chain _ _ _ _ P) in Hi.
  destruct (Z.le_gt_cases h fork) as [Hle|Hgt].
  - rewrite zlookup_app_l in Hi by (rewrite (prefix_len m best plan chain P); unfold fork in *; lia).
    assert (zlookup (ix_canonical (cm_index m)) h = Some i) as Hc.
    { unfold zlookup in *. destruct (Z.leb_spec 0 h); [|lia]. by apply lookup_take_Some in Hi as [? _]. }
    destruct (mo_agrees _ _ O h i n Hc Hn) as (rec & Hrec & Hh & Hr).
    destruct (commit_header_old (store m) (io_store w) states fork low replayed bs) with (h := h) (rec := rec) as (rec' & H1 & H2 & H3);
      [apply X|apply X|apply adopt_committed|lia|done|].
    exists rec'. split; [done|]. split; congruence || by rewrite H3.
  - rewrite zlookup_app_r in Hi by (rewrite (prefix_len m best plan chain P); unfold fork in *; lia).
    rewrite (prefix_len m best plan chain P) in Hi. unfold zlookup in Hi. destruct (Z.leb_spec 0 (h - (fork_height plan + 1))); [|done].
    destruct (Forall2_lookup_l _ _ _ _ _ (ex_blocks _ _ _ _ _ _ _ _ X) Hi) as (b & Hb & n' & Hn' & Hbh & Hbx & Hbr).
    rewrite Hn in Hn'. injection Hn' as <-. destruct (apply_node states m best plan chain O P _ _ Hi) as (n2 & Hn2 & Hh2).
    rewrite Hn in Hn2. injection Hn2 as <-.
    destruct (ct_header_new _ _ _ _ _ adopt_committed b) as (rec & H1 & H2 & H3); [apply elem_of_app; right; by eapply list_elem_of_lookup_2|].
    exists rec. replace h with (cb_height b) by (unfold fork in *; lia). split; [done|]. split; [congruence|]. by rewrite H3.
Qed.

Lemma adopt_raws i n r : zlookup (nodes m) i = Some n -> st_header_by_hash (io_store w) (n_hash n) = Some r -> raw_ok n (hr_raw r).
Proof.
  intros Hn Hr. apply (cl_by_hash _ _ _ _ _ C) in Hr as [Hr|(b & Hb & Hh & ->)]; [by apply (mo_raws _ _ O i n Hn)|].
  rewrite (ex_commits _ _ _ _ _ _ _ _ X) in Hb. apply elem_of_app in Hb as [Hb|Hb].
  - pose proof (replayed_heights _ _ _ b (ex_heights _ _ _ _ _ _ _ _ X) Hb) as Hhb. pose proof (ex_low _ _ _ _ _ _ _ _ X). pose proof (pl_fork _ _ _ _ P).
    apply list_elem_of_In, (proj1 (Forall_forall _ _) (ex_replayed _ _ _ _ _ _ _ _ X)) in Hb as [_ (rec & Hrec & _ & -> & Hbh)].
    destruct (zlookup_is_Some (ix_canonical (cm_index m)) (cb_height b)) as [j Hj]; [lia|].
    destruct (path_node _ (wf_arena _ (mo_index _ _ O)) _ _ _ (wf_canon _ (mo_index _ _ O)) Hj) as (nj & Hnj & _).
    destruct (mo_agrees _ _ O _ _ _ Hj Hnj) as (rec' & Hrec' & Hhj & Hok). rewrite Hrec in Hrec'. injection Hrec' as <-.
    assert (j = i) as ->; [|congruence]. eapply (index_hash_inj (cm_index m) _ _ _ _ (mo_index _ _ O)); [exact Hnj|exact Hn|congruence].
  - apply list_elem_of_lookup in Hb as [k Hk]. destruct (Forall2_lookup_r _ _ _ _ _ (ex_blocks _ _ _ _ _ _ _ _ X) Hk) as (j & _ & nj & Hnj & _ & Hhj & Hok).
    assert (j = i) as ->; [|congruence]. eapply (index_hash_inj (cm_index m) _ _ _ _ (mo_index _ _ O)); [exact Hnj|exact Hn|congruence].
Qed.

Lemma adopt_genesis l : exists l', ledger_step (io_store w) l 0 = Ok l'.
Proof.
  unfold ledger_step. destruct (st_body_at (io_store w) 0) as [raw|] eqn:Eb; [|eauto].
  apply (ct_body _ _ _ _ _ adopt_committed) in Eb as [[_ Eb]|(b & Hb & Hb0 & _)].
  - destruct (mo_genesis _ _ O l) as [l' Hl]. unfold ledger_step in Hl. rewrite Eb in Hl. eauto.
  - exfalso. apply list_elem_of_lookup in Hb as [k Hk].
    pose proof (heights_node states m best plan chain bs O P (ex_blocks _ _ _ _ _ _ _ _ X)) as Hhs.
    apply (replay_heights _ _ _ _ (ex_low _ _ _ _ _ _ _ _ X) (ex_heights _ _ _ _ _ _ _ _ X) Hhs) in Hk.
    pose proof (ex_low _ _ _ _ _ _ _ _ X). lia.
Qed.

Lemma adopt_ledger : exists l, build_ledger (io_store w) (Zlen chain - 1) = Ok l /\ credits_ok l.
Proof.
  pose proof (pl_fork _ _ _ _ P). pose proof (Zlen_nonneg bs). pose proof adopt_len as Hl. unfold fork in *.
  apply (history_ledger params _ _ _ _ adopt_history); [lia| |apply adopt_genesis].
  intros h Hh. destruct (zlookup_is_Some chain h) as [i Hi]; [lia|].
  destruct (path_node _ (wf_arena _ (mo_index _ _ O)) _ _ _ (pl_path _ _ _ _ P) Hi) as (n & Hn & _).
  destruct (adopt_agrees h i n Hi Hn) as (rec & -> & _). eauto.
Qed.

(** The state after the bookkeeping, and that it is in order again. *)
Record adopted (m' : Manager) : Prop := {
  ad_index : exists ix', set_canonical (E := Reject) (cm_index m) chain = Ok ix' /\ cm_index m' = ix';
  ad_history : holds_chain params (store m') states' (height m');
  ad_ok : snapshots_ok (store m') states' (height m') -> manager_ok states' m';
  ad_agrees : chain_agrees m';
  ad_pool : pool_ok (exactly (nonce_of (st_account (store m')))) (cm_pool m');
  ad_epoch : cm_tip_epoch m' = wrap 64 (cm_tip_epoch m + 1);
  ad_bodies : forall i n, i ∈ apply plan -> zlookup (nodes m) i = Some n ->
    cm_bodies m' !! n_hash n = None /\ cm_side_raws m' !! n_hash n = None;
  ad_same : cm_ingest m' = cm_ingest m /\ cm_cps m' = cm_cps m;
  ad_world : inv (cm_world m');
}.

Lemma adopted_quiet m' m'' : inv (cm_world m') -> quiet m' m'' -> adopted m' -> adopted m''.
Proof.
  intros Iw Q [A1 A2 A3 A4 A5 A6 A7 A8 A9]. pose proof Q as [(w' & l & s & ->) S Hi]. cbn in S, Hi.
  constructor; cbn; unfold chain_agrees in *; cbn; rewrite ?S; try done; [|by apply Hi]. intros Hs. eapply quiet_ok; [exact Q|]. by apply A3.
Qed.

Lemma adopt_finish ix' ledger pool ep bodies raws m' :
  set_canonical (E := Reject) (cm_index m) chain = Ok ix' -> index_wf ix' -> ix_canonical ix' = chain -> same_tree (nodes m) (ix_nodes ix') ->
  credits_ok ledger -> pool_ok (exactly (nonce_of (st_account (io_store w)))) pool -> mp_params pool = mempool params ->
  ep = wrap 64 (cm_tip_epoch m + 1) ->
  (forall h b, bodies !! h = Some b -> cm_bodies m !! h = Some b) -> (forall h b, raws !! h = Some b -> cm_side_raws m !! h = Some b) ->
  (forall i n, i ∈ apply plan -> zlookup (nodes m) i = Some n -> bodies !! n_hash n = None /\ raws !! n_hash n = None) ->
  cm_params m' = params -> cm_index m' = ix' -> cm_tip_ledger m' = ledger -> cm_pool m' = pool -> cm_tip_epoch m' = ep -> cm_bodies m' = bodies ->
  cm_side_raws m' = raws -> cm_memo m' = cm_memo m -> cm_ingest m' = cm_ingest m -> cm_cps m' = cm_cps m -> store m' = io_store w -> inv (cm_world m') -> adopted m'.
Proof.
  intros Hset Hwf Hcan Htree Hcr Hpool Hpp Hep Hbod Hraw Hgone Ep Ei El Epo Eep Eb Er Em Eig Ecp Es Iw.
  assert (same_tree (ix_nodes ix') (nodes m)) as Htree' by by symmetry.
  assert (chain_agrees m') as Hag.
  { intros h i n. rewrite Ei, Hcan, Es. intros Hi Hn. destruct (same_tree_lookup _ _ _ _ Htree' Hn) as (n0 & Hn0 & Hsk).
    destruct (adopt_agrees h i n0 Hi Hn0) as (rec & H1 & H2 & H3). exists rec. split; [done|]. pose proof Hsk as [= E1 _ _ _ _ _].
    split; [congruence|]. by eapply same_tree_raw_ok. }
  constructor; rewrite ?Ei, ?Es, ?Hcan, ?Epo, ?Eep, ?Eb, ?Er; try done.
  - eauto.
  - apply adopt_history.
  - intros Hsn. constructor; rewrite ?Ei, ?Es, ?Hcan, ?Epo, ?El, ?Eb, ?Em; try done.
    + apply (mo_limit _ _ O).
    + eapply work_wf_proper; [exact Htree|apply (mo_work _ _ O)].
    + apply history_split. split; [apply adopt_history|done].
    + apply adopt_tip.
    + apply adopt_range.
    + apply (mo_gap _ _ O).
    + intros i n. rewrite Ei, Er, Es. intros Hn. destruct (same_tree_lookup _ _ _ _ Htree' Hn) as (n0 & Hn0 & Hsk).
      pose proof Hsk as [= E1 _ _ _ _ _]. rewrite <-E1. split.
      * intros raw Hr. apply Hraw in Hr. eapply same_tree_raw_ok; [by symmetry|]. by apply (mo_raws _ _ O i n0 Hn0).
      * intros r Hr. eapply same_tree_raw_ok; [by symmetry|]. by eapply adopt_raws.
    + intros h b Hb. eapply (mo_bodies _ _ O), Hbod, Hb.
    + apply adopt_genesis.
    + apply (mo_memo _ _ O).
    + rewrite Er. intros h raw Hr. apply Hraw in Hr. apply (same_tree_indexed (cm_index m)); [apply (mo_index _ _ O)|done..|].
      by apply (mo_indexed _ _ O) in Hr.
Qed.

Lemma nodes_collect ix' l : same_tree (nodes m) (ix_nodes ix') -> Forall (fun i => exists n, zlookup (nodes m) i = Some n) l -> forall k,
  exists ns, try_mapi (fun _ i => node (E := Reject) ix' i) k l = Ok ns /\
    forall i n, i ∈ l -> zlookup (nodes m) i = Some n -> n_hash n ∈ n_hash <$> ns.
Proof.
  intros Ht. induction 1 as [|i l [n Hn] _ IH]; intros k; cbn [try_mapi]; [exists []; split; [done|]; by intros ? ? ?%not_elem_of_nil|].
  destruct (same_tree_lookup _ _ _ _ Ht Hn) as (n' & Hn' & Hsk). rewrite (proj2 (node_ok ix' i n') Hn'). cbn [obind].
  destruct (IH (S k)) as (ns & -> & Hns). cbn [obind]. exists (n' :: ns). split; [done|]. intros j nj Hj Hnj. cbn.
  apply elem_of_cons in Hj as [->|Hj]; [|right; by eapply Hns]. rewrite Hn in Hnj. injection Hnj as <-. injection Hsk as -> _ _ _ _ _. left.
Qed.

Lemma deleted_hash {A} (ns : list Node) (b : gmap Hash32 A) h : h ∈ n_hash <$> ns -> foldl (fun b n => delete (n_hash n) b) b ns !! h = None.
Proof.
  intros Hin. destruct (_ !! h) as [x|] eqn:E; [|done]. apply foldl_delete_lookup in E as [_ Hf].
  apply list_elem_of_fmap in Hin as (n & -> & Hn). rewrite Forall_forall in Hf. by apply list_elem_of_In, Hf in Hn.
Qed.

Lemma wp_update_mempool spent disconnected (m1 : Manager) Q :
  inv (cm_world m1) -> index_wf (cm_index m1) -> credits_ok (cm_tip_ledger m1) -> mp_params (cm_pool m1) = mempool params ->
  in_range (2 ^ 50) (st_account (store m1)) -> 0 <= max_nonce_gap (mempool params) < 2 ^ 63 ->
  (exists f, pool_ok f (cm_pool m1)) -> Forall (fun b => Forall bytes_ok (snd b)) disconnected ->
  (forall m' p, quiet (set_pool m1 p) m' -> pool_ok (exactly (nonce_of (st_account (store m1)))) p -> mp_params p = mempool params -> Q m' (Ok tt)) ->
  wp (manager_update_mempool spent disconnected) Q m1.
Proof.
  intros Iw Hwf Hcr Hpp Hrng Hgap [f Hpool] Hdis HQ. unfold manager_update_mempool.
  assert (forall m2 now height, quiet m1 m2 ->
    wp (let! m := mget in
        let! (p, conds) := mlift (update_mempool (cm_pool m) spent disconnected (st_account (store m)) (spendable_at m height) now) in
        mput (fun m => set_pool m p) ;! emit_all conds) Q m2) as Hrun.
  { intros m2 now height Q2. wp_steps. pose proof Q2 as [(w2 & l2 & s2 & ->) S2 I2]. cbn [cm_world set_stats set_emitted set_world cm_pool] in *.
    destruct (update_mempool_spec f (cm_pool m1) spent disconnected (st_account (io_store w2))
      (spendable_at (set_stats (set_emitted (set_world m1 w2) l2) s2) height) now Hpool Hdis) as (q & conds & -> & Hq & Hqp & _).
    - intros a. rewrite Hpp, S2. by apply range_account_ok.
    - wp_steps. apply wp_emit_all. intros m3 Q3 _. apply (HQ m3 q); [|by rewrite <-S2|congruence].
      eapply quiet_trans; [|exact Q3]. split; [by exists w2, l2, s2|done|done]. }
  destruct disconnected as [|d ds].
  - wp_step. apply wp_ret. apply Hrun, quiet_refl.
  - wp_step. wp_step. apply wp_now; [done|]. intros m2 t Q2 _. pose proof Q2 as [(w2 & l2 & s2 & ->) S2 I2].
    wp_step. apply wp_get. wp_step. apply wp_lift. cbn [cm_index set_stats set_emitted set_world].
    destruct (tip_exists (E := Reject) _ Hwf) as (t0 & n & _ & _ & -> & _ & Hn & _). wp_step. apply wp_lift.
    pose proof (arena_height _ (wf_arena _ Hwf) _ _ Hn) as Hh. apply zlookup_lt in Hn. pose proof (aw_size _ (wf_arena _ Hwf)) as Hs. change NO_PARENT with (2 ^ 32 - 1) in Hs.
    assert (add_checked (E := Reject) 64 (n_height n) 1 = Ok (n_height n + 1)) as -> by (apply expect_ok, checked_add_some; lia).
    apply wp_ret. by apply Hrun.
Qed.

Lemma wp_adopt_branch spent disconnected Q :
  0 <= cst_reorgs (cm_stats m) < 2 ^ 64 - 1 -> 0 <= cst_deep_reorgs (cm_stats m) < 2 ^ 64 - 1 ->
  Forall (fun b => Forall bytes_ok (snd b)) disconnected ->
  (forall m' t, adopted m' -> tip m' = Ok t -> cm_halted m' = cm_halted m -> Q m' (Ok (Advanced t (Zlen (rollback plan)) (Zlen (apply plan))))) ->
  wp (adopt_branch best plan base spent disconnected) Q (set_world m w).
Proof.
  intros Hr Hd Hdis HQ. unfold adopt_branch, update_index. wp_step. apply wp_get. wp_step. apply wp_lift. cbn [cm_index set_world].
  rewrite (pl_ancestry _ _ _ _ P). wp_steps. cbn [cm_index set_world].
  destruct (set_canonical_wf (E := Reject) _ chain (mo_index _ _ O) (pl_path _ _ _ _ P)) as (ix' & Hset & Hwf & Hcan & Htree). rewrite Hset.
  wp_steps. cbn [cm_index set_world set_index set_tip_epoch].
  destruct (nodes_collect ix' (apply plan) Htree (apply_nodes states m best plan chain O P) 0) as (ns & -> & Hns).
  wp_step. wp_step. cbv beta iota. wp_step.
  set (m3 := set_side_raws _ _).
  assert (exists s, (let? r := (if 0 <? Zlen (rollback plan) then add_checked 64 (cst_reorgs (cm_stats m3)) 1 else Ok (cst_reorgs (cm_stats m3))) in
    let? d := (if is_deep base then add_checked 64 (cst_deep_reorgs (cm_stats m3)) 1 else Ok (cst_deep_reorgs (cm_stats m3))) in
    Ok (MkChainStats (cst_headers_connected (cm_stats m3)) (cst_bodies_validated (cm_stats m3)) r (cst_invalidated (cm_stats m3))
      (cst_poisoned (cm_stats m3)) d (cst_side_headers_restored (cm_stats m3)) (cst_headers_readmitted (cm_stats m3)))) = @Ok Reject _ s) as [s Es].
  { change (cm_stats m3) with (cm_stats m).
    assert (add_checked (E := Reject) 64 (cst_reorgs (cm_stats m)) 1 = Ok (cst_reorgs (cm_stats m) + 1)) as -> by (apply expect_ok, checked_add_some; lia).
    assert (add_checked (E := Reject) 64 (cst_deep_reorgs (cm_stats m)) 1 = Ok (cst_deep_reorgs (cm_stats m) + 1)) as -> by (apply expect_ok, checked_add_some; lia).
    destruct (0 <? _), (is_deep base); cbn; eauto. }
  eapply wp_bump; [exact Es|]. intros m4 [(w4 & l4 & s4 & ->) S4 I4] _. cbn in S4. wp_step. apply wp_get. wp_step. apply wp_lift.
  cbn [cm_index set_stats set_emitted set_world m3 set_side_raws set_bodies set_tip_epoch set_index].
  destruct (tip_exists (E := Reject) _ Hwf) as (t0 & n0 & _ & Htip & Hth & _ & _ & Hlen & _). rewrite Hcan in Hlen. rewrite Hth. wp_step. apply wp_lift.
  cbn [cm_world set_stats set_emitted set_world]. rewrite S4.
  destruct adopt_ledger as (ledger & Hl & Hcr). replace (n_height n0) with (Zlen chain - 1) by lia. rewrite Hl. wp_step. apply wp_put. wp_step.
  assert (inv w4) as Iw4 by (apply I4; exact I).
  set (m5 := set_tip_ledger _ _).
  apply (wp_update_mempool spent disconnected m5); [exact Iw4|exact Hwf|exact Hcr|apply (mo_pool_params _ _ O)|change (store m5) with (io_store w4); rewrite S4; apply adopt_accounts|apply (mo_gap _ _ O)| |exact Hdis|].
  { exists (exactly (nonce_of (st_account (store m)))). apply (mo_pool _ _ O). }
  intros m6 p Q6 Hp Hpp. change (store m5) with (io_store w4) in Hp. rewrite S4 in Hp.
  assert (adopted (set_pool m5 p)) as Had.
  { eapply (adopt_finish ix' ledger p _ _ _ (set_pool m5 p) Hset Hwf Hcan Htree Hcr Hp Hpp eq_refl); [| | |apply (mo_params _ _ O)|reflexivity..|exact S4|exact Iw4].
    - intros h b Hb. by apply foldl_delete_lookup in Hb as [? _].
    - intros h b Hb. by apply foldl_delete_lookup in Hb as [? _].
    - intros i n Hi Hn. pose proof (Hns i n Hi Hn). split; by apply deleted_hash. }
  wp_step. apply wp_get. wp_step. apply wp_lift. pose proof (adopted_quiet (set_pool m5 p) m6 Iw4 Q6 Had) as Had6.
  assert (cm_index m6 = ix' /\ cm_halted m6 = cm_halted m) as [E6 H6] by (by destruct Q6 as [(w6 & l6 & s6 & ->) _ _]).
  assert (tip m6 = Ok (MkTipRef (n_height n0) (n_hash n0) (n_time n0) (n_cum_work n0))) as Ht6.
  { unfold tip, tip_ref. rewrite E6, Htip. done. }
  rewrite Ht6. apply wp_ret. by apply HQ.
Qed.
End Adopt.

Lemma adopted_source states m m2 plan chain bs m' : quiet m m2 -> adopted states m2 plan chain bs m' -> adopted states m plan chain bs m'.
Proof. intros [(w & l & s & ->) _ _] []. by constructor. Qed.

(** *** One attempt *)
Record stats_room (k : Z) (s : ChainStats) : Prop := {
  sr_bodies : 0 <= cst_bodies_validated s < 2 ^ 63;
  sr_reorgs : 0 <= cst_reorgs s < 2 ^ 64 - 1;
  sr_deep : 0 <= cst_deep_reorgs s < 2 ^ 64 - 1;
  sr_invalidated : 0 <= cst_invalidated s /\ cst_invalidated s + k < 2 ^ 64;
  sr_poisoned : 0 <= cst_poisoned s /\ cst_poisoned s + k < 2 ^ 64;
}.

(** The rule accepted the candidate of the plan. *)
Definition accepted (m : Manager) (plan : Plan) : Prop :=
  exists now verdict, evaluate_reorg_with_cap (MkArenaView (cm_index m) limit) (fork_height plan + 1)
    (infos limit (nodes m) (apply plan)) (MkReorgParams (cps_anchor (cm_cps m)) (cps_enforced (cm_cps m)) now) (max_reorg_depth params) = Ok verdict.

Definition attempt (states : Z -> Address -> Account) (m : Manager) (plan : Plan) (chain : list Z) (m' : Manager) (r : outcome Reject Progress) : Prop :=
  match r with
  | Ok p => exists bs t, p = Advanced t (Zlen (rollback plan)) (Zlen (apply plan)) /\ tip m' = Ok t /\ accepted m plan /\
      Forall2 (commits_node m) (apply plan) bs /\ steps params (states (fork_height plan)) bs /\
      adopted states m plan chain bs m' /\ cm_halted m' = cm_halted m
  | Err (BranchInvalid _ hash _) => quiet m m' /\ cm_stats m' = cm_stats m /\
      exists i n, i ∈ apply plan /\ zlookup (nodes m) i = Some n /\ n_hash n = hash
  | Err (Rule _) => quiet m m' /\ cm_stats m' = cm_stats m
  | Err (Halted d) => cm_halted m' = Some d
  | Err _ => quiet m m'
  | Panic => False
  end.

Lemma wp_judge states m best plan chain tip_height now Q : manager_ok states m -> planned m best plan chain ->
  (accepted m plan -> Q m (Ok tt)) -> (forall m' e, quiet m m' -> cm_stats m' = cm_stats m -> Q m' (Err (Rule e))) ->
  wp (judge plan tip_height (fork_height plan + 1) now) Q m.
Proof.
  intros O P Hyes Hno. unfold judge. wp_step. apply wp_get. wp_step. apply wp_lift. rewrite (mo_params _ _ O).
  destruct (plan_facts limit (cm_index m) best plan (mo_arena _ _ O) (pl_plan _ _ _ _ P)) as (c & _ & _ & _ & -> & Hco & H0 & Hlt).
  destruct (evaluate_reorg_spec (MkArenaView (cm_index m) limit) _ (arena_view_of _ (mo_arena _ _ O)) (fork_height plan + 1)
    (infos limit (nodes m) (apply plan)) (MkReorgParams (cps_anchor (cm_cps m)) (cps_enforced (cm_cps m)) now) (max_reorg_depth params)) as [Hnp _];
    [done|done|by apply chain_wf_targets|].
  destruct (evaluate_reorg_with_cap _ _ _ _ _) as [v|e|] eqn:Ev; [|destruct e|done].
  all: try (wp_step; apply wp_ret; apply wp_fail, Hno; [apply quiet_refl|done]).
  - apply wp_ret, Hyes. by exists now, v.
  - wp_step. apply wp_emit. intros m' Q' S'. apply wp_fail. by apply Hno.
Qed.

Lemma non_coinbase_ok st h : (forall raw, st_body_at st h = Some raw -> bytes_ok raw) -> Forall bytes_ok (non_coinbase_bytes st h).
Proof.
  intros Hb. unfold non_coinbase_bytes. destruct (st_body_at st h) as [raw|]; [|constructor]. specialize (Hb raw eq_refl).
  destruct (BlockBody_parse raw) as [body| |] eqn:E; [|constructor..]. apply parse_raw in E.
  apply Forall_forall. intros b Hin. apply list_elem_of_In, list_elem_of_omap in Hin as (i & _ & Hi).
  unfold BlockBody_tx_bytes in Hi. destruct (bb_spans body !! i) as [sp|]; [|done]. injection Hi as <-. unfold slice. rewrite ?E.
  by apply Forall_take, Forall_drop.
Qed.

Lemma wp_sink_verdict r Q (m : Manager) : (r = None -> Q m (Ok tt)) ->
  (forall e, r = Some e -> (forall d, e <> SinkFatal d) -> forall x, (x = Busy \/ exists d, x = SinkRefused d) -> Q m (Err x)) ->
  (forall d m', r = Some (SinkFatal d) -> cm_halted m' = Some d -> Q m' (Err (Halted d))) ->
  wp (sink_verdict r) Q m.
Proof.
  intros H1 H2 H3. unfold sink_verdict. destruct r as [[|d|d]|].
  - apply wp_fail. apply (H2 SinkFull); [done..|by left].
  - apply wp_fail. apply (H2 (SinkInvalid d)); [done..|right; eauto].
  - wp_step. apply wp_put. wp_step. apply wp_emit. intros m' [(w & l & s & ->) _ _] _. apply wp_fail. by apply H3.
  - by apply wp_ret, H1.
Qed.

Lemma wp_try_adopt states m best plan chain : manager_ok states m -> planned m best plan chain -> stats_room 0 (cm_stats m) ->
  wp (try_adopt best plan) (attempt states m plan chain) m.
Proof.
  intros O P R. unfold try_adopt. wp_step. apply wp_now; [apply (mo_world _ _ O)|]. intros m1 now Q1 S1.
  pose proof (quiet_ok _ _ _ Q1 O) as O1. pose proof (quiet_planned _ _ _ _ _ Q1 P) as P1. pose proof (pl_fork _ _ _ _ P1) as Hf.
  pose proof (height_bound states m1 O1) as Hhb.
  wp_step. apply wp_get. wp_step. apply wp_lift. destruct (tip_exists (E := Reject) _ (mo_index _ _ O1)) as (t0 & n0 & _ & _ & -> & _ & _ & Hlen & _).
  wp_step. apply wp_lift.
  assert (add_checked (E := Reject) 64 (fork_height plan) 1 = Ok (fork_height plan + 1)) as -> by (apply expect_ok, checked_add_some; lia).
  wp_step. apply (wp_judge states m1 best plan chain); [done|done| |intros m2 e Q2 S2; cbn; split; [by eapply quiet_trans|congruence]].
  intros Hacc. wp_step. apply wp_get. cbv zeta. set (dis := _ <$> rollback plan).
  wp_step. apply wp_lift. pose proof (plan_branch_spec states m1 best plan chain O1 P1) as Hbr.
  assert (nodes m1 = nodes m) as En by (by destruct Q1 as [(w & l & x & ->) _ _]).
  destruct (plan_branch m1 plan) as [branch|e|]; [|destruct e; try contradiction; unfold attempt; [exact Q1|by rewrite <-En]|contradiction].
  wp_step. apply wp_lift. destruct (branch_work_ok states m1 best plan chain O1 P1) as [works ->].
  pose proof (plan_outcome_spec states m1 best plan chain branch works O1 P1 Hbr) as Hout.
  replace (n_height n0) with (height m1) by lia. destruct (plan_outcome m1 plan (height m1) branch works) as [conds r]. cbn [snd] in Hout.
  wp_step. apply wp_emit_all. intros m2 Q2 S2. pose proof (quiet_trans _ _ _ Q1 Q2) as Q12. wp_step. apply wp_lift.
  destruct r as [[[cs spent] base]|e|]; [|destruct e; try contradiction; unfold attempt; [rewrite <-En; split_and!; [done|congruence|done]|exact Q12]|contradiction].
  destruct Hout as (low & replayed & bs & X). pose proof (quiet_executed _ _ _ _ _ _ _ _ _ Q2 X) as X2.
  pose proof (quiet_ok _ _ _ Q2 O1) as O2. pose proof (quiet_planned _ _ _ _ _ Q2 P1) as P2.
  assert (Forall2 (commits_node m) (apply plan) bs) as Hbs.
  { eapply Forall2_impl; [|apply (ex_blocks _ _ _ _ _ _ _ _ X)]. intros i b (n & Hn & Hrest). exists n. by rewrite <-En. }
  wp_step.
  assert (Zlen branch < 2 ^ 33) as Hbl.
  { pose proof (chain_len m1 best plan chain P1) as Hcl. pose proof (Forall2_length Hbr) as Hl. pose proof (pl_last _ _ _ _ P1) as Hlast.
    rewrite zlookup_last in Hlast. destruct (path_node _ (wf_arena _ (mo_index _ _ O1)) _ _ _ (pl_path _ _ _ _ P1) Hlast) as (nb & Hnb & Hh).
    pose proof (arena_height _ (wf_arena _ (mo_index _ _ O1)) _ _ Hnb). apply zlookup_lt in Hnb. pose proof (aw_size _ (wf_arena _ (mo_index _ _ O1))) as Hs.
    change NO_PARENT with (2 ^ 32 - 1) in Hs. unfold Zlen in *. lia. }
  assert (cm_stats m2 = cm_stats m) as Es2 by congruence. pose proof (sr_bodies _ _ R) as Rb. pose proof (Zlen_nonneg branch).
  eapply wp_bump.
  { rewrite Es2. assert (add_checked (E := Reject) 64 (cst_bodies_validated (cm_stats m)) (Zlen branch) = Ok (cst_bodies_validated (cm_stats m) + Zlen branch)) as ->
      by (apply expect_ok, checked_add_some; lia). cbn [obind]. reflexivity. }
  intros m3 Q3 S3. pose proof (quiet_ok _ _ _ Q3 O2) as O3. pose proof (quiet_planned _ _ _ _ _ Q3 P2) as P3.
  pose proof (quiet_executed _ _ _ _ _ _ _ _ _ Q3 X2) as X3. pose proof (quiet_trans _ _ _ Q12 Q3) as Q13.
  wp_step. apply (sink_commit_spec states m3 best plan chain cs base low replayed bs _ O3 P3 X3). intros w r [Iw Hw].
  wp_step. apply wp_sink_verdict.
  - intros ->. apply (wp_adopt_branch states m3 best plan chain O3 P3 cs base low replayed bs X3 w Iw Hw).
    + rewrite S3. apply R.
    + rewrite S3. apply R.
    + unfold dis. apply Forall_fmap, Forall_forall. intros h _. cbn. apply non_coinbase_ok.
      intros raw. apply (so_body_at _ (io_store_ok _ (mo_world _ _ O1))).
    + intros m' t Had Ht Hh. cbn. exists bs, t. split_and!; [done|done| |done|apply X|by eapply adopted_source|].
      * clear -Q1 Hacc. by destruct Q1 as [(w1 & l1 & s1 & ->) _ _].
      * rewrite Hh. by destruct Q13 as [(w1 & l1 & s1 & ->) _ _].
  - intros e -> Hne x Hx. assert (io_store w = store m3) as Hst by (destruct e as [| |d]; [done|done|by destruct (Hne d)]).
    assert (quiet m (set_world m3 w)) as Qf.
    { eapply quiet_trans; [exact Q13|]. split; [by exists w, (cm_emitted m3), (cm_stats m3)|done|done]. }
    destruct Hx as [->|[d ->]]; exact Qf.
  - intros d m' -> Hh. exact Hh.
Qed.

(** *** The scan for bodies *)
Definition wants (m : Manager) (h : Hash32) : Prop :=
  exists i n, zlookup (nodes m) i = Some n /\ n_hash n = h /\ (i ∉ ix_canonical (cm_index m)) /\ have_body m h = false.
Record pending_ok (m : Manager) (pending : list Hash32) : Prop := {
  pe_cap : Zlen pending <= WANTED_BODIES_CAP;
  pe_nodup : NoDup pending;
  pe_wants : forall h, h ∈ pending -> wants m h;
}.
Lemma scan_bodies_spec m l : Forall (fun i => (exists n, zlookup (nodes m) i = Some n) /\ i ∉ ix_canonical (cm_index m)) l ->
  forall pos first pending, pending_ok m pending ->
  exists first' pending', scan_bodies m l pos first pending = Ok (first', pending') /\ pending_ok m pending' /\
    (pending <> [] -> pending' <> []) /\
    (first = None -> match first' with
      | None => Forall (fun i => forall n, zlookup (nodes m) i = Some n -> have_body m (n_hash n) = true) l
      | Some p => (pos <= p < pos + length l)%nat /\ pending' <> []
      end) /\ (first <> None -> first' = first).
Proof.
  induction 1 as [|i l [[n Hn] Hside] _ IH]; intros pos first pending Hp; cbn [scan_bodies].
  - exists first, pending. split_and!; try done. by intros ->.
  - rewrite (proj2 (node_ok (cm_index m) i n) Hn). cbn [obind]. destruct (have_body m (n_hash n)) eqn:Eb.
    + destruct (IH (S pos) first pending Hp) as (f' & p' & E & H1 & H2 & H3 & H4). exists f', p'. split_and!; try done. intros Hf.
      specialize (H3 Hf). destruct f' as [q|]; [split; [cbn; lia|by apply H3]|]. constructor; [|done]. intros n' Hn'. congruence.
    + set (pend := if _ && _ then _ else _).
      assert (pending_ok m pend /\ pend <> []) as [Hp' Hne].
      { unfold pend. destruct (Z.ltb_spec (Zlen pending) WANTED_BODIES_CAP) as [Hlt|Hge]; cbn [andb].
        - case_bool_decide as Hin.
          + destruct Hp as [P1 P2 P3]. split; [|by destruct pending]. split.
            * rewrite Zlen_app. change (Zlen [_]) with 1. lia.
            * apply list.NoDup_app. split; [done|]. split; [|apply NoDup_singleton]. intros x Hx Hx2. apply list_elem_of_singleton in Hx2 as ->. done.
            * intros h Hh. apply elem_of_app in Hh as [Hh|Hh]; [by apply P3|]. apply list_elem_of_singleton in Hh as ->. by exists i, n.
          + split; [done|]. intros ->. by apply not_elem_of_nil in Hin.
        - split; [done|]. intros ->. change (Zlen []) with 0 in Hge. unfold WANTED_BODIES_CAP in Hge. lia. }
      destruct (IH (S pos) (match first with None => Some pos | Some _ => first end) pend Hp') as (f' & p' & E & H1 & H2 & H3 & H4). exists f', p'.
      split_and!; try done; [intros _; by apply H2| |].
      * intros ->. rewrite (H4 ltac:(done)). split; [cbn; lia|by apply H2].
      * intros Hf. destruct first; [|done]. by apply H4.
Qed.

(** *** Invalidation *)
Lemma history_with_invalid st f states t : holds_history st params states t -> holds_history (with_invalid st f) params states t.
Proof. intros []. by constructor. Qed.

Record pruned (m m' : Manager) : Prop := {
  pr_tree : same_tree (nodes m) (nodes m');
  pr_reach : forall adm, ix_reach adm (cm_index m) -> ix_reach adm (cm_index m');
  pr_ingest : cm_ingest m' = cm_ingest m;
  pr_canonical : ix_canonical (cm_index m') = ix_canonical (cm_index m);
  pr_store : exists f, store m' = with_invalid (store m) f;
  pr_bodies : cm_bodies m' = cm_bodies m;
  pr_raws : cm_side_raws m' = cm_side_raws m;
  pr_pool : cm_pool m' = cm_pool m;
  pr_ledger : cm_tip_ledger m' = cm_tip_ledger m;
  pr_cps : cm_cps m' = cm_cps m;
  pr_memo : cm_memo m' = cm_memo m;
  pr_params : cm_params m' = cm_params m;
  pr_halted : cm_halted m' = cm_halted m;
  pr_flags : forall i n n', zlookup (nodes m) i = Some n -> zlookup (nodes m') i = Some n' -> n_invalid n = true -> n_invalid n' = true;
}.
Lemma with_invalid_same st : with_invalid st (st_is_invalid st) = st.
Proof. by destruct st. Qed.
Lemma pruned_refl m : pruned m m.
Proof. constructor; try done; [by exists (st_is_invalid (store m)); rewrite with_invalid_same|congruence]. Qed.
Lemma pruned_trans a b c : pruned a b -> pruned b c -> pruned a c.
Proof.
  intros [A1 Ar Ai A2 [f Af] A4 A5 A6 A7 A8 Am A9 A10 A11] [B1 Br Bi B2 [g Bg] B4 B5 B6 B7 B8 Bm B9 B10 B11]. constructor; try congruence.
  - auto.
  - exists g. by rewrite Bg, Af.
  - intros i n n' Hn Hn' Hv. destruct (same_tree_lookup _ _ _ _ A1 Hn) as (n1 & Hn1 & _). eauto.
Qed.
Lemma quiet_pruned m m' : quiet m m' -> pruned m m'.
Proof.
  intros [(w & l & s & ->) S _]. cbn in S. constructor; cbn; try done; [exists (st_is_invalid (store m)); by rewrite with_invalid_same|congruence].
Qed.

Lemma pruned_ok states m m' : pruned m m' -> index_wf (cm_index m') -> inv (cm_world m') -> manager_ok states m -> manager_ok states m'.
Proof.
  intros [A1 Ar Ai A2 [f Af] A4 A5 A6 A7 A8 Am A9 A10 A11] Hwf Iw O. assert (same_tree (nodes m') (nodes m)) as A1' by by symmetry.
  constructor; rewrite ?A9, ?A2, ?A4, ?A6, ?A7, ?Am, ?Af; try apply O; try done.
  - eapply work_wf_proper; [exact A1|apply (mo_work _ _ O)].
  - apply history_with_invalid, O.
  - intros h i n. rewrite A2, Af. intros Hi Hn. destruct (same_tree_lookup _ _ _ _ A1' Hn) as (n0 & Hn0 & Hsk).
    destruct (mo_agrees _ _ O h i n0 Hi Hn0) as (rec & H1 & H2 & H3). exists rec. pose proof Hsk as [= E1 _ _ _ _ _]. split; [done|].
    split; [congruence|]. eapply same_tree_raw_ok; [|exact H3]. by symmetry.
  - intros i n. rewrite A5, Af. intros Hn. destruct (same_tree_lookup _ _ _ _ A1' Hn) as (n0 & Hn0 & Hsk).
    pose proof Hsk as [= E1 _ _ _ _ _]. destruct (mo_raws _ _ O i n0 Hn0) as [R1 R2]. rewrite <-E1.
    split; intros ? Hr; (eapply same_tree_raw_ok; [by symmetry|]); [by apply R1|by apply R2].
  - rewrite A5. intros h raw Hr. apply (same_tree_indexed (cm_index m)); [apply (mo_index _ _ O)|done..|]. by apply (mo_indexed _ _ O) in Hr.
Qed.
Lemma pruned_wants m m' h : pruned m m' -> wants m h -> wants m' h.
Proof.
  intros [A1 Ar Ai A2 [f Af] A4 A5 A6 A7 A8 Am A9 A10 A11] (i & n & Hn & Hh & Hs & Hb). destruct (same_tree_lookup _ _ _ _ A1 Hn) as (n' & Hn' & Hsk).
  injection Hsk as E1 _ _ _ _ _. exists i, n'. rewrite A2. split_and!; [done|congruence|done|]. unfold have_body in *. by rewrite A4, Af.
Qed.
Lemma pruned_pending m m' pending : pruned m m' -> pending_ok m pending -> pending_ok m' pending.
Proof. intros A [P1 P2 P3]. split; [done|done|]. intros h Hh. eapply pruned_wants; [done|]. by apply P3. Qed.

Abbreviation valid_left m := (Zlen (nodes m) - invalid_count (nodes m)).

Lemma wp_invalidate states m i n Q : manager_ok states m -> zlookup (nodes m) i = Some n -> n_invalid n = false -> stats_room (valid_left m) (cm_stats m) ->
  (forall m', pruned m m' -> manager_ok states m' -> valid_left m' < valid_left m -> stats_room (valid_left m') (cm_stats m') -> Q m' (Ok tt)) ->
  wp (invalidate (n_hash n)) Q m.
Proof.
  intros O Hn Hv R HQ. unfold invalidate. wp_step. apply wp_get.
  assert (index_of (cm_index m) (n_hash n) = Some i) as -> by (apply (wf_hash _ (mo_index _ _ O)); eauto).
  wp_step. apply wp_lift. destruct (mark_invalid_wf (E := Reject) _ i n (mo_index _ _ O) Hn) as (p & ix' & Hm & Hwf).
  destruct (mark_invalid_spec (E := Reject) _ i n (mo_index _ _ O) Hn) as (p' & ix2 & Hm' & Hbh & Hcan & Htree & Hfl & Hcnt).
  rewrite Hm in Hm'. injection Hm' as <- <-. rewrite Hm, Hv in *.
  pose proof (invalid_count_bound (ix_nodes ix')) as Hb'. pose proof (invalid_count_bound (nodes m)) as Hb. pose proof (same_tree_Zlen _ _ Htree) as Hzl.
  assert (0 <= p) as Hp0.
  { clear -Hm. unfold mark_invalid in Hm. destruct (or_flags_at _ i _) as [ns| |]; [|done..]. cbn [obind] in Hm.
    destruct (ofold poison_step (ns, 0) _) as [[ns2 c]| |] eqn:E; [|done..]. cbn [obind] in Hm. injection Hm as <- _. by apply poisoned_nonneg in E. }
  wp_step. apply wp_put. wp_step. eapply wp_bump.
  { cbn [cm_stats set_index]. destruct R as [_ _ _ Ri Rp].
    assert (add_checked (E := Reject) 64 (cst_invalidated (cm_stats m)) 1 = Ok (cst_invalidated (cm_stats m) + 1)) as -> by (apply expect_ok, checked_add_some; lia).
    cbn [obind]. assert (add_checked (E := Reject) 64 (cst_poisoned (cm_stats m)) p = Ok (cst_poisoned (cm_stats m) + p)) as -> by (apply expect_ok, checked_add_some; lia).
    cbn [obind]. reflexivity. }
  intros m1 Q1 S1. apply wp_put. destruct Q1 as [(w & l & s & ->) Sw Iw]. cbn in Sw, Iw, S1. specialize (Iw (mo_world _ _ O)).
  destruct (io_invalid_law w (n_hash n) Iw) as [Iw' [f Hf]].
  match goal with |- Q ?x _ => set (m2 := x) end.
  assert (pruned m m2) as Hpr.
  { constructor; cbn; try done; [intros adm Ha; by eapply reach_invalid|by exists f; rewrite Hf, Sw|]. intros j nj nj' Hj Hj' Hvj. apply (Hfl j nj nj' Hj Hj'). by left. }
  assert (valid_left m2 = valid_left m - (p + 1)) as Hleft by (cbn; lia).
  apply HQ; [done| |lia|].
  - by apply (pruned_ok states m).
  - rewrite Hleft. destruct R as [R1 R2 R3 R4 R5]. cbn [cm_stats m2 set_world set_stats] in *. subst s. constructor; cbn; try done; lia.
Qed.

(** *** The loop *)
Definition tip_best (m : Manager) : Prop := forall t, ix_tip (E := Reject) (cm_index m) = Ok t ->
  forall i n, eligible (cm_index m) [] i n -> ~ beats n t.

(** An adoption: from a state [m1] of the loop, the branch [plan] to [best] was accepted, committed as [bs] and made canonical. *)
Record advanced (states : Z -> Address -> Account) (m0 m1 : Manager) (best : Z) (plan : Plan) (chain : list Z) (bs : list CommitBlock)
    (m' : Manager) (t : TipRef) (rb ap : Z) : Prop := {
  av_pruned : pruned m0 m1;
  av_ok : manager_ok states m1;
  av_planned : planned m1 best plan chain;
  av_accepted : accepted m1 plan;
  av_commits : Forall2 (commits_node m1) (apply plan) bs;
  av_steps : steps params (states (fork_height plan)) bs;
  av_adopted : adopted states m1 plan chain bs m';
  av_tip : tip m' = Ok t;
  av_counts : rb = Zlen (rollback plan) /\ ap = Zlen (apply plan);
  av_halted : cm_halted m' = cm_halted m0;
}.

Definition finished (states : Z -> Address -> Account) (m0 m' : Manager) (r : outcome Reject Progress) : Prop :=
  match r with
  | Ok NoChange => pruned m0 m' /\ manager_ok states m' /\ tip_best m'
  | Ok (NeedBodies hs) => pruned m0 m' /\ manager_ok states m' /\ hs <> [] /\ cm_wanted_bodies m' = hs /\ pending_ok m' hs
  | Ok (Advanced t rb ap) => exists m1 best plan chain bs, advanced states m0 m1 best plan chain bs m' t rb ap
  | Err (Halted d) => cm_halted m' = Some d
  | Err _ => pruned m0 m' /\ manager_ok states m'
  | Panic => False
  end.

Lemma wanted_pruned m0 m x : pruned m0 m -> pruned m0 (set_wanted_bodies m x).
Proof. intros []. by constructor. Qed.
Lemma wanted_ok states m x : manager_ok states m -> manager_ok states (set_wanted_bodies m x).
Proof. intros []. by constructor. Qed.
Lemma failure_pruned m0 m x : pruned m0 m -> pruned m0 (set_last_branch_failure m x).
Proof. intros []. by constructor. Qed.
Lemma failure_ok states m x : manager_ok states m -> manager_ok states (set_last_branch_failure m x).
Proof. intros []. by constructor. Qed.
Lemma wanted_adopted states m plan chain bs m' x : adopted states m plan chain bs m' -> adopted states m plan chain bs (set_wanted_bodies m' x).
Proof. intros [A1 A2 A3 A4 A5 A6 A7 A8 A9]. constructor; try done. intros Hs. by apply wanted_ok, A3. Qed.

Record loop_ok (states : Z -> Address -> Account) (m0 m : Manager) (fuel : nat) (refused : list Z) (fr : option Reject) (pending : list Hash32) : Prop := {
  lk_pruned : pruned m0 m;
  lk_ok : manager_ok states m;
  lk_room : stats_room (valid_left m) (cm_stats m);
  lk_sorted : StronglySorted Z.lt refused;
  lk_side : forall i, i ∈ refused -> 0 <= i < Zlen (nodes m) /\ tip_index (E := Reject) (cm_index m) <> Ok i;
  lk_pending : pending_ok m pending;
  lk_cause : refused = [] \/ pending <> [] \/ fr <> None;
  lk_refusal : forall e, fr = Some e -> exists r, e = Rule r;
  lk_fuel : Zlen (nodes m) - Zlen refused + valid_left m < Z.of_nat fuel;
}.

Lemma settle_spec states m0 m fuel refused fr pending : loop_ok states m0 m fuel refused fr pending ->
  (refused = [] -> tip_best m) -> wp (settle pending fr) (finished states m0) m.
Proof.
  intros K Hb. unfold settle. wp_step. apply wp_put. pose proof (wanted_pruned m0 m pending (lk_pruned _ _ _ _ _ _ _ K)) as Hp.
  pose proof (wanted_ok states m pending (lk_ok _ _ _ _ _ _ _ K)) as Ho. destruct pending as [|h hs].
  - destruct fr as [e|].
    + apply wp_fail. destruct (lk_refusal _ _ _ _ _ _ _ K e eq_refl) as [r ->]. by split.
    + apply wp_ret. split; [done|]. split; [done|]. apply Hb. by destruct (lk_cause _ _ _ _ _ _ _ K) as [?|[?|?]].
  - apply wp_ret. split_and!; try done. destruct (lk_pending _ _ _ _ _ _ _ K) as [P1 P2 P3]. by split.
Qed.

Lemma loop_move states m0 m m' fuel fuel' refused fr pending : loop_ok states m0 m fuel refused fr pending -> pruned m m' -> manager_ok states m' ->
  stats_room (valid_left m') (cm_stats m') -> valid_left m' - Z.of_nat fuel' <= valid_left m - Z.of_nat fuel ->
  loop_ok states m0 m' fuel' refused fr pending.
Proof.
  intros [K1 K2 K3 K4 K5 K6 K7 K8 K9] Hp Ho Hr Hf. pose proof (same_tree_Zlen _ _ (pr_tree _ _ Hp)) as Hl. constructor; try done.
  - by eapply pruned_trans.
  - intros i Hi. unfold tip_index. rewrite <-Hl, (pr_canonical _ _ Hp). by apply K5.
  - by eapply pruned_pending.
  - lia.
Qed.

(** Fork choice skipping [refused] never returns one of them, and with nothing skipped and no plan the tip is the best header. *)
Lemma best_choice states m0 m fuel refused fr pending : loop_ok states m0 m fuel refused fr pending ->
  exists best b, select_best_excluding (E := Reject) (cm_index m) refused = Ok best /\ zlookup (nodes m) best = Some b /\ (best ∉ refused) /\
    (best ∈ ix_canonical (cm_index m) \/ n_invalid b = false) /\
    (forall tip, tip_index (E := Reject) (cm_index m) = Ok tip -> best = tip -> refused = [] -> tip_best m) /\
    (forall tip, tip_index (E := Reject) (cm_index m) = Ok tip -> best <> tip -> n_invalid b = false).
Proof.
  intros K. pose proof (lk_ok _ _ _ _ _ _ _ K) as O.
  destruct (select_best_spec limit (cm_index m) (mo_index _ _ O) (mo_work _ _ O) (E := Reject) refused) as (best & b & tip & H1 & H2 & H3 & H4 & H5).
  destruct (tip_exists (E := Reject) _ (mo_index _ _ O)) as (t & tn & Ht & Htip & _ & _ & Htn & _ & Hin). rewrite Ht in H2. injection H2 as <-.
  exists best, b. split; [done|]. split; [done|]. split; [|split; [|split]].
  - destruct H4 as [->|H4]; [|apply H4]. intros Hr. by apply (lk_side _ _ _ _ _ _ _ K) in Hr as [_ Hr].
  - destruct H4 as [->|H4]; [by left|right; apply H4].
  - intros tip Htp -> ->. rewrite Ht in Htp. injection Htp as <-. rewrite H3 in Htn. injection Htn as <-. intros t' Ht' i n Hel.
    rewrite Htip in Ht'. injection Ht' as <-. apply (H5 i n (proj1 Hel)). by right.
  - intros tip Htp Hne. rewrite Ht in Htp. injection Htp as <-. destruct H4 as [?|H4]; [done|apply H4].
Qed.

Lemma best_in_apply m best plan chain : planned m best plan chain -> apply plan <> [] -> list.last (apply plan) = Some best.
Proof.
  intros P Hne. pose proof (pl_last _ _ _ _ P) as Hl. rewrite (pl_chain _ _ _ _ P), last_app in Hl.
  destruct (list.last (apply plan)) as [x|] eqn:E; [done|]. by apply last_None in E.
Qed.

Lemma loop_skip states m0 m fuel refused fr fr' pending pending' skip best : loop_ok states m0 m (S fuel) refused fr pending ->
  pending_ok m pending' -> best ∈ skip -> (best ∉ refused) ->
  (forall i, i ∈ skip -> 0 <= i < Zlen (nodes m) /\ tip_index (E := Reject) (cm_index m) <> Ok i) ->
  (pending' <> [] \/ fr' <> None) -> (forall e, fr' = Some e -> exists r, e = Rule r) ->
  loop_ok states m0 m fuel (foldl skip_insert refused skip) fr' pending'.
Proof.
  intros [K1 K2 K3 K4 K5 K6 K7 K8 K9] Hp Hin Hnot Hs Hc Hr. destruct (skip_all_spec skip refused K4) as (S1 & S2 & S3 & S4).
  specialize (S4 best Hin Hnot). constructor; try done.
  - intros i Hi. apply S2 in Hi as [Hi|Hi]; [by apply Hs|by apply K5].
  - by right.
  - unfold Zlen in *. lia.
Qed.

Lemma advance_loop_spec states m0 : forall fuel refused fr pending m, loop_ok states m0 m fuel refused fr pending ->
  wp (advance_loop fuel refused fr pending) (finished states m0) m.
Proof.
  induction fuel as [|fuel IH]; intros refused fr pending m K.
  { exfalso. pose proof (lk_fuel _ _ _ _ _ _ _ K) as Hf. pose proof (invalid_count_bound (nodes m)) as Hb.
    pose proof (sorted_bounded refused (Zlen (nodes m)) (lk_sorted _ _ _ _ _ _ _ K)) as Hs.
    assert (Zlen refused <= Z.max 0 (Zlen (nodes m))) by (apply Hs; intros x Hx; by apply (lk_side _ _ _ _ _ _ _ K)). pose proof (Zlen_nonneg (nodes m)). lia. }
  cbn [advance_loop]. pose proof (lk_ok _ _ _ _ _ _ _ K) as O.
  destruct (best_choice _ _ _ _ _ _ _ K) as (best & b & Hbest & Hb & Hnr & _ & Htb & Hval).
  wp_step. apply wp_get. wp_step. apply wp_lift. rewrite Hbest. rewrite bool_decide_eq_false_2 by done.
  wp_step. apply wp_lift. destruct (plan_exists states m best b O Hb) as (tip & o & Htip & -> & Ho).
  destruct o as [plan|]; [|by apply (settle_spec _ _ _ _ refused _ _ K); apply (Htb tip)].
  destruct Ho as (Hne & chain & P). specialize (Hval tip Htip Hne).
  pose proof (apply_nodes states m best plan chain O P) as Hnodes. pose proof (pl_side _ _ _ _ P) as Hsides.
  assert (forall i, i ∈ apply plan -> 0 <= i < Zlen (nodes m) /\ tip_index (E := Reject) (cm_index m) <> Ok i) as Hside.
  { intros i Hi. rewrite Forall_forall in Hnodes, Hsides. apply list_elem_of_In in Hi. destruct (Hnodes i Hi) as [n Hn].
    split; [by apply (zlookup_lt _ _ _ Hn)|]. intros Ht. apply (Hsides i Hi).
    destruct (tip_exists (E := Reject) _ (mo_index _ _ O)) as (t & _ & Ht' & _ & _ & _ & _ & _ & Hin). rewrite Ht in Ht'. by injection Ht' as ->. }
  wp_step. apply wp_lift.
  destruct (scan_bodies_spec m (apply plan) ltac:(by apply Forall_and) 0 None pending (lk_pending _ _ _ _ _ _ _ K))
    as (first & pending' & -> & Hpe & Hmore & Hfirst & _). specialize (Hfirst eq_refl). destruct first as [pos|].
  - destruct Hfirst as [Hpos Hpne]. apply IH. apply (loop_skip _ _ _ _ _ fr fr pending pending' _ best K); [done| |done| |by left|apply (lk_refusal _ _ _ _ _ _ _ K)].
    + assert (list.last (drop pos (apply plan)) = Some best) as Hl.
      { rewrite <-(best_in_apply m best plan chain P) by (intros E; rewrite E in Hpos; cbn in Hpos; lia).
        rewrite <-(take_drop pos (apply plan)) at 2. rewrite last_app. destruct (list.last (drop pos (apply plan))) eqn:E; [done|].
        apply last_None in E. apply (f_equal length) in E. rewrite length_drop in E. cbn in E. lia. }
      by apply last_Some_elem_of.
    + intros i Hi. apply Hside. rewrite <-(take_drop pos (apply plan)). apply elem_of_app. by right.
  - clear Hfirst. assert (stats_room 0 (cm_stats m)) as R0.
    { pose proof (invalid_count_bound (nodes m)). destruct (lk_room _ _ _ _ _ _ _ K) as [R1 R2 R3 R4 R5]. constructor; try done; lia. }
    pose proof (wp_try_adopt states m best plan chain O P R0) as Ha. unfold wp in Ha |- *.
    destruct (try_adopt best plan m) as [m1 r]. cbn [fst snd] in Ha.
    destruct r as [p|e|]; [| |done].
    + destruct Ha as (bs & t & -> & Ht & Hacc & Hcm & Hst & Had & Hh). cbn. exists m, best, plan, chain, bs.
      constructor; try done; [apply (lk_pruned _ _ _ _ _ _ _ K)|by apply wanted_adopted|].
      cbn. rewrite Hh. apply (lk_pruned _ _ _ _ _ _ _ K).
    + assert (forall Q1 : quiet m m1, pruned m0 (set_wanted_bodies m1 pending') /\ manager_ok states (set_wanted_bodies m1 pending')) as Hq.
      { intros Q1. split; [apply wanted_pruned; eapply pruned_trans; [apply (lk_pruned _ _ _ _ _ _ _ K)|by apply quiet_pruned]|].
        apply wanted_ok. by eapply quiet_ok. }
      destruct e; cbn in Ha; try (by apply Hq).
      * (* the rule refused the branch *)
        change (wp (mput (fun m => set_last_branch_failure m (Some (Rule e))) ;! advance_loop fuel (skip_insert refused best) (or_else fr (Rule e)) pending')
          (finished states m0) m1).
        destruct Ha as [Q1 S1]. wp_step. apply wp_put. apply IH. change (skip_insert refused best) with (foldl skip_insert refused [best]).
        apply (loop_move states m0 m _ fuel).
        -- apply (loop_skip states m0 m fuel refused fr (or_else fr (Rule e)) pending pending' [best] best K Hpe); [apply list_elem_of_here|done| | |].
           ++ intros i Hi. apply list_elem_of_singleton in Hi as ->. split; [by apply (zlookup_lt _ _ _ Hb)|congruence].
           ++ right. by destruct fr.
           ++ intros x Hx. destruct fr as [y|]; [by apply (lk_refusal _ _ _ _ _ _ _ K)|]. injection Hx as <-. eauto.
        -- apply failure_pruned. by apply quiet_pruned.
        -- apply failure_ok. by eapply quiet_ok.
        -- cbn [cm_stats set_last_branch_failure cm_index]. rewrite S1. destruct Q1 as [(w & l & s & ->) _ _]. apply (lk_room _ _ _ _ _ _ _ K).
        -- destruct Q1 as [(w & l & s & ->) _ _]. cbn. lia.
      * (* a block of the branch is invalid *)
        destruct Ha as (Q1 & S1 & i & n & Hi & Hn & <-). pose proof (quiet_ok _ _ _ Q1 O) as O1.
        assert (nodes m1 = nodes m /\ cm_index m1 = cm_index m) as [En Ei] by (by destruct Q1 as [(w & l & s & ->) _ _]).
        change (wp (let! is_side := mlift (side_header m1 (n_hash n)) in
          if negb is_side then mfail (BranchInvalid height (n_hash n) e) else
          mput (fun m => set_last_branch_failure m (Some (BranchInvalid height (n_hash n) e))) ;!
          invalidate (n_hash n) ;! advance_loop fuel refused fr pending') (finished states m0) m1).
        wp_step. apply wp_lift. unfold side_header. rewrite Ei.
        assert (index_of (cm_index m) (n_hash n) = Some i) as -> by (apply (wf_hash _ (mo_index _ _ O)); eauto).
        rewrite (is_canonical_spec (cm_index m) i n (mo_index _ _ O) Hn). cbn [obind].
        rewrite bool_decide_eq_false_2 by (rewrite Forall_forall in Hsides; apply Hsides; by apply list_elem_of_In). cbn [negb].
        wp_step. apply wp_put. wp_step. set (m2 := set_last_branch_failure _ _).
        assert (manager_ok states m2) as O2 by by apply failure_ok.
        assert (zlookup (nodes m2) i = Some n) as Hn2 by (cbn; by rewrite Ei).
        assert (stats_room (valid_left m2) (cm_stats m2)) as R2.
        { cbn. rewrite S1, Ei. apply (lk_room _ _ _ _ _ _ _ K). }
        apply (wp_invalidate states m2 i n _ O2 Hn2); [by apply (apply_valid states m best plan chain O P i n b)|done|].
        intros m3 P3 O3 Hlt R3. apply IH. apply (loop_move states m0 m _ (S fuel)).
        -- destruct K as [K1 K2 K3 K4 K5 K6 K7 K8 K9]. constructor; try done. destruct K7 as [?|[?|?]]; [by left|right; left; by apply Hmore|by right; right].
        -- eapply pruned_trans; [|exact P3]. apply failure_pruned. by apply quiet_pruned.
        -- done.
        -- done.
        -- cbn in Hlt. rewrite Ei in Hlt. lia.
      * exact Ha.
Qed.

Lemma advance_spec states m : manager_ok states m -> cm_halted m = None -> stats_room (valid_left m) (cm_stats m) ->
  wp advance (finished states m) m.
Proof.
  intros O Hh R. unfold advance, not_halted. wp_step. wp_step. apply wp_get. rewrite Hh. apply wp_ret. wp_step. apply wp_get.
  apply advance_loop_spec. constructor; try done.
  - apply pruned_refl.
  - constructor.
  - intros i Hi. by apply not_elem_of_nil in Hi.
  - split; [done|constructor|]. intros h Hx. by apply not_elem_of_nil in Hx.
  - by left.
  - pose proof (invalid_count_bound (nodes m)). change (Zlen []) with 0. unfold Zlen in *. lia.
Qed.
End Inv.
