(* ===== verification/MemStore.v ===== *)
(** The in-memory store of the chain crate (src/lib/chain/src/mock.rs): one object that
    is both the [Store] and the [Sink] of a manager, with the mock clock and the mock
    proof-of-work verifier. It discharges [ChainIOLaws]: what the manager's theorems
    assume of the traits is what this implementation does. *)

From Stdlib Require Import ZArith Lia List String Sorted.
From stdpp Require Import base list gmap sets numbers sorting.
From S2P Require Import Prelude Constants Limbs Asert Work Rules Checkpoint Codec Crypto TxRules ChainTypes State Body BodyEquiv ChainWork Index ForkChoice CheckpointStore Reorg History Budget Ingest Mempool MempoolInv TxIngress Manager ManagerInv.
Open Scope Z_scope.

Record MemStore := MkMemStore {
  ms_canonical : list HeaderRec;
  ms_chainwork : list Work;
  ms_issued_at : list Z;
  ms_bodies : gmap Hash32 bytes;
  ms_side : gmap Hash32 HeaderRec;
  ms_accounts : gmap Address Account;
  ms_undo : gmap Z (list UndoRec);
  ms_snapshots : gmap Z (list (Address * Account));
  ms_invalid : gset Hash32;
  ms_anchor_record : option bytes;
  ms_fail_next_anchor : option SinkError;
  ms_issued : Z;
  ms_undo_window : Z;
  ms_replay_floor : Z;
  ms_snapshot_interval : Z;
  ms_fail_next_commit : option SinkError;
  ms_tip_regression : Z;
  ms_commits : Z;
  ms_side_headers_written : Z;
  ms_hide_side_headers : bool;
}.

(** *** Fields *)
Definition ms_set_chain (s : MemStore) (c : list HeaderRec) (w : list Work) (i : list Z) (issued : Z) : MemStore :=
  MkMemStore c w i (ms_bodies s) (ms_side s) (ms_accounts s) (ms_undo s) (ms_snapshots s) (ms_invalid s) (ms_anchor_record s)
    (ms_fail_next_anchor s) issued (ms_undo_window s) (ms_replay_floor s) (ms_snapshot_interval s) (ms_fail_next_commit s)
    (ms_tip_regression s) (ms_commits s) (ms_side_headers_written s) (ms_hide_side_headers s).
Definition ms_set_tables (s : MemStore) (bodies : gmap Hash32 bytes) (side : gmap Hash32 HeaderRec) (accounts : gmap Address Account)
    (undo : gmap Z (list UndoRec)) (snapshots : gmap Z (list (Address * Account))) : MemStore :=
  MkMemStore (ms_canonical s) (ms_chainwork s) (ms_issued_at s) bodies side accounts undo snapshots (ms_invalid s) (ms_anchor_record s)
    (ms_fail_next_anchor s) (ms_issued s) (ms_undo_window s) (ms_replay_floor s) (ms_snapshot_interval s) (ms_fail_next_commit s)
    (ms_tip_regression s) (ms_commits s) (ms_side_headers_written s) (ms_hide_side_headers s).
Definition ms_set_misc (s : MemStore) (invalid : gset Hash32) (anchor : option bytes) (fail_anchor fail_commit : option SinkError)
    (commits written : Z) : MemStore :=
  MkMemStore (ms_canonical s) (ms_chainwork s) (ms_issued_at s) (ms_bodies s) (ms_side s) (ms_accounts s) (ms_undo s) (ms_snapshots s)
    invalid anchor fail_anchor (ms_issued s) (ms_undo_window s) (ms_replay_floor s) (ms_snapshot_interval s) fail_commit
    (ms_tip_regression s) commits written (ms_hide_side_headers s).

Definition with_genesis (rec : HeaderRec) (body : bytes) (params : ChainParams) : outcome Reject MemStore :=
  let? t := expect (expand_bits (hr_bits rec) (pow_limit params)) in
  let? w := work_from_target (target_to_be t) in
  Ok (MkMemStore [rec] [w] [0] {[hr_hash rec := body]} ∅ ∅ ∅ ∅ ∅ None None 0 256 0 0 None 0 0 0 false).

(** *** The [Store] trait *)
Definition ms_find (s : MemStore) (h : Hash32) : option HeaderRec := List.find (fun r => bytes_eqb (hr_hash r) h) (ms_canonical s).
Definition ms_account (s : MemStore) (a : Address) : Account := default (MkAccount 0 0) (ms_accounts s !! a).
Definition ms_tip (s : MemStore) : TipRef :=
  let real := saturating_sub (Zlen (ms_canonical s)) 1 in
  let h := saturating_sub real (ms_tip_regression s) in
  match zlookup (ms_canonical s) h, zlookup (ms_chainwork s) h with
  | Some rec, Some w => MkTipRef h (hr_hash rec) (hr_time rec) w
  | _, _ => MkTipRef h [] 0 Work_ZERO
  end.
Definition key_le (p q : Z * list Z) : Prop := fst p < fst q \/ (fst p = fst q /\ bytes_leb (snd p) (snd q) = true).
#[export] Instance key_le_dec : RelDecision key_le.
Proof. intros p q. unfold key_le. apply _. Defined.
Definition side_le (a b : HeaderRec) : Prop := key_le (hr_height a, hr_hash a) (hr_height b, hr_hash b).
#[export] Instance side_le_dec : RelDecision side_le.
Proof. intros a b. unfold side_le. apply _. Defined.
Definition ms_side_headers_from (s : MemStore) (from max : Z) : list HeaderRec :=
  if ms_hide_side_headers s then [] else
  take (Z.to_nat max) (merge_sort side_le (filter (fun r => from <= hr_height r) (snd <$> map_to_list (ms_side s)))).
Definition ms_checkpoint (s : MemStore) (height : Z) : option Z :=
  foldr (fun h acc => if h <=? height then (match acc with Some x => Some (Z.max x h) | None => Some h end) else acc) None
    (fst <$> map_to_list (ms_snapshots s)).
Definition ms_undo_floor (s : MemStore) : Z :=
  match fst <$> map_to_list (ms_undo s) with
  | [] => 0
  | h :: hs => foldr Z.min h hs
  end.
Definition mem_store (s : MemStore) : Store :=
  MkStore (ms_tip s) (fun h => zlookup (ms_canonical s) h)
    (fun h => match ms_find s h with Some r => Some r | None => ms_side s !! h end)
    (fun h => hr_hash <$> zlookup (ms_canonical s) h)
    (fun h => match zlookup (ms_canonical s) h with Some r => ms_bodies s !! hr_hash r | None => None end)
    (fun h => ms_bodies s !! h) (ms_account s) (fun h => ms_undo s !! h) (ms_undo_floor s) (ms_replay_floor s) (ms_checkpoint s)
    (fun h => ms_snapshots s !! h) (ms_issued s) (fun h => bool_decide (h ∈ ms_invalid s)).
Definition ms_headers_range (s : MemStore) (from max : Z) : list bytes :=
  hr_raw <$> take (Z.to_nat max) (drop (Z.to_nat from) (ms_canonical s)).

(** *** The [Sink] trait *)
Definition apply_delta (accounts : gmap Address Account) (d : StateDelta) : gmap Address Account :=
  let acct := MkAccount (d_balance d) (d_nonce d) in
  if Account_is_absent acct then delete (d_addr d) accounts else <[d_addr d := acct]> accounts.
Definition apply_commit {E} (s : MemStore) (b : CommitBlock) : outcome E MemStore :=
  let accounts := foldl apply_delta (ms_accounts s) (cb_deltas b) in
  let undo := <[cb_height b := cb_undo b]> (ms_undo s) in
  let bodies := <[cb_hash b := cb_body b]> (ms_bodies s) in
  let side := delete (cb_hash b) (ms_side s) in
  let? rec := HeaderRec_from_raw (cb_header_raw b) in
  let? (canonical, chainwork, issued_at) :=
    (if cb_height b =? Zlen (ms_canonical s)
     then Ok (ms_canonical s ++ [rec], ms_chainwork s ++ [cb_chainwork b], ms_issued_at s ++ [cb_issued_delta b])
     else if (cb_height b <? Zlen (ms_canonical s)) && (cb_height b <? Zlen (ms_chainwork s)) && (cb_height b <? Zlen (ms_issued_at s))
     then Ok (zinsert (ms_canonical s) (cb_height b) rec, zinsert (ms_chainwork s) (cb_height b) (cb_chainwork b),
              zinsert (ms_issued_at s) (cb_height b) (cb_issued_delta b))
     else Panic) in
  let snapshots :=
    if (0 <? ms_snapshot_interval s) && (cb_height b mod ms_snapshot_interval s =? 0)
    then <[cb_height b := map_to_list accounts]> (ms_snapshots s) else ms_snapshots s in
  let tip := saturating_sub (Zlen canonical) 1 in
  let floor := saturating_sub tip (ms_undo_window s) in
  Ok (ms_set_tables (ms_set_chain s canonical chainwork issued_at (saturating_add 128 (ms_issued s) (cb_issued_delta b)))
        bodies side accounts (filter (fun e => floor < fst e) undo) snapshots).

Definition restore_rec (accounts : gmap Address Account) (r : UndoRec) : gmap Address Account :=
  let prev := MkAccount (u_prev_balance r) (u_prev_nonce r) in
  if negb (u_existed r) && Account_is_absent prev then delete (u_addr r) accounts else <[u_addr r := prev]> accounts.
Definition pop_chain (s : MemStore) (accounts : gmap Address Account) (undo : gmap Z (list UndoRec)) : MemStore :=
  let side := match list.last (ms_canonical s) with Some rec => <[hr_hash rec := rec]> (ms_side s) | None => ms_side s end in
  let issued := match list.last (ms_issued_at s) with Some i => saturating_sub (ms_issued s) i | None => ms_issued s end in
  ms_set_tables
    (ms_set_chain s (removelast (ms_canonical s)) (removelast (ms_chainwork s)) (removelast (ms_issued_at s)) issued)
    (ms_bodies s) side accounts undo (ms_snapshots s).
Definition rollback_one (s : MemStore) (height : Z) : outcome SinkError MemStore :=
  let? recs := ok_or (ms_undo s !! height) (SinkInvalid "undo records pruned for that height") in
  Ok (pop_chain s (foldl restore_rec (ms_accounts s) recs) (delete height (ms_undo s))).

Definition take_failure (s : MemStore) : option SinkError * MemStore :=
  (ms_fail_next_commit s, ms_set_misc s (ms_invalid s) (ms_anchor_record s) (ms_fail_next_anchor s) None (ms_commits s) (ms_side_headers_written s)).
Definition count_commit (s : MemStore) : MemStore :=
  ms_set_misc s (ms_invalid s) (ms_anchor_record s) (ms_fail_next_anchor s) (ms_fail_next_commit s) (ms_commits s + 1) (ms_side_headers_written s).
Fixpoint descending (hs : list Z) : bool :=
  match hs with
  | a :: (b :: _) as rest => (b <? a) && descending rest
  | _ => true
  end.

(** The loops stop at the first error and keep what was done. *)
Fixpoint rollback_all (s : MemStore) (hs : list Z) : MemStore * outcome SinkError unit :=
  match hs with
  | [] => (s, Ok tt)
  | h :: hs =>
    match rollback_one s h with
    | Ok s => rollback_all s hs
    | Err e => (s, Err e)
    | Panic => (s, Panic)
    end
  end.
Definition apply_all (s : MemStore) (bs : list CommitBlock) : outcome SinkError MemStore := ofold apply_commit s bs.
Fixpoint unwind (fuel : nat) (s : MemStore) (rewind_to : Z) : MemStore :=
  match fuel with
  | O => s
  | S fuel => if rewind_to + 1 <? Zlen (ms_canonical s) then unwind fuel (pop_chain s (ms_accounts s) (ms_undo s)) rewind_to else s
  end.

(** A panic of the store poisons its lock: it is dead from then on. *)
Definition finish_commit (s : MemStore) (r : outcome SinkError MemStore) : MemStore * option SinkError :=
  match r with
  | Ok s => (count_commit s, None)
  | Err e => (s, Some e)
  | Panic => (s, Some (SinkFatal "mock lock"))
  end.
Definition ms_commit_block (s : MemStore) (b : CommitBlock) : MemStore * option SinkError :=
  match take_failure s with
  | (Some e, s) => (s, Some e)
  | (None, s) => finish_commit s (apply_commit s b)
  end.
Definition ms_commit_reorg (s : MemStore) (p : ReorgCommit) : MemStore * option SinkError :=
  match take_failure s with
  | (Some e, s) => (s, Some e)
  | (None, s) =>
    if negb (descending (rc_rollback p)) then finish_commit s Panic else
    match rollback_all s (rc_rollback p) with
    | (s, Ok _) => finish_commit s (apply_all s (rc_apply p))
    | (s, Err e) => (s, Some e)
    | (s, Panic) => finish_commit s Panic
    end
  end.
Definition ms_commit_deep_reorg (s : MemStore) (p : DeepReorgCommit) : MemStore * option SinkError :=
  match take_failure s with
  | (Some e, s) => (s, Some e)
  | (None, s) =>
    match ms_snapshots s !! drc_rewind_to p with
    | None => (s, Some (SinkInvalid "no state snapshot at rewind_to"))
    | Some rows =>
      let s := ms_set_tables s (ms_bodies s) (ms_side s) (list_to_map (rev rows)) (ms_undo s) (ms_snapshots s) in
      let s := unwind (length (ms_canonical s)) s (drc_rewind_to p) in
      let s := ms_set_tables s (ms_bodies s) (ms_side s) (ms_accounts s) (filter (fun e => fst e <= drc_rewind_to p) (ms_undo s)) (ms_snapshots s) in
      finish_commit s (apply_all s (drc_apply p))
    end
  end.
Definition ms_store_side_header (s : MemStore) (h : SideHeaderRec) : MemStore :=
  let s := ms_set_tables s (ms_bodies s) (<[hr_hash (sh_rec h) := sh_rec h]> (ms_side s)) (ms_accounts s) (ms_undo s) (ms_snapshots s) in
  ms_set_misc s (ms_invalid s) (ms_anchor_record s) (ms_fail_next_anchor s) (ms_fail_next_commit s) (ms_commits s) (ms_side_headers_written s + 1).
Definition ms_mark_invalid (s : MemStore) (h : Hash32) : MemStore :=
  ms_set_misc s ({[h]} ∪ ms_invalid s) (ms_anchor_record s) (ms_fail_next_anchor s) (ms_fail_next_commit s) (ms_commits s) (ms_side_headers_written s).
Definition ms_put_anchor (s : MemStore) (cp : SignedCheckpoint) : MemStore * option SinkError :=
  match ms_fail_next_anchor s with
  | Some e => (ms_set_misc s (ms_invalid s) (ms_anchor_record s) None (ms_fail_next_commit s) (ms_commits s) (ms_side_headers_written s), Some e)
  | None => (ms_set_misc s (ms_invalid s) (Some (record_encode cp)) None (ms_fail_next_commit s) (ms_commits s) (ms_side_headers_written s), None)
  end.

(** *** The verifier and the clock *)
Inductive PowMode := AlwaysOk | AlwaysFail | AllButListed (reject : gset Hash32).
Definition mock_verify (mode : PowMode) (hdr : bytes) : bool :=
  match mode with
  | AlwaysOk => true
  | AlwaysFail => false
  | AllButListed reject => bool_decide (header_hash hdr ∉ reject)
  end.
Record MockClock := MkMockClock { mc_unix : Z; mc_mono : Z }.
Record MemWorld := MkMemWorld { mw_store : MemStore; mw_clock : MockClock }.
Definition on_store (w : MemWorld) (s : MemStore) : MemWorld := MkMemWorld s (mw_clock w).

Section Mock.
Context (mode : PowMode) (cost : Z).
Definition mem_io : ChainIO MemWorld := {|
  io_store w := mem_store (mw_store w);
  io_headers_range w := ms_headers_range (mw_store w);
  io_side_headers_from w := ms_side_headers_from (mw_store w);
  io_capacity w := umax 64;
  io_commit_block w b := let '(s, r) := ms_commit_block (mw_store w) b in (on_store w s, r);
  io_commit_reorg w p := let '(s, r) := ms_commit_reorg (mw_store w) p in (on_store w s, r);
  io_commit_deep_reorg w p := let '(s, r) := ms_commit_deep_reorg (mw_store w) p in (on_store w s, r);
  io_store_side_header w h := on_store w (ms_store_side_header (mw_store w) h);
  io_mark_invalid w h := on_store w (ms_mark_invalid (mw_store w) h);
  io_put_anchor w cp := let '(s, r) := ms_put_anchor (mw_store w) cp in (on_store w s, r);
  io_now_unix w := (w, mc_unix (mw_clock w));
  io_mono_ms w := (w, mc_mono (mw_clock w));
  io_pow_verify := mock_verify mode;
  io_cost_micros := cost;
|}.
End Mock.

(** ** The store keeps its promises

    Without the failures a test can inject: no snapshots, no hidden tip. *)
Section Keeps.
Context `{V : Verifier}.
Record mem_ok (s : MemStore) : Prop := {
  mk_nonempty : ms_canonical s <> [];
  mk_works : Zlen (ms_chainwork s) = Zlen (ms_canonical s);
  mk_issued : Zlen (ms_issued_at s) = Zlen (ms_canonical s);
  mk_recs : Forall rec_sound (ms_canonical s);
  mk_distinct : NoDup (hr_hash <$> ms_canonical s);
  mk_side : forall h r, ms_side s !! h = Some r -> rec_sound r /\ hr_hash r = h;
  mk_bodies : forall h b, ms_bodies s !! h = Some b -> bytes_ok b;
  mk_undo : forall h u, ms_undo s !! h = Some u -> h < Zlen (ms_canonical s);
  mk_snapshots : ms_snapshots s = ∅;
  mk_interval : ms_snapshot_interval s = 0;
  mk_regression : ms_tip_regression s = 0;
}.
Definition by_hash (s : MemStore) (h : Hash32) : option HeaderRec := st_header_by_hash (mem_store s) h.

Lemma absent_default a : Account_is_absent a = true -> a = MkAccount 0 0.
Proof. unfold Account_is_absent. intros H. to_prop. destruct a; cbn in *. congruence. Qed.
Lemma delta_view m d x : default (MkAccount 0 0) (apply_delta m d !! x) =
  upd (fun x => default (MkAccount 0 0) (m !! x)) (d_addr d) (MkAccount (d_balance d) (d_nonce d)) x.
Proof.
  unfold apply_delta, upd. destruct (Account_is_absent _) eqn:E; case_decide as Hx; subst.
  - by rewrite lookup_delete_eq, (absent_default _ E).
  - by rewrite lookup_delete_ne.
  - by rewrite lookup_insert_eq.
  - by rewrite lookup_insert_ne.
Qed.
Lemma deltas_view ds : forall m x, default (MkAccount 0 0) (foldl apply_delta m ds !! x) =
  apply_deltas (fun x => default (MkAccount 0 0) (m !! x)) ds x.
Proof.
  induction ds as [|d ds IH]; intros m x; [done|]. cbn [foldl]. rewrite IH, apply_deltas_cons. apply apply_deltas_ext, delta_view.
Qed.
Lemma undo_view recs f g : forall m, undo_of recs f g -> (forall x, default (MkAccount 0 0) (m !! x) = g x) ->
  forall x, default (MkAccount 0 0) (foldl restore_rec m recs !! x) = f x.
Proof.
  intros m [Hn Hr Hrest] Hm x.
  assert (forall m, (forall x, x ∉ u_addr <$> recs -> default (MkAccount 0 0) (m !! x) = f x) ->
    default (MkAccount 0 0) (foldl restore_rec m recs !! x) = f x) as Hg.
  { clear m Hm Hrest g. induction recs as [|r recs IH]; intros m Hm; [by apply Hm, not_elem_of_nil|]. cbn [foldl].
    inversion_clear Hn as [|? ? Hn1 Hn2]. inversion_clear Hr as [|? ? Hr1 Hr2]. apply IH; [done|done|]. intros y Hy.
    assert (restore_rec m r !! u_addr r = None /\ f (u_addr r) = MkAccount 0 0 \/ restore_rec m r !! u_addr r = Some (f (u_addr r))) as Hself.
    { rewrite <-Hr1. unfold restore_rec, undo_account. destruct (negb (u_existed r)) eqn:Ex, (Account_is_absent _) eqn:E; cbn [andb].
      - left. by rewrite lookup_delete_eq, (absent_default _ E).
      - right. by rewrite lookup_insert_eq.
      - right. by rewrite lookup_insert_eq.
      - right. by rewrite lookup_insert_eq. }
    destruct (decide (y = u_addr r)) as [->|Hne]; [by destruct Hself as [[-> ->]| ->]|].
    rewrite <-(Hm y) by (cbn; by apply not_elem_of_cons). unfold restore_rec.
    destruct (_ && _); [by rewrite lookup_delete_ne|by rewrite lookup_insert_ne]. }
  apply Hg. intros y Hy. rewrite Hm. symmetry. apply Hrest. by rewrite <-list_elem_of_In.
Qed.

(** *** Commits in sequence *)
Lemma law_after_rollback st st1 st2 t base f1 f bs : 0 <= base <= t -> commit_law st st1 t f1 [] -> commit_law st1 st2 base f bs ->
  commit_law st st2 base f bs.
Proof.
  intros Hb [[_ _ O1 _ B1 U1] H1] [[T2 A2 O2 N2 B2 U2] H2]. split; [split; try done|].
  - intros h Hh. by rewrite O2, O1 by lia.
  - intros h raw Hx. apply B2 in Hx as [[Hle Hx]|Hx]; [|by right]. apply B1 in Hx as [[_ Hx]|(b & Hb' & _)]; [by left|by apply not_elem_of_nil in Hb'].
  - intros h u Hx. apply U2 in Hx as [[Hle Hx]|Hx]; [|by right]. apply U1 in Hx as [[_ Hx]|(b & Hb' & _)]; [by left|by apply not_elem_of_nil in Hb'].
  - intros h r Hx. apply H2 in Hx as [Hx|Hx]; [|by right]. apply H1 in Hx as [Hx|(b & Hb' & _)]; [by left|by apply not_elem_of_nil in Hb'].
Qed.
Lemma law_cons st st1 st2 base f b bs : 0 <= base -> cb_height b = base + 1 -> commit_law st st1 base f [b] ->
  commit_law st1 st2 (base + 1) (st_account st1) bs -> commit_law st st2 base f (b :: bs).
Proof.
  intros Hb Hh [[_ A1 O1 N1 B1 U1] H1] [[T2 A2 O2 N2 B2 U2] H2].
  assert (forall (P : CommitBlock -> Prop), (exists c, c ∈ [b] /\ P c) -> exists c, c ∈ b :: bs /\ P c) as Hone.
  { intros P (c & Hc & Hp). apply list_elem_of_singleton in Hc as ->. exists b. split; [apply list_elem_of_here|done]. }
  assert (forall (P : CommitBlock -> Prop), (exists c, c ∈ bs /\ P c) -> exists c, c ∈ b :: bs /\ P c) as Hmore.
  { intros P (c & Hc & Hp). exists c. split; [by apply list_elem_of_further|done]. }
  split; [split|].
  - rewrite T2, Zlen_cons. lia.
  - intros x. rewrite A2, after_blocks_cons. apply after_blocks_ext. intros y. apply A1.
  - intros h Hr. by rewrite O2, O1 by lia.
  - intros c Hc. apply elem_of_cons in Hc as [->|Hc]; [|by apply N2]. rewrite O2 by lia. apply N1, list_elem_of_here.
  - intros h raw Hx. apply B2 in Hx as [[_ Hx]|Hx]; [|right; by apply Hmore]. apply B1 in Hx as [Hx|Hx]; [by left|right; by apply Hone].
  - intros h u Hx. apply U2 in Hx as [[_ Hx]|Hx]; [|right; by apply Hmore]. apply U1 in Hx as [Hx|Hx]; [by left|right; by apply Hone].
  - intros h r Hx. apply H2 in Hx as [Hx|Hx]; [|right; by apply Hmore]. apply H1 in Hx as [Hx|Hx]; [by left|right; by apply Hone].
Qed.

Section Law.
Context (s : MemStore) (K : mem_ok s).

Lemma mem_len : 0 < Zlen (ms_canonical s).
Proof. pose proof (mk_nonempty _ K). destruct (ms_canonical s); [done|]. rewrite Zlen_cons. pose proof (Zlen_nonneg l). lia. Qed.
Lemma mem_tip : tip_height (ms_tip s) = Zlen (ms_canonical s) - 1.
Proof.
  pose proof mem_len. unfold ms_tip, saturating_sub. rewrite (mk_regression _ K). set (h := Z.max 0 _).
  assert (h = Zlen (ms_canonical s) - 1) as -> by (unfold h; lia).
  destruct (zlookup_is_Some (ms_canonical s) (Zlen (ms_canonical s) - 1)) as [r ->]; [lia|].
  destruct (zlookup_is_Some (ms_chainwork s) (Zlen (ms_canonical s) - 1)) as [w ->]; [rewrite (mk_works _ K); lia|done].
Qed.
Lemma find_elem l h r : List.find (fun r => bytes_eqb (hr_hash r) h) l = Some r -> r ∈ l /\ hr_hash r = h.
Proof. intros H. apply find_some in H as [H1 H2]. apply bool_decide_eq_true in H2. by rewrite list_elem_of_In. Qed.
Lemma find_unique l r : NoDup (hr_hash <$> l) -> r ∈ l -> List.find (fun x => bytes_eqb (hr_hash x) (hr_hash r)) l = Some r.
Proof.
  induction l as [|x l IH]; intros Hn Hr; [by apply not_elem_of_nil in Hr|]. cbn in Hn. apply list.NoDup_cons in Hn as [Hx Hn]. cbn [List.find].
  apply elem_of_cons in Hr as [->|Hr]; [unfold bytes_eqb; by rewrite bool_decide_eq_true_2|]. destruct (bytes_eqb (hr_hash x) (hr_hash r)) eqn:E; [|by apply IH].
  apply bool_decide_eq_true in E. exfalso. apply Hx. rewrite E. by apply list_elem_of_fmap_2.
Qed.
Lemma find_absent l h : h ∉ hr_hash <$> l -> List.find (fun r => bytes_eqb (hr_hash r) h) l = None.
Proof.
  intros Hn. destruct (List.find _ l) as [r|] eqn:E; [|done]. apply find_elem in E as [Hr <-]. exfalso. apply Hn. by apply list_elem_of_fmap_2.
Qed.
Lemma mem_store_ok : store_ok (mem_store s).
Proof.
  split; cbn; [| |apply (mk_bodies _ K)].
  - intros h r Hr. unfold ms_find in Hr. destruct (List.find _ _) as [r'|] eqn:E.
    + injection Hr as ->. apply find_elem in E as [Hin <-]. split; [|done]. exact (proj1 (Forall_forall _ _) (mk_recs _ K) r Hin).
    + by apply (mk_side _ K).
  - intros h raw Hb. destruct (zlookup _ h) as [r|]; [|done]. by apply (mk_bodies _ K) in Hb.
Qed.
Lemma law_nil f : (forall x, ms_account s x = f x) -> commit_law (mem_store s) (mem_store s) (Zlen (ms_canonical s) - 1) f [].
Proof.
  intros Hf. split; [split; cbn|by left]; try done.
  - change (Zlen []) with 0. rewrite mem_tip. lia.
  - intros b Hb. by apply not_elem_of_nil in Hb.
  - intros h raw Hb. left. split; [|done]. destruct (zlookup _ h) eqn:E; [|done]. apply zlookup_lt in E. lia.
  - intros h u Hu. left. split; [|done]. apply (mk_undo _ K) in Hu. lia.
Qed.

End Law.

(** *** Pushing a block *)
Section Push.
Context (s : MemStore) (K : mem_ok s) (b : CommitBlock) (Hfine : block_fine b) (Hh : cb_height b = Zlen (ms_canonical s)) (Hnew : cb_hash b ∉ hr_hash <$> ms_canonical s).

Lemma push_shape : exists rec s', rec_sound rec /\ hr_hash rec = cb_hash b /\ hr_raw rec = cb_header_raw b /\
  apply_commit (E := SinkError) s b = Ok s' /\ ms_canonical s' = ms_canonical s ++ [rec] /\
  Zlen (ms_chainwork s') = Zlen (ms_chainwork s) + 1 /\ Zlen (ms_issued_at s') = Zlen (ms_issued_at s) + 1 /\
  ms_accounts s' = foldl apply_delta (ms_accounts s) (cb_deltas b) /\ ms_bodies s' = <[cb_hash b := cb_body b]> (ms_bodies s) /\
  ms_side s' = delete (cb_hash b) (ms_side s) /\ (forall h u, ms_undo s' !! h = Some u -> <[cb_height b := cb_undo b]> (ms_undo s) !! h = Some u) /\
  ms_snapshots s' = ms_snapshots s /\ ms_snapshot_interval s' = ms_snapshot_interval s /\ ms_tip_regression s' = ms_tip_regression s.
Proof.
  destruct (bf_header _ Hfine) as [hdr Hd]. unfold apply_commit. set (rec := MkHeaderRec (h_height hdr) (header_hash (cb_header_raw b)) (h_prev_hash hdr) (h_time hdr) (h_bits hdr) (cb_header_raw b)).
  assert (forall E, HeaderRec_from_raw (E := E) (cb_header_raw b) = Ok rec) as Hrec by (intros E; unfold HeaderRec_from_raw; by rewrite Hd).
  rewrite Hrec. cbn [obind]. rewrite Hh, Z.eqb_refl. cbn [obind]. exists rec. eexists. split; [split; [apply Hfine|split; [apply Hfine|split; [apply Hrec|intros _; apply Hfine]]]|].
  split; [apply Hfine|]. split; [done|]. split; [reflexivity|]. cbn.
  rewrite (mk_interval _ K). cbn. rewrite !Zlen_app. split_and!; try done. intros h u Hu. by apply map_lookup_filter_Some in Hu as [? _].
Qed.

Lemma push_law : exists s', apply_commit (E := SinkError) s b = Ok s' /\ mem_ok s' /\
  Zlen (ms_canonical s') = Zlen (ms_canonical s) + 1 /\ hr_hash <$> ms_canonical s' = (hr_hash <$> ms_canonical s) ++ [cb_hash b] /\
  commit_law (mem_store s) (mem_store s') (Zlen (ms_canonical s) - 1) (ms_account s) [b].
Proof.
  destruct push_shape as (rec & s' & Hsound & Hrh & Hrr & Hs & Hc & Hw & Hi & Ha & Hb & Hsd & Hu & Hsn & Hint & Hreg). exists s'. split; [done|].
  pose proof (mem_len s K) as Hl. assert (Zlen (ms_canonical s') = Zlen (ms_canonical s) + 1) as Hlen by (rewrite Hc, Zlen_app; done).
  assert (hr_hash <$> ms_canonical s' = (hr_hash <$> ms_canonical s) ++ [cb_hash b]) as Hhs by (rewrite Hc, fmap_app; cbn; by rewrite Hrh).
  assert (mem_ok s') as K'.
  { constructor; try congruence.
    - rewrite Hc. by destruct (ms_canonical s).
    - rewrite Hw, Hlen, (mk_works _ K). done.
    - rewrite Hi, Hlen, (mk_issued _ K). done.
    - rewrite Hc. apply Forall_app. split; [apply (mk_recs _ K)|]. by constructor.
    - rewrite Hhs. apply list.NoDup_app. split; [apply (mk_distinct _ K)|]. split; [|apply NoDup_singleton]. intros x Hx Hx1.
      apply list_elem_of_singleton in Hx1 as ->. done.
    - intros h r. rewrite Hsd. intros Hr. apply lookup_delete_Some in Hr as [_ Hr]. by apply (mk_side _ K).
    - intros h x. rewrite Hb. intros Hx. apply lookup_insert_Some in Hx as [[_ <-]|[_ Hx]]; [apply Hfine|by apply (mk_bodies _ K) in Hx].
    - intros h u Hx. apply Hu, lookup_insert_Some in Hx as [[<- _]|[_ Hx]]; [lia|]. apply (mk_undo _ K) in Hx. lia.
    - rewrite Hsn. apply K.
    - rewrite Hint. apply K.
    - rewrite Hreg. apply K. }
  split; [done|]. split; [done|]. split; [done|]. split; [split|]; cbn.
  - rewrite (mem_tip _ K'). change (Zlen [b]) with 1. lia.
  - intros x. unfold ms_account. rewrite Ha. apply deltas_view.
  - intros h Hr. rewrite Hc. apply zlookup_app_l. lia.
  - intros c Hcb. apply list_elem_of_singleton in Hcb as ->. exists rec. rewrite Hc, Hh, zlookup_snoc. done.
  - intros h raw Hx. rewrite Hc, Hb in Hx. destruct (Z.lt_trichotomy h (Zlen (ms_canonical s))) as [Hlt|[->|Hgt]].
    + left. split; [lia|]. rewrite zlookup_app_l in Hx by done. destruct (zlookup (ms_canonical s) h) as [r|] eqn:E; [|done].
      rewrite lookup_insert_ne in Hx; [done|]. intros Heq. apply Hnew. rewrite Heq. apply list_elem_of_fmap_2, zlookup_elem. eauto.
    + right. exists b. rewrite zlookup_snoc, Hrh, lookup_insert_eq in Hx. injection Hx as <-. split_and!; [apply list_elem_of_here|done..].
    + rewrite zlookup_ge in Hx by (rewrite Zlen_app; change (Zlen [rec]) with 1; lia). done.
  - intros h u Hx. apply Hu, lookup_insert_Some in Hx as [[<- <-]|[_ Hx]].
    + right. exists b. split_and!; [apply list_elem_of_here|done..].
    + left. split; [|done]. apply (mk_undo _ K) in Hx. lia.
  - intros h r. unfold ms_find. rewrite Hc, Hsd. destruct (List.find _ (_ ++ _)) as [x|] eqn:E.
    + intros [= ->]. apply find_elem in E as [Hx <-]. apply elem_of_app in Hx as [Hx|Hx].
      * left. by rewrite (find_unique _ _ (mk_distinct _ K) Hx).
      * right. apply list_elem_of_singleton in Hx as ->. exists b. split_and!; [apply list_elem_of_here|done..].
    + intros Hr. apply lookup_delete_Some in Hr as [_ Hr]. left. rewrite find_absent; [done|]. intros Hin.
      apply list_elem_of_fmap in Hin as (x & -> & Hx). rewrite find_unique in E; [done| |apply elem_of_app; by left].
      rewrite <-Hc. apply (mk_distinct _ K').
Qed.
End Push.

Lemma apply_all_law bs : forall s, mem_ok s -> Forall block_fine bs -> heights_from (Zlen (ms_canonical s) - 1) bs ->
  List.NoDup (cb_hash <$> bs) -> (forall b, b ∈ bs -> cb_hash b ∉ hr_hash <$> ms_canonical s) ->
  exists s', apply_all s bs = Ok s' /\ mem_ok s' /\ commit_law (mem_store s) (mem_store s') (Zlen (ms_canonical s) - 1) (ms_account s) bs.
Proof.
  induction bs as [|b bs IH]; intros s K Hf Hh Hn Hnew; [exists s; split; [done|]; split; [done|by apply law_nil]|].
  inversion_clear Hf as [|? ? Hf1 Hf2]. inversion_clear Hn as [|? ? Hn1 Hn2].
  pose proof (Hh 0%nat b eq_refl) as Hb. destruct (push_law s K b Hf1 ltac:(lia) (Hnew b (list_elem_of_here _ _))) as (s1 & E1 & K1 & L1 & H1 & C1).
  destruct (IH s1 K1 Hf2) as (s2 & E2 & K2 & C2).
  - rewrite L1. intros k c Hk. specialize (Hh (S k) c Hk). lia.
  - done.
  - intros c Hc. rewrite H1. intros Hin. apply elem_of_app in Hin as [Hin|Hin]; [by apply (Hnew c); [apply list_elem_of_further|]|].
    apply list_elem_of_singleton in Hin. apply Hn1. rewrite <-Hin. apply list_elem_of_In. by apply list_elem_of_fmap_2.
  - exists s2. split; [unfold apply_all; cbn [ofold]; rewrite E1; exact E2|]. split; [done|].
    pose proof (mem_len s K). apply (law_cons _ (mem_store s1)); [lia|lia|done|]. rewrite L1 in C2. by replace (Zlen (ms_canonical s) - 1 + 1) with (Zlen (ms_canonical s) + 1 - 1) by lia.
Qed.

(** *** Taking blocks back *)
Lemma list_snoc {A} (l : list A) : l <> [] -> exists l' x, l = l' ++ [x].
Proof. intros H. destruct l as [|a l] using rev_ind; [done|eauto]. Qed.
Lemma zremovelast {A} (l : list A) n : 0 < n -> Zlen l = n -> Zlen (removelast l) = n - 1.
Proof.
  intros Hn Hl. destruct (list_snoc l) as (l' & x & ->); [intros ->; change (Zlen []) with 0 in Hl; lia|].
  rewrite removelast_last. rewrite Zlen_app in Hl. change (Zlen [x]) with 1 in Hl. lia.
Qed.

Lemma pop_law s f g : mem_ok s -> 1 < Zlen (ms_canonical s) ->
  (forall x, ms_account s x = g x) -> forall u, ms_undo s !! (Zlen (ms_canonical s) - 1) = Some u -> undo_of u f g ->
  exists s', rollback_one s (Zlen (ms_canonical s) - 1) = Ok s' /\ mem_ok s' /\ Zlen (ms_canonical s') = Zlen (ms_canonical s) - 1 /\
    ms_canonical s' = removelast (ms_canonical s) /\ ms_undo s' = delete (Zlen (ms_canonical s) - 1) (ms_undo s) /\
    commit_law (mem_store s) (mem_store s') (Zlen (ms_canonical s) - 2) f [].
Proof.
  intros K Hlen Hacc u Hu Huo. unfold rollback_one. rewrite Hu. cbn [ok_or obind].
  match goal with |- exists s', Ok ?x = _ /\ _ => set (s' := x) end. exists s'. split; [done|].
  destruct (list_snoc _ (mk_nonempty _ K)) as (l & r & Hl). pose proof (mk_distinct _ K) as Hd. rewrite Hl, fmap_app in Hd. cbn in Hd.
  apply list.NoDup_app in Hd as (Hd1 & Hd2 & _).
  assert (ms_canonical s' = l) as Hc by (cbn; by rewrite Hl, removelast_last).
  assert (Zlen (ms_canonical s) = Zlen l + 1) as Hll by (rewrite Hl, Zlen_app; done).
  assert (ms_side s' = <[hr_hash r := r]> (ms_side s)) as Hsd by (cbn; by rewrite Hl, last_snoc).
  assert (rec_sound r /\ Forall rec_sound l) as [Hr Hfl].
  { pose proof (mk_recs _ K) as Hf. rewrite Hl in Hf. apply Forall_app in Hf as [H1 H2]. split; [by inversion H2|done]. }
  assert (mem_ok s') as K'.
  { constructor; rewrite ?Hc, ?Hsd; try (cbn; apply K); try done.
    - intros ->. change (Zlen []) with 0 in Hll. lia.
    - cbn. rewrite (zremovelast _ (Zlen l + 1)); [lia|lia|rewrite (mk_works _ K); lia].
    - cbn. rewrite (zremovelast _ (Zlen l + 1)); [lia|lia|rewrite (mk_issued _ K); lia].
    - intros h x Hx. apply lookup_insert_Some in Hx as [[<- <-]|[_ Hx]]; [done|by apply (mk_side _ K)].
    - intros h x Hx. cbn in Hx. apply lookup_delete_Some in Hx as [Hne Hx]. apply (mk_undo _ K) in Hx. lia. }
  split; [done|]. split; [rewrite Hc; lia|]. split; [done|]. split; [done|]. split; [split|]; cbn -[removelast s'].
  - rewrite (mem_tip _ K'), Hc. change (Zlen []) with 0. lia.
  - by apply (undo_view u f g).
  - intros h Hh. rewrite Hc, Hl. symmetry. apply zlookup_app_l. lia.
  - intros b Hb. by apply not_elem_of_nil in Hb.
  - intros h raw Hx. left. rewrite Hc in Hx. destruct (zlookup l h) as [x|] eqn:E; [|done]. pose proof (zlookup_lt _ _ _ E).
    split; [lia|]. rewrite Hl, zlookup_app_l, E by lia. exact Hx.
  - intros h x Hx. left. cbn in Hx. apply lookup_delete_Some in Hx as [Hne Hx]. split; [|done]. apply (mk_undo _ K) in Hx. lia.
  - intros h x. unfold ms_find. rewrite Hc, Hsd, Hl. intros Hx. left. destruct (List.find _ l) as [y|] eqn:E.
    + injection Hx as ->. apply find_elem in E as [Hx <-]. rewrite find_unique; [done|rewrite <-Hl; apply K|apply elem_of_app; by left].
    + apply lookup_insert_Some in Hx as [[<- <-]|[Hne Hx]].
      * rewrite find_unique; [done|rewrite <-Hl; apply K|apply elem_of_app; right; apply list_elem_of_here].
      * rewrite find_absent; [done|]. intros Hin. rewrite fmap_app in Hin. apply elem_of_app in Hin as [Hin|Hin].
        -- apply list_elem_of_fmap in Hin as (y & -> & Hy). by rewrite find_unique in E.
        -- by apply list_elem_of_singleton in Hin.
Qed.

Lemma rollback_law (states : Z -> Address -> Account) base : 0 <= base -> forall n s, mem_ok s -> n = Z.to_nat (Zlen (ms_canonical s) - 1 - base) ->
  base <= Zlen (ms_canonical s) - 1 -> (forall x, ms_account s x = states (Zlen (ms_canonical s) - 1) x) ->
  (forall h, base < h <= Zlen (ms_canonical s) - 1 -> exists u, ms_undo s !! h = Some u /\ undo_of u (states (h - 1)) (states h)) ->
  exists s', rollback_all s (rev (above_fork base (Zlen (ms_canonical s) - 1))) = (s', Ok tt) /\ mem_ok s' /\
    ms_canonical s' = take (Z.to_nat (base + 1)) (ms_canonical s) /\ Zlen (ms_canonical s') = base + 1 /\
    commit_law (mem_store s) (mem_store s') base (states base) [].
Proof.
  intros Hb0. induction n as [|n IH]; intros s K Hn Hb Hacc Hund; pose proof (mem_len s K) as Hl.
  - assert (Zlen (ms_canonical s) - 1 = base) as Hbase by lia. exists s. unfold above_fork. rewrite zrange_nil by lia. cbn.
    split; [done|]. split; [done|]. split; [rewrite take_ge; [done|unfold Zlen in *; lia]|]. split; [lia|]. rewrite <-Hbase. by apply law_nil.
  - destruct (Hund (Zlen (ms_canonical s) - 1) ltac:(lia)) as (u & Hu & Huo).
    destruct (pop_law s _ _ K ltac:(lia) Hacc u Hu Huo) as (s1 & E1 & K1 & L1 & C1 & U1 & W1).
    destruct (IH s1 K1) as (s2 & E2 & K2 & C2 & L2 & W2).
    + lia.
    + lia.
    + rewrite L1. exact (ct_accounts _ _ _ _ _ (cl_committed _ _ _ _ _ W1)).
    + rewrite L1. intros h Hh. destruct (Hund h ltac:(lia)) as (v & Hv & Hvo). exists v. rewrite U1, lookup_delete_ne by lia. done.
    + exists s2. rewrite L1 in E2. split.
      * unfold above_fork. replace (Zlen (ms_canonical s) - 1 + 1) with (Zlen (ms_canonical s) - 1 + 1) by lia.
        rewrite (zrange_snoc (base + 1) (Zlen (ms_canonical s) - 1)), rev_app_distr by lia. cbn [rev app rollback_all]. rewrite E1.
        unfold above_fork in E2. by replace (Zlen (ms_canonical s) - 1 - 1 + 1) with (Zlen (ms_canonical s) - 1) in E2 by lia.
      * split; [done|]. split; [|split; [done|]].
        -- rewrite C2, C1. destruct (list_snoc _ (mk_nonempty _ K)) as (l & r & Hx). rewrite Hx in *. rewrite removelast_last.
           rewrite take_app_le; [done|]. rewrite Zlen_app in Hn. unfold Zlen in *. cbn in *. lia.
        -- eapply law_after_rollback; [|exact W1|exact W2]. lia.
Qed.

End Keeps.

(** *** The laws *)
Lemma descending_range a b : descending (rev (zrange a b)) = true.
Proof.
  destruct (Z.le_gt_cases b a) as [Hle|Hgt]; [by rewrite zrange_nil by lia|].
  assert (forall n b, n = Z.to_nat (b - a) -> a < b -> exists t, rev (zrange a b) = (b - 1) :: t /\ descending ((b - 1) :: t) = true) as Hg.
  { clear. induction n as [|n IH]; intros b Hn Hab; [lia|]. assert (zrange a b = zrange a (b - 1) ++ [b - 1]) as -> by (rewrite <-zrange_snoc by lia; f_equal; lia). rewrite rev_app_distr by lia. cbn [rev app].
    destruct (Z.eq_dec a (b - 1)) as [->|Hne]; [rewrite zrange_nil by lia; by exists []|].
    destruct (IH (b - 1)) as (t & -> & Ht); [lia|lia|]. exists ((b - 1 - 1) :: t). split; [done|]. cbn [descending] in *. rewrite Ht.
    destruct (Z.ltb_spec (b - 1 - 1) (b - 1)); [done|lia]. }
  destruct (Hg _ b eq_refl ltac:(lia)) as (t & -> & Ht). exact Ht.
Qed.

Section MockLaws.
Context `{ED : Ed25519} (mode : PowMode) (cost : Z) (params : ChainParams).
#[local] Instance mode_verifier : Verifier := mock_verify mode.
Definition mem_inv (w : MemWorld) : Prop := mem_ok (mw_store w).
Abbreviation mem_world_io := (mem_io mode cost).

Lemma take_ok s : mem_ok s -> mem_ok (snd (take_failure s)).
Proof. intros []. by constructor. Qed.
Lemma count_ok s : mem_ok s -> mem_ok (count_commit s).
Proof. intros []. by constructor. Qed.
Lemma refused_law states w s e base bs : mem_ok s -> mem_store s = mem_store (mw_store w) ->
  commits_to (IO := mem_world_io) mem_inv states w (on_store w s, Some e) base bs.
Proof. intros K E. split; [exact K|]. by destruct e. Qed.
Lemma taken s e s1 : take_failure s = (e, s1) -> mem_ok s -> mem_ok s1 /\ mem_store s1 = mem_store s /\ ms_canonical s1 = ms_canonical s.
Proof. intros E K. pose proof (take_ok _ K) as K1. injection E as _ <-. by split. Qed.

Lemma fresh_hashes states w base tip bs s : request (IO := mem_world_io) params states w base tip bs ->
  ms_canonical s = take (Z.to_nat (base + 1)) (ms_canonical (mw_store w)) -> forall b, b ∈ bs -> cb_hash b ∉ hr_hash <$> ms_canonical s.
Proof.
  intros R Hc b Hb Hin. rewrite Hc in Hin. apply list_elem_of_fmap in Hin as (r & Hr & Hin). apply list_elem_of_lookup in Hin as [k Hk].
  apply lookup_take_Some in Hk as [Hk Hlt]. pose proof (rq_base _ _ _ _ _ _ R). apply (rq_fresh _ _ _ _ _ _ R b (Z.of_nat k) r Hb); [lia| |done].
  cbn. unfold zlookup. destruct (Z.leb_spec 0 (Z.of_nat k)); [|lia]. by rewrite Nat2Z.id.
Qed.
Lemma mem_height states w base tip bs : mem_inv w -> request (IO := mem_world_io) params states w base tip bs -> Zlen (ms_canonical (mw_store w)) - 1 = tip.
Proof. intros K R. pose proof (rq_tip _ _ _ _ _ _ R) as Ht. cbn in Ht. by rewrite (mem_tip _ K) in Ht. Qed.
Lemma law_states st st' base f g bs : (forall x, f x = g x) -> commit_law st st' base f bs -> commit_law st st' base g bs.
Proof. intros Hx [[C1 C2 C3 C4 C5 C6] C7]. split; [split; try done|done]. intros x. rewrite C2. by apply after_blocks_ext. Qed.

Lemma mem_block_law states w b tip : mem_inv w -> request (IO := mem_world_io) params states w tip tip [b] ->
  commits_to (IO := mem_world_io) mem_inv states w (io_commit_block (ChainIO := mem_world_io) w b) tip [b].
Proof.
  intros K R. cbn [io_commit_block mem_io]. unfold ms_commit_block. destruct (take_failure (mw_store w)) as [[e|] s] eqn:E; destruct (taken _ _ _ E K) as (K1 & Es & Ec).
  { by apply refused_law. }
  pose proof (mem_height _ _ _ _ _ K R) as Ht. pose proof (rq_base _ _ _ _ _ _ R).
  pose proof (rq_fine _ _ _ _ _ _ R) as Hf. inversion_clear Hf as [|? ? Hf1 _]. pose proof (rq_heights _ _ _ _ _ _ R 0%nat b eq_refl) as Hh.
  destruct (push_law s K1 b Hf1) as (s' & -> & K2 & _ & _ & C); [rewrite Ec; lia| |].
  { apply (fresh_hashes _ w tip tip [b] s R); [|apply list_elem_of_here]. rewrite Ec, take_ge; [done|]. unfold Zlen in Ht. lia. }
  cbn. split; [by apply count_ok|]. cbn. rewrite Ec, Ht, Es in C. eapply law_states; [|exact C]. intros x.
  rewrite <-(hh_tip _ _ _ _ (rq_history _ _ _ _ _ _ R)). change (ms_account s x) with (st_account (mem_store s) x). by rewrite Es.
Qed.

Lemma mem_reorg_law states w fork tip bs : mem_inv w -> request (IO := mem_world_io) params states w fork tip bs ->
  have_all_undo (mem_store (mw_store w)) fork tip = true ->
  commits_to (IO := mem_world_io) mem_inv states w
    (io_commit_reorg (ChainIO := mem_world_io) w (MkReorgCommit (rev (above_fork fork tip)) bs)) fork bs.
Proof.
  intros K R Hau. cbn [io_commit_reorg mem_io]. unfold ms_commit_reorg. destruct (take_failure (mw_store w)) as [[e|] s] eqn:E; destruct (taken _ _ _ E K) as (K1 & Es & Ec).
  { by apply refused_law. }
  cbn [rc_rollback rc_apply]. unfold above_fork at 1. rewrite descending_range. cbn [negb].
  pose proof (mem_height _ _ _ _ _ K R) as Ht. pose proof (rq_base _ _ _ _ _ _ R) as Hb. rewrite <-Ec in Ht.
  pose proof (rq_history _ _ _ _ _ _ R) as Hs. cbn in Hs. rewrite <-Es in Hs, Hau.
  destruct (rollback_law states fork ltac:(lia) _ s K1 eq_refl) as (s1 & Er & K2 & C2 & L2 & W2).
  - lia.
  - rewrite Ht. apply (hh_tip _ _ _ _ Hs).
  - rewrite Ht. intros h Hh. unfold have_all_undo in Hau. rewrite forallb_forall in Hau. specialize (Hau h). rewrite <-in_rev in Hau. unfold above_fork in Hau.
    rewrite in_zrange in Hau. specialize (Hau ltac:(lia)). apply bool_decide_eq_true in Hau as [u Hu]. exists u. split; [exact Hu|].
    apply (hh_undo _ _ _ _ Hs); [lia|exact Hu].
  - rewrite Ht in Er. rewrite Er. rewrite Ec in C2. pose proof (rq_heights _ _ _ _ _ _ R) as Hh.
    destruct (apply_all_law bs s1 K2 (rq_fine _ _ _ _ _ _ R)) as (s2 & -> & K3 & C3).
    + rewrite L2. by replace (fork + 1 - 1) with fork by lia.
    + apply R.
    + by apply (fresh_hashes _ w fork tip bs s1 R).
    + split; [by apply count_ok|]. cbn. rewrite L2 in C3. replace (fork + 1 - 1) with fork in C3 by lia. rewrite <-Es.
      apply (law_after_rollback _ (mem_store s1) _ fork fork (states fork)); [lia|done|].
      eapply law_states; [|exact C3]. exact (ct_accounts _ _ _ _ _ (cl_committed _ _ _ _ _ W2)).
Qed.

Lemma mem_deep_law states w r tip bs : mem_inv w -> request (IO := mem_world_io) params states w r tip bs ->
  commits_to (IO := mem_world_io) mem_inv states w (io_commit_deep_reorg (ChainIO := mem_world_io) w (MkDeepReorgCommit r bs)) r bs.
Proof.
  intros K R. cbn [io_commit_deep_reorg mem_io]. unfold ms_commit_deep_reorg. destruct (take_failure (mw_store w)) as [[e|] s] eqn:E; destruct (taken _ _ _ E K) as (K1 & Es & Ec).
  { by apply refused_law. }
  rewrite (mk_snapshots _ K1), lookup_empty. by apply refused_law.
Qed.

#[export] Instance mem_laws : ChainIOLaws (IO := mem_world_io) params mem_inv.
Proof.
  constructor.
  - intros w K. by apply mem_store_ok.
  - done.
  - done.
  - intros w h []. split; [by constructor|]. by exists (fun x => bool_decide (x ∈ {[h]} ∪ ms_invalid (mw_store w))).
  - intros w sh K Hs. split.
    + destruct K. constructor; try done. cbn. intros h r Hr. apply lookup_insert_Some in Hr as [[<- <-]|[_ Hr]]; [done|by apply mk_side0].
    + eexists. split; [reflexivity|]. intros h r Hr. cbn in *. unfold ms_find in *. cbn in Hr. destruct (List.find _ _) as [x|]; [by left|].
      apply lookup_insert_Some in Hr as [[<- <-]|[_ Hr]]; [by right|by left].
  - intros w cp K. cbn. unfold ms_put_anchor. destruct (ms_fail_next_anchor (mw_store w)); (split; [by destruct K; constructor|done]).
  - apply mem_block_law.
  - apply mem_reorg_law.
  - apply mem_deep_law.
Qed.
End MockLaws.

#[local] Strategy 1000 [work_from_target expand_bits].
Lemma genesis_mem_ok `{V : Verifier} rec body params s : rec_sound rec -> bytes_ok body -> with_genesis rec body params = Ok s -> mem_ok s.
Proof.
  intros Hr Hb Hs. unfold with_genesis in Hs. destruct (expand_bits (hr_bits rec) (pow_limit params)) as [t|]; [|discriminate Hs]. cbn [expect obind] in Hs.
  destruct (work_from_target (target_to_be t)) as [w| |]; [|discriminate Hs..]. cbn [obind] in Hs. apply Ok_inj in Hs as <-.
  constructor; try reflexivity; cbn [ms_canonical ms_side ms_bodies ms_undo].
  - discriminate.
  - by constructor.
  - apply NoDup_singleton.
  - intros h r Hx. by rewrite lookup_empty in Hx.
  - intros h b Hx. by apply lookup_singleton_Some in Hx as [<- <-].
  - intros h u Hx. by rewrite lookup_empty in Hx.
Qed.

(** The mock store implements what the manager relies on: with any verifier mode and cost, the in-memory store meets
    every law of the [Store], [Sink] and clock interface (a commit of blocks on the recorded history, directly, by a
    reorganisation or by a deep one, installs exactly those blocks and their account states; a refused one changes nothing;
    side headers, invalid marks and anchors touch nothing else), and a store created with a sound genesis satisfies the invariant. *)
Theorem mock_store_keeps_contract `{ED : Ed25519} (mode : PowMode) (cost : Z) (params : ChainParams) (clock : MockClock) :
  ChainIOLaws (IO := mem_io mode cost) params (mem_inv mode) /\
  forall rec body s, rec_sound (V := mock_verify mode) rec -> bytes_ok body -> with_genesis rec body params = Ok s -> mem_inv mode (MkMemWorld s clock).
Proof. split; [apply mem_laws|]. intros rec body s Hr Hb Hs. exact (genesis_mem_ok (V := mock_verify mode) rec body params s Hr Hb Hs). Qed.
