(* ===== verification/ManagerBoot.v ===== *)
(** Starting the chain manager, and admitting headers and bodies. [ChainManager_new]
    on a store that holds a history either refuses with a boot error or gives a manager
    in order ([manager_ok]); [submit_block] keeps it in order. Both grow the index by
    headers the store already holds, through [attach]. *)

From Stdlib Require Import ZArith Lia List String Sorted.
From stdpp Require Import base list gmap numbers.
From S2P Require Import Prelude Constants Limbs Asert Work Rules Checkpoint Codec Crypto TxRules ChainTypes State Body BodyEquiv ChainWork Index ForkChoice CheckpointStore Reorg History Budget Ingest IngestInv Mempool MempoolInv TxIngress Manager ManagerInv.
Open Scope Z_scope.

(** ** The index with one header more *)
Record grown (limit : Target) (ix ix' : HeaderIndex) (rec : HeaderRec) : Prop := {
  gr_wf : index_wf ix';
  gr_work : work_wf limit (ix_nodes ix');
  gr_canonical : ix_canonical ix' = ix_canonical ix;
  gr_nodes : exists n, ix_nodes ix' = ix_nodes ix ++ [n] /\ n_hash n = hr_hash rec /\ n_height n = hr_height rec;
  gr_link : exists n p, ix_nodes ix' = ix_nodes ix ++ [n] /\ zlookup (ix_nodes ix) (n_prev n) = Some p /\ n_hash p = hr_prev_hash rec /\
    n_time n = hr_time rec /\ n_bits n = hr_bits rec /\ legal_header limit (Some p) rec (n_cum_work n);
  gr_reach : forall adm, (forall p cum, legal_header limit (Some p) rec cum -> adm (Some p) rec cum) -> ix_reach adm ix -> ix_reach adm ix';
}.

Section Grow.
Context (limit : Target) (ix : HeaderIndex) (rec : HeaderRec).

Lemma direct_work_legal bits w : direct_work (E := Reject) bits limit = Ok (Some w) ->
  exists t, expand_bits bits limit = Some t /\ work_from_target (E := Reject) (target_to_be t) = Ok w.
Proof.
  unfold direct_work. destruct (expand_bits bits limit) as [t|]; [|done]. intros H. exists t. split; [done|]. step_in H. by invert_ok.
Qed.

Lemma sound_rec_legal `{V : Verifier} : rec_sound rec -> hash_ok (hr_hash rec) /\ 0 <= hr_bits rec < 2 ^ 32 /\ 0 <= hr_height rec < 2 ^ 64.
Proof.
  intros (Hl & Hb & Hr & _). unfold HeaderRec_from_raw in Hr. destruct (Header_decode (hr_raw rec)) as [hdr| |] eqn:Ed; [|done..].
  apply Header_decode_sound in Ed as [Hw _]; [|done]. cbn in Hr. apply Ok_inj in Hr. destruct Hw as (_ & Hh & _ & _ & _ & _ & Hbits & _).
  rewrite <-Hr. cbn. split; [apply hash_is_hash|]. split; [done|done].
Qed.

Lemma insert_grows parent p cum : target_ok limit -> index_wf ix -> work_wf limit (ix_nodes ix) -> index_of ix (hr_hash rec) = None ->
  zlookup (ix_nodes ix) parent = Some p -> hr_height rec = n_height p + 1 -> Zlen (ix_nodes ix) < NO_PARENT ->
  n_hash p = hr_prev_hash rec -> legal_header limit (Some p) rec cum ->
  exists ix', ix_insert (E := Reject) ix rec parent cum true = Ok (Zlen (ix_nodes ix), ix') /\ grown limit ix ix' rec /\
    exists n, zlookup (ix_nodes ix') (Zlen (ix_nodes ix)) = Some n /\ n_prev n = parent /\ n_cum_work n = cum.
Proof.
  intros Hl W Wk Hnone Hp Hh Hlen Hlink Hleg. destruct (ix_insert_wf (E := Reject) ix rec parent p cum true W Hp Hh Hlen) as (i & ix' & n & Hi & W' & Hn & Hnh & Hold & Hc).
  assert (exists base flags, ix_nodes ix' = ix_nodes ix ++ [MkNode (hr_hash rec) parent (hr_height rec) (hr_time rec) (hr_bits rec) cum base flags] /\ i = Zlen (ix_nodes ix)) as (base & flags & Hx & ->).
  { clear -Hi Hnone W. unfold ix_insert in Hi. rewrite Hnone in Hi. do 2 step_in Hi. apply Ok_inj in Hi. injection Hi as Hi <-.
    eexists _, _. split; [reflexivity|]. rewrite <-Hi. pose proof (aw_size _ (wf_arena _ W)) as Hs. change NO_PARENT with (2 ^ 32 - 1) in Hs. apply wrap_small. lia. }
  exists ix'. split; [done|]. split; [split; [done| |done| | |]|].
  - rewrite Hx. by apply (work_wf_snoc limit Hl _ _ _ p); [apply W|..].
  - rewrite Hx. eexists. split; [reflexivity|]. done.
  - rewrite Hx. eexists _, p. split; [reflexivity|]. done.
  - intros adm Ha Hreach. eapply (reach_insert adm ix rec parent p cum true); [done|by apply node_ok|done|done|by apply Ha|exact Hi].
  - rewrite Hx, zlookup_snoc. eexists. split; [reflexivity|]. done.
Qed.

Lemma set_have_body_tree i n : index_wf ix -> zlookup (ix_nodes ix) i = Some n ->
  exists ix', set_have_body (E := Reject) ix i = Ok ix' /\ index_wf ix' /\ same_tree (ix_nodes ix) (ix_nodes ix') /\ ix_canonical ix' = ix_canonical ix.
Proof.
  intros W Hn. destruct (set_have_body_wf (E := Reject) ix i n W Hn) as (ix' & H & W'). exists ix'. split; [done|]. split; [done|].
  unfold set_have_body in H. destruct (or_flags_at_ok (E := Reject) _ _ FLAG_HAVE_BODY _ Hn) as [E T]. rewrite E in H. cbn in H. injection H as <-. done.
Qed.

(** The header the node is for, marked invalid when the store knows it as such. *)
Lemma flag_grows ix' : grown limit ix ix' rec -> (exists n, zlookup (ix_nodes ix') (Zlen (ix_nodes ix)) = Some n /\ n_prev n < Zlen (ix_nodes ix)) ->
  index_wf ix -> exists ix2, set_invalid_flag (E := Reject) ix' (Zlen (ix_nodes ix)) = Ok ix2 /\ grown limit ix ix2 rec.
Proof.
  intros [W Wk Hc (n & Hn & Hh & Hht) (nl & pl & Hnl & Hp & Hlink & Ht & Hb & Hleg) Hreach] (n0 & Hn0 & Hprev) Wx.
  assert (forall j m, zlookup (ix_nodes ix') j = Some m -> n_prev m <> Zlen (ix_nodes ix)) as Hleaf.
  { intros j m Hm. rewrite Hn in Hm. apply zlookup_snoc_inv in Hm as [Hm|[-> ->]].
    - destruct (decide (n_prev m = NO_PARENT)) as [E|E].
      + pose proof (aw_size _ (wf_arena _ W)) as Hs. rewrite Hn, Zlen_app in Hs. change (Zlen [n]) with 1 in Hs. lia.
      + destruct (prev_in_range _ (wf_arena _ Wx) j m Hm E) as (_ & p & ? & _). apply zlookup_lt in Hm. lia.
    - rewrite Hn, zlookup_snoc in Hn0. injection Hn0 as <-. lia. }
  destruct (set_invalid_flag_wf (E := Reject) ix' (Zlen (ix_nodes ix)) n0 W Hn0 Hleaf) as (ix2 & H & W2).
  exists ix2. split; [done|]. pose proof H as Hset. unfold set_invalid_flag in H.
  destruct (or_flags_at_ok (E := Reject) _ _ FLAG_INVALID _ Hn0) as [E T]. rewrite E in H. cbn in H. injection H as <-.
  assert (zinsert (ix_nodes ix') (Zlen (ix_nodes ix)) (or_flags n0 FLAG_INVALID) = ix_nodes ix ++ [or_flags n FLAG_INVALID]) as Hz.
  { rewrite Hn, zlookup_snoc in Hn0. injection Hn0 as <-. rewrite Hn.
    unfold zinsert. pose proof (Zlen_nonneg (ix_nodes ix)). destruct (Z.leb_spec 0 (Zlen (ix_nodes ix))); [|lia]. unfold Zlen. rewrite Nat2Z.id.
    by rewrite insert_app_r_alt, Nat.sub_diag by lia. }
  split; [done| |done| | |].
  - eapply work_wf_proper; [|exact Wk]. exact T.
  - cbn [ix_nodes]. rewrite Hz. by exists (or_flags n FLAG_INVALID).
  - cbn [ix_nodes]. rewrite Hz. rewrite Hn in Hnl. apply app_inj_tail in Hnl as [_ <-]. by exists (or_flags n FLAG_INVALID), pl.
  - intros adm Ha Hr. eapply (reach_flag adm ix'); [by apply Hreach|exact Hleaf|exact Hset].
Qed.
End Grow.

Section Boot.
Context `{ED : Ed25519} {W : Type} `{IO : ChainIO W} (params : ChainParams) (inv : W -> Prop) {L : ChainIOLaws params inv}.
Abbreviation Manager := (ChainManager W).
Abbreviation store m := (io_store (cm_world m)).
Abbreviation nodes m := (ix_nodes (cm_index m)).
Abbreviation limit := (pow_limit params).

(** What [attach] needs of the manager, before as after the boot. *)
Record linkable (m : Manager) : Prop := {
  lb_params : cm_params m = params;
  lb_limit : target_ok limit;
  lb_index : index_wf (cm_index m);
  lb_work : work_wf limit (nodes m);
  lb_memo : cache_ok limit (cm_memo m);
}.
Lemma manager_linkable states m : manager_ok params inv states m -> linkable m.
Proof. intros []. by constructor. Qed.

Lemma wp_memo_work bits Q (m : Manager) : cm_params m = params -> target_ok limit -> cache_ok limit (cm_memo m) -> 0 <= bits < 2 ^ 32 -> counters (cm_memo m) < 2 ^ 64 - 1 ->
  (forall o c, cache_ok limit c -> counters c = counters (cm_memo m) + 1 -> direct_work (E := Reject) bits limit = Ok o -> Q (set_memo m c) (Ok o)) ->
  wp (memo_work bits) Q m.
Proof.
  intros Hp Hl Hm Hb Hc HQ. unfold memo_work. wp_step. apply wp_get. wp_step. apply wp_lift. rewrite Hp.
  destruct (WorkCache_work_step (E := Reject) (cm_memo m) bits limit Hm Hl Hb Hc) as (o & c & -> & Hok & Hd & Hn).
  wp_steps. by apply HQ.
Qed.

(** A header whose parent is indexed is inserted, marked invalid when the store says so; any other one is left out. *)
Lemma wp_attach rec Q m : linkable m -> rec_sound rec -> index_of (cm_index m) (hr_hash rec) = None ->
  Zlen (nodes m) < NO_PARENT -> counters (cm_memo m) < 2 ^ 64 - 1 ->
  (forall c, cache_ok limit c -> counters c <= counters (cm_memo m) + 1 -> Q (set_memo m c) (Ok None)) ->
  (forall c ix', cache_ok limit c -> counters c <= counters (cm_memo m) + 1 -> grown limit (cm_index m) ix' rec ->
    Q (set_index (set_memo m c) ix') (Ok (Some (Zlen (nodes m))))) ->
  wp (attach rec) Q m.
Proof.
  intros K Hs Hnone Hlen Hcnt Hno Hyes. destruct (sound_rec_legal rec Hs) as (Hh & Hb & Hht).
  assert (Q m (Ok None)) as Hno0 by (replace m with (set_memo m (cm_memo m)) by (by destruct m); apply Hno; [apply (lb_memo _ K)|lia]).
  unfold attach. wp_step. apply wp_get. destruct (index_of (cm_index m) (hr_prev_hash rec)) as [parent|] eqn:Ep; [|by apply wp_ret].
  apply (wf_hash _ (lb_index _ K)) in Ep as (p & Hp & Hph0). wp_step. apply wp_lift. rewrite (proj2 (node_ok (cm_index m) parent p) Hp).
  wp_step. apply wp_lift. pose proof (arena_height _ (wf_arena _ (lb_index _ K)) _ _ Hp) as Hph. pose proof (zlookup_lt _ _ _ Hp) as Hpl.
  pose proof (aw_size _ (wf_arena _ (lb_index _ K))) as Hsz. change NO_PARENT with (2 ^ 32 - 1) in Hsz.
  assert (add_checked (E := Reject) 64 (n_height p) 1 = Ok (n_height p + 1)) as -> by (apply expect_ok, checked_add_some; lia).
  destruct (Z.eqb_spec (n_height p + 1) (hr_height rec)) as [Hheight|]; [|by apply wp_ret]. cbn [negb].
  wp_step. apply wp_memo_work; [apply K|apply K|apply K|done|done|]. intros o c Hc Hcn Hd. destruct o as [w|]; [|apply wp_ret, Hno; [done|lia]].
  destruct (Work_checked_add (n_cum_work p) w) as [cum|] eqn:Ew; [|apply wp_ret, Hno; [done|lia]].
  destruct (direct_work_legal limit _ _ Hd) as (t & Ht & Hw).
  destruct (insert_grows limit (cm_index m) rec parent p cum (lb_limit _ K) (lb_index _ K) (lb_work _ K) Hnone Hp (eq_sym Hheight) Hlen Hph0) as (ix' & Hi & Hg & n & Hn & Hnp & _).
  { split; [done|]. split; [done|]. by exists t, w. }
  unfold index_insert. wp_step. wp_step. apply wp_get. wp_step. apply wp_lift. cbn [cm_index set_memo]. rewrite Hi. wp_steps. cbn [cm_world set_index set_memo].
  destruct (st_is_invalid (store m) (hr_hash rec)).
  - unfold update_index. wp_steps. cbn [cm_index set_index set_memo].
    destruct (flag_grows limit (cm_index m) rec ix' Hg) as (ix2 & -> & Hg2); [exists n; split; [done|lia]|apply (lb_index _ K)|].
    wp_steps. apply (Hyes c ix2); [done|lia|done].
  - wp_steps. apply (Hyes c ix'); [done|lia|done].
Qed.

(** *** The manager stays in order *)
Lemma sound_raw rec n : rec_sound rec -> n_hash n = hr_hash rec -> n_height n = hr_height rec -> raw_ok n (hr_raw rec).
Proof.
  intros (Hl & Hb & Hr & Hv) Hh Hht. rewrite <-Hht in Hv. unfold HeaderRec_from_raw in Hr. destruct (Header_decode (hr_raw rec)) as [hdr| |] eqn:Ed; [|done..].
  cbn in Hr. apply Ok_inj in Hr. pose proof (f_equal hr_hash Hr) as H1. pose proof (f_equal hr_height Hr) as H2. cbn in H1, H2.
  split; [done|]. split; [congruence|]. exists hdr. split; [done|]. split; [congruence|done].
Qed.

Lemma memo_ok states m c : cache_ok limit c -> manager_ok params inv states m -> manager_ok params inv states (set_memo m c).
Proof. intros Hc []. by constructor. Qed.

Lemma grown_ok states m ix' rec : manager_ok params inv states m -> grown limit (cm_index m) ix' rec -> index_of (cm_index m) (hr_hash rec) = None ->
  (forall r, st_header_by_hash (store m) (hr_hash rec) = Some r -> rec_sound r /\ hr_hash r = hr_hash rec /\ hr_height r = hr_height rec) ->
  manager_ok params inv states (set_index m ix').
Proof.
  intros O [Wf Wk Hc (n & Hn & Hh & Hht) _ _] Hnone Hst. constructor; cbn; rewrite ?Hc; try apply O; try done.
  - intros h i x. cbn. rewrite Hc, Hn. intros Hi Hx. apply ((mo_agrees _ _ _ _ O) h i x Hi).
    apply zlookup_snoc_inv in Hx as [Hx|[-> ->]]; [done|]. exfalso.
    destruct (path_node _ (wf_arena _ (mo_index _ _ _ _ O)) _ _ _ (wf_canon _ (mo_index _ _ _ _ O)) Hi) as (y & Hy & _). apply zlookup_lt in Hy. lia.
  - intros i x. cbn. rewrite Hn. intros Hx. apply zlookup_snoc_inv in Hx as [Hx|[-> ->]]; [by apply ((mo_raws _ _ _ _ O) i)|]. split.
    + intros raw Hr. rewrite Hh in Hr. apply (mo_indexed _ _ _ _ O) in Hr. rewrite Hnone in Hr. by destruct Hr.
    + intros r Hr. rewrite Hh in Hr. apply Hst in Hr as (Hs & H1 & H2). apply sound_raw; [done|congruence..].
  - intros h raw Hr. apply (mo_indexed _ _ _ _ O) in Hr as [i Hi]. apply (wf_hash _ (mo_index _ _ _ _ O)) in Hi as (x & Hx & <-). exists i. apply (wf_hash _ Wf).
    exists x. split; [|done]. rewrite Hn. by apply zlookup_snoc_keep.
Qed.

(** ** Where the headers of the index come from

    Every node is a sound header, extends its parent legally and was verified. *)
Definition node_linked (ns : list Node) (n : Node) : Prop := exists rec, rec_sound rec /\ n_hash n = hr_hash rec /\ n_height n = hr_height rec /\
  n_time n = hr_time rec /\ n_bits n = hr_bits rec /\ legal_header limit (zlookup ns (n_prev n)) rec (n_cum_work n) /\
  (forall p, zlookup ns (n_prev n) = Some p -> n_hash p = hr_prev_hash rec).
Record sourced (ix : HeaderIndex) : Prop := {
  sc_reach : ix_reach (verified_header verified limit) ix;
  sc_nodes : forall i n, zlookup (ix_nodes ix) i = Some n -> node_linked (ix_nodes ix) n;
}.
Lemma linked_tree a b : same_tree a b -> (forall i n, zlookup a i = Some n -> node_linked a n) -> forall i n, zlookup b i = Some n -> node_linked b n.
Proof.
  intros T H i n Hn. assert (same_tree b a) as T' by by symmetry. destruct (same_tree_lookup _ _ _ _ T' Hn) as (n0 & Hn0 & Hsk).
  injection Hsk as E1 E2 E3 E4 E5 E6. destruct (H i n0 Hn0) as (rec & H1 & H2 & H3 & H4 & H5 & H6 & H7). exists rec. rewrite <-E1, <-E3, <-E4, <-E5, <-E6, <-E2.
  split_and!; try done.
  - destruct (zlookup a (n_prev n0)) as [p|] eqn:Ep; [destruct (same_tree_lookup _ _ _ _ T Ep) as (p' & -> & Hp')|].
    + injection Hp' as _ _ _ _ _ Hc. unfold legal_header in *. by rewrite Hc.
    + destruct (zlookup b (n_prev n0)) as [p'|] eqn:Ep'; [|done]. destruct (same_tree_lookup _ _ _ _ T' Ep') as (p & Hp & _). congruence.
  - intros p Hp. destruct (same_tree_lookup _ _ _ _ T' Hp) as (p0 & Hp0 & Hsp). injection Hsp as F1 _ _ _ _ _. rewrite <-F1. by apply H7.
Qed.
Lemma sourced_tree ix ix' : same_tree (ix_nodes ix) (ix_nodes ix') -> (forall adm, ix_reach adm ix -> ix_reach adm ix') -> sourced ix -> sourced ix'.
Proof. intros T Hr [S1 S2]. split; [auto|]. by eapply linked_tree. Qed.

Lemma sound_verified rec p cum : rec_sound rec -> 0 < hr_height rec -> legal_header limit (Some p) rec cum -> verified_header verified limit (Some p) rec cum.
Proof.
  intros (Hl & Hb & Hr & Hv) H0 Hleg. split; [done|]. intros _. split; [by apply Hv|]. split; [|done]. unfold HeaderRec_from_raw in Hr.
  destruct (Header_decode (hr_raw rec)); [|done..]. cbn in Hr. apply Ok_inj in Hr. by rewrite <-Hr at 1.
Qed.
Lemma sourced_grown ix ix' rec : index_wf ix -> sourced ix -> grown limit ix ix' rec -> rec_sound rec -> sourced ix'.
Proof.
  intros Wx [S1 S2] G Hs. destruct (gr_link _ _ _ _ G) as (n & p & Hn & Hp & Hph & Ht & Hb & Hleg). destruct (gr_nodes _ _ _ _ G) as (n' & Hn' & Hh & Hht).
  rewrite Hn in Hn'. apply app_inj_tail in Hn' as [_ <-]. pose proof (gr_wf _ _ _ _ G) as W'.
  assert (zlookup (ix_nodes ix') (n_prev n) = Some p) as Hp' by (rewrite Hn; by apply zlookup_snoc_keep).
  assert (0 < hr_height rec) as H0.
  { rewrite <-Hht. destruct (prev_in_range _ (wf_arena _ W') (Zlen (ix_nodes ix)) n) as (_ & q & _ & Hq & Hqh); [rewrite Hn; apply zlookup_snoc| |].
    - intros E. rewrite E in Hp. apply zlookup_lt in Hp. pose proof (aw_size _ (wf_arena _ Wx)). lia.
    - rewrite Hp' in Hq. injection Hq as <-. pose proof (arena_height _ (wf_arena _ Wx) _ _ Hp). lia. }
  split; [apply (gr_reach _ _ _ _ G); [|done]; intros q cum; by apply sound_verified|].
  intros i x Hx. rewrite Hn in Hx. apply zlookup_snoc_inv in Hx as [Hx|[-> ->]].
  - destruct (S2 i x Hx) as (r & H1 & H2 & H3 & H4 & H5 & H6 & H7). exists r. split_and!; try done.
    + destruct (decide (n_prev x = NO_PARENT)) as [E|E].
      * rewrite E in *. rewrite zlookup_ge in H6 by (apply (aw_size _ (wf_arena _ Wx))). by rewrite zlookup_ge by (apply (aw_size _ (wf_arena _ W'))).
      * destruct (prev_in_range _ (wf_arena _ Wx) i x Hx E) as (_ & q & _ & Hq & _). rewrite Hq in H6. by rewrite Hn, (zlookup_snoc_keep _ _ _ _ Hq).
    + intros q Hq. destruct (decide (n_prev x = NO_PARENT)) as [E|E].
      * rewrite E in Hq. apply zlookup_lt in Hq. pose proof (aw_size _ (wf_arena _ W')). lia.
      * destruct (prev_in_range _ (wf_arena _ Wx) i x Hx E) as (_ & q' & _ & Hq' & _). rewrite Hn, (zlookup_snoc_keep _ _ _ _ Hq') in Hq. injection Hq as <-. by apply H7.
  - exists rec. split_and!; try done; [by rewrite Hp'|]. intros q Hq. rewrite Hp' in Hq. by injection Hq as <-.
Qed.

(** ** Bodies *)
Record body_room (m : Manager) : Prop := {
  br_size : Zlen (nodes m) < NO_PARENT;
  br_memo : counters (cm_memo m) < 2 ^ 64 - 1;
  br_readmitted : 0 <= cst_headers_readmitted (cm_stats m) < 2 ^ 64 - 1;
}.

(** How the index changed: at most one sound header more, then flags. *)
Record touched (m m' : Manager) : Prop := {
  tc_ingest : cm_ingest m' = cm_ingest m;
  tc_cps : cm_cps m' = cm_cps m;
  tc_halted : cm_halted m' = cm_halted m;
  tc_canonical : ix_canonical (cm_index m') = ix_canonical (cm_index m);
  tc_index : exists mid, (mid = cm_index m \/ exists rec, grown limit (cm_index m) mid rec /\ rec_sound rec /\ index_of (cm_index m) (hr_hash rec) = None) /\
    same_tree (ix_nodes mid) (nodes m') /\ (forall adm, ix_reach adm mid -> ix_reach adm (cm_index m'));
}.
Lemma touched_refl m : touched m m.
Proof. constructor; try done. exists (cm_index m). split; [by left|done]. Qed.

(** What [submit_block] did: the header, which may have come back from the store, is a valid one of the index and the body is kept for it. *)
Record body_kept (m m' : Manager) (hash : Hash32) (body : bytes) : Prop := {
  bk_node : exists i n, index_of (cm_index m') hash = Some i /\ zlookup (nodes m') i = Some n /\ n_invalid n = false /\ n_pow_ok n = true;
  bk_bodies : cm_bodies m' = <[hash := body]> (cm_bodies m);
  bk_new : have_body m hash = false;
  bk_fits : Zlen body + HEADER_BYTES <= MAX_BLOCK_BYTES;
  bk_store : store m' = store m;
}.
Definition submitted (states : Z -> Address -> Account) (m : Manager) (hash : Hash32) (body : bytes) (m' : Manager) (r : outcome Reject unit) : Prop :=
  manager_ok params inv states m' /\ touched m m' /\
  match r with
  | Ok _ => body_kept m m' hash body
  | Err e => cm_bodies m' = cm_bodies m /\
      (e = BodyNotAdmissible hash \/ (e = BodyAlreadyHeld hash /\ have_body m hash = true) \/
       (exists d, e = BodyStructure d) /\ MAX_BLOCK_BYTES < Zlen body + HEADER_BYTES)
  | Panic => False
  end.

Lemma readmit_spec states m hash Q : manager_ok params inv states m -> body_room m -> index_of (cm_index m) hash = None ->
  (forall m' c, m' = set_memo m c -> manager_ok params inv states m' -> Q m' (Ok None)) ->
  (forall m' i n, manager_ok params inv states m' -> index_of (cm_index m') hash = Some i -> zlookup (nodes m') i = Some n ->
    cm_bodies m' = cm_bodies m -> store m' = store m -> touched m m' -> Q m' (Ok (Some i))) ->
  wp (readmit_persisted_header hash) Q m.
Proof.
  intros O R Hnone Hno Hyes. assert (Q m (Ok None)) as Hno0 by (apply (Hno m (cm_memo m)); [by destruct m|done]).
  unfold readmit_persisted_header. wp_step. apply wp_get. destruct (st_header_by_hash (store m) hash) as [rec|] eqn:Er; [|by apply wp_ret].
  destruct (bytes_eqb (hr_hash rec) hash) eqn:Eh; cbn [negb]; [|by apply wp_ret]. apply bool_decide_eq_true in Eh.
  destruct (so_by_hash _ (io_store_ok _ (mo_world _ _ _ _ O)) _ _ Er) as [Hs _].
  wp_step. apply wp_attach; [by apply (manager_linkable states)|done|by rewrite Eh|apply R|apply R| |].
  - intros c Hc _. apply wp_ret. eapply Hno; [reflexivity|]. by apply memo_ok.
  - intros c ix' Hc _ G. set (m1 := set_index (set_memo m c) ix').
    assert (manager_ok params inv states m1) as O1.
    { apply (grown_ok states (set_memo m c) ix' rec); [by apply memo_ok|done|by rewrite Eh|]. intros r Hr. cbn in Hr. rewrite Eh, Er in Hr. by injection Hr as <-. }
    wp_step. eapply wp_bump with (inv := inv).
    { cbn [m1 cm_stats set_index set_memo]. assert (add_checked (E := Reject) 64 (cst_headers_readmitted (cm_stats m)) 1 = Ok (cst_headers_readmitted (cm_stats m) + 1)) as ->
        by (apply expect_ok, checked_add_some; pose proof (br_readmitted _ R); lia). reflexivity. }
    intros m2 Q2 _. apply wp_ret. destruct (gr_nodes _ _ _ _ G) as (n & Hn & Hh & _). pose proof (quiet_ok _ _ _ _ _ Q2 O1) as O2.
    assert (zlookup (nodes m2) (Zlen (nodes m)) = Some n) as Hz by (destruct Q2 as [(w & l & s & ->) _ _]; cbn; by rewrite Hn, zlookup_snoc).
    apply (Hyes m2 _ n); [done| |done|..].
    + apply (wf_hash _ (mo_index _ _ _ _ O2)). exists n. by rewrite Hh.
    + by destruct Q2 as [(w & l & s & ->) _ _].
    + by rewrite (qt_store _ _ _ Q2).
    + destruct Q2 as [(w & l & s & ->) _ _]. constructor; try done; [apply G|]. exists ix'. split; [right; exists rec; by rewrite Eh|done].
Qed.

Lemma have_body_ok states m i n : manager_ok params inv states m -> zlookup (nodes m) i = Some n ->
  exists ix' n', set_have_body (E := Reject) (cm_index m) i = Ok ix' /\ manager_ok params inv states (set_index m ix') /\
    zlookup (ix_nodes ix') i = Some n' /\ n_hash n' = n_hash n /\ n_invalid n' = n_invalid n /\ n_pow_ok n' = n_pow_ok n /\
    ix_canonical ix' = ix_canonical (cm_index m) /\ same_tree (nodes m) (ix_nodes ix') /\ (forall adm, ix_reach adm (cm_index m) -> ix_reach adm ix').
Proof.
  intros O Hn. destruct (set_have_body_tree (cm_index m) i n (mo_index _ _ _ _ O) Hn) as (ix' & H & W' & T & Hc).
  assert (ix_nodes ix' = zinsert (nodes m) i (or_flags n FLAG_HAVE_BODY)) as Hx.
  { unfold set_have_body in H. destruct (or_flags_at_ok (E := Reject) _ _ FLAG_HAVE_BODY _ Hn) as [E _]. rewrite E in H. cbn in H. by injection H as <-. }
  exists ix', (or_flags n FLAG_HAVE_BODY). split; [done|]. split; [|rewrite Hx, (zlookup_zinsert_eq _ _ _ n Hn); split; [done|]; split; [done|]; split; [by rewrite or_body_invalid|];
    split; [|split; [done|split; [by rewrite <-Hx|intros adm Ha; by eapply reach_body]]]].
  - apply (pruned_ok params inv states m); [|done|apply (mo_world _ _ _ _ O)|done]. constructor; cbn; try done.
    + intros adm Ha. by eapply reach_body.
    + exists (st_is_invalid (store m)). by rewrite with_invalid_same.
    + intros j a b Ha Hb Hv. rewrite Hx in Hb. destruct (decide (i = j)) as [<-|Hne].
      * rewrite (zlookup_zinsert_eq _ _ _ n Hn) in Hb. injection Hb as <-. rewrite Hn in Ha. injection Ha as <-. by rewrite or_body_invalid.
      * rewrite zlookup_zinsert_ne in Hb by done. congruence.
  - unfold n_pow_ok, or_flags. cbn. clear. rewrite Z.land_lor_distr_l. by rewrite Z.lor_0_r.
Qed.

Lemma bodies_ok states m b : (forall h x, b !! h = Some x -> bytes_ok x) -> manager_ok params inv states m -> manager_ok params inv states (set_bodies m b).
Proof. intros Hb []. by constructor. Qed.

(** The part of [submit_block] after the header was found. *)
Lemma keep_body_spec states m0 m hash body i n : manager_ok params inv states m -> bytes_ok body -> index_of (cm_index m) hash = Some i ->
  zlookup (nodes m) i = Some n -> cm_bodies m = cm_bodies m0 -> store m = store m0 -> touched m0 m ->
  wp (let! m := mget in
      let! n := mlift (node (cm_index m) i) in
      if negb (n_pow_ok n) || n_invalid n then mfail (BodyNotAdmissible hash) else
      if have_body m hash then mfail (BodyAlreadyHeld hash) else
      if MAX_BLOCK_BYTES <? Zlen body + HEADER_BYTES then mfail (BodyStructure "body over MAX_BLOCK_BYTES") else
      mput (fun m => set_bodies m (<[hash := body]> (cm_bodies m))) ;!
      update_index (fun ix => set_have_body ix i)) (submitted states m0 hash body) m.
Proof.
  intros O Hb Hi Hn Eb Es T. assert (have_body m hash = have_body m0 hash) as Eh by (unfold have_body; by rewrite Eb, Es).
  wp_step. apply wp_get. wp_step. apply wp_lift. rewrite (proj2 (node_ok (cm_index m) i n) Hn).
  destruct (n_pow_ok n) eqn:Hp; cbn [negb orb]; [|apply wp_fail; split; [done|]; split; [done|]; split; [done|by left]].
  destruct (n_invalid n) eqn:Hv; [apply wp_fail; split; [done|]; split; [done|]; split; [done|by left]|].
  destruct (have_body m hash) eqn:Hh; [apply wp_fail; split; [done|]; split; [done|]; split; [done|right; left; by rewrite <-Eh]|].
  destruct (Z.ltb_spec MAX_BLOCK_BYTES (Zlen body + HEADER_BYTES)); [apply wp_fail; split; [done|]; split; [done|]; split; [done|right; right; eauto]|].
  wp_step. apply wp_put. unfold update_index. wp_steps.
  destruct (have_body_ok states m i n O Hn) as (ix' & n' & H1 & O' & Hn' & Hh' & Hv' & Hp' & Hc' & HT & HR). cbn [cm_index set_bodies]. rewrite H1. wp_steps. split; [|split].
  - apply (bodies_ok states (set_index m ix')); [|done]. cbn. intros h x Hx. apply lookup_insert_Some in Hx as [[_ <-]|[_ Hx]]; [done|by apply (mo_bodies _ _ _ _ O) in Hx].
  - destruct T as [T1 T2 T3 T4 (mid & T5 & T6 & T7)]. constructor; cbn; try done; [by rewrite Hc'|]. exists mid. split; [done|]. split; [by etransitivity|auto].
  - constructor; cbn; [|by rewrite Eb|by rewrite <-Eh|done|done].
    exists i, n'. split_and!; [|done|by rewrite Hv'|by rewrite Hp'].
    apply (wf_hash _ (mo_index _ _ _ _ O')). exists n'. split; [done|]. apply (wf_hash _ (mo_index _ _ _ _ O)) in Hi as (y & Hy & <-). rewrite Hn in Hy. by injection Hy as <-.
Qed.

Lemma submit_block_spec states m hash body : manager_ok params inv states m -> cm_halted m = None -> body_room m -> bytes_ok body ->
  wp (submit_block hash body) (submitted states m hash body) m.
Proof.
  intros O Hh R Hb. unfold submit_block, not_halted. wp_step. wp_step. apply wp_get. rewrite Hh. apply wp_ret. wp_step. apply wp_get.
  wp_step. destruct (index_of (cm_index m) hash) as [i|] eqn:Ei.
  - apply wp_ret. pose proof Ei as Hi. apply (wf_hash _ (mo_index _ _ _ _ O)) in Hi as (n & Hn & _). by apply (keep_body_spec states m m hash body i n); [..|apply touched_refl].
  - wp_step. apply (readmit_spec states m hash _ O R Ei).
    + intros m' c -> O'. apply wp_lift. split; [done|]. split; [|split; [done|by left]]. destruct (touched_refl m). by constructor.
    + intros m' i n O' Hi Hn Eb Es T. apply wp_lift. by apply (keep_body_spec states m m' hash body i n).
Qed.

(** ** Starting up

    What the node relies on when it starts: the store holds a history, a sound header for
    every height up to its tip, and sound side headers, no more than asked for. *)
Record bootable (states : Z -> Address -> Account) (w : W) (tip : Z) : Prop := {
  bt_pool : params_ok (mempool params);
  bt_gap : 0 <= max_nonce_gap (mempool params) < 2 ^ 63;
  bt_inv : inv w;
  bt_tip : tip_height (st_tip (io_store w)) = tip /\ 0 <= tip;
  bt_size : 0 <= max_side_headers params /\ tip + 1 + max_side_headers params <= NO_PARENT;
  bt_history : holds_history (io_store w) params states tip;
  bt_range : forall h, 0 <= h <= tip -> in_range (MAX_TXS_PER_BLOCK * (h + 1)) (states h);
  bt_headers : forall h, 0 <= h <= tip -> exists rec, st_header_at (io_store w) h = Some rec /\ rec_sound rec /\ hr_height rec = h /\
    st_header_by_hash (io_store w) (hr_hash rec) = Some rec;
  bt_linked : forall h rec rec', 0 <= h < tip -> st_header_at (io_store w) h = Some rec -> st_header_at (io_store w) (h + 1) = Some rec' ->
    hr_prev_hash rec' = hr_hash rec;
  bt_rows : Forall (fun rec => rec_sound rec /\ forall r, st_header_by_hash (io_store w) (hr_hash rec) = Some r -> hr_height r = hr_height rec)
    (io_side_headers_from w 0 (max_side_headers params));
  bt_count : Zlen (io_side_headers_from w 0 (max_side_headers params)) <= max_side_headers params;
  bt_genesis : forall l, exists l', ledger_step (io_store w) l 0 = Ok l';
}.

Section Start.
Context (states : Z -> Address -> Account) (w : W) (top : Z) (B : bootable states w top) (observer : bool).
Context (Hlimit : target_ok limit).
Abbreviation empty := (ChainManager_empty w params observer).

(** The manager while the chain is loaded: headers 0 to [h] are its nodes 0 to [h]. *)
Record loading (h : Z) (m : Manager) : Prop := {
  ld_fields : exists t c ix, m = set_index (set_memo (set_genesis_time empty t) c) ix;
  ld_index : index_wf (cm_index m);
  ld_work : work_wf limit (nodes m);
  ld_memo : cache_ok limit (cm_memo m) /\ counters (cm_memo m) <= h + 1;
  ld_len : Zlen (nodes m) = h + 1;
  ld_nodes : forall i, 0 <= i <= h -> exists rec n, st_header_at (io_store w) i = Some rec /\ zlookup (nodes m) i = Some n /\
    n_hash n = hr_hash rec /\ n_height n = i /\ (0 < i -> n_prev n = i - 1);
  ld_sourced : sourced (cm_index m);
}.
Lemma loading_linkable h m : loading h m -> linkable m.
Proof. intros [(t & c & ix & ->) H1 H2 H3 _ _ _]. constructor; cbn in *; try done. apply H3. Qed.
Lemma loading_world h m : loading h m -> cm_world m = w.
Proof. by intros [(t & c & ix & ->) _ _ _ _ _ _]. Qed.

Lemma stored_header h rec : 0 <= h <= top -> st_header_at (io_store w) h = Some rec ->
  rec_sound rec /\ hr_height rec = h /\ st_header_by_hash (io_store w) (hr_hash rec) = Some rec.
Proof. intros Hh Hr. destruct (bt_headers _ _ _ B h Hh) as (r & H1 & H2). rewrite Hr in H1. by injection H1 as <-. Qed.
Lemma stored_distinct h k r r' : 0 <= h <= top -> 0 <= k <= top -> st_header_at (io_store w) h = Some r -> st_header_at (io_store w) k = Some r' ->
  hr_hash r = hr_hash r' -> h = k.
Proof.
  intros Hh Hk Hr Hr' E. destruct (stored_header h r Hh Hr) as (_ & <- & H1). destruct (stored_header k r' Hk Hr') as (_ & <- & H2). rewrite E in H1. congruence.
Qed.

Lemma load_step h m m1 rec ix' c ix2 : loading h m -> 0 <= h < top -> st_header_at (io_store w) (h + 1) = Some rec ->
  cache_ok limit c -> counters c <= h + 2 -> grown limit (cm_index m) ix' rec ->
  (exists n, zlookup (ix_nodes ix') (h + 1) = Some n /\ n_prev n = h) ->
  index_wf ix2 -> same_tree (ix_nodes ix') (ix_nodes ix2) -> (forall adm, ix_reach adm ix' -> ix_reach adm ix2) -> m1 = set_index (set_memo m c) ix2 -> loading (h + 1) m1.
Proof.
  intros K Hh Hr Hc Hcn G (n1 & Hn1 & Hp1) W2 T2 Hreach ->. pose proof G as [G1 G2 G3 (n & G4 & G5 & G6) _ _]. pose proof (ld_len _ _ K) as Hlen. constructor; cbn.
  - destruct (ld_fields _ _ K) as (t & c0 & ix0 & ->). by exists t, c, ix2.
  - done.
  - by eapply work_wf_proper.
  - split; [done|lia].
  - rewrite <-(same_tree_Zlen _ _ T2), G4, Zlen_app. change (Zlen [n]) with 1. lia.
  - intros i Hi. destruct (Z.eq_dec i (h + 1)) as [->|Hne].
    + destruct (same_tree_lookup _ _ _ _ T2 Hn1) as (n2 & Hn2 & Hsk). exists rec, n2. rewrite G4, <-Hlen, zlookup_snoc in Hn1. injection Hn1 as <-.
      destruct (stored_header (h + 1) rec ltac:(lia) Hr) as (_ & Hht & _). injection Hsk as E1 E2 E3 _ _ _.
      split; [done|]. split; [done|]. split; [congruence|]. split; [congruence|]. intros _. rewrite E2, Hp1. lia.
    + destruct (ld_nodes _ _ K i ltac:(lia)) as (r & x & H1 & H2 & H3 & H4 & H5).
      assert (zlookup (ix_nodes ix') i = Some x) as Hx by (rewrite G4; by apply zlookup_snoc_keep).
      destruct (same_tree_lookup _ _ _ _ T2 Hx) as (x2 & Hx2 & Hsk). injection Hsk as E1 E2 E3 _ _ _. exists r, x2. split_and!; congruence || (intros; rewrite E2; auto).
  - apply (sourced_tree ix' ix2); [done|done|]. apply (sourced_grown (cm_index m) ix' rec); [apply K|apply K|done|].
    by apply (stored_header (h + 1) rec ltac:(lia) Hr).
Qed.

Lemma load_chain_spec Q : (forall m', loading top m' -> Q m' (Ok (zrange 0 (top + 1)))) -> (forall m' d, Q m' (Err (BootInvariant d))) ->
  forall n h m cum, n = Z.to_nat (top - h) -> loading h m -> 0 <= h <= top -> (exists nh, zlookup (nodes m) h = Some nh /\ n_cum_work nh = cum) ->
  wp (load_chain (zrange (h + 1) (top + 1)) cum (zrange 0 (h + 1))) Q m.
Proof.
  intros HQ HE. pose proof (bt_size _ _ _ B) as Hsize. change NO_PARENT with (2 ^ 32 - 1) in Hsize. induction n as [|n IH]; intros h m cum Hn K Hh (nh & Hnh & Hcum).
  { assert (h = top) as -> by lia. rewrite (zrange_nil (top + 1)) by lia. cbn [load_chain]. by apply wp_ret, HQ. }
  rewrite (zrange_cons (h + 1)) by lia. cbn [load_chain]. wp_step. apply wp_get. rewrite (loading_world h m K).
  destruct (bt_headers _ _ _ B (h + 1) ltac:(lia)) as (rec & Hrec & Hs & Hht & _). rewrite Hrec. destruct (sound_rec_legal rec Hs) as (Hhash & Hbits & _).
  wp_step. apply wp_memo_work; [apply (loading_linkable h m K)..|done|pose proof (ld_memo _ _ K); lia|]. intros o c Hc Hcn Hd.
  wp_step. apply wp_lift. destruct o as [wk|]; cbn [ok_or]; [|apply HE]. wp_step. apply wp_lift. destruct (Work_checked_add cum wk) as [cum'|] eqn:Ew; cbn [ok_or]; [|apply HE].
  wp_step. apply wp_lift. assert (list.last (zrange 0 (h + 1)) = Some h) as -> by (rewrite zrange_snoc by lia; apply last_snoc). cbn [expect].
  destruct (direct_work_legal limit _ _ Hd) as (t & Ht & Hw).
  assert (index_of (cm_index m) (hr_hash rec) = None) as Hnone.
  { destruct (index_of (cm_index m) (hr_hash rec)) as [i|] eqn:Ei; [|done]. apply (wf_hash _ (ld_index _ _ K)) in Ei as (x & Hx & Hxh).
    pose proof (zlookup_lt _ _ _ Hx) as Hlt. rewrite (ld_len _ _ K) in Hlt. destruct (ld_nodes _ _ K i ltac:(lia)) as (r & y & H1 & H2 & H3 & _).
    rewrite Hx in H2. injection H2 as <-. pose proof (stored_distinct i (h + 1) r rec ltac:(lia) ltac:(lia) H1 Hrec ltac:(congruence)). lia. }
  destruct (ld_nodes _ _ K h ltac:(lia)) as (r0 & x0 & Hr0 & Hx0 & Hxr & Hxh & _). rewrite Hnh in Hx0. injection Hx0 as <-.
  destruct (insert_grows limit (cm_index m) rec h nh cum' Hlimit (ld_index _ _ K) (ld_work _ _ K) Hnone Hnh) as (ix' & Hi & G & n1 & Hn1 & Hp1 & Hcw).
  { lia. } { rewrite (ld_len _ _ K). change NO_PARENT with (2 ^ 32 - 1). lia. }
  { rewrite Hxr. symmetry. apply (bt_linked _ _ _ B h r0 rec); [lia|done|done]. } { split; [done|]. split; [done|]. exists t, wk. by rewrite Hcum. }
  rewrite (ld_len _ _ K) in Hi, Hn1. unfold index_insert. wp_steps. cbn [cm_index set_memo]. rewrite Hi. wp_steps. unfold update_index. wp_steps. cbn [cm_index set_index set_memo].
  destruct (set_have_body_tree ix' (h + 1) n1 (gr_wf _ _ _ _ G) Hn1) as (ix2 & Hbody & W2 & T2 & _). rewrite Hbody. wp_steps.
  rewrite <-zrange_snoc by lia. destruct (same_tree_lookup _ _ _ _ T2 Hn1) as (n2 & Hn2 & Hsk).
  apply IH; [lia| |lia|].
  - eapply (load_step h m _ rec ix' c ix2); [done|lia|done|done| |done|by exists n1|done|done|intros adm Ha; by eapply reach_body|reflexivity]. pose proof (ld_memo _ _ K); lia.
  - cbn. exists n2. split; [done|]. by injection Hsk as _ _ _ _ _ ->.
Qed.

(** The loaded chain made canonical. *)
Lemma loaded_path m : loading top m -> chain_path (nodes m) (zrange 0 (top + 1)).
Proof.
  intros K. destruct (bt_tip _ _ _ B) as [_ Ht].
  assert (forall i x, zlookup (zrange 0 (top + 1)) i = Some x -> x = i /\ 0 <= i <= top) as Hz.
  { intros i x Hx. pose proof (zlookup_lt _ _ _ Hx) as Hl. rewrite Zlen_zrange in Hl by lia. split; [|lia]. unfold zlookup, zrange in Hx.
    destruct (Z.leb_spec 0 i); [|lia]. rewrite list_lookup_fmap, lookup_seq_lt in Hx by lia. cbn in Hx. injection Hx as <-. lia. }
  assert (forall i, 0 <= i <= top -> zlookup (zrange 0 (top + 1)) i = Some i) as Hz2.
  { intros i Hi. destruct (zlookup_is_Some (zrange 0 (top + 1)) i) as [x Hx]; [rewrite Zlen_zrange; lia|]. rewrite Hx. by destruct (Hz i x Hx) as [-> _]. }
  split; [apply Hz2; lia|]. intros h i Hh Hi. apply Hz in Hi as [-> Hr]. destruct (ld_nodes _ _ K h ltac:(lia)) as (r & n & _ & Hn & _ & _ & Hp).
  exists n. split; [done|]. rewrite Hp by lia. apply Hz2. lia.
Qed.

Lemma loaded_sourced m ix' : loading top m -> set_canonical (E := Reject) (cm_index m) (zrange 0 (top + 1)) = Ok ix' ->
  same_tree (nodes m) (ix_nodes ix') -> sourced ix'.
Proof.
  intros K Hset T. destruct (bt_tip _ _ _ B) as [_ Ht]. destruct (ld_nodes _ _ K top ltac:(lia)) as (rec & n & _ & Hn & _).
  destruct (ancestry_spec (E := Reject) (cm_index m) (wf_arena _ (ld_index _ _ K)) top n Hn) as (c & Hc & Hp & Hlast).
  assert (c = zrange 0 (top + 1)) as ->.
  { apply (path_unique _ (wf_arena _ (ld_index _ _ K)) _ _ top); [done|by apply loaded_path|done|]. rewrite zrange_snoc by lia. apply last_snoc. }
  apply (sourced_tree (cm_index m) ix'); [done| |apply (ld_sourced _ _ K)]. intros adm Ha. by eapply reach_adopt.
Qed.

Lemma loaded_ok m ix' : loading top m -> index_wf ix' -> ix_canonical ix' = zrange 0 (top + 1) -> same_tree (nodes m) (ix_nodes ix') ->
  manager_ok params inv states (set_index m ix').
Proof.
  intros K Wf Hc T. destruct (bt_tip _ _ _ B) as [Htip Ht0]. assert (same_tree (ix_nodes ix') (nodes m)) as T' by by symmetry.
  assert (Zlen (zrange 0 (top + 1)) - 1 = top) as Hlen by (rewrite Zlen_zrange; lia). pose proof (work_wf_proper limit _ _ T (ld_work _ _ K)) as Wk. pose proof (ld_memo _ _ K) as [Hm _].
  assert (Zlen (ix_nodes ix') = top + 1) as Hsz by (rewrite <-(same_tree_Zlen _ _ T); apply (ld_len _ _ K)).
  assert (forall i n, zlookup (ix_nodes ix') i = Some n -> exists rec, st_header_at (io_store w) i = Some rec /\ rec_sound rec /\ n_hash n = hr_hash rec /\ n_height n = hr_height rec /\
    st_header_by_hash (io_store w) (hr_hash rec) = Some rec) as Hnode.
  { intros i n Hn. destruct (same_tree_lookup _ _ _ _ T' Hn) as (n0 & Hn0 & Hsk). injection Hsk as E1 _ E3 _ _ _. pose proof (zlookup_lt _ _ _ Hn0) as Hl. rewrite (ld_len _ _ K) in Hl.
    destruct (ld_nodes _ _ K i ltac:(lia)) as (rec & x & H1 & H2 & H3 & H4 & _). rewrite Hn0 in H2. injection H2 as <-. exists rec.
    destruct (stored_header i rec ltac:(lia) H1) as (Hs & Hht & Hbh). split_and!; [done|done|congruence|congruence|done]. }
  destruct (ld_fields _ _ K) as (t & c & ix & ->). constructor; cbn in *; rewrite ?Hc, ?Hlen; try done; try apply B.
  - intros h i n. cbn. rewrite Hc. intros Hi Hn. destruct (Hnode i n Hn) as (rec & H1 & H2 & H3 & H4 & _). exists rec.
    assert (h = i) as ->.
    { destruct (path_node _ (wf_arena _ Wf) _ _ _ (eq_ind_r (chain_path (ix_nodes ix')) (wf_canon _ Wf) (eq_sym Hc)) Hi) as (y & Hy & Hyh). rewrite Hn in Hy. injection Hy as <-.
      pose proof (zlookup_lt _ _ _ Hn) as Hl. rewrite Hsz in Hl. destruct (stored_header i rec ltac:(lia) H1) as (_ & Hx & _). congruence. }
    split; [done|]. split; [done|]. by apply sound_raw.
  - intros i n Hn. cbn in *. split; [intros raw Hr; by rewrite lookup_empty in Hr|]. intros r Hr.
    destruct (Hnode i n Hn) as (rec & _ & H2 & H3 & H4 & H5). rewrite H3, H5 in Hr. injection Hr as <-. by apply sound_raw.
  - apply pool_ok_new, B.
  - constructor.
Qed.

Definition started (m : Manager) (r : outcome Reject unit) : Prop :=
  match r with
  | Ok _ => manager_ok params inv states m /\ sourced (cm_index m) /\ (cm_ingest m = Ingest_new params /\ cm_cps m = Checkpoints_new) /\ cm_halted m = None /\ cm_world m = w /\ Zlen (ix_canonical (cm_index m)) = top + 1 /\
      cm_pool m = Mempool_new (mempool params) /\ cm_bodies m = ∅
  | Err e => exists d, e = BootInvariant d
  | Panic => False
  end.

Record rebuilding (count : Z) (m : Manager) : Prop := {
  rb_ok : manager_ok params inv states m;
  rb_len : Zlen (nodes m) <= top + 1 + count;
  rb_memo : counters (cm_memo m) <= top + 1 + count;
  rb_sourced : sourced (cm_index m);
  rb_ingest : (cm_ingest m = Ingest_new params /\ cm_cps m = Checkpoints_new);
  rb_rest : cm_halted m = None /\ cm_world m = w /\ Zlen (ix_canonical (cm_index m)) = top + 1 /\ cm_pool m = Mempool_new (mempool params) /\ cm_bodies m = ∅;
}.
Lemma rebuild_rows_spec Q rows : Forall (fun rec => rec_sound rec /\ forall r, st_header_by_hash (io_store w) (hr_hash rec) = Some r -> hr_height r = hr_height rec) rows ->
  forall m count restored, rebuilding count m -> count + Zlen rows <= max_side_headers params -> 0 <= count ->
  (forall m' n, rebuilding (count + Zlen rows) m' -> Q m' (Ok n)) ->
  wp (rebuild_rows (max_side_headers params) rows restored) Q m.
Proof.
  pose proof (bt_size _ _ _ B) as Hsize. change NO_PARENT with (2 ^ 32 - 1) in Hsize. destruct (bt_tip _ _ _ B) as [_ Htop].
  induction 1 as [|rec rows [Hs Hst] _ IH]; intros m count restored K Hcap H0 HQ; cbn [rebuild_rows].
  { apply wp_ret, HQ. change (Zlen []) with 0. by rewrite Z.add_0_r. }
  rewrite Zlen_cons in Hcap, HQ. pose proof (Zlen_nonneg rows) as Hrows.
  assert (forall k m', rebuilding k m' -> k <= count + (1 + Zlen rows) -> rebuilding (count + (1 + Zlen rows)) m') as Hmono.
  { intros k m' [R1 R2 R3 R4 R5 R6] Hk. constructor; try done; lia. }
  destruct (_ <=? restored); [apply wp_ret, HQ; apply (Hmono count); [done|lia]|]. wp_step. apply wp_get.
  assert (forall m' k, k <= count + 1 -> rebuilding k m' -> 0 <= k -> forall r, wp (rebuild_rows (max_side_headers params) rows r) Q m') as Hgo.
  { intros m' k Hk K' Hk0 r. apply (IH m' k r K'); [lia|lia|]. intros m2 n2 K2. apply HQ. eapply Hmono; [exact K2|lia]. }
  unfold ix_contains. case_bool_decide as Ei; [by apply (Hgo m count); [lia|done|lia]|]. apply eq_None_not_Some in Ei. change (index_of (cm_index m) (hr_hash rec) = None) in Ei.
  wp_step. destruct K as [R1 R2 R3 Rs Ri (R4 & R5 & R6 & R7 & R8)]. apply wp_attach; [by apply (manager_linkable states)|done|done|change NO_PARENT with (2 ^ 32 - 1); lia|lia| |].
  - intros c Hc Hcn. apply (Hgo _ (count + 1)); [lia| |lia]. constructor; cbn; [by apply memo_ok|lia|lia|done|done|done].
  - intros c ix' Hc Hcn G. apply (Hgo _ (count + 1)); [lia| |lia]. destruct (gr_nodes _ _ _ _ G) as (n & Hn & _). constructor; cbn; [|rewrite Hn, Zlen_app; change (Zlen [n]) with 1; lia|lia|by apply (sourced_grown (cm_index m) ix' rec); [apply (mo_index _ _ _ _ R1)|..]|done|].
    + apply (grown_ok states (set_memo m c) ix' rec); [by apply memo_ok|done|done|]. cbn. rewrite R5. intros r Hr.
      destruct (so_by_hash _ (io_store_ok _ (bt_inv _ _ _ B)) _ _ Hr). split; [done|]. split; [done|]. by apply Hst.
    + by rewrite (gr_canonical _ _ _ _ G).
Qed.

Lemma wp_rebuild_side_arena Q m : rebuilding 0 m -> (forall m' n, rebuilding (max_side_headers params) m' -> Q m' (Ok n)) -> wp rebuild_side_arena Q m.
Proof.
  intros K HQ. unfold rebuild_side_arena. wp_step. apply wp_get. destruct (rb_rest _ _ K) as (_ & Hw & _). rewrite (mo_params _ _ _ _ (rb_ok _ _ K)), Hw.
  wp_step. apply (rebuild_rows_spec _ _ (bt_rows _ _ _ B) m 0 0 K); [apply (bt_count _ _ _ B)|lia|]. intros m1 n K1.
  unfold bump_stats. wp_steps. apply HQ. pose proof (bt_count _ _ _ B). destruct K1 as [R1 R2 R3 Rs Ri R4]. constructor; cbn in *; [by destruct R1; constructor|lia|lia|done..].
Qed.

Lemma load_from_store_spec : wp load_from_store started empty.
Proof.
  pose proof (bt_size _ _ _ B) as Hsize. change NO_PARENT with (2 ^ 32 - 1) in Hsize. destruct (bt_tip _ _ _ B) as [Htip Htop].
  unfold load_from_store. wp_step. apply wp_get. cbn [cm_world ChainManager_empty]. wp_step. apply wp_lift.
  destruct (bt_headers _ _ _ B 0 ltac:(lia)) as (g & Hg & Hs & Hht & Hbh). rewrite Hg. cbn [ok_or]. destruct (sound_rec_legal g Hs) as (Hhash & Hbits & _).
  wp_step. apply wp_put. set (m0 := set_genesis_time empty (hr_time g)). wp_step.
  assert (forall c, cache_ok limit c -> forall o, direct_work (E := Reject) (hr_bits g) limit = Ok o -> counters c <= 1 ->
    wp (let! gw := mlift (ok_or o (BootInvariant "genesis bits are not a legal target")) in
        update_index (fun ix => let? r := insert_genesis ix g gw in Ok (snd r)) ;!
        let! chain := load_chain (zrange 1 (top + 1)) gw [0] in
        update_index (fun ix => set_canonical ix chain) ;!
        rebuild_side_arena ;!
        let! m := mget in
        let! height := mlift (ix_tip_height (cm_index m)) in
        let! ledger := mlift (build_ledger (store m) height) in
        mput (fun m => set_tip_ledger m ledger)) started (set_memo m0 c)) as Hrest.
  { intros c Hc o Hd Hcn. wp_step. apply wp_lift. destruct o as [gw|]; cbn [ok_or]; [|by eexists].
    destruct (direct_work_legal limit _ _ Hd) as (t & Ht & Hw).
    destruct (insert_genesis_wf (E := Reject) g gw Hht) as (ix & Hi & Wf). unfold update_index at 1. wp_steps. cbn [cm_index set_memo m0 set_genesis_time ChainManager_empty].
    rewrite Hi. cbn [obind snd]. wp_steps.
    assert (arena_reach limit ix) as Hreach.
    { eapply reach_genesis; [exact Hht| |exact Hi]. split; [done|]. split; [done|]. by exists t, gw. }
    pose proof (arena_reach_work limit Hlimit ix Hreach) as Wk. pose proof Hi as Hix. unfold insert_genesis in Hix. cbn in Hix. injection Hix as Hix.
    change [0] with (zrange 0 (0 + 1)). change (zrange 1 (top + 1)) with (zrange (0 + 1) (top + 1)).
    apply (fun Q H1 H2 => load_chain_spec Q H1 H2 (Z.to_nat (top - 0)) 0 _ gw eq_refl); [| | |lia|].
    - intros m1 K1. unfold update_index. wp_steps. destruct (set_canonical_wf (E := Reject) _ _ (ld_index _ _ K1) (loaded_path m1 K1)) as (ix' & Hset & Wf' & Hcan & T). rewrite Hset.
      wp_steps. pose proof (loaded_ok m1 ix' K1 Wf' Hcan T) as O1. apply wp_rebuild_side_arena.
      + constructor; [done|cbn; rewrite <-(same_tree_Zlen _ _ T), (ld_len _ _ K1); lia|cbn; pose proof (ld_memo _ _ K1); lia|by apply (loaded_sourced m1)|by destruct (ld_fields _ _ K1) as (t1 & c1 & ix1 & ->)|].
        destruct (ld_fields _ _ K1) as (t1 & c1 & ix1 & ->). cbn. split_and!; try done. rewrite Hcan, Zlen_zrange; lia.
      + intros m2 n [R1 R2 R3 Rs Ri (R4 & R5 & R6 & R7 & R8)]. wp_steps. destruct (tip_exists (E := Reject) _ (mo_index _ _ _ _ R1)) as (t0 & n0 & _ & _ & -> & _ & _ & Hlen & _). wp_steps.
        destruct (manager_ledger params inv states m2 (n_height n0) R1) as (ledger & -> & Hcr); [lia|]. wp_steps. split; [|done]. by destruct R1; constructor.
    - intros m1 d. by eexists.
    - constructor; cbn.
      + by exists (hr_time g), c, ix.
      + done.
      + done.
      + done.
      + by rewrite <-Hix.
      + intros i Hi0. assert (i = 0) as -> by lia. rewrite <-Hix. cbn. eexists g, _. split; [done|]. split; [reflexivity|]. cbn. split_and!; [done|done|lia].
      + split.
        * eapply reach_genesis; [exact Hht| |exact Hi]. split; [|by intros []]. split; [done|]. split; [done|]. by exists t, gw.
        * intros i n Hn. rewrite <-Hix in *. cbn in *. pose proof (zlookup_lt _ _ _ Hn) as Hl. change (Zlen [_]) with 1 in Hl. assert (i = 0) as -> by lia.
          rewrite zlookup_cons_0 in Hn. injection Hn as <-. exists g. cbn. split_and!; try done. split; [done|]. split; [done|]. by exists t, gw.
    - rewrite <-Hix. cbn. eexists. split; [reflexivity|done]. }
  rewrite Htip. apply wp_memo_work; [done|done|apply cache_new_ok|done|change (counters _) with 0; lia|].
  intros o c Hc Hcn Hd. apply Hrest; [done|done|]. change (counters (cm_memo m0)) with 0 in Hcn. lia.
Qed.
End Start.

(** *** [ChainManager::new] *)
Lemma boot_limit : profile_is_consistent (E := Reject) params = Ok true -> target_ok limit.
Proof.
  unfold profile_is_consistent. destruct (profile params).
  - intros H. apply Ok_inj, bool_decide_eq_true in H as ->. split; [done|]. unfold default_pow_limit. repeat (constructor; [unfold limb_ok; lia|]). constructor.
  - assert (exists l, regtest_pow_limit (E := Reject) = Ok l /\ target_ok l) as (l & -> & Hl).
    { eexists. split; [vm_compute; reflexivity|]. split; [done|]. repeat (constructor; [unfold limb_ok; lia|]). constructor. }
    intros H. apply Ok_inj, bool_decide_eq_true in H as ->. done.
Qed.
Lemma boot_checks_spec : match boot_checks params with
  | Ok _ => profile_is_consistent (E := Reject) params = Ok true
  | Err e => exists d, e = BootInvariant d
  | Panic => False
  end.
Proof.
  unfold boot_checks. cbn -[profile_is_consistent].
  assert (exists b, profile_is_consistent (E := Reject) params = Ok b) as [b Hb].
  { unfold profile_is_consistent. destruct (profile params); [eauto|].
    assert (exists l, regtest_pow_limit (E := Reject) = Ok l) as (l & ->) by (eexists; vm_compute; reflexivity). eauto. }
  rewrite Hb. cbn [obind]. destruct b; cbn [negb]; [|eauto]. repeat (match goal with |- context [if ?c then _ else _] => destruct c end; cbn; eauto).
Qed.

Lemma boot_spec states w top observer : bootable states w top ->
  match ChainManager_new w params observer with
  | Ok m => manager_ok params inv states m /\ sourced (cm_index m) /\ (cm_ingest m = Ingest_new params /\ cm_cps m = Checkpoints_new) /\ cm_halted m = None /\ cm_world m = w /\ Zlen (ix_canonical (cm_index m)) = top + 1 /\
      cm_pool m = Mempool_new (mempool params) /\ cm_bodies m = ∅
  | Err e => exists d, e = BootInvariant d
  | Panic => False
  end.
Proof.
  intros B. unfold ChainManager_new. pose proof boot_checks_spec as Hc. destruct (boot_checks params) as [[]|e|]; [|done..]. cbn [obind].
  pose proof (load_from_store_spec states w top B observer (boot_limit Hc)) as Hl. unfold wp in Hl.
  destruct (load_from_store _) as [m [u|e|]]; cbn in *; done.
Qed.
End Boot.
