(* ===== verification/ManagerRun.v ===== *)
(** The manager in operation: every event the node feeds it (header batches, bodies,
    transactions, checkpoints, departing peers, [advance]) keeps it in order. The
    invariant joins the manager's own ([manager_ok]) with that of header ingest
    ([ing_inv]); runs are sequences of events. *)

From Stdlib Require Import ZArith Lia List String Sorted.
From stdpp Require Import base list gmap numbers.
From S2P Require Import Prelude Constants Limbs Asert Work Rules Checkpoint Blake3 Codec Crypto TxRules ChainTypes State Body BodyEquiv ChainWork Index ForkChoice CheckpointStore Reorg History Budget Ingest IngestInv Mempool MempoolInv TxIngress Manager ManagerInv ManagerBoot.
Open Scope Z_scope.

Lemma forall_or {A} (Q : Prop) (P : A -> Prop) l : (forall x, x ∈ l -> Q \/ P x) -> Q \/ Forall P l.
Proof.
  induction l as [|x l IH]; intros H; [by right; constructor|]. destruct (H x (list_elem_of_here _ _)) as [?|Hx]; [by left|].
  destruct IH as [?|Hl]; [intros y Hy; apply H; by right|by left|right; by constructor].
Qed.

(** ** Headers known to the ingest *)
Section Known.
Context (params : ChainParams).
Abbreviation limit := (pow_limit params).

(** A record for every node, collected in a table by hash. *)
Lemma table_of_nodes (P : Node -> HeaderRec -> Prop) (ns : list Node) : NoDup (n_hash <$> ns) -> (forall n, n ∈ ns -> exists rec, P n rec) ->
  exists K : Known, (forall n, n ∈ ns -> exists rec, K !! n_hash n = Some (rec, n_cum_work n) /\ P n rec) /\
    (forall h rec cum, K !! h = Some (rec, cum) -> exists n, n ∈ ns /\ n_hash n = h /\ n_cum_work n = cum /\ P n rec).
Proof.
  induction ns as [|n ns IH]; intros Hn HP.
  - exists ∅. split; [by intros n ?%not_elem_of_nil|]. intros h rec cum Hx. by rewrite lookup_empty in Hx.
  - cbn in Hn. apply list.NoDup_cons in Hn as [Hn1 Hn2]. destruct IH as (K & K1 & K2); [done|intros x Hx; apply HP; by right|].
    destruct (HP n (list_elem_of_here _ _)) as [rec Hrec]. exists (<[n_hash n := (rec, n_cum_work n)]> K). split.
    + intros x Hx. apply elem_of_cons in Hx as [->|Hx]; [exists rec; by rewrite lookup_insert_eq|].
      destruct (K1 x Hx) as (r & H1 & H2). exists r. rewrite lookup_insert_ne; [done|]. intros E. apply Hn1. rewrite E. by apply list_elem_of_fmap_2.
    + intros h r cum Hl. apply lookup_insert_Some in Hl as [[<- [= <- <-]]|[_ Hl]]; [exists n; split; [apply list_elem_of_here|done]|].
      destruct (K2 h r cum Hl) as (x & Hx & H1). exists x. split; [by right|done].
Qed.

Lemma index_nodup ix : index_wf ix -> NoDup (n_hash <$> ix_nodes ix).
Proof.
  intros W. apply NoDup_alt. intros a b h Ha Hb. rewrite list_lookup_fmap in Ha, Hb.
  destruct (ix_nodes ix !! a) as [na|] eqn:Ea; [|done]. destruct (ix_nodes ix !! b) as [nb|] eqn:Eb; [|done]. injection Ha as <-. injection Hb as Hb.
  assert (Z.of_nat a = Z.of_nat b) as Hz; [|lia].
  apply (index_hash_inj ix _ _ na nb W); [| |done]; unfold zlookup; destruct (Z.leb_spec 0 (Z.of_nat a)), (Z.leb_spec 0 (Z.of_nat b)); try lia; by rewrite Nat2Z.id.
Qed.

Lemma core_of_sourced {W} `{IO : ChainIO W} ix n0 : sourced params ix -> zlookup (ix_nodes ix) 0 = Some n0 ->
  exists K, core_ok params verified (n_hash n0) K ix.
Proof.
  intros [Hr Hn] H0. pose proof (ix_reach_wf_lemma _ _ Hr) as Wf. pose proof (wf_arena _ Wf) as A.
  assert (forall i n p, zlookup (ix_nodes ix) i = Some n -> zlookup (ix_nodes ix) (n_prev n) = Some p -> n_height n = n_height p + 1) as Hheight.
  { intros i n p Hi Hp. destruct (prev_in_range _ A i n Hi) as (_ & q & _ & Hq & Hqh); [|congruence].
    intros E. rewrite E in Hp. apply zlookup_lt in Hp. pose proof (aw_size _ A). lia. }
  assert (forall i n, zlookup (ix_nodes ix) i = Some n -> n_hash n <> n_hash n0 -> exists p, zlookup (ix_nodes ix) (n_prev n) = Some p) as Hpar.
  { intros i n Hi Hne. destruct (Z.eq_dec i 0) as [->|Hi0]; [congruence|]. pose proof (zlookup_lt _ _ _ Hi).
    destruct (aw_parent _ A i n ltac:(lia) Hi) as (p & _ & Hp & _). eauto. }
  destruct (table_of_nodes (fun n rec => rec_sound rec /\ n_hash n = hr_hash rec /\ n_height n = hr_height rec /\
    n_time n = hr_time rec /\ n_bits n = hr_bits rec /\ legal_header limit (zlookup (ix_nodes ix) (n_prev n)) rec (n_cum_work n) /\
    (forall p, zlookup (ix_nodes ix) (n_prev n) = Some p -> n_hash p = hr_prev_hash rec)) (ix_nodes ix) (index_nodup ix Wf)) as (K & K1 & K2).
  { intros n Hin. apply zlookup_elem in Hin as [i Hi]. apply (Hn i n Hi). }
  assert (forall h rec cum, K !! h = Some (rec, cum) -> exists i n, zlookup (ix_nodes ix) i = Some n /\ n_hash n = h /\ n_cum_work n = cum /\ n_height n = hr_height rec /\
    rec_sound rec /\ n_hash n = hr_hash rec /\ legal_header limit (zlookup (ix_nodes ix) (n_prev n)) rec cum /\ (forall p, zlookup (ix_nodes ix) (n_prev n) = Some p -> n_hash p = hr_prev_hash rec)) as K3.
  { intros h rec cum Hk. destruct (K2 h rec cum Hk) as (n & Hin & <- & <- & P1 & P2 & P3 & _ & _ & P4 & P5). apply zlookup_elem in Hin as [i Hi]. exists i, n. split_and!; done. }
  exists K. constructor; [|done|by exists n0|].
  - constructor; intros h rec cum Hk; destruct (K3 h rec cum Hk) as (i & n & Hi & <- & <- & Hht & (S1 & S2 & S3 & _) & Hh & Hleg & Hlink).
    + split; [done|]. rewrite Hh. apply Hleg.
    + intros _. split; [|done]. rewrite Hh. unfold HeaderRec_from_raw in S3. destruct (Header_decode (hr_raw rec)); [|done..]. cbn in S3. apply Ok_inj in S3. by rewrite <-S3 at 1.
    + intros Hne. destruct (Hpar i n Hi Hne) as [p Hp]. rewrite Hp in Hleg. destruct (K1 p ltac:(apply zlookup_elem; eauto)) as (prec & Hpk & _ & Hph & Hpht & _).
      exists prec, (n_cum_work p). rewrite <-(Hlink p Hp). split; [done|]. destruct Hleg as (_ & Hb & t & w & H1 & H2 & H3). split; [|split; [done|by exists t, w]].
      rewrite <-Hht, <-Hpht, (Hheight i n p Hi Hp). pose proof (arena_height _ A _ _ Hp). apply zlookup_lt in Hp. pose proof (aw_size _ A) as Hs.
      change NO_PARENT with (2 ^ 32 - 1) in Hs. unfold saturating_add, umax. lia.
    + rewrite <-Hht. apply (arena_height _ A _ _ Hi).
  - intros i n Hi. destruct (K1 n ltac:(apply zlookup_elem; eauto)) as (rec & Hk & _ & _ & H1 & H2 & H3 & _ & H4). exists rec. do 4 (split; [done|]).
    intros Hne. destruct (prev_in_range _ A i n Hi Hne) as (_ & p & _ & Hp & _). exists p. split; [done|by apply H4].
Qed.

(** *** The ingest's invariant when the index changes under it *)
Context {W : Type} `{IO : ChainIO W} (g : Hash32).
Lemma ing_tree K ig ix ix' : index_wf ix -> index_wf ix' -> same_tree (ix_nodes ix) (ix_nodes ix') -> (forall adm, ix_reach adm ix -> ix_reach adm ix') ->
  ing_inv params verified g K ig ix -> ing_inv params verified g K ig ix'.
Proof.
  intros Wx Wx' T Hr [[C1 C2 (n0 & C3 & C3') C4] H2 H3 H4]. assert (same_tree (ix_nodes ix') (ix_nodes ix)) as T' by by symmetry.
  constructor; [constructor; [done|auto| |]| |done|done].
  - destruct (same_tree_lookup _ _ _ _ T C3) as (n1 & Hn1 & Hsk). exists n1. split; [done|]. injection Hsk as -> _ _ _ _ _. done.
  - intros i n Hn. destruct (same_tree_lookup _ _ _ _ T' Hn) as (n1 & Hn1 & Hsk). injection Hsk as E1 E2 E3 E4 E5 E6.
    destruct (C4 i n1 Hn1) as (rec & R1 & R2 & R3 & R4 & R5). exists rec. rewrite <-E1, <-E2, <-E3, <-E4, <-E5, <-E6. do 4 (split; [done|]). intros Hne.
    destruct (R5 Hne) as (p & Hp & Hph). destruct (same_tree_lookup _ _ _ _ T Hp) as (p1 & Hp1 & Hsp). injection Hsp as F1 _ _ _ _ _. exists p1. split; [done|congruence].
  - intros x st Hx. eapply stage_ok_grow; [reflexivity| |by eapply H2]. intros h Hh. by apply (same_tree_indexed ix).
Qed.

Lemma core_grown K ix ix' rec : core_ok params verified g K ix -> grown limit ix ix' rec -> rec_sound rec -> index_of ix (hr_hash rec) = None ->
  blake3_collision \/ exists K', K ⊆ K' /\ known limit g K' /\ core_ok params verified g K' ix' /\ ix_grows ix ix'.
Proof.
  intros C G Hs Hnone. pose proof (core_wf _ _ _ _ _ C) as Wx. pose proof (gr_wf _ _ _ _ G) as Wx'. destruct (gr_nodes _ _ _ _ G) as (n & Hn & Hh & Hht).
  destruct (gr_link _ _ _ _ G) as (n' & p & Hn' & Hp & Hph & Ht & Hb & Hleg). rewrite Hn in Hn'. apply app_inj_tail in Hn' as [_ <-].
  assert (zlookup (ix_nodes ix') (Zlen (ix_nodes ix)) = Some n) as Hz by (rewrite Hn; apply zlookup_snoc).
  assert (zlookup (ix_nodes ix') (n_prev n) = Some p) as Hp' by (rewrite Hn; by apply zlookup_snoc_keep).
  assert (n_height n = n_height p + 1) as Hheight.
  { destruct (prev_in_range _ (wf_arena _ Wx') _ n Hz) as (_ & q & _ & Hq & Hqh); [|congruence].
    intros E. rewrite E in Hp. apply zlookup_lt in Hp. pose proof (aw_size _ (wf_arena _ Wx)). lia. }
  destruct C as [C1 C2 (n0 & C3 & C3') C4]. destruct (C4 _ p Hp) as (prec & P1 & P2 & _). rewrite Hph in P1.
  assert (hr_hash rec <> g) as Hng.
  { intros E. assert (index_of ix (hr_hash rec) = Some 0) as Hi by (apply (wf_hash _ Wx); exists n0; split; [done|congruence]). congruence. }
  pose proof Hs as (Hl & Hby & Hr & Hv). assert (hr_hash rec = header_hash (hr_raw rec)) as Hhash.
  { unfold HeaderRec_from_raw in Hr. destruct (Header_decode (hr_raw rec)); [|done..]. cbn in Hr. apply Ok_inj in Hr. by rewrite <-Hr at 1. }
  pose proof (arena_height _ (wf_arena _ Wx) _ _ Hp) as Hpos. pose proof (zlookup_lt _ _ _ Hp) as Hlt. pose proof (aw_size _ (wf_arena _ Wx)) as Hsz. change NO_PARENT with (2 ^ 32 - 1) in Hsz.
  pose proof Hleg as (Hok & Hbits & t & w & Ht1 & Hw1 & Hadd).
  assert (extends limit prec (n_cum_work p) rec (n_cum_work n)) as Hext.
  { split; [|split; [done|by exists t, w]]. rewrite <-Hht, <-P2, Hheight. unfold saturating_add, umax. lia. }
  assert (ix_grows ix ix') as Hgrow.
  { intros h [i Hi]. apply (wf_hash _ Wx) in Hi as (x & Hx & <-). exists i. apply (wf_hash _ Wx'). exists x. split; [|done]. rewrite Hn. by apply zlookup_snoc_keep. }
  assert (forall K', K ⊆ K' -> known limit g K' -> K' !! hr_hash rec = Some (rec, n_cum_work n) -> core_ok params verified g K' ix') as Hcore.
  { intros K' Hsub Hkn Hk. constructor; [done| | |].
    - apply (gr_reach _ _ _ _ G); [|done]. intros q cum Hq. apply sound_verified; [done|lia|done].
    - exists n0. split; [rewrite Hn; by apply zlookup_snoc_keep|done].
    - intros i x Hx. rewrite Hn in Hx. apply zlookup_snoc_inv in Hx as [Hx|[-> ->]].
      + destruct (C4 i x Hx) as (r & R1 & R2 & R3 & R4 & R5). exists r. split; [by eapply lookup_weaken|]. do 3 (split; [done|]). intros Hne.
        destruct (R5 Hne) as (q & Hq & Hqh). exists q. split; [rewrite Hn; by apply zlookup_snoc_keep|done].
      + exists rec. rewrite Hh. split; [done|]. do 3 (split; [done|]). intros _. by exists p. }
  destruct (K !! hr_hash rec) as [[r c]|] eqn:EK.
  - destruct (known_same params g K rec (n_cum_work n) prec (n_cum_work p) w t C1 Hng Hhash Hr P1 Ht1 Hw1 Hadd r c EK) as [[-> ->]|Hcol]; [right|by left].
    exists K. split; [done|]. split; [done|]. split; [by apply Hcore|done].
  - right. destruct (known_insert params g K rec (n_cum_work n) prec (n_cum_work p) C1 EK Hok Hhash Hr Hby ltac:(lia) P1 Hext) as [Hk' Hsub].
    eexists. split; [exact Hsub|]. split; [done|]. split; [|done]. apply Hcore; [done|done|apply lookup_insert_eq].
Qed.

Lemma ing_grown K ig ix ix' rec : ing_inv params verified g K ig ix -> grown limit ix ix' rec -> rec_sound rec -> index_of ix (hr_hash rec) = None ->
  blake3_collision \/ exists K', ing_inv params verified g K' ig ix'.
Proof.
  intros [I1 I2 I3 I4] G Hs Hnone. destruct (core_grown K ix ix' rec I1 G Hs Hnone) as [?|(K' & Hsub & Hkn & Hc & Hg)]; [by left|right].
  exists K'. constructor; [done| |done|done]. intros x st Hx. eapply stage_ok_grow; [exact Hsub|exact Hg|by eapply I2].
Qed.
End Known.

Section Run.
Context `{ED : Ed25519} {W : Type} `{IO : ChainIO W} (params : ChainParams) (inv : W -> Prop) {L : ChainIOLaws params inv}.
Abbreviation Manager := (ChainManager W).
Abbreviation store m := (io_store (cm_world m)).
Abbreviation nodes m := (ix_nodes (cm_index m)).
Abbreviation limit := (pow_limit params).

(** Parameters in range, as the defaults are. *)
Record params_fine : Prop := {
  pf_staged : 0 <= max_staged_headers params <= NO_PARENT;
  pf_sources : 1 <= max_sources params;
  pf_interval : 0 <= asert_anchor_interval params;
  pf_window : 0 <= duplicate_window_secs params * 1000 < 2 ^ 64;
}.
Context (PF : params_fine).

Record in_order (states : Z -> Address -> Account) (m : Manager) : Prop := {
  nk_ok : manager_ok params inv states m;
  nk_ingest : exists g K, ing_inv params verified g K (cm_ingest m) (cm_index m);
  nk_cps : cps_wf params (cm_cps m) /\ forall a, cps_anchor (cm_cps m) = Some a -> 0 <= anchor_height a;
}.
Lemma quiet_node states m m' : quiet inv m m' -> in_order states m -> in_order states m'.
Proof.
  intros Q [O I A]. constructor; [by eapply quiet_ok|..]; by destruct Q as [(w & l & s & ->) _ _].
Qed.

(** *** Header batches *)
Section Headers.
Context (states : Z -> Address -> Account) (g : Hash32) (K : Known).

(** Bytes that hash to an indexed header are that header's. *)
Lemma node_raw ig ix i n rec : ing_inv params verified g K ig ix -> zlookup (ix_nodes ix) i = Some n -> n_hash n <> g ->
  rec_sound rec -> hr_hash rec = n_hash n -> blake3_collision \/ raw_ok n (hr_raw rec).
Proof.
  intros I Hn Hng Hs Hh. pose proof (iv_core _ _ _ _ _ _ I) as C. destruct (ck_tracked _ _ _ _ _ C i n Hn) as (rec' & Hk & Hht & _).
  destruct (kn_raw _ _ _ (ck_known _ _ _ _ _ C) _ _ _ Hk Hng) as (R1 & R2 & _). pose proof Hs as (Hl & Hby & Hr & _).
  assert (hr_hash rec = header_hash (hr_raw rec)) as Hhash.
  { unfold HeaderRec_from_raw in Hr. destruct (Header_decode (hr_raw rec)); [|done..]. cbn in Hr. apply Ok_inj in Hr. by rewrite <-Hr at 1. }
  rewrite <-Hh, Hhash in R1. unfold header_hash in R1. destruct (hash_inj _ _ R1) as [Heq|?]; [right|by left].
  rewrite <-Heq, Hr in R2. apply Ok_inj in R2 as <-. by apply sound_raw.
Qed.

Lemma root_index ig ix i n : ing_inv params verified g K ig ix -> zlookup (ix_nodes ix) i = Some n -> n_hash n = g -> i = 0.
Proof.
  intros I Hn Hg. pose proof (iv_core _ _ _ _ _ _ I) as C. destruct (ck_root _ _ _ _ _ C) as (n0 & Hn0 & Hg0).
  apply (index_hash_inj ix i 0 n n0 (core_wf _ _ _ _ _ C) Hn Hn0). congruence.
Qed.

Lemma fresh_sound rec : fresh_rec verified g rec -> rec_sound rec.
Proof.
  intros (Hv & Hr & Hb & _). split; [|by split_and!]. unfold HeaderRec_from_raw in Hr. destruct (Header_decode (hr_raw rec)) as [h| |] eqn:E; [|done..].
  apply Header_decode_sound in E as [Hw <-]; [|done]. by apply Zlen_Header_encode.
Qed.

Lemma added_manager m ix' c ig out : manager_ok params inv states m -> ing_inv params verified g K ig ix' -> added (cm_index m) ix' out -> cache_ok limit c ->
  Forall (fresh_rec verified g) out -> target_ok limit ->
  blake3_collision \/ manager_ok params inv states (set_memo (set_index m ix') c).
Proof.
  intros O I [A1 (ns & A2 & A3) A4 A5] Hc Hf Hlim. pose proof (iv_core _ _ _ _ _ _ I) as C. pose proof (core_wf _ _ _ _ _ C) as Wf.
  assert (work_wf limit (ix_nodes ix')) as Wk.
  { apply arena_reach_work; [done|]. eapply ix_reach_mono; [|exact (ck_reach _ _ _ _ _ C)]. by intros p rec w [? _]. }
  assert (forall i n, zlookup (nodes m) i = Some n -> zlookup (ix_nodes ix') i = Some n) as Hkeep.
  { intros i n Hn. rewrite A2, zlookup_app_l by (by apply (zlookup_lt _ _ _ Hn)). done. }
  assert (forall i n, zlookup (ix_nodes ix') i = Some n -> zlookup (nodes m) i = Some n \/ (n ∈ ns /\ n_hash n <> g)) as Hsplit.
  { intros i n Hn. destruct (Z.lt_ge_cases i (Zlen (nodes m))) as [Hlt|Hge]; [left; by rewrite A2, zlookup_app_l in Hn by done|right]. split.
    - rewrite A2, zlookup_app_r in Hn by done. apply zlookup_elem. eauto.
    - intros Hg. pose proof (root_index ig ix' i n I Hn Hg) as ->. pose proof (aw_size _ (wf_arena _ (mo_index _ _ _ _ O))). lia. }
  destruct (forall_or blake3_collision (fun n => forall r, st_header_by_hash (store m) (n_hash n) = Some r -> raw_ok n (hr_raw r)) (ix_nodes ix')) as [?|Hraws]; [|by left|right].
  { intros n Hin. apply zlookup_elem in Hin as [i Hn]. destruct (st_header_by_hash (store m) (n_hash n)) as [r|] eqn:Er; [|by right].
    destruct (Hsplit i n Hn) as [Hold|[_ Hng]].
    - right. intros r' [= <-]. by apply (mo_raws _ _ _ _ O i n Hold).
    - destruct (so_by_hash _ (io_store_ok _ (mo_world _ _ _ _ O)) _ _ Er) as [Hs Hh].
      destruct (node_raw ig ix' i n r I Hn Hng Hs Hh) as [?|?]; [by left|right]. by intros r' [= <-]. }
  constructor; cbn; rewrite ?A1; try apply O; try done.
  - intros h i n. cbn. rewrite A1. intros Hi Hn. apply (mo_agrees _ _ _ _ O h i n Hi).
    destruct (path_node _ (wf_arena _ (mo_index _ _ _ _ O)) _ _ _ (wf_canon _ (mo_index _ _ _ _ O)) Hi) as (y & Hy & _). pose proof (Hkeep i y Hy). congruence.
  - intros i n Hn. cbn in *. split; [|apply (proj1 (Forall_forall _ _) Hraws), list_elem_of_In, zlookup_elem; eauto].
    intros raw Hr. pose proof (mo_indexed _ _ _ _ O _ _ Hr) as [j Hj]. apply (wf_hash _ (mo_index _ _ _ _ O)) in Hj as (x & Hx & Hxh).
    assert (j = i) as -> by (apply (index_hash_inj ix' j i x n Wf (Hkeep j x Hx) Hn Hxh)). pose proof (Hkeep i x Hx) as Hx'. rewrite Hn in Hx'. injection Hx' as <-.
    by apply (mo_raws _ _ _ _ O i n Hx).
  - intros h raw Hr. apply A5. by apply (mo_indexed _ _ _ _ O) in Hr.
Qed.

Lemma history_with_by_hash st f t : holds_history st params states t -> holds_history (with_by_hash st f) params states t.
Proof. intros []. by constructor. Qed.

(** What [keep_connected] leaves alone. *)
Record kept (m m' : Manager) : Prop := {
  kp_index : cm_index m' = cm_index m;
  kp_ingest : cm_ingest m' = cm_ingest m;
  kp_cps : cm_cps m' = cm_cps m;
  kp_halted : cm_halted m' = cm_halted m;
  kp_stats : cm_stats m' = cm_stats m;
}.
Lemma kept_refl m : kept m m.
Proof. done. Qed.
Lemma kept_trans a b c : kept a b -> kept b c -> kept a c.
Proof. intros [] []. constructor; congruence. Qed.

Lemma keep_one m rec sh : manager_ok params inv states m -> ing_inv params verified g K (cm_ingest m) (cm_index m) -> fresh_rec verified g rec ->
  is_Some (index_of (cm_index m) (hr_hash rec)) -> sh_rec sh = rec ->
  blake3_collision \/ manager_ok params inv states
    (set_world (set_side_raws m (<[hr_hash rec := hr_raw rec]> (cm_side_raws m))) (io_store_side_header (cm_world m) sh)).
Proof.
  intros O I Hf [i Hi] Hsh. pose proof (mo_index _ _ _ _ O) as Wf. apply (wf_hash _ Wf) in Hi as (n0 & Hn0 & Hh0). pose proof (fresh_sound rec Hf) as Hs.
  destruct (node_raw _ _ i n0 rec I Hn0) as [?|Hraw]; [rewrite Hh0; apply Hf|done|done|by left|right].
  destruct (io_side_law (cm_world m) sh (mo_world _ _ _ _ O)) as (Iw & f & Hst & Hf2); [by rewrite Hsh|]. rewrite Hsh in Hf2.
  assert (forall j n, zlookup (nodes m) j = Some n -> n_hash n = hr_hash rec -> raw_ok n (hr_raw rec)) as Hsame.
  { intros j n Hn Hh. assert (j = i) as -> by (apply (index_hash_inj (cm_index m) j i n n0 Wf Hn Hn0); congruence). rewrite Hn0 in Hn. by injection Hn as <-. }
  constructor; cbn; rewrite ?Hst; try apply O; try done.
  - apply history_with_by_hash, O.
  - intros h j n. cbn. rewrite Hst. apply O.
  - intros j n. cbn. rewrite Hst. cbn. intros Hn. destruct (mo_raws _ _ _ _ O j n Hn) as [R1 R2]. split.
    + intros raw Hr. apply lookup_insert_Some in Hr as [[Hh <-]|[_ Hr]]; [by apply (Hsame j)|by apply R1].
    + intros r Hr. apply Hf2 in Hr as [Hr|[Hh ->]]; [by apply R2|by apply (Hsame j)].
  - intros h raw Hr. apply lookup_insert_Some in Hr as [[<- _]|[_ Hr]]; [|by apply (mo_indexed _ _ _ _ O) in Hr]. exists i. apply (wf_hash _ Wf). eauto.
Qed.

Lemma keep_connected_spec out : forall m, manager_ok params inv states m -> ing_inv params verified g K (cm_ingest m) (cm_index m) ->
  Forall (fresh_rec verified g) out -> (forall rec, rec ∈ out -> is_Some (index_of (cm_index m) (hr_hash rec))) ->
  blake3_collision \/ wp (keep_connected out) (fun m' r => r = Ok tt /\ manager_ok params inv states m' /\ kept m m') m.
Proof.
  induction out as [|rec out IH]; intros m O I Hf Hi; cbn [keep_connected]; [right; apply wp_ret; split; [done|]; split; [done|apply kept_refl]|].
  inversion_clear Hf as [|? ? Hf1 Hf2]. pose proof (Hi rec (list_elem_of_here _ _)) as Hix.
  pose proof Hix as [i Hx]. pose proof Hx as Hx2. apply (wf_hash _ (mo_index _ _ _ _ O)) in Hx2 as (n & Hn & _).
  assert (ix_get (E := Reject) (cm_index m) (hr_hash rec) = Ok (Some n)) as Hget.
  { unfold ix_get. rewrite Hx, (proj2 (node_ok (cm_index m) i n) Hn). done. }
  destruct (keep_one m rec (MkSideHeaderRec rec (n_cum_work n)) O I Hf1 Hix eq_refl) as [?|O1]; [by left|].
  destruct (IH _ O1) as [?|Hw]; [done|done|intros r Hr; apply Hi; by right|by left|right].
  wp_step. apply wp_get. wp_step. apply wp_lift. rewrite Hget. wp_steps. eapply wp_mono; [exact Hw|]. intros m' r (-> & O' & [H1 H2 H3 H4 H5]). split; [done|]. split; [done|].
  by constructor.
Qed.
End Headers.

Record header_room (m : Manager) (source : SourceId) (raws : list bytes) : Prop := {
  hrm_room : room params source (cm_ingest m) (cm_index m) (cm_memo m) raws;
  hrm_connected : 0 <= cst_headers_connected (cm_stats m) < 2 ^ 63;
}.

(** An event other than [advance] keeps the canonical chain: nodes are added and flagged, nothing else. *)
Definition chain_kept (m m' : Manager) : Prop :=
  ix_canonical (cm_index m') = ix_canonical (cm_index m) /\ exists ns, same_tree (nodes m ++ ns) (nodes m').
Lemma chain_kept_same m m' : cm_index m' = cm_index m -> chain_kept m m'.
Proof. unfold chain_kept. intros ->. split; [done|]. exists []. by rewrite app_nil_r. Qed.

(** The manager after such an event. *)
Definition settled {A} (states : Z -> Address -> Account) (m m' : Manager) (r : outcome Reject A) : Prop :=
  r <> Panic /\ in_order states m' /\ cm_halted m' = cm_halted m /\ chain_kept m m'.

Lemma ingest_ctx_ok states m now mono tip sol : in_order states m -> ctx_ok params verified (ingest_ctx m now mono tip sol).
Proof.
  intros [O I A]. pose proof (mo_params _ _ _ _ O) as Hp. destruct PF as [P1 P2 P3 P4]. constructor; cbn; try done; try lia; [apply (mo_limit _ _ _ _ O)|apply A].
Qed.

Lemma wp_mono_ms Q m : inv (cm_world m) -> (forall m' t, quiet inv m m' -> cm_stats m' = cm_stats m -> Q m' (Ok t)) -> wp mono_ms Q m.
Proof.
  intros I H. unfold wp, mono_ms. pose proof (io_mono_law _ I) as [I' S]. destruct (io_mono_ms (cm_world m)) as [w t]. cbn in *.
  apply H; [|done]. split; [by exists w, (cm_emitted m), (cm_stats m)|done|done].
Qed.

Lemma ingest_ok states m ig : manager_ok params inv states m -> manager_ok params inv states (set_ingest m ig).
Proof. intros []. by constructor. Qed.

Lemma ingest_headers_spec states m source raws sol : in_order states m -> cm_halted m = None -> header_room m source raws ->
  wp (ingest_headers source raws sol) (fun m' r => blake3_collision \/ settled states m m' r) m.
Proof.
  intros N Hh [R1 R2]. pose proof (nk_ok _ _ N) as O. unfold ingest_headers, not_halted. wp_step. wp_step. apply wp_get. rewrite Hh. apply wp_ret.
  wp_step. destruct (MAX_HEADERS_PER_MSG <? Zlen raws); [apply wp_fail; right; split; [done|]; split; [done|]; split; [done|by apply chain_kept_same]|]. apply wp_ret.
  wp_step. apply (wp_now params inv); [apply (mo_world _ _ _ _ O)|]. intros m1 now Q1 S1.
  wp_step. apply wp_mono_ms; [destruct Q1 as [_ _ Iq]; apply Iq, (mo_world _ _ _ _ O)|]. intros m2 mono Q2 S2. pose proof (quiet_trans _ _ _ _ Q1 Q2) as Q12.
  pose proof (quiet_node _ _ _ Q12 N) as N2. pose proof (nk_ok _ _ N2) as O2.
  assert (cm_ingest m2 = cm_ingest m /\ cm_index m2 = cm_index m /\ cm_memo m2 = cm_memo m /\ cm_halted m2 = cm_halted m /\ cm_stats m2 = cm_stats m) as (E1 & E2 & E3 & E4 & E5).
  { split_and!; try congruence; by destruct Q12 as [(w & l & s & ->) _ _]. }
  wp_step. apply wp_get. wp_step. apply wp_lift. unfold tip_ref. destruct (tip_exists (E := Reject) _ (mo_index _ _ _ _ O2)) as (t0 & n0 & _ & -> & _). cbn [obind].
  pose proof (ingest_ctx_ok states m2 now mono (MkTipRef (n_height n0) (n_hash n0) (n_time n0) (n_cum_work n0)) sol N2) as [C1 C2 C3 [C4 C4'] C5 C6 C7 C8].
  set (ctx := ingest_ctx _ _ _ _ _) in *. destruct (nk_ingest _ _ N2) as (g & K & I). rewrite <-E1, <-E2, <-E3 in R1.
  destruct (submit_ok params verified g C4' C3 ctx source C1 C2 C6 C8 C5 C4 C7 K _ _ _ raws I R1) as [?|(ig' & r & -> & Hr)]; [by left|].
  destruct r as [[[[[ix' memo'] out] obs] a]|e|]; [| |done].
  - destruct Hr as (K' & _ & I' & Hc & Hf & Ha & Hac).
    destruct (added_manager states g K' (set_ingest m2 ig') ix' memo' ig' out (ingest_ok _ _ _ O2) I' Ha Hc Hf C3) as [?|O3]; [by left|].
    wp_step. apply wp_put. set (m3 := set_memo _ _). assert (manager_ok params inv states m3) as O3' by exact O3.
    wp_step. apply (wp_emit_all inv). intros m4 Q4 S4. pose proof (quiet_ok _ _ _ _ _ Q4 O3') as O4.
    wp_step. eapply (wp_bump inv).
    { rewrite S4. change (cm_stats m3) with (cm_stats m2). rewrite E5. assert (add_checked (E := Reject) 64 (cst_headers_connected (cm_stats m)) (ac_connected a) = Ok (cst_headers_connected (cm_stats m) + ac_connected a)) as ->
        by (apply add_checked_ok; lia). cbn [obind]. reflexivity. }
    intros m5 Q5 _. pose proof (quiet_ok _ _ _ _ _ Q5 O4) as O5. pose proof (quiet_trans _ _ _ _ Q4 Q5) as Q45.
    assert (cm_ingest m5 = ig' /\ cm_index m5 = ix' /\ cm_cps m5 = cm_cps m2 /\ cm_halted m5 = cm_halted m2) as (F1 & F2 & F3 & F4) by (by destruct Q45 as [(w & l & s & ->) _ _]).
    destruct (keep_connected_spec states g K' out m5 O5) as [?|Hw]; [by rewrite F1, F2|done|rewrite F2; apply (ad_indexed _ _ _ Ha)|by left|].
    wp_step. eapply wp_mono; [exact Hw|]. intros m6 r (-> & O6 & [G1 G2 G3 G4 _]). apply wp_ret. right. split; [done|]. split; [|split].
    + constructor; [done|exists g, K'; by rewrite G1, G2, F1, F2|]. rewrite G3, F3. apply (nk_cps _ _ N2).
    + congruence.
    + split; [by rewrite G1, F2, (ad_canonical _ _ _ Ha), E2|]. destruct (ad_nodes _ _ _ Ha) as (ns & En & _). exists ns. by rewrite G1, F2, En, E2.
  - destruct Hr as [-> I']. wp_step. apply wp_put. apply wp_fail. right. split; [done|]. split; [|split; [cbn; congruence|by apply chain_kept_same]].
    constructor; [by apply ingest_ok|by exists g, K|apply (nk_cps _ _ N2)].
Qed.

(** *** Bodies *)
Lemma touched_order states m m' : in_order states m -> manager_ok params inv states m' -> touched params m m' -> blake3_collision \/ in_order states m'.
Proof.
  intros [O (g & K & I) A] O' [T1 T2 T3 T4 (mid & T5 & T6 & T7)]. rewrite <-T2 in A.
  assert (forall K' mid, ing_inv params verified g K' (cm_ingest m) mid -> same_tree (ix_nodes mid) (nodes m') -> (forall adm, ix_reach adm mid -> ix_reach adm (cm_index m')) -> in_order states m') as Hdone.
  { intros K' md I' T R. constructor; [done| |done]. exists g, K'. rewrite T1. apply (ing_tree params g K' _ md); [|apply (mo_index _ _ _ _ O')|done..].
    apply (core_wf _ _ _ _ _ (iv_core _ _ _ _ _ _ I')). }
  destruct T5 as [->|(rec & G & Hs & Hn)]; [right; by apply (Hdone K (cm_index m))|].
  destruct (ing_grown params g K _ _ mid rec I G Hs Hn) as [?|[K' I']]; [by left|right; by apply (Hdone K' mid)].
Qed.
Lemma submit_block_order states m hash body : in_order states m -> cm_halted m = None -> body_room m -> bytes_ok body ->
  wp (submit_block hash body) (fun m' r => blake3_collision \/ settled states m m' r) m.
Proof.
  intros N Hh R Hb. eapply wp_mono; [by apply (submit_block_spec params inv states m hash body (nk_ok _ _ N) Hh R Hb)|]. intros m' r (O' & T & Hr).
  destruct (touched_order states m m' N O' T) as [?|N']; [by left|right]. split; [by destruct r|]. split; [done|]. split; [apply T|]. split; [apply T|].
  destruct (tc_index _ _ _ T) as (mid & [->|(rec & G & _)] & Ht & _); [exists []; by rewrite app_nil_r|].
  destruct (gr_nodes _ _ _ _ G) as (n & En & _). exists [n]. by rewrite <-En.
Qed.

(** *** Transactions *)
Lemma pool_order states m p : in_order states m -> pool_ok (exactly (nonce_of (st_account (store m)))) p -> mp_params p = mempool params ->
  in_order states (set_pool m p).
Proof. intros [[] I A] Hp Hpp. constructor; [by constructor|done|done]. Qed.
Lemma ingress_order states m i : in_order states m -> in_order states (set_tx_ingress m i).
Proof. intros [[] I A]. constructor; [by constructor|done|done]. Qed.
Lemma ingress_admit_np order ig source now : snd (ingress_admit order ig source params now) <> Panic.
Proof.
  unfold ingress_admit, ingress_charge. destruct (_ && _); [destruct (ingress_victim _ _ _)|]; repeat (match goal with |- context [if ?c then _ else _] => destruct c end); done.
Qed.

Lemma manager_accounts states m : manager_ok params inv states m -> in_range (2 ^ 50) (st_account (store m)).
Proof.
  intros O. pose proof (height_bound params inv states m O) as Hb. apply (in_range_ext _ (states (Zlen (ix_canonical (cm_index m)) - 1))).
  - intros x. symmetry. apply (hh_tip _ _ _ _ (mo_history _ _ _ _ O)).
  - eapply in_range_mono; [|apply (mo_range _ _ _ _ O); lia]. unfold MAX_TXS_PER_BLOCK. lia.
Qed.

Lemma submit_tx_spec states m order origin raw : in_order states m -> bytes_ok raw -> wp (submit_tx order origin raw) (settled states m) m.
Proof.
  intros N Hb. unfold submit_tx, not_halted. wp_step. wp_step. apply wp_get. destruct (cm_halted m) eqn:Hh; [apply wp_fail; split_and!; try done; by apply chain_kept_same|]. apply wp_ret.
  assert (forall m1, in_order states m1 -> cm_index m1 = cm_index m -> cm_halted m1 = cm_halted m ->
    wp (let! now := now_unix in
        let! m := mget in
        let! h := mlift (ix_tip_height (cm_index m)) in
        let! height := mlift (add_checked 64 h 1) in
        let lookup a := let ac := st_account (store m) a in (ac, spendable_at m height a (acc_balance ac)) in
        let! (p, conds, out) := mlift (submit_verified (cm_pool m) (network (cm_params m)) raw lookup now (author_pubkey (cm_params m))) in
        mput (fun m => set_pool m p) ;!
        emit_all conds ;!
        match out with inl e => mfail e | inr a => mret a end) (settled states m) m1) as Hrest.
  { intros m1 N1 Ei Eh. wp_step. apply (wp_now params inv); [apply (mo_world _ _ _ _ (nk_ok _ _ N1))|]. intros m2 now Q2 _.
    pose proof (quiet_node _ _ _ Q2 N1) as N2. pose proof (nk_ok _ _ N2) as O2.
    assert (cm_index m2 = cm_index m /\ cm_halted m2 = cm_halted m) as [Ei2 Eh2] by (by destruct Q2 as [(w & l & s & ->) _ _]).
    wp_step. apply wp_get. wp_step. apply wp_lift. destruct (tip_exists (E := Reject) _ (mo_index _ _ _ _ O2)) as (t0 & n0 & _ & _ & -> & _ & Hn0 & _).
    pose proof (arena_height _ (wf_arena _ (mo_index _ _ _ _ O2)) _ _ Hn0) as Hht. apply zlookup_lt in Hn0. pose proof (aw_size _ (wf_arena _ (mo_index _ _ _ _ O2))) as Hs. change NO_PARENT with (2 ^ 32 - 1) in Hs.
    wp_step. apply wp_lift. rewrite add_checked_ok by lia. cbv zeta. wp_step. apply wp_lift.
    destruct (submit_verified_spec (exactly (nonce_of (st_account (store m2)))) (cm_pool m2) (network (cm_params m2)) raw
      (fun a => (st_account (store m2) a, spendable_at m2 (n_height n0 + 1) a (acc_balance (st_account (store m2) a)))) now (author_pubkey (cm_params m2)) (mo_pool _ _ _ _ O2) Hb) as (q & obs & v & -> & Hq & Hqp & _).
    { intros a. split; [done|]. cbn. rewrite (mo_pool_params _ _ _ _ O2). apply range_account_ok; [by apply (manager_accounts states)|apply (mo_gap _ _ _ _ O2)|apply (mo_ledger _ _ _ _ O2)]. }
    rewrite (mo_pool_params _ _ _ _ O2) in Hqp. wp_step. apply wp_put. wp_step. apply (wp_emit_all inv). intros m4 Q4 _.
    pose proof (quiet_node _ _ _ Q4 (pool_order states m2 q N2 Hq Hqp)) as N4.
    assert (cm_index m4 = cm_index m /\ cm_halted m4 = cm_halted m) as [Ei4 Eh4] by (by destruct Q4 as [(w & l & s & ->) _ _]).
    destruct v; [apply wp_fail|apply wp_ret]; (split; [done|]; split; [done|]; split; [done|by apply chain_kept_same]). }
  wp_step. destruct origin as [|source]; [apply wp_ret; by apply Hrest|].
  wp_step. apply wp_mono_ms; [apply (mo_world _ _ _ _ (nk_ok _ _ N))|]. intros m1 mono Q1 _. wp_step. apply wp_get. pose proof (quiet_node _ _ _ Q1 N) as N1.
  assert (cm_index m1 = cm_index m /\ cm_halted m1 = cm_halted m) as [Ei1 Eh1] by (by destruct Q1 as [(w & l & s & ->) _ _]).
  rewrite (mo_params _ _ _ _ (nk_ok _ _ N1)). pose proof (ingress_admit_np order (cm_tx_ingress m1) source mono) as Hnp.
  destruct (ingress_admit order (cm_tx_ingress m1) source params mono) as [ti [[]|e|]]; [| |done].
  - apply wp_put. apply Hrest; [by apply ingress_order|done|done].
  - wp_step. apply wp_put. wp_step. apply (wp_emit inv). intros m2 Q2 _. apply wp_fail. pose proof (quiet_node _ _ _ Q2 (ingress_order _ _ ti N1)) as N2.
    split; [done|]. split; [done|]. destruct Q2 as [(w & l & s & ->) _ _]. split; [done|]. by apply chain_kept_same.
Qed.

(** *** Checkpoints and departing peers *)
Lemma cps_order states m c : in_order states m -> cps_wf params c -> (forall a, cps_anchor c = Some a -> 0 <= anchor_height a) -> in_order states (set_cps m c).
Proof. intros [[] I A] Hc Ha. constructor; [by constructor|done|done]. Qed.
Lemma world_order states m w : in_order states m -> inv w -> io_store w = store m -> in_order states (set_world m w).
Proof.
  intros N Iw E. eapply quiet_node; [|exact N]. split; [by exists w, (cm_emitted m), (cm_stats m)|done|done].
Qed.

Lemma submit_checkpoint_spec states m cp : in_order states m -> 0 <= cp_height cp -> wp (submit_checkpoint cp) (settled states m) m.
Proof.
  intros N Hpos. pose proof (nk_ok _ _ N) as O. destruct (nk_cps _ _ N) as [Hwf Hanch]. unfold submit_checkpoint. wp_step. apply wp_get. wp_step. apply wp_lift. rewrite (mo_params _ _ _ _ O).
  destruct (submit_spec (E := Reject) (cm_cps m) cp (MkArenaView (cm_index m) limit) _ params (arena_view_of _ (mo_arena params inv states m O)) Hwf Hpos) as (rep & c' & obs & -> & S).
  assert (in_order states (set_cps m c')) as N1.
  { apply cps_order; [done|apply S|]. intros a Ha. destruct (anchor_advanced rep) eqn:Ea.
    - apply (se_advanced _ _ _ _ _ _ S) in Ea as [Ea _]. rewrite Ha in Ea. by injection Ea as ->.
    - rewrite (se_unmoved _ _ _ _ _ _ S Ea) in Ha. by apply Hanch. }
  wp_step. apply wp_put. wp_step. apply (wp_emit_all inv). intros m2 Q2 _. pose proof (quiet_node _ _ _ Q2 N1) as N2.
  assert (cm_index m2 = cm_index m /\ cm_halted m2 = cm_halted m) as [Ei Eh] by (by destruct Q2 as [(w & l & s & ->) _ _]).
  assert (forall m3, in_order states m3 -> cm_index m3 = cm_index m -> cm_halted m3 = cm_halted m -> settled states m m3 (@Ok Reject _ rep)) as Hend.
  { intros m3 N3 E3 H3. split; [done|]. split; [done|]. split; [done|by apply chain_kept_same]. }
  wp_step. destruct (anchor_advanced rep); [|apply wp_ret, wp_ret; by apply Hend].
  wp_step. apply wp_get. destruct (io_anchor_law (cm_world m2) cp (mo_world _ _ _ _ (nk_ok _ _ N2))) as [Iw Ew].
  destruct (io_put_anchor (cm_world m2) cp) as [w r]. cbn in Iw, Ew. wp_step. apply wp_put. pose proof (world_order _ _ w N2 Iw Ew) as N3. destruct r as [e|].
  - apply (wp_emit inv). intros m4 Q4 _. apply wp_ret. apply Hend; [by eapply quiet_node|by destruct Q4 as [(w4 & l & s & ->) _ _]..].
  - apply wp_ret, wp_ret. by apply Hend.
Qed.

Lemma load_anchor_spec states m cp : in_order states m -> 0 <= cp_height cp -> wp (manager_load_anchor cp) (settled states m) m.
Proof.
  intros N Hpos. destruct (nk_cps _ _ N) as [Hwf Hanch]. unfold manager_load_anchor. wp_step. apply wp_get. rewrite (mo_params _ _ _ _ (nk_ok _ _ N)).
  unfold load_anchor. destruct (cp_verified cp params) eqn:Ev; cbn [negb].
  - destruct (install_anchor_wf params (cm_cps m) cp Hwf Ev) as (W' & _ & Hiff & Hno & _). destruct (install_anchor (cm_cps m) cp) as [b c']. cbn [fst snd] in *.
    wp_step. apply wp_put. apply wp_ret. split; [done|]. split; [|split; [done|by apply chain_kept_same]]. apply cps_order; [done|done|]. intros a Ha. destruct b.
    + destruct (proj1 Hiff eq_refl) as [Hx _]. rewrite Ha in Hx. by injection Hx as ->.
    + rewrite (Hno eq_refl) in Ha. by apply Hanch.
  - wp_step. apply wp_put. apply wp_ret. split; [done|]. split; [|split; [done|by apply chain_kept_same]]. by apply cps_order.
Qed.

Lemma forget_inv g K ig ix source : ing_inv params verified g K ig ix -> ing_inv params verified g K (forget ig source) ix.
Proof.
  intros [I1 I2 I3 I4]. constructor; [done| |done|].
  - intros x st Hx. cbn in Hx. rewrite fmap_delete in Hx. apply lookup_delete_Some in Hx as [_ Hx]. by eapply I2.
  - unfold source_count in *. cbn. pose proof (map_subseteq_size _ _ (delete_subseteq (ig_sources ig) source)) as Hs. lia.
Qed.
Lemma forget_source_spec states m source : in_order states m -> wp (forget_source source) (settled states m) m.
Proof.
  intros [O (g & K & I) A]. apply wp_put. split; [done|]. split; [|split; [done|by apply chain_kept_same]]. apply ingress_order. constructor; [by apply ingest_ok|exists g, K; by apply forget_inv|done].
Qed.

(** *** Adoption *)

(** A store that serves no state snapshots, as the node's does: there is nothing a deep replay could start from. *)
Definition serves_no_snapshots : Prop := forall w, inv w -> forall h, st_state_snapshot (io_store w) h = None /\ st_checkpoint_at_or_below (io_store w) h = None.

Lemma no_snapshots_ok w states t : serves_no_snapshots -> inv w -> snapshots_ok (io_store w) states t.
Proof. intros H Iw. constructor; [intros h rows Hr|intros h c Hc]; destruct (H w Iw h); congruence. Qed.

Lemma pruned_order states m m' : in_order states m -> pruned m m' -> manager_ok params inv states m' -> in_order states m'.
Proof.
  intros [O (g & K & I) A] P O'. constructor; [done| |by rewrite (pr_cps _ _ P)]. exists g, K. rewrite (pr_ingest _ _ P).
  apply (ing_tree params g K _ (cm_index m)); [apply (mo_index _ _ _ _ O)|apply (mo_index _ _ _ _ O')|apply P|apply P|done].
Qed.

Lemma adopted_order states m plan chain best bs m' : in_order states m -> planned m best plan chain -> adopted params inv states m plan chain bs m' ->
  manager_ok params inv (forked states (fork_height plan) bs) m' -> in_order (forked states (fork_height plan) bs) m'.
Proof.
  intros [O (g & K & I) A] P Ad O'. destruct (ad_same _ _ _ _ _ _ _ _ Ad) as [Eg Ec]. constructor; [done| |by rewrite Ec]. exists g, K. rewrite Eg.
  destruct (ad_index _ _ _ _ _ _ _ _ Ad) as (ix' & Hset & Ei). rewrite Ei.
  destruct (set_canonical_wf (E := Reject) _ chain (mo_index _ _ _ _ O) (pl_path _ _ _ _ P)) as (ix2 & Hset2 & Wf & _ & T). rewrite Hset in Hset2. injection Hset2 as <-.
  apply (ing_tree params g K _ (cm_index m)); [apply (mo_index _ _ _ _ O)|done|done| |done]. intros adm Ha. eapply reach_adopt; [done| |done]. apply (pl_ancestry _ _ _ _ P).
Qed.

Definition lives (m' : Manager) : Prop := (exists d, cm_halted m' = Some d) \/ (cm_halted m' = None /\ exists states', in_order states' m').

Lemma advance_order states m : serves_no_snapshots -> in_order states m -> cm_halted m = None ->
  stats_room (Zlen (nodes m) - invalid_count (nodes m)) (cm_stats m) -> wp advance (fun m' r => r <> Panic /\ lives m') m.
Proof.
  intros Hsn N Hh R. eapply wp_mono; [apply (advance_spec params inv states m (nk_ok _ _ N) Hh R)|]. intros m' r Hf.
  assert (pruned m m' -> manager_ok params inv states m' -> lives m') as Hp.
  { intros P O'. right. split; [by rewrite (pr_halted _ _ P)|]. exists states. by apply (pruned_order states m). }
  destruct r as [p|e|]; [|split; [done|]|done].
  - split; [done|]. destruct p as [|hs|t rb ap]; [by apply Hp; apply Hf|by apply Hp; apply Hf|].
    destruct Hf as (m1 & best & plan & chain & bs & V). pose proof (pruned_order states m m1 N (av_pruned _ _ _ _ _ _ _ _ _ _ _ _ _ V) (av_ok _ _ _ _ _ _ _ _ _ _ _ _ _ V)) as N1.
    right. split; [by rewrite (av_halted _ _ _ _ _ _ _ _ _ _ _ _ _ V)|]. exists (forked states (fork_height plan) bs).
    pose proof (av_adopted _ _ _ _ _ _ _ _ _ _ _ _ _ V) as Ad. apply (adopted_order states m1 plan chain best bs m' N1 (av_planned _ _ _ _ _ _ _ _ _ _ _ _ _ V) Ad).
    apply (ad_ok _ _ _ _ _ _ _ _ Ad). apply no_snapshots_ok; [done|]. apply (ad_world _ _ _ _ _ _ _ _ Ad).
  - destruct e; try (by apply Hp; apply Hf). left. by eexists.
Qed.

End Run.
