(* ===== verification/ManagerProps.v ===== *)
(** The manager as a whole: the events the node feeds it, their runs, the abstract
    ledger a run implements, and the theorems about them. The manager is started by
    [ChainManager_new], then driven by any sequence of events ([run]); each either
    leaves the ledger as it is or, for [advance], adopts a better branch
    ([adopts]). The theorems are proved against the interface of the store, the
    sink and the clock ([ChainIOLaws]); the witnesses use the store of mock.rs. *)

From Stdlib Require Import ZArith Lia List String Sorted.
From stdpp Require Import base list gmap numbers relations.
From S2P Require Import Prelude Constants Limbs Asert Work Rules Checkpoint Blake3 Codec Crypto Merkle TxRules ChainTypes State Body BodyEquiv ChainWork Index ForkChoice CheckpointStore Reorg History Budget Ingest IngestInv Mempool MempoolInv MempoolProps TxIngress Manager ManagerInv MemStore ManagerBoot ManagerRun.
Open Scope Z_scope.

(** ** The abstract ledger: a chain of headers and the account state after each block *)
Record Ledger := MkLedger {
  lg_headers : list HeaderInfo;
  lg_states : Z -> Address -> Account;
}.
Definition lg_tip (a : Ledger) : Z := Zlen (lg_headers a) - 1.

(** One adoption: the reorganisation rule accepts a better chain; the blocks above the fork are valid one
    after the other, from the state at the fork, and are the new headers. *)
Inductive adopts `{Ed25519} (params : ChainParams) (a : Ledger) : Ledger -> Prop :=
| adopts_intro hs fork bs :
    reorg_step (lg_headers a) hs -> chain_better (lg_headers a) hs ->
    0 <= fork <= lg_tip a -> steps params (lg_states a fork) bs ->
    take (Z.to_nat (fork + 1)) hs = take (Z.to_nat (fork + 1)) (lg_headers a) ->
    hi_hash <$> drop (Z.to_nat (fork + 1)) hs = cb_hash <$> bs ->
    adopts params a (MkLedger hs (forked (lg_states a) fork bs)).

Section Ledger.
Context `{ED : Ed25519} {W : Type} `{IO : ChainIO W} (params : ChainParams) (inv : W -> Prop) {L : ChainIOLaws params inv} (PF : params_fine params).
Abbreviation Manager := (ChainManager W).
Abbreviation store m := (io_store (cm_world m)).
Abbreviation nodes m := (ix_nodes (cm_index m)).
Abbreviation limit := (pow_limit params).
Abbreviation ordered := (in_order params inv).

Definition headers_of (m : Manager) : list HeaderInfo := arena_chain (MkArenaView (cm_index m) limit).

Record reflects (m : Manager) (a : Ledger) : Prop := {
  rf_order : ordered (lg_states a) m;
  rf_headers : headers_of m = lg_headers a;
  rf_running : cm_halted m = None;
}.

Lemma canonical_nodes states m : manager_ok params inv states m -> Forall (fun i => exists n, zlookup (nodes m) i = Some n) (ix_canonical (cm_index m)).
Proof. intros O. apply path_nodes; [apply (wf_arena _ (mo_index _ _ _ _ O))|apply (wf_canon _ (mo_index _ _ _ _ O))]. Qed.
Lemma headers_count states m : manager_ok params inv states m -> Zlen (headers_of m) = Zlen (ix_canonical (cm_index m)).
Proof. intros O. unfold Zlen. f_equal. by apply infos_map, (canonical_nodes states). Qed.

Lemma infos_grows ns ns' chain : Forall (fun i => exists n, zlookup ns i = Some n) chain -> infos limit (ns ++ ns') chain = infos limit ns chain.
Proof.
  induction 1 as [|i chain [n Hn] _ IH]; [done|]. unfold infos in *. cbn [omap list_omap]. rewrite IH, Hn.
  replace (zlookup (ns ++ ns') i) with (Some n); [done|]. pose proof (zlookup_lt _ _ _ Hn). by rewrite zlookup_app_l by lia.
Qed.
Lemma headers_kept states m m' : manager_ok params inv states m -> chain_kept m m' -> headers_of m' = headers_of m.
Proof.
  intros O [Ec [ns T]]. unfold headers_of, arena_chain. cbn [av_index av_pow_limit]. rewrite Ec, <-(infos_same_tree limit _ _ _ T).
  apply infos_grows, (canonical_nodes states m O).
Qed.
Lemma headers_pruned m m' : pruned m m' -> headers_of m' = headers_of m.
Proof.
  intros P. unfold headers_of, arena_chain. cbn [av_index av_pow_limit]. by rewrite (pr_canonical _ _ P), <-(infos_same_tree limit _ _ _ (pr_tree _ _ P)).
Qed.

(** *** An adoption of the manager is one of the ledger *)
Lemma branch_hashes m l bs : Forall2 (commits_node m) l bs -> hi_hash <$> infos limit (nodes m) l = cb_hash <$> bs.
Proof.
  induction 1 as [|i b l bs (n & Hn & _ & Hh & _) _ IH]; [done|]. unfold infos in *. cbn [omap list_omap fmap list_fmap]. rewrite Hn.
  cbn [fmap option_fmap option_map]. cbn. f_equal; [by rewrite Hh|exact IH].
Qed.

Lemma advanced_adopts a m m1 best plan chain bs m' t rb ap : serves_no_snapshots inv -> reflects m a ->
  advanced params inv (lg_states a) m m1 best plan chain bs m' t rb ap ->
  adopts params a (MkLedger (headers_of m') (forked (lg_states a) (fork_height plan) bs)) /\
  reflects m' (MkLedger (headers_of m') (forked (lg_states a) (fork_height plan) bs)).
Proof.
  intros Hsn [N Hh Hrun] V. pose proof V as [V1 V2 V3 (now & v & V4) V5 V6 V7 V8 V9 V10].
  destruct (ad_index _ _ _ _ _ _ _ _ V7) as (ix' & Hset & Ei).
  destruct (adoption_step limit (cm_index m1) best plan chain ix' _ _ v (mo_arena params inv _ m1 V2) (pl_plan _ _ _ _ V3) (pl_ancestry _ _ _ _ V3) Hset V4)
    as (Heq & Hstep & Hbet).
  assert (headers_of m' = arena_chain (MkArenaView ix' limit)) as Em' by (unfold headers_of; by rewrite Ei).
  change (arena_chain (MkArenaView (cm_index m1) limit)) with (headers_of m1) in *.
  assert (headers_of m1 = lg_headers a) as Em1 by (by rewrite (headers_pruned m m1 V1)). rewrite Em1 in *. rewrite <-Em' in *.
  pose proof (pl_fork _ _ _ _ V3) as Hf. rewrite <-(headers_count _ m1 V2), Em1 in Hf.
  assert (length (take (Z.to_nat (fork_height plan + 1)) (lg_headers a)) = Z.to_nat (fork_height plan + 1)) as Hl.
  { rewrite length_take. unfold Zlen in Hf. lia. }
  split.
  - constructor; [done|done|unfold lg_tip; lia|done| |].
    + rewrite Heq. unfold Rules.adopt. by rewrite take_app_length' by lia.
    + rewrite Heq. unfold Rules.adopt. rewrite drop_app_length' by lia. by apply branch_hashes.
  - constructor; [|done|cbn; congruence]. cbn. pose proof (pruned_order params inv _ m m1 N V1 V2) as N1.
    apply (adopted_order params inv _ m1 plan chain best bs m' N1 V3 V7). apply (ad_ok _ _ _ _ _ _ _ _ V7).
    apply (no_snapshots_ok inv); [done|]. apply (ad_world _ _ _ _ _ _ _ _ V7).
Qed.

Lemma advanced_counts a m m1 best plan chain bs m' t rb ap : reflects m a ->
  advanced params inv (lg_states a) m m1 best plan chain bs m' t rb ap -> 0 < ap /\ Zlen (headers_of m') - 1 = lg_tip a - rb + ap.
Proof.
  intros [N Hh Hrun] [V1 V2 V3 (now & v & V4) V5 _ V7 _ [-> ->] _]. unfold lg_tip. rewrite <-Hh, <-(headers_pruned m m1 V1), (headers_count _ m1 V2).
  destruct (ad_index _ _ _ _ _ _ _ _ V7) as (ix' & Hset & Ei).
  destruct (set_canonical_wf (E := Reject) _ chain (mo_index _ _ _ _ V2) (pl_path _ _ _ _ V3)) as (ix2 & Hset2 & Wf & Hcan & T). rewrite Hset in Hset2. injection Hset2 as <-.
  pose proof (pl_fork _ _ _ _ V3) as Hf. rewrite (pl_rollback _ _ _ _ V3). unfold above_fork at 1. rewrite Zlen_rev, Zlen_zrange by lia.
  assert (Zlen (headers_of m') = fork_height plan + 1 + Zlen (apply plan)) as ->.
  { unfold headers_of, arena_chain, Zlen at 1. cbn [av_index av_pow_limit]. rewrite Ei.
    destruct (infos_map limit (ix_nodes ix') (ix_canonical ix')) as [-> _]; [by apply path_nodes; [apply (wf_arena _ Wf)|apply (wf_canon _ Wf)]|].
    rewrite Hcan, (pl_chain _ _ _ _ V3), length_app, length_take. unfold Zlen in *. lia. }
  split; [|lia]. destruct (apply plan) eqn:Ea; [|rewrite Zlen_cons; pose proof (Zlen_nonneg l); lia]. 
  done.
Qed.

(** *** The other events leave the ledger as it is *)
Lemma settled_reflects {A} a m m' (r : outcome Reject A) : reflects m a -> settled params inv (lg_states a) m m' r -> r <> Panic /\ reflects m' a.
Proof.
  intros [N Hh Hrun] (Hr & N' & Hh' & Hk). split; [done|]. constructor; [done| |congruence].
  by rewrite (headers_kept _ m m' (nk_ok _ _ _ _ N) Hk).
Qed.
Lemma pruned_reflects a m m' : reflects m a -> pruned m m' -> manager_ok params inv (lg_states a) m' -> reflects m' a.
Proof.
  intros [N Hh Hrun] P O'. constructor; [by eapply pruned_order|by rewrite (headers_pruned m m' P)|by rewrite (pr_halted _ _ P)].
Qed.

(** *** Runs *)

(** What the node feeds the manager: the exclusive entry points of manager.rs, in any order. *)
Inductive Event :=
| EvHeaders (source : SourceId) (raws : list bytes) (solicitation : Solicitation)
| EvBlock (hash : Hash32) (body : bytes)
| EvAdvance
| EvTx (order : list SourceId) (origin : TxOrigin) (raw : bytes)
| EvCheckpoint (cp : SignedCheckpoint)
| EvAnchor (cp : SignedCheckpoint)
| EvForget (source : SourceId).

Definition handle (e : Event) : method W unit :=
  match e with
  | EvHeaders source raws sol => ingest_headers source raws sol ;! mret tt
  | EvBlock hash body => submit_block hash body
  | EvAdvance => advance ;! mret tt
  | EvTx order origin raw => submit_tx order origin raw ;! mret tt
  | EvCheckpoint cp => submit_checkpoint cp ;! mret tt
  | EvAnchor cp => manager_load_anchor cp ;! mret tt
  | EvForget source => forget_source source
  end.

(** The premises of an event: payloads are bytes, heights unsigned, and the 64-bit counters and 32-bit arena are not exhausted. *)
Definition ample (e : Event) (m : Manager) : Prop :=
  match e with
  | EvHeaders source raws _ => header_room params m source raws
  | EvBlock _ body => body_room m /\ bytes_ok body
  | EvAdvance => stats_room (Zlen (nodes m) - invalid_count (nodes m)) (cm_stats m)
  | EvTx _ _ raw => bytes_ok raw
  | EvCheckpoint cp | EvAnchor cp => 0 <= cp_height cp
  | EvForget _ => True
  end.

Inductive run : Manager -> list Event -> Manager -> Prop :=
| run_nil m : run m [] m
| run_cons m e es m1 r m2 : cm_halted m = None -> ample e m -> handle e m = (m1, r) -> run m1 es m2 -> run m (e :: es) m2.

Lemma wp_discard {A} (x : method W A) Q m : wp x (fun m' r => Q m' (match r with Ok _ => Ok tt | Err e => Err e | Panic => Panic end)) m ->
  wp (x ;! mret tt) Q m.
Proof. intros H. unfold wp, mbind in *. destruct (x m) as [m' [a|e|]]; exact H. Qed.

Definition stuck (m : Manager) : Prop := exists d, cm_halted m = Some d.
Definition simulates (a : Ledger) (m' : Manager) : Prop := exists a', (a' = a \/ adopts params a a') /\ reflects m' a'.

Lemma advance_simulates a m : serves_no_snapshots inv -> reflects m a -> ample EvAdvance m -> wp advance (fun m' r => r <> Panic /\ (stuck m' \/ simulates a m')) m.
Proof.
  intros Hsn Rf R. eapply wp_mono; [apply (advance_spec params inv (lg_states a) m (nk_ok _ _ _ _ (rf_order _ _ Rf)) (rf_running _ _ Rf) R)|].
  intros m' r Hf. assert (pruned m m' -> manager_ok params inv (lg_states a) m' -> stuck m' \/ simulates a m') as Hp.
  { intros P O'. right. exists a. split; [by left|]. by apply (pruned_reflects a m). }
  destruct r as [p|e|]; [|split; [done|]|done].
  - split; [done|]. destruct p as [|hs|t rb ap]; [by apply Hp; apply Hf|by apply Hp; apply Hf|].
    destruct Hf as (m1 & best & plan & chain & bs & V). right. destruct (advanced_adopts a m m1 best plan chain bs m' t rb ap Hsn Rf V) as [Ha Hr].
    eexists. split; [by right|done].
  - destruct e; try (by apply Hp; apply Hf). left. by eexists.
Qed.

Lemma handle_simulates a m e : serves_no_snapshots inv -> reflects m a -> ample e m ->
  wp (handle e) (fun m' r => blake3_collision \/ (r <> Panic /\ (stuck m' \/ simulates a m'))) m.
Proof.
  intros Hsn Rf Ha. pose proof Rf as [N Eh Hh]. assert (forall m' (A : Type) (r : outcome Reject A), settled params inv (lg_states a) m m' r -> r <> Panic /\ (stuck m' \/ simulates a m')) as Hs.
  { intros m' A r S. destruct (settled_reflects a m m' r Rf S) as [Hr Rf']. split; [done|]. right. exists a. split; [by left|done]. }
  destruct e; cbn [handle ample] in *.
  - apply wp_discard. eapply wp_mono; [by apply (ingest_headers_spec params inv PF (lg_states a))|]. intros m' r [?|S]; [by left|right].
    destruct (Hs _ _ r S). by destruct r.
  - eapply wp_mono; [by apply (submit_block_order params inv (lg_states a)); [..|apply Ha|apply Ha]|]. intros m' r [?|S]; [by left|right]. by apply Hs.
  - apply wp_discard. eapply wp_mono; [by apply (advance_simulates a)|]. intros m' r [Hr Hl]. right. by destruct r.
  - apply wp_discard. eapply wp_mono; [by apply (submit_tx_spec params inv (lg_states a))|]. intros m' r S. right. destruct (Hs _ _ r S). by destruct r.
  - apply wp_discard. eapply wp_mono; [by apply (submit_checkpoint_spec params inv (lg_states a))|]. intros m' r S. right. destruct (Hs _ _ r S). by destruct r.
  - apply wp_discard. eapply wp_mono; [by apply (load_anchor_spec params inv (lg_states a))|]. intros m' r S. right. destruct (Hs _ _ r S). by destruct r.
  - eapply wp_mono; [by apply (forget_source_spec params inv (lg_states a))|]. intros m' r S. right. by apply Hs.
Qed.

Lemma run_simulates m es m' : serves_no_snapshots inv -> run m es m' -> forall a, reflects m a ->
  blake3_collision \/ stuck m' \/ exists a', rtc (adopts params) a a' /\ reflects m' a'.
Proof.
  intros Hsn R. induction R as [m|m e es m1 r m2 Hh Ha He R IH]; intros a Rf; [right; right; by exists a|].
  pose proof (handle_simulates a m e Hsn Rf Ha) as Hw. unfold wp in Hw. rewrite He in Hw. destruct Hw as [?|[_ [Hst|(a1 & Hd & Rf1)]]]; [by left| |].
  - right. left. inversion R; subst; [done|]. destruct Hst. cbn in *. congruence.
  - destruct (IH a1 Rf1) as [?|[?|(a2 & Hst & Rf2)]]; [by left|by right; left|right; right]. exists a2. split; [|done].
    destruct Hd as [->|Hd]; [done|]. by eapply rtc_l.
Qed.
End Ledger.

(** ** The locator

    How far below the tip its k-th hash is. *)
Definition stride (k : Z) : Z := if k <=? 10 then k else 8 + 2 ^ (k - 9).
(** The step of the loop after [k] hashes. *)
Definition locator_step (k : Z) : Z := if k <=? 10 then 1 else 2 ^ (k - 10).

Lemma stride_next k : 0 <= k -> stride (k + 1) = stride k + locator_step (k + 1).
Proof.
  intros Hk. unfold stride, locator_step. destruct (Z.leb_spec (k + 1) 10), (Z.leb_spec k 10); try lia.
  - assert (k = 10) as -> by lia. reflexivity.
  - replace (k + 1 - 9) with (Z.succ (k - 9)) by lia. replace (k + 1 - 10) with (k - 9) by lia. rewrite Z.pow_succ_r by lia. lia.
Qed.
Lemma stride_mono k : 0 <= k -> stride k < stride (k + 1).
Proof. intros Hk. rewrite stride_next by done. unfold locator_step. destruct (k + 1 <=? 10) eqn:E; [lia|]. pose proof (Z.pow_pos_nonneg 2 (k + 1 - 10)). lia. Qed.
Lemma stride_big k : 43 <= k -> 2 ^ 34 <= stride k.
Proof.
  intros Hk. unfold stride. destruct (Z.leb_spec k 10); [lia|]. pose proof (Z.pow_le_mono_r 2 34 (k - 9)). lia.
Qed.

Section Locator.
Context `{ED : Ed25519} {W : Type} `{IO : ChainIO W} (params : ChainParams).
Context (ix : HeaderIndex) (Wf : index_wf ix) (tip : Z) (Htip : Zlen (ix_canonical ix) = tip + 1).
Abbreviation hash_at h := (hi_hash <$> zlookup (arena_chain (MkArenaView ix (pow_limit params))) h).

Lemma canonical_hash h : 0 <= h <= tip -> exists n, canonical_at (E := Reject) ix h = Ok (Some n) /\ hash_at h = Some (n_hash n).
Proof.
  intros Hh. destruct (zlookup_is_Some (ix_canonical ix) h) as [i Hi]; [lia|].
  destruct (path_node _ (wf_arena _ Wf) _ _ _ (wf_canon _ Wf) Hi) as (n & Hn & _). exists n. unfold canonical_at. rewrite Hi, (proj2 (node_ok ix i n) Hn). split; [done|].
  destruct (infos_map (pow_limit params) (ix_nodes ix) (ix_canonical ix)) as [_ Hx].
  { by apply path_nodes; [apply (wf_arena _ Wf)|apply (wf_canon _ Wf)]. }
  unfold zlookup in Hi |- *. destruct (0 <=? h); [|done]. unfold arena_chain. cbn [av_index av_pow_limit]. by rewrite (Hx _ _ _ Hi Hn).
Qed.

(** The hashes from the [k]-th on, for the strides up to [K]. *)
Record located (K : nat) (l : list Hash32) : Prop := {
  lc_len : length l = K;
  lc_hash : forall k, (k < K)%nat -> Some <$> l !! k = Some (hash_at (tip - stride (Z.of_nat k)));
  lc_in : forall k, (k < K)%nat -> stride (Z.of_nat k) <= tip;
}.

Lemma locator_loop_spec fuel : forall k l, located k l -> (k <= 43)%nat -> tip < 2 ^ 33 -> tip - stride (Z.of_nat k) < Z.of_nat fuel ->
  exists K l', locator_loop fuel ix (tip - stride (Z.of_nat k)) (locator_step (Z.of_nat k)) l = Ok l' /\
    located K l' /\ tip < stride (Z.of_nat K) /\ (K <= 43)%nat.
Proof.
  induction fuel as [|fuel IH]; intros k l Hl Hk Ht Hf; cbn [locator_loop]; destruct (Z.ltb_spec (tip - stride (Z.of_nat k)) 0) as [Hlt|Hge].
  1, 3: exists k, l; split; [done|]; split; [done|]; lia.
  - lia.
  - assert (0 <= stride (Z.of_nat k)) as H0 by (unfold stride; destruct (Z.leb_spec (Z.of_nat k) 10); [lia|]; pose proof (Z.pow_nonneg 2 (Z.of_nat k - 9)); lia).
    assert (k < 43)%nat as Hk' by (destruct (Nat.eq_dec k 43%nat) as [->|]; [pose proof (stride_big 43 ltac:(lia)) as Hsb; change (Z.of_nat 43) with 43 in *; lia|lia]).
    destruct (canonical_hash (tip - stride (Z.of_nat k))) as (n & -> & Hn); [lia|]. cbn [obind].
    assert (located (S k) (l ++ [n_hash n])) as Hl'.
    { destruct Hl as [L1 L2 L3]. split.
      - rewrite length_app, L1. cbn. lia.
      - intros j Hj. destruct (Nat.eq_dec j k) as [->|Hne]; [|rewrite lookup_app_l by lia; apply L2; lia]. rewrite lookup_app_r, L1, Nat.sub_diag by lia. cbn. by rewrite Hn.
      - intros j Hj. destruct (Nat.eq_dec j k) as [->|Hne]; [lia|]. apply L3. lia. }
    assert (Zlen (l ++ [n_hash n]) = Z.of_nat k + 1) as Hz by (unfold Zlen; rewrite (lc_len _ _ Hl'); lia).
    assert ((if 10 <? Zlen (l ++ [n_hash n]) then double_i64 (E := Reject) (locator_step (Z.of_nat k)) else Ok (locator_step (Z.of_nat k))) = Ok (locator_step (Z.of_nat k + 1))) as ->.
    { rewrite Hz. unfold double_i64, locator_step. destruct (Z.ltb_spec 10 (Z.of_nat k + 1)), (Z.leb_spec (Z.of_nat k) 10), (Z.leb_spec (Z.of_nat k + 1) 10); try lia; [|..|done].
      - assert (Z.of_nat k = 10) as -> by lia. reflexivity.
      - replace (Z.of_nat k + 1 - 10) with (Z.succ (Z.of_nat k - 10)) by lia. rewrite Z.pow_succ_r by lia. pose proof (Z.pow_le_mono_r 2 (Z.of_nat k - 10) 40). destruct (Z.ltb_spec (2 * 2 ^ (Z.of_nat k - 10)) (2 ^ 63)); [done|lia]. }
    cbn [obind]. replace (tip - stride (Z.of_nat k) - locator_step (Z.of_nat k + 1)) with (tip - stride (Z.of_nat (S k)))
      by (rewrite Nat2Z.inj_succ, <-Z.add_1_r, stride_next by lia; lia).
    replace (Z.of_nat k + 1) with (Z.of_nat (S k)) by lia. apply IH; [done|lia|done|].
    pose proof (stride_mono (Z.of_nat k)). rewrite Nat2Z.inj_succ, <-Z.add_1_r. lia.
Qed.
End Locator.

(** ** Theorems *)
Lemma better_trans a b c : chain_better a b -> chain_better b c -> chain_better a c.
Proof. unfold chain_better. lia. Qed.
Lemma adopts_improve `{Ed25519} params a a' : rtc (adopts params) a a' -> a' = a \/ chain_better (lg_headers a) (lg_headers a').
Proof.
  induction 1 as [a|a b c Hab _ IH]; [by left|]. right. destruct Hab as [hs fork bs _ Hb]. destruct IH as [->|Hc]; [done|]. by eapply better_trans.
Qed.

Section Claims.
Context `{ED : Ed25519} {W : Type} `{IO : ChainIO W} (params : ChainParams) (inv : W -> Prop) {L : ChainIOLaws params inv}.
Abbreviation Manager := (ChainManager W).
Abbreviation store m := (io_store (cm_world m)).
Abbreviation limit := (pow_limit params).

Lemma boot_reflects states w top observer : params_fine params -> bootable params inv states w top ->
  match ChainManager_new w params observer with
  | Ok m => exists a, reflects params inv m a /\ lg_states a = states /\ lg_tip a = top /\ cm_world m = w
  | Err e => exists d, e = BootInvariant d
  | Panic => False
  end.
Proof.
  intros PF B. pose proof (boot_spec params inv states w top observer B) as Hb. destruct (ChainManager_new w params observer) as [m|e|]; [|done..].
  destruct Hb as (O & S & (Hi & Hc) & Hh & Hw & Hl & _). exists (MkLedger (headers_of params m) states).
  assert (in_order params inv states m) as N.
  { constructor; [done| |rewrite Hc; split; [apply cps_new_wf|done]]. pose proof (mo_index _ _ _ _ O) as Wf.
    destruct (zlookup_is_Some (ix_nodes (cm_index m)) 0) as [n0 H0]; [pose proof (aw_size _ (wf_arena _ Wf)) as Hsz; destruct (tip_exists (E := Reject) _ Wf) as (t & n & _ & _ & _ & _ & Ht & _); apply zlookup_lt in Ht; lia|].
    destruct (core_of_sourced params (cm_index m) n0 S H0) as [K C]. exists (n_hash n0), K. rewrite Hi. apply ingest_start; [done|]. destruct PF. lia. }
  split; [by constructor|]. split; [done|]. split; [|done]. unfold lg_tip. cbn. rewrite (headers_count params inv states m O). lia.
Qed.

(** C8. Starting from a store that holds a chain of valid blocks up to height [top], with the account states [states] and any
    rows of side headers, [ChainManager::new] does not panic: it returns a manager that is in order and whose ledger is the
    stored one, with the world untouched, or refuses with [BootInvariant]. *)
Theorem boot_restores_ledger states w top observer (PF : params_fine params) (B : bootable params inv states w top) :
  match ChainManager_new w params observer with
  | Ok m => exists a, reflects params inv m a /\ lg_states a = states /\ lg_tip a = top /\ cm_world m = w
  | Err e => exists d, e = BootInvariant d
  | Panic => False
  end.
Proof. by apply boot_reflects. Qed.



(** What [advance] reports. *)
Definition advance_report (a : Ledger) (m' : Manager) (r : outcome Reject Progress) : Prop :=
  match r with
  | Ok NoChange => reflects params inv m' a /\ tip_best m'
  | Ok (NeedBodies hs) => reflects params inv m' a /\ hs <> [] /\ Zlen hs <= 512 /\ NoDup hs /\ forall h, h ∈ hs -> wants m' h
  | Ok (Advanced t rolled_back applied) => exists a', adopts params a a' /\ reflects params inv m' a' /\ tip m' = Ok t /\
      0 < applied /\ lg_tip a' = lg_tip a - rolled_back + applied
  | Err (Halted d) => cm_halted m' = Some d
  | Err _ => reflects params inv m' a
  | Panic => False
  end.


(** A fatal error of the storage is final: once [advance] reports it, header batches, bodies, transactions and further
    [advance] calls are refused with the same error and change nothing. *)
Theorem fatal_error_is_final (m m' : Manager) a d (Rf : reflects params inv m a) (Ha : ample params EvAdvance m) (Hf : advance m = (m', Err (Halted d))) :
  stuck m' /\ forall e, match e with EvHeaders _ _ _ | EvBlock _ _ | EvAdvance | EvTx _ _ _ => handle e m' = (m', Err (Halted d)) | _ => True end.
Proof.
  pose proof (advance_spec params inv (lg_states a) m (nk_ok _ _ _ _ (rf_order _ _ _ _ Rf)) (rf_running _ _ _ _ Rf) Ha) as Hw. unfold wp in Hw. rewrite Hf in Hw.
  cbn in Hw. split; [by eexists|]. intros e. destruct e; try done; unfold handle, ingest_headers, submit_block, advance, submit_tx, not_halted, mbind, mget;
    by rewrite Hw.
Qed.

(** A body is kept exactly for a valid header whose body is not held. A submission never changes the ledger; when it
    succeeds the body is in the table under the header's hash, the header (possibly brought back from the store) is valid in
    the index, and the block fits; when it is refused no body is added, for one of the three stated reasons. *)
Theorem submit_block_verdict (m : Manager) a hash body (Rf : reflects params inv m a) (Ha : ample params (EvBlock hash body) m) :
  blake3_collision \/ exists m' r, submit_block hash body m = (m', r) /\ reflects params inv m' a /\
    match r with
    | Ok _ => body_kept m m' hash body
    | Err e => cm_bodies m' = cm_bodies m /\
        (e = BodyNotAdmissible hash \/ (e = BodyAlreadyHeld hash /\ have_body m hash = true) \/
         (exists d, e = BodyStructure d) /\ MAX_BLOCK_BYTES < Zlen body + HEADER_BYTES)
    | Panic => False
    end.
Proof.
  destruct Ha as [Hr Hb]. pose proof Rf as [N _ Hh]. pose proof (submit_block_order params inv (lg_states a) m hash body N Hh Hr Hb) as H1.
  pose proof (submit_block_spec params inv (lg_states a) m hash body (nk_ok _ _ _ _ N) Hh Hr Hb) as H2. unfold wp in H1, H2.
  destruct (submit_block hash body m) as [m' r]. destruct H1 as [?|H1]; [by left|right]. exists m', r. split; [done|].
  split; [by apply (settled_reflects params inv a m m' r Rf)|apply H2].
Qed.

(** The block locator is dense near the tip and doubles its stride below: its k-th hash is the canonical one
    [stride k] below the tip (k for the first eleven, then 8 + 2^(k-9)), as far down as the chain reaches; the last hash is
    the genesis, and it never has more than 44 hashes. *)
Theorem locator_reaches_back (m : Manager) tip (Wf : index_wf (cm_index m)) (Htip : Zlen (ix_canonical (cm_index m)) = tip + 1) :
  exists l K, locator m = Ok l /\ tip < stride (Z.of_nat K) /\ (K <= 43)%nat /\ (K <= length l <= S K)%nat /\
    (forall k, (k < K)%nat -> stride (Z.of_nat k) <= tip /\ Some <$> l !! k = Some (hi_hash <$> zlookup (headers_of params m) (tip - stride (Z.of_nat k)))) /\
    list.last l = hi_hash <$> zlookup (headers_of params m) 0.
Proof.
  destruct (tip_exists (E := Reject) _ Wf) as (t & n & _ & _ & Hth & _ & Hn & Hlen & _). assert (n_height n = tip) as Hnt by lia.
  pose proof (arena_height _ (wf_arena _ Wf) _ _ Hn) as Hht. apply zlookup_lt in Hn. pose proof (aw_size _ (wf_arena _ Wf)) as Hs. change NO_PARENT with (2 ^ 32 - 1) in Hs.
  unfold locator. rewrite Hth. cbn [obind]. rewrite Hnt in *.
  assert (located params (cm_index m) tip 0 []) as H0 by (split; [done|intros; lia..]).
  destruct (locator_loop_spec params _ Wf tip Htip (S (Z.to_nat tip)) 0 [] H0 ltac:(lia) ltac:(lia)) as (K & l & Hl & [L1 L2 L3] & Hk & HK); [change (stride (Z.of_nat 0)) with 0; lia|].
  change (stride (Z.of_nat 0)) with 0 in Hl. rewrite Z.sub_0_r in Hl. change (locator_step (Z.of_nat 0)) with 1 in Hl. rewrite Hl. cbn [obind].
  destruct (canonical_hash params _ Wf tip Htip 0 ltac:(lia)) as (g & Hg & Hgh). rewrite Hg. cbn [obind].
  change (arena_chain (MkArenaView (cm_index m) limit)) with (headers_of params m) in *. case_bool_decide as Elast.
  - exists l, K. split_and!; [done|done|done|lia|lia| |by rewrite Elast, Hgh]. intros k Hkk. split; [by apply L3|by apply L2].
  - exists (l ++ [n_hash g]), K. rewrite length_app. cbn [length]. split_and!; [done|done|done|lia|lia| |by rewrite last_snoc, Hgh].
    intros k Hkk. split; [by apply L3|]. rewrite lookup_app_l by lia. by apply L2.
Qed.
End Claims.

(** ** A concrete manager

    The mock store with a genesis block and, as a side header, a child of it; its body arrives, and the manager adopts it. *)
#[local] Existing Instance toy_ed25519.
Definition demo_body (height miner : Z) : bytes :=
  match CoinbaseTx_encode (MkCoinbaseTx height (replicate 20 miner) (block_reward height) 0 (MkAuthorNote 0 [])) with
  | Ok cb => match BlockBody_encode [cb] with Ok b => b | _ => [] end
  | _ => []
  end.
Definition demo_header (height : Z) (prev : Hash32) (time bits : Z) (body : bytes) : bytes :=
  let root := match BlockBody_parse body with Ok b => BlockBody_tx_root b | _ => [] end in
  Header_encode (MkHeader VERSION_BASE height prev root (replicate 32 0) time bits 0 0).
Definition demo_rec (raw : bytes) : HeaderRec := match HeaderRec_from_raw (E := Reject) raw with Ok r => r | _ => sample_genesis_rec end.
Definition demo_genesis : HeaderRec := Eval vm_compute in
  demo_rec (demo_header 0 (replicate 32 0) 1000 (genesis_bits ChainParams_default) (demo_body 0 1)).
Definition demo_child : HeaderRec := Eval vm_compute in
  demo_rec (demo_header 1 (hr_hash demo_genesis) 1060 sample_child_bits (demo_body 1 2)).
Definition demo_work : Work := Eval vm_compute in
  match expand_bits (hr_bits demo_genesis) (pow_limit ChainParams_default) with
  | Some t => match work_from_target (E := Reject) (target_to_be t) with Ok w => w | _ => Work_ZERO end
  | None => Work_ZERO
  end.
Definition demo_start : MemStore :=
  MkMemStore [demo_genesis] [demo_work] [0] {[hr_hash demo_genesis := demo_body 0 1]} ∅ ∅ ∅ ∅ ∅ None None 0 256 0 0 None 0 0 0 false.
Lemma demo_start_ok : with_genesis demo_genesis (demo_body 0 1) ChainParams_default = Ok demo_start.
Proof. vm_compute. reflexivity. Qed.
(** The child is a side header; [held] says if the store has its body too, [fail] is the failure injected into the next commit. *)
Definition demo_store (held : bool) (fail : option SinkError) : MemStore :=
  let s := ms_store_side_header demo_start (MkSideHeaderRec demo_child Work_ZERO) in
  let s := ms_set_tables s (if held then <[hr_hash demo_child := demo_body 1 2]> (ms_bodies s) else ms_bodies s) (ms_side s) (ms_accounts s) (ms_undo s) (ms_snapshots s) in
  ms_set_misc s (ms_invalid s) (ms_anchor_record s) (ms_fail_next_anchor s) fail (ms_commits s) (ms_side_headers_written s).
Definition demo_world (held : bool) (fail : option SinkError) : MemWorld := MkMemWorld (demo_store held fail) (MkMockClock 2000 0).
#[local] Instance demo_io : ChainIO MemWorld := mem_io AlwaysOk 3000.
Definition demo_inv : MemWorld -> Prop := mem_inv AlwaysOk.
Definition demo_manager (held : bool) (fail : option SinkError) : ChainManager MemWorld :=
  match ChainManager_new (demo_world held fail) ChainParams_default true with
  | Ok m => m
  | _ => ChainManager_empty (demo_world held fail) ChainParams_default true
  end.
Definition demo_states (h : Z) (a : Address) : Account := MkAccount 0 0.
Definition demo_m : ChainManager MemWorld := demo_manager false None.
Definition demo_m1 : ChainManager MemWorld := fst (handle EvAdvance demo_m).
Definition demo_m2 : ChainManager MemWorld := fst (handle (EvBlock (hr_hash demo_child) (demo_body 1 2)) demo_m1).
Definition demo_m3 : ChainManager MemWorld := fst (handle EvAdvance demo_m2).

Lemma demo_laws : ChainIOLaws ChainParams_default demo_inv.
Proof. apply mem_laws. Qed.
#[local] Existing Instance demo_laws.
Lemma demo_fine : params_fine ChainParams_default.
Proof. split; vm_compute; intuition congruence. Qed.
Lemma demo_no_snapshots : serves_no_snapshots demo_inv.
Proof.
  intros w K h. pose proof (mk_snapshots _ K) as Hs. cbn. unfold ms_checkpoint. rewrite Hs. split; [apply lookup_empty|]. by rewrite map_to_list_empty.
Qed.
Lemma demo_genesis_sound : rec_sound demo_genesis.
Proof. split; [vm_compute; reflexivity|]. split; [solve_bytes_ok|]. split; [vm_compute; reflexivity|done]. Qed.
Lemma demo_child_sound : rec_sound demo_child.
Proof. split; [vm_compute; reflexivity|]. split; [solve_bytes_ok|]. split; [vm_compute; reflexivity|done]. Qed.
Lemma demo_world_inv held fail : demo_inv (demo_world held fail).
Proof.
  constructor; cbn; try done.
  - constructor; [apply demo_genesis_sound|constructor].
  - apply NoDup_singleton.
  - intros h r Hr. apply lookup_insert_Some in Hr as [[<- <-]|[_ Hr]]; [|by rewrite lookup_empty in Hr]. split; [apply demo_child_sound|done].
  - intros h b Hb. destruct held; [apply lookup_insert_Some in Hb as [[<- <-]|[_ Hb]]; [solve_bytes_ok|]|]; apply lookup_singleton_Some in Hb as [<- <-]; solve_bytes_ok.
Qed.
Lemma demo_bootable held fail : bootable ChainParams_default demo_inv demo_states (demo_world held fail) 0.
Proof.
  set (w := demo_world held fail).
  assert (st_header_at (io_store w) 0 = Some demo_genesis) as Hg by (vm_compute; reflexivity).
  assert (st_header_by_hash (io_store w) (hr_hash demo_genesis) = Some demo_genesis) as Hb by (vm_compute; reflexivity).
  assert (io_side_headers_from w 0 (max_side_headers ChainParams_default) = [demo_child]) as Hr by (vm_compute; reflexivity).
  constructor.
  - apply default_params_ok.
  - vm_compute. intuition congruence.
  - apply demo_world_inv.
  - split; [vm_compute; reflexivity|lia].
  - vm_compute. intuition congruence.
  - constructor; [intros x; cbn; unfold ms_account; cbn; by rewrite lookup_empty|intros; lia|intros; lia| |].
    + intros h rows Hx. destruct (demo_no_snapshots w (demo_world_inv held fail) h). congruence.
    + intros h c Hx. destruct (demo_no_snapshots w (demo_world_inv held fail) h). congruence.
  - intros h Hh x. cbn. unfold MAX_TXS_PER_BLOCK, umax. lia.
  - intros h Hh. assert (h = 0) as -> by lia. exists demo_genesis. split; [done|]. split; [apply demo_genesis_sound|]. by split.
  - intros; lia.
  - rewrite Hr. constructor; [|constructor]. split; [apply demo_child_sound|]. intros r.
    assert (st_header_by_hash (io_store w) (hr_hash demo_child) = Some demo_child) as -> by (vm_compute; reflexivity). by intros [= <-].
  - rewrite Hr. vm_compute. congruence.
  - intros l. eexists. subst w. destruct held; vm_compute; reflexivity.
Qed.
Lemma demo_new held fail : match ChainManager_new (demo_world held fail) ChainParams_default true with Ok _ => true | _ => false end = true ->
  exists a, reflects ChainParams_default demo_inv (demo_manager held fail) a /\ lg_tip a = 0.
Proof.
  pose proof (boot_reflects ChainParams_default demo_inv demo_states (demo_world held fail) 0 true demo_fine (demo_bootable held fail)) as H.
  unfold demo_manager. destruct (ChainManager_new (demo_world held fail) ChainParams_default true) as [m| |]; [|done..].
  destruct H as (a & Rf & _ & Ht & _). by exists a.
Qed.
Lemma demo_room (m : ChainManager MemWorld) : cm_stats m = MkChainStats 0 0 0 0 0 0 1 0 -> Zlen (ix_nodes (cm_index m)) - invalid_count (ix_nodes (cm_index m)) = 2 ->
  ample ChainParams_default EvAdvance m.
Proof. intros Hs Hn. unfold ample. rewrite Hs, Hn. split; cbn; lia. Qed.
Lemma demo_ample : ample ChainParams_default EvAdvance demo_m /\ ample ChainParams_default EvAdvance demo_m2 /\
  ample ChainParams_default (EvBlock (hr_hash demo_child) (demo_body 1 2)) demo_m1.
Proof.
  split; [apply demo_room; vm_compute; reflexivity|]. split; [apply demo_room; vm_compute; reflexivity|]. split; [|solve_bytes_ok].
  split; [vm_compute; reflexivity..|]. assert (cst_headers_readmitted (cm_stats demo_m1) = 0) as -> by (vm_compute; reflexivity). lia.
Qed.
Lemma demo_handle (m : ChainManager MemWorld) e : match snd (handle e m) with Ok _ => true | _ => false end = true -> handle e m = (fst (handle e m), Ok tt).
Proof. destruct (handle e m) as [m' [[]| |]]; cbn; congruence. Qed.
Lemma demo_steps : handle EvAdvance demo_m = (demo_m1, Ok tt) /\
  handle (EvBlock (hr_hash demo_child) (demo_body 1 2)) demo_m1 = (demo_m2, Ok tt) /\ handle EvAdvance demo_m2 = (demo_m3, Ok tt).
Proof.
  split; [|split]; apply demo_handle; vm_compute; reflexivity.
Qed.
Lemma demo_run : run ChainParams_default demo_m [EvAdvance; EvBlock (hr_hash demo_child) (demo_body 1 2); EvAdvance] demo_m3.
Proof.
  destruct demo_ample as (A1 & A2 & A3), demo_steps as (S1 & S2 & S3).
  eapply run_cons; [vm_compute; reflexivity|exact A1|exact S1|]. eapply run_cons; [vm_compute; reflexivity|exact A3|exact S2|].
  eapply run_cons; [vm_compute; reflexivity|exact A2|exact S3|]. constructor.
Qed.
Lemma demo_run2 : run ChainParams_default demo_m [EvAdvance; EvBlock (hr_hash demo_child) (demo_body 1 2)] demo_m2.
Proof.
  destruct demo_ample as (A1 & A2 & A3), demo_steps as (S1 & S2 & S3).
  eapply run_cons; [vm_compute; reflexivity|exact A1|exact S1|]. eapply run_cons; [vm_compute; reflexivity|exact A3|exact S2|]. constructor.
Qed.

Lemma boot_restores_ledger_witness : exists m a, ChainManager_new (demo_world false None) ChainParams_default true = Ok m /\
  reflects ChainParams_default demo_inv m a /\ lg_states a = demo_states /\ lg_tip a = 0.
Proof.
  pose proof (boot_restores_ledger ChainParams_default demo_inv demo_states (demo_world false None) 0 true demo_fine (demo_bootable false None)) as H.
  assert (match ChainManager_new (demo_world false None) ChainParams_default true with Ok _ => true | _ => false end = true) as Hok by (vm_compute; reflexivity).
  destruct (ChainManager_new (demo_world false None) ChainParams_default true) as [m| |]; [|discriminate Hok..].
  destruct H as (a & H1 & H2 & H3 & _). exists m, a. auto.
Defined.
Definition demo_broken : ChainManager MemWorld := demo_manager true (Some (SinkFatal "disk full")).
Lemma fatal_error_is_final_witness : exists m', advance demo_broken = (m', Err (Halted "disk full")) /\ stuck m' /\ handle EvAdvance m' = (m', Err (Halted "disk full")).
Proof.
  destruct (demo_new true (Some (SinkFatal "disk full"))) as (a & Rf & Ht); [vm_compute; reflexivity|].
  assert (snd (advance demo_broken) = Err (Halted "disk full")) as Hs by (vm_compute; reflexivity).
  assert (advance demo_broken = (fst (advance demo_broken), Err (Halted "disk full"))) as Hf by (rewrite <-Hs; apply surjective_pairing).
  assert (ample ChainParams_default EvAdvance demo_broken) as Ha by (apply demo_room; vm_compute; reflexivity).
  destruct (fatal_error_is_final ChainParams_default demo_inv demo_broken (fst (advance demo_broken)) a "disk full" Rf Ha Hf) as [H1 H2].
  exists (fst (advance demo_broken)). split; [exact Hf|]. split; [exact H1|exact (H2 EvAdvance)].
Defined.
Lemma submit_block_verdict_witness : blake3_collision \/ exists m', submit_block (hr_hash demo_child) (demo_body 1 2) demo_m = (m', Ok tt) /\
  body_kept demo_m m' (hr_hash demo_child) (demo_body 1 2).
Proof.
  destruct (demo_new false None) as (a & Rf & Ht); [vm_compute; reflexivity|].
  destruct (submit_block_verdict ChainParams_default demo_inv demo_m a (hr_hash demo_child) (demo_body 1 2) Rf) as [Hc|(m' & r & H1 & _ & H2)].
  - split; [|solve_bytes_ok]. split; [vm_compute; reflexivity..|]. assert (cst_headers_readmitted (cm_stats demo_m) = 0) as -> by (vm_compute; reflexivity). lia.
  - left. exact Hc.
  - right. assert (match snd (submit_block (hr_hash demo_child) (demo_body 1 2) demo_m) with Ok _ => true | _ => false end = true) as Hok by (vm_compute; reflexivity).
    rewrite H1 in Hok. destruct r as [[]| |]; [|discriminate Hok..]. exists m'. split; [exact H1|exact H2].
Defined.
Lemma locator_reaches_back_witness : exists l, locator demo_m = Ok l /\ list.last l = hi_hash <$> zlookup (headers_of ChainParams_default demo_m) 0.
Proof.
  destruct (demo_new false None) as (a & Rf & Ht); [vm_compute; reflexivity|].
  destruct (locator_reaches_back ChainParams_default demo_m 0) as (l & K & H1 & _ & _ & _ & _ & H2);
    [apply (mo_index _ _ _ _ (nk_ok _ _ _ _ (rf_order _ _ _ _ Rf)))|vm_compute; reflexivity|].
  exists l. split; [exact H1|exact H2].
Defined.
Lemma mock_store_keeps_contract_witness : demo_inv (MkMemWorld demo_start (MkMockClock 2000 0)).
Proof.
  apply (proj2 (mock_store_keeps_contract AlwaysOk 3000 ChainParams_default (MkMockClock 2000 0)) demo_genesis (demo_body 0 1));
    [exact demo_genesis_sound|solve_bytes_ok|exact demo_start_ok].
Defined.
