(* ===== verification/Aes.v ===== *)
(** The AES round of the proof of work (src/lib/pow/src/aes.rs). The crate has one
    module per processor: on x86-64 the round is one instruction, on aarch64 it is put
    together from three. The instructions are those of core::arch, written here from
    FIPS 197 over the sixteen bytes of the state in memory order; the two modules
    compute the same function. *)

From Stdlib Require Import ZArith Lia List Btauto.
From stdpp Require Import base list numbers.
From S2P Require Import Prelude.
Open Scope Z_scope.

(** ** FIPS 197 *)

(** Multiplication by x in GF(2^8) modulo x^8 + x^4 + x^3 + x + 1, and of two elements. *)
Definition xtime (a : Z) : Z := if a <? 128 then 2 * a else Z.lxor (2 * a - 256) 27.
Fixpoint gf_mul (bits : nat) (a b : Z) : Z :=
  match bits with
  | O => 0
  | S bits => Z.lxor (if Z.odd b then a else 0) (gf_mul bits (xtime a) (b / 2))
  end.
Abbreviation gmul := (gf_mul 8).
(** The inverse is the 254th power. *)
Fixpoint gf_pow (n : nat) (a : Z) : Z := match n with O => 1 | S n => gmul a (gf_pow n a) end.
Definition affine (a : Z) : Z :=
  Z.lxor 99 (Z.lxor a (Z.lxor (rotate_left 8 a 1) (Z.lxor (rotate_left 8 a 2) (Z.lxor (rotate_left 8 a 3) (rotate_left 8 a 4))))).
Definition SBOX : list Z := Eval vm_compute in (fun a => affine (gf_pow 254 a)) <$> zrange 0 256.
Definition sbox (a : Z) : Z := default 0 (zlookup SBOX a).

(** The state is sixteen bytes, column by column: row [r] of column [c] is byte [r + 4c]. *)
Definition sub_bytes (st : bytes) : bytes := sbox <$> st.
Definition shift_rows (st : bytes) : bytes :=
  (fun i => byte_at st (i mod 4 + 4 * ((i / 4 + i mod 4) mod 4))) <$> zrange 0 16.
Definition mix_column (a b c d : Z) : bytes :=
  let three x := Z.lxor (xtime x) x in
  [Z.lxor (xtime a) (Z.lxor (three b) (Z.lxor c d)); Z.lxor a (Z.lxor (xtime b) (Z.lxor (three c) d));
   Z.lxor a (Z.lxor b (Z.lxor (xtime c) (three d))); Z.lxor (three a) (Z.lxor b (Z.lxor c (xtime d)))].
Definition mix_columns (st : bytes) : bytes :=
  concat ((fun c => mix_column (byte_at st (4 * c)) (byte_at st (4 * c + 1)) (byte_at st (4 * c + 2)) (byte_at st (4 * c + 3))) <$> zrange 0 4).
Definition xor_bytes (a b : bytes) : bytes := zip_with Z.lxor a b.

(** ** The instructions *)

(** [_mm_aesenc_si128] of x86-64. *)
Definition mm_aesenc (v k : bytes) : bytes := xor_bytes (mix_columns (sub_bytes (shift_rows v))) k.
(** [vaeseq_u8] and [vaesmcq_u8] of aarch64: the key is added first, and the columns are not mixed. *)
Definition vaese (v k : bytes) : bytes := shift_rows (sub_bytes (xor_bytes v k)).
Definition vaesmc (v : bytes) : bytes := mix_columns v.

(** ** aes.rs *)

(** [[u64; 2]] as a 128-bit register and back: the first word is the low lane. *)
Definition U64x2 : Type := Z * Z.
Definition lanes (w : U64x2) : bytes := le_bytes 8 (fst w) ++ le_bytes 8 (snd w).
Definition words_of (v : bytes) : U64x2 := (from_le (take 8 v), from_le (drop 8 v)).

Definition AESKEY : bytes := [0x3C; 0x6E; 0xF3; 0x72; 0xA5; 0x4F; 0xF5; 0x3A; 0x51; 0x0E; 0x52; 0x7F; 0x9B; 0x05; 0x68; 0x8C].
Definition key_word (off : Z) : Z :=
  fold_left (fun v i => Z.lor v (Z.shiftl (byte_at AESKEY (off + i)) (8 * i))) (zrange 0 8) 0.
Definition KEY_LO : Z := Eval vm_compute in key_word 0.
Definition KEY_HI : Z := Eval vm_compute in key_word 8.

(** [imp::aesenc_key] on x86-64, and on aarch64. *)
Definition aesenc_key (state key : U64x2) : U64x2 := words_of (mm_aesenc (lanes state) (lanes key)).
Definition aesenc_key_aarch64 (state key : U64x2) : U64x2 :=
  words_of (xor_bytes (vaesmc (vaese (lanes state) (replicate 16 0))) (lanes key)).
Definition aesenc (state : U64x2) : U64x2 := aesenc_key state (KEY_LO, KEY_HI).
Definition aesenc_aarch64 (state : U64x2) : U64x2 := aesenc_key_aarch64 state (KEY_LO, KEY_HI).

(** A round of FIPS 197, appendix B: the first one of its example. *)
Example aes_fips_round :
  mm_aesenc [0x19; 0x3d; 0xe3; 0xbe; 0xa0; 0xf4; 0xe2; 0x2b; 0x9a; 0xc6; 0x8d; 0x2a; 0xe9; 0xf8; 0x48; 0x08]
    [0xa0; 0xfa; 0xfe; 0x17; 0x88; 0x54; 0x2c; 0xb1; 0x23; 0xa3; 0x39; 0x39; 0x2a; 0x6c; 0x76; 0x05]
  = [0xa4; 0x9c; 0x7f; 0xf2; 0x68; 0x9f; 0x35; 0x2b; 0x6b; 0x5b; 0xea; 0x43; 0x02; 0x6a; 0x50; 0x49].
Proof. vm_compute. reflexivity. Qed.

(** ** Ranges *)
Lemma byte_lxor a b : byte_ok a -> byte_ok b -> byte_ok (Z.lxor a b).
Proof.
  intros Ha Hb. unfold byte_ok in *. assert (0 <= Z.lxor a b) as H0 by (apply Z.lxor_nonneg; lia). split; [done|].
  destruct (Z.eq_dec (Z.lxor a b) 0) as [->|Hne]; [lia|]. apply (Z.log2_lt_pow2 _ 8); [lia|].
  pose proof (Z.log2_lxor a b ltac:(lia) ltac:(lia)) as Hl.
  destruct (Z.eq_dec a 0), (Z.eq_dec b 0); subst; rewrite ?Z.lxor_0_l, ?Z.lxor_0_r in *; try lia.
  - apply Z.log2_lt_pow2; lia.
  - apply Z.log2_lt_pow2; lia.
  - pose proof (proj1 (Z.log2_lt_pow2 a 8 ltac:(lia)) ltac:(lia)). pose proof (proj1 (Z.log2_lt_pow2 b 8 ltac:(lia)) ltac:(lia)). lia.
Qed.
Lemma xtime_ok a : byte_ok a -> byte_ok (xtime a).
Proof. intros Ha. unfold xtime. destruct (Z.ltb_spec a 128); [unfold byte_ok in *; lia|]. apply byte_lxor; unfold byte_ok in *; lia. Qed.
Lemma sbox_ok a : byte_ok (sbox a).
Proof.
  unfold sbox. destruct (zlookup SBOX a) as [x|] eqn:E; [|unfold byte_ok; cbn; lia]. cbn.
  assert (bytes_ok SBOX) as H by solve_bytes_ok. unfold bytes_ok in H. rewrite Forall_forall in H. apply H, list_elem_of_In, zlookup_elem. eauto.
Qed.
Create HintDb aes.
#[local] Hint Resolve byte_lxor xtime_ok sbox_ok byte_at_ok : aes.
Lemma sub_bytes_ok st : bytes_ok (sub_bytes st).
Proof. apply Forall_fmap, Forall_true. intros x. apply sbox_ok. Qed.
Lemma shift_rows_ok st : bytes_ok st -> bytes_ok (shift_rows st).
Proof. intros H. apply Forall_fmap, Forall_true. intros i. by apply byte_at_ok. Qed.
Lemma mix_column_ok a b c d : byte_ok a -> byte_ok b -> byte_ok c -> byte_ok d -> bytes_ok (mix_column a b c d).
Proof. intros. unfold mix_column, bytes_ok. cbv zeta. do 4 (constructor; [auto 12 with aes|]). constructor. Qed.
Lemma mix_columns_ok st : bytes_ok st -> bytes_ok (mix_columns st).
Proof. intros H. apply Forall_concat, Forall_fmap, Forall_true. intros c. by apply mix_column_ok; apply byte_at_ok. Qed.
Lemma xor_bytes_ok a b : bytes_ok a -> bytes_ok b -> bytes_ok (xor_bytes a b).
Proof.
  intros Ha. revert b. induction Ha as [|x a Hx _ IH]; intros b Hb; [constructor|]. destruct Hb as [|y b Hy Hb]; [constructor|].
  cbn. constructor; [by apply byte_lxor|]. by apply IH.
Qed.
Lemma mm_aesenc_ok v k : bytes_ok k -> bytes_ok (mm_aesenc v k).
Proof. intros Hk. apply xor_bytes_ok; [|done]. apply mix_columns_ok, sub_bytes_ok. Qed.

Lemma length_shift_rows st : length (shift_rows st) = 16%nat.
Proof. reflexivity. Qed.
Lemma length_mix_columns st : length (mix_columns st) = 16%nat.
Proof. reflexivity. Qed.
Lemma length_lanes w : length (lanes w) = 16%nat.
Proof. reflexivity. Qed.
Lemma lanes_ok w : bytes_ok (lanes w).
Proof. apply Forall_app_2; apply le_bytes_ok. Qed.
Lemma length_mm_aesenc v k : length k = 16%nat -> length (mm_aesenc v k) = 16%nat.
Proof. intros Hk. unfold mm_aesenc, xor_bytes. by rewrite length_zip_with, length_mix_columns, Hk. Qed.

Definition u64x2_ok (w : U64x2) : Prop := 0 <= fst w < 2 ^ 64 /\ 0 <= snd w < 2 ^ 64.
Lemma words_of_ok v : bytes_ok v -> length v = 16%nat -> u64x2_ok (words_of v).
Proof.
  intros Hv Hl. split; cbn [fst snd words_of].
  - pose proof (from_le_bounds (take 8 v) (Forall_take _ 8 _ Hv)) as H. unfold Zlen in H. rewrite length_take, Hl in H. exact H.
  - pose proof (from_le_bounds (drop 8 v) (Forall_drop _ 8 _ Hv)) as H. unfold Zlen in H. rewrite length_drop, Hl in H. exact H.
Qed.
Lemma aesenc_key_ok s k : u64x2_ok (aesenc_key s k).
Proof. apply words_of_ok; [apply mm_aesenc_ok, lanes_ok|by apply length_mm_aesenc]. Qed.
Lemma aesenc_ok s : u64x2_ok (aesenc s).
Proof. unfold aesenc. apply aesenc_key_ok. Qed.
Lemma words_of_lanes w : u64x2_ok w -> words_of (lanes w) = w.
Proof.
  intros [H1 H2]. destruct w as [a b]. unfold words_of, lanes. cbn [fst snd] in *. rewrite take_app_length', drop_app_length' by by rewrite length_le_bytes.
  by rewrite !from_le_le_bytes.
Qed.
Lemma lanes_words_of v : bytes_ok v -> length v = 16%nat -> lanes (words_of v) = v.
Proof.
  intros Hv Hl. unfold lanes, words_of. cbn [fst snd]. rewrite (le_bytes_from_le' 8 (take 8 v)), (le_bytes_from_le' 8 (drop 8 v)); [apply take_drop|..].
  - by apply Forall_drop.
  - unfold Zlen. by rewrite length_drop, Hl.
  - by apply Forall_take.
  - unfold Zlen. by rewrite length_take, Hl.
Qed.

(** ** The two processors agree *)
Lemma byte_at_fmap f st i : 0 <= i < Zlen st -> byte_at (f <$> st) i = f (byte_at st i).
Proof.
  intros Hi. unfold byte_at. rewrite list_lookup_fmap. destruct (lookup_lt_is_Some_2 st (Z.to_nat i)) as [x ->]; [unfold Zlen in Hi; lia|done].
Qed.
Lemma shift_sub_comm st : length st = 16%nat -> shift_rows (sub_bytes st) = sub_bytes (shift_rows st).
Proof.
  intros Hl. unfold shift_rows, sub_bytes. rewrite <-list_fmap_compose. apply list_fmap_ext. intros j i Hi. cbn.
  apply list_elem_of_lookup_2, list_elem_of_In, in_zrange in Hi. apply byte_at_fmap. unfold Zlen. rewrite Hl.
  pose proof (Z.mod_pos_bound i 4). pose proof (Z.mod_pos_bound (i / 4 + i mod 4) 4). lia.
Qed.
Lemma xor_zero st n : length st = n -> xor_bytes st (replicate n 0) = st.
Proof. intros <-. unfold xor_bytes. induction st as [|x st IH]; [done|]. cbn. by rewrite Z.lxor_0_r, IH. Qed.

(** Both processors compute the same round: the aarch64 sequence (add a zero key, substitute and shift, mix columns, then
    add the key) is the single x86-64 instruction, on every state and key. *)
Theorem aes_platforms_agree (state key : U64x2) : aesenc_key_aarch64 state key = aesenc_key state key.
Proof.
  unfold aesenc_key_aarch64, aesenc_key, mm_aesenc, vaesmc, vaese. by rewrite (xor_zero (lanes state) 16), shift_sub_comm by apply length_lanes.
Qed.

(** ** A round is invertible *)
Lemma xtime_bits a : byte_ok a -> xtime a = Z.lxor (Z.land (2 * a) 255) (if Z.testbit a 7 then 27 else 0).
Proof.
  intros Ha. assert (forallb (fun a => xtime a =? Z.lxor (Z.land (2 * a) 255) (if Z.testbit a 7 then 27 else 0)) (zrange 0 256) = true) as H by (vm_compute; reflexivity).
  rewrite forallb_forall in H. apply Z.eqb_eq, H, in_zrange. exact Ha.
Qed.
Lemma xtime_lxor a b : byte_ok a -> byte_ok b -> xtime (Z.lxor a b) = Z.lxor (xtime a) (xtime b).
Proof.
  intros Ha Hb. rewrite !xtime_bits by auto using byte_lxor. rewrite Z.lxor_spec. apply Z.bits_inj'. intros n Hn.
  rewrite !Z.lxor_spec, !Z.land_spec. replace (2 * Z.lxor a b) with (Z.shiftl (Z.lxor a b) 1) by (rewrite Z.shiftl_mul_pow2 by lia; lia).
  replace (2 * a) with (Z.shiftl a 1) by (rewrite Z.shiftl_mul_pow2 by lia; lia). replace (2 * b) with (Z.shiftl b 1) by (rewrite Z.shiftl_mul_pow2 by lia; lia).
  rewrite !Z.shiftl_spec, Z.lxor_spec by lia. destruct (Z.testbit a 7), (Z.testbit b 7); cbn [xorb]; rewrite ?Z.testbit_0_l; btauto.
Qed.

(** The inverse of a column, in the powers of x. *)
Definition unmix (a b c d : Z) : Z :=
  let x y := xtime y in
  Z.lxor (Z.lxor (x (x (x a))) (Z.lxor (x (x a)) (x a))) (Z.lxor (Z.lxor (x (x (x b))) (Z.lxor (x b) b))
    (Z.lxor (Z.lxor (x (x (x c))) (Z.lxor (x (x c)) c)) (Z.lxor (x (x (x d))) d))).
Ltac unmix_tac := unfold unmix; cbv zeta; repeat rewrite xtime_lxor by auto 20 with aes; apply Z.bits_inj'; intros n Hn; rewrite ?Z.lxor_spec; btauto.
Section Column.
Context (a b c d : Z) (Ha : byte_ok a) (Hb : byte_ok b) (Hc : byte_ok c) (Hd : byte_ok d).
Abbreviation three x := (Z.lxor (xtime x) x).
Abbreviation o0 := (Z.lxor (xtime a) (Z.lxor (three b) (Z.lxor c d))).
Abbreviation o1 := (Z.lxor a (Z.lxor (xtime b) (Z.lxor (three c) d))).
Abbreviation o2 := (Z.lxor a (Z.lxor b (Z.lxor (xtime c) (three d)))).
Abbreviation o3 := (Z.lxor (three a) (Z.lxor b (Z.lxor c (xtime d)))).
Lemma unmix_a : unmix o0 o1 o2 o3 = a. Proof. unmix_tac. Qed.
Lemma unmix_b : unmix o1 o2 o3 o0 = b. Proof. unmix_tac. Qed.
Lemma unmix_c : unmix o2 o3 o0 o1 = c. Proof. unmix_tac. Qed.
Lemma unmix_d : unmix o3 o0 o1 o2 = d. Proof. unmix_tac. Qed.
End Column.
Lemma mix_column_inj a b c d a' b' c' d' : bytes_ok [a; b; c; d] -> bytes_ok [a'; b'; c'; d'] ->
  mix_column a b c d = mix_column a' b' c' d' -> a = a' /\ b = b' /\ c = c' /\ d = d'.
Proof.
  intros H H' E. unfold bytes_ok in *. rewrite !list.Forall_cons in H, H'. destruct H as (Ha & Hb & Hc & Hd & _), H' as (Ha' & Hb' & Hc' & Hd' & _).
  unfold mix_column in E. cbv zeta in E. injection E as E0 E1 E2 E3.
  split; [|split; [|split]]; [rewrite <-(unmix_a a b c d), <-(unmix_a a' b' c' d') by done|rewrite <-(unmix_b a b c d), <-(unmix_b a' b' c' d') by done
    |rewrite <-(unmix_c a b c d), <-(unmix_c a' b' c' d') by done|rewrite <-(unmix_d a b c d), <-(unmix_d a' b' c' d') by done]; congruence.
Qed.

(** A list of sixteen bytes by its elements. *)
Lemma sixteen (st : bytes) : length st = 16%nat -> exists a0 a1 a2 a3 a4 a5 a6 a7 a8 a9 b0 b1 b2 b3 b4 b5,
  st = [a0; a1; a2; a3; a4; a5; a6; a7; a8; a9; b0; b1; b2; b3; b4; b5].
Proof. intros H. do 16 (destruct st as [|? st]; [discriminate H|]). destruct st; [|discriminate H]. by do 16 eexists. Qed.
Ltac split_bytes H := let E := fresh "E" in destruct (sixteen _ H) as (? & ? & ? & ? & ? & ? & ? & ? & ? & ? & ? & ? & ? & ? & ? & ? & E); subst.

Lemma mix_columns_16 a0 a1 a2 a3 a4 a5 a6 a7 a8 a9 b0 b1 b2 b3 b4 b5 :
  mix_columns [a0; a1; a2; a3; a4; a5; a6; a7; a8; a9; b0; b1; b2; b3; b4; b5] =
  mix_column a0 a1 a2 a3 ++ mix_column a4 a5 a6 a7 ++ mix_column a8 a9 b0 b1 ++ mix_column b2 b3 b4 b5 ++ [].
Proof. reflexivity. Qed.
Lemma shift_rows_16 a0 a1 a2 a3 a4 a5 a6 a7 a8 a9 b0 b1 b2 b3 b4 b5 :
  shift_rows [a0; a1; a2; a3; a4; a5; a6; a7; a8; a9; b0; b1; b2; b3; b4; b5] = [a0; a5; b0; b5; a4; a9; b4; a3; a8; b3; a2; a7; b2; a1; a6; b1].
Proof. reflexivity. Qed.
Lemma mix_columns_inj s t : bytes_ok s -> bytes_ok t -> length s = 16%nat -> length t = 16%nat -> mix_columns s = mix_columns t -> s = t.
Proof.
  intros Hs Ht Ls Lt E. split_bytes Ls. split_bytes Lt. unfold bytes_ok in Hs, Ht. rewrite !list.Forall_cons in Hs, Ht.
  destruct Hs as (?&?&?&?&?&?&?&?&?&?&?&?&?&?&?&?&_), Ht as (?&?&?&?&?&?&?&?&?&?&?&?&?&?&?&?&_).
  rewrite !mix_columns_16 in E.
  repeat (apply app_inj_1 in E as [?E E]; [|reflexivity]).
  repeat match goal with
         | H : mix_column _ _ _ _ = mix_column _ _ _ _ |- _ =>
           apply mix_column_inj in H as (-> & -> & -> & ->); [|by unfold bytes_ok; rewrite !list.Forall_cons, list.Forall_nil..]
         end. done.
Qed.
Fixpoint position (y : Z) (l : list Z) : Z :=
  match l with
  | [] => 0
  | x :: l => if x =? y then 0 else 1 + position y l
  end.
Lemma sbox_position a : byte_ok a -> position (sbox a) SBOX = a.
Proof.
  intros Ha. assert (forallb (fun a => position (sbox a) SBOX =? a) (zrange 0 256) = true) as H by (vm_compute; reflexivity).
  rewrite forallb_forall in H. apply Z.eqb_eq, H, in_zrange. exact Ha.
Qed.
Lemma sbox_inj a b : byte_ok a -> byte_ok b -> sbox a = sbox b -> a = b.
Proof. intros Ha Hb E. by rewrite <-(sbox_position a Ha), <-(sbox_position b Hb), E. Qed.
Lemma sub_bytes_inj s : forall t, bytes_ok s -> bytes_ok t -> sub_bytes s = sub_bytes t -> s = t.
Proof.
  induction s as [|x s IH]; intros [|y t] Hs Ht E; try done. unfold bytes_ok in *. rewrite list.Forall_cons in Hs, Ht. destruct Hs, Ht. cbn in E. injection E as E1 E2.
  f_equal; [by apply sbox_inj|by apply IH].
Qed.
Lemma shift_rows_inj s t : length s = 16%nat -> length t = 16%nat -> shift_rows s = shift_rows t -> s = t.
Proof. intros Ls Lt E. split_bytes Ls. split_bytes Lt. rewrite !shift_rows_16 in E. by injection E as -> -> -> -> -> -> -> -> -> -> -> -> -> -> -> ->. Qed.
Lemma xor_bytes_inj k : forall s t, length s = length k -> length t = length k -> xor_bytes s k = xor_bytes t k -> s = t.
Proof.
  induction k as [|z k IH]; intros [|x s] [|y t] Ls Lt E; try done. cbn in *. injection E as E1 E2. f_equal; [|apply IH; [lia|lia|exact E2]].
  apply (f_equal (Z.lxor z)) in E1. rewrite !(Z.lxor_comm _ z), <-!Z.lxor_assoc, Z.lxor_nilpotent, !Z.lxor_0_l in E1. done.
Qed.
Lemma aesenc_key_inj s t k : u64x2_ok s -> u64x2_ok t -> aesenc_key s k = aesenc_key t k -> s = t.
Proof.
  intros Hs Ht E. unfold aesenc_key in E. apply (f_equal lanes) in E.
  rewrite !lanes_words_of in E by (apply mm_aesenc_ok, lanes_ok || by apply length_mm_aesenc). unfold mm_aesenc in E.
  apply xor_bytes_inj in E; [|by rewrite length_mix_columns..]. apply mix_columns_inj in E; [|apply sub_bytes_ok|apply sub_bytes_ok|by unfold sub_bytes; rewrite length_fmap..].
  apply sub_bytes_inj in E; [|apply shift_rows_ok, lanes_ok..]. apply shift_rows_inj in E; [|done..].
  by rewrite <-(words_of_lanes s Hs), <-(words_of_lanes t Ht), E.
Qed.
