(* ===== verification/Isochron.v ===== *)
(** Isochron, the proof-of-work function (src/lib/pow): the random program, the
    scratchpad fill and the interpreter. A hash fills 64 KiB from the seed, derives a
    program of 512 instructions from the fill and runs it 1024 times over the pad.
    Arrays are lists, and an index out of range is a panic. *)

From Stdlib Require Import ZArith Lia List String.
From stdpp Require Import base list numbers.
From S2P Require Import Prelude Aes.
Open Scope Z_scope.

(** ** consts.rs *)
Definition SCRATCH_BYTES : Z := 65536.
Definition SCRATCH_WORDS : Z := SCRATCH_BYTES / 8.
Definition SCRATCH_MASK : Z := SCRATCH_BYTES - 8.
Definition LINE_MASK : Z := SCRATCH_BYTES - 16.
Definition LOOPS : Z := 1024.
Definition BLOCKS : Z := 32.
Definition BLOCK_INSTR : Z := 16.
Definition PROG_INSTR : Z := BLOCKS * BLOCK_INSTR.
Definition NREG : Z := 8.
Definition MULT : Z := 0x9E3779B97F4A7C15.
Definition C1 : Z := 0x6A09E667.
Definition C2 : Z := 0xBB67AE85.
Definition FILL_DOM : Z := 0x1F83D9AB5BE0CD19.
Definition PER_BLOCK : list Z := [0; 0; 0; 0; 0; 0; 1; 2; 3; 3; 3; 3; 3; 4; 5; 5].
Definition ROLE_OFFS : list Z := [3; 5; 1; 7; 2; 6; 4; 5].
Definition RNG_DOM_SINGLE : Z := 7.
Definition RNG_DOM_PROGRAM : Z := 2.
Definition HIST : list Z := [32; 32; 32; 32; 32; 32; 8; 8; 8; 8; 16; 16; 27; 27; 27; 27; 26; 26; 16; 16; 64].

(** ** rng.rs *)
Definition GAMMA : Z := 0x9E3779B97F4A7C15.
Definition MIX1 : Z := 0xBF58476D1CE4E5B9.
Definition MIX2 : Z := 0x94D049BB133111EB.
Definition DOM_MULT : Z := 0xD6E8FEB86659FD93.
Record Rng := MkRng { s0 : Z }.
Definition Rng_next (r : Rng) : Z * Rng :=
  let x := wrap 64 (s0 r + GAMMA) in
  let r := MkRng x in
  let x := Z.lxor x (Z.shiftr x 30) in
  let x := wrap 64 (x * MIX1) in
  let x := Z.lxor x (Z.shiftr x 27) in
  let x := wrap 64 (x * MIX2) in
  (Z.lxor x (Z.shiftr x 31), r).
Definition Rng_new (seed dom : Z) : Rng :=
  let r := MkRng (Z.lxor seed (wrap 64 (dom * DOM_MULT))) in
  fold_left (fun r _ => snd (Rng_next r)) (zrange 0 4) r.

(** ** op.rs *)
Inductive Class := Alu | RotImm | RotReg | Mem | Mul | AesC.
Inductive Op :=
| Add | Sub | Xor | Or | And | Andn | Rolx | Rola | Rorx | Rora | Vrol | Vror
| Load | Store | Rmw | Loadb | Storeb | Rmwb | Mullo | Mulhi | Aesr.
#[global] Instance op_eq_dec : EqDecision Op.
Proof. solve_decision. Defined.
#[global] Instance class_eq_dec : EqDecision Class.
Proof. solve_decision. Defined.
Definition OP_COUNT : Z := 21.
Definition ALL_OPS : list Op :=
  [Add; Sub; Xor; Or; And; Andn; Rolx; Rola; Rorx; Rora; Vrol; Vror; Load; Store; Rmw; Loadb; Storeb; Rmwb; Mullo; Mulhi; Aesr].
Definition ALU_POOL : list Op := [Add; Sub; Xor; Or; And; Andn].
Definition ROT_POOL : list Op := [Rolx; Rola; Rorx; Rora].
Definition MEM_POOL : list Op := [Load; Store; Rmw; Loadb; Storeb; Rmwb].
Definition MUL_POOL : list Op := [Mullo; Mulhi].
Definition ROTREG_POOL : list Op := [Vrol; Vror].
Definition op_class (o : Op) : Class :=
  match o with
  | Add | Sub | Xor | Or | And | Andn => Alu
  | Rolx | Rola | Rorx | Rora => RotImm
  | Vrol | Vror => RotReg
  | Load | Store | Rmw | Loadb | Storeb | Rmwb => Mem
  | Mullo | Mulhi => Mul
  | Aesr => AesC
  end.
Definition op_index (o : Op) : Z :=
  match o with
  | Add => 0 | Sub => 1 | Xor => 2 | Or => 3 | And => 4 | Andn => 5 | Rolx => 6 | Rola => 7 | Rorx => 8 | Rora => 9
  | Vrol => 10 | Vror => 11 | Load => 12 | Store => 13 | Rmw => 14 | Loadb => 15 | Storeb => 16 | Rmwb => 17
  | Mullo => 18 | Mulhi => 19 | Aesr => 20
  end.
Definition op_name (o : Op) : string :=
  match o with
  | Add => "ADD" | Sub => "SUB" | Xor => "XOR" | Or => "OR" | And => "AND" | Andn => "ANDN" | Rolx => "ROLX" | Rola => "ROLA"
  | Rorx => "RORX" | Rora => "RORA" | Vrol => "VROL" | Vror => "VROR" | Load => "LOAD" | Store => "STORE" | Rmw => "RMW"
  | Loadb => "LOADB" | Storeb => "STOREB" | Rmwb => "RMWB" | Mullo => "MULLO" | Mulhi => "MULHI" | Aesr => "AESR"
  end%string.
Definition op_from_u8 (v : Z) : option Op := if v <? OP_COUNT then zlookup ALL_OPS v else None.

(** ** Arrays *)
Section Arrays.
Context {E : Type}.
Definition at_ {A} (l : list A) (i : Z) : outcome E A := expect (zlookup l i).
Definition put {A} (l : list A) (i : Z) (x : A) : outcome E (list A) :=
  if (0 <=? i) && (i <? Zlen l) then Ok (zinsert l i x) else Panic.
Definition swap {A} (l : list A) (i j : Z) : outcome E (list A) :=
  let? a := at_ l i in
  let? b := at_ l j in
  let? l := put l i b in
  put l j a.

(** ** program.rs *)
Record Instr := MkInstr { i_op : Op; i_d : Z; i_s : Z; i_imm : Z }.
Definition Instr_new (op : Op) (d s imm : Z) : Instr := MkInstr op (Z.land d 7) (Z.land s 7) imm.
Definition Program : Type := list Instr.

(** The Fisher-Yates shuffle of one block. *)
Definition shuffle_step (st : Rng * list Z) (i : Z) : outcome E (Rng * list Z) :=
  let '(n, idx) := st in
  let '(x, n) := Rng_next n in
  let? idx := swap idx i (x mod (i + 1)) in
  Ok (n, idx).
Definition shuffle (n : Rng) : outcome E (Rng * list Z) :=
  ofold shuffle_step (n, zrange 0 BLOCK_INSTR) (rev (zrange 1 BLOCK_INSTR)).

Definition pick_op (k : Z) (ctr : list Z) : outcome E Op :=
  if k =? 0 then let? c := at_ ctr 0 in at_ ALU_POOL (c mod 6)
  else if k =? 1 then let? c := at_ ctr 1 in at_ ROT_POOL (c mod 4)
  else if k =? 2 then let? c := at_ ctr 2 in at_ ROTREG_POOL (Z.land c 1)
  else if k =? 3 then let? c := at_ ctr 3 in at_ MEM_POOL (c mod 6)
  else if k =? 4 then let? c := at_ ctr 4 in at_ MUL_POOL (Z.land c 1)
  else Ok Aesr.
Record Build := MkBuild { b_rng : Rng; b_ctr : list Z; b_prog : Program }.
Definition slot_step (b : Z) (idx : list Z) (st : Build) (i : Z) : outcome E Build :=
  let? t := at_ idx i in
  let? k := at_ PER_BLOCK t in
  let dr := t mod NREG in
  let? off := at_ ROLE_OFFS (t mod 8) in
  let sr := (dr + off) mod NREG in
  let? op := pick_op k (b_ctr st) in
  let? c := at_ (b_ctr st) k in
  let? ctr := put (b_ctr st) k (wrap 32 (c + 1)) in
  let '(x, n) := Rng_next (b_rng st) in
  let? prog := put (b_prog st) (b * BLOCK_INSTR + i) (Instr_new op dr sr (wrap 32 x)) in
  Ok (MkBuild n ctr prog).
Definition block_step (st : Build) (b : Z) : outcome E Build :=
  let? (n, idx) := shuffle (b_rng st) in
  ofold (slot_step b idx) (MkBuild n (b_ctr st) (b_prog st)) (zrange 0 BLOCK_INSTR).
Definition build_program (prog_seed : Z) : outcome E Program :=
  let n := Rng_new prog_seed RNG_DOM_PROGRAM in
  let ctr := replicate 6 0 in
  let prog := replicate (Z.to_nat PROG_INSTR) (Instr_new Add 0 0 0) in
  let? st := ofold block_step (MkBuild n ctr prog) (zrange 0 BLOCKS) in
  Ok (b_prog st).

(** ** fill.rs *)
Definition LINES : Z := SCRATCH_BYTES / 16.
Definition CHAINS : Z := 4.
Definition not64 (x : Z) : Z := umax 64 - x.
Definition chain_init (seed : Z) : list U64x2 := (fun j => (Z.lxor seed FILL_DOM, Z.lxor (not64 seed) j)) <$> zrange 0 CHAINS.
Definition fill_line (seed i : Z) : U64x2 := aesenc (aesenc (seed, Z.lxor i FILL_DOM)).
(** One turn of the loop: the four lines from [i] on. *)
Definition fill_step (seed : Z) (st : list Z * list U64x2) (i : Z) : outcome E (list Z * list U64x2) :=
  let '(sc, a) := st in
  let v0 := fill_line seed i in
  let v1 := fill_line seed (i + 1) in
  let v2 := fill_line seed (i + 2) in
  let v3 := fill_line seed (i + 3) in
  let? sc := put sc (2 * i) (fst v0) in
  let? sc := put sc (2 * i + 1) (snd v0) in
  let? sc := put sc (2 * i + 2) (fst v1) in
  let? sc := put sc (2 * i + 3) (snd v1) in
  let? sc := put sc (2 * i + 4) (fst v2) in
  let? sc := put sc (2 * i + 5) (snd v2) in
  let? sc := put sc (2 * i + 6) (fst v3) in
  let? sc := put sc (2 * i + 7) (snd v3) in
  let? a0 := at_ a 0 in
  let? a := put a 0 (aesenc_key a0 v0) in
  let? a1 := at_ a 1 in
  let? a := put a 1 (aesenc_key a1 v1) in
  let? a2 := at_ a 2 in
  let? a := put a 2 (aesenc_key a2 v2) in
  let? a3 := at_ a 3 in
  let? a := put a 3 (aesenc_key a3 v3) in
  Ok (sc, a).
Definition fill (sc : list Z) (seed : Z) : outcome E (list Z * Z) :=
  let? (sc, a) := ofold (fill_step seed) (sc, chain_init seed) ((fun k => CHAINS * k) <$> zrange 0 (LINES / CHAINS)) in
  let? a0 := at_ a 0 in
  let? a1 := at_ a 1 in
  let? a2 := at_ a 2 in
  let? a3 := at_ a 3 in
  let t := aesenc_key a0 a1 in
  let t := aesenc_key t a2 in
  let t := aesenc_key t a3 in
  let t := aesenc (aesenc t) in
  Ok (sc, Z.lxor (fst t) (snd t)).

(** The reference: byte buffers, one line at a time. *)
Definition put64le (v : Z) : bytes := (fun i => wrap 8 (Z.shiftr v (8 * i))) <$> zrange 0 8.
Definition ld64le (p : bytes) : Z := fold_left (fun v i => Z.lor v (Z.shiftl (byte_at p i) (8 * i))) (zrange 0 8) 0.
Definition line_words (a : bytes) : U64x2 := (ld64le (slice a 0 8), ld64le (slice a 8 16)).
Definition line_bytes (w : U64x2) : bytes := put64le (fst w) ++ put64le (snd w).
Definition ref_init (seed : Z) : list bytes :=
  (fun j => line_bytes (Z.lxor seed FILL_DOM, Z.lxor (not64 seed) j)) <$> zrange 0 CHAINS.
Definition ref_step (seed : Z) (st : list Z * list bytes) (i : Z) : outcome E (list Z * list bytes) :=
  let '(sc, acc) := st in
  let line := line_bytes (seed, Z.lxor i FILL_DOM) in
  let line := line_bytes (aesenc (aesenc (line_words line))) in
  let? sc := put sc (2 * i) (fst (line_words line)) in
  let? sc := put sc (2 * i + 1) (snd (line_words line)) in
  let? a := at_ acc (i mod CHAINS) in
  let? acc := put acc (i mod CHAINS) (line_bytes (aesenc_key (line_words a) (line_words line))) in
  Ok (sc, acc).
Definition fill_ref (sc : list Z) (seed : Z) : outcome E (list Z * Z) :=
  let? (sc, acc) := ofold (ref_step seed) (sc, ref_init seed) (zrange 0 LINES) in
  let? fin := at_ acc 0 in
  let fin := fold_left (fun fin a => line_bytes (aesenc_key (line_words fin) (line_words a))) (drop 1 acc) fin in
  let fin := line_bytes (aesenc (aesenc (line_words fin))) in
  Ok (sc, Z.lxor (ld64le (slice fin 0 8)) (ld64le (slice fin 8 16))).

(** ** interp.rs *)
Definition addr_of (v k : Z) : Z := Z.land (Z.shiftr (wrap 64 (Z.lxor v k * MULT)) 40) SCRATCH_MASK.
Definition line_of (v k : Z) : Z := Z.land (Z.shiftr (wrap 64 (Z.lxor v k * MULT)) 40) LINE_MASK.
(** Registers and scratchpad. *)
Record Machine := MkMachine { m_regs : list Z; m_pad : list Z }.
(** The operations that touch no memory, on the values of [r[d]] and [r[s]]. *)
Definition alu (op : Op) (rd rs imm : Z) : option Z :=
  let k := Z.lor (Z.land imm 63) 1 in
  match op with
  | Add => Some (Z.lxor (wrap 64 (rd + rs)) imm)
  | Sub => Some (Z.lxor (wrap 64 (rd - rs)) imm)
  | Xor => Some (wrap 64 (Z.lxor rd rs + imm))
  | Or => Some (Z.lxor (rotate_left 64 rd 17) (Z.lor rs imm))
  | And => Some (Z.lxor (rotate_left 64 rd 23) (Z.land rs imm))
  | Andn => Some (Z.lxor (rotate_left 64 rd 29) (Z.land (not64 rs) imm))
  | Rolx => Some (Z.lxor (rotate_left 64 rd k) rs)
  | Rola => Some (wrap 64 (rotate_left 64 rd k + rs))
  | Rorx => Some (Z.lxor (rotate_right 64 rd k) rs)
  | Rora => Some (wrap 64 (rotate_right 64 rd k + rs))
  | Vrol => Some (Z.lxor (rotate_left 64 rd (Z.land rs 63)) imm)
  | Vror => Some (wrap 64 (rotate_right 64 rd (Z.land rs 63) + imm))
  | Mullo => Some (wrap 64 (rd * Z.lor rs 1))
  | Mulhi => Some (Z.lxor (wrap 64 (Z.shiftr (wrap 128 (rd * Z.lor rs 1)) 64)) imm)
  | _ => None
  end.
(** The operations on memory: the new [r[d]] and pad. *)
Definition mem_op (op : Op) (rd rs imm : Z) (sc : list Z) : outcome E (Z * list Z) :=
  match op with
  | Load | Loadb =>
    let key := match op with Load => C1 | _ => C2 end in
    let a := addr_of rs (Z.lxor imm key) in
    let? x := at_ sc (Z.shiftr a 3) in
    Ok (Z.lxor rd x, sc)
  | Store | Storeb =>
    let key := match op with Store => C1 | _ => C2 end in
    let a := addr_of rd (Z.lxor imm key) in
    let w := Z.shiftr a 3 in
    let? x := at_ sc w in
    let? sc := put sc w (wrap 64 (x + rs)) in
    Ok (rd, sc)
  | Rmw =>
    let a := addr_of rs (Z.lxor imm C1) in
    let w := Z.shiftr a 3 in
    let? x := at_ sc w in
    let v := wrap 64 (x + rd) in
    let? sc := put sc w v in
    let b := addr_of v C2 in
    let? y := at_ sc (Z.shiftr b 3) in
    Ok (Z.lxor rd y, sc)
  | Rmwb =>
    let a := addr_of rs (Z.lxor imm C2) in
    let w := Z.shiftr a 3 in
    let? x := at_ sc w in
    let v := Z.lxor x rd in
    let? sc := put sc w v in
    let b := addr_of v C1 in
    let? y := at_ sc (Z.shiftr b 3) in
    Ok (wrap 64 (rd + y), sc)
  | Aesr =>
    let a := line_of rs (Z.lxor imm C1) in
    let w := Z.shiftr a 3 in
    let? x := at_ sc w in
    let? y := at_ sc (Z.lor w 1) in
    let v := aesenc (x, y) in
    let? sc := put sc w (fst v) in
    let? sc := put sc (Z.lor w 1) (snd v) in
    let? z := at_ sc w in
    Ok (Z.lxor rd z, sc)
  | _ => Ok (rd, sc)
  end.
Definition exec (m : Machine) (slot : Instr) : outcome E Machine :=
  let? rd := at_ (m_regs m) (i_d slot) in
  let? rs := at_ (m_regs m) (i_s slot) in
  let? (x, sc) := (match alu (i_op slot) rd rs (i_imm slot) with
                   | Some x => Ok (x, m_pad m)
                   | None => mem_op (i_op slot) rd rs (i_imm slot) (m_pad m)
                   end) in
  let? regs := put (m_regs m) (i_d slot) x in
  Ok (MkMachine regs sc).
Definition loop_step (prog : Program) (m : Machine) (lp : Z) : outcome E Machine :=
  let? m := ofold exec m prog in
  let? r0 := at_ (m_regs m) 0 in
  let? regs := put (m_regs m) 0 (Z.lxor r0 lp) in
  Ok (MkMachine regs (m_pad m)).
Definition init_regs (seed : Z) : list Z :=
  (fun i => wrap 64 (wrap 64 (seed * wrap 64 (wrap 64 (2 * i) + 1)) + i)) <$> zrange 0 NREG.
Definition interp (prog : Program) (sc : list Z) (seed : Z) : outcome E (list Z * Z) :=
  let? m := ofold (loop_step prog) (MkMachine (init_regs seed) sc) (zrange 0 LOOPS) in
  Ok (m_pad m, fold_left Z.lxor (m_regs m) 0).

(** ** scratch.rs *)
Definition ALIGN_BYTES : Z := 65536.
Definition ALIGN_WORDS : Z := ALIGN_BYTES / 8.
Record Scratch := MkScratch { s_buf : list Z; s_off : Z }.
Definition next_multiple_of (x k : Z) : outcome E Z :=
  let r := x mod k in
  let y := if r =? 0 then x else x + (k - r) in
  if y <=? umax 64 then Ok y else Panic.
(** [base] is the address the allocator gives the buffer. *)
Definition Scratch_new (base : Z) : outcome E Scratch :=
  let buf := replicate (Z.to_nat (SCRATCH_WORDS + ALIGN_WORDS)) 0 in
  let? pad_start := next_multiple_of base ALIGN_BYTES in
  Ok (MkScratch buf ((pad_start - base) / 8)).
Definition Scratch_words (s : Scratch) : outcome E (list Z) :=
  if s_off s + SCRATCH_WORDS <=? Zlen (s_buf s) then Ok (slice (s_buf s) (s_off s) (s_off s + SCRATCH_WORDS)) else Panic.
(** What is written through [words_mut] lands in the window. *)
Definition write_words (s : Scratch) (w : list Z) : Scratch :=
  MkScratch (slice (s_buf s) 0 (s_off s) ++ w ++ slice (s_buf s) (s_off s + SCRATCH_WORDS) (Zlen (s_buf s))) (s_off s).
Definition words_mut {A} (s : Scratch) (f : list Z -> outcome E (list Z * A)) : outcome E (Scratch * A) :=
  let? w := Scratch_words s in
  let? (w, x) := f w in
  Ok (write_words s w, x).
Definition checksum (s : Scratch) : outcome E Z :=
  let? ws := Scratch_words s in
  Ok (fold_left (fun h w => wrap 64 (Z.lxor h w * MULT)) ws 0).

(** ** lib.rs: the hash of a seed, on a pad that may hold anything *)
Definition verify_hash (pad : Scratch) (seed : Z) : outcome E (Scratch * Z) :=
  let? (pad, ps) := words_mut pad (fun sc => fill sc seed) in
  let? prog := build_program ps in
  words_mut pad (fun sc => interp prog sc seed).
End Arrays.

Inductive PowError := NoHardwareAes | PlatformHashMismatch (seed expected got : Z).
(** [detect] is what the processor answers to [aes::detect]. *)
Definition Isochron_new (detect : bool) : outcome PowError unit := if detect then Ok () else Err NoHardwareAes.
Definition SELF_CHECK : list (Z * Z) :=
  [(0x243f6a8885a308d3, 0x9f5aa169a464943a);
   (0xc276e44204ed84e8, 0xf6babd7cf0d39924);
   (0x60ae5dfb843800fd, 0x3199a8a5476c7284);
   (0xfee5d7b503827d12, 0x26a75c2047c85663);
   (0xa1c4cd8eab96973e, 0xfea278ff5083daf7);
   (0xbd81aa4e50d4a1be, 0xd07387129035749d);
   (0xd93e870df612ac3e, 0xc3bcc13f9e36bc53);
   (0xf4fb63cd9b50b6be, 0x57cccb8afb5fb07f)].
Definition check_one (pad : Scratch) (c : Z * Z) : outcome PowError Scratch :=
  let '(seed, expected) := c in
  let? (pad, got) := verify_hash pad seed in
  if got =? expected then Ok pad else Err (PlatformHashMismatch seed expected got).
Definition platform_self_check (detect : bool) (base : Z) : outcome PowError unit :=
  let? _ := Isochron_new detect in
  let? pad := Scratch_new base in
  let? _ := ofold check_one pad SELF_CHECK in
  Ok ().
