(* ===== verification/IsochronProps.v ===== *)
(** Properties of Isochron: the hash of any seed is defined (no index leaves its array
    and every word stays a [u64]), the optimised fill computes the reference fill, every
    generated program has the same histogram of operations, and every instruction
    but [Mulhi] is reversible. *)

From Stdlib Require Import ZArith Lia List Znumtheory.
From stdpp Require Import base list numbers.
From S2P Require Import Prelude Aes Isochron.
Open Scope Z_scope.

(** ** Words and arrays *)
Definition u64 (x : Z) : Prop := 0 <= x < 2 ^ 64.
Definition words (n : Z) (l : list Z) : Prop := Zlen l = n /\ Forall u64 l.

Lemma u64_wrap x : u64 (wrap 64 x).
Proof. apply wrap_bounds. lia. Qed.
Lemma u64_lxor a b : u64 a -> u64 b -> u64 (Z.lxor a b).
Proof. apply lxor_bound. lia. Qed.
Lemma u64_u32 x : 0 <= x < 2 ^ 32 -> u64 x.
Proof. unfold u64. lia. Qed.
Create HintDb isochron.
#[export] Hint Resolve u64_wrap u64_lxor u64_u32 : isochron.

Section Arrays.
Context {E : Type}.
Lemma at_ok {A} (l : list A) i : 0 <= i < Zlen l -> exists x, at_ (E := E) l i = Ok x /\ zlookup l i = Some x /\ x ∈ l.
Proof.
  intros Hi. destruct (zlookup_is_Some l i Hi) as [x Hx]. exists x. unfold at_. rewrite Hx. split; [done|]. split; [done|]. apply zlookup_elem. eauto.
Qed.
Lemma put_ok {A} (l : list A) i x : 0 <= i < Zlen l -> put (E := E) l i x = Ok (zinsert l i x).
Proof. intros Hi. unfold put. destruct (Z.leb_spec 0 i), (Z.ltb_spec i (Zlen l)); try lia. done. Qed.
Lemma Forall_zinsert {A} (P : A -> Prop) l i x : Forall P l -> P x -> Forall P (zinsert l i x).
Proof. intros Hl Hx. unfold zinsert. destruct (0 <=? i); [|done]. by apply Forall_insert. Qed.
Lemma words_at n l i : words n l -> 0 <= i < n -> exists x, at_ (E := E) l i = Ok x /\ zlookup l i = Some x /\ u64 x.
Proof.
  intros [Hl Hf] Hi. destruct (at_ok l i) as (x & H1 & H2 & H3); [lia|]. exists x. split; [done|]. split; [done|].
  rewrite Forall_forall in Hf. by apply Hf, list_elem_of_In.
Qed.
Lemma words_put n l i x : words n l -> 0 <= i < n -> u64 x -> put (E := E) l i x = Ok (zinsert l i x) /\ words n (zinsert l i x).
Proof. intros [Hl Hf] Hi Hx. split; [apply put_ok; lia|]. split; [by rewrite Zlen_zinsert|]. by apply Forall_zinsert. Qed.
End Arrays.

(** ** The fill *)
Lemma put_range v n : forall a, 0 <= a -> (fun i => wrap 8 (Z.shiftr v (8 * i))) <$> zrange a (a + Z.of_nat n) = le_bytes n (v / 2 ^ (8 * a)).
Proof.
  induction n as [|n IH]; intros a Ha; [by rewrite zrange_nil by lia|]. rewrite zrange_cons, fmap_cons by lia. change (le_bytes (S n) ?x) with (x mod 256 :: le_bytes n (x / 256)).
  replace (a + Z.of_nat (S n)) with (a + 1 + Z.of_nat n) by lia. rewrite IH by lia. unfold wrap. rewrite Z.shiftr_div_pow2 by lia.
  change (2 ^ 8) with 256. f_equal. f_equal. rewrite Z.div_div by lia. f_equal. replace (8 * (a + 1)) with (8 * a + 8) by lia. rewrite Z.pow_add_r by lia. reflexivity.
Qed.
Lemma put64le_le v : put64le v = le_bytes 8 v.
Proof. unfold put64le. pose proof (put_range v 8 0 ltac:(lia)) as H. rewrite Z.mul_0_r, Z.div_1_r in H. exact H. Qed.
Lemma slice_cons p a b : 0 <= a < b -> b <= Zlen p -> slice p a b = byte_at p a :: slice p (a + 1) b.
Proof.
  intros Ha Hb. unfold slice, byte_at, Zlen in *. destruct (lookup_lt_is_Some_2 p (Z.to_nat a)) as [x Hx]; [lia|]. rewrite Hx.
  rewrite (drop_S p x (Z.to_nat a) Hx). replace (Z.to_nat (b - a)) with (S (Z.to_nat (b - (a + 1)))) by lia.
  replace (Z.to_nat (a + 1)) with (S (Z.to_nat a)) by lia. reflexivity.
Qed.
Lemma ld_range p n : bytes_ok p -> forall a acc, 0 <= a -> a + Z.of_nat n <= Zlen p -> 0 <= acc < 2 ^ (8 * a) ->
  fold_left (fun v i => Z.lor v (Z.shiftl (byte_at p i) (8 * i))) (zrange a (a + Z.of_nat n)) acc = acc + 2 ^ (8 * a) * from_le (slice p a (a + Z.of_nat n)).
Proof.
  intros Hp. induction n as [|n IH]; intros a acc Ha Hlen Hacc; [rewrite zrange_nil, slice_nil by lia; change (from_le []) with 0; cbn [fold_left]; lia|].
  rewrite zrange_cons by lia. cbn [fold_left]. pose proof (byte_at_ok p a Hp) as Hb. unfold byte_ok in Hb.
  assert (2 ^ (8 * (a + 1)) = 256 * 2 ^ (8 * a)) as Hpow by (replace (8 * (a + 1)) with (8 * a + 8) by lia; rewrite Z.pow_add_r by lia; lia).
  rewrite (lor_add acc _ (8 * a)), Z.shiftl_mul_pow2 by first [lia|rewrite Z.shiftl_mul_pow2 by lia; apply Z.mod_mul; lia].
  replace (a + Z.of_nat (S n)) with (a + 1 + Z.of_nat n) by lia. rewrite IH by (rewrite ?Hpow; nia).
  assert (slice p a (a + 1 + Z.of_nat n) = byte_at p a :: slice p (a + 1) (a + 1 + Z.of_nat n)) as ->.
  { apply slice_cons; lia. }
  rewrite from_le_cons, Hpow. lia.
Qed.
Lemma ld64le_le p : bytes_ok p -> length p = 8%nat -> ld64le p = from_le p.
Proof.
  intros Hp Hl. assert (Zlen p = 8) as Hz by (unfold Zlen; lia). pose proof (ld_range p 8 Hp 0 0 ltac:(lia) ltac:(lia) ltac:(lia)) as H.
  rewrite slice_all in H by lia. unfold ld64le. change (0 + Z.of_nat 8) with 8 in H. rewrite H. lia.
Qed.
Lemma line_bytes_lanes w : line_bytes w = lanes w.
Proof. unfold line_bytes, lanes. by rewrite !put64le_le. Qed.
Lemma line_words_lanes v : bytes_ok v -> length v = 16%nat -> line_words v = words_of v.
Proof.
  intros Hv Hl. unfold line_words, words_of. assert (slice v 0 8 = take 8 v) as -> by done.
  assert (slice v 8 16 = drop 8 v) as -> by (unfold slice; cbn; rewrite take_ge; [done|rewrite length_drop, Hl; lia]).
  rewrite !ld64le_le; [done|by apply Forall_drop|by rewrite length_drop, Hl|by apply Forall_take|by rewrite length_take, Hl].
Qed.
Lemma line_roundtrip w : u64x2_ok w -> line_words (line_bytes w) = w.
Proof. intros Hw. rewrite line_bytes_lanes, line_words_lanes by (apply lanes_ok || done). by apply words_of_lanes. Qed.

Lemma ld_line w : u64x2_ok w -> ld64le (slice (line_bytes w) 0 8) = fst w /\ ld64le (slice (line_bytes w) 8 16) = snd w.
Proof. intros Hw. pose proof (line_roundtrip w Hw) as H. unfold line_words in H. by rewrite <-H at 2 4. Qed.

(** The accumulators of the reference are those of the fill, as bytes. *)
Definition chains_ok (a : list U64x2) : Prop := length a = 4%nat /\ Forall u64x2_ok a.
Lemma four {A} (l : list A) : length l = 4%nat -> exists a b c d, l = [a; b; c; d].
Proof. intros H. do 4 (destruct l as [|? l]; [discriminate H|]). destruct l; [|discriminate H]. by do 4 eexists. Qed.
Lemma not64_ok x : u64 x -> u64 (not64 x).
Proof. unfold u64, not64, umax. lia. Qed.
Lemma chain_init_ok seed : u64 seed -> chains_ok (chain_init seed).
Proof.
  intros Hs. split; [done|]. apply Forall_fmap. apply Forall_forall. intros j Hj. apply in_zrange in Hj. split; cbn [fst snd].
  - apply u64_lxor; [done|]. unfold u64, FILL_DOM. lia.
  - apply u64_lxor; [by apply not64_ok|]. unfold u64, CHAINS in *. lia.
Qed.

Section Fill.
Context {E : Type} (seed : Z) (Hseed : u64 seed).
Lemma ref_line i : 0 <= i < 2 ^ 32 -> line_words (line_bytes (aesenc (aesenc (line_words (line_bytes (seed, Z.lxor i FILL_DOM)))))) = fill_line seed i.
Proof.
  intros Hi. rewrite (line_roundtrip (seed, _)), line_roundtrip; [done|apply aesenc_ok|]. split; [exact Hseed|]. cbn.
  apply u64_lxor; [by apply u64_u32|]. unfold u64, FILL_DOM. lia.
Qed.
Lemma ref_step_eq sc a i x y : 0 <= i < 2 ^ 32 -> u64x2_ok x -> at_ (E := E) a (i mod CHAINS) = Ok (line_bytes x) ->
  put (E := E) a (i mod CHAINS) (line_bytes (aesenc_key x (fill_line seed i))) = Ok y ->
  ref_step (E := E) seed (sc, a) i = (let? sc := put sc (2 * i) (fst (fill_line seed i)) in let? sc := put sc (2 * i + 1) (snd (fill_line seed i)) in Ok (sc, y)).
Proof.
  intros Hi Hx Ha Hp. unfold ref_step. cbv zeta. rewrite ref_line by done. rewrite Ha. cbn [obind]. rewrite line_roundtrip, Hp by done. done.
Qed.

(** The reference has the fill's result, with the accumulators as bytes. *)
Definition same_fill (r : outcome E (list Z * list U64x2)) (r' : outcome E (list Z * list bytes)) : Prop :=
  match r with
  | Ok (sc, a) => r' = Ok (sc, line_bytes <$> a) /\ chains_ok a
  | Err e => r' = Err e
  | Panic => r' = Panic
  end.
(** Four lines of the reference are one turn of the fill. *)
Lemma four_lines sc a i : 0 <= i < 2 ^ 31 -> i mod 4 = 0 -> chains_ok a ->
  same_fill (fill_step seed (sc, a) i) (ofold (ref_step seed) (sc, line_bytes <$> a) [i; i + 1; i + 2; i + 3]).
Proof.
  intros Hi Hm [Hl Hf]. destruct (four a Hl) as (a0 & a1 & a2 & a3 & ->). rewrite !list.Forall_cons in Hf. destruct Hf as (H0 & H1 & H2 & H3 & _).
  assert ((i + 1) mod CHAINS = 1 /\ (i + 2) mod CHAINS = 2 /\ (i + 3) mod CHAINS = 3) as (M1 & M2 & M3) by (unfold CHAINS; rewrite !(Z.add_mod i), Hm by lia; done).
  cbn [fmap list_fmap ofold]. unfold fill_step. cbv zeta.
  rewrite (ref_step_eq sc _ i a0 (line_bytes <$> [aesenc_key a0 (fill_line seed i); a1; a2; a3])) by (unfold CHAINS; rewrite ?Hm; first [done|lia]).
  destruct (put sc (2 * i) _) as [sc1|e|]; [|done..]. cbn [obind]. destruct (put sc1 (2 * i + 1) _) as [sc2|e|]; [|done..]. cbn [obind].
  rewrite (ref_step_eq sc2 _ (i + 1) a1 (line_bytes <$> [aesenc_key a0 (fill_line seed i); aesenc_key a1 (fill_line seed (i + 1)); a2; a3])) by (rewrite ?M1; first [done|lia]).
  replace (2 * (i + 1)) with (2 * i + 2) by lia. replace (2 * i + 2 + 1) with (2 * i + 3) by lia.
  destruct (put sc2 (2 * i + 2) _) as [sc3|e|]; [|done..]. cbn [obind]. destruct (put sc3 (2 * i + 3) _) as [sc4|e|]; [|done..]. cbn [obind].
  rewrite (ref_step_eq sc4 _ (i + 2) a2 (line_bytes <$> [aesenc_key a0 (fill_line seed i); aesenc_key a1 (fill_line seed (i + 1)); aesenc_key a2 (fill_line seed (i + 2)); a3])) by (rewrite ?M2; first [done|lia]).
  replace (2 * (i + 2)) with (2 * i + 4) by lia. replace (2 * i + 4 + 1) with (2 * i + 5) by lia.
  destruct (put sc4 (2 * i + 4) _) as [sc5|e|]; [|done..]. cbn [obind]. destruct (put sc5 (2 * i + 5) _) as [sc6|e|]; [|done..]. cbn [obind].
  rewrite (ref_step_eq sc6 _ (i + 3) a3 (line_bytes <$> [aesenc_key a0 (fill_line seed i); aesenc_key a1 (fill_line seed (i + 1)); aesenc_key a2 (fill_line seed (i + 2)); aesenc_key a3 (fill_line seed (i + 3))])) by (rewrite ?M3; first [done|lia]).
  replace (2 * (i + 3)) with (2 * i + 6) by lia. replace (2 * i + 6 + 1) with (2 * i + 7) by lia.
  destruct (put sc6 (2 * i + 6) _) as [sc7|e|]; [|done..]. cbn [obind]. destruct (put sc7 (2 * i + 7) _) as [sc8|e|]; [|done..].
  cbn. split; [done|]. split; [done|]. repeat (constructor; [apply aesenc_key_ok|]). constructor.
Qed.

Lemma fill_loop n : forall k sc a, Z.of_nat n + k <= 1024 -> 0 <= k -> chains_ok a ->
  same_fill (ofold (fill_step seed) (sc, a) ((fun k => CHAINS * k) <$> zrange k (k + Z.of_nat n)))
    (ofold (ref_step seed) (sc, line_bytes <$> a) (zrange (4 * k) (4 * (k + Z.of_nat n)))).
Proof.
  induction n as [|n IH]; intros k sc a Hk H0 Ha; [rewrite !zrange_nil by lia; by split|].
  rewrite (zrange_cons k), fmap_cons by lia. replace (k + Z.of_nat (S n)) with (k + 1 + Z.of_nat n) by lia.
  rewrite 4 (zrange_cons _ (4 * _)) by lia.
  replace (4 * k + 1 + 1) with (4 * k + 2) by lia. replace (4 * k + 2 + 1) with (4 * k + 3) by lia. replace (4 * k + 3 + 1) with (4 * (k + 1)) by lia.
  change (4 * k :: 4 * k + 1 :: 4 * k + 2 :: 4 * k + 3 :: ?l) with ([4 * k; 4 * k + 1; 4 * k + 2; 4 * k + 3] ++ l). rewrite ofold_app.
  change (ofold (fill_step seed) (sc, a) (CHAINS * k :: ?l)) with (let? s := fill_step (E := E) seed (sc, a) (4 * k) in ofold (fill_step seed) s l).
  pose proof (four_lines sc a (4 * k) ltac:(lia) ltac:(rewrite Z.mul_comm; apply Z.mod_mul; lia) Ha) as Hs.
  destruct (fill_step seed (sc, a) (4 * k)) as [[sc' a']|e|]; cbn [same_fill] in Hs.
  - destruct Hs as [-> Ha']. cbn [obind]. by apply IH; [lia|lia|].
  - rewrite Hs. done.
  - rewrite Hs. done.
Qed.

(** The optimised scratchpad fill, four lines and four chains at a time on words, computes the reference fill, one line at
    a time on byte buffers: the same pad and the same program seed, from every pad and seed. *)
Theorem fill_is_fill_ref sc : fill (E := E) sc seed = fill_ref sc seed.
Proof.
  unfold fill, fill_ref. pose proof (fill_loop 1024 0 sc (chain_init seed) ltac:(lia) ltac:(lia) (chain_init_ok seed Hseed)) as H.
  change (ref_init seed) with (line_bytes <$> chain_init seed). change (zrange 0 (LINES / CHAINS)) with (zrange 0 (0 + Z.of_nat 1024)).
  change (zrange 0 LINES) with (zrange (4 * 0) (4 * (0 + Z.of_nat 1024))).
  destruct (ofold (fill_step seed) _ _) as [[sc' a]|e|]; cbn [same_fill] in H; [|by rewrite H..].
  destruct H as [-> [Hl Hf]]. cbn [obind]. destruct (four a Hl) as (a0 & a1 & a2 & a3 & ->). rewrite !list.Forall_cons in Hf. destruct Hf as (H0 & H1 & H2 & H3 & _).
  change (at_ [a0; a1; a2; a3] 0) with (@Ok E _ a0). change (at_ [a0; a1; a2; a3] 1) with (@Ok E _ a1).
  change (at_ [a0; a1; a2; a3] 2) with (@Ok E _ a2). change (at_ [a0; a1; a2; a3] 3) with (@Ok E _ a3).
  change (at_ (line_bytes <$> [a0; a1; a2; a3]) 0) with (@Ok E _ (line_bytes a0)). cbn [obind fmap list_fmap drop fold_left].
  rewrite !line_roundtrip by first [done|apply aesenc_key_ok|apply aesenc_ok].
  by rewrite !(proj1 (ld_line _ (aesenc_ok _))), !(proj2 (ld_line _ (aesenc_ok _))).
Qed.
End Fill.

(** ** The program *)
Lemma u64_shiftr x k : u64 x -> 0 <= k -> u64 (Z.shiftr x k).
Proof.
  intros [H1 H2] Hk. unfold u64. rewrite Z.shiftr_div_pow2 by lia. pose proof (Z.pow_pos_nonneg 2 k). split; [apply Z.div_pos; lia|].
  eapply Z.le_lt_trans; [|exact H2]. apply Z.div_le_upper_bound; nia.
Qed.
Lemma Rng_next_ok r : u64 (fst (Rng_next r)).
Proof. unfold Rng_next. cbn [fst]. apply u64_lxor; [apply u64_wrap|]. apply u64_shiftr; [apply u64_wrap|lia]. Qed.

(** The number of a class is its discriminant. *)
Definition class_no (c : Class) : Z := match c with Alu => 0 | RotImm => 1 | RotReg => 2 | Mem => 3 | Mul => 4 | AesC => 5 end.
Definition instr_class (x : Instr) : Z := class_no (op_class (i_op x)).
(** The pools of operations; the operations of a class are drawn from its pool in turn. *)
Definition pool (k : Z) : list Op :=
  if k =? 0 then ALU_POOL else if k =? 1 then ROT_POOL else if k =? 2 then ROTREG_POOL else if k =? 3 then MEM_POOL else if k =? 4 then MUL_POOL else [Aesr].
Definition turn (k n : Z) : Op := default Aesr (zlookup (pool k) (n mod Zlen (pool k))).
Definition in_turn (k n : Z) : list Op := turn k <$> zrange 0 n.

Definition instr_ok (x : Instr) : Prop := 0 <= i_d x < 8 /\ 0 <= i_s x < 8 /\ i_d x <> i_s x /\ 0 <= i_imm x < 2 ^ 32.
Definition ops_of (k : Z) (es : list Instr) : list Op := i_op <$> filter (fun x => instr_class x = k) es.

(** The generator after the slots [es]. *)
Record built (st : Build) (es : list Instr) : Prop := {
  bu_prog : exists n, b_prog st = es ++ replicate n (Instr_new Add 0 0 0) /\ (length es + n = 512)%nat;
  bu_ctr : length (b_ctr st) = 6%nat;
  bu_count : forall k, 0 <= k < 6 -> zlookup (b_ctr st) k = Some (Zlen (ops_of k es));
  bu_turn : forall k, 0 <= k < 6 -> ops_of k es = in_turn k (Zlen (ops_of k es));
  bu_slots : Forall instr_ok es;
}.

Lemma turn_class k n : 0 <= k < 6 -> class_no (op_class (turn k n)) = k.
Proof.
  intros Hk. unfold turn, pool. assert (forall l, (forall o, o ∈ l -> class_no (op_class o) = k) -> l <> [] -> class_no (op_class (default Aesr (zlookup l (n mod Zlen l)))) = k) as H.
  { intros l Hl Hne. destruct (zlookup_is_Some l (n mod Zlen l)) as [o Ho]; [apply Z.mod_pos_bound; destruct l; [done|rewrite Zlen_cons; pose proof (Zlen_nonneg l); lia]|].
    rewrite Ho. apply Hl, zlookup_elem. eauto. }
  assert (k = 0 \/ k = 1 \/ k = 2 \/ k = 3 \/ k = 4 \/ k = 5) as [->|[->|[->|[->|[->| ->]]]]] by lia; cbn [Z.eqb Pos.eqb]; apply H; try done;
    intros o Ho; repeat (apply elem_of_cons in Ho as [->|Ho]; [done|]); by apply elem_of_nil in Ho.
Qed.

Section Build.
Context {E : Type}.
Lemma pick_op_ok st es k : built st es -> 0 <= k < 6 -> pick_op (E := E) k (b_ctr st) = Ok (turn k (Zlen (ops_of k es))).
Proof.
  intros B Hk. pose proof (bu_count _ _ B k Hk) as Hc. set (c := Zlen (ops_of k es)) in *.
  assert (forall l i, 0 < Zlen l -> i = c mod Zlen l -> at_ (E := E) l i = Ok (default Aesr (zlookup l (c mod Zlen l)))) as H.
  { intros l i Hl ->. unfold at_. destruct (zlookup_is_Some l (c mod Zlen l)) as [o ->]; [by apply Z.mod_pos_bound|done]. }
  unfold pick_op, turn, pool. assert (k = 0 \/ k = 1 \/ k = 2 \/ k = 3 \/ k = 4 \/ k = 5) as [->|[->|[->|[->|[->| ->]]]]] by lia; cbn [Z.eqb Pos.eqb]; try (unfold at_ at 1; rewrite Hc; cbn [expect obind]).
  - by apply H.
  - by apply H.
  - apply H; [done|]. apply (land_mask c 1). lia.
  - by apply H.
  - apply H; [done|]. apply (land_mask c 1). lia.
  - by rewrite Z.mod_1_r.
Qed.
Lemma ops_of_snoc k es x : ops_of k (es ++ [x]) = if decide (instr_class x = k) then ops_of k es ++ [i_op x] else ops_of k es.
Proof.
  unfold ops_of. rewrite list.filter_app, fmap_app. destruct (decide (instr_class x = k)); [rewrite list.filter_cons_True by done|rewrite list.filter_cons_False by done]; [done|]. by rewrite app_nil_r.
Qed.
Lemma in_turn_snoc k n : 0 <= n -> in_turn k (n + 1) = in_turn k n ++ [turn k n].
Proof. intros Hn. unfold in_turn. by rewrite zrange_snoc, fmap_app by lia. Qed.
Lemma ops_of_len k es : Zlen (ops_of k es) <= Zlen es.
Proof. unfold ops_of, Zlen. rewrite length_fmap. pose proof (length_filter (fun x => instr_class x = k) es). lia. Qed.

Lemma built_snoc st es k x n ctr : built st es -> 0 <= k < 6 -> instr_ok x -> i_op x = turn k (Zlen (ops_of k es)) -> (length es < 512)%nat ->
  ctr = zinsert (b_ctr st) k (Zlen (ops_of k es) + 1) ->
  built (MkBuild n ctr (zinsert (b_prog st) (Zlen es) x)) (es ++ [x]) /\ instr_class x = k.
Proof.
  intros [(m & Hp & Hm) B2 B3 B4 B5] Hk Hx Hop Hl ->. assert (instr_class x = k) as Hc by (unfold instr_class; by rewrite Hop, turn_class). split; [|done].
  assert (forall k', 0 <= k' < 6 -> Zlen (ops_of k' (es ++ [x])) = Zlen (ops_of k' es) + (if decide (k' = k) then 1 else 0)) as Hlen.
  { intros k' _. rewrite ops_of_snoc, Hc. destruct (decide (k = k')), (decide (k' = k)); try done; [|lia]. by rewrite Zlen_app. }
  constructor; cbn [b_prog b_ctr].
  - destruct m as [|m]; [lia|]. exists m. split; [|rewrite length_app; cbn; lia]. rewrite Hp. unfold zinsert, Zlen. rewrite Nat2Z.id.
    destruct (Z.leb_spec 0 (Z.of_nat (length es))); [|lia]. rewrite insert_app_r_alt, Nat.sub_diag by lia. cbn. by rewrite <-app_assoc.
  - unfold zinsert. destruct (0 <=? k); [by rewrite length_insert|done].
  - intros k' Hk'. rewrite Hlen by done. rewrite zlookup_zinsert. assert (Zlen (b_ctr st) = 6) as -> by (unfold Zlen; lia).
    destruct (decide (k' = k)) as [->|Hne].
    + rewrite Z.eqb_refl. destruct (Z.leb_spec 0 k), (Z.ltb_spec k 6); try lia. done.
    + destruct (Z.eqb_spec k k'); [congruence|]. cbn [andb]. rewrite (B3 k' Hk'). f_equal. lia.
  - intros k' Hk'. rewrite Hlen, ops_of_snoc, Hc by done. destruct (decide (k = k')) as [<-|Hne].
    + rewrite decide_True by done. pose proof (Zlen_nonneg (ops_of k es)). rewrite in_turn_snoc by done. by rewrite <-B4, Hop by done.
    + rewrite decide_False by congruence. rewrite Z.add_0_r. by apply B4.
  - apply Forall_app_2; [done|]. by constructor.
Qed.

Lemma roles t : 0 <= t < 16 -> exists k off, zlookup PER_BLOCK t = Some k /\ 0 <= k < 6 /\ zlookup ROLE_OFFS (t mod 8) = Some off /\ 0 < off < 8.
Proof.
  intros Ht. assert (forallb (fun t => match zlookup PER_BLOCK t, zlookup ROLE_OFFS (t mod 8) with
    | Some k, Some off => (0 <=? k) && (k <? 6) && (0 <? off) && (off <? 8) | _, _ => false end) (zrange 0 16) = true) as H by (vm_compute; reflexivity).
  rewrite forallb_forall in H. specialize (H t (proj2 (in_zrange _ _ _) Ht)). destruct (zlookup PER_BLOCK t) as [k|]; [|done].
  destruct (zlookup ROLE_OFFS (t mod 8)) as [off|]; [|done]. exists k, off. repeat (apply andb_true_iff in H as [H ?]). split_and!; first [done|lia].
Qed.
Lemma shifted_differs a off : 0 <= a < 8 -> 0 < off < 8 -> a <> (a + off) mod 8.
Proof. intros Ha Ho. destruct (Z.lt_ge_cases (a + off) 8) as [?|?]; [rewrite Z.mod_small; lia|]. rewrite <-(Z.mod_unique_pos (a + off) 8 1 (a + off - 8)); lia. Qed.
Lemma slot_step_ok b idx st es i t : built st es -> zlookup idx i = Some t -> 0 <= t < 16 -> Zlen es = b * 16 + i -> Zlen es < 512 ->
  exists st' x, slot_step (E := E) b idx st i = Ok st' /\ built st' (es ++ [x]) /\ zlookup PER_BLOCK t = Some (instr_class x).
Proof.
  intros B Hi Ht Hl H512. destruct (roles t Ht) as (k & off & Hk & Hkr & Hoff & Hor). unfold slot_step, at_. rewrite Hi. cbn [expect obind]. rewrite Hk. cbn [expect obind].
  rewrite Hoff. cbn [expect obind]. rewrite (pick_op_ok st es k B Hkr). cbn [obind]. rewrite (bu_count _ _ B k Hkr). cbn [expect obind].
  set (c := Zlen (ops_of k es)). assert (0 <= c <= Zlen es) as Hc by (split; [apply Zlen_nonneg|apply ops_of_len]).
  rewrite put_ok by (unfold Zlen; rewrite (bu_ctr _ _ B); lia). cbn [obind]. pose proof (Rng_next_ok (b_rng st)) as Hr. destruct (Rng_next (b_rng st)) as [x n]. cbn [fst] in Hr.
  set (y := Instr_new _ _ _ _). change (b * BLOCK_INSTR + i) with (b * 16 + i). rewrite <-Hl. destruct (bu_prog _ _ B) as (m & Hp & Hm).
  rewrite put_ok by (rewrite Hp, Zlen_app; unfold Zlen in *; rewrite length_replicate; lia). cbn [obind]. rewrite (wrap_small 32 (c + 1)) by lia.
  destruct (built_snoc st es k y n (zinsert (b_ctr st) k (c + 1)) B Hkr) as [B' Hcl]; [|done|unfold Zlen in *; lia|done|].
  - assert (forall z, 0 <= z < 8 -> Z.land z 7 = z) as Hland by (intros z Hz; change 7 with (2 ^ 3 - 1); rewrite land_mask, Z.mod_small by lia; done).
    pose proof (Z.mod_pos_bound t 8 ltac:(lia)) as Hd. pose proof (Z.mod_pos_bound (t mod 8 + off) 8 ltac:(lia)) as Hs.
    unfold instr_ok, y. cbn [Instr_new i_d i_s i_imm]. change NREG with 8. rewrite !Hland by lia. split_and!; try lia; [|apply wrap_bounds; lia|apply wrap_bounds; lia].
    apply shifted_differs; lia.
  - exists (MkBuild n (zinsert (b_ctr st) k (c + 1)) (zinsert (b_prog st) (Zlen es) y)), y. split; [done|]. split; [done|]. by rewrite Hcl.
Qed.

Lemma swap_perm {A} (l : list A) i j : 0 <= i < Zlen l -> 0 <= j < Zlen l -> exists l', swap (E := E) l i j = Ok l' /\ l' ≡ₚ l /\ Zlen l' = Zlen l.
Proof.
  intros Hi Hj. unfold swap. destruct (at_ok (E := E) l i Hi) as (a & -> & Ha & _). destruct (at_ok (E := E) l j Hj) as (b & -> & Hb & _). cbn [obind].
  rewrite put_ok by done. cbn [obind]. rewrite put_ok by (by rewrite Zlen_zinsert). exists (zinsert (zinsert l i b) j a). split; [done|].
  split; [|by rewrite !Zlen_zinsert]. unfold zinsert, zlookup in *. destruct (Z.leb_spec 0 i), (Z.leb_spec 0 j); try lia. by apply Permutation_insert_swap.
Qed.
Lemma shuffle_perm n : exists n' idx, shuffle (E := E) n = Ok (n', idx) /\ idx ≡ₚ zrange 0 16.
Proof.
  unfold shuffle. change BLOCK_INSTR with 16. assert (forall js st, (forall i, i ∈ js -> 1 <= i < 16) -> snd st ≡ₚ zrange 0 16 -> Zlen (snd st) = 16 ->
    exists n' idx, ofold (shuffle_step (E := E)) st js = Ok (n', idx) /\ idx ≡ₚ zrange 0 16) as H.
  { intros js. induction js as [|i js IH]; intros [m idx] His Hp Hl; [by exists m, idx|]. cbn [ofold shuffle_step]. destruct (Rng_next m) as [x m'].
    cbn [snd] in *. pose proof (His i (list_elem_of_here _ _)) as Hi. pose proof (Z.mod_pos_bound x (i + 1) ltac:(lia)) as Hx.
    destruct (swap_perm idx i (x mod (i + 1))) as (idx' & -> & Hp' & Hl'); [lia|lia|]. cbn [obind]. apply IH; [intros k Hk; apply His; by right|cbn; by rewrite Hp'|cbn; lia]. }
  apply H; [|done|done]. intros i Hi. apply list_elem_of_In, in_rev, in_zrange in Hi. lia.
Qed.

Lemma slots_ok b idx : 0 <= b < 32 -> Zlen idx = 16 -> (forall t, t ∈ idx -> 0 <= t < 16) ->
  forall n i st es, Z.of_nat n + i = 16 -> 0 <= i -> built st es -> Zlen es = b * 16 + i ->
  exists st' xs, ofold (slot_step (E := E) b idx) st (zrange i 16) = Ok st' /\ built st' (es ++ xs) /\
    Forall2 (fun t x => zlookup PER_BLOCK t = Some (instr_class x)) (drop (Z.to_nat i) idx) xs.
Proof.
  intros Hb Hidx Ht. induction n as [|n IH]; intros i st es Hn Hi B Hl.
  - exists st, []. rewrite zrange_nil, app_nil_r by lia. split; [done|]. split; [done|]. rewrite drop_ge by (unfold Zlen in Hidx; lia). constructor.
  - destruct (zlookup_is_Some idx i) as [t Hit]; [lia|]. assert (t ∈ idx) as Hin by (apply zlookup_elem; eauto). rewrite zrange_cons by lia. cbn [ofold].
    destruct (slot_step_ok b idx st es i t B Hit (Ht t Hin) Hl) as (st1 & x & -> & B1 & Hx); [lia|]. cbn [obind].
    destruct (IH (i + 1) st1 (es ++ [x])) as (st' & xs & -> & B' & HF); [lia|lia|done|rewrite Zlen_app; change (Zlen [x]) with 1; lia|].
    exists st', (x :: xs). split; [done|]. split; [by rewrite <-app_assoc in B'|]. unfold zlookup in Hit. destruct (0 <=? i); [|done].
    rewrite (drop_S _ _ _ Hit). replace (Z.to_nat (i + 1)) with (S (Z.to_nat i)) in HF by lia. by constructor.
Qed.
Lemma classes_of idx xs : Forall2 (fun t x => zlookup PER_BLOCK t = Some (instr_class x)) idx xs -> instr_class <$> xs = omap (zlookup PER_BLOCK) idx.
Proof. induction 1 as [|t x idx xs H _ IH]; [done|]. cbn [omap list_omap]. rewrite H. cbn. by f_equal. Qed.
Lemma block_step_ok b st es : 0 <= b < 32 -> built st es -> Zlen es = b * 16 ->
  exists st' xs, block_step (E := E) st b = Ok st' /\ built st' (es ++ xs) /\ instr_class <$> xs ≡ₚ PER_BLOCK.
Proof.
  intros Hb B Hl. unfold block_step. destruct (shuffle_perm (b_rng st)) as (n & idx & -> & Hp). cbn [obind].
  assert (built (MkBuild n (b_ctr st) (b_prog st)) es) as B0 by (destruct B; by constructor).
  assert (Zlen idx = 16) as Hz by (unfold Zlen; by rewrite Hp).
  assert (forall t, t ∈ idx -> 0 <= t < 16) as Ht by (intros t Ht; rewrite Hp in Ht; by apply list_elem_of_In, in_zrange in Ht).
  destruct (slots_ok b idx Hb Hz Ht 16 0 _ es eq_refl ltac:(lia) B0 ltac:(lia)) as (st' & xs & Hs & B' & HF).
  exists st', xs. change BLOCK_INSTR with 16. split; [done|]. split; [done|]. rewrite (classes_of idx xs HF), Hp. done.
Qed.

Definition count (k : Z) (l : list Z) : nat := length (filter (fun c => c = k) l).
Lemma ops_of_count k es : length (ops_of k es) = count k (instr_class <$> es).
Proof.
  unfold ops_of, count. rewrite length_fmap. induction es as [|x es IH]; [done|]. rewrite fmap_cons. destruct (decide (instr_class x = k)) as [Hk|Hk].
  - rewrite !list.filter_cons_True by done. cbn. by rewrite IH.
  - rewrite !list.filter_cons_False by done. done.
Qed.
Lemma count_perm k l l' : l ≡ₚ l' -> count k l = count k l'.
Proof. intros H. unfold count. by rewrite H. Qed.
Lemma op_count o es : length (filter (fun x => i_op x = o) es) = length (filter (fun x => x = o) (ops_of (class_no (op_class o)) es)).
Proof.
  unfold ops_of. induction es as [|x es IH]; [done|]. destruct (decide (instr_class x = class_no (op_class o))) as [Hk|Hk].
  - rewrite (list.filter_cons_True (fun x => instr_class x = _)), fmap_cons by done. destruct (decide (i_op x = o)) as [Ho|Ho].
    + rewrite !list.filter_cons_True by done. cbn. by rewrite IH.
    + rewrite !list.filter_cons_False by done. done.
  - rewrite (list.filter_cons_False (fun x => instr_class x = _)) by done. rewrite list.filter_cons_False; [done|]. intros <-. by apply Hk.
Qed.

(** The blocks written so far. *)
Definition blocks_ok (blocks : list (list Instr)) : Prop := Forall (fun xs => instr_class <$> xs ≡ₚ PER_BLOCK) blocks.
Lemma blocks_length blocks : blocks_ok blocks -> Zlen (concat blocks) = Zlen blocks * 16.
Proof.
  induction 1 as [|xs blocks H _ IH]; [done|]. cbn [concat]. rewrite Zlen_app, IH, Zlen_cons. apply Permutation_length in H. rewrite length_fmap in H.
  unfold Zlen at 1. rewrite H. cbn. lia.
Qed.
Lemma blocks_classes blocks : blocks_ok blocks -> instr_class <$> concat blocks ≡ₚ concat (replicate (length blocks) PER_BLOCK).
Proof. induction 1 as [|xs blocks H _ IH]; [done|]. cbn [concat length replicate]. by rewrite fmap_app, H, IH. Qed.
Lemma build_blocks n : forall b st blocks, Z.of_nat n + b = 32 -> 0 <= b -> Zlen blocks = b -> blocks_ok blocks -> built st (concat blocks) ->
  exists st' blocks', ofold (block_step (E := E)) st (zrange b 32) = Ok st' /\ Zlen blocks' = 32 /\ blocks_ok blocks' /\ built st' (concat blocks').
Proof.
  induction n as [|n IH]; intros b st blocks Hn Hb Hl Ho B.
  - exists st, blocks. rewrite zrange_nil by lia. split; [done|]. split; [lia|done].
  - rewrite zrange_cons by lia. cbn [ofold]. destruct (block_step_ok b st (concat blocks)) as (st1 & xs & -> & B1 & Hx); [lia|done|rewrite blocks_length by done; lia|].
    cbn [obind]. apply (IH (b + 1) st1 (blocks ++ [xs])); [lia|lia|rewrite Zlen_app; change (Zlen [xs]) with 1; lia| |].
    + apply Forall_app_2; [done|]. by constructor.
    + by rewrite concat_app; cbn [concat]; rewrite app_nil_r.
Qed.

(** What every program looks like. *)
Record program_ok (p : Program) : Prop := {
  po_len : Zlen p = PROG_INSTR;
  po_slots : Forall instr_ok p;
  po_hist : forall o, zlookup HIST (op_index o) = Some (Zlen (filter (fun x => i_op x = o) p));
  po_blocks : exists blocks, p = concat blocks /\ Zlen blocks = BLOCKS /\ blocks_ok blocks;
}.
Lemma build_program_ok seed : exists p, build_program (E := E) seed = Ok p /\ program_ok p.
Proof.
  unfold build_program. set (st0 := MkBuild _ _ _).
  assert (built st0 (concat [])) as B0.
  { constructor; [by exists 512%nat|done| |done|constructor]. intros k Hk. cbn [b_ctr st0].
    assert (k = 0 \/ k = 1 \/ k = 2 \/ k = 3 \/ k = 4 \/ k = 5) as [->|[->|[->|[->|[->| ->]]]]] by lia; done. }
  change BLOCKS with 32. destruct (build_blocks 32 0 st0 [] eq_refl ltac:(lia) eq_refl (Forall_nil_2 _) B0) as (st & blocks & -> & Hl & Ho & B). cbn [obind].
  pose proof (blocks_length blocks Ho) as Hlen. rewrite Hl in Hlen. destruct (bu_prog _ _ B) as (n & Hp & Hn). assert (n = 0%nat) as -> by (unfold Zlen in Hlen; lia).
  cbn [replicate] in Hp. rewrite app_nil_r in Hp. exists (b_prog st). split; [done|]. rewrite Hp. constructor; [done|apply (bu_slots _ _ B)| |by exists blocks].
  intros o. unfold Zlen at 1. rewrite op_count. set (k := class_no (op_class o)). assert (0 <= k < 6) as Hk by (unfold k; destruct (op_class o); cbn; lia).
  rewrite (bu_turn _ _ B k Hk). unfold Zlen at 1. rewrite ops_of_count, (count_perm k _ _ (blocks_classes blocks Ho)).
  assert (length blocks = 32%nat) as -> by (unfold Zlen in Hl; lia). subst k. clear. destruct o; vm_compute; reflexivity.
Qed.
End Build.

(** Every generated program has the same shape, whatever the seed: generation never panics; the 512 slots use registers
    0..7 with the destination different from the source and a 32-bit immediate; each block of sixteen is a rearrangement of
    the same mix of classes; and every operation occurs exactly as often as the histogram says. *)
Theorem program_shape {E} (seed : Z) : exists p, build_program (E := E) seed = Ok p /\ program_ok p.
Proof. apply build_program_ok. Qed.

(** ** The interpreter *)
Definition machine_ok (m : Machine) : Prop := words NREG (m_regs m) /\ words SCRATCH_WORDS (m_pad m).
Lemma addr_range v k : 0 <= Z.shiftr (addr_of v k) 3 < SCRATCH_WORDS.
Proof.
  unfold addr_of. pose proof (land_bound 16 (Z.shiftr (wrap 64 (Z.lxor v k * MULT)) 40) SCRATCH_MASK ltac:(lia) ltac:(unfold SCRATCH_MASK, SCRATCH_BYTES; lia)) as H.
  rewrite Z.shiftr_div_pow2 by lia. change SCRATCH_WORDS with (2 ^ 13). split; [apply Z.div_pos; lia|]. apply Z.div_lt_upper_bound; lia.
Qed.
Lemma line_range v k : 0 <= Z.shiftr (line_of v k) 3 < SCRATCH_WORDS /\ 0 <= Z.lor (Z.shiftr (line_of v k) 3) 1 < SCRATCH_WORDS.
Proof.
  assert (0 <= Z.shiftr (line_of v k) 3 < 2 ^ 13) as H.
  { unfold line_of. pose proof (land_bound 16 (Z.shiftr (wrap 64 (Z.lxor v k * MULT)) 40) LINE_MASK ltac:(lia) ltac:(unfold LINE_MASK, SCRATCH_BYTES; lia)) as H.
    rewrite Z.shiftr_div_pow2 by lia. split; [apply Z.div_pos; lia|]. apply Z.div_lt_upper_bound; lia. }
  change SCRATCH_WORDS with (2 ^ 13). split; [done|]. apply lor_bound; lia.
Qed.
Lemma line_even v k : Z.testbit (Z.shiftr (line_of v k) 3) 0 = false.
Proof. unfold line_of. by rewrite Z.shiftr_spec, Z.land_spec, andb_false_r by lia. Qed.

Section Exec.
Context {E : Type}.
Lemma rotate_ok x k : u64 (rotate_left 64 x k) /\ u64 (rotate_right 64 x k).
Proof. split; apply u64_wrap. Qed.
Lemma alu_ok op rd rs imm x : u64 rd -> u64 rs -> 0 <= imm < 2 ^ 32 -> alu op rd rs imm = Some x -> u64 x.
Proof.
  intros Hd Hs Hi. assert (u64 imm) as Hi' by by apply u64_u32.
  destruct op; cbn [alu]; intros H; (discriminate H || injection H as <-); try apply u64_wrap; apply u64_lxor; try done; try apply u64_wrap; try apply rotate_ok.
  - by apply lor_bound.
  - by apply land_bound.
  - by apply land_bound.
Qed.
(** The pad read or written at a computed address: the address is forgotten, its range is kept. *)
Ltac forget_addr := match goal with
  | |- context [Z.shiftr (addr_of ?v ?k) 3] => pose proof (addr_range v k); generalize dependent (Z.shiftr (addr_of v k) 3); intros
  end.
Ltac pad_at := try forget_addr; match goal with
  | Hw : words SCRATCH_WORDS ?sc |- context [at_ ?sc ?i] =>
    let x := fresh "x" in let Hx := fresh "Hx" in destruct (words_at (E := E) SCRATCH_WORDS sc i Hw) as (x & -> & _ & Hx); [assumption|]; cbn [obind]
  | Hw : words SCRATCH_WORDS ?sc |- context [put ?sc ?i ?v] =>
    let H := fresh "H" in destruct (words_put (E := E) SCRATCH_WORDS sc i v Hw) as [-> H]; [assumption|auto with isochron|]; cbn [obind]
  end.
Lemma mem_op_ok op rd rs imm sc : u64 rd -> u64 rs -> words SCRATCH_WORDS sc ->
  exists x sc', mem_op (E := E) op rd rs imm sc = Ok (x, sc') /\ u64 x /\ words SCRATCH_WORDS sc'.
Proof.
  intros Hd Hs Hw. destruct (decide (op = Aesr)) as [->|Hne].
  - cbn [mem_op]. cbv zeta. pose proof (line_range rs (Z.lxor imm C1)) as [Hl0 Hl1]. generalize dependent (Z.lor (Z.shiftr (line_of rs (Z.lxor imm C1)) 3) 1).
    generalize dependent (Z.shiftr (line_of rs (Z.lxor imm C1)) 3). intros w Hl0 w1 Hl1. do 2 pad_at. pose proof (aesenc_ok (x, x0)) as [H1 H2]. generalize dependent (aesenc (x, x0)). intros v H1 H2.
    do 3 pad_at. eauto 6 with isochron.
  - destruct op; try done; cbn [mem_op]; cbv zeta; try (by exists rd, sc); repeat pad_at; eauto 6 with isochron.
Qed.
Lemma exec_ok m x : machine_ok m -> instr_ok x -> exists m', exec (E := E) m x = Ok m' /\ machine_ok m'.
Proof.
  intros [Hr Hp] (Hd & Hs & _ & Hi). unfold exec. destruct (words_at (E := E) NREG (m_regs m) (i_d x) Hr Hd) as (rd & -> & _ & Hrd).
  destruct (words_at (E := E) NREG (m_regs m) (i_s x) Hr Hs) as (rs & -> & _ & Hrs). cbn [obind].
  assert (exists y sc, (match alu (i_op x) rd rs (i_imm x) with Some y => Ok (y, m_pad m) | None => mem_op (E := E) (i_op x) rd rs (i_imm x) (m_pad m) end) = Ok (y, sc) /\
    u64 y /\ words SCRATCH_WORDS sc) as (y & sc & -> & Hy & Hsc).
  { destruct (alu _ _ _ _) as [y|] eqn:Ea; [|by apply mem_op_ok]. exists y, (m_pad m). split; [done|]. split; [|done]. exact (alu_ok _ _ _ _ _ Hrd Hrs Hi Ea). }
  cbn [obind]. destruct (words_put (E := E) NREG (m_regs m) (i_d x) y Hr Hd Hy) as [-> Hr']. cbn [obind]. eexists. split; [reflexivity|]. by split.
Qed.
Lemma ofold_inv {A S} (f : S -> A -> outcome E S) (P : S -> Prop) (Q : A -> Prop) l : Forall Q l ->
  (forall s x, P s -> Q x -> exists s', f s x = Ok s' /\ P s') -> forall s, P s -> exists s', ofold f s l = Ok s' /\ P s'.
Proof.
  intros Hl Hf. induction Hl as [|x l Hx _ IH]; intros s Hs; [by exists s|]. cbn [ofold]. destruct (Hf s x Hs Hx) as (s1 & -> & Hs1). cbn [obind]. by apply IH.
Qed.
Lemma loop_step_ok p m lp : Forall instr_ok p -> 0 <= lp < LOOPS -> machine_ok m -> exists m', loop_step (E := E) p m lp = Ok m' /\ machine_ok m'.
Proof.
  intros Hp Hlp Hm. unfold loop_step. destruct (ofold_inv (exec (E := E)) machine_ok instr_ok p Hp) with (s := m) as (m1 & -> & [Hr Hs]); [intros; by apply exec_ok|done|].
  cbn [obind]. destruct (words_at (E := E) NREG (m_regs m1) 0 Hr) as (r0 & -> & _ & H0); [done|]. cbn [obind].
  destruct (words_put (E := E) NREG (m_regs m1) 0 (Z.lxor r0 lp) Hr) as [-> Hr']; [done|apply u64_lxor; [done|]; unfold u64, LOOPS in *; lia|].
  cbn [obind]. eexists. split; [reflexivity|]. by split.
Qed.
Lemma xor_all l : Forall u64 l -> forall x, u64 x -> u64 (fold_left Z.lxor l x).
Proof. induction 1 as [|y l Hy _ IH]; intros x Hx; [done|]. cbn. apply IH. by apply u64_lxor. Qed.
Lemma interp_ok p sc seed : Forall instr_ok p -> words SCRATCH_WORDS sc -> exists sc' h, interp (E := E) p sc seed = Ok (sc', h) /\ words SCRATCH_WORDS sc' /\ u64 h.
Proof.
  intros Hp Hsc. unfold interp.
  destruct (ofold_inv (loop_step (E := E) p) machine_ok (fun lp => 0 <= lp < LOOPS) (zrange 0 LOOPS)) with (s := MkMachine (init_regs seed) sc) as (m & -> & [Hr Hs]).
  - apply Forall_forall. intros lp Hlp. by apply in_zrange in Hlp.
  - intros. by apply loop_step_ok.
  - split; [|done]. split; [done|]. apply Forall_fmap, Forall_true. intros i. apply u64_wrap.
  - cbn [obind]. eexists _, _. split; [reflexivity|]. split; [done|]. apply xor_all; [apply Hr|done].
Qed.
Lemma fill_step_ok seed sc a i : 0 <= i -> 2 * i + 7 < SCRATCH_WORDS -> words SCRATCH_WORDS sc -> chains_ok a ->
  exists sc' a', fill_step (E := E) seed (sc, a) i = Ok (sc', a') /\ words SCRATCH_WORDS sc' /\ chains_ok a'.
Proof.
  intros Hi Hi7 Hw [Hl Hf]. destruct (four a Hl) as (a0 & a1 & a2 & a3 & ->). unfold fill_step.
  assert (forall j, u64x2_ok (fill_line seed j)) as Hv by (intros j; apply aesenc_ok).
  pose proof (Hv i) as [H0 H0']. pose proof (Hv (i + 1)) as [H1 H1']. pose proof (Hv (i + 2)) as [H2 H2']. pose proof (Hv (i + 3)) as [H3 H3']. cbv zeta.
  generalize dependent (fill_line seed i). generalize dependent (fill_line seed (i + 1)). generalize dependent (fill_line seed (i + 2)). generalize dependent (fill_line seed (i + 3)).
  intros v3 H3 H3' v2 H2 H2' v1 H1 H1' v0 H0 H0'. clear Hv.
  do 8 (match goal with Hw : words SCRATCH_WORDS ?sc |- context [put ?sc ?i ?v] =>
    let H := fresh "H" in destruct (words_put (E := E) SCRATCH_WORDS sc i v Hw) as [-> H]; [lia|done|clear Hw]; cbn [obind] end).
  change (at_ [a0; a1; a2; a3] 0) with (@Ok E _ a0). cbn [obind]. eexists _, _. split; [reflexivity|]. split; [done|]. split; [done|].
  repeat (constructor; [apply aesenc_key_ok|]). constructor.
Qed.
Lemma fill_ok sc seed : words SCRATCH_WORDS sc -> u64 seed -> exists sc' ps, fill (E := E) sc seed = Ok (sc', ps) /\ words SCRATCH_WORDS sc' /\ u64 ps.
Proof.
  intros Hw Hs. unfold fill.
  destruct (ofold_inv (fill_step (E := E) seed) (fun st => words SCRATCH_WORDS (fst st) /\ chains_ok (snd st)) (fun i => 0 <= i /\ 2 * i + 7 < SCRATCH_WORDS)
    ((fun k => CHAINS * k) <$> zrange 0 (LINES / CHAINS))) with (s := (sc, chain_init seed)) as ([sc' a] & -> & [Hw' [Hl Hf]]).
  - apply Forall_fmap, Forall_forall. intros k Hk. apply in_zrange in Hk. change (LINES / CHAINS) with 1024 in Hk. unfold compose. cbv beta. change CHAINS with 4. change SCRATCH_WORDS with 8192. lia.
  - intros [sc1 a1] i [H1 H2] [H3 H4]. destruct (fill_step_ok seed sc1 a1 i H3 H4 H1 H2) as (sc' & a' & -> & H5 & H6). eexists. split; [reflexivity|done].
  - split; [done|]. by apply chain_init_ok.
  - cbn [obind fst snd] in *. destruct (four a Hl) as (a0 & a1 & a2 & a3 & ->).
    change (at_ [a0; a1; a2; a3] 0) with (@Ok E _ a0). change (at_ [a0; a1; a2; a3] 1) with (@Ok E _ a1).
    change (at_ [a0; a1; a2; a3] 2) with (@Ok E _ a2). change (at_ [a0; a1; a2; a3] 3) with (@Ok E _ a3). cbn [obind].
    eexists _, _. split; [reflexivity|]. split; [done|].
    pose proof (aesenc_ok (aesenc (aesenc_key (aesenc_key (aesenc_key a0 a1) a2) a3))) as [G1 G2]. exact (u64_lxor _ _ G1 G2).
Qed.
End Exec.

(** ** The pad is reused *)
(** Two pads that agree on the words filled so far. *)
Definition agree (n : Z) (l l' : list Z) : Prop := Zlen l = Zlen l' /\ forall j, j < n -> zlookup l j = zlookup l' j.
Section Reuse.
Context {E : Type}.
Lemma put_agree n l l' v : agree n l l' -> 0 <= n < Zlen l -> put (E := E) l n v = Ok (zinsert l n v) /\ put (E := E) l' n v = Ok (zinsert l' n v) /\ agree (n + 1) (zinsert l n v) (zinsert l' n v).
Proof.
  intros [Hl Ha] Hn. rewrite !put_ok by lia. do 2 (split; [done|]). split; [by rewrite !Zlen_zinsert|]. intros j Hj. rewrite !zlookup_zinsert, <-Hl.
  destruct (Z.eqb_spec n j) as [->|]; [|apply Ha; lia]. destruct (Z.leb_spec 0 j), (Z.ltb_spec j (Zlen l)); try lia. done.
Qed.
Lemma agree_all n l l' : agree n l l' -> Zlen l <= n -> l = l'.
Proof. intros [Hl Ha] Hn. apply zlookup_ext; [done|]. intros j Hj. apply Ha. lia. Qed.
Lemma fill_step_agree seed sc sc' a i : agree (2 * i) sc sc' -> 0 <= i -> 2 * i + 7 < Zlen sc -> length a = 4%nat ->
  exists s s' b, fill_step (E := E) seed (sc, a) i = Ok (s, b) /\ fill_step (E := E) seed (sc', a) i = Ok (s', b) /\
    agree (2 * (i + 4)) s s' /\ Zlen s = Zlen sc /\ length b = 4%nat.
Proof.
  intros Ha Hi Hn Hl. destruct (four a Hl) as (a0 & a1 & a2 & a3 & ->). unfold fill_step. cbv zeta.
  generalize (fill_line seed i) (fill_line seed (i + 1)) (fill_line seed (i + 2)) (fill_line seed (i + 3)). intros v0 v1 v2 v3. remember (Zlen sc) as N eqn:HN.
  do 8 (match goal with Ha : agree ?n ?l ?l' |- context [put ?l ?m ?v] =>
    let H := fresh "H" in replace m with n by lia; destruct (put_agree n l l' v Ha) as (-> & -> & H); [rewrite ?Zlen_zinsert; lia|clear Ha]; cbn [obind] end).
  change (at_ [a0; a1; a2; a3] 0) with (@Ok E _ a0). cbn [obind].
  eexists _, _, _. split; [reflexivity|]. split; [reflexivity|]. split; [by replace (2 * (i + 4)) with (2 * i + 1 + 1 + 1 + 1 + 1 + 1 + 1 + 1) by lia|].
  by rewrite !Zlen_zinsert.
Qed.
Lemma fill_loop_agree seed n : forall k sc sc' a, Z.of_nat n + k = 1024 -> 0 <= k -> agree (8 * k) sc sc' -> Zlen sc = SCRATCH_WORDS -> length a = 4%nat ->
  ofold (fill_step (E := E) seed) (sc, a) ((fun k => CHAINS * k) <$> zrange k 1024) = ofold (fill_step (E := E) seed) (sc', a) ((fun k => CHAINS * k) <$> zrange k 1024).
Proof.
  induction n as [|n IH]; intros k sc sc' a Hk H0 Ha Hw Hl.
  - rewrite zrange_nil by lia. cbn. rewrite (agree_all _ _ _ Ha) by (rewrite Hw; change SCRATCH_WORDS with 8192; lia). done.
  - rewrite (zrange_cons k), fmap_cons by lia. cbn [ofold]. change SCRATCH_WORDS with 8192 in *. unfold CHAINS at 1 3.
    destruct (fill_step_agree seed sc sc' a (4 * k)) as (s & s' & b & -> & -> & H1 & H2 & H3); [by replace (2 * (4 * k)) with (8 * k) by lia|lia|lia|done|].
    cbn [obind]. apply IH; [lia|lia| |congruence|done]. by replace (8 * (k + 1)) with (2 * (4 * k + 4)) by lia.
Qed.
Lemma fill_agree seed sc sc' : words SCRATCH_WORDS sc -> words SCRATCH_WORDS sc' -> fill (E := E) sc seed = fill sc' seed.
Proof.
  intros [H1 F1] [H2 F2]. unfold fill. change (LINES / CHAINS) with 1024. rewrite (fill_loop_agree seed 1024 0 sc sc' (chain_init seed)); try done. split; [congruence|].
  intros j Hj. unfold zlookup. destruct (Z.leb_spec 0 j); [lia|done].
Qed.

(** The window of a [Scratch] lies in its buffer. *)
Definition scratch_ok (s : Scratch) : Prop := 0 <= s_off s /\ s_off s + SCRATCH_WORDS <= Zlen (s_buf s) /\ Forall u64 (s_buf s).
Lemma scratch_words s : scratch_ok s -> exists w, Scratch_words (E := E) s = Ok w /\ words SCRATCH_WORDS w.
Proof.
  intros (H1 & H2 & H3). unfold Scratch_words. destruct (Z.leb_spec (s_off s + SCRATCH_WORDS) (Zlen (s_buf s))); [|lia]. eexists. split; [done|].
  split; [rewrite Zlen_slice; change SCRATCH_WORDS with 8192 in *; lia|]. by apply slice_Forall.
Qed.
Lemma write_words_ok s w : scratch_ok s -> words SCRATCH_WORDS w -> scratch_ok (write_words s w) /\ Scratch_words (E := E) (write_words s w) = Ok w.
Proof.
  intros (H1 & H2 & H3) [Hw Hf]. change SCRATCH_WORDS with 8192 in *. unfold write_words. set (a := slice (s_buf s) 0 (s_off s)). set (b := slice (s_buf s) (s_off s + SCRATCH_WORDS) (Zlen (s_buf s))).
  assert (Zlen a = s_off s) as Ha by (unfold a; rewrite Zlen_slice; lia).
  assert (Zlen b = Zlen (s_buf s) - s_off s - 8192) as Hb by (unfold b; change SCRATCH_WORDS with 8192; rewrite Zlen_slice; lia).
  assert (Zlen (a ++ w ++ b) = Zlen (s_buf s)) as Hl by (rewrite !Zlen_app; lia). split.
  - split; [exact H1|]. cbn [s_off s_buf]. change SCRATCH_WORDS with 8192. rewrite Hl. split; [lia|]. apply Forall_app. split; [by apply slice_Forall|]. apply Forall_app. split; [done|by apply slice_Forall].
  - unfold Scratch_words. cbn [s_off s_buf]. change SCRATCH_WORDS with 8192. rewrite Hl. destruct (Z.leb_spec (s_off s + 8192) (Zlen (s_buf s))); [|lia]. f_equal.
    rewrite slice_app_r, Ha by lia. apply slice_app_l0; lia.
Qed.
Lemma words_mut_ok {A} s w (f : list Z -> outcome E (list Z * A)) w' x : Scratch_words (E := E) s = Ok w -> f w = Ok (w', x) -> words_mut s f = Ok (write_words s w', x).
Proof. intros H1 H2. unfold words_mut. rewrite H1. cbn [obind]. by rewrite H2. Qed.
(** A new pad has its window inside the buffer, wherever the buffer lies. *)
Lemma Scratch_new_ok base : 0 <= base -> base + 65536 < 2 ^ 64 -> exists s, Scratch_new (E := E) base = Ok s /\ scratch_ok s /\ (base mod 8 = 0 -> (base + 8 * s_off s) mod ALIGN_BYTES = 0).
Proof.
  intros Hb Hm. unfold Scratch_new, next_multiple_of. cbv zeta. change ALIGN_BYTES with 65536. change SCRATCH_WORDS with 8192. pose proof (Z.mod_pos_bound base 65536 ltac:(lia)) as Hr.
  set (y := if base mod 65536 =? 0 then base else base + (65536 - base mod 65536)).
  assert (base <= y <= base + 65536 /\ y mod 65536 = 0 /\ (base mod 8 = 0 -> (y - base) mod 8 = 0)) as (Hy & Hz & Hq).
  { unfold y. destruct (Z.eqb_spec (base mod 65536) 0) as [E0|E0]; [rewrite Z.sub_diag; split; [lia|done]|]. split; [lia|].
    pose proof (Z.div_mod base 65536 ltac:(lia)) as Hd. set (q := base / 65536) in *. set (r := base mod 65536) in *. split; [rewrite Hd; replace (65536 * q + r + (65536 - r)) with ((q + 1) * 65536) by lia; by apply Z.mod_mul|].
    rewrite Hd. intros H8. replace (65536 * q + r + (65536 - r) - (65536 * q + r)) with (65536 - r) by lia. replace (65536 * q + r) with (r + (8192 * q) * 8) in H8 by lia. rewrite Z.mod_add in H8 by lia. 
    apply Z.mod_divide in H8 as [t Ht]; [|lia]. rewrite Ht. replace (65536 - t * 8) with ((8192 - t) * 8) by lia. by apply Z.mod_mul. }
  destruct (Z.leb_spec y (umax 64)) as [_|Hc]; [|unfold umax in Hc; lia]. cbn [obind]. eexists. split; [reflexivity|].
  pose proof (Z.div_mod (y - base) 8 ltac:(lia)) as Hd. pose proof (Z.mod_pos_bound (y - base) 8 ltac:(lia)). unfold scratch_ok. cbn [s_off s_buf]. split.
  - split; [lia|]. split; [unfold Zlen; rewrite length_replicate; change (8192 + ALIGN_WORDS) with 16384; change SCRATCH_WORDS with 8192; lia|]. apply Forall_replicate. unfold u64. lia.
  - intros H8. rewrite <-Hz. f_equal. specialize (Hq H8). lia.
Qed.
End Reuse.

Lemma zero_pad : words SCRATCH_WORDS (replicate (Z.to_nat SCRATCH_WORDS) 0).
Proof. split; [unfold Zlen; by rewrite length_replicate, Z2Nat.id|apply Forall_replicate; unfold u64; lia]. Qed.
Lemma verify_hash_defined {E} (seed : Z) : u64 seed ->
  exists w digest, words SCRATCH_WORDS w /\ u64 digest /\
    forall s, scratch_ok s -> exists s', verify_hash (E := E) s seed = Ok (s', digest) /\ scratch_ok s' /\ Scratch_words (E := E) s' = Ok w.
Proof.
  intros Hs.
  pose proof zero_pad as Hz. set (z := replicate (Z.to_nat SCRATCH_WORDS) 0) in *. clearbody z.
  destruct (fill_ok (E := E) z seed Hz Hs) as (w1 & ps & Hf & Hw1 & _). destruct (build_program_ok (E := E) ps) as (p & Hp & P).
  destruct (interp_ok (E := E) p w1 seed (po_slots _ P) Hw1) as (w2 & h & Hi & Hw2 & Hh). exists w2, h. do 2 (split; [done|]). intros s Hsc.
  destruct (scratch_words (E := E) s Hsc) as (w & Hw & Hww). destruct (write_words_ok (E := E) s w1 Hsc Hw1) as [Hs1 Hr1].
  destruct (write_words_ok (E := E) _ w2 Hs1 Hw2) as [Hs2 Hr2]. exists (write_words (write_words s w1) w2). split; [|done]. unfold verify_hash.
  rewrite (words_mut_ok s w _ w1 ps Hw) by (by rewrite (fill_agree seed w z Hww Hz)). cbn [obind]. rewrite Hp. cbn [obind]. by apply (words_mut_ok _ w1).
Qed.

(** C11. The hash is a function of the seed: there are one digest and one final pad, 64-bit words, such that hashing the seed on
    any scratchpad, whatever an earlier hash left in it, returns them; no step indexes out of range or overflows. *)
Theorem verify_hash_total {E} (seed : Z) (Hs : u64 seed) :
  exists w digest, words SCRATCH_WORDS w /\ u64 digest /\
    forall s, scratch_ok s -> exists s', verify_hash (E := E) s seed = Ok (s', digest) /\ scratch_ok s' /\ Scratch_words (E := E) s' = Ok w.
Proof. exact (verify_hash_defined seed Hs). Qed.

(** The start-up check never panics: with AES it accepts the machine or reports the first vector whose digest differs. *)
Lemma check_one_ok s c : scratch_ok s -> u64 (fst c) ->
  (exists s', check_one s c = Ok s' /\ scratch_ok s') \/ (exists got, check_one s c = Err (PlatformHashMismatch (fst c) (snd c) got) /\ got <> snd c).
Proof.
  intros Hs Hc. destruct c as [seed expected]. cbn [fst snd] in *. unfold check_one. destruct (verify_hash_defined (E := PowError) seed Hc) as (w & d & _ & _ & H).
  destruct (H s Hs) as (s' & -> & Hs' & _). cbn [obind]. destruct (Z.eqb_spec d expected); [left|right]; eauto.
Qed.
Lemma platform_self_check_verdict base : 0 <= base -> base + 65536 < 2 ^ 64 ->
  platform_self_check true base = Ok () \/
  exists seed expected got, platform_self_check true base = Err (PlatformHashMismatch seed expected got) /\ (seed, expected) ∈ SELF_CHECK /\ got <> expected.
Proof.
  intros Hb Hm. unfold platform_self_check. cbn [Isochron_new obind]. destruct (Scratch_new_ok (E := PowError) base Hb Hm) as (s & -> & Hs & _). cbn [obind].
  assert (Forall (fun c => u64 (fst c)) SELF_CHECK) as Hall by (unfold SELF_CHECK; repeat constructor; unfold fst; lia).
  revert s Hs. induction Hall as [|c l Hc _ IH]; intros s Hs; [by left|]. cbn [ofold].
  destruct (check_one_ok s c Hs Hc) as [(s' & -> & Hs')|(got & -> & Hg)]; cbn [obind].
  - destruct (IH s' Hs') as [?|(x & y & g & ? & ? & ?)]; [by left|]. right. exists x, y, g. split; [done|]. split; [by right|done].
  - right. exists (fst c), (snd c), got. split; [done|]. split; [destruct c; by left|done].
Qed.

(** ** Instructions are reversible *)
Lemma lxor_inj c a b : Z.lxor a c = Z.lxor b c -> a = b.
Proof. intros E. apply (f_equal (fun x => Z.lxor x c)) in E. by rewrite !Z.lxor_assoc, Z.lxor_nilpotent, !Z.lxor_0_r in E. Qed.
Lemma wrap_add_inj c a b : u64 a -> u64 b -> wrap 64 (a + c) = wrap 64 (b + c) -> a = b.
Proof.
  intros Ha Hb E. unfold wrap in E. apply (f_equal (fun x => (x - c) mod 2 ^ 64)) in E. rewrite !Zminus_mod_idemp_l in E.
  replace (a + c - c) with a in E by lia. replace (b + c - c) with b in E by lia. by rewrite !Z.mod_small in E.
Qed.
Lemma u64_bits a b : u64 a -> u64 b -> (forall i, 0 <= i < 64 -> Z.testbit a i = Z.testbit b i) -> a = b.
Proof.
  intros Ha Hb H. apply Z.bits_inj'. intros i Hi. destruct (Z.lt_ge_cases i 64); [by apply H|]. by rewrite (testbit_high 64 a), (testbit_high 64 b) by (done || lia).
Qed.
Lemma rotate_left_bit x k i : u64 x -> 0 <= i < 64 -> Z.testbit (rotate_left 64 x k) i = Z.testbit x ((i - k) mod 64).
Proof.
  intros Hx Hi. unfold rotate_left, wrap. pose proof (Z.mod_pos_bound k 64 ltac:(lia)) as Hr. rewrite Z.mod_pow2_bits_low, Z.lor_spec by lia.
  rewrite (Zminus_mod i k 64), (Z.mod_small i 64) by lia. set (r := k mod 64) in *. pose proof (Z.mod_pos_bound (64 - r) 64 ltac:(lia)).
  rewrite Z.shiftl_spec, Z.shiftr_spec by lia. destruct (Z.eq_dec r 0) as [->|Hne].
  - change ((64 - 0) mod 64) with 0. rewrite Z.add_0_r, !Z.sub_0_r, Z.mod_small by lia. apply orb_diag.
  - rewrite (Z.mod_small (64 - r)) by lia. destruct (Z.lt_ge_cases i r).
    + rewrite (Z.testbit_neg_r _ (i - r)) by lia. cbn [orb]. f_equal. apply (Z.mod_unique_pos _ _ (-1)); lia.
    + rewrite (testbit_high 64 x (i + (64 - r))), orb_false_r by (done || lia). by rewrite Z.mod_small by lia.
Qed.
Lemma rotate_right_bit x k i : u64 x -> 0 <= i < 64 -> Z.testbit (rotate_right 64 x k) i = Z.testbit x ((i + k) mod 64).
Proof.
  intros Hx Hi. unfold rotate_right, wrap. pose proof (Z.mod_pos_bound k 64 ltac:(lia)) as Hr. rewrite Z.mod_pow2_bits_low, Z.lor_spec by lia.
  rewrite (Zplus_mod i k 64), (Z.mod_small i 64) by lia. set (r := k mod 64) in *. pose proof (Z.mod_pos_bound (64 - r) 64 ltac:(lia)).
  rewrite Z.shiftl_spec, Z.shiftr_spec by lia. destruct (Z.eq_dec r 0) as [->|Hne].
  - change ((64 - 0) mod 64) with 0. rewrite !Z.add_0_r, Z.sub_0_r, Z.mod_small by lia. apply orb_diag.
  - rewrite (Z.mod_small (64 - r)) by lia. destruct (Z.lt_ge_cases (i + r) 64).
    + rewrite (Z.testbit_neg_r _ (i - (64 - r))), orb_false_r by lia. by rewrite Z.mod_small by lia.
    + rewrite (testbit_high 64 x (i + r)) by (done || lia). cbn [orb]. f_equal. apply (Z.mod_unique_pos _ _ 1); lia.
Qed.
Lemma rotate_left_inj k a b : u64 a -> u64 b -> rotate_left 64 a k = rotate_left 64 b k -> a = b.
Proof.
  intros Ha Hb E. apply u64_bits; [done..|]. intros i Hi. apply (f_equal (fun x => Z.testbit x ((i + k) mod 64))) in E. pose proof (Z.mod_pos_bound (i + k) 64 ltac:(lia)).
  rewrite !rotate_left_bit in E by done. rewrite Zminus_mod_idemp_l in E. replace (i + k - k) with i in E by lia. by rewrite Z.mod_small in E.
Qed.
Lemma rotate_right_inj k a b : u64 a -> u64 b -> rotate_right 64 a k = rotate_right 64 b k -> a = b.
Proof.
  intros Ha Hb E. apply u64_bits; [done..|]. intros i Hi. apply (f_equal (fun x => Z.testbit x ((i - k) mod 64))) in E. pose proof (Z.mod_pos_bound (i - k) 64 ltac:(lia)).
  rewrite !rotate_right_bit in E by done. rewrite Zplus_mod_idemp_l in E. replace (i - k + k) with i in E by lia. by rewrite Z.mod_small in E.
Qed.
(** The multiplier is made odd, hence invertible. *)
Lemma odd_divide m n : Z.odd m = true -> forall d, (2 ^ Z.of_nat n | m * d) -> (2 ^ Z.of_nat n | d).
Proof.
  intros Hm. induction n as [|n IH]; intros d Hd; [apply Z.divide_1_l|]. rewrite Nat2Z.inj_succ, Z.pow_succ_r in * by lia.
  assert (Z.even d = true) as He.
  { destruct Hd as [q Hq]. assert (Z.even (m * d) = true) as H by (rewrite Hq, Z.even_mul, Z.even_mul; apply orb_true_r).
    rewrite Z.even_mul, <-Z.negb_odd, Hm in H. exact H. }
  apply Z.even_spec in He as [d' ->]. apply Z.mul_divide_mono_l, IH. destruct Hd as [q Hq]. exists q. lia.
Qed.
Lemma odd_mul_inj c a b : u64 a -> u64 b -> wrap 64 (a * Z.lor c 1) = wrap 64 (b * Z.lor c 1) -> a = b.
Proof.
  intros Ha Hb E. unfold wrap in E. assert (Z.odd (Z.lor c 1) = true) as Ho by (rewrite <-Z.bit0_odd, Z.lor_spec; apply orb_true_r).
  set (m := Z.lor c 1) in *. assert ((2 ^ 64 | m * (a - b))) as Hdiv.
  { apply Z.mod_divide; [lia|]. replace (m * (a - b)) with (a * m - b * m) by lia. rewrite Zminus_mod, E, Z.sub_diag. done. }
  apply (odd_divide m 64 Ho) in Hdiv. destruct Hdiv as [q Hq]. change (2 ^ Z.of_nat 64) with (2 ^ 64) in Hq. unfold u64 in *. assert (q = 0) as -> by nia. lia.
Qed.

Definition reversible (op : Op) : Prop := op <> Mulhi.
Lemma alu_inj op rs imm a b x : reversible op -> u64 a -> u64 b -> u64 rs -> alu op a rs imm = Some x -> alu op b rs imm = Some x -> a = b.
Proof.
  intros Hop Ha Hb Hs. assert (forall k, u64 (rotate_left 64 a k) /\ u64 (rotate_left 64 b k) /\ u64 (rotate_right 64 a k) /\ u64 (rotate_right 64 b k)) as Hrot
    by (intros k; split_and!; apply rotate_ok).
  destruct op; cbn [alu]; try discriminate; try done; intros E1 E2; rewrite <-E2 in E1; injection E1 as E; clear E2.
  - by apply lxor_inj, wrap_add_inj in E.
  - apply lxor_inj in E. by apply (wrap_add_inj (- rs)) in E.
  - apply wrap_add_inj in E; [by apply lxor_inj in E|by apply u64_lxor..].
  - by apply lxor_inj, rotate_left_inj in E.
  - by apply lxor_inj, rotate_left_inj in E.
  - by apply lxor_inj, rotate_left_inj in E.
  - by apply lxor_inj, rotate_left_inj in E.
  - apply wrap_add_inj in E; [by apply rotate_left_inj in E|apply Hrot..].
  - by apply lxor_inj, rotate_right_inj in E.
  - apply wrap_add_inj in E; [by apply rotate_right_inj in E|apply Hrot..].
  - by apply lxor_inj, rotate_left_inj in E.
  - apply wrap_add_inj in E; [by apply rotate_right_inj in E|apply Hrot..].
  - by apply odd_mul_inj in E.
Qed.

Lemma zinsert_inj {A} (l l' : list A) i x y : Zlen l = Zlen l' -> 0 <= i < Zlen l -> zinsert l i x = zinsert l' i y ->
  x = y /\ forall j, j <> i -> zlookup l j = zlookup l' j.
Proof.
  intros Hl Hi E. assert (forall j, zlookup (zinsert l i x) j = zlookup (zinsert l' i y) j) as H by (intros j; by rewrite E). split.
  - specialize (H i). rewrite !zlookup_zinsert, Z.eqb_refl, <-Hl in H. destruct (Z.leb_spec 0 i), (Z.ltb_spec i (Zlen l)); try lia. by injection H.
  - intros j Hj. specialize (H j). rewrite !zlookup_zinsert in H. by destruct (Z.eqb_spec i j); [congruence|].
Qed.
Lemma zlookup_ext_except {A} (l l' : list A) i x : Zlen l = Zlen l' -> zlookup l i = Some x -> zlookup l' i = Some x ->
  (forall j, j <> i -> zlookup l j = zlookup l' j) -> l = l'.
Proof. intros Hl Hx Hy H. apply zlookup_ext; [done|]. intros j _. destruct (Z.eq_dec j i) as [->|Hne]; [congruence|by apply H]. Qed.

Section Reversible.
Context {E : Type}.
(** A word of the pad is overwritten: its old value, and that nothing else changed. *)
Record wrote (sc sc' : list Z) (w x v : Z) : Prop := {
  wr_old : zlookup sc w = Some x;
  wr_u64 : u64 x;
  wr_new : sc' = zinsert sc w v;
}.
Lemma wrote_back sc1 sc2 sc' w x1 x2 v1 v2 : words SCRATCH_WORDS sc1 -> words SCRATCH_WORDS sc2 -> 0 <= w < SCRATCH_WORDS ->
  wrote sc1 sc' w x1 v1 -> wrote sc2 sc' w x2 v2 -> v1 = v2 /\ (x1 = x2 -> sc1 = sc2).
Proof.
  intros [L1 _] [L2 _] Hw [A1 _ A3] [B1 _ B3]. rewrite A3 in B3. apply zinsert_inj in B3 as [<- Hj]; [|lia..]. split; [done|]. intros ->.
  by apply (zlookup_ext_except sc1 sc2 w x2); [lia|..].
Qed.
Lemma at_inv {A} (l : list A) i x : at_ (E := E) l i = Ok x -> zlookup l i = Some x.
Proof. apply expect_ok. Qed.
Lemma put_inv {A} (l l' : list A) i x : put (E := E) l i x = Ok l' -> l' = zinsert l i x /\ 0 <= i < Zlen l.
Proof. unfold put. destruct (Z.leb_spec 0 i), (Z.ltb_spec i (Zlen l)); cbn; try discriminate. intros [= <-]. split; [done|lia]. Qed.
Lemma words_u64 n l i x : words n l -> zlookup l i = Some x -> u64 x.
Proof. intros [_ Hf] Hx. rewrite Forall_forall in Hf. apply Hf, list_elem_of_In, zlookup_elem. eauto. Qed.
Lemma zlookup_zinsert_in {A} (l : list A) i x : 0 <= i < Zlen l -> zlookup (zinsert l i x) i = Some x.
Proof. intros Hi. rewrite zlookup_zinsert, Z.eqb_refl. destruct (Z.leb_spec 0 i), (Z.ltb_spec i (Zlen l)); try lia. done. Qed.

Section Pair.
Context (rs imm : Z) (sc1 sc2 sc' : list Z) (a b y : Z).
Context (W1 : words SCRATCH_WORDS sc1) (W2 : words SCRATCH_WORDS sc2) (Ha : u64 a) (Hb : u64 b) (Hs : u64 rs).
Abbreviation same := (a = b /\ sc1 = sc2).

Lemma load_inj key : (let? x := at_ (E := E) sc1 (Z.shiftr (addr_of rs key) 3) in Ok (Z.lxor a x, sc1)) = Ok (y, sc') ->
  (let? x := at_ (E := E) sc2 (Z.shiftr (addr_of rs key) 3) in Ok (Z.lxor b x, sc2)) = Ok (y, sc') -> same.
Proof.
  intros H1 H2. apply obind_ok in H1 as (x1 & A1 & [= <- <-]). apply obind_ok in H2 as (x2 & A2 & [= E2 ->]). rewrite A1 in A2. injection A2 as <-.
  apply lxor_inj in E2. by split.
Qed.
Lemma store_inj key : (let? x := at_ (E := E) sc1 (Z.shiftr (addr_of a key) 3) in let? sc := put sc1 (Z.shiftr (addr_of a key) 3) (wrap 64 (x + rs)) in Ok (a, sc)) = Ok (y, sc') ->
  (let? x := at_ (E := E) sc2 (Z.shiftr (addr_of b key) 3) in let? sc := put sc2 (Z.shiftr (addr_of b key) 3) (wrap 64 (x + rs)) in Ok (b, sc)) = Ok (y, sc') -> same.
Proof.
  intros H1 H2. apply obind_ok in H1 as (x1 & A1 & H1). apply obind_ok in H1 as (s1 & B1 & [= <- <-]). apply obind_ok in H2 as (x2 & A2 & H2). apply obind_ok in H2 as (s2 & B2 & [= -> ->]).
  apply at_inv in A1, A2. apply put_inv in B1 as [B1 R], B2 as [B2 _]. split; [done|]. pose proof (words_u64 _ _ _ _ W1 A1) as U1. pose proof (words_u64 _ _ _ _ W2 A2) as U2.
  assert (0 <= Z.shiftr (addr_of a key) 3 < SCRATCH_WORDS) as Hr by apply addr_range.
  destruct (wrote_back sc1 sc2 s1 _ x1 x2 _ _ W1 W2 Hr (Build_wrote _ _ _ _ _ A1 U1 B1) (Build_wrote _ _ _ _ _ A2 U2 B2)) as [Ev Hx]. apply Hx. by apply wrap_add_inj in Ev.
Qed.
Lemma rmw_inj key other (f g : Z -> Z -> Z) :
  (forall x x', u64 x -> u64 x' -> a = b -> f x a = f x' b -> x = x') -> (forall z, g a z = g b z -> a = b) ->
  (let? x := at_ (E := E) sc1 (Z.shiftr (addr_of rs key) 3) in let? sc := put sc1 (Z.shiftr (addr_of rs key) 3) (f x a) in
   let? z := at_ sc (Z.shiftr (addr_of (f x a) other) 3) in Ok (g a z, sc)) = Ok (y, sc') ->
  (let? x := at_ (E := E) sc2 (Z.shiftr (addr_of rs key) 3) in let? sc := put sc2 (Z.shiftr (addr_of rs key) 3) (f x b) in
   let? z := at_ sc (Z.shiftr (addr_of (f x b) other) 3) in Ok (g b z, sc)) = Ok (y, sc') -> same.
Proof.
  intros Hf Hg H1 H2. apply obind_ok in H1 as (x1 & A1 & H1). apply obind_ok in H1 as (s1 & B1 & H1). apply obind_ok in H1 as (z1 & C1 & [= <- <-]).
  apply obind_ok in H2 as (x2 & A2 & H2). apply obind_ok in H2 as (s2 & B2 & H2). apply obind_ok in H2 as (z2 & C2 & [= Eg ->]).
  apply at_inv in A1, A2, C1, C2. apply put_inv in B1 as [B1 R], B2 as [B2 _]. pose proof (words_u64 _ _ _ _ W1 A1) as U1. pose proof (words_u64 _ _ _ _ W2 A2) as U2.
  assert (0 <= Z.shiftr (addr_of rs key) 3 < SCRATCH_WORDS) as Hr by apply addr_range.
  destruct (wrote_back sc1 sc2 s1 _ x1 x2 _ _ W1 W2 Hr (Build_wrote _ _ _ _ _ A1 U1 B1) (Build_wrote _ _ _ _ _ A2 U2 B2)) as [Ev Hx].
  rewrite Ev, C2 in C1. injection C1 as ->. symmetry in Eg. apply Hg in Eg. split; [done|]. apply Hx. by apply Hf.
Qed.
Lemma aesr_inj key : let w := Z.shiftr (line_of rs key) 3 in
  (let? x := at_ (E := E) sc1 w in let? y := at_ sc1 (Z.lor w 1) in let? sc := put sc1 w (fst (aesenc (x, y))) in
   let? sc := put sc (Z.lor w 1) (snd (aesenc (x, y))) in let? z := at_ sc w in Ok (Z.lxor a z, sc)) = Ok (y, sc') ->
  (let? x := at_ (E := E) sc2 w in let? y := at_ sc2 (Z.lor w 1) in let? sc := put sc2 w (fst (aesenc (x, y))) in
   let? sc := put sc (Z.lor w 1) (snd (aesenc (x, y))) in let? z := at_ sc w in Ok (Z.lxor b z, sc)) = Ok (y, sc') -> same.
Proof.
  intros w H1 H2. assert (w <> Z.lor w 1) as Hne.
  { intros Hw. pose proof (line_even rs key) as He. fold w in He. rewrite Hw, Z.lor_spec in He. by rewrite orb_true_r in He. }
  clearbody w. generalize dependent (Z.lor w 1). intros w' H1 H2 Hne.
  apply obind_ok in H1 as (x1 & A1 & H1). apply obind_ok in H1 as (y1 & B1 & H1).
  apply obind_ok in H2 as (x2 & A2 & H2). apply obind_ok in H2 as (y2 & B2 & H2). apply at_inv in A1, A2, B1, B2.
  assert (aesenc (x1, y1) = aesenc (x2, y2) -> (x1, y1) = (x2, y2)) as Hinj.
  { unfold aesenc. apply aesenc_key_inj; (split; [eapply words_u64|eapply words_u64]; [|eassumption| |eassumption]; eassumption). }
  generalize dependent (aesenc (x1, y1)). intros v1 H1. generalize dependent (aesenc (x2, y2)). intros v2 H2 Hinj.
  apply obind_ok in H1 as (s1 & C1 & H1). apply obind_ok in H1 as (t1 & D1 & H1). apply obind_ok in H1 as (z1 & F1 & [= <- <-]).
  apply obind_ok in H2 as (s2 & C2 & H2). apply obind_ok in H2 as (t2 & D2 & H2). apply obind_ok in H2 as (z2 & F2 & [= Eg ->]).
  apply put_inv in C1 as [-> C1], C2 as [-> C2], D1 as [-> D1], D2 as [D2 D3]. rewrite F1 in F2. injection F2 as ->. apply lxor_inj in Eg as ->. split; [done|].
  rewrite Zlen_zinsert in D1, D3. destruct W1 as [L1 _], W2 as [L2 _].
  apply zinsert_inj in D2 as [Es Hj]; [|by rewrite !Zlen_zinsert, L1|by rewrite Zlen_zinsert].
  assert (fst v1 = fst v2) as Ef by (specialize (Hj w Hne); rewrite !zlookup_zinsert_in in Hj by done; by injection Hj).
  assert (v1 = v2) as Ev by (destruct v1, v2; cbn in *; congruence). injection (Hinj Ev) as <- <-. apply zlookup_ext; [lia|]. intros j _.
  destruct (Z.eq_dec j w) as [->|]; [congruence|]. destruct (Z.eq_dec j w') as [->|]; [congruence|]. specialize (Hj j ltac:(done)). rewrite !zlookup_zinsert in Hj.
  by destruct (Z.eqb_spec w j); [congruence|].
Qed.
End Pair.

(** Which operations touch no memory does not depend on the values. *)
Lemma alu_none op a b rs imm : alu op a rs imm = None -> alu op b rs imm = None.
Proof. destruct op; cbn [alu]; intros H; (discriminate H || reflexivity). Qed.
Lemma mem_op_inj op rs imm sc1 sc2 sc' a b y : words SCRATCH_WORDS sc1 -> words SCRATCH_WORDS sc2 -> u64 a -> u64 b -> u64 rs ->
  mem_op (E := E) op a rs imm sc1 = Ok (y, sc') -> mem_op (E := E) op b rs imm sc2 = Ok (y, sc') -> a = b /\ sc1 = sc2.
Proof.
  intros W1 W2 Ha Hb Hs. destruct op; cbn [mem_op]; cbv zeta;
    lazymatch goal with |- Ok (a, sc1) = _ -> _ => intros [= <- <-] [= <- <-]; by split | _ => idtac end.
  - by apply load_inj.
  - by eapply store_inj.
  - apply (rmw_inj rs sc1 sc2 sc' a b y W1 W2 (Z.lxor imm C1) C2 (fun x v => wrap 64 (x + v)) Z.lxor); [intros x x' Hx Hx' ->; by apply wrap_add_inj|intros z; apply lxor_inj].
  - by apply load_inj.
  - by eapply store_inj.
  - apply (rmw_inj rs sc1 sc2 sc' a b y W1 W2 (Z.lxor imm C2) C1 Z.lxor (fun v z => wrap 64 (v + z))); [intros x x' _ _ ->; apply lxor_inj|intros z; by apply wrap_add_inj].
  - by eapply aesr_inj.
Qed.

(** No instruction but [Mulhi] loses information: two machines that an instruction takes to the same state were the same,
    registers and pad. So a program mixes its whole state, and only [Mulhi] can merge two runs. *)
Theorem exec_reversible (x : Instr) (m1 m2 m' : Machine) (Hx : instr_ok x) (Hop : reversible (i_op x)) (H1 : machine_ok m1) (H2 : machine_ok m2)
    (E1 : exec (E := E) m1 x = Ok m') (E2 : exec (E := E) m2 x = Ok m') :
  m1 = m2.
Proof.
  destruct Hx as (Hd & _ & Hne & _), m1 as [r1 p1], m2 as [r2 p2], H1 as [R1 P1], H2 as [R2 P2]. cbn [m_regs m_pad] in *. unfold exec in E1, E2. cbn [m_regs m_pad] in *.
  apply obind_ok in E1 as (a & A1 & E1). apply obind_ok in E1 as (s1 & B1 & E1). apply obind_ok in E1 as ([y1 q1] & O1 & E1). apply obind_ok in E1 as (t1 & C1 & [= <-]).
  apply obind_ok in E2 as (b & A2 & E2). apply obind_ok in E2 as (s2 & B2 & E2). apply obind_ok in E2 as ([y2 q2] & O2 & E2). apply obind_ok in E2 as (t2 & C2 & [= -> ->]).
  apply at_inv in A1, A2, B1, B2. apply put_inv in C1 as [-> _], C2 as [C2 _]. apply zinsert_inj in C2 as [<- Hj]; [|by rewrite (proj1 R1), (proj1 R2)|by rewrite (proj1 R1)].
  assert (s1 = s2) as <- by (specialize (Hj (i_s x) ltac:(congruence)); congruence).
  pose proof (words_u64 _ _ _ _ R1 A1) as Ua. pose proof (words_u64 _ _ _ _ R2 A2) as Ub. pose proof (words_u64 _ _ _ _ R1 B1) as Us.
  assert (a = b /\ p1 = p2) as [<- <-].
  { destruct (alu (i_op x) a s1 (i_imm x)) as [z|] eqn:Ea.
    - injection O1 as <- <-. destruct (alu (i_op x) b s1 (i_imm x)) as [z'|] eqn:Eb; [|apply (alu_none _ b a) in Eb; congruence]. injection O2 as -> ->. split; [|reflexivity]. exact (alu_inj _ _ _ _ _ _ Hop Ua Ub Us Ea Eb).
    - destruct (alu (i_op x) b s1 (i_imm x)) as [z'|] eqn:Eb; [apply (alu_none _ a b) in Ea; congruence|]. exact (mem_op_inj _ _ _ _ _ _ _ _ _ P1 P2 Ua Ub Us O1 O2). }
  f_equal. by apply (zlookup_ext_except r1 r2 (i_d x) a); [rewrite (proj1 R1), (proj1 R2)|..].
Qed.
End Reversible.

(** ** Witnesses *)
Lemma fill_is_fill_ref_witness : u64 7 /\ fill (E := unit) [] 7 = fill_ref [] 7.
Proof. split; [unfold u64; lia|]. apply fill_is_fill_ref. unfold u64. lia. Defined.
Lemma verify_hash_total_witness : u64 0x243f6a8885a308d3 /\ exists w digest, words SCRATCH_WORDS w /\ u64 digest /\
  forall s, scratch_ok s -> exists s', verify_hash (E := unit) s 0x243f6a8885a308d3 = Ok (s', digest) /\ scratch_ok s' /\ Scratch_words (E := unit) s' = Ok w.
Proof. split; [unfold u64; lia|]. apply verify_hash_total. unfold u64. lia. Defined.
(** A store of register 1 at the address register 0 gives. *)
Definition sample_instr : Instr := Instr_new Store 0 1 5.
Definition sample_machine : Machine := MkMachine [3; 4; 0; 0; 0; 0; 0; 0] (replicate (Z.to_nat SCRATCH_WORDS) 0).
Lemma sample_machine_ok : machine_ok sample_machine.
Proof. split; [|exact zero_pad]. split; [reflexivity|]. repeat constructor; cbn; lia. Qed.
Lemma exec_reversible_witness : exists m', exec (E := unit) sample_machine sample_instr = Ok m' /\
  forall m, machine_ok m -> exec (E := unit) m sample_instr = Ok m' -> m = sample_machine.
Proof.
  assert (instr_ok sample_instr) as Hx by (unfold instr_ok, sample_instr, Instr_new; cbn [i_d i_s i_imm]; change (Z.land 0 7) with 0; change (Z.land 1 7) with 1; lia). destruct (exec_ok (E := unit) sample_machine sample_instr sample_machine_ok Hx) as (m' & Hm & _).
  exists m'. split; [exact Hm|]. intros m Hok H. apply (exec_reversible (E := unit) sample_instr m sample_machine m'); [exact Hx|discriminate|exact Hok|apply sample_machine_ok|exact H|exact Hm].
Defined.
