(* ===== verification/P2pConstants.v ===== *)
(** Constants of the peer-to-peer crate (src/lib/p2p/src/constants.rs) and the relations between them
    that the build asserts. Constants re-exported from the consensus crate are those of [Constants]. *)

From Stdlib Require Import ZArith List Bool.
From stdpp Require Import base list.
From S2P Require Import Prelude Constants.
Import ListNotations.
Open Scope Z_scope.

(** Limits of the consensus crate that only networking uses. *)
Definition PORT_P2P : Z := 9256.
Definition MAX_P2P_MSG_BYTES : Z := 8388608.
Definition MAX_PEERS : Z := 128.

Definition FOREIGN_MAGIC : list Z := [0x2C; 0xA9; 0x1F; 0x84].
Definition FRAME_HEADER_BYTES : Z := 10.
Definition PROTO_VER : Z := 1.
Definition MIN_PROTO : Z := 1.
Definition FOREIGN_CHAIN_ID : list Z := [0x58; 0x58; 0x58; 0x58].
Definition ARENA_MAX : Z := 64 * 1024.
Definition CAP_HELLO_ACK : Z := 0.
Definition CAP_PING : Z := 8.
Definition CAP_PONG : Z := 8.
Definition CAP_GETADDR : Z := 0.
Definition CAP_HEADERS : Z := 4 + MAX_HEADERS_PER_MSG * HEADER_BYTES.
Definition CAP_BLOCK : Z := MAX_BLOCK_BYTES.
Definition CAP_TX : Z := MAX_TX_BYTES.
Definition CAP_MEMPOOL : Z := 16.
Definition CAP_FEEFILTER : Z := 16.
Definition CAP_GETCHECKPOINT : Z := 0.
Definition LOCATOR_MAX : Z := 64.
Definition INV_MAX : Z := 4096.
Definition INV_ITEM_BYTES : Z := 33.
Definition ADDR_MSG_MAX : Z := 512.
Definition ADDR_REC_BYTES : Z := 30.
Definition UA_MAX : Z := 64.
Definition CHECKPOINT_SIGS_MAX : Z := 15.
Definition UNSOLICITED_HEADERS_MAX : Z := 8.
Definition INV_BLOCKS_PER_MSG_MAX : Z := UNSOLICITED_HEADERS_MAX.
Definition INV_HEADERS_ADMIT_MAX : Z := UNSOLICITED_HEADERS_MAX.
Definition INV_PROBE_INTERVAL_MS : Z := 2500.
Definition INV_PROBE_GLOBAL_PER_SEC : Z := 16.
Definition INV_PROBE_GLOBAL_BURST : Z := 64.
Definition INV_PROBE_INFLIGHT_MAX : Z := INV_PROBE_GLOBAL_BURST.
Definition INV_PROBE_INFLIGHT_TTL_MS : Z := 1000.
Definition DUP_INV_FREE : Z := 100.
Definition DUP_INV_PER_POINT : Z := 100.
Definition DUP_INV_WINDOW_MS : Z := 600000.
Definition DISCONNECTED_BATCH_FREE : Z := 2.
Definition DISCONNECTED_BATCH_WINDOW_MS : Z := 600000.
Definition HANDSHAKE_QUIET_MS : Z := 250.
Definition SERVICE_FULL_RELAY : Z := Z.shiftl 1 0.
Definition SERVICE_ARCHIVE : Z := Z.shiftl 1 1.
Definition SERVICE_ENCRYPT_V2 : Z := Z.shiftl 1 2.
Definition SERVICE_MBZ_MASK : Z := umax 32 - Z.lor (Z.lor SERVICE_FULL_RELAY SERVICE_ARCHIVE) SERVICE_ENCRYPT_V2.
Definition MAX_OUTBOUND : Z := 16.
Definition MAX_INBOUND : Z := 96.
Definition WHITELIST_RESERVE : Z := 16.
Definition FEELER_SLOTS : Z := 2.
Definition INBOUND_PER_IP : Z := 4.
Definition INBOUND_PER_GROUP : Z := 16.
Definition ACCEPT_RATE_PER_SEC : Z := 8.
Definition ACCEPT_BURST : Z := 32.
Definition RECONNECT_PER_IP_PER_MIN : Z := 6.
Definition OUTBOUND_PER_GROUP : Z := 2.
Definition COLDSTART_DIAL_CONCURRENT : Z := 32.
Definition OUTBOUND_TARGET : Z := MAX_OUTBOUND - FEELER_SLOTS.
Definition CONN_MANAGER_TICK_MS : Z := 5000.
Definition DIAL_RETRY_MS : Z := 30000.
Definition OUTBOUND_PER_GROUP_WIDENED : Z := MAX_OUTBOUND.
Definition FD_PEERS : Z := MAX_PEERS.
Definition FD_TRANSIENT_DIALS : Z := COLDSTART_DIAL_CONCURRENT.
Definition FD_LISTENERS : Z := 2.
Definition FD_RPC : Z := 128.
Definition FD_STORAGE : Z := 256.
Definition FD_SERVICE : Z := 32.
Definition FD_CEILING : Z := 800.
Definition TICK_MS : Z := 250.
Definition SHUTDOWN_DRAIN_MS : Z := 2000.
Definition ACCEPT_ERROR_BACKOFF_MS : Z := 50.
Definition ENGINE_QUEUE_ITEMS : Z := 1024.
Definition SERVE_THREADS : Z := 2.
Definition SERVE_QUEUE_ITEMS : Z := 64.
Definition NET_INLINE_BUDGET_NS : Z := 100000.
Definition CONNECT_TIMEOUT_MS : Z := 5000.
Definition HANDSHAKE_TIMEOUT_MS : Z := 10000.
Definition PING_INTERVAL_MS : Z := 120000.
Definition PONG_TIMEOUT_MS : Z := 60000.
Definition PAUSE_MAX_MS : Z := 300000.
Definition PROBE_WINDOW_MS : Z := 3000.
Definition PROBE_PEERS : Z := 4.
Definition LOCATE_TIMEOUT_MS : Z := 15000.
Definition STALL_TIMEOUT_MS : Z := 30000.
Definition SYNC_RATE_WINDOW_MS : Z := 30000.
Definition SYNC_MIN_RATE_IBD_PER_10S : Z := 2000.
Definition SYNC_MIN_RATE_TRACKING_PER_10S : Z := 0.
Definition SYNC_COOLDOWN_MS : Z := 600000.
Definition CLAIM_ATTEMPTS : Z := 3.
Definition CLAIM_REARM_MS : Z := SYNC_COOLDOWN_MS.
Definition LONELY_WAIVER_MS : Z := 120000.
Definition SYNC_ELIGIBILITY_FLOOR_MS : Z := 30000.
Definition PROBE_GRANT_HEADERS : Z := 4096.
Definition PROBE_GRANT_MS : Z := 30000.
Definition DELIVERY_RATE_WINDOW_MS : Z := 60000.
Definition ROTATION_BUDGET : Z := 4.
Definition ROTATION_WINDOW_MS : Z := 300000.
Definition PRESYNC_LEAD_HEADERS : Z := 65536.
Definition PRESYNC_LEAD_BYTES : Z := PRESYNC_LEAD_HEADERS * HEADER_BYTES.
Definition FF_SAMPLE_RATE : Z := 128.
Definition BODY_TIMEOUT_MS : Z := 20000.
Definition BODY_INFLIGHT_TAIL_MS : Z := 60000.
Definition BODY_ATTEMPTS : Z := 3.
Definition HOL_TIMEOUT_MS : Z := 30000.
Definition HOL_PARALLEL : Z := 3.
Definition HOL_WINDOW_FREEZE : Z := 64.
Definition BODY_STARVE_WIDEN_MS : Z := 120000.
Definition BODY_STARVE_REPORT_MS : Z := 600000.
Definition BODY_UNAVAILABLE_RETRY_MS : Z := 60000.
Definition BODY_SLOT_LOST_MS : Z := 600000.
Definition BODY_SUPPLIERS : Z := 8.
Definition BODY_WINDOW_HASHES : Z := 128.
Definition BODY_WINDOW_BYTES : Z := 48 * 1024 * 1024.
Definition BODY_INFLIGHT_PER_PEER_MAX : Z := 16.
Definition READY_AHEAD_BLOCKS : Z := 16.
Definition READY_AHEAD_BYTES : Z := 16 * 1024 * 1024.
Definition HEADERS_ONLY_THRESHOLD : Z := 1000.
Definition WANTED_MAX : Z := BODY_WINDOW_HASHES * 4.
Definition WANTED_BYTES : Z := WANTED_MAX * 40.
Definition CHAIN_CATCHUP_MAX : Z := 64.
Definition FORK_BODY_MAX : Z := MAX_REORG_DEPTH.
Definition FORK_BODY_INFLIGHT : Z := 4.
Definition FORK_BODY_TIMEOUT_MS : Z := BODY_TIMEOUT_MS.
Definition FORK_BODY_ATTEMPTS : Z := BODY_ATTEMPTS.
Definition FORK_BODY_BYTES : Z := FORK_BODY_MAX * 40.
Definition REFILL_WALK_MAX : Z := PRESYNC_LEAD_HEADERS.
Definition TRACKING_AUDIT_MS : Z := 60000.
Definition STALL_CONFIRM_AUDITS : Z := 3.
Definition REPAIR_STUCK_REPEATS : Z := 3.
Definition ANCHOR_PULL_MS : Z := 10000.
Definition ANCHOR_PULL_PEERS : Z := 3.
Definition DEEP_RECOVERY_DEADLINE_MS : Z := 900000.
Definition RECOVERY_FLAP_LIMIT : Z := 3.
Definition RECOVERY_FLAP_WINDOW_MS : Z := 3600000.
Definition QUARANTINE_MS : Z := 1800000.
Definition QUARANTINE_MAX : Z := 256.
Definition COLDSTART_DEADLINE_MS : Z := 60000.
Definition COLDSTART_BACKOFF_MS : list Z := [60000; 120000; 240000; 480000; 600000].
Definition TIP_REPUBLISH_MS : Z := 5000.
Definition SYNC_SUSPEND_MAX_MS : Z := 300000.
Definition TIME_PARK_MAX : Z := 128.
Definition TIME_PARK_TTL_MS : Z := 900000.
Definition CLOCK_SKEW_GROUPS : Z := 3.
Definition REJECT_CACHE_MAX : Z := 65536.
Definition BANLIST_MAX : Z := 65536.
Definition BAN_SCORE : Z := 100.
Definition BAN_TIME_MS : Z := 24 * 3600000.
Definition BAN_PROTOCOL_MS : Z := 3600000.
Definition SCORE_HALF_LIFE_MS : Z := 600000.
Definition FOREIGN_NETWORK_MS : Z := 24 * 3600000.
Definition POW_BUDGET_MS_PER_WINDOW : Z := 100.
Definition POW_BUDGET_WINDOW_MS : Z := 10000.
Definition POW_BUDGET_BURST_MS : Z := 300.
Definition INGEST_GLOBAL_BYTES_PER_SEC : Z := 16 * 1024 * 1024.
Definition READ_GLOBAL_BYTES_PER_SEC : Z := 32 * 1024 * 1024.
Definition READ_PEER_BYTES_PER_SEC : Z := 2 * 1024 * 1024.
Definition SYNC_PEER_RESERVE_BYTES_PER_SEC : Z := READ_PEER_BYTES_PER_SEC.
Definition SERVE_RATE_PEER_BYTES_PER_SEC : Z := 4 * 1024 * 1024.
Definition SERVE_RATE_GLOBAL_BYTES_PER_SEC : Z := 32 * 1024 * 1024.
Definition GETHEADERS_RATE_MONOTONE_PER_SEC : Z := 16.
Definition GETHEADERS_RATE_SCAN_PER_10S : Z := 4.
Definition CHECKPOINT_RATE_PER_10MIN : Z := 4.
Definition GETCHECKPOINT_INTERVAL_MS : Z := 600000.
Definition CHECKPOINT_RATE_WINDOW_MS : Z := 600000.
Definition CHECKPOINT_DEDUP_MAX : Z := 16.
Definition GETCHECKPOINT_PER_CONN : Z := 1.
Definition GETCHECKPOINT_ABUSE_MAX : Z := 4.
Definition FORK_TIPS_MAX : Z := 8.
Definition FORK_HEADERS_MAX : Z := 800.
Definition KNOWN_HEADERS_MAX : Z := PRESYNC_LEAD_HEADERS + FORK_HEADERS_MAX.
Definition KNOWN_HEADERS_BYTES : Z := KNOWN_HEADERS_MAX * (32 + HEADER_BYTES + 8).
Definition IBD_WORK_DEFICIT_BLOCKS : Z := 20.
Definition INBOX_BYTES : Z := 2 * 1024 * 1024.
Definition INBOX_POOL_BYTES : Z := 64 * 1024 * 1024.
Definition VALIDATE_Q_ITEMS : Z := 16.
Definition VALIDATE_Q_BYTES : Z := 16 * 1024 * 1024.
Definition TX_Q_ITEMS : Z := 8192.
Definition TX_Q_BYTES : Z := 8 * 1024 * 1024.
Definition OUTBOX_BYTES : Z := 32 * 1024 * 1024.
Definition OUTBOX_SOFT_BYTES : Z := 24 * 1024 * 1024.
Definition OUTBOX_POOL_BYTES : Z := 256 * 1024 * 1024.
Definition ANONS_OUTBOX_ITEMS : Z := 4096.
Definition REORG_PREFETCH_BYTES : Z := 32 * 1024 * 1024.
Definition ORPHAN_BODIES_ITEMS : Z := 8.
Definition ORPHAN_BODIES_BYTES : Z := 8 * 1024 * 1024.
Definition ORPHAN_BODIES_TTL_MS : Z := 120000.
Definition KNOWN_TX_PER_PEER : Z := 16384.
Definition SEEN_TX_GLOBAL : Z := 65536.
Definition TRICKLE_MS : Z := 500.
Definition INV_REPEATS : Z := 3.
Definition TX_POLL_MS : Z := 1000.
Definition INV_TX_PER_MSG : Z := 64.
Definition INV_TXS_PER_MSG_MAX : Z := 512.
Definition TX_INFLIGHT_PER_PEER : Z := 32.
Definition TX_INFLIGHT_MAX : Z := 512.
Definition TX_REQUEST_TIMEOUT_MS : Z := 60000.
Definition TX_ANNOUNCE_QUEUE_MAX : Z := 4096.
Definition ADDR_NEW_MAX : Z := 4096.
Definition ADDR_TRIED_MAX : Z := 1024.
Definition SELF_ADDR_MS : Z := 24 * 3600000.
Definition SELF_ADDR_JITTER_MS : Z := 4 * 3600000.
Definition FEELER_INTERVAL_MS : Z := 120000.
Definition DEMOTE_AFTER_FAILURES : Z := 8.
Definition DEMOTE_AFTER_PROTOCOL_DEATHS : Z := 3.
Definition SEED_DEMOTION_ADDR_COUNT : Z := 64.
Definition USELESS_PEER_MS : Z := 1800000.
Definition ADDR_PER_SOURCE_GROUP_MAX : Z := ADDR_NEW_MAX / 16.
Definition ADDR_UNSOLICITED_MAX : Z := 10.
Definition GETADDR_PER_CONN : Z := 1.
Definition GETADDR_ABUSE_MAX : Z := 5.
Definition ADDR_MAX_AGE_SECS : Z := 7 * 86400.
Definition ADDR_FRESH_SECS : Z := 3 * 3600.
Definition ADDR_SAMPLE_PROBES : Z := 2 * ADDR_MSG_MAX.
Definition ADDR_RECS_PER_CONN : Z := ADDR_MSG_MAX + 64.
Definition HEADER_VERIFY_US_MIN : Z := 1300.
Definition HEADER_VERIFY_US_MAX : Z := 3000.
Definition VERIFY_WORKERS_REFERENCE : Z := 2.
Definition VERIFY_BANDWIDTH_HAIRCUT_PCT : Z := 15.
Definition GATE_NS_PER_HEADER : Z := 2200.
Definition CAP_HELLO : Z := 103 + UA_MAX.
Definition CAP_ADDR : Z := 4 + ADDR_MSG_MAX * ADDR_REC_BYTES.
Definition CAP_INV : Z := 4 + INV_MAX * INV_ITEM_BYTES.
Definition CAP_GETHEADERS : Z := 4 + LOCATOR_MAX * 32 + 32.
Definition CAP_CHECKPOINT : Z := 8 + 32 + 1 + CHECKPOINT_SIGS_MAX * 65.
Definition FD_INBOUND_HANDSHAKE : Z := ACCEPT_BURST + ACCEPT_RATE_PER_SEC * HANDSHAKE_TIMEOUT_MS / 1000.
Definition FD_TOTAL : Z := FD_PEERS + FD_INBOUND_HANDSHAKE + FD_TRANSIENT_DIALS + FD_LISTENERS + FD_RPC + FD_STORAGE + FD_SERVICE.
Definition WRITE_STALL_MS : Z := PONG_TIMEOUT_MS.
Definition POW_POOL_MS_PER_SEC : Z := VERIFY_WORKERS_REFERENCE * 1000 * (100 - VERIFY_BANDWIDTH_HAIRCUT_PCT) / 100.
Definition POW_ANNOUNCE_RESERVE_MS : Z := SYNC_MIN_RATE_IBD_PER_10S / 10 * HEADER_VERIFY_US_MAX / 1000.

(** The compile-time assertions, in the order of the file. *)
Definition p2p_const_asserts : bool :=
  (CAP_HELLO =? 167) &&
  (CAP_GETHEADERS =? 2084) &&
  (CAP_HEADERS =? 264004) &&
  (CAP_CHECKPOINT =? 1016) &&
  (CAP_INV =? 135172) &&
  (CAP_ADDR =? 15364) &&
  (CAP_BLOCK <=? MAX_P2P_MSG_BYTES) && (CAP_HEADERS <=? MAX_P2P_MSG_BYTES) &&
  (MAX_OUTBOUND + MAX_INBOUND + WHITELIST_RESERVE =? MAX_PEERS) &&
  (FD_TOTAL <? FD_CEILING) &&
  (OUTBOUND_TARGET >? 0) && (OUTBOUND_TARGET + FEELER_SLOTS =? MAX_OUTBOUND) &&
  (OUTBOUND_PER_GROUP <=? OUTBOUND_PER_GROUP_WIDENED) && (OUTBOUND_PER_GROUP_WIDENED <=? MAX_OUTBOUND) &&
  (CONN_MANAGER_TICK_MS >=? TICK_MS) && (DIAL_RETRY_MS >=? CONN_MANAGER_TICK_MS) &&
  (DIAL_RETRY_MS >=? CONNECT_TIMEOUT_MS + HANDSHAKE_TIMEOUT_MS) &&
  (CHECKPOINT_DEDUP_MAX >=? CHECKPOINT_RATE_PER_10MIN) &&
  (FORK_BODY_MAX <=? MAX_REORG_DEPTH) &&
  (FORK_BODY_INFLIGHT >? 0) && (FORK_BODY_INFLIGHT <=? FORK_BODY_MAX) &&
  (ADDR_PER_SOURCE_GROUP_MAX >? 0) && (ADDR_PER_SOURCE_GROUP_MAX * 16 <=? ADDR_NEW_MAX) &&
  (ADDR_UNSOLICITED_MAX <? ADDR_MSG_MAX) && (ADDR_UNSOLICITED_MAX <? ADDR_PER_SOURCE_GROUP_MAX) &&
  (ADDR_RECS_PER_CONN >=? ADDR_MSG_MAX) &&
  (ADDR_FRESH_SECS <? ADDR_MAX_AGE_SECS) &&
  (FD_INBOUND_HANDSHAKE =? 112) &&
  (TICK_MS * 4 <=? TRICKLE_MS * 2) && (TICK_MS * 20 <=? LOCATE_TIMEOUT_MS) &&
  (SYNC_PEER_RESERVE_BYTES_PER_SEC <=? INGEST_GLOBAL_BYTES_PER_SEC) &&
  (SYNC_PEER_RESERVE_BYTES_PER_SEC =? READ_PEER_BYTES_PER_SEC) &&
  (PRESYNC_LEAD_BYTES =? 8650752) &&
  (POW_POOL_MS_PER_SEC * 1000 / HEADER_VERIFY_US_MAX >=? SYNC_MIN_RATE_IBD_PER_10S / 10) &&
  ((5200000 - CHECKPOINT_SUNSET_HEIGHT) * HEADER_VERIFY_US_MAX / 1000 / POW_POOL_MS_PER_SEC / 60 <=? 138) &&
  (BODY_WINDOW_BYTES <? INBOX_POOL_BYTES) &&
  (ARENA_MAX <? CAP_BLOCK) &&
  (PAUSE_MAX_MS >? PONG_TIMEOUT_MS) &&
  (INV_BLOCKS_PER_MSG_MAX =? UNSOLICITED_HEADERS_MAX) && (INV_HEADERS_ADMIT_MAX =? UNSOLICITED_HEADERS_MAX) &&
  (INV_PROBE_INTERVAL_MS * POW_BUDGET_MS_PER_WINDOW / POW_BUDGET_WINDOW_MS >=? INV_HEADERS_ADMIT_MAX * HEADER_VERIFY_US_MAX / 1000) &&
  (POW_ANNOUNCE_RESERVE_MS =? SYNC_MIN_RATE_IBD_PER_10S / 10 * HEADER_VERIFY_US_MAX / 1000) && (POW_ANNOUNCE_RESERVE_MS <? POW_POOL_MS_PER_SEC) &&
  (MAX_PEERS * (POW_BUDGET_MS_PER_WINDOW * 1000 / POW_BUDGET_WINDOW_MS) + POW_ANNOUNCE_RESERVE_MS >? POW_POOL_MS_PER_SEC) &&
  (INV_PROBE_GLOBAL_BURST >=? INV_PROBE_GLOBAL_PER_SEC) && (INV_PROBE_INFLIGHT_MAX =? INV_PROBE_GLOBAL_BURST) &&
  (INV_PROBE_INFLIGHT_TTL_MS <? LOCATE_TIMEOUT_MS).

(** Every assertion holds. *)
Lemma p2p_const_asserts_hold : p2p_const_asserts = true.
Proof. vm_compute. reflexivity. Qed.
