(* ===== verification/P2pWire.v ===== *)
(** The peer-to-peer wire protocol (src/lib/p2p/src/wire): commands, frames, messages and the incremental
    frame reader. A cursor is a buffer and a position, and every read returns the moved cursor or an error;
    the capacity of buffers is not modelled, only their contents. *)

From Stdlib Require Import ZArith Lia List String.
From stdpp Require Import base list numbers.
From S2P Require Import Prelude Constants P2pConstants.
Import ListNotations.
Open Scope Z_scope.

(** ** cmd.rs *)
Inductive Cmd :=
| CmdHello | CmdHelloAck | CmdPing | CmdPong | CmdGetAddr | CmdAddr | CmdInv | CmdGetData | CmdNotFound | CmdGetHeaders
| CmdHeaders | CmdBlock | CmdTx | CmdMempool | CmdFeeFilter | CmdCheckpoint | CmdGetCheckpoint.
#[global] Instance cmd_eq_dec : EqDecision Cmd.
Proof. solve_decision. Defined.

Definition Cmd_code (c : Cmd) : Z :=
  match c with
  | CmdHello => 0x01 | CmdHelloAck => 0x02 | CmdPing => 0x03 | CmdPong => 0x04 | CmdGetAddr => 0x05 | CmdAddr => 0x06
  | CmdInv => 0x10 | CmdGetData => 0x11 | CmdNotFound => 0x12 | CmdGetHeaders => 0x13 | CmdHeaders => 0x14 | CmdBlock => 0x15
  | CmdTx => 0x16 | CmdMempool => 0x17 | CmdFeeFilter => 0x18 | CmdCheckpoint => 0x1A | CmdGetCheckpoint => 0x1B
  end.
Definition Cmd_from_code (c : Z) : option Cmd :=
  if c =? 0x01 then Some CmdHello else if c =? 0x02 then Some CmdHelloAck else if c =? 0x03 then Some CmdPing
  else if c =? 0x04 then Some CmdPong else if c =? 0x05 then Some CmdGetAddr else if c =? 0x06 then Some CmdAddr
  else if c =? 0x10 then Some CmdInv else if c =? 0x11 then Some CmdGetData else if c =? 0x12 then Some CmdNotFound
  else if c =? 0x13 then Some CmdGetHeaders else if c =? 0x14 then Some CmdHeaders else if c =? 0x15 then Some CmdBlock
  else if c =? 0x16 then Some CmdTx else if c =? 0x17 then Some CmdMempool else if c =? 0x18 then Some CmdFeeFilter
  else if c =? 0x1A then Some CmdCheckpoint else if c =? 0x1B then Some CmdGetCheckpoint else None.
Definition payload_cap (c : Cmd) : Z :=
  match c with
  | CmdHello => CAP_HELLO
  | CmdHelloAck => CAP_HELLO_ACK
  | CmdPing => CAP_PING
  | CmdPong => CAP_PONG
  | CmdGetAddr => CAP_GETADDR
  | CmdAddr => CAP_ADDR
  | CmdInv | CmdGetData | CmdNotFound => CAP_INV
  | CmdGetHeaders => CAP_GETHEADERS
  | CmdHeaders => CAP_HEADERS
  | CmdBlock => CAP_BLOCK
  | CmdTx => CAP_TX
  | CmdMempool => CAP_MEMPOOL
  | CmdFeeFilter => CAP_FEEFILTER
  | CmdCheckpoint => CAP_CHECKPOINT
  | CmdGetCheckpoint => CAP_GETCHECKPOINT
  end.
Definition carries_headers (c : Cmd) : bool := match c with CmdHeaders => true | _ => false end.
Definition Cmd_ALL : list Cmd :=
  [CmdHello; CmdHelloAck; CmdPing; CmdPong; CmdGetAddr; CmdAddr; CmdInv; CmdGetData; CmdNotFound; CmdGetHeaders; CmdHeaders; CmdBlock;
   CmdTx; CmdMempool; CmdFeeFilter; CmdCheckpoint; CmdGetCheckpoint].

(** ** frame.rs *)
Inductive WireError :=
| BadMagic
| UnknownCommand (c : Z)
| NonZeroFlags (f : Z)
| Oversize (cmd : Cmd) (length cap : Z)
| OversizeAbsolute (length : Z)
| WTruncated (want got : Z)
| WMalformed (what : string)
| TooManyItems (got cap : Z).
Definition wire_points (e : WireError) : Z := match e with UnknownCommand _ => 20 | _ => 100 end.
Definition is_silent_drop (e : WireError) : bool := match e with BadMagic => true | _ => false end.
Record FrameHeader := MkFrameHeader { fh_cmd : Cmd; fh_length : Z }.

Definition parse_frame_header (buf magic : bytes) : outcome WireError FrameHeader :=
  if negb (bool_decide (slice buf 0 4 = magic)) then Err BadMagic
  else match Cmd_from_code (byte_at buf 4) with
  | None => Err (UnknownCommand (byte_at buf 4))
  | Some cmd =>
    if negb (byte_at buf 5 =? 0) then Err (NonZeroFlags (byte_at buf 5))
    else
      let length := from_le [byte_at buf 6; byte_at buf 7; byte_at buf 8; byte_at buf 9] in
      if MAX_P2P_MSG_BYTES <? length then Err (OversizeAbsolute length)
      else
        let cap := payload_cap cmd in
        if cap <? length then Err (Oversize cmd length cap) else Ok (MkFrameHeader cmd length)
  end.
Definition encode_frame (magic : bytes) (cmd : Cmd) (payload : bytes) : bytes :=
  magic ++ [Cmd_code cmd] ++ [0] ++ le_bytes 4 (wrap 32 (Zlen payload)) ++ payload.

Record FrameReader := MkFrameReader { fr_magic : bytes; pending : bytes }.
Definition FrameReader_new (magic : bytes) : FrameReader := MkFrameReader magic [].
Definition buffered (r : FrameReader) : Z := Zlen (pending r).
(** The loop of [push]: the frames read, what stays pending and the error that ended it. Every turn takes
    at least a header off the buffer, so the length of the buffer is fuel enough. *)
Fixpoint push_loop (fuel : nat) (magic buf : bytes) (out : list (Cmd * bytes)) : list (Cmd * bytes) * bytes * option WireError :=
  match fuel with
  | O => (out, buf, None)
  | S fuel =>
    if Zlen buf <? FRAME_HEADER_BYTES then (out, buf, None)
    else match parse_frame_header (slice buf 0 FRAME_HEADER_BYTES) magic with
    | Ok fh =>
      let total := FRAME_HEADER_BYTES + fh_length fh in
      if Zlen buf <? total then (out, buf, None)
      else push_loop fuel magic (drop (Z.to_nat total) buf) (out ++ [(fh_cmd fh, slice buf FRAME_HEADER_BYTES total)])
    | Err e => (out, buf, Some e)
    | Panic => (out, buf, None)
    end
  end.
Definition push (r : FrameReader) (b : bytes) : FrameReader * (list (Cmd * bytes) + WireError) :=
  let buf := pending r ++ b in
  let '(out, buf, e) := push_loop (S (length buf)) (fr_magic r) buf [] in
  (MkFrameReader (fr_magic r) buf, match e with None => inl out | Some e => inr e end).

(** ** msg.rs *)
Record Hello := MkHello {
  hl_proto_ver : Z; hl_min_proto : Z; hl_chain_id : bytes; hl_services : Z; hl_nonce : Z; hl_time : Z; hl_height : Z;
  hl_tip_hash : bytes; hl_cum_work : bytes; hl_listen_port : Z; hl_user_agent : bytes }.
Inductive InvKind := InvTx | InvBlock.
Definition InvKind_code (k : InvKind) : Z := match k with InvTx => 1 | InvBlock => 2 end.
Definition InvKind_from_code (c : Z) : option InvKind := if c =? 1 then Some InvTx else if c =? 2 then Some InvBlock else None.
Record InvItem := MkInvItem { iv_kind : InvKind; iv_hash : bytes }.
Record AddrRec := MkAddrRec { ad_time : Z; ad_services : Z; ad_ip : bytes; ad_port : Z }.
Record CheckpointMsg := MkCheckpointMsg { ck_height : Z; ck_hash : bytes; ck_sigs : list (Z * bytes) }.
Inductive Msg :=
| MsgHello (h : Hello) | MsgHelloAck | MsgPing (n : Z) | MsgPong (n : Z) | MsgGetAddr | MsgAddr (v : list AddrRec)
| MsgInv (v : list InvItem) | MsgGetData (v : list InvItem) | MsgNotFound (v : list InvItem)
| MsgGetHeaders (locator : list bytes) (stop : bytes) | MsgHeaders (v : list bytes) | MsgBlock (b : bytes) | MsgTx (b : bytes)
| MsgMempool | MsgFeeFilter (f : Z) | MsgCheckpoint (c : CheckpointMsg) | MsgGetCheckpoint.
Definition Msg_cmd (m : Msg) : Cmd :=
  match m with
  | MsgHello _ => CmdHello | MsgHelloAck => CmdHelloAck | MsgPing _ => CmdPing | MsgPong _ => CmdPong | MsgGetAddr => CmdGetAddr
  | MsgAddr _ => CmdAddr | MsgInv _ => CmdInv | MsgGetData _ => CmdGetData | MsgNotFound _ => CmdNotFound
  | MsgGetHeaders _ _ => CmdGetHeaders | MsgHeaders _ => CmdHeaders | MsgBlock _ => CmdBlock | MsgTx _ => CmdTx
  | MsgMempool => CmdMempool | MsgFeeFilter _ => CmdFeeFilter | MsgCheckpoint _ => CmdCheckpoint | MsgGetCheckpoint => CmdGetCheckpoint
  end.

(** ** codec.rs: the cursor *)
Record Cur := MkCur { cu_b : bytes; cu_i : Z }.
Definition Dec (A : Type) : Type := Cur -> outcome WireError (A * Cur).
Definition Cur_new (b : bytes) : Cur := MkCur b 0.
(** [self.b.len() - self.i] overflows when the cursor is past the end. *)
Definition Cur_need (c : Cur) (n : Z) : outcome WireError unit :=
  if Zlen (cu_b c) <? cu_i c then Panic
  else if Zlen (cu_b c) - cu_i c <? n then Err (WTruncated n (Zlen (cu_b c) - cu_i c)) else Ok ().
Definition Cur_take (n : Z) : Dec bytes := fun c =>
  let? _ := Cur_need c n in
  Ok (slice (cu_b c) (cu_i c) (cu_i c + n), MkCur (cu_b c) (cu_i c + n)).
Definition Cur_le (n : Z) : Dec Z := fun c =>
  let? (s, c) := Cur_take n c in
  Ok (from_le s, c).
Definition Cur_u8 : Dec Z := fun c =>
  let? (s, c) := Cur_take 1 c in
  Ok (byte_at s 0, c).
Definition Cur_u16 : Dec Z := Cur_le 2.
Definition Cur_u32 : Dec Z := Cur_le 4.
Definition Cur_u64 : Dec Z := Cur_le 8.
Definition Cur_u128 : Dec Z := Cur_le 16.
Definition Cur_arr (n : Z) : Dec bytes := Cur_take n.
Definition Cur_arr32 : Dec bytes := Cur_arr 32.
Definition Cur_finish (c : Cur) : outcome WireError unit :=
  if cu_i c =? Zlen (cu_b c) then Ok () else Err (WMalformed "trailing bytes after payload").
Definition Cur_count (cap : Z) : Dec Z := fun c =>
  let? (n, c) := Cur_u32 c in
  if cap <? n then Err (TooManyItems n cap) else Ok (n, c).
(** [for _ in 0..n], collecting. *)
Fixpoint times {A} (n : nat) (d : Dec A) : Dec (list A) := fun c =>
  match n with
  | O => Ok ([], c)
  | S n =>
    let? (x, c) := d c in
    let? (l, c) := times n d c in
    Ok (x :: l, c)
  end.
(** [c.need(n)?] in front of the loop. *)
Definition needing {A} (n : Z) (d : Dec A) : Dec A := fun c =>
  let? _ := Cur_need c n in
  d c.

(** ** codec.rs: encode *)
Definition enc_addr (a : AddrRec) : bytes := le_bytes 8 (ad_time a) ++ le_bytes 4 (ad_services a) ++ ad_ip a ++ le_bytes 2 (ad_port a).
Definition enc_inv (it : InvItem) : bytes := [InvKind_code (iv_kind it)] ++ iv_hash it.
Definition enc_sig (s : Z * bytes) : bytes := [fst s] ++ snd s.
Definition enc_hello (h : Hello) : bytes :=
  let ua := if UA_MAX <? Zlen (hl_user_agent h) then slice (hl_user_agent h) 0 UA_MAX else hl_user_agent h in
  le_bytes 2 (hl_proto_ver h) ++ le_bytes 2 (hl_min_proto h) ++ hl_chain_id h ++ le_bytes 4 (hl_services h) ++ le_bytes 8 (hl_nonce h) ++
  le_bytes 8 (hl_time h) ++ le_bytes 8 (hl_height h) ++ hl_tip_hash h ++ hl_cum_work h ++ le_bytes 2 (hl_listen_port h) ++
  [wrap 8 (Zlen ua)] ++ ua.
Definition enc_list {A} (enc : A -> bytes) (v : list A) : bytes := le_bytes 4 (wrap 32 (Zlen v)) ++ concat (map enc v).
Definition wire_encode (m : Msg) : bytes :=
  match m with
  | MsgHello h => enc_hello h
  | MsgHelloAck | MsgGetAddr | MsgMempool | MsgGetCheckpoint => []
  | MsgPing n | MsgPong n => le_bytes 8 n
  | MsgAddr v => enc_list enc_addr v
  | MsgInv v | MsgGetData v | MsgNotFound v => enc_list enc_inv v
  | MsgGetHeaders locator stop => enc_list id locator ++ stop
  | MsgHeaders v => enc_list id v
  | MsgBlock b | MsgTx b => b
  | MsgFeeFilter f => le_bytes 16 f
  | MsgCheckpoint c => le_bytes 8 (ck_height c) ++ ck_hash c ++ [wrap 8 (Zlen (ck_sigs c))] ++ concat (map enc_sig (ck_sigs c))
  end.

(** ** codec.rs: decode *)
Definition dec_hello : Dec Hello := fun c =>
  let? (proto_ver, c) := Cur_u16 c in
  let? (min_proto, c) := Cur_u16 c in
  let? (chain_id, c) := Cur_arr 4 c in
  let? (services, c) := Cur_u32 c in
  let? (nonce, c) := Cur_u64 c in
  let? (time, c) := Cur_u64 c in
  let? (height, c) := Cur_u64 c in
  let? (tip_hash, c) := Cur_arr32 c in
  let? (cum_work, c) := Cur_arr32 c in
  let? (listen_port, c) := Cur_u16 c in
  let? (ua_len, c) := Cur_u8 c in
  if UA_MAX <? ua_len then Err (TooManyItems ua_len UA_MAX)
  else
    let? (user_agent, c) := Cur_take ua_len c in
    Ok (MkHello proto_ver min_proto chain_id services nonce time height tip_hash cum_work listen_port user_agent, c).
Definition dec_addr : Dec AddrRec := fun c =>
  let? (time, c) := Cur_u64 c in
  let? (services, c) := Cur_u32 c in
  let? (ip, c) := Cur_arr 16 c in
  let? (port, c) := Cur_u16 c in
  Ok (MkAddrRec time services ip port, c).
Definition dec_inv : Dec InvItem := fun c =>
  let? (k, c) := Cur_u8 c in
  match InvKind_from_code k with
  | None => Err (WMalformed "unknown inv type byte")
  | Some kind =>
    let? (hash, c) := Cur_arr32 c in
    Ok (MkInvItem kind hash, c)
  end.
Definition dec_sig : Dec (Z * bytes) := fun c =>
  let? (id, c) := Cur_u8 c in
  let? (sig, c) := Cur_arr 64 c in
  Ok ((id, sig), c).
Definition dec_checkpoint : Dec CheckpointMsg := fun c =>
  let? (height, c) := Cur_u64 c in
  let? (hash, c) := Cur_arr32 c in
  let? (n, c) := Cur_u8 c in
  if CHECKPOINT_SIGS_MAX <? n then Err (TooManyItems n CHECKPOINT_SIGS_MAX)
  else
    let? (sigs, c) := needing (n * 65) (times (Z.to_nat n) dec_sig) c in
    Ok (MkCheckpointMsg height hash sigs, c).
(** A counted list of records of [size] bytes. *)
Definition dec_list {A} (cap size : Z) (d : Dec A) : Dec (list A) := fun c =>
  let? (n, c) := Cur_count cap c in
  needing (n * size) (times (Z.to_nat n) d) c.
Definition dec_getheaders : Dec (list bytes * bytes) := fun c =>
  let? (n, c) := Cur_count LOCATOR_MAX c in
  needing (n * 32 + 32) (fun c =>
    let? (locator, c) := times (Z.to_nat n) Cur_arr32 c in
    let? (stop, c) := Cur_arr32 c in
    Ok ((locator, stop), c)) c.
(** Read the payload with [d], all of it. *)
Definition whole {A} (d : Dec A) (mk : A -> Msg) (payload : bytes) : outcome WireError Msg :=
  let? (x, c) := d (Cur_new payload) in
  let? _ := Cur_finish c in
  Ok (mk x).
Definition dec_nothing : Dec unit := fun c => Ok ((), c).
Definition wire_decode (cmd : Cmd) (payload : bytes) : outcome WireError Msg :=
  if payload_cap cmd <? Zlen payload then Err (Oversize cmd (wrap 32 (Zlen payload)) (payload_cap cmd))
  else match cmd with
  | CmdHello => whole dec_hello MsgHello payload
  | CmdHelloAck => whole dec_nothing (fun _ => MsgHelloAck) payload
  | CmdGetAddr => whole dec_nothing (fun _ => MsgGetAddr) payload
  | CmdGetCheckpoint => whole dec_nothing (fun _ => MsgGetCheckpoint) payload
  | CmdMempool => whole dec_nothing (fun _ => MsgMempool) payload
  | CmdPing => whole Cur_u64 MsgPing payload
  | CmdPong => whole Cur_u64 MsgPong payload
  | CmdAddr => whole (dec_list ADDR_MSG_MAX ADDR_REC_BYTES dec_addr) MsgAddr payload
  | CmdInv => whole (dec_list INV_MAX INV_ITEM_BYTES dec_inv) MsgInv payload
  | CmdGetData => whole (dec_list INV_MAX INV_ITEM_BYTES dec_inv) MsgGetData payload
  | CmdNotFound => whole (dec_list INV_MAX INV_ITEM_BYTES dec_inv) MsgNotFound payload
  | CmdGetHeaders => whole dec_getheaders (fun '(locator, stop) => MsgGetHeaders locator stop) payload
  | CmdHeaders => whole (dec_list MAX_HEADERS_PER_MSG HEADER_BYTES (Cur_arr HEADER_BYTES)) MsgHeaders payload
  | CmdBlock => if Zlen payload <? HEADER_BYTES + 4 then Err (WTruncated (HEADER_BYTES + 4) (Zlen payload)) else Ok (MsgBlock payload)
  | CmdTx => if Zlen payload =? 0 then Err (WTruncated 1 0) else Ok (MsgTx payload)
  | CmdFeeFilter => whole Cur_u128 MsgFeeFilter payload
  | CmdCheckpoint => whole dec_checkpoint MsgCheckpoint payload
  end.
