(* ===== verification/P2pWireProps.v ===== *)
(** Properties of the wire protocol: every message decodes from exactly one payload, its encoding; the frame
    reader reassembles a stream of frames however the network cuts it, and buffers less than one frame. *)

From Stdlib Require Import ZArith Lia List String.
From stdpp Require Import base list numbers.
From S2P Require Import Prelude Constants P2pConstants P2pWire.
Import ListNotations.
Open Scope Z_scope.

(** ** Decoders that invert an encoder *)
(** [d] reads exactly the encodings [enc x] of the values [x] that satisfy [W], wherever the cursor stands. *)
Record reads {A} (d : Dec A) (enc : A -> bytes) (W : A -> Prop) : Prop := {
  rd_fwd : forall b i x r, 0 <= i <= Zlen b -> W x -> drop (Z.to_nat i) b = enc x ++ r -> d (MkCur b i) = Ok (x, MkCur b (i + Zlen (enc x)));
  rd_bwd : forall b i x c, bytes_ok b -> 0 <= i <= Zlen b -> d (MkCur b i) = Ok (x, c) ->
    W x /\ c = MkCur b (i + Zlen (enc x)) /\ exists r, drop (Z.to_nat i) b = enc x ++ r;
  rd_np : forall b i, bytes_ok b -> 0 <= i <= Zlen b -> d (MkCur b i) <> Panic;
}.
Create HintDb wire.

Lemma after_read {A} (b : list A) i a r : 0 <= i <= Zlen b -> drop (Z.to_nat i) b = a ++ r ->
  0 <= i + Zlen a <= Zlen b /\ drop (Z.to_nat (i + Zlen a)) b = r.
Proof.
  intros Hi H. assert (Zlen b - i = Zlen a + Zlen r) as Hl.
  { apply (f_equal Zlen) in H. rewrite Zlen_app in H. rewrite <-H. unfold Zlen. rewrite length_drop. unfold Zlen in Hi. lia. }
  pose proof (Zlen_nonneg a). pose proof (Zlen_nonneg r). split; [lia|].
  replace (Z.to_nat (i + Zlen a)) with (length a + Z.to_nat i)%nat by (unfold Zlen in *; lia). rewrite Nat.add_comm, <-drop_drop, H. apply drop_app_length.
Qed.
Lemma bwd_room {A} (b : list A) i a : 0 <= i <= Zlen b -> (exists r, drop (Z.to_nat i) b = a ++ r) -> 0 <= i + Zlen a <= Zlen b.
Proof. intros Hi [r H]. exact (proj1 (after_read _ _ _ _ Hi H)). Qed.
Lemma slice_at {A} (b : list A) i a r : 0 <= i <= Zlen b -> drop (Z.to_nat i) b = a ++ r -> slice b i (i + Zlen a) = a.
Proof. intros Hi H. unfold slice. rewrite H. replace (Z.to_nat (i + Zlen a - i)) with (length a) by (unfold Zlen; lia). by rewrite take_app_length. Qed.

(** One decoder after another: [proj] finds the first part in the whole. *)
Lemma reads_bind {A B} (d1 : Dec A) (d2 : A -> Dec B) e1 w1 (proj : B -> A) e2 (E : B -> bytes) (W : B -> Prop) :
  reads d1 e1 w1 -> (forall y, W y -> w1 (proj y)) -> (forall y, W y -> E y = e1 (proj y) ++ e2 y) ->
  (forall x, w1 x -> reads (d2 x) e2 (fun y => W y /\ proj y = x)) ->
  reads (fun c => let? (x, c) := d1 c in d2 x c) E W.
Proof.
  intros H1 HW HE H2. split.
  - intros b i y r Hi Hy Hb. rewrite HE, <-app_assoc in Hb by done. rewrite (rd_fwd _ _ _ H1 b i (proj y) _ Hi (HW y Hy) Hb). cbn [obind].
    destruct (after_read b i _ _ Hi Hb) as [Hi' Hb']. rewrite (rd_fwd _ _ _ (H2 _ (HW y Hy)) b _ y r Hi' (conj Hy eq_refl) Hb'). rewrite HE, Zlen_app by done. do 3 f_equal. lia.
  - intros b i y c Hok Hi H. apply obind_ok in H as ([x c1] & Hx & H). destruct (rd_bwd _ _ _ H1 _ _ _ _ Hok Hi Hx) as (Hw & -> & r & Hb).
    destruct (after_read b i _ _ Hi Hb) as [Hi' Hb']. destruct (rd_bwd _ _ _ (H2 x Hw) _ _ _ _ Hok Hi' H) as ([Hy <-] & -> & r' & Hr).
    rewrite HE, Zlen_app by done. split; [done|]. split; [f_equal; lia|]. exists r'. rewrite Hb, <-app_assoc. f_equal. congruence.
  - intros b i Hok Hi. destruct (d1 (MkCur b i)) as [[x c]| |] eqn:Hx; cbn [obind]; [|done|by eapply rd_np in Hx].
    destruct (rd_bwd _ _ _ H1 _ _ _ _ Hok Hi Hx) as (Hw & -> & Hr). apply (rd_np _ _ _ (H2 x Hw)); [done|]. by apply bwd_room.
Qed.
Lemma reads_ret {A} (v : A) (W : A -> Prop) e : W v -> e v = [] -> (forall y, W y -> y = v) -> reads (fun c => Ok (v, c)) e W.
Proof.
  intros Hv He Hy. split.
  - intros b i x r Hi Hx _. rewrite (Hy x Hx), He, Z.add_0_r. done.
  - intros b i x c _ Hi [= <- <-]. rewrite He, Z.add_0_r. eauto.
  - done.
Qed.
Lemma reads_weaken {A} (d : Dec A) e e' (W W' : A -> Prop) : reads d e W -> (forall x, W x <-> W' x) -> (forall x, W x -> e x = e' x) -> reads d e' W'.
Proof.
  intros [H1 H2 H3] HW He. split.
  - intros b i x r Hi Hx Hb. apply HW in Hx. rewrite <-He in Hb by done. rewrite (H1 b i x r) by done. by rewrite He.
  - intros b i x c Hok Hi H. destruct (H2 _ _ _ _ Hok Hi H) as (Hx & -> & Hr). rewrite He in * by done. split; [by apply HW|done].
  - done.
Qed.
(** A check that passes on exactly the values of [W']. *)
Lemma reads_check {A} (d : Dec A) e (W : A -> Prop) (bad : A -> bool) err W' : reads d e W -> (forall x, W' x <-> W x /\ bad x = false) ->
  reads (fun c => let? (x, c) := d c in if bad x then Err (err x) else Ok (x, c)) e W'.
Proof.
  intros [H1 H2 H3] HW. split.
  - intros b i x r Hi Hx Hb. apply HW in Hx as [Hx Hbad]. rewrite (H1 b i x r) by done. cbn [obind]. by rewrite Hbad.
  - intros b i x c Hok Hi H. apply obind_ok in H as ([y c'] & Hy & H). destruct (bad y) eqn:Hbad; [done|]. injection H as -> ->.
    destruct (H2 _ _ _ _ Hok Hi Hy) as (Hx & Hc & Hr). split; [by apply HW|done].
  - intros b i Hok Hi. destruct (d _) as [[x c]| |] eqn:Hx; cbn [obind]; [by destruct (bad x)|done|by apply H3 in Hx].
Qed.
Lemma reads_needing {A} (d : Dec A) e W n : reads d e W -> (forall x, W x -> n <= Zlen (e x)) -> reads (needing n d) e W.
Proof.
  intros [H1 H2 H3] Hn. unfold needing. split.
  - intros b i x r Hi Hx Hb. unfold Cur_need. cbn [cu_b cu_i]. destruct (after_read b i _ _ Hi Hb) as [Hi' _]. specialize (Hn x Hx).
    destruct (Z.ltb_spec (Zlen b) i), (Z.ltb_spec (Zlen b - i) n); try lia. cbn [obind]. by apply (H1 b i x r).
  - intros b i x c Hok Hi H. apply obind_ok in H as (u & _ & H). by apply H2.
  - intros b i Hok Hi. unfold Cur_need. cbn [cu_b cu_i]. destruct (Z.ltb_spec (Zlen b) i); [lia|]. destruct (Z.ltb_spec (Zlen b - i) n); [done|]. by apply H3.
Qed.
Lemma reads_take n : 0 <= n -> reads (Cur_take n) (fun s => s) (fun s => Zlen s = n /\ bytes_ok s).
Proof.
  intros Hn. unfold Cur_take, Cur_need. split; cbn [cu_b cu_i].
  - intros b i x r Hi [Hx _] Hb. destruct (after_read b i _ _ Hi Hb) as [Hi' _]. destruct (Z.ltb_spec (Zlen b) i), (Z.ltb_spec (Zlen b - i) n); try lia.
    cbn [obind]. rewrite <-Hx. by rewrite (slice_at b i x r).
  - intros b i x c Hok Hi. destruct (Z.ltb_spec (Zlen b) i), (Z.ltb_spec (Zlen b - i) n); try (done || lia). cbn [obind]. intros [= <- <-].
    assert (Zlen (slice b i (i + n)) = n) as Hl by (rewrite Zlen_slice; lia). rewrite Hl. split; [split; [done|by apply slice_Forall]|]. split; [done|].
    exists (drop (Z.to_nat (i + n)) b). unfold slice. replace (Z.to_nat (i + n)) with (Z.to_nat i + Z.to_nat (i + n - i))%nat by lia. rewrite <-drop_drop. symmetry. apply take_drop.
  - intros b i _ Hi. destruct (Z.ltb_spec (Zlen b) i), (Z.ltb_spec (Zlen b - i) n); try (done || lia).
Qed.
Lemma reads_map {A B} (d : Dec A) e W (f : A -> B) (g : B -> A) W' : reads d e W ->
  (forall y, W' y -> W (g y) /\ f (g y) = y) -> (forall x, W x -> W' (f x) /\ g (f x) = x) ->
  reads (fun c => let? (s, c) := d c in Ok (f s, c)) (fun y => e (g y)) W'.
Proof.
  intros [H1 H2 H3] Hg Hf. split.
  - intros b i y r Hi Hy Hb. destruct (Hg y Hy) as [Hw Hy']. rewrite (H1 b i _ r Hi Hw Hb). cbn [obind]. by rewrite Hy'.
  - intros b i y c Hok Hi H. apply obind_ok in H as ([x c'] & Hx & [= <- <-]). destruct (H2 _ _ _ _ Hok Hi Hx) as (Hw & Hc & Hr). destruct (Hf x Hw) as [Hy Hx'].
    by rewrite Hx'.
  - intros b i Hok Hi. destruct (d _) as [[x c]| |] eqn:Hx; [done..|]. by apply H3 in Hx.
Qed.
Lemma reads_le n : reads (Cur_le (Z.of_nat n)) (le_bytes n) (fun x => 0 <= x < 256 ^ Z.of_nat n).
Proof.
  apply (reads_map (Cur_take (Z.of_nat n)) (fun s => s) (fun s => Zlen s = Z.of_nat n /\ bytes_ok s) from_le (le_bytes n)); [apply reads_take; lia|..].
  - intros y Hy. split; [split; [apply Zlen_le_bytes|apply le_bytes_ok]|by apply from_le_le_bytes].
  - intros x [Hl Hx]. split; [rewrite <-Hl; by apply from_le_bounds|by apply le_bytes_from_le'].
Qed.
Lemma one_byte s : Zlen s = 1 -> s = [byte_at s 0].
Proof. destruct s as [|x [|y s]]; unfold Zlen; cbn [length]; [lia| |lia]. done. Qed.
Lemma reads_u8 : reads Cur_u8 (fun x => [x]) byte_ok.
Proof.
  apply (reads_map (Cur_take 1) (fun s => s) (fun s => Zlen s = 1 /\ bytes_ok s) (fun s => byte_at s 0) (fun x => [x])); [by apply reads_take|..].
  - intros y Hy. split; [|done]. split; [done|]. by constructor.
  - intros x [Hl Hx]. split; [by apply byte_at_ok|]. symmetry. by apply one_byte.
Qed.
Lemma reads_times {A} (d : Dec A) e W n : reads d e W -> reads (times n d) (fun l => concat (map e l)) (fun l => length l = n /\ Forall W l).
Proof.
  intros Hd. induction n as [|n IH].
  - apply reads_ret; [done..|]. intros y [Hy _]. by destruct y.
  - cbn [times]. split.
    + intros b i l r Hi [Hl Hf] Hb. destruct l as [|x l]; [done|]. injection Hl as Hl. rewrite list.Forall_cons in Hf. destruct Hf as [Hx Hf]. cbn [map concat] in *.
      rewrite <-app_assoc in Hb. rewrite (rd_fwd _ _ _ Hd b i x _ Hi Hx Hb). cbn [obind]. destruct (after_read b i _ _ Hi Hb) as [Hi' Hb'].
      rewrite (rd_fwd _ _ _ IH b _ l r Hi' (conj Hl Hf) Hb'). cbn [obind]. rewrite Zlen_app. do 3 f_equal. lia.
    + intros b i l c Hok Hi H. apply obind_ok in H as ([x c1] & Hx & H). apply obind_ok in H as ([l' c2] & Hl & [= <- <-]).
      destruct (rd_bwd _ _ _ Hd _ _ _ _ Hok Hi Hx) as (Hw & -> & r & Hb). destruct (after_read b i _ _ Hi Hb) as [Hi' Hb'].
      destruct (rd_bwd _ _ _ IH _ _ _ _ Hok Hi' Hl) as ([Hn Hf] & -> & r' & Hr). cbn [map concat length]. rewrite Zlen_app.
      split; [split; [congruence|by constructor]|]. split; [f_equal; lia|]. exists r'. rewrite Hb, <-app_assoc. f_equal. congruence.
    + intros b i Hok Hi. destruct (d (MkCur b i)) as [[x c]| |] eqn:Hx; cbn [obind]; [|done|by apply (rd_np _ _ _ Hd) in Hx].
      destruct (rd_bwd _ _ _ Hd _ _ _ _ Hok Hi Hx) as (Hw & -> & Hr). pose proof (rd_np _ _ _ IH b _ Hok (bwd_room b i _ Hi Hr)) as Hnp.
      by destruct (times n d _) as [[l c]| |].
Qed.
(** The whole payload is one value. *)
Lemma whole_reads {A} (d : Dec A) e W mk payload m : reads d e W -> bytes_ok payload ->
  whole d mk payload = Ok m <-> exists x, W x /\ payload = e x /\ m = mk x.
Proof.
  intros Hd Hok. unfold whole. assert (0 <= 0 <= Zlen payload) as H0 by (pose proof (Zlen_nonneg payload); lia). split.
  - intros H. apply obind_ok in H as ([x c] & Hx & H). apply obind_ok in H as (u & Hfin & [= <-]). destruct (rd_bwd _ _ _ Hd _ _ _ _ Hok H0 Hx) as (Hw & -> & r & Hr).
    unfold Cur_finish in Hfin. cbn [cu_b cu_i] in Hfin. destruct (Z.eqb_spec (0 + Zlen (e x)) (Zlen payload)) as [E|]; [|done]. exists x. split; [done|]. split; [|done].
    change (drop (Z.to_nat 0) payload) with payload in Hr. rewrite Hr in E. rewrite Zlen_app in E. destruct r as [|y r]; [by rewrite app_nil_r in Hr|]. rewrite Zlen_cons in E. pose proof (Zlen_nonneg r). lia.
  - intros (x & Hw & -> & ->). unfold Cur_new. rewrite (rd_fwd _ _ _ Hd (e x) 0 x [] H0 Hw) by (by rewrite app_nil_r). cbn [obind]. unfold Cur_finish. cbn [cu_b cu_i].
    by rewrite Z.add_0_l, Z.eqb_refl.
Qed.
Lemma whole_np {A} (d : Dec A) e W mk payload : reads d e W -> bytes_ok payload -> whole d mk payload <> Panic.
Proof.
  intros Hd Hok. unfold whole, Cur_new. pose proof (rd_np _ _ _ Hd payload 0 Hok) as Hnp. destruct (d _) as [[x c]| |]; cbn [obind]; [|done|].
  - unfold Cur_finish. by destruct (_ =? _).
  - intros _. apply Hnp; [|done]. pose proof (Zlen_nonneg payload). lia.
Qed.

(** ** Well-formed messages *)
Definition uint (w x : Z) : Prop := 0 <= x < 2 ^ w.
Definition arr (n : Z) (b : bytes) : Prop := Zlen b = n /\ bytes_ok b.
Definition hello_wf (h : Hello) : Prop :=
  uint 16 (hl_proto_ver h) /\ uint 16 (hl_min_proto h) /\ arr 4 (hl_chain_id h) /\ uint 32 (hl_services h) /\ uint 64 (hl_nonce h) /\
  uint 64 (hl_time h) /\ uint 64 (hl_height h) /\ arr 32 (hl_tip_hash h) /\ arr 32 (hl_cum_work h) /\ uint 16 (hl_listen_port h) /\
  bytes_ok (hl_user_agent h) /\ Zlen (hl_user_agent h) <= UA_MAX.
Definition addr_wf (a : AddrRec) : Prop := uint 64 (ad_time a) /\ uint 32 (ad_services a) /\ arr 16 (ad_ip a) /\ uint 16 (ad_port a).
Definition inv_wf (it : InvItem) : Prop := arr 32 (iv_hash it).
Definition sig_wf (s : Z * bytes) : Prop := byte_ok (fst s) /\ arr 64 (snd s).
Definition checkpoint_wf (c : CheckpointMsg) : Prop :=
  uint 64 (ck_height c) /\ arr 32 (ck_hash c) /\ Zlen (ck_sigs c) <= CHECKPOINT_SIGS_MAX /\ Forall sig_wf (ck_sigs c).
Definition list_wf {A} (cap : Z) (W : A -> Prop) (v : list A) : Prop := Zlen v <= cap /\ Forall W v.
(** What a message may hold: its fields' widths and the limits of the protocol. *)
Definition msg_wf (m : Msg) : Prop :=
  match m with
  | MsgHello h => hello_wf h
  | MsgHelloAck | MsgGetAddr | MsgMempool | MsgGetCheckpoint => True
  | MsgPing n | MsgPong n => uint 64 n
  | MsgAddr v => list_wf ADDR_MSG_MAX addr_wf v
  | MsgInv v | MsgGetData v | MsgNotFound v => list_wf INV_MAX inv_wf v
  | MsgGetHeaders locator stop => list_wf LOCATOR_MAX (arr 32) locator /\ arr 32 stop
  | MsgHeaders v => list_wf MAX_HEADERS_PER_MSG (arr HEADER_BYTES) v
  | MsgBlock b => bytes_ok b /\ HEADER_BYTES + 4 <= Zlen b <= CAP_BLOCK
  | MsgTx b => bytes_ok b /\ 1 <= Zlen b <= CAP_TX
  | MsgFeeFilter f => uint 128 f
  | MsgCheckpoint c => checkpoint_wf c
  end.
Lemma reads_uint n w : w = 8 * Z.of_nat n -> reads (Cur_le (Z.of_nat n)) (le_bytes n) (uint w).
Proof.
  intros ->. eapply reads_weaken; [apply reads_le|..|done]. intros x. unfold uint. change 256 with (2 ^ 8). by rewrite <-Z.pow_mul_r by lia.
Qed.
Lemma reads_arr n : 0 <= n -> reads (Cur_arr n) (fun s => s) (arr n).
Proof. apply reads_take. Qed.
Lemma reads_u16 : reads Cur_u16 (le_bytes 2) (uint 16).
Proof. by apply (reads_uint 2). Qed.
Lemma reads_u32 : reads Cur_u32 (le_bytes 4) (uint 32).
Proof. by apply (reads_uint 4). Qed.
Lemma reads_u64 : reads Cur_u64 (le_bytes 8) (uint 64).
Proof. by apply (reads_uint 8). Qed.
Lemma reads_u128 : reads Cur_u128 (le_bytes 16) (uint 128).
Proof. by apply (reads_uint 16). Qed.
Lemma reads_arr32 : reads Cur_arr32 (fun s => s) (arr 32).
Proof. by apply reads_arr. Qed.
#[export] Hint Resolve reads_u8 reads_u16 reads_u32 reads_u64 reads_u128 reads_arr32 : wire.
#[export] Hint Extern 2 (reads (Cur_arr _) _ _) => apply reads_arr; lia : wire.

Lemma Zlen_concat_same {A} (e : A -> bytes) n v : Forall (fun x => Zlen (e x) = n) v -> Zlen (concat (map e v)) = Zlen v * n.
Proof. induction 1 as [|x v Hx _ IH]; [done|]. cbn [map concat]. rewrite Zlen_app, Zlen_cons, IH, Hx. lia. Qed.
Lemma reads_count cap : cap < 2 ^ 32 -> reads (Cur_count cap) (le_bytes 4) (fun n => 0 <= n <= cap).
Proof.
  intros Hc. apply (reads_check Cur_u32 (le_bytes 4) (uint 32)); [apply reads_u32|]. intros n. unfold uint.
  destruct (Z.ltb_spec cap n); lia.
Qed.
(** A counted list reads back, its records one after the other. *)
Lemma reads_list {A} cap size (d : Dec A) e W : cap < 2 ^ 32 -> reads d e W -> (forall x, W x -> Zlen (e x) = size) ->
  reads (dec_list cap size d) (enc_list e) (list_wf cap W).
Proof.
  intros Hc Hd Hs. apply (reads_bind (Cur_count cap) _ (le_bytes 4) (fun n => 0 <= n <= cap) (fun v => Zlen v) (fun v => concat (map e v))).
  - by apply reads_count.
  - intros v [Hv _]. pose proof (Zlen_nonneg v). lia.
  - intros v [Hv _]. unfold enc_list, wrap. pose proof (Zlen_nonneg v). by rewrite Z.mod_small by lia.
  - intros n Hn. apply reads_needing.
    + eapply reads_weaken; [by apply reads_times|..|done]. intros v. cbv beta. unfold list_wf, Zlen. 
      split; [intros [H1 H2]|intros [[H1 H2] H3]]; split_and!; (done || lia).
    + intros v [[_ Hv] <-]. rewrite (Zlen_concat_same e size); [done|]. exact (List.Forall_impl _ Hs Hv).
Qed.

(** ** Records *)
(** The next field: [proj] finds it in the record. *)
Ltac wfs := unfold hello_wf, addr_wf, inv_wf, sig_wf, checkpoint_wf.
Ltac field proj := eapply (reads_bind _ _ _ _ proj);
  [solve [eauto with wire]|wfs; tauto|intros ? _; reflexivity|intros ? ?].
(** All fields are read: the record is determined. *)
Ltac fields_done := apply reads_ret; [wfs; cbn; tauto|reflexivity|intros []; cbn; intuition congruence].
Lemma reads_addr : reads dec_addr enc_addr addr_wf.
Proof. unfold dec_addr, enc_addr. field ad_time. field ad_services. field ad_ip. field ad_port. fields_done. Qed.
Ltac last_field proj := eapply (reads_bind _ _ _ _ proj (fun _ => []));
  [solve [eauto with wire]|wfs; tauto|intros ? _; rewrite app_nil_r; reflexivity|intros ? ?].
Lemma inv_kind_code k : InvKind_from_code (InvKind_code k) = Some k.
Proof. by destruct k. Qed.
Lemma inv_kind_from c k : InvKind_from_code c = Some k -> c = InvKind_code k.
Proof. unfold InvKind_from_code. destruct (Z.eqb_spec c 1); [by intros [= <-]|]. destruct (Z.eqb_spec c 2); [by intros [= <-]|done]. Qed.
Lemma reads_sig : reads dec_sig enc_sig sig_wf.
Proof. unfold dec_sig, enc_sig. field (@fst Z bytes). last_field (@snd Z bytes). fields_done. Qed.
(** A decoder that looks at a value before it goes on. *)
Lemma reads_case {A} (d : Dec A) e W d' : reads d e W -> (forall c, d' c = d c) -> reads d' e W.
Proof. intros [H1 H2 H3] E. split; intros; rewrite ?E in *; eauto. Qed.
Lemma reads_fail {A} e (W : A -> Prop) (d : Dec A) : (forall c, exists x, d c = Err x) -> (forall x, ~ W x) -> reads d e W.
Proof.
  intros Hd HW. split.
  - intros b i x r _ Hx. by apply HW in Hx.
  - intros b i x c _ _ H. destruct (Hd (MkCur b i)) as [y Hy]. congruence.
  - intros b i _ _ H. destruct (Hd (MkCur b i)) as [y Hy]. congruence.
Qed.
Lemma reads_inv : reads dec_inv enc_inv inv_wf.
Proof.
  unfold dec_inv, enc_inv. eapply (reads_bind Cur_u8 _ _ byte_ok (fun it => InvKind_code (iv_kind it))); [apply reads_u8|by intros [[] ?] _|intros ? _; reflexivity|].
  intros k Hk. destruct (InvKind_from_code k) as [kind|] eqn:Ek.
  - apply inv_kind_from in Ek as ->. last_field iv_hash. apply reads_ret; [wfs; cbn; tauto|done|]. intros [k h] [[_ E] Eh]. cbn in *.
    apply (f_equal InvKind_from_code) in E. rewrite !inv_kind_code in E. congruence.
  - apply reads_fail; [by eexists|]. intros it [_ E]. rewrite <-E, inv_kind_code in Ek. done.
Qed.
Lemma reads_getheaders : reads dec_getheaders (fun p => enc_list id (fst p) ++ snd p) (fun p => list_wf LOCATOR_MAX (arr 32) (fst p) /\ arr 32 (snd p)).
Proof.
  unfold dec_getheaders. apply (reads_bind (Cur_count LOCATOR_MAX) _ (le_bytes 4) (fun n => 0 <= n <= LOCATOR_MAX) (fun p : list bytes * bytes => Zlen (fst p)) (fun p => concat (map id (fst p)) ++ snd p)).
  - by apply reads_count.
  - intros p [[H _] _]. pose proof (Zlen_nonneg (fst p)). lia.
  - intros p [[H _] _]. unfold enc_list, wrap. pose proof (Zlen_nonneg (fst p)). change LOCATOR_MAX with 64 in H. rewrite Z.mod_small by lia. by rewrite <-app_assoc.
  - intros n Hn. apply reads_needing.
    + eapply (reads_bind (times (Z.to_nat n) Cur_arr32) _ _ (fun l => length l = Z.to_nat n /\ Forall (arr 32) l) (@fst (list bytes) bytes) (fun p => snd p)).
      * apply (reads_times _ (fun s => s)), reads_arr32.
      * intros p [[[_ H] _] H2]. split; [unfold Zlen in H2; lia|done].
      * done.
      * intros l Hl. last_field (@snd (list bytes) bytes). apply reads_ret; [|done|intros [? ?]; cbn; intuition congruence]. cbn. unfold list_wf, Zlen. intuition lia.
    + intros [l s] [[[_ H] [Hs _]] <-]. cbn [fst snd] in *. rewrite Zlen_app, Hs, (Zlen_concat_same id 32); [lia|]. eapply List.Forall_impl; [|exact H]. by intros x [? _].
Qed.
Lemma reads_checkpoint : reads dec_checkpoint (fun c => wire_encode (MsgCheckpoint c)) checkpoint_wf.
Proof.
  unfold dec_checkpoint. cbn [wire_encode]. field ck_height. field ck_hash.
  eapply (reads_bind Cur_u8 _ _ byte_ok (fun c => Zlen (ck_sigs c)) (fun c => concat (map enc_sig (ck_sigs c)))); [apply reads_u8|..].
  - intros c [[(_ & _ & Hc & _) _] _]. unfold byte_ok. change CHECKPOINT_SIGS_MAX with 15 in Hc. pose proof (Zlen_nonneg (ck_sigs c)). lia.
  - intros c [[(_ & _ & Hc & _) _] _]. unfold wrap. change CHECKPOINT_SIGS_MAX with 15 in Hc. pose proof (Zlen_nonneg (ck_sigs c)). by rewrite Z.mod_small by lia.
  - intros n Hn. destruct (Z.ltb_spec CHECKPOINT_SIGS_MAX n) as [Hbig|Hsmall].
    + apply reads_fail; [by eexists|]. intros c [[[(_ & _ & Hc & _) _] _] <-]. lia.
    + eapply (reads_bind (needing (n * 65) (times (Z.to_nat n) dec_sig)) _ _ (fun l => length l = Z.to_nat n /\ Forall sig_wf l) ck_sigs (fun _ => [])).
      * apply reads_needing; [apply reads_times, reads_sig|]. intros v [Hv Hf]. rewrite (Zlen_concat_same enc_sig 65); [unfold Zlen; unfold byte_ok in Hn; lia|].
        eapply List.Forall_impl; [|exact Hf]. intros s [_ [Hs _]]. unfold enc_sig. rewrite Zlen_app, Hs. done.
      * intros c [[[(_ & _ & _ & Hc) _] _] H2]. split; [unfold Zlen in H2; lia|done].
      * intros c _. by rewrite app_nil_r.
      * intros l [Hl Hf]. apply reads_ret; [|done|intros []; cbn; intuition congruence]. wfs. cbn. unfold Zlen, byte_ok in *. intuition lia.
Qed.
Lemma reads_hello : reads dec_hello enc_hello hello_wf.
Proof.
  unfold dec_hello, enc_hello. cbv zeta. field hl_proto_ver. field hl_min_proto. field hl_chain_id. field hl_services. field hl_nonce. field hl_time. field hl_height.
  field hl_tip_hash. field hl_cum_work. field hl_listen_port.
  assert (forall h, hello_wf h -> Zlen (hl_user_agent h) <= 64 /\ bytes_ok (hl_user_agent h)) as Hua by (unfold hello_wf; change UA_MAX with 64; tauto).
  eapply (reads_bind Cur_u8 _ _ byte_ok (fun h => Zlen (hl_user_agent h)) hl_user_agent); [apply reads_u8|..].
  - intros h Hh. unfold byte_ok. pose proof (Zlen_nonneg (hl_user_agent h)). pose proof (Hua h ltac:(tauto)). lia.
  - intros h Hh. pose proof (Zlen_nonneg (hl_user_agent h)). pose proof (Hua h ltac:(tauto)). change UA_MAX with 64.
    destruct (Z.ltb_spec 64 (Zlen (hl_user_agent h))); [lia|]. unfold wrap. by rewrite Z.mod_small by lia.
  - intros n Hn. change UA_MAX with 64. destruct (Z.ltb_spec 64 n).
    + apply reads_fail; [by eexists|]. intros h [Hh E]. pose proof (Hua h ltac:(tauto)). lia.
    + eapply (reads_bind (Cur_take n) _ _ (arr n) hl_user_agent (fun _ => [])); [apply reads_take; apply Hn|..].
      * intros h [Hh E]. split; [done|]. apply Hua. tauto.
      * intros h _. by rewrite app_nil_r.
      * intros ua [Hl Hok]. apply reads_ret; [|done|intros []; cbn; intuition congruence]. unfold hello_wf. cbn. change UA_MAX with 64. rewrite Hl. tauto.
Qed.

(** ** Messages *)
Lemma Zlen_list {A} (e : A -> bytes) size cap v W : (forall x, W x -> Zlen (e x) = size) -> 0 <= size -> list_wf cap W v -> Zlen (enc_list e v) <= 4 + cap * size.
Proof.
  intros Hs H0 [Hl Hf]. unfold enc_list. rewrite Zlen_app, Zlen_le_bytes, (Zlen_concat_same e size) by exact (List.Forall_impl _ Hs Hf). nia.
Qed.
Lemma addr_size a : addr_wf a -> Zlen (enc_addr a) = 30.
Proof. intros (_ & _ & [H _] & _). unfold enc_addr. rewrite !Zlen_app, !Zlen_le_bytes, H. done. Qed.
Lemma inv_size it : inv_wf it -> Zlen (enc_inv it) = 33.
Proof. intros [H _]. unfold enc_inv. rewrite !Zlen_app, H. done. Qed.
Lemma arr_size n b : arr n b -> Zlen (id b) = n.
Proof. by intros [H _]. Qed.
Lemma sig_size x : sig_wf x -> Zlen (enc_sig x) = 65.
Proof. intros [_ [H _]]. unfold enc_sig. rewrite Zlen_app, H. done. Qed.
(** No well-formed message is larger than the cap of its command. *)
Lemma encode_fits m : msg_wf m -> Zlen (wire_encode m) <= payload_cap (Msg_cmd m).
Proof.
  destruct m as [h| | | | |v|v|v|v|loc stop|v|b|b| | |c|]; cbn [msg_wf wire_encode Msg_cmd payload_cap]; intros H; try (rewrite ?Zlen_le_bytes; done).
  - destruct H as (_ & _ & [H1 _] & _ & _ & _ & _ & [H2 _] & [H3 _] & _ & _ & H4). unfold enc_hello. cbv zeta. destruct (Z.ltb_spec UA_MAX (Zlen (hl_user_agent h))); [lia|].
    rewrite !Zlen_app, !Zlen_le_bytes, H1, H2, H3. change CAP_HELLO with 167. change UA_MAX with 64 in H4. unfold Zlen at 1. cbn [length]. lia.
  - exact (Zlen_list _ _ _ _ _ addr_size ltac:(lia) H).
  - exact (Zlen_list _ _ _ _ _ inv_size ltac:(lia) H).
  - exact (Zlen_list _ _ _ _ _ inv_size ltac:(lia) H).
  - exact (Zlen_list _ _ _ _ _ inv_size ltac:(lia) H).
  - destruct H as [H [Hs _]]. rewrite Zlen_app, Hs. pose proof (Zlen_list _ _ _ _ _ (arr_size 32) ltac:(lia) H). change CAP_GETHEADERS with (4 + LOCATOR_MAX * 32 + 32). lia.
  - exact (Zlen_list _ _ _ _ _ (arr_size HEADER_BYTES) ltac:(done) H).
  - lia.
  - lia.
  - destruct H as (_ & [H1 _] & H2 & H3). rewrite !Zlen_app, Zlen_le_bytes, H1, (Zlen_concat_same enc_sig 65) by exact (List.Forall_impl _ sig_size H3).
    change CAP_CHECKPOINT with 1016. change CHECKPOINT_SIGS_MAX with 15 in H2. unfold Zlen at 1. cbn [length]. lia.
Qed.
Lemma reads_addrs : reads (dec_list ADDR_MSG_MAX ADDR_REC_BYTES dec_addr) (enc_list enc_addr) (list_wf ADDR_MSG_MAX addr_wf).
Proof. by apply reads_list; [|apply reads_addr|apply addr_size]. Qed.
Lemma reads_invs : reads (dec_list INV_MAX INV_ITEM_BYTES dec_inv) (enc_list enc_inv) (list_wf INV_MAX inv_wf).
Proof. by apply reads_list; [|apply reads_inv|apply inv_size]. Qed.
Lemma reads_headers : reads (dec_list MAX_HEADERS_PER_MSG HEADER_BYTES (Cur_arr HEADER_BYTES)) (enc_list id) (list_wf MAX_HEADERS_PER_MSG (arr HEADER_BYTES)).
Proof. by apply reads_list; [|apply reads_arr|apply arr_size]. Qed.
Lemma reads_nothing : reads dec_nothing (fun _ => []) (fun _ => True).
Proof. apply reads_ret; [done..|]. by intros []. Qed.
(** Each payload is read by the decoder of its command. *)
Lemma decode_whole {A} (d : Dec A) e W mk cmd payload m : reads d e W -> bytes_ok payload ->
  (forall x, W x -> Zlen (e x) <= payload_cap cmd) ->
  (if payload_cap cmd <? Zlen payload then Err (Oversize cmd (wrap 32 (Zlen payload)) (payload_cap cmd)) else whole d mk payload) = Ok m <->
  exists x, W x /\ payload = e x /\ m = mk x.
Proof.
  intros Hd Hok Hfit. rewrite <-(whole_reads d e W mk payload m Hd Hok). destruct (Z.ltb_spec (payload_cap cmd) (Zlen payload)); [|done].
  split; [done|]. intros H1. apply (whole_reads d e W mk payload m Hd Hok) in H1 as (x & Hx & -> & _). specialize (Hfit x Hx). lia.
Qed.
(** The two directions for one command: [R] is the law of its decoder. *)
Ltac by_reads R := rewrite (decode_whole _ _ _ _ _ _ _ R) by
    first [assumption | let x := fresh in let H := fresh in intros x H;
      first [exact (encode_fits (MsgHello x) H) | exact (encode_fits (MsgAddr x) H) | exact (encode_fits (MsgInv x) H) | exact (encode_fits (MsgHeaders x) H)
        | exact (encode_fits (MsgCheckpoint x) H) | exact (encode_fits (MsgGetHeaders (fst x) (snd x)) H) | rewrite ?Zlen_le_bytes; done]];
  split;
  [ intros (x & Hx & -> & ->); try (destruct x); auto
  | intros (Hc & Hw & ->); match goal with m : Msg |- _ => destruct m; try discriminate Hc; clear Hc end; cbn [msg_wf wire_encode] in * ].
Lemma decode_iff cmd payload m : bytes_ok payload -> wire_decode cmd payload = Ok m <-> Msg_cmd m = cmd /\ msg_wf m /\ payload = wire_encode m.
Proof.
  intros Hok. unfold wire_decode. destruct cmd.
  - by_reads reads_hello. eauto.
  - by_reads reads_nothing. by exists ().
  - by_reads reads_u64. eauto.
  - by_reads reads_u64. eauto.
  - by_reads reads_nothing. by exists ().
  - by_reads reads_addrs; eauto.
  - by_reads reads_invs; eauto.
  - by_reads reads_invs; eauto.
  - by_reads reads_invs; eauto.
  - by_reads reads_getheaders. exists (locator, stop). eauto.
  - by_reads reads_headers; eauto.
  - cbn [payload_cap]. destruct (Z.ltb_spec CAP_BLOCK (Zlen payload)), (Z.ltb_spec (Zlen payload) (HEADER_BYTES + 4));
      (split; [intros H'; first [discriminate H'|injection H' as <-; cbn [msg_wf wire_encode Msg_cmd]; split_and!; (done || lia)]|intros (Hc & Hw & ->); destruct m; try discriminate Hc; cbn [msg_wf wire_encode] in *; first [lia|reflexivity]]).
  - cbn [payload_cap]. pose proof (Zlen_nonneg payload). destruct (Z.ltb_spec CAP_TX (Zlen payload)), (Z.eqb_spec (Zlen payload) 0);
      (split; [intros H'; first [discriminate H'|injection H' as <-; cbn [msg_wf wire_encode Msg_cmd]; split_and!; (done || lia)]|intros (Hc & Hw & ->); destruct m; try discriminate Hc; cbn [msg_wf wire_encode] in *; first [lia|reflexivity]]).
  - by_reads reads_nothing. by exists ().
  - by_reads reads_u128. eauto.
  - by_reads reads_checkpoint. eauto.
  - by_reads reads_nothing. by exists ().
Qed.
Lemma decode_np cmd payload : bytes_ok payload -> wire_decode cmd payload <> Panic.
Proof.
  intros Hok. unfold wire_decode. destruct (_ <? _); [done|]. destruct cmd; try (by repeat case_match);
    first [by apply (whole_np _ _ _ _ _ reads_hello) | by apply (whole_np _ _ _ _ _ reads_nothing) | by apply (whole_np _ _ _ _ _ reads_u64)
      | by apply (whole_np _ _ _ _ _ reads_u128) | by apply (whole_np _ _ _ _ _ reads_checkpoint) | by apply (whole_np _ _ _ _ _ reads_getheaders) | by apply (whole_np _ _ _ _ _ reads_addrs)
      | by apply (whole_np _ _ _ _ _ reads_invs) | by apply (whole_np _ _ _ _ _ reads_headers)].
Qed.

(** ** Frames *)
Definition frame_ok (f : Cmd * bytes) : Prop := Zlen (snd f) <= payload_cap (fst f).
Definition frame_bytes (magic : bytes) (f : Cmd * bytes) : bytes := encode_frame magic (fst f) (snd f).
Lemma cmd_code c : Cmd_from_code (Cmd_code c) = Some c /\ byte_ok (Cmd_code c).
Proof. by destruct c. Qed.
Lemma cap_bound c : 0 <= payload_cap c <= CAP_BLOCK /\ CAP_BLOCK <= MAX_P2P_MSG_BYTES.
Proof. by destruct c. Qed.
Lemma frame_size magic f : Zlen magic = 4 -> Zlen (frame_bytes magic f) = FRAME_HEADER_BYTES + Zlen (snd f).
Proof. intros H. unfold frame_bytes, encode_frame. rewrite !Zlen_app, Zlen_le_bytes, H. unfold FRAME_HEADER_BYTES, Zlen. cbn [length]. lia. Qed.
Lemma list4 {A} (l : list A) : Zlen l = 4 -> exists a b c d, l = [a; b; c; d].
Proof.
  intros H. do 4 (destruct l as [|? l]; [discriminate H|]). destruct l as [|x l]; [eauto|]. rewrite !Zlen_cons in H. pose proof (Zlen_nonneg l). lia.
Qed.
Lemma parse_frame magic f rest : Zlen magic = 4 -> frame_ok f ->
  parse_frame_header (slice (frame_bytes magic f ++ rest) 0 FRAME_HEADER_BYTES) magic = Ok (MkFrameHeader (fst f) (Zlen (snd f))).
Proof.
  intros Hm Hf. destruct f as [cmd p]. unfold frame_ok, frame_bytes, encode_frame in *. cbn [fst snd] in *. pose proof (cap_bound cmd) as [[_ Hc1] Hc2]. pose proof (Zlen_nonneg p).
  assert (from_le (le_bytes 4 (wrap 32 (Zlen p))) = Zlen p) as Hlen.
  { unfold wrap. change CAP_BLOCK with 1048576 in *. rewrite Z.mod_small, from_le_le_bytes by lia. done. }
  destruct (list4 magic Hm) as (m0 & m1 & m2 & m3 & ->). destruct (list4 (le_bytes 4 (wrap 32 (Zlen p))) (Zlen_le_bytes _ _)) as (a & b & c & d & E). rewrite E in *.
  transitivity (parse_frame_header [m0; m1; m2; m3; Cmd_code cmd; 0; a; b; c; d] [m0; m1; m2; m3]); [done|]. unfold parse_frame_header.
  change (slice [m0; m1; m2; m3; Cmd_code cmd; 0; a; b; c; d] 0 4) with [m0; m1; m2; m3]. rewrite bool_decide_true by done. cbn [negb].
  change (byte_at [m0; m1; m2; m3; Cmd_code cmd; 0; a; b; c; d] 4) with (Cmd_code cmd). rewrite (proj1 (cmd_code cmd)).
  change (from_le [_; _; _; _]) with (from_le [a; b; c; d]). rewrite Hlen. cbn [negb byte_at]. change (negb _) with false. cbv zeta beta.
  destruct (Z.ltb_spec MAX_P2P_MSG_BYTES (Zlen p)), (Z.ltb_spec (payload_cap cmd) (Zlen p)); try lia. done.
Qed.
Lemma parse_bounds buf magic fh : bytes_ok buf -> parse_frame_header buf magic = Ok fh -> 0 <= fh_length fh <= CAP_BLOCK.
Proof.
  intros Hb. unfold parse_frame_header. destruct (negb _); [done|]. destruct (Cmd_from_code _) as [cmd|]; [|done]. destruct (negb _); [done|]. cbv zeta.
  set (l := from_le _). assert (0 <= l) as Hl by (apply from_le_bounds; repeat constructor; by apply byte_at_ok). destruct (_ <? _); [done|].
  destruct (Z.ltb_spec (payload_cap cmd) l); [done|]. intros [= <-]. cbn. pose proof (cap_bound cmd). lia.
Qed.
Lemma parse_no_panic buf magic : parse_frame_header buf magic <> Panic.
Proof. unfold parse_frame_header. by repeat case_match. Qed.

(** ** The frame reader *)
(** What the loop does with a buffer, with fuel enough for it. *)
Definition scan (magic buf : bytes) : list (Cmd * bytes) * bytes * option WireError := push_loop (S (length buf)) magic buf [].
Lemma push_loop_out fuel magic : forall buf out, push_loop fuel magic buf out = let '(o, b, e) := push_loop fuel magic buf [] in (out ++ o, b, e).
Proof.
  induction fuel as [|fuel IH]; intros buf out; cbn [push_loop]; [by rewrite app_nil_r|]. destruct (_ <? _); [by rewrite app_nil_r|].
  destruct (parse_frame_header _ _) as [fh|e|]; [|by rewrite app_nil_r..]. cbv zeta. destruct (_ <? _); [by rewrite app_nil_r|].
  rewrite (IH _ (out ++ _)), (IH _ ([] ++ _)). destruct (push_loop fuel _ _ []) as [[o b] e]. by rewrite <-app_assoc.
Qed.
Lemma drop_shorter {A} (b : list A) n : 0 < n -> 0 < Zlen b -> (length (drop (Z.to_nat n) b) < length b)%nat.
Proof. unfold Zlen. intros Hn Hb. rewrite length_drop. lia. Qed.
Lemma push_loop_fuel magic n : forall f1 f2 buf out, bytes_ok buf -> (length buf <= n)%nat -> (length buf < f1)%nat -> (length buf < f2)%nat ->
  push_loop f1 magic buf out = push_loop f2 magic buf out.
Proof.
  induction n as [|n IH]; intros [|f1] [|f2] buf out Hok Hn H1 H2; try lia; cbn [push_loop]; unfold FRAME_HEADER_BYTES; destruct (Z.ltb_spec (Zlen buf) 10) as [|Hlen]; try done.
  - unfold Zlen in Hlen. lia.
  - destruct (parse_frame_header _ _) as [fh|e|] eqn:Ep; [|done..]. apply parse_bounds in Ep; [|by apply slice_Forall]. cbv zeta. destruct (_ <? _); [done|].
    pose proof (drop_shorter buf (10 + fh_length fh) ltac:(lia) ltac:(lia)). apply IH; [by apply Forall_drop|lia..].
Qed.
(** One turn of the loop. *)
Lemma scan_step magic buf : bytes_ok buf -> scan magic buf =
  (if Zlen buf <? FRAME_HEADER_BYTES then ([], buf, None)
   else match parse_frame_header (slice buf 0 FRAME_HEADER_BYTES) magic with
   | Ok fh => if Zlen buf <? FRAME_HEADER_BYTES + fh_length fh then ([], buf, None)
              else let '(o, b, e) := scan magic (drop (Z.to_nat (FRAME_HEADER_BYTES + fh_length fh)) buf) in
                   ((fh_cmd fh, slice buf FRAME_HEADER_BYTES (FRAME_HEADER_BYTES + fh_length fh)) :: o, b, e)
   | Err e => ([], buf, Some e)
   | Panic => ([], buf, None)
   end).
Proof.
  intros Hok. unfold scan at 1. cbn [push_loop]. destruct (Z.ltb_spec (Zlen buf) FRAME_HEADER_BYTES) as [|Hlen]; [done|].
  destruct (parse_frame_header _ _) as [fh|e|] eqn:Ep; [|done..]. apply parse_bounds in Ep; [|by apply slice_Forall]. cbv zeta. destruct (_ <? _); [done|].
  unfold FRAME_HEADER_BYTES in *. pose proof (drop_shorter buf (10 + fh_length fh) ltac:(lia) ltac:(lia)). rewrite push_loop_out. unfold scan.
  rewrite (push_loop_fuel magic (length buf) (length buf) (S (length (drop (Z.to_nat (10 + fh_length fh)) buf)))); [|by apply Forall_drop|lia..]. 
  destruct (push_loop _ _ _ _) as [[o b] e]. done.
Qed.
Lemma slice_app_in {A} (a b : list A) i j : 0 <= i <= j -> j <= Zlen a -> slice (a ++ b) i j = slice a i j.
Proof. unfold slice, Zlen. intros Hi Hj. rewrite drop_app_le by lia. apply take_app_le. rewrite length_drop. lia. Qed.
(** Bytes that arrive later do not change what was read before. *)
Lemma scan_app magic b : bytes_ok b -> forall n buf, (length buf <= n)%nat -> bytes_ok buf ->
  scan magic (buf ++ b) = let '(o, r, e) := scan magic buf in
    match e with
    | Some _ => (o, r ++ b, e)
    | None => let '(o', r', e') := scan magic (r ++ b) in (o ++ o', r', e')
    end.
Proof.
  intros Hb. induction n as [|n IH]; intros buf Hn Hok.
  - destruct buf; [|cbn in Hn; lia]. change ([] ++ b) with b. transitivity (let '(o', r', e') := scan magic b in ([] ++ o', r', e')); [by destruct (scan magic b) as [[??]?]|reflexivity].
  - assert (scan magic (buf ++ b) = (let '(o', r', e') := scan magic (buf ++ b) in ([] ++ o', r', e'))) as Hstop by (by destruct (scan magic (buf ++ b)) as [[??]?]).
    rewrite (scan_step magic buf Hok). destruct (Z.ltb_spec (Zlen buf) FRAME_HEADER_BYTES) as [|Hlen]; [exact Hstop|].
    assert (slice (buf ++ b) 0 FRAME_HEADER_BYTES = slice buf 0 FRAME_HEADER_BYTES) as Hs by (apply slice_app_in; unfold FRAME_HEADER_BYTES in *; lia).
    destruct (parse_frame_header _ _) as [fh|e|] eqn:Ep.
    + pose proof Ep as Hbound. apply parse_bounds in Hbound; [|by apply slice_Forall]. destruct (Z.ltb_spec (Zlen buf) (FRAME_HEADER_BYTES + fh_length fh)) as [|Hfull]; [exact Hstop|].
      rewrite (scan_step magic (buf ++ b)) by (by apply Forall_app). rewrite Zlen_app, Hs, Ep. pose proof (Zlen_nonneg b). unfold FRAME_HEADER_BYTES in *.
      destruct (Z.ltb_spec (Zlen buf + Zlen b) 10); [lia|]. destruct (Z.ltb_spec (Zlen buf + Zlen b) (10 + fh_length fh)); [lia|].
      rewrite drop_app_le by (unfold Zlen in Hfull; lia). pose proof (drop_shorter buf (10 + fh_length fh) ltac:(lia) ltac:(lia)).
      rewrite IH by (by first [lia|apply Forall_drop]). rewrite slice_app_in by lia. destruct (scan magic (drop _ _)) as [[o r] [e|]]; [done|]. by destruct (scan magic (r ++ b)) as [[??]?].
    + rewrite (scan_step magic (buf ++ b)) by (by apply Forall_app). rewrite Zlen_app, Hs, Ep. pose proof (Zlen_nonneg b). destruct (Z.ltb_spec (Zlen buf + Zlen b) FRAME_HEADER_BYTES); [lia|]. done.
    + by apply parse_no_panic in Ep.
Qed.
(** A stream of frames is read back frame by frame. *)
Lemma scan_frames magic fs : Zlen magic = 4 -> bytes_ok magic -> Forall frame_ok fs -> Forall (fun f => bytes_ok (snd f)) fs ->
  bytes_ok (concat (map (frame_bytes magic) fs)) /\ scan magic (concat (map (frame_bytes magic) fs)) = (fs, [], None).
Proof.
  intros Hm Hmok. induction fs as [|f fs IH]; intros Hf Hb; [split; [constructor|reflexivity]|]. rewrite list.Forall_cons in Hf, Hb. destruct Hf as [Hf Hfs], Hb as [Hb Hbs]. destruct (IH Hfs Hbs) as [Hok E]. cbn [map concat].
  set (rest := concat (map (frame_bytes magic) fs)) in *. clearbody rest.
  assert (bytes_ok (frame_bytes magic f)) as Hfb by (unfold frame_bytes, encode_frame; repeat (apply Forall_app; split); [done|constructor; [apply cmd_code|constructor]|by constructor|apply le_bytes_ok|done]).
  assert (bytes_ok (frame_bytes magic f ++ rest)) as Hall by (by apply Forall_app). split; [done|]. rewrite scan_step by done. rewrite Zlen_app, (frame_size magic f Hm), parse_frame by done. cbn [fh_length fh_cmd].
  pose proof (Zlen_nonneg (snd f)). pose proof (Zlen_nonneg rest). unfold FRAME_HEADER_BYTES in *. destruct (Z.ltb_spec (10 + Zlen (snd f) + Zlen rest) 10); [lia|].
  destruct (Z.ltb_spec (10 + Zlen (snd f) + Zlen rest) (10 + Zlen (snd f))); [lia|]. pose proof (frame_size magic f Hm) as Hsz. unfold FRAME_HEADER_BYTES in Hsz. 
  replace (drop (Z.to_nat (10 + Zlen (snd f))) (frame_bytes magic f ++ rest)) with rest.
  2: { symmetry. rewrite <-Hsz. unfold Zlen. rewrite Nat2Z.id. apply drop_app_length. }
  rewrite E. do 3 f_equal. destruct f as [c p]. f_equal. cbn [fst snd] in *. rewrite slice_app_in by lia. unfold frame_bytes, encode_frame. cbn [fst snd].
  rewrite !app_assoc. assert (Zlen ((((magic ++ [Cmd_code c]) ++ [0]) ++ le_bytes 4 (wrap 32 (Zlen p)))) = 10) as H10 by (rewrite !Zlen_app, Zlen_le_bytes, Hm; done).
  rewrite slice_app_r, H10 by lia. apply slice_all0; lia.
Qed.
(** What stays pending is less than a frame, and scanning it again reads nothing. *)
Lemma scan_settled magic n : forall buf o r, (length buf <= n)%nat -> bytes_ok buf -> scan magic buf = (o, r, None) ->
  scan magic r = ([], r, None) /\ bytes_ok r /\ Zlen r < FRAME_HEADER_BYTES + CAP_BLOCK.
Proof.
  change FRAME_HEADER_BYTES with 10. change CAP_BLOCK with 1048576.
  induction n as [|n IH]; intros buf o r Hn Hok H.
  - destruct buf; [|cbn in Hn; lia]. injection H as <- <-. split; [reflexivity|]. split; [constructor|]. done.
  - pose proof H as H'. rewrite (scan_step magic buf Hok) in H'. destruct (Z.ltb_spec (Zlen buf) FRAME_HEADER_BYTES) as [|Hlen]; [injection H' as <- <-; split_and!; [done..|]; unfold FRAME_HEADER_BYTES in *; lia|].
    destruct (parse_frame_header _ _) as [fh|e|] eqn:Ep; [|done|by apply parse_no_panic in Ep].
    apply parse_bounds in Ep; [|by apply slice_Forall]. unfold FRAME_HEADER_BYTES in *. change CAP_BLOCK with 1048576 in Ep.
    destruct (Z.ltb_spec (Zlen buf) (10 + fh_length fh)); [injection H' as <- <-; split_and!; [done..|lia]|].
    destruct (scan magic (drop _ _)) as [[o' r'] e'] eqn:E. injection H' as _ -> ->. pose proof (drop_shorter buf (10 + fh_length fh) ltac:(lia) ltac:(lia)).
    apply IH in E; [done|lia|by apply Forall_drop].
Qed.

(** A connection: the chunks the network delivers, pushed in turn until one is refused. *)
Fixpoint feed (r : FrameReader) (chunks : list bytes) : FrameReader * (list (Cmd * bytes) + WireError) :=
  match chunks with
  | [] => (r, inl [])
  | b :: chunks =>
    match push r b with
    | (r, inr e) => (r, inr e)
    | (r, inl out) => match feed r chunks with (r, inl out') => (r, inl (out ++ out')) | bad => bad end
    end
  end.
Lemma feed_scan magic chunks : Forall bytes_ok chunks -> forall p fs rest, bytes_ok p -> scan magic p = ([], p, None) ->
  scan magic (p ++ concat chunks) = (fs, rest, None) -> feed (MkFrameReader magic p) chunks = (MkFrameReader magic rest, inl fs).
Proof.
  induction 1 as [|b chunks Hb Hc IH]; intros p fs rest Hp Hs H; [change (concat []) with (@nil Z) in H; rewrite app_nil_r, Hs in H; by injection H as <- <-|].
  cbn [concat] in H. rewrite app_assoc in H. assert (bytes_ok (p ++ b)) as Hpb by (by apply Forall_app).
  rewrite (scan_app magic (concat chunks) (proj2 (Forall_concat _ _) Hc) (length (p ++ b)) (p ++ b) ltac:(lia) Hpb) in H. cbn [feed]. unfold push. cbn [pending fr_magic]. change (push_loop (S (length (p ++ b))) magic (p ++ b) []) with (scan magic (p ++ b)).
  destruct (scan magic (p ++ b)) as [[o r] [e|]] eqn:E; [done|]. destruct (scan magic (r ++ concat chunks)) as [[o' r'] e'] eqn:E'. injection H as <- <- ->.
  destruct (scan_settled magic _ _ _ _ (le_n _) Hpb E) as (Hs' & Hr & _). by rewrite (IH r o' r' Hr Hs' E').
Qed.
Lemma push_bounded r b r' out : bytes_ok (pending r) -> bytes_ok b -> push r b = (r', inl out) -> buffered r' < FRAME_HEADER_BYTES + CAP_BLOCK.
Proof.
  intros Hp Hb. unfold push. change (push_loop (S (length (pending r ++ b))) (fr_magic r) (pending r ++ b) []) with (scan (fr_magic r) (pending r ++ b)).
  destruct (scan _ _) as [[o s] [e|]] eqn:E; [done|]. intros [= <- <-]. by apply (scan_settled _ _ _ _ _ (le_n _) (proj2 (Forall_app _ _ _) (conj Hp Hb)) E).
Qed.

(** A message as it is sent: framed with the command it carries. *)
Definition send (magic : bytes) (m : Msg) : bytes := encode_frame magic (Msg_cmd m) (wire_encode m).
Lemma bytes_app a b : bytes_ok (a ++ b) <-> bytes_ok a /\ bytes_ok b.
Proof. apply Forall_app. Qed.
Lemma byte_single x : byte_ok x -> bytes_ok [x].
Proof. intros H. by constructor. Qed.
Lemma bytes_concat {A} (e : A -> bytes) (W : A -> Prop) v : (forall x, W x -> bytes_ok (e x)) -> Forall W v -> bytes_ok (concat (map e v)).
Proof. intros He. induction 1 as [|x v Hx _ IH]; [constructor|]. cbn [map concat]. apply bytes_app. auto. Qed.
Lemma bytes_list {A} (e : A -> bytes) cap W v : (forall x, W x -> bytes_ok (e x)) -> list_wf cap W v -> bytes_ok (enc_list e v).
Proof. intros He [_ Hv]. apply bytes_app. split; [apply le_bytes_ok|by eapply bytes_concat]. Qed.
Lemma addr_bytes a : addr_wf a -> bytes_ok (enc_addr a).
Proof. intros (_ & _ & [_ H] & _). unfold enc_addr. rewrite !bytes_app. auto using le_bytes_ok. Qed.
Lemma inv_bytes it : inv_wf it -> bytes_ok (enc_inv it).
Proof. intros [_ H]. unfold enc_inv. rewrite bytes_app. split; [apply byte_single; by destruct (iv_kind it)|done]. Qed.
Lemma sig_bytes x : sig_wf x -> bytes_ok (enc_sig x).
Proof. intros [H1 [_ H2]]. unfold enc_sig. rewrite bytes_app. auto using byte_single. Qed.
Lemma arr_bytes n b : arr n b -> bytes_ok (id b).
Proof. by intros [_ H]. Qed.
Lemma wrap_byte x : byte_ok (wrap 8 x).
Proof. apply wrap_bounds. lia. Qed.
Lemma hello_bytes h : hello_wf h -> bytes_ok (enc_hello h).
Proof.
  intros (_ & _ & [_ H1] & _ & _ & _ & _ & [_ H2] & [_ H3] & _ & H4 & _). unfold enc_hello. cbv zeta. rewrite !bytes_app.
  assert (bytes_ok (if UA_MAX <? Zlen (hl_user_agent h) then slice (hl_user_agent h) 0 UA_MAX else hl_user_agent h)) as Hu by (destruct (_ <? _); [by apply slice_Forall|done]).
  split_and!; auto using le_bytes_ok, byte_single, wrap_byte.
Qed.
Lemma encode_bytes m : msg_wf m -> bytes_ok (wire_encode m).
Proof.
  destruct m; cbn [msg_wf wire_encode]; intros H; try (by constructor); try apply le_bytes_ok; try (by destruct H);
    first [by apply hello_bytes | exact (bytes_list _ _ _ _ addr_bytes H) | exact (bytes_list _ _ _ _ inv_bytes H) | exact (bytes_list _ _ _ _ (arr_bytes HEADER_BYTES) H) | idtac].
  - destruct H as [H [_ Hs]]. apply bytes_app. split; [exact (bytes_list _ _ _ _ (arr_bytes 32) H)|done].
  - destruct H as (_ & [_ H2] & _ & H4). rewrite !bytes_app. split_and!; auto using le_bytes_ok, byte_single, wrap_byte. exact (bytes_concat _ _ _ sig_bytes H4).
Qed.

(** C14. Every message decodes from exactly one payload: [decode] accepts a payload for a command exactly when it is the encoding
    of a message of that command within the protocol's limits, and then returns that message; on any bytes it returns, without
    a panic. *)
Theorem wire_codec_exact (cmd : Cmd) (payload : bytes) (m : Msg) (Hok : bytes_ok payload) :
  wire_decode cmd payload <> Panic /\
  (wire_decode cmd payload = Ok m <-> Msg_cmd m = cmd /\ msg_wf m /\ payload = wire_encode m).
Proof. split; [by apply decode_np|by apply decode_iff]. Qed.

(** C15. Messages survive the network: well-formed messages sent on one connection, cut into chunks anywhere, are read back as
    the frames that decode to the same messages in the same order, with nothing left over; and whatever arrives, a push that is
    accepted leaves less than one frame buffered. *)
Theorem stream_reassembled (magic : bytes) (ms : list Msg) (chunks : list bytes) (Hm : arr 4 magic) (Hms : Forall msg_wf ms) (Hc : Forall bytes_ok chunks)
    (Hcut : concat chunks = concat (map (send magic) ms)) :
  (exists fs, feed (FrameReader_new magic) chunks = (FrameReader_new magic, inl fs) /\
     Forall2 (fun f m => wire_decode (fst f) (snd f) = Ok m) fs ms) /\
  (forall r b r' out, bytes_ok (pending r) -> bytes_ok b -> push r b = (r', inl out) -> buffered r' < FRAME_HEADER_BYTES + CAP_BLOCK).
Proof.
  split; [|intros; by eapply push_bounded]. exists (map (fun m => (Msg_cmd m, wire_encode m)) ms). destruct Hm as [Hm Hmok]. split.
  - apply (feed_scan magic chunks Hc []); [constructor|reflexivity|]. cbn [app]. rewrite Hcut.
    replace (map (send magic) ms) with (map (frame_bytes magic) (map (fun m => (Msg_cmd m, wire_encode m)) ms)) by (rewrite map_map; done).
    apply scan_frames; [done..| |]; apply Forall_map; (eapply List.Forall_impl; [|exact Hms]); intros m Hwf; cbn; [by apply encode_fits|by apply encode_bytes].
  - clear Hcut. induction Hms as [|m ms Hwf _ IH]; cbn [map]; constructor; [|done]. cbn [fst snd]. apply decode_iff; [by apply encode_bytes|done].
Qed.

(** ** Witnesses *)
Lemma wire_codec_exact_witness : bytes_ok (le_bytes 8 7) /\ wire_decode CmdPing (le_bytes 8 7) <> Panic /\
  (wire_decode CmdPing (le_bytes 8 7) = Ok (MsgPing 7) <-> Msg_cmd (MsgPing 7) = CmdPing /\ msg_wf (MsgPing 7) /\ le_bytes 8 7 = wire_encode (MsgPing 7)).
Proof. split; [apply le_bytes_ok|]. apply wire_codec_exact. apply le_bytes_ok. Defined.
(** Two messages, delivered in three chunks of which none is a frame. *)
Definition sample_stream : bytes := concat (map (send MAGIC_MAIN) [MsgPing 7; MsgGetAddr]).
Definition sample_chunks : list bytes := [slice sample_stream 0 3; slice sample_stream 3 19; slice sample_stream 19 28].
Lemma stream_reassembled_witness : arr 4 MAGIC_MAIN /\ concat sample_chunks = sample_stream /\
  exists fs, feed (FrameReader_new MAGIC_MAIN) sample_chunks = (FrameReader_new MAGIC_MAIN, inl fs) /\
    Forall2 (fun f m => wire_decode (fst f) (snd f) = Ok m) fs [MsgPing 7; MsgGetAddr].
Proof.
  assert (arr 4 MAGIC_MAIN) as Ha by (split; [reflexivity|solve_bytes_ok]). split; [exact Ha|]. split; [vm_compute; reflexivity|].
  apply (stream_reassembled MAGIC_MAIN [MsgPing 7; MsgGetAddr] sample_chunks); [exact Ha| | |vm_compute; reflexivity].
  - repeat constructor; cbn; lia.
  - unfold sample_chunks. do 3 (constructor; [solve_bytes_ok|]). constructor.
Defined.
