(* ===== verification/P2pPeer.v ===== *)
(** What the node keeps about a peer (src/lib/p2p/src/peer, gate/g4_budget.rs): the clock, token buckets and the
    node's budgets, the misbehaviour score, the ban list, the inbox and the handshake. Times are milliseconds;
    plain [u64] arithmetic that could overflow is checked and overflows are panics. *)

From Stdlib Require Import ZArith Lia List.
From stdpp Require Import base gmap list numbers.
From S2P Require Import Prelude Constants P2pConstants P2pWire.
Import ListNotations.
Open Scope Z_scope.

(** ** traits.rs: monotonic time *)
Abbreviation Mono := Z (only parsing).
Definition sat64 (x : Z) : Z := Z.min x (umax 64).
Definition Mono_plus_ms (t : Mono) (ms : Z) : Mono := sat64 (t + ms).
Definition Mono_since (t earlier : Mono) : Z := Z.max 0 (t - earlier).
Definition Mono_expired (t start : Mono) (deadline_ms : Z) : bool := deadline_ms <=? Mono_since t start.

(** ** g4_budget.rs *)
Record TokenBucket := MkTokenBucket { tb_level : Z; tb_capacity : Z; tb_per_sec : Z; tb_last : Mono }.
Definition TokenBucket_new (capacity per_sec : Z) (now : Mono) : TokenBucket := MkTokenBucket capacity capacity per_sec now.
Definition TokenBucket_with_burst (capacity initial per_sec : Z) (now : Mono) : TokenBucket := MkTokenBucket initial capacity per_sec now.
Section Budgets.
Context {E : Type}.
(** [a + b], [a * b] in [u64] with overflow checks. *)
Definition add64 (a b : Z) : outcome E Z := expect (checked_add 64 a b).
Definition mul64 (a b : Z) : outcome E Z := expect (checked 64 (a * b)).
Definition tb_refill (b : TokenBucket) (now : Mono) : outcome E TokenBucket :=
  let ms := Mono_since now (tb_last b) in
  if ms =? 0 then Ok b
  else
    let add := sat64 (tb_per_sec b * ms) / 1000 in
    let? level := add64 (tb_level b) add in
    Ok (MkTokenBucket (Z.min level (tb_capacity b)) (tb_capacity b) (tb_per_sec b) now).
Definition tb_set_level (b : TokenBucket) (level : Z) : TokenBucket := MkTokenBucket level (tb_capacity b) (tb_per_sec b) (tb_last b).
Definition tb_take (b : TokenBucket) (n : Z) (now : Mono) : outcome E (TokenBucket * bool) :=
  let? b := tb_refill b now in
  if n <=? tb_level b then Ok (tb_set_level b (tb_level b - n), true) else Ok (b, false).
Definition tb_admits (b : TokenBucket) (n : Z) (now : Mono) : outcome E (TokenBucket * bool) :=
  let? b := tb_refill b now in
  Ok (b, n <=? tb_level b).
Definition tb_commit (b : TokenBucket) (n : Z) : TokenBucket := tb_set_level b (Z.max 0 (tb_level b - n)).
Definition tb_read (b : TokenBucket) (now : Mono) : outcome E (TokenBucket * Z) :=
  let? b := tb_refill b now in
  Ok (b, tb_level b).

Record Budgets := MkBudgets { read_global : TokenBucket; ingest_global : TokenBucket; sync_reserve : TokenBucket; pow_pool : TokenBucket; probe_pool : TokenBucket }.
Definition Budgets_new (now : Mono) : Budgets :=
  MkBudgets
    (TokenBucket_with_burst READ_GLOBAL_BYTES_PER_SEC (READ_GLOBAL_BYTES_PER_SEC + SYNC_PEER_RESERVE_BYTES_PER_SEC) READ_GLOBAL_BYTES_PER_SEC now)
    (TokenBucket_new (INGEST_GLOBAL_BYTES_PER_SEC - SYNC_PEER_RESERVE_BYTES_PER_SEC) (INGEST_GLOBAL_BYTES_PER_SEC - SYNC_PEER_RESERVE_BYTES_PER_SEC) now)
    (TokenBucket_new SYNC_PEER_RESERVE_BYTES_PER_SEC SYNC_PEER_RESERVE_BYTES_PER_SEC now)
    (TokenBucket_new POW_POOL_MS_PER_SEC POW_POOL_MS_PER_SEC now)
    (TokenBucket_new INV_PROBE_GLOBAL_BURST INV_PROBE_GLOBAL_PER_SEC now).
Definition set_read (b : Budgets) (x : TokenBucket) : Budgets := MkBudgets x (ingest_global b) (sync_reserve b) (pow_pool b) (probe_pool b).
Definition set_ingest (b : Budgets) (x : TokenBucket) : Budgets := MkBudgets (read_global b) x (sync_reserve b) (pow_pool b) (probe_pool b).
Definition set_reserve (b : Budgets) (x : TokenBucket) : Budgets := MkBudgets (read_global b) (ingest_global b) x (pow_pool b) (probe_pool b).
Definition set_pow (b : Budgets) (x : TokenBucket) : Budgets := MkBudgets (read_global b) (ingest_global b) (sync_reserve b) x (probe_pool b).
Definition set_probe (b : Budgets) (x : TokenBucket) : Budgets := MkBudgets (read_global b) (ingest_global b) (sync_reserve b) (pow_pool b) x.
Definition probe_admits (b : Budgets) (now : Mono) : outcome E (Budgets * bool) :=
  let? (x, r) := tb_admits (probe_pool b) 1 now in Ok (set_probe b x, r).
Definition probe_commit (b : Budgets) : Budgets := set_probe b (tb_commit (probe_pool b) 1).
Definition probe_level (b : Budgets) (now : Mono) : outcome E (Budgets * Z) :=
  let? (x, r) := tb_read (probe_pool b) now in Ok (set_probe b x, r).
Definition admit_pow (b : Budgets) (ms : Z) (now : Mono) : outcome E (Budgets * bool) :=
  let? (x, r) := tb_take (pow_pool b) ms now in Ok (set_pow b x, r).
Definition admit_pow_announced (b : Budgets) (ms : Z) (now : Mono) : outcome E (Budgets * bool) :=
  let? (x, level) := tb_read (pow_pool b) now in
  let b := set_pow b x in
  if level <? sat64 (POW_ANNOUNCE_RESERVE_MS + ms) then Ok (b, false) else admit_pow b ms now.
Definition admit_ingest (b : Budgets) (bytes : Z) (is_sync_peer : bool) (now : Mono) : outcome E (Budgets * bool) :=
  let? (b, ok) := (if is_sync_peer then let? (x, r) := tb_take (sync_reserve b) bytes now in Ok (set_reserve b x, r) else Ok (b, false)) in
  if ok then Ok (b, true) else let? (x, r) := tb_take (ingest_global b) bytes now in Ok (set_ingest b x, r).
Definition admit_frame (b : Budgets) (bytes : Z) (is_sync_peer : bool) (now : Mono) : outcome E (Budgets * bool) :=
  let? (b, ok) := (if is_sync_peer then let? (x, r) := tb_admits (sync_reserve b) bytes now in Ok (set_reserve b x, r) else Ok (b, false)) in
  if ok then Ok (set_reserve b (tb_commit (sync_reserve b) bytes), true)
  else
    let? (x, r) := tb_admits (read_global b) bytes now in
    let b := set_read b x in
    if negb r then Ok (b, false)
    else
      let? (x, r) := tb_admits (ingest_global b) bytes now in
      let b := set_ingest b x in
      if negb r then Ok (b, false)
      else
        let b := set_ingest b (tb_commit (ingest_global b) bytes) in
        let b := set_read b (tb_commit (read_global b) bytes) in
        Ok (b, true).
Definition admit_read (b : Budgets) (bytes : Z) (now : Mono) : outcome E (Budgets * bool) :=
  let? (x, r) := tb_take (read_global b) bytes now in Ok (set_read b x, r).
Definition pow_affordable (b : Budgets) (ms : Z) (now : Mono) : outcome E (Budgets * bool) :=
  let? (x, r) := tb_admits (pow_pool b) ms now in Ok (set_pow b x, r).
Definition pow_level (b : Budgets) (now : Mono) : outcome E (Budgets * Z) :=
  let? (x, r) := tb_read (pow_pool b) now in Ok (set_pow b x, r).
Definition read_level (b : Budgets) (now : Mono) : outcome E (Budgets * Z) :=
  let? (x, r) := tb_read (read_global b) now in Ok (set_read b x, r).
Definition ingest_level (b : Budgets) (now : Mono) : outcome E (Budgets * Z) :=
  let? (x, r) := tb_read (ingest_global b) now in Ok (set_ingest b x, r).
Definition reserve_level (b : Budgets) (now : Mono) : outcome E (Budgets * Z) :=
  let? (x, r) := tb_read (sync_reserve b) now in Ok (set_reserve b x, r).
Definition PeerPowBudget_new (now : Mono) : TokenBucket := TokenBucket_new POW_BUDGET_BURST_MS (POW_BUDGET_MS_PER_WINDOW * 1000 / POW_BUDGET_WINDOW_MS) now.
Definition PeerPowBudget_take (b : TokenBucket) (ms : Z) (now : Mono) : outcome E (TokenBucket * bool) := tb_take b ms now.

(** ** score.rs *)
Inductive Offence :=
| OBadPow | OBadBits | OBadTimePast | OMalformed | OBadSignature | OPreHello | OUnknownCmd | ONotFoundAnnouncedBlock | ORepeatOneShot
| ODisconnectedBatches | OUnsolicitedBody | OUnsolicitedHeaders | OGetCheckpointAbuse | OCheckpointUnverified | OReorgTooDeepRepeat
| ODeadlineMiss | ODupInv | OPeerOverran | OLessWork | OTieBreakLost | OReorgTooDeep | ONotYetValid | OLocalBackpressure | ONotFoundTx.
Definition points (o : Offence) : Z :=
  match o with
  | OBadPow | OBadBits | OBadTimePast | OMalformed | OBadSignature | OPreHello => 100
  | OUnknownCmd | ONotFoundAnnouncedBlock | ORepeatOneShot | OUnsolicitedHeaders | OGetCheckpointAbuse => 20
  | ODisconnectedBatches | OUnsolicitedBody | OCheckpointUnverified | OReorgTooDeepRepeat => 10
  | ODeadlineMiss | OPeerOverran => 5
  | ODupInv => 1
  | OLessWork | OTieBreakLost | OReorgTooDeep | ONotYetValid | OLocalBackpressure | ONotFoundTx => 0
  end.
Definition is_immediate_protocol_ban (o : Offence) : bool := match o with OPreHello => true | _ => false end.
Definition is_session_sync_disqualifying (o : Offence) : bool := match o with OBadPow | OBadBits | OBadSignature => true | _ => false end.
Inductive Verdict := VKeep | VBan | VBanShort.
Record Score := MkScore { sc_milli : Z; sc_at : Mono; sc_sync_disqualified : bool }.
Definition Score_new (now : Mono) : Score := MkScore 0 now false.
Definition decayed_milli (s : Score) (now : Mono) : outcome E Z :=
  let elapsed := Mono_since now (sc_at s) in
  if sc_milli s =? 0 then Ok 0
  else
    let halves := elapsed / SCORE_HALF_LIFE_MS in
    let v := if 63 <=? halves then 0 else Z.shiftr (sc_milli s) halves in
    let rem := elapsed mod SCORE_HALF_LIFE_MS in
    if (0 <? v) && (0 <? rem) then
      let? d := mul64 (v / 2) rem in
      Ok (Z.max 0 (v - d / SCORE_HALF_LIFE_MS))
    else Ok v.
Definition Score_value (s : Score) (now : Mono) : outcome E Z :=
  let? v := decayed_milli s now in
  Ok (wrap 32 (v / 1000)).
Definition Score_apply (s : Score) (o : Offence) (now : Mono) : outcome E (Score * Verdict) :=
  let? milli := decayed_milli s now in
  let dq := if is_session_sync_disqualifying o then true else sc_sync_disqualified s in
  let milli := sat64 (milli + sat64 (points o * 1000)) in
  let s := MkScore milli now dq in
  if is_immediate_protocol_ban o then Ok (s, VBanShort)
  else if BAN_SCORE <=? milli / 1000 then Ok (s, VBan) else Ok (s, VKeep).
End Budgets.

(** ** A map whose keys are remembered in the order of insertion and evicted oldest first *)
Definition capped_insert {V} (cap : Z) (k : bytes) (v : V) (m : gmap bytes V) (order : list bytes) : gmap bytes V * list bytes * bool :=
  match m !! k with
  | Some _ => (<[k := v]> m, order, false)
  | None =>
    let m := <[k := v]> m in
    let order := order ++ [k] in
    if cap <? Zlen order then
      match order with
      | victim :: order => (delete victim m, order, true)
      | [] => (m, order, false)
      end
    else (m, order, false)
  end.

(** ** ban.rs *)
Record BanList := MkBanList { bl_entries : gmap bytes Mono; bl_order : list bytes; bl_whitelist : list bytes }.
Definition BanList_new (whitelist : list bytes) : BanList := MkBanList ∅ [] whitelist.
Definition bl_ban (b : BanList) (ip : bytes) (now : Mono) (dur_ms : Z) : BanList :=
  if bool_decide (ip ∈ bl_whitelist b) then b
  else
    let '(m, order, _) := capped_insert BANLIST_MAX ip (Mono_plus_ms now dur_ms) (bl_entries b) (bl_order b) in
    MkBanList m order (bl_whitelist b).
Definition is_banned (b : BanList) (ip : bytes) (now : Mono) : bool :=
  match bl_entries b !! ip with Some until => now <? until | None => false end.
Definition bl_len (b : BanList) : Z := Z.of_nat (size (bl_entries b)).
Definition bl_sweep (b : BanList) (now : Mono) : BanList :=
  let live := filter (fun e => now < e.2) (bl_entries b) in
  MkBanList live (filter (fun ip => is_Some (live !! ip)) (bl_order b)) (bl_whitelist b).

(** ** inbox.rs *)
Inductive PauseCause := PLocalInbox | PValidateQueue | PCommitStall | PIngestBudget | PPeerOverran.
Definition pause_is_local (c : PauseCause) : bool := match c with PLocalInbox | PValidateQueue | PCommitStall => true | _ => false end.
Definition suspends_liveness_clocks (c : PauseCause) : bool := pause_is_local c.
Definition pause_peer_points (c : PauseCause) : Z := match c with PPeerOverran => 5 | _ => 0 end.
Record Inbox := MkInbox { ib_used : Z; ib_cap : Z; ib_paused : option (PauseCause * Mono); ib_paused_total_ms : Z }.
Definition Inbox_new : Inbox := MkInbox 0 INBOX_BYTES None 0.
Definition pause_cause (i : Inbox) : option PauseCause := fst <$> ib_paused i.
Definition ib_pause (i : Inbox) (cause : PauseCause) (now : Mono) : Inbox :=
  let p := match ib_paused i with Some (_, since) => (cause, since) | None => (cause, now) end in
  MkInbox (ib_used i) (ib_cap i) (Some p) (ib_paused_total_ms i).
Definition ib_unpause (i : Inbox) (now : Mono) : Inbox :=
  match ib_paused i with
  | Some (_, since) => MkInbox (ib_used i) (ib_cap i) None (sat64 (ib_paused_total_ms i + Mono_since now since))
  | None => i
  end.
Section Inbox.
Context {E : Type}.
Definition ib_accept (i : Inbox) (n : Z) (now : Mono) : outcome E (Inbox * bool) :=
  let? sum := add64 (ib_used i) n in
  if ib_cap i <? sum then Ok (ib_pause i PLocalInbox now, false)
  else
    let i := MkInbox sum (ib_cap i) (ib_paused i) (ib_paused_total_ms i) in
    Ok (if ib_used i =? ib_cap i then ib_pause i PLocalInbox now else i, true).
Definition ib_consume (i : Inbox) (n : Z) (now : Mono) : outcome E Inbox :=
  let i := MkInbox (Z.max 0 (ib_used i - n)) (ib_cap i) (ib_paused i) (ib_paused_total_ms i) in
  let? twice := mul64 (ib_used i) 2 in
  Ok (if twice <? ib_cap i then
        match ib_paused i with Some (PLocalInbox, _) => ib_unpause i now | _ => i end
      else i).
Definition paused_for (i : Inbox) (now : Mono) : Z := match ib_paused i with Some (_, since) => Mono_since now since | None => 0 end.
Definition paused_total_ms (i : Inbox) (now : Mono) : outcome E Z := add64 (ib_paused_total_ms i) (paused_for i now).
Definition ib_pause_expired (i : Inbox) (now : Mono) : bool := PAUSE_MAX_MS <=? paused_for i now.
End Inbox.

(** ** handshake.rs *)
Inductive HandshakeOutcome := HAccept | HForeignNetwork | HVersionMismatch | HSelfConnection | HReservedServiceBits | HMalformed.
Definition handshake_offence (o : HandshakeOutcome) : option Offence :=
  match o with
  | HAccept | HForeignNetwork | HVersionMismatch | HSelfConnection => None
  | HReservedServiceBits | HMalformed => Some OMalformed
  end.
Record HelloCheck := MkHelloCheck { hc_chain_id : bytes; hc_our_nonce : Z; hc_proto_ver : Z; hc_min_proto : Z; hc_now_unix : Z }.
Definition judge_hello (c : HelloCheck) (h : Hello) : HandshakeOutcome :=
  if negb (bool_decide (hl_chain_id h = hc_chain_id c)) then HForeignNetwork
  else if hl_nonce h =? hc_our_nonce c then HSelfConnection
  else if (hc_proto_ver c <? hl_min_proto h) || (hl_proto_ver h <? hc_min_proto c) then HVersionMismatch
  else if negb (Z.land (hl_services h) SERVICE_MBZ_MASK =? 0) then HReservedServiceBits
  else if UA_MAX <? Zlen (hl_user_agent h) then HMalformed
  else HAccept.
(** [x as i64], and [i64] subtraction and [abs] with overflow checks. *)
Definition as_i64 (x : Z) : Z := if x <? 2 ^ 63 then x else x - 2 ^ 64.
Definition i64 {E} (x : Z) : outcome E Z := if (- 2 ^ 63 <=? x) && (x <? 2 ^ 63) then Ok x else Panic.
Definition clock_offset {E} (c : HelloCheck) (h : Hello) : outcome E Z := i64 (as_i64 (hl_time h) - as_i64 (hc_now_unix c)).
Definition clock_offset_notable {E} (c : HelloCheck) (h : Hello) : outcome E bool :=
  let? d := clock_offset c h in
  let? a := i64 (Z.abs d) in
  Ok (120 <? a).
