(* ===== verification/P2pPeerProps.v ===== *)
(** Properties of the peer records: what token buckets grant is bounded by burst and rate, a flood cannot take
    the sync peer's reserve, scores decay and ban as documented, and the ban list is bounded and consistent. *)

From Stdlib Require Import ZArith Lia List.
From stdpp Require Import base gmap list numbers.
From S2P Require Import Prelude Constants P2pConstants P2pWire P2pPeer.
Import ListNotations.
Open Scope Z_scope.

(** ** Token buckets *)
Record bucket_ok (b : TokenBucket) : Prop := {
  bk_level : 0 <= tb_level b < 2 ^ 63;
  bk_capacity : 0 <= tb_capacity b < 2 ^ 63;
  bk_rate : 0 <= tb_per_sec b < 2 ^ 64;
}.
(** [c] is [b] later: the same bucket, with at most what the rate allows added. *)
Record refilled (b c : TokenBucket) : Prop := {
  rf_ok : bucket_ok c;
  rf_capacity : tb_capacity c = tb_capacity b;
  rf_rate : tb_per_sec c = tb_per_sec b;
  rf_last : tb_last b <= tb_last c;
  rf_level : 1000 * tb_level c <= 1000 * tb_level b + tb_per_sec b * (tb_last c - tb_last b);
}.
Section Buckets.
Context {E : Type}.
Lemma add64_ok a b : 0 <= a + b < 2 ^ 64 -> add64 (E := E) a b = Ok (a + b).
Proof. intros H. unfold add64, checked_add, checked, fits. destruct (Z.leb_spec 0 (a + b)), (Z.ltb_spec (a + b) (2 ^ 64)); try lia. done. Qed.
Lemma mul64_ok a b : 0 <= a * b < 2 ^ 64 -> mul64 (E := E) a b = Ok (a * b).
Proof. intros H. unfold mul64, checked, fits. destruct (Z.leb_spec 0 (a * b)), (Z.ltb_spec (a * b) (2 ^ 64)); try lia. done. Qed.
Lemma sat64_bounds x : 0 <= x -> 0 <= sat64 x <= x /\ sat64 x < 2 ^ 64.
Proof. unfold sat64, umax. lia. Qed.
Lemma tb_refill_ok b now : bucket_ok b -> exists c, tb_refill (E := E) b now = Ok c /\ refilled b c /\ tb_last c = Z.max (tb_last b) now.
Proof.
  intros [Hl Hc Hr]. unfold tb_refill, Mono_since. destruct (Z.eqb_spec (Z.max 0 (now - tb_last b)) 0) as [E0|E0].
  - exists b. split; [done|]. split; [|lia]. split; [by split|done..|lia|lia].
  - cbv zeta. pose proof (sat64_bounds (tb_per_sec b * Z.max 0 (now - tb_last b)) ltac:(nia)) as [[H0 H1] H2]. set (s := sat64 _) in *.
    pose proof (Z.div_mod s 1000 ltac:(lia)) as Hd. pose proof (Z.mod_pos_bound s 1000 ltac:(lia)). rewrite add64_ok by lia. cbn [obind]. eexists. split; [reflexivity|].
    split; [|cbn; lia]. split; cbn [tb_level tb_capacity tb_per_sec tb_last]; [split; cbn; lia|done..|lia|]. replace (now - tb_last b) with (Z.max 0 (now - tb_last b)) by lia. lia.
Qed.
(** A bucket asked for amounts at times, one call after the other: what was granted in total. *)
Fixpoint take_all (b : TokenBucket) (calls : list (Z * Mono)) : outcome E (TokenBucket * Z) :=
  match calls with
  | [] => Ok (b, 0)
  | (n, now) :: calls =>
    let? (b, ok) := tb_take b n now in
    let? (b, sum) := take_all b calls in
    Ok (b, (if ok then n else 0) + sum)
  end.
Lemma take_spec b n now : bucket_ok b -> 0 <= n -> exists c ok, tb_take (E := E) b n now = Ok (c, ok) /\ bucket_ok c /\ tb_per_sec c = tb_per_sec b /\ tb_capacity c = tb_capacity b /\
  tb_last c = Z.max (tb_last b) now /\ 1000 * (tb_level c + if ok then n else 0) <= 1000 * tb_level b + tb_per_sec b * (tb_last c - tb_last b).
Proof.
  intros Hb Hn. unfold tb_take. destruct (tb_refill_ok b now Hb) as (c & -> & [Hc Hcap Hrate Hlast Hlev] & Hl). cbn [obind]. destruct (Z.leb_spec n (tb_level c)).
  - eexists _, true. split; [reflexivity|]. unfold tb_set_level. cbn [tb_level tb_per_sec tb_last tb_capacity]. split_and!; [destruct Hc; split; cbn; lia|done..|lia].
  - eexists c, false. split_and!; [done..|lia].
Qed.
Lemma take_all_spec calls : Forall (fun c => 0 <= fst c) calls -> forall b, bucket_ok b -> exists b' sum, take_all b calls = Ok (b', sum) /\ bucket_ok b' /\ 0 <= sum /\
  tb_last b' = fold_left (fun t c => Z.max t (snd c)) calls (tb_last b) /\ 1000 * (tb_level b' + sum) <= 1000 * tb_level b + tb_per_sec b * (tb_last b' - tb_last b).
Proof.
  induction 1 as [|[n now] calls Hn _ IH]; intros b Hb; [exists b, 0; split_and!; (done || lia)|]. cbn [take_all fst snd fold_left] in *.
  destruct (take_spec b n now Hb Hn) as (c & ok & -> & Hc & Hr & _ & Hl & Hlev). cbn [obind]. destruct (IH c Hc) as (b' & sum & -> & Hb' & H0 & Hl' & Hlev'). cbn [obind].
  eexists _, _. split; [reflexivity|]. rewrite Hr in Hlev'. rewrite Hl in Hl'. split_and!; [done|destruct ok; lia|done|]. nia.
Qed.
End Buckets.

(** A token bucket keeps its rate: however often and for however much it is asked, it never panics, and what it grants in
    total is at most what it held plus its rate times the time that passed. *)
Theorem bucket_keeps_rate {E} (b : TokenBucket) (calls : list (Z * Mono)) (Hb : bucket_ok b) (Hc : Forall (fun c => 0 <= fst c) calls) :
  exists b' sum, take_all (E := E) b calls = Ok (b', sum) /\ bucket_ok b' /\
    1000 * sum <= 1000 * tb_level b + tb_per_sec b * (fold_left (fun t c => Z.max t (snd c)) calls (tb_last b) - tb_last b).
Proof.
  destruct (take_all_spec (E := E) calls Hc b Hb) as (b' & sum & H & Hb' & H0 & Hl & Hlev). exists b', sum. split; [done|]. split; [done|]. rewrite <-Hl. destruct (bk_level _ Hb'). lia.
Qed.

(** The rate is an upper bound only: a refill drops the fraction it cannot express and still moves the clock, so a bucket that
    is asked more often than once per token is never refilled. *)
Fixpoint polled (rate : Z) (last : Mono) (calls : list (Z * Mono)) : Prop :=
  match calls with [] => True | (_, now) :: calls => rate * (now - last) < 1000 /\ last <= now /\ polled rate now calls end.
Theorem frequent_polls_starve {E} (b : TokenBucket) (calls : list (Z * Mono)) (Hb : bucket_ok b) (Hcap : tb_level b <= tb_capacity b)
    (Hc : Forall (fun c => 0 <= fst c) calls) (Hp : polled (tb_per_sec b) (tb_last b) calls) :
  exists b' sum, take_all (E := E) b calls = Ok (b', sum) /\ tb_level b' + sum = tb_level b.
Proof.
  revert b Hb Hcap Hp. induction Hc as [|[n now] calls Hn _ IH]; intros b Hb Hcap Hp; [exists b, 0; split; [done|lia]|]. cbn [take_all polled fst] in *. destruct Hp as (H1 & H2 & H3).
  assert (tb_refill (E := E) b now = Ok (MkTokenBucket (tb_level b) (tb_capacity b) (tb_per_sec b) now)) as Hr.
  { destruct Hb as [Hl Hc Hs]. unfold tb_refill, Mono_since. destruct (Z.eqb_spec (Z.max 0 (now - tb_last b)) 0); [assert (now = tb_last b) as -> by lia; by destruct b|]. cbv zeta.
    replace (Z.max 0 (now - tb_last b)) with (now - tb_last b) by lia. assert (sat64 (tb_per_sec b * (now - tb_last b)) / 1000 = 0) as ->.
    { apply Z.div_small. unfold sat64, umax. nia. }
    rewrite add64_ok by lia. cbn [obind]. rewrite Z.add_0_r, Z.min_l by lia. done. }
  unfold tb_take. rewrite Hr. cbn [obind]. unfold tb_set_level. cbn [tb_level tb_capacity tb_per_sec tb_last]. destruct Hb as [Hl Hc Hs]. destruct (Z.leb_spec n (tb_level b)); cbn [obind].
  - destruct (IH (MkTokenBucket (tb_level b - n) (tb_capacity b) (tb_per_sec b) now)) as (b' & sum & -> & E'); [split; cbn; lia|cbn; lia|done|]. cbn [obind tb_level] in *. eexists _, _. split; [done|lia].
  - destruct (IH (MkTokenBucket (tb_level b) (tb_capacity b) (tb_per_sec b) now)) as (b' & sum & -> & E'); [by split|done|done|]. cbn [obind tb_level] in *. eexists _, _. split; [done|lia].
Qed.

(** ** The node's budgets *)
Record budgets_ok (b : Budgets) : Prop := {
  bo_read : bucket_ok (read_global b);
  bo_ingest : bucket_ok (ingest_global b);
  bo_reserve : bucket_ok (sync_reserve b);
  bo_pow : bucket_ok (pow_pool b);
  bo_probe : bucket_ok (probe_pool b);
}.
Lemma Budgets_new_ok now : budgets_ok (Budgets_new now).
Proof. by repeat split. Qed.
(** What a peer that is not the sync peer makes the node do to its budgets. *)
Inductive Spend := SFrame (bytes : Z) | SIngest (bytes : Z) | SRead (bytes : Z) | SAnnounced (ms : Z) | SProbe.
Definition spend_size (x : Spend) : Z := match x with SFrame n | SIngest n | SRead n | SAnnounced n => n | SProbe => 0 end.
Section Spend.
Context {E : Type}.
Definition spend (b : Budgets) (x : Spend) (now : Mono) : outcome E (Budgets * bool) :=
  match x with
  | SFrame n => admit_frame b n false now
  | SIngest n => admit_ingest b n false now
  | SRead n => admit_read b n now
  | SAnnounced n => admit_pow_announced b n now
  | SProbe => let? (b, ok) := probe_admits b now in Ok (if ok then probe_commit b else b, ok)
  end.
Lemma admits_ok b n now : bucket_ok b -> exists c, tb_admits (E := E) b n now = Ok (c, n <=? tb_level c) /\ refilled b c.
Proof. intros Hb. unfold tb_admits. destruct (tb_refill_ok (E := E) b now Hb) as (c & -> & Hc & _). by exists c. Qed.
Lemma commit_ok b n : bucket_ok b -> 0 <= n -> bucket_ok (tb_commit b n).
Proof. intros [H1 H2 H3] Hn. split; cbn; lia. Qed.
Lemma take_keeps b n now : bucket_ok b -> 0 <= n -> exists c ok, tb_take (E := E) b n now = Ok (c, ok) /\ bucket_ok c.
Proof. intros Hb Hn. destruct (take_spec (E := E) b n now Hb Hn) as (c & ok & H1 & H2 & _). eauto. Qed.
Lemma reserve_refill b n now : bucket_ok b -> n <= tb_level b -> n <= tb_capacity b -> exists c, tb_refill (E := E) b now = Ok c /\ n <= tb_level c.
Proof.
  intros [Hl Hc Hr] H1 H2. unfold tb_refill. destruct (_ =? 0); [by exists b|]. cbv zeta. pose proof (sat64_bounds (tb_per_sec b * Mono_since now (tb_last b)) ltac:(unfold Mono_since; nia)) as [[H3 _] H4].
  set (s := sat64 _) in *. pose proof (Z.div_mod s 1000 ltac:(lia)). pose proof (Z.mod_pos_bound s 1000 ltac:(lia)). rewrite add64_ok by lia. cbn [obind]. eexists. split; [reflexivity|]. cbn. lia.
Qed.
(** A second look at the same moment changes nothing. *)
Lemma refill_again b c now : bucket_ok b -> tb_refill (E := E) b now = Ok c -> tb_refill (E := E) c now = Ok c.
Proof.
  intros Hb H. destruct (tb_refill_ok (E := E) b now Hb) as (c' & H' & _ & Hl). rewrite H in H'. injection H' as <-. unfold tb_refill, Mono_since.
  destruct (Z.eqb_spec (Z.max 0 (now - tb_last c)) 0); [done|lia].
Qed.
Lemma announced_spec b n now : budgets_ok b -> 0 <= n -> exists p ok, admit_pow_announced (E := E) b n now = Ok (set_pow b p, ok) /\ bucket_ok p /\
  (ok = true -> POW_ANNOUNCE_RESERVE_MS <= tb_level p).
Proof.
  intros Hb Hn. unfold admit_pow_announced, tb_read. destruct (tb_refill_ok (E := E) (pow_pool b) now (bo_pow _ Hb)) as (c & Hr & [Hc _ _ _ _] & _). rewrite Hr. cbn [obind].
  destruct (Z.ltb_spec (tb_level c) (sat64 (POW_ANNOUNCE_RESERVE_MS + n))) as [|Hlev]; [by exists c, false|].
  assert (POW_ANNOUNCE_RESERVE_MS + n <= tb_level c) as Hroom.
  { destruct (bk_level _ Hc) as [_ H]. unfold sat64, umax in Hlev. lia. }
  unfold admit_pow, tb_take. cbn [pow_pool set_pow]. rewrite (refill_again _ _ _ (bo_pow _ Hb) Hr). cbn [obind]. assert (0 <= POW_ANNOUNCE_RESERVE_MS) by done.
  destruct (Z.leb_spec n (tb_level c)); [|lia]. exists (tb_set_level c (tb_level c - n)), true. split; [done|]. unfold tb_set_level. split; [destruct Hc; split; cbn; lia|]. cbn. lia.
Qed.
Lemma announce_spend_spec b x now : budgets_ok b -> 0 <= spend_size x -> exists c ok, spend b x now = Ok (c, ok) /\ budgets_ok c /\ sync_reserve c = sync_reserve b /\
  (ok = true -> match x with SAnnounced _ => POW_ANNOUNCE_RESERVE_MS <= tb_level (pow_pool c) | _ => True end).
Proof.
  intros Hb Hn. destruct x as [n|n|n|n|]; cbn [spend spend_size] in *.
  - unfold admit_frame. cbn [obind]. destruct (admits_ok (read_global b) n now (bo_read _ Hb)) as (r & -> & Hr). cbn [obind]. pose proof (rf_ok _ _ Hr) as Hrok.
    destruct (n <=? tb_level r); cbn [negb]; [|eexists _, _; split; [reflexivity|]; split_and!; [by destruct Hb|done|done]].
    cbn [ingest_global set_read]. destruct (admits_ok (ingest_global b) n now (bo_ingest _ Hb)) as (i & -> & Hi). cbn [obind]. pose proof (rf_ok _ _ Hi) as Hiok.
    destruct (n <=? tb_level i); cbn [negb]; eexists _, _; (split; [reflexivity|]); split_and!; [|done|done| |done|done]; destruct Hb; split; cbn; auto using commit_ok.
  - unfold admit_ingest. cbn [obind]. destruct (take_keeps (ingest_global b) n now (bo_ingest _ Hb) Hn) as (c & ok & -> & Hc). cbn [obind]. eexists _, _. split; [reflexivity|]. split_and!; [by destruct Hb|done|done].
  - unfold admit_read. destruct (take_keeps (read_global b) n now (bo_read _ Hb) Hn) as (c & ok & -> & Hc). cbn [obind]. eexists _, _. split; [reflexivity|]. split_and!; [by destruct Hb|done|done].
  - destruct (announced_spec b n now Hb Hn) as (p & ok & -> & Hp & Hres). eexists _, _. split; [reflexivity|]. split_and!; [by destruct Hb|done|done].
  - unfold probe_admits. destruct (admits_ok (probe_pool b) 1 now (bo_probe _ Hb)) as (c & -> & Hc). cbn [obind]. pose proof (rf_ok _ _ Hc). eexists _, _. split; [reflexivity|].
    destruct (1 <=? tb_level c); (split_and!; [|done|done]); destruct Hb; split; cbn; auto using commit_ok with lia.
Qed.
Fixpoint spend_all (b : Budgets) (l : list (Spend * Mono)) : outcome E Budgets :=
  match l with [] => Ok b | (x, now) :: l => let? (b, _) := spend b x now in spend_all b l end.
Lemma spend_all_spec l : Forall (fun e => 0 <= spend_size (fst e)) l -> forall b, budgets_ok b -> exists c, spend_all b l = Ok c /\ budgets_ok c /\ sync_reserve c = sync_reserve b.
Proof.
  induction 1 as [|[x now] l Hx _ IH]; intros b Hb; [by exists b|]. cbn [spend_all fst] in *. destruct (announce_spend_spec b x now Hb Hx) as (c & ok & -> & Hc & Hr & _). cbn [obind].
  destruct (IH c Hc) as (d & -> & Hd & Hr'). exists d. split; [done|]. split; [done|congruence].
Qed.
End Spend.

(** A flood cannot starve synchronisation: whatever frames, reads, announced headers and probes other peers cause, nothing
    panics and the sync peer's byte reserve is untouched, so a frame of its that fits the reserve is admitted; and an announced
    header is verified only while the interpreter pool keeps the milliseconds the initial download needs. *)
Theorem flood_spares_sync {E} (b : Budgets) (l : list (Spend * Mono)) (Hb : budgets_ok b) (Hl : Forall (fun e => 0 <= spend_size (fst e)) l) :
  exists c, spend_all (E := E) b l = Ok c /\ budgets_ok c /\
    (forall n now, 0 <= n <= tb_level (sync_reserve b) -> n <= tb_capacity (sync_reserve b) -> exists d, admit_frame (E := E) c n true now = Ok (d, true)) /\
    (forall n now d, 0 <= n -> admit_pow_announced (E := E) c n now = Ok (d, true) -> POW_ANNOUNCE_RESERVE_MS <= tb_level (pow_pool d)).
Proof.
  destruct (spend_all_spec (E := E) l Hl b Hb) as (c & H & Hc & Hr). exists c. split; [done|]. split; [done|]. split.
  - intros n now Hn Hcap. unfold admit_frame. rewrite Hr. unfold tb_admits. destruct (reserve_refill (E := E) (sync_reserve b) n now) as (d & -> & Hd); [apply (bo_reserve _ Hb)|lia|lia|].
    cbn [obind]. rewrite (proj2 (Z.leb_le _ _) Hd). cbn [obind]. eauto.
  - intros n now d Hn H'. destruct (announced_spec (E := E) c n now Hc Hn) as (p & ok & E' & _ & Hp). rewrite H' in E'. injection E' as -> <-. by apply Hp.
Qed.

(** ** Scores *)
(** Far above any score a peer can reach, and low enough that decay does not overflow. *)
Definition SCORE_SAFE : Z := 2 ^ 44.
Definition score_ok (s : Score) : Prop := 0 <= sc_milli s < SCORE_SAFE.
(** The score in thousandths after [e] milliseconds: halved every half-life, falling linearly in between. *)
Definition decay (milli e : Z) : Z :=
  let h := e / SCORE_HALF_LIFE_MS in
  if 63 <=? h then 0 else let v := milli / 2 ^ h in v - v / 2 * (e mod SCORE_HALF_LIFE_MS) / SCORE_HALF_LIFE_MS.
Lemma linear_part v r : 0 <= v -> 0 <= r < SCORE_HALF_LIFE_MS -> 0 <= v / 2 * r / SCORE_HALF_LIFE_MS <= v / 2.
Proof.
  intros Hv Hr. unfold SCORE_HALF_LIFE_MS in *. pose proof (Z.div_pos v 2 Hv ltac:(lia)). split; [apply Z.div_pos; nia|]. apply Z.div_le_upper_bound; nia.
Qed.
Lemma decay_bounds milli e : 0 <= milli -> 0 <= e -> 0 <= decay milli e <= milli.
Proof.
  intros Hm He. unfold decay. cbv zeta. destruct (Z.leb_spec 63 (e / SCORE_HALF_LIFE_MS)); [lia|].
  pose proof (Z.div_pos e SCORE_HALF_LIFE_MS He ltac:(done)) as Hh. set (h := e / _) in *. pose proof (Z.pow_pos_nonneg 2 h ltac:(lia) Hh).
  pose proof (Z.div_pos milli (2 ^ h) Hm ltac:(lia)) as Hv. assert (milli / 2 ^ h <= milli) by (apply Z.div_le_upper_bound; nia).
  pose proof (linear_part (milli / 2 ^ h) (e mod SCORE_HALF_LIFE_MS) Hv (Z.mod_pos_bound e SCORE_HALF_LIFE_MS ltac:(done))) as Hlin.
  pose proof (Z.div_mod (milli / 2 ^ h) 2 ltac:(lia)). pose proof (Z.mod_pos_bound (milli / 2 ^ h) 2 ltac:(lia)). lia.
Qed.
(** Decay never gives points back: it is antitone in time. *)
Lemma decay_antitone milli e e' : 0 <= milli -> 0 <= e <= e' -> decay milli e' <= decay milli e.
Proof.
  intros Hm He. unfold decay. cbv zeta. pose proof (Z.div_le_mono e e' SCORE_HALF_LIFE_MS ltac:(done) ltac:(lia)) as Hh. pose proof (Z.div_pos e SCORE_HALF_LIFE_MS ltac:(lia) ltac:(done)) as H0.
  pose proof (Z.div_mod e SCORE_HALF_LIFE_MS ltac:(done)) as D1. pose proof (Z.div_mod e' SCORE_HALF_LIFE_MS ltac:(done)) as D2.
  pose proof (Z.mod_pos_bound e SCORE_HALF_LIFE_MS ltac:(done)) as R1. pose proof (Z.mod_pos_bound e' SCORE_HALF_LIFE_MS ltac:(done)) as R2.
  set (h := e / _) in *. set (h' := e' / _) in *. set (r := e mod _) in *. set (r' := e' mod _) in *. clearbody h h' r r'.
  pose proof (Z.pow_pos_nonneg 2 h ltac:(lia) H0). pose proof (Z.div_pos milli (2 ^ h) Hm ltac:(lia)) as Hv. pose proof (linear_part _ r Hv R1).
  pose proof (Z.div_mod (milli / 2 ^ h) 2 ltac:(lia)). pose proof (Z.mod_pos_bound (milli / 2 ^ h) 2 ltac:(lia)).
  destruct (Z.leb_spec 63 h'), (Z.leb_spec 63 h); [lia|lia|lia|]. destruct (Z.eq_dec h h') as [<-|Hne].
  - assert (milli / 2 ^ h / 2 * r / SCORE_HALF_LIFE_MS <= milli / 2 ^ h / 2 * r' / SCORE_HALF_LIFE_MS); [|lia]. apply Z.div_le_mono; [done|]. apply Z.mul_le_mono_nonneg_l; [apply Z.div_pos; lia|]. unfold SCORE_HALF_LIFE_MS in *. lia.
  - assert (milli / 2 ^ h' <= milli / 2 ^ h / 2) as Hhalf.
    { rewrite Z.div_div by lia. apply Z.div_le_compat_l; [lia|]. split; [lia|]. replace (2 ^ h * 2) with (2 ^ (h + 1)) by (rewrite Z.pow_add_r by lia; lia). apply Z.pow_le_mono_r; lia. }
    pose proof (Z.pow_pos_nonneg 2 h' ltac:(lia) ltac:(lia)). pose proof (Z.div_pos milli (2 ^ h') Hm ltac:(lia)) as Hv'. pose proof (linear_part _ r' Hv' R2). lia.
Qed.
Lemma decayed_spec {E} s now : score_ok s -> decayed_milli (E := E) s now = Ok (decay (sc_milli s) (Mono_since now (sc_at s))).
Proof.
  intros [H0 H1]. unfold decayed_milli, decay, score_ok, SCORE_SAFE in *. set (e := Mono_since now (sc_at s)). assert (0 <= e) as He by (unfold e, Mono_since; lia). clearbody e. cbv zeta.
  pose proof (Z.div_pos e SCORE_HALF_LIFE_MS He ltac:(done)) as Hh. pose proof (Z.mod_pos_bound e SCORE_HALF_LIFE_MS ltac:(done)) as Hr. set (h := e / _) in *. set (r := e mod _) in *. clearbody h r.
  destruct (Z.eqb_spec (sc_milli s) 0) as [->|Hne]; [destruct (63 <=? h); [done|]; rewrite Zdiv_0_l; done|]. destruct (Z.leb_spec 63 h); [done|]. rewrite Z.shiftr_div_pow2 by lia.
  pose proof (Z.pow_pos_nonneg 2 h ltac:(lia) Hh). pose proof (Z.div_pos (sc_milli s) (2 ^ h) H0 ltac:(lia)) as Hv. assert (sc_milli s / 2 ^ h <= sc_milli s) by (apply Z.div_le_upper_bound; nia).
  pose proof (linear_part _ r Hv Hr). pose proof (Z.div_mod (sc_milli s / 2 ^ h) 2 ltac:(lia)). pose proof (Z.mod_pos_bound (sc_milli s / 2 ^ h) 2 ltac:(lia)).
  set (v := sc_milli s / 2 ^ h) in *. destruct (Z.ltb_spec 0 v), (Z.ltb_spec 0 r); cbn [andb].
  - rewrite mul64_ok by (unfold SCORE_HALF_LIFE_MS in Hr; nia). cbn [obind]. f_equal. lia.
  - replace r with 0 by lia. rewrite Z.mul_0_r, Zdiv_0_l, Z.sub_0_r. done.
  - replace v with 0 by lia. done.
  - replace v with 0 by lia. done.
Qed.
Lemma points_bounds o : 0 <= points o <= 100.
Proof. by destruct o. Qed.

(** Misbehaviour is scored as documented: applying an offence never panics, adds its points to the decayed score, bans
    exactly when the result reaches the threshold (a message before the handshake is banned briefly at once), keeps a
    disqualification from syncing for good, and decay alone never raises a score nor keeps more than half after a half-life. *)
Theorem score_verdict {E} (s : Score) (o : Offence) (now : Mono) (Hs : score_ok s) (Hlow : sc_milli s < SCORE_SAFE - 100000) :
  let v := decay (sc_milli s) (Mono_since now (sc_at s)) in
  exists s' verdict, Score_apply (E := E) s o now = Ok (s', verdict) /\ score_ok s' /\ sc_milli s' = v + 1000 * points o /\ sc_at s' = now /\
    (verdict = VBanShort <-> o = OPreHello) /\ (verdict = VBan <-> o <> OPreHello /\ 1000 * BAN_SCORE <= sc_milli s') /\
    sc_sync_disqualified s' = sc_sync_disqualified s || is_session_sync_disqualifying o /\
    (forall t, now <= t -> 0 <= decay (sc_milli s') (t - now) <= sc_milli s') /\
    decay (sc_milli s') SCORE_HALF_LIFE_MS = sc_milli s' / 2.
Proof.
  intros v. unfold Score_apply. rewrite decayed_spec by done. cbn [obind]. fold v. unfold score_ok in Hs. assert (0 <= v <= sc_milli s) as Hv by (apply decay_bounds; [lia|unfold Mono_since; lia]).
  pose proof (points_bounds o) as Hp. assert (sat64 (v + sat64 (points o * 1000)) = v + 1000 * points o) as -> by (unfold sat64, umax, SCORE_SAFE in *; lia).
  set (m := v + 1000 * points o) in *. assert (0 <= m < SCORE_SAFE) as Hm by lia.
  assert (forall verdict, (verdict = VBanShort <-> o = OPreHello) -> (verdict = VBan <-> o <> OPreHello /\ 1000 * BAN_SCORE <= m) ->
    exists s' verdict', Ok (MkScore m now (if is_session_sync_disqualifying o then true else sc_sync_disqualified s), verdict) = Ok (E := E) (s', verdict') /\ score_ok s' /\ sc_milli s' = m /\ sc_at s' = now /\
    (verdict' = VBanShort <-> o = OPreHello) /\ (verdict' = VBan <-> o <> OPreHello /\ 1000 * BAN_SCORE <= sc_milli s') /\
    sc_sync_disqualified s' = sc_sync_disqualified s || is_session_sync_disqualifying o /\
    (forall t, now <= t -> 0 <= decay (sc_milli s') (t - now) <= sc_milli s') /\ decay (sc_milli s') SCORE_HALF_LIFE_MS = sc_milli s' / 2) as Hfin.
  { intros verdict H1 H2. eexists _, _. split; [reflexivity|]. cbn [sc_milli sc_at sc_sync_disqualified]. split_and!; [done..|by destruct o, (sc_sync_disqualified s)|intros; apply decay_bounds; lia|].
    unfold decay. change (SCORE_HALF_LIFE_MS / SCORE_HALF_LIFE_MS) with 1. change (SCORE_HALF_LIFE_MS mod SCORE_HALF_LIFE_MS) with 0. cbn [Z.leb Z.compare]. rewrite Z.mul_0_r. change (0 / SCORE_HALF_LIFE_MS) with 0. change (2 ^ 1) with 2. change (63 <=? 1) with false. cbv iota zeta. lia. }
  destruct (is_immediate_protocol_ban o) eqn:Eo.
  - apply Hfin; [split; [intros _; by destruct o|done]|]. split; [done|]. intros [H _]. by destruct o.
  - assert (o <> OPreHello) as Hno by (by intros ->). pose proof (Z.div_mod m 1000 ltac:(lia)). pose proof (Z.mod_pos_bound m 1000 ltac:(lia)).
    unfold BAN_SCORE in *. destruct (Z.leb_spec 100 (m / 1000)); apply Hfin; split; try done; intros; (split; [done|lia]) || lia.
Qed.

(** ** Capped maps *)
Record capped {V} (cap : Z) (m : gmap bytes V) (order : list bytes) : Prop := {
  cp_nodup : NoDup order;
  cp_dom : forall k, is_Some (m !! k) <-> k ∈ order;
  cp_len : Zlen order <= cap;
}.
Lemma capped_empty {V} cap : 0 <= cap -> capped cap (∅ : gmap bytes V) [].
Proof. intros H. split; [constructor| |done]. intros k. rewrite lookup_empty. split; [by intros []|by intros ?%not_elem_of_nil]. Qed.
(** Inserting keeps the map within its cap, records the key, and removes at most the oldest other key. *)
Lemma capped_insert_spec {V} cap k (v : V) m order : 1 <= cap -> capped cap m order ->
  let '(m', order', evicted) := capped_insert cap k v m order in
  capped cap m' order' /\ m' !! k = Some v /\
  (forall j, j <> k -> m' !! j = if evicted && bool_decide (head order = Some j) then None else m !! j).
Proof.
  intros Hcap [Hnd Hdom Hlen]. unfold capped_insert. destruct (m !! k) as [x|] eqn:Ek.
  - split; [|split; [apply lookup_insert_eq|intros j Hj; by rewrite lookup_insert_ne]]. split; [done| |done]. intros j. rewrite <-Hdom. destruct (decide (j = k)) as [->|Hne].
    + rewrite lookup_insert_eq, Ek. split; eauto.
    + by rewrite lookup_insert_ne.
  - assert (k ∉ order) as Hk by (rewrite <-Hdom, Ek; by intros []).
    assert (NoDup (order ++ [k])) as Hnd' by (apply list.NoDup_app; split_and!; [done|intros y Hy ->%list_elem_of_singleton; done|apply NoDup_singleton]).
    assert (forall j, is_Some (<[k := v]> m !! j) <-> j ∈ order ++ [k]) as Hdom'.
    { intros j. rewrite elem_of_app, list_elem_of_singleton, <-Hdom. destruct (decide (j = k)) as [->|Hne]; [rewrite lookup_insert_eq; split; eauto|]. rewrite lookup_insert_ne by done. split; [by left|by intros [?|?]]. }
    destruct (Z.ltb_spec cap (Zlen (order ++ [k]))) as [Hbig|Hsmall].
    + rewrite Zlen_app in Hbig. change (Zlen [k]) with 1 in Hbig. destruct order as [|o order]; [change (Zlen (@nil bytes)) with 0 in *; lia|]. cbn [app head]. cbn [app] in Hnd', Hdom'.
      apply list.NoDup_cons in Hnd' as [Ho Hnd']. assert (o <> k) as Hok by (intros ->; apply Hk; left). split.
      * split; [done| |rewrite Zlen_cons in Hlen; rewrite Zlen_app; change (Zlen [k]) with 1; lia]. intros j. destruct (decide (j = o)) as [->|Hne]; [rewrite lookup_delete_eq; split; [by intros []|done]|].
        rewrite lookup_delete_ne, Hdom', elem_of_cons by done. split; [by intros [?|?]|by right].
      * split; [by rewrite lookup_delete_ne, lookup_insert_eq|]. intros j Hj. cbn [andb]. destruct (bool_decide_reflect (Some o = Some j)) as [[= ->]|Hne]; [by rewrite lookup_delete_eq|].
        rewrite lookup_delete_ne, lookup_insert_ne by congruence. done.
    + split; [by split|]. split; [apply lookup_insert_eq|]. intros j Hj. by rewrite lookup_insert_ne.
Qed.

(** ** The ban list *)
Record banlist_ok (b : BanList) : Prop := {
  bn_capped : capped BANLIST_MAX (bl_entries b) (bl_order b);
  bn_white : forall ip, ip ∈ bl_whitelist b -> bl_entries b !! ip = None;
}.
Lemma bl_sweep_ok b now : banlist_ok b -> banlist_ok (bl_sweep b now) /\ bl_whitelist (bl_sweep b now) = bl_whitelist b /\
  forall ip t, now <= t -> is_banned (bl_sweep b now) ip t = is_banned b ip t.
Proof.
  intros [[Hnd Hdom Hlen] Hw]. unfold bl_sweep. cbv zeta. set (live := filter _ (bl_entries b)).
  assert (forall ip (t : Mono), live !! ip = Some t <-> bl_entries b !! ip = Some t /\ now < t) as Hlive by (intros ip t; unfold live; rewrite map_lookup_filter_Some; done).
  split; [split|split; [done|]]; cbn [bl_entries bl_order bl_whitelist].
  - split; [by apply list.NoDup_filter| |].
    + intros ip. rewrite list_elem_of_filter. split; [|tauto]. intros [t Ht]. split; [eauto|]. apply Hdom. apply Hlive in Ht as [Ht _]. eauto.
    + etransitivity; [|exact Hlen]. unfold Zlen. apply inj_le, length_filter.
  - intros ip Hip. destruct (live !! ip) as [t|] eqn:E; [|done]. apply Hlive in E as [E _]. specialize (Hw ip Hip). congruence.
  - intros ip t Ht. unfold is_banned. cbn [bl_entries]. destruct (live !! ip) as [u|] eqn:E.
    + apply Hlive in E as [-> _]. done.
    + destruct (bl_entries b !! ip) as [u|] eqn:E'; [|done]. destruct (Z.ltb_spec t u) as [Hlt|]; [|done]. assert (live !! ip = Some u) as H' by (apply Hlive; split; [done|lia]). congruence.
Qed.
Inductive BanOp := BanAdd (ip : bytes) (now : Mono) (dur : Z) | BanSweep (now : Mono).
Definition ban_step (b : BanList) (o : BanOp) : BanList := match o with BanAdd ip now dur => bl_ban b ip now dur | BanSweep now => bl_sweep b now end.
Lemma bl_ban_ok b ip now dur : banlist_ok b -> banlist_ok (bl_ban b ip now dur) /\ bl_whitelist (bl_ban b ip now dur) = bl_whitelist b.
Proof.
  intros [Hc Hw]. unfold bl_ban. destruct (bool_decide_reflect (ip ∈ bl_whitelist b)) as [|Hn]; [done|].
  pose proof (capped_insert_spec BANLIST_MAX ip (Mono_plus_ms now dur) (bl_entries b) (bl_order b) ltac:(done) Hc) as H. destruct (capped_insert _ _ _ _ _) as [[m order] ev]. destruct H as (H1 & _ & H3).
  split; [|done]. split; [done|]. cbn. intros j Hj. rewrite H3 by congruence. rewrite (Hw j Hj). by destruct (_ && _).
Qed.
Lemma ban_run_ok ops : forall b, banlist_ok b -> banlist_ok (fold_left ban_step ops b) /\ bl_whitelist (fold_left ban_step ops b) = bl_whitelist b.
Proof.
  induction ops as [|o ops IH]; intros b Hb; [done|]. cbn [fold_left]. assert (banlist_ok (ban_step b o) /\ bl_whitelist (ban_step b o) = bl_whitelist b) as [H1 H2].
  { destruct o; [by apply bl_ban_ok|]. destruct (bl_sweep_ok b now Hb) as (? & ? & _). done. }
  rewrite <-H2. by apply IH.
Qed.

(** The ban list does its job in bounded memory: after any bans and sweeps it lists each banned address once, holds at most
    its cap, and never a whitelisted address; a new ban holds until its time and displaces at most the oldest ban; a sweep
    forgets no ban that still runs. *)
Theorem banlist_bounded (whitelist : list bytes) (ops : list BanOp) (ip : bytes) (now : Mono) (dur : Z) (Hip : ip ∉ whitelist) :
  let b := fold_left ban_step ops (BanList_new whitelist) in
  bl_len b <= BANLIST_MAX /\ NoDup (bl_order b) /\ (forall j t, j ∈ whitelist -> is_banned b j t = false) /\
  (forall t, is_banned (bl_ban b ip now dur) ip t = (t <? Mono_plus_ms now dur)) /\
  (forall j t, j <> ip -> is_banned (bl_ban b ip now dur) j t = is_banned b j t \/ head (bl_order b) = Some j) /\
  (forall j t, now <= t -> is_banned (bl_sweep b now) j t = is_banned b j t).
Proof.
  assert (banlist_ok (BanList_new whitelist)) as H0 by (split; [by apply capped_empty|done]).
  destruct (ban_run_ok ops (BanList_new whitelist) H0) as [Hb Hwl]. change (bl_whitelist (BanList_new whitelist)) with whitelist in Hwl.
  cbv zeta. set (b := fold_left ban_step ops (BanList_new whitelist)) in *. clearbody b. destruct Hb as [Hc Hw]. pose proof Hc as [Hnd Hdom Hlen]. split_and!.
  - unfold bl_len. rewrite <-size_dom. replace (dom (bl_entries b)) with (list_to_set (C := gset bytes) (bl_order b)); [|apply set_eq; intros k; by rewrite elem_of_dom, elem_of_list_to_set, Hdom].
    rewrite size_list_to_set by done. exact Hlen.
  - done.
  - intros j t Hj. unfold is_banned. by rewrite Hw by congruence.
  - pose proof (capped_insert_spec BANLIST_MAX ip (Mono_plus_ms now dur) (bl_entries b) (bl_order b) ltac:(done) Hc) as H. intros t. unfold bl_ban, is_banned. rewrite Hwl.
    destruct (bool_decide_reflect (ip ∈ whitelist)); [done|]. destruct (capped_insert _ _ _ _ _) as [[m order] ev]. cbn. by rewrite (proj1 (proj2 H)).
  - pose proof (capped_insert_spec BANLIST_MAX ip (Mono_plus_ms now dur) (bl_entries b) (bl_order b) ltac:(done) Hc) as H. intros j t Hj. unfold bl_ban, is_banned. rewrite Hwl.
    destruct (bool_decide_reflect (ip ∈ whitelist)); [done|]. destruct (capped_insert _ _ _ _ _) as [[m order] ev]. cbn. rewrite (proj2 (proj2 H) j Hj). destruct ev; cbn [andb]; [|by left].
    case_bool_decide; [by right|by left].
  - by apply bl_sweep_ok.
Qed.

(** ** The inbox *)
Definition inbox_ok (i : Inbox) : Prop := 0 <= ib_used i <= ib_cap i /\ ib_cap i = INBOX_BYTES.
Inductive InboxOp := IAccept (n : Z) (now : Mono) | IConsume (n : Z) (now : Mono) | IPause (c : PauseCause) (now : Mono) | IUnpause (now : Mono).
Definition inbox_op_ok (o : InboxOp) : Prop := match o with IAccept n _ | IConsume n _ => 0 <= n < 2 ^ 63 | _ => True end.
Section InboxRun.
Context {E : Type}.
Definition inbox_step (i : Inbox) (o : InboxOp) : outcome E Inbox :=
  match o with
  | IAccept n now => let? (i, _) := ib_accept i n now in Ok i
  | IConsume n now => ib_consume i n now
  | IPause c now => Ok (ib_pause i c now)
  | IUnpause now => Ok (ib_unpause i now)
  end.
Lemma ib_unpause_keeps i now : ib_used (ib_unpause i now) = ib_used i /\ ib_cap (ib_unpause i now) = ib_cap i.
Proof. unfold ib_unpause. by destruct (ib_paused i) as [[??]|]. Qed.
Lemma inbox_step_ok i o : inbox_ok i -> inbox_op_ok o -> exists i', inbox_step i o = Ok i' /\ inbox_ok i'.
Proof.
  intros [Hu Hc] Ho. unfold inbox_ok. destruct o as [n now|n now|c now|now]; cbn [inbox_step inbox_op_ok] in *; unfold INBOX_BYTES in *.
  - unfold ib_accept. rewrite add64_ok by lia. cbn [obind]. destruct (Z.ltb_spec (ib_cap i) (ib_used i + n)); cbn [obind]; eexists; (split; [reflexivity|]); [by cbn|]. cbn [ib_used ib_cap].
    destruct (_ =? _); cbn; lia.
  - unfold ib_consume. cbn [ib_used ib_cap ib_paused]. rewrite mul64_ok by lia. cbn [obind]. eexists. split; [reflexivity|].
    destruct (_ <? _); [|cbn; lia]. destruct (ib_paused i) as [[[] since]|]; cbn; lia.
  - eexists. split; [reflexivity|]. by cbn.
  - eexists. split; [reflexivity|]. destruct (ib_unpause_keeps i now) as [-> ->]. done.
Qed.
(** The inbox never holds more than its cap, whatever a peer sends and however reading is paused. *)
Lemma inbox_bounded ops : Forall inbox_op_ok ops -> forall i, inbox_ok i -> exists i', ofold inbox_step i ops = Ok i' /\ inbox_ok i'.
Proof. induction 1 as [|o ops Ho _ IH]; intros i Hi; [by exists i|]. cbn [ofold]. destruct (inbox_step_ok i o Hi Ho) as (i' & -> & Hi'). by apply IH. Qed.
End InboxRun.

(** ** Witnesses *)
Definition sample_bucket : TokenBucket := TokenBucket_new INV_PROBE_GLOBAL_BURST INV_PROBE_GLOBAL_PER_SEC 0.
Lemma sample_bucket_ok : bucket_ok sample_bucket.
Proof. by repeat split. Qed.
Lemma bucket_keeps_rate_witness : exists b' sum, take_all (E := unit) sample_bucket [(40, 0); (40, 10); (40, 2000)] = Ok (b', sum) /\ bucket_ok b' /\ 1000 * sum <= 1000 * 64 + 16 * 2000.
Proof. apply (bucket_keeps_rate sample_bucket [(40, 0); (40, 10); (40, 2000)]); [apply sample_bucket_ok|]. repeat constructor; cbn; lia. Defined.
(** Sixty-four probes at once empty the node's probe pool; asked every 60 ms from then on, it stays empty. *)
Lemma frequent_polls_starve_witness : exists b' sum, take_all (E := unit) sample_bucket [(64, 0); (1, 60); (1, 120); (1, 180)] = Ok (b', sum) /\ tb_level b' + sum = 64.
Proof.
  apply (frequent_polls_starve sample_bucket [(64, 0); (1, 60); (1, 120); (1, 180)]); [apply sample_bucket_ok|done| |vm_compute; intuition discriminate].
  repeat constructor; cbn; lia.
Defined.
Lemma flood_spares_sync_witness : exists c, spend_all (E := unit) (Budgets_new 0) [(SFrame 1000000, 1); (SAnnounced 50, 2); (SProbe, 3)] = Ok c /\ budgets_ok c /\
  (forall n now, 0 <= n <= SYNC_PEER_RESERVE_BYTES_PER_SEC -> n <= SYNC_PEER_RESERVE_BYTES_PER_SEC -> exists d, admit_frame (E := unit) c n true now = Ok (d, true)) /\
  (forall n now d, 0 <= n -> admit_pow_announced (E := unit) c n now = Ok (d, true) -> POW_ANNOUNCE_RESERVE_MS <= tb_level (pow_pool d)).
Proof. apply (flood_spares_sync (Budgets_new 0)); [apply Budgets_new_ok|]. repeat constructor; cbn; lia. Defined.
Lemma score_verdict_witness : exists s' verdict, Score_apply (E := unit) (MkScore 90000 0 false) OUnknownCmd 600000 = Ok (s', verdict) /\ score_ok s' /\ sc_milli s' = 65000 /\ sc_at s' = 600000 /\
    (verdict = VBanShort <-> OUnknownCmd = OPreHello) /\ (verdict = VBan <-> OUnknownCmd <> OPreHello /\ 1000 * BAN_SCORE <= sc_milli s') /\
    sc_sync_disqualified s' = false /\ (forall t, 600000 <= t -> 0 <= decay (sc_milli s') (t - 600000) <= sc_milli s') /\ decay (sc_milli s') SCORE_HALF_LIFE_MS = sc_milli s' / 2.
Proof. apply (score_verdict (MkScore 90000 0 false) OUnknownCmd 600000); [split; reflexivity || discriminate|reflexivity]. Defined.
Definition ip1 : bytes := replicate 16 1.
Definition ip2 : bytes := replicate 16 2.
Lemma banlist_bounded_witness : (ip1 ∉ [ip2]) /\ forall t, is_banned (bl_ban (fold_left ban_step [BanAdd ip2 5 100] (BanList_new [ip2])) ip1 10 100) ip1 t = (t <? 110).
Proof.
  assert (ip1 ∉ [ip2]) as H by (apply (bool_decide_eq_true_1 (ip1 ∉ [ip2])); vm_compute; reflexivity). split; [exact H|].
  apply (banlist_bounded [ip2] [BanAdd ip2 5 100] ip1 10 100 H).
Defined.
