(* ===== verification/P2pSession.v ===== *)
(** A peer's session (src/lib/p2p/src/peer/session.rs): everything the node remembers about one connection, and
    what it decides from it: probing, delivery rates, eligibility to sync, pauses and checkpoint admission. *)

From Stdlib Require Import ZArith Lia List.
From stdpp Require Import base gmap list numbers.
From S2P Require Import Prelude Constants P2pConstants P2pWire P2pPeer P2pPeerProps.
Import ListNotations.
Open Scope Z_scope.

Inductive CheckpointAdmit := CAAccept | CADuplicate | CAOverRate.
Inductive PeerState := Dialing | Handshaking | Ready | Paused | Draining | Dead.
#[global] Instance peer_state_eq_dec : EqDecision PeerState.
Proof. solve_decision. Defined.
#[global] Instance pause_cause_eq_dec : EqDecision PauseCause.
Proof. solve_decision. Defined.
Record PeerRole := MkPeerRole { pr_sync_peer : bool; pr_body_supplier : bool; pr_feeler : bool }.
Definition PeerRole_default : PeerRole := MkPeerRole false false false.
Record Session := MkSession {
  ss_id : Z; ss_ip : bytes; ss_group : bytes; ss_outbound : bool; ss_whitelisted : bool; ss_state : PeerState; ss_role : PeerRole;
  ss_connected_at : Mono; ss_last_recv : Mono; ss_ping_sent : option Mono; ss_claimed_height : Z; ss_claimed_work : bytes;
  ss_claimed_tip : bytes; ss_services : Z; ss_score : Score; ss_inbox : Inbox; ss_pow_budget : TokenBucket; ss_verified_delivered : Z;
  ss_delivery_window_start : Mono; ss_headers_delivered_total : Z; ss_bodies_delivered_total : Z; ss_bodies_requested_total : Z;
  ss_body_misses : Z; ss_sync_ineligible_until : option Mono; ss_body_slot_lost_until : option Mono; ss_headers_only : bool;
  ss_last_penalised : option Mono; ss_last_getcheckpoint : option Mono; ss_last_getcheckpoint_in : option Mono; ss_checkpoints_in : Z;
  ss_checkpoint_window : option Mono; ss_checkpoint_seen : list (Z * bytes); ss_last_probe : option Mono; ss_solicited_until : option Mono;
  ss_disc_batches : Z; ss_disc_batches_since : Mono; ss_dup_inv : Z; ss_dup_inv_since : Mono; ss_announced_to_us : option bytes;
  ss_announced_to_them : option bytes; ss_last_inv_sent : option Mono; ss_inv_repeats : Z }.
Definition set_state (x : PeerState) (s : Session) : Session :=
  MkSession (ss_id s) (ss_ip s) (ss_group s) (ss_outbound s) (ss_whitelisted s) x (ss_role s) (ss_connected_at s) (ss_last_recv s)
    (ss_ping_sent s) (ss_claimed_height s) (ss_claimed_work s) (ss_claimed_tip s) (ss_services s) (ss_score s) (ss_inbox s)
    (ss_pow_budget s) (ss_verified_delivered s) (ss_delivery_window_start s) (ss_headers_delivered_total s) (ss_bodies_delivered_total s)
    (ss_bodies_requested_total s) (ss_body_misses s) (ss_sync_ineligible_until s) (ss_body_slot_lost_until s) (ss_headers_only s)
    (ss_last_penalised s) (ss_last_getcheckpoint s) (ss_last_getcheckpoint_in s) (ss_checkpoints_in s) (ss_checkpoint_window s)
    (ss_checkpoint_seen s) (ss_last_probe s) (ss_solicited_until s) (ss_disc_batches s) (ss_disc_batches_since s) (ss_dup_inv s)
    (ss_dup_inv_since s) (ss_announced_to_us s) (ss_announced_to_them s) (ss_last_inv_sent s) (ss_inv_repeats s).
Definition set_score (x : Score) (s : Session) : Session :=
  MkSession (ss_id s) (ss_ip s) (ss_group s) (ss_outbound s) (ss_whitelisted s) (ss_state s) (ss_role s) (ss_connected_at s)
    (ss_last_recv s) (ss_ping_sent s) (ss_claimed_height s) (ss_claimed_work s) (ss_claimed_tip s) (ss_services s) x (ss_inbox s)
    (ss_pow_budget s) (ss_verified_delivered s) (ss_delivery_window_start s) (ss_headers_delivered_total s) (ss_bodies_delivered_total s)
    (ss_bodies_requested_total s) (ss_body_misses s) (ss_sync_ineligible_until s) (ss_body_slot_lost_until s) (ss_headers_only s)
    (ss_last_penalised s) (ss_last_getcheckpoint s) (ss_last_getcheckpoint_in s) (ss_checkpoints_in s) (ss_checkpoint_window s)
    (ss_checkpoint_seen s) (ss_last_probe s) (ss_solicited_until s) (ss_disc_batches s) (ss_disc_batches_since s) (ss_dup_inv s)
    (ss_dup_inv_since s) (ss_announced_to_us s) (ss_announced_to_them s) (ss_last_inv_sent s) (ss_inv_repeats s).
Definition set_inbox (x : Inbox) (s : Session) : Session :=
  MkSession (ss_id s) (ss_ip s) (ss_group s) (ss_outbound s) (ss_whitelisted s) (ss_state s) (ss_role s) (ss_connected_at s)
    (ss_last_recv s) (ss_ping_sent s) (ss_claimed_height s) (ss_claimed_work s) (ss_claimed_tip s) (ss_services s) (ss_score s) x
    (ss_pow_budget s) (ss_verified_delivered s) (ss_delivery_window_start s) (ss_headers_delivered_total s) (ss_bodies_delivered_total s)
    (ss_bodies_requested_total s) (ss_body_misses s) (ss_sync_ineligible_until s) (ss_body_slot_lost_until s) (ss_headers_only s)
    (ss_last_penalised s) (ss_last_getcheckpoint s) (ss_last_getcheckpoint_in s) (ss_checkpoints_in s) (ss_checkpoint_window s)
    (ss_checkpoint_seen s) (ss_last_probe s) (ss_solicited_until s) (ss_disc_batches s) (ss_disc_batches_since s) (ss_dup_inv s)
    (ss_dup_inv_since s) (ss_announced_to_us s) (ss_announced_to_them s) (ss_last_inv_sent s) (ss_inv_repeats s).
Definition set_verified_delivered (x : Z) (s : Session) : Session :=
  MkSession (ss_id s) (ss_ip s) (ss_group s) (ss_outbound s) (ss_whitelisted s) (ss_state s) (ss_role s) (ss_connected_at s)
    (ss_last_recv s) (ss_ping_sent s) (ss_claimed_height s) (ss_claimed_work s) (ss_claimed_tip s) (ss_services s) (ss_score s) (ss_inbox s)
    (ss_pow_budget s) x (ss_delivery_window_start s) (ss_headers_delivered_total s) (ss_bodies_delivered_total s)
    (ss_bodies_requested_total s) (ss_body_misses s) (ss_sync_ineligible_until s) (ss_body_slot_lost_until s) (ss_headers_only s)
    (ss_last_penalised s) (ss_last_getcheckpoint s) (ss_last_getcheckpoint_in s) (ss_checkpoints_in s) (ss_checkpoint_window s)
    (ss_checkpoint_seen s) (ss_last_probe s) (ss_solicited_until s) (ss_disc_batches s) (ss_disc_batches_since s) (ss_dup_inv s)
    (ss_dup_inv_since s) (ss_announced_to_us s) (ss_announced_to_them s) (ss_last_inv_sent s) (ss_inv_repeats s).
Definition set_delivery_window_start (x : Mono) (s : Session) : Session :=
  MkSession (ss_id s) (ss_ip s) (ss_group s) (ss_outbound s) (ss_whitelisted s) (ss_state s) (ss_role s) (ss_connected_at s)
    (ss_last_recv s) (ss_ping_sent s) (ss_claimed_height s) (ss_claimed_work s) (ss_claimed_tip s) (ss_services s) (ss_score s) (ss_inbox s)
    (ss_pow_budget s) (ss_verified_delivered s) x (ss_headers_delivered_total s) (ss_bodies_delivered_total s) (ss_bodies_requested_total s)
    (ss_body_misses s) (ss_sync_ineligible_until s) (ss_body_slot_lost_until s) (ss_headers_only s) (ss_last_penalised s)
    (ss_last_getcheckpoint s) (ss_last_getcheckpoint_in s) (ss_checkpoints_in s) (ss_checkpoint_window s) (ss_checkpoint_seen s)
    (ss_last_probe s) (ss_solicited_until s) (ss_disc_batches s) (ss_disc_batches_since s) (ss_dup_inv s) (ss_dup_inv_since s)
    (ss_announced_to_us s) (ss_announced_to_them s) (ss_last_inv_sent s) (ss_inv_repeats s).
Definition set_headers_delivered_total (x : Z) (s : Session) : Session :=
  MkSession (ss_id s) (ss_ip s) (ss_group s) (ss_outbound s) (ss_whitelisted s) (ss_state s) (ss_role s) (ss_connected_at s)
    (ss_last_recv s) (ss_ping_sent s) (ss_claimed_height s) (ss_claimed_work s) (ss_claimed_tip s) (ss_services s) (ss_score s) (ss_inbox s)
    (ss_pow_budget s) (ss_verified_delivered s) (ss_delivery_window_start s) x (ss_bodies_delivered_total s) (ss_bodies_requested_total s)
    (ss_body_misses s) (ss_sync_ineligible_until s) (ss_body_slot_lost_until s) (ss_headers_only s) (ss_last_penalised s)
    (ss_last_getcheckpoint s) (ss_last_getcheckpoint_in s) (ss_checkpoints_in s) (ss_checkpoint_window s) (ss_checkpoint_seen s)
    (ss_last_probe s) (ss_solicited_until s) (ss_disc_batches s) (ss_disc_batches_since s) (ss_dup_inv s) (ss_dup_inv_since s)
    (ss_announced_to_us s) (ss_announced_to_them s) (ss_last_inv_sent s) (ss_inv_repeats s).
Definition set_bodies_delivered_total (x : Z) (s : Session) : Session :=
  MkSession (ss_id s) (ss_ip s) (ss_group s) (ss_outbound s) (ss_whitelisted s) (ss_state s) (ss_role s) (ss_connected_at s)
    (ss_last_recv s) (ss_ping_sent s) (ss_claimed_height s) (ss_claimed_work s) (ss_claimed_tip s) (ss_services s) (ss_score s) (ss_inbox s)
    (ss_pow_budget s) (ss_verified_delivered s) (ss_delivery_window_start s) (ss_headers_delivered_total s) x (ss_bodies_requested_total s)
    (ss_body_misses s) (ss_sync_ineligible_until s) (ss_body_slot_lost_until s) (ss_headers_only s) (ss_last_penalised s)
    (ss_last_getcheckpoint s) (ss_last_getcheckpoint_in s) (ss_checkpoints_in s) (ss_checkpoint_window s) (ss_checkpoint_seen s)
    (ss_last_probe s) (ss_solicited_until s) (ss_disc_batches s) (ss_disc_batches_since s) (ss_dup_inv s) (ss_dup_inv_since s)
    (ss_announced_to_us s) (ss_announced_to_them s) (ss_last_inv_sent s) (ss_inv_repeats s).
Definition set_body_misses (x : Z) (s : Session) : Session :=
  MkSession (ss_id s) (ss_ip s) (ss_group s) (ss_outbound s) (ss_whitelisted s) (ss_state s) (ss_role s) (ss_connected_at s)
    (ss_last_recv s) (ss_ping_sent s) (ss_claimed_height s) (ss_claimed_work s) (ss_claimed_tip s) (ss_services s) (ss_score s) (ss_inbox s)
    (ss_pow_budget s) (ss_verified_delivered s) (ss_delivery_window_start s) (ss_headers_delivered_total s) (ss_bodies_delivered_total s)
    (ss_bodies_requested_total s) x (ss_sync_ineligible_until s) (ss_body_slot_lost_until s) (ss_headers_only s) (ss_last_penalised s)
    (ss_last_getcheckpoint s) (ss_last_getcheckpoint_in s) (ss_checkpoints_in s) (ss_checkpoint_window s) (ss_checkpoint_seen s)
    (ss_last_probe s) (ss_solicited_until s) (ss_disc_batches s) (ss_disc_batches_since s) (ss_dup_inv s) (ss_dup_inv_since s)
    (ss_announced_to_us s) (ss_announced_to_them s) (ss_last_inv_sent s) (ss_inv_repeats s).
Definition set_headers_only (x : bool) (s : Session) : Session :=
  MkSession (ss_id s) (ss_ip s) (ss_group s) (ss_outbound s) (ss_whitelisted s) (ss_state s) (ss_role s) (ss_connected_at s)
    (ss_last_recv s) (ss_ping_sent s) (ss_claimed_height s) (ss_claimed_work s) (ss_claimed_tip s) (ss_services s) (ss_score s) (ss_inbox s)
    (ss_pow_budget s) (ss_verified_delivered s) (ss_delivery_window_start s) (ss_headers_delivered_total s) (ss_bodies_delivered_total s)
    (ss_bodies_requested_total s) (ss_body_misses s) (ss_sync_ineligible_until s) (ss_body_slot_lost_until s) x (ss_last_penalised s)
    (ss_last_getcheckpoint s) (ss_last_getcheckpoint_in s) (ss_checkpoints_in s) (ss_checkpoint_window s) (ss_checkpoint_seen s)
    (ss_last_probe s) (ss_solicited_until s) (ss_disc_batches s) (ss_disc_batches_since s) (ss_dup_inv s) (ss_dup_inv_since s)
    (ss_announced_to_us s) (ss_announced_to_them s) (ss_last_inv_sent s) (ss_inv_repeats s).
Definition set_last_penalised (x : option Mono) (s : Session) : Session :=
  MkSession (ss_id s) (ss_ip s) (ss_group s) (ss_outbound s) (ss_whitelisted s) (ss_state s) (ss_role s) (ss_connected_at s)
    (ss_last_recv s) (ss_ping_sent s) (ss_claimed_height s) (ss_claimed_work s) (ss_claimed_tip s) (ss_services s) (ss_score s) (ss_inbox s)
    (ss_pow_budget s) (ss_verified_delivered s) (ss_delivery_window_start s) (ss_headers_delivered_total s) (ss_bodies_delivered_total s)
    (ss_bodies_requested_total s) (ss_body_misses s) (ss_sync_ineligible_until s) (ss_body_slot_lost_until s) (ss_headers_only s) x
    (ss_last_getcheckpoint s) (ss_last_getcheckpoint_in s) (ss_checkpoints_in s) (ss_checkpoint_window s) (ss_checkpoint_seen s)
    (ss_last_probe s) (ss_solicited_until s) (ss_disc_batches s) (ss_disc_batches_since s) (ss_dup_inv s) (ss_dup_inv_since s)
    (ss_announced_to_us s) (ss_announced_to_them s) (ss_last_inv_sent s) (ss_inv_repeats s).
Definition set_last_getcheckpoint_in (x : option Mono) (s : Session) : Session :=
  MkSession (ss_id s) (ss_ip s) (ss_group s) (ss_outbound s) (ss_whitelisted s) (ss_state s) (ss_role s) (ss_connected_at s)
    (ss_last_recv s) (ss_ping_sent s) (ss_claimed_height s) (ss_claimed_work s) (ss_claimed_tip s) (ss_services s) (ss_score s) (ss_inbox s)
    (ss_pow_budget s) (ss_verified_delivered s) (ss_delivery_window_start s) (ss_headers_delivered_total s) (ss_bodies_delivered_total s)
    (ss_bodies_requested_total s) (ss_body_misses s) (ss_sync_ineligible_until s) (ss_body_slot_lost_until s) (ss_headers_only s)
    (ss_last_penalised s) (ss_last_getcheckpoint s) x (ss_checkpoints_in s) (ss_checkpoint_window s) (ss_checkpoint_seen s)
    (ss_last_probe s) (ss_solicited_until s) (ss_disc_batches s) (ss_disc_batches_since s) (ss_dup_inv s) (ss_dup_inv_since s)
    (ss_announced_to_us s) (ss_announced_to_them s) (ss_last_inv_sent s) (ss_inv_repeats s).
Definition set_checkpoints_in (x : Z) (s : Session) : Session :=
  MkSession (ss_id s) (ss_ip s) (ss_group s) (ss_outbound s) (ss_whitelisted s) (ss_state s) (ss_role s) (ss_connected_at s)
    (ss_last_recv s) (ss_ping_sent s) (ss_claimed_height s) (ss_claimed_work s) (ss_claimed_tip s) (ss_services s) (ss_score s) (ss_inbox s)
    (ss_pow_budget s) (ss_verified_delivered s) (ss_delivery_window_start s) (ss_headers_delivered_total s) (ss_bodies_delivered_total s)
    (ss_bodies_requested_total s) (ss_body_misses s) (ss_sync_ineligible_until s) (ss_body_slot_lost_until s) (ss_headers_only s)
    (ss_last_penalised s) (ss_last_getcheckpoint s) (ss_last_getcheckpoint_in s) x (ss_checkpoint_window s) (ss_checkpoint_seen s)
    (ss_last_probe s) (ss_solicited_until s) (ss_disc_batches s) (ss_disc_batches_since s) (ss_dup_inv s) (ss_dup_inv_since s)
    (ss_announced_to_us s) (ss_announced_to_them s) (ss_last_inv_sent s) (ss_inv_repeats s).
Definition set_checkpoint_window (x : option Mono) (s : Session) : Session :=
  MkSession (ss_id s) (ss_ip s) (ss_group s) (ss_outbound s) (ss_whitelisted s) (ss_state s) (ss_role s) (ss_connected_at s)
    (ss_last_recv s) (ss_ping_sent s) (ss_claimed_height s) (ss_claimed_work s) (ss_claimed_tip s) (ss_services s) (ss_score s) (ss_inbox s)
    (ss_pow_budget s) (ss_verified_delivered s) (ss_delivery_window_start s) (ss_headers_delivered_total s) (ss_bodies_delivered_total s)
    (ss_bodies_requested_total s) (ss_body_misses s) (ss_sync_ineligible_until s) (ss_body_slot_lost_until s) (ss_headers_only s)
    (ss_last_penalised s) (ss_last_getcheckpoint s) (ss_last_getcheckpoint_in s) (ss_checkpoints_in s) x (ss_checkpoint_seen s)
    (ss_last_probe s) (ss_solicited_until s) (ss_disc_batches s) (ss_disc_batches_since s) (ss_dup_inv s) (ss_dup_inv_since s)
    (ss_announced_to_us s) (ss_announced_to_them s) (ss_last_inv_sent s) (ss_inv_repeats s).
Definition set_checkpoint_seen (x : list (Z * bytes)) (s : Session) : Session :=
  MkSession (ss_id s) (ss_ip s) (ss_group s) (ss_outbound s) (ss_whitelisted s) (ss_state s) (ss_role s) (ss_connected_at s)
    (ss_last_recv s) (ss_ping_sent s) (ss_claimed_height s) (ss_claimed_work s) (ss_claimed_tip s) (ss_services s) (ss_score s) (ss_inbox s)
    (ss_pow_budget s) (ss_verified_delivered s) (ss_delivery_window_start s) (ss_headers_delivered_total s) (ss_bodies_delivered_total s)
    (ss_bodies_requested_total s) (ss_body_misses s) (ss_sync_ineligible_until s) (ss_body_slot_lost_until s) (ss_headers_only s)
    (ss_last_penalised s) (ss_last_getcheckpoint s) (ss_last_getcheckpoint_in s) (ss_checkpoints_in s) (ss_checkpoint_window s) x
    (ss_last_probe s) (ss_solicited_until s) (ss_disc_batches s) (ss_disc_batches_since s) (ss_dup_inv s) (ss_dup_inv_since s)
    (ss_announced_to_us s) (ss_announced_to_them s) (ss_last_inv_sent s) (ss_inv_repeats s).
Definition set_last_probe (x : option Mono) (s : Session) : Session :=
  MkSession (ss_id s) (ss_ip s) (ss_group s) (ss_outbound s) (ss_whitelisted s) (ss_state s) (ss_role s) (ss_connected_at s)
    (ss_last_recv s) (ss_ping_sent s) (ss_claimed_height s) (ss_claimed_work s) (ss_claimed_tip s) (ss_services s) (ss_score s) (ss_inbox s)
    (ss_pow_budget s) (ss_verified_delivered s) (ss_delivery_window_start s) (ss_headers_delivered_total s) (ss_bodies_delivered_total s)
    (ss_bodies_requested_total s) (ss_body_misses s) (ss_sync_ineligible_until s) (ss_body_slot_lost_until s) (ss_headers_only s)
    (ss_last_penalised s) (ss_last_getcheckpoint s) (ss_last_getcheckpoint_in s) (ss_checkpoints_in s) (ss_checkpoint_window s)
    (ss_checkpoint_seen s) x (ss_solicited_until s) (ss_disc_batches s) (ss_disc_batches_since s) (ss_dup_inv s) (ss_dup_inv_since s)
    (ss_announced_to_us s) (ss_announced_to_them s) (ss_last_inv_sent s) (ss_inv_repeats s).
Definition set_solicited_until (x : option Mono) (s : Session) : Session :=
  MkSession (ss_id s) (ss_ip s) (ss_group s) (ss_outbound s) (ss_whitelisted s) (ss_state s) (ss_role s) (ss_connected_at s)
    (ss_last_recv s) (ss_ping_sent s) (ss_claimed_height s) (ss_claimed_work s) (ss_claimed_tip s) (ss_services s) (ss_score s) (ss_inbox s)
    (ss_pow_budget s) (ss_verified_delivered s) (ss_delivery_window_start s) (ss_headers_delivered_total s) (ss_bodies_delivered_total s)
    (ss_bodies_requested_total s) (ss_body_misses s) (ss_sync_ineligible_until s) (ss_body_slot_lost_until s) (ss_headers_only s)
    (ss_last_penalised s) (ss_last_getcheckpoint s) (ss_last_getcheckpoint_in s) (ss_checkpoints_in s) (ss_checkpoint_window s)
    (ss_checkpoint_seen s) (ss_last_probe s) x (ss_disc_batches s) (ss_disc_batches_since s) (ss_dup_inv s) (ss_dup_inv_since s)
    (ss_announced_to_us s) (ss_announced_to_them s) (ss_last_inv_sent s) (ss_inv_repeats s).
Definition set_disc_batches (x : Z) (s : Session) : Session :=
  MkSession (ss_id s) (ss_ip s) (ss_group s) (ss_outbound s) (ss_whitelisted s) (ss_state s) (ss_role s) (ss_connected_at s)
    (ss_last_recv s) (ss_ping_sent s) (ss_claimed_height s) (ss_claimed_work s) (ss_claimed_tip s) (ss_services s) (ss_score s) (ss_inbox s)
    (ss_pow_budget s) (ss_verified_delivered s) (ss_delivery_window_start s) (ss_headers_delivered_total s) (ss_bodies_delivered_total s)
    (ss_bodies_requested_total s) (ss_body_misses s) (ss_sync_ineligible_until s) (ss_body_slot_lost_until s) (ss_headers_only s)
    (ss_last_penalised s) (ss_last_getcheckpoint s) (ss_last_getcheckpoint_in s) (ss_checkpoints_in s) (ss_checkpoint_window s)
    (ss_checkpoint_seen s) (ss_last_probe s) (ss_solicited_until s) x (ss_disc_batches_since s) (ss_dup_inv s) (ss_dup_inv_since s)
    (ss_announced_to_us s) (ss_announced_to_them s) (ss_last_inv_sent s) (ss_inv_repeats s).
Definition set_disc_batches_since (x : Mono) (s : Session) : Session :=
  MkSession (ss_id s) (ss_ip s) (ss_group s) (ss_outbound s) (ss_whitelisted s) (ss_state s) (ss_role s) (ss_connected_at s)
    (ss_last_recv s) (ss_ping_sent s) (ss_claimed_height s) (ss_claimed_work s) (ss_claimed_tip s) (ss_services s) (ss_score s) (ss_inbox s)
    (ss_pow_budget s) (ss_verified_delivered s) (ss_delivery_window_start s) (ss_headers_delivered_total s) (ss_bodies_delivered_total s)
    (ss_bodies_requested_total s) (ss_body_misses s) (ss_sync_ineligible_until s) (ss_body_slot_lost_until s) (ss_headers_only s)
    (ss_last_penalised s) (ss_last_getcheckpoint s) (ss_last_getcheckpoint_in s) (ss_checkpoints_in s) (ss_checkpoint_window s)
    (ss_checkpoint_seen s) (ss_last_probe s) (ss_solicited_until s) (ss_disc_batches s) x (ss_dup_inv s) (ss_dup_inv_since s)
    (ss_announced_to_us s) (ss_announced_to_them s) (ss_last_inv_sent s) (ss_inv_repeats s).
Definition set_dup_inv (x : Z) (s : Session) : Session :=
  MkSession (ss_id s) (ss_ip s) (ss_group s) (ss_outbound s) (ss_whitelisted s) (ss_state s) (ss_role s) (ss_connected_at s)
    (ss_last_recv s) (ss_ping_sent s) (ss_claimed_height s) (ss_claimed_work s) (ss_claimed_tip s) (ss_services s) (ss_score s) (ss_inbox s)
    (ss_pow_budget s) (ss_verified_delivered s) (ss_delivery_window_start s) (ss_headers_delivered_total s) (ss_bodies_delivered_total s)
    (ss_bodies_requested_total s) (ss_body_misses s) (ss_sync_ineligible_until s) (ss_body_slot_lost_until s) (ss_headers_only s)
    (ss_last_penalised s) (ss_last_getcheckpoint s) (ss_last_getcheckpoint_in s) (ss_checkpoints_in s) (ss_checkpoint_window s)
    (ss_checkpoint_seen s) (ss_last_probe s) (ss_solicited_until s) (ss_disc_batches s) (ss_disc_batches_since s) x (ss_dup_inv_since s)
    (ss_announced_to_us s) (ss_announced_to_them s) (ss_last_inv_sent s) (ss_inv_repeats s).
Definition set_dup_inv_since (x : Mono) (s : Session) : Session :=
  MkSession (ss_id s) (ss_ip s) (ss_group s) (ss_outbound s) (ss_whitelisted s) (ss_state s) (ss_role s) (ss_connected_at s)
    (ss_last_recv s) (ss_ping_sent s) (ss_claimed_height s) (ss_claimed_work s) (ss_claimed_tip s) (ss_services s) (ss_score s) (ss_inbox s)
    (ss_pow_budget s) (ss_verified_delivered s) (ss_delivery_window_start s) (ss_headers_delivered_total s) (ss_bodies_delivered_total s)
    (ss_bodies_requested_total s) (ss_body_misses s) (ss_sync_ineligible_until s) (ss_body_slot_lost_until s) (ss_headers_only s)
    (ss_last_penalised s) (ss_last_getcheckpoint s) (ss_last_getcheckpoint_in s) (ss_checkpoints_in s) (ss_checkpoint_window s)
    (ss_checkpoint_seen s) (ss_last_probe s) (ss_solicited_until s) (ss_disc_batches s) (ss_disc_batches_since s) (ss_dup_inv s) x
    (ss_announced_to_us s) (ss_announced_to_them s) (ss_last_inv_sent s) (ss_inv_repeats s).
Definition group_of (ip : bytes) : bytes :=
  let is_v4_mapped := forallb (fun b => b =? 0) (slice ip 0 10) && (byte_at ip 10 =? 0xff) && (byte_at ip 11 =? 0xff) in
  if is_v4_mapped then [byte_at ip 12; byte_at ip 13; 0; 0] else [byte_at ip 0; byte_at ip 1; byte_at ip 2; byte_at ip 3].
Definition Session_new (id : Z) (ip : bytes) (outbound : bool) (now : Mono) : Session :=
  MkSession id ip (group_of ip) outbound false Handshaking PeerRole_default now now None 0 (replicate 32 0) (replicate 32 0) 0
    (Score_new now) Inbox_new (PeerPowBudget_new now) 0 now 0 0 0 0 None None false None None None 0 None [] None None 0 now 0 now None None
    None 0.
Definition sat32 (x : Z) : Z := Z.min x (umax 32).
Definition probe_due (s : Session) (now : Mono) : bool :=
  match ss_last_probe s with Some t => Mono_expired now t INV_PROBE_INTERVAL_MS | None => true end.
Definition note_probe (s : Session) (now : Mono) : Session :=
  set_solicited_until (Some (Mono_plus_ms now LOCATE_TIMEOUT_MS)) (set_last_probe (Some now) s).
Definition take_solicited (s : Session) (now : Mono) : Session * bool :=
  (set_solicited_until None s, match ss_solicited_until s with Some t => now <? t | None => false end).
Definition note_disconnected_batch (s : Session) (now : Mono) : Session * bool :=
  let s := if Mono_expired now (ss_disc_batches_since s) DISCONNECTED_BATCH_WINDOW_MS then set_disc_batches 0 (set_disc_batches_since now s) else s in
  let s := set_disc_batches (sat32 (ss_disc_batches s + 1)) s in
  (s, DISCONNECTED_BATCH_FREE <? ss_disc_batches s).
Definition note_dup_inv (s : Session) (now : Mono) : Session * bool :=
  let s := if Mono_expired now (ss_dup_inv_since s) DUP_INV_WINDOW_MS then set_dup_inv 0 (set_dup_inv_since now s) else s in
  let s := set_dup_inv (sat32 (ss_dup_inv s + 1)) s in
  (s, (DUP_INV_FREE <? ss_dup_inv s) && ((ss_dup_inv s - DUP_INV_FREE) mod DUP_INV_PER_POINT =? 0)).
Definition is_ready (s : Session) : bool := match ss_state s with Ready | Paused => true | _ => false end.
Definition penalise {E} (s : Session) (o : Offence) (now : Mono) : outcome E (Session * Verdict) :=
  let s := if 0 <? points o then set_last_penalised (Some now) s else s in
  let? (sc, v) := Score_apply (ss_score s) o now in
  let s := set_score sc s in
  if ss_whitelisted s then Ok (s, VKeep) else Ok (s, v).
Definition sync_eligible (s : Session) (now : Mono) : bool :=
  is_ready s && negb (sc_sync_disqualified (ss_score s)) && match ss_sync_ineligible_until s with Some t => t <=? now | None => true end.
Definition body_eligible (s : Session) (now : Mono) : bool :=
  is_ready s && negb (ss_headers_only s) && match ss_body_slot_lost_until s with Some t => t <=? now | None => true end.
Definition delivery_rate (s : Session) (now : Mono) : option Z :=
  if ss_verified_delivered s =? 0 then None
  else
    let elapsed := Z.max (Mono_since now (ss_delivery_window_start s)) 1 in
    Some (sat64 (ss_verified_delivered s * 1000) / elapsed).
Definition roll_delivery_window (s : Session) (now : Mono) : Session :=
  if DELIVERY_RATE_WINDOW_MS <? Mono_since now (ss_delivery_window_start s) then set_verified_delivered 0 (set_delivery_window_start now s) else s.
Definition record_delivery (s : Session) (headers : Z) (now : Mono) : Session :=
  let s := roll_delivery_window s now in
  set_headers_delivered_total (sat64 (ss_headers_delivered_total s + headers)) s.
Definition record_verified (s : Session) (headers : Z) (now : Mono) : Session :=
  let s := roll_delivery_window s now in
  set_verified_delivered (sat64 (ss_verified_delivered s + headers)) s.
Definition record_body (s : Session) : Session :=
  set_headers_only false (set_body_misses 0 (set_bodies_delivered_total (sat64 (ss_bodies_delivered_total s + 1)) s)).
Definition refresh_headers_only (s : Session) : Session :=
  if (ss_bodies_delivered_total s =? 0) && (BODY_ATTEMPTS <=? ss_bodies_requested_total s) && (HEADERS_ONLY_THRESHOLD <=? ss_headers_delivered_total s)
  then set_headers_only true s else s.
Definition pong_expired (s : Session) (now : Mono) : bool :=
  match pause_cause (ss_inbox s) with
  | Some _ => false
  | None => match ss_ping_sent s with Some t => Mono_expired now t PONG_TIMEOUT_MS | None => false end
  end.
Definition pause_expired (s : Session) (now : Mono) : bool := ib_pause_expired (ss_inbox s) now.
Definition is_useless (s : Session) (now : Mono) : bool :=
  ss_outbound s && negb (ss_whitelisted s) && negb (sync_eligible s now) && negb (body_eligible s now) && Mono_expired now (ss_last_recv s) USELESS_PEER_MS.
Definition pause (s : Session) (cause : PauseCause) (now : Mono) : Session :=
  if bool_decide (cause = PIngestBudget) && pr_sync_peer (ss_role s) then s
  else set_state Paused (set_inbox (ib_pause (ss_inbox s) cause now) s).
Definition unpause (s : Session) (now : Mono) : Session :=
  let s := set_inbox (ib_unpause (ss_inbox s) now) s in
  if bool_decide (ss_state s = Paused) then set_state Ready s else s.
Definition admit_checkpoint (s : Session) (height : Z) (hash : bytes) (now : Mono) : Session * CheckpointAdmit :=
  if bool_decide ((height, hash) ∈ ss_checkpoint_seen s) then (s, CADuplicate)
  else
    let fresh := match ss_checkpoint_window s with None => true | Some t => Mono_expired now t CHECKPOINT_RATE_WINDOW_MS end in
    let s := if fresh then set_checkpoints_in 0 (set_checkpoint_window (Some now) s) else s in
    if CHECKPOINT_RATE_PER_10MIN <=? ss_checkpoints_in s then (s, CAOverRate)
    else
      let s := set_checkpoints_in (ss_checkpoints_in s + 1) s in
      let seen := ss_checkpoint_seen s ++ [(height, hash)] in
      (set_checkpoint_seen (drop (Z.to_nat (Zlen seen - CHECKPOINT_DEDUP_MAX)) seen) s, CAAccept).
Definition admit_getcheckpoint (s : Session) (now : Mono) : Session * bool :=
  match ss_last_getcheckpoint_in s with
  | Some t => if negb (Mono_expired now t GETCHECKPOINT_INTERVAL_MS) then (s, false) else (set_last_getcheckpoint_in (Some now) s, true)
  | None => (set_last_getcheckpoint_in (Some now) s, true)
  end.

(** ** The rate of relayed checkpoints *)
(** Checkpoints offered by a peer at given times, and how many are accepted. *)
Fixpoint offer_all (s : Session) (l : list (Z * bytes * Mono)) : Session * Z :=
  match l with
  | [] => (s, 0)
  | (height, hash, now) :: l =>
    let '(s, a) := admit_checkpoint s height hash now in
    let '(s, n) := offer_all s l in
    (s, (match a with CAAccept => 1 | _ => 0 end) + n)
  end.
(** The window is at [w], [c] checkpoints were accepted in it, and the ring of seen ones is within its cap. *)
Definition window_ok (s : Session) (w : Mono) : Prop :=
  ss_checkpoint_window s = Some w /\ 0 <= ss_checkpoints_in s <= CHECKPOINT_RATE_PER_10MIN /\ Zlen (ss_checkpoint_seen s) <= CHECKPOINT_DEDUP_MAX.
Lemma Zlen_drop {A} n (l : list A) : 0 <= n -> Zlen (drop (Z.to_nat (Zlen l - n)) l) <= n.
Proof. intros Hn. unfold Zlen. rewrite length_drop. lia. Qed.
Lemma admit_window s height hash now w : window_ok s w -> w <= now ->
  let '(s', a) := admit_checkpoint s height hash now in
  exists w', window_ok s' w' /\ w <= w' <= now /\
    CHECKPOINT_RATE_WINDOW_MS * ((match a with CAAccept => 1 | _ => 0 end) + ss_checkpoints_in s - ss_checkpoints_in s') <= CHECKPOINT_RATE_PER_10MIN * (w' - w).
Proof.
  intros (Hw & Hc & Hr) Hle. unfold admit_checkpoint. destruct (bool_decide _); [exists w; split; [done|]; lia|]. rewrite Hw. unfold Mono_expired, Mono_since.
  unfold CHECKPOINT_RATE_WINDOW_MS, CHECKPOINT_RATE_PER_10MIN in *. cbv zeta. destruct (Z.leb_spec 600000 (Z.max 0 (now - w))).
  - cbn [ss_checkpoints_in set_checkpoints_in set_checkpoint_window]. change (4 <=? 0) with false. cbv iota. exists now.
    split; [split; [done|]; split; [cbn; unfold CHECKPOINT_RATE_PER_10MIN; lia|apply Zlen_drop; done]|]. cbn. lia.
  - destruct (Z.leb_spec 4 (ss_checkpoints_in s)); [exists w; split; [done|lia]|]. exists w. split; [split; [done|]; split; [cbn; unfold CHECKPOINT_RATE_PER_10MIN; lia|apply Zlen_drop; done]|]. cbn. lia.
Qed.
(** Calls at times that do not go back, between [t] and [e]. *)
Fixpoint ordered (t e : Mono) (l : list (Z * bytes * Mono)) : Prop := match l with [] => t <= e | (_, _, now) :: l => t <= now /\ ordered now e l end.
Lemma offer_window l e : forall s w t, window_ok s w -> w <= t -> ordered t e l -> let '(s', n) := offer_all s l in
  exists w', window_ok s' w' /\ w <= w' <= e /\ CHECKPOINT_RATE_WINDOW_MS * (n + ss_checkpoints_in s - ss_checkpoints_in s') <= CHECKPOINT_RATE_PER_10MIN * (w' - w).
Proof.
  induction l as [|[[height hash] now] l IH]; intros s w t Hs Hw Ht; [cbn in Ht; exists w; split; [done|]; lia|]. cbn [offer_all ordered] in *. destruct Ht as [Ht Hl].
  pose proof (admit_window s height hash now w Hs ltac:(lia)) as H. destruct (admit_checkpoint s height hash now) as [s1 a]. destruct H as (w1 & Hs1 & Hw1 & Hn1).
  specialize (IH s1 w1 now Hs1 ltac:(lia) Hl). destruct (offer_all s1 l) as [s2 n]. destruct IH as (w2 & Hs2 & Hw2 & Hn2). exists w2. split; [done|].
  split; [lia|]. unfold CHECKPOINT_RATE_WINDOW_MS, CHECKPOINT_RATE_PER_10MIN in *. lia.
Qed.

(** Checkpoints are relayed at a bounded rate: whatever checkpoints a peer offers between two times, at most four are
    accepted per ten minutes begun, and the ring of those seen stays within its cap. *)
Theorem checkpoint_rate_bounded (id : Z) (ip : bytes) (outbound : bool) (t0 e : Mono) (l : list (Z * bytes * Mono)) (Hl : ordered t0 e l) :
  let '(s, n) := offer_all (Session_new id ip outbound t0) l in
  CHECKPOINT_RATE_WINDOW_MS * n <= CHECKPOINT_RATE_PER_10MIN * (e - t0 + CHECKPOINT_RATE_WINDOW_MS) /\ Zlen (ss_checkpoint_seen s) <= CHECKPOINT_DEDUP_MAX.
Proof.
  unfold CHECKPOINT_RATE_WINDOW_MS, CHECKPOINT_RATE_PER_10MIN, CHECKPOINT_DEDUP_MAX.
  destruct l as [|[[height hash] now] l]; [cbn in Hl; cbn [offer_all]; split; [lia|done]|]. cbn [ordered] in Hl. destruct Hl as [Ht Hl]. cbn [offer_all].
  set (s1 := fst (admit_checkpoint (Session_new id ip outbound t0) height hash now)). change (admit_checkpoint (Session_new id ip outbound t0) height hash now) with (s1, CAAccept). cbv beta iota.
  assert (window_ok s1 now) as Hs1.
  { unfold window_ok. split_and!; [reflexivity|discriminate|discriminate|discriminate]. }
  pose proof (offer_window l e s1 now now Hs1 ltac:(lia) Hl) as H. destruct (offer_all s1 l) as [s2 n].
  destruct H as (w & (_ & Hc & Hr) & Hw & Hn). unfold CHECKPOINT_RATE_WINDOW_MS, CHECKPOINT_RATE_PER_10MIN, CHECKPOINT_DEDUP_MAX in *.
  change (ss_checkpoints_in s1) with 1 in Hn. cbv beta iota. split; [lia|done].
Qed.
Lemma checkpoint_rate_bounded_witness : let '(s, n) := offer_all (Session_new 1 [] false 0) [(5, [1], 1); (5, [1], 2); (6, [2], 3)] in
  600000 * n <= 4 * (10 - 0 + 600000) /\ Zlen (ss_checkpoint_seen s) <= 16.
Proof. apply (checkpoint_rate_bounded 1 [] false 0 10 [(5, [1], 1); (5, [1], 2); (6, [2], 3)]). cbn. lia. Defined.
