(* ===== verification/P2pGates.v ===== *)
(** The header gates of the peer-to-peer layer (src/lib/p2p/src/gate): the cache of rejected headers, the structure
    of a batch, the context of a header, and whether a branch is worth having. Heights and times come from the peer
    and are any 64-bit numbers; arithmetic on them is checked as the build checks it. *)

From Stdlib Require Import ZArith Lia List String.
From stdpp Require Import base gmap list numbers.
From S2P Require Import Prelude Constants Limbs Work Rules Blake3 Codec Crypto P2pConstants P2pWire P2pWireProps P2pPeer P2pPeerProps.
Import ListNotations.
Open Scope Z_scope.

(** ** gate/mod.rs *)
Inductive GateRejection :=
| GDuplicate | GKnownRejected | GBadShape (why : string) | GNotContiguous | GUnsolicitedAnswer | GUnknownParent (h : bytes)
| GBadBits (expected got : Z) | GTimePast | GTimeFuture (by_secs : Z) | GReorgTooDeep (depth : Z) | GLessWork | GTieBreakLost
| GQuarantined | GBudgetExhausted | GBadPow.
Definition gate_offence (r : GateRejection) : option Offence :=
  match r with
  | GDuplicate | GKnownRejected | GUnknownParent _ | GBudgetExhausted | GQuarantined => None
  | GLessWork => Some OLessWork
  | GTieBreakLost => Some OTieBreakLost
  | GReorgTooDeep _ => Some OReorgTooDeep
  | GTimeFuture _ => Some ONotYetValid
  | GBadShape _ | GNotContiguous => Some OMalformed
  | GUnsolicitedAnswer => Some ODisconnectedBatches
  | GBadBits _ _ => Some OBadBits
  | GTimePast => Some OBadTimePast
  | GBadPow => Some OBadPow
  end.
Definition gate_is_permanent (r : GateRejection) : bool :=
  match r with GBadShape _ | GNotContiguous | GBadBits _ _ | GTimePast | GBadPow => true | _ => false end.

(** ** g0_dedup.rs *)
Record RejectCache := MkRejectCache { rc_map : gmap bytes Z; rc_order : list bytes; rc_tick : Z; rc_evictions : Z }.
Definition RejectCache_new : RejectCache := MkRejectCache ∅ [] 0 0.
Definition rc_insert {E} (c : RejectCache) (h : bytes) : outcome E RejectCache :=
  let? tick := add64 (rc_tick c) 1 in
  let '(m, order, evicted) := capped_insert REJECT_CACHE_MAX h tick (rc_map c) (rc_order c) in
  let? ev := (if evicted then add64 (rc_evictions c) 1 else Ok (rc_evictions c)) in
  Ok (MkRejectCache m order tick ev).
Definition rc_contains (c : RejectCache) (h : bytes) : bool := match rc_map c !! h with Some _ => true | None => false end.
Definition rc_audit_clear (c : RejectCache) : RejectCache := MkRejectCache ∅ [] (rc_tick c) (rc_evictions c).

(** ** g1_structure.rs *)
Record PHeaderRec := MkPHeaderRec { p_height : Z; p_hash : bytes; p_prev_hash : bytes; p_time : Z; p_bits : Z; p_target : bytes; p_raw : bytes }.
Definition ZERO32 : bytes := replicate 32 0.
(** One header of the batch, after the headers [out]. *)
Definition structure_step (out : list PHeaderRec) (raw : bytes) : outcome GateRejection (list PHeaderRec) :=
  match Header_decode raw with
  | Ok h =>
    if negb (bool_decide (h_ext_root h = ZERO32)) then Err (GBadShape "ext_root is reserved and must be zero")
    else if AUTHOR_NOTE_MAX_BYTES <? h_author_note_len h then Err (GBadShape "author_note_len out of range")
    else
      let rec := MkPHeaderRec (h_height h) (header_hash raw) (h_prev_hash h) (h_time h) (h_bits h) ZERO32 raw in
      match list.last out with
      | None => Ok (out ++ [rec])
      | Some prev =>
        let? next := add64 (p_height prev) 1 in
        if negb (p_height rec =? next) then Err GNotContiguous
        else if negb (bool_decide (p_prev_hash rec = p_hash prev)) then Err GNotContiguous
        else Ok (out ++ [rec])
      end
  | _ => Err (GBadShape "header failed structural decode")
  end.
Definition check_structure (raw : list bytes) (expect_first_parent : option bytes) : outcome GateRejection (list PHeaderRec) :=
  if Zlen raw =? 0 then Err (GBadShape "empty HEADERS batch")
  else if MAX_HEADERS_PER_MSG <? Zlen raw then Err (GBadShape "HEADERS count over cap")
  else
    let? out := ofold structure_step [] raw in
    match expect_first_parent with
    | None => Ok out
    | Some parent =>
      let? first := expect (head out) in
      if negb (bool_decide (p_prev_hash first = parent)) then Err GUnsolicitedAnswer else Ok out
    end.

(** ** g2_context.rs *)
Class BitsRule := MkBitsRule { expected_bits : PHeaderRec -> option Z; expand : Z -> option bytes }.
Record ContextParams := MkContextParams { cx_now_unix : Z; cx_mtp : option Z; cx_fork_depth : Z; cx_branch_contains_anchor : bool }.
Definition with_target (h : PHeaderRec) (t : bytes) : PHeaderRec := MkPHeaderRec (p_height h) (p_hash h) (p_prev_hash h) (p_time h) (p_bits h) t (p_raw h).
(** Times are compared before they are subtracted as [i64]. *)
Definition check_context {B : BitsRule} (parent hdr : PHeaderRec) (p : ContextParams) : outcome GateRejection PHeaderRec :=
  if negb (bool_decide (p_prev_hash hdr = p_hash parent)) then Err (GUnknownParent (p_prev_hash hdr))
  else
    let? next := add64 (p_height parent) 1 in
    if negb (p_height hdr =? next) then Err GNotContiguous
    else
      let? _ := (match expected_bits parent with
                 | Some expected => if negb (p_bits hdr =? expected) then Err (GBadBits expected (p_bits hdr)) else Ok ()
                 | None => Ok ()
                 end) in
      match expand (p_bits hdr) with
      | None => Err (GBadBits 0 (p_bits hdr))
      | Some target =>
        let hdr := with_target hdr target in
        let? _ := (match cx_mtp p with Some mtp => if p_time hdr <=? mtp then Err GTimePast else Ok () | None => Ok () end) in
        let limit := sat64 (cx_now_unix p + MAX_FUTURE_DRIFT_SECS) in
        if limit <? p_time hdr then
          let? d := i64 (as_i64 (p_time hdr) - as_i64 limit) in
          Err (GTimeFuture d)
        else if (MAX_REORG_DEPTH <? cx_fork_depth p) && negb (cx_branch_contains_anchor p) then Err (GReorgTooDeep (cx_fork_depth p))
        else Ok hdr
      end.

(** ** g3_admission.rs *)
Definition gate_admit (cand_work our_work : Work) (cand_tip : bytes) (cand_height : Z) (our_tip : bytes) (our_height depth : Z) : outcome GateRejection unit :=
  match Work_cmp cand_work our_work with
  | Gt => Ok ()
  | Lt => Err GLessWork
  | Eq =>
    let cand := MkHeaderInfo cand_height cand_tip 0 ZERO32 in
    let ours := MkHeaderInfo our_height our_tip 0 ZERO32 in
    if tie_break_prefers_candidate depth cand_work our_work cand ours then Ok () else Err GTieBreakLost
  end.

(** ** The structure gate *)
Section Structure.
(** A header a batch may carry, and the record the gate makes of it. *)
Definition gate_rec (raw : bytes) : PHeaderRec :=
  MkPHeaderRec (from_le (slice raw 4 12)) (header_hash raw) (slice raw 12 44) (from_le (slice raw 108 116)) (from_le (slice raw 116 120)) ZERO32 raw.
Definition shape_ok (raw : bytes) : Prop := slice raw 76 108 = ZERO32 /\ from_le (slice raw 120 124) <= AUTHOR_NOTE_MAX_BYTES.
#[global] Instance shape_ok_dec raw : Decision (shape_ok raw).
Proof. unfold shape_ok. apply _. Defined.
(** [b] is the header after [a]. *)
Definition follows (a b : PHeaderRec) : Prop := p_height b = p_height a + 1 /\ p_prev_hash b = p_hash a.
#[global] Instance follows_dec a b : Decision (follows a b).
Proof. unfold follows. apply _. Defined.
(** What one step does: the first header needs a shape; a later one must also follow its predecessor, unless the predecessor
    has the largest height, whose successor overflows. *)
Lemma structure_step_spec out raw : arr HEADER_BYTES raw -> (forall p, list.last out = Some p -> 0 <= p_height p < 2 ^ 64) ->
  match structure_step out raw with
  | Ok out' => out' = out ++ [gate_rec raw] /\ shape_ok raw /\ forall p, list.last out = Some p -> follows p (gate_rec raw)
  | Err _ => ~ shape_ok raw \/ exists p, list.last out = Some p /\ p_height p < umax 64 /\ ~ follows p (gate_rec raw)
  | Panic => shape_ok raw /\ exists p, list.last out = Some p /\ p_height p = umax 64
  end.
Proof.
  intros [Hlen Hok] Hprev. unfold structure_step, Header_decode, require_exact. rewrite Hlen. change (HEADER_BYTES <? HEADER_BYTES) with false. cbn [obind h_ext_root h_author_note_len h_height h_prev_hash h_time h_bits].
  case_bool_decide as He; cbn [negb]; [|left; intros [? _]; done]. destruct (Z.ltb_spec AUTHOR_NOTE_MAX_BYTES (from_le (slice raw 120 124))); [left; intros [_ ?]; lia|].
  fold (gate_rec raw). assert (shape_ok raw) as Hs by done. destruct (list.last out) as [p|] eqn:Ep; [|done]. specialize (Hprev p eq_refl). unfold add64, checked_add, checked, fits.
  destruct (Z.leb_spec 0 (p_height p + 1)), (Z.ltb_spec (p_height p + 1) (2 ^ 64)); try lia; cbn [andb expect obind]; [|split; [done|]; exists p; unfold umax; split; [done|lia]].
  change (from_le (slice raw 4 12)) with (p_height (gate_rec raw)). destruct (Z.eqb_spec (p_height (gate_rec raw)) (p_height p + 1)) as [Eh|Eh]; cbn [negb]; [|right; exists p; split; [done|]; split; [unfold umax; lia|]; intros [? _]; done].
  change (slice raw 12 44) with (p_prev_hash (gate_rec raw)). case_bool_decide as Ehash; cbn [negb]; [|right; exists p; split; [done|]; split; [unfold umax; lia|]; intros [_ ?]; done].
  split; [done|]. split; [done|]. by intros q [= <-].
Qed.
(** A batch that hangs together, after [prev]. *)
Definition after (prev : option PHeaderRec) (r : bytes) : Prop := match prev with Some p => follows p (gate_rec r) | None => True end.
Fixpoint chain_from (prev : option PHeaderRec) (raws : list bytes) : Prop :=
  match raws with [] => True | r :: raws => shape_ok r /\ after prev r /\ chain_from (Some (gate_rec r)) raws end.
(** A batch that hangs together up to a header of the largest height, which another well-shaped header comes after. *)
Fixpoint overflows (prev : option PHeaderRec) (raws : list bytes) : Prop :=
  match raws with
  | [] => False
  | r :: raws => shape_ok r /\ ((exists p, prev = Some p /\ p_height p = umax 64) \/ (after prev r /\ overflows (Some (gate_rec r)) raws))
  end.
Lemma rec_height raw : arr HEADER_BYTES raw -> 0 <= p_height (gate_rec raw) < 2 ^ 64.
Proof.
  intros [Hl Hok]. cbn. pose proof (from_le_bounds (slice raw 4 12) (slice_Forall _ _ _ _ Hok)) as H. unfold HEADER_BYTES in Hl. rewrite Zlen_slice in H by lia. exact H.
Qed.
Lemma no_follow_max p r : arr HEADER_BYTES r -> p_height p = umax 64 -> ~ follows p (gate_rec r).
Proof. intros Hr Hp [H _]. pose proof (rec_height r Hr). unfold umax in Hp. lia. Qed.
Lemma structure_loop raws : Forall (arr HEADER_BYTES) raws -> forall out, (forall p, list.last out = Some p -> 0 <= p_height p < 2 ^ 64) ->
  (forall recs, ofold structure_step out raws = Ok recs <-> recs = out ++ map gate_rec raws /\ chain_from (list.last out) raws) /\
  (ofold structure_step out raws = Panic <-> overflows (list.last out) raws).
Proof.
  induction 1 as [|r raws Hr _ IH]; intros out Hout; cbn [ofold chain_from overflows map].
  - split; [|done]. intros recs. rewrite app_nil_r. split; [by intros [= <-]|by intros [-> _]].
  - pose proof (structure_step_spec out r Hr Hout) as Hs. destruct (structure_step out r) as [out'|e|]; cbn [obind].
    + destruct Hs as (-> & Hshape & Hfol). destruct (IH (out ++ [gate_rec r])) as [H1 H2]; [rewrite last_snoc; intros p [= <-]; by apply rec_height|]. rewrite last_snoc in H1, H2.
      assert (after (list.last out) r) as Haft by (unfold after; destruct (list.last out); [by apply Hfol|done]). split.
      * intros recs. rewrite H1, <-app_assoc. cbn [app]. tauto.
      * rewrite H2. split; [tauto|]. intros [_ [(p & Hp & Hmax)|?]]; [|tauto]. destruct (no_follow_max p r Hr Hmax). by apply Hfol.
    + assert (~ (shape_ok r /\ after (list.last out) r)) as Hno.
      { intros [Hsh Haft]. destruct Hs as [Hs|(p & Hp & _ & Hs)]; [done|]. rewrite Hp in Haft. done. }
      split; [intros recs; split; [done|tauto]|]. split; [done|]. intros [Hsh [(p & Hp & Hmax)|?]]; [|tauto].
      destruct Hs as [Hs|(q & Hq & Hlt & _)]; [done|]. rewrite Hp in Hq. injection Hq as <-. lia.
    + destruct Hs as (Hsh & p & Hp & Hmax). split; [|split; [intros _; split; [done|]; left; eauto|done]]. intros recs. split; [done|]. intros (_ & _ & Haft & _). rewrite Hp in Haft. by apply no_follow_max in Haft.
Qed.
End Structure.

(** C12. The structure gate admits exactly the batches that hang together: between one and 2000 headers, each with a zero extension
    root and an author note within its limit, each at the next height with its predecessor's hash as parent, the first one on
    the expected parent; it returns their records in order. It panics exactly on a batch in which a header of height 2^64 - 1
    is followed by another one. *)
Theorem structure_gate_exact (raws : list bytes) (expect_parent : option bytes) (Hraws : Forall (arr HEADER_BYTES) raws) :
  (forall recs, check_structure raws expect_parent = Ok recs <->
     1 <= Zlen raws <= MAX_HEADERS_PER_MSG /\ chain_from None raws /\ recs = map gate_rec raws /\
     (forall p, expect_parent = Some p -> p_prev_hash <$> head recs = Some p)) /\
  (check_structure raws expect_parent = Panic <-> Zlen raws <= MAX_HEADERS_PER_MSG /\ overflows None raws).
Proof.
  destruct (structure_loop raws Hraws []) as [H1 H2]; [done|]. cbn [app] in *. change (list.last []) with (@None PHeaderRec) in *. unfold check_structure.
  destruct raws as [|r raws]; [split; [intros recs; split; [done|]; intros [? _]; unfold Zlen in *; cbn in *; lia|split; [done|by intros []]]|].
  pose proof (Zlen_nonneg raws). rewrite Zlen_cons in *. destruct (Z.eqb_spec (1 + Zlen raws) 0); [lia|]. destruct (Z.ltb_spec MAX_HEADERS_PER_MSG (1 + Zlen raws)); [split; [intros recs|]; (split; [done|lia])|].
  destruct (ofold structure_step [] (r :: raws)) as [out|e|] eqn:Ef; cbn [obind].
  - destruct (proj1 (H1 out) eq_refl) as [-> Hchain]. assert (~ overflows None (r :: raws)) as Hno by (rewrite <-H2; done). destruct expect_parent as [p|].
    + cbn [head map expect obind]. case_bool_decide as Hp; cbn [negb]; (split; [|split; [done|tauto]]); intros recs.
      * split; [intros [= <-]; split_and!; [lia|lia|done|done|]; intros q [= <-]; exact (f_equal Some Hp)|]. by intros (_ & _ & -> & _).
      * split; [done|]. intros (_ & _ & -> & Hq). specialize (Hq p eq_refl). injection Hq as Hq. done.
    + split; [|split; [done|tauto]]. intros recs. split; [intros [= <-]; by split_and!; [lia|lia|..]|]. by intros (_ & _ & -> & _).
  - assert (~ overflows None (r :: raws)) by (rewrite <-H2; done). split; [intros recs; split; [done|]|split; [done|tauto]]. intros (_ & Hc & -> & _).
    assert (@Err GateRejection (list PHeaderRec) e = Ok (map gate_rec (r :: raws))) as Habs by (apply H1; done). discriminate Habs.
  - assert (overflows None (r :: raws)) as Hov by (apply H2; done). split; [|split; [split; [lia|done]|done]]. intros recs. split; [done|]. intros (_ & Hc & -> & _).
    assert (@Panic GateRejection (list PHeaderRec) = Ok (map gate_rec (r :: raws))) as Habs by (apply H1; done). discriminate Habs.
Qed.

(** ** The context gate *)
Section Context_.
Context {B : BitsRule}.
Definition context_limit (p : ContextParams) : Z := sat64 (cx_now_unix p + MAX_FUTURE_DRIFT_SECS).
(** The header's place, difficulty and earliest time are right. *)
Definition in_place (parent hdr : PHeaderRec) (p : ContextParams) (target : bytes) : Prop :=
  follows parent hdr /\ (forall b, expected_bits parent = Some b -> p_bits hdr = b) /\ expand (p_bits hdr) = Some target /\
  (forall mtp, cx_mtp p = Some mtp -> mtp < p_time hdr).
(** The last two checks, of a header in place. *)
Lemma context_tail parent hdr p t : 0 <= p_time hdr < 2 ^ 64 -> 0 <= cx_now_unix p < 2 ^ 62 -> in_place parent hdr p t ->
  let r := (if context_limit p <? p_time hdr then let? d := i64 (as_i64 (p_time hdr) - as_i64 (context_limit p)) in Err (GTimeFuture d)
            else if (MAX_REORG_DEPTH <? cx_fork_depth p) && negb (cx_branch_contains_anchor p) then Err (GReorgTooDeep (cx_fork_depth p)) else Ok (with_target hdr t)) in
  (forall h, r = Ok h <-> exists target, in_place parent hdr p target /\ p_time hdr <= context_limit p /\
     (cx_fork_depth p <= MAX_REORG_DEPTH \/ cx_branch_contains_anchor p = true) /\ h = with_target hdr target) /\
  (r = Panic <-> exists target, in_place parent hdr p target /\ 2 ^ 63 <= p_time hdr < 2 ^ 63 + context_limit p).
Proof.
  intros Ht Hn Hin. cbv zeta. assert (0 <= context_limit p < 2 ^ 63) as Hl by (unfold context_limit, sat64, umax, MAX_FUTURE_DRIFT_SECS; lia).
  assert (forall t', in_place parent hdr p t' -> t' = t) as Huniq by (intros t' (_ & _ & H1 & _); destruct Hin as (_ & _ & H2 & _); congruence).
  destruct (Z.ltb_spec (context_limit p) (p_time hdr)) as [Hlt|Hge].
  - unfold i64, as_i64. destruct (Z.ltb_spec (context_limit p) (2 ^ 63)); [|lia]. split; [intros h; split; [by destruct (_ && _)|intros (? & _ & ? & _); lia]|].
    destruct (Z.ltb_spec (p_time hdr) (2 ^ 63)).
    + destruct (Z.leb_spec (- 2 ^ 63) (p_time hdr - context_limit p)), (Z.ltb_spec (p_time hdr - context_limit p) (2 ^ 63)); try lia. cbn [andb obind]. split; [done|]. intros (? & _ & ?). lia.
    + destruct (Z.leb_spec (- 2 ^ 63) (p_time hdr - 2 ^ 64 - context_limit p)), (Z.ltb_spec (p_time hdr - 2 ^ 64 - context_limit p) (2 ^ 63)); try lia; cbn [andb obind].
      * split; [done|]. intros (? & _ & ?). lia.
      * split; [|done]. intros _. exists t. split; [done|lia].
  - destruct (Z.ltb_spec MAX_REORG_DEPTH (cx_fork_depth p)) as [Hd|Hd]; [destruct (cx_branch_contains_anchor p) eqn:Ea|]; cbn [andb negb];
      (split; [|split; [done|intros (? & _ & ?); lia]]); intros h; (split; [|try (by intros (t' & H & _ & _ & ->); rewrite (Huniq t' H))]).
    + intros [= <-]. exists t. auto.
    + done.
    + intros (? & _ & _ & [?|?] & _); [lia|done].
    + intros [= <-]. exists t. auto.
Qed.
Ltac refuted := split; [intros ?; split; [done|]|split; [done|]]; intros (tgt & (Hf & Hb & He & Hm) & _); exfalso.
(** C13. The context gate admits exactly the headers in place: after their parent, with the difficulty the rule expects, a time past
    the median and not beyond the allowed drift, on a branch no deeper than the cap unless it carries the anchor; it returns the
    header with its expanded target. It panics exactly on a header in place whose time reads as a negative number so far below
    the limit that their difference does not fit. *)
Theorem context_gate_exact (parent hdr : PHeaderRec) (p : ContextParams) (Hh : 0 <= p_height parent < umax 64) (Ht : 0 <= p_time hdr < 2 ^ 64) (Hn : 0 <= cx_now_unix p < 2 ^ 62) :
  (forall h, check_context parent hdr p = Ok h <-> exists target, in_place parent hdr p target /\ p_time hdr <= context_limit p /\
     (cx_fork_depth p <= MAX_REORG_DEPTH \/ cx_branch_contains_anchor p = true) /\ h = with_target hdr target) /\
  (check_context parent hdr p = Panic <-> exists target, in_place parent hdr p target /\ 2 ^ 63 <= p_time hdr < 2 ^ 63 + context_limit p).
Proof.
  unfold check_context. case_bool_decide as Eprev; cbn [negb]; [|refuted; by destruct Hf].
  rewrite add64_ok by (unfold umax in Hh; lia). cbn [obind]. destruct (Z.eqb_spec (p_height hdr) (p_height parent + 1)) as [Eh|Eh]; cbn [negb]; [|refuted; by destruct Hf].
  destruct (expected_bits parent) as [b|] eqn:Eb; [destruct (Z.eqb_spec (p_bits hdr) b) as [Ebb|Ebb]; cbn [negb obind]; [|refuted; by specialize (Hb b Eb)]|cbn [obind]];
    (destruct (expand (p_bits hdr)) as [t|] eqn:Et; [|refuted; congruence]); cbn [p_time with_target];
    (destruct (cx_mtp p) as [mtp|] eqn:Em; [destruct (Z.leb_spec (p_time hdr) mtp) as [Hmt|Hmt]; cbn [obind]; [refuted; specialize (Hm mtp Em); lia|]|cbn [obind]]);
    apply (context_tail parent hdr p t Ht Hn); unfold in_place, follows; rewrite ?Eb, ?Em; split_and!; (done || (intros ? [= <-]; (done || lia)) || (intros ? [=])).
Qed.
End Context_.

(** ** The cache of rejected headers *)
Definition reject_ok (c : RejectCache) : Prop := capped REJECT_CACHE_MAX (rc_map c) (rc_order c) /\ 0 <= rc_evictions c <= rc_tick c.
(** The cache remembers what it is given, within its cap, until 2^64 insertions. *)
Lemma rc_insert_ok {E} c h : reject_ok c -> rc_tick c < umax 64 -> exists c', rc_insert (E := E) c h = Ok c' /\ reject_ok c' /\ rc_contains c' h = true /\ rc_tick c' = rc_tick c + 1.
Proof.
  intros [Hc He] Ht. unfold rc_insert. unfold umax in Ht. rewrite add64_ok by lia. cbn [obind].
  pose proof (capped_insert_spec REJECT_CACHE_MAX h (rc_tick c + 1) (rc_map c) (rc_order c) ltac:(done) Hc) as H. destruct (capped_insert _ _ _ _ _) as [[m order] ev]. destruct H as (H1 & H2 & _).
  destruct ev; [rewrite add64_ok by lia|]; cbn [obind]; eexists; (split; [reflexivity|]); unfold reject_ok, rc_contains; cbn [rc_map rc_order rc_evictions rc_tick]; rewrite H2; split_and!; (done || lia).
Qed.

(** ** Witnesses *)
(** Two equal headers of the largest height: the second is compared with the successor of the first. *)
Definition tall_header : bytes := le_bytes 4 1 ++ le_bytes 8 (umax 64) ++ replicate 120 0.
Lemma tall_header_ok : arr HEADER_BYTES tall_header.
Proof. split; [reflexivity|solve_bytes_ok]. Qed.
Lemma structure_gate_exact_witness : Forall (arr HEADER_BYTES) [tall_header; tall_header] /\ check_structure [tall_header; tall_header] None = Panic.
Proof.
  assert (Forall (arr HEADER_BYTES) [tall_header; tall_header]) as H by (constructor; [apply tall_header_ok|constructor; [apply tall_header_ok|constructor]]). split; [exact H|].
  apply (structure_gate_exact [tall_header; tall_header] None H). assert (shape_ok tall_header) as Hs by (split; [reflexivity|vm_compute; discriminate]).
  split; [vm_compute; discriminate|]. split; [exact Hs|]. right. split; [exact I|]. split; [exact Hs|]. left. exists (gate_rec tall_header). split; [reflexivity|]. vm_compute. reflexivity.
Defined.
(** A rule that accepts any bits. *)
Definition any_bits : BitsRule := MkBitsRule (fun _ => None) (fun _ => Some ZERO32).
Definition sample_parent : PHeaderRec := MkPHeaderRec 7 [1] [0] 100 5 ZERO32 [].
Definition far_header : PHeaderRec := MkPHeaderRec 8 [2] [1] (2 ^ 63) 5 ZERO32 [].
Lemma context_gate_exact_witness : check_context (B := any_bits) sample_parent far_header (MkContextParams 1000 None 0 false) = Panic.
Proof.
  apply (context_gate_exact (B := any_bits) sample_parent far_header (MkContextParams 1000 None 0 false)); [split; reflexivity || discriminate|split; reflexivity || discriminate|split; reflexivity || discriminate|].
  exists ZERO32. split; [split; [split; reflexivity|]; split; [discriminate|]; split; [reflexivity|discriminate]|]. split; reflexivity || discriminate.
Defined.
