(* ===== verification/P2pSync.v ===== *)
(** Pieces of header synchronisation (src/lib/p2p/src/sync, rng.rs): the progress clock of the sync peer, the tree of
    competing headers, the choice of the sync peer, quarantine and the staging queue with its sampled verification.
    Counters that only feed metrics are unbounded numbers. *)

From Stdlib Require Import ZArith Lia List.
From stdpp Require Import base gmap list numbers.
From S2P Require Import Prelude Constants Rules P2pConstants P2pWire P2pPeer P2pPeerProps P2pSession P2pGates.
Import ListNotations.
Open Scope Z_scope.

(** ** rng.rs *)
Record XRng := MkXRng { xs : Z }.
Definition XRng_new (seed : Z) : XRng := MkXRng (if seed =? 0 then 0x9E3779B97F4A7C15 else seed).
Definition next_u64 (r : XRng) : XRng * Z :=
  let x := xs r in
  let x := Z.lxor x (Z.shiftr x 12) in
  let x := Z.lxor x (wrap 64 (Z.shiftl x 25)) in
  let x := Z.lxor x (Z.shiftr x 27) in
  (MkXRng x, wrap 64 (x * 0x2545F4914F6CDD1D)).
Definition below (r : XRng) (n : Z) : XRng * Z := if n =? 0 then (r, 0) else let '(r, x) := next_u64 r in (r, x mod n).

(** ** stall.rs *)
Inductive StallKind := NoProgress | BelowRateFloor (per_10s : Z) | LocalSuspendExceeded (suspended_ms : Z) | LocalReadRefused (refusals : Z).
Definition stall_charges_budget (k : StallKind) : bool := match k with NoProgress | BelowRateFloor _ => true | _ => false end.
Definition stall_peer_points (k : StallKind) : Z := match k with LocalSuspendExceeded _ | LocalReadRefused _ => 0 | _ => 5 end.
Record ProgressClock := MkProgressClock {
  pc_last_progress : Mono; pc_window_start : Mono; pc_in_window : Z; pc_suspended_since : option Mono; pc_suspended_total_ms : Z;
  pc_verify_bound : bool; pc_local_refusals : Z }.
Definition ProgressClock_new (now : Mono) : ProgressClock := MkProgressClock now now 0 None 0 false 0.
Definition note_local_refusal (c : ProgressClock) : ProgressClock :=
  MkProgressClock (pc_last_progress c) (pc_window_start c) (pc_in_window c) (pc_suspended_since c) (pc_suspended_total_ms c) (pc_verify_bound c) (sat64 (pc_local_refusals c + 1)).
Definition progress (c : ProgressClock) (n : Z) (now : Mono) : ProgressClock :=
  if n =? 0 then c
  else
    let roll := SYNC_RATE_WINDOW_MS <? Mono_since now (pc_window_start c) in
    let start := if roll then now else pc_window_start c in
    let in_window := if roll then 0 else pc_in_window c in
    MkProgressClock now start (sat64 (in_window + n)) (pc_suspended_since c) (pc_suspended_total_ms c) (pc_verify_bound c) 0.
Definition set_verify_bound (c : ProgressClock) (bound : bool) (now : Mono) : ProgressClock :=
  if Bool.eqb bound (pc_verify_bound c) then c
  else MkProgressClock now now 0 (pc_suspended_since c) (pc_suspended_total_ms c) bound (pc_local_refusals c).
Definition suspend (c : ProgressClock) (now : Mono) : ProgressClock :=
  match pc_suspended_since c with
  | Some _ => c
  | None => MkProgressClock (pc_last_progress c) (pc_window_start c) (pc_in_window c) (Some now) (pc_suspended_total_ms c) (pc_verify_bound c) (pc_local_refusals c)
  end.
Definition resume (c : ProgressClock) (now : Mono) : ProgressClock :=
  match pc_suspended_since c with
  | Some since => MkProgressClock now now 0 None (sat64 (pc_suspended_total_ms c + Mono_since now since)) (pc_verify_bound c) (pc_local_refusals c)
  | None => c
  end.
Definition suspended_total {E} (c : ProgressClock) (now : Mono) : outcome E Z :=
  add64 (pc_suspended_total_ms c) (match pc_suspended_since c with Some s => Mono_since now s | None => 0 end).
Definition attribute_ (c : ProgressClock) (k : StallKind) : StallKind := if 0 <? pc_local_refusals c then LocalReadRefused (pc_local_refusals c) else k.
Definition stall_verdict {E} (c : ProgressClock) (now : Mono) (ibd : bool) : outcome E (option StallKind) :=
  let? susp := suspended_total c now in
  if SYNC_SUSPEND_MAX_MS <=? susp then Ok (Some (LocalSuspendExceeded susp))
  else if match pc_suspended_since c with Some _ => true | None => false end then Ok None
  else if pc_verify_bound c then Ok None
  else if Mono_expired now (pc_last_progress c) STALL_TIMEOUT_MS then Ok (Some (attribute_ c NoProgress))
  else
    let floor := if ibd then SYNC_MIN_RATE_IBD_PER_10S else SYNC_MIN_RATE_TRACKING_PER_10S in
    if floor =? 0 then Ok None
    else
      let elapsed := Mono_since now (pc_window_start c) in
      if elapsed <? SYNC_RATE_WINDOW_MS then Ok None
      else
        let per_10s := sat64 (pc_in_window c * 10000) / Z.max elapsed 1 in
        if per_10s <? floor then Ok (Some (attribute_ c (BelowRateFloor per_10s))) else Ok None.

(** ** tree.rs *)
Record ForkTree := MkForkTree { ft_by_hash : gmap bytes PHeaderRec; ft_order : list bytes; ft_tips : list bytes; ft_evictions : Z }.
Definition ForkTree_new : ForkTree := MkForkTree ∅ [] [] 0.
Definition ne (x : bytes) (l : list bytes) : list bytes := filter (fun t => t <> x) l.
Definition ft_evict (t : ForkTree) (v : bytes) : ForkTree :=
  MkForkTree (delete v (ft_by_hash t)) (drop 1 (ft_order t)) (ne v (ft_tips t)) (ft_evictions t + 1).
(** The table of headers with [h] in it, the oldest evicted beyond the cap. *)
Definition ft_table (t : ForkTree) (h : PHeaderRec) : ForkTree :=
  match ft_by_hash t !! p_hash h with
  | Some _ => MkForkTree (<[p_hash h := h]> (ft_by_hash t)) (ft_order t) (ft_tips t) (ft_evictions t)
  | None =>
    let t := MkForkTree (<[p_hash h := h]> (ft_by_hash t)) (ft_order t ++ [p_hash h]) (ft_tips t) (ft_evictions t) in
    fold_left ft_evict (take (Z.to_nat (Zlen (ft_order t) - FORK_HEADERS_MAX)) (ft_order t)) t
  end.
Definition ft_insert (t : ForkTree) (h : PHeaderRec) : ForkTree :=
  let t := ft_table t h in
  let tips := ne (p_prev_hash h) (ft_tips t) in
  if bool_decide (p_hash h ∈ tips) then MkForkTree (ft_by_hash t) (ft_order t) tips (ft_evictions t)
  else
    let tips := tips ++ [p_hash h] in
    let excess := Z.max 0 (Zlen tips - FORK_TIPS_MAX) in
    MkForkTree (ft_by_hash t) (ft_order t) (drop (Z.to_nat excess) tips) (ft_evictions t + excess).
Definition ft_get (t : ForkTree) (h : bytes) : option PHeaderRec := ft_by_hash t !! h.
Definition ft_drop (t : ForkTree) (d : bytes) : ForkTree := MkForkTree (delete d (ft_by_hash t)) (ne d (ft_order t)) (ne d (ft_tips t)) (ft_evictions t).
Definition ft_forget (t : ForkTree) (hash : bytes) : ForkTree := match ft_by_hash t !! hash with None => t | Some _ => ft_drop t hash end.
Definition ft_truncate_from (t : ForkTree) (height : Z) : ForkTree :=
  let doomed := (map_to_list (filter (fun e => height <= p_height e.2) (ft_by_hash t))).*1 in
  fold_left ft_drop doomed t.

(** ** rotation.rs *)
Record Rotator := MkRotator { ro_charged : list Mono; ro_last_group : option bytes; ro_designated_at : option Mono; ro_grant_headers : Z; ro_since_none_eligible : option Mono }.
Inductive Designation := DPeer (id : Z) | DNoneYet | DWaive (id : Z).
Definition Rotator_new : Rotator := MkRotator [] None None 0 None.
Definition recent (window : Z) (now : Mono) (l : list Mono) : list Mono := filter (fun t => Mono_since now t < window) l.
Definition charged_in_window (r : Rotator) (now : Mono) : Z := wrap 32 (Zlen (recent ROTATION_WINDOW_MS now (ro_charged r))).
Definition budget_available (r : Rotator) (now : Mono) : bool := charged_in_window r now <? ROTATION_BUDGET.
Definition ro_charge (r : Rotator) (now : Mono) : Rotator :=
  MkRotator (recent ROTATION_WINDOW_MS now (ro_charged r ++ [now])) (ro_last_group r) (ro_designated_at r) (ro_grant_headers r) (ro_since_none_eligible r).
Definition designate (r : Rotator) (s : Session) (now : Mono) : Rotator := MkRotator (ro_charged r) (Some (ss_group s)) (Some now) 0 None.
Definition note_grant_headers (r : Rotator) (n : Z) : Rotator :=
  MkRotator (ro_charged r) (ro_last_group r) (ro_designated_at r) (sat64 (ro_grant_headers r + n)) (ro_since_none_eligible r).
Definition probation_expired (r : Rotator) (s : Session) (now : Mono) : bool :=
  match delivery_rate s now with
  | Some _ => false
  | None => match ro_designated_at r with
            | Some t => Mono_expired now t PROBE_GRANT_MS || (PROBE_GRANT_HEADERS <=? ro_grant_headers r)
            | None => false
            end
  end.
Definition set_since_none (r : Rotator) (x : option Mono) : Rotator := MkRotator (ro_charged r) (ro_last_group r) (ro_designated_at r) (ro_grant_headers r) x.
(** The best eligible peer so far: the peer, its rate and whether it has shown one. *)
Definition pick_step (last_group : option bytes) (several : bool) (now : Mono) (best : option (Session * Z * bool)) (s : Session) : option (Session * Z * bool) :=
  let rate := delivery_rate s now in
  let proven := match rate with Some _ => true | None => false end in
  let key := default 0 rate in
  let same_group := bool_decide (last_group = Some (ss_group s)) in
  let better :=
    match best with
    | None => true
    | Some (_, bk, bp) => if same_group && several then false else if negb (Bool.eqb proven bp) then proven else bk <? key
    end in
  if better then Some (s, key, proven) else best.
(** The first peer of least key, as [min_by_key] finds it. *)
Definition least_step (best : option Session) (s : Session) : option Session :=
  match best with
  | None => Some s
  | Some b => if default 0 (ss_last_penalised s) <? default 0 (ss_last_penalised b) then Some s else Some b
  end.
Definition select_peer (r : Rotator) (peers : list Session) (now : Mono) (ahead : Session -> bool) : Rotator * Designation :=
  let eligible := List.filter (fun s => ss_outbound s && sync_eligible s now && ahead s) peers in
  match fold_left (pick_step (ro_last_group r) (1 <? Zlen eligible) now) eligible None with
  | Some (s, _, _) => (set_since_none r None, DPeer (ss_id s))
  | None =>
    let started := default now (ro_since_none_eligible r) in
    let r := set_since_none r (Some started) in
    if Mono_expired now started SYNC_ELIGIBILITY_FLOOR_MS then
      match fold_left least_step (List.filter (fun s => ss_outbound s && is_ready s && negb (sc_sync_disqualified (ss_score s)) && ahead s) peers) None with
      | Some v => (set_since_none r None, DWaive (ss_id v))
      | None => (r, DNoneYet)
      end
    else (r, DNoneYet)
  end.
Definition lonely_waiver (peers : list Session) (now : Mono) : option Z :=
  match List.filter is_ready peers with
  | [only] =>
    match ss_sync_ineligible_until only with
    | Some t => if (Mono_since now t =? 0) && Mono_expired now (ss_connected_at only) LONELY_WAIVER_MS then Some (ss_id only) else None
    | None => None
    end
  | _ => None
  end.

(** ** recovery.rs *)
Definition Quarantine : Type := list (bytes * Mono * list Z).
Definition q_insert (q : Quarantine) (branch : bytes) (peers : list Z) (now : Mono) : Quarantine :=
  let q := List.filter (fun e => negb (bool_decide (fst (fst e) = branch))) q in
  let q := q ++ [(branch, Mono_plus_ms now QUARANTINE_MS, peers)] in
  if QUARANTINE_MAX <? Zlen q then drop 1 q else q.
Definition q_contains (q : Quarantine) (branch : bytes) (now : Mono) : bool :=
  existsb (fun e => bool_decide (fst (fst e) = branch) && (now <? snd (fst e))) q.
Definition q_peers (q : Quarantine) (branch : bytes) : list Z :=
  match List.find (fun e => bool_decide (fst (fst e) = branch)) q with Some (_, _, p) => p | None => [] end.
Definition q_audit_expire (q : Quarantine) (now : Mono) : Quarantine := List.filter (fun e => now <? snd (fst e)) q.
Definition note_failure (g : list Mono) (now : Mono) : list Mono := recent RECOVERY_FLAP_WINDOW_MS now (g ++ [now]).
Definition recent_failures (g : list Mono) (now : Mono) : Z := wrap 32 (Zlen (recent RECOVERY_FLAP_WINDOW_MS now g)).
Definition flapping (g : list Mono) (now : Mono) : bool := RECOVERY_FLAP_LIMIT <=? recent_failures g now.
Definition on_anchor_advanced (q : Quarantine) (rc : RejectCache) : Quarantine * RejectCache := ([], rc_audit_clear rc).

(** ** staging.rs *)
Record StagedHeader := MkStagedHeader { sg_rec : PHeaderRec; sg_from : Z; sg_verified : bool; sg_fast_forwarded : bool }.
Inductive VerifyOutcome :=
| Idle | Verified (rec : PHeaderRec) (from : Z) | FastForwarded (rec : PHeaderRec) (from : Z) | VBadPow (rec : PHeaderRec) (from : Z)
| AnchorMismatch (height : Z) (got : bytes) (from : Z).
Record Staging := MkStaging {
  sg_queue : list StagedHeader; sg_index : gmap bytes PHeaderRec; sg_verified_height : Z; sg_verified_tip : bytes; sg_rng : XRng; sg_countdown : Z;
  sg_pow_calls : Z; sg_ff : Z }.
Definition Staging_new (verified_height : Z) (verified_tip : bytes) (seed : Z) : Staging :=
  let '(rng, countdown) := below (XRng_new seed) FF_SAMPLE_RATE in
  MkStaging [] ∅ verified_height verified_tip rng countdown 0 0.
Definition staged_len (s : Staging) : Z := Zlen (sg_queue s).
Definition staged_bytes {E} (s : Staging) : outcome E Z := mul64 (staged_len s) HEADER_BYTES.
Definition staged_height (s : Staging) : Z := match list.last (sg_queue s) with Some x => p_height (sg_rec x) | None => sg_verified_height s end.
Definition staged_tip (s : Staging) : bytes := match list.last (sg_queue s) with Some x => p_hash (sg_rec x) | None => sg_verified_tip s end.
Definition can_stage (s : Staging) : bool := staged_len s <? PRESYNC_LEAD_HEADERS.
Definition with_queue (s : Staging) (q : list StagedHeader) (ix : gmap bytes PHeaderRec) : Staging :=
  MkStaging q ix (sg_verified_height s) (sg_verified_tip s) (sg_rng s) (sg_countdown s) (sg_pow_calls s) (sg_ff s).
Definition st_push (s : Staging) (h : PHeaderRec) (from : Z) : Staging * bool :=
  if negb (can_stage s) then (s, false)
  else (with_queue s (sg_queue s ++ [MkStagedHeader h from false false]) (<[p_hash h := h]> (sg_index s)), true).
Definition st_pop_front (s : Staging) : Staging * option StagedHeader :=
  match sg_queue s with
  | [] => (s, None)
  | x :: q => (with_queue s q (delete (p_hash (sg_rec x)) (sg_index s)), Some x)
  end.
Definition mark_front (s : Staging) (ff : bool) : Staging :=
  match sg_queue s with
  | [] => s
  | x :: q => with_queue s (MkStagedHeader (sg_rec x) (sg_from x) true (ff || sg_fast_forwarded x) :: q) (sg_index s)
  end.
Definition st_clear (s : Staging) : Staging := with_queue s [] ∅.
Definition front_costs_interpreter (s : Staging) (anchor : option Anchor) (verify_all : bool) : bool :=
  match sg_queue s with
  | [] => false
  | x :: _ =>
    if sg_verified x then false
    else match anchor with
    | Some a =>
      if p_height (sg_rec x) =? anchor_height a then false
      else if (p_height (sg_rec x) <? anchor_height a) && negb verify_all then sg_countdown s =? 0
      else true
    | None => true
    end
  end.
Definition with_sampling (s : Staging) (rng : XRng) (countdown pow_calls : Z) : Staging :=
  MkStaging (sg_queue s) (sg_index s) (sg_verified_height s) (sg_verified_tip s) rng countdown pow_calls (sg_ff s).
(** The whole check of a header. *)
Definition verify_full (pow : bytes -> bool) (s : Staging) (x : StagedHeader) : Staging * VerifyOutcome :=
  let s := with_sampling s (sg_rng s) (sg_countdown s) (sg_pow_calls s + 1) in
  if negb (pow (p_raw (sg_rec x))) then (fst (st_pop_front s), VBadPow (sg_rec x) (sg_from x))
  else (mark_front s false, Verified (sg_rec x) (sg_from x)).
(** The sampled check of a header below the anchor. *)
Definition verify_sampled (pow : bytes -> bool) (s : Staging) (x : StagedHeader) : Staging * VerifyOutcome :=
  if sg_countdown s =? 0 then
    let '(rng, n) := below (sg_rng s) FF_SAMPLE_RATE in
    let s := with_sampling s rng n (sg_pow_calls s + 1) in
    if negb (pow (p_raw (sg_rec x))) then (fst (st_pop_front s), VBadPow (sg_rec x) (sg_from x))
    else (mark_front s true, FastForwarded (sg_rec x) (sg_from x))
  else (mark_front (with_sampling s (sg_rng s) (sg_countdown s - 1) (sg_pow_calls s)) true, FastForwarded (sg_rec x) (sg_from x)).
Definition verify_step (pow : bytes -> bool) (s : Staging) (anchor : option Anchor) (verify_all : bool) : Staging * VerifyOutcome :=
  match sg_queue s with
  | [] => (s, Idle)
  | x :: _ =>
    let h := sg_rec x in
    if sg_verified x then (s, Verified h (sg_from x))
    else match anchor with
    | Some a =>
      if p_height h =? anchor_height a then
        if negb (bool_decide (p_hash h = anchor_hash a)) then (st_clear s, AnchorMismatch (p_height h) (p_hash h) (sg_from x))
        else (mark_front s false, Verified h (sg_from x))
      else if (p_height h <? anchor_height a) && negb verify_all then verify_sampled pow s x
      else verify_full pow s x
    | None => verify_full pow s x
    end
  end.
Definition commit_front (s : Staging) : Staging * option PHeaderRec :=
  let '(s, x) := st_pop_front s in
  match x with
  | None => (s, None)
  | Some x =>
    (MkStaging (sg_queue s) (sg_index s) (p_height (sg_rec x)) (p_hash (sg_rec x)) (sg_rng s) (sg_countdown s) (sg_pow_calls s)
       (if sg_fast_forwarded x then sg_ff s + 1 else sg_ff s), Some (sg_rec x))
  end.
Definition st_truncate_from (s : Staging) (height : Z) : Staging :=
  let gone := List.filter (fun x => height <=? p_height (sg_rec x)) (sg_queue s) in
  with_queue s (List.filter (fun x => negb (height <=? p_height (sg_rec x))) (sg_queue s))
    (fold_left (fun ix x => delete (p_hash (sg_rec x)) ix) gone (sg_index s)).
