(* ===== verification/P2pSyncProps.v ===== *)
(** Properties of header synchronisation: a peer is blamed for a stall only when the node was ready to receive, the
    sync peer is an eligible one and is found whenever there is one, headers below the anchor are spot-checked at the
    promised rate, and the tree of competing headers stays small. *)

From Stdlib Require Import ZArith Lia List.
From stdpp Require Import base gmap list numbers.
From S2P Require Import Prelude Constants Rules P2pConstants P2pWire P2pPeer P2pPeerProps P2pSession P2pGates P2pSync.
Import ListNotations.
Open Scope Z_scope.

(** ** The progress clock *)
Definition clock_ok (c : ProgressClock) : Prop :=
  0 <= pc_suspended_total_ms c < 2 ^ 63 /\ 0 <= pc_in_window c /\ 0 <= pc_local_refusals c /\ (forall t, pc_suspended_since c = Some t -> 0 <= t).
Definition suspended_ms (c : ProgressClock) (now : Mono) : Z :=
  pc_suspended_total_ms c + match pc_suspended_since c with Some s => Mono_since now s | None => 0 end.
(** The node was able to receive and to verify, and refused nothing. *)
Definition node_ready (c : ProgressClock) (now : Mono) : Prop :=
  suspended_ms c now < SYNC_SUSPEND_MAX_MS /\ pc_suspended_since c = None /\ pc_verify_bound c = false /\ pc_local_refusals c = 0.

(** A stall is blamed fairly: the verdict on the sync peer always exists; it costs the peer points exactly when the node was
    ready the whole time and the peer either delivered nothing for thirty seconds or, during the initial download, fewer headers
    than the floor over a full window; and a peer that delivers nothing for thirty seconds is never kept silently. *)
Theorem stall_blamed_fairly {E} (c : ProgressClock) (now : Mono) (ibd : bool) (Hc : clock_ok c) (Hn : 0 <= now < 2 ^ 63) :
  exists v, stall_verdict (E := E) c now ibd = Ok v /\
    ((exists k, v = Some k /\ 0 < stall_peer_points k) <->
       node_ready c now /\ (STALL_TIMEOUT_MS <= now - pc_last_progress c \/
         ibd = true /\ SYNC_RATE_WINDOW_MS <= now - pc_window_start c /\
           sat64 (pc_in_window c * 10000) / Z.max (Mono_since now (pc_window_start c)) 1 < SYNC_MIN_RATE_IBD_PER_10S)) /\
    (pc_suspended_since c = None -> pc_verify_bound c = false -> STALL_TIMEOUT_MS <= now - pc_last_progress c -> v <> None).
Proof.
  destruct Hc as (H1 & H2 & H3 & H4). unfold stall_verdict, suspended_total. fold (suspended_ms c now).
  assert (add64 (E := E) (pc_suspended_total_ms c) (match pc_suspended_since c with Some s => Mono_since now s | None => 0 end) = Ok (suspended_ms c now)) as ->.
  { apply add64_ok. destruct (pc_suspended_since c) as [t|] eqn:Et; [specialize (H4 t eq_refl); unfold Mono_since|]; lia. }
  cbn [obind]. unfold node_ready, attribute_, Mono_expired. set (susp := suspended_ms c now). clearbody susp. cbv zeta.
  unfold STALL_TIMEOUT_MS, SYNC_RATE_WINDOW_MS, SYNC_SUSPEND_MAX_MS in *.
  assert (forall k, 0 < stall_peer_points k <-> match k with NoProgress | BelowRateFloor _ => True | _ => False end) as Hp by (intros []; cbn; lia).
  destruct (Z.leb_spec 300000 susp); [eexists; split; [reflexivity|]; split; [|done]; split; [intros (k & [= <-] & Hk); by apply Hp in Hk|lia]|].
  destruct (pc_suspended_since c) as [t|]; [eexists; split; [reflexivity|]; split; [|done]; split; [by intros (? & [=] & _)|by intros ((_ & [=] & _) & _)]|].
  destruct (pc_verify_bound c); [eexists; split; [reflexivity|]; split; [|done]; split; [by intros (? & [=] & _)|by intros ((_ & _ & [=] & _) & _)]|].
  destruct (Z.leb_spec 30000 (Mono_since now (pc_last_progress c))) as [Hst|Hst]; unfold Mono_since in Hst.
  - eexists. split; [reflexivity|]. split; [|done]. destruct (Z.ltb_spec 0 (pc_local_refusals c)).
    + split; [intros (k & [= <-] & Hk); by apply Hp in Hk|lia].
    + split; [intros _; split; [split_and!; (done || lia)|lia]|]. intros _. eexists. split; [reflexivity|]. done.
  - destruct ibd; [|change (SYNC_MIN_RATE_TRACKING_PER_10S =? 0) with true; eexists; split; [reflexivity|]; split; [|lia]; split; [by intros (? & [=] & _)|intros (_ & [?|[[=] _]]); lia]].
    change (SYNC_MIN_RATE_IBD_PER_10S =? 0) with false. cbv iota. destruct (Z.ltb_spec (Mono_since now (pc_window_start c)) 30000) as [Hw|Hw]; unfold Mono_since in Hw.
    + eexists. split; [reflexivity|]. split; [|lia]. split; [by intros (? & [=] & _)|]. intros (_ & [?|(_ & ? & _)]); lia.
    + set (rate := sat64 _ / _). destruct (Z.ltb_spec rate SYNC_MIN_RATE_IBD_PER_10S); eexists; (split; [reflexivity|]); (split; [|lia]).
      * destruct (Z.ltb_spec 0 (pc_local_refusals c)); [split; [intros (k & [= <-] & Hk); by apply Hp in Hk|lia]|]. split; [intros _; split; [split_and!; (done || lia)|]; right; split_and!; (done || lia)|].
        intros _. eexists. split; [reflexivity|]. done.
      * split; [by intros (? & [=] & _)|]. intros (_ & [?|(_ & _ & ?)]); lia.
Qed.

(** ** The sync peer *)
Definition eligible (now : Mono) (ahead : Session -> bool) (s : Session) : bool := ss_outbound s && sync_eligible s now && ahead s.
Definition waivable (ahead : Session -> bool) (s : Session) : bool := ss_outbound s && is_ready s && negb (sc_sync_disqualified (ss_score s)) && ahead s.
Lemma pick_in lg sev now l : forall best s k p, fold_left (pick_step lg sev now) l best = Some (s, k, p) -> In s l \/ best = Some (s, k, p).
Proof.
  induction l as [|x l IH]; intros best s k p H; [by right|]. cbn [fold_left] in H. apply IH in H as [H|H]; [by left; right|]. unfold pick_step in H. cbv zeta in H.
  destruct (match best with None => _ | Some _ => _ end); [injection H as <- _ _; left; by left|by right].
Qed.
Lemma pick_some lg sev now l : forall best, best <> None \/ l <> [] -> fold_left (pick_step lg sev now) l best <> None.
Proof.
  induction l as [|x l IH]; intros best Hb; [by destruct Hb|]. cbn [fold_left]. apply IH. left. unfold pick_step. cbv zeta. destruct best as [[[??]?]|]; [|done].
  by destruct (if _ && _ then _ else _).
Qed.
Lemma least_in l : forall best v, fold_left least_step l best = Some v -> In v l \/ best = Some v.
Proof.
  induction l as [|x l IH]; intros best v H; [by right|]. cbn [fold_left] in H. apply IH in H as [H|H]; [by left; right|]. unfold least_step in H.
  destruct best as [b|]; [destruct (_ <? _); [|by right]|]; injection H as <-; left; by left.
Qed.
Lemma least_some l : forall best, best <> None \/ l <> [] -> fold_left least_step l best <> None.
Proof.
  induction l as [|x l IH]; intros best Hb; [by destruct Hb|]. cbn [fold_left]. apply IH. left. unfold least_step. destruct best; [by destruct (_ <? _)|done].
Qed.
Lemma filter_some {A} (f : A -> bool) l : (exists x, In x l /\ f x = true) <-> List.filter f l <> [].
Proof.
  split.
  - intros (x & Hx & Hf) H. assert (In x (List.filter f l)) as H' by (by apply filter_In). by rewrite H in H'.
  - destruct (List.filter f l) as [|x m] eqn:E; [done|]. intros _. exists x. apply filter_In. rewrite E. by left.
Qed.

(** The choice of the sync peer is sound and does not hang: a designated peer is always an outbound, eligible one that is ahead,
    and one is designated whenever there is one; the rules are waived only when nobody was eligible for the whole waiting time, for
    a ready peer that never sent provably bad data, and then they are waived if there is such a peer. *)
Theorem sync_peer_selection (r : Rotator) (peers : list Session) (now : Mono) (ahead : Session -> bool) :
  let '(r', d) := select_peer r peers now ahead in
  (forall id, d = DPeer id -> exists s, In s peers /\ ss_id s = id /\ eligible now ahead s = true) /\
  ((exists s, In s peers /\ eligible now ahead s = true) <-> exists id, d = DPeer id) /\
  (forall id, d = DWaive id -> exists s, In s peers /\ ss_id s = id /\ waivable ahead s = true) /\
  ((exists id, d = DWaive id) <-> ~ (exists s, In s peers /\ eligible now ahead s = true) /\ (exists s, In s peers /\ waivable ahead s = true) /\
     SYNC_ELIGIBILITY_FLOOR_MS <= Mono_since now (default now (ro_since_none_eligible r))).
Proof.
  pose proof (filter_some (eligible now ahead) peers) as Hel. pose proof (filter_some (waivable ahead) peers) as Hwv. unfold select_peer. change (fun s => ss_outbound s && sync_eligible s now && ahead s) with (eligible now ahead).
  change (fun s => ss_outbound s && is_ready s && negb (sc_sync_disqualified (ss_score s)) && ahead s) with (waivable ahead).
  set (el := List.filter (eligible now ahead) peers) in *. set (wa := List.filter (waivable ahead) peers) in *.
  destruct (fold_left (pick_step _ _ _) el None) as [[[s k] p]|] eqn:Ep.
  - pose proof Ep as Hs. apply pick_in in Hs as [Hs|[=]]. apply filter_In in Hs as [Hs He]. assert (el <> []) as Hne by (intros E; by rewrite E in Ep).
    cbv beta iota. rewrite Hel, Hwv. split_and!; [intros id [= <-]; eauto|split; [eauto|done]|done|]. split; [by intros [? [=]]|]. by intros (? & _).
  - assert (el = []) as He by (destruct el as [|x el]; [done|]; exfalso; eapply (pick_some _ _ _ (x :: el) None); [by right|exact Ep]). cbv zeta. unfold Mono_expired.
    destruct (Z.leb_spec SYNC_ELIGIBILITY_FLOOR_MS (Mono_since now (default now (ro_since_none_eligible r)))) as [Hf|Hf].
    + destruct (fold_left least_step wa None) as [v|] eqn:Ew.
      * pose proof Ew as Hv. apply least_in in Hv as [Hv|[=]]. apply filter_In in Hv as [Hv Hw]. assert (wa <> []) as Hne by (intros E; by rewrite E in Ew).
        cbv beta iota. rewrite Hel, Hwv, He. split_and!; [done|split; [done|by intros [? [=]]]|intros id [= <-]; eauto|]. split; [|eauto]. intros _. split_and!; [by intros Hx|done|done].
      * assert (wa = []) as Hwa by (destruct wa as [|x wa]; [done|]; exfalso; eapply (least_some (x :: wa) None); [by right|exact Ew]). cbv beta iota. rewrite Hel, Hwv, He, Hwa.
        split_and!; [done|split; [done|by intros [? [=]]]|done|]. split; [by intros [? [=]]|]. by intros (_ & ? & _).
    + cbv beta iota. rewrite Hel, Hwv, He. split_and!; [done|split; [done|by intros [? [=]]]|done|]. split; [by intros [? [=]]|]. intros (_ & _ & ?). lia.
Qed.

(** The rule that the group of the last sync peer is not picked again while another is free only holds for peers after the first:
    here the first eligible peer is of that group, another group is free, and the first is picked again. *)
Definition fast_again : Session := set_verified_delivered 100 (set_state Ready (Session_new 1 [10; 1; 0; 0] true 0)).
Definition other_group : Session := set_verified_delivered 50 (set_state Ready (Session_new 2 [20; 1; 0; 0] true 0)).
Lemma last_group_picked_again :
  let r := MkRotator [] (Some (ss_group fast_again)) None 0 None in
  ss_group other_group <> ss_group fast_again /\ eligible 1000 (fun _ => true) other_group = true /\
  snd (select_peer r [fast_again; other_group] 1000 (fun _ => true)) = DPeer (ss_id fast_again) /\
  snd (select_peer r [other_group; fast_again] 1000 (fun _ => true)) = DPeer (ss_id other_group).
Proof. vm_compute. split_and!; (reflexivity || discriminate). Qed.

(** ** Staging *)
Definition sampling_ok (s : Staging) : Prop := 0 <= sg_countdown s < FF_SAMPLE_RATE /\ Zlen (sg_queue s) <= PRESYNC_LEAD_HEADERS.
Lemma below_bounds r n : 0 < n -> 0 <= snd (below r n) < n.
Proof. intros Hn. unfold below. destruct (Z.eqb_spec n 0); [lia|]. destruct (next_u64 r). cbn. by apply Z.mod_pos_bound. Qed.
Lemma Staging_new_ok h t seed : sampling_ok (Staging_new h t seed) /\ sg_pow_calls (Staging_new h t seed) = 0.
Proof.
  unfold Staging_new. pose proof (below_bounds (XRng_new seed) FF_SAMPLE_RATE ltac:(done)). destruct (below _ _) as [rng n]. cbn in H. split; [|done]. split; cbn [sg_countdown sg_queue]; [lia|done].
Qed.
Lemma mark_front_len s ff : Zlen (sg_queue (mark_front s ff)) = Zlen (sg_queue s).
Proof. unfold mark_front. destruct (sg_queue s) as [|x q] eqn:E; cbn; [by rewrite E|]. by rewrite !Zlen_cons. Qed.
Lemma mark_front_keeps s ff : sg_countdown (mark_front s ff) = sg_countdown s /\ sg_pow_calls (mark_front s ff) = sg_pow_calls s.
Proof. unfold mark_front. by destruct (sg_queue s). Qed.
Lemma pop_front_len s : Zlen (sg_queue (fst (st_pop_front s))) <= Zlen (sg_queue s).
Proof. unfold st_pop_front. destruct (sg_queue s) as [|x q] eqn:E; cbn; [by rewrite E|]. rewrite Zlen_cons. lia. Qed.
Lemma pop_front_keeps s : sg_countdown (fst (st_pop_front s)) = sg_countdown s /\ sg_pow_calls (fst (st_pop_front s)) = sg_pow_calls s.
Proof. unfold st_pop_front. by destruct (sg_queue s). Qed.
Definition is_ff (o : VerifyOutcome) : Z := match o with FastForwarded _ _ => 1 | _ => 0 end.
(** Sampling: a header fast-forwarded takes one off the countdown or costs a proof-of-work check. *)
Definition sampled (s s' : Staging) (n : Z) : Prop :=
  sampling_ok s' /\ n + sg_countdown s' <= sg_countdown s + FF_SAMPLE_RATE * (sg_pow_calls s' - sg_pow_calls s).
Lemma verify_full_sampled pow s x : sampling_ok s -> sampled s (fst (verify_full pow s x)) (is_ff (snd (verify_full pow s x))).
Proof.
  intros [Hc Hq]. unfold verify_full, sampled, sampling_ok, FF_SAMPLE_RATE in *. set (t := with_sampling _ _ _ _). assert (sg_countdown t = sg_countdown s /\ sg_pow_calls t = sg_pow_calls s + 1 /\ sg_queue t = sg_queue s) as (T1 & T2 & T3) by done.
  destruct (negb _); cbn [fst snd is_ff].
  - destruct (pop_front_keeps t) as [-> ->]. pose proof (pop_front_len t). rewrite T3 in *. lia.
  - destruct (mark_front_keeps t false) as [-> ->]. rewrite mark_front_len, T3. lia.
Qed.
Lemma verify_sampled_sampled pow s x : sampling_ok s -> sampled s (fst (verify_sampled pow s x)) (is_ff (snd (verify_sampled pow s x))).
Proof.
  intros [Hc Hq]. unfold verify_sampled, sampled, sampling_ok, FF_SAMPLE_RATE in *. destruct (Z.eqb_spec (sg_countdown s) 0) as [E|E].
  - pose proof (below_bounds (sg_rng s) 128 ltac:(lia)) as Hn. destruct (below (sg_rng s) 128) as [rng n]. cbn [snd] in Hn. set (t := with_sampling _ _ _ _).
    assert (sg_countdown t = n /\ sg_pow_calls t = sg_pow_calls s + 1 /\ sg_queue t = sg_queue s) as (T1 & T2 & T3) by done. destruct (negb _); cbn [fst snd is_ff].
    + destruct (pop_front_keeps t) as [-> ->]. pose proof (pop_front_len t). rewrite T3 in *. lia.
    + destruct (mark_front_keeps t true) as [-> ->]. rewrite mark_front_len, T3. lia.
  - cbn [fst snd is_ff]. destruct (mark_front_keeps (with_sampling s (sg_rng s) (sg_countdown s - 1) (sg_pow_calls s)) true) as [-> ->]. rewrite mark_front_len. cbn [sg_countdown sg_pow_calls sg_queue with_sampling]. lia.
Qed.
Lemma sampled_refl s : sampling_ok s -> sampled s s 0.
Proof. intros H. split; [done|lia]. Qed.
Lemma verify_step_sampled pow s anchor all : sampling_ok s -> sampled s (fst (verify_step pow s anchor all)) (is_ff (snd (verify_step pow s anchor all))).
Proof.
  intros H. unfold verify_step. destruct (sg_queue s) as [|x q] eqn:Eq; [by apply sampled_refl|]. cbv zeta. destruct (sg_verified x); [by apply sampled_refl|].
  destruct anchor as [a|]; [|by apply verify_full_sampled]. destruct (_ =? _).
  - destruct (negb _); cbn [fst snd is_ff].
    + destruct H as [H1 H2]. split; [split; [done|done]|cbn; lia].
    + destruct H as [H1 H2]. split; [|destruct (mark_front_keeps s false) as [-> ->]; lia]. split; [by destruct (mark_front_keeps s false) as [-> _]|by rewrite mark_front_len].
  - destruct (_ && _); [by apply verify_sampled_sampled|by apply verify_full_sampled].
Qed.

(** What synchronisation does to the staging queue. *)
Inductive StagingOp := StPush (h : PHeaderRec) (from : Z) | StVerify (anchor : option Anchor) (all : bool) | StCommit | StTruncate (height : Z) | StClear.
Definition staging_step (pow : bytes -> bool) (s : Staging) (o : StagingOp) : Staging * Z :=
  match o with
  | StPush h from => (fst (st_push s h from), 0)
  | StVerify a all => (fst (verify_step pow s a all), is_ff (snd (verify_step pow s a all)))
  | StCommit => (fst (commit_front s), 0)
  | StTruncate h => (st_truncate_from s h, 0)
  | StClear => (st_clear s, 0)
  end.
Fixpoint staging_run (pow : bytes -> bool) (s : Staging) (l : list StagingOp) : Staging * Z :=
  match l with [] => (s, 0) | o :: l => let '(s, n) := staging_step pow s o in let '(s, m) := staging_run pow s l in (s, n + m) end.
Lemma staging_step_sampled pow s o : sampling_ok s -> sampled s (fst (staging_step pow s o)) (snd (staging_step pow s o)).
Proof.
  intros H. pose proof H as [H1 H2]. unfold sampled, sampling_ok. destruct o as [h from|a all| |h|]; cbn [staging_step fst snd].
  - unfold st_push, can_stage, staged_len. destruct (Z.ltb_spec (Zlen (sg_queue s)) PRESYNC_LEAD_HEADERS); cbn [negb fst]; [|split; [done|lia]].
    cbn [sg_countdown sg_queue sg_pow_calls with_queue]. rewrite Zlen_app. split; [split; [done|]|lia]. unfold Zlen at 2. cbn [length]. lia.
  - by apply verify_step_sampled.
  - unfold commit_front. pose proof (pop_front_len s). destruct (pop_front_keeps s) as [E1 E2]. destruct (st_pop_front s) as [t [x|]]; cbn [fst sg_countdown sg_queue sg_pow_calls] in *; rewrite E1, E2; (split; [split; [done|lia]|lia]).
  - cbn [st_truncate_from with_queue sg_countdown sg_queue sg_pow_calls]. split; [split; [done|]|lia]. etransitivity; [|exact H2]. unfold Zlen. apply inj_le, filter_length_le.
  - cbn. split; [|lia]. split; [done|]. done.
Qed.
Lemma staging_run_sampled pow l : forall s, sampling_ok s -> sampled s (fst (staging_run pow s l)) (snd (staging_run pow s l)).
Proof.
  induction l as [|o l IH]; intros s H; [by apply sampled_refl|]. cbn [staging_run]. pose proof (staging_step_sampled pow s o H) as [H1 E1]. destruct (staging_step pow s o) as [s1 n]. cbn [fst snd] in *.
  specialize (IH s1 H1) as [H2 E2]. destruct (staging_run pow s1 l) as [s2 m]. cbn [fst snd] in *. split; [done|]. lia.
Qed.


(** ** The tree of competing headers *)
Record tree_ok (t : ForkTree) : Prop := {
  to_headers : capped FORK_HEADERS_MAX (ft_by_hash t) (ft_order t);
  to_tips : NoDup (ft_tips t);
  to_held : forall x, x ∈ ft_tips t -> x ∈ ft_order t;
  to_few : Zlen (ft_tips t) <= FORK_TIPS_MAX;
}.
Lemma in_ne x y l : y ∈ ne x l <-> y <> x /\ y ∈ l.
Proof. unfold ne. by rewrite list_elem_of_filter. Qed.
Lemma Zlen_ne x l : Zlen (ne x l) <= Zlen l.
Proof. unfold ne, Zlen. apply inj_le, length_filter. Qed.
Lemma ft_drop_ok t d : tree_ok t -> tree_ok (ft_drop t d).
Proof.
  intros [[H1 H2 H3] H4 H5 H6]. split; cbn [ft_drop ft_by_hash ft_order ft_tips].
  - split; [by apply list.NoDup_filter| |pose proof (Zlen_ne d (ft_order t)); lia]. intros k. rewrite in_ne, <-H2. destruct (decide (k = d)) as [->|Hne]; [rewrite lookup_delete_eq; split; [by intros []|by intros []]|].
    rewrite lookup_delete_ne by done. tauto.
  - by apply list.NoDup_filter.
  - intros x. rewrite !in_ne. intros [? ?]. split; [done|by apply H5].
  - pose proof (Zlen_ne d (ft_tips t)). lia.
Qed.
Lemma NoDup_suffix {A} n (l : list A) : NoDup l -> NoDup (drop n l).
Proof. intros H. rewrite <-(take_drop n l) in H. by apply list.NoDup_app in H as (_ & _ & H). Qed.
(** The new header is in the table, and nothing else but the oldest may have left it. *)
Lemma ft_table_ok t h : tree_ok t -> tree_ok (ft_table t h) /\ ft_by_hash (ft_table t h) !! p_hash h = Some h.
Proof.
  intros [Hc H4 H5 H6]. pose proof (capped_insert_spec FORK_HEADERS_MAX (p_hash h) h (ft_by_hash t) (ft_order t) ltac:(done) Hc) as H. destruct Hc as [H1 H2 H3]. unfold capped_insert in H. unfold ft_table.
  destruct (ft_by_hash t !! p_hash h) as [x|] eqn:Eh; [split; [split; [apply H|done..]|apply H]|]. cbv zeta in *. cbn [ft_order].
  assert (Zlen (ft_order t ++ [p_hash h]) = Zlen (ft_order t) + 1) as Hl by (by rewrite Zlen_app). rewrite Hl in *. destruct (Z.ltb_spec FORK_HEADERS_MAX (Zlen (ft_order t) + 1)).
  - replace (Zlen (ft_order t) + 1 - FORK_HEADERS_MAX) with 1 by lia. destruct (ft_order t) as [|o order] eqn:Eo; [unfold FORK_HEADERS_MAX, Zlen in *; cbn [length] in *; lia|].
    cbn [app] in *. change (take (Z.to_nat 1) (o :: order ++ [p_hash h])) with [o]. cbn [fold_left]. split; [split|apply H]; cbn [ft_evict ft_by_hash ft_order ft_tips].
    + apply H.
    + by apply list.NoDup_filter.
    + intros x. rewrite in_ne. intros [Hx Hin]. apply H5 in Hin. change (x ∈ order ++ [p_hash h]). rewrite elem_of_app. apply elem_of_cons in Hin as [->|?]; [done|by left].
    + pose proof (Zlen_ne o (ft_tips t)). lia.
  - replace (Z.to_nat (Zlen (ft_order t) + 1 - FORK_HEADERS_MAX)) with O by lia. rewrite take_0. cbn [fold_left]. split; [split|apply H]; cbn [ft_by_hash ft_order ft_tips]; [apply H|done| |done].
    intros x Hx. rewrite elem_of_app. left. by apply H5.
Qed.
Lemma ft_insert_ok t h : tree_ok t -> tree_ok (ft_insert t h) /\ ft_get (ft_insert t h) (p_hash h) = Some h.
Proof.
  intros Ht. unfold ft_insert. destruct (ft_table_ok t h Ht) as [[Hc Hn Hheld Hfew] Hh]. cbv zeta. set (u := ft_table t h) in *. clearbody u. set (tips := ne (p_prev_hash h) (ft_tips u)).
  assert (NoDup tips) as Hnt by (by apply list.NoDup_filter). assert (forall x, x ∈ tips -> x ∈ ft_order u) as Hht by (intros x Hx; apply in_ne in Hx as [_ Hx]; by apply Hheld).
  assert (Zlen tips <= FORK_TIPS_MAX) as Hft by (pose proof (Zlen_ne (p_prev_hash h) (ft_tips u)); unfold tips; lia). case_bool_decide as Hin; (split; [|done]).
  - by split.
  - assert (p_hash h ∈ ft_order u) as Hu by (apply (cp_dom _ _ _ Hc); eauto).
    assert (forall x, x ∈ tips ++ [p_hash h] -> x ∈ ft_order u) as Happ by (intros x; rewrite elem_of_app, list_elem_of_singleton; intros [?| ->]; [by apply Hht|done]).
    split; cbn [ft_by_hash ft_order ft_tips]; [done| | |].
    + apply NoDup_suffix. apply list.NoDup_app. split_and!; [done|intros x Hx ->%list_elem_of_singleton; done|apply NoDup_singleton].
    + intros x Hx. apply Happ. rewrite <-(take_drop (Z.to_nat (Z.max 0 (Zlen (tips ++ [p_hash h]) - FORK_TIPS_MAX)))). apply elem_of_app. by right.
    + unfold Zlen at 1. rewrite length_drop. unfold Zlen, FORK_TIPS_MAX in *. lia.
Qed.
Inductive TreeOp := TInsert (h : PHeaderRec) | TForget (x : bytes) | TTruncate (height : Z).
Definition tree_step (t : ForkTree) (o : TreeOp) : ForkTree := match o with TInsert h => ft_insert t h | TForget x => ft_forget t x | TTruncate n => ft_truncate_from t n end.
(** Whatever peers announce, the tree holds at most its cap of headers, each listed once, and at most eight tips, all of them held. *)
Lemma fork_tree_bounded ops : tree_ok (fold_left tree_step ops ForkTree_new).
Proof.
  assert (tree_ok ForkTree_new) as H0 by (split; [by apply capped_empty|constructor|by intros ? ?%not_elem_of_nil|done]).
  revert H0. generalize ForkTree_new. induction ops as [|o ops IH]; intros t Ht; [done|]. cbn [fold_left]. apply IH. destruct o; cbn [tree_step].
  - by apply ft_insert_ok.
  - unfold ft_forget. destruct (_ !! _); [by apply ft_drop_ok|done].
  - unfold ft_truncate_from. cbv zeta. generalize ((map_to_list (filter (fun e : bytes * PHeaderRec => height <= p_height e.2) (ft_by_hash t))).*1). intros l. clear IH. revert t Ht. induction l as [|d l IHl]; intros t Ht; [done|]. cbn [fold_left]. by apply IHl, ft_drop_ok.
Qed.

(** ** Witness *)
Lemma stall_blamed_fairly_witness : exists v, stall_verdict (E := unit) (ProgressClock_new 0) 40000 true = Ok v /\
    ((exists k, v = Some k /\ 0 < stall_peer_points k) <->
       node_ready (ProgressClock_new 0) 40000 /\ (STALL_TIMEOUT_MS <= 40000 - 0 \/
         true = true /\ SYNC_RATE_WINDOW_MS <= 40000 - 0 /\ sat64 (0 * 10000) / Z.max (Mono_since 40000 0) 1 < SYNC_MIN_RATE_IBD_PER_10S)) /\
    (@None Mono = None -> false = false -> STALL_TIMEOUT_MS <= 40000 - 0 -> v <> None).
Proof. apply (stall_blamed_fairly (ProgressClock_new 0) 40000 true); [|lia]. unfold clock_ok, ProgressClock_new. cbn. split_and!; try lia. done. Defined.
