(* ===== verification/Crc32c.v ===== *)
(** The frame checksum of the body segments (src/lib/storage/src/crc32c.rs): CRC-32C computed eight bytes at a
    time from a table built at compile time. It is shown to be the bit-serial division it stands for, and to
    notice every change that lies within four consecutive bytes. *)

From Stdlib Require Import ZArith Lia List.
From stdpp Require Import base list numbers.
From S2P Require Import Prelude.
Import ListNotations.
Open Scope Z_scope.

(** ** The code *)
Definition POLY : Z := 0x82F63B78.
Definition crc_bit (crc : Z) : Z :=
  if negb (Z.land crc 1 =? 0) then Z.lxor (Z.shiftr crc 1) POLY else Z.shiftr crc 1.

(** [t[0]], and from each row the next. *)
Definition build_row0 : list Z := (fun i => Nat.iter 8 crc_bit i) <$> zrange 0 256.
Definition build_row (row0 prev_row : list Z) : list Z :=
  (fun prev => Z.lxor (Z.shiftr prev 8) (byte_at row0 (Z.land prev 0xFF))) <$> prev_row.
Fixpoint build_rows (row0 prev_row : list Z) (n : nat) : list (list Z) :=
  match n with
  | O => []
  | S n => let row := build_row row0 prev_row in row :: build_rows row0 row n
  end.
Definition build : list (list Z) := build_row0 :: build_rows build_row0 build_row0 7.
Definition TABLE : list (list Z) := Eval vm_compute in build.

(** [TABLE[s][i]]: the indices below are masked to eight bits, and [s] is a literal. *)
Definition table_at (s : nat) (i : Z) : Z := byte_at (nth s TABLE []) i.

Definition crc_chunk (crc : Z) (c : bytes) : Z :=
  let lo := Z.lxor (from_le (slice c 0 4)) crc in
  let hi := from_le (slice c 4 8) in
  let x := Z.lxor (table_at 7 (Z.land lo 0xFF)) (table_at 6 (Z.land (Z.shiftr lo 8) 0xFF)) in
  let x := Z.lxor x (table_at 5 (Z.land (Z.shiftr lo 16) 0xFF)) in
  let x := Z.lxor x (table_at 4 (Z.land (Z.shiftr lo 24) 0xFF)) in
  let x := Z.lxor x (table_at 3 (Z.land hi 0xFF)) in
  let x := Z.lxor x (table_at 2 (Z.land (Z.shiftr hi 8) 0xFF)) in
  let x := Z.lxor x (table_at 1 (Z.land (Z.shiftr hi 16) 0xFF)) in
  Z.lxor x (table_at 0 (Z.land (Z.shiftr hi 24) 0xFF)).

Definition crc_byte (crc b : Z) : Z :=
  Z.lxor (Z.shiftr crc 8) (table_at 0 (Z.land (Z.lxor crc b) 0xFF)).

(** [chunks_exact(8)], then the remainder; the fuel is the number of bytes left. *)
Fixpoint crc_loop (fuel : nat) (crc : Z) (data : bytes) : Z :=
  match fuel with
  | O => crc
  | S fuel =>
    if 8 <=? Zlen data then crc_loop fuel (crc_chunk crc (slice data 0 8)) (drop 8 data)
    else fold_left crc_byte data crc
  end.
Definition not32 (x : Z) : Z := Z.lxor x (umax 32).
Definition crc32c (data : bytes) : Z := not32 (crc_loop (S (length data)) (not32 0) data).

(** ** The reference: one bit at a time *)
Definition crc_ref_byte (crc b : Z) : Z := Nat.iter 8 crc_bit (Z.lxor crc b).
Definition crc_ref (data : bytes) : Z := not32 (fold_left crc_ref_byte data (not32 0)).
Abbreviation crc_bits n := (Nat.iter n crc_bit).

Lemma table_is_built : TABLE = build.
Proof. vm_compute. reflexivity. Qed.
Lemma crc_bit_odd x : crc_bit x = Z.lxor (Z.shiftr x 1) (if Z.testbit x 0 then POLY else 0).
Proof.
  unfold crc_bit. change 1 with (2 ^ 0) at 1. rewrite land_flag_test by lia. destruct (Z.testbit x 0); [done|]. by rewrite Z.lxor_0_r.
Qed.
Lemma crc_bit_lxor a b : crc_bit (Z.lxor a b) = Z.lxor (crc_bit a) (crc_bit b).
Proof.
  rewrite !crc_bit_odd, Z.shiftr_lxor, Z.lxor_spec. apply Z.bits_inj'. intros n Hn. rewrite !Z.lxor_spec.
  destruct (Z.testbit a 0), (Z.testbit b 0); cbn [xorb]; rewrite ?Z.bits_0; destruct (Z.testbit (Z.shiftr a 1) n), (Z.testbit (Z.shiftr b 1) n), (Z.testbit POLY n); reflexivity.
Qed.
Lemma crc_bits_lxor n a b : crc_bits n (Z.lxor a b) = Z.lxor (crc_bits n a) (crc_bits n b).
Proof. induction n as [|n IH]; [done|]. rewrite !Nat.iter_succ. by rewrite IH, crc_bit_lxor. Qed.
Lemma crc_bits_add m n x : crc_bits (m + n) x = crc_bits m (crc_bits n x).
Proof. apply Nat.iter_add. Qed.
Lemma crc_bits_shift n x : crc_bits n (Z.shiftl x (Z.of_nat n)) = x.
Proof.
  induction n as [|n IH]; [apply Z.shiftl_0_r|]. rewrite Nat.iter_succ_r. rewrite <- IH at 2. f_equal.
  rewrite crc_bit_odd, Z.shiftl_spec by lia. rewrite Z.testbit_neg_r by lia. rewrite Z.lxor_0_r, Z.shiftr_shiftl_l by lia. f_equal. lia.
Qed.

(** A byte in front of a number is added to it, and contributes [8] more divisions. *)
Lemma byte_front b x : byte_ok b -> 0 <= x -> b + 256 * x = Z.lxor b (Z.shiftl x 8).
Proof.
  intros Hb Hx. rewrite Z.shiftl_mul_pow2 by lia. change (2 ^ 8) with 256. rewrite Z.add_nocarry_lxor; [f_equal; lia|].
  apply Z.bits_inj'. intros n Hn. rewrite Z.land_spec, Z.bits_0. destruct (Z.lt_ge_cases n 8).
  - replace (256 * x) with (x * 2 ^ 8) by lia. rewrite Z.mul_pow2_bits_low by lia. apply andb_false_r.
  - rewrite (testbit_high 8 b) by (unfold byte_ok in Hb; lia). done.
Qed.
Lemma from_le_front b l : bytes_ok (b :: l) -> from_le (b :: l) = Z.lxor b (Z.shiftl (from_le l) 8).
Proof. intros [Hb Hl]%list.Forall_cons. rewrite from_le_cons. apply byte_front; [done|]. by apply from_le_bounds. Qed.
Lemma ref_fold data : forall crc, bytes_ok data -> fold_left crc_ref_byte data crc = crc_bits (8 * length data) (Z.lxor crc (from_le data)).
Proof.
  induction data as [|b l IH]; intros crc Hd; [cbn; by rewrite Z.lxor_0_r|]. cbn [fold_left length]. pose proof Hd as [Hb Hl]%list.Forall_cons. rewrite IH by done.
  rewrite from_le_front by done. rewrite <- (crc_bits_shift 8 (from_le l)) at 1. unfold crc_ref_byte. rewrite <- crc_bits_lxor, <- crc_bits_add, Z.lxor_assoc. f_equal. lia.
Qed.

(** ** The table *)
Lemma table_at_spec s i : (s < 8)%nat -> 0 <= i < 256 -> table_at s i = crc_bits (8 * (s + 1)) i.
Proof.
  intros Hs Hi. assert (H : forallb (fun s => forallb (fun i => table_at s i =? crc_bits (8 * (s + 1)) i) (zrange 0 256)) (seq 0 8) = true) by (vm_compute; reflexivity).
  rewrite forallb_forall in H. specialize (H s ltac:(apply in_seq; lia)). rewrite forallb_forall in H. apply Z.eqb_eq, H. apply in_zrange. lia.
Qed.
Lemma low_byte x : Z.land x 0xFF = x mod 256.
Proof. change 0xFF with (2 ^ 8 - 1). rewrite land_mask by lia. done. Qed.
Lemma byte_split x : 0 <= x -> x = Z.lxor (x mod 256) (Z.shiftl (Z.shiftr x 8) 8).
Proof.
  intros Hx. rewrite <- byte_front; [|split; apply Z.mod_pos_bound; lia|by apply Z.shiftr_nonneg]. rewrite Z.shiftr_div_pow2 by lia. change (2 ^ 8) with 256.
  rewrite (Z.div_mod x 256) at 1 by lia. lia.
Qed.
Lemma crc_byte_spec crc b : 0 <= crc -> byte_ok b -> crc_byte crc b = crc_ref_byte crc b.
Proof.
  intros Hc Hb. unfold crc_byte, crc_ref_byte. assert (0 <= Z.lxor crc b) by (apply Z.lxor_nonneg; unfold byte_ok in Hb; lia).
  rewrite (byte_split (Z.lxor crc b)) at 2 by done. rewrite crc_bits_lxor, crc_bits_shift, low_byte, Z.lxor_comm.
  rewrite table_at_spec by (try lia; apply Z.mod_pos_bound; lia). change (8 * (0 + 1))%nat with 8%nat. f_equal. rewrite Z.shiftr_lxor.
  rewrite (Z.shiftr_div_pow2 b) by lia. unfold byte_ok in Hb. rewrite (Z.div_small b) by lia. by rewrite Z.lxor_0_r.
Qed.
Lemma crc_bits_0 n : crc_bits n 0 = 0.
Proof. rewrite <- (crc_bits_shift n 0) at 2. by rewrite Z.shiftl_0_l. Qed.
Lemma peel_byte n x : (n < 8)%nat -> 0 <= x ->
  crc_bits (8 * (n + 1)) x = Z.lxor (table_at n (Z.land x 0xFF)) (crc_bits (8 * n) (Z.shiftr x 8)).
Proof.
  intros Hn Hx. rewrite (byte_split x Hx) at 1. rewrite crc_bits_lxor, low_byte, table_at_spec by (try lia; apply Z.mod_pos_bound; lia). f_equal.
  replace (8 * (n + 1))%nat with (8 * n + 8)%nat by lia. rewrite crc_bits_add. f_equal. apply crc_bits_shift.
Qed.
Lemma peel_four n x : (n < 5)%nat -> 0 <= x < 2 ^ 32 ->
  crc_bits (8 * (n + 4)) x =
  Z.lxor (table_at (n + 3) (Z.land x 0xFF)) (Z.lxor (table_at (n + 2) (Z.land (Z.shiftr x 8) 0xFF))
    (Z.lxor (table_at (n + 1) (Z.land (Z.shiftr x 16) 0xFF)) (table_at n (Z.land (Z.shiftr x 24) 0xFF)))).
Proof.
  intros Hn Hx. replace (8 * (n + 4))%nat with (8 * (n + 3 + 1))%nat by lia. rewrite peel_byte by lia. f_equal.
  assert (Hs : forall k, 0 <= Z.shiftr x k) by (intros; apply Z.shiftr_nonneg; lia).
  replace (8 * (n + 3))%nat with (8 * (n + 2 + 1))%nat by lia. rewrite peel_byte by (lia || apply Hs). f_equal. rewrite Z.shiftr_shiftr by lia.
  replace (8 * (n + 2))%nat with (8 * (n + 1 + 1))%nat by lia. rewrite peel_byte by (lia || apply Hs). f_equal. rewrite Z.shiftr_shiftr by lia.
  rewrite peel_byte by (lia || apply Hs). rewrite Z.shiftr_shiftr by lia. replace (Z.shiftr x (8 + 8 + 8 + 8)) with 0 by (symmetry; rewrite Z.shiftr_div_pow2 by lia; apply Z.div_small; lia).
  by rewrite crc_bits_0, Z.lxor_0_r.
Qed.
Lemma chunk_value c : bytes_ok c -> Zlen c = 8 -> from_le c = Z.lxor (from_le (slice c 0 4)) (Z.shiftl (from_le (slice c 4 8)) 32).
Proof.
  intros Hc Hl. assert (Hsp : c = slice c 0 4 ++ slice c 4 8).
  { unfold slice. change (Z.to_nat 0) with O. rewrite drop_0. change (Z.to_nat (4 - 0)) with 4%nat. change (Z.to_nat (8 - 4)) with 4%nat. change (Z.to_nat 4) with 4%nat.
    rewrite <- (take_drop 4 c) at 1. f_equal. rewrite take_ge; [done|]. rewrite length_drop. unfold Zlen in Hl. lia. }
  rewrite Hsp at 1. rewrite from_le_app, Zlen_slice by lia. change (256 ^ (4 - 0)) with (2 ^ 32). rewrite Z.shiftl_mul_pow2 by lia.
  assert (bytes_ok (slice c 0 4)) by (by apply slice_Forall). pose proof (from_le_bounds (slice c 0 4) ltac:(done)) as Hb. rewrite Zlen_slice in Hb by lia. change (256 ^ (4 - 0)) with (2 ^ 32) in Hb.
  rewrite Z.mul_comm. apply Z.add_nocarry_lxor. apply Z.bits_inj'. intros n Hn. rewrite Z.land_spec, Z.bits_0. destruct (Z.lt_ge_cases n 32).
  - rewrite Z.mul_pow2_bits_low by lia. apply andb_false_r.
  - by rewrite (testbit_high 32 (from_le _)) by lia.
Qed.
Lemma crc_chunk_spec crc c : 0 <= crc < 2 ^ 32 -> bytes_ok c -> Zlen c = 8 -> crc_chunk crc c = crc_bits 64 (Z.lxor crc (from_le c)).
Proof.
  intros Hcrc Hc Hl. rewrite (chunk_value c) by done. unfold crc_chunk.
  assert (Hb : forall i, 0 <= i -> i + 4 <= 8 -> 0 <= from_le (slice c i (i + 4)) < 2 ^ 32).
  { intros i Hi Hi'. pose proof (from_le_bounds (slice c i (i + 4)) ltac:(by apply slice_Forall)) as Hb. rewrite Zlen_slice in Hb by lia. replace (i + 4 - i) with 4 in Hb by lia. done. }
  pose proof (Hb 0 ltac:(lia) ltac:(lia)) as Hlo. pose proof (Hb 4 ltac:(lia) ltac:(lia)) as Hhi. change (0 + 4) with 4 in Hlo. change (4 + 4) with 8 in Hhi.
  set (lo := Z.lxor (from_le (slice c 0 4)) crc). set (hi := from_le (slice c 4 8)) in *. rewrite <- Z.lxor_assoc, (Z.lxor_comm crc). fold lo.
  assert (Hlo' : 0 <= lo < 2 ^ 32) by (by apply lxor_bound). rewrite crc_bits_lxor. change 64%nat with (8 * (4 + 4))%nat at 1. rewrite peel_four by lia.
  change 64%nat with (32 + 32)%nat. rewrite crc_bits_add. change (Z.shiftl hi 32) with (Z.shiftl hi (Z.of_nat 32)). rewrite crc_bits_shift. change 32%nat with (8 * (0 + 4))%nat. rewrite peel_four by lia.
  cbn [Nat.add]. by rewrite !Z.lxor_assoc.
Qed.

(** ** The state stays a [u32], and no two states meet *)
Abbreviation u32 x := (0 <= x < 2 ^ 32).
Lemma crc_bit_u32 x : u32 x -> u32 (crc_bit x).
Proof.
  intros Hx. rewrite crc_bit_odd. apply lxor_bound; [lia| |destruct (Z.testbit x 0); unfold POLY; lia].
  rewrite Z.shiftr_div_pow2 by lia. split; [apply Z.div_pos; lia|]. apply Z.div_lt_upper_bound; lia.
Qed.
Lemma crc_bits_u32 n x : u32 x -> u32 (crc_bits n x).
Proof. intros Hx. induction n as [|n IH]; [done|]. rewrite Nat.iter_succ. by apply crc_bit_u32. Qed.
Lemma crc_bit_inj x y : u32 x -> u32 y -> crc_bit x = crc_bit y -> x = y.
Proof.
  intros Hx Hy He. rewrite !crc_bit_odd in He.
  assert (H31 : forall z, u32 z -> Z.testbit (Z.lxor (Z.shiftr z 1) (if Z.testbit z 0 then POLY else 0)) 31 = Z.testbit z 0).
  { intros z Hz. rewrite Z.lxor_spec, Z.shiftr_spec, (testbit_high 32 z) by lia. destruct (Z.testbit z 0); [reflexivity|]. by rewrite Z.bits_0. }
  assert (H0 : Z.testbit x 0 = Z.testbit y 0) by (rewrite <- (H31 x), <- (H31 y), He by done; done).
  rewrite H0 in He. assert (Hs : Z.shiftr x 1 = Z.shiftr y 1).
  { apply (f_equal (fun z => Z.lxor z (if Z.testbit y 0 then POLY else 0))) in He. by rewrite !Z.lxor_assoc, !Z.lxor_nilpotent, !Z.lxor_0_r in He. }
  apply Z.bits_inj'. intros n Hn. destruct (Z.eq_dec n 0) as [->|]; [done|]. apply (f_equal (fun z => Z.testbit z (n - 1))) in Hs.
  rewrite !Z.shiftr_spec in Hs by lia. by replace (n - 1 + 1) with n in Hs by lia.
Qed.
Lemma crc_bits_inj n x y : u32 x -> u32 y -> crc_bits n x = crc_bits n y -> x = y.
Proof.
  intros Hx Hy. induction n as [|n IH]; [done|]. rewrite !Nat.iter_succ. intros He. apply IH, crc_bit_inj; [by apply crc_bits_u32..|done].
Qed.
Lemma lxor_inj_l a x y : Z.lxor a x = Z.lxor a y -> x = y.
Proof. intros H. apply (f_equal (Z.lxor a)) in H. by rewrite <- !Z.lxor_assoc, !Z.lxor_nilpotent, !Z.lxor_0_l in H. Qed.
Lemma ref_byte_u32 crc b : u32 crc -> byte_ok b -> u32 (crc_ref_byte crc b).
Proof. unfold byte_ok. intros Hc Hb. apply crc_bits_u32, lxor_bound; lia. Qed.
Lemma ref_fold_u32 data : forall crc, u32 crc -> bytes_ok data -> u32 (fold_left crc_ref_byte data crc).
Proof.
  induction data as [|b l IH]; intros crc Hc Hd; [done|]. apply list.Forall_cons in Hd as [Hb Hl]. apply IH; [by apply ref_byte_u32|done].
Qed.
Lemma ref_fold_inj data : forall x y, u32 x -> u32 y -> bytes_ok data -> fold_left crc_ref_byte data x = fold_left crc_ref_byte data y -> x = y.
Proof.
  induction data as [|b l IH]; intros x y Hx Hy Hd He; [done|]. apply list.Forall_cons in Hd as [Hb Hl]. cbn [fold_left] in He. apply IH in He; [|by apply ref_byte_u32..|done].
  unfold crc_ref_byte in He. unfold byte_ok in Hb. apply crc_bits_inj in He; [|apply lxor_bound; lia..]. rewrite !(Z.lxor_comm _ b) in He. by apply lxor_inj_l in He.
Qed.
Lemma not32_inj x y : not32 x = not32 y -> x = y.
Proof. unfold not32. rewrite !(Z.lxor_comm _ (umax 32)). apply lxor_inj_l. Qed.

(** ** The loop *)
Lemma tail_bytes data : forall crc, u32 crc -> bytes_ok data -> fold_left crc_byte data crc = fold_left crc_ref_byte data crc.
Proof.
  induction data as [|b l IH]; intros crc Hc Hd; [done|]. apply list.Forall_cons in Hd as [Hb Hl]. cbn [fold_left]. rewrite crc_byte_spec by (done || lia). apply IH; [by apply ref_byte_u32|done].
Qed.
Lemma crc_loop_ref fuel : forall data crc, (length data < fuel)%nat -> u32 crc -> bytes_ok data -> crc_loop fuel crc data = fold_left crc_ref_byte data crc.
Proof.
  induction fuel as [|fuel IH]; intros data crc Hf Hc Hd; [lia|]. cbn [crc_loop]. destruct (Z.leb_spec 8 (Zlen data)) as [H8|_]; [|by apply tail_bytes].
  assert (Hs : slice data 0 8 = take 8 data) by done. rewrite Hs. assert (Hl : Zlen (take 8 data) = 8) by (unfold Zlen in *; rewrite length_take; lia).
  assert (Ht : bytes_ok (take 8 data)) by (by apply Forall_take).
  assert (He : crc_chunk crc (take 8 data) = fold_left crc_ref_byte (take 8 data) crc).
  { rewrite crc_chunk_spec, ref_fold by done. unfold Zlen in Hl. by replace (length (take 8 data)) with 8%nat by lia. }
  rewrite He, IH; [by rewrite <- fold_left_app, take_drop|rewrite length_drop; unfold Zlen in H8; lia|by apply ref_fold_u32|by apply Forall_drop].
Qed.
Lemma crc32c_ref data : bytes_ok data -> crc32c data = crc_ref data.
Proof. intros Hd. unfold crc32c, crc_ref. rewrite crc_loop_ref; [done|lia|by vm_compute|done]. Qed.
Lemma crc32c_u32 data : bytes_ok data -> u32 (crc32c data).
Proof. intros Hd. rewrite crc32c_ref by done. apply lxor_bound; [lia| |by vm_compute]. apply ref_fold_u32; [by vm_compute|done]. Qed.

(** The vectors of the code's own test. *)
Example crc32c_vectors :
  crc32c [0x31; 0x32; 0x33; 0x34; 0x35; 0x36; 0x37; 0x38; 0x39] = 0xE3069283 /\ crc32c (replicate 32 0) = 0x8A9136AA /\
  crc32c (replicate 32 0xFF) = 0x62A8AB43 /\ crc32c [] = 0.
Proof. vm_compute. auto. Qed.

Lemma crc_run_inj pre run run' post : bytes_ok pre -> bytes_ok run -> bytes_ok run' -> bytes_ok post -> length run' = length run -> (length run <= 4)%nat ->
  crc32c (pre ++ run ++ post) = crc32c (pre ++ run' ++ post) -> run = run'.
Proof.
  intros Hpre Hr Hr' Hpost Hlen H4 He.
  assert (Hsafe : forall r, bytes_ok r -> bytes_ok (pre ++ r ++ post)) by (intros r Hb; apply Forall_app; split; [done|]; by apply Forall_app).
  rewrite !crc32c_ref in He by auto. unfold crc_ref in He. apply not32_inj in He. rewrite !fold_left_app in He.
  assert (Hc : u32 (fold_left crc_ref_byte pre (not32 0))) by (apply ref_fold_u32; [by vm_compute|done]). set (c := fold_left crc_ref_byte pre (not32 0)) in *.
  apply ref_fold_inj in He; [|by apply ref_fold_u32..|done]. rewrite !ref_fold, Hlen in He by done.
  assert (Hv : forall r, bytes_ok r -> length r = length run -> u32 (Z.lxor c (from_le r))).
  { intros r Hb Hl. apply lxor_bound; [lia|done|]. pose proof (from_le_bounds r Hb) as Hf. split; [lia|]. eapply Z.lt_le_trans; [apply Hf|]. change (2 ^ 32) with (256 ^ 4). apply Z.pow_le_mono_r; unfold Zlen; lia. }
  apply crc_bits_inj, lxor_inj_l in He; [|by apply Hv..]. rewrite <- (le_bytes_from_le run), <- (le_bytes_from_le run') by done. by rewrite Hlen, He.
Qed.

(** C40. The table-driven checksum is the bit-serial CRC-32C of every byte string, with the reflected polynomial divided
    out one bit at a time; it is a [u32]; and two byte strings of one length that differ only within a run of at most four
    bytes have different checksums, wherever the run lies. *)
Theorem crc32c_exact (data pre run run' post : bytes) :
  bytes_ok data -> bytes_ok pre -> bytes_ok run -> bytes_ok run' -> bytes_ok post -> length run' = length run -> (length run <= 4)%nat ->
  (crc32c data = crc_ref data /\ 0 <= crc32c data < 2 ^ 32) /\
  (crc32c (pre ++ run ++ post) = crc32c (pre ++ run' ++ post) -> run = run').
Proof.
  intros Hd Hpre Hr Hr' Hpost Hlen H4. split; [split; [by apply crc32c_ref|by apply crc32c_u32]|]. by apply crc_run_inj.
Qed.
Lemma crc32c_exact_witness :
  crc32c [1; 2; 3] = crc_ref [1; 2; 3] /\ crc32c ([7; 7] ++ [1; 2; 3; 4] ++ [9]) <> crc32c ([7; 7] ++ [1; 2; 3; 5] ++ [9]).
Proof.
  split; [apply (crc32c_exact [1; 2; 3] [] [] [] []); try solve_bytes_ok; cbn; lia|]. intros He.
  assert (H : [1; 2; 3; 4] = [1; 2; 3; 5]); [|discriminate]. revert He. apply (crc32c_exact [] [7; 7] [1; 2; 3; 4] [1; 2; 3; 5] [9]); try solve_bytes_ok; cbn; lia.
Defined.
