(* ===== verification/StoreCodec.v ===== *)
(** The on-disk formats of the storage crate (src/lib/storage/src/lib.rs, types.rs, error.rs, layout.rs, codec.rs):
    constants, errors, the arithmetic of segments, and the rows of the database tables with their round trips and,
    where a table is walked in key order, the order of the keys. The records [Account], [UndoRec] and [StateDelta]
    are those of [ChainTypes]: the crate declares them with the same fields. *)

From Stdlib Require Import ZArith Lia List String.
From stdpp Require Import base list numbers.
From S2P Require Import Prelude Constants Blake3 Codec Crypto ChainTypes.
Import ListNotations.
Open Scope Z_scope.

(** ** lib.rs *)
Definition BODY_FRAME_BYTES : Z := 8.
Definition MAX_BODY_BYTES : Z := MAX_BLOCK_BYTES - HEADER_BYTES.
Definition UNDO_RING : Z := 256.
Definition CHAINWORK_CKPT_SHIFT : Z := 10.
Definition SCHEMA_VERSION : Z := 1.
Definition SIDE_HEADERS_CAP : Z := 16384.
Definition INVALID_CAP : Z := 65536.
Definition STALE_INDEX_REBUILD_THRESHOLD : Z := 65536.

(** ** layout.rs: segments are sized by block count, so that the place of a height is arithmetic *)
Definition SEG_SHIFT : Z := 12.
Definition SEG_BLOCKS : Z := Z.shiftl 1 SEG_SHIFT.
Definition SEG_MASK : Z := SEG_BLOCKS - 1.
Definition HDR_SEG_BYTES : Z := HEADER_BYTES * SEG_BLOCKS.
Definition BIDX_ENTRY_BYTES : Z := 8.
Definition BIDX_SEG_BYTES : Z := BIDX_ENTRY_BYTES * SEG_BLOCKS.
Definition SECTOR : Z := 4096.
Definition seg_of (h : Z) : Z := wrap 32 (Z.shiftr h SEG_SHIFT).
Definition slot_of (h : Z) : Z := Z.land h SEG_MASK.
Definition hdr_offset (h : Z) : Z := slot_of h * HEADER_BYTES.
Definition bidx_offset (h : Z) : Z := slot_of h * BIDX_ENTRY_BYTES.
Definition seg_first_height (s : Z) : Z := Z.shiftl s SEG_SHIFT.

(** ** types.rs *)
Record StoreTip := MkStoreTip { stp_hash : bytes; stp_height : Z; stp_chainwork : bytes }.
Inductive HeaderStatus := ValidHeader | PowOk | BodyOk | Connected.
Definition HeaderStatus_code (s : HeaderStatus) : Z :=
  match s with ValidHeader => 1 | PowOk => 2 | BodyOk => 3 | Connected => 4 end.
Definition HeaderStatus_from_code (c : Z) : option HeaderStatus :=
  if c =? 1 then Some ValidHeader else if c =? 2 then Some PowOk else if c =? 3 then Some BodyOk
  else if c =? 4 then Some Connected else None.
Record SideHeader := MkSideHeader { sdh_header : bytes; sdh_height : Z; sdh_status : HeaderStatus }.
Record BlockToCommit := MkBlockToCommit {
  bc_header : bytes;
  bc_hash : bytes;
  bc_height : Z;
  bc_body : bytes;
  bc_deltas : list StateDelta;
  bc_undo : list UndoRec;
  bc_issued_delta : Z;
  bc_chainwork : bytes;
  bc_txids : option (list bytes);
}.
Record ReorgPlan := MkReorgPlan { rp_fork_height : Z; rp_rollback : list Z; rp_apply : list BlockToCommit }.

(** ** error.rs; the paths some errors carry, and the texts of others, are left out *)
Inductive InvalidReason := BadPow | BadBits | BadMtp | BadMerkle | BadTx | BadParent | BadCheckpoint | OtherReason.
Definition InvalidReason_code (r : InvalidReason) : Z :=
  match r with
  | BadPow => 1 | BadBits => 2 | BadMtp => 3 | BadMerkle => 4 | BadTx => 5 | BadParent => 6 | BadCheckpoint => 7 | OtherReason => 255
  end.
Definition InvalidReason_from_code (c : Z) : InvalidReason :=
  if c =? 1 then BadPow else if c =? 2 then BadBits else if c =? 3 then BadMtp else if c =? 4 then BadMerkle
  else if c =? 5 then BadTx else if c =? 6 then BadParent else if c =? 7 then BadCheckpoint else OtherReason.
Inductive SegmentKind := SegHeader | SegBody.
Inductive DamageKind :=
| DMissing | DShort | DOverlong | SidecarMissing | SidecarShort | SidecarZeroed | FrameMismatch | LinkBroken | AnchorMismatch | AnchorMissing.
Inductive StoreError :=
| BodyPruned (height prune_floor : Z)
| ForkBelowPruneFloor (fork_height prune_floor days_discarded : Z)
| UndoExhausted (requested undo_floor replay_floor : Z)
| NotIndexed (indexed_from : Z)
| StateBehindHeaders (headers state undo_floor : Z)
| SegmentDamaged (kind : SegmentKind) (segment height first_height last_height : Z) (reason : DamageKind)
| UnknownWhileDegraded (damaged_first damaged_last : Z)
| ReplayRangeDamaged (rewind_to fork_height damaged_first damaged_last : Z)
| DatabaseAsserted (file_len : Z)
| IntegrityRefused (damaged_ranges : Z)
| SegmentTruncated (expected_len actual_len : Z)
| CrcMismatch (offset height : Z)
| LinkageBroken (height : Z) (expected_prev found_prev : bytes)
| TipNotInSegments (watermark window : Z) (meta_tip segment_tip : bytes)
| EmissionMismatch (stored_mile formula_mile : Z)
| StateFingerprint (stored computed : bytes)
| SchemaVersion (found expected : Z)
| NetworkMismatch (found expected : bytes)
| MetaRowMalformed (key : string) (len expected : Z)
| OrphanSegments (hdr_segments body_segments file_bytes : Z)
| Poisoned
| SegmentOverflow (segment offset : Z)
| AlreadyOpen
| BadPlan (msg : string)
| SIo
| SRedb.

(** ** codec.rs *)
Definition STATE_VALUE_BYTES : Z := 24.
Definition encode_account (a : Account) : bytes := le_bytes 16 (acc_balance a) ++ le_bytes 8 (acc_nonce a).
Definition decode_account (v : bytes) : Account := MkAccount (from_le (slice v 0 16)) (from_le (slice v 16 24)).

Definition UNDO_REC_BYTES : Z := 45.
Definition MAX_UNDO_RECS : Z := 2 * MAX_TXS_PER_BLOCK + 1.
Definition UNDO_HDR_BYTES : Z := 20.
Definition encode_undo_rec (r : UndoRec) : bytes :=
  u_addr r ++ le_bytes 16 (u_prev_balance r) ++ le_bytes 8 (u_prev_nonce r) ++ [if u_existed r then 0 else 1].
Definition encode_undo (recs : list UndoRec) (issued_delta : Z) : bytes :=
  le_bytes 4 (wrap 32 (Zlen recs)) ++ le_bytes 16 issued_delta ++ concat (encode_undo_rec <$> recs).
Definition decode_undo_rec (blob : bytes) (i : Z) : UndoRec :=
  let o := UNDO_HDR_BYTES + i * UNDO_REC_BYTES in
  MkUndoRec (slice blob o (o + 20)) (from_le (slice blob (o + 20) (o + 36))) (from_le (slice blob (o + 36) (o + 44)))
    (Z.land (byte_at blob (o + 44)) 1 =? 0).
Definition decode_undo (blob : bytes) : option (list UndoRec * Z) :=
  if Zlen blob <? UNDO_HDR_BYTES then None else
  let count := from_le (slice blob 0 4) in
  if (MAX_UNDO_RECS <? count) || negb (Zlen blob =? UNDO_HDR_BYTES + count * UNDO_REC_BYTES) then None else
  Some (decode_undo_rec blob <$> zrange 0 count, from_le (slice blob 4 20)).

Definition SIDE_VALUE_BYTES : Z := HEADER_BYTES + 9.
Definition encode_side (h : bytes) (height : Z) (st : HeaderStatus) : bytes := h ++ le_bytes 8 height ++ [HeaderStatus_code st].
Definition decode_side (v : bytes) : option SideHeader :=
  match HeaderStatus_from_code (byte_at v (HEADER_BYTES + 8)) with
  | Some st => Some (MkSideHeader (slice v 0 HEADER_BYTES) (from_le (slice v HEADER_BYTES (HEADER_BYTES + 8))) st)
  | None => None
  end.
Definition side_by_height_key (height : Z) (hash : bytes) : bytes := be_bytes 8 height ++ hash.
Definition hash_prefix_n (h : bytes) (n : Z) : Z :=
  fold_left (fun v b => Z.lor (wrap 64 (Z.shiftl v 8)) b) (slice h 0 (Z.min 8 (Z.max 1 n))) 0.
Definition txid_key (txid : bytes) : bytes := slice txid 0 16.
Definition ADDR_KEY_BYTES : Z := 30.
Definition addr_key (addr : Address) (height index : Z) : bytes := addr ++ be_bytes 8 height ++ be_bytes 2 index.
Definition decode_addr_key (k : bytes) : Address * Z * Z := (slice k 0 20, from_be (slice k 20 28), from_be (slice k 28 30)).
Definition encode_txloc (height index : Z) : bytes := le_bytes 8 height ++ le_bytes 2 index.
Definition decode_txloc (v : bytes) : Z * Z := (from_le (slice v 0 8), from_le (slice v 8 10)).
Definition encode_frame_header (len crc : Z) : bytes := le_bytes 4 len ++ le_bytes 4 crc.
Definition decode_frame_header (v : bytes) : Z * Z := (from_le (slice v 0 4), from_le (slice v 4 8)).
Definition encode_bidx (offset len : Z) : bytes := le_bytes 4 offset ++ le_bytes 4 len.
Definition decode_bidx (v : bytes) : Z * Z := (from_le (slice v 0 4), from_le (slice v 4 8)).
Definition row_digest (addr : Address) (a : Account) : bytes := hash (addr ++ encode_account a).
Definition fp_xor (fp d : bytes) : bytes := zip_with Z.lxor fp d.

(** ** Where a height is stored *)
Lemma slot_mod h : slot_of h = h mod SEG_BLOCKS.
Proof. unfold slot_of, SEG_MASK. change SEG_BLOCKS with (2 ^ 12). by apply land_mask. Qed.
Lemma slot_bounds h : 0 <= slot_of h < SEG_BLOCKS.
Proof. rewrite slot_mod. apply Z.mod_pos_bound. done. Qed.
Lemma seg_div h : 0 <= h < 2 ^ 44 -> seg_of h = h / SEG_BLOCKS.
Proof.
  intros Hh. unfold seg_of. rewrite Z.shiftr_div_pow2 by done. change SEG_SHIFT with 12. change SEG_BLOCKS with (2 ^ 12). apply wrap_small. split; [apply Z.div_pos; lia|].
  apply Z.div_lt_upper_bound; lia.
Qed.
Lemma seg_slot h : 0 <= h < 2 ^ 44 -> seg_first_height (seg_of h) + slot_of h = h.
Proof.
  intros Hh. unfold seg_first_height. rewrite seg_div, slot_mod, Z.shiftl_mul_pow2 by done. change (2 ^ SEG_SHIFT) with SEG_BLOCKS. pose proof (Z.div_mod h SEG_BLOCKS ltac:(done)). lia.
Qed.

(** ** Round trips *)
Definition account_wf (a : Account) : Prop := 0 <= acc_balance a < 2 ^ 128 /\ 0 <= acc_nonce a < 2 ^ 64.
Definition undo_wf (r : UndoRec) : Prop :=
  field_ok 20 (u_addr r) /\ 0 <= u_prev_balance r < 2 ^ 128 /\ 0 <= u_prev_nonce r < 2 ^ 64.

Lemma Zlen_encode_account a : Zlen (encode_account a) = STATE_VALUE_BYTES.
Proof. unfold encode_account. by zlen. Qed.
Lemma decode_encode_account a : account_wf a -> decode_account (encode_account a) = a.
Proof.
  intros [Hb Hn]. destruct a as [b n]. unfold decode_account, encode_account. cbn [acc_balance acc_nonce] in *. f_equal.
  - rewrite (slice_app_l' _ _ 16) by by zlen. by apply (from_le_field 16 128).
  - replace (slice _ 16 24) with (le_bytes 8 n) by (symmetry; slice_field). by apply (from_le_field 8 64).
Qed.
Lemma encode_decode_account v : field_ok STATE_VALUE_BYTES v -> encode_account (decode_account v) = v /\ account_wf (decode_account v).
Proof.
  intros [Hv Hl]. change STATE_VALUE_BYTES with 24 in Hl. split; [|unfold account_wf, decode_account; cbn [acc_balance acc_nonce]; wf_fields].
  unfold encode_account, decode_account. cbn [acc_balance acc_nonce]. rewrite (le_bytes_slice 16), (le_bytes_slice 8) by (done || lia). rewrite slice_slice by lia. by apply slice_all.
Qed.
Lemma encode_account_inj a b : account_wf a -> account_wf b -> encode_account a = encode_account b -> a = b.
Proof. intros Ha Hb He. by rewrite <- (decode_encode_account a), He, decode_encode_account by done. Qed.

Lemma Zlen_encode_undo_rec r : undo_wf r -> Zlen (encode_undo_rec r) = UNDO_REC_BYTES.
Proof. intros [[_ Ha] _]. unfold encode_undo_rec, UNDO_REC_BYTES. zlen. lia. Qed.
(** A record of a blob, from the blob cut at its offset. *)
Lemma decode_undo_at pre r post i : undo_wf r -> Zlen pre = UNDO_HDR_BYTES + i * UNDO_REC_BYTES -> decode_undo_rec (pre ++ encode_undo_rec r ++ post) i = r.
Proof.
  intros ([_ Ha] & Hb & Hn) Hp. pose proof (Zlen_nonneg pre). unfold decode_undo_rec. set (o := UNDO_HDR_BYTES + _) in *. clearbody o. subst o. destruct r as [a b n e].
  unfold encode_undo_rec. cbn [u_addr u_prev_balance u_prev_nonce u_existed] in *. f_equal.
  - rewrite slice_app_r by lia. rewrite <- app_assoc. apply slice_app_l0; lia.
  - replace (slice _ _ _) with (le_bytes 16 b) by (symmetry; rewrite <- !app_assoc; slice_field). by apply (from_le_field 16 128).
  - replace (slice _ _ _) with (le_bytes 8 n) by (symmetry; rewrite <- !app_assoc; slice_field). by apply (from_le_field 8 64).
  - rewrite !byte_at_app_r by (zlen; lia). rewrite <- !app_assoc. rewrite !byte_at_app_r by (zlen; lia). zlen.
    replace (Zlen pre + 44 - Zlen pre - Zlen a - Z.of_nat 16 - Z.of_nat 8) with 0 by lia. by destruct e.
Qed.
Lemma decode_undo_recs recs : forall i pre, Forall undo_wf recs -> 0 <= i -> Zlen pre = UNDO_HDR_BYTES + i * UNDO_REC_BYTES ->
  decode_undo_rec (pre ++ concat (encode_undo_rec <$> recs)) <$> zrange i (i + Zlen recs) = recs.
Proof.
  induction recs as [|r recs IH]; intros i pre Hw Hi Hp; [by rewrite zrange_nil by (zlen; lia)|]. apply list.Forall_cons in Hw as [Hr Hw]. rewrite Zlen_cons.
  pose proof (Zlen_nonneg recs). rewrite zrange_cons by lia. cbn [fmap list_fmap concat]. f_equal; [by apply decode_undo_at|]. replace (i + (1 + Zlen recs)) with (i + 1 + Zlen recs) by lia.
  rewrite app_assoc. apply IH; [done|lia|]. rewrite Zlen_app, Zlen_encode_undo_rec, Hp by done. lia.
Qed.
Lemma Zlen_encode_undo recs issued : Forall undo_wf recs -> Zlen (encode_undo recs issued) = UNDO_HDR_BYTES + Zlen recs * UNDO_REC_BYTES.
Proof.
  intros Hw. unfold encode_undo. rewrite !Zlen_app, !Zlen_le_bytes. change UNDO_HDR_BYTES with 20. enough (Zlen (concat (encode_undo_rec <$> recs)) = Zlen recs * UNDO_REC_BYTES) by lia.
  induction Hw as [|r recs Hr Hw IH]; [done|]. cbn [fmap list_fmap concat]. rewrite Zlen_app, Zlen_cons, Zlen_encode_undo_rec by done. lia.
Qed.
Lemma decode_encode_undo recs issued : Forall undo_wf recs -> Zlen recs <= MAX_UNDO_RECS -> 0 <= issued < 2 ^ 128 ->
  decode_undo (encode_undo recs issued) = Some (recs, issued).
Proof.
  intros Hw Hm Hi. pose proof (Zlen_nonneg recs) as Hn. pose proof (Zlen_encode_undo recs issued Hw) as Hl. unfold decode_undo. rewrite Hl.
  change MAX_UNDO_RECS with 8193 in *. change UNDO_REC_BYTES with 45 in *. change UNDO_HDR_BYTES with 20 in *.
  destruct (Z.ltb_spec (20 + Zlen recs * 45) 20); [lia|]. assert (Hc : from_le (slice (encode_undo recs issued) 0 4) = Zlen recs).
  { unfold encode_undo. rewrite slice_app_l' by by zlen. rewrite wrap_small by lia. apply (from_le_field 4 32); lia. }
  rewrite Hc. destruct (Z.ltb_spec 8193 (Zlen recs)); [lia|]. rewrite Z.eqb_refl. cbn [negb orb]. f_equal. f_equal.
  - unfold encode_undo. rewrite app_assoc. apply (decode_undo_recs recs 0); [done|lia|]. by zlen.
  - unfold encode_undo. replace (slice _ 4 20) with (le_bytes 16 issued) by (symmetry; slice_field). by apply (from_le_field 16 128).
Qed.
Lemma decode_undo_total blob recs issued : bytes_ok blob -> decode_undo blob = Some (recs, issued) ->
  Forall undo_wf recs /\ Zlen recs <= MAX_UNDO_RECS /\ 0 <= issued < 2 ^ 128 /\ Zlen blob = UNDO_HDR_BYTES + Zlen recs * UNDO_REC_BYTES.
Proof.
  intros Hb. unfold decode_undo. destruct (Z.ltb_spec (Zlen blob) UNDO_HDR_BYTES); [done|]. set (count := from_le (slice blob 0 4)).
  destruct (Z.ltb_spec MAX_UNDO_RECS count); [done|]. destruct (Z.eqb_spec (Zlen blob) (UNDO_HDR_BYTES + count * UNDO_REC_BYTES)) as [Hl|]; [|done]. intros [= <- <-].
  assert (Hc : 0 <= count < 256 ^ 4). { pose proof (from_le_bounds (slice blob 0 4) ltac:(by apply slice_Forall)) as Hc. rewrite Zlen_slice in Hc by (change UNDO_HDR_BYTES with 20 in *; lia). exact Hc. }
  change UNDO_HDR_BYTES with 20 in *. change UNDO_REC_BYTES with 45 in *. rewrite Zlen_fmap, Zlen_zrange by lia. rewrite Z.sub_0_r.
  split; [|split; [done|split; [fits_field|done]]]. apply Forall_forall. intros r Hr. apply list_elem_of_In, list_elem_of_fmap in Hr as (i & -> & Hi). apply list_elem_of_In, in_zrange in Hi.
  unfold undo_wf, decode_undo_rec. cbn [u_addr u_prev_balance u_prev_nonce]. change UNDO_HDR_BYTES with 20. change UNDO_REC_BYTES with 45. wf_fields.
Qed.

Lemma status_code st : HeaderStatus_from_code (HeaderStatus_code st) = Some st.
Proof. by destruct st. Qed.
Lemma decode_encode_side h height st : Zlen h = HEADER_BYTES -> 0 <= height < 2 ^ 64 -> decode_side (encode_side h height st) = Some (MkSideHeader h height st).
Proof.
  intros Hl Hh. unfold decode_side, encode_side. change HEADER_BYTES with 132 in *. rewrite !byte_at_app_r by (zlen; lia). zlen. replace (132 + 8 - Zlen h - Z.of_nat 8) with 0 by lia.
  change (byte_at [?x] 0) with x. rewrite status_code. f_equal. f_equal; [by apply slice_app_l'|]. replace (slice _ 132 _) with (le_bytes 8 height) by (symmetry; slice_field). by apply (from_le_field 8 64).
Qed.
Lemma decode_two n m a b : 0 <= a < 256 ^ Z.of_nat n -> 0 <= b < 256 ^ Z.of_nat m ->
  (from_le (slice (le_bytes n a ++ le_bytes m b) 0 (Z.of_nat n)), from_le (slice (le_bytes n a ++ le_bytes m b) (Z.of_nat n) (Z.of_nat n + Z.of_nat m))) = (a, b).
Proof.
  intros Ha Hb. rewrite slice_app_l' by by rewrite Zlen_le_bytes. rewrite slice_app_r by (rewrite ?Zlen_le_bytes; lia). rewrite Zlen_le_bytes, Z.sub_diag.
  rewrite slice_all by (rewrite Zlen_le_bytes; lia). by rewrite !from_le_le_bytes.
Qed.
Lemma decode_encode_txloc height index : 0 <= height < 2 ^ 64 -> 0 <= index < 2 ^ 16 -> decode_txloc (encode_txloc height index) = (height, index).
Proof. apply (decode_two 8 2). Qed.
Lemma decode_encode_frame len crc : 0 <= len < 2 ^ 32 -> 0 <= crc < 2 ^ 32 -> decode_frame_header (encode_frame_header len crc) = (len, crc).
Proof. apply (decode_two 4 4). Qed.
Lemma decode_encode_bidx off len : 0 <= off < 2 ^ 32 -> 0 <= len < 2 ^ 32 -> decode_bidx (encode_bidx off len) = (off, len).
Proof. apply (decode_two 4 4). Qed.
Lemma decode_encode_addr addr height index : Zlen addr = 20 -> 0 <= height < 2 ^ 64 -> 0 <= index < 2 ^ 16 ->
  decode_addr_key (addr_key addr height index) = (addr, height, index).
Proof.
  intros Ha Hh Hi. unfold decode_addr_key, addr_key. f_equal; [f_equal|].
  - by apply slice_app_l'.
  - replace (slice _ 20 28) with (be_bytes 8 height) by (symmetry; rewrite slice_app_r by lia; rewrite Ha; apply slice_app_l0; rewrite ?Zlen_be_bytes; lia). by apply from_be_be_bytes.
  - replace (slice _ 28 30) with (be_bytes 2 index) by (symmetry; rewrite !slice_app_r by (rewrite ?Zlen_be_bytes; lia); apply slice_all0; rewrite ?Zlen_be_bytes; lia). by apply from_be_be_bytes.
Qed.

(** ** Keys sort by what they name *)
Definition pair_ltb (p q : Z * Z) : bool := (fst p <? fst q) || ((fst p =? fst q) && (snd p <? snd q)).
Lemma bytes_ltb_app a b : bytes_ok a -> bytes_ok b -> Zlen a = Zlen b -> forall x y, bytes_ok x -> bytes_ok y -> Zlen x = Zlen y ->
  bytes_ltb (a ++ x) (b ++ y) = pair_ltb (from_be a, from_be x) (from_be b, from_be y).
Proof.
  intros Ha Hb Hl x y Hx Hy Hxy. rewrite bytes_ltb_spec by (try (apply Forall_app; done); rewrite !Zlen_app; lia). rewrite !from_be_app, Hxy. unfold pair_ltb. cbn [fst snd].
  pose proof (from_be_bounds x Hx) as Bx. pose proof (from_be_bounds y Hy) as By_. rewrite Hxy in Bx. set (p := 256 ^ Zlen y) in *.
  destruct (Z.ltb_spec (from_be a) (from_be b)); cbn [orb]; [apply Z.ltb_lt; nia|]. destruct (Z.eqb_spec (from_be a) (from_be b)) as [->|]; cbn [andb]; [|apply Z.ltb_ge; nia].
  destruct (Z.ltb_spec (from_be x) (from_be y)); [apply Z.ltb_lt; lia|apply Z.ltb_ge; lia].
Qed.
Lemma prefix_fold l : forall acc, bytes_ok l -> 0 <= acc -> acc * 256 ^ Zlen l + from_be l < 2 ^ 64 ->
  fold_left (fun v b => Z.lor (wrap 64 (Z.shiftl v 8)) b) l acc = acc * 256 ^ Zlen l + from_be l.
Proof.
  induction l as [|b l IH]; intros acc Hl Ha Hf; [cbn [fold_left]; change (256 ^ Zlen (@nil Z)) with 1; change (from_be []) with 0; lia|]. apply list.Forall_cons in Hl as [Hb Hl]. cbn [fold_left]. rewrite from_be_cons, Zlen_cons in *.
  pose proof (from_be_bounds l Hl) as Bl. pose proof (Zlen_nonneg l) as Hn. rewrite Z.pow_add_r in * by lia. change (256 ^ 1) with 256 in *. set (p := 256 ^ Zlen l) in *. unfold byte_ok in Hb.
  assert (1 <= p) by (unfold p; pose proof (Z.pow_pos_nonneg 256 (Zlen l)); lia). assert (Hlt : acc * 256 + b < 2 ^ 64) by nia. rewrite Z.shiftl_mul_pow2 by lia. change (2 ^ 8) with 256.
  rewrite wrap_small by lia. rewrite Z.lor_comm, (lor_add b (acc * 256) 8) by (try lia; change (2 ^ 8) with 256; apply Z_mod_mult). rewrite IH by (done || nia). nia.
Qed.
Lemma hash_prefix_spec h n : bytes_ok h -> Zlen h = 32 -> hash_prefix_n h n = from_be (slice h 0 (Z.min 8 (Z.max 1 n))) /\ 0 <= hash_prefix_n h n < 2 ^ 64.
Proof.
  intros Hh Hl. set (k := Z.min 8 (Z.max 1 n)). assert (Hs : bytes_ok (slice h 0 k)) by (by apply slice_Forall). pose proof (from_be_bounds _ Hs) as Hb. rewrite Zlen_slice in Hb by lia.
  assert (256 ^ (k - 0) <= 256 ^ 8) by (apply Z.pow_le_mono_r; lia). change (256 ^ 8) with (2 ^ 64) in *. assert (He : hash_prefix_n h n = from_be (slice h 0 k)); [|rewrite He; lia].
  unfold hash_prefix_n. fold k. rewrite prefix_fold by (done || lia). lia.
Qed.

(** The rows of the store survive the disk. An account and a journal of undo records are read back as they were
    written; a journal blob that is accepted holds exactly as many well-formed records as its length allows, at most
    [MAX_UNDO_RECS]; a row of the address index names its address, height and position, and the rows of one
    address sort by height and then by position; the rows of side headers sort by height. *)
Theorem store_rows_exact (a : Account) recs issued blob addr h i h' i' x y :
  account_wf a -> Forall undo_wf recs -> Zlen recs <= MAX_UNDO_RECS -> 0 <= issued < 2 ^ 128 -> bytes_ok blob ->
  field_ok 20 addr -> field_ok 32 x -> field_ok 32 y -> 0 <= h < 2 ^ 64 -> 0 <= h' < 2 ^ 64 -> 0 <= i < 2 ^ 16 -> 0 <= i' < 2 ^ 16 ->
  decode_account (encode_account a) = a /\
  decode_undo (encode_undo recs issued) = Some (recs, issued) /\
  match decode_undo blob with
  | Some (rs, n) => Forall undo_wf rs /\ Zlen rs <= MAX_UNDO_RECS /\ 0 <= n < 2 ^ 128 /\ Zlen blob = UNDO_HDR_BYTES + Zlen rs * UNDO_REC_BYTES
  | None => True
  end /\
  decode_addr_key (addr_key addr h i) = (addr, h, i) /\
  bytes_ltb (addr_key addr h i) (addr_key addr h' i') = pair_ltb (h, i) (h', i') /\
  (h < h' -> bytes_ltb (side_by_height_key h x) (side_by_height_key h' y) = true).
Proof.
  intros Ha Hr Hm Hi Hb [Had Hal] [Hx Hxl] [Hy Hyl] Hh Hh' Hix Hix'. split; [by apply decode_encode_account|]. split; [by apply decode_encode_undo|].
  split; [destruct (decode_undo blob) as [[rs n]|] eqn:E; [by apply decode_undo_total|done]|]. split; [by apply decode_encode_addr|]. split.
  - unfold addr_key. rewrite bytes_ltb_app by (auto using be_bytes_ok || (apply Forall_app; split; apply be_bytes_ok) || (rewrite ?Zlen_app, ?Zlen_be_bytes; lia)).
    unfold pair_ltb at 1. cbn [fst snd]. rewrite Z.ltb_irrefl, Z.eqb_refl. cbn [orb andb]. rewrite <- bytes_ltb_spec by ((apply Forall_app; split; apply be_bytes_ok) || (rewrite !Zlen_app, !Zlen_be_bytes; lia)).
    rewrite bytes_ltb_app by (apply be_bytes_ok || (rewrite !Zlen_be_bytes; lia)). by rewrite !from_be_be_bytes.
  - intros Hlt. unfold side_by_height_key. rewrite bytes_ltb_app by (apply be_bytes_ok || done || (rewrite ?Zlen_be_bytes; lia)). unfold pair_ltb. cbn [fst snd].
    rewrite !from_be_be_bytes by done. by rewrite (proj2 (Z.ltb_lt _ _) Hlt).
Qed.
Lemma store_rows_exact_witness :
  decode_undo (encode_undo [MkUndoRec (replicate 20 7) 5 1 true; MkUndoRec (replicate 20 8) 0 0 false] 99)
    = Some ([MkUndoRec (replicate 20 7) 5 1 true; MkUndoRec (replicate 20 8) 0 0 false], 99) /\
  bytes_ltb (addr_key (replicate 20 7) 255 9) (addr_key (replicate 20 7) 256 0) = true.
Proof.
  edestruct (store_rows_exact (MkAccount 5 1) [MkUndoRec (replicate 20 7) 5 1 true; MkUndoRec (replicate 20 8) 0 0 false] 99 [] (replicate 20 7) 255 9 256 0
    (replicate 32 1) (replicate 32 2)) as (_ & H2 & _ & _ & H5 & _); [..|split; [exact H2|rewrite H5; reflexivity]];
    try (repeat constructor; vm_compute; done); try (split; [solve_bytes_ok|done]); try solve_bytes_ok; try (vm_compute; split; congruence); cbn; try lia.
Defined.
