(* ===== verification/StoreFiles.v ===== *)
(** The segment files of the storage crate (src/lib/storage/src/posio.rs, segment.rs, and the parts of committer.rs, recover.rs
    and reader.rs that read and write them). A file is the list of its bytes; a positional read returns what there is, a
    positional write beyond the end fills the gap with zeros. Errors of the operating system are not modelled: each
    operation is the one on a file that can be read and written. Headers and bodies of one segment are separate
    files, keyed by segment number. *)

From Stdlib Require Import ZArith Lia List String Permutation.
From stdpp Require Import base list gmap numbers.
From S2P Require Import Prelude Constants Codec Crypto ChainTypes Crc32c StoreCodec.
Import ListNotations.
Open Scope Z_scope.

(** ** posio.rs *)
Definition pread (f : bytes) (off n : Z) : bytes := slice f off (off + n).
Definition pwrite_all (f : bytes) (off : Z) (buf : bytes) : bytes :=
  take (Z.to_nat off) (f ++ replicate (Z.to_nat (off - Zlen f)) 0) ++ buf ++ drop (Z.to_nat (off + Zlen buf)) f.

Abbreviation Files := (gmap Z bytes).
Definition open_rw_create (fs : Files) (seg : Z) : bytes := default [] (fs !! seg).

(** ** segment.rs *)
Definition read_header (f : bytes) (height : Z) : option bytes :=
  let buf := pread f (hdr_offset height) HEADER_BYTES in
  if Zlen buf =? HEADER_BYTES then Some buf else None.
Definition read_header_at (fs : Files) (h : Z) : option bytes :=
  match fs !! seg_of h with
  | Some f => read_header f h
  | None => None
  end.
(** [ReaderInner::header_raw] (recover.rs): a missing file and a short one both hold no header. *)
Definition header_raw (fs : Files) (h : Z) : option bytes := read_header_at fs h.

(** One frame at [off]: its length and checksum, when it is whole, not too long, true to its checksum and addressable. *)
Definition scan_frame (f : bytes) (off : Z) : option (Z * Z) :=
  let fh := pread f off 8 in
  if negb (Zlen fh =? 8) then None else
  let '(len, crc) := decode_frame_header fh in
  if MAX_BODY_BYTES <? len then None else
  let payload := pread f (off + 8) len in
  if negb (Zlen payload =? len) then None else
  if negb (crc32c payload =? crc) then None else
  if umax 32 <? off + 8 + len then None else
  Some (len, crc).
Fixpoint scan_loop (fuel : nat) (f : bytes) (limit_slots : Z) (out : list (Z * Z * Z)) (off : Z) : list (Z * Z * Z) * Z :=
  match fuel with
  | O => (out, off)
  | S fuel =>
    if Zlen out <? limit_slots then
      match scan_frame f off with
      | Some (len, crc) => scan_loop fuel f limit_slots (out ++ [(off, len, crc)]) (off + (8 + len))
      | None => (out, off)
      end
    else (out, off)
  end.
Definition scan_body_segment (f : bytes) (limit_slots : Z) : list (Z * Z * Z) * Z := scan_loop (S (length f)) f limit_slots [] 0.

(** ** committer.rs: the body of one block *)
Record BodySeg := MkBodySeg { bs_body : bytes; bs_bidx : bytes; bs_append : Z }.
Definition write_body (s : BodySeg) (seg height : Z) (body : bytes) : outcome StoreError BodySeg :=
  let off := bs_append s in
  let end_ := off + BODY_FRAME_BYTES + Zlen body in
  guard! umax 32 <? end_ else SegmentOverflow seg end_ ;;
  let crc := crc32c body in
  let frame_buf := encode_frame_header (wrap 32 (Zlen body)) crc ++ body in
  Ok (MkBodySeg (pwrite_all (bs_body s) off frame_buf)
    (pwrite_all (bs_bidx s) (bidx_offset height) (encode_bidx off (wrap 32 (Zlen body)))) (wrap 32 end_)).
Definition body_append_for (bidx : bytes) (height : Z) : outcome StoreError Z :=
  if (height =? 0) || (slot_of height =? 0) then Ok 0 else
  let prev := height - 1 in
  let e := pread bidx (bidx_offset prev) 8 in
  if negb (Zlen e =? 8) then Ok 0 else
  let '(off, len) := decode_bidx e in
  if len =? 0 then Ok 0 else
  let? x := add_checked 32 off BODY_FRAME_BYTES in
  add_checked 32 x len.

(** reader.rs, [body_at] from the sidecar on: the height is below the watermark, above the prune floor and in no
    damaged range, and both files are there. *)
Definition read_body (s : BodySeg) (height : Z) : outcome StoreError bytes :=
  let seg := seg_of height in
  let missing := SegmentDamaged SegBody seg height (seg_first_height seg) (seg_first_height seg + SEG_BLOCKS - 1) in
  let e := pread (bs_bidx s) (bidx_offset height) 8 in
  guard! negb (Zlen e =? 8) else missing SidecarShort ;;
  let '(off, len) := decode_bidx e in
  guard! len =? 0 else missing SidecarZeroed ;;
  guard! MAX_BODY_BYTES <? len else CrcMismatch off height ;;
  let fh := pread (bs_body s) off 8 in
  guard! negb (Zlen fh =? 8) else SIo ;;
  let '(flen, crc) := decode_frame_header fh in
  guard! negb (flen =? len) || (MAX_BODY_BYTES <? flen) else CrcMismatch off height ;;
  let out := pread (bs_body s) (off + 8) flen in
  guard! negb (Zlen out =? flen) else SIo ;;
  guard! negb (crc32c out =? crc) else CrcMismatch off height ;;
  Ok out.

(** ** committer.rs: headers are overwritten in place by a reorganisation, after their sectors were journalled *)
Fixpoint undo_sectors (fuel : nat) (f : bytes) (seg sec end_ : Z) : list (Z * bytes) :=
  match fuel with
  | O => []
  | S fuel =>
    if sec <? end_ then
      let buf := pread f sec SECTOR in
      if Zlen buf =? 0 then []
      else (Z.lor (Z.shiftl seg 32) (sec / SECTOR), buf) :: undo_sectors fuel f seg (sec + SECTOR) end_
    else []
  end.
Definition seg_undo (fs : Files) (h seg_last : Z) : list (Z * bytes) :=
  let seg := seg_of h in
  let start := hdr_offset h / SECTOR * SECTOR in
  let end_ := (hdr_offset seg_last + HEADER_BYTES + (SECTOR - 1)) / SECTOR * SECTOR in
  match fs !! seg with
  | Some f => undo_sectors (Z.to_nat (end_ - start)) f seg start end_
  | None => []
  end.
Fixpoint write_hdr_undo_loop (fuel : nat) (fs : Files) (h last : Z) : list (Z * bytes) :=
  match fuel with
  | O => []
  | S fuel =>
    if h <=? last then
      let seg_last := Z.min (seg_first_height (seg_of h) + SEG_BLOCKS - 1) last in
      seg_undo fs h seg_last ++ write_hdr_undo_loop fuel fs (seg_last + 1) last
    else []
  end.
(** The rows put into [HDR_UNDO]; the fuel is one segment per height, which is more than enough. *)
Definition write_hdr_undo (fs : Files) (first last : Z) : list (Z * bytes) :=
  if last <? first then [] else write_hdr_undo_loop (Z.to_nat (last - first + 1)) fs first last.

Definition overwrite_header (fs : Files) (b : Z * bytes) : Files :=
  let seg := seg_of (fst b) in
  <[seg := pwrite_all (open_rw_create fs seg) (hdr_offset (fst b)) (snd b)]> fs.
Definition overwrite_headers (fs : Files) (apply : list (Z * bytes)) : Files := fold_left overwrite_header apply fs.

(** ** recover.rs: the journal is written back on the next start *)
Definition replay_row (fs : Files) (row : Z * bytes) : Files :=
  let seg := wrap 32 (Z.shiftr (fst row) 32) in
  let off := Z.land (fst row) 0xFFFFFFFF * SECTOR in
  <[seg := pwrite_all (open_rw_create fs seg) off (snd row)]> fs.
Definition replay_hdr_undo (fs : Files) (rows : list (Z * bytes)) : Files := fold_left replay_row rows fs.
