(* ===== verification/StoreFilesProps.v ===== *)
(** Properties of the segment files: a body segment behaves as the list of its bodies under append, rewind and read; the scan of
    a segment finds exactly the whole frames, whatever the tail is; a reorganisation interrupted at any byte leaves headers
    that the journal restores. *)

From Stdlib Require Import ZArith Lia List String Permutation.
From stdpp Require Import base list gmap numbers.
From S2P Require Import Prelude Constants Codec Crypto ChainTypes Crc32c StoreCodec StoreFiles.
Import ListNotations.
Open Scope Z_scope.

(** ** Files *)
Lemma pread_front a b n : n = Zlen a -> pread (a ++ b) 0 n = a.
Proof. intros ->. unfold pread. apply slice_app_l. Qed.
Lemma pread_app_r a b off n : Zlen a <= off -> 0 <= n -> pread (a ++ b) off n = pread b (off - Zlen a) n.
Proof. intros Ho Hn. unfold pread. rewrite slice_app_r by lia. f_equal. lia. Qed.
Lemma pread_mid a b c off n : off = Zlen a -> n = Zlen b -> pread (a ++ b ++ c) off n = b.
Proof. intros -> ->. pose proof (Zlen_nonneg b). rewrite pread_app_r, Z.sub_diag by lia. by apply pread_front. Qed.
Lemma Zlen_pread f off n : 0 <= off -> 0 <= n -> Zlen (pread f off n) = Z.max 0 (Z.min n (Zlen f - off)).
Proof. intros Ho Hn. unfold pread, slice, Zlen. rewrite length_take, length_drop. lia. Qed.
Lemma pwrite_mid a b c off buf : off = Zlen a -> Zlen b = Zlen buf -> pwrite_all (a ++ b ++ c) off buf = a ++ buf ++ c.
Proof.
  intros -> Hb. unfold pwrite_all. replace (Z.to_nat (Zlen a - _)) with O by (rewrite !Zlen_app; pose proof (Zlen_nonneg b); pose proof (Zlen_nonneg c); lia).
  cbn [replicate]. rewrite app_nil_r. unfold Zlen. rewrite Nat2Z.id, take_app_length. f_equal. f_equal. unfold Zlen in Hb. rewrite app_assoc, drop_app_length'; [done|]. rewrite length_app. lia.
Qed.
(** Writing at the end of the part that counts. *)
Lemma pwrite_over a junk off buf : off = Zlen a -> exists junk', pwrite_all (a ++ junk) off buf = (a ++ buf) ++ junk'.
Proof.
  intros ->. destruct (Z.le_ge_cases (Zlen buf) (Zlen junk)) as [H|H].
  - exists (drop (length buf) junk). rewrite <- (take_drop (length buf) junk) at 1. rewrite pwrite_mid; [by rewrite app_assoc|done|]. unfold Zlen in *. rewrite length_take. lia.
  - exists []. unfold pwrite_all. replace (Z.to_nat (Zlen a - _)) with O by (rewrite Zlen_app; pose proof (Zlen_nonneg junk); lia). cbn [replicate]. rewrite app_nil_r.
    unfold Zlen. rewrite Nat2Z.id, take_app_length. rewrite drop_ge by (unfold Zlen in *; rewrite length_app; lia). by rewrite app_nil_r, app_nil_r.
Qed.

(** ** Frames *)
Definition frame (body : bytes) : bytes := encode_frame_header (Zlen body) (crc32c body) ++ body.
Definition good_body (b : bytes) : Prop := bytes_ok b /\ Zlen b <= MAX_BODY_BYTES.
Abbreviation frames bodies := (concat (frame <$> bodies)).
Fixpoint entries (off : Z) (bodies : list bytes) : list (Z * Z * Z) :=
  match bodies with
  | [] => []
  | b :: bodies => (off, Zlen b, crc32c b) :: entries (off + (8 + Zlen b)) bodies
  end.
Definition sidecar (es : list (Z * Z * Z)) : bytes := concat ((fun e => encode_bidx (fst (fst e)) (snd (fst e))) <$> es).

Lemma Zlen_frame b : Zlen (frame b) = 8 + Zlen b.
Proof. unfold frame, encode_frame_header. zlen. lia. Qed.
Lemma Zlen_bidx off len : Zlen (encode_bidx off len) = 8.
Proof. unfold encode_bidx. by zlen. Qed.
Lemma Zlen_frames_cons b bodies : Zlen (frames (b :: bodies)) = 8 + Zlen b + Zlen (frames bodies).
Proof. cbn [fmap list_fmap concat]. by rewrite Zlen_app, Zlen_frame. Qed.
Lemma frames_app a b : frames (a ++ b) = frames a ++ frames b.
Proof. by rewrite fmap_app, concat_app. Qed.
Lemma Zlen_entries bodies : forall off, Zlen (entries off bodies) = Zlen bodies.
Proof. induction bodies as [|b bodies IH]; intros off; [done|]. cbn [entries]. by rewrite !Zlen_cons, IH. Qed.
Lemma entries_app a : forall off b, entries off (a ++ b) = entries off a ++ entries (off + Zlen (frames a)) b.
Proof.
  induction a as [|x a IH]; intros off b; cbn [app entries]; [by rewrite Z.add_0_r|]. rewrite IH, Zlen_frames_cons. do 3 f_equal. lia.
Qed.
Lemma Zlen_sidecar es : Zlen (sidecar es) = 8 * Zlen es.
Proof.
  unfold sidecar. induction es as [|e es IH]; [done|]. cbn [fmap list_fmap concat]. rewrite Zlen_app, Zlen_bidx, Zlen_cons, IH. lia.
Qed.
Lemma sidecar_app a b : sidecar (a ++ b) = sidecar a ++ sidecar b.
Proof. unfold sidecar. by rewrite fmap_app, concat_app. Qed.
Lemma good_u32 b : good_body b -> 0 <= Zlen b < 2 ^ 32 /\ 0 <= crc32c b < 2 ^ 32.
Proof. intros [Hb Hl]. split; [change MAX_BODY_BYTES with 1048444 in Hl; pose proof (Zlen_nonneg b); lia|by apply crc32c_u32]. Qed.
Lemma frame_header b rest : good_body b -> decode_frame_header (pread (frame b ++ rest) 0 8) = (Zlen b, crc32c b).
Proof.
  intros Hb. apply good_u32 in Hb as [H1 H2]. unfold frame. rewrite <- app_assoc. rewrite pread_front by (unfold encode_frame_header; by zlen). by apply decode_encode_frame.
Qed.
Lemma frame_payload b rest : pread (frame b ++ rest) 8 (Zlen b) = b.
Proof. unfold frame. rewrite <- app_assoc. apply pread_mid; [unfold encode_frame_header; by zlen|done]. Qed.

(** ** The scan *)
Lemma scan_good a b rest : good_body b -> Zlen a + (8 + Zlen b) <= umax 32 -> scan_frame (a ++ frame b ++ rest) (Zlen a) = Some (Zlen b, crc32c b).
Proof.
  intros Hb Hf. pose proof Hb as [Hok Hl]. pose proof (Zlen_nonneg a). pose proof (Zlen_nonneg b). unfold scan_frame. assert (Zlen (pread (a ++ frame b ++ rest) (Zlen a) 8) = 8).
  { rewrite Zlen_pread by lia. rewrite !Zlen_app, Zlen_frame. pose proof (Zlen_nonneg rest). lia. }
  destruct (Z.eqb_spec (Zlen (pread (a ++ frame b ++ rest) (Zlen a) 8)) 8); [|done]. cbn [negb]. rewrite pread_app_r, Z.sub_diag, frame_header by (done || lia).
  destruct (Z.ltb_spec MAX_BODY_BYTES (Zlen b)); [lia|]. rewrite pread_app_r by lia. replace (Zlen a + 8 - Zlen a) with 8 by lia. rewrite frame_payload, !Z.eqb_refl. cbn [negb].
  destruct (Z.ltb_spec (umax 32) (Zlen a + 8 + Zlen b)); [lia|done].
Qed.
Lemma scan_inv f a rest len crc : f = a ++ rest -> bytes_ok rest -> scan_frame f (Zlen a) = Some (len, crc) ->
  exists b rest', rest = frame b ++ rest' /\ len = Zlen b /\ crc = crc32c b /\ good_body b /\ Zlen a + (8 + Zlen b) <= umax 32.
Proof.
  intros -> Hr. pose proof (Zlen_nonneg a). unfold scan_frame. rewrite pread_app_r, Z.sub_diag by lia. destruct (Z.eqb_spec (Zlen (pread rest 0 8)) 8) as [H8|]; [|done]. cbn [negb].
  destruct (decode_frame_header (pread rest 0 8)) as [l c] eqn:Ed. destruct (Z.ltb_spec MAX_BODY_BYTES l); [done|].
  assert (Hp : bytes_ok (pread rest 0 8)) by (by apply slice_Forall). assert (Hd : encode_frame_header l c = pread rest 0 8 /\ 0 <= l).
  { unfold decode_frame_header in Ed. injection Ed as <- <-. unfold encode_frame_header. rewrite (le_bytes_slice 4), (le_bytes_slice 4) by (done || lia). rewrite slice_slice by lia.
    split; [by apply slice_all|]. apply from_le_bounds. by apply slice_Forall. }
  destruct Hd as [Hd Hl0]. rewrite pread_app_r by lia. replace (Zlen a + 8 - Zlen a) with 8 by lia.
  destruct (Z.eqb_spec (Zlen (pread rest 8 l)) l) as [Hl|]; [|done]. cbn [negb]. destruct (Z.eqb_spec (crc32c (pread rest 8 l)) c) as [Hc|]; [|done]. cbn [negb].
  destruct (Z.ltb_spec (umax 32) (Zlen a + 8 + l)); [done|]. intros [= <- <-]. exists (pread rest 8 l), (drop (Z.to_nat (8 + l)) rest). rewrite Hl.
  split; [|split; [done|split; [done|split; [split; [by apply slice_Forall|lia]|lia]]]]. unfold frame. rewrite Hl, Hc, Hd. unfold pread. change (0 + 8) with 8. rewrite slice_slice by lia.
  unfold slice. change (Z.to_nat 0) with O. rewrite drop_0, Z.sub_0_r. by rewrite take_drop.
Qed.
Lemma scan_stop fuel f limit out off : limit <= Zlen out \/ scan_frame f off = None -> scan_loop fuel f limit out off = (out, off).
Proof.
  intros H. destruct fuel as [|fuel]; [done|]. cbn [scan_loop]. destruct (Z.ltb_spec (Zlen out) limit) as [Hlt|]; [|done]. destruct H as [H | ->]; [lia|done].
Qed.
Lemma scan_run bodies : forall fuel f a rest limit out, f = a ++ frames bodies ++ rest -> Forall good_body bodies ->
  Zlen a + Zlen (frames bodies) <= umax 32 -> Zlen out + Zlen bodies <= limit ->
  scan_loop (length bodies + fuel) f limit out (Zlen a) = scan_loop fuel f limit (out ++ entries (Zlen a) bodies) (Zlen a + Zlen (frames bodies)).
Proof.
  induction bodies as [|b bodies IH]; intros fuel f a rest limit out Hf Hg Hm Hl; [cbn [length Nat.add entries]; by rewrite app_nil_r, Z.add_0_r|].
  apply list.Forall_cons in Hg as [Hb Hg]. rewrite Zlen_frames_cons in *. rewrite Zlen_cons in Hl. pose proof (Zlen_nonneg (frames bodies)). pose proof (Zlen_nonneg bodies).
  cbn [length Nat.add scan_loop entries fmap list_fmap concat] in *. destruct (Z.ltb_spec (Zlen out) limit); [|lia]. rewrite <- app_assoc in Hf.
  assert (Hs : scan_frame f (Zlen a) = Some (Zlen b, crc32c b)) by (rewrite Hf; apply scan_good; [done|lia]). rewrite Hs.
  assert (Ha : Zlen a + (8 + Zlen b) = Zlen (a ++ frame b)) by (rewrite Zlen_app, Zlen_frame; lia). rewrite Ha, (IH fuel f (a ++ frame b) rest);
    [|by rewrite <- app_assoc|done|lia|rewrite Zlen_app, Zlen_cons; change (Zlen (@nil (Z * Z * Z))) with 0; lia].
  rewrite <- app_assoc. cbn [app]. f_equal. lia.
Qed.
Lemma scan_sound fuel : forall f a rest limit out, f = a ++ rest -> bytes_ok rest -> Zlen a <= umax 32 -> Zlen out <= limit -> (length rest < fuel)%nat ->
  exists bodies rest', rest = frames bodies ++ rest' /\ Forall good_body bodies /\ Zlen a + Zlen (frames bodies) <= umax 32 /\ Zlen out + Zlen bodies <= limit /\
    scan_loop fuel f limit out (Zlen a) = (out ++ entries (Zlen a) bodies, Zlen a + Zlen (frames bodies)) /\
    (Zlen out + Zlen bodies = limit \/ scan_frame f (Zlen a + Zlen (frames bodies)) = None).
Proof.
  induction fuel as [|fuel IH]; intros f a rest limit out Hf Hr Ha Ho Hl; [lia|]. cbn [scan_loop].
  assert (Hend : limit <= Zlen out \/ scan_frame f (Zlen a) = None -> exists bodies rest', rest = frames bodies ++ rest' /\ Forall good_body bodies /\
    Zlen a + Zlen (frames bodies) <= umax 32 /\ Zlen out + Zlen bodies <= limit /\ (out, Zlen a) = (out ++ entries (Zlen a) bodies, Zlen a + Zlen (frames bodies)) /\
    (Zlen out + Zlen bodies = limit \/ scan_frame f (Zlen a + Zlen (frames bodies)) = None)).
  { intros Hs. exists [], rest. cbn [entries fmap list_fmap concat]. change (Zlen (@nil Z)) with 0. change (Zlen (@nil bytes)) with 0. rewrite !Z.add_0_r, app_nil_r.
    split; [done|]. split; [constructor|]. split; [done|]. split; [done|]. split; [done|]. destruct Hs; [left; lia|by right]. }
  destruct (Z.ltb_spec (Zlen out) limit) as [Hlt|Hge]; [|by apply Hend; left]. destruct (scan_frame f (Zlen a)) as [[len crc]|] eqn:Es; [|by apply Hend; right]. clear Hend.
  destruct (scan_inv f a rest len crc Hf Hr Es) as (b & rest' & -> & -> & -> & Hb & Hm). apply Forall_app in Hr as [_ Hr].
  assert (Hab : Zlen (a ++ frame b) = Zlen a + (8 + Zlen b)) by (rewrite Zlen_app, Zlen_frame; lia).
  destruct (IH f (a ++ frame b) rest' limit (out ++ [(Zlen a, Zlen b, crc32c b)])) as (bodies & rest'' & -> & Hg & Hm' & Hl' & He & Hstop).
  - by rewrite Hf, app_assoc.
  - done.
  - lia.
  - rewrite Zlen_app, Zlen_cons. change (Zlen (@nil (Z * Z * Z))) with 0. lia.
  - rewrite length_app in Hl. pose proof (Zlen_frame b) as Hz. unfold Zlen in Hz. lia.
  - exists (b :: bodies), rest''. rewrite Zlen_frames_cons, Zlen_cons. rewrite Zlen_app, Zlen_cons in Hl', Hstop. change (Zlen (@nil (Z * Z * Z))) with 0 in Hl', Hstop. rewrite Hab in *.
    cbn [fmap list_fmap concat entries]. split; [by rewrite app_assoc|]. split; [by constructor|]. split; [lia|]. split; [lia|]. rewrite He, <- app_assoc.
    split; [cbn [app]; f_equal; lia|]. destruct Hstop as [Hs|Hs]; [left; lia|right]. rewrite <- Hs. f_equal. lia.
Qed.
Lemma scan_whole bodies tail limit : Forall good_body bodies -> Zlen (frames bodies) <= umax 32 -> Zlen bodies <= limit ->
  Zlen bodies = limit \/ scan_frame (frames bodies ++ tail) (Zlen (frames bodies)) = None ->
  scan_body_segment (frames bodies ++ tail) limit = (entries 0 bodies, Zlen (frames bodies)).
Proof.
  intros Hg Hm Hl Hs. unfold scan_body_segment. set (f := frames bodies ++ tail) in *.
  assert (Hn : (length bodies <= length f)%nat). { unfold f. rewrite length_app. clear -bodies. induction bodies as [|b bodies IH]; [cbn; lia|]. cbn [fmap list_fmap concat length]. rewrite length_app.
    pose proof (Zlen_frame b) as Hz. unfold Zlen in Hz. lia. }
  replace (S (length f)) with (length bodies + (S (length f) - length bodies))%nat by lia. change 0 with (Zlen (@nil Z)) at 1.
  rewrite (scan_run bodies _ f [] tail) by done. change (Zlen (@nil Z)) with 0. rewrite Z.add_0_l. cbn [app]. apply scan_stop. rewrite Zlen_entries. destruct Hs; [left; lia|by right].
Qed.
Lemma torn_stops a b cut : 0 <= cut < Zlen (frame b) -> good_body b -> scan_frame (a ++ take (Z.to_nat cut) (frame b)) (Zlen a) = None.
Proof.
  intros Hc Hb. destruct (scan_frame _ _) as [[len crc]|] eqn:E; [|done]. exfalso. pose proof Hb as [Hok _].
  assert (Hfr : bytes_ok (frame b)) by (apply Forall_app; split; [apply Forall_app; split; apply le_bytes_ok|done]).
  apply (scan_inv _ a (take (Z.to_nat cut) (frame b))) in E as (b' & rest' & Ht & _ & _ & Hb' & _); [|done|by apply Forall_take].
  assert (Hz : Zlen (frame b') + Zlen rest' = cut) by (rewrite <- Zlen_app, <- Ht; unfold Zlen in *; rewrite length_take; lia). pose proof (Zlen_nonneg rest'). pose proof (Zlen_nonneg b').
  rewrite Zlen_frame in *. assert (Hh : pread (frame b' ++ rest') 0 8 = pread (frame b ++ []) 0 8).
  { rewrite <- Ht, app_nil_r. unfold pread, slice. rewrite !drop_0. change (Z.to_nat (0 + 8 - 0)) with 8%nat. rewrite take_take. f_equal. lia. }
  pose proof (frame_header b' rest' Hb') as H1. rewrite Hh, frame_header in H1 by done. injection H1 as H1 _. lia.
Qed.
Lemma rotten_stops a pre run run' post rest : bytes_ok pre -> bytes_ok run -> bytes_ok run' -> bytes_ok post -> bytes_ok rest ->
  length run' = length run -> (length run <= 4)%nat -> run' <> run -> good_body (pre ++ run ++ post) ->
  scan_frame (a ++ (encode_frame_header (Zlen (pre ++ run ++ post)) (crc32c (pre ++ run ++ post)) ++ pre ++ run' ++ post) ++ rest) (Zlen a) = None.
Proof.
  intros Hp Hr Hr' Hq Hz Hl H4 Hne Hb. set (b := pre ++ run ++ post) in *. set (b' := pre ++ run' ++ post).
  assert (Hlen : Zlen b' = Zlen b) by (unfold b, b'; rewrite !Zlen_app; unfold Zlen; lia). pose proof Hb as [_ Hmax]. pose proof (Zlen_nonneg b). pose proof (Zlen_nonneg a). apply good_u32 in Hb as [H1 H2].
  unfold scan_frame. rewrite pread_app_r by lia. rewrite Z.sub_diag, <- app_assoc, pread_front by (unfold encode_frame_header; by zlen).
  replace (Zlen (encode_frame_header _ _)) with 8 by (unfold encode_frame_header; by zlen). cbn [Z.eqb Pos.eqb negb]. rewrite decode_encode_frame by done.
  destruct (Z.ltb_spec MAX_BODY_BYTES (Zlen b)); [lia|]. rewrite pread_app_r by lia. rewrite (pread_mid _ b' rest); [|unfold encode_frame_header; zlen; lia|done]. rewrite Hlen, Z.eqb_refl. cbn [negb].
  destruct (Z.eqb_spec (crc32c b') (crc32c b)) as [He|]; [|done]. exfalso. apply Hne. apply (crc_run_inj pre run' run post); (done || lia).
Qed.

(** ** A body segment is the list of its bodies *)
Record body_seg_holds (s : BodySeg) (bodies : list bytes) : Prop := {
  bh_good : Forall (fun b => good_body b /\ 0 < Zlen b) bodies;
  bh_body : exists junk, bs_body s = frames bodies ++ junk;
  bh_bidx : exists junk, bs_bidx s = sidecar (entries 0 bodies) ++ junk;
  bh_append : bs_append s = Zlen (frames bodies);
  bh_room : Zlen bodies <= SEG_BLOCKS
}.
Lemma frames_room bodies : Forall (fun b => good_body b /\ 0 < Zlen b) bodies -> 0 <= Zlen (frames bodies) <= Zlen bodies * (8 + MAX_BODY_BYTES).
Proof.
  induction 1 as [|b bodies [[_ Hb] H0] _ IH]; [done|]. rewrite Zlen_frames_cons, Zlen_cons. change MAX_BODY_BYTES with 1048444 in *. lia.
Qed.
Lemma frames_addressable bodies : Forall (fun b => good_body b /\ 0 < Zlen b) bodies -> Zlen bodies <= SEG_BLOCKS -> 0 <= Zlen (frames bodies) <= umax 32.
Proof.
  intros Hg Hn. apply frames_room in Hg. change SEG_BLOCKS with 4096 in Hn. change MAX_BODY_BYTES with 1048444 in *. change (umax 32) with 4294967295. lia.
Qed.
Lemma slot_prev h : 0 < slot_of h -> slot_of (h - 1) = slot_of h - 1.
Proof.
  rewrite !slot_mod. intros Hs. pose proof (Z.mod_pos_bound h SEG_BLOCKS ltac:(done)). symmetry. apply (Z.mod_unique_pos _ _ (h / SEG_BLOCKS)); [lia|].
  pose proof (Z.div_mod h SEG_BLOCKS ltac:(done)). lia.
Qed.
Lemma body_split (bodies : list bytes) i : 0 <= i < Zlen bodies -> exists pre b post, bodies = pre ++ b :: post /\ Zlen pre = i /\ bodies !! Z.to_nat i = Some b /\ take (Z.to_nat i) bodies = pre.
Proof.
  unfold Zlen. intros Hi. destruct (lookup_lt_is_Some_2 bodies (Z.to_nat i)) as [b Hb]; [lia|]. exists (take (Z.to_nat i) bodies), b, (drop (S (Z.to_nat i)) bodies).
  split; [by symmetry; apply take_drop_middle|]. split; [rewrite length_take; lia|done].
Qed.
(** The row of the sidecar for one slot. *)
Lemma sidecar_row pre b post junk : pread (sidecar (entries 0 (pre ++ b :: post)) ++ junk) (Zlen pre * BIDX_ENTRY_BYTES) 8 = encode_bidx (Zlen (frames pre)) (Zlen b).
Proof.
  rewrite entries_app, sidecar_app, <- app_assoc. cbn [entries]. unfold sidecar at 2. cbn [fmap list_fmap concat fst snd]. rewrite <- app_assoc. rewrite Z.add_0_l.
  apply pread_mid; [rewrite Zlen_sidecar, Zlen_entries; unfold BIDX_ENTRY_BYTES; lia|by rewrite Zlen_bidx].
Qed.
Lemma holds_u32 bodies pre b post : bodies = pre ++ b :: post -> Forall (fun b => good_body b /\ 0 < Zlen b) bodies -> Zlen bodies <= SEG_BLOCKS ->
  0 <= Zlen (frames pre) < 2 ^ 32 /\ good_body b /\ 0 < Zlen b < 2 ^ 32 /\ Zlen (frames pre) + 8 + Zlen b <= umax 32.
Proof.
  intros -> Hg Hn. pose proof (frames_addressable _ Hg Hn) as Hr. rewrite frames_app, Zlen_app, Zlen_frames_cons in Hr. apply Forall_app in Hg as [_ [[Hb H0] _]%list.Forall_cons].
  pose proof (Zlen_nonneg (frames pre)). pose proof (Zlen_nonneg (frames post)). change (umax 32) with (2 ^ 32 - 1) in *. repeat split; try lia; apply Hb.
Qed.
Lemma read_body_holds s (bodies : list bytes) h : body_seg_holds s bodies -> slot_of h < Zlen bodies -> exists b, bodies !! Z.to_nat (slot_of h) = Some b /\ read_body s h = Ok b.
Proof.
  intros [Hg [j1 Hbody] [j2 Hbidx] _ Hn] Hs. pose proof (slot_bounds h) as Hsb. destruct (body_split bodies (slot_of h)) as (pre & b & post & Hsp & Hpre & Hb & _); [lia|].
  exists b. split; [done|]. destruct (holds_u32 _ _ _ _ Hsp Hg Hn) as (Ho & Hgood & Hl & Hm). unfold read_body, bidx_offset. rewrite Hbidx, <- Hpre, Hsp, sidecar_row, Zlen_bidx.
  cbn [Z.eqb Pos.eqb negb]. rewrite decode_encode_bidx by lia. destruct (Z.eqb_spec (Zlen b) 0); [lia|]. pose proof Hgood as [_ Hmax]. destruct (Z.ltb_spec MAX_BODY_BYTES (Zlen b)); [lia|].
  rewrite Hbody, Hsp, frames_app. cbn [fmap list_fmap concat]. rewrite <- !app_assoc. rewrite Zlen_pread by lia. rewrite !Zlen_app, Zlen_frame.
  pose proof (Zlen_nonneg (frames post)). pose proof (Zlen_nonneg j1). replace (Z.max 0 _) with 8 by lia. cbn [Z.eqb Pos.eqb negb]. rewrite pread_app_r, Z.sub_diag, frame_header by (done || lia).
  rewrite Z.eqb_refl. destruct (Z.ltb_spec MAX_BODY_BYTES (Zlen b)); [lia|]. cbn [negb orb]. rewrite pread_app_r by lia. replace (Zlen (frames pre) + 8 - Zlen (frames pre)) with 8 by lia.
  by rewrite frame_payload, !Z.eqb_refl.
Qed.
Lemma holds_take s bodies k a : body_seg_holds s bodies -> (k <= length bodies)%nat -> a = Zlen (frames (take k bodies)) ->
  body_seg_holds (MkBodySeg (bs_body s) (bs_bidx s) a) (take k bodies).
Proof.
  intros [Hg [j1 Hbody] [j2 Hbidx] Ha Hn] Hk ->. rewrite <- (take_drop k bodies) in Hbody, Hbidx. rewrite frames_app, <- app_assoc in Hbody. rewrite entries_app, sidecar_app, <- app_assoc in Hbidx.
  split; cbn [bs_body bs_bidx bs_append]; [by apply Forall_take|eauto|eauto|done|]. unfold Zlen in *. rewrite length_take. lia.
Qed.
Lemma body_append_holds s bodies h : body_seg_holds s bodies -> slot_of h <= Zlen bodies ->
  body_append_for (bs_bidx s) h = Ok (Zlen (frames (take (Z.to_nat (slot_of h)) bodies))).
Proof.
  intros [Hg _ [j2 Hbidx] _ Hn] Hs. pose proof (slot_bounds h) as Hsb. unfold body_append_for. destruct (Z.eqb_spec h 0) as [->|_]; [done|]. destruct (Z.eqb_spec (slot_of h) 0) as [->|Hne]; [done|]. cbn [orb].
  destruct (body_split bodies (slot_of h - 1)) as (pre & b & post & Hsp & Hpre & Hb & Htk); [lia|]. destruct (holds_u32 _ _ _ _ Hsp Hg Hn) as (Ho & Hgood & Hl & Hm).
  unfold bidx_offset. rewrite slot_prev, <- Hpre by lia. rewrite Hbidx, Hsp, sidecar_row, Zlen_bidx. cbn [Z.eqb Pos.eqb negb]. rewrite decode_encode_bidx by lia. destruct (Z.eqb_spec (Zlen b) 0); [lia|].
  unfold add_checked, checked_add, checked. change (umax 32) with (2 ^ 32 - 1) in Hm. unfold BODY_FRAME_BYTES. rewrite (proj2 (fits_spec 32 (Zlen (frames pre) + 8))) by lia. cbn [expect obind].
  rewrite (proj2 (fits_spec 32 _)) by lia. cbn [expect]. f_equal. replace (Z.to_nat (slot_of h)) with (length pre + 1)%nat by (unfold Zlen in Hpre; lia).
  rewrite firstn_app_2. cbn [firstn]. rewrite frames_app, Zlen_app. cbn [fmap list_fmap concat]. rewrite app_nil_r, Zlen_frame. lia.
Qed.
Lemma write_body_holds s bodies seg h b : body_seg_holds s bodies -> good_body b -> 0 < Zlen b -> slot_of h = Zlen bodies ->
  exists s', write_body s seg h b = Ok s' /\ body_seg_holds s' (bodies ++ [b]).
Proof.
  intros [Hg [j1 Hbody] [j2 Hbidx] Ha Hn] Hb H0 Hs. pose proof (slot_bounds h) as Hsb. assert (Hg' : Forall (fun b => good_body b /\ 0 < Zlen b) (bodies ++ [b])) by (apply Forall_app; split; [done|by repeat constructor; try apply Hb]).
  assert (Hn' : Zlen (bodies ++ [b]) <= SEG_BLOCKS) by (rewrite Zlen_app, Zlen_cons; change (Zlen (@nil bytes)) with 0; lia).
  destruct (holds_u32 (bodies ++ [b]) bodies b [] eq_refl Hg' Hn') as (Ho & _ & Hl & Hm). unfold write_body. rewrite Ha. unfold BODY_FRAME_BYTES.
  destruct (Z.ltb_spec (umax 32) (Zlen (frames bodies) + 8 + Zlen b)); [lia|]. rewrite !wrap_small by (change (umax 32) with (2 ^ 32 - 1) in Hm; lia).
  eexists. split; [reflexivity|]. destruct (pwrite_over (frames bodies) j1 (Zlen (frames bodies)) (frame b) eq_refl) as [j1' Hw1].
  destruct (pwrite_over (sidecar (entries 0 bodies)) j2 (bidx_offset h) (encode_bidx (Zlen (frames bodies)) (Zlen b))) as [j2' Hw2];
    [unfold bidx_offset, BIDX_ENTRY_BYTES; rewrite Hs, Zlen_sidecar, Zlen_entries; lia|].
  split; cbn [bs_body bs_bidx bs_append]; [done| | | |done].
  - exists j1'. rewrite Hbody, frames_app. cbn [fmap list_fmap concat]. rewrite app_nil_r. exact Hw1.
  - exists j2'. rewrite Hbidx, entries_app, sidecar_app. cbn [entries]. unfold sidecar at 3. cbn [fmap list_fmap concat fst snd]. rewrite app_nil_r, Z.add_0_l. exact Hw2.
  - rewrite frames_app, Zlen_app. cbn [fmap list_fmap concat]. rewrite app_nil_r, Zlen_frame. lia.
Qed.

(** C19. A body segment refines the list of its bodies. Appending a non-empty body of legal size at the next free slot succeeds,
    without overflowing the 32-bit offsets, and adds it to the list; every body in the list is read back unchanged; and the
    append offset recomputed for a rewind to any slot is the one that keeps exactly the bodies below that slot, whatever
    stale bytes lie behind. *)
Theorem body_segment_refines_list s (bodies : list bytes) seg height body h :
  body_seg_holds s bodies -> good_body body -> 0 < Zlen body -> slot_of height = Zlen bodies ->
  (exists s', write_body s seg height body = Ok s' /\ body_seg_holds s' (bodies ++ [body])) /\
  (slot_of h < Zlen bodies -> exists b, bodies !! Z.to_nat (slot_of h) = Some b /\ read_body s h = Ok b) /\
  (slot_of h <= Zlen bodies -> exists a, body_append_for (bs_bidx s) h = Ok a /\
     body_seg_holds (MkBodySeg (bs_body s) (bs_bidx s) a) (take (Z.to_nat (slot_of h)) bodies)).
Proof.
  intros Hh Hb H0 Hs. split; [by apply write_body_holds|]. split; [by apply read_body_holds|]. intros Hle. eexists. split; [by apply body_append_holds|].
  apply holds_take; [done| |done]. pose proof (slot_bounds h). unfold Zlen in Hle. lia.
Qed.

(** C39. The scan that recovers a body segment finds exactly the whole frames. On any file it returns the positions, lengths and
    checksums of a run of frames at the front, and stops at the limit or before the first frame that is incomplete, too
    long, false to its checksum or not addressable; cutting the file there and scanning again gives the same answer. A
    segment torn anywhere inside its last frame, or with up to four neighbouring bytes of a body changed, yields exactly the
    frames before. *)
Theorem body_scan_exact f limit (bodies : list bytes) b cut pre run run' post rest :
  bytes_ok f -> 0 <= limit -> Forall good_body bodies -> good_body b -> Zlen (frames bodies) <= umax 32 -> Zlen bodies <= limit -> 0 <= cut < Zlen (frame b) ->
  b = pre ++ run ++ post -> bytes_ok run' -> bytes_ok rest -> length run' = length run -> (length run <= 4)%nat -> run' <> run ->
  (exists found tail, f = frames found ++ tail /\ Forall good_body found /\ Zlen found <= limit /\
     scan_body_segment f limit = (entries 0 found, Zlen (frames found)) /\
     (Zlen found = limit \/ scan_frame f (Zlen (frames found)) = None) /\
     scan_body_segment (frames found) limit = scan_body_segment f limit) /\
  scan_body_segment (frames bodies ++ take (Z.to_nat cut) (frame b)) limit = (entries 0 bodies, Zlen (frames bodies)) /\
  scan_body_segment (frames bodies ++ (encode_frame_header (Zlen b) (crc32c b) ++ pre ++ run' ++ post) ++ rest) limit = (entries 0 bodies, Zlen (frames bodies)).
Proof.
  intros Hf Hlim Hg Hb Hm Hl Hc -> Hr' Hrest Hlen H4 Hne. pose proof Hb as [Hok _]. apply Forall_app in Hok as [Hp [Hr Hq]%Forall_app].
  split; [|split; apply scan_whole; try done; right; [by apply torn_stops|by apply rotten_stops]].
  destruct (scan_sound (S (length f)) f [] f limit []) as (found & tail & Hsp & Hgf & Hmf & Hlf & He & Hstop); try done; [lia|].
  change (Zlen (@nil (Z * Z * Z))) with 0 in *. change (Zlen (@nil Z)) with 0 in *. rewrite Z.add_0_l in *. cbn [app] in He.
  exists found, tail. split; [done|]. split; [done|]. split; [done|]. split; [exact He|]. split; [by rewrite Z.add_0_l in Hstop|]. unfold scan_body_segment at 2. rewrite He.
  rewrite <- (app_nil_r (frames found)) at 1. apply scan_whole; [done..|]. right. unfold scan_frame. rewrite app_nil_r.
  rewrite Zlen_pread by (pose proof (Zlen_nonneg (frames found)); lia). rewrite Z.sub_diag. reflexivity.
Qed.
Lemma sample_body_good : good_body [1; 2; 3].
Proof. split; [solve_bytes_ok|done]. Qed.
Lemma body_segment_refines_list_witness :
  exists s', write_body (MkBodySeg [] [] 0) 0 0 [1; 2; 3] = Ok s' /\ body_seg_holds s' [[1; 2; 3]] /\ read_body s' 0 = Ok [1; 2; 3].
Proof.
  assert (H0 : body_seg_holds (MkBodySeg [] [] 0) []) by (split; cbn; (constructor || (by exists []) || done)).
  destruct (body_segment_refines_list (MkBodySeg [] [] 0) [] 0 0 [1; 2; 3] 0 H0 sample_body_good) as ((s' & Hw & Hs) & _); [done..|]. exists s'. split; [done|]. split; [done|].
  destruct (body_segment_refines_list s' [[1; 2; 3]] 0 1 [1; 2; 3] 0 Hs sample_body_good) as (_ & Hr & _); [done..|]. destruct Hr as (b & Hb & ->); [done|]. by injection Hb as <-.
Defined.
Lemma body_scan_exact_witness :
  scan_body_segment (frames [[5; 6]] ++ take 10 (frame [1; 2; 3])) 7 = (entries 0 [[5; 6]], 10).
Proof.
  edestruct (body_scan_exact [] 7 [[5; 6]] [1; 2; 3] 10 [1] [2] [9] [3] []) as (_ & H & _); [..|exact H]; try (solve_bytes_ok || exact sample_body_good || done); try (cbn; lia).
  constructor; [split; [solve_bytes_ok|done]|constructor].
Defined.
