(* ===== verification/StoreCrash.v ===== *)
(** The crash safety of a reorganisation's header overwrite: before the headers of a branch are written in place, the sectors they
    touch are journalled; whatever part of the overwrite reached the disk, replaying the journal gives back every header. *)

From Stdlib Require Import ZArith Lia List String Permutation.
From stdpp Require Import base list gmap numbers.
From S2P Require Import Prelude Constants Codec Crypto ChainTypes Crc32c StoreCodec StoreFiles StoreFilesProps.
Import ListNotations.
Open Scope Z_scope.

(** ** Positional writes, byte by byte *)
Lemma zlookup_pwrite f off buf p : 0 <= off -> 0 <= p < Zlen f ->
  zlookup (pwrite_all f off buf) p = if (off <=? p) && (p <? off + Zlen buf) then zlookup buf (p - off) else zlookup f p.
Proof.
  intros Ho Hp. unfold pwrite_all, Zlen in *. set (pad := replicate _ 0). assert (Hpad : length pad = Z.to_nat (off - Z.of_nat (length f))) by apply length_replicate.
  assert (Hlen : length (take (Z.to_nat off) (f ++ pad)) = Z.to_nat off) by (rewrite length_take, length_app; lia).
  destruct (Z.leb_spec off p) as [H1|H1]; cbn [andb].
  - unfold zlookup. destruct (Z.leb_spec 0 p); [|lia]. rewrite lookup_app_r by lia. rewrite Hlen. destruct (Z.ltb_spec p (off + Z.of_nat (length buf))).
    + destruct (Z.leb_spec 0 (p - off)); [|lia]. rewrite lookup_app_l by lia. f_equal. lia.
    + rewrite lookup_app_r by lia. rewrite lookup_drop. f_equal. lia.
  - unfold zlookup. destruct (Z.leb_spec 0 p); [|lia]. rewrite lookup_app_l by lia. rewrite lookup_take_lt by lia. apply lookup_app_l. lia.
Qed.
Lemma Zlen_pwrite f off buf : 0 <= off -> Zlen f <= Zlen (pwrite_all f off buf).
Proof. intros Ho. unfold pwrite_all, Zlen. rewrite !length_app, length_take, length_app, length_drop, length_replicate. lia. Qed.
Lemma zlookup_pread f off n p : 0 <= off -> 0 <= p < n -> zlookup (pread f off n) p = zlookup f (off + p).
Proof.
  intros Ho Hp. unfold zlookup, pread, slice. destruct (Z.leb_spec 0 p); [|lia]. destruct (Z.leb_spec 0 (off + p)); [|lia].
  rewrite lookup_take_lt by lia. rewrite lookup_drop. f_equal. lia.
Qed.

(** ** Images of the disk that still agree with the old files on a set of positions *)
Definition agrees (old img : Files) (S : Z -> Z -> Prop) : Prop :=
  forall seg f, old !! seg = Some f -> exists g, img !! seg = Some g /\ Zlen f <= Zlen g /\ forall p, 0 <= p < Zlen f -> S seg p -> zlookup g p = zlookup f p.

Lemma agrees_refl old S : agrees old old S.
Proof. intros seg f Hf. exists f. split; [done|]. split; [lia|done]. Qed.
Lemma agrees_weaken old img (S T : Z -> Z -> Prop) : (forall seg f p, old !! seg = Some f -> 0 <= p < Zlen f -> T seg p -> S seg p) -> agrees old img S -> agrees old img T.
Proof. intros Hst Ha seg f Hf. destruct (Ha seg f Hf) as (g & Hg & Hl & Hp). exists g. split; [done|]. split; [done|]. intros p Hr Ht. apply Hp; [done|]. by eapply Hst. Qed.
(** A write elsewhere keeps the agreement, a write of the old bytes extends it. *)
Lemma agrees_write old img S seg off buf : agrees old img S -> 0 <= off ->
  (forall p, off <= p < off + Zlen buf -> ~ S seg p) -> agrees old (<[seg := pwrite_all (open_rw_create img seg) off buf]> img) S.
Proof.
  intros Ha Ho Hout sg f Hf. destruct (Ha sg f Hf) as (g & Hg & Hl & Hp). destruct (decide (sg = seg)) as [->|Hne]; [|rewrite lookup_insert_ne by done; eauto].
  rewrite lookup_insert_eq. eexists. split; [reflexivity|]. unfold open_rw_create. rewrite Hg. cbn [from_option id]. pose proof (Zlen_pwrite g off buf Ho) as Hlw. split; [lia|]. intros p Hr HS.
  rewrite zlookup_pwrite by lia. destruct (Z.leb_spec off p), (Z.ltb_spec p (off + Zlen buf)); cbn [andb]; try (by apply Hp). exfalso. apply (Hout p); [lia|done].
Qed.
Lemma agrees_restore old img S seg f off n : agrees old img S -> old !! seg = Some f -> 0 <= off -> 0 <= n ->
  agrees old (<[seg := pwrite_all (open_rw_create img seg) off (pread f off n)]> img) (fun sg p => S sg p \/ (sg = seg /\ off <= p < off + n)).
Proof.
  intros Ha Hold Ho Hn sg f' Hf. destruct (Ha sg f' Hf) as (g & Hg & Hl & Hp). destruct (decide (sg = seg)) as [->|Hne].
  - rewrite Hold in Hf. injection Hf as <-. rewrite lookup_insert_eq. eexists. split; [reflexivity|]. unfold open_rw_create. rewrite Hg. cbn [from_option id]. pose proof (Zlen_pwrite g off (pread f off n) Ho).
    split; [lia|]. intros p Hr HS. rewrite zlookup_pwrite by lia. rewrite Zlen_pread by lia. destruct (Z.leb_spec off p), (Z.ltb_spec p (off + Z.max 0 (Z.min n (Zlen f - off)))); cbn [andb];
      [rewrite zlookup_pread by lia; f_equal; lia| | |]; (destruct HS as [HS|[_ HS]]; [by apply Hp|lia]).
  - rewrite lookup_insert_ne by done. exists g. split; [done|]. split; [done|]. intros p Hr [HS|[? _]]; [by apply Hp|done].
Qed.

(** ** The journal *)
Definition row_of (old : Files) (seg sec : Z) (row : Z * bytes) : Prop :=
  exists f, old !! seg = Some f /\ 0 <= seg < 2 ^ 32 /\ 0 <= sec < 2 ^ 32 /\ row = (Z.lor (Z.shiftl seg 32) sec, pread f (sec * SECTOR) SECTOR).
Lemma key_fields seg sec : 0 <= seg < 2 ^ 32 -> 0 <= sec < 2 ^ 32 ->
  wrap 32 (Z.shiftr (Z.lor (Z.shiftl seg 32) sec) 32) = seg /\ Z.land (Z.lor (Z.shiftl seg 32) sec) 0xFFFFFFFF = sec.
Proof.
  intros Hs Hc. rewrite Z.lor_comm, (lor_add sec _ 32) by (try lia; rewrite Z.shiftl_mul_pow2 by lia; apply Z_mod_mult). rewrite Z.shiftl_mul_pow2 by lia. split.
  - rewrite Z.shiftr_div_pow2, Z.div_add, Z.div_small by lia. by apply wrap_small.
  - change 0xFFFFFFFF with (2 ^ 32 - 1). rewrite land_mask, Z_mod_plus_full by lia. by apply Z.mod_small.
Qed.
Definition covered (old : Files) (rows : list (Z * bytes)) (seg p : Z) : Prop :=
  exists sec row, row ∈ rows /\ row_of old seg sec row /\ sec * SECTOR <= p < sec * SECTOR + SECTOR.
Lemma replay_agrees old rows : forall img S, agrees old img S -> Forall (fun row => exists seg sec, row_of old seg sec row) rows ->
  agrees old (replay_hdr_undo img rows) (fun seg p => S seg p \/ covered old rows seg p).
Proof.
  induction rows as [|row rows IH]; intros img S Ha Hrows.
  - eapply agrees_weaken; [|exact Ha]. intros seg f p _ _ [H|(? & ? & Hin & _)]; [done|]. by apply elem_of_nil in Hin.
  - apply list.Forall_cons in Hrows as [(seg & sec & Hrow) Hrows]. change (replay_hdr_undo img (row :: rows)) with (replay_hdr_undo (replay_row img row) rows).
    pose proof Hrow as (f & Hf & Hsg & Hsc & ->). destruct (key_fields seg sec Hsg Hsc) as [K1 K2].
    assert (Hstep : agrees old (replay_row img (Z.lor (Z.shiftl seg 32) sec, pread f (sec * SECTOR) SECTOR)) (fun sg p => S sg p \/ (sg = seg /\ sec * SECTOR <= p < sec * SECTOR + SECTOR))).
    { unfold replay_row. cbn [fst snd]. rewrite K1, K2. apply agrees_restore; [done|done|unfold SECTOR; lia|done]. }
    eapply agrees_weaken; [|exact (IH _ _ Hstep Hrows)]. intros sg g p Hg Hp [HS|(sc & r & Hin & Hr & Hpos)]; [by left; left|].
    apply elem_of_cons in Hin as [->|Hin]; [|right; by exists sc, r]. left. right. destruct Hr as (f' & Hf' & Hsg' & Hsc' & Heq). injection Heq as Hk _.
    destruct (key_fields sg sc Hsg' Hsc') as [K1' K2']. rewrite <- Hk, K1 in K1'. rewrite <- Hk, K2 in K2'. subst. done.
Qed.
Lemma undo_sectors_rows old seg f fuel : forall k end_, old !! seg = Some f -> 0 <= seg < 2 ^ 32 -> 0 <= k -> end_ <= 2 ^ 32 * SECTOR ->
  Forall (fun row => exists sg sc, row_of old sg sc row) (undo_sectors fuel f seg (k * SECTOR) end_).
Proof.
  induction fuel as [|fuel IH]; intros k end_ Hf Hs Hk He; [constructor|]. cbn [undo_sectors]. destruct (Z.ltb_spec (k * SECTOR) end_); [|constructor].
  destruct (_ =? 0); [constructor|]. rewrite Z.div_mul by done. constructor.
  - exists seg, k, f. repeat split; try done; try lia. unfold SECTOR in *. lia.
  - replace (k * SECTOR + SECTOR) with ((k + 1) * SECTOR) by lia. apply IH; (done || lia).
Qed.
Lemma undo_sectors_cover seg f fuel : forall k s end_, k <= s -> 0 <= k -> s * SECTOR < end_ -> s * SECTOR < Zlen f -> s - k < Z.of_nat fuel ->
  (Z.lor (Z.shiftl seg 32) s, pread f (s * SECTOR) SECTOR) ∈ undo_sectors fuel f seg (k * SECTOR) end_.
Proof.
  induction fuel as [|fuel IH]; intros k s end_ Hks Hk He Hl Hf; [lia|]. cbn [undo_sectors]. assert (Hle : k * SECTOR <= s * SECTOR) by (unfold SECTOR; lia).
  destruct (Z.ltb_spec (k * SECTOR) end_); [|lia]. rewrite Zlen_pread by (unfold SECTOR; lia). destruct (Z.eqb_spec (Z.max 0 (Z.min SECTOR (Zlen f - k * SECTOR))) 0); [unfold SECTOR in *; lia|].
  rewrite Z.div_mul by done. apply elem_of_cons. destruct (Z.eq_dec s k) as [->|Hne]; [by left|right]. replace (k * SECTOR + SECTOR) with ((k + 1) * SECTOR) by lia. apply IH; lia.
Qed.

(** Heights of one segment, and the offsets between them. *)
Lemma same_seg h h' : 0 <= h < 2 ^ 44 -> h <= h' <= seg_first_height (seg_of h) + SEG_BLOCKS - 1 -> h' < 2 ^ 44 -> seg_of h' = seg_of h /\ slot_of h' = slot_of h + (h' - h).
Proof.
  intros Hh Hr Hh'. unfold seg_first_height in Hr. rewrite seg_div, Z.shiftl_mul_pow2 in Hr by (done || lia). change (2 ^ SEG_SHIFT) with SEG_BLOCKS in Hr. rewrite !seg_div, !slot_mod by lia.
  pose proof (Z.div_mod h SEG_BLOCKS ltac:(done)). pose proof (Z.mod_pos_bound h SEG_BLOCKS ltac:(done)). assert (Hq : h' / SEG_BLOCKS = h / SEG_BLOCKS) by (symmetry; apply (Z.div_unique_pos _ _ _ (h' - SEG_BLOCKS * (h / SEG_BLOCKS))); lia).
  split; [done|]. pose proof (Z.div_mod h' SEG_BLOCKS ltac:(done)). lia.
Qed.
Lemma seg_u32 h : 0 <= seg_of h < 2 ^ 32.
Proof. apply wrap_bounds. lia. Qed.
Lemma seg_undo_rows old h l : 0 <= h -> Forall (fun row => exists sg sc, row_of old sg sc row) (seg_undo old h l).
Proof.
  intros Hh. unfold seg_undo. destruct (old !! seg_of h) as [f|] eqn:Hf; [|constructor]. apply undo_sectors_rows; [done|apply seg_u32| |].
  - apply Z.div_pos; [|done]. unfold hdr_offset. pose proof (slot_bounds h). unfold HEADER_BYTES. lia.
  - unfold hdr_offset. pose proof (slot_bounds l) as Hs. change SEG_BLOCKS with 4096 in Hs. unfold HEADER_BYTES, SECTOR in *. pose proof (Z.mul_div_le (slot_of l * 132 + 132 + (4096 - 1)) 4096 ltac:(lia)). lia.
Qed.
Lemma seg_undo_cover old h l h' f p : 0 <= h < 2 ^ 44 -> h <= h' <= l -> l <= seg_first_height (seg_of h) + SEG_BLOCKS - 1 -> l < 2 ^ 44 ->
  old !! seg_of h' = Some f -> hdr_offset h' <= p < hdr_offset h' + HEADER_BYTES -> p < Zlen f ->
  exists row, row ∈ seg_undo old h l /\ row_of old (seg_of h') (p / SECTOR) row.
Proof.
  intros Hh Hr Hl Hl44 Hf Hp Hlen. destruct (same_seg h h') as [S1 O1]; [lia..|]. destruct (same_seg h l) as [S2 O2]; [lia..|]. rewrite S1 in *. unfold seg_undo. rewrite Hf. unfold hdr_offset in *. rewrite O1 in Hp.
  pose proof (slot_bounds h) as Hsb. pose proof (slot_bounds h') as Hsb'. rewrite O1 in Hsb'. change SEG_BLOCKS with 4096 in *. unfold HEADER_BYTES, SECTOR in *. rewrite O2.
  pose proof (Z.div_mod p 4096 ltac:(lia)) as Dp. pose proof (Z.mod_pos_bound p 4096 ltac:(lia)).
  assert (Hlo : slot_of h * 132 / 4096 <= p / 4096) by (apply Z.div_le_mono; lia).
  assert (Hhi : p / 4096 < ((slot_of h + (l - h)) * 132 + 132 + (4096 - 1)) / 4096).
  { apply Z.lt_le_trans with (p / 4096 + 1); [lia|]. replace (p / 4096 + 1) with ((p + 1 * 4096) / 4096) by (rewrite Z.div_add by lia; lia). apply Z.div_le_mono; lia. }
  eexists. split; [apply (undo_sectors_cover (seg_of h) f _ (slot_of h * 132 / 4096) (p / 4096)); unfold SECTOR; [lia|apply Z.div_pos; lia|lia|lia|]|].
  - rewrite Z2Nat.id; lia.
  - exists f. split; [done|]. split; [apply seg_u32|]. split; [|done]. split; [apply Z.div_pos; lia|]. apply Z.div_lt_upper_bound; lia.
Qed.
Lemma journal_rows old fuel : forall h last, 0 <= h -> Forall (fun row => exists sg sc, row_of old sg sc row) (write_hdr_undo_loop fuel old h last).
Proof.
  induction fuel as [|fuel IH]; intros h last Hh; [constructor|]. cbn [write_hdr_undo_loop]. destruct (Z.leb_spec h last); [|constructor]. apply Forall_app. split; [by apply seg_undo_rows|].
  apply IH. unfold seg_first_height. pose proof (seg_u32 h). rewrite Z.shiftl_mul_pow2 by done. change (2 ^ SEG_SHIFT) with 4096. change SEG_BLOCKS with 4096. lia.
Qed.
Lemma journal_covers old fuel : forall h last h' f p, 0 <= h -> last < 2 ^ 44 -> h <= h' <= last -> last - h < Z.of_nat fuel ->
  old !! seg_of h' = Some f -> hdr_offset h' <= p < hdr_offset h' + HEADER_BYTES -> p < Zlen f ->
  exists row, row ∈ write_hdr_undo_loop fuel old h last /\ row_of old (seg_of h') (p / SECTOR) row.
Proof.
  induction fuel as [|fuel IH]; intros h last h' f p Hh Hlast Hr Hfuel Hf Hp Hlen; [lia|]. cbn [write_hdr_undo_loop]. destruct (Z.leb_spec h last); [|lia]. cbv zeta.
  set (sl := Z.min (seg_first_height (seg_of h) + SEG_BLOCKS - 1) last). assert (Hge : h <= sl).
  { pose proof (seg_slot h ltac:(lia)). pose proof (slot_bounds h). unfold sl. lia. }
  destruct (Z.le_gt_cases h' sl).
  - destruct (seg_undo_cover old h sl h' f p) as (row & Hin & Hrow); try (done || lia); [unfold sl; lia..|]. exists row. split; [|done]. apply elem_of_app. by left.
  - destruct (IH (sl + 1) last h' f p) as (row & Hin & Hrow); try (done || lia). exists row. split; [|done]. apply elem_of_app. by right.
Qed.

(** ** The overwrite, stopped anywhere *)
(** What is on disk when the machine stops while the branch is written: the first [n] headers, and [cut] bytes of the next. *)
Definition crash_image (old : Files) (apply : list (Z * bytes)) (n : nat) (cut : nat) : Files :=
  let img := overwrite_headers old (take n apply) in
  match apply !! n with
  | Some (h, raw) => overwrite_header img (h, take cut raw)
  | None => img
  end.
Definition outside (first top seg p : Z) : Prop :=
  forall h, first <= h <= top -> seg_of h = seg -> ~ (hdr_offset h <= p < hdr_offset h + HEADER_BYTES).
Lemma hdr_offset_nonneg h : 0 <= hdr_offset h.
Proof. unfold hdr_offset. pose proof (slot_bounds h). unfold HEADER_BYTES. lia. Qed.
Lemma overwrite_agrees old img first top h raw : agrees old img (outside first top) -> first <= h <= top -> Zlen raw <= HEADER_BYTES ->
  agrees old (overwrite_header img (h, raw)) (outside first top).
Proof.
  intros Ha Hh Hl. unfold overwrite_header. cbn [fst snd]. apply agrees_write; [done|apply hdr_offset_nonneg|]. intros p Hp Hout. apply (Hout h Hh eq_refl). lia.
Qed.
Lemma overwrites_agree old first top apply : Forall (fun b => first <= fst b <= top /\ Zlen (snd b) <= HEADER_BYTES) apply -> forall img,
  agrees old img (outside first top) -> agrees old (overwrite_headers img apply) (outside first top).
Proof.
  induction 1 as [|[h raw] apply [Hh Hl] _ IH]; intros img Ha; [done|]. cbn [fst snd] in *. change (overwrite_headers img ((h, raw) :: apply)) with (overwrite_headers (overwrite_header img (h, raw)) apply).
  apply IH. by apply overwrite_agrees.
Qed.
Lemma crash_agrees old first top apply n cut : Forall (fun b => first <= fst b <= top /\ Zlen (snd b) <= HEADER_BYTES) apply ->
  agrees old (crash_image old apply n cut) (outside first top).
Proof.
  intros Hall. unfold crash_image. assert (Hpre : agrees old (overwrite_headers old (take n apply)) (outside first top)) by (apply overwrites_agree; [by apply Forall_take|apply agrees_refl]).
  destruct (apply !! n) as [[h raw]|] eqn:E; [|done]. pose proof (Forall_lookup_1 _ _ _ _ Hall E) as [Hh Hl]. cbn [fst snd] in *. apply overwrite_agrees; [done|done|]. unfold Zlen in *. rewrite length_take. lia.
Qed.
Lemma agrees_read old img h raw : agrees old img (fun _ _ => True) -> read_header_at old h = Some raw -> read_header_at img h = Some raw.
Proof.
  intros Ha. unfold read_header_at, read_header. destruct (old !! seg_of h) as [f|] eqn:Hf; [|done]. destruct (Ha _ _ Hf) as (g & -> & Hl & Hp). pose proof (hdr_offset_nonneg h) as Ho.
  destruct (Z.eqb_spec (Zlen (pread f (hdr_offset h) HEADER_BYTES)) HEADER_BYTES) as [Hz|]; [|done]. intros [= <-]. rewrite Zlen_pread in Hz by done. unfold HEADER_BYTES in *.
  assert (He : pread g (hdr_offset h) 132 = pread f (hdr_offset h) 132).
  { apply zlookup_ext; [rewrite !Zlen_pread by lia; lia|]. intros p Hr. rewrite Zlen_pread in Hr by lia. rewrite !zlookup_pread by lia. apply Hp; [lia|done]. }
  rewrite He, Zlen_pread by lia. by rewrite (proj2 (Z.eqb_eq _ _) Hz).
Qed.

(** C17. A reorganisation survives a crash while it overwrites headers. The header segments hold the chain up to the old tip and no
    header beyond it; the journal holds the sectors of the heights that the new branch and the old chain share. Then whichever
    prefix of the new headers reached the disk, down to a part of one header, writing the journal back (its rows in any
    order) leaves every header of the old chain readable as it was, byte for byte. *)
Theorem reorg_crash_restores_headers old first old_tip apply rows n cut h raw :
  0 <= first -> old_tip < 2 ^ 44 -> first + Zlen apply < 2 ^ 44 ->
  (forall i b, apply !! i = Some b -> fst b = first + Z.of_nat i /\ Zlen (snd b) = HEADER_BYTES) ->
  (forall seg f k, old !! seg = Some f -> old_tip < k < first + Zlen apply -> seg_of k = seg -> Zlen f <= hdr_offset k) ->
  Permutation rows (write_hdr_undo old first (Z.min (first - 1 + Zlen apply) old_tip)) ->
  read_header_at old h = Some raw -> read_header_at (replay_hdr_undo (crash_image old apply n cut) rows) h = Some raw.
Proof.
  intros H0 Ht Hn Happly Hend Hperm. set (top := first - 1 + Zlen apply) in *. apply agrees_read.
  assert (Hall : Forall (fun b => first <= fst b <= top /\ Zlen (snd b) <= HEADER_BYTES) apply).
  { apply Forall_lookup. intros i b Hb. destruct (Happly i b Hb) as [-> ->]. apply lookup_lt_Some in Hb. unfold top, Zlen. lia. }
  assert (Hrows : Forall (fun row => exists sg sc, row_of old sg sc row) rows).
  { eapply Permutation_Forall; [by symmetry|]. unfold write_hdr_undo. destruct (_ <? _); [constructor|]. by apply journal_rows. }
  eapply agrees_weaken; [|exact (replay_agrees old rows _ _ (crash_agrees old first top apply n cut Hall) Hrows)]. intros seg f p Hf Hp _.
  set (last := Z.min top old_tip) in *.
  destruct (decide (Exists (fun k => seg_of k = seg /\ hdr_offset k <= p < hdr_offset k + HEADER_BYTES) (zrange first (last + 1)))) as [Hex|Hno].
  - right. apply List.Exists_exists in Hex as (k & Hk%in_zrange & <- & Hpk). destruct (journal_covers old (Z.to_nat (last - first + 1)) first last k f p) as (row & Hin & Hrow); try (done || lia).
    exists (p / SECTOR), row. split; [|split; [done|]].
    + rewrite list_elem_of_In in Hin |- *. eapply Permutation_in; [by symmetry|]. unfold write_hdr_undo. destruct (Z.ltb_spec last first); [lia|done].
    + pose proof (Z.div_mod p SECTOR ltac:(done)). pose proof (Z.mod_pos_bound p SECTOR ltac:(done)). lia.
  - left. intros k Hk Hsk Hpk. destruct (Z.le_gt_cases k old_tip) as [Hle|Hgt].
    + apply Hno, List.Exists_exists. exists k. split; [apply in_zrange; unfold last; lia|done].
    + specialize (Hend seg f k Hf ltac:(unfold top in Hk; lia) Hsk). lia.
Qed.
Lemma reorg_crash_restores_headers_witness :
  let old : Files := {[ 0 := replicate 132 1 ++ replicate 132 2 ]} in
  read_header_at (replay_hdr_undo (crash_image old [(1, replicate 132 9); (2, replicate 132 9)] 0 7) (write_hdr_undo old 1 1)) 1 = Some (replicate 132 2).
Proof.
  cbv zeta. apply (reorg_crash_restores_headers _ 1 1 [(1, replicate 132 9); (2, replicate 132 9)]); [lia|lia|by vm_compute| | |reflexivity|by vm_compute].
  - intros [|[|i]] b Hb; try done; injection Hb as <-; done.
  - intros seg f k Hf Hk _. apply lookup_singleton_Some in Hf as [<- <-]. change (1 + Zlen _) with 3 in Hk. replace k with 2 by lia. by vm_compute.
Defined.
