(* ===== verification/StoreTables.v ===== *)
(** The database side of the storage crate (src/lib/storage/src/meta.rs, tables.rs, and the table operations of committer.rs,
    recover.rs and reader.rs). The database engine, redb, is not part of the program: it is the class [Redb], tables with
    their operations, and what the code relies on is the class [RedbLaws]. An operation of the engine may fail, and the
    failure is returned to the caller. A transaction is the tables it has open; what is committed is the transaction. *)

From Stdlib Require Import ZArith Lia List String.
From stdpp Require Import base list gmap numbers strings.
From S2P Require Import Prelude Constants Codec Crypto ChainTypes StoreCodec StoreFiles.
Import ListNotations.
Open Scope Z_scope.

(** ** The engine *)
(** The order of the keys of a table: numbers by value, byte strings as strings. *)
Class RedbKey (K : Type) := {
  key_leb : K -> K -> bool;
  key_total : forall a b, key_leb a b = true \/ key_leb b a = true;
  key_trans : forall a b c, key_leb a b = true -> key_leb b c = true -> key_leb a c = true;
}.
Lemma bytes_leb_total a b : bytes_leb a b = true \/ bytes_leb b a = true.
Proof. unfold bytes_leb. rewrite (bytes_cmp_antisym b a). destruct (bytes_cmp a b); auto. Qed.
Lemma bytes_leb_cons x a y b : bytes_leb (x :: a) (y :: b) = (x <? y) || ((x =? y) && bytes_leb a b).
Proof.
  unfold bytes_leb. cbn [bytes_cmp]. unfold Z.ltb. destruct (Z.compare_spec x y) as [->|H|H]; cbn.
  - by rewrite Z.eqb_refl.
  - done.
  - destruct (Z.eqb_spec x y); [lia|done].
Qed.
Lemma bytes_leb_trans a : forall b c, bytes_leb a b = true -> bytes_leb b c = true -> bytes_leb a c = true.
Proof.
  induction a as [|x a IH]; intros [|y b] [|z c] H1 H2; try done. rewrite bytes_leb_cons in *. apply orb_true_iff in H1, H2. apply orb_true_iff. rewrite !andb_true_iff in *.
  destruct (Z.ltb_spec x z); [by left|right]. split; [destruct H1 as [H1|[H1 _]], H2 as [H2|[H2 _]]; lia|]. destruct H1 as [H1|[H1 L1]], H2 as [H2|[H2 L2]]; try lia. by apply (IH b).
Qed.
#[export] Instance redb_u64 : RedbKey Z.
Proof. refine {| key_leb := Z.leb |}; intros; lia. Defined.
#[export] Instance redb_bytes : RedbKey bytes :=
  {| key_leb := bytes_leb; key_total := bytes_leb_total; key_trans := bytes_leb_trans |}.

Class Redb (T : forall K `{Countable K}, Type -> Type) := {
  t_rows : forall {K V} `{Countable K}, T K V -> gmap K V;
  t_get : forall {K V} `{Countable K}, T K V -> K -> outcome StoreError (option V);
  t_insert : forall {K V} `{Countable K}, T K V -> K -> V -> outcome StoreError (option V * T K V);
  t_remove : forall {K V} `{Countable K}, T K V -> K -> outcome StoreError (option V * T K V);
  t_first : forall {K V} `{Countable K} `{!RedbKey K}, T K V -> outcome StoreError (option (K * V));
  t_iter : forall {K V} `{Countable K}, T K V -> outcome StoreError (list (K * V));
}.
(** An operation that succeeds does what its name says; no operation panics. *)
Class RedbLaws (T : forall K `{Countable K}, Type -> Type) `{!Redb T} := {
  get_law : forall {K V} `{Countable K} (t : T K V) k v, t_get t k = Ok v -> v = t_rows t !! k;
  insert_law : forall {K V} `{Countable K} (t t' : T K V) k v p, t_insert t k v = Ok (p, t') -> p = t_rows t !! k /\ t_rows t' = <[k := v]> (t_rows t);
  remove_law : forall {K V} `{Countable K} (t t' : T K V) k p, t_remove t k = Ok (p, t') -> p = t_rows t !! k /\ t_rows t' = delete k (t_rows t);
  first_law : forall {K V} `{Countable K} `{!RedbKey K} (t : T K V) r, t_first t = Ok r ->
    match r with
    | Some (k, v) => t_rows t !! k = Some v /\ forall k', is_Some (t_rows t !! k') -> key_leb k k' = true
    | None => t_rows t = ∅
    end;
  iter_law : forall {K V} `{Countable K} (t : T K V) l, t_iter t = Ok l -> Permutation l (map_to_list (t_rows t));
  get_np : forall {K V} `{Countable K} (t : T K V) k, t_get t k <> Panic;
  insert_np : forall {K V} `{Countable K} (t : T K V) k v, t_insert t k v <> Panic;
  remove_np : forall {K V} `{Countable K} (t : T K V) k, t_remove t k <> Panic;
  first_np : forall {K V} `{Countable K} `{!RedbKey K} (t : T K V), t_first t <> Panic;
  iter_np : forall {K V} `{Countable K} (t : T K V), t_iter t <> Panic;
}.
(** An engine on a healthy disk. *)
Class RedbReliable (T : forall K `{Countable K}, Type -> Type) `{!Redb T} := {
  get_works : forall {K V} `{Countable K} (t : T K V) k, exists r, t_get t k = Ok r;
  insert_works : forall {K V} `{Countable K} (t : T K V) k v, exists r, t_insert t k v = Ok r;
  remove_works : forall {K V} `{Countable K} (t : T K V) k, exists r, t_remove t k = Ok r;
  first_works : forall {K V} `{Countable K} `{!RedbKey K} (t : T K V), exists r, t_first t = Ok r;
  iter_works : forall {K V} `{Countable K} (t : T K V), exists r, t_iter t = Ok r;
}.

(** ** meta.rs *)
Definition K_SCHEMA : string := "schema_version".
Definition K_NETWORK : string := "network".
Definition K_TIP : string := "tip".
Definition K_HDR_WM : string := "hdr_watermark".
Definition K_BODY_WM : string := "body_watermark".
Definition K_PRUNE_FLOOR : string := "prune_floor".
Definition K_UNDO_FLOOR : string := "undo_floor".
Definition K_ISSUED : string := "issued".
Definition K_FINGERPRINT : string := "state_fingerprint".
Definition K_INDEX_STATE : string := "index_state".
Definition K_STALE_INDEX : string := "stale_index_count".
Definition K_TXINDEX_FROM : string := "txindex_from".
Definition K_ADDRINDEX_FROM : string := "addrindex_from".
Definition K_IBD_BATCH : string := "ibd_batch_blocks".
Definition K_BIDX_SEALED : string := "bidx_sealed_through".
Definition K_FULLIDX_ROWS : string := "hash_index_full_rows".
Definition K_INVALID_SEQ : string := "invalid_next_seq".
Definition K_INVALID_ROWS : string := "invalid_rows".
Definition K_SIDE_ROWS : string := "side_rows".
Definition K_BODY_APPEND : string := "body_append_offset".
Definition K_ANCHOR_FLOOR : string := "anchor_floor".

Record Meta := MkMeta {
  m_schema_version : Z;
  m_network : bytes;
  m_tip : StoreTip;
  m_hdr_watermark : Z;
  m_body_watermark : Z;
  m_prune_floor : Z;
  m_undo_floor : Z;
  m_issued : Z;
  m_fingerprint : bytes;
  m_index_state : Z;
  m_stale_index_count : Z;
  m_txindex_from : option Z;
  m_addrindex_from : option Z;
  m_ibd_batch_blocks : Z;
  m_bidx_sealed_through : Z;
  m_hash_index_full_rows : Z;
  m_invalid_next_seq : Z;
  m_invalid_rows : Z;
  m_side_rows : Z;
  m_body_append_offset : Z;
  m_anchor_floor : option Z;
}.
Definition zero_tip : StoreTip := MkStoreTip (replicate 32 0) 0 (replicate 32 0).
Definition Meta_fresh (network : bytes) (prune_floor ibd_batch_blocks : Z) : Meta :=
  MkMeta SCHEMA_VERSION network zero_tip 0 0 prune_floor 0 0 (replicate 32 0) 0 0 None None ibd_batch_blocks (-1) 0 0 0 0 0 None.

(** [u64_of]: up to eight bytes, the rest zero. *)
Definition u64_of (b : bytes) : Z := from_le (take 8 b).
Definition fixed (k : string) (v : bytes) (want : Z) : outcome StoreError bytes :=
  guard! negb (Zlen v =? want) else MetaRowMalformed k (Zlen v) want ;; Ok v.

Section Meta.
Context {T : forall K `{Countable K}, Type -> Type} `{!Redb T}.
Abbreviation Tab K V := (T K _ _ V).

(** [load] reads row by row; [row] is a row that defaults when it is missing. *)
Definition row {A} (t : Tab string bytes) (k : string) (dflt : A) (f : bytes -> outcome StoreError A) : outcome StoreError A :=
  let? v := t_get t k in
  match v with
  | Some v => f v
  | None => Ok dflt
  end.
Definition load_tip (v : bytes) : outcome StoreError StoreTip :=
  let? v := fixed K_TIP v 72 in
  Ok (MkStoreTip (slice v 0 32) (u64_of (slice v 32 40)) (slice v 40 72)).
Definition load_sealed (v : bytes) : outcome StoreError Z :=
  let? v := fixed K_BIDX_SEALED v 8 in
  let raw := u64_of v in
  guard! umax 32 + 1 <? raw else MetaRowMalformed K_BIDX_SEALED raw (umax 32 + 1) ;;
  Ok (raw - 1).
Definition meta_load (t : Tab string bytes) : outcome StoreError (option Meta) :=
  let u64_row k := row t k 0 (fun v => Ok (u64_of v)) in
  let opt_row k := row t k None (fun v => Ok (Some (u64_of v))) in
  let? schema := t_get t K_SCHEMA in
  match schema with
  | None => Ok None
  | Some schema =>
    let? network := row t K_NETWORK (replicate 4 0) (fun v => fixed K_NETWORK v 4) in
    let? tip := row t K_TIP zero_tip load_tip in
    let? fingerprint := row t K_FINGERPRINT (replicate 32 0) (fun v => fixed K_FINGERPRINT v 32) in
    let? issued := row t K_ISSUED 0 (fun v => let? v := fixed K_ISSUED v 16 in Ok (from_le v)) in
    let? index_state := row t K_INDEX_STATE 0 (fun v => let? v := fixed K_INDEX_STATE v 1 in Ok (byte_at v 0)) in
    let? bidx_sealed_through := row t K_BIDX_SEALED (-1) load_sealed in
    let? hdr_watermark := u64_row K_HDR_WM in
    let? body_watermark := u64_row K_BODY_WM in
    let? prune_floor := u64_row K_PRUNE_FLOOR in
    let? undo_floor := u64_row K_UNDO_FLOOR in
    let? stale := u64_row K_STALE_INDEX in
    let? txindex_from := opt_row K_TXINDEX_FROM in
    let? addrindex_from := opt_row K_ADDRINDEX_FROM in
    let? ibd := row t K_IBD_BATCH 8192 (fun v => Ok (wrap 32 (u64_of v))) in
    let? full_rows := u64_row K_FULLIDX_ROWS in
    let? next_seq := u64_row K_INVALID_SEQ in
    let? invalid_rows := u64_row K_INVALID_ROWS in
    let? side_rows := u64_row K_SIDE_ROWS in
    let? body_append := row t K_BODY_APPEND 0 (fun v => Ok (wrap 32 (u64_of v))) in
    let? anchor_floor := opt_row K_ANCHOR_FLOOR in
    Ok (Some (MkMeta (wrap 32 (u64_of schema)) network tip hdr_watermark body_watermark prune_floor undo_floor issued fingerprint index_state
      stale txindex_from addrindex_from ibd bidx_sealed_through full_rows next_seq invalid_rows side_rows body_append anchor_floor))
  end.

Definition put (t : Tab string bytes) (k : string) (v : bytes) : outcome StoreError (Tab string bytes) :=
  let? r := t_insert t k v in Ok (snd r).
Definition put_opt (t : Tab string bytes) (k : string) (v : option Z) : outcome StoreError (Tab string bytes) :=
  match v with
  | Some f => put t k (le_bytes 8 f)
  | None => Ok t
  end.
Definition tip_row (tip : StoreTip) : bytes := stp_hash tip ++ le_bytes 8 (stp_height tip) ++ stp_chainwork tip.
Definition meta_store (t : Tab string bytes) (m : Meta) : outcome StoreError (Tab string bytes) :=
  let? t := put t K_SCHEMA (le_bytes 8 (m_schema_version m)) in
  let? t := put t K_NETWORK (m_network m) in
  let? t := put t K_TIP (tip_row (m_tip m)) in
  let? t := put t K_HDR_WM (le_bytes 8 (m_hdr_watermark m)) in
  let? t := put t K_BODY_WM (le_bytes 8 (m_body_watermark m)) in
  let? t := put t K_PRUNE_FLOOR (le_bytes 8 (m_prune_floor m)) in
  let? t := put t K_UNDO_FLOOR (le_bytes 8 (m_undo_floor m)) in
  let? t := put t K_ISSUED (le_bytes 16 (m_issued m)) in
  let? t := put t K_FINGERPRINT (m_fingerprint m) in
  let? t := put t K_INDEX_STATE [m_index_state m] in
  let? t := put t K_STALE_INDEX (le_bytes 8 (m_stale_index_count m)) in
  let? t := put_opt t K_TXINDEX_FROM (m_txindex_from m) in
  let? t := put_opt t K_ADDRINDEX_FROM (m_addrindex_from m) in
  let? t := put t K_IBD_BATCH (le_bytes 8 (m_ibd_batch_blocks m)) in
  let? t := put t K_BIDX_SEALED (le_bytes 8 (m_bidx_sealed_through m + 1)) in
  let? t := put t K_FULLIDX_ROWS (le_bytes 8 (m_hash_index_full_rows m)) in
  let? t := put t K_INVALID_SEQ (le_bytes 8 (m_invalid_next_seq m)) in
  let? t := put t K_INVALID_ROWS (le_bytes 8 (m_invalid_rows m)) in
  let? t := put t K_SIDE_ROWS (le_bytes 8 (m_side_rows m)) in
  let? t := put t K_BODY_APPEND (le_bytes 8 (m_body_append_offset m)) in
  put_opt t K_ANCHOR_FLOOR (m_anchor_floor m).
End Meta.

(** ** Setters for the fields the operations below change *)
Definition m_set_state (m : Meta) (fingerprint : bytes) (issued : Z) : Meta :=
  MkMeta (m_schema_version m) (m_network m) (m_tip m) (m_hdr_watermark m) (m_body_watermark m) (m_prune_floor m) (m_undo_floor m) issued fingerprint
    (m_index_state m) (m_stale_index_count m) (m_txindex_from m) (m_addrindex_from m) (m_ibd_batch_blocks m) (m_bidx_sealed_through m)
    (m_hash_index_full_rows m) (m_invalid_next_seq m) (m_invalid_rows m) (m_side_rows m) (m_body_append_offset m) (m_anchor_floor m).
Definition m_set_tip (m : Meta) (tip : StoreTip) (hdr_wm body_wm undo_floor : Z) : Meta :=
  MkMeta (m_schema_version m) (m_network m) tip hdr_wm body_wm (m_prune_floor m) undo_floor (m_issued m) (m_fingerprint m)
    (m_index_state m) (m_stale_index_count m) (m_txindex_from m) (m_addrindex_from m) (m_ibd_batch_blocks m) (m_bidx_sealed_through m)
    (m_hash_index_full_rows m) (m_invalid_next_seq m) (m_invalid_rows m) (m_side_rows m) (m_body_append_offset m) (m_anchor_floor m).
Definition m_set_index (m : Meta) (stale : Z) (txindex_from addrindex_from : option Z) (full_rows : Z) : Meta :=
  MkMeta (m_schema_version m) (m_network m) (m_tip m) (m_hdr_watermark m) (m_body_watermark m) (m_prune_floor m) (m_undo_floor m) (m_issued m) (m_fingerprint m)
    (m_index_state m) stale txindex_from addrindex_from (m_ibd_batch_blocks m) (m_bidx_sealed_through m)
    full_rows (m_invalid_next_seq m) (m_invalid_rows m) (m_side_rows m) (m_body_append_offset m) (m_anchor_floor m).
Definition m_set_rows (m : Meta) (next_seq invalid_rows side_rows : Z) : Meta :=
  MkMeta (m_schema_version m) (m_network m) (m_tip m) (m_hdr_watermark m) (m_body_watermark m) (m_prune_floor m) (m_undo_floor m) (m_issued m) (m_fingerprint m)
    (m_index_state m) (m_stale_index_count m) (m_txindex_from m) (m_addrindex_from m) (m_ibd_batch_blocks m) (m_bidx_sealed_through m)
    (m_hash_index_full_rows m) next_seq invalid_rows side_rows (m_body_append_offset m) (m_anchor_floor m).

Section Blocks.
Context {T : forall K `{Countable K}, Type -> Type} `{!Redb T}.
Abbreviation Tab K V := (T K _ _ V).

(** The tables a block touches (tables.rs). *)
Record Txn := MkTxn {
  x_state : Tab bytes bytes;
  x_undo : Tab Z bytes;
  x_hash_index : Tab Z Z;
  x_hash_full : Tab bytes Z;
  x_chainwork : Tab Z bytes;
  x_txindex : Tab bytes bytes;
  x_addrindex : Tab bytes unit;
}.
Definition x_set_state (x : Txn) (s : Tab bytes bytes) (u : Tab Z bytes) : Txn :=
  MkTxn s u (x_hash_index x) (x_hash_full x) (x_chainwork x) (x_txindex x) (x_addrindex x).
Definition x_set_hash (x : Txn) (hi : Tab Z Z) (hf : Tab bytes Z) : Txn :=
  MkTxn (x_state x) (x_undo x) hi hf (x_chainwork x) (x_txindex x) (x_addrindex x).
Definition x_set_rest (x : Txn) (cw : Tab Z bytes) (tx : Tab bytes bytes) (ad : Tab bytes unit) : Txn :=
  MkTxn (x_state x) (x_undo x) (x_hash_index x) (x_hash_full x) cw tx ad.

(** What [apply_block] takes from the reader: the header segments on disk, the configured length of the hash prefix. *)
Variable hdr_files : Files.
Variable prefix_bytes : Z.

(** *** apply_block *)
Definition prev_account (u : UndoRec) : Account := MkAccount (u_prev_balance u) (u_prev_nonce u).
Definition next_account (d : StateDelta) : Account := MkAccount (d_balance d) (d_nonce d).
Definition apply_row (s : Tab bytes bytes * bytes) (du : StateDelta * UndoRec) : outcome StoreError (Tab bytes bytes * bytes) :=
  let '(st, fp) := s in let '(d, u) := du in
  guard! negb (bytes_eqb (d_addr d) (u_addr u)) else BadPlan "deltas and undo must be address-aligned" ;;
  let fp := if u_existed u then fp_xor fp (row_digest (u_addr u) (prev_account u)) else fp in
  if Account_is_absent (next_account d) then
    let? r := t_remove st (d_addr d) in Ok (snd r, fp)
  else
    let? r := t_insert st (d_addr d) (encode_account (next_account d)) in
    Ok (snd r, fp_xor fp (row_digest (d_addr d) (next_account d))).
Definition index_hash (m : Meta) (x : Txn) (hash : bytes) (height : Z) : outcome StoreError (Meta * Txn) :=
  let p := hash_prefix_n hash prefix_bytes in
  let? existing := t_get (x_hash_index x) p in
  let insert_short := let? r := t_insert (x_hash_index x) p height in Ok (m, x_set_hash x (snd r) (x_hash_full x)) in
  match existing with
  | None => insert_short
  | Some h0 =>
    if h0 =? height then Ok (m, x) else
    let incumbent_still_valid :=
      match header_raw hdr_files h0 with
      | Some hdr => hash_prefix_n (header_hash hdr) prefix_bytes =? p
      | None => false
      end in
    if incumbent_still_valid then
      let? r := t_insert (x_hash_full x) hash height in
      let? rows := match fst r with None => add_checked 64 (m_hash_index_full_rows m) 1 | Some _ => Ok (m_hash_index_full_rows m) end in
      Ok (m_set_index m (m_stale_index_count m) (m_txindex_from m) (m_addrindex_from m) rows, x_set_hash x (x_hash_index x) (snd r))
    else insert_short
  end.
Definition is_ckpt_height (height : Z) : bool := Z.land height (Z.shiftl 1 CHAINWORK_CKPT_SHIFT - 1) =? 0.
Fixpoint index_txids (t : Tab bytes bytes) (height i : Z) (ids : list bytes) : outcome StoreError (Tab bytes bytes) :=
  match ids with
  | [] => Ok t
  | id :: ids =>
    let? r := t_insert t (txid_key id) (encode_txloc height (wrap 16 i)) in
    index_txids (snd r) height (i + 1) ids
  end.
(** The addresses a transaction touches. *)
Definition tx_parties (tx : outcome CodecError Tx) : list Address :=
  match tx with
  | Ok (Coinbase c) => [c_to c]
  | Ok (Transfer t) => [address_payload (t_from_pub t); t_to t]
  | Ok (Announcement a) => [address_payload (a_from_pub a)]
  | _ => []
  end.
Fixpoint insert_addrs (t : Tab bytes unit) (height index : Z) (addrs : list Address) : outcome StoreError (Tab bytes unit) :=
  match addrs with
  | [] => Ok t
  | a :: addrs => let? r := t_insert t (addr_key a height index) tt in insert_addrs (snd r) height index addrs
  end.
Fixpoint index_txs (t : Tab bytes unit) (height i : Z) (txs : list bytes) : outcome StoreError (Tab bytes unit) :=
  match txs with
  | [] => Ok t
  | tx :: txs =>
    guard! negb (fits 16 i) else BadPlan "more than 65535 transactions in one block" ;;
    let? t := insert_addrs t height i (tx_parties (decode_tx tx)) in
    index_txs t height (i + 1) txs
  end.
Definition index_addresses (t : Tab bytes unit) (b : BlockToCommit) : outcome StoreError (Tab bytes unit) :=
  match BlockBody_parse (bc_body b) with
  | Ok body => index_txs t (bc_height b) 0 (BlockBody_all_bytes body)
  | Err _ => Err (BadPlan "body does not parse, so its addresses cannot be indexed")
  | Panic => Panic
  end.
Definition apply_block (m : Meta) (x : Txn) (b : BlockToCommit) (txindex addrindex : bool) : outcome StoreError (Meta * Txn) :=
  let? (st, fp) := ofold apply_row (x_state x, m_fingerprint m) (zip (bc_deltas b) (bc_undo b)) in
  let? un := t_insert (x_undo x) (bc_height b) (encode_undo (bc_undo b) (bc_issued_delta b)) in
  let? un := (if UNDO_RING <=? bc_height b then let? r := t_remove (snd un) (bc_height b - UNDO_RING) in Ok (snd r) else Ok (snd un)) in
  let x := x_set_state x st un in
  let m := m_set_state m fp (m_issued m) in
  let? (m, x) := index_hash m x (bc_hash b) (bc_height b) in
  let? cw := (if is_ckpt_height (bc_height b) then let? r := t_insert (x_chainwork x) (bc_height b) (bc_chainwork b) in Ok (snd r) else Ok (x_chainwork x)) in
  let? (m, tx) :=
    (match (if txindex then bc_txids b else None) with
     | Some ids =>
       let? t := index_txids (x_txindex x) (bc_height b) 0 ids in
       Ok (m_set_index m (m_stale_index_count m) (Some (default (bc_height b) (m_txindex_from m))) (m_addrindex_from m) (m_hash_index_full_rows m), t)
     | None => Ok (m, x_txindex x)
     end) in
  let? (m, ad) :=
    (if addrindex then
       let? t := index_addresses (x_addrindex x) b in
       Ok (m_set_index m (m_stale_index_count m) (m_txindex_from m) (Some (default (bc_height b) (m_addrindex_from m))) (m_hash_index_full_rows m), t)
     else Ok (m, x_addrindex x)) in
  let x := x_set_rest x cw tx ad in
  let m := m_set_state m (m_fingerprint m) (saturating_add 128 (m_issued m) (bc_issued_delta b)) in
  let? next := add_checked 64 (bc_height b) 1 in
  Ok (m_set_tip m (MkStoreTip (bc_hash b) (bc_height b) (bc_chainwork b)) next next (saturating_sub next UNDO_RING), x).

(** *** rollback_height *)
Definition rollback_row (s : Tab bytes bytes * bytes) (r : UndoRec) : outcome StoreError (Tab bytes bytes * bytes) :=
  let '(st, fp) := s in
  let? cur := t_get st (u_addr r) in
  let fp := match cur with Some cur => fp_xor fp (row_digest (u_addr r) (decode_account cur)) | None => fp end in
  if u_existed r then
    let? ins := t_insert st (u_addr r) (encode_account (prev_account r)) in
    Ok (snd ins, fp_xor fp (row_digest (u_addr r) (prev_account r)))
  else let? rm := t_remove st (u_addr r) in Ok (snd rm, fp).
Definition rollback_height (m : Meta) (x : Txn) (h : Z) : outcome StoreError (Meta * Txn) :=
  let? blob := t_get (x_undo x) h in
  match blob with
  | None => Err (UndoExhausted h (m_undo_floor m) 0)
  | Some blob =>
    let? (recs, issued_delta) := ok_or (decode_undo blob) (BadPlan "undo blob is malformed") in
    let? issued := ok_or (checked_sub 128 (m_issued m) issued_delta) (EmissionMismatch (m_issued m) issued_delta) in
    let? (st, fp) := ofold rollback_row (x_state x, m_fingerprint m) recs in
    let? un := t_remove (x_undo x) h in
    let? cw := (if is_ckpt_height h then let? r := t_remove (x_chainwork x) h in Ok (snd r) else Ok (x_chainwork x)) in
    Ok (m_set_state m fp issued, x_set_rest (x_set_state x st (snd un)) cw (x_txindex x) (x_addrindex x))
  end.

(** *** The tables' part of commit_branch: every rolled-back height, then the index rows of the old hashes, then the new blocks *)
Definition unindex_hash (s : Meta * Txn) (old : Z * bytes) : outcome StoreError (Meta * Txn) :=
  let '(m, x) := s in let '(h, hash) := old in
  let p := hash_prefix_n hash prefix_bytes in
  let? v := t_get (x_hash_index x) p in
  let? hi := (if bool_decide (v = Some h) then let? r := t_remove (x_hash_index x) p in Ok (snd r) else Ok (x_hash_index x)) in
  if 0 <? m_hash_index_full_rows m then
    let? r := t_remove (x_hash_full x) hash in
    let m := match fst r with
             | Some _ => m_set_index m (m_stale_index_count m) (m_txindex_from m) (m_addrindex_from m) (m_hash_index_full_rows m - 1)
             | None => m
             end in
    Ok (m, x_set_hash x hi (snd r))
  else Ok (m, x_set_hash x hi (x_hash_full x)).
Definition unwind_branch (m : Meta) (x : Txn) (fork_height : Z) (rollback : list Z) (old_hashes : list (Z * bytes)) : outcome StoreError (Meta * Txn) :=
  let? (m, x) := ofold (fun s h => rollback_height (fst s) (snd s) h) (m, x) rollback in
  let? (m, x) := ofold unindex_hash (m, x) old_hashes in
  let? stale := add_checked 64 (m_stale_index_count m) (Zlen rollback) in
  let m := m_set_index m stale (m_txindex_from m) (m_addrindex_from m) (m_hash_index_full_rows m) in
  let? next := add_checked 64 fork_height 1 in
  Ok (m_set_tip m (MkStoreTip (stp_hash (m_tip m)) fork_height (stp_chainwork (m_tip m))) next next (m_undo_floor m), x).

(** *** reader.rs *)
Definition store_account (t : Tab bytes bytes) (addr : Address) : outcome StoreError Account :=
  let? v := t_get t addr in
  Ok (match v with Some v => decode_account v | None => MkAccount 0 0 end).
Definition fp_row (fp : bytes) (kv : bytes * bytes) : bytes := fp_xor fp (row_digest (fst kv) (decode_account (snd kv))).
Definition verify_state_fingerprint (t : Tab bytes bytes) (stored : bytes) : outcome StoreError unit :=
  let? rows := t_iter t in
  let fp := fold_left fp_row rows (replicate 32 0) in
  guard! negb (bytes_eqb fp stored) else StateFingerprint stored fp ;; Ok tt.
(** [header_at] and [header_by_hash] on a store with no damaged header range. *)
Definition store_header_at (wm : Z) (height : Z) : outcome StoreError (option bytes) :=
  if wm <=? height then Ok None else
  let seg := seg_of height in
  match hdr_files !! seg with
  | None => Err (SegmentDamaged SegHeader seg height (seg_first_height seg) (seg_first_height seg + SEG_BLOCKS - 1) DMissing)
  | Some f =>
    match read_header f height with
    | Some h => Ok (Some h)
    | None => Err (SegmentDamaged SegHeader seg height height height DShort)
    end
  end.
Definition confirm (wm : Z) (hash : bytes) (v : option Z) : outcome StoreError (option (Z * bytes)) :=
  match v with
  | None => Ok None
  | Some height =>
    let? hdr := store_header_at wm height in
    Ok (match hdr with
        | Some hdr => if bytes_eqb (header_hash hdr) hash then Some (height, hdr) else None
        | None => None
        end)
  end.
Definition store_header_by_hash (x : Txn) (wm full_rows : Z) (hash : bytes) : outcome StoreError (option (Z * bytes)) :=
  let? v := t_get (x_hash_index x) (hash_prefix_n hash prefix_bytes) in
  let? r := confirm wm hash v in
  match r with
  | Some r => Ok (Some r)
  | None =>
    if 0 <? full_rows then
      let? v := t_get (x_hash_full x) hash in
      confirm wm hash v
    else Ok None
  end.
End Blocks.

(** ** Side headers and invalid blocks: two tables each, the second in order of eviction *)
Section Lists.
Context {T : forall K `{Countable K}, Type -> Type} `{!Redb T}.
Abbreviation Tab K V := (T K _ _ V).

Record SideTabs := MkSideTabs { sd_headers : Tab bytes bytes; sd_by_height : Tab bytes unit }.
Definition put_side_row (s : Meta * SideTabs) (r : bytes * bytes * Z * HeaderStatus) : outcome StoreError (Meta * SideTabs) :=
  let '(m, t) := s in let '(hash, hdr, height, st) := r in
  let? ins := t_insert (sd_headers t) hash (encode_side hdr height st) in
  let? rows := match fst ins with None => add_checked 64 (m_side_rows m) 1 | Some _ => Ok (m_side_rows m) end in
  let? ix := t_insert (sd_by_height t) (side_by_height_key height hash) tt in
  Ok (m_set_rows m (m_invalid_next_seq m) (m_invalid_rows m) rows, MkSideTabs (snd ins) (snd ix)).
Fixpoint evict_side (fuel : nat) (cap : Z) (m : Meta) (t : SideTabs) : outcome StoreError (Meta * SideTabs) :=
  match fuel with
  | O => Ok (m, t)
  | S fuel =>
    if cap <? m_side_rows m then
      let? victim := t_first (sd_by_height t) in
      match victim with
      | None => Ok (m, t)
      | Some (k, _) =>
        let? ix := t_remove (sd_by_height t) k in
        let? rm := t_remove (sd_headers t) (slice k 8 40) in
        let m := match fst rm with Some _ => m_set_rows m (m_invalid_next_seq m) (m_invalid_rows m) (m_side_rows m - 1) | None => m end in
        evict_side fuel cap m (MkSideTabs (snd rm) (snd ix))
      end
    else Ok (m, t)
  end.
(** The loop removes one row of the second table each time round: its size, and one more, is fuel enough. *)
Definition put_side_headers (cap : Z) (m : Meta) (t : SideTabs) (rows : list (bytes * bytes * Z * HeaderStatus)) : outcome StoreError (Meta * SideTabs) :=
  let? (m, t) := ofold put_side_row (m, t) rows in
  evict_side (S (size (t_rows (sd_by_height t)))) cap m t.

Record InvalidTabs := MkInvalidTabs { iv_rows : Tab bytes Z; iv_seq : Tab Z bytes }.
Definition mark_row (s : Meta * InvalidTabs) (r : bytes * InvalidReason) : outcome StoreError (Meta * InvalidTabs) :=
  let '(m, t) := s in
  let? ins := t_insert (iv_rows t) (fst r) (InvalidReason_code (snd r)) in
  match fst ins with
  | Some _ => Ok (m, MkInvalidTabs (snd ins) (iv_seq t))
  | None =>
    let? sq := t_insert (iv_seq t) (m_invalid_next_seq m) (fst r) in
    let? next := add_checked 64 (m_invalid_next_seq m) 1 in
    let? rows := add_checked 64 (m_invalid_rows m) 1 in
    Ok (m_set_rows m next rows (m_side_rows m), MkInvalidTabs (snd ins) (snd sq))
  end.
Fixpoint evict_invalid (fuel : nat) (cap : Z) (m : Meta) (t : InvalidTabs) : outcome StoreError (Meta * InvalidTabs) :=
  match fuel with
  | O => Ok (m, t)
  | S fuel =>
    if cap <? m_invalid_rows m then
      let? victim := t_first (iv_seq t) in
      match victim with
      | None => Ok (m, t)
      | Some (k, h) =>
        let? sq := t_remove (iv_seq t) k in
        let? rm := t_remove (iv_rows t) h in
        let m := match fst rm with Some _ => m_set_rows m (m_invalid_next_seq m) (m_invalid_rows m - 1) (m_side_rows m) | None => m end in
        evict_invalid fuel cap m (MkInvalidTabs (snd rm) (snd sq))
      end
    else Ok (m, t)
  end.
Definition mark_invalid_batch (cap : Z) (m : Meta) (t : InvalidTabs) (rows : list (bytes * InvalidReason)) : outcome StoreError (Meta * InvalidTabs) :=
  let? (m, t) := ofold mark_row (m, t) rows in
  evict_invalid (S (size (t_rows (iv_seq t)))) cap m t.
Definition remove_all {K V} `{Countable K} (t : T K _ _ V) (keys : list K) : outcome StoreError (T K _ _ V) :=
  ofold (fun t k => let? r := t_remove t k in Ok (snd r)) t keys.
Definition clear_invalid_all (m : Meta) (t : InvalidTabs) : outcome StoreError (Z * Meta * InvalidTabs) :=
  let? rows := t_iter (iv_rows t) in
  let? iv := remove_all (iv_rows t) (fst <$> rows) in
  let? seqs := t_iter (iv_seq t) in
  let? sq := remove_all (iv_seq t) (fst <$> seqs) in
  let? n := expect (checked 32 (Zlen rows)) in
  Ok (n, m_set_rows m (m_invalid_next_seq m) 0 (m_side_rows m), MkInvalidTabs iv sq).
Definition is_invalid (t : InvalidTabs) (hash : bytes) : outcome StoreError bool :=
  let? v := t_get (iv_rows t) hash in Ok (match v with Some _ => true | None => false end).
Definition side_header (t : SideTabs) (hash : bytes) : outcome StoreError (option SideHeader) :=
  let? v := t_get (sd_headers t) hash in Ok (match v with Some v => decode_side v | None => None end).
End Lists.
