(* ===== verification/StoreProps.v ===== *)
(** Properties of the database side of the store: the running fingerprint is the digest of the live rows, a committed block is taken back
    exactly, every header of the chain is found by its hash, the two bounded lists keep their newest rows, and the meta rows
    survive a restart. The last part gives an engine that keeps the contract: tables that are finite maps. *)

From Stdlib Require Import ZArith Lia List String Permutation.
From stdpp Require Import base list gmap numbers strings fin_maps.
From S2P Require Import Prelude Constants Codec Crypto ChainTypes State Body Reorg StoreCodec StoreFiles StoreTables.
Import ListNotations.
Open Scope Z_scope.

(** ** The fingerprint *)
Abbreviation digest_row k v := (row_digest k (decode_account v)).
Definition xor_rows (rows : gmap bytes bytes) : bytes := map_fold (fun k v fp => fp_xor fp (digest_row k v)) (replicate 32 0) rows.

Lemma fp_xor_comm a : forall b, fp_xor a b = fp_xor b a.
Proof. induction a as [|x a IH]; intros [|y b]; try done. cbn. by rewrite Z.lxor_comm, <- IH. Qed.
Lemma fp_xor_assoc a : forall b c, fp_xor (fp_xor a b) c = fp_xor a (fp_xor b c).
Proof. induction a as [|x a IH]; intros [|y b] [|z c]; try done. cbn. by rewrite Z.lxor_assoc, <- IH. Qed.
Lemma fp_xor_swap a b c : fp_xor (fp_xor a b) c = fp_xor (fp_xor a c) b.
Proof. by rewrite !fp_xor_assoc, (fp_xor_comm b). Qed.
Lemma length_fp_xor a b : length b = length a -> length (fp_xor a b) = length a.
Proof. intros H. unfold fp_xor. rewrite length_zip_with. lia. Qed.
Lemma fp_xor_twice a : forall d, length d = length a -> fp_xor (fp_xor a d) d = a.
Proof. induction a as [|x a IH]; intros [|y d] H; try done. injection H as H. cbn. rewrite Z.lxor_assoc, Z.lxor_nilpotent, Z.lxor_0_r. f_equal. by apply IH. Qed.
Lemma length_digest k a : length (row_digest k a) = 32%nat.
Proof. destruct (hash_is_hash (k ++ encode_account a)) as [_ H]. unfold row_digest. unfold Zlen in H. lia. Qed.

Lemma xor_rows_insert rows k v : rows !! k = None -> xor_rows (<[k := v]> rows) = fp_xor (xor_rows rows) (digest_row k v).
Proof.
  intros Hk. unfold xor_rows. rewrite map_fold_insert_L; [done| |done]. intros k1 k2 v1 v2 y _ _ _. apply fp_xor_swap.
Qed.
Lemma length_xor_rows rows : length (xor_rows rows) = 32%nat.
Proof.
  induction rows as [|k v rows Hk IH] using map_ind; [done|]. rewrite xor_rows_insert by done. rewrite length_fp_xor; [done|]. by rewrite length_digest.
Qed.
Lemma xor_rows_delete rows k v : rows !! k = Some v -> fp_xor (xor_rows rows) (digest_row k v) = xor_rows (delete k rows).
Proof.
  intros Hk. rewrite <- (insert_delete_id rows k v Hk) at 1. rewrite xor_rows_insert by apply lookup_delete_eq. apply fp_xor_twice. by rewrite length_digest, length_xor_rows.
Qed.
(** The row of one key taken out, if it is there. *)
Definition fp_without (rows : gmap bytes bytes) (k : bytes) : bytes := xor_rows (delete k rows).
Lemma xor_rows_set rows k v : xor_rows (<[k := v]> rows) = fp_xor (fp_without rows k) (digest_row k v).
Proof. unfold fp_without. rewrite <- xor_rows_insert by apply lookup_delete_eq. by rewrite insert_delete_eq. Qed.
Lemma fp_without_some rows k v : rows !! k = Some v -> fp_xor (xor_rows rows) (digest_row k v) = fp_without rows k.
Proof. apply xor_rows_delete. Qed.
Lemma fp_without_none rows k : rows !! k = None -> xor_rows rows = fp_without rows k.
Proof. intros Hk. unfold fp_without. by rewrite delete_id. Qed.
Lemma fp_row_swap fp a b : fp_row (fp_row fp a) b = fp_row (fp_row fp b) a.
Proof. apply fp_xor_swap. Qed.
Lemma fp_rows_perm l1 l2 : Permutation l1 l2 -> forall fp, fold_left fp_row l1 fp = fold_left fp_row l2 fp.
Proof.
  induction 1 as [|kv l1 l2 _ IH|kv kv' l1|l1 l2 l3 _ IH1 _ IH2]; intros fp; cbn [fold_left]; [done|apply IH|by rewrite fp_row_swap|by rewrite IH1].
Qed.
Lemma fp_rows_push l : forall fp kv, fold_left fp_row l (fp_row fp kv) = fp_row (fold_left fp_row l fp) kv.
Proof. induction l as [|kv' l IH]; intros fp kv; [done|]. cbn [fold_left]. by rewrite fp_row_swap, IH. Qed.
Lemma xor_rows_empty : xor_rows ∅ = replicate 32 0.
Proof. unfold xor_rows. rewrite map_fold_empty. reflexivity. Qed.
Lemma fold_rows_insert (rows : gmap bytes bytes) k v fp : rows !! k = None -> fold_left fp_row (map_to_list (<[k := v]> rows)) fp = fp_row (fold_left fp_row (map_to_list rows) fp) (k, v).
Proof. intros Hk. rewrite (fp_rows_perm _ _ (map_to_list_insert rows k v Hk)). cbn [fold_left]. apply fp_rows_push. Qed.
Lemma fold_map_rows rows : fold_left fp_row (map_to_list rows) (replicate 32 0) = xor_rows rows.
Proof.
  refine (map_ind (fun rows => fold_left fp_row (map_to_list rows) (replicate 32 0) = xor_rows rows) _ _ rows); [by rewrite map_to_list_empty, xor_rows_empty|].
  intros k v r Hk IH. rewrite fold_rows_insert by exact Hk. rewrite IH. symmetry. by apply xor_rows_insert.
Qed.
Lemma fold_rows l rows : Permutation l (map_to_list rows) -> fold_left fp_row l (replicate 32 0) = xor_rows rows.
Proof. intros Hp. rewrite (fp_rows_perm _ _ Hp). apply fold_map_rows. Qed.

(** ** Accounts as the rows hold them *)
Definition acct (rows : gmap bytes bytes) (a : Address) : Account :=
  match rows !! a with Some v => decode_account v | None => MkAccount 0 0 end.
Definition live_row (v : bytes) : Prop := field_ok STATE_VALUE_BYTES v /\ Account_is_absent (decode_account v) = false.
Definition rows_live (rows : gmap bytes bytes) : Prop := forall a v, rows !! a = Some v -> live_row v.
Definition set_acct (rows : gmap bytes bytes) (a : Address) (acc : Account) : gmap bytes bytes :=
  if Account_is_absent acc then delete a rows else <[a := encode_account acc]> rows.
(** What an undo record says of the rows before its block. *)
Definition undo_true (rows : gmap bytes bytes) (u : UndoRec) : Prop :=
  prev_account u = acct rows (u_addr u) /\ u_existed u = negb (Account_is_absent (prev_account u)).

Lemma absent_zero a : Account_is_absent a = true -> a = MkAccount 0 0.
Proof. destruct a as [b n]. unfold Account_is_absent. cbn. intros [H1 H2]%andb_true_iff. f_equal; lia. Qed.
Lemma encode_account_ok a : field_ok STATE_VALUE_BYTES (encode_account a).
Proof. split; [apply Forall_app; split; apply le_bytes_ok|apply Zlen_encode_account]. Qed.
Lemma undo_true_cases rows u : rows_live rows -> undo_true rows u ->
  match rows !! u_addr u with
  | Some v => u_existed u = true /\ decode_account v = prev_account u /\ v = encode_account (prev_account u)
  | None => u_existed u = false
  end.
Proof.
  intros Hl [Hp He]. unfold acct in Hp. destruct (rows !! u_addr u) as [v|] eqn:Hv; [|by rewrite He, Hp].
  destruct (Hl _ _ Hv) as [Hf Ha]. rewrite He, Hp, Ha. split; [done|]. split; [done|]. symmetry. by apply encode_decode_account.
Qed.
Lemma acct_set rows a acc x : account_wf acc -> acct (set_acct rows a acc) x = upd (acct rows) a acc x.
Proof.
  intros Hw. unfold set_acct, acct, upd. destruct (Account_is_absent acc) eqn:Ha; case_decide as Hx; subst.
  - rewrite lookup_delete_eq. symmetry. by apply absent_zero.
  - by rewrite lookup_delete_ne.
  - rewrite lookup_insert_eq. by apply decode_encode_account.
  - by rewrite lookup_insert_ne.
Qed.
Lemma rows_live_set rows a acc : rows_live rows -> account_wf acc -> rows_live (set_acct rows a acc).
Proof.
  intros Hl Hw b v. unfold set_acct. destruct (Account_is_absent acc) eqn:Ha.
  - rewrite lookup_delete_Some. intros [_ Hv]. by eapply Hl.
  - rewrite lookup_insert_Some. intros [[_ <-]|[_ Hv]]; [|by eapply Hl]. split; [apply encode_account_ok|]. by rewrite decode_encode_account.
Qed.

Section Tables.
Context {T : forall K `{Countable K}, Type -> Type} `{!Redb T, !RedbLaws T, !RedbReliable T}.
Abbreviation Tab K V := (T K _ _ V).

(** What the operations do, on an engine that works. *)
Lemma get_ok {K V} `{Countable K} (t : T K _ _ V) k : t_get t k = Ok (t_rows t !! k).
Proof. destruct (get_works t k) as [r Hr]. by rewrite Hr, (get_law _ _ _ Hr). Qed.
Lemma insert_ok {K V} `{Countable K} (t : T K _ _ V) k v : exists t', t_insert t k v = Ok (t_rows t !! k, t') /\ t_rows t' = <[k := v]> (t_rows t).
Proof. destruct (insert_works t k v) as [[p t'] Hr]. destruct (insert_law _ _ _ _ _ Hr) as [-> Hr']. by exists t'. Qed.
Lemma remove_ok {K V} `{Countable K} (t : T K _ _ V) k : exists t', t_remove t k = Ok (t_rows t !! k, t') /\ t_rows t' = delete k (t_rows t).
Proof. destruct (remove_works t k) as [[p t'] Hr]. destruct (remove_law _ _ _ _ Hr) as [-> Hr']. by exists t'. Qed.

(** *** One account *)
Lemma apply_row_ok (st : Tab bytes bytes) fp d u : rows_live (t_rows st) -> undo_true (t_rows st) u -> d_addr d = u_addr u -> account_wf (next_account d) -> fp = xor_rows (t_rows st) ->
  exists st', apply_row (st, fp) (d, u) = Ok (st', xor_rows (t_rows st')) /\ t_rows st' = set_acct (t_rows st) (d_addr d) (next_account d).
Proof.
  intros Hl Hu Ha Hw ->. unfold apply_row. rewrite Ha. unfold bytes_eqb. rewrite bool_decide_eq_true_2 by done. cbn [negb].
  assert (Hfp : (if u_existed u then fp_xor (xor_rows (t_rows st)) (row_digest (u_addr u) (prev_account u)) else xor_rows (t_rows st)) = fp_without (t_rows st) (u_addr u)).
  { pose proof (undo_true_cases _ _ Hl Hu) as Hc. destruct (t_rows st !! u_addr u) as [v|] eqn:Hv; [destruct Hc as (-> & <- & _); by apply fp_without_some|rewrite Hc; by apply fp_without_none]. }
  rewrite Hfp. unfold set_acct. destruct (Account_is_absent (next_account d)) eqn:Habs.
  - destruct (remove_ok st (u_addr u)) as (st' & -> & Hr). cbn [obind snd]. exists st'. rewrite Hr. done.
  - destruct (insert_ok st (u_addr u) (encode_account (next_account d))) as (st' & -> & Hr). cbn [obind snd]. exists st'. rewrite Hr, xor_rows_set, decode_encode_account by done. done.
Qed.
Lemma rollback_row_ok (st : Tab bytes bytes) fp r : account_wf (prev_account r) -> fp = xor_rows (t_rows st) ->
  exists st', rollback_row (st, fp) r = Ok (st', xor_rows (t_rows st')) /\
    t_rows st' = (if u_existed r then <[u_addr r := encode_account (prev_account r)]> (t_rows st) else delete (u_addr r) (t_rows st)).
Proof.
  intros Hw ->. unfold rollback_row. rewrite get_ok. cbn [obind].
  assert (Hfp : match t_rows st !! u_addr r with Some cur => fp_xor (xor_rows (t_rows st)) (digest_row (u_addr r) cur) | None => xor_rows (t_rows st) end = fp_without (t_rows st) (u_addr r)).
  { destruct (t_rows st !! u_addr r) as [v|] eqn:Hv; [by apply fp_without_some|by apply fp_without_none]. }
  rewrite Hfp. destruct (u_existed r).
  - destruct (insert_ok st (u_addr r) (encode_account (prev_account r))) as (st' & -> & Hr). cbn [obind snd]. exists st'. rewrite Hr, xor_rows_set, decode_encode_account by done. done.
  - destruct (remove_ok st (u_addr r)) as (st' & -> & Hr). cbn [obind snd]. exists st'. rewrite Hr. done.
Qed.

(** *** A block's accounts, applied and taken back *)
Definition apply_rows (rows : gmap bytes bytes) (ds : list StateDelta) : gmap bytes bytes :=
  fold_left (fun rows d => set_acct rows (d_addr d) (next_account d)) ds rows.
Definition unapply_row (rows : gmap bytes bytes) (r : UndoRec) : gmap bytes bytes :=
  if u_existed r then <[u_addr r := encode_account (prev_account r)]> rows else delete (u_addr r) rows.
Definition unapply_rows (rows : gmap bytes bytes) (us : list UndoRec) : gmap bytes bytes := fold_left unapply_row us rows.

Lemma undo_true_set rows a acc u : account_wf acc -> u_addr u <> a -> undo_true rows u -> undo_true (set_acct rows a acc) u.
Proof. intros Hw Hne [H1 H2]. split; [|done]. rewrite acct_set by done. unfold upd. by rewrite decide_False. Qed.
Lemma apply_rows_ok ds : forall us (st : Tab bytes bytes), rows_live (t_rows st) -> Forall (undo_true (t_rows st)) us -> d_addr <$> ds = u_addr <$> us -> List.NoDup (u_addr <$> us) ->
  Forall (fun d => account_wf (next_account d)) ds ->
  exists st', ofold apply_row (st, xor_rows (t_rows st)) (zip ds us) = Ok (st', xor_rows (t_rows st')) /\ t_rows st' = apply_rows (t_rows st) ds.
Proof.
  induction ds as [|d ds IH]; intros [|u us] st Hl Hu Ha Hn Hw; try done; [by exists st|]. cbn in Ha. injection Ha as Ha1 Ha2. apply list.Forall_cons in Hu as [Hu1 Hu2]. apply list.Forall_cons in Hw as [Hw1 Hw2].
  cbn in Hn. apply NoDup_cons_iff in Hn as [Hn1 Hn2]. destruct (apply_row_ok st _ d u Hl Hu1 Ha1 Hw1 eq_refl) as (st1 & He & Hr). cbn [zip zip_with ofold]. rewrite He. cbn [obind].
  destruct (IH us st1) as (st' & He' & Hr'); [by rewrite Hr; apply rows_live_set| |done|done|done|].
  - rewrite Hr. apply List.Forall_forall. intros u' Hin. apply undo_true_set; [done| |by apply (proj1 (List.Forall_forall _ _) Hu2)].
    intros Heq. apply Hn1. rewrite <- Ha1, <- Heq. apply list_elem_of_In, list_elem_of_fmap. exists u'. by rewrite list_elem_of_In.
  - exists st'. split; [done|]. by rewrite Hr', Hr.
Qed.
Lemma unapply_rows_ok us : forall (st : Tab bytes bytes), Forall (fun r => account_wf (prev_account r)) us ->
  exists st', ofold rollback_row (st, xor_rows (t_rows st)) us = Ok (st', xor_rows (t_rows st')) /\ t_rows st' = unapply_rows (t_rows st) us.
Proof.
  induction us as [|r us IH]; intros st Hw; [by exists st|]. apply list.Forall_cons in Hw as [Hw1 Hw2]. destruct (rollback_row_ok st _ r Hw1 eq_refl) as (st1 & He & Hr). cbn [ofold]. rewrite He. cbn [obind].
  destruct (IH st1 Hw2) as (st' & He' & Hr'). exists st'. split; [done|]. by rewrite Hr', Hr.
Qed.
Lemma apply_rows_rest ds : forall rows a, ~ In a (d_addr <$> ds) -> apply_rows rows ds !! a = rows !! a.
Proof.
  induction ds as [|d ds IH]; intros rows a Ha; [done|]. cbn in Ha. change (apply_rows rows (d :: ds)) with (apply_rows (set_acct rows (d_addr d) (next_account d)) ds). rewrite IH by tauto.
  unfold set_acct. destruct (Account_is_absent _); [rewrite lookup_delete_ne|rewrite lookup_insert_ne]; tauto.
Qed.
Lemma apply_rows_acct ds : forall rows x, Forall (fun d => account_wf (next_account d)) ds -> acct (apply_rows rows ds) x = apply_deltas (acct rows) ds x.
Proof.
  induction ds as [|d ds IH]; intros rows x Hw; [done|]. apply list.Forall_cons in Hw as [Hw1 Hw2]. change (apply_rows rows (d :: ds)) with (apply_rows (set_acct rows (d_addr d) (next_account d)) ds).
  rewrite IH, apply_deltas_cons by done. clear IH. revert x. unfold apply_deltas. generalize (acct_set rows (d_addr d) (next_account d)). intros Hset x.
  specialize (Hset). set (f := acct (set_acct _ _ _)) in *. set (g := upd _ _ _). assert (Hfg : forall y, f y = g y) by (intros y; by apply Hset). clearbody f g. clear Hset Hw1. revert f g Hfg.
  induction ds as [|e ds IH]; intros f g Hfg; [apply Hfg|]. cbn [fold_left]. apply IH; [by apply list.Forall_cons in Hw2 as [_ ?]|]. intros y. unfold upd. by case_decide.
Qed.
Lemma rows_live_apply ds : forall rows, rows_live rows -> Forall (fun d => account_wf (next_account d)) ds -> rows_live (apply_rows rows ds).
Proof. induction ds as [|d ds IH]; intros rows Hl Hw; [done|]. apply list.Forall_cons in Hw as [Hw1 Hw2]. apply IH; [by apply rows_live_set|done]. Qed.
Lemma unapply_lookup us : forall rows a, List.NoDup (u_addr <$> us) ->
  unapply_rows rows us !! a = match List.find (fun r => bytes_eqb (u_addr r) a) us with
    | Some r => if u_existed r then Some (encode_account (prev_account r)) else None | None => rows !! a end.
Proof.
  induction us as [|r us IH]; intros rows a Hn; [done|]. cbn in Hn. apply NoDup_cons_iff in Hn as [Hn1 Hn2]. change (unapply_rows rows (r :: us)) with (unapply_rows (unapply_row rows r) us). rewrite IH by done. cbn [List.find].
  unfold bytes_eqb at 2. destruct (decide (u_addr r = a)) as [<-|Hne].
  - rewrite bool_decide_eq_true_2 by done. destruct (List.find _ us) as [r'|] eqn:Ef.
    + exfalso. apply find_some in Ef as [Hin Heq]. apply bool_decide_eq_true in Heq. apply Hn1. rewrite <- Heq. apply list_elem_of_In, list_elem_of_fmap. exists r'. by rewrite list_elem_of_In.
    + unfold unapply_row. destruct (u_existed r); [by rewrite lookup_insert_eq|by rewrite lookup_delete_eq].
  - rewrite bool_decide_eq_false_2 by done. destruct (List.find _ us); [done|]. unfold unapply_row. destruct (u_existed r); [by rewrite lookup_insert_ne|by rewrite lookup_delete_ne].
Qed.
Lemma unapply_apply rows ds us : rows_live rows -> Forall (undo_true rows) us -> d_addr <$> ds = u_addr <$> us -> List.NoDup (u_addr <$> us) -> unapply_rows (apply_rows rows ds) us = rows.
Proof.
  intros Hl Hu Ha Hn. apply map_eq. intros a. rewrite unapply_lookup by done. destruct (List.find _ us) as [r|] eqn:Ef.
  - apply find_some in Ef as [Hin Heq]. apply bool_decide_eq_true in Heq as <-. pose proof (proj1 (List.Forall_forall _ _) Hu _ Hin) as Ht. pose proof (undo_true_cases _ _ Hl Ht) as Hc.
    destruct (rows !! u_addr r) as [v|]; [destruct Hc as (-> & _ & ->); done|by rewrite Hc].
  - apply apply_rows_rest. rewrite Ha. intros Hin. apply list_elem_of_In, list_elem_of_fmap in Hin as (r & -> & Hin). apply list_elem_of_In in Hin. apply (find_none _ _ Ef) in Hin.
    unfold bytes_eqb in Hin. by rewrite bool_decide_eq_false in Hin.
Qed.

(** *** A block *)
Section Chain.
Variable hdr_files : Files.
Variable prefix_bytes : Z.

Lemma index_hash_ok m (x : Txn) hash height : 0 <= m_hash_index_full_rows m < 2 ^ 64 - 1 -> exists rows hi hf,
  index_hash hdr_files prefix_bytes m x hash height = Ok (m_set_index m (m_stale_index_count m) (m_txindex_from m) (m_addrindex_from m) rows, x_set_hash x hi hf).
Proof.
  intros Hr. unfold index_hash. rewrite get_ok. cbn [obind]. set (p := hash_prefix_n hash prefix_bytes).
  assert (Hm : m = m_set_index m (m_stale_index_count m) (m_txindex_from m) (m_addrindex_from m) (m_hash_index_full_rows m)) by (by destruct m).
  destruct (insert_ok (x_hash_index x) p height) as (hi & -> & _). cbn [obind snd].
  destruct (t_rows (x_hash_index x) !! p) as [h0|]; [|exists (m_hash_index_full_rows m), hi, (x_hash_full x); by rewrite <- Hm].
  destruct (h0 =? height); [exists (m_hash_index_full_rows m), (x_hash_index x), (x_hash_full x); rewrite <- Hm; by destruct x|].
  destruct (match header_raw hdr_files h0 with Some hdr => _ | None => false end); [|exists (m_hash_index_full_rows m), hi, (x_hash_full x); by rewrite <- Hm].
  destruct (insert_ok (x_hash_full x) hash height) as (hf & -> & _). cbn [obind fst snd]. destruct (t_rows (x_hash_full x) !! hash); cbn [obind]; [by eexists _, _, _|].
  unfold add_checked, checked_add, checked. rewrite (proj2 (fits_spec 64 _)) by lia. cbn [expect obind]. by eexists _, _, _.
Qed.
Lemma index_txids_ok ids : forall (t : Tab bytes bytes) h i, exists t', index_txids t h i ids = Ok t'.
Proof.
  induction ids as [|id ids IH]; intros t h i; [by exists t|]. cbn [index_txids]. destruct (insert_ok t (txid_key id) (encode_txloc h (wrap 16 i))) as (t' & -> & _). cbn [obind snd]. apply IH.
Qed.
Lemma insert_addrs_ok addrs : forall (t : Tab bytes unit) h i, exists t', insert_addrs t h i addrs = Ok t'.
Proof.
  induction addrs as [|a addrs IH]; intros t h i; [by exists t|]. cbn [insert_addrs]. destruct (insert_ok t (addr_key a h i) tt) as (t' & -> & _). cbn [obind snd]. apply IH.
Qed.
Lemma index_txs_ok txs : forall (t : Tab bytes unit) h i, 0 <= i -> i + Zlen txs <= 2 ^ 16 -> exists t', index_txs t h i txs = Ok t'.
Proof.
  induction txs as [|tx txs IH]; intros t h i Hi Hl; [by exists t|]. rewrite Zlen_cons in Hl. pose proof (Zlen_nonneg txs). cbn [index_txs]. rewrite (proj2 (fits_spec 16 i)) by lia. cbn [negb].
  destruct (insert_addrs_ok (tx_parties (decode_tx tx)) t h i) as (t1 & ->). cbn [obind]. apply IH; lia.
Qed.
Lemma parse_records_len n : forall raw off r, parse_records n raw off = Ok r -> length (fst r) = n.
Proof.
  induction n as [|n IH]; intros raw off r Hp; [by injection Hp as <-|]. cbn [parse_records] in Hp. steps_in Hp. invert_ok. cbn [fst length]. f_equal. by eapply IH.
Qed.
Lemma index_addresses_ok (t : Tab bytes unit) b body : BlockBody_parse (bc_body b) = Ok body -> exists t', index_addresses t b = Ok t'.
Proof.
  intros Hp. unfold index_addresses. rewrite Hp. apply index_txs_ok; [lia|]. unfold BlockBody_all_bytes. rewrite Zlen_fmap. unfold BlockBody_parse in Hp. steps_in Hp. invert_ok. cbn [bb_spans].
  match goal with H : parse_records _ _ _ = Ok _ |- _ => apply parse_records_len in H as Hlen end. unfold Zlen. rewrite Hlen. to_prop. unfold MAX_TXS_PER_BLOCK in *. lia.
Qed.

(** What the chain manager hands over: deltas and undo records of the same accounts, once each; the undo records tell the
    rows as they are; every number is in its range. *)
Record block_fits (rows : gmap bytes bytes) (b : BlockToCommit) : Prop := {
  bf_aligned : d_addr <$> bc_deltas b = u_addr <$> bc_undo b;
  bf_nodup : List.NoDup (u_addr <$> bc_undo b);
  bf_true : Forall (undo_true rows) (bc_undo b);
  bf_next : Forall (fun d => account_wf (next_account d)) (bc_deltas b);
  bf_undo : Forall undo_wf (bc_undo b);
  bf_len : Zlen (bc_undo b) <= MAX_UNDO_RECS;
  bf_issued : 0 <= bc_issued_delta b < 2 ^ 128;
  bf_height : 0 <= bc_height b < 2 ^ 64 - 1;
}.
(** The fingerprint is that of the live rows. *)
Definition state_sound (m : Meta) (x : Txn (T := T)) : Prop := rows_live (t_rows (x_state x)) /\ m_fingerprint m = xor_rows (t_rows (x_state x)).
Definition ringed (h : Z) (rows : gmap Z bytes) : gmap Z bytes := if UNDO_RING <=? h then delete (h - UNDO_RING) rows else rows.

Lemma apply_block_ok m x b txindex addrindex : state_sound m x -> block_fits (t_rows (x_state x)) b -> 0 <= m_hash_index_full_rows m < 2 ^ 64 - 1 ->
  (addrindex = true -> exists body, BlockBody_parse (bc_body b) = Ok body) -> exists m' x',
  apply_block hdr_files prefix_bytes m x b txindex addrindex = Ok (m', x') /\ state_sound m' x' /\
  t_rows (x_state x') = apply_rows (t_rows (x_state x)) (bc_deltas b) /\
  t_rows (x_undo x') = ringed (bc_height b) (<[bc_height b := encode_undo (bc_undo b) (bc_issued_delta b)]> (t_rows (x_undo x))) /\
  m_issued m' = saturating_add 128 (m_issued m) (bc_issued_delta b) /\
  m_tip m' = MkStoreTip (bc_hash b) (bc_height b) (bc_chainwork b) /\ m_hdr_watermark m' = bc_height b + 1 /\ m_body_watermark m' = bc_height b + 1.
Proof.
  intros [Hl Hfp] [Ha Hn Ht Hw Hu Hlen Hi Hh] Hrows Hbody. unfold apply_block. rewrite Hfp.
  destruct (apply_rows_ok (bc_deltas b) (bc_undo b) (x_state x) Hl Ht Ha Hn Hw) as (st & -> & Hst). cbn [obind].
  destruct (insert_ok (x_undo x) (bc_height b) (encode_undo (bc_undo b) (bc_issued_delta b))) as (un & -> & Hun). cbn [obind snd].
  assert (Hring : exists un', (if UNDO_RING <=? bc_height b then let? r := t_remove un (bc_height b - UNDO_RING) in Ok (snd r) else Ok un) = @Ok StoreError _ un' /\
    t_rows un' = ringed (bc_height b) (<[bc_height b := encode_undo (bc_undo b) (bc_issued_delta b)]> (t_rows (x_undo x)))).
  { unfold ringed. rewrite <- Hun. destruct (UNDO_RING <=? bc_height b); [|by exists un]. destruct (remove_ok un (bc_height b - UNDO_RING)) as (un' & -> & Hr). cbn [obind snd]. by exists un'. }
  destruct Hring as (un' & -> & Hun'). cbn [obind]. set (m1 := m_set_state m _ _). set (x1 := x_set_state x st un').
  destruct (index_hash_ok m1 x1 (bc_hash b) (bc_height b) Hrows) as (rows & hi & hf & ->). cbn [obind]. set (m2 := m_set_index m1 _ _ _ rows). set (x2 := x_set_hash x1 hi hf).
  assert (Hcw : exists cw, (if is_ckpt_height (bc_height b) then let? r := t_insert (x_chainwork x2) (bc_height b) (bc_chainwork b) in Ok (snd r) else Ok (x_chainwork x2)) = @Ok StoreError _ cw).
  { destruct (is_ckpt_height _); [|by eexists]. destruct (insert_ok (x_chainwork x2) (bc_height b) (bc_chainwork b)) as (cw & -> & _). by eexists. }
  destruct Hcw as (cw & ->). cbn [obind]. unfold add_checked, checked_add, checked. rewrite (proj2 (fits_spec 64 (bc_height b + 1))) by lia. cbn [expect].
  destruct (if txindex then bc_txids b else None) as [ids|]; [destruct (index_txids_ok ids (x_txindex x2) (bc_height b) 0) as (tx & ->)|]; cbn [obind];
    (destruct addrindex; [destruct (Hbody eq_refl) as (body & Hb); destruct (index_addresses_ok (x_addrindex x2) b body Hb) as (ad & ->)|]); cbn [obind];
    (do 2 eexists; split; [reflexivity|]; split; [split; [cbn; rewrite Hst; by apply rows_live_apply|reflexivity]|]; done).
Qed.
Lemma undo_prev_wf us : Forall undo_wf us -> Forall (fun r => account_wf (prev_account r)) us.
Proof. intros H. eapply List.Forall_impl; [|exact H]. intros r (_ & Hb & Hn). by split. Qed.
Lemma rollback_height_ok m x h us delta : m_fingerprint m = xor_rows (t_rows (x_state x)) -> t_rows (x_undo x) !! h = Some (encode_undo us delta) ->
  Forall undo_wf us -> Zlen us <= MAX_UNDO_RECS -> 0 <= delta < 2 ^ 128 -> 0 <= m_issued m - delta < 2 ^ 128 -> exists m' x',
  rollback_height m x h = Ok (m', x') /\ m_fingerprint m' = xor_rows (t_rows (x_state x')) /\ t_rows (x_state x') = unapply_rows (t_rows (x_state x)) us /\
  t_rows (x_undo x') = delete h (t_rows (x_undo x)) /\ m_issued m' = m_issued m - delta.
Proof.
  intros Hfp Hblob Hu Hl Hd Hi. unfold rollback_height. rewrite get_ok, Hblob. cbn [obind]. rewrite decode_encode_undo by done. cbn [ok_or obind].
  unfold checked_sub, checked. rewrite (proj2 (fits_spec 128 _)) by done. cbn [ok_or obind]. rewrite Hfp.
  destruct (unapply_rows_ok us (x_state x) (undo_prev_wf us Hu)) as (st & -> & Hst). cbn [obind]. destruct (remove_ok (x_undo x) h) as (un & -> & Hun). cbn [obind].
  destruct (is_ckpt_height h); [destruct (remove_ok (x_chainwork x) h) as (cw & -> & _)|]; cbn [obind]; (do 2 eexists; split; [reflexivity|]; done).
Qed.

(** C16. A block committed to the database and taken back leaves the accounts as they were. On an engine that works, whatever rows
    it holds, applying a block that tells the truth about them succeeds: every account then reads as the block says, and the
    fingerprint, kept by xor as rows come and go, is that of the rows from scratch. Rolling the height back succeeds too, and
    gives back exactly the old rows, the old fingerprint and the old issued amount. *)
Theorem commit_then_rollback_restores m x b txindex addrindex :
  state_sound m x -> block_fits (t_rows (x_state x)) b -> 0 <= m_hash_index_full_rows m < 2 ^ 64 - 1 -> 0 <= m_issued m -> m_issued m + bc_issued_delta b < 2 ^ 128 ->
  (addrindex = true -> exists body, BlockBody_parse (bc_body b) = Ok body) ->
  exists m' x', apply_block hdr_files prefix_bytes m x b txindex addrindex = Ok (m', x') /\ state_sound m' x' /\
    verify_state_fingerprint (x_state x') (m_fingerprint m') = Ok tt /\
    (forall a, store_account (x_state x') a = Ok (apply_deltas (acct (t_rows (x_state x))) (bc_deltas b) a)) /\
    exists m'' x'', rollback_height m' x' (bc_height b) = Ok (m'', x'') /\
      t_rows (x_state x'') = t_rows (x_state x) /\ m_fingerprint m'' = m_fingerprint m /\ m_issued m'' = m_issued m.
Proof.
  intros Hs Hb Hrows H0 Hi Hbody. pose proof Hs as [Hl Hfp]. pose proof Hb as [Ha Hn Ht Hw Hu Hlen Hd Hh].
  destruct (apply_block_ok m x b txindex addrindex Hs Hb Hrows Hbody) as (m' & x' & He & Hs' & Hst & Hun & Hiss & _). exists m', x'. split; [done|]. split; [done|]. pose proof Hs' as [Hl' Hfp'].
  split; [|split].
  - unfold verify_state_fingerprint. destruct (iter_works (x_state x')) as [l Hl0]. rewrite Hl0. cbn [obind]. rewrite (fold_rows l _ (iter_law _ _ Hl0)), Hfp'. unfold bytes_eqb. by rewrite bool_decide_eq_true_2.
  - intros a. unfold store_account. rewrite get_ok. cbn [obind]. f_equal. rewrite <- apply_rows_acct, <- Hst by done. done.
  - destruct (rollback_height_ok m' x' (bc_height b) (bc_undo b) (bc_issued_delta b)) as (m'' & x'' & He' & Hfp'' & Hst'' & _ & Hiss''); try done.
    + rewrite Hun. unfold ringed, UNDO_RING. destruct (256 <=? bc_height b); [rewrite lookup_delete_ne by lia|]; by rewrite lookup_insert_eq.
    + rewrite Hiss. unfold saturating_add. rewrite Z.min_l by (unfold umax; lia). lia.
    + exists m'', x''. split; [done|]. rewrite Hst'' in Hfp'' |- *. rewrite Hst, unapply_apply in Hfp'' |- * by done. split; [done|]. split; [by rewrite Hfp'', Hfp|].
      rewrite Hiss'', Hiss. unfold saturating_add. rewrite Z.min_l by (unfold umax; lia). lia.
Qed.

(** *** Headers by hash *)
Abbreviation prefix hash := (hash_prefix_n hash prefix_bytes).
(** Below the watermark every header is on disk, and one of the two index tables leads to it. *)
Record index_complete (files : Files) (wm full_rows : Z) (hi : gmap Z Z) (hf : gmap bytes Z) : Prop := {
  ic_found : forall h, 0 <= h < wm -> exists raw, header_raw files h = Some raw /\ (hi !! prefix (header_hash raw) = Some h \/ hf !! header_hash raw = Some h);
  ic_rows : full_rows = Z.of_nat (size hf);
  ic_heights : (forall p h, hi !! p = Some h -> 0 <= h) /\ (forall k h, hf !! k = Some h -> 0 <= h);
}.
Lemma index_hash_spec m (x : Txn) hash height : m_hash_index_full_rows m = Z.of_nat (size (t_rows (x_hash_full x))) -> m_hash_index_full_rows m < 2 ^ 64 - 1 ->
  exists m' x', index_hash hdr_files prefix_bytes m x hash height = Ok (m', x') /\ m_hash_index_full_rows m' = Z.of_nat (size (t_rows (x_hash_full x'))) /\
    ((t_rows (x_hash_full x') = t_rows (x_hash_full x) /\ t_rows (x_hash_index x') = <[prefix hash := height]> (t_rows (x_hash_index x)) /\
      (forall h0 raw, t_rows (x_hash_index x) !! prefix hash = Some h0 -> h0 <> height -> header_raw hdr_files h0 = Some raw -> prefix (header_hash raw) <> prefix hash)) \/
     (t_rows (x_hash_index x') = t_rows (x_hash_index x) /\ t_rows (x_hash_full x') = <[hash := height]> (t_rows (x_hash_full x)))).
Proof.
  intros Hr Hb. unfold index_hash. rewrite get_ok. cbn [obind]. destruct (insert_ok (x_hash_index x) (prefix hash) height) as (hi & -> & Hhi). cbn [obind snd].
  destruct (t_rows (x_hash_index x) !! prefix hash) as [h0|] eqn:Eh; [|exists m, (x_set_hash x hi (x_hash_full x)); split; [done|]; split; [done|]; left; done].
  destruct (Z.eqb_spec h0 height) as [->|Hne]; [exists m, x; split; [done|]; split; [done|]; left; split; [done|]; split; [by rewrite insert_id|]; congruence|].
  destruct (match header_raw hdr_files h0 with Some hdr => _ | None => false end) eqn:Ev.
  - destruct (insert_ok (x_hash_full x) hash height) as (hf & -> & Hhf). cbn [obind fst snd].
    assert (Hsz : exists rows, match t_rows (x_hash_full x) !! hash with None => add_checked 64 (m_hash_index_full_rows m) 1 | Some _ => Ok (m_hash_index_full_rows m) end = @Ok StoreError _ rows /\ rows = Z.of_nat (size (t_rows hf))).
    { rewrite Hhf. destruct (t_rows (x_hash_full x) !! hash) eqn:E; [rewrite map_size_insert_Some by eauto; eauto|]. rewrite map_size_insert_None by done. unfold add_checked, checked_add, checked.
      rewrite (proj2 (fits_spec 64 _)) by lia. cbn [expect]. eexists. split; [done|]. lia. }
    destruct Hsz as (rows & -> & Hrows). cbn [obind]. eexists _, _. split; [done|]. split; [exact Hrows|]. right. done.
  - exists m, (x_set_hash x hi (x_hash_full x)). split; [done|]. split; [done|]. left. split; [done|]. split; [done|]. intros h1 raw [= <-] _ Hraw. rewrite Hraw in Ev. by apply Z.eqb_neq.
Qed.
Lemma index_complete_add m (x : Txn) hash height raw : index_complete hdr_files height (m_hash_index_full_rows m) (t_rows (x_hash_index x)) (t_rows (x_hash_full x)) ->
  m_hash_index_full_rows m < 2 ^ 64 - 1 -> 0 <= height -> header_raw hdr_files height = Some raw -> hash = header_hash raw ->
  (forall h raw', 0 <= h < height -> header_raw hdr_files h = Some raw' -> header_hash raw' <> hash) ->
  exists m' x', index_hash hdr_files prefix_bytes m x hash height = Ok (m', x') /\
    index_complete hdr_files (height + 1) (m_hash_index_full_rows m') (t_rows (x_hash_index x')) (t_rows (x_hash_full x')).
Proof.
  intros [Hf Hr [Hp1 Hp2]] Hb H0 Hraw Hh Hfresh. destruct (index_hash_spec m x hash height Hr Hb) as (m' & x' & He & Hr' & Hcase). exists m', x'. split; [done|]. split; [|done|].
  - intros h Hlt. destruct (decide (h = height)) as [->|Hne]; [exists raw; split; [done|]; rewrite <- Hh; destruct Hcase as [(_ & -> & _)|[_ ->]]; [left|right]; by rewrite lookup_insert_eq|].
    destruct (Hf h ltac:(lia)) as (r & Hr0 & Hor). exists r. split; [done|]. destruct Hcase as [(-> & -> & Hinv)|[-> ->]].
    + destruct Hor as [Hhi|Hhf]; [left|by right]. destruct (decide (prefix hash = prefix (header_hash r))) as [Heq|Hnp]; [|by rewrite lookup_insert_ne].
      exfalso. rewrite <- Heq in Hhi. apply (Hinv h r Hhi Hne Hr0). done.
    + destruct Hor as [Hhi|Hhf]; [by left|right]. rewrite lookup_insert_ne; [done|]. intros Heq. by apply (Hfresh h r ltac:(lia) Hr0).
  - destruct Hcase as [(-> & -> & _)|[-> ->]]; split; intros k h Hk; try apply lookup_insert_Some in Hk as [[_ <-]|[_ Hk]]; eauto.
Qed.
Lemma unindex_spec m (x : Txn) h hash : m_hash_index_full_rows m = Z.of_nat (size (t_rows (x_hash_full x))) ->
  exists m' x', unindex_hash prefix_bytes (m, x) (h, hash) = Ok (m', x') /\ m_hash_index_full_rows m' = Z.of_nat (size (t_rows (x_hash_full x'))) /\
    t_rows (x_hash_full x') = delete hash (t_rows (x_hash_full x)) /\
    t_rows (x_hash_index x') = (if bool_decide (t_rows (x_hash_index x) !! prefix hash = Some h) then delete (prefix hash) (t_rows (x_hash_index x)) else t_rows (x_hash_index x)).
Proof.
  intros Hr. unfold unindex_hash. rewrite get_ok. cbn [obind].
  assert (Hhi : exists hi, (if bool_decide (t_rows (x_hash_index x) !! prefix hash = Some h) then let? r := t_remove (x_hash_index x) (prefix hash) in Ok (snd r) else Ok (x_hash_index x)) = @Ok StoreError _ hi /\
    t_rows hi = (if bool_decide (t_rows (x_hash_index x) !! prefix hash = Some h) then delete (prefix hash) (t_rows (x_hash_index x)) else t_rows (x_hash_index x))).
  { case_bool_decide; [|by eexists]. destruct (remove_ok (x_hash_index x) (prefix hash)) as (hi & -> & Hhi). cbn [obind snd]. by exists hi. }
  destruct Hhi as (hi & -> & Hhi). cbn [obind]. destruct (Z.ltb_spec 0 (m_hash_index_full_rows m)).
  - destruct (remove_ok (x_hash_full x) hash) as (hf & -> & Hhf). cbn [obind fst snd]. eexists _, _. split; [done|]. cbn [x_hash_full x_hash_index x_set_hash]. rewrite Hhf. split; [|done]. destruct (t_rows (x_hash_full x) !! hash) eqn:E.
    + rewrite map_size_delete_Some by eauto. cbn [m_hash_index_full_rows m_set_index]. assert (0 < size (t_rows (x_hash_full x)))%nat by lia. lia.
    + by rewrite map_size_delete_None.
  - eexists _, _. split; [done|]. cbn [x_hash_full x_set_hash]. assert (He : t_rows (x_hash_full x) = ∅) by (apply map_size_empty_inv; lia). rewrite Hr, He. rewrite delete_empty. done.
Qed.
Lemma index_complete_cut wm olds : forall m (x : Txn) fork, m_hash_index_full_rows m = Z.of_nat (size (t_rows (x_hash_full x))) ->
  Forall (fun o => fork < fst o /\ forall h raw, 0 <= h <= fork -> header_raw hdr_files h = Some raw -> header_hash raw <> snd o) olds -> fork < wm ->
  index_complete hdr_files wm (m_hash_index_full_rows m) (t_rows (x_hash_index x)) (t_rows (x_hash_full x)) ->
  exists m' x', ofold (unindex_hash prefix_bytes) (m, x) olds = Ok (m', x') /\
    index_complete hdr_files (fork + 1) (m_hash_index_full_rows m') (t_rows (x_hash_index x')) (t_rows (x_hash_full x')).
Proof.
  intros m x fork Hr Holds Hwm Hic. assert (Hic' : index_complete hdr_files (fork + 1) (m_hash_index_full_rows m) (t_rows (x_hash_index x)) (t_rows (x_hash_full x))).
  { destruct Hic as [Hf H2 H3]. split; [|done|done]. intros h Hh. apply Hf. lia. }
  clear Hic Hwm. revert m x Hr Hic'. induction Holds as [|[h hash] olds [Hfk Hne] _ IH]; intros m x Hr Hic; [by exists m, x|]. cbn [fst snd] in *.
  destruct (unindex_spec m x h hash Hr) as (m1 & x1 & He & Hr1 & Hf1 & Hi1). cbn [ofold]. rewrite He. cbn [obind]. apply IH; [done|]. destruct Hic as [Hf _ [Hp1 Hp2]]. split; [|done|].
  - intros k Hk. destruct (Hf k Hk) as (raw & Hraw & Hor). exists raw. split; [done|]. rewrite Hf1, Hi1. destruct Hor as [Hhi|Hhf].
    + left. case_bool_decide as Hb; [|done]. rewrite lookup_delete_ne; [done|]. intros Heq. rewrite Heq, Hhi in Hb. injection Hb as ->. lia.
    + right. rewrite lookup_delete_ne; [done|]. intros Heq. by apply (Hne k raw ltac:(lia) Hraw).
  - rewrite Hf1, Hi1. split; intros k v Hk; [case_bool_decide|]; try apply lookup_delete_Some in Hk as [_ Hk]; eauto.
Qed.
Lemma store_header_at_ok wm h raw : h < wm -> header_raw hdr_files h = Some raw -> store_header_at hdr_files wm h = Ok (Some raw).
Proof.
  intros Hh Hraw. unfold store_header_at. destruct (Z.leb_spec wm h); [lia|]. unfold header_raw, read_header_at in Hraw. destruct (hdr_files !! seg_of h) as [f|]; [|done]. by rewrite Hraw.
Qed.
Lemma confirm_ok wm hash v : (forall h, 0 <= h < wm -> exists raw, header_raw hdr_files h = Some raw) -> (forall h, v = Some h -> 0 <= h) ->
  exists r, confirm hdr_files wm hash v = Ok r /\
    match r with
    | Some (h, raw) => v = Some h /\ 0 <= h < wm /\ header_raw hdr_files h = Some raw /\ header_hash raw = hash
    | None => forall h raw, v = Some h -> 0 <= h < wm -> header_raw hdr_files h = Some raw -> header_hash raw <> hash
    end.
Proof.
  intros Hall Hv. destruct v as [h|]; [|exists None; split; [done|]; congruence]. specialize (Hv h eq_refl). unfold confirm. destruct (Z.lt_ge_cases h wm) as [Hlt|Hge].
  - destruct (Hall h ltac:(lia)) as (raw & Hraw). rewrite (store_header_at_ok wm h raw) by done. cbn [obind]. eexists. split; [reflexivity|]. unfold bytes_eqb. case_bool_decide as Hb; [done|].
    intros h' raw' [= <-] _ Hraw'. congruence.
  - exists None. unfold store_header_at. destruct (Z.leb_spec wm h); [|lia]. split; [done|]. intros h' raw' [= <-]. lia.
Qed.
Lemma header_by_hash_exact wm full_rows (x : Txn) hash : index_complete hdr_files wm full_rows (t_rows (x_hash_index x)) (t_rows (x_hash_full x)) ->
  exists r, store_header_by_hash hdr_files prefix_bytes x wm full_rows hash = Ok r /\
    match r with
    | Some (h, raw) => 0 <= h < wm /\ header_raw hdr_files h = Some raw /\ header_hash raw = hash
    | None => forall h raw, 0 <= h < wm -> header_raw hdr_files h = Some raw -> header_hash raw <> hash
    end.
Proof.
  intros [Hf Hr [Hp1 Hp2]]. assert (Hall : forall h, 0 <= h < wm -> exists raw, header_raw hdr_files h = Some raw) by (intros h Hh; destruct (Hf h Hh) as (raw & Hraw & _); eauto).
  unfold store_header_by_hash. rewrite get_ok. cbn [obind]. destruct (confirm_ok wm hash (t_rows (x_hash_index x) !! prefix hash) Hall) as (r & -> & Hspec); [eauto|]. cbn [obind].
  destruct r as [[h raw]|]; [exists (Some (h, raw)); split; [done|]; tauto|]. destruct (Z.ltb_spec 0 full_rows).
  - rewrite get_ok. cbn [obind]. destruct (confirm_ok wm hash (t_rows (x_hash_full x) !! hash) Hall) as (r & -> & Hspec'); [eauto|]. exists r. split; [done|]. destruct r as [[h raw]|]; [tauto|].
    intros h raw Hh Hraw Heq. destruct (Hf h Hh) as (raw' & Hraw' & Hor). rewrite Hraw in Hraw'. injection Hraw' as <-. rewrite Heq in Hor. destruct Hor as [Hor|Hor]; [by apply (Hspec h raw)|by apply (Hspec' h raw)].
  - exists None. split; [done|]. intros h raw Hh Hraw Heq. destruct (Hf h Hh) as (raw' & Hraw' & Hor). rewrite Hraw in Hraw'. injection Hraw' as <-. rewrite Heq in Hor. destruct Hor as [Hor|Hor]; [by apply (Hspec h raw)|].
    assert (size (t_rows (x_hash_full x)) <> 0)%nat; [|lia]. rewrite map_size_empty_iff. intros He. by rewrite He in Hor.
Qed.

(** C18. Every header of the chain is found by its hash, and nothing else is. When the two index tables lead to every header below the
    watermark, a lookup answers with a header that is on disk below the watermark and has that hash, or says there is none and
    is right; indexing the next block keeps the tables complete, whatever prefix it shares with others or with stale rows; and
    unindexing the blocks above a fork leaves them complete up to the fork. The hashes involved are those of distinct
    headers. *)
Theorem hash_index_finds_chain m (x : Txn) wm hash raw olds fork lookup :
  index_complete hdr_files wm (m_hash_index_full_rows m) (t_rows (x_hash_index x)) (t_rows (x_hash_full x)) ->
  m_hash_index_full_rows m < 2 ^ 64 - 1 -> 0 <= wm -> header_raw hdr_files wm = Some raw -> hash = header_hash raw ->
  (forall h raw', 0 <= h < wm -> header_raw hdr_files h = Some raw' -> header_hash raw' <> hash) ->
  Forall (fun o => fork < fst o /\ forall h raw, 0 <= h <= fork -> header_raw hdr_files h = Some raw -> header_hash raw <> snd o) olds -> fork < wm ->
  (exists r, store_header_by_hash hdr_files prefix_bytes x wm (m_hash_index_full_rows m) lookup = Ok r /\
     match r with
     | Some (h, raw) => 0 <= h < wm /\ header_raw hdr_files h = Some raw /\ header_hash raw = lookup
     | None => forall h raw, 0 <= h < wm -> header_raw hdr_files h = Some raw -> header_hash raw <> lookup
     end) /\
  (exists m' x', index_hash hdr_files prefix_bytes m x hash wm = Ok (m', x') /\
     index_complete hdr_files (wm + 1) (m_hash_index_full_rows m') (t_rows (x_hash_index x')) (t_rows (x_hash_full x'))) /\
  (exists m' x', ofold (unindex_hash prefix_bytes) (m, x) olds = Ok (m', x') /\
     index_complete hdr_files (fork + 1) (m_hash_index_full_rows m') (t_rows (x_hash_index x')) (t_rows (x_hash_full x'))).
Proof.
  intros Hic Hb H0 Hraw Hh Hfresh Holds Hfork. split; [by apply header_by_hash_exact|]. split; [by eapply index_complete_add|].
  eapply index_complete_cut; [apply (ic_rows _ _ _ _ _ Hic)|done|exact Hfork|done].
Qed.
End Chain.

(** *** The list of invalid blocks *)
(** Every marked block has one row of each table; the rows of the second are numbered below the next number. *)
Record invalid_ok (m : Meta) (t : InvalidTabs (T := T)) : Prop := {
  io_count : m_invalid_rows m = Z.of_nat (size (t_rows (iv_rows t)));
  io_seq : m_invalid_rows m = Z.of_nat (size (t_rows (iv_seq t)));
  io_marked : forall k h, t_rows (iv_seq t) !! k = Some h -> is_Some (t_rows (iv_rows t) !! h) /\ 0 <= k < m_invalid_next_seq m;
  io_inj : forall k k' h, t_rows (iv_seq t) !! k = Some h -> t_rows (iv_seq t) !! k' = Some h -> k = k';
  io_numbered : forall h, is_Some (t_rows (iv_rows t) !! h) -> exists k, t_rows (iv_seq t) !! k = Some h;
}.
Lemma mark_row_ok m t r : invalid_ok m t -> 0 <= m_invalid_next_seq m < 2 ^ 64 - 1 -> m_invalid_rows m < 2 ^ 64 - 1 -> exists m' t',
  mark_row (m, t) r = Ok (m', t') /\ invalid_ok m' t' /\ is_Some (t_rows (iv_rows t') !! fst r) /\
  (forall h, is_Some (t_rows (iv_rows t) !! h) -> is_Some (t_rows (iv_rows t') !! h)) /\
  m_invalid_next_seq m <= m_invalid_next_seq m' <= m_invalid_next_seq m + 1 /\ m_invalid_rows m <= m_invalid_rows m' <= m_invalid_rows m + 1 /\
  (forall k h, t_rows (iv_seq t) !! k = Some h -> t_rows (iv_seq t') !! k = Some h) /\
  (forall k h, t_rows (iv_seq t') !! k = Some h -> t_rows (iv_seq t) !! k = Some h \/ (h = fst r /\ m_invalid_next_seq m <= k)) /\
  m_invalid_rows m' - m_invalid_rows m = m_invalid_next_seq m' - m_invalid_next_seq m.
Proof.
  intros [Hc Hs Hm Hi Hn] H1 H2. destruct r as [hash reason]. cbn [fst snd]. unfold mark_row. cbn [fst snd]. destruct (insert_ok (iv_rows t) hash (InvalidReason_code reason)) as (iv & -> & Hiv). cbn [obind fst snd].
  assert (Hkeep : forall h, is_Some (t_rows (iv_rows t) !! h) -> is_Some (t_rows iv !! h)).
  { intros h Hh. rewrite Hiv. destruct (decide (hash = h)) as [->|]; [rewrite lookup_insert_eq; eauto|by rewrite lookup_insert_ne]. }
  assert (Hin : is_Some (t_rows iv !! hash)) by (rewrite Hiv, lookup_insert_eq; eauto).
  destruct (t_rows (iv_rows t) !! hash) as [c|] eqn:E.
  - exists m, (MkInvalidTabs iv (iv_seq t)). split; [done|]. cbn [iv_rows iv_seq]. split; [|split; [done|]; split; [done|]; split; [lia|]; split; [lia|]; split; [done|]; split; [by left|lia]].
    split; cbn [iv_rows iv_seq]; [rewrite Hiv, map_size_insert_Some by eauto; done|done| |done|].
    + intros k h Hk. destruct (Hm k h Hk) as [Ha Hb]. split; [by apply Hkeep|done].
    + intros h Hh. apply Hn. rewrite Hiv in Hh. destruct (decide (hash = h)) as [<-|]; [eauto|by rewrite lookup_insert_ne in Hh].
  - destruct (insert_ok (iv_seq t) (m_invalid_next_seq m) hash) as (sq & -> & Hsq). cbn [obind snd]. unfold add_checked, checked_add, checked. rewrite !(proj2 (fits_spec 64 _)) by lia. cbn [expect obind].
    eexists _, _. split; [reflexivity|]. cbn [iv_rows iv_seq m_invalid_rows m_invalid_next_seq m_set_rows].
    assert (Hfree : t_rows (iv_seq t) !! m_invalid_next_seq m = None) by (destruct (t_rows (iv_seq t) !! m_invalid_next_seq m) as [h|] eqn:Eh; [destruct (Hm _ _ Eh); lia|done]).
    assert (Hnew : forall k h, t_rows sq !! k = Some h -> t_rows (iv_seq t) !! k = Some h \/ (h = hash /\ k = m_invalid_next_seq m)).
    { intros k h. rewrite Hsq, lookup_insert_Some. intros [[<- <-]|[_ ?]]; auto. }
    assert (Hold : forall k h, t_rows (iv_seq t) !! k = Some h -> t_rows sq !! k = Some h) by (intros k h Hk; rewrite Hsq, lookup_insert_ne; [done|congruence]).
    assert (Hnot : forall k, t_rows (iv_seq t) !! k <> Some hash) by (intros k Hk; destruct (Hm _ _ Hk) as [[? Hx] _]; congruence).
    split; [|split; [done|]; split; [done|]; split; [lia|]; split; [lia|]; split; [done|]; split; [|lia]; intros k h Hk; destruct (Hnew k h Hk) as [?|[-> ->]]; [by left|right; lia || (split; [done|lia])]].
    split; cbn [iv_rows iv_seq m_invalid_rows m_invalid_next_seq m_set_rows].
    + rewrite Hiv, map_size_insert_None by done. lia.
    + rewrite Hsq, map_size_insert_None by done. lia.
    + intros k h Hk. destruct (Hnew k h Hk) as [Hk'|[-> ->]]; [destruct (Hm _ _ Hk'); split; [by apply Hkeep|lia]|split; [done|lia]].
    + intros k k' h Hk Hk'. destruct (Hnew k h Hk) as [Ha|[-> ->]], (Hnew k' _ Hk') as [Hb|[Hb1 Hb2]]; [by eapply Hi|subst; exfalso; by eapply Hnot|exfalso; by eapply Hnot|done].
    + intros h Hh. rewrite Hiv in Hh. destruct (decide (hash = h)) as [<-|Hne]; [exists (m_invalid_next_seq m); rewrite Hsq; apply lookup_insert_eq|].
      rewrite lookup_insert_ne in Hh by done. destruct (Hn h Hh) as [k Hk]. exists k. by apply Hold.
Qed.

Lemma mark_rows_ok rows : forall m t, invalid_ok m t -> 0 <= m_invalid_next_seq m -> m_invalid_next_seq m + Zlen rows < 2 ^ 64 -> m_invalid_rows m + Zlen rows < 2 ^ 64 -> exists m' t',
  ofold mark_row (m, t) rows = Ok (m', t') /\ invalid_ok m' t' /\ m_invalid_next_seq m <= m_invalid_next_seq m' <= m_invalid_next_seq m + Zlen rows /\
  (forall h, is_Some (t_rows (iv_rows t) !! h) \/ In h (fst <$> rows) -> is_Some (t_rows (iv_rows t') !! h)) /\
  (forall k h, t_rows (iv_seq t') !! k = Some h -> t_rows (iv_seq t) !! k = Some h \/ (In h (fst <$> rows) /\ m_invalid_next_seq m <= k)).
Proof.
  induction rows as [|r rows IH]; intros m t Hok H0 H1 H2.
  - exists m, t. split; [done|]. split; [done|]. change (Zlen (@nil (bytes * InvalidReason))) with 0. split; [lia|]. split; [by intros h [?|[]]|by left].
  - rewrite Zlen_cons in *. pose proof (Zlen_nonneg rows). destruct (mark_row_ok m t r Hok) as (m1 & t1 & He & Hok1 & Hin & Hkeep & Hn1 & Hr1 & _ & Hseq & _); [lia..|].
    cbn [ofold]. rewrite He. cbn [obind]. destruct (IH m1 t1 Hok1) as (m' & t' & He' & Hok' & Hn' & Hmark & Hseq'); [lia..|]. exists m', t'. split; [done|]. split; [done|]. split; [lia|]. split.
    + intros h Hh. apply Hmark. cbn in Hh. destruct Hh as [Hh|[<-|Hh]]; [left; by apply Hkeep|by left|by right].
    + intros k h Hk. destruct (Hseq' k h Hk) as [Hk1|[Hin' Hge]]; [|right; split; [by right|lia]]. destruct (Hseq k h Hk1) as [?|[-> ?]]; [by left|right; split; [by left|lia]].
Qed.
Lemma size_keys_between (rows : gmap Z bytes) lo hi : lo <= hi -> (forall k, is_Some (rows !! k) -> lo <= k < hi) -> Z.of_nat (size rows) <= hi - lo.
Proof.
  intros Hle Hb. assert (Hs : dom rows ⊆ (list_to_set (zrange lo hi) : gset Z)).
  { intros k Hk. apply elem_of_dom in Hk. apply elem_of_list_to_set, list_elem_of_In, in_zrange. by apply Hb. }
  apply subseteq_size in Hs. rewrite size_dom in Hs. rewrite size_list_to_set in Hs.
  - pose proof (Zlen_zrange lo hi Hle) as Hz. unfold Zlen in Hz. lia.
  - apply NoDup_ListNoDup. unfold zrange. apply NoDup_ListNoDup, NoDup_fmap_2; [intros a b Hab; lia|apply NoDup_seq].
Qed.
Lemma evict_one m (t : InvalidTabs) k h : invalid_ok m t -> t_rows (iv_seq t) !! k = Some h -> exists iv sq,
  t_remove (iv_seq t) k = Ok (Some h, sq) /\ t_rows sq = delete k (t_rows (iv_seq t)) /\ t_rows iv = delete h (t_rows (iv_rows t)) /\
  (exists c, t_remove (iv_rows t) h = Ok (Some c, iv)) /\
  invalid_ok (m_set_rows m (m_invalid_next_seq m) (m_invalid_rows m - 1) (m_side_rows m)) (MkInvalidTabs iv sq).
Proof.
  intros [Hc Hs Hm Hi Hn] Hk. destruct (remove_ok (iv_seq t) k) as (sq & Hrs & Hsq). destruct (remove_ok (iv_rows t) h) as (iv & Hri & Hiv). destruct (Hm k h Hk) as [[c Hc0] Hkr].
  rewrite Hk in Hrs. rewrite Hc0 in Hri. exists iv, sq. split; [done|]. split; [done|]. split; [done|]. split; [by exists c|].
  assert (size (t_rows (iv_seq t)) <> 0)%nat by (rewrite map_size_empty_iff; intros He; by rewrite He in Hk).
  split; cbn [iv_rows iv_seq m_invalid_rows m_invalid_next_seq m_set_rows].
  - rewrite Hiv, map_size_delete_Some by eauto. lia.
  - rewrite Hsq, map_size_delete_Some by eauto. lia.
  - intros k' h' Hk'. rewrite Hsq in Hk'. apply lookup_delete_Some in Hk' as [Hne Hk']. destruct (Hm k' h' Hk') as [Ha Hb]. split; [|done]. rewrite Hiv, lookup_delete_ne; [done|]. intros <-. by apply Hne, (Hi _ _ h).
  - intros k1 k2 h' H1 H2. rewrite Hsq in H1, H2. apply lookup_delete_Some in H1 as [_ H1], H2 as [_ H2]. by eapply Hi.
  - intros h' Hh'. rewrite Hiv in Hh'. destruct Hh' as [c' Hh']. apply lookup_delete_Some in Hh' as [Hne Hh']. destruct (Hn h' ltac:(eauto)) as [k' Hk']. exists k'. rewrite Hsq, lookup_delete_ne; [done|]. congruence.
Qed.
Lemma evict_invalid_ok cap N fuel : forall m t, invalid_ok m t -> 0 <= cap -> N <= m_invalid_next_seq m -> (size (t_rows (iv_seq t)) < fuel)%nat -> exists m' t',
  evict_invalid fuel cap m t = Ok (m', t') /\ invalid_ok m' t' /\ m_invalid_rows m' <= cap /\
  (m_invalid_next_seq m - N <= cap -> forall k h, N <= k -> t_rows (iv_seq t) !! k = Some h -> t_rows (iv_seq t') !! k = Some h) /\
  (forall h, is_Some (t_rows (iv_rows t') !! h) -> is_Some (t_rows (iv_rows t) !! h)).
Proof.
  induction fuel as [|fuel IH]; intros m t Hok Hcap HN Hf; [lia|]. cbn [evict_invalid]. destruct (Z.ltb_spec cap (m_invalid_rows m)) as [Hgt|]; [|exists m, t; done].
  destruct (first_works (iv_seq t)) as [r Hr]. rewrite Hr. cbn [obind]. pose proof (first_law _ _ Hr) as Hfirst. pose proof Hok as [Hc Hs Hm _ _].
  destruct r as [[k h]|]; [|exfalso; rewrite Hfirst, map_size_empty in Hs; lia]. destruct Hfirst as [Hk Hmin].
  destruct (evict_one m t k h Hok Hk) as (iv & sq & -> & Hsq & Hiv & (c & ->) & Hok1). cbn [obind fst snd].
  assert (Hsz : (size (t_rows sq) < fuel)%nat) by (rewrite Hsq, map_size_delete_Some by eauto; assert (size (t_rows (iv_seq t)) <> 0)%nat by (rewrite map_size_empty_iff; intros He; by rewrite He in Hk); lia).
  destruct (IH _ (MkInvalidTabs iv sq) Hok1 Hcap HN Hsz) as (m' & t' & He & Hok' & Hle & Hkeep & Hsub). exists m', t'. split; [done|]. split; [done|]. split; [done|]. cbn [iv_rows iv_seq m_invalid_next_seq m_set_rows] in *. split.
  - intros Hroom k' h' HN' Hk'. apply Hkeep; [done|done|]. rewrite Hsq, lookup_delete_ne; [done|]. intros <-. assert (Z.of_nat (size (t_rows (iv_seq t))) <= m_invalid_next_seq m - N); [|lia].
    apply size_keys_between; [done|]. intros k1 [h1 H1]. destruct (Hm _ _ H1) as [_ Hb]. specialize (Hmin k1 ltac:(eauto)). cbn [key_leb redb_u64] in Hmin. lia.
  - intros h' Hh'. apply Hsub in Hh'. rewrite Hiv in Hh'. destruct Hh' as [c' Hh']. apply lookup_delete_Some in Hh' as [_ ?]. eauto.
Qed.

(** The list of invalid blocks stays within its cap and forgets the oldest first. Marking a batch succeeds and keeps the two tables
    and their counter in step; afterwards there are at most [cap] rows; every block of the batch that was not yet marked is marked,
    if the batch is no larger than the cap; and every marked block was marked before or is in the batch. *)
Theorem invalid_list_bounded cap m t rows :
  invalid_ok m t -> 0 <= cap -> 0 <= m_invalid_next_seq m -> m_invalid_next_seq m + Zlen rows < 2 ^ 64 -> m_invalid_rows m + Zlen rows < 2 ^ 64 ->
  exists m' t', mark_invalid_batch cap m t rows = Ok (m', t') /\ invalid_ok m' t' /\ Z.of_nat (size (t_rows (iv_rows t'))) <= cap /\
    (Zlen rows <= cap -> forall h, In h (fst <$> rows) -> is_invalid t h = Ok false -> is_invalid t' h = Ok true) /\
    (forall h, is_invalid t' h = Ok true -> is_invalid t h = Ok true \/ In h (fst <$> rows)).
Proof.
  intros Hok Hcap H0 H1 H2. destruct (mark_rows_ok rows m t Hok H0 H1 H2) as (m1 & t1 & He & Hok1 & Hn1 & Hmark & Hseq). unfold mark_invalid_batch. rewrite He. cbn [obind].
  destruct (evict_invalid_ok cap (m_invalid_next_seq m) (S (size (t_rows (iv_seq t1)))) m1 t1 Hok1 Hcap) as (m' & t' & -> & Hok' & Hle & Hkeep & Hsub); [lia..|].
  assert (Hinv : forall tt' h, is_invalid tt' h = Ok (match t_rows (iv_rows tt') !! h with Some _ => true | None => false end)) by (intros; unfold is_invalid; by rewrite get_ok).
  exists m', t'. split; [done|]. split; [done|]. split; [by rewrite <- (io_count _ _ Hok')|]. split.
  - intros Hlen h Hin Hfresh. rewrite Hinv in Hfresh |- *. destruct (io_numbered _ _ Hok1 h) as [k Hk]; [by apply Hmark; right|]. destruct (Hseq k h Hk) as [Hk0|[_ Hge]].
    + exfalso. destruct (io_marked _ _ Hok _ _ Hk0) as [[c Hc] _]. by rewrite Hc in Hfresh.
    + destruct (io_marked _ _ Hok' k h) as [[c Hc] _]; [apply Hkeep; [lia|done|done]|]. by rewrite Hc.
  - intros h. rewrite !Hinv. destruct (t_rows (iv_rows t') !! h) eqn:E; [|done]. intros _. destruct (Hsub h ltac:(eauto)) as [c1 Hc1]. destruct (io_numbered _ _ Hok1 h ltac:(eauto)) as [k Hk].
    destruct (Hseq k h Hk) as [Hk0|[Hin _]]; [left|by right]. destruct (io_marked _ _ Hok _ _ Hk0) as [[c Hc] _]. by rewrite Hc.
Qed.

(** *** The meta rows *)
Record meta_wf (m : Meta) : Prop := {
  mw_schema : 0 <= m_schema_version m < 2 ^ 32;
  mw_network : Zlen (m_network m) = 4;
  mw_tip : Zlen (stp_hash (m_tip m)) = 32 /\ 0 <= stp_height (m_tip m) < 2 ^ 64 /\ Zlen (stp_chainwork (m_tip m)) = 32;
  mw_marks : 0 <= m_hdr_watermark m < 2 ^ 64 /\ 0 <= m_body_watermark m < 2 ^ 64 /\ 0 <= m_prune_floor m < 2 ^ 64 /\ 0 <= m_undo_floor m < 2 ^ 64;
  mw_issued : 0 <= m_issued m < 2 ^ 128;
  mw_fingerprint : Zlen (m_fingerprint m) = 32;
  mw_counts : 0 <= m_stale_index_count m < 2 ^ 64 /\ 0 <= m_hash_index_full_rows m < 2 ^ 64 /\ 0 <= m_invalid_next_seq m < 2 ^ 64 /\
    0 <= m_invalid_rows m < 2 ^ 64 /\ 0 <= m_side_rows m < 2 ^ 64;
  mw_small : 0 <= m_ibd_batch_blocks m < 2 ^ 32 /\ 0 <= m_body_append_offset m < 2 ^ 32 /\ -1 <= m_bidx_sealed_through m < 2 ^ 32;
  mw_from : (forall f, m_txindex_from m = Some f -> 0 <= f < 2 ^ 64) /\ (forall f, m_addrindex_from m = Some f -> 0 <= f < 2 ^ 64) /\ (forall f, m_anchor_floor m = Some f -> 0 <= f < 2 ^ 64);
}.
Definition ins_opt (k : string) (v : option Z) (rows : gmap string bytes) : gmap string bytes :=
  match v with Some f => <[k := le_bytes 8 f]> rows | None => rows end.
Lemma put_row_ok (t : Tab string bytes) k v : exists t', put t k v = Ok t' /\ t_rows t' = <[k := v]> (t_rows t).
Proof. unfold put. destruct (insert_ok t k v) as (t' & -> & Hr). by exists t'. Qed.
Lemma put_opt_ok (t : Tab string bytes) k v : exists t', put_opt t k v = Ok t' /\ t_rows t' = ins_opt k v (t_rows t).
Proof. destruct v as [f|]; [apply put_row_ok|by exists t]. Qed.
Lemma ins_opt_ne k v k' rows : k <> k' -> ins_opt k v rows !! k' = rows !! k'.
Proof. intros Hne. destruct v; [by apply lookup_insert_ne|done]. Qed.
Lemma ins_opt_eq k v rows : (v = None -> rows !! k = None) -> ins_opt k v rows !! k = le_bytes 8 <$> v.
Proof. destruct v; intros H; [by apply lookup_insert_eq|by apply H]. Qed.
Lemma u64_of_le v : 0 <= v < 2 ^ 64 -> u64_of (le_bytes 8 v) = v.
Proof. intros Hv. unfold u64_of. rewrite take_ge by by rewrite length_le_bytes. by apply (from_le_field 8 64). Qed.
Definition meta_rows (m : Meta) (rows : gmap string bytes) : gmap string bytes :=
  ins_opt K_ANCHOR_FLOOR (m_anchor_floor m) (<[K_BODY_APPEND := le_bytes 8 (m_body_append_offset m)]> (<[K_SIDE_ROWS := le_bytes 8 (m_side_rows m)]>
  (<[K_INVALID_ROWS := le_bytes 8 (m_invalid_rows m)]> (<[K_INVALID_SEQ := le_bytes 8 (m_invalid_next_seq m)]> (<[K_FULLIDX_ROWS := le_bytes 8 (m_hash_index_full_rows m)]>
  (<[K_BIDX_SEALED := le_bytes 8 (m_bidx_sealed_through m + 1)]> (<[K_IBD_BATCH := le_bytes 8 (m_ibd_batch_blocks m)]> (ins_opt K_ADDRINDEX_FROM (m_addrindex_from m) (ins_opt K_TXINDEX_FROM (m_txindex_from m)
  (<[K_STALE_INDEX := le_bytes 8 (m_stale_index_count m)]> (<[K_INDEX_STATE := [m_index_state m]]> (<[K_FINGERPRINT := m_fingerprint m]> (<[K_ISSUED := le_bytes 16 (m_issued m)]>
  (<[K_UNDO_FLOOR := le_bytes 8 (m_undo_floor m)]> (<[K_PRUNE_FLOOR := le_bytes 8 (m_prune_floor m)]> (<[K_BODY_WM := le_bytes 8 (m_body_watermark m)]> (<[K_HDR_WM := le_bytes 8 (m_hdr_watermark m)]>
  (<[K_TIP := tip_row (m_tip m)]> (<[K_NETWORK := m_network m]> (<[K_SCHEMA := le_bytes 8 (m_schema_version m)]> rows)))))))))))))))))))).
Lemma meta_store_ok (t : Tab string bytes) m : exists t', meta_store t m = Ok t' /\ t_rows t' = meta_rows m (t_rows t).
Proof.
  unfold meta_store, meta_rows. do 11 (lazymatch goal with |- context [put ?t0 ?k ?v] => destruct (put_row_ok t0 k v) as (? & -> & <-) end; cbn [obind]).
  do 2 (lazymatch goal with |- context [put_opt ?t0 ?k ?v] => destruct (put_opt_ok t0 k v) as (? & -> & <-) end; cbn [obind]).
  do 7 (lazymatch goal with |- context [put ?t0 ?k ?v] => destruct (put_row_ok t0 k v) as (? & -> & <-) end; cbn [obind]). apply put_opt_ok.
Qed.

Ltac meta_row := unfold meta_rows; repeat first [rewrite lookup_insert_eq; reflexivity | rewrite lookup_insert_ne by discriminate | rewrite ins_opt_ne by discriminate].
Lemma row_ok {A} (t : Tab string bytes) k (dflt : A) f v : t_rows t !! k = Some v -> row t k dflt f = f v.
Proof. intros Hk. unfold row. by rewrite get_ok, Hk. Qed.
Lemma row_opt_ok {A} (t : Tab string bytes) k (dflt : A) f v : t_rows t !! k = v -> row t k dflt f = match v with Some v => f v | None => Ok dflt end.
Proof. intros Hk. unfold row. by rewrite get_ok, Hk. Qed.
Lemma opt_u64 v : (forall f, v = Some f -> 0 <= f < 2 ^ 64) -> match le_bytes 8 <$> v with Some b => Ok (Some (u64_of b)) | None => Ok None end = @Ok StoreError _ v.
Proof. destruct v as [f|]; intros H; [|done]. cbn [fmap option_fmap option_map]. by rewrite u64_of_le by auto. Qed.
Lemma load_tip_ok tip : Zlen (stp_hash tip) = 32 /\ 0 <= stp_height tip < 2 ^ 64 /\ Zlen (stp_chainwork tip) = 32 -> load_tip (tip_row tip) = Ok tip.
Proof.
  intros (H1 & H2 & H3). destruct tip as [hash height work]. cbn [stp_hash stp_height stp_chainwork] in *. unfold load_tip, fixed, tip_row. cbn [stp_hash stp_height stp_chainwork].
  replace (Zlen _) with 72 by (zlen; lia). cbn [Z.eqb Pos.eqb negb obind]. f_equal. f_equal.
  - by apply slice_app_l'.
  - replace (slice _ 32 40) with (le_bytes 8 height) by (symmetry; slice_field). by apply u64_of_le.
  - slice_field.
Qed.
Lemma fixed_ok k v n : Zlen v = n -> fixed k v n = Ok v.
Proof. intros <-. unfold fixed. by rewrite Z.eqb_refl. Qed.

(** The store's bookkeeping survives a restart. Storing the meta record succeeds and loading it gives back the same record, field by
    field, with the sentinel [-1] of the sealed-through mark; the one proviso is that a field that is unset was never set in the
    same table, because an unset field is not erased. *)
Theorem meta_survives_restart (t : Tab string bytes) m :
  meta_wf m -> (m_txindex_from m = None -> t_rows t !! K_TXINDEX_FROM = None) -> (m_addrindex_from m = None -> t_rows t !! K_ADDRINDEX_FROM = None) ->
  (m_anchor_floor m = None -> t_rows t !! K_ANCHOR_FLOOR = None) ->
  exists t', meta_store t m = Ok t' /\ meta_load t' = Ok (Some m).
Proof.
  intros [Hsc Hnet Htip (Hm1 & Hm2 & Hm3 & Hm4) Hiss Hfp (Hc1 & Hc2 & Hc3 & Hc4 & Hc5) (Hs1 & Hs2 & Hs3) (Hf1 & Hf2 & Hf3)] Htx Had Han.
  destruct (meta_store_ok t m) as (t' & He & Hr). exists t'. split; [done|]. unfold meta_load. rewrite get_ok, Hr.
  replace (meta_rows m (t_rows t) !! K_SCHEMA) with (Some (le_bytes 8 (m_schema_version m))) by (symmetry; meta_row). cbn [obind].
  rewrite (row_ok t' K_NETWORK _ _ (m_network m)) by (rewrite Hr; meta_row). rewrite fixed_ok by done. cbn [obind].
  rewrite (row_ok t' K_TIP _ _ (tip_row (m_tip m))) by (rewrite Hr; meta_row). rewrite load_tip_ok by done. cbn [obind].
  rewrite (row_ok t' K_FINGERPRINT _ _ (m_fingerprint m)) by (rewrite Hr; meta_row). rewrite fixed_ok by done. cbn [obind].
  rewrite (row_ok t' K_ISSUED _ _ (le_bytes 16 (m_issued m))) by (rewrite Hr; meta_row). rewrite fixed_ok by done. cbn [obind]. rewrite (from_le_field 16 128) by done.
  rewrite (row_ok t' K_INDEX_STATE _ _ [m_index_state m]) by (rewrite Hr; meta_row). rewrite fixed_ok by done. cbn [obind]. change (byte_at [m_index_state m] 0) with (m_index_state m).
  rewrite (row_ok t' K_BIDX_SEALED _ _ (le_bytes 8 (m_bidx_sealed_through m + 1))) by (rewrite Hr; meta_row). unfold load_sealed. rewrite fixed_ok by done. cbn [obind]. rewrite u64_of_le by lia.
  destruct (Z.ltb_spec (umax 32 + 1) (m_bidx_sealed_through m + 1)); [change (umax 32) with (2 ^ 32 - 1) in *; lia|]. cbn [obind]. replace (m_bidx_sealed_through m + 1 - 1) with (m_bidx_sealed_through m) by lia.
  rewrite (row_ok t' K_HDR_WM _ _ (le_bytes 8 (m_hdr_watermark m))), (row_ok t' K_BODY_WM _ _ (le_bytes 8 (m_body_watermark m))), (row_ok t' K_PRUNE_FLOOR _ _ (le_bytes 8 (m_prune_floor m))),
    (row_ok t' K_UNDO_FLOOR _ _ (le_bytes 8 (m_undo_floor m))), (row_ok t' K_STALE_INDEX _ _ (le_bytes 8 (m_stale_index_count m))), (row_ok t' K_IBD_BATCH _ _ (le_bytes 8 (m_ibd_batch_blocks m))),
    (row_ok t' K_FULLIDX_ROWS _ _ (le_bytes 8 (m_hash_index_full_rows m))), (row_ok t' K_INVALID_SEQ _ _ (le_bytes 8 (m_invalid_next_seq m))), (row_ok t' K_INVALID_ROWS _ _ (le_bytes 8 (m_invalid_rows m))),
    (row_ok t' K_SIDE_ROWS _ _ (le_bytes 8 (m_side_rows m))), (row_ok t' K_BODY_APPEND _ _ (le_bytes 8 (m_body_append_offset m))) by (rewrite Hr; meta_row).
  rewrite (row_opt_ok t' K_TXINDEX_FROM _ _ (le_bytes 8 <$> m_txindex_from m)) by (rewrite Hr; unfold meta_rows; repeat first [apply ins_opt_eq | rewrite lookup_insert_ne by discriminate | rewrite ins_opt_ne by discriminate]; intros Hno; repeat rewrite lookup_insert_ne by discriminate; auto).
  rewrite (row_opt_ok t' K_ADDRINDEX_FROM _ _ (le_bytes 8 <$> m_addrindex_from m)) by (rewrite Hr; unfold meta_rows; repeat first [apply ins_opt_eq | rewrite lookup_insert_ne by discriminate | rewrite ins_opt_ne by discriminate]; intros Hno; repeat first [rewrite lookup_insert_ne by discriminate | rewrite ins_opt_ne by discriminate]; auto).
  rewrite (row_opt_ok t' K_ANCHOR_FLOOR _ _ (le_bytes 8 <$> m_anchor_floor m)) by (rewrite Hr; unfold meta_rows; apply ins_opt_eq; intros Hno; repeat first [rewrite lookup_insert_ne by discriminate | rewrite ins_opt_ne by discriminate]; auto).
  rewrite !opt_u64, !u64_of_le by (auto || lia). cbn [obind]. rewrite !wrap_small by lia. by destruct m.
Qed.
End Tables.

(** ** An engine that keeps the contract *)
Fixpoint least_row {K V} `{!RedbKey K} (l : list (K * V)) : option (K * V) :=
  match l with
  | [] => None
  | r :: l =>
    match least_row l with
    | Some r' => if key_leb (fst r) (fst r') then Some r else Some r'
    | None => Some r
    end
  end.
Lemma least_row_spec {K V} `{!RedbKey K} (l : list (K * V)) :
  match least_row l with
  | Some r => In r l /\ forall r', In r' l -> key_leb (fst r) (fst r') = true
  | None => l = []
  end.
Proof.
  induction l as [|r l IH]; [done|]. cbn [least_row]. assert (Hrefl : forall k : K, key_leb k k = true) by (intros k; by destruct (key_total k k)). destruct (least_row l) as [r1|].
  - destruct IH as [Hin Hmin]. destruct (key_leb (fst r) (fst r1)) eqn:E.
    + split; [by left|]. intros r' [<-|Hr']; [done|]. eapply key_trans; [exact E|by apply Hmin].
    + split; [by right|]. intros r' [<-|Hr']; [|by apply Hmin]. destruct (key_total (fst r) (fst r1)); [congruence|done].
  - rewrite IH. split; [by left|]. intros r' [<-|[]]. done.
Qed.
#[export] Instance gmap_redb : Redb (@gmap) := {|
  t_rows K V _ _ t := t;
  t_get K V _ _ t k := Ok (t !! k);
  t_insert K V _ _ t k v := Ok (t !! k, <[k := v]> t);
  t_remove K V _ _ t k := Ok (t !! k, delete k t);
  t_first K V _ _ _ t := Ok (least_row (map_to_list t));
  t_iter K V _ _ t := Ok (map_to_list t);
|}.
#[export] Instance gmap_redb_laws : RedbLaws (@gmap).
Proof.
  split; cbn; try done; try congruence.
  - intros K V ? ? t t' k v p [= <- <-]. done.
  - intros K V ? ? t t' k p [= <- <-]. done.
  - intros K V ? ? ? t r [= <-]. pose proof (least_row_spec (map_to_list t)) as Hl. destruct (least_row _) as [[k v]|].
    + destruct Hl as [Hin Hmin]. apply list_elem_of_In, elem_of_map_to_list in Hin. split; [done|]. intros k' [v' Hv']. apply (Hmin (k', v')). by apply list_elem_of_In, elem_of_map_to_list.
    + by apply map_to_list_empty_iff.
  - intros K V ? ? t l [= <-]. done.
Qed.
#[export] Instance gmap_redb_reliable : RedbReliable (@gmap).
Proof. split; cbn; eauto. Qed.

(** ** Witnesses *)
Definition no_rows : Txn (T := @gmap) := MkTxn (T := @gmap) ∅ ∅ ∅ ∅ ∅ ∅ ∅.
Definition sample_meta : Meta := Meta_fresh MAGIC_MAIN 0 8192.
Definition sample_block : BlockToCommit :=
  MkBlockToCommit (replicate 132 1) (replicate 32 2) 0 [1] [MkStateDelta (replicate 20 7) 50 0] [MkUndoRec (replicate 20 7) 0 0 false] 50 (replicate 32 3) None.
Lemma sample_sound : state_sound sample_meta no_rows.
Proof. split; [intros a v Hv; cbn [x_state no_rows t_rows gmap_redb] in Hv; by rewrite lookup_empty in Hv|]. cbn [x_state no_rows t_rows gmap_redb]. by rewrite xor_rows_empty. Qed.
Lemma sample_fits : block_fits ∅ sample_block.
Proof.
  split; cbn [bc_deltas bc_undo bc_issued_delta bc_height sample_block].
  - done.
  - repeat constructor. intros [].
  - constructor; [|constructor]. split; [|done]. unfold acct. by rewrite lookup_empty.
  - constructor; [|constructor]. split; cbn; lia.
  - constructor; [|constructor]. split; [split; [solve_bytes_ok|done]|split; cbn; lia].
  - by vm_compute.
  - lia.
  - lia.
Qed.
Lemma commit_then_rollback_restores_witness :
  exists m' x', apply_block (T := @gmap) ∅ 8 sample_meta no_rows sample_block false false = Ok (m', x') /\
    exists m'' x'', rollback_height m' x' 0 = Ok (m'', x'') /\ t_rows (x_state x'') = ∅ /\ m_fingerprint m'' = replicate 32 0 /\ m_issued m'' = 0.
Proof.
  destruct (commit_then_rollback_restores (T := @gmap) ∅ 8 sample_meta no_rows sample_block false false sample_sound sample_fits) as (m' & x' & H1 & _ & _ & _ & m'' & x'' & H2 & H3); cbn; try lia; try done.
  exists m', x'. split; [exact H1|]. exists m'', x''. split; [exact H2|]. exact H3.
Defined.
Definition sample_hdrs : Files := {[ 0 := replicate 132 1 ++ replicate 132 2 ]}.
Definition sample_indexed : Txn (T := @gmap) := MkTxn (T := @gmap) ∅ ∅ {[ hash_prefix_n (header_hash (replicate 132 1)) 8 := 0 ]} ∅ ∅ ∅ ∅.
Lemma sample_complete : index_complete 8 sample_hdrs 1 0 (t_rows (x_hash_index sample_indexed)) (t_rows (x_hash_full sample_indexed)).
Proof.
  split; [|done|].
  - intros h Hh. replace h with 0 by lia. exists (replicate 132 1). split; [reflexivity|]. left. cbn [x_hash_index sample_indexed t_rows gmap_redb]. by rewrite lookup_singleton_eq.
  - split; [|intros k h Hk; cbn [x_hash_full sample_indexed t_rows gmap_redb] in Hk; by rewrite lookup_empty in Hk]. intros p h Hp. cbn [x_hash_index sample_indexed t_rows gmap_redb] in Hp. apply lookup_singleton_Some in Hp as [_ <-]. lia.
Qed.
Lemma sample_headers_differ : header_hash (replicate 132 1) <> header_hash (replicate 132 2).
Proof. intros H. apply (f_equal (fun l => byte_at l 0)) in H. vm_compute in H. discriminate. Qed.
Lemma hash_index_finds_chain_witness :
  exists r, store_header_by_hash sample_hdrs 8 sample_indexed 1 0 (header_hash (replicate 132 1)) = Ok r /\ r <> None.
Proof.
  destruct (hash_index_finds_chain sample_hdrs 8 sample_meta sample_indexed 1 (header_hash (replicate 132 2)) (replicate 132 2) [(0, header_hash (replicate 132 1))] (-1)
    (header_hash (replicate 132 1)) sample_complete) as ((r & He & Hr) & _); [cbn; lia|lia|reflexivity|reflexivity| | |lia|].
  - intros h raw' Hh Hraw. replace h with 0 in Hraw by lia. assert (Hr0 : header_raw sample_hdrs 0 = Some (replicate 132 1)) by reflexivity. rewrite Hr0 in Hraw. injection Hraw as <-. exact sample_headers_differ.
  - constructor; [|constructor]. cbn [fst snd]. split; [lia|]. intros h raw Hh. lia.
  - exists r. split; [exact He|]. intros ->. apply (Hr 0 (replicate 132 1)); [lia|reflexivity|reflexivity].
Defined.
Lemma invalid_list_bounded_witness :
  exists m' t', mark_invalid_batch (T := @gmap) 1 sample_meta (MkInvalidTabs (T := @gmap) ∅ ∅) [([9], BadPow)] = Ok (m', t') /\ is_invalid t' [9] = Ok true.
Proof.
  destruct (invalid_list_bounded (T := @gmap) 1 sample_meta (MkInvalidTabs (T := @gmap) ∅ ∅) [([9], BadPow)]) as (m' & t' & H1 & _ & _ & H4 & _); [|lia|by vm_compute..|].
  - split; cbn [iv_rows iv_seq t_rows gmap_redb]; try done; try (intros *; rewrite lookup_empty; done).
  - exists m', t'. split; [exact H1|]. apply H4; [by vm_compute|by left|reflexivity].
Defined.
Lemma meta_survives_restart_witness : exists t', meta_store (T := @gmap) ∅ sample_meta = Ok t' /\ meta_load t' = Ok (Some sample_meta).
Proof. apply (meta_survives_restart (T := @gmap) ∅ sample_meta); [|intros _; apply lookup_empty..]. split; cbn; try done; try lia; repeat split; try lia; try done. Defined.
