(* ===== verification/StoreRecover.v ===== *)
(** Opening the store (src/lib/storage/src/recover.rs), the damage it knows of (integrity.rs) and its repair (committer.rs): the header
    segments are cut back to the last height whose headers are all there, link to each other and, when nothing was lost, end at the
    tip of the database; a damaged range of headers is filled only by headers that link up to the intact one above. *)

From Stdlib Require Import ZArith Lia List String.
From stdpp Require Import base list gmap numbers.
From S2P Require Import Prelude Constants Codec Crypto ChainTypes Crc32c StoreCodec StoreFiles StoreFilesProps StoreCrash.
Import ListNotations.
Open Scope Z_scope.

(** ** recover.rs *)
Definition VERIFY_WINDOW : Z := 256.
Definition prev_field (hdr : bytes) : bytes := slice hdr 12 44.

(** The loop of [verify_window]: [inl h] is an early return of [Some h]. *)
Fixpoint window_loop (fs : Files) (tip : StoreTip) (check_tip : bool) (hs : list Z) (prev : option bytes) (tip_at : option Z)
    : Z + (option bytes * option Z) :=
  match hs with
  | [] => inr (prev, tip_at)
  | h :: hs =>
    match read_header_at fs h with
    | None => inl h
    | Some cur =>
      match prev with
      | Some p =>
        if negb (bytes_eqb (prev_field cur) (header_hash p)) then inl h
        else window_loop fs tip check_tip hs (Some cur) (if check_tip && bytes_eqb (prev_field cur) (stp_hash tip) then Some (h - 1) else tip_at)
      | None => window_loop fs tip check_tip hs (Some cur) tip_at
      end
    end
  end.
Definition verify_window (fs : Files) (w : Z) (tip : StoreTip) (check_tip : bool) : outcome StoreError (option Z) :=
  if w =? 0 then Ok None else
  let lo := saturating_sub w VERIFY_WINDOW in
  let prev := if lo =? 0 then None else read_header_at fs (lo - 1) in
  match window_loop fs tip check_tip (zrange lo w) prev None with
  | inl h => Ok (Some h)
  | inr (last, tip_at) =>
    if negb check_tip then Ok None else
    match last with
    | None => Ok None
    | Some last =>
      let segment_tip := header_hash last in
      if bytes_eqb segment_tip (stp_hash tip) then Ok None else
      match tip_at with
      | Some t => Ok (Some (t + 1))
      | None => Err (TipNotInSegments w (Z.min VERIFY_WINDOW w) (stp_hash tip) segment_tip)
      end
    end
  end.
Definition tip_is_at (fs : Files) (h : Z) (tip : StoreTip) : bool :=
  match read_header_at fs h with
  | Some hdr => bytes_eqb (header_hash hdr) (stp_hash tip)
  | None => false
  end.
(** Segments from [lowest] on are unlinked, their bytes counted. *)
Definition scratch_bytes (fs : Files) (lowest : Z) : Z := map_fold (fun s f n => if s <? lowest then n else n + Zlen f) 0 fs.
Definition unlink_scratch (fs : Files) (lowest : Z) : Files := filter (fun sf => fst sf < lowest) fs.
(** One round of the loop: the watermark lowered to what is there ([inl]), or the segments cut to it ([inr]). *)
Definition cut_headers (fs : Files) (w discarded : Z) : (Files * Z * Z) + (Files * Z) :=
  let keep_seg := if w =? 0 then 0 else seg_of (w - 1) in
  let lowest := keep_seg + (if w =? 0 then 0 else 1) in
  let discarded := discarded + scratch_bytes fs lowest in
  let fs := unlink_scratch fs lowest in
  if w =? 0 then inr (fs, discarded) else
  let want := (slot_of (w - 1) + 1) * HEADER_BYTES in
  match fs !! keep_seg with
  | None => inl (fs, seg_first_height keep_seg, discarded)
  | Some f =>
    let have := Zlen f in
    if want <? have then inr (<[keep_seg := take (Z.to_nat want) f]> fs, discarded + (have - want))
    else if have <? want then
      let backed := seg_first_height keep_seg + have / HEADER_BYTES in
      if backed <? w then inl (fs, backed, discarded) else inr (fs, discarded)
    else inr (fs, discarded)
  end.
(** The watermark falls with every round: its first value, and one more, is fuel enough; [Panic] marks fuel that ran out. *)
Fixpoint reconcile_loop (fuel : nat) (fs : Files) (tip : StoreTip) (w0 w discarded : Z) : outcome StoreError (Files * Z * Z) :=
  match fuel with
  | O => Panic
  | S fuel =>
    match cut_headers fs w discarded with
    | inl (fs, w, discarded) => reconcile_loop fuel fs tip w0 w discarded
    | inr (fs, discarded) =>
      let? r := verify_window fs w tip (w =? w0) in
      match r with
      | None => Ok (fs, w, discarded)
      | Some f => if f =? 0 then Ok (fs, 0, discarded) else reconcile_loop fuel fs tip w0 f discarded
      end
    end
  end.
Definition reconcile_headers (fs : Files) (tip : StoreTip) (w0 : Z) : outcome StoreError (Files * Z * Z) :=
  let? w :=
    (if (0 <? w0) && negb (tip_is_at fs (w0 - 1) tip) then
       let? r := verify_window fs w0 tip true in
       Ok (match r with Some f => f | None => w0 end)
     else Ok w0) in
  reconcile_loop (S (Z.to_nat w0)) fs tip w0 w 0.

(** ** integrity.rs: ranges that cannot be served *)
Record DamagedRange := MkDamagedRange {
  dr_kind : SegmentKind;
  dr_segment : Z;
  dr_first_height : Z;
  dr_last_height : Z;
  dr_expected_len : Z;
  dr_actual_len : option Z;
  dr_reason : DamageKind;
}.
Definition dr_contains (d : DamagedRange) (height : Z) : bool := (dr_first_height d <=? height) && (height <=? dr_last_height d).
Definition dr_overlaps (d : DamagedRange) (lo hi : Z) : bool := (dr_first_height d <=? hi) && (lo <=? dr_last_height d).
Definition damage_at (ds : list DamagedRange) (h : Z) : option DamagedRange := List.find (fun d => dr_contains d h) ds.
Definition damage_overlaps (ds : list DamagedRange) (lo hi : Z) : option DamagedRange := List.find (fun d => dr_overlaps d lo hi) ds.
Definition intact_header_floor (ds : list DamagedRange) : Z := fold_right (fun d n => Z.max (dr_last_height d + 1) n) 0 ds.
Definition hdr_expected_len (seg hdr_watermark : Z) : Z :=
  let last := seg_of (hdr_watermark - 1) in
  if seg <? last then HDR_SEG_BYTES else (slot_of (hdr_watermark - 1) + 1) * HEADER_BYTES.

(** ** committer.rs: repair_headers *)
Fixpoint check_links (height : Z) (prev : bytes) (headers : list bytes) : outcome StoreError unit :=
  match headers with
  | [] => Ok tt
  | hdr :: headers =>
    guard! negb (bytes_eqb (prev_field hdr) (header_hash prev)) else LinkageBroken height (header_hash prev) (prev_field hdr) ;;
    check_links (height + 1) hdr headers
  end.
Definition write_headers (f : bytes) (first : Z) (headers : list bytes) : bytes :=
  fold_left (fun f ih => pwrite_all f (hdr_offset (fst ih)) (snd ih)) (zip (zrange first (first + Zlen headers)) headers) f.
Fixpoint read_back (fs : Files) (rows : list (Z * bytes)) : outcome StoreError unit :=
  match rows with
  | [] => Ok tt
  | (h, want) :: rows =>
    let? got := ok_or (header_raw fs h) (BadPlan "repaired header did not read back") in
    guard! negb (bytes_eqb got want) else BadPlan "repaired header read back different" ;;
    read_back fs rows
  end.
Fixpoint remove_range (first last : Z) (ds : list DamagedRange) : list DamagedRange :=
  match ds with
  | [] => []
  | d :: ds => if (dr_first_height d =? first) && (dr_last_height d =? last) then ds else d :: remove_range first last ds
  end.
(** The files and the damage it leaves, from the check of the plan on; the rows of the hash index that it completes afterwards are not part of it. *)
Definition repair_headers (fs : Files) (damage : list DamagedRange) (hdr_watermark first : Z) (headers : list bytes)
    : outcome StoreError (Files * list DamagedRange) :=
  match headers with
  | [] => Err (BadPlan "repair_headers with no headers")
  | first_hdr :: others =>
    let? end_ := add_checked 64 first (Zlen headers) in
    let last := end_ - 1 in
    guard! negb (existsb (fun d => (dr_first_height d =? first) && (dr_last_height d =? last)) damage)
      else BadPlan "repair_headers must cover exactly one damaged range, whole" ;;
    guard! negb (seg_of first =? seg_of last) else BadPlan "a damaged range never spans segments" ;;
    let succ := last + 1 in
    guard! (hdr_watermark <=? succ) || bool_decide (is_Some (damage_at damage succ))
      else BadPlan "repair needs an intact successor: the upper anchor is what pins the run" ;;
    let? succ_hdr := ok_or (header_raw fs succ) (BadPlan "the successor header is not readable") in
    let? _ := check_links (first + 1) first_hdr others in
    let last_hdr := List.last headers first_hdr in
    guard! negb (bytes_eqb (prev_field succ_hdr) (header_hash last_hdr))
      else LinkageBroken succ (header_hash last_hdr) (prev_field succ_hdr) ;;
    let? _ :=
      (if (0 <? first) && negb (bool_decide (is_Some (damage_at damage (first - 1)))) then
         match header_raw fs (first - 1) with
         | Some prev =>
           guard! negb (bytes_eqb (prev_field first_hdr) (header_hash prev)) else LinkageBroken first (header_hash prev) (prev_field first_hdr) ;; Ok tt
         | None => Ok tt
         end
       else Ok tt) in
    let seg := seg_of first in
    let fs := <[seg := write_headers (open_rw_create fs seg) first headers]> fs in
    let? _ := read_back fs (zip (zrange first (first + Zlen headers)) headers) in
    Ok (fs, remove_range first last damage)
  end.

(** ** A window of headers that link *)
Definition window_intact (fs : Files) (w : Z) : Prop :=
  forall h, Z.max 0 (w - VERIFY_WINDOW) <= h < w -> exists cur, read_header_at fs h = Some cur /\
    forall p, 0 < h -> read_header_at fs (h - 1) = Some p -> prev_field cur = header_hash p.

Lemma window_loop_spec fs tip ct n : forall a prev tip_at, match window_loop fs tip ct (zrange a (a + Z.of_nat n)) prev tip_at with
  | inl h => a <= h < a + Z.of_nat n
  | inr (last, t) =>
    (forall h, a <= h < a + Z.of_nat n -> exists cur, read_header_at fs h = Some cur /\
       forall p, (if h =? a then prev else read_header_at fs (h - 1)) = Some p -> prev_field cur = header_hash p) /\
    (last = if (0 <? Z.of_nat n) then read_header_at fs (a + Z.of_nat n - 1) else prev) /\
    (t = tip_at \/ exists h, a <= h < a + Z.of_nat n /\ t = Some (h - 1))
  end.
Proof.
  induction n as [|n IH]; intros a prev tip_at.
  - rewrite zrange_nil by lia. cbn [window_loop]. split; [intros; lia|]. split; [done|by left].
  - rewrite zrange_cons by lia. cbn [window_loop]. destruct (read_header_at fs a) as [cur|] eqn:Ea; [|lia].
    assert (Hgo : forall t0, (forall p, prev = Some p -> prev_field cur = header_hash p) -> (t0 = tip_at \/ t0 = Some (a - 1)) ->
      match window_loop fs tip ct (zrange (a + 1) (a + Z.of_nat (S n))) (Some cur) t0 with
      | inl h => a <= h < a + Z.of_nat (S n)
      | inr (last, t) =>
        (forall h, a <= h < a + Z.of_nat (S n) -> exists cur, read_header_at fs h = Some cur /\
           forall p, (if h =? a then prev else read_header_at fs (h - 1)) = Some p -> prev_field cur = header_hash p) /\
        (last = if (0 <? Z.of_nat (S n)) then read_header_at fs (a + Z.of_nat (S n) - 1) else prev) /\
        (t = tip_at \/ exists h, a <= h < a + Z.of_nat (S n) /\ t = Some (h - 1))
      end).
    { intros t0 Hprev Ht0. specialize (IH (a + 1) (Some cur) t0). replace (a + 1 + Z.of_nat n) with (a + Z.of_nat (S n)) in IH by lia.
      destruct (window_loop _ _ _ _ _ _) as [h|[last t]]; [lia|]. destruct IH as (H1 & H2 & H3). split; [|split].
      - intros h Hh. destruct (Z.eqb_spec h a) as [->|Hne]; [by exists cur|]. destruct (H1 h ltac:(lia)) as (c & Hc & Hl). exists c. split; [done|]. intros p Hp. apply Hl.
        destruct (Z.eqb_spec h (a + 1)) as [->|]; [replace (a + 1 - 1) with a in Hp by lia; by rewrite Ea in Hp|done].
      - rewrite H2. destruct (Z.ltb_spec 0 (Z.of_nat n)), (Z.ltb_spec 0 (Z.of_nat (S n))); try lia; [done|]. replace (a + Z.of_nat (S n) - 1) with a by lia. done.
      - destruct H3 as [->|(h & Hh & ->)]; [|right; exists h; split; [lia|done]]. destruct Ht0 as [->|Ht0]; [by left|right; exists a; split; [lia|done]]. }
    destruct prev as [p|]; [|apply Hgo; [done|by left]]. unfold bytes_eqb. case_bool_decide as Hp; cbn [negb]; [|lia]. apply Hgo; [congruence|]. destruct (ct && _); [by right|by left].
Qed.
Lemma verify_window_spec fs w tip ct : 0 <= w -> match verify_window fs w tip ct with
  | Ok None => window_intact fs w /\ (ct = true -> 0 < w -> exists last, read_header_at fs (w - 1) = Some last /\ header_hash last = stp_hash tip)
  | Ok (Some f) => 0 <= f < w
  | Err _ => True
  | Panic => False
  end.
Proof.
  intros Hw. unfold verify_window. destruct (Z.eqb_spec w 0) as [->|Hne]; [split; [intros h Hh; lia|lia]|]. cbv zeta. set (lo := saturating_sub w VERIFY_WINDOW).
  assert (Hlo : lo = Z.max 0 (w - VERIFY_WINDOW)) by done. assert (0 <= lo < w) by (unfold VERIFY_WINDOW in *; lia).
  set (prev := if lo =? 0 then None else read_header_at fs (lo - 1)). pose proof (window_loop_spec fs tip ct (Z.to_nat (w - lo)) lo prev None) as Hs.
  replace (lo + Z.of_nat (Z.to_nat (w - lo))) with w in Hs by lia. destruct (window_loop _ _ _ _ _ _) as [h|[last t]]; [lia|]. destruct Hs as (H1 & H2 & H3).
  assert (Hint : window_intact fs w).
  { intros h Hh. rewrite <- Hlo in Hh. destruct (H1 h Hh) as (cur & Hc & Hl). exists cur. split; [done|]. intros p Hpos Hp. apply Hl. destruct (Z.eqb_spec h lo) as [->|]; [|done]. unfold prev. destruct (Z.eqb_spec lo 0); [lia|done]. }
  destruct ct; cbn [negb]; [|split; [done|discriminate]]. rewrite Z2Nat.id in H2 by lia. destruct (Z.ltb_spec 0 (w - lo)); [|lia]. destruct (H1 (w - 1) ltac:(lia)) as (cur & Hc & _). rewrite Hc in H2. subst last.
  unfold bytes_eqb. case_bool_decide as Htip; [split; [done|]; intros _ _; by exists cur|]. destruct H3 as [->|(h & Hh & ->)]; [done|lia].
Qed.

(** ** Cutting back *)
Definition same_below (fs fs' : Files) (w : Z) : Prop := forall h, 0 <= h < w -> read_header_at fs' h = read_header_at fs h.
Lemma seg_mono a b : 0 <= a <= b -> b < 2 ^ 44 -> seg_of a <= seg_of b.
Proof. intros Ha Hb. rewrite !seg_div by lia. apply Z.div_le_mono; [done|lia]. Qed.
Lemma unlink_same fs w lowest : 0 < w < 2 ^ 44 -> seg_of (w - 1) < lowest -> same_below fs (unlink_scratch fs lowest) w.
Proof.
  intros Hw Hl h Hh. unfold read_header_at, unlink_scratch. assert (Hs : seg_of h < lowest) by (pose proof (seg_mono h (w - 1) ltac:(lia) ltac:(lia)); lia).
  destruct (fs !! seg_of h) as [f|] eqn:E; [by rewrite (proj2 (map_lookup_filter_Some _ _ _ _) (conj E Hs))|by rewrite (proj2 (map_lookup_filter_None _ _ _)) by (by left)].
Qed.
Lemma read_header_take f h n : hdr_offset h + HEADER_BYTES <= n -> read_header (take (Z.to_nat n) f) h = read_header f h.
Proof.
  intros Hn. unfold read_header. assert (He : pread (take (Z.to_nat n) f) (hdr_offset h) HEADER_BYTES = pread f (hdr_offset h) HEADER_BYTES); [|by rewrite He].
  unfold pread, slice. pose proof (hdr_offset_nonneg h). unfold HEADER_BYTES in *. rewrite skipn_firstn_comm, take_take. f_equal. lia.
Qed.
Lemma cut_same fs fs' w seg f n : fs !! seg = Some f -> fs' = <[seg := take (Z.to_nat n) f]> fs ->
  (forall h, 0 <= h < w -> seg_of h = seg -> hdr_offset h + HEADER_BYTES <= n) -> same_below fs fs' w.
Proof.
  intros Hf -> Hn h Hh. unfold read_header_at. destruct (decide (seg_of h = seg)) as [He|Hne]; [|by rewrite lookup_insert_ne].
  rewrite He, lookup_insert_eq, Hf. apply read_header_take. by apply Hn.
Qed.
Lemma slot_le h w : 0 <= h < w -> w < 2 ^ 44 -> seg_of h = seg_of (w - 1) -> slot_of h <= slot_of (w - 1).
Proof. intros Hh Hw Hs. pose proof (seg_slot h ltac:(lia)). pose proof (seg_slot (w - 1) ltac:(lia)). rewrite Hs in *. lia. Qed.
Lemma cut_headers_spec fs w d : 0 <= w < 2 ^ 44 -> match cut_headers fs w d with
  | inl (fs', w', _) => 0 <= w' < w /\ same_below fs fs' w
  | inr (fs', _) => same_below fs fs' w
  end.
Proof.
  intros Hw. unfold cut_headers. destruct (Z.eqb_spec w 0) as [->|Hne]; [intros h Hh; lia|]. cbv zeta. set (keep := seg_of (w - 1)). pose proof (unlink_same fs w (keep + 1) ltac:(lia) ltac:(unfold keep; lia)) as Hun.
  set (fs1 := unlink_scratch fs (keep + 1)) in *. pose proof (seg_slot (w - 1) ltac:(lia)) as Hsl. fold keep in Hsl. pose proof (slot_bounds (w - 1)) as Hsb.
  assert (Hfirst : 0 <= seg_first_height keep) by (unfold seg_first_height; pose proof (seg_u32 (w - 1)) as Hu; fold keep in Hu; rewrite Z.shiftl_mul_pow2 by done; change (2 ^ SEG_SHIFT) with 4096; lia).
  destruct (fs1 !! keep) as [f|] eqn:Ef; [|split; [lia|done]]. destruct (Z.ltb_spec ((slot_of (w - 1) + 1) * HEADER_BYTES) (Zlen f)).
  - intros h Hh. rewrite <- Hun by done. eapply (cut_same fs1 _ w keep f); [done|reflexivity| |done]. intros k Hk Hks. pose proof (slot_le k w ltac:(lia) ltac:(lia) Hks). unfold hdr_offset, HEADER_BYTES. lia.
  - destruct (Z.ltb_spec (Zlen f) ((slot_of (w - 1) + 1) * HEADER_BYTES)); [|done]. destruct (Z.ltb_spec (seg_first_height keep + Zlen f / HEADER_BYTES) w); [|done]. split; [|done].
    pose proof (Z.div_pos (Zlen f) HEADER_BYTES (Zlen_nonneg f) ltac:(done)). lia.
Qed.
Lemma window_same fs fs' w : same_below fs fs' w -> window_intact fs' w -> window_intact fs w.
Proof.
  intros Hs Hi h Hh. destruct (Hi h Hh) as (cur & Hc & Hl). exists cur. rewrite <- Hs by (unfold VERIFY_WINDOW in *; lia). split; [done|]. intros p Hp Hr. apply Hl; [done|]. rewrite Hs by lia. done.
Qed.
Lemma reconcile_loop_spec fuel : forall fs tip w0 w d, 0 <= w <= w0 -> w0 < 2 ^ 44 -> (Z.to_nat w < fuel)%nat -> match reconcile_loop fuel fs tip w0 w d with
  | Ok (fs', w', _) => 0 <= w' <= w /\ same_below fs fs' w' /\ window_intact fs' w' /\
      (w' = w0 -> 0 < w0 -> exists last, read_header_at fs' (w0 - 1) = Some last /\ header_hash last = stp_hash tip)
  | Err _ => True
  | Panic => False
  end.
Proof.
  induction fuel as [|fuel IH]; intros fs tip w0 w d Hw Hw0 Hf; [lia|]. cbn [reconcile_loop]. pose proof (cut_headers_spec fs w d ltac:(lia)) as Hc. destruct (cut_headers fs w d) as [[[fs1 w1] d1]|[fs1 d1]].
  - destruct Hc as [Hw1 Hs]. specialize (IH fs1 tip w0 w1 d1 ltac:(lia) Hw0 ltac:(lia)). destruct (reconcile_loop fuel fs1 tip w0 w1 d1) as [[[fs' w'] d']| |]; [|done..].
    destruct IH as (H1 & H2 & H3 & H4). split; [lia|]. split; [|done]. intros h Hh. rewrite H2, Hs by lia. done.
  - pose proof (verify_window_spec fs1 w tip (w =? w0) ltac:(lia)) as Hv. destruct (verify_window fs1 w tip (w =? w0)) as [[f|]| |]; cbn [obind]; [|..|done|done].
    + destruct (Z.eqb_spec f 0) as [->|Hne]; [split; [lia|]; split; [intros h Hh; lia|]; split; [intros h Hh; lia|lia]|].
      specialize (IH fs1 tip w0 f d1 ltac:(lia) Hw0 ltac:(lia)). destruct (reconcile_loop fuel fs1 tip w0 f d1) as [[[fs' w'] d']| |]; [|done..].
      destruct IH as (H1 & H2 & H3 & H4). split; [lia|]. split; [|done]. intros h Hh. rewrite H2, Hc by lia. done.
    + destruct Hv as [Hi Ht]. split; [lia|]. split; [done|]. split; [done|]. intros -> Hpos. apply Ht; [apply Z.eqb_refl|done].
Qed.

Definition sample_header (n : Z) (prev : bytes) : bytes := replicate 12 n ++ prev ++ replicate 88 n.

(** ** Repair *)
Fixpoint linked (hs : list bytes) : Prop :=
  match hs with
  | a :: ((b :: _) as rest) => prev_field b = header_hash a /\ linked rest
  | _ => True
  end.
Lemma check_links_linked height prev hs : check_links height prev hs = Ok tt -> linked (prev :: hs).
Proof.
  revert height prev. induction hs as [|h hs IH]; intros height prev Hc; [done|]. cbn [check_links] in Hc. unfold bytes_eqb in Hc. case_bool_decide as Hb; [|done]. cbn [negb] in Hc. split; [done|]. by eapply IH.
Qed.
Lemma linked_snoc hs a b : linked (hs ++ [a; b]) -> linked (hs ++ [a]) /\ prev_field b = header_hash a.
Proof.
  induction hs as [|x hs IH]; cbn [app]; [intros [H _]; split; done|]. destruct hs as [|y hs]; cbn [app] in *; [intros (H1 & H2 & _); done|]. intros [H1 H2]. apply IH in H2 as [H2 H3]. split; [split; done|done].
Qed.
(** Two linked runs of one length whose last headers have one hash are the same run, or show a collision. *)
Lemma linked_unique hs : forall os d, length os = length hs -> linked hs -> linked os -> header_hash (List.last hs d) = header_hash (List.last os d) -> hs = os \/ blake3_collision.
Proof.
  induction hs as [|h hs IH] using rev_ind; intros os d Hlen Hh Ho He; [left; by destruct os|]. destruct os as [|o os] using rev_ind; [rewrite length_app in Hlen; cbn in Hlen; lia|]. clear IHos.
  rewrite !last_last in He. apply hash_inj in He as [->|Hc]; [|by right]. rewrite !length_app in Hlen. cbn [length] in Hlen.
  destruct hs as [|h' hs _] using rev_ind; destruct os as [|o' os _] using rev_ind; rewrite ?length_app in Hlen; cbn [length] in Hlen; try lia; [by left|].
  rewrite <- !app_assoc in Hh, Ho. cbn [app] in Hh, Ho. apply linked_snoc in Hh as [Hh Hp], Ho as [Ho Hp'].
  destruct (IH (os ++ [o']) d) as [Heq|Hc]; [rewrite !length_app; cbn; lia|done|done|rewrite !last_last; congruence|left; by rewrite Heq|by right].
Qed.
Lemma last_any {A} (l : list A) d d' : l <> [] -> List.last l d = List.last l d'.
Proof. intros Hl. destruct l as [|x l _] using rev_ind; [done|]. by rewrite !last_last. Qed.
Lemma read_back_ok fs rows : read_back fs rows = Ok tt -> Forall (fun r => header_raw fs (fst r) = Some (snd r)) rows.
Proof.
  induction rows as [|[h want] rows IH]; intros Hr; [constructor|]. cbn [read_back] in Hr. destruct (header_raw fs h) as [got|] eqn:E; [|done]. cbn [ok_or obind] in Hr. unfold bytes_eqb in Hr.
  case_bool_decide as Hb; [|done]. cbn [negb] in Hr. constructor; [cbn [fst snd]; congruence|by apply IH].
Qed.
Lemma remove_range_sub first last ds d : In d (remove_range first last ds) -> In d ds.
Proof. induction ds as [|e ds IH]; [done|]. cbn [remove_range]. destruct (_ && _); intros Hd; [by right|]. destruct Hd as [<-|Hd]; [by left|right; by apply IH]. Qed.

(** A repair puts back exactly the headers that were lost. When [repair_headers] accepts a run of headers for a damaged range, and
    the chain had a run there that linked up to the intact header above, the accepted run is that run, header for header, unless
    two inputs of the hash function collide; the repaired headers then read back from the files, and no new damage
    is recorded. *)
Theorem repair_restores_lost_headers fs damage wm first headers fs' damage' lost succ :
  repair_headers fs damage wm first headers = Ok (fs', damage') -> length lost = length headers -> linked lost ->
  header_raw fs (first + Zlen headers) = Some succ -> prev_field succ = header_hash (List.last lost []) ->
  (headers = lost \/ blake3_collision) /\
  Forall (fun r => header_raw fs' (fst r) = Some (snd r)) (zip (zrange first (first + Zlen headers)) headers) /\
  (forall d, In d damage' -> In d damage).
Proof.
  intros Hr Hlen Hl Hs Hp. unfold repair_headers in Hr. destruct headers as [|h0 hs]; [done|]. cbv zeta in Hr. set (n := Zlen (h0 :: hs)) in *. unfold add_checked, checked_add, checked, expect in Hr. destruct (fits 64 _); [|done].
  cbn [obind] in Hr. replace (first + n - 1 + 1) with (first + n) in Hr by lia.
  do 3 step_in Hr. rewrite Hs in Hr. cbn [ok_or obind] in Hr. step_in Hr. step_in Hr. step_in Hr. step_in Hr. injection Hr as <- <-.
  match goal with H : check_links _ _ _ = Ok ?u |- _ => destruct u; apply check_links_linked in H as Hlk end.
  match goal with H : read_back _ _ = Ok ?u |- _ => destruct u; apply read_back_ok in H as Hrb end.
  match goal with H : negb (bytes_eqb (prev_field succ) _) = false |- _ => apply negb_false_iff, bool_decide_eq_true in H as Hlast end.
  split; [|split; [exact Hrb|intros d; apply remove_range_sub]]. apply (linked_unique (h0 :: hs) lost []); [done|done|done|].
  rewrite <- Hp, Hlast. by rewrite (last_any (h0 :: hs) [] h0).
Qed.
Lemma repair_restores_lost_headers_witness :
  let lost := sample_header 1 (replicate 32 0) in let succ := sample_header 2 (header_hash lost) in
  let fs : Files := {[ 0 := replicate 132 0 ++ succ ]} in let hole := MkDamagedRange SegHeader 0 0 0 132 None DShort in
  exists fs' ds, repair_headers fs [hole] 2 0 [lost] = Ok (fs', ds) /\ header_raw fs' 0 = Some lost.
Proof.
  cbv zeta. set (lost := sample_header 1 _). set (succ := sample_header 2 _). set (fs := {[ 0 := _ ]} : Files). set (hole := MkDamagedRange _ _ _ _ _ _ _).
  assert (He : exists fs' ds, repair_headers fs [hole] 2 0 [lost] = Ok (fs', ds)) by (do 2 eexists; vm_compute; reflexivity). destruct He as (fs' & ds & He). exists fs', ds. split; [exact He|].
  destruct (repair_restores_lost_headers fs [hole] 2 0 [lost] fs' ds [lost] succ He) as (_ & Hr & _); [reflexivity|done|by vm_compute|by vm_compute|].
  inversion Hr as [|? ? Hx]; subst. exact Hx.
Defined.
