(* ===== verification/Lru.v ===== *)
(** The bounded table of recently used entries that the mining server keeps of addresses and peers (src/lib/stratum/src/abuse.rs, [Lru]): a
    doubly linked list threaded through a vector by 32-bit indices, with a map from keys to indices, refined to the list of its
    rows, the most recent first. An index outside the vector is a panic. A reference into the table is the index it points at, read by [lru_val] and written
    by [lru_set]. *)

From Stdlib Require Import ZArith Lia List.
From stdpp Require Import base list gmap numbers.
From S2P Require Import Prelude.
Import ListNotations.
Open Scope Z_scope.

Definition NIL : Z := umax 32.
Section Lru.
Context {K V : Type} `{Countable K}.

Record LruEntry := MkLruEntry { le_key : K; le_val : V; le_prev : Z; le_next : Z }.
Record Lru := MkLru { lru_index : gmap K Z; lru_entries : list LruEntry; lru_head : Z; lru_tail : Z; lru_cap : Z }.
Definition Lru_new (cap : Z) : Lru := MkLru ∅ [] NIL NIL (Z.max cap 1).
Definition lru_len (l : Lru) : Z := Z.of_nat (size (lru_index l)).

Definition set_prev (e : LruEntry) (p : Z) : LruEntry := MkLruEntry (le_key e) (le_val e) p (le_next e).
Definition set_next (e : LruEntry) (n : Z) : LruEntry := MkLruEntry (le_key e) (le_val e) (le_prev e) n.
Definition set_row (k : K) (v : V) (e : LruEntry) : LruEntry := MkLruEntry k v (le_prev e) (le_next e).
(** [&self.entries[i]] and an assignment to a field of it. *)
Definition at_entry (es : list LruEntry) (i : Z) : outcome Empty_set LruEntry := expect (zlookup es i).
Definition modify (es : list LruEntry) (i : Z) (f : LruEntry -> LruEntry) : outcome Empty_set (list LruEntry) :=
  let? e := at_entry es i in Ok (zinsert es i (f e)).

Definition unlink (l : Lru) (i : Z) : outcome Empty_set Lru :=
  let? e := at_entry (lru_entries l) i in
  let p := le_prev e in
  let n := le_next e in
  let? (es, head) := (if negb (p =? NIL) then let? es := modify (lru_entries l) p (fun e => set_next e n) in Ok (es, lru_head l) else Ok (lru_entries l, n)) in
  let? (es, tail) := (if negb (n =? NIL) then let? es := modify es n (fun e => set_prev e p) in Ok (es, lru_tail l) else Ok (es, p)) in
  Ok (MkLru (lru_index l) es head tail (lru_cap l)).
Definition push_front (l : Lru) (i : Z) : outcome Empty_set Lru :=
  let? es := modify (lru_entries l) i (fun e => set_prev e NIL) in
  let? es := modify es i (fun e => set_next e (lru_head l)) in
  let? es := (if negb (lru_head l =? NIL) then modify es (lru_head l) (fun e => set_prev e i) else Ok es) in
  Ok (MkLru (lru_index l) es i (if lru_tail l =? NIL then i else lru_tail l) (lru_cap l)).
Definition get_mut (l : Lru) (k : K) : outcome Empty_set (option Z * Lru) :=
  match lru_index l !! k with
  | None => Ok (None, l)
  | Some i =>
    let? l := unlink l i in
    let? l := push_front l i in
    let? _ := at_entry (lru_entries l) i in
    Ok (Some i, l)
  end.
Definition with_entries (l : Lru) (es : list LruEntry) : Lru := MkLru (lru_index l) es (lru_head l) (lru_tail l) (lru_cap l).
Definition with_index (l : Lru) (ix : gmap K Z) : Lru := MkLru ix (lru_entries l) (lru_head l) (lru_tail l) (lru_cap l).
(** The row of [victim] is reused for [k]. *)
Definition replace_row (l : Lru) (victim : Z) (k : K) (v : V) : outcome Empty_set Lru :=
  let? old := at_entry (lru_entries l) victim in
  let l := with_index l (delete (le_key old) (lru_index l)) in
  let? l := unlink l victim in
  let? es := modify (lru_entries l) victim (set_row k v) in
  let? l := push_front (with_entries l es) victim in
  Ok (with_index l (<[k := victim]> (lru_index l))).
Definition push_row (l : Lru) (k : K) (v : V) : outcome Empty_set Lru :=
  let i := wrap 32 (Zlen (lru_entries l)) in
  let? l := push_front (with_entries l (lru_entries l ++ [MkLruEntry k v NIL NIL])) i in
  Ok (with_index l (<[k := i]> (lru_index l))).
Definition lru_put (l : Lru) (k : K) (v : V) : outcome Empty_set Lru :=
  match lru_index l !! k with
  | Some i =>
    let? es := modify (lru_entries l) i (fun e => set_row (le_key e) v e) in
    let? l := unlink (with_entries l es) i in
    push_front l i
  | None =>
    if (lru_cap l <=? lru_len l) && negb (lru_tail l =? NIL) then replace_row l (lru_tail l) k v
    else push_row l k v
  end.
Definition entry_or_default (l : Lru) (k : K) (dflt : V) : outcome Empty_set (Z * Lru) :=
  let? l := (match lru_index l !! k with Some _ => Ok l | None => lru_put l k dflt end) in
  let? (r, l) := get_mut l k in
  let? i := expect r in
  Ok (i, l).
(** The scan from the tail for a row that may go; the list has no more rows than the vector, so its length is fuel enough. *)
Fixpoint find_victim (fuel : nat) (es : list LruEntry) (evictable : V -> bool) (victim : Z) : outcome Empty_set Z :=
  match fuel with
  | O => Panic
  | S fuel =>
    if victim =? NIL then Ok NIL else
    let? e := at_entry es victim in
    if evictable (le_val e) then Ok victim else find_victim fuel es evictable (le_prev e)
  end.
Definition entry_or_default_protected (l : Lru) (k : K) (dflt : V) (evictable : V -> bool) : outcome Empty_set (option Z * Lru) :=
  match lru_index l !! k with
  | Some _ => get_mut l k
  | None =>
    if lru_len l <? lru_cap l then
      let? l := lru_put l k dflt in
      get_mut l k
    else
      let? victim := find_victim (S (length (lru_entries l))) (lru_entries l) evictable (lru_tail l) in
      if victim =? NIL then Ok (None, l) else
      let? l := replace_row l victim k dflt in
      Ok (Some victim, l)
  end.
Definition lru_val (l : Lru) (i : Z) : outcome Empty_set V := let? e := at_entry (lru_entries l) i in Ok (le_val e).
Definition lru_set (l : Lru) (i : Z) (v : V) : outcome Empty_set Lru :=
  let? es := modify (lru_entries l) i (fun e => set_row (le_key e) v e) in Ok (with_entries l es).

(** ** The linked list *)
(** [segment es p ids n]: the entries [ids], in order, are linked to each other, the first one back to [p] and the last one on to [n]. *)
Fixpoint segment (es : list LruEntry) (p : Z) (ids : list Z) (n : Z) : Prop :=
  match ids with
  | [] => True
  | i :: ids => (exists e, zlookup es i = Some e /\ le_prev e = p /\ le_next e = List.hd n ids) /\ segment es i ids n
  end.
Lemma segment_app es ids js : forall p n, segment es p (ids ++ js) n <-> segment es p ids (List.hd n js) /\ segment es (List.last ids p) js n.
Proof.
  induction ids as [|i ids IH]; intros p n; cbn [app segment]; [cbn; tauto|]. rewrite IH. replace (List.last (i :: ids) p) with (List.last ids i) by (destruct ids as [|? ? _] using rev_ind; [done|by rewrite app_comm_cons, !last_last]).
  replace (List.hd n (ids ++ js)) with (List.hd (List.hd n js) ids) by (by destruct ids). tauto.
Qed.
Lemma segment_frame es es' ids : forall p n, (forall i, In i ids -> zlookup es' i = zlookup es i) -> segment es p ids n -> segment es' p ids n.
Proof. induction ids as [|i ids IH]; intros p n Hf Hs; [done|]. destruct Hs as [He Hs]. split; [by rewrite Hf by (by left)|]. apply IH; [intros j Hj; apply Hf; by right|done]. Qed.
Lemma last_snoc {A} (l : list A) x d : List.last (l ++ [x]) d = x.
Proof. apply last_last. Qed.

(** A write of the links of an entry keeps the rows. *)
Definition row_at (es : list LruEntry) (i : Z) : option (K * V) := (fun e => (le_key e, le_val e)) <$> zlookup es i.
Definition same_rows (es es' : list LruEntry) : Prop := Zlen es' = Zlen es /\ forall i, row_at es' i = row_at es i.
Lemma same_rows_refl es : same_rows es es.
Proof. done. Qed.
Lemma same_rows_trans a b c : same_rows a b -> same_rows b c -> same_rows a c.
Proof. intros [H1 H2] [H3 H4]. split; [congruence|]. intros i. by rewrite H4. Qed.
Lemma modify_ok es i e f : zlookup es i = Some e -> modify es i f = Ok (zinsert es i (f e)).
Proof. intros He. unfold modify, at_entry. by rewrite He. Qed.
Lemma link_same_rows es i e e' : zlookup es i = Some e -> le_key e' = le_key e -> le_val e' = le_val e -> same_rows es (zinsert es i e').
Proof.
  intros He Hk Hv. split; [apply Zlen_zinsert|]. intros j. unfold row_at. destruct (Z.eq_dec i j) as [<-|Hne]; [|by rewrite zlookup_zinsert_ne]. rewrite (zlookup_zinsert_eq _ _ _ e) by done. rewrite He. cbn. by rewrite Hk, Hv.
Qed.
Lemma segment_entry es ids : forall p n i, segment es p ids n -> In i ids -> exists e, zlookup es i = Some e.
Proof. induction ids as [|j ids IH]; intros p n i Hs Hi; [done|]. destruct Hs as [(e & He & _) Hs]. destruct Hi as [<-|Hi]; [by exists e|by eapply IH]. Qed.
(** Relinking the end of a segment, and its start. *)
Lemma relink_last es ids j p n n' : segment es p (ids ++ [j]) n -> NoDup (ids ++ [j]) ->
  exists e, zlookup es j = Some e /\ segment (zinsert es j (set_next e n')) p (ids ++ [j]) n'.
Proof.
  intros Hs Hn. apply segment_app in Hs as [Hs [(e & He & Hp & Hnx) _]]. cbn [List.hd] in *. exists e. split; [done|]. apply segment_app. cbn [List.hd]. split.
  - eapply segment_frame; [|exact Hs]. intros i Hi. apply zlookup_zinsert_ne. intros ->. apply list.NoDup_app in Hn as (_ & Hd & _). apply (Hd i); [by apply list_elem_of_In|by left].
  - split; [|done]. exists (set_next e n'). split; [by apply (zlookup_zinsert_eq _ _ _ e)|done].
Qed.
Lemma relink_first es ids j p p' n : segment es p (j :: ids) n -> NoDup (j :: ids) ->
  exists e, zlookup es j = Some e /\ segment (zinsert es j (set_prev e p')) p' (j :: ids) n.
Proof.
  intros [(e & He & Hp & Hnx) Hs] Hn. exists e. split; [done|]. split; [exists (set_prev e p'); split; [by apply (zlookup_zinsert_eq _ _ _ e)|done]|].
  eapply segment_frame; [|exact Hs]. intros i Hi. apply zlookup_zinsert_ne. intros ->. apply list.NoDup_cons in Hn as [Hn _]. by apply Hn, list_elem_of_In.
Qed.
Definition linked (l : Lru) (ids : list Z) : Prop :=
  NoDup ids /\ Forall (fun i => 0 <= i < NIL) ids /\ segment (lru_entries l) NIL ids NIL /\ lru_head l = List.hd NIL ids /\ lru_tail l = List.last ids NIL.
Lemma linked_entry l ids i : linked l ids -> In i ids -> exists e, zlookup (lru_entries l) i = Some e.
Proof. intros (_ & _ & Hs & _) Hi. by eapply segment_entry. Qed.
Lemma not_nil i : 0 <= i < NIL -> (i =? NIL) = false.
Proof. intros Hi. apply Z.eqb_neq. lia. Qed.
Lemma hd_app_ne {A} (a b : list A) d : List.hd d (a ++ b) = List.hd (List.hd d b) a.
Proof. by destruct a. Qed.
Lemma last_app_ne {A} (a b : list A) d : List.last (a ++ b) d = List.last b (List.last a d).
Proof. destruct b as [|x b _] using rev_ind; [by rewrite app_nil_r|]. by rewrite app_assoc, !last_last. Qed.
Definition quiet (l l' : Lru) : Prop := same_rows (lru_entries l) (lru_entries l') /\ lru_index l' = lru_index l /\ lru_cap l' = lru_cap l.
Lemma lru_quiet_trans a b c : quiet a b -> quiet b c -> quiet a c.
Proof. intros (H1 & H2 & H3) (H4 & H5 & H6). split; [by eapply same_rows_trans|]. split; congruence. Qed.

Lemma unlink_ok l a i b : linked l (a ++ i :: b) -> exists l', unlink l i = Ok l' /\ linked l' (a ++ b) /\ quiet l l'.
Proof.
  intros (Hn & Hr & Hs & Hh & Ht). pose proof Hs as Hs0. apply segment_app in Hs as [Hsa [(e & He & Hp & Hnx) Hsb]]. cbn [List.hd] in Hsa. unfold unlink, at_entry. rewrite He. cbn [expect obind]. rewrite Hp, Hnx.
  apply list.NoDup_app in Hn as (Hna & Hd & Hnb). apply list.NoDup_cons in Hnb as [Hib Hnb]. apply Forall_app in Hr as [Hra Hrb]. apply list.Forall_cons in Hrb as [Hri Hrb].
  assert (Hab : forall x, In x a -> ~ In x b) by (intros x Hx Hb; apply (Hd x); [by apply list_elem_of_In|right; by apply list_elem_of_In]).
  assert (H1 : exists es, (if negb (List.last a NIL =? NIL) then let? es := modify (lru_entries l) (List.last a NIL) (fun e => set_next e (List.hd NIL b)) in Ok (es, lru_head l) else Ok (lru_entries l, List.hd NIL b))
      = Ok (es, List.hd NIL (a ++ b)) /\ segment es NIL a (List.hd NIL b) /\ segment es i b NIL /\ same_rows (lru_entries l) es).
  { destruct a as [|j a _] using rev_ind; [cbn; exists (lru_entries l); done|]. rewrite last_snoc. apply Forall_app in Hra as [_ Hj]. apply list.Forall_cons in Hj as [Hj _]. rewrite not_nil by done. cbn [negb].
    destruct (relink_last _ _ _ _ _ (List.hd NIL b) Hsa Hna) as (ej & Hej & Hs'). rewrite (modify_ok _ _ ej) by done. cbn [obind]. eexists. split; [f_equal; f_equal; rewrite Hh; destruct a; done|]. split; [done|]. split.
    - eapply segment_frame; [|exact Hsb]. intros x Hx. apply zlookup_zinsert_ne. intros ->. apply (Hab x); [apply in_or_app; right; by left|done].
    - by apply (link_same_rows _ _ ej). }
  destruct H1 as (es & -> & Hsa' & Hsb' & Hrows). cbn [obind].
  assert (H2 : exists es', (if negb (List.hd NIL b =? NIL) then let? es := modify es (List.hd NIL b) (fun e => set_prev e (List.last a NIL)) in Ok (es, lru_tail l) else Ok (es, List.last a NIL))
      = Ok (es', List.last (a ++ b) NIL) /\ segment es' NIL a (List.hd NIL b) /\ segment es' (List.last a NIL) b NIL /\ same_rows es es').
  { destruct b as [|j b]; [cbn; rewrite app_nil_r; exists es; done|]. cbn [List.hd] in *. apply list.Forall_cons in Hrb as [Hj _]. rewrite not_nil by done. cbn [negb]. destruct (relink_first _ _ _ _ (List.last a NIL) _ Hsb' Hnb) as (ej & Hej & Hs').
    rewrite (modify_ok _ _ ej) by done. cbn [obind]. eexists. split; [f_equal; f_equal; rewrite Ht, !last_app_ne; destruct b as [|? ? _] using rev_ind; [done|by rewrite !app_comm_cons, !last_last]|]. split; [|split; [done|by apply (link_same_rows _ _ ej)]].
    eapply segment_frame; [|exact Hsa']. intros x Hx. apply zlookup_zinsert_ne. intros ->. apply (Hab x Hx). by left. }
  destruct H2 as (es' & -> & Hsa2 & Hsb2 & Hrows'). cbn [obind]. eexists. split; [done|]. split; [|split; [by eapply same_rows_trans|done]]. split; [|split; [|split; [|done]]].
  - apply list.NoDup_app. split; [done|]. split; [|done]. intros x Hx Hb. apply (Hab x); by apply list_elem_of_In.
  - by apply Forall_app.
  - by apply segment_app.
Qed.
Lemma push_front_ok l i ids e : linked l ids -> 0 <= i < NIL -> zlookup (lru_entries l) i = Some e -> ~ In i ids ->
  exists l', push_front l i = Ok l' /\ linked l' (i :: ids) /\ quiet l l'.
Proof.
  intros (Hn & Hr & Hs & Hh & Ht) Hi He Hni. unfold push_front. rewrite (modify_ok _ _ e) by done. cbn [obind]. rewrite (modify_ok _ _ (set_prev e NIL)) by (by apply (zlookup_zinsert_eq _ _ _ e)). cbn [obind].
  set (es := zinsert (zinsert (lru_entries l) i (set_prev e NIL)) i (set_next (set_prev e NIL) (lru_head l))).
  assert (Hei : zlookup es i = Some (set_next (set_prev e NIL) (lru_head l))) by (apply (zlookup_zinsert_eq _ _ _ (set_prev e NIL)); by apply (zlookup_zinsert_eq _ _ _ e)).
  assert (Hrows : same_rows (lru_entries l) es) by (apply (same_rows_trans _ (zinsert (lru_entries l) i (set_prev e NIL))); [by apply (link_same_rows _ _ e)|apply (link_same_rows _ _ (set_prev e NIL)); [by apply (zlookup_zinsert_eq _ _ _ e)|done..]]).
  assert (Hse : segment es NIL ids NIL) by (eapply segment_frame; [|exact Hs]; intros x Hx; unfold es; rewrite !zlookup_zinsert_ne; congruence).
  assert (H1 : exists es', (if negb (lru_head l =? NIL) then modify es (lru_head l) (fun e => set_prev e i) else Ok es) = Ok es' /\ segment es' i ids NIL /\ zlookup es' i = zlookup es i /\ same_rows es es').
  { rewrite Hh. destruct ids as [|j ids]; [cbn; by exists es|]. cbn [List.hd]. apply list.Forall_cons in Hr as [Hj _]. rewrite not_nil by done. cbn [negb]. destruct (relink_first _ _ _ _ i _ Hse Hn) as (ej & Hej & Hs'). rewrite (modify_ok _ _ ej) by done.
    eexists. split; [done|]. split; [done|]. split; [apply zlookup_zinsert_ne; intros ->; apply Hni; by left|by apply (link_same_rows _ _ ej)]. }
  destruct H1 as (es' & -> & Hs' & Hi' & Hrows'). cbn [obind]. eexists. split; [done|]. split; [|split; [by eapply same_rows_trans|done]]. split; [|split; [|split; [|split; [done|]]]].
  - apply list.NoDup_cons. split; [by rewrite list_elem_of_In|done].
  - by constructor.
  - split; [|done]. exists (set_next (set_prev e NIL) (lru_head l)). cbn [lru_entries]. rewrite Hi'. split; [exact Hei|]. split; [done|]. by rewrite <- Hh.
  - cbn [lru_tail]. rewrite Ht. destruct ids as [|j ids _] using rev_ind; [done|]. rewrite last_last. apply Forall_app in Hr as [_ Hj]. apply list.Forall_cons in Hj as [Hj _]. rewrite not_nil by done. by rewrite app_comm_cons, last_last.
Qed.

(** ** The table refines a list of rows *)
Definition lru_holds (l : Lru) (kvs : list (K * V)) : Prop :=
  exists ids, linked l ids /\ (forall i, In i ids <-> 0 <= i < Zlen (lru_entries l)) /\ Forall2 (fun i kv => row_at (lru_entries l) i = Some kv) ids kvs /\
    (forall k i, lru_index l !! k = Some i <-> In i ids /\ exists v, row_at (lru_entries l) i = Some (k, v)) /\ Zlen ids <= lru_cap l /\ 1 <= lru_cap l < NIL.
Fixpoint spec_find (k : K) (kvs : list (K * V)) : option V :=
  match kvs with
  | [] => None
  | (k', v) :: kvs => if decide (k' = k) then Some v else spec_find k kvs
  end.
Definition spec_remove (k : K) (kvs : list (K * V)) : list (K * V) := filter (fun kv => fst kv <> k) kvs.
Definition spec_put (cap : Z) (k : K) (v : V) (kvs : list (K * V)) : list (K * V) :=
  (k, v) :: match spec_find k kvs with
            | Some _ => spec_remove k kvs
            | None => if cap <=? Zlen kvs then removelast kvs else kvs
            end.
(** The list without the last row that may go. *)
Fixpoint spec_evict (evictable : V -> bool) (kvs : list (K * V)) : option (list (K * V)) :=
  match kvs with
  | [] => None
  | kv :: kvs =>
    match spec_evict evictable kvs with
    | Some kvs' => Some (kv :: kvs')
    | None => if evictable (snd kv) then Some kvs else None
    end
  end.
Definition spec_protected (cap : Z) (k : K) (dflt : V) (evictable : V -> bool) (kvs : list (K * V)) : option (V * list (K * V)) :=
  match spec_find k kvs with
  | Some v => Some (v, spec_remove k kvs)
  | None => if Zlen kvs <? cap then Some (dflt, kvs) else (fun kvs' => (dflt, kvs')) <$> spec_evict evictable kvs
  end.

Lemma Lru_new_holds cap : cap < NIL -> lru_holds (Lru_new cap) [].
Proof.
  intros Hc. exists []. split; [|split; [|split; [constructor|split; [|split]]]].
  - split; [constructor|]. split; [constructor|done].
  - intros i. cbn. change (Zlen (@nil LruEntry)) with 0. split; [done|lia].
  - intros k i. cbn. rewrite lookup_empty. split; [done|by intros [[] _]].
  - cbn. change (Zlen (@nil Z)) with 0. lia.
  - cbn. unfold NIL, umax in *. lia.
Qed.
Lemma row_entry es i k v : row_at es i = Some (k, v) -> exists e, zlookup es i = Some e /\ le_key e = k /\ le_val e = v.
Proof. unfold row_at. destruct (zlookup es i) as [e|]; [|done]. cbn. intros [= <- <-]. by exists e. Qed.
Lemma entry_row es i e : zlookup es i = Some e -> row_at es i = Some (le_key e, le_val e).
Proof. unfold row_at. by intros ->. Qed.
(** The index has as many rows as the list. *)
Lemma lru_len_holds l kvs : lru_holds l kvs -> lru_len l = Zlen kvs.
Proof.
  intros (ids & (Hn & _) & _ & Hrows & Hix & _).
  assert (Hp : Permutation (snd <$> map_to_list (lru_index l)) ids).
  { apply NoDup_Permutation; [|done|].
    - apply NoDup_fmap_2_strong; [|apply NoDup_map_to_list]. intros [k1 i1] [k2 i2] H1 H2 Heq. cbn in Heq. subst i2. apply elem_of_map_to_list, Hix in H1 as [_ [v1 H1]]. apply elem_of_map_to_list, Hix in H2 as [_ [v2 H2]]. rewrite H1 in H2. by injection H2 as -> _.
    - intros i. rewrite list_elem_of_fmap. split.
      + intros ([k j] & -> & Hkj). cbn. apply elem_of_map_to_list, Hix in Hkj as [Hin _]. by apply list_elem_of_In.
      + intros Hi. apply list_elem_of_In in Hi as Hin. apply list_elem_of_lookup in Hi as [n Hi]. destruct (Forall2_lookup_l _ _ _ _ _ Hrows Hi) as ([k v] & _ & Hr). exists (k, i). split; [done|]. apply elem_of_map_to_list, Hix. split; [done|by exists v]. }
  apply Permutation_length in Hp. rewrite length_fmap, length_map_to_list in Hp. unfold lru_len, Zlen. rewrite Hp. by rewrite (list.Forall2_length _ _ _ Hrows).
Qed.

(** Everything but the links. *)
Definition filled (l : Lru) (ids : list Z) : Prop :=
  (forall i, In i ids <-> 0 <= i < Zlen (lru_entries l)) /\
  (forall k i, lru_index l !! k = Some i <-> In i ids /\ exists v, row_at (lru_entries l) i = Some (k, v)) /\ Zlen ids <= lru_cap l /\ 1 <= lru_cap l < NIL.
Abbreviation rows_of l ids kvs := (Forall2 (fun i kv => row_at (lru_entries l) i = Some kv) ids kvs).
Lemma holds_iff l kvs : lru_holds l kvs <-> exists ids, linked l ids /\ filled l ids /\ rows_of l ids kvs.
Proof. unfold lru_holds, filled. split; intros (ids & ?); exists ids; tauto. Qed.
Lemma filled_perm l ids ids' : Permutation ids ids' -> filled l ids -> filled l ids'.
Proof.
  intros Hp (H1 & H2 & H3). assert (Hin : forall i, In i ids <-> In i ids') by (intros i; split; apply Permutation_in; [done|by symmetry]). split; [intros i; rewrite <- Hin; apply H1|]. split; [intros k i; rewrite <- Hin; apply H2|]. unfold Zlen in *. by rewrite <- (Permutation_length Hp).
Qed.
Lemma filled_quiet l l' ids : quiet l l' -> filled l ids -> filled l' ids.
Proof.
  intros ((Hl & Hr) & Hi & Hc) (H1 & H2 & H3). split; [intros i; by rewrite Hl|]. rewrite Hi, Hc. split; [|done]. intros k i. rewrite H2. by setoid_rewrite Hr.
Qed.
Lemma rows_quiet l l' ids kvs : quiet l l' -> rows_of l ids kvs -> rows_of l' ids kvs.
Proof. intros ((_ & Hr) & _). apply Forall2_impl. intros i kv. by rewrite Hr. Qed.
Lemma find_split k kvs v : spec_find k kvs = Some v -> exists a b, kvs = a ++ (k, v) :: b.
Proof.
  induction kvs as [|[k' w] kvs IH]; [done|]. cbn [spec_find]. destruct (decide (k' = k)) as [->|]; [intros [= ->]; by exists [], kvs|]. intros Hf. destruct (IH Hf) as (a & b & ->). by exists ((k', w) :: a), b.
Qed.
Lemma find_none k kvs : spec_find k kvs = None -> forall v, ~ In (k, v) kvs.
Proof. induction kvs as [|[k' w] kvs IH]; intros Hf v; [intros []|]. cbn [spec_find] in Hf. destruct (decide (k' = k)); [done|]. intros [[= -> ->]|Hin]; [done|by eapply IH]. Qed.
Lemma rows_in l ids kvs i kv : rows_of l ids kvs -> In i ids -> row_at (lru_entries l) i = Some kv -> In kv kvs.
Proof. induction 1 as [|j kv' ids kvs Hr Hrows IH]; [done|]. intros [<-|Hi] He; [left; congruence|right; by apply IH]. Qed.
Lemma rows_in_l l ids kvs kv : rows_of l ids kvs -> In kv kvs -> exists i, In i ids /\ row_at (lru_entries l) i = Some kv.
Proof. induction 1 as [|j kv' ids kvs Hr Hrows IH]; [done|]. intros [<-|Hi]; [exists j; split; [by left|done]|]. destruct (IH Hi) as (i & Hin & He). exists i. split; [by right|done]. Qed.
Lemma index_find l ids kvs k : filled l ids -> rows_of l ids kvs -> spec_find k kvs = None -> lru_index l !! k = None.
Proof.
  intros (_ & Hix & _) Hrows Hf. destruct (lru_index l !! k) as [i|] eqn:E; [|done]. apply Hix in E as [Hi [v Hv]]. exfalso. eapply find_none; [exact Hf|]. by eapply rows_in.
Qed.
Lemma remove_other k kvs : (forall v, ~ In (k, v) kvs) -> spec_remove k kvs = kvs.
Proof.
  intros Hn. induction kvs as [|[k' w] kvs IH]; [done|]. unfold spec_remove in *. rewrite filter_cons. rewrite decide_True by (cbn; intros ->; apply (Hn w); by left). f_equal. apply IH. intros v Hv. apply (Hn v). by right.
Qed.
(** A row that is in the table: its place in the list, its slot, and the rest. *)
Lemma holds_split l ids kvs k v : linked l ids -> filled l ids -> rows_of l ids kvs -> spec_find k kvs = Some v ->
  exists a b i ia ib, kvs = a ++ (k, v) :: b /\ ids = ia ++ i :: ib /\ lru_index l !! k = Some i /\ row_at (lru_entries l) i = Some (k, v) /\ rows_of l ia a /\ rows_of l ib b /\ spec_remove k kvs = a ++ b.
Proof.
  intros (Hn & _) (_ & Hix & _) Hrows Hf. destruct (find_split k kvs v Hf) as (a & b & ->). apply Forall2_app_inv_r in Hrows as (ia & ib' & Ha & Hb & ->). inversion Hb as [|i ? ib ? Hi Hb' E1 E2]; subst ib'.
  assert (Hki : lru_index l !! k = Some i) by (apply Hix; split; [apply in_or_app; right; by left|by exists v]). exists a, b, i, ia, ib. repeat (split; [done|]). unfold spec_remove. rewrite list.filter_app, list.filter_cons_False by (cbn; tauto).
  assert (Hu : forall j, In j (ia ++ i :: ib) -> forall w, row_at (lru_entries l) j = Some (k, w) -> j = i) by (intros j Hj w Hw; assert (lru_index l !! k = Some j) by (apply Hix; split; [done|by exists w]); congruence).
  apply list.NoDup_app in Hn as (_ & Hd & Hn). apply list.NoDup_cons in Hn as [Hni _]. f_equal.
  - apply remove_other. intros w Hw. destruct (rows_in_l _ _ _ _ Ha Hw) as (j & Hj & Hjr). apply (Hd j); [by apply list_elem_of_In|]. rewrite (Hu j) with (w := w); [by left|apply in_or_app; by left|done].
  - apply remove_other. intros w Hw. destruct (rows_in_l _ _ _ _ Hb' Hw) as (j & Hj & Hjr). apply Hni. rewrite <- (Hu j) with (w := w); [by apply list_elem_of_In|apply in_or_app; right; by right|done].
Qed.
(** Unlinking a slot and pushing it to the front moves its row to the front of the list. *)
Lemma move_front l ia i ib : linked l (ia ++ i :: ib) -> filled l (ia ++ i :: ib) ->
  exists l1 l2, unlink l i = Ok l1 /\ push_front l1 i = Ok l2 /\ linked l2 (i :: ia ++ ib) /\ filled l2 (i :: ia ++ ib) /\ quiet l l2.
Proof.
  intros Hl Hf. destruct (unlink_ok _ _ _ _ Hl) as (l1 & Hu & Hl1 & Hq1). pose proof Hl as (Hn & Hr & _). apply Forall_app in Hr as [_ Hri]. apply list.Forall_cons in Hri as [Hri _].
  destruct (linked_entry _ _ i Hl) as [e He]; [apply in_or_app; right; by left|]. destruct Hq1 as (Hrows & Hq). pose proof (proj2 Hrows i) as Hri1. rewrite (entry_row _ _ _ He) in Hri1. apply row_entry in Hri1 as (e1 & He1 & _).
  destruct (push_front_ok l1 i (ia ++ ib) e1 Hl1 Hri He1) as (l2 & Hp & Hl2 & Hq2).
  { intros Hin. apply list.NoDup_app in Hn as (_ & Hd & Hn). apply list.NoDup_cons in Hn as [Hni _]. apply in_app_or in Hin as [Hin|Hin]; [apply (Hd i); [by apply list_elem_of_In|by left]|by apply Hni, list_elem_of_In]. }
  exists l1, l2. assert (Hq' : quiet l l2) by (eapply lru_quiet_trans; [split; [exact Hrows|exact Hq]|done]). repeat (split; [done|]). split; [|done]. eapply filled_quiet; [exact Hq'|]. eapply filled_perm; [|exact Hf]. symmetry. apply Permutation_middle.
Qed.

Lemma at_row l i k v : row_at (lru_entries l) i = Some (k, v) -> exists e, at_entry (lru_entries l) i = Ok e /\ le_key e = k /\ le_val e = v.
Proof. intros Hr. apply row_entry in Hr as (e & He & Hk & Hv). exists e. unfold at_entry. by rewrite He. Qed.
Lemma get_mut_ok l kvs k : lru_holds l kvs ->
  match spec_find k kvs with
  | None => get_mut l k = Ok (None, l)
  | Some v => exists l', get_mut l k = Ok (Some (lru_head l'), l') /\ lru_holds l' ((k, v) :: spec_remove k kvs) /\ lru_cap l' = lru_cap l
  end.
Proof.
  intros Hh. apply holds_iff in Hh as (ids & Hl & Hf & Hr). unfold get_mut. destruct (spec_find k kvs) as [v|] eqn:E; [|by rewrite (index_find l ids kvs)].
  destruct (holds_split _ _ _ _ _ Hl Hf Hr E) as (a & b & i & ia & ib & -> & -> & -> & Hri & Ha & Hb & ->). destruct (move_front _ _ _ _ Hl Hf) as (l1 & l2 & -> & H2 & Hl2 & Hf2 & Hq). cbn [obind]. rewrite H2. cbn [obind].
  assert (Hr2 : row_at (lru_entries l2) i = Some (k, v)) by (rewrite (proj2 (proj1 Hq)); done). destruct (at_row _ _ _ _ Hr2) as (e & -> & _). cbn [obind]. exists l2. destruct Hl2 as (Hn2 & Hg2 & Hs2 & Hh2 & Ht2). rewrite Hh2. split; [done|]. split; [|apply Hq].
  apply holds_iff. exists (i :: ia ++ ib). split; [done|]. split; [done|]. constructor; [done|]. apply Forall2_app; by eapply rows_quiet.
Qed.
(** Writing a row without its links. *)
Lemma segment_links es es' ids : forall p n, (forall i e, zlookup es i = Some e -> exists e', zlookup es' i = Some e' /\ le_prev e' = le_prev e /\ le_next e' = le_next e) -> segment es p ids n -> segment es' p ids n.
Proof. induction ids as [|i ids IH]; intros p n Hk Hs; [done|]. destruct Hs as [(e & He & Hp & Hnx) Hs]. destruct (Hk i e He) as (e' & He' & Hp' & Hn'). split; [exists e'; split; [done|]; split; congruence|by apply IH]. Qed.
Lemma write_row_links l ids i e k w : linked l ids -> zlookup (lru_entries l) i = Some e -> linked (with_entries l (zinsert (lru_entries l) i (set_row k w e))) ids.
Proof.
  intros (Hn & Hr & Hs & Hh & Ht) He. repeat (split; [done|]). split; [|done]. eapply segment_links; [|exact Hs]. intros j ej Hj. destruct (Z.eq_dec i j) as [<-|Hne].
  - exists (set_row k w e). split; [by apply (zlookup_zinsert_eq _ _ _ e)|]. rewrite He in Hj. by injection Hj as <-.
  - exists ej. split; [|done]. cbn [lru_entries with_entries]. by rewrite zlookup_zinsert_ne.
Qed.
Lemma write_row_at l i e k w j : zlookup (lru_entries l) i = Some e ->
  row_at (zinsert (lru_entries l) i (set_row k w e)) j = if decide (j = i) then Some (k, w) else row_at (lru_entries l) j.
Proof. intros He. unfold row_at. destruct (decide (j = i)) as [->|Hne]; [by rewrite (zlookup_zinsert_eq _ _ _ e)|by rewrite zlookup_zinsert_ne]. Qed.
Lemma rows_write l i e k w ids kvs : zlookup (lru_entries l) i = Some e -> ~ In i ids -> rows_of l ids kvs -> rows_of (with_entries l (zinsert (lru_entries l) i (set_row k w e))) ids kvs.
Proof.
  intros He Hni Hr. induction Hr as [|j kv ids kvs Hj Hr IH]; [constructor|]. constructor; [|apply IH; intros H'; apply Hni; by right]. cbn [lru_entries with_entries]. rewrite write_row_at by done. rewrite decide_False; [done|]. intros ->. apply Hni. by left.
Qed.
(** A reference to the row at the front can be read and written. *)
Lemma head_slot l k v kvs : lru_holds l ((k, v) :: kvs) ->
  lru_val l (lru_head l) = Ok v /\ forall w, exists l', lru_set l (lru_head l) w = Ok l' /\ lru_holds l' ((k, w) :: kvs) /\ lru_cap l' = lru_cap l.
Proof.
  intros Hh. apply holds_iff in Hh as (ids & Hl & Hf & Hr). inversion Hr as [|i ? ids' ? Hi Hr' E1 E2]; subst ids. pose proof Hl as (Hn & _ & _ & Hhead & _). rewrite Hhead. cbn [List.hd]. destruct (row_entry _ _ _ _ Hi) as (e & He & Hk & Hv).
  unfold lru_val, lru_set, at_entry. rewrite He. cbn [expect obind]. rewrite Hv. split; [done|]. intros w. rewrite (modify_ok _ _ e) by done. cbn [obind]. eexists. split; [done|]. split; [|done]. rewrite Hk. apply holds_iff. exists (i :: ids'). split; [by apply write_row_links|]. split.
  - destruct Hf as (H1 & H2 & H3). split; [intros j; cbn [lru_entries with_entries]; rewrite Zlen_zinsert; apply H1|]. split; [|done]. intros k' j. cbn [lru_index lru_entries with_entries]. rewrite H2, write_row_at by done. destruct (decide (j = i)) as [->|]; [|done].
    rewrite Hi. split; intros [Hj [x Hx]]; (split; [done|]); [injection Hx as <- <-; by exists w|injection Hx as <- <-; by exists v].
  - constructor; [cbn [lru_entries with_entries]; rewrite write_row_at by done; by rewrite decide_True|]. apply rows_write; [done| |done]. apply list.NoDup_cons in Hn as [Hn _]. by rewrite <- list_elem_of_In.
Qed.

Lemma linked_index l ids ix : linked l ids -> linked (with_index l ix) ids.
Proof. done. Qed.
(** The index after the row of slot [i] went from key [ok] to key [k]. *)
Lemma filled_replace l l' ids ids' i ok ov k v : filled l ids -> Permutation ids ids' -> In i ids -> row_at (lru_entries l) i = Some (ok, ov) -> lru_index l !! k = None ->
  Zlen (lru_entries l') = Zlen (lru_entries l) -> (forall j, row_at (lru_entries l') j = if decide (j = i) then Some (k, v) else row_at (lru_entries l) j) ->
  lru_index l' = <[k := i]> (delete ok (lru_index l)) -> lru_cap l' = lru_cap l -> filled l' ids'.
Proof.
  intros Hf Hp Hi Hri Hk Hlen Hrow Hix Hcap. apply (filled_perm _ ids); [done|]. destruct Hf as (H1 & H2 & H3). split; [by rewrite Hlen|]. rewrite Hcap. split; [|done]. intros k' j. rewrite Hrow, Hix.
  assert (Hoi : lru_index l !! ok = Some i) by (apply H2; split; [done|by exists ov]). destruct (decide (k' = k)) as [->|Hne].
  { rewrite lookup_insert_eq. destruct (decide (j = i)) as [->|Hj]; [split; [intros _; split; [done|by exists v]|done]|]. split; [congruence|]. intros [Hin Hv]. exfalso. assert (lru_index l !! k = Some j) by (by apply H2). congruence. }
  rewrite lookup_insert_ne by done. destruct (decide (k' = ok)) as [->|Hno].
  { rewrite lookup_delete_eq. split; [done|]. destruct (decide (j = i)) as [->|Hj]; intros [Hin [w Hw]]; [congruence|]. assert (lru_index l !! ok = Some j) by (apply H2; split; [done|by exists w]). congruence. }
  rewrite lookup_delete_ne by done. rewrite H2. destruct (decide (j = i)) as [->|Hj]; [|done]. rewrite Hri. split; intros [Hin [w Hw]]; congruence.
Qed.
Lemma replace_row_ok l ia i ib a b ok ov k v : linked l (ia ++ i :: ib) -> filled l (ia ++ i :: ib) -> rows_of l ia a -> rows_of l ib b -> row_at (lru_entries l) i = Some (ok, ov) -> lru_index l !! k = None ->
  exists l', replace_row l i k v = Ok l' /\ lru_holds l' ((k, v) :: a ++ b) /\ lru_cap l' = lru_cap l /\ lru_head l' = i.
Proof.
  intros Hl Hf Ha Hb Hri Hk. unfold replace_row. destruct (row_entry _ _ _ _ Hri) as (e & He & Hek & _). unfold at_entry at 1. rewrite He. cbn [expect obind]. rewrite Hek.
  destruct (unlink_ok _ _ _ _ (linked_index _ _ (delete ok (lru_index l)) Hl)) as (l2 & -> & Hl2 & Hq2). cbn [obind]. pose proof (proj2 (proj1 Hq2) i) as Hr2. cbn [lru_entries with_index] in Hr2. rewrite Hri in Hr2. destruct (row_entry _ _ _ _ Hr2) as (e2 & He2 & _). rewrite (modify_ok _ _ e2) by done. cbn [obind].
  set (l3 := with_entries l2 _). assert (Hl3 : linked l3 (ia ++ ib)) by (by apply write_row_links). pose proof Hl as (Hn & Hr & _). apply Forall_app in Hr as [_ Hrg]. apply list.Forall_cons in Hrg as [Hrg _].
  assert (Hni : ~ In i (ia ++ ib)).
  { intros Hin. apply list.NoDup_app in Hn as (_ & Hd & Hn). apply list.NoDup_cons in Hn as [Hn _]. apply in_app_or in Hin as [Hin|Hin]; [apply (Hd i); [by apply list_elem_of_In|by left]|by apply Hn, list_elem_of_In]. }
  destruct (push_front_ok l3 i (ia ++ ib) (set_row k v e2) Hl3 Hrg) as (l4 & -> & Hl4 & Hq4); [by apply (zlookup_zinsert_eq _ _ _ e2)|done|]. cbn [obind]. eexists. split; [done|].
  assert (Hrow : forall j, row_at (lru_entries l4) j = if decide (j = i) then Some (k, v) else row_at (lru_entries l) j).
  { intros j. rewrite (proj2 (proj1 Hq4)). unfold l3. cbn [lru_entries with_entries]. rewrite write_row_at by done. by rewrite (proj2 (proj1 Hq2)). }
  split; [|split; [|by destruct Hl4 as (_ & _ & _ & Hh & _)]].
  - apply holds_iff. exists (i :: ia ++ ib). split; [done|]. split.
    + eapply (filled_replace l _ _ _ i ok ov k v); [exact Hf|symmetry; apply Permutation_middle|apply in_or_app; right; by left|done|done| |done| |].
      * cbn [lru_entries with_index]. rewrite (proj1 (proj1 Hq4)). unfold l3. cbn [lru_entries with_entries]. rewrite Zlen_zinsert. apply (proj1 (proj1 Hq2)).
      * cbn [lru_index with_index]. rewrite (proj1 (proj2 Hq4)). unfold l3. cbn [lru_index with_entries]. by rewrite (proj1 (proj2 Hq2)).
      * cbn [lru_cap with_index]. rewrite (proj2 (proj2 Hq4)). apply (proj2 (proj2 Hq2)).
    + constructor; [cbn [lru_entries with_index]; rewrite Hrow; by rewrite decide_True|]. assert (Hkeep : forall ids kvs, (forall j, In j ids -> j <> i) -> rows_of l ids kvs -> rows_of (with_index l4 (<[k:=i]> (lru_index l4))) ids kvs).
      { intros ids kvs Hj Hrs. induction Hrs as [|j kv ids kvs Hx Hrs IH]; [constructor|]. constructor; [cbn [lru_entries with_index]; rewrite Hrow; rewrite decide_False; [done|apply Hj; by left]|apply IH; intros y Hy; apply Hj; by right]. }
      apply Forall2_app; apply Hkeep; try done; intros j Hj ->; apply Hni, in_or_app; [by left|by right].
  - cbn [lru_cap with_index]. rewrite (proj2 (proj2 Hq4)). apply (proj2 (proj2 Hq2)).
Qed.
Lemma push_row_ok l kvs k v : lru_holds l kvs -> spec_find k kvs = None -> Zlen kvs < lru_cap l ->
  exists l', push_row l k v = Ok l' /\ lru_holds l' ((k, v) :: kvs) /\ lru_cap l' = lru_cap l.
Proof.
  intros Hh Hk Hc. apply holds_iff in Hh as (ids & Hl & Hf & Hr). pose proof (index_find _ _ _ _ Hf Hr Hk) as Hki. pose proof (list.Forall2_length _ _ _ Hr) as Hlen. pose proof Hf as (H1 & H2 & H3 & H4).
  assert (Hids : Zlen ids = Zlen (lru_entries l)).
  { destruct Hl as (Hn & _). unfold Zlen. f_equal. assert (Hp : Permutation ids (zrange 0 (Zlen (lru_entries l)))).
    { apply NoDup_Permutation; [done|apply NoDup_fmap_2; [intros ? ?; lia|apply NoDup_seq]|]. intros i. rewrite !list_elem_of_In, H1, in_zrange. lia. }
    apply Permutation_length in Hp. rewrite Hp. unfold zrange. rewrite length_fmap, length_seq. unfold Zlen. lia. }
  unfold push_row. set (n := Zlen (lru_entries l)) in *. assert (Hn : 0 <= n < NIL) by (pose proof (Zlen_nonneg ids); unfold Zlen in *; lia). rewrite wrap_small by (unfold NIL, umax in Hn; lia). set (e := MkLruEntry k v NIL NIL). set (l1 := with_entries l (lru_entries l ++ [e])).
  assert (Hold : forall i, In i ids -> zlookup (lru_entries l1) i = zlookup (lru_entries l) i) by (intros i Hi; apply H1 in Hi; cbn [l1 lru_entries with_entries]; by rewrite zlookup_app_l by lia).
  assert (He : zlookup (lru_entries l1) n = Some e) by (cbn [l1 lru_entries with_entries]; apply zlookup_snoc). assert (Hni : ~ In n ids) by (rewrite H1; lia).
  assert (Hl1 : linked l1 ids) by (destruct Hl as (? & ? & Hs & ? & ?); repeat (split; [done|]); split; [by eapply segment_frame|done]).
  destruct (push_front_ok l1 n ids e Hl1 Hn He Hni) as (l2 & -> & Hl2 & Hq). cbn [obind]. eexists. split; [done|]. split; [|cbn [lru_cap with_index]; apply (proj2 (proj2 Hq))].
  assert (Hrow : forall i, In i ids -> row_at (lru_entries l2) i = row_at (lru_entries l) i) by (intros i Hi; rewrite (proj2 (proj1 Hq)); unfold row_at; by rewrite Hold).
  assert (Hrn : row_at (lru_entries l2) n = Some (k, v)) by (rewrite (proj2 (proj1 Hq)); unfold row_at; by rewrite He).
  apply holds_iff. exists (n :: ids). split; [done|]. split; [split; [|split; [|split]]|].
  - intros i. cbn [lru_entries with_index In]. rewrite (proj1 (proj1 Hq)). cbn [l1 lru_entries with_entries]. rewrite Zlen_app, H1. change (Zlen [e]) with 1. fold n. lia.
  - intros k' i. cbn [lru_index lru_entries with_index In]. rewrite (proj1 (proj2 Hq)). cbn [l1 lru_index with_entries]. destruct (decide (k' = k)) as [->|Hne].
    + rewrite lookup_insert_eq. split; [intros [= <-]; split; [by left|by exists v]|]. intros [[<-|Hi] [w Hw]]; [done|]. rewrite Hrow in Hw by done. exfalso. assert (lru_index l !! k = Some i) by (apply H2; split; [done|by exists w]). congruence.
    + rewrite lookup_insert_ne by done. rewrite H2. split.
      * intros [Hi [w Hw]]. split; [by right|]. exists w. by rewrite Hrow.
      * intros [[<-|Hi] [w Hw]]; [congruence|]. split; [done|]. exists w. by rewrite <- Hrow.
  - cbn [lru_cap with_index]. rewrite (proj2 (proj2 Hq)). cbn [l1 lru_cap with_entries]. rewrite Zlen_cons. unfold Zlen in *. lia.
  - cbn [lru_cap with_index]. rewrite (proj2 (proj2 Hq)). done.
  - constructor; [done|]. cbn [lru_entries with_index]. clear -Hr Hrow. induction Hr as [|j kv ids kvs Hj Hr IH]; [constructor|]. constructor; [rewrite Hrow by (by left); done|]. apply IH. intros i Hi. apply Hrow. by right.
Qed.

Lemma find_put_same k v kvs : spec_find k ((k, v) :: kvs) = Some v.
Proof. cbn [spec_find]. by rewrite decide_True. Qed.
Lemma lru_put_ok l kvs k v : lru_holds l kvs -> exists l', lru_put l k v = Ok l' /\ lru_holds l' (spec_put (lru_cap l) k v kvs) /\ lru_cap l' = lru_cap l.
Proof.
  intros Hh. pose proof (lru_len_holds _ _ Hh) as Hlen. pose proof Hh as Hh0. apply holds_iff in Hh as (ids & Hl & Hf & Hr). unfold lru_put, spec_put. destruct (spec_find k kvs) as [w|] eqn:E.
  { destruct (holds_split _ _ _ _ _ Hl Hf Hr E) as (a & b & i & ia & ib & -> & -> & -> & Hri & Ha & Hb & ->). destruct (row_entry _ _ _ _ Hri) as (e & He & Hek & _). rewrite (modify_ok _ _ e) by done. cbn [obind]. rewrite Hek. set (l1 := with_entries l _).
    assert (Hl1 : linked l1 (ia ++ i :: ib)) by (by apply write_row_links). pose proof Hl as (Hn & _). apply list.NoDup_app in Hn as (_ & Hd & Hn). apply list.NoDup_cons in Hn as [Hni _].
    assert (Hf1 : filled l1 (ia ++ i :: ib)).
    { destruct Hf as (H1 & H2 & H3). split; [intros j; cbn [l1 lru_entries with_entries]; rewrite Zlen_zinsert; apply H1|]. split; [|done]. intros k' j. cbn [l1 lru_index lru_entries with_entries]. rewrite H2, write_row_at by done. destruct (decide (j = i)) as [->|]; [|done].
      rewrite Hri. split; intros [Hj [x Hx]]; (split; [done|]); [injection Hx as <- <-; by exists v|injection Hx as <- <-; by exists w]. }
    destruct (move_front _ _ _ _ Hl1 Hf1) as (l2 & l3 & -> & Hp & Hl3 & Hf3 & Hq). cbn [obind]. rewrite Hp. exists l3. split; [done|]. split; [|apply (proj2 (proj2 Hq))]. apply holds_iff. exists (i :: ia ++ ib). split; [done|]. split; [done|]. eapply rows_quiet; [exact Hq|].
    constructor; [cbn [l1 lru_entries with_entries]; rewrite write_row_at by done; by rewrite decide_True|]. apply Forall2_app; apply rows_write; try done; intros Hin; [apply (Hd i); [by apply list_elem_of_In|by left]|by apply Hni, list_elem_of_In]. }
  pose proof (index_find _ _ _ _ Hf Hr E) as Hki. rewrite Hki, Hlen. destruct (Z.leb_spec (lru_cap l) (Zlen kvs)) as [Hle|Hgt]; [|cbn [andb]; by apply push_row_ok].
  destruct Hf as (H1 & H2 & H3 & H4). destruct kvs as [|[ok ov] a _] using rev_ind; [change (Zlen (@nil (K * V))) with 0 in Hle; lia|]. apply Forall2_app_inv_r in Hr as (ia & ib & Ha & Hb & ->). inversion Hb as [|i ? ib' ? Hri Hb' E1 E2]; subst ib. inversion Hb'; subst ib'.
  pose proof Hl as (_ & Hrg & _ & _ & Ht). rewrite last_snoc in Ht. apply Forall_app in Hrg as [_ Hrg]. apply list.Forall_cons in Hrg as [Hrg _]. rewrite Ht, not_nil by done. cbn [andb negb].
  destruct (replace_row_ok l ia i [] a [] ok ov k v) as (lr & He & Hh' & Hc & _); try done. rewrite app_nil_r in Hh'. exists lr. rewrite removelast_last. done.
Qed.
Lemma entry_or_default_ok l kvs k dflt : lru_holds l kvs ->
  exists l', entry_or_default l k dflt = Ok (lru_head l', l') /\ lru_cap l' = lru_cap l /\
    lru_holds l' (match spec_find k kvs with Some v => (k, v) :: spec_remove k kvs | None => (k, dflt) :: (if lru_cap l <=? Zlen kvs then removelast kvs else kvs) end).
Proof.
  intros Hh. pose proof Hh as Hh0. apply holds_iff in Hh as (ids & Hl & Hf & Hr). unfold entry_or_default. destruct (spec_find k kvs) as [v|] eqn:E.
  - destruct (holds_split _ _ _ _ _ Hl Hf Hr E) as (a & b & i & ia & ib & _ & _ & -> & _). cbn [obind]. pose proof (get_mut_ok l kvs k Hh0) as Hg. rewrite E in Hg. destruct Hg as (l' & -> & Hh' & Hc). cbn [obind expect]. by exists l'.
  - rewrite (index_find _ _ _ _ Hf Hr E). destruct (lru_put_ok l kvs k dflt Hh0) as (l1 & -> & Hh1 & Hc1). cbn [obind]. unfold spec_put in Hh1. rewrite E in Hh1. pose proof (get_mut_ok l1 _ k Hh1) as Hg. rewrite find_put_same in Hg. destruct Hg as (l' & -> & Hh' & Hc). cbn [obind expect]. exists l'. split; [done|]. split; [congruence|].
    set (rest := if lru_cap l <=? Zlen kvs then removelast kvs else kvs) in *. assert (Hrm : spec_remove k ((k, dflt) :: rest) = rest).
    { unfold spec_remove. rewrite list.filter_cons_False by (cbn; tauto). apply remove_other. intros v Hv. apply (find_none k kvs E v). unfold rest in Hv. destruct (_ <=? _); [|done]. destruct kvs as [|kv kvs _] using rev_ind; [done|]. rewrite removelast_last in Hv. apply in_or_app. by left. }
    by rewrite Hrm in Hh'.
Qed.

(** ** Eviction *)
Lemma evict_snoc ev kvs kv : spec_evict ev (kvs ++ [kv]) = if ev (snd kv) then Some kvs else (fun r => r ++ [kv]) <$> spec_evict ev kvs.
Proof.
  induction kvs as [|x kvs IH]; cbn [app spec_evict]; [by destruct (ev (snd kv))|]. rewrite IH. destruct (ev (snd kv)); [done|]. destruct (spec_evict ev kvs); [done|]. cbn. by destruct (ev (snd x)).
Qed.
Lemma find_victim_ok l ev fuel : forall ids kvs n, segment (lru_entries l) NIL ids n -> Forall (fun i => 0 <= i < NIL) ids -> rows_of l ids kvs -> (length ids < fuel)%nat ->
  match spec_evict ev kvs with
  | None => find_victim fuel (lru_entries l) ev (List.last ids NIL) = Ok NIL
  | Some kvs' => exists ia i ib a kv b, ids = ia ++ i :: ib /\ kvs = a ++ kv :: b /\ kvs' = a ++ b /\ rows_of l ia a /\ rows_of l ib b /\ row_at (lru_entries l) i = Some kv /\ ev (snd kv) = true /\
      find_victim fuel (lru_entries l) ev (List.last ids NIL) = Ok i
  end.
Proof.
  induction fuel as [|fuel IH]; intros ids kvs n Hs Hr Hrows Hf; [lia|]. destruct ids as [|i ids _] using rev_ind; [inversion Hrows; subst; done|]. rewrite last_snoc. cbn [find_victim]. apply Forall_app in Hr as [Hr Hi]. apply list.Forall_cons in Hi as [Hi _]. rewrite not_nil by done.
  apply Forall2_app_inv_l in Hrows as (kvs1 & kvs2 & Hrows & Hlast & ->). inversion Hlast as [|? kv ? kvs3 Hri Hnil E1 E2]; subst kvs2. inversion Hnil; subst kvs3. destruct kv as [k v]. apply segment_app in Hs as [Hs [(e & He & Hp & _) _]]. cbn [List.hd] in Hs. unfold at_entry. rewrite He. cbn [expect obind].
  rewrite (entry_row _ _ _ He) in Hri. injection Hri as <- <-. rewrite evict_snoc. cbn [snd]. destruct (ev (le_val e)) eqn:Hev.
  { exists ids, i, [], kvs1, (le_key e, le_val e), []. rewrite app_nil_r. repeat (split; [done|]). split; [by apply entry_row|done]. }
  rewrite length_app in Hf. cbn [length] in Hf. specialize (IH ids kvs1 i Hs Hr Hrows ltac:(lia)). rewrite Hp. destruct (spec_evict ev kvs1) as [r|]; [|done]. destruct IH as (ia & j & ib & a & kv & b & -> & -> & -> & Ha & Hb & Hj & Hevj & Hfv).
  cbn [fmap option_fmap option_map]. exists ia, j, (ib ++ [i]), a, kv, (b ++ [(le_key e, le_val e)]). rewrite <- !app_assoc. repeat (split; [done|]). split; [|done]. apply Forall2_app; [done|]. constructor; [by apply entry_row|constructor].
Qed.
Lemma protected_ok l kvs k dflt ev : lru_holds l kvs ->
  match spec_protected (lru_cap l) k dflt ev kvs with
  | None => entry_or_default_protected l k dflt ev = Ok (None, l)
  | Some (v, rest) => exists l', entry_or_default_protected l k dflt ev = Ok (Some (lru_head l'), l') /\ lru_holds l' ((k, v) :: rest) /\ lru_cap l' = lru_cap l
  end.
Proof.
  intros Hh. pose proof Hh as Hh0. pose proof (lru_len_holds _ _ Hh) as Hlen. apply holds_iff in Hh as (ids & Hl & Hf & Hr). unfold entry_or_default_protected, spec_protected. destruct (spec_find k kvs) as [v|] eqn:E.
  { destruct (holds_split _ _ _ _ _ Hl Hf Hr E) as (a & b & i & ia & ib & _ & _ & -> & _). pose proof (get_mut_ok l kvs k Hh0) as Hg. by rewrite E in Hg. }
  pose proof (index_find _ _ _ _ Hf Hr E) as Hki. rewrite Hki, Hlen. destruct (Z.ltb_spec (Zlen kvs) (lru_cap l)) as [Hlt|Hge].
  { destruct (entry_or_default_ok l kvs k dflt Hh0) as (l' & He & Hc & Hh'). unfold entry_or_default in He. rewrite Hki in He. rewrite E in Hh'. destruct (Z.leb_spec (lru_cap l) (Zlen kvs)); [lia|]. destruct (lru_put l k dflt) as [l1| |]; try done. cbn [obind] in He |- *.
    destruct (get_mut l1 k) as [[r l2]| |]; try done. cbn [obind] in He. destruct r as [i|]; [|done]. cbn [expect obind] in He. injection He as -> ->. by exists l'. }
  pose proof Hl as (_ & Hrg & Hs & _ & Ht). assert (Hfuel : (length ids < S (length (lru_entries l)))%nat).
  { destruct Hf as (H1 & _). destruct Hl as (Hn & _). assert (Hle : (length ids <= length (zrange 0 (Zlen (lru_entries l))))%nat) by (apply (NoDup_incl_length (proj1 (NoDup_ListNoDup ids) Hn)); intros i Hi; apply in_zrange; apply H1 in Hi; lia).
    unfold zrange in Hle. rewrite length_fmap, length_seq in Hle. unfold Zlen in Hle. lia. }
  pose proof (find_victim_ok l ev _ ids kvs NIL Hs Hrg Hr Hfuel) as Hv. rewrite Ht. destruct (spec_evict ev kvs) as [rest|]; cbn [fmap option_fmap option_map]; [|rewrite Hv; cbn [obind]; by rewrite Z.eqb_refl].
  destruct Hv as (ia & i & ib & a & [ok ov] & b & -> & -> & -> & Ha & Hb & Hi & _ & ->). cbn [obind]. apply Forall_app in Hrg as [_ Hrg]. apply list.Forall_cons in Hrg as [Hrg _]. rewrite not_nil by done.
  destruct (replace_row_ok l ia i ib a b ok ov k dflt) as (l' & -> & Hh' & Hc & Hhd); try done. cbn [obind]. exists l'. rewrite Hhd. done.
Qed.

(** C34. The linked table refines the list of its rows, most recent first, and never indexes outside its vector. Whatever rows it holds, at
    most its capacity: looking a key up moves its row to the front and yields a reference to it, which reads and writes that row only; putting a row
    replaces the one with its key or, when the table is full, the least recent one; and the guarded insertion gives up the least recent row that may go,
    or refuses, changing nothing. *)
Theorem lru_refines_recency_list (l : Lru) (kvs : list (K * V)) (k : K) (v dflt w : V) (ev : V -> bool) (cap : Z) :
  lru_holds l kvs -> cap < NIL ->
  lru_holds (Lru_new cap) [] /\ lru_len l = Zlen kvs /\ Zlen kvs <= lru_cap l /\
  match spec_find k kvs with
  | None => get_mut l k = Ok (None, l)
  | Some x => exists l', get_mut l k = Ok (Some (lru_head l'), l') /\ lru_holds l' ((k, x) :: spec_remove k kvs)
  end /\
  (exists l', lru_put l k v = Ok l' /\ lru_holds l' (spec_put (lru_cap l) k v kvs)) /\
  match spec_protected (lru_cap l) k dflt ev kvs with
  | None => entry_or_default_protected l k dflt ev = Ok (None, l)
  | Some (x, rest) => exists l', entry_or_default_protected l k dflt ev = Ok (Some (lru_head l'), l') /\ lru_holds l' ((k, x) :: rest)
  end /\
  (forall k0 v0 rest, kvs = (k0, v0) :: rest -> lru_val l (lru_head l) = Ok v0 /\ exists l', lru_set l (lru_head l) w = Ok l' /\ lru_holds l' ((k0, w) :: rest)).
Proof.
  intros Hh Hc. split; [by apply Lru_new_holds|]. split; [by apply lru_len_holds|]. split; [destruct Hh as (ids & _ & _ & Hr & _ & Hcap & _); apply list.Forall2_length in Hr; unfold Zlen in *; lia|]. split; [|split; [|split]].
  - pose proof (get_mut_ok l kvs k Hh) as Hg. destruct (spec_find k kvs); [|done]. destruct Hg as (l' & He & Hh' & _). by exists l'.
  - destruct (lru_put_ok l kvs k v Hh) as (l' & He & Hh' & _). by exists l'.
  - pose proof (protected_ok l kvs k dflt ev Hh) as Hg. destruct (spec_protected _ _ _ _ _) as [[x rest]|]; [|done]. destruct Hg as (l' & He & Hh' & _). by exists l'.
  - intros k0 v0 rest ->. destruct (head_slot l k0 v0 rest Hh) as [Hv Hs]. split; [done|]. destruct (Hs w) as (l' & He & Hh' & _). by exists l'.
Qed.
End Lru.
Arguments Lru : clear implicits.
Arguments Lru K V {_ _}.
Lemma lru_refines_recency_list_witness : exists l, lru_put (Lru_new 2) 5 7 = Ok l /\ lru_holds l [(5, 7)].
Proof. apply (lru_refines_recency_list (K := Z) (V := Z) (Lru_new 2) [] 5 7 0 0 (fun _ => true) 2); [by apply Lru_new_holds|done]. Defined.
