(* ===== verification/Abuse.v ===== *)
(** The ban table and the difficulty cache of the mining server (src/lib/stratum/src/abuse.rs), on top of the table of [Lru]. Scores decay with time,
    soft points first; a score at the threshold bans its source, each time longer; a source with a ban, a throttle or a connection is never
    pushed out of the table by others. The token bucket of accepted connections counts in floating point and is a parameter here: what
    it answers, and its new state. *)

From Stdlib Require Import ZArith Lia List.
From stdpp Require Import base list gmap numbers.
From S2P Require Import Prelude Lru.
Import ListNotations.
Open Scope Z_scope.

(** ** limits.rs *)
Definition BAN_THRESHOLD : Z := 100.
Definition BAN_DECAY_SECS : Z := 6.
Definition BAN_LADDER_FACTOR : Z := 4.
Definition BAN_TABLE_ENTRIES : Z := 65536.
Definition SOFT_SCORE_CAP : Z := 25.
Record Caps := MkCaps { cp_max_connections : Z; cp_max_per_ip : Z; cp_new_conns_per_ip_per_min : Z; cp_global_accept_per_sec : Z }.
Definition Caps_POOL : Caps := MkCaps 16384 64 6 500.
Definition Caps_SOLO : Caps := MkCaps 256 16 6 50.
Record BanPolicy := MkBanPolicy {
  bp_enabled : bool; bp_threshold : Z; bp_soft_cap : Z; bp_decay_secs : Z; bp_base_secs : Z; bp_ladder_factor : Z; bp_max_secs : Z; bp_table_entries : Z; bp_throttle_ms : Z;
}.
Definition BanPolicy_DEFAULT : BanPolicy := MkBanPolicy true BAN_THRESHOLD SOFT_SCORE_CAP BAN_DECAY_SECS 600 BAN_LADDER_FACTOR 86400 BAN_TABLE_ENTRIES 60000.
Record DiffPolicy := MkDiffPolicy {
  dp_start_diff : Z; dp_min_diff : Z; dp_cache_entries : Z; dp_cache_ttl_ms : Z; dp_storm_enabled : bool; dp_storm_per_min : Z; dp_storm_window_ms : Z;
}.

(** ** abuse.rs *)
Inductive Severity := Soft | Hard.
Record IpRecord := MkIpRecord {
  ip_seen : bool; ip_hard : Z; ip_soft : Z; ip_last_decay_ms : Z; ip_banned_until_ms : Z; ip_ban_count : Z;
  ip_conns : Z; ip_new_conns : Z; ip_new_conn_window_ms : Z; ip_throttled_until_ms : Z;
}.
Definition IpRecord_default : IpRecord := MkIpRecord false 0 0 0 0 0 0 0 0 0.
Definition effective (r : IpRecord) (soft_cap : Z) : outcome Empty_set Z := add_checked 32 (ip_hard r) (Z.min (ip_soft r) soft_cap).
Definition ip_first_seen (r : IpRecord) (now_ms : Z) : IpRecord :=
  MkIpRecord true (ip_hard r) (ip_soft r) now_ms (ip_banned_until_ms r) (ip_ban_count r) (ip_conns r) (ip_new_conns r) now_ms (ip_throttled_until_ms r).
Definition ip_set_score (r : IpRecord) (hard soft last_decay_ms : Z) : IpRecord :=
  MkIpRecord (ip_seen r) hard soft last_decay_ms (ip_banned_until_ms r) (ip_ban_count r) (ip_conns r) (ip_new_conns r) (ip_new_conn_window_ms r) (ip_throttled_until_ms r).
Definition ip_set_ban (r : IpRecord) (until count : Z) : IpRecord :=
  MkIpRecord (ip_seen r) 0 0 (ip_last_decay_ms r) until count (ip_conns r) (ip_new_conns r) (ip_new_conn_window_ms r) (ip_throttled_until_ms r).
Definition ip_set_conns (r : IpRecord) (conns new_conns window : Z) : IpRecord :=
  MkIpRecord (ip_seen r) (ip_hard r) (ip_soft r) (ip_last_decay_ms r) (ip_banned_until_ms r) (ip_ban_count r) conns new_conns window (ip_throttled_until_ms r).
Definition ip_set_throttle (r : IpRecord) (until : Z) : IpRecord :=
  MkIpRecord (ip_seen r) (ip_hard r) (ip_soft r) (ip_last_decay_ms r) (ip_banned_until_ms r) (ip_ban_count r) (ip_conns r) (ip_new_conns r) (ip_new_conn_window_ms r) until.
Inductive Admit := AdmitOk | AdmitBanned | PerIpLimit | PerIpRate | ServerFull | AcceptRate | Throttled.

(** The decay of one record, soft points before hard ones. *)
Definition decay_record (decay_secs : Z) (r : IpRecord) (now_ms : Z) : outcome Empty_set IpRecord :=
  let r := if ip_seen r then r else ip_first_seen r now_ms in
  let decay_secs := Z.max decay_secs 1 in
  let elapsed := saturating_sub now_ms (ip_last_decay_ms r) / 1000 in
  let points := wrap 32 (elapsed / decay_secs) in
  if 0 <? points then
    let from_soft := Z.min points (ip_soft r) in
    let hard := saturating_sub (ip_hard r) (points - from_soft) in
    let? a := expect (checked 64 (points * decay_secs)) in
    let? b := expect (checked 64 (a * 1000)) in
    let? last := add_checked 64 (ip_last_decay_ms r) b in
    Ok (ip_set_score r hard (ip_soft r - from_soft) last)
  else Ok r.
(** The length of a ban after [n] earlier ones. *)
Fixpoint ban_secs (n : nat) (secs ladder max_secs : Z) : Z :=
  match n with
  | O => secs
  | S n => let secs := saturating_mul 64 secs ladder in if max_secs <=? secs then secs else ban_secs n secs ladder max_secs
  end.

Section BanTable.
Context {Ip : Type} `{Countable Ip}.
Context {Bucket : Type} (take : Bucket -> Z -> bool * Bucket).

Record BanTable := MkBanTable { bt_ips : Lru Ip IpRecord; bt_bans_issued : Z; bt_saturated : Z; bt_scratch : IpRecord; bt_pol : BanPolicy }.
Definition BanTable_with_policy (pol : BanPolicy) : BanTable := MkBanTable (Lru_new (Z.max (bp_table_entries pol) 1)) 0 0 IpRecord_default pol.
Definition with_ips (t : BanTable) (ips : Lru Ip IpRecord) : BanTable := MkBanTable ips (bt_bans_issued t) (bt_saturated t) (bt_scratch t) (bt_pol t).
Definition evictable (now_ms : Z) (r : IpRecord) : bool := (ip_conns r =? 0) && (ip_banned_until_ms r <=? now_ms) && (ip_throttled_until_ms r <=? now_ms).
(** A reference to a record: a row of the table, or the scratch record. *)
Abbreviation Place := (option Z).
Definition bt_write (t : BanTable) (p : Place) (r : IpRecord) : outcome Empty_set BanTable :=
  match p with
  | Some i => let? ips := lru_set (bt_ips t) i r in Ok (with_ips t ips)
  | None => Ok (MkBanTable (bt_ips t) (bt_bans_issued t) (bt_saturated t) r (bt_pol t))
  end.
Definition decayed (t : BanTable) (ip : Ip) (now_ms : Z) : outcome Empty_set (Place * IpRecord * BanTable) :=
  let? (p, ips) := entry_or_default_protected (bt_ips t) ip IpRecord_default (evictable now_ms) in
  match p with
  | None =>
    let? saturated := add_checked 64 (bt_saturated t) 1 in
    let scratch := ip_first_seen IpRecord_default now_ms in
    Ok (None, scratch, MkBanTable ips (bt_bans_issued t) saturated scratch (bt_pol t))
  | Some i =>
    let? r := lru_val ips i in
    let? r := decay_record (bp_decay_secs (bt_pol t)) r now_ms in
    let? ips := lru_set ips i r in
    Ok (Some i, r, with_ips t ips)
  end.
Definition bt_score (t : BanTable) (ip : Ip) (now_ms : Z) : outcome Empty_set (Z * BanTable) :=
  if negb (bp_enabled (bt_pol t)) then Ok (0, t) else
  let? (pr, t) := decayed t ip now_ms in
  let? s := effective (snd pr) (bp_soft_cap (bt_pol t)) in
  Ok (s, t).
Definition is_banned (t : BanTable) (ip : Ip) (now_ms : Z) : outcome Empty_set (bool * BanTable) :=
  if negb (bp_enabled (bt_pol t)) then Ok (false, t) else
  let? (pr, t) := decayed t ip now_ms in
  Ok (now_ms <? ip_banned_until_ms (snd pr), t).
Definition penalise (t : BanTable) (ip : Ip) (points : Z) (severity : Severity) (now_ms : Z) : outcome Empty_set (option Z * BanTable) :=
  let pol := bt_pol t in
  if negb (bp_enabled pol) || (bp_threshold pol =? 0) then Ok (None, t) else
  let? (pr, t) := decayed t ip now_ms in
  let '(p, r) := pr in
  let r := match severity with
           | Soft => ip_set_score r (ip_hard r) (saturating_add 32 (ip_soft r) points) (ip_last_decay_ms r)
           | Hard => ip_set_score r (saturating_add 32 (ip_hard r) points) (ip_soft r) (ip_last_decay_ms r)
           end in
  let? eff := effective r (bp_soft_cap pol) in
  if (eff <? bp_threshold pol) || (now_ms <? ip_banned_until_ms r) then
    let? t := bt_write t p r in Ok (None, t)
  else
    let secs := Z.min (ban_secs (Z.to_nat (ip_ban_count r)) (bp_base_secs pol) (Z.max (bp_ladder_factor pol) 1) (bp_max_secs pol)) (bp_max_secs pol) in
    let? ms := expect (checked 64 (secs * 1000)) in
    let? until := add_checked 64 now_ms ms in
    let? t := bt_write t p (ip_set_ban r until (saturating_add 32 (ip_ban_count r) 1)) in
    let? issued := add_checked 64 (bt_bans_issued t) 1 in
    Ok (Some ms, MkBanTable (bt_ips t) issued (bt_saturated t) (bt_scratch t) pol).
Definition throttle (t : BanTable) (ip : Ip) (now_ms : Z) : outcome Empty_set BanTable :=
  if negb (bp_enabled (bt_pol t)) || (bp_throttle_ms (bt_pol t) =? 0) then Ok t else
  let? (pr, t') := decayed t ip now_ms in
  let? until := add_checked 64 now_ms (bp_throttle_ms (bt_pol t)) in
  bt_write t' (fst pr) (ip_set_throttle (snd pr) until).
Definition admit_conn (t : BanTable) (ip : Ip) (now_ms : Z) (caps : Caps) (total_conns : Z) (accept : Bucket) : outcome Empty_set (Admit * BanTable * Bucket) :=
  if negb (cp_max_connections caps =? 0) && (cp_max_connections caps <=? total_conns) then Ok (ServerFull, t, accept) else
  let per_ip := wrap 32 (cp_max_per_ip caps) in
  let per_min := cp_new_conns_per_ip_per_min caps in
  let? (pr, t) := decayed t ip now_ms in
  let '(p, r) := pr in
  let r := if 60000 <=? saturating_sub now_ms (ip_new_conn_window_ms r) then ip_set_conns r (ip_conns r) 0 now_ms else r in
  let r := ip_set_conns r (ip_conns r) (saturating_add 32 (ip_new_conns r) 1) (ip_new_conn_window_ms r) in
  let? t := bt_write t p r in
  if now_ms <? ip_banned_until_ms r then Ok (AdmitBanned, t, accept) else
  if now_ms <? ip_throttled_until_ms r then Ok (Throttled, t, accept) else
  if negb (per_ip =? 0) && (per_ip <=? ip_conns r) then Ok (PerIpLimit, t, accept) else
  if negb (per_min =? 0) && (per_min <? ip_new_conns r) then Ok (PerIpRate, t, accept) else
  let '(ok, accept) := take accept now_ms in
  if negb ok then Ok (AcceptRate, t, accept) else
  let? conns := add_checked 32 (ip_conns r) 1 in
  let? t := bt_write t p (ip_set_conns r conns (ip_new_conns r) (ip_new_conn_window_ms r)) in
  Ok (AdmitOk, t, accept).
Definition attempts_this_minute (t : BanTable) (ip : Ip) (now_ms : Z) : outcome Empty_set (Z * BanTable) :=
  let? (pr, t) := decayed t ip now_ms in Ok (ip_new_conns (snd pr), t).
Definition bt_conns (t : BanTable) (ip : Ip) (now_ms : Z) : outcome Empty_set (Z * BanTable) :=
  let? (pr, t) := decayed t ip now_ms in Ok (ip_conns (snd pr), t).
Definition bt_release (t : BanTable) (ip : Ip) (now_ms : Z) : outcome Empty_set BanTable :=
  let? (pr, t) := decayed t ip now_ms in
  let r := snd pr in
  bt_write t (fst pr) (ip_set_conns r (saturating_sub (ip_conns r) 1) (ip_new_conns r) (ip_new_conn_window_ms r)).
End BanTable.
Arguments BanTable Ip {_ _}.

(** ** The difficulty a miner starts at *)
Record AddrState := MkAddrState { as_last_difficulty : Z; as_updated_ms : Z; as_logins_this_min : Z; as_login_window_ms : Z; as_storm_since_ms : Z; as_pinned_floor : option Z }.
Definition AddrState_default : AddrState := MkAddrState 0 0 0 0 0 None.
Record DiffCache := MkDiffCache { dc_map : Lru bytes AddrState; dc_pol : DiffPolicy }.
Definition DiffCache_with_policy (pol : DiffPolicy) : DiffCache := MkDiffCache (Lru_new (Z.max (dp_cache_entries pol) 1)) pol.
Definition start_for (c : DiffCache) (addr : bytes) (now_ms : Z) : outcome Empty_set (Z * option Z * DiffCache) :=
  let? (p, m) := get_mut (dc_map c) addr in
  let c := MkDiffCache m (dc_pol c) in
  match p with
  | None => Ok (dp_start_diff (dc_pol c), None, c)
  | Some i =>
    let? s := lru_val m i in
    if (saturating_sub now_ms (as_updated_ms s) <=? dp_cache_ttl_ms (dc_pol c)) && (0 <? as_last_difficulty s)
    then Ok (as_last_difficulty s, as_pinned_floor s, c)
    else Ok (dp_start_diff (dc_pol c), as_pinned_floor s, c)
  end.
Definition dc_record (c : DiffCache) (addr : bytes) (difficulty now_ms : Z) : outcome Empty_set DiffCache :=
  let? (i, m) := entry_or_default (dc_map c) addr AddrState_default in
  let? s := lru_val m i in
  let? m := lru_set m i (MkAddrState difficulty now_ms (as_logins_this_min s) (as_login_window_ms s) (as_storm_since_ms s) (as_pinned_floor s)) in
  Ok (MkDiffCache m (dc_pol c)).
Definition note_login (c : DiffCache) (addr : bytes) (last_stable now_ms : Z) : outcome Empty_set (option Z * DiffCache) :=
  let pol := dc_pol c in
  if negb (dp_storm_enabled pol) then
    let? (p, m) := get_mut (dc_map c) addr in
    match p with
    | None => Ok (None, MkDiffCache m pol)
    | Some i => let? s := lru_val m i in Ok (as_pinned_floor s, MkDiffCache m pol)
    end
  else
    let? (i, m) := entry_or_default (dc_map c) addr AddrState_default in
    let? s := lru_val m i in
    let s := if 60000 <=? saturating_sub now_ms (as_login_window_ms s) then
               MkAddrState (as_last_difficulty s) (as_updated_ms s) 0 now_ms (if as_logins_this_min s <=? dp_storm_per_min pol then 0 else as_storm_since_ms s) (as_pinned_floor s)
             else s in
    let? logins := add_checked 32 (as_logins_this_min s) 1 in
    let s := MkAddrState (as_last_difficulty s) (as_updated_ms s) logins (as_login_window_ms s) (as_storm_since_ms s) (as_pinned_floor s) in
    let s := if dp_storm_per_min pol <? logins then
               if as_storm_since_ms s =? 0 then MkAddrState (as_last_difficulty s) (as_updated_ms s) logins (as_login_window_ms s) now_ms (as_pinned_floor s)
               else if dp_storm_window_ms pol <=? saturating_sub now_ms (as_storm_since_ms s) then
                 MkAddrState (as_last_difficulty s) (as_updated_ms s) logins (as_login_window_ms s) (as_storm_since_ms s) (Some (Z.max last_stable (dp_min_diff pol)))
               else s
             else s in
    let? m := lru_set m i s in
    Ok (as_pinned_floor s, MkDiffCache m pol).
