(* ===== verification/AbuseProps.v ===== *)
(** What the ban table of [Abuse] promises: it stays within its bounds and no traffic makes it forget a ban, a throttle or a connection. *)

From Stdlib Require Import ZArith Lia List.
From stdpp Require Import base list gmap numbers.
From S2P Require Import Prelude Lru Abuse.
Import ListNotations.
Open Scope Z_scope.

(** ** The table as a list: rows that may not go stay *)
Section Rows.
Context {K V : Type} `{Countable K}.
Implicit Types kvs : list (K * V).
Lemma find_remove k k' kvs : k' <> k -> spec_find k' (spec_remove k kvs) = spec_find k' kvs.
Proof.
  intros Hne. induction kvs as [|[x v] kvs IH]; [done|]. unfold spec_remove in *. rewrite filter_cons. destruct (decide _) as [Hx|Hx]; cbn [fst] in Hx; cbn [spec_find]; [destruct (decide (x = k')); [done|apply IH]|]. assert (x = k) as -> by (destruct (decide (x = k)); [done|tauto]).
  rewrite decide_False by congruence. apply IH.
Qed.
Lemma find_evict (ev : V -> bool) k v kvs : forall kvs', spec_evict ev kvs = Some kvs' -> spec_find k kvs = Some v -> ev v = false -> spec_find k kvs' = Some v.
Proof.
  induction kvs as [|[x w] kvs IH]; intros kvs' He Hf Hv; [done|]. cbn [spec_evict] in He. cbn [spec_find] in Hf. destruct (spec_evict ev kvs) as [r|] eqn:E.
  - injection He as <-. cbn [spec_find]. destruct (decide (x = k)); [done|by apply IH].
  - cbn [snd] in He. destruct (ev w) eqn:Ew; [|done]. injection He as <-. destruct (decide (x = k)); [congruence|done].
Qed.
Lemma protected_keeps cap k d (ev : V -> bool) kvs w rest k' v :
  spec_protected cap k d ev kvs = Some (w, rest) -> k' <> k -> spec_find k' kvs = Some v -> ev v = false -> spec_find k' rest = Some v.
Proof.
  unfold spec_protected. intros Hp Hne Hf Hv. destruct (spec_find k kvs); [injection Hp as <- <-; by rewrite find_remove|]. destruct (_ <? _); [by injection Hp as <- <-|]. destruct (spec_evict ev kvs) as [r|] eqn:E; [|done]. injection Hp as <- <-. by eapply find_evict.
Qed.
Lemma in_remove k kv kvs : In kv (spec_remove k kvs) -> In kv kvs.
Proof. unfold spec_remove. rewrite <- !list_elem_of_In, list_elem_of_filter. tauto. Qed.
Lemma in_evict (ev : V -> bool) kvs : forall kvs' kv, spec_evict ev kvs = Some kvs' -> In kv kvs' -> In kv kvs.
Proof.
  induction kvs as [|x kvs IH]; intros kvs' kv He Hin; [done|]. cbn [spec_evict] in He. destruct (spec_evict ev kvs) as [r|]; [|destruct (ev (snd x)); [injection He as <-; by right|done]]. injection He as <-. destruct Hin as [<-|Hin]; [by left|right; by eapply IH].
Qed.
Lemma in_protected cap k d (ev : V -> bool) kvs w rest kv : spec_protected cap k d ev kvs = Some (w, rest) -> In kv rest -> In kv kvs.
Proof.
  unfold spec_protected. intros Hp Hin. destruct (spec_find k kvs); [injection Hp as <- <-; by eapply in_remove|]. destruct (_ <? _); [by injection Hp as <- <-|]. destruct (spec_evict ev kvs) as [r|] eqn:E; [|done]. injection Hp as <- <-. by eapply in_evict.
Qed.
Lemma find_in k kvs v : spec_find k kvs = Some v -> In (k, v) kvs.
Proof. intros Hf. destruct (find_split k kvs v Hf) as (a & b & ->). apply in_or_app. right. by left. Qed.
Lemma lru_set_head (l l' : Lru K V) i w : lru_set l i w = Ok l' -> lru_head l' = lru_head l.
Proof. unfold lru_set. intros Hs. step_in Hs. by injection Hs as <-. Qed.
End Rows.

(** ** Records in their machine types; [b] bounds what the operations so far can have added *)
Record rec_ok (b : Z) (r : IpRecord) : Prop := {
  ro_hard : 0 <= ip_hard r <= 100 * b;
  ro_soft : 0 <= ip_soft r <= umax 32;
  ro_decay : 0 <= ip_last_decay_ms r < 2 ^ 62;
  ro_conns : 0 <= ip_conns r <= b;
  ro_new : 0 <= ip_new_conns r <= umax 32;
  ro_count : 0 <= ip_ban_count r <= umax 32;
}.
Record policy_ok (pol : BanPolicy) : Prop := {
  po_soft : 0 <= bp_soft_cap pol < 2 ^ 16; po_decay : 0 <= bp_decay_secs pol; po_base : 0 <= bp_base_secs pol; po_max : 0 <= bp_max_secs pol < 2 ^ 40; po_throttle : 0 <= bp_throttle_ms pol < 2 ^ 62;
}.
Lemma rec_ok_mono b b' r : b <= b' -> rec_ok b r -> rec_ok b' r.
Proof. intros Hb []. split; lia. Qed.
Lemma rec_ok_default b : 0 <= b -> rec_ok b IpRecord_default.
Proof. intros Hb. split; cbn; unfold umax; lia. Qed.
Lemma first_seen_ok b r now : 0 <= now < 2 ^ 62 -> rec_ok b r -> rec_ok b (ip_first_seen r now).
Proof. intros Hn []. by split. Qed.
(** Decay only lowers scores, and does not touch the rest. *)
Lemma decay_record_ok b r now d : rec_ok b r -> 0 <= now < 2 ^ 62 -> 0 <= d ->
  exists r', decay_record d r now = Ok r' /\ rec_ok b r' /\ ip_banned_until_ms r' = ip_banned_until_ms r /\ ip_conns r' = ip_conns r /\ ip_throttled_until_ms r' = ip_throttled_until_ms r /\
    ip_hard r' <= ip_hard r /\ ip_soft r' <= ip_soft r.
Proof.
  intros Hr Hn Hd. unfold decay_record. set (r0 := if ip_seen r then r else _). assert (H0 : rec_ok b r0) by (unfold r0; destruct (ip_seen r); [done|by apply first_seen_ok]).
  assert (Heq : ip_banned_until_ms r0 = ip_banned_until_ms r /\ ip_conns r0 = ip_conns r /\ ip_throttled_until_ms r0 = ip_throttled_until_ms r /\ ip_hard r0 = ip_hard r /\ ip_soft r0 = ip_soft r) by (unfold r0; by destruct (ip_seen r)).
  destruct Heq as (E1 & E2 & E3 & E4 & E5). rewrite <- E1, <- E2, <- E3, <- E4, <- E5. clearbody r0. clear r Hr E1 E2 E3 E4 E5. set (dd := Z.max d 1). set (el := saturating_sub now (ip_last_decay_ms r0) / 1000).
  assert (Hel : 0 <= el /\ el * 1000 <= saturating_sub now (ip_last_decay_ms r0)) by (unfold el, saturating_sub; pose proof (Z.mul_div_le (Z.max 0 (now - ip_last_decay_ms r0)) 1000 ltac:(lia)); pose proof (Z.div_pos (Z.max 0 (now - ip_last_decay_ms r0)) 1000); lia).
  assert (Hpt : 0 <= wrap 32 (el / dd) <= el / dd) by (unfold wrap; pose proof (Z.div_pos el dd); pose proof (Z.mod_pos_bound (el / dd) (2 ^ 32)); pose proof (Z.mod_le (el / dd) (2 ^ 32)); lia). set (pts := wrap 32 (el / dd)) in *.
  assert (Hpd : pts * dd <= el) by (pose proof (Z.mul_div_le el dd ltac:(lia)); nia). destruct (Z.ltb_spec 0 pts) as [Hp|Hp]; [|exists r0; repeat split; (done || apply H0 || lia)].
  destruct H0 as [Hh Hs Hl Hc Hw Hk]. unfold saturating_sub in Hel. unfold expect, add_checked, expect, checked_add, checked. rewrite (proj2 (fits_spec 64 (pts * dd))) by nia. cbn [obind]. rewrite (proj2 (fits_spec 64 (pts * dd * 1000))) by nia. cbn [obind]. rewrite (proj2 (fits_spec 64 _)) by nia. cbn [obind].
  eexists. split; [done|]. cbn [ip_set_score ip_banned_until_ms ip_conns ip_throttled_until_ms ip_hard ip_soft]. unfold saturating_sub. split; [split; cbn [ip_set_score ip_hard ip_soft ip_last_decay_ms ip_conns ip_new_conns ip_ban_count]; try done; try nia|]. repeat split; lia.
Qed.

(** ** The table *)
Section Table.
Context {Ip : Type} `{Countable Ip}.
Context {Bucket : Type} (take : Bucket -> Z -> bool * Bucket).
Implicit Types (t : BanTable Ip) (kvs : list (Ip * IpRecord)).

Record table_ok (b : Z) t kvs : Prop := {
  to_holds : lru_holds (bt_ips t) kvs;
  to_recs : Forall (fun kv => rec_ok b (snd kv)) kvs;
  to_bans : 0 <= bt_bans_issued t <= b;
  to_sat : 0 <= bt_saturated t <= b;
  to_pol : policy_ok (bt_pol t);
}.
Lemma table_ok_mono b b' t kvs : b <= b' -> table_ok b t kvs -> table_ok b' t kvs.
Proof. intros Hb []. split; try done; try lia. eapply List.Forall_impl; [|done]. intros kv. by apply rec_ok_mono. Qed.
(** Every ban that is in force at [T] is still there. *)
Definition bans_kept (T : Z) kvs kvs' : Prop :=
  forall ip r, spec_find ip kvs = Some r -> T < ip_banned_until_ms r -> exists r', spec_find ip kvs' = Some r' /\ ip_banned_until_ms r' = ip_banned_until_ms r.
Lemma bans_kept_refl T kvs : bans_kept T kvs kvs.
Proof. intros ip r Hf _. by exists r. Qed.
Lemma bans_kept_trans T a b c : bans_kept T a b -> bans_kept T b c -> bans_kept T a c.
Proof. intros H1 H2 ip r Hf Hb. destruct (H1 ip r Hf Hb) as (r1 & Hf1 & E1). destruct (H2 ip r1 Hf1 ltac:(lia)) as (r2 & Hf2 & E2). exists r2. split; [done|congruence]. Qed.
(** The record a reference points at: the first row, or the scratch record. *)
Definition at_place (b : Z) t (p : option Z) (ip : Ip) (r : IpRecord) kvs : Prop :=
  table_ok b t kvs /\ rec_ok b r /\
  match p with
  | Some i => i = lru_head (bt_ips t) /\ exists rest, kvs = (ip, r) :: rest
  | None => True
  end.
Lemma recs_head b ip r (rest : list (Ip * IpRecord)) : rec_ok b r -> Forall (fun kv => rec_ok b (snd kv)) rest -> Forall (fun kv : Ip * IpRecord => rec_ok b (snd kv)) ((ip, r) :: rest).
Proof. intros Hr Hs. by constructor. Qed.
Lemma write_ok b T t p ip r kvs r' : at_place b t p ip r kvs -> rec_ok b r' -> (T < ip_banned_until_ms r -> ip_banned_until_ms r' = ip_banned_until_ms r) ->
  exists t' kvs', bt_write t p r' = Ok t' /\ at_place b t' p ip r' kvs' /\ bans_kept T kvs kvs' /\ bt_pol t' = bt_pol t /\ lru_cap (bt_ips t') = lru_cap (bt_ips t) /\ bt_bans_issued t' = bt_bans_issued t.
Proof.
  intros ([Hh Hr Hb Hs Hp] & Hrec & Hpl) Hr' Hban. destruct p as [i|]; cbn [bt_write].
  - destruct Hpl as (-> & rest & ->). destruct (head_slot _ _ _ _ Hh) as [_ Hset]. destruct (Hset r') as (l' & Hl' & Hh' & Hc). pose proof (lru_set_head _ _ _ _ Hl') as Hhd. rewrite Hl'. cbn [obind]. exists (with_ips t l'), ((ip, r') :: rest). apply list.Forall_cons in Hr as [_ Hr].
    split; [done|]. split; [split; [split; try done; by apply recs_head|]; split; [done|]; split; [by rewrite <- Hhd|by exists rest]|]. split; [|done]. intros ip0 r0 Hf H0. cbn [spec_find] in *. destruct (decide (ip = ip0)) as [->|]; [|by exists r0]. injection Hf as <-. exists r'. split; [done|by apply Hban].
  - eexists _, kvs. split; [done|]. split; [|split; [apply bans_kept_refl|done]]. split; [by split|done].
Qed.
Lemma decayed_ok b T t kvs ip now : table_ok b t kvs -> 0 <= b < 2 ^ 24 -> 0 <= now <= T -> T < 2 ^ 62 ->
  exists p r t' kvs', decayed t ip now = Ok (p, r, t') /\ at_place (b + 1) t' p ip r kvs' /\ rec_ok b r /\ bans_kept T kvs kvs' /\ bt_pol t' = bt_pol t /\ lru_cap (bt_ips t') = lru_cap (bt_ips t) /\ bt_bans_issued t' = bt_bans_issued t /\
    (forall r0, spec_find ip kvs = Some r0 -> ip_banned_until_ms r = ip_banned_until_ms r0).
Proof.
  intros [Hh Hr Hb Hs Hp] Hbb Hn HT. unfold decayed. pose proof (protected_ok (bt_ips t) kvs ip IpRecord_default (evictable now) Hh) as Hpr. destruct (spec_protected _ _ _ _ _) as [[r0 rest]|] eqn:E.
  - destruct Hpr as (l1 & -> & Hh1 & Hc1). cbn [obind]. destruct (head_slot _ _ _ _ Hh1) as [-> Hset]. cbn [obind].
    assert (Hr0 : rec_ok b r0).
    { unfold spec_protected in E. destruct (spec_find ip kvs) as [x|] eqn:Ef; [injection E as <- _; rewrite List.Forall_forall in Hr; apply (Hr (ip, x)), find_in, Ef|]. assert (r0 = IpRecord_default) as -> by (destruct (_ <? _); [by injection E|destruct (spec_evict _ _); [by injection E|done]]). apply rec_ok_default. lia. }
    destruct (decay_record_ok b r0 now (bp_decay_secs (bt_pol t)) Hr0 ltac:(lia) (po_decay _ Hp)) as (r & -> & Hrk & Hbu & _). cbn [obind]. destruct (Hset r) as (l2 & Hl2 & Hh2 & Hc2). pose proof (lru_set_head _ _ _ _ Hl2) as Hhd. rewrite Hl2. cbn [obind]. rewrite <- Hhd.
    exists (Some (lru_head l2)), r, (with_ips t l2), ((ip, r) :: rest). split; [done|]. assert (Hrest : Forall (fun kv => rec_ok b (snd kv)) rest) by (rewrite List.Forall_forall in Hr |- *; intros kv Hin; apply Hr; by eapply in_protected).
    split; [split; [|split; [by apply (rec_ok_mono b); [lia|]|split; [done|by exists rest]]]; apply (table_ok_mono b); [lia|]; split; try done; by apply recs_head|]. split; [done|]. split; [|split; [done|split; [cbn [bt_ips with_ips]; congruence|split; [done|]]]].
    + intros ip' r' Hf Hban. cbn [spec_find]. destruct (decide (ip = ip')) as [<-|Hne].
      * exists r. split; [done|]. unfold spec_protected in E. rewrite Hf in E. injection E as <- _. done.
      * exists r'. split; [|done]. eapply protected_keeps; [exact E|congruence|exact Hf|]. unfold evictable. destruct (Z.leb_spec (ip_banned_until_ms r') now); [lia|]. by rewrite andb_false_r.
    + intros x Hf. unfold spec_protected in E. rewrite Hf in E. injection E as <- _. done.
  - rewrite Hpr. cbn [obind]. unfold add_checked, expect, checked_add, checked. rewrite (proj2 (fits_spec 64 _)) by lia. cbn [obind]. assert (Hrs : rec_ok b (ip_first_seen IpRecord_default now)) by (apply first_seen_ok; [lia|apply rec_ok_default; lia]).
    exists None, (ip_first_seen IpRecord_default now). eexists _, kvs. split; [done|]. split; [split; [|split; [by apply (rec_ok_mono b); [lia|]|done]]|].
    + split; cbn [bt_ips bt_bans_issued bt_saturated bt_pol]; try done; try lia. eapply List.Forall_impl; [|exact Hr]. intros kv. apply rec_ok_mono. lia.
    + split; [done|]. split; [apply bans_kept_refl|]. split; [done|]. split; [done|]. split; [done|]. intros x Hf. unfold spec_protected in E. by rewrite Hf in E.
Qed.

(** *** Operations *)
Inductive ban_op := Penalise (ip : Ip) (points : Z) (severity : Severity) | ThrottleIp (ip : Ip) | AdmitIp (ip : Ip) (caps : Caps) (total_conns : Z) | ReleaseIp (ip : Ip) | AskIp (ip : Ip).
Definition ban_step (s : BanTable Ip * Bucket) (nop : Z * ban_op) : outcome Empty_set (BanTable Ip * Bucket) :=
  let '(t, accept) := s in let '(now, op) := nop in
  match op with
  | Penalise ip points severity => let? (_, t) := penalise t ip points severity now in Ok (t, accept)
  | ThrottleIp ip => let? t := throttle t ip now in Ok (t, accept)
  | AdmitIp ip caps total => let? (at_, accept) := admit_conn take t ip now caps total accept in Ok (snd at_, accept)
  | ReleaseIp ip => let? t := bt_release t ip now in Ok (t, accept)
  | AskIp ip => let? (_, t) := is_banned t ip now in Ok (t, accept)
  end.
Definition op_ok (T : Z) (nop : Z * ban_op) : Prop :=
  0 <= fst nop <= T /\ match snd nop with Penalise _ points _ => 0 <= points <= 100 | _ => True end.
(** What one operation leaves. *)
Definition stepped (b T : Z) t kvs t' : Prop := exists kvs', table_ok (b + 1) t' kvs' /\ bans_kept T kvs kvs' /\ bt_pol t' = bt_pol t /\ lru_cap (bt_ips t') = lru_cap (bt_ips t).
Lemma stepped_same b T t kvs : table_ok b t kvs -> stepped b T t kvs t.
Proof. intros Ht. exists kvs. split; [apply (table_ok_mono b); [lia|done]|]. split; [apply bans_kept_refl|done]. Qed.
Lemma score_ok b r pts (sev : Severity) : 0 <= b < 2 ^ 24 -> rec_ok b r -> 0 <= pts <= 100 ->
  let r' := match sev with
            | Soft => ip_set_score r (ip_hard r) (saturating_add 32 (ip_soft r) pts) (ip_last_decay_ms r)
            | Hard => ip_set_score r (saturating_add 32 (ip_hard r) pts) (ip_soft r) (ip_last_decay_ms r)
            end in rec_ok (b + 1) r' /\ ip_banned_until_ms r' = ip_banned_until_ms r.
Proof. intros Hb [] Hp r'. unfold r'. destruct sev; (split; [split|done]); cbn; unfold saturating_add, umax in *; lia. Qed.
Lemma effective_ok b r cap : rec_ok b r -> 0 <= b <= 2 ^ 24 -> 0 <= cap < 2 ^ 16 -> exists e, effective r cap = Ok e.
Proof. intros [] Hb Hc. unfold effective, add_checked, expect, checked_add, checked. rewrite (proj2 (fits_spec 32 _)) by lia. by eexists. Qed.
Lemma ban_secs_nonneg n : forall s l m, 0 <= s -> 0 <= l -> 0 <= ban_secs n s l m.
Proof. induction n as [|n IH]; intros s l m Hs Hl; [done|]. cbn [ban_secs]. assert (0 <= saturating_mul 64 s l) by (unfold saturating_mul, umax; nia). destruct (_ <=? _); [done|by apply IH]. Qed.
Section Step.
Variables (b T : Z).
Hypothesis Hb : 0 <= b < 2 ^ 24.
Hypothesis HT : T < 2 ^ 62.
Ltac start t ip now Ht Hn :=
  destruct (decayed_ok b T t _ ip now Ht Hb Hn HT) as (p & r & t1 & kvs1 & -> & Hpl & Hrec & Hk1 & Hp1 & Hc1 & Hi1 & Hfind); cbn [obind fst snd].
Lemma penalise_ok t kvs ip pts sev now : table_ok b t kvs -> 0 <= now <= T -> 0 <= pts <= 100 -> exists o t', penalise t ip pts sev now = Ok (o, t') /\ stepped b T t kvs t'.
Proof.
  intros Ht Hn Hp. unfold penalise. destruct (_ || _); [exists None, t; split; [done|by apply stepped_same]|]. start t ip now Ht Hn. destruct (score_ok b r pts sev Hb Hrec Hp) as [Hr' Hbu]. set (r' := match sev with Soft => _ | Hard => _ end) in *. pose proof (to_pol _ _ _ Ht) as Hpol.
  destruct (effective_ok (b + 1) r' (bp_soft_cap (bt_pol t)) Hr' ltac:(lia) (po_soft _ Hpol)) as (e & ->). cbn [obind]. destruct (_ || _) eqn:Hc.
  - destruct (write_ok (b + 1) T t1 p ip r kvs1 r' Hpl Hr') as (t2 & kvs2 & -> & (Ht2 & _) & Hk2 & Hp2 & Hc2 & Hi2); [by intros _|]. cbn [obind]. exists None, t2. split; [done|]. exists kvs2. split; [done|]. split; [by eapply bans_kept_trans|]. split; congruence.
  - apply orb_false_iff in Hc as [_ Hnb]. apply Z.ltb_ge in Hnb. set (secs := Z.min _ (bp_max_secs (bt_pol t))).
    assert (Hs : 0 <= secs < 2 ^ 40) by (pose proof (po_max _ Hpol); pose proof (ban_secs_nonneg (Z.to_nat (ip_ban_count r')) (bp_base_secs (bt_pol t)) (Z.max (bp_ladder_factor (bt_pol t)) 1) (bp_max_secs (bt_pol t)) (po_base _ Hpol) ltac:(lia)); unfold secs; lia).
    unfold expect at 1, checked. rewrite (proj2 (fits_spec 64 _)) by lia. cbn [obind]. unfold add_checked at 1, expect, checked_add, checked. rewrite (proj2 (fits_spec 64 _)) by lia. cbn [obind].
    destruct (write_ok (b + 1) T t1 p ip r kvs1 (ip_set_ban r' (now + secs * 1000) (saturating_add 32 (ip_ban_count r') 1)) Hpl) as (t2 & kvs2 & -> & (Ht2 & _) & Hk2 & Hp2 & Hc2 & Hi2).
    { destruct Hr'. split; cbn; try done; unfold saturating_add, umax in *; lia. }
    { intros Hlt. rewrite <- Hbu in Hlt. lia. }
    cbn [obind]. pose proof (to_bans _ _ _ Ht). unfold add_checked, expect, checked_add, checked. rewrite (proj2 (fits_spec 64 _)) by lia. cbn [obind]. eexists _, _. split; [done|]. exists kvs2. destruct Ht2 as [Hh2 Hr2 Hb2 Hs2 Hpo2].
    split; [split; cbn [bt_ips bt_bans_issued bt_saturated bt_pol]; try done; lia|]. split; [by eapply bans_kept_trans|]. cbn [bt_pol bt_ips]. split; [done|congruence].
Qed.
Lemma throttle_ok t kvs ip now : table_ok b t kvs -> 0 <= now <= T -> exists t', throttle t ip now = Ok t' /\ stepped b T t kvs t'.
Proof.
  intros Ht Hn. unfold throttle. destruct (_ || _); [exists t; split; [done|by apply stepped_same]|]. start t ip now Ht Hn. pose proof (po_throttle _ (to_pol _ _ _ Ht)). unfold add_checked, expect, checked_add, checked. rewrite (proj2 (fits_spec 64 _)) by lia. cbn [obind].
  destruct (write_ok (b + 1) T t1 p ip r kvs1 (ip_set_throttle r (now + bp_throttle_ms (bt_pol t))) Hpl) as (t2 & kvs2 & -> & (Ht2 & _) & Hk2 & Hp2 & Hc2 & Hi2); [apply (rec_ok_mono b); [lia|]; by destruct Hrec|done|]. exists t2. split; [done|]. exists kvs2. split; [done|]. split; [by eapply bans_kept_trans|]. split; congruence.
Qed.
Lemma release_ok t kvs ip now : table_ok b t kvs -> 0 <= now <= T -> exists t', bt_release t ip now = Ok t' /\ stepped b T t kvs t'.
Proof.
  intros Ht Hn. unfold bt_release. start t ip now Ht Hn.
  destruct (write_ok (b + 1) T t1 p ip r kvs1 (ip_set_conns r (saturating_sub (ip_conns r) 1) (ip_new_conns r) (ip_new_conn_window_ms r)) Hpl) as (t2 & kvs2 & -> & (Ht2 & _) & Hk2 & Hp2 & Hc2 & Hi2); [apply (rec_ok_mono b); [lia|]; destruct Hrec; split; cbn; try done; unfold saturating_sub; lia|done|].
  exists t2. split; [done|]. exists kvs2. split; [done|]. split; [by eapply bans_kept_trans|]. split; congruence.
Qed.
Lemma is_banned_ok t kvs ip now : table_ok b t kvs -> 0 <= now <= T -> exists v t', is_banned t ip now = Ok (v, t') /\ stepped b T t kvs t' /\
  (bp_enabled (bt_pol t) = true -> forall r, spec_find ip kvs = Some r -> v = (now <? ip_banned_until_ms r)).
Proof.
  intros Ht Hn. unfold is_banned. destruct (bp_enabled (bt_pol t)) eqn:He; cbn [negb]; [|exists false, t; split; [done|]; split; [by apply stepped_same|done]]. start t ip now Ht Hn.
  eexists _, t1. split; [done|]. split; [exists kvs1; split; [apply Hpl|]; split; [done|]; split; congruence|]. intros _ r0 Hf. by rewrite (Hfind r0 Hf).
Qed.
Lemma admit_ok t kvs ip now caps total accept : table_ok b t kvs -> 0 <= now <= T -> exists v t' accept', admit_conn take t ip now caps total accept = Ok (v, t', accept') /\ stepped b T t kvs t' /\
  (forall r, spec_find ip kvs = Some r -> now < ip_banned_until_ms r -> (v = AdmitBanned \/ v = ServerFull) /\ accept' = accept).
Proof.
  intros Ht Hn. unfold admit_conn. destruct (_ && _); [exists ServerFull, t, accept; split; [done|]; split; [by apply stepped_same|intros; split; [by right|done]]|]. start t ip now Ht Hn. set (r1 := if 60000 <=? _ then _ else r). set (r2 := ip_set_conns r1 _ _ _).
  assert (H1 : rec_ok b r2 /\ ip_banned_until_ms r2 = ip_banned_until_ms r) by (unfold r2, r1; destruct Hrec; destruct (60000 <=? _); (split; [split|done]); cbn; try done; unfold saturating_add, umax in *; lia). destruct H1 as [H2 Hbu2]. clearbody r2. clear r1.
  destruct (write_ok (b + 1) T t1 p ip r kvs1 r2 Hpl ltac:(apply (rec_ok_mono b); [lia|done])) as (t2 & kvs2 & -> & Hpl2 & Hk2 & Hp2 & Hc2 & Hi2); [done|]. cbn [obind].
  assert (Hst : stepped b T t kvs t2) by (exists kvs2; split; [apply Hpl2|]; split; [by eapply bans_kept_trans|]; split; congruence).
  destruct (Z.ltb_spec now (ip_banned_until_ms r2)) as [Hlt|Hge]; [exists AdmitBanned, t2, accept; split; [done|]; split; [done|intros; split; [by left|done]]|].
  assert (Hno : forall r0, spec_find ip kvs = Some r0 -> now < ip_banned_until_ms r0 -> False) by (intros r0 Hf Hlt; rewrite <- (Hfind r0 Hf) in Hlt; lia).
  destruct (now <? _); [exists Throttled, t2, accept; split; [done|]; split; [done|intros r0 Hf Hlt; destruct (Hno r0 Hf Hlt)]|]. destruct (_ && _); [exists PerIpLimit, t2, accept; split; [done|]; split; [done|intros r0 Hf Hlt; destruct (Hno r0 Hf Hlt)]|].
  destruct (_ && _); [exists PerIpRate, t2, accept; split; [done|]; split; [done|intros r0 Hf Hlt; destruct (Hno r0 Hf Hlt)]|]. destruct (take accept now) as [ok accept'].
  destruct ok; cbn [negb]; [|exists AcceptRate, t2, accept'; split; [done|]; split; [done|intros r0 Hf Hlt; destruct (Hno r0 Hf Hlt)]]. pose proof (ro_conns _ _ H2). unfold add_checked, expect, checked_add, checked. rewrite (proj2 (fits_spec 32 _)) by lia. cbn [obind].
  destruct (write_ok (b + 1) T t2 p ip r2 kvs2 (ip_set_conns r2 (ip_conns r2 + 1) (ip_new_conns r2) (ip_new_conn_window_ms r2)) Hpl2) as (t3 & kvs3 & -> & Hpl3 & Hk3 & Hp3 & Hc3 & _); [destruct H2; split; cbn; try done; lia|done|]. cbn [obind].
  exists AdmitOk, t3, accept'. split; [done|]. split; [|intros r0 Hf Hlt; destruct (Hno r0 Hf Hlt)]. exists kvs3. split; [apply Hpl3|]. split; [eapply bans_kept_trans; [exact Hk1|]; by eapply bans_kept_trans|]. split; congruence.
Qed.
Lemma ban_step_ok t kvs accept nop : table_ok b t kvs -> op_ok T nop -> exists t' accept', ban_step (t, accept) nop = Ok (t', accept') /\ stepped b T t kvs t'.
Proof.
  destruct nop as [now [ip pts sev|ip|ip caps total|ip|ip]]; intros Ht [Hn Hp]; cbn [fst snd ban_step] in *.
  - destruct (penalise_ok t kvs ip pts sev now Ht Hn Hp) as (o & t' & -> & Hs). cbn [obind]. by eexists _, _.
  - destruct (throttle_ok t kvs ip now Ht Hn) as (t' & -> & Hs). cbn [obind]. by eexists _, _.
  - destruct (admit_ok t kvs ip now caps total accept Ht Hn) as (v & t' & a' & -> & Hs & _). cbn [obind]. by eexists _, _.
  - destruct (release_ok t kvs ip now Ht Hn) as (t' & -> & Hs). cbn [obind]. by eexists _, _.
  - destruct (is_banned_ok t kvs ip now Ht Hn) as (v & t' & -> & Hs & _). cbn [obind]. by eexists _, _.
Qed.
End Step.
Lemma ip_ban_run_ok T ops : T < 2 ^ 62 -> forall b t kvs accept, table_ok b t kvs -> 0 <= b -> b + Zlen ops < 2 ^ 24 -> Forall (op_ok T) ops ->
  exists t' accept' kvs', ofold ban_step (t, accept) ops = Ok (t', accept') /\ table_ok (b + Zlen ops) t' kvs' /\ bans_kept T kvs kvs' /\ bt_pol t' = bt_pol t /\ lru_cap (bt_ips t') = lru_cap (bt_ips t).
Proof.
  intros HT. induction ops as [|op ops IH]; intros b t kvs accept Ht Hb Hlen Hops; cbn [ofold].
  { exists t, accept, kvs. split; [done|]. split; [apply (table_ok_mono b); [change (Zlen (@nil (Z * ban_op))) with 0; lia|done]|]. split; [apply bans_kept_refl|done]. }
  apply list.Forall_cons in Hops as [Hop Hops]. rewrite Zlen_cons in *. pose proof (Zlen_nonneg ops). destruct (ban_step_ok b T ltac:(lia) HT t kvs accept op Ht Hop) as (t1 & a1 & -> & kvs1 & Ht1 & Hk1 & Hp1 & Hc1). cbn [obind].
  destruct (IH (b + 1) t1 kvs1 a1 Ht1) as (t2 & a2 & kvs2 & -> & Ht2 & Hk2 & Hp2 & Hc2); [lia..|done|]. exists t2, a2, kvs2. split; [done|]. split; [by replace (b + (1 + Zlen ops)) with (b + 1 + Zlen ops) by lia|]. split; [by eapply bans_kept_trans|]. split; congruence.
Qed.

(** C35. No traffic makes the server forget a ban. Take a table in order and any run of operations on any sources up to a time [T]: penalties, throttles,
    connection attempts, releases and questions, of at most [2^24] in all. The run never panics, the table never grows beyond its capacity, and a source that was banned until
    after [T] is still refused at [T], and the attempt leaves the shared budget for new connections untouched. *)
Theorem live_ban_survives_churn (t : BanTable Ip) kvs accept b T ops ip r caps total :
  table_ok b t kvs -> 0 <= b -> 0 <= T < 2 ^ 62 -> b + Zlen ops < 2 ^ 24 - 1 -> Forall (op_ok T) ops -> bp_enabled (bt_pol t) = true -> spec_find ip kvs = Some r -> T < ip_banned_until_ms r ->
  exists t' accept', ofold ban_step (t, accept) ops = Ok (t', accept') /\ lru_len (bt_ips t') <= lru_cap (bt_ips t) /\
    (exists t'', is_banned t' ip T = Ok (true, t'')) /\
    (exists v t'', admit_conn take t' ip T caps total accept' = Ok (v, t'', accept') /\ (v = AdmitBanned \/ v = ServerFull)).
Proof.
  intros Ht Hb HT Hlen Hops Hen Hf Hban. pose proof (Zlen_nonneg ops). destruct (ip_ban_run_ok T ops ltac:(lia) b t kvs accept Ht Hb ltac:(lia) Hops) as (t' & a' & kvs' & He & Ht' & Hk & Hp & Hc). exists t', a'. split; [done|].
  destruct (Hk ip r Hf Hban) as (r' & Hf' & Hr'). split; [|split].
  - rewrite <- Hc, (lru_len_holds _ _ (to_holds _ _ _ Ht')). destruct (to_holds _ _ _ Ht') as (ids & _ & _ & Hrows & _ & Hcap & _). apply list.Forall2_length in Hrows. unfold Zlen in *. lia.
  - destruct (is_banned_ok (b + Zlen ops) T ltac:(lia) ltac:(lia) t' kvs' ip T Ht' ltac:(lia)) as (v & t'' & He' & _ & Hv). exists t''. rewrite He'. rewrite (Hv ltac:(congruence) r' Hf'). do 2 f_equal. f_equal. apply Z.ltb_lt. lia.
  - destruct (admit_ok (b + Zlen ops) T ltac:(lia) ltac:(lia) t' kvs' ip T caps total a' Ht' ltac:(lia)) as (v & t'' & a'' & He' & _ & Hv). destruct (Hv r' Hf' ltac:(lia)) as [Hv' ->]. by exists v, t''.
Qed.
End Table.
Definition sample_banned : IpRecord := MkIpRecord true 0 0 0 1000 1 0 0 0 0.
Definition sample_table (l : Lru Z IpRecord) : BanTable Z := MkBanTable l 0 0 IpRecord_default BanPolicy_DEFAULT.
Lemma live_ban_survives_churn_witness :
  exists l t' a', lru_put (Lru_new 2) 1 sample_banned = Ok l /\
    ofold (ban_step (fun (_ : unit) _ => (true, tt))) (sample_table l, tt) [(5, Penalise 2 100 Hard); (6, AdmitIp 3 Caps_SOLO 0); (7, ReleaseIp 4)] = Ok (t', a') /\
    exists t'', is_banned t' 1 999 = Ok (true, t'').
Proof.
  destruct (lru_put_ok (K := Z) (V := IpRecord) (Lru_new 2) [] 1 sample_banned (Lru_new_holds 2 ltac:(unfold NIL, umax; lia))) as (l & Hl & Hh & _). exists l.
  destruct (live_ban_survives_churn (fun (_ : unit) _ => (true, tt)) (sample_table l) [(1, sample_banned)] tt 1 999 [(5, Penalise 2 100 Hard); (6, AdmitIp 3 Caps_SOLO 0); (7, ReleaseIp 4)] 1 sample_banned Caps_SOLO 0) as (t' & a' & He & _ & Hb & _).
  - split; cbn [sample_table bt_ips bt_bans_issued bt_saturated bt_pol]; [exact Hh|apply recs_head; [split; cbn; unfold umax; lia|apply List.Forall_nil]|lia|lia|split; vm_compute; intuition congruence].
  - lia.
  - lia.
  - cbn. unfold Zlen. cbn. lia.
  - repeat constructor; cbn; lia.
  - reflexivity.
  - reflexivity.
  - cbn. lia.
  - exists t', a'. split; [exact Hl|]. split; [exact He|exact Hb].
Defined.
