(* ===== verification/Stratum.v ===== *)
(** The mining server's data (src/lib/stratum/src/target.rs, nonce.rs, job.rs and the constants of limits.rs): share targets and difficulties, the slices of the nonce space
    handed to connections, and the jobs a connection may still submit shares for. The vector of the allocator is a list of 64-bit words; a template is opaque. *)

From Stdlib Require Import ZArith Lia List.
From stdpp Require Import base list gmap numbers.
From S2P Require Import Prelude Constants Hex Limbs Asert.
Import ListNotations.
Open Scope Z_scope.

(** ** limits.rs *)
Definition E1_BITS : Z := 24.
Definition X_BITS : Z := 64 - E1_BITS.
Definition E1_SPACE : Z := Z.shiftl 1 E1_BITS.
Definition JOB_PREFIX_BYTES : Z := HEADER_BYTES - 8.
Definition JOB_SLOTS : Z := 4.
Definition DEDUP_PER_JOB : Z := 256.
Definition STALE_CREDIT_GRACE_MS : Z := 5 * 1000.

(** ** target.rs: 32 bytes, the most significant first *)
Definition ShareTarget_MAX : bytes := replicate 32 255.
Definition accepts (t digest_be : bytes) : bool := bytes_leb digest_be t.
Definition limbs_to_be (l : list Z) : bytes := concat (rev (be_bytes 8 <$> l)).
Definition share_from_compact (bits : Z) : option bytes :=
  match from_compact bits with
  | Ok t => Some (limbs_to_be t)
  | _ => None
  end.
(** One step of the long division, over the limbs of the dividend from the most significant one. *)
Definition div_limb (d : Z) (s : list Z * Z) (x : Z) : list Z * Z :=
  let '(q, rem) := s in
  let cur := Z.lor (Z.shiftl rem 64) x in
  (wrap 64 (cur / d) :: q, wrap 64 (cur mod d)).
Definition from_difficulty (d : Z) : bytes :=
  if d <=? 1 then ShareTarget_MAX else
  let '(q, _) := fold_left (div_limb d) (rev [0; 0; 0; 0; 1]) ([], 0) in
  limbs_to_be (take 4 q).
(** The remainder is shifted left by one bit, byte by byte from the end; then the divisor is taken off it, with a borrow. *)
Fixpoint shl1_bytes (l : bytes) (carry : Z) : bytes * Z :=
  match l with
  | [] => ([], carry)
  | x :: l =>
    let '(l, c) := shl1_bytes l carry in
    let v := Z.lor (Z.shiftl x 1) c in
    (wrap 8 v :: l, wrap 8 (Z.shiftr v 8))
  end.
Fixpoint sub_bytes (a b : bytes) : bytes * Z :=
  match a, b with
  | x :: a, y :: b =>
    let '(r, borrow) := sub_bytes a b in
    let v := x - y - borrow in
    if v <? 0 then (wrap 8 (v + 256) :: r, 1) else (wrap 8 v :: r, 0)
  | _, _ => ([], 0)
  end.
(** The loop over the bits of [2^256]: [None] is the early return when the quotient leaves 64 bits. *)
Fixpoint difficulty_loop (bits : list Z) (divisor rem : bytes) (q : Z) : option Z :=
  match bits with
  | [] => Some q
  | bit :: bits =>
    let '(rem, carry) := shl1_bytes rem (if bit =? 256 then 1 else 0) in
    if negb (carry =? 0) || bytes_leb divisor rem then
      let '(rem, _) := sub_bytes rem divisor in
      match checked 64 (q * 2) with
      | Some q => match checked_add 64 q 1 with Some q => difficulty_loop bits divisor rem q | None => None end
      | None => None
      end
    else match checked 64 (q * 2) with Some q => difficulty_loop bits divisor rem q | None => None end
  end.
Definition to_difficulty (t : bytes) : Z :=
  if bytes_eqb t (replicate 32 0) then umax 64 else
  default (umax 64) (difficulty_loop (rev (zrange 0 257)) t (replicate 32 0) 0).

(** ** nonce.rs *)
Definition e1_owns (e1 nonce : Z) : bool := wrap 32 (Z.shiftr nonce X_BITS) =? e1.
Definition e1_compose (e1 x : Z) : Z := Z.lor (wrap 64 (Z.shiftl e1 X_BITS)) (Z.land x (Z.shiftl 1 X_BITS - 1)).
Definition slice_fixed (e1 sub sub_bits : Z) : Z := Z.lor (wrap 64 (Z.shiftl e1 sub_bits)) sub.
Definition slice_owns (e1 sub sub_bits nonce : Z) : bool := Z.shiftr nonce (X_BITS - sub_bits) =? slice_fixed e1 sub sub_bits.
Definition assemble_header (prefix : bytes) (nonce : Z) : bytes := prefix ++ le_bytes 8 nonce.
Fixpoint parse_nibbles (s : bytes) : option bytes :=
  match s with
  | hi :: lo :: s =>
    match nibble hi, nibble lo, parse_nibbles s with
    | Some h, Some l, Some rest => Some (Z.lor (wrap 8 (Z.shiftl h 4)) l :: rest)
    | _, _, _ => None
    end
  | _ => Some []
  end.
Definition parse_nonce_hex (s : bytes) : option Z :=
  if negb (Zlen s =? 16) then None else
  match parse_nibbles s with
  | Some b => Some (from_le b)
  | None => None
  end.
Definition nonce_to_hex (n : Z) : bytes := hex_encode (le_bytes 8 n).

Record E1Allocator := MkE1Allocator { ea_bits : list Z; ea_cursor : Z; ea_live : Z }.
Definition E1Allocator_new : E1Allocator := MkE1Allocator (replicate (Z.to_nat (E1_SPACE / 64)) 0) 0 0.
Definition slot_taken (word b : Z) : bool := negb (Z.land word (Z.shiftl 1 b) =? 0).
Fixpoint acquire_loop (fuel : nat) (a : E1Allocator) : outcome Empty_set (option Z * E1Allocator) :=
  match fuel with
  | O => Ok (None, a)
  | S fuel =>
    let v := ea_cursor a in
    let cursor := Z.land (v + 1) (E1_SPACE - 1) in
    let? word := expect (zlookup (ea_bits a) (v / 64)) in
    if negb (slot_taken word (v mod 64)) then
      let? live := add_checked 64 (ea_live a) 1 in
      Ok (Some v, MkE1Allocator (zinsert (ea_bits a) (v / 64) (Z.lor word (Z.shiftl 1 (v mod 64)))) cursor live)
    else acquire_loop fuel (MkE1Allocator (ea_bits a) cursor (ea_live a))
  end.
Definition acquire (a : E1Allocator) : outcome Empty_set (option Z * E1Allocator) := acquire_loop (Z.to_nat E1_SPACE) a.
Definition release (a : E1Allocator) (e1 : Z) : outcome Empty_set E1Allocator :=
  let v := Z.land e1 (E1_SPACE - 1) in
  let? word := expect (zlookup (ea_bits a) (v / 64)) in
  if slot_taken word (v mod 64) then
    let? live := expect (checked 64 (ea_live a - 1)) in
    Ok (MkE1Allocator (zinsert (ea_bits a) (v / 64) (Z.land word (Z.lxor (Z.shiftl 1 (v mod 64)) (umax 64)))) (ea_cursor a) live)
  else Ok a.

(** ** job.rs *)
Section Jobs.
Context {Template : Type}.
(** The nonces of [Dedup] that are in use: [nonces[..len]]. *)
Definition Dedup := list Z.
Definition dedup_check (d : Dedup) (nonce : Z) : bool * Dedup :=
  if existsb (Z.eqb nonce) d then (true, d)
  else (false, if Zlen d <? DEDUP_PER_JOB then d ++ [nonce] else d).
Record Job := MkJob { j_id : Z; j_template : Template; j_served_target : bytes; j_served_difficulty : Z; j_pushed_at_ms : Z; j_dedup : option Dedup }.
Definition check_and_record (j : Job) (nonce : Z) : bool * Job :=
  let '(dup, d) := dedup_check (default [] (j_dedup j)) nonce in
  (dup, MkJob (j_id j) (j_template j) (j_served_target j) (j_served_difficulty j) (j_pushed_at_ms j) (Some d)).
Inductive JobRef := RefLive (i : Z) | RefPrevious.
Inductive JobLookup := Live (i : Z) | StaleCredited | Stale | Unknown.
Definition job_ref (l : JobLookup) : option JobRef :=
  match l with
  | Live i => Some (RefLive i)
  | StaleCredited => Some RefPrevious
  | _ => None
  end.
Record JobSlots := MkJobSlots { js_ring : list (option Job); js_next_id : Z; js_head : Z; js_previous : option Job; js_last_clean_ms : Z }.
Definition JobSlots_new : JobSlots := MkJobSlots (replicate (Z.to_nat JOB_SLOTS) None) 0 0 None 0.
Definition job_push (s : JobSlots) (template : Template) (served_target : bytes) (served_difficulty : Z) (clean : bool) (now_ms : Z) : outcome Empty_set (Z * JobSlots) :=
  let? s :=
    (if clean then
       let? old := expect (zlookup (js_ring s) (js_head s)) in
       Ok (MkJobSlots ((fun _ => None) <$> js_ring s) (js_next_id s) 0 old now_ms)
     else Ok (MkJobSlots (js_ring s) (js_next_id s) ((js_head s + 1) mod JOB_SLOTS) (js_previous s) (js_last_clean_ms s))) in
  let job_id := js_next_id s in
  let job := MkJob job_id template served_target served_difficulty now_ms None in
  let? _ := expect (zlookup (js_ring s) (js_head s)) in
  Ok (job_id, MkJobSlots (zinsert (js_ring s) (js_head s) (Some job)) (wrap 32 (job_id + 1)) (js_head s) (js_previous s) (js_last_clean_ms s)).
Definition newest (s : JobSlots) : outcome Empty_set (option Job) := expect (zlookup (js_ring s) (js_head s)).
Fixpoint find_slot (i : Z) (ring : list (option Job)) (job_id : Z) : option Z :=
  match ring with
  | [] => None
  | slot :: ring =>
    match slot with
    | Some j => if j_id j =? job_id then Some i else find_slot (i + 1) ring job_id
    | None => find_slot (i + 1) ring job_id
    end
  end.
Definition job_lookup (s : JobSlots) (job_id now_ms : Z) : JobLookup :=
  match find_slot 0 (js_ring s) job_id with
  | Some i => Live i
  | None =>
    if bool_decide (j_id <$> js_previous s = Some job_id) then
      if saturating_sub now_ms (js_last_clean_ms s) <=? STALE_CREDIT_GRACE_MS then StaleCredited else Stale
    else if job_id <? js_next_id s then Stale else Unknown
  end.
Definition job_get (s : JobSlots) (r : JobRef) : option Job :=
  match r with
  | RefLive i => match zlookup (js_ring s) i with Some o => o | None => None end
  | RefPrevious => js_previous s
  end.
Definition check_duplicate (s : JobSlots) (r : JobRef) (nonce : Z) : bool * JobSlots :=
  match job_get s r with
  | None => (false, s)
  | Some j =>
    let '(dup, j) := check_and_record j nonce in
    (dup, match r with
          | RefLive i => MkJobSlots (zinsert (js_ring s) i (Some j)) (js_next_id s) (js_head s) (js_previous s) (js_last_clean_ms s)
          | RefPrevious => MkJobSlots (js_ring s) (js_next_id s) (js_head s) (Some j) (js_last_clean_ms s)
          end)
  end.
End Jobs.
Arguments Job : clear implicits.
Arguments JobSlots : clear implicits.
