(* ===== verification/StratumProps.v ===== *)
(** What the mining server's data promises: a share target is the integer quotient [2^256 / d] whatever the difficulty, the two conversions are inverse of each other, and
    a digest is accepted exactly when it is numerically small enough; a nonce slice is never handed to two connections. *)

From Stdlib Require Import ZArith Lia List.
From stdpp Require Import base list gmap numbers.
From S2P Require Import Prelude Constants Hex Limbs Asert Stratum.
Import ListNotations.
Open Scope Z_scope.

Lemma shift_or x y w : 0 <= w -> 0 <= y < 2 ^ w -> Z.lor (Z.shiftl x w) y = x * 2 ^ w + y.
Proof. intros Hw Hy. rewrite Z.shiftl_mul_pow2, Z.lor_comm, (lor_add y (x * 2 ^ w) w) by (done || apply Z.mod_mul; lia). lia. Qed.

(** ** Targets *)
Definition target32 (t : bytes) : Prop := bytes_ok t /\ Zlen t = 32.
Lemma limbs_to_be_spec l n : limbs_ok n l -> bytes_ok (limbs_to_be l) /\ Zlen (limbs_to_be l) = 8 * Z.of_nat n /\ from_be (limbs_to_be l) = val l.
Proof.
  revert n. induction l as [|x l IH]; intros n [Hn Hl].
  - subst n. split; [constructor|done].
  - destruct n as [|n]; [done|]. apply list.Forall_cons in Hl as [Hx Hl]. unfold limb_ok in Hx.
    destruct (IH n ltac:(split; [by injection Hn|done])) as (Hb & HL & Hv).
    unfold limbs_to_be. cbn [fmap list_fmap rev]. rewrite concat_app. cbn [concat]. rewrite app_nil_r. fold (limbs_to_be l).
    split_and!.
    + apply Forall_app. split; [done|apply be_bytes_ok].
    + zlen. change (list_fmap Z (list Z) (be_bytes 8) l) with (be_bytes 8 <$> l). fold (limbs_to_be l). lia.
    + rewrite from_be_app. change (list_fmap Z (list Z) (be_bytes 8) l) with (be_bytes 8 <$> l). fold (limbs_to_be l).
      rewrite Hv, Zlen_be_bytes, from_be_be_bytes by (change (256 ^ Z.of_nat 8) with (2 ^ 64); lia).
      cbn [val]. change (256 ^ Z.of_nat 8) with (2 ^ 64). lia.
Qed.
(** The long division keeps the quotient and the remainder of the limbs it has read. *)
Lemma div_limb_fold d l : 0 < d < 2 ^ 64 -> Forall limb_ok l -> forall q rem p,
  Forall limb_ok q -> 0 <= rem < d -> p = val q * d + rem ->
  exists q' rem', fold_left (div_limb d) l (q, rem) = (q', rem') /\ limbs_ok (length l + length q) q' /\ 0 <= rem' < d /\
    val q' * d + rem' = p * 2 ^ (64 * Zlen l) + val (rev l).
Proof.
  intros Hd. induction 1 as [|x l Hx Hl IH]; intros q rem p Hq Hr Hp.
  - exists q, rem. split_and!; try done; try lia. change (Zlen []) with 0. rewrite Hp. cbn [rev val]. lia.
  - cbn [fold_left]. unfold div_limb at 2. rewrite shift_or by (unfold limb_ok in Hx; lia).
    unfold limb_ok in Hx. set (cur := rem * 2 ^ 64 + x).
    assert (0 <= cur / d < 2 ^ 64) by (split; [apply Z.div_pos; nia|apply Z.div_lt_upper_bound; subst cur; nia]).
    pose proof (Z.mod_pos_bound cur d ltac:(lia)).
    rewrite !wrap_small by lia.
    destruct (IH (cur / d :: q) (cur mod d) (p * 2 ^ 64 + x)) as (q' & r' & -> & Hq' & Hr' & Hv).
    { constructor; done. } { done. }
    { cbn [val]. pose proof (Z.div_mod cur d ltac:(lia)). subst p cur. nia. }
    exists q', r'. split_and!; try done; try lia.
    { destruct Hq' as [HL HF]. split; [|done]. rewrite HL. cbn [length]. lia. }
    rewrite Hv. cbn [rev]. rewrite val_app, Zlen_rev, Zlen_cons. cbn [val].
    rewrite Z.mul_add_distr_l, Z.pow_add_r by (pose proof (Zlen_nonneg l); lia). lia.
Qed.
Lemma val_take4 q : limbs_ok 5 q -> val q < 2 ^ 256 -> limbs_ok 4 (take 4 q) /\ val (take 4 q) = val q.
Proof.
  intros [Hn Hq] Hv. destruct q as [|a [|b [|c [|e [|f []]]]]]; try done. cbn [take]. cbn [val] in *.
  repeat apply list.Forall_cons in Hq as [? Hq]. unfold limb_ok in *. split; [split; [done|repeat constructor; lia]|].
  assert (f = 0) by nia. subst f. lia.
Qed.
Lemma from_difficulty_spec d : 0 <= d < 2 ^ 64 -> target32 (from_difficulty d) /\ from_be (from_difficulty d) = if d <=? 1 then 2 ^ 256 - 1 else 2 ^ 256 / d.
Proof.
  intros Hd. unfold from_difficulty. destruct (Z.leb_spec d 1) as [|H1]; [split; [split; [solve_bytes_ok|done]|done]|].
  destruct (div_limb_fold d (rev [0; 0; 0; 0; 1]) ltac:(lia) ltac:(repeat constructor; lia) [] 0 0) as (q & r & -> & Hq & Hr & Hv);
    [constructor|lia|done|].
  replace (0 * 2 ^ (64 * Zlen (rev [0; 0; 0; 0; 1])) + val (rev (rev [0; 0; 0; 0; 1]))) with (2 ^ 256) in Hv by (vm_compute; reflexivity).
  assert (val q = 2 ^ 256 / d) as Hval by (apply Z.div_unique with r; lia).
  destruct (val_take4 q Hq) as [Hq4 Hv4]; [rewrite Hval; apply Z.div_lt; lia|].
  destruct (limbs_to_be_spec (take 4 q) 4 Hq4) as (? & ? & ->). split; [split; [done|lia]|]. by rewrite Hv4.
Qed.
Lemma accepts_spec t h : target32 t -> target32 h -> accepts t h = (from_be h <=? from_be t).
Proof. intros [] []. unfold accepts. apply bytes_leb_spec; try done. lia. Qed.
Lemma shl1_bytes_spec l c l' c' :
  bytes_ok l -> 0 <= c <= 1 -> shl1_bytes l c = (l', c') ->
  bytes_ok l' /\ Zlen l' = Zlen l /\ 0 <= c' <= 1 /\ c' * 256 ^ Zlen l + from_be l' = 2 * from_be l + c.
Proof.
  intros Hl Hc. revert l' c'. induction Hl as [|x l Hx Hl IH]; intros l' c' E; cbn [shl1_bytes] in E.
  - simplify_eq. change (Zlen []) with 0. change (from_be []) with 0. split_and!; try done; lia || constructor.
  - destruct (shl1_bytes l c) as [l1 c1]. destruct (IH _ _ eq_refl) as (H1 & H2 & H3 & H4). simplify_eq. unfold byte_ok in Hx.
    rewrite shift_or by lia. set (v := x * 2 ^ 1 + c1). assert (0 <= v < 512) by lia.
    rewrite Z.shiftr_div_pow2 by lia. change (2 ^ 8) with 256.
    assert (0 <= v / 256 <= 1) by (split; [apply Z.div_pos; lia|]; apply Z.lt_succ_r, Z.div_lt_upper_bound; lia).
    pose proof (Z.div_mod v 256 ltac:(lia)). pose proof (Z.mod_pos_bound v 256 ltac:(lia)).
    rewrite (wrap_small 8 (v / 256)) by lia. unfold wrap. change (2 ^ 8) with 256. split_and!; try lia.
    + constructor; done.
    + rewrite !Zlen_cons. lia.
    + rewrite !from_be_cons, Zlen_cons, H2, Z.pow_add_r by (pose proof (Zlen_nonneg l); lia). nia.
Qed.
Lemma sub_bytes_spec a : forall b r w, bytes_ok a -> bytes_ok b -> Zlen a = Zlen b -> sub_bytes a b = (r, w) ->
  bytes_ok r /\ Zlen r = Zlen a /\ 0 <= w <= 1 /\ from_be r - w * 256 ^ Zlen a = from_be a - from_be b.
Proof.
  induction a as [|x a IH]; intros [|y b] r w Ha Hb HL E; try (unfold Zlen in HL; cbn [length] in HL; lia); rewrite ?Zlen_cons in HL; cbn [sub_bytes] in E.
  - simplify_eq. split_and!; try done; constructor.
  - apply list.Forall_cons in Ha as [Hx Ha]. apply list.Forall_cons in Hb as [Hy Hb]. unfold byte_ok in Hx, Hy.
    destruct (sub_bytes a b) as [r1 w1] eqn:E1. destruct (IH b r1 w1 Ha Hb ltac:(lia) E1) as (H1 & H2 & H3 & H4).
    assert (Zlen b = Zlen a) as HLb by lia. pose proof (Zlen_nonneg a).
    destruct (Z.ltb_spec (x - y - w1) 0); simplify_eq; rewrite wrap_small by lia; (split_and!; try lia);
      try (constructor; [unfold byte_ok; lia|done]); rewrite ?Zlen_cons, ?H2; try lia;
      rewrite !from_be_cons, ?H2, ?HLb, ?Z.pow_add_r by lia; nia.
Qed.
(** The numerator the loop has read: [2^256], bit by bit. *)
Definition read_bit (p bit : Z) : Z := 2 * p + (if bit =? 256 then 1 else 0).
Lemma read_bits_ge bits : forall p, 0 <= p -> p <= fold_left read_bit bits p.
Proof.
  induction bits as [|b bits IH]; intros p Hp; cbn [fold_left]; [lia|].
  etransitivity; [|apply IH]; unfold read_bit; destruct (_ =? _); lia.
Qed.
(** One round: the remainder of the next prefix, and whether the divisor went into it. *)
Lemma difficulty_round t rem bit r c : target32 t -> target32 rem -> from_be rem < from_be t ->
  shl1_bytes rem (if bit =? 256 then 1 else 0) = (r, c) ->
  let n := 2 * from_be rem + (if bit =? 256 then 1 else 0) in
  target32 r /\ (negb (c =? 0) || bytes_leb t r = (from_be t <=? n)) /\
  (n < from_be t -> from_be r = n) /\
  (from_be t <= n -> target32 (sub_bytes r t).1 /\ from_be (sub_bytes r t).1 = n - from_be t).
Proof.
  intros [Ht HLt] [Hr HLr] Hlt E. apply shl1_bytes_spec in E as (Hb & HL & Hc & Hv); [|done|destruct (_ =? _); lia]. cbv zeta.
  rewrite HLr in HL, Hv. set (n := 2 * from_be rem + _) in *.
  assert (n < 2 * from_be t) by (subst n; destruct (_ =? _); lia).
  pose proof (from_be_bounds r Hb) as Br. pose proof (from_be_bounds t Ht) as Bt. rewrite HL in Br. rewrite HLt in Bt.
  set (M := 256 ^ 32) in *. assert (c = 0 \/ c = 1) as [-> | ->] by lia; cbn [Z.eqb negb orb]; (split_and!; [done|..]).
  - rewrite bytes_leb_spec by (done || lia). f_equal. lia.
  - lia.
  - intros Hge. destruct (sub_bytes r t) as [r' w] eqn:E. apply sub_bytes_spec in E as (? & HL' & Hw & Hv'); [|done|done|lia].
    cbn [fst]. rewrite HL in HL', Hv'. fold M in Hv'. pose proof (from_be_bounds r' ltac:(done)) as Br'. rewrite HL' in Br'. fold M in Br'.
    split; [done|]. assert (w = 0 \/ w = 1) as [-> | ->] by lia; lia.
  - symmetry. apply Z.leb_le. lia.
  - lia.
  - intros Hge. destruct (sub_bytes r t) as [r' w] eqn:E. apply sub_bytes_spec in E as (? & HL' & Hw & Hv'); [|done|done|lia].
    cbn [fst]. rewrite HL in HL', Hv'. fold M in Hv'. pose proof (from_be_bounds r' ltac:(done)) as Br'. rewrite HL' in Br'. fold M in Br'.
    split; [done|]. assert (w = 0 \/ w = 1) as [-> | ->] by lia; lia.
Qed.
Lemma difficulty_loop_spec t bits : target32 t -> forall rem q p,
  target32 rem -> 0 <= from_be rem < from_be t -> 0 <= q < 2 ^ 64 -> p = q * from_be t + from_be rem ->
  default (umax 64) (difficulty_loop bits t rem q) = Z.min (umax 64) (fold_left read_bit bits p / from_be t).
Proof.
  intros Ht. induction bits as [|bit bits IH]; intros rem q p Hrem Hlt Hq Hp; cbn [difficulty_loop fold_left].
  - change (default (umax 64) (Some q)) with q. rewrite Hp, Z.div_add_l, Z.div_small by lia. unfold umax. lia.
  - assert (0 <= p) by nia.
    destruct (shl1_bytes rem _) as [r c] eqn:E. destruct (difficulty_round t rem bit r c Ht Hrem ltac:(lia) E) as (Hr & -> & Hless & Hmore).
    set (n := 2 * from_be rem + _) in *. assert (0 <= n) by (subst n; destruct (_ =? _); lia).
    assert (read_bit p bit = 2 * q * from_be t + n) as Hread by (unfold read_bit; subst p n; lia).
    assert (2 ^ 64 <= 2 * q -> umax 64 = Z.min (umax 64) (fold_left read_bit bits (read_bit p bit) / from_be t)) as Hover.
    { intros Hbig. rewrite Z.min_l; [done|]. pose proof (read_bits_ge bits (read_bit p bit) ltac:(nia)). unfold umax.
      apply Z.div_le_lower_bound; nia. }
    destruct (Z.leb_spec (from_be t) n) as [Hge|Hlt'].
    + destruct (Hmore Hge) as [Hs Hsv]. destruct (sub_bytes r t) as [r' w]. cbn [fst] in *.
      destruct (checked 64 (q * 2)) as [q2|] eqn:Eq; [|apply checked_none in Eq; apply Hover; lia].
      apply checked_some in Eq as [-> Eq]. assert (checked_add 64 (q * 2) 1 = Some (q * 2 + 1)) as ->.
      { apply checked_add_some. split; [done|]. replace (2 ^ 64) with (2 * 2 ^ 63) in * by reflexivity. lia. }
      assert (n < 2 * from_be t) by (subst n; destruct (_ =? _); lia).
      apply IH; [done|lia|lia|lia].
    + destruct (checked 64 (q * 2)) as [q2|] eqn:Eq; [|apply checked_none in Eq; apply Hover; lia].
      apply checked_some in Eq as [-> Eq]. pose proof (Hless Hlt') as Hrn. apply IH; [done|lia|lia|lia].
Qed.
Lemma to_difficulty_spec t : target32 t -> to_difficulty t = if from_be t =? 0 then umax 64 else Z.min (umax 64) (2 ^ 256 / from_be t).
Proof.
  intros Ht. unfold to_difficulty, bytes_eqb. assert (target32 (replicate 32 0)) as [Hz HLz] by (split; [solve_bytes_ok|done]).
  destruct Ht as [Hb HL]. pose proof (from_be_bounds t Hb). case_bool_decide as Ez.
  - subst t. done.
  - destruct (Z.eqb_spec (from_be t) 0) as [E0|]; [destruct Ez; apply from_be_inj; try done; by rewrite HL|].
    rewrite (difficulty_loop_spec t (rev (zrange 0 257)) ltac:(done) (replicate 32 0) 0 0); try done.
    change (from_be (replicate 32 0)) with 0. lia.
Qed.

(** ** Nonce slices *)
Definition held (a : E1Allocator) (v : Z) : bool :=
  match zlookup (ea_bits a) (v / 64) with Some w => Z.testbit w (v mod 64) | None => false end.
(** The allocator [a] stands for the set [S] of slices in use. *)
Record slices_rep (a : E1Allocator) (S : gset Z) : Prop := {
  sr_words : Zlen (ea_bits a) = E1_SPACE / 64;
  sr_cursor : 0 <= ea_cursor a < E1_SPACE;
  sr_held : forall v, v ∈ S <-> 0 <= v < E1_SPACE /\ held a v = true;
  sr_live : ea_live a = Z.of_nat (size S) }.
Lemma size_bounded (S : gset Z) n : 0 <= n -> (forall v, v ∈ S -> 0 <= v < n) -> Z.of_nat (size S) <= n.
Proof.
  intros Hn HS. transitivity (Z.of_nat (size (list_to_set (zrange 0 n) : gset Z))).
  - apply Nat2Z.inj_le, subseteq_size. intros v Hv. apply elem_of_list_to_set, list_elem_of_In, in_zrange. by apply HS.
  - rewrite size_list_to_set; [rewrite <-(Z.sub_0_r n) at 2; rewrite <-(Zlen_zrange 0 n) by done; done|].
    unfold zrange. apply NoDup_fmap; [intros i j; lia|apply NoDup_seq].
Qed.
Lemma slot_taken_spec w b : 0 <= b -> slot_taken w b = Z.testbit w b.
Proof. intros Hb. unfold slot_taken. rewrite Z.shiftl_1_l. by apply land_flag_test. Qed.
Lemma set_bit_spec w b i : 0 <= b -> 0 <= i -> Z.testbit (Z.lor w (Z.shiftl 1 b)) i = (i =? b) || Z.testbit w i.
Proof. intros Hb Hi. rewrite Z.lor_spec, Z.shiftl_1_l, Z.pow2_bits_eqb, Z.eqb_sym, orb_comm by done. done. Qed.
Lemma clear_bit_spec w b i : 0 <= b < 64 -> 0 <= i < 64 -> Z.testbit (Z.land w (Z.lxor (Z.shiftl 1 b) (umax 64))) i = negb (i =? b) && Z.testbit w i.
Proof.
  intros Hb Hi. rewrite Z.land_spec, Z.lxor_spec, Z.shiftl_1_l, Z.pow2_bits_eqb, Z.eqb_sym by lia.
  change (umax 64) with (Z.ones 64). rewrite Z.ones_spec_low, xorb_true_r, andb_comm by lia. done.
Qed.
(** Writing the word of slice [v] changes what is held at [v] alone. *)
Lemma held_update a v c l w w' x : 0 <= v -> zlookup (ea_bits a) (v / 64) = Some w ->
  (forall i, 0 <= i < 64 -> Z.testbit w' i = if i =? v mod 64 then x else Z.testbit w i) ->
  forall u, held (MkE1Allocator (zinsert (ea_bits a) (v / 64) w') c l) u = if u =? v then x else held a u.
Proof.
  intros Hv Hw Hbits u. unfold held. cbn [ea_bits].
  destruct (Z.eqb_spec (u / 64) (v / 64)) as [E|E].
  - rewrite E, (zlookup_zinsert_eq _ _ _ w Hw), Hw, Hbits by (apply Z.mod_pos_bound; lia).
    pose proof (Z.div_mod u 64 ltac:(lia)). pose proof (Z.div_mod v 64 ltac:(lia)).
    destruct (Z.eqb_spec (u mod 64) (v mod 64)), (Z.eqb_spec u v); done || lia || (subst; done).
  - rewrite zlookup_zinsert_ne by done. destruct (Z.eqb_spec u v); [by subst|done].
Qed.
Lemma e1_word a S v : slices_rep a S -> 0 <= v < E1_SPACE ->
  exists w, zlookup (ea_bits a) (v / 64) = Some w /\ slot_taken w (v mod 64) = bool_decide (v ∈ S).
Proof.
  intros [Hn _ Hh _] Hv. destruct (zlookup_is_Some (ea_bits a) (v / 64)) as [w Hw].
  { rewrite Hn. split; [apply Z.div_pos; lia|]. apply Z.div_lt_upper_bound; [lia|]. change (64 * (E1_SPACE / 64)) with E1_SPACE. lia. }
  exists w. split; [done|]. rewrite slot_taken_spec by (apply Z.mod_pos_bound; lia).
  apply eq_true_iff_eq. rewrite bool_decide_eq_true, Hh. unfold held. rewrite Hw. split; [done|by intros []].
Qed.
Lemma e1_add_rep a S v w : slices_rep a S -> 0 <= v < E1_SPACE -> v ∉ S -> zlookup (ea_bits a) (v / 64) = Some w ->
  slices_rep (MkE1Allocator (zinsert (ea_bits a) (v / 64) (Z.lor w (Z.shiftl 1 (v mod 64)))) (Z.land (v + 1) (E1_SPACE - 1)) (ea_live a + 1)) ({[v]} ∪ S).
Proof.
  intros [Hn Hc Hh Hl] Hv HvS Hw. split; cbn [ea_bits ea_cursor ea_live].
  - by rewrite Zlen_zinsert.
  - apply (land_bound 24); done.
  - intros u. rewrite (held_update a v _ _ w _ true) by (try done; try lia; intros i Hi; rewrite set_bit_spec by (apply Z.mod_pos_bound || idtac; lia); by destruct (_ =? _)).
    rewrite elem_of_union, elem_of_singleton, Hh. destruct (Z.eqb_spec u v); [subst u|]; clear Hh; tauto.
  - rewrite size_union, size_singleton by (clear -HvS; set_solver). lia.
Qed.

Lemma e1_next v : 0 <= v < E1_SPACE -> Z.land (v + 1) (E1_SPACE - 1) = (v + 1) mod E1_SPACE.
Proof. intros Hv. change E1_SPACE with (2 ^ 24) at 1 2. by rewrite land_mask. Qed.
Lemma E1_SPACE_val : E1_SPACE = 16777216.
Proof. done. Qed.
Lemma sr_size a S : slices_rep a S -> Z.of_nat (size S) <= 16777216.
Proof. intros Ha. rewrite <-E1_SPACE_val. apply size_bounded; [rewrite E1_SPACE_val; lia|]. intros v Hv. by apply (sr_held _ _ Ha). Qed.
(** [acquire] walks from the cursor and takes the first slice that is free; it fails only after it has seen them all. *)
Lemma acquire_loop_spec fuel : forall a S, slices_rep a S ->
  exists r a', acquire_loop fuel a = Ok (r, a') /\ (
  match r with
  | Some v => exists k, 0 <= k < Z.of_nat fuel /\ v = (ea_cursor a + k) mod E1_SPACE /\ (forall j, 0 <= j < k -> (ea_cursor a + j) mod E1_SPACE ∈ S) /\
      (v ∉ S) /\ slices_rep a' ({[v]} ∪ S) /\ ea_cursor a' = (v + 1) mod E1_SPACE
  | None => slices_rep a' S /\ forall j, 0 <= j < Z.of_nat fuel -> (ea_cursor a + j) mod E1_SPACE ∈ S
  end).
Proof.
  induction fuel as [|fuel IH]; intros a S Ha; cbn [acquire_loop].
  - eexists None, a. split; [done|]. split; [done|]. intros j Hj. lia.
  - pose proof (sr_cursor _ _ Ha) as Hc. destruct (e1_word a S (ea_cursor a) Ha Hc) as (w & Hw & Hs).
    assert ((ea_cursor a + 0) mod E1_SPACE = ea_cursor a) as H0 by (rewrite Z.add_0_r; by apply Z.mod_small).
    rewrite Hw. cbn [expect obind]. rewrite Hs. case_bool_decide as HS; cbn [negb].
    + assert (slices_rep (MkE1Allocator (ea_bits a) (Z.land (ea_cursor a + 1) (E1_SPACE - 1)) (ea_live a)) S) as Ha'.
      { destruct Ha as [? ? Hh ?]. split; cbn [ea_bits ea_cursor ea_live]; try done. apply (land_bound 24); done. }
      destruct (IH _ S Ha') as (r & a' & -> & Hr). exists r, a'. split; [done|]. cbn [ea_cursor] in Hr. rewrite (e1_next _ Hc) in Hr.
      assert (forall j, ((ea_cursor a + 1) mod E1_SPACE + j) mod E1_SPACE = (ea_cursor a + (1 + j)) mod E1_SPACE) as Hmod.
      { intros j. rewrite Z.add_mod_idemp_l by done. f_equal. lia. }
      destruct r as [v|].
      * destruct Hr as (k & Hk & -> & Hj & Hrest). exists (1 + k). rewrite Hmod in *. split_and!; try lia; try done; [|apply Hrest..].
        intros j Hj'. destruct (Z.eqb_spec j 0) as [->|]; [by rewrite H0|]. replace j with (1 + (j - 1)) by lia. rewrite <-Hmod. apply Hj. lia.
      * destruct Hr as [Hrep Hj]. split; [done|]. intros j Hj'. destruct (Z.eqb_spec j 0) as [->|]; [by rewrite H0|].
        replace j with (1 + (j - 1)) by lia. rewrite <-Hmod. apply Hj. lia.
    + pose proof (sr_size a S Ha) as Hsize. assert (add_checked 64 (ea_live a) 1 = @Ok Empty_set Z (ea_live a + 1)) as ->.
      { unfold add_checked. apply expect_ok, checked_add_some. rewrite (sr_live _ _ Ha). lia. }
      cbn [obind]. eexists (Some _), _. split; [done|]. exists 0. rewrite H0. cbn [ea_cursor].
      split_and!; try lia; try done; try (intros j Hj; lia); [by apply e1_add_rep|by apply e1_next].
Qed.
Lemma release_spec a S e1 : slices_rep a S -> 0 <= e1 ->
  exists a', release a e1 = Ok a' /\ slices_rep a' (S ∖ {[e1 mod E1_SPACE]}) /\ ea_cursor a' = ea_cursor a.
Proof.
  intros Ha He. unfold release. assert (Z.land e1 (E1_SPACE - 1) = e1 mod E1_SPACE) as ->.
  { change E1_SPACE with (2 ^ 24). by rewrite land_mask. }
  pose proof (Z.mod_pos_bound e1 E1_SPACE eq_refl) as Hv. set (v := e1 mod E1_SPACE) in *.
  destruct (e1_word a S v Ha Hv) as (w & Hw & Hs). rewrite Hw. cbn [expect obind]. rewrite Hs. case_bool_decide as HS.
  - pose proof (sr_size a S Ha) as Hsize.
    assert (size S <> 0)%nat by (rewrite size_non_empty_iff; clear -HS; set_solver).
    assert (checked 64 (ea_live a - 1) = Some (ea_live a - 1)) as -> by (apply checked_some; rewrite (sr_live _ _ Ha); lia).
    cbn [expect obind]. eexists. split; [done|]. split; [|done]. destruct Ha as [Hn Hc Hh Hl]. split; cbn [ea_bits ea_cursor ea_live]; try done.
    + by rewrite Zlen_zinsert.
    + intros u. rewrite (held_update a v _ _ w _ false) by
        (try done; try lia; intros i Hi; rewrite clear_bit_spec by (done || (apply Z.mod_pos_bound; lia)); by destruct (_ =? _)).
      rewrite elem_of_difference, elem_of_singleton, Hh. destruct (Z.eqb_spec u v); [subst u; split; [by intros [_ []]|by intros [_ ?]]|]. clear Hh. split; [intros [[? ?] ?]; done|intros [? ?]; done].
    + rewrite size_difference, size_singleton by (by apply singleton_subseteq_l). lia.
  - exists a. split; [done|]. split; [|done]. rewrite difference_disjoint_L; [done|]. by apply disjoint_singleton_r.
Qed.
Lemma held_zero n c l v : held (MkE1Allocator (replicate n 0) c l) v = false.
Proof.
  unfold held. cbn [ea_bits]. destruct (zlookup _ _) as [w|] eqn:E; [|done]. unfold zlookup in E. destruct (_ <=? _); [|done].
  apply lookup_replicate in E as [-> _]. apply Z.bits_0.
Qed.
Lemma zero_rep n : Z.of_nat n = E1_SPACE / 64 -> slices_rep (MkE1Allocator (replicate n 0) 0 0) ∅.
Proof.
  intros Hn. split.
  - cbn [ea_bits]. by rewrite Zlen_replicate.
  - cbn [ea_cursor]. rewrite E1_SPACE_val. lia.
  - intros v. rewrite held_zero. split; [by intros ?%elem_of_empty|by intros []].
  - by rewrite size_empty.
Qed.
Lemma E1Allocator_new_rep : slices_rep E1Allocator_new ∅.
Proof. apply zero_rep. apply Z2Nat.id. rewrite E1_SPACE_val. apply Z.div_pos; lia. Qed.
Lemma e1_owns_spec e1 n : 0 <= n < 2 ^ 64 -> e1_owns e1 n = (n / 2 ^ 40 =? e1).
Proof.
  intros Hn. unfold e1_owns. change X_BITS with 40. rewrite Z.shiftr_div_pow2, wrap_small; [done| |lia].
  split; [apply Z.div_pos; lia|apply Z.div_lt_upper_bound; lia].
Qed.
Lemma e1_compose_spec e1 x : 0 <= e1 < E1_SPACE -> 0 <= x < 2 ^ 40 -> e1_compose e1 x = e1 * 2 ^ 40 + x.
Proof.
  intros He Hx. rewrite E1_SPACE_val in He. unfold e1_compose. change (Z.shiftl 1 X_BITS - 1) with (2 ^ 40 - 1). change X_BITS with 40.
  rewrite land_mask, Z.mod_small by lia. rewrite wrap_small by (rewrite Z.shiftl_mul_pow2; lia). apply shift_or; lia.
Qed.
Lemma slice_fixed_spec e1 sub b : 0 <= e1 < E1_SPACE -> 0 <= b <= 40 -> 0 <= sub < 2 ^ b -> slice_fixed e1 sub b = e1 * 2 ^ b + sub.
Proof.
  intros He Hb Hs. rewrite E1_SPACE_val in He. unfold slice_fixed. rewrite wrap_small; [apply shift_or; lia|].
  rewrite Z.shiftl_mul_pow2 by lia. pose proof (Z.pow_le_mono_r 2 b 40 ltac:(lia) ltac:(lia)). nia.
Qed.
(** A nonce belongs to one slice only, and its [sub]-slice to one connection of the slice's owner only. *)
Lemma slice_owns_inj e1 sub e1' sub' b n :
  0 <= b <= 40 -> 0 <= e1 < E1_SPACE -> 0 <= e1' < E1_SPACE -> 0 <= sub < 2 ^ b -> 0 <= sub' < 2 ^ b ->
  slice_owns e1 sub b n = true -> slice_owns e1' sub' b n = true -> e1 = e1' /\ sub = sub'.
Proof.
  unfold slice_owns. intros Hb He He' Hs Hs' H1%Z.eqb_eq H2%Z.eqb_eq. rewrite slice_fixed_spec in H1, H2 by done.
  rewrite H1 in H2. clear H1. generalize dependent (2 ^ b). intros P Hs Hs' H2.
  assert (e1 = e1') by (destruct (Z.lt_total e1 e1') as [|[|]]; [nia|done|nia]). subst. lia.
Qed.

Lemma nonce_pair_inv :
  all_bytes (fun b =>
    match nibble (byte_at LUT (Z.shiftr b 4)), nibble (byte_at LUT (Z.land b 15)) with
    | Some hi, Some lo => Z.lor (wrap 8 (Z.shiftl hi 4)) lo =? b
    | _, _ => false
    end) = true.
Proof. vm_compute. reflexivity. Qed.
Lemma parse_nibbles_encode b : bytes_ok b -> parse_nibbles (hex_encode b) = Some b.
Proof.
  induction 1 as [|x b Hx Hb IH]; [done|]. cbn [hex_encode parse_nibbles].
  pose proof (all_bytes_spec _ x nonce_pair_inv Hx) as H. cbv beta in H.
  destruct (nibble (byte_at LUT (Z.shiftr x 4))), (nibble (byte_at LUT (Z.land x 15))); try done. rewrite IH. to_prop. by rewrite H.
Qed.
Lemma nonce_hex_roundtrip n : 0 <= n < 2 ^ 64 -> parse_nonce_hex (nonce_to_hex n) = Some n.
Proof.
  intros Hn. unfold parse_nonce_hex, nonce_to_hex. rewrite Zlen_hex_encode, Zlen_le_bytes. change (negb (2 * Z.of_nat 8 =? 16)) with false. cbv iota.
  rewrite parse_nibbles_encode by apply le_bytes_ok. f_equal. by apply from_le_le_bytes.
Qed.

(** ** Claims on targets and slices *)
(** C36. A share target is exact at every difficulty: [from_difficulty d] is the 256-bit number [floor (2^256 / d)] (the largest one for 0 and 1), so a digest is accepted
    at difficulty [d] exactly when it times [d] is at most [2^256]; [to_difficulty] is [floor (2^256 / t)] capped at the largest 64-bit number, which an all-zero target
    gets too; converting a difficulty to a target and back gives the difficulty; and the target of a block's compact bits is the number the consensus decoder computes. *)
Theorem share_target_exact (d bits : Z) (t h : bytes) :
  0 <= d < 2 ^ 64 -> 0 <= bits < 2 ^ 32 -> target32 t -> target32 h ->
  target32 (from_difficulty d) /\ from_be (from_difficulty d) = (if d <=? 1 then 2 ^ 256 - 1 else 2 ^ 256 / d) /\
  accepts (from_difficulty d) h = ((d <=? 1) || (from_be h * d <=? 2 ^ 256)) /\
  to_difficulty t = (if from_be t =? 0 then umax 64 else Z.min (umax 64) (2 ^ 256 / from_be t)) /\
  to_difficulty (from_difficulty d) = Z.max 1 d /\
  (forall t', share_from_compact bits = Some t' -> exists l, from_compact bits = Ok l /\ target32 t' /\ from_be t' = val l).
Proof.
  intros Hd Hbits Ht Hh. destruct (from_difficulty_spec d Hd) as [Hf Hv].
  split_and!; [done|done| |by apply to_difficulty_spec| |].
  - rewrite accepts_spec, Hv by done. destruct Hh as [Hb HL]. pose proof (from_be_bounds h Hb). rewrite HL in *.
    destruct (Z.leb_spec d 1) as [|H1]; [apply Z.leb_le; lia|]. cbn [orb].
    pose proof (Z.div_mod (2 ^ 256) d ltac:(lia)). pose proof (Z.mod_pos_bound (2 ^ 256) d ltac:(lia)).
    apply eq_true_iff_eq. rewrite !Z.leb_le. split; nia.
  - rewrite to_difficulty_spec, Hv by done. destruct (Z.leb_spec d 1) as [|H1]; [rewrite Z.max_l by lia; vm_compute; reflexivity|].
    assert (2 ^ 192 <= 2 ^ 256 / d) by (apply Z.div_le_lower_bound; lia).
    destruct (Z.eqb_spec (2 ^ 256 / d) 0); [lia|].
    rewrite <-(Z.div_unique (2 ^ 256) (2 ^ 256 / d) d (2 ^ 256 mod d)); [unfold umax; lia| |].
    + left. pose proof (Z.mod_pos_bound (2 ^ 256) d ltac:(lia)). lia.
    + rewrite (Z.div_mod (2 ^ 256) d) at 1 by lia. lia.
  - intros t' E. unfold share_from_compact in E. pose proof (from_compact_total bits Hbits) as Hc. cbv zeta in Hc.
    destruct (from_compact bits) as [l| |]; simplify_eq. exists l. split; [done|].
    destruct (limbs_to_be_spec l 4) as (? & ? & ?); [apply Hc|]. split; [split; [done|lia]|done].
Qed.
Lemma share_target_exact_witness :
  to_difficulty (from_difficulty 1000) = 1000 /\ accepts (from_difficulty 1000) (replicate 32 0) = true.
Proof.
  destruct (share_target_exact 1000 0x1d00ffff (replicate 32 0) (replicate 32 0)) as (_ & _ & Ha & _ & Ht & _);
    [lia|lia|split; [solve_bytes_ok|reflexivity]|split; [solve_bytes_ok|reflexivity]|].
  split; [exact Ht|rewrite Ha; reflexivity].
Defined.
(** C37. No nonce is ever searched by two connections. The allocator of nonce slices implements a set of slices in use, empty at the start: it never panics, [acquire] takes
    the first free slice at or after the cursor, cyclically, adds it to the set and moves the cursor past it, and fails only when all [2^24] slices are in use; [release]
    takes exactly the slice given back out of the set; the live count is the size of the set. A nonce belongs to one slice and one [sub]-slice only, and [compose]
    stays in the slice; a nonce sent as hexadecimal text is read back as itself. *)
Theorem nonce_slices_exclusive (a : E1Allocator) (S : gset Z) :
  slices_rep a S ->
  slices_rep E1Allocator_new ∅ /\
  (exists r a', acquire a = Ok (r, a') /\ (
     match r with
     | Some v => exists k, 0 <= k < E1_SPACE /\ v = (ea_cursor a + k) mod E1_SPACE /\ (forall j, 0 <= j < k -> (ea_cursor a + j) mod E1_SPACE ∈ S) /\
         (v ∉ S) /\ slices_rep a' ({[v]} ∪ S) /\ ea_cursor a' = (v + 1) mod E1_SPACE
     | None => slices_rep a' S /\ forall v, 0 <= v < E1_SPACE -> v ∈ S
     end)) /\
  (forall e1, 0 <= e1 -> exists a', release a e1 = Ok a' /\ slices_rep a' (S ∖ {[e1 mod E1_SPACE]}) /\ ea_cursor a' = ea_cursor a) /\
  (forall e1 sub e1' sub' b n, 0 <= b <= 40 -> 0 <= e1 < E1_SPACE -> 0 <= e1' < E1_SPACE -> 0 <= sub < 2 ^ b -> 0 <= sub' < 2 ^ b ->
     slice_owns e1 sub b n = true -> slice_owns e1' sub' b n = true -> e1 = e1' /\ sub = sub') /\
  (forall e1 n, 0 <= n < 2 ^ 64 -> e1_owns e1 n = (n / 2 ^ 40 =? e1)) /\
  (forall e1 x, 0 <= e1 < E1_SPACE -> 0 <= x < 2 ^ 40 -> e1_owns e1 (e1_compose e1 x) = true) /\
  (forall n, 0 <= n < 2 ^ 64 -> parse_nonce_hex (nonce_to_hex n) = Some n).
Proof.
  intros Ha. split_and!; [apply E1Allocator_new_rep| |intros; by apply release_spec|apply slice_owns_inj|apply e1_owns_spec| |apply nonce_hex_roundtrip].
  - unfold acquire. destruct (acquire_loop_spec (Z.to_nat E1_SPACE) a S Ha) as (r & a' & -> & Hr). exists r, a'. split; [done|].
    rewrite Z2Nat.id in Hr by (rewrite E1_SPACE_val; lia). destruct r as [v|]; [done|]. destruct Hr as [Hr Hall]. split; [done|].
    intros v Hv. pose proof (Hall ((v - ea_cursor a) mod E1_SPACE) ltac:(apply Z.mod_pos_bound; rewrite E1_SPACE_val; lia)) as Hin.
    rewrite Z.add_mod_idemp_r, Z.add_comm, Z.sub_add, Z.mod_small in Hin by (done || (rewrite E1_SPACE_val; lia)). done.
  - intros e1 x He Hx. rewrite e1_compose_spec by done. rewrite E1_SPACE_val in He. rewrite e1_owns_spec by lia.
    rewrite Z.div_add_l, Z.div_small by lia. apply Z.eqb_eq. lia.
Qed.
Lemma nonce_slices_exclusive_witness :
  slices_rep E1Allocator_new ∅ /\ e1_owns 5 (e1_compose 5 77) = true /\
  exists a', release E1Allocator_new 3 = Ok a' /\ slices_rep a' (∅ ∖ {[3 mod E1_SPACE]}) /\ ea_cursor a' = 0.
Proof.
  destruct (nonce_slices_exclusive E1Allocator_new ∅ E1Allocator_new_rep) as (H0 & _ & Hr & _ & _ & Ho & _). split; [exact H0|].
  split; [apply Ho; [rewrite E1_SPACE_val|]; lia|apply (Hr 3); lia].
Defined.
