(* ===== verification/JobProps.v ===== *)
(** The jobs of a mining connection (src/lib/stratum/src/job.rs) against the history of what was pushed: which jobs a share may name, which one is still credited after a
    new tip, and that a share is not counted twice. *)

From Stdlib Require Import ZArith Lia List.
From stdpp Require Import base list numbers.
From S2P Require Import Prelude Stratum.
Import ListNotations.
Open Scope Z_scope.

(** What a connection did: jobs pushed to it, and nonces checked against a job. *)
Inductive job_op {Template : Type} :=
| OpPush (template : Template) (target : bytes) (difficulty : Z) (clean : bool) (now_ms : Z)
| OpCheck (r : JobRef) (nonce : Z).
Arguments job_op : clear implicits.
(** The history: the jobs pushed, newest first, how many of them since the last clean one (it included), the job a clean push retired, and when. *)
Record history {Template : Type} := MkHistory { h_log : list (Job Template); h_current : Z; h_retired : option (Job Template); h_clean_ms : Z }.
Arguments history : clear implicits.
Arguments MkHistory {Template} _ _ _ _.
(** The same verdict, whatever slot a live job sits in. *)
Definition same_verdict (a b : JobLookup) : bool :=
  match a, b with
  | Live _, Live _ | StaleCredited, StaleCredited | Stale, Stale | Unknown, Unknown => true
  | _, _ => false
  end.

#[export] Instance JobRef_eq_dec : EqDecision JobRef.
Proof. solve_decision. Defined.

Section JobProps.
Context {Template : Type}.
Implicit Types (s : JobSlots Template) (h : history Template) (j : Job Template).
Definition erase j : Job Template := MkJob (j_id j) (j_template j) (j_served_target j) (j_served_difficulty j) (j_pushed_at_ms j) None.
Definition history_push h (t : Template) (tgt : bytes) (d : Z) (clean : bool) (now_ms : Z) : history Template :=
  let j := MkJob (Zlen (h_log h)) t tgt d now_ms None in
  if clean then MkHistory (j :: h_log h) 1 (if 0 <? h_current h then zlookup (h_log h) 0 else None) now_ms
  else MkHistory (j :: h_log h) (h_current h + 1) (h_retired h) (h_clean_ms h).
Definition history_lookup h (job_id now_ms : Z) : JobLookup :=
  let n := Zlen (h_log h) in
  if (n - Z.min (h_current h) JOB_SLOTS <=? job_id) && (job_id <? n) then Live 0
  else if bool_decide (j_id <$> h_retired h = Some job_id) then
    if now_ms - h_clean_ms h <=? STALE_CREDIT_GRACE_MS then StaleCredited else Stale
  else if job_id <? n then Stale else Unknown.
Definition job_step s (o : job_op Template) : outcome Empty_set (JobSlots Template) :=
  match o with
  | OpPush t tgt d clean now => let? r := job_push s t tgt d clean now in Ok r.2
  | OpCheck r nonce => Ok (check_duplicate s r nonce).2
  end.
Definition history_step h (o : job_op Template) : history Template :=
  match o with OpPush t tgt d clean now => history_push h t tgt d clean now | OpCheck _ _ => h end.
Definition job_run (ops : list (job_op Template)) : outcome Empty_set (JobSlots Template) := ofold job_step JobSlots_new ops.
Definition history_run (ops : list (job_op Template)) : history Template := fold_left history_step ops (MkHistory [] 0 None 0).

(** The job [k] pushes ago sits [k] slots before the head. *)
Definition slot_job s (k : Z) : option (option (Job Template)) := option_map (fmap erase) (zlookup (js_ring s) ((js_head s - k) mod JOB_SLOTS)).
Record slots_rep s h : Prop := {
  jr_ring : Zlen (js_ring s) = JOB_SLOTS;
  jr_head : 0 <= js_head s < JOB_SLOTS;
  jr_next : js_next_id s = Zlen (h_log h);
  jr_slots : forall k, 0 <= k < JOB_SLOTS -> slot_job s k = Some (if k <? h_current h then zlookup (h_log h) k else None);
  jr_prev : erase <$> js_previous s = h_retired h;
  jr_ms : js_last_clean_ms s = h_clean_ms h;
  jr_cur : 0 <= h_current h <= Zlen (h_log h);
  jr_ids : forall k j, zlookup (h_log h) k = Some j -> j_id j = Zlen (h_log h) - 1 - k;
  jr_retired : forall j, h_retired h = Some j -> j ∈ h_log h }.
Lemma JobSlots_new_rep : slots_rep JobSlots_new (MkHistory [] 0 None 0).
Proof.
  split; try done.
  - intros k Hk. change JOB_SLOTS with 4 in Hk. unfold slot_job. assert (k = 0 \/ k = 1 \/ k = 2 \/ k = 3) as [->|[->|[->| ->]]] by lia; done.
  - intros k j Hk. apply zlookup_lt in Hk. unfold Zlen in Hk. cbn in Hk. lia.
Qed.
Lemma zlookup_fmap_none {A B} (l : list (option A)) i : 0 <= i < Zlen l -> zlookup ((fun _ => @None B) <$> l) i = Some None.
Proof.
  intros Hi. destruct (zlookup_is_Some l i Hi) as [x Hx]. unfold zlookup in *. destruct (_ <=? _); [|done].
  by rewrite list_lookup_fmap, Hx.
Qed.
Lemma zlookup_cons_pos {A} (x : A) l k : 0 < k -> zlookup (x :: l) k = zlookup l (k - 1).
Proof. intros Hk. change (x :: l) with ([x] ++ l). by rewrite zlookup_app_r by (unfold Zlen; cbn [length]; lia). Qed.
(** Logging a job shifts the ids, which count from the first push. *)
Lemma log_ids (l : list (Job Template)) t tgt d now : (forall k j, zlookup l k = Some j -> j_id j = Zlen l - 1 - k) ->
  forall k j, zlookup (MkJob (Zlen l) t tgt d now None :: l) k = Some j -> j_id j = 1 + Zlen l - 1 - k.
Proof.
  intros Hl k j Hk. pose proof (zlookup_lt _ _ _ Hk). destruct (Z.eqb_spec k 0) as [->|].
  - rewrite zlookup_cons_0 in Hk. simplify_eq. cbn [j_id]. lia.
  - rewrite zlookup_cons_pos in Hk by lia. apply Hl in Hk. lia.
Qed.
Lemma job_push_spec s h t tgt d clean now : slots_rep s h -> Zlen (h_log h) < 2 ^ 32 - 1 ->
  exists s', job_push s t tgt d clean now = Ok (Zlen (h_log h), s') /\ slots_rep s' (history_push h t tgt d clean now).
Proof.
  intros [Hr Hh Hn Hs Hp Hm Hc Hi Ht] Hw. change JOB_SLOTS with 4 in *. unfold job_push. pose proof (Zlen_nonneg (h_log h)).
  destruct (zlookup_is_Some (js_ring s) (js_head s) ltac:(lia)) as [old Hold].
  assert (slot_job s 0 = Some (erase <$> old)) as H0 by (unfold slot_job; change JOB_SLOTS with 4; rewrite Z.sub_0_r, Z.mod_small, Hold by lia; done).
  rewrite Hs in H0 by lia. injection H0 as H0.
  destruct clean; cbn [history_push]; [rewrite Hold|]; cbn [expect obind js_ring js_head js_next_id js_previous js_last_clean_ms].
  - rewrite zlookup_fmap_none by lia. cbn [expect obind]. eexists. split; [by rewrite Hn|].
    split; cbn [js_ring js_head js_next_id js_previous js_last_clean_ms h_log h_current h_retired h_clean_ms]; rewrite ?Zlen_cons; try lia; try done.
    + zlen. done.
    + rewrite wrap_small; lia.
    + intros k Hk. unfold slot_job. cbn [js_ring js_head]. change JOB_SLOTS with 4 in *.
      destruct (Z.ltb_spec k 1).
      * replace k with 0 by lia. change ((0 - 0) mod 4) with 0. by rewrite (zlookup_zinsert_eq _ _ _ None), zlookup_cons_0 by (apply zlookup_fmap_none; lia).
      * rewrite zlookup_zinsert_ne by (pose proof (Z.mod_small (4 - k) 4); replace (0 - k) with (4 - k + (-1) * 4) by lia; rewrite Z.mod_add by lia; lia).
        rewrite zlookup_fmap_none by (pose proof (Z.mod_pos_bound (0 - k) 4); lia). done.
    + by apply log_ids.
    + intros j Hj. apply list_elem_of_further. destruct (0 <? _); [|done]. apply zlookup_elem. by exists 0.
  - pose proof (Z.mod_pos_bound (js_head s + 1) 4 ltac:(lia)) as Hb. change JOB_SLOTS with 4.
    destruct (zlookup_is_Some (js_ring s) ((js_head s + 1) mod 4) ltac:(lia)) as [o Ho]. rewrite Ho. cbn [expect obind]. eexists. split; [by rewrite Hn|].
    split; cbn [js_ring js_head js_next_id js_previous js_last_clean_ms h_log h_current h_retired h_clean_ms]; rewrite ?Zlen_cons; try lia; try done.
    + zlen. done.
    + rewrite wrap_small; lia.
    + intros k Hk. unfold slot_job. cbn [js_ring js_head]. change JOB_SLOTS with 4 in *. rewrite Zminus_mod_idemp_l.
      destruct (Z.eqb_spec k 0) as [->|].
      * rewrite Z.sub_0_r, (zlookup_zinsert_eq _ _ _ o Ho). destruct (Z.ltb_spec 0 (h_current h + 1)); [by rewrite zlookup_cons_0|lia].
      * rewrite zlookup_zinsert_ne.
        -- specialize (Hs (k - 1) ltac:(lia)). unfold slot_job in Hs. change JOB_SLOTS with 4 in Hs.
           replace (js_head s + 1 - k) with (js_head s - (k - 1)) by lia. rewrite Hs, zlookup_cons_pos by lia.
           destruct (Z.ltb_spec (k - 1) (h_current h)), (Z.ltb_spec k (h_current h + 1)); lia || done.
        -- intros E. pose proof (Z.div_mod (js_head s + 1) 4 ltac:(lia)). pose proof (Z.div_mod (js_head s + 1 - k) 4 ltac:(lia)). lia.
    + by apply log_ids.
    + intros j Hj. apply list_elem_of_further. by apply Ht.
Qed.
Lemma check_and_record_erase j nonce : erase (check_and_record j nonce).2 = erase j.
Proof. unfold check_and_record. by destruct (dedup_check _ _). Qed.
Lemma check_duplicate_rep s h r nonce : slots_rep s h -> slots_rep (check_duplicate s r nonce).2 h.
Proof.
  intros Hrep. unfold check_duplicate. destruct (job_get s r) as [j|] eqn:Ej; [|done].
  pose proof (check_and_record_erase j nonce) as He. destruct (check_and_record j nonce) as [dup j']. cbn [snd] in *.
  destruct Hrep as [Hr Hh Hn Hs Hp Hm Hc Hi Ht]. destruct r as [i|]; split; cbn [js_ring js_head js_next_id js_previous js_last_clean_ms]; try done.
  - by rewrite Zlen_zinsert.
  - intros k Hk. rewrite <-(Hs k Hk). unfold slot_job. cbn [js_ring js_head]. cbn [job_get] in Ej.
    destruct (zlookup (js_ring s) i) as [o|] eqn:Ei; [|done]. subst o.
    destruct (Z.eqb_spec i ((js_head s - k) mod JOB_SLOTS)) as [<-|]; [|by rewrite zlookup_zinsert_ne].
    rewrite (zlookup_zinsert_eq _ _ _ _ Ei), Ei. cbn. by rewrite He.
  - cbn [job_get] in Ej. rewrite <-Hp, Ej. cbn. by rewrite He.
Qed.
Lemma find_slot_spec (ring : list (option (Job Template))) id : forall i0,
  match find_slot i0 ring id with
  | Some i => i0 <= i /\ exists j, zlookup ring (i - i0) = Some (Some j) /\ j_id j = id
  | None => forall i j, zlookup ring i = Some (Some j) -> j_id j <> id
  end.
Proof.
  induction ring as [|slot ring IH]; intros i0; cbn [find_slot].
  { intros i j Hi. apply zlookup_lt in Hi. unfold Zlen in Hi. cbn in Hi. lia. }
  specialize (IH (i0 + 1)).
  assert ((forall j, slot = Some j -> j_id j <> id) -> match find_slot (i0 + 1) ring id with
    | Some i => i0 <= i /\ exists j, zlookup (slot :: ring) (i - i0) = Some (Some j) /\ j_id j = id
    | None => forall i j, zlookup (slot :: ring) i = Some (Some j) -> j_id j <> id end) as Hskip.
  { intros Hne. destruct (find_slot (i0 + 1) ring id) as [i|].
    - destruct IH as (? & j & ? & ?). split; [lia|]. exists j. rewrite zlookup_cons_pos by lia. by replace (i - i0 - 1) with (i - (i0 + 1)) by lia.
    - intros i j Hi. pose proof (zlookup_lt _ _ _ Hi). destruct (Z.eqb_spec i 0) as [->|].
      + rewrite zlookup_cons_0 in Hi. simplify_eq. by apply Hne.
      + rewrite zlookup_cons_pos in Hi by lia. by apply (IH (i - 1)). }
  destruct slot as [j|]; [|by apply Hskip]. destruct (Z.eqb_spec (j_id j) id); [|apply Hskip; intros ? [=]; by subst].
  split; [lia|]. exists j. by rewrite Z.sub_diag, zlookup_cons_0.
Qed.
(** The slot a job sits in and its age determine each other. *)
Lemma slot_age s i : 0 <= i < JOB_SLOTS -> let k := (js_head s - i) mod JOB_SLOTS in
  0 <= k < JOB_SLOTS /\ slot_job s k = option_map (fmap erase) (zlookup (js_ring s) i).
Proof.
  intros Hi k. split; [apply Z.mod_pos_bound; done|]. unfold slot_job. subst k. rewrite Zminus_mod_idemp_r.
  replace (js_head s - (js_head s - i)) with i by lia. by rewrite Z.mod_small.
Qed.
Lemma live_job s h i j : slots_rep s h -> zlookup (js_ring s) i = Some (Some j) ->
  erase j ∈ h_log h /\ Zlen (h_log h) - Z.min (h_current h) JOB_SLOTS <= j_id j < Zlen (h_log h).
Proof.
  intros Hrep Hj. pose proof (zlookup_lt _ _ _ Hj) as Hi. rewrite (jr_ring _ _ Hrep) in Hi. destruct (slot_age s i Hi) as [Hk Hs].
  rewrite Hj, (jr_slots _ _ Hrep _ Hk) in Hs. set (k := _ mod _) in *. cbn in Hs. destruct (Z.ltb_spec k (h_current h)); [|done].
  injection Hs as Hs. split; [apply zlookup_elem; by exists k|]. apply (jr_ids _ _ Hrep) in Hs. cbn [erase j_id] in Hs.
  pose proof (jr_cur _ _ Hrep). lia.
Qed.
Lemma recent_job_live s h id : slots_rep s h -> Zlen (h_log h) - Z.min (h_current h) JOB_SLOTS <= id < Zlen (h_log h) ->
  exists i j, zlookup (js_ring s) i = Some (Some j) /\ j_id j = id.
Proof.
  intros Hrep Hid. pose proof (jr_cur _ _ Hrep). set (k := Zlen (h_log h) - 1 - id). assert (0 <= k < JOB_SLOTS) as Hk by lia.
  destruct (zlookup_is_Some (h_log h) k ltac:(lia)) as [j0 Hj0]. pose proof (jr_slots _ _ Hrep k Hk) as Hs.
  destruct (Z.ltb_spec k (h_current h)); [|lia]. rewrite Hj0 in Hs. unfold slot_job in Hs.
  destruct (zlookup (js_ring s) _) as [[j|]|] eqn:Ej; cbn in Hs; [|done|done]. injection Hs as Hs. eexists _, j. split; [exact Ej|].
  apply (jr_ids _ _ Hrep) in Hj0. rewrite <-Hs in Hj0. cbn [erase j_id] in Hj0. lia.
Qed.
Lemma job_lookup_spec s h id now : slots_rep s h ->
  same_verdict (job_lookup s id now) (history_lookup h id now) = true /\
  forall r, job_ref (job_lookup s id now) = Some r -> exists j, job_get s r = Some j /\ j_id j = id /\ erase j ∈ h_log h.
Proof.
  intros Hrep. unfold job_lookup, history_lookup. pose proof (find_slot_spec (js_ring s) id 0) as Hf.
  destruct (find_slot 0 (js_ring s) id) as [i|].
  - destruct Hf as (_ & j & Hj & Hid). rewrite Z.sub_0_r in Hj. destruct (live_job _ _ _ _ Hrep Hj) as [Hin Hr]. rewrite Hid in Hr.
    destruct (Z.leb_spec (Zlen (h_log h) - Z.min (h_current h) JOB_SLOTS) id), (Z.ltb_spec id (Zlen (h_log h))); try lia.
    split; [done|]. intros r [= <-]. exists j. cbn [job_get]. by rewrite Hj.
  - assert ((Zlen (h_log h) - Z.min (h_current h) JOB_SLOTS <=? id) && (id <? Zlen (h_log h)) = false) as ->.
    { apply not_true_iff_false. intros [H1 H2]%andb_true_iff. to_prop. destruct (recent_job_live s h id Hrep ltac:(lia)) as (i & j & Hj & E). by apply (Hf i j). }
    assert (j_id <$> h_retired h = j_id <$> js_previous s) as -> by (rewrite <-(jr_prev _ _ Hrep); by destruct (js_previous s)).
    rewrite <-(jr_ms _ _ Hrep), (jr_next _ _ Hrep). case_bool_decide as Hp.
    + unfold saturating_sub. destruct (Z.leb_spec (Z.max 0 (now - js_last_clean_ms s)) STALE_CREDIT_GRACE_MS),
        (Z.leb_spec (now - js_last_clean_ms s) STALE_CREDIT_GRACE_MS); unfold STALE_CREDIT_GRACE_MS in *; try lia; (split; [done|]); [|done].
      intros r [= <-]. cbn [job_get]. destruct (js_previous s) as [j|] eqn:Ej; [|done]. injection Hp as Hp. exists j. split_and!; [done|done|].
      apply (jr_retired _ _ Hrep). by rewrite <-(jr_prev _ _ Hrep), Ej.
    + destruct (id <? Zlen (h_log h)); (split; [done|]); done.
Qed.
Lemma history_log_grows ops : forall h, Zlen (h_log h) <= Zlen (h_log (fold_left history_step ops h)).
Proof.
  induction ops as [|o ops IH]; intros h; cbn [fold_left]; [lia|]. etransitivity; [|apply IH]. destruct o as [t tgt d [] now|]; cbn; zlen; lia.
Qed.
Lemma job_run_rep ops : forall s h, slots_rep s h -> Zlen (h_log (fold_left history_step ops h)) < 2 ^ 32 ->
  exists s', ofold job_step s ops = Ok s' /\ slots_rep s' (fold_left history_step ops h).
Proof.
  induction ops as [|o ops IH]; intros s h Hrep Hn; cbn [ofold fold_left] in *; [by exists s|].
  destruct o as [t tgt d clean now|r nonce]; cbn [job_step history_step] in *.
  - pose proof (history_log_grows ops (history_push h t tgt d clean now)) as Hg.
    assert (Zlen (h_log (history_push h t tgt d clean now)) = 1 + Zlen (h_log h)) as HL by (destruct clean; apply Zlen_cons).
    destruct (job_push_spec s h t tgt d clean now Hrep ltac:(lia)) as (s' & -> & Hrep'). cbn [obind snd]. by apply IH.
  - cbn [obind]. apply IH; [by apply check_duplicate_rep|done].
Qed.
(** A nonce that was recorded stays recorded. *)
Definition recorded s (r : JobRef) (nonce : Z) : Prop := exists j d, job_get s r = Some j /\ j_dedup j = Some d /\ nonce ∈ d.
Lemma existsb_elem nonce (d : list Z) : existsb (Z.eqb nonce) d = true <-> nonce ∈ d.
Proof.
  rewrite existsb_exists. setoid_rewrite <-list_elem_of_In. split; [intros (x & Hx & ->%Z.eqb_eq); done|].
  intros Hn. exists nonce. by rewrite Z.eqb_refl.
Qed.
Lemma job_get_update s r j j' :
  job_get s r = Some j ->
  job_get (match r with
           | RefLive i => MkJobSlots (zinsert (js_ring s) i (Some j')) (js_next_id s) (js_head s) (js_previous s) (js_last_clean_ms s)
           | RefPrevious => MkJobSlots (js_ring s) (js_next_id s) (js_head s) (Some j') (js_last_clean_ms s)
           end) r = Some j' /\
  forall r', r' <> r -> job_get (match r with
           | RefLive i => MkJobSlots (zinsert (js_ring s) i (Some j')) (js_next_id s) (js_head s) (js_previous s) (js_last_clean_ms s)
           | RefPrevious => MkJobSlots (js_ring s) (js_next_id s) (js_head s) (Some j') (js_last_clean_ms s)
           end) r' = job_get s r'.
Proof.
  intros Hj. destruct r as [i|]; cbn [job_get js_ring js_previous] in *.
  - destruct (zlookup (js_ring s) i) as [o|] eqn:Ei; [|done]. split; [by rewrite (zlookup_zinsert_eq _ _ _ _ Ei)|].
    intros [i'|] Hne; cbn [job_get js_ring js_previous]; [|done]. rewrite zlookup_zinsert_ne; [done|congruence].
  - split; [done|]. intros [i'|] Hne; [done|congruence].
Qed.
Lemma check_duplicate_spec s r j nonce : job_get s r = Some j ->
  (check_duplicate s r nonce).1 = bool_decide (nonce ∈ default [] (j_dedup j)) /\
  (forall r' n, recorded s r' n -> recorded (check_duplicate s r nonce).2 r' n) /\
  (Zlen (default [] (j_dedup j)) < DEDUP_PER_JOB -> recorded (check_duplicate s r nonce).2 r nonce).
Proof.
  intros Hj. unfold check_duplicate. rewrite Hj. unfold check_and_record. set (d := default [] (j_dedup j)).
  assert (existsb (Z.eqb nonce) d = bool_decide (nonce ∈ d)) as Hex by (apply eq_true_iff_eq; by rewrite existsb_elem, bool_decide_eq_true).
  unfold dedup_check. rewrite Hex. case_bool_decide as Hin; cbn [fst snd];
    destruct (job_get_update s r j (MkJob (j_id j) (j_template j) (j_served_target j) (j_served_difficulty j) (j_pushed_at_ms j)
      (Some (if bool_decide (nonce ∈ d) then d else if Zlen d <? DEDUP_PER_JOB then d ++ [nonce] else d))) Hj) as [Hs Ho];
    [rewrite bool_decide_true in Hs, Ho by done|rewrite bool_decide_false in Hs, Ho by done]; (split; [done|]); split.
  - intros r' n (j0 & d0 & Hj0 & Hd0 & Hn). destruct (decide (r' = r)) as [->|]; [|exists j0, d0; by rewrite Ho].
    eexists _, d. split; [exact Hs|]. split; [done|]. rewrite Hj in Hj0. simplify_eq. subst d. by rewrite Hd0.
  - intros _. eexists _, d. split; [exact Hs|]. done.
  - intros r' n (j0 & d0 & Hj0 & Hd0 & Hn). destruct (decide (r' = r)) as [->|]; [|exists j0, d0; by rewrite Ho].
    eexists _, _. split; [exact Hs|]. split; [done|]. rewrite Hj in Hj0. simplify_eq. subst d. rewrite Hd0. cbn.
    destruct (Zlen d0 <? DEDUP_PER_JOB); [apply elem_of_app; by left|done].
  - intros Hroom. eexists _, _. split; [exact Hs|]. split; [done|]. destruct (Z.ltb_spec (Zlen d) DEDUP_PER_JOB); [|lia]. apply elem_of_app. right. by apply list_elem_of_singleton.
Qed.
End JobProps.

(** ** Claims *)
(** C38. The job ring answers from the whole history of a connection. After any sequence of job pushes and nonce checks (fewer than [2^32] pushes, before the 32-bit ids
    come round) nothing has panicked, and a share that names a job id is: live exactly when the job is one of the last four pushed since the last new tip; credited
    although stale exactly when it names the job the last new tip retired and at most five seconds have passed; stale when the id was ever issued; unknown otherwise.
    The job it is then checked against is the very one pushed under that id, with its template, target and difficulty. *)
Theorem job_slots_refine_history {Template} (ops : list (job_op Template)) :
  Zlen (h_log (history_run ops)) < 2 ^ 32 ->
  exists s, job_run ops = Ok s /\ forall job_id now_ms,
    same_verdict (job_lookup s job_id now_ms) (history_lookup (history_run ops) job_id now_ms) = true /\
    forall r, job_ref (job_lookup s job_id now_ms) = Some r ->
      exists j, job_get s r = Some j /\ j_id j = job_id /\ erase j ∈ h_log (history_run ops).
Proof.
  intros Hn. destruct (job_run_rep ops _ _ JobSlots_new_rep Hn) as (s & Hs & Hrep). exists s. split; [exact Hs|].
  intros job_id now_ms. by apply job_lookup_spec.
Qed.
Lemma job_slots_refine_history_witness :
  let push (clean : bool) (now : Z) := OpPush tt (replicate 32 255) 1 clean now in
  exists s, job_run [push false 0; push false 10; push true 1000; OpCheck (RefLive 0) 7] = Ok s /\
    same_verdict (job_lookup s 1 6000) StaleCredited = true /\ same_verdict (job_lookup s 1 6001) Stale = true /\
    same_verdict (job_lookup s 2 6001) (Live 0) = true /\ same_verdict (job_lookup s 0 1000) Stale = true /\ same_verdict (job_lookup s 3 1000) Unknown = true.
Proof.
  intros push. destruct (job_slots_refine_history [push false 0; push false 10; push true 1000; OpCheck (RefLive 0) 7]) as (s & Hs & Hl); [vm_compute; reflexivity|].
  exists s. split; [exact Hs|].
  split; [apply (Hl 1 6000)|]. split; [apply (Hl 1 6001)|]. split; [apply (Hl 2 6001)|]. split; [apply (Hl 0 1000)|apply (Hl 3 1000)].
Defined.

Section Replay.
Context {Template : Type}.
(** A series of nonce checks, against whichever jobs of the connection. *)
Definition check_all (s : JobSlots Template) (cs : list (JobRef * Z)) : JobSlots Template := fold_left (fun s c => (check_duplicate s c.1 c.2).2) cs s.
Lemma check_all_recorded cs : forall (s : JobSlots Template) r n, recorded s r n -> recorded (check_all s cs) r n.
Proof.
  induction cs as [|c cs IH]; intros s r n Hr; cbn [check_all fold_left]; [done|]. apply IH.
  destruct (job_get s c.1) as [j|] eqn:Ej; [by apply (check_duplicate_spec s c.1 j c.2 Ej)|].
  unfold check_duplicate. by rewrite Ej.
Qed.
End Replay.
(** A share is not counted twice. A job starts with no nonce recorded and the first check of a nonce against it reports it as new; once a nonce has been checked
    while fewer than 256 are recorded, every later check of it against the same job reports a duplicate, whatever was checked in between; and a check never reports
    a nonce the job has not recorded. *)
Theorem replayed_share_refused {Template} (s : JobSlots Template) (r : JobRef) (j : Job Template) (nonce : Z) (cs : list (JobRef * Z)) :
  job_get s r = Some j -> Zlen (default [] (j_dedup j)) < DEDUP_PER_JOB ->
  (check_duplicate s r nonce).1 = bool_decide (nonce ∈ default [] (j_dedup j)) /\
  (check_duplicate (check_all (check_duplicate s r nonce).2 cs) r nonce).1 = true.
Proof.
  intros Hj Hroom. destruct (check_duplicate_spec s r j nonce Hj) as (Hd & _ & Hrec). split; [done|].
  destruct (check_all_recorded cs _ _ _ (Hrec Hroom)) as (j' & d & Hj' & Hd' & Hin).
  rewrite (proj1 (check_duplicate_spec _ r j' nonce Hj')), Hd'. by apply bool_decide_eq_true.
Qed.
Lemma replayed_share_refused_witness :
  exists s, job_push (@JobSlots_new unit) tt (replicate 32 255) 1 false 0 = Ok (0, s) /\
    (check_duplicate s (RefLive 1) 9).1 = false /\
    (check_duplicate (check_all (check_duplicate s (RefLive 1) 9).2 [(RefLive 1, 8); (RefPrevious, 9)]) (RefLive 1) 9).1 = true.
Proof.
  eexists. split; [reflexivity|].
  destruct (replayed_share_refused (MkJobSlots [None; Some (MkJob 0 tt (replicate 32 255) 1 0 None); None; None] 1 1 None 0) (RefLive 1)
    (MkJob 0 tt (replicate 32 255) 1 0 None) 9 [(RefLive 1, 8); (RefPrevious, 9)]) as [H1 H2]; [reflexivity|vm_compute; reflexivity|].
  split; [exact H1|exact H2].
Defined.
